(* ===== verification/_CoqProject ===== *)
-Q . S2P
Prelude.v
Trace.v
Ints.v
F64.v
Str.v
Order.v
F64Text.v
Json.v
FlowExpr.v
Errors.v
Flow.v
Scheduler.v
Grouping.v
Incremental.v
WorkflowSched.v
MonitorLoop.v
IpAddr.v
UrlGuard.v
CookieJar.v
Governor.v
LocalAuth.v
WsTicket.v
Clamp.v
Recurrence.v
Store.v
UpdateManifest.v
UpdateState.v
FlowRun.v
Dispatch.v
Extract.v
Resolve.v
HttpLane.v
HttpSteps.v
AuthRecipe.v
HttpLadder.v
VaultRoot.v
VaultFiles.v
Totp.v
AuthImport.v
AuthStage.v
VaultRecovery.v
VaultLock.v
VaultRotate.v
VaultCrash.v
Robots.v
CrawlNet.v
CrawlFetch.v
CrawlAdmit.v
CrawlJobs.v
CrawlLoop.v
CrawlShard.v
Registry.v
RunRows.v
RunWorld.v
RunRefs.v
RunEngine.v
RunAudit.v
RunLife.v
DataRedact.v
DataRows.v
DataQuery.v
DataText.v
DataLineage.v
CredStore.v
OAuth.v
ServerAuth.v
OAuthAudit.v
AuthAudit.v
Hooks.v
McpTools.v
McpGate.v
McpAudit.v
Checker.v
LocalMonitor.v
MonitorAudit.v
Backup.v
BackupApi.v
Files.v
Retention.v
