(* ===== verification/Prelude.v ===== *)
(** * writ-agent: a verification library

    The agent runs web monitoring, browser automation and a local API on a user's machine or in a
    fleet. This library models the parts of it that decide: what is checked and when, what may be
    fetched, who may call, what is admitted, and which update is installed. Browser and network I/O, rendering
    and SQL text are outside. File names below are relative to [src/] of the crate.

    ** Parts and files

    Foundations, without a counterpart of their own in the agent:
    - [Prelude]: results, automation ([zcases], [zlia], [bool_prop], the hint databases [writ] and
      [writ_rw]) and the list lemmas the components share; [retain], [position], [sort_by],
      [min_by_key] stand for the iterator and [Vec] methods of those names.
    - [Ints]: 64- and 32-bit integers as [Z] with wrap-around and saturation. [F64]: binary64 on the
      executable specification of the Standard Library. [Str]: [str] as UTF-8 bytes. [Json]:
      [serde_json::Value] with ordered objects. [IpAddr]: [std::net::IpAddr] and its parser.

    Monitoring, driven by the coordinator:
    - [Scheduler] (monitor/scheduler.rs): modules [Plain], [Adaptive] and [TimeSlot] for the three schedulers.
    - [Grouping] (monitor/models.rs, monitor/grouping.rs): targets, slot offsets, the round robin over slots.
    - [Incremental] (monitor/incremental.rs): the queue of versioned target updates.
    - [WorkflowSched] (monitor/workflow_scheduler.rs): scheduled workflows and the set of running ones.
    - [MonitorLoop] (monitor/cloud_loop.rs): the shared state and everything that changes it; it calls the
      four files above, as the code does. Each mutex is a field; an operation that takes several locks in turn
      is a composition of steps, and the relation [step] lets handlers and the loop interleave between them.

    Network safety:
    - [UrlGuard] (security/url_guard.rs): the screen against requests to internal addresses, and its cache.
    - [CookieJar] (automation/http_lane/jar.rs): the cookie jar of browserless requests.

    The local daemon:
    - [Governor] (local/governor.rs): admission of runs, one step per atomic operation, for any number of callers.
    - [LocalAuth] (local/auth.rs) and [WsTicket] (local/ws_ticket.rs): who may call the local API.
    - [Clamp] (local/scheduler/clamp.rs) and [Recurrence] (local/scheduler/recurrence.rs): cadence floors, daily
      and weekly schedules.
    - [UpdateManifest] (local/update/manifest.rs, local/update/policy.rs): signature check and update policy.
      [UpdateState] (local/update/version_record.rs, local/update/rollback.rs, the reconciliation in
      local/app/lifecycle.rs, local/api/v1/update.rs): the version record over a database whose
      statements can fail, the boot sequence, the verify route.

    ** Conventions

    Definitions keep the code's names; a method of a common name carries its type's ([route_parse]). A function that
    mutates returns the new state. A clock reading is an argument at the place the code takes it; where it is taken per element it is a function of the
    element. An error is a value of [result] or [option]. Integers are unbounded where the code's
    arithmetic cannot leave its range, and written with [as_i64], [sat_add] and the like where it
    can. Third-party code is an argument or the interface of a class: [Recurrence.Calendar] (calendar and
    zones), [UpdateManifest.UpdateLibs] with [UpdateLaws] (semver, dates, JSON text, base64, Ed25519,
    SHA-256), the URL parser and resolver of [UrlGuard], the digest of [WsTicket], the derived decoder
    of a target. Witnesses instantiate them by concrete functions.

    ** What the theorems show

    - Schedules: the slot-aligned time is the least slot in the future and equals the loop it replaced; no drift over any history; the adaptive period stays in its bounds; a
      recurrence's next run is its least future occurrence and being due is owing an occurrence; every
      interval respects its floor, but for one conversion that wraps.
    - The monitoring state: grouping partitions the targets; the update queue refines its specification; an
      invariant holds in every state reachable by interleaved handlers and loop steps; a tick hands out
      exactly what is due; the reaper releases exactly the stale. Three races the steps admit
      are exhibited: a lost skip, a phantom run, an update lost behind a rebuild.
    - Safety at the edges: the URL guard lets through an exactly stated set and its two implementations
      agree; a cookie goes back only to the host or suffix it came from; an origin, a scope, a bearer and a ticket are
      accepted exactly when stated; a one-use ticket refines a specification that never prunes.
    - Admission: under every interleaving the ceilings hold and no slot leaks.
    - Updates: approval is a conjunction of all gates, insensitive to field order; rollouts only
      widen; the version record stays well-formed under failing statements; two failed boots demand
      a rollback, after which the same build is approved again.

    ** Bounds and fuel

    [Scheduler.advance_loop] is the replaced loop with fuel: its equivalence theorem gives an amount that
    suffices. [Recurrence.search] runs the code's own nine iterations. Every other recursion is
    structural. Schedule parameters are within the ranges the constructors establish ([params_ok]) and
    clock readings under [2^62] milliseconds ([clock_ok]).

    ** Not modelled, and next

    Left out for good: browser control, capture, rendering, prompts, SQL text, process start-up, and the vendored
    Playwright client. Planned, in this order: the vault's lock states and key rotation, flow
    conditions and templates (local/flow.rs), crawl scope and robots rules (crawl_shard), the filters of
    local/data_query.rs, the engine's registry of live runs, the authenticator import's wire
    reader, the HTTP lane's eligibility ladder, the element diff of dom/diff.rs, entitlements, the capacity
    budgets, and the scheduler's ticks over [Recurrence]. *)

From Stdlib Require Export ZArith Lia.
From Stdlib Require Import Sorted.
From stdpp Require Export base decidable numbers list option sets gmap strings.

#[export] Set Default Goal Selector "!".

(** ** Results

    Rust's [Result<T, E>]. *)
Inductive result (A E : Type) : Type :=
| Ok (a : A)
| Err (e : E).
Arguments Ok {A E} a.
Arguments Err {A E} e.

Definition result_bind {A B E : Type} (r : result A E) (k : A -> result B E) : result B E :=
  match r with
  | Ok a => k a
  | Err e => Err e
  end.

Definition map_err {A E F : Type} (f : E -> F) (r : result A E) : result A F :=
  match r with
  | Ok a => Ok a
  | Err e => Err (f e)
  end.

Definition ok_or {A E : Type} (o : option A) (e : E) : result A E :=
  match o with
  | Some a => Ok a
  | None => Err e
  end.

Definition result_ok {A E : Type} (r : result A E) : option A :=
  match r with
  | Ok a => Some a
  | Err _ => None
  end.

(** [unwrap_or] of [Option]. *)
Definition unwrap_or {A : Type} (o : option A) (d : A) : A := default d o.

Declare Scope writ_scope.
Delimit Scope writ_scope with writ.
Notation "'let?' x ':=' r 'in' k" := (result_bind r (fun x => k))
  (at level 10, x pattern, r at level 100, k at level 200) : writ_scope.
#[export] Instance result_eq_dec {A E : Type} `{EqDecision A, EqDecision E} : EqDecision (result A E).
Proof. solve_decision. Defined.

(** ** Hints and tactics *)

Create HintDb writ.
Create Rewrite HintDb writ_rw.

(** Turn the boolean integer comparisons of a goal or of the hypotheses into case splits. *)
Ltac zcases :=
  repeat match goal with
  | |- context [Z.ltb ?a ?b] => destruct (Z.ltb_spec a b)
  | |- context [Z.leb ?a ?b] => destruct (Z.leb_spec a b)
  | |- context [Z.eqb ?a ?b] => destruct (Z.eqb_spec a b)
  | H : context [Z.ltb ?a ?b] |- _ => destruct (Z.ltb_spec a b)
  | H : context [Z.leb ?a ?b] |- _ => destruct (Z.leb_spec a b)
  | H : context [Z.eqb ?a ?b] |- _ => destruct (Z.eqb_spec a b)
  end.

(** Split a [match] in the goal, remembering the equation, and clean up. *)
Ltac split_match := case_match; simplify_eq/=; try done.

(** Linear arithmetic with [Z.div] and [Z.modulo]. *)
Ltac zlia := Z.to_euclidean_division_equations; lia.

(** Close a goal about booleans by turning them into propositions. *)
Ltac bool_prop :=
  repeat match goal with
  | H : _ && _ = true |- _ => apply andb_prop in H as [? ?]
  | H : _ || _ = false |- _ => apply orb_false_elim in H as [? ?]
  | H : negb _ = true |- _ => apply negb_true_iff in H
  | H : negb _ = false |- _ => apply negb_false_iff in H
  | H : bool_decide _ = true |- _ => apply bool_decide_eq_true_1 in H
  | H : bool_decide _ = false |- _ => apply bool_decide_eq_false_1 in H
  end.

(** Evaluate a closed decidable proposition. *)
Ltac by_compute := vm_compute; repeat split; try reflexivity; try discriminate; try congruence.

(** ** Booleans *)

Lemma bool_eq_iff (a b : bool) : (a = true <-> b = true) -> a = b.
Proof. destruct a, b; intuition congruence. Qed.

(** ** Lists *)

(** [Vec::retain], the in-place filter. *)
Definition retain {A : Type} (f : A -> bool) (l : list A) : list A := filter (fun x => Is_true (f x)) l.

Lemma elem_of_retain {A : Type} (f : A -> bool) (l : list A) (x : A) :
  x ∈ retain f l <-> f x = true /\ x ∈ l.
Proof. unfold retain. rewrite list_elem_of_filter, Is_true_true. done. Qed.

Lemma retain_length {A : Type} (f : A -> bool) (l : list A) : length (retain f l) <= length l.
Proof. apply length_filter. Qed.

Lemma retain_sublist {A : Type} (f : A -> bool) (l : list A) : retain f l `sublist_of` l.
Proof.
  induction l as [|a l IH]; [constructor|]. unfold retain. rewrite filter_cons.
  case_decide; [by constructor | by constructor].
Qed.

Lemma retain_app {A : Type} (f : A -> bool) (l k : list A) :
  retain f (l ++ k) = retain f l ++ retain f k.
Proof. apply list.filter_app. Qed.

(** [Iterator::position]. *)
Fixpoint position {A : Type} (f : A -> bool) (l : list A) : option nat :=
  match l with
  | [] => None
  | x :: l' => if f x then Some 0 else S <$> position f l'
  end.

Lemma position_Some {A : Type} (f : A -> bool) (l : list A) (i : nat) :
  position f l = Some i -> exists x, l !! i = Some x /\ f x = true.
Proof.
  revert i. induction l as [|a l IH]; intros i; simpl; [done|].
  destruct (f a) eqn:E; [intros [= <-]; by exists a|].
  destruct (position f l) as [j|]; simpl; [|done].
  intros [= <-]. destruct (IH j eq_refl) as (x & ? & ?). by exists x.
Qed.

(** [Iterator::find]. *)
Fixpoint find_first {A : Type} (f : A -> bool) (l : list A) : option A :=
  match l with
  | [] => None
  | x :: l' => if f x then Some x else find_first f l'
  end.

Lemma find_first_Some {A : Type} (f : A -> bool) (l : list A) (x : A) :
  find_first f l = Some x -> x ∈ l /\ f x = true.
Proof.
  induction l as [|a l IH]; simpl; [done|].
  rewrite elem_of_cons. destruct (f a) eqn:E; [intros [= <-]; auto|].
  intros H. destruct (IH H). auto.
Qed.

Lemma find_first_None {A : Type} (f : A -> bool) (l : list A) :
  find_first f l = None <-> forall x, x ∈ l -> f x = false.
Proof.
  induction l as [|a l IH]; simpl.
  { split; [|done]. intros _ x Hx. by apply elem_of_nil in Hx. }
  setoid_rewrite elem_of_cons. destruct (f a) eqn:E.
  - split; [done|]. intros H. specialize (H a (or_introl eq_refl)). congruence.
  - rewrite IH. split; [intros H x [->|Hx]; auto|auto].
Qed.

(** Pairs of an element and its index: [iter().enumerate()]. *)
Definition enumerate {A : Type} (l : list A) : list (nat * A) := zip (seq 0 (length l)) l.

(** [Iterator::any] and [Iterator::all] as booleans. *)
Definition any {A : Type} (f : A -> bool) (l : list A) : bool := existsb f l.
Definition all {A : Type} (f : A -> bool) (l : list A) : bool := forallb f l.

Lemma any_true {A : Type} (f : A -> bool) (l : list A) :
  any f l = true <-> exists x, x ∈ l /\ f x = true.
Proof.
  unfold any. rewrite existsb_exists. by setoid_rewrite list_elem_of_In.
Qed.

Lemma any_false {A : Type} (f : A -> bool) (l : list A) :
  any f l = false <-> forall x, x ∈ l -> f x = false.
Proof.
  rewrite <-not_true_iff_false, any_true. split.
  - intros H x Hx. apply not_true_iff_false. eauto.
  - intros H (x & Hx & Ht). specialize (H x Hx). congruence.
Qed.

Lemma all_true {A : Type} (f : A -> bool) (l : list A) :
  all f l = true <-> forall x, x ∈ l -> f x = true.
Proof.
  unfold all. rewrite forallb_forall. by setoid_rewrite list_elem_of_In.
Qed.

#[export] Hint Resolve retain_length retain_sublist : writ.
#[export] Hint Rewrite @elem_of_retain @retain_app : writ_rw.

(** ** Splitting a list by a small index *)

Lemma retain_all {A : Type} (f : A -> bool) (l : list A) :
  (forall x, x ∈ l -> f x = true) -> retain f l = l.
Proof.
  induction l as [|a l IH]; intros H; [done|]. unfold retain in *.
  rewrite filter_cons_True.
  - rewrite IH; [done|]. intros x Hx. apply H. by right.
  - apply Is_true_true, H. by left.
Qed.

Lemma retain_cons {A : Type} (f : A -> bool) (a : A) (l : list A) :
  retain f (a :: l) = if f a then a :: retain f l else retain f l.
Proof. unfold retain. rewrite filter_cons. by destruct (f a). Qed.

Lemma retain_none {A : Type} (f : A -> bool) (l : list A) :
  (forall x, x ∈ l -> f x = false) -> retain f l = [].
Proof.
  induction l as [|a l IH]; intros H; [done|]. rewrite retain_cons, (H a) by (by left).
  apply IH. intros x Hx. apply H. by right.
Qed.

Lemma retain_retain {A : Type} (f g : A -> bool) (l : list A) :
  retain f (retain g l) = retain (fun x => g x && f x) l.
Proof.
  induction l as [|a l IH]; [done|]. rewrite !retain_cons.
  destruct (g a); simpl; rewrite ?retain_cons, IH; done.
Qed.

Lemma retain_ext {A : Type} (f g : A -> bool) (l : list A) :
  (forall x, x ∈ l -> f x = g x) -> retain f l = retain g l.
Proof.
  induction l as [|a l IH]; intros H; [done|]. rewrite !retain_cons, IH.
  - rewrite (H a); [done|by left].
  - intros x Hx. apply H. by right.
Qed.

Lemma retain_or_perm {A : Type} (f g : A -> bool) (l : list A) :
  (forall x, f x = true -> g x = false) ->
  retain f l ++ retain g l ≡ₚ retain (fun x => f x || g x) l.
Proof.
  intros Hd. induction l as [|a l IH]; [done|]. rewrite !retain_cons.
  destruct (f a) eqn:Ef; simpl.
  - rewrite (Hd a Ef). by rewrite IH.
  - destruct (g a); simpl; [|done]. by rewrite <-Permutation_middle, IH.
Qed.

(** The classes of an index below [n] partition a list. *)
Lemma classes_perm {A : Type} (f : A -> nat) (n : nat) (l : list A) :
  (forall x, x ∈ l -> f x < n) ->
  concat ((fun k => retain (fun x => bool_decide (f x = k)) l) <$> seq 0 n) ≡ₚ l.
Proof.
  intros Hn.
  assert (Hgen : forall m, concat ((fun k => retain (fun x => bool_decide (f x = k)) l) <$> seq 0 m)
                           ≡ₚ retain (fun x => bool_decide (f x < m)) l).
  { induction m as [|m IH].
    - simpl. rewrite retain_none; [done|]. intros x _. done.
    - rewrite seq_S, fmap_app, concat_app. simpl. rewrite app_nil_r, IH.
      rewrite retain_or_perm.
      + erewrite (retain_ext _ (fun x => bool_decide (f x < S m))); [done|].
        intros x _. simpl. repeat case_bool_decide; simpl; done || lia.
      + intros x. rewrite bool_decide_eq_true, bool_decide_eq_false. lia. }
  rewrite Hgen, retain_all; [done|]. intros x Hx. by apply bool_decide_eq_true_2, Hn.
Qed.

Lemma snd_enumerate {A : Type} (l : list A) : snd <$> enumerate l = l.
Proof. unfold enumerate. apply snd_zip. by rewrite length_seq. Qed.

Lemma fst_enumerate {A : Type} (l : list A) : fst <$> enumerate l = seq 0 (length l).
Proof. unfold enumerate. apply fst_zip. by rewrite length_seq. Qed.

Lemma fmap_concat {A B : Type} (f : A -> B) (ls : list (list A)) :
  f <$> (concat ls : list A) = concat ((fun l : list A => f <$> l) <$> ls) :> list B.
Proof. induction ls as [|l ls IH]; [done|]. simpl. by rewrite fmap_app, IH. Qed.

Lemma concat_fmap_omap {A B C : Type} (f : A -> option B) (g : B -> list C) (h : A -> list C) (l : list A) :
  (forall a, a ∈ l -> h a = match f a with Some b => g b | None => [] end) ->
  concat (g <$> omap f l) = concat (h <$> l).
Proof.
  induction l as [|a l IH]; intros H; [done|].
  assert (IH' : concat (g <$> omap f l) = concat (h <$> l)) by (apply IH; intros x Hx; apply H; by right).
  rewrite fmap_cons. cbn [concat]. rewrite (H a), <-IH' by (by left).
  change (omap f (a :: l)) with (match f a with Some b => b :: omap f l | None => omap f l end).
  by destruct (f a).
Qed.

(** ** Sorted keys *)

Lemma sorted_fmap_cons {A : Type} (f : A -> Z) (a : A) (l : list A) :
  StronglySorted Z.lt (f <$> a :: l) <->
  StronglySorted Z.lt (f <$> l) /\ Forall (fun x => (f a < f x)%Z) l.
Proof.
  rewrite fmap_cons. split.
  - intros H. inversion H as [|? ? H1 H2]; subst. split; [done|].
    by rewrite Forall_fmap in H2.
  - intros [H1 H2]. constructor; [done|]. by rewrite Forall_fmap.
Qed.

Lemma retain_length_eq {A : Type} (f : A -> bool) (l : list A) :
  length (retain f l) = length l -> retain f l = l.
Proof.
  induction l as [|a l IH]; [done|]. rewrite retain_cons. destruct (f a); simpl.
  - intros [= H]. by rewrite IH.
  - pose proof (retain_length f l). lia.
Qed.

Lemma elem_of_nil_inv {A : Type} (l : list A) (x : A) : l = [] -> x ∈ l -> False.
Proof. intros -> H. by apply elem_of_nil in H. Qed.

(** ** Minimum of a list *)

Lemma fold_min_init (l : list Z) (m : Z) : (foldl Z.min m l <= m)%Z.
Proof. revert m. induction l as [|a l IH]; intros m; simpl; [lia|]. specialize (IH (Z.min m a)). lia. Qed.

Lemma fold_min_le (l : list Z) (m x : Z) : x = m \/ x ∈ l -> (foldl Z.min m l <= x)%Z.
Proof.
  intros [->|H]; [apply fold_min_init|]. revert m. induction H as [x l|x y l H IH]; intros m; simpl.
  - pose proof (fold_min_init l (Z.min m x)). lia.
  - apply IH.
Qed.

Lemma fold_min_elem (l : list Z) (m : Z) : foldl Z.min m l = m \/ foldl Z.min m l ∈ l.
Proof.
  revert m. induction l as [|a l IH]; intros m; simpl; [by left|].
  rewrite elem_of_cons. destruct (IH (Z.min m a)) as [E|E]; [|tauto].
  rewrite E. destruct (Z.min_spec m a) as [[_ ->]|[_ ->]]; tauto.
Qed.

Lemma lookup_enumerate {A : Type} (l : list A) (i : nat) (x : A) :
  (i, x) ∈ enumerate l <-> l !! i = Some x.
Proof.
  unfold enumerate. rewrite list_elem_of_lookup. split.
  - intros [j Hj]. apply lookup_zip_Some in Hj as [H1 H2]. apply lookup_seq in H1 as [H1 _]. simpl in H1. by subst.
  - intros H. exists i. apply lookup_zip_Some. split; [|done].
    apply lookup_seq. split; [done|]. by apply lookup_lt_Some in H.
Qed.

(** ** Stable sorting ([slice::sort_by])

    [le] tells that its first argument may stand before its second. *)

Fixpoint insert_sorted {A : Type} (le : A -> A -> bool) (x : A) (l : list A) : list A :=
  match l with
  | [] => [x]
  | y :: l' => if le x y then x :: l else y :: insert_sorted le x l'
  end.

Definition sort_by {A : Type} (le : A -> A -> bool) (l : list A) : list A := foldr (insert_sorted le) [] l.

Lemma insert_sorted_perm {A : Type} (le : A -> A -> bool) (x : A) (l : list A) : insert_sorted le x l ≡ₚ x :: l.
Proof.
  induction l as [|y l IH]; simpl; [done|]. destruct (le x y); [done|]. rewrite IH. apply Permutation_swap.
Qed.

Lemma sort_by_perm {A : Type} (le : A -> A -> bool) (l : list A) : sort_by le l ≡ₚ l.
Proof. induction l as [|x l IH]; simpl; [done|]. by rewrite insert_sorted_perm, IH. Qed.

Lemma sort_by_elem {A : Type} (le : A -> A -> bool) (l : list A) (x : A) : x ∈ sort_by le l <-> x ∈ l.
Proof. by rewrite sort_by_perm. Qed.

Lemma insert_sorted_sorted {A : Type} (le : A -> A -> bool) (x : A) (l : list A) :
  (forall a b, le a b = true \/ le b a = true) ->
  (forall a b c, le a b = true -> le b c = true -> le a c = true) ->
  StronglySorted (fun a b => le a b = true) l -> StronglySorted (fun a b => le a b = true) (insert_sorted le x l).
Proof.
  intros Htot Htr. induction 1 as [|y l Hl IH Hy]; simpl; [repeat constructor|].
  destruct (le x y) eqn:E.
  - constructor; [by constructor|]. constructor; [done|].
    eapply Forall_impl; [exact Hy|]. intros z Hz. by eapply Htr.
  - constructor; [done|]. apply Forall_forall. intros z Hz. rewrite insert_sorted_perm in Hz.
    apply elem_of_cons in Hz as [->|Hz]; [destruct (Htot x y); [congruence|done]|].
    rewrite Forall_forall in Hy. by apply Hy.
Qed.

Lemma sort_by_sorted {A : Type} (le : A -> A -> bool) (l : list A) :
  (forall a b, le a b = true \/ le b a = true) ->
  (forall a b c, le a b = true -> le b c = true -> le a c = true) ->
  StronglySorted (fun a b => le a b = true) (sort_by le l).
Proof. intros H1 H2. induction l as [|x l IH]; simpl; [constructor|]. by apply insert_sorted_sorted. Qed.

(** Sorting commutes with a map the order cannot see. *)
Lemma sort_by_fmap {A B : Type} (leA : A -> A -> bool) (leB : B -> B -> bool) (f : A -> B) (l : list A) :
  (forall a b, a ∈ l -> b ∈ l -> leB (f a) (f b) = leA a b) ->
  sort_by leB (f <$> l) = f <$> sort_by leA l.
Proof.
  induction l as [|x l IH]; intros H; [done|]. rewrite fmap_cons. simpl. rewrite IH.
  2: { intros a b Ha Hb. apply H; by right. }
  assert (Hx : forall a, a ∈ sort_by leA l -> leB (f x) (f a) = leA x a).
  { intros a Ha. apply H; [by left|]. right. by apply sort_by_elem in Ha. }
  clear H IH. revert Hx. induction (sort_by leA l) as [|y k IHk]; intros Hx; [done|]. simpl.
  rewrite Hx by (by left). destruct (leA x y); [done|]. rewrite fmap_cons. f_equal.
  apply IHk. intros a Ha. apply Hx. by right.
Qed.

(** [Iterator::min_by_key] (the first minimum) and [max_by_key] (the last maximum). *)
Fixpoint min_by_key {A : Type} (key : A -> Z) (l : list A) : option A :=
  match l with
  | [] => None
  | x :: l' => match min_by_key key l' with
               | Some y => Some (if (key x <=? key y)%Z then x else y)
               | None => Some x
               end
  end.

Fixpoint max_by_key {A : Type} (key : A -> Z) (l : list A) : option A :=
  match l with
  | [] => None
  | x :: l' => match max_by_key key l' with
               | Some y => Some (if (key x <=? key y)%Z then y else x)
               | None => Some x
               end
  end.

Lemma min_by_key_Some {A : Type} (key : A -> Z) (l : list A) (x : A) :
  min_by_key key l = Some x -> x ∈ l /\ Forall (fun y => (key x <= key y)%Z) l.
Proof.
  revert x. induction l as [|a l IH]; intros x; simpl; [done|].
  destruct (min_by_key key l) as [y|] eqn:E.
  - destruct (IH y eq_refl) as [Hy Hf]. destruct (Z.leb_spec (key a) (key y)); intros [= <-].
    + split; [by left|]. constructor; [lia|]. eapply Forall_impl; [exact Hf|]. simpl. lia.
    + split; [by right|]. constructor; [lia|done].
  - intros [= <-]. split; [by left|]. destruct l as [|b l]; [by repeat constructor|].
    simpl in E. by destruct (min_by_key key l).
Qed.

Lemma max_by_key_Some {A : Type} (key : A -> Z) (l : list A) (x : A) :
  max_by_key key l = Some x -> x ∈ l /\ Forall (fun y => (key y <= key x)%Z) l.
Proof.
  revert x. induction l as [|a l IH]; intros x; simpl; [done|].
  destruct (max_by_key key l) as [y|] eqn:E.
  - destruct (IH y eq_refl) as [Hy Hf]. destruct (Z.leb_spec (key a) (key y)); intros [= <-].
    + split; [by right|]. constructor; [lia|done].
    + split; [by left|]. constructor; [lia|]. eapply Forall_impl; [exact Hf|]. simpl. lia.
  - intros [= <-]. split; [by left|]. destruct l as [|b l]; [by repeat constructor|].
    simpl in E. by destruct (max_by_key key l).
Qed.

Lemma Forall_sublist_of {A : Type} (P : A -> Prop) (l k : list A) : l `sublist_of` k -> Forall P k -> Forall P l.
Proof. intros Hs Hk. rewrite Forall_forall in *. intros x Hx. apply Hk. by eapply sublist_subseteq. Qed.

Lemma retain_fmap {A B : Type} (p : B -> bool) (f : A -> B) (l : list A) :
  retain p (f <$> l) = f <$> retain (fun a => p (f a)) l.
Proof.
  induction l as [|a l IH]; [done|]. rewrite fmap_cons, !retain_cons. by destruct (p (f a)); rewrite ?fmap_cons, IH.
Qed.

(** Strictly sorted keys compare as their positions. *)
Lemma sorted_lookup_le {A : Type} (f : A -> Z) (l : list A) (i j : nat) (a b : A) :
  StronglySorted Z.lt (f <$> l) -> l !! i = Some a -> l !! j = Some b -> (f a <=? f b)%Z = (i <=? j).
Proof.
  revert i j. induction l as [|x l IH]; intros i j Hs Hi Hj; [done|].
  apply sorted_fmap_cons in Hs as [Hs Hx]. rewrite Forall_forall in Hx.
  destruct i as [|i], j as [|j]; simpl in Hi, Hj; simplify_eq.
  - by rewrite Z.leb_refl.
  - apply list_elem_of_lookup_2 in Hj. specialize (Hx b Hj). apply Z.leb_le. lia.
  - apply list_elem_of_lookup_2 in Hi. specialize (Hx a Hi). apply Z.leb_gt. lia.
  - exact (IH i j Hs Hi Hj).
Qed.

Lemma enumerate_elem {A : Type} (l : list A) (i : nat) (x : A) : (i, x) ∈ enumerate l -> x ∈ l.
Proof. intros H%lookup_enumerate. by eapply list_elem_of_lookup_2. Qed.
