(* ===== verification/Trace.v ===== *)
(** * Tasks against an environment

    A task of the program that asks questions of its surroundings and has effects on them: a function of the events so far,
    the latest first, to its result and the events after it. What the surroundings answer is a function of the events so far,
    so a statement for every such function is a statement for every behaviour of them. *)

From S2P Require Import Prelude.

Section trace.
Context {E : Type}.

Definition W (A : Type) : Type := list E -> A * list E.
Definition wret {A : Type} (a : A) : W A := fun l => (a, l).
Definition wbind {A B : Type} (m : W A) (k : A -> W B) : W B := fun l => let '(a, l) := m l in k a l.
Definition ask {A : Type} (f : list E -> A) : W A := fun l => (f l, l).
Definition note (e : E) : W unit := fun l => (tt, e :: l).

(** [m] adds events that satisfy [P] and its result satisfies [Q]. *)
Definition adds {A : Type} (P : E -> Prop) (m : W A) (Q : A -> Prop) : Prop :=
  forall l, exists new, snd (m l) = new ++ l /\ Forall P new /\ Q (fst (m l)).

Lemma adds_ret {A : Type} (P : E -> Prop) (a : A) (Q : A -> Prop) : Q a -> adds P (wret a) Q.
Proof. intros Ha l. exists []. split_and!; [done|constructor|done]. Qed.

Lemma adds_bind {A B : Type} (P : E -> Prop) (m : W A) (k : A -> W B) (R : A -> Prop) (Q : B -> Prop) :
  adds P m R -> (forall a, R a -> adds P (k a) Q) -> adds P (wbind m k) Q.
Proof.
  intros Hm Hk l. destruct (Hm l) as (n1 & E1 & F1 & Ra). unfold wbind. destruct (m l) as [a l1]. simpl in *. subst l1.
  destruct (Hk a Ra (n1 ++ l)) as (n2 & E2 & F2 & Qb). exists (n2 ++ n1). rewrite E2, app_assoc.
  split_and!; [done|by apply Forall_app|done].
Qed.

Lemma adds_ask {A : Type} (P : E -> Prop) (f : list E -> A) (Q : A -> Prop) : (forall l, Q (f l)) -> adds P (ask f) Q.
Proof. intros Hf l. exists []. split_and!; [done|constructor|apply Hf]. Qed.

Lemma adds_note (P : E -> Prop) (e : E) (Q : unit -> Prop) : P e -> Q tt -> adds P (note e) Q.
Proof. intros He HQ l. exists [e]. split_and!; [done|by repeat constructor|done]. Qed.

Lemma adds_weaken {A : Type} (P : E -> Prop) (m : W A) (R Q : A -> Prop) : (forall a, R a -> Q a) -> adds P m R -> adds P m Q.
Proof. intros HRQ Hm l. destruct (Hm l) as (n & ? & ? & ?). exists n. auto. Qed.
End trace.
Arguments W : clear implicits.

(** ** Automata over the events

    [watch] is the step of an automaton, [None] when it refuses the event; a task [runs] from a state when every event it adds
    is accepted and [Q] holds of its result and of the state it leaves. *)

Section audit.
Context {E S : Type} (watch : E -> S -> option S) (init : S).

Fixpoint audit (l : list E) : option S := match l with [] => Some init | e :: l => audit l ≫= watch e end.

(** What was accepted was accepted so far. *)
Lemma audit_drop (k : nat) (l : list E) : is_Some (audit l) -> is_Some (audit (drop k l)).
Proof.
  revert k. induction l as [|e l IH]; intros [|k]; cbn; try done. intros Ha. apply IH. destruct (audit l); [done|by destruct Ha].
Qed.

(** Every event of an accepted sequence was accepted in some state. *)
Lemma audit_Forall (P : E -> Prop) (l : list E) :
  (forall e w, is_Some (watch e w) -> P e) -> is_Some (audit l) -> Forall P l.
Proof.
  intros HP. induction l as [|e l IH]; cbn; [constructor|]. destruct (audit l) as [w|] eqn:Ea; [|by intros [? ?]].
  intros Ha. constructor; [by apply (HP e w)|by apply IH].
Qed.

Definition runs {A : Type} (w : S) (m : W E A) (Q : A -> S -> Prop) : Prop :=
  forall l, audit l = Some w -> exists w', audit (snd (m l)) = Some w' /\ Q (fst (m l)) w'.

Lemma runs_ret {A : Type} (w : S) (a : A) (Q : A -> S -> Prop) : Q a w -> runs w (wret a) Q.
Proof. intros HQ l Hl. by exists w. Qed.

Lemma runs_bind {A B : Type} (w : S) (m : W E A) (k : A -> W E B) (R : A -> S -> Prop) (Q : B -> S -> Prop) :
  runs w m R -> (forall a w', R a w' -> runs w' (k a) Q) -> runs w (wbind m k) Q.
Proof.
  intros Hm Hk l Hl. destruct (Hm l Hl) as (w1 & E1 & Ra). unfold wbind. destruct (m l) as [a l1]. exact (Hk a w1 Ra l1 E1).
Qed.

Lemma runs_weaken {A : Type} (w : S) (m : W E A) (R Q : A -> S -> Prop) : (forall a w', R a w' -> Q a w') -> runs w m R -> runs w m Q.
Proof. intros HRQ Hm l Hl. destruct (Hm l Hl) as (w' & ? & ?). exists w'. auto. Qed.

(** The first action of a task. *)
Lemma runs_note {A : Type} (w w' : S) (e : E) (k : unit -> W E A) (Q : A -> S -> Prop) :
  watch e w = Some w' -> runs w' (k tt) Q -> runs w (wbind (note e) k) Q.
Proof. intros He Hk l Hl. apply (Hk (e :: l)). cbn. by rewrite Hl. Qed.

Lemma runs_ask {A B : Type} (w : S) (f : list E -> A) (k : A -> W E B) (Q : B -> S -> Prop) :
  (forall a, runs w (k a) Q) -> runs w (wbind (ask f) k) Q.
Proof. intros Hk l Hl. by apply (Hk (f l)). Qed.

(** An action whose event tells its answer. *)
Lemma runs_act {A B : Type} (w : S) (f : list E -> A) (e : A -> E) (k : A -> W E B) (Q : B -> S -> Prop) :
  (forall a, exists w', watch (e a) w = Some w' /\ runs w' (k a) Q) -> runs w (wbind (fun l => (f l, e (f l) :: l)) k) Q.
Proof. intros Hk l Hl. destruct (Hk (f l)) as (w' & He & Hr). apply (Hr (e (f l) :: l)). cbn. by rewrite Hl. Qed.
End audit.

Declare Scope trace_scope.
Notation "'let^' x ':=' m 'in' k" := (wbind m (fun x => k))
  (at level 10, x pattern, m at level 100, k at level 200) : trace_scope.
Notation "m ;^ k" := (wbind m (fun _ => k)) (at level 100, k at level 200, right associativity) : trace_scope.
