(* ===== verification/Ints.v ===== *)
(** * Machine integers

    Rust's fixed-width integers as [Z], with the wrap-around, saturation and checks of
    the operations the agent uses written out. *)

From S2P Require Import Prelude.
Open Scope Z_scope.

Definition i64_min : Z := - 2 ^ 63.
Definition i64_max : Z := 2 ^ 63 - 1.
Definition u64_max : Z := 2 ^ 64 - 1.
Definition u32_max : Z := 2 ^ 32 - 1.

Definition in_i64 (z : Z) : Prop := i64_min <= z <= i64_max.
Definition in_u64 (z : Z) : Prop := 0 <= z <= u64_max.

#[export] Instance in_i64_dec (z : Z) : Decision (in_i64 z).
Proof. unfold in_i64. apply _. Defined.
#[export] Instance in_u64_dec (z : Z) : Decision (in_u64 z).
Proof. unfold in_u64. apply _. Defined.

(** Two's-complement reinterpretation ([as u64], [as i64], [as u32]) and release-mode
    wrapping arithmetic. *)
Definition wrap_u (w z : Z) : Z := z mod 2 ^ w.
Definition wrap_s (w z : Z) : Z := (z + 2 ^ (w - 1)) mod 2 ^ w - 2 ^ (w - 1).
Definition as_u64 (z : Z) : Z := wrap_u 64 z.
Definition as_u32 (z : Z) : Z := wrap_u 32 z.
Definition as_i64 (z : Z) : Z := wrap_s 64 z.

(** [saturating_add], [saturating_sub], [saturating_mul] on [i64]. *)
Definition sat_i64 (z : Z) : Z := Z.max i64_min (Z.min z i64_max).
Definition sat_add (a b : Z) : Z := sat_i64 (a + b).
Definition sat_sub (a b : Z) : Z := sat_i64 (a - b).
Definition sat_mul (a b : Z) : Z := sat_i64 (a * b).

(** [Ord::clamp] for bounds in order (Rust panics when they are not). *)
Definition clamp (lo hi x : Z) : Z := Z.max lo (Z.min x hi).

(** [i64::div_euclid] for a non-zero divisor. *)
Definition div_euclid (a b : Z) : Z := Z.sgn b * (a / Z.abs b).

Lemma sat_i64_in (z : Z) : in_i64 (sat_i64 z).
Proof. unfold in_i64, sat_i64, i64_min, i64_max. lia. Qed.

Lemma sat_i64_id (z : Z) : in_i64 z -> sat_i64 z = z.
Proof. unfold in_i64, sat_i64. lia. Qed.

Lemma sat_add_exact (a b : Z) : in_i64 (a + b) -> sat_add a b = a + b.
Proof. apply sat_i64_id. Qed.

Lemma sat_sub_exact (a b : Z) : in_i64 (a - b) -> sat_sub a b = a - b.
Proof. apply sat_i64_id. Qed.

Lemma sat_mul_exact (a b : Z) : in_i64 (a * b) -> sat_mul a b = a * b.
Proof. apply sat_i64_id. Qed.

Lemma as_i64_id (z : Z) : in_i64 z -> as_i64 z = z.
Proof.
  unfold in_i64, as_i64, wrap_s, i64_min, i64_max. intros H.
  change (2 ^ (64 - 1)) with (2 ^ 63). rewrite Z.mod_small; lia.
Qed.

Lemma as_i64_in (z : Z) : in_i64 (as_i64 z).
Proof.
  unfold in_i64, as_i64, wrap_s, i64_min, i64_max.
  pose proof (Z.mod_pos_bound (z + 2 ^ (64 - 1)) (2 ^ 64)). lia.
Qed.

Lemma as_u64_id (z : Z) : in_u64 z -> as_u64 z = z.
Proof. unfold in_u64, as_u64, wrap_u, u64_max. intros H. rewrite Z.mod_small; lia. Qed.

Lemma as_u64_in (z : Z) : in_u64 (as_u64 z).
Proof.
  unfold in_u64, as_u64, wrap_u, u64_max.
  pose proof (Z.mod_pos_bound z (2 ^ 64)). lia.
Qed.

Lemma clamp_bounds (lo hi x : Z) : lo <= hi -> lo <= clamp lo hi x <= hi.
Proof. unfold clamp. lia. Qed.

Lemma clamp_id (lo hi x : Z) : lo <= x <= hi -> clamp lo hi x = x.
Proof. unfold clamp. lia. Qed.

Lemma clamp_idem (lo hi x : Z) : lo <= hi -> clamp lo hi (clamp lo hi x) = clamp lo hi x.
Proof. unfold clamp. lia. Qed.

Lemma div_euclid_pos (a b : Z) : 0 < b -> div_euclid a b = a / b.
Proof.
  intros Hb. unfold div_euclid.
  rewrite Z.sgn_pos, Z.abs_eq by lia. lia.
Qed.

#[export] Hint Resolve sat_i64_in as_i64_in as_u64_in clamp_bounds : writ.

Lemma div_mul_bounds (a b : Z) : 0 < b -> a - b < a / b * b <= a.
Proof. intros Hb. pose proof (Z.div_mod a b). pose proof (Z.mod_pos_bound a b). lia. Qed.
