(* ===== verification/F64.v ===== *)
(** * IEEE 754 binary64

    Rust's [f64], as the executable binary64 specification of the Standard Library
    (53 bits of precision, exponents below 1024), with the casts from and to integers
    the agent performs ([as f64], and the saturating [as i64] / [as u32]), and the
    bounds the scheduler's jitter relies on. *)

From Stdlib Require Export SpecFloat.
From S2P Require Import Prelude Ints.
Open Scope Z_scope.

Definition f64 : Type := spec_float.

Definition f64_add : f64 -> f64 -> f64 := SFadd 53 1024.
Definition f64_sub : f64 -> f64 -> f64 := SFsub 53 1024.
Definition f64_mul : f64 -> f64 -> f64 := SFmul 53 1024.
Definition f64_div : f64 -> f64 -> f64 := SFdiv 53 1024.
Definition f64_eqb : f64 -> f64 -> bool := SFeqb.
Definition f64_ltb : f64 -> f64 -> bool := SFltb.
Definition f64_leb : f64 -> f64 -> bool := SFleb.

(** [z as f64] (round to nearest, ties to even). *)
Definition f64_of_Z (z : Z) : f64 := binary_normalize 53 1024 z 0 false.

(** The literal [m * 10 ^ e], correctly rounded. *)
Definition f64_of_dec (m : Z) (e : Z) : f64 :=
  if 0 <=? e then binary_normalize 53 1024 (m * 10 ^ e) 0 false
  else match m with
       | Z0 => S754_zero false
       | Zpos p =>
           let '(mz, ez, lz) := SFdiv_core_binary 53 1024 (Zpos p) 0 (10 ^ (- e)) 0 in
           binary_round_aux 53 1024 false mz ez lz
       | Zneg p =>
           let '(mz, ez, lz) := SFdiv_core_binary 53 1024 (Zpos p) 0 (10 ^ (- e)) 0 in
           binary_round_aux 53 1024 true mz ez lz
       end.

Definition f64_zero : f64 := S754_zero false.
Definition f64_is_nan (x : f64) : bool := match x with S754_nan => true | _ => false end.
Definition f64_is_finite (x : f64) : bool :=
  match x with S754_zero _ | S754_finite _ _ _ => true | _ => false end.

(** The magnitude of a finite number, truncated towards zero. *)
Definition mag_trunc (m : positive) (e : Z) : Z :=
  if 0 <=? e then Zpos m * 2 ^ e else Zpos m / 2 ^ (- e).

(** [x as i64]: truncation, saturating at the ends, NaN to zero. *)
Definition f64_to_i64 (x : f64) : Z :=
  match x with
  | S754_nan => 0
  | S754_zero _ => 0
  | S754_infinity s => if s then i64_min else i64_max
  | S754_finite s m e => sat_i64 (if s then - mag_trunc m e else mag_trunc m e)
  end.

(** [f64::clamp] (for bounds that are not NaN and in order; NaN passes through). *)
Definition f64_clamp (lo hi x : f64) : f64 :=
  if f64_ltb x lo then lo else if f64_ltb hi x then hi else x.

(** Sign bit clear. *)
Definition f64_nonneg (x : f64) : bool :=
  match x with
  | S754_nan => true
  | S754_zero s | S754_infinity s | S754_finite s _ _ => negb s
  end.

#[export] Instance f64_eq_dec : EqDecision f64.
Proof. solve_decision. Defined.

Example dec_08 : f64_of_dec 8 (-1) = S754_finite false 7205759403792794 (-53).
Proof. reflexivity. Qed.
Example mul_08 : f64_to_i64 (f64_mul (f64_of_Z 10000) (f64_of_dec 8 (-1))) = 8000.
Proof. reflexivity. Qed.

(** ** Signs *)

Lemma binary_round_aux_sign (s : bool) (m e : Z) (l : location) :
  f64_nonneg (binary_round_aux 53 1024 s m e l) = true \/ s = true.
Proof.
  destruct s; [by right|left]. unfold binary_round_aux.
  destruct (shr_fexp 53 1024 m e l) as [mrs' e'].
  destruct (shr_fexp 53 1024 _ e' loc_Exact) as [mrs'' e''].
  destruct (shr_m mrs''); simpl; [done| |done].
  by destruct (_ <=? _).
Qed.

Lemma f64_mul_nonneg (x y : f64) :
  f64_nonneg x = true -> f64_nonneg y = true -> f64_nonneg (f64_mul x y) = true.
Proof.
  destruct x as [[]|[]| |[] mx ex], y as [[]|[]| |[] my ey]; simpl; try done.
  intros _ _. unfold f64_mul, SFmul.
  by destruct (binary_round_aux_sign (xorb false false) (Zpos (mx * my)) (ex + ey) loc_Exact).
Qed.

Lemma f64_of_Z_nonneg (z : Z) : 0 <= z -> f64_nonneg (f64_of_Z z) = true.
Proof.
  intros Hz. destruct z as [|p|p]; [done| |lia].
  unfold f64_of_Z, binary_normalize, binary_round.
  destruct (shl_align p 0 _) as [mz ez].
  by destruct (binary_round_aux_sign false (Zpos mz) ez loc_Exact).
Qed.

Lemma mag_trunc_nonneg (m : positive) (e : Z) : 0 <= mag_trunc m e.
Proof.
  unfold mag_trunc. zcases.
  - apply Z.mul_nonneg_nonneg; [lia | apply Z.pow_nonneg; lia].
  - apply Z.div_pos; [lia | apply Z.pow_pos_nonneg; lia].
Qed.

Lemma f64_to_i64_nonneg (x : f64) : f64_nonneg x = true -> 0 <= f64_to_i64 x.
Proof.
  destruct x as [| [] | |[] m e]; simpl; try done; intros _.
  pose proof (mag_trunc_nonneg m e). unfold sat_i64, i64_min, i64_max. lia.
Qed.

Lemma f64_to_i64_in (x : f64) : in_i64 (f64_to_i64 x).
Proof.
  destruct x as [|[]| |s m e]; simpl; try (unfold in_i64, i64_min, i64_max; lia).
  apply sat_i64_in.
Qed.

#[export] Hint Resolve f64_mul_nonneg f64_of_Z_nonneg f64_to_i64_nonneg f64_to_i64_in : writ.

(** ** Rounding *)

Lemma digits2_log2 (p : positive) : Zpos (digits2_pos p) = Z.log2 (Zpos p) + 1.
Proof.
  induction p as [p IH|p IH|]; simpl digits2_pos; [| |done].
  - rewrite Pos2Z.inj_succ, IH, Pos2Z.inj_xI, Z.log2_succ_double by lia. lia.
  - rewrite Pos2Z.inj_succ, IH, Pos2Z.inj_xO, Z.log2_double by lia. lia.
Qed.

Lemma shr_1_half (r : shr_record) : 0 <= shr_m r -> shr_m (shr_1 r) = shr_m r / 2.
Proof.
  destruct r as [[|[p|p|]|p] rr s]; cbn [shr_m shr_1]; intros H; try lia.
  all: simpl; zlia.
Qed.

Lemma shr_iter (n : positive) (r : shr_record) :
  0 <= shr_m r -> shr_m (SpecFloat.iter_pos shr_1 n r) = shr_m r / 2 ^ Zpos n.
Proof.
  revert r. induction n as [n IH|n IH|]; intros r Hr; simpl SpecFloat.iter_pos.
  - assert (0 <= shr_m (shr_1 r)) by (rewrite shr_1_half by done; by apply Z.div_pos).
    assert (0 < 2 ^ Zpos n) by (apply Z.pow_pos_nonneg; lia).
    rewrite IH by (rewrite IH by done; apply Z.div_pos; lia).
    rewrite IH, shr_1_half by done.
    rewrite !Z.div_div by lia. f_equal.
    replace (Zpos n~1) with (1 + Zpos n + Zpos n) by lia. rewrite !Z.pow_add_r by lia. lia.
  - assert (0 < 2 ^ Zpos n) by (apply Z.pow_pos_nonneg; lia).
    rewrite IH by (rewrite IH by done; apply Z.div_pos; lia).
    rewrite IH by done. rewrite Z.div_div by lia. f_equal.
    replace (Zpos n~0) with (Zpos n + Zpos n) by lia. rewrite Z.pow_add_r by lia. lia.
  - by rewrite shr_1_half.
Qed.

(** Shifting right by a non-negative amount halves that often. *)
Lemma shr_shift (r : shr_record) (e n : Z) :
  0 <= shr_m r -> 0 <= n ->
  shr_m (fst (shr r e n)) = shr_m r / 2 ^ n /\ snd (shr r e n) = e + n.
Proof.
  intros Hr Hn. destruct n as [|n|n]; [| |lia].
  - simpl. rewrite Z.div_1_r. lia.
  - simpl. by rewrite shr_iter.
Qed.

(** Rounding an exact mantissa of at least 53 bits, away from underflow and overflow:
    the kept mantissa is the 53-bit quotient or its successor. *)
Lemma round_aux_normal (P : positive) (e : Z) :
  let n := Z.log2 (Zpos P) - 52 in
  0 <= n -> -1074 <= e + n <= 900 ->
  exists (m : positive) (e2 m1 : Z),
    binary_round_aux 53 1024 false (Zpos P) e loc_Exact = S754_finite false m e2 /\
    0 <= e2 - (e + n) <= 1 /\ Zpos m * 2 ^ (e2 - (e + n)) = m1 /\
    Zpos P / 2 ^ n <= m1 <= Zpos P / 2 ^ n + 1.
Proof.
  intros n Hn He.
  assert (Hfexp : fexp 53 1024 (Zdigits2 (Zpos P) + e) - e = n).
  { unfold Zdigits2, fexp, emin. rewrite digits2_log2. lia. }
  unfold binary_round_aux, shr_fexp. rewrite Hfexp. simpl shr_record_of_loc.
  set (r := Build_shr_record (Zpos P) false false).
  destruct (shr_shift r e n) as [Hq Hs]; [done|done|].
  destruct (shr r e n) as [mrs e1]; simpl in Hq, Hs. subst e1.
  set (m1 := round_nearest_even (shr_m mrs) (loc_of_shr_record mrs)).
  set (q := Zpos P / 2 ^ n) in *.
  assert (Hq1 : 2 ^ 52 <= q < 2 ^ 53).
  { pose proof (Z.log2_spec (Zpos P) ltac:(lia)) as [Hl Hu].
    assert (0 < 2 ^ n) by (apply Z.pow_pos_nonneg; lia).
    replace (Z.log2 (Zpos P)) with (52 + n) in Hl by lia.
    replace (Z.succ (Z.log2 (Zpos P))) with (53 + n) in Hu by lia.
    rewrite Z.pow_add_r in Hl, Hu by lia. unfold q. split.
    - apply Z.div_le_lower_bound; lia.
    - apply Z.div_lt_upper_bound; lia. }
  assert (Hm1 : q <= m1 <= q + 1).
  { unfold m1, round_nearest_even. rewrite Hq.
    destruct (loc_of_shr_record mrs) as [|[]]; try (destruct (Z.even q)); lia. }
  clearbody m1. clear Hq mrs.
  assert (exists p, m1 = Zpos p) as [p ->] by (exists (Z.to_pos m1); lia).
  assert (Hlog : Z.log2 (Zpos p) = 52 \/ Zpos p = 2 ^ 53).
  { destruct (decide (Zpos p < 2 ^ 53)); [left|right; lia].
    apply Z.log2_unique; lia. }
  set (n' := fexp 53 1024 (Zdigits2 (Zpos p) + (e + n)) - (e + n)).
  assert (Hn' : n' = Z.log2 (Zpos p) - 52).
  { unfold n', Zdigits2, fexp, emin. rewrite digits2_log2.
    destruct Hlog as [-> | ->]; [lia|]. rewrite Z.log2_pow2; lia. }
  destruct (shr_shift (Build_shr_record (Zpos p) false false) (e + n) n') as [Hq' Hs'].
  { done. }
  { rewrite Hn'. destruct Hlog as [-> | ->]; [lia|]. rewrite Z.log2_pow2; lia. }
  simpl shr_record_of_loc in *.
  destruct (shr _ (e + n) n') as [mrs2 e2]; simpl in Hq', Hs'. subst e2.
  assert (Hc : (n' = 0 /\ shr_m mrs2 = Zpos p) \/ (n' = 1 /\ shr_m mrs2 * 2 = Zpos p)).
  { destruct Hlog as [Hl|Hl].
    - left. rewrite Hn', Hl in Hq'. split; [lia|]. rewrite Hq'. apply Z.div_1_r.
    - right. assert (n' = 1) as Hn1 by (rewrite Hn', Hl, Z.log2_pow2; lia).
      split; [done|]. rewrite Hq', Hn1, Hl. reflexivity. }
  destruct (shr_m mrs2) as [|m|m] eqn:Em; [lia| |lia].
  exists m, (e + n + n'), (Zpos p).
  split; [|split; [lia|split; [|done]]].
  - destruct (Z.leb_spec (e + n + n') (1024 - 53)); [done|lia].
  - replace (e + n + n' - (e + n)) with n' by lia. destruct Hc as [[-> ?] | [-> ?]]; lia.
Qed.

(** Truncating such a value with a fractional exponent is integer division. *)
Lemma mag_trunc_scaled (m : positive) (e2 E m1 : Z) :
  E <= 0 -> 0 <= e2 - E <= 1 -> Zpos m * 2 ^ (e2 - E) = m1 -> mag_trunc m e2 = m1 / 2 ^ (- E).
Proof.
  intros HE Hd <-. unfold mag_trunc. zcases.
  - assert (Hc : (e2 = 0 /\ E = 0) \/ (e2 = 1 /\ E = 0) \/ (e2 = 0 /\ E = -1)) by lia.
    destruct Hc as [[-> ->] | [[-> ->] | [-> ->]]]; simpl; rewrite ?Z.div_1_r; try lia.
    rewrite Z.div_mul; lia.
  - replace (- E) with (- e2 + (e2 - E)) by lia. rewrite Z.pow_add_r by lia.
    assert (0 < 2 ^ (- e2)) by (apply Z.pow_pos_nonneg; lia).
    assert (0 < 2 ^ (e2 - E)) by (apply Z.pow_pos_nonneg; lia).
    rewrite Z.div_mul_cancel_r; lia.
Qed.

(** An integer below 2^53 converts exactly: [mp * 2 ^ (log2 p - 52)] with a 53-bit [mp]. *)
Lemma f64_of_Z_exact (p : positive) :
  Zpos p < 2 ^ 53 ->
  f64_of_Z (Zpos p) =
    S754_finite false (Z.to_pos (Zpos p * 2 ^ (52 - Z.log2 (Zpos p)))) (Z.log2 (Zpos p) - 52).
Proof.
  intros Hp. set (l := Z.log2 (Zpos p)).
  assert (Hl : 0 <= l <= 52).
  { split; [apply Z.log2_nonneg|]. apply Z.lt_succ_r, Z.log2_lt_pow2; lia. }
  assert (Hk : 0 < 2 ^ (52 - l)) by (apply Z.pow_pos_nonneg; lia).
  set (mp := Z.to_pos (Zpos p * 2 ^ (52 - l))).
  assert (Hmp : Zpos mp = Zpos p * 2 ^ (52 - l)) by (unfold mp; rewrite Z2Pos.id; lia).
  assert (Hlog : Z.log2 (Zpos mp) = 52).
  { rewrite Hmp, Z.log2_mul_pow2 by lia. fold l. lia. }
  assert (Hbr : binary_round 53 1024 false p 0 =
                binary_round_aux 53 1024 false (Zpos mp) (l - 52) loc_Exact).
  { unfold binary_round, shl_align, fexp, emin. rewrite digits2_log2. fold l.
    replace (Z.max (l + 1 + 0 - 53) (3 - 1024 - 53)) with (l - 52) by lia.
    replace (l - 52 - 0) with (l - 52) by lia.
    destruct (l - 52) as [|q|q] eqn:E; [|lia|].
    - assert (l = 52) as El by lia.
      assert (p = mp) as Hpm by (apply Pos2Z.inj; rewrite Hmp, El; simpl; lia).
      by rewrite <-Hpm.
    - f_equal. rewrite Hmp. replace (52 - l) with (Zpos q) by lia.
      clear. induction q as [|q IH] using Pos.peano_ind; [simpl; lia|].
      rewrite Pos.iter_succ, Pos2Z.inj_xO, IH, Pos2Z.inj_succ, Z.pow_succ_r by lia. lia. }
  unfold f64_of_Z, binary_normalize. rewrite Hbr. clear Hbr.
  assert (Hf0 : fexp 53 1024 (Zdigits2 (Zpos mp) + (l - 52)) - (l - 52) = 0).
  { unfold Zdigits2, fexp, emin. rewrite digits2_log2, Hlog. lia. }
  unfold binary_round_aux, shr_fexp. rewrite Hf0.
  cbn [shr shr_record_of_loc shr_m loc_of_shr_record round_nearest_even].
  rewrite Hf0. cbn [shr shr_m].
  destruct (Z.leb_spec (l - 52) (1024 - 53)); [done|lia].
Qed.

(** Multiplying an integer below 2^50 by a constant in [1/2, 2): the product, truncated,
    is the quotient of a 53-bit rounding of the exact product. *)
Lemma f64_mul_const (p mc : positive) (ec : Z) :
  Zpos p < 2 ^ 50 -> 2 ^ 52 <= Zpos mc < 2 ^ 53 -> -53 <= ec <= -52 ->
  exists m1 K, -50 - ec <= K /\
    f64_to_i64 (f64_mul (f64_of_Z (Zpos p)) (S754_finite false mc ec)) = sat_i64 (m1 / 2 ^ K) /\
    Zpos p * 2 ^ K * Zpos mc / 2 ^ (- ec) <= m1 <= Zpos p * 2 ^ K * Zpos mc / 2 ^ (- ec) + 1.
Proof.
  intros Hp Hmc Hec. rewrite f64_of_Z_exact by lia.
  set (l := Z.log2 (Zpos p)).
  assert (Hl : 0 <= l <= 49).
  { split; [apply Z.log2_nonneg|]. apply Z.lt_succ_r, Z.log2_lt_pow2; lia. }
  set (mp := Z.to_pos (Zpos p * 2 ^ (52 - l))).
  assert (Hk : 0 < 2 ^ (52 - l)) by (apply Z.pow_pos_nonneg; lia).
  assert (Hmp : Zpos mp = Zpos p * 2 ^ (52 - l)) by (unfold mp; rewrite Z2Pos.id; lia).
  assert (Hmb : 2 ^ 52 <= Zpos mp < 2 ^ 53).
  { pose proof (Z.log2_spec (Zpos p) ltac:(lia)) as [H1 H2]. fold l in H1, H2.
    rewrite Hmp. replace 52 with (l + (52 - l)) at 1 by lia.
    replace 53 with (Z.succ l + (52 - l)) by lia.
    rewrite !Z.pow_add_r by lia. split; [apply Z.mul_le_mono_pos_r | apply Z.mul_lt_mono_pos_r]; lia. }
  unfold f64_mul, SFmul. set (P := (mp * mc)%positive).
  assert (HP : Zpos P = Zpos mp * Zpos mc) by reflexivity.
  assert (HlP : 104 <= Z.log2 (Zpos P) <= 105).
  { split.
    - apply Z.log2_le_pow2; [lia|]. rewrite HP. change (2 ^ 104) with (2 ^ 52 * 2 ^ 52).
      apply Z.mul_le_mono_nonneg; lia.
    - apply Z.lt_succ_r, Z.log2_lt_pow2; [lia|]. rewrite HP.
      change (2 ^ Z.succ 105) with (2 ^ 53 * 2 ^ 53). apply Z.mul_lt_mono_nonneg; lia. }
  destruct (round_aux_normal P (l - 52 + ec)) as (m & e2 & m1 & Heq & He2 & Hv & Hq); [lia|lia|].
  simpl xorb. rewrite Heq. simpl f64_to_i64. clear Heq.
  set (E := l - 52 + ec + (Z.log2 (Zpos P) - 52)) in *.
  exists m1, (- E). split; [lia|]. rewrite (mag_trunc_scaled m e2 E m1) by lia.
  split; [done|].
  replace (Zpos p * 2 ^ (- E) * Zpos mc / 2 ^ (- ec)) with (Zpos P / 2 ^ (Z.log2 (Zpos P) - 52)); [done|].
  rewrite HP at 1. rewrite Hmp. set (n := Z.log2 (Zpos P) - 52).
  assert (Hd : (0 <= 53 + ec /\ n = - ec + (n + ec)) /\ (0 <= n + ec \/ n = 52 /\ ec = -53)) by lia.
  destruct Hd as [_ [Hn | [Hn Hc]]].
  - remember (n + ec) as u eqn:Hu.
    replace n with (u + - ec) by lia.
    replace (52 - l) with (u + - E) by (unfold E; fold n; lia).
    rewrite !(Z.pow_add_r 2 u) by lia.
    assert (0 < 2 ^ u) by (apply Z.pow_pos_nonneg; lia).
    assert (0 < 2 ^ (- ec)) by (apply Z.pow_pos_nonneg; lia).
    replace (Zpos p * (2 ^ u * 2 ^ (- E)) * Zpos mc)
      with (2 ^ u * (Zpos p * 2 ^ (- E) * Zpos mc)) by lia.
    rewrite Z.div_mul_cancel_l; lia.
  - replace (- E) with (1 + (52 - l)) by (unfold E; fold n; lia).
    rewrite Z.pow_add_r, Hn, Hc by lia.
    replace (Zpos p * (2 ^ 1 * 2 ^ (52 - l)) * Zpos mc) with (2 * (Zpos p * 2 ^ (52 - l) * Zpos mc)) by lia.
    change (2 ^ (- -53)) with (2 * 2 ^ 52). rewrite Z.div_mul_cancel_l; lia.
Qed.

(** The quotient of an integer by a rational, read off such a rounding. *)
Lemma rounded_quotient (A p mc D num den m1 : Z) :
  0 < A -> 0 < D -> 0 < den -> 0 <= p ->
  0 <= den * mc - num * D ->
  p * A * mc / D <= m1 <= p * A * mc / D + 1 ->
  (den * mc - num * D) * p * A < (A - den) * D ->
  m1 / A = num * p / den.
Proof.
  intros HA HD Hden Hp Hge Hm Herr.
  set (f := num * p / den). set (q := p * A * mc / D) in *.
  assert (Hf : den * f <= num * p < den * f + den) by (unfold f; zlia).
  assert (Hq : q * D <= p * A * mc < q * D + D) by (unfold q; zlia).
  clearbody f q. symmetry. apply Z.div_unique with (m1 - A * f); [left|lia].
  split.
  - assert (A * f <= q); [|lia]. apply Z.lt_succ_r.
    assert (A * f * D * den <= p * A * mc * den); [|nia].
    assert (A * D * (den * f) <= A * D * (num * p)) by (apply Z.mul_le_mono_nonneg_l; nia).
    assert (A * p * (num * D) <= A * p * (den * mc)) by (apply Z.mul_le_mono_nonneg_l; nia).
    lia.
  - assert (m1 < A * (f + 1)); [|lia].
    assert (q + 1 < A * (f + 1)); [|lia].
    assert ((q + 1) * (D * den) < A * (f + 1) * (D * den)); [|nia].
    assert (A * D * (num * p) + A * D <= A * D * (den * f + den)).
    { replace (A * D * (num * p) + A * D) with (A * D * (num * p + 1)) by lia.
      apply Z.mul_le_mono_nonneg_l; nia. }
    assert (q * D * den <= p * A * mc * den) by (apply Z.mul_le_mono_nonneg_r; lia).
    lia.
Qed.

Lemma pow2_ge (k n : Z) : 0 <= k <= n -> 2 ^ k <= 2 ^ n.
Proof. intros H. apply Z.pow_le_mono_r; lia. Qed.

(** Four fifths of an integer, through binary64, is exact. This is the scheduler's jitter
    cap, [(period as f64 * 0.8) as i64]. *)
Lemma f64_mul_08 (p : Z) :
  0 < p < 2 ^ 50 -> f64_to_i64 (f64_mul (f64_of_Z p) (f64_of_dec 8 (-1))) = 4 * p / 5.
Proof.
  intros Hp. destruct p as [|p|]; [lia| |lia].
  destruct (f64_mul_const p 7205759403792794 (-53)) as (m1 & K & HK & Heq & Hm); [lia|lia|lia|].
  rewrite dec_08, Heq.
  assert (HA : 2 ^ 3 <= 2 ^ K) by (apply pow2_ge; lia).
  rewrite (rounded_quotient (2 ^ K) (Zpos p) 7205759403792794 (2 ^ 53) 4 5 m1 ltac:(lia) ltac:(lia) ltac:(lia) ltac:(lia)
             ltac:(lia) Hm).
  - apply sat_i64_id. unfold in_i64, i64_min, i64_max. zlia.
  - replace (5 * 7205759403792794 - 4 * 2 ^ 53) with 2 by lia.
    set (A := 2 ^ K) in *. clearbody A. nia.
Qed.

(** The adaptive scheduler's two factors, 0.75 and 1.5. *)
Lemma f64_mul_075 (p : Z) :
  0 < p < 2 ^ 50 -> f64_to_i64 (f64_mul (f64_of_Z p) (f64_of_dec 75 (-2))) = 3 * p / 4.
Proof.
  intros Hp. destruct p as [|p|]; [lia| |lia].
  change (f64_of_dec 75 (-2)) with (S754_finite false 6755399441055744 (-53)).
  destruct (f64_mul_const p 6755399441055744 (-53)) as (m1 & K & HK & Heq & Hm); [lia|lia|lia|].
  rewrite Heq. assert (HA : 2 ^ 3 <= 2 ^ K) by (apply pow2_ge; lia).
  rewrite (rounded_quotient (2 ^ K) (Zpos p) 6755399441055744 (2 ^ 53) 3 4 m1 ltac:(lia) ltac:(lia) ltac:(lia) ltac:(lia)
             ltac:(lia) Hm).
  - apply sat_i64_id. unfold in_i64, i64_min, i64_max. zlia.
  - set (A := 2 ^ K) in *. clearbody A. lia.
Qed.

Lemma f64_mul_15 (p : Z) :
  0 < p < 2 ^ 50 -> f64_to_i64 (f64_mul (f64_of_Z p) (f64_of_dec 15 (-1))) = 3 * p / 2.
Proof.
  intros Hp. destruct p as [|p|]; [lia| |lia].
  change (f64_of_dec 15 (-1)) with (S754_finite false 6755399441055744 (-52)).
  destruct (f64_mul_const p 6755399441055744 (-52)) as (m1 & K & HK & Heq & Hm); [lia|lia|lia|].
  rewrite Heq. assert (HA : 2 ^ 2 <= 2 ^ K) by (apply pow2_ge; lia).
  rewrite (rounded_quotient (2 ^ K) (Zpos p) 6755399441055744 (2 ^ 52) 3 2 m1 ltac:(lia) ltac:(lia) ltac:(lia) ltac:(lia)
             ltac:(lia) Hm).
  - apply sat_i64_id. unfold in_i64, i64_min, i64_max. zlia.
  - set (A := 2 ^ K) in *. clearbody A. lia.
Qed.
