(* ===== verification/Str.v ===== *)
(** * Strings

    The operations of Rust's [str] the agent uses. A [&str] is the sequence of its UTF-8
    bytes, so [len], prefix and suffix tests, byte searches and the ASCII case maps are byte
    operations; [trim] removes the whole encodings of Unicode's [White_Space] characters. At the end the characters of a
    string, and [str::contains] and [str::replace] of the bytes of a class. *)

From Stdlib Require Import Ascii String DecimalString DecimalPos.
From S2P Require Import Prelude Ints.
#[global] Arguments String.append : simpl nomatch.
Open Scope string_scope.
Open Scope Z_scope.

(** ** Bytes *)

Definition byte_val (c : ascii) : Z := Z.of_N (N_of_ascii c).
Definition chr (z : Z) : ascii := ascii_of_N (Z.to_N z).
Definition bytes (s : string) : list ascii := list_ascii_of_string s.
Definition of_bytes (l : list ascii) : string := string_of_list_ascii l.
Definition str_len (s : string) : Z := Z.of_nat (String.length s).
Definition str_rev (s : string) : string := of_bytes (rev (bytes s)).
Definition str_eqb (s t : string) : bool := bool_decide (s = t).
Definition is_empty (s : string) : bool := match s with EmptyString => true | _ => false end.

Definition is_digit (c : ascii) : bool := (48 <=? byte_val c) && (byte_val c <=? 57).
Definition is_lower (c : ascii) : bool := (97 <=? byte_val c) && (byte_val c <=? 122).
Definition is_upper (c : ascii) : bool := (65 <=? byte_val c) && (byte_val c <=? 90).
Definition is_alnum (c : ascii) : bool := is_digit c || is_lower c || is_upper c.
Definition lower_byte (c : ascii) : ascii := if is_upper c then chr (byte_val c + 32) else c.
Definition upper_byte (c : ascii) : ascii := if is_lower c then chr (byte_val c - 32) else c.

Fixpoint str_map (f : ascii -> ascii) (s : string) : string :=
  match s with
  | EmptyString => EmptyString
  | String c r => String (f c) (str_map f r)
  end.

Definition to_ascii_lowercase (s : string) : string := str_map lower_byte s.
Definition to_ascii_uppercase (s : string) : string := str_map upper_byte s.
Definition eq_ignore_ascii_case (s t : string) : bool :=
  str_eqb (to_ascii_lowercase s) (to_ascii_lowercase t).

(** ** Prefixes, suffixes, searching *)

Fixpoint strip_prefix (p s : string) : option string :=
  match p with
  | EmptyString => Some s
  | String a p' =>
      match s with
      | EmptyString => None
      | String b s' => if bool_decide (a = b) then strip_prefix p' s' else None
      end
  end.

Definition starts_with (s p : string) : bool :=
  match strip_prefix p s with Some _ => true | None => false end.

Definition strip_suffix (p s : string) : option string :=
  str_rev <$> strip_prefix (str_rev p) (str_rev s).

Definition ends_with (s p : string) : bool := starts_with (str_rev s) (str_rev p).

(** [str::find] of a pattern string: the byte offset of its first occurrence. *)
Fixpoint find_str (s p : string) : option nat :=
  if starts_with s p then Some O
  else match s with
       | EmptyString => None
       | String _ r => S <$> find_str r p
       end.

Definition contains (s p : string) : bool :=
  match find_str s p with Some _ => true | None => false end.

Fixpoint find_byte (f : ascii -> bool) (s : string) : option nat :=
  match s with
  | EmptyString => None
  | String c r => if f c then Some O else S <$> find_byte f r
  end.

Fixpoint str_drop (n : nat) (s : string) : string :=
  match n, s with
  | S n', String _ r => str_drop n' r
  | _, _ => s
  end.

Fixpoint str_take (n : nat) (s : string) : string :=
  match n, s with
  | S n', String c r => String c (str_take n' r)
  | _, _ => EmptyString
  end.

(** [str::split] on the bytes satisfying [f]; always at least one piece. *)
Fixpoint split_by (f : ascii -> bool) (s : string) : list string :=
  match s with
  | EmptyString => [EmptyString]
  | String c r =>
      if f c then EmptyString :: split_by f r
      else match split_by f r with
           | h :: t => String c h :: t
           | [] => [String c EmptyString]
           end
  end.

Definition byte_is (c d : ascii) : bool := bool_decide (c = d).
Definition split (c : ascii) (s : string) : list string := split_by (byte_is c) s.

(** [str::split_once] and [splitn(2, _)] on a single byte. *)
Fixpoint split_once (c : ascii) (s : string) : option (string * string) :=
  match s with
  | EmptyString => None
  | String d r =>
      if byte_is c d then Some (EmptyString, r)
      else match split_once c r with
           | Some (a, b) => Some (String d a, b)
           | None => None
           end
  end.

Fixpoint join (sep : string) (l : list string) : string :=
  match l with
  | [] => EmptyString
  | [s] => s
  | s :: l' => String.append s (String.append sep (join sep l'))
  end.

(** ** Trimming *)

Fixpoint trim_start_by (f : ascii -> bool) (s : string) : string :=
  match s with
  | EmptyString => EmptyString
  | String c r => if f c then trim_start_by f r else s
  end.

Fixpoint trim_end_by (f : ascii -> bool) (s : string) : string :=
  match s with
  | EmptyString => EmptyString
  | String c r =>
      match trim_end_by f r with
      | EmptyString => if f c then EmptyString else String c EmptyString
      | r' => String c r'
      end
  end.

(** [trim_matches], [trim_start_matches], [trim_end_matches] for ASCII patterns. *)
Definition trim_by (f : ascii -> bool) (s : string) : string := trim_end_by f (trim_start_by f s).

(** Length in bytes of the [White_Space] character a string starts with; 0 if none. *)
Definition ws_len (s : string) : nat :=
  match s with
  | EmptyString => 0
  | String a r =>
      let a := byte_val a in
      if ((9 <=? a) && (a <=? 13)) || (a =? 32) then 1
      else match r with
           | EmptyString => 0
           | String b r2 =>
               let b := byte_val b in
               if (a =? 194) && ((b =? 133) || (b =? 160)) then 2
               else match r2 with
                    | EmptyString => 0
                    | String c _ =>
                        let c := byte_val c in
                        if ((a =? 225) && (b =? 154) && (c =? 128))
                           || ((a =? 226) && (b =? 128)
                               && (((128 <=? c) && (c <=? 138)) || (c =? 168) || (c =? 169) || (c =? 175)))
                           || ((a =? 226) && (b =? 129) && (c =? 159))
                           || ((a =? 227) && (b =? 128) && (c =? 128))
                        then 3 else 0
                    end
           end
  end.

Fixpoint trim_start_aux (skip : nat) (s : string) : string :=
  match s with
  | EmptyString => EmptyString
  | String _ r =>
      match skip with
      | S k => trim_start_aux k r
      | O => match ws_len s with
             | O => s
             | S k => trim_start_aux k r
             end
      end
  end.

Definition trim_start (s : string) : string := trim_start_aux 0 s.

Fixpoint trim_end (s : string) : string :=
  match s with
  | EmptyString => EmptyString
  | String c r => if is_empty (trim_start s) then EmptyString else String c (trim_end r)
  end.

(** [str::trim]. *)
Definition trim (s : string) : string := trim_end (trim_start s).

(** ** Decimal integers *)

Fixpoint parse_digits (acc : Z) (s : string) : option Z :=
  match s with
  | EmptyString => Some acc
  | String c r => if is_digit c then parse_digits (acc * 10 + (byte_val c - 48)) r else None
  end.

Definition parse_dec (s : string) : option Z :=
  match s with
  | EmptyString => None
  | _ => parse_digits 0 s
  end.

(** [str::parse] at an unsigned type with the given largest value. *)
Definition parse_unsigned (max : Z) (s : string) : option Z :=
  let digits := match strip_prefix "+" s with Some r => r | None => s end in
  match parse_dec digits with
  | Some z => if z <=? max then Some z else None
  | None => None
  end.

Definition parse_u32 : string -> option Z := parse_unsigned u32_max.
Definition parse_u64 : string -> option Z := parse_unsigned u64_max.

(** [str::parse::<i64>]. *)
Definition parse_i64 (s : string) : option Z :=
  let r := match strip_prefix "-" s with
           | Some d => Z.opp <$> parse_dec d
           | None => parse_dec (match strip_prefix "+" s with Some d => d | None => s end)
           end in
  match r with
  | Some z => if bool_decide (in_i64 z) then Some z else None
  | None => None
  end.

(** [Display] of an integer. *)
Definition Z_to_string (z : Z) : string := NilZero.string_of_int (Z.to_int z).

Example trim_ex : trim " [a b]  " = "[a b]".
Proof. reflexivity. Qed.
Example split_ex : split ";" "a;b;;c" = ["a"; "b"; ""; "c"].
Proof. reflexivity. Qed.
Example parse_ex : parse_i64 "-42" = Some (-42) /\ parse_i64 "4x" = None /\ parse_u32 "4294967296" = None.
Proof. repeat split; reflexivity. Qed.
Example show_ex : Z_to_string (-1203) = "-1203".
Proof. reflexivity. Qed.

(** ** Lemmas *)

Lemma append_nil_r (s : string) : String.append s "" = s.
Proof. induction s as [|c s IH]; [done|]. simpl. by rewrite IH. Qed.

Lemma append_assoc (s t u : string) :
  String.append (String.append s t) u = String.append s (String.append t u).
Proof. induction s as [|c s IH]; [done|]. simpl. by rewrite IH. Qed.

Lemma bytes_of_bytes (l : list ascii) : bytes (of_bytes l) = l.
Proof. apply list_ascii_of_string_of_list_ascii. Qed.

Lemma of_bytes_bytes (s : string) : of_bytes (bytes s) = s.
Proof. apply string_of_list_ascii_of_string. Qed.

Lemma bytes_append (s t : string) : bytes (String.append s t) = (bytes s ++ bytes t)%list.
Proof. induction s as [|c s IH]; [done|]. simpl. by rewrite IH. Qed.

Lemma of_bytes_app (l k : list ascii) : of_bytes (l ++ k) = String.append (of_bytes l) (of_bytes k).
Proof. induction l as [|c l IH]; [done|]. simpl. by rewrite IH. Qed.

Lemma str_rev_append (s t : string) : str_rev (String.append s t) = String.append (str_rev t) (str_rev s).
Proof. unfold str_rev. by rewrite bytes_append, rev_app_distr, of_bytes_app. Qed.

Lemma str_rev_involutive (s : string) : str_rev (str_rev s) = s.
Proof. unfold str_rev. by rewrite bytes_of_bytes, rev_involutive, of_bytes_bytes. Qed.

Lemma str_eqb_eq (s t : string) : str_eqb s t = true <-> s = t.
Proof. apply bool_decide_eq_true. Qed.

Lemma str_eqb_refl (s : string) : str_eqb s s = true.
Proof. by apply str_eqb_eq. Qed.

Lemma strip_prefix_Some (p s r : string) : strip_prefix p s = Some r <-> s = String.append p r.
Proof.
  revert s. induction p as [|a p IH]; intros s; simpl; [naive_solver|].
  destruct s as [|b s]; [split; discriminate|]. case_bool_decide as Hab.
  - subst. rewrite IH. split; [by intros -> | by intros [= ->]].
  - split; [done|]. intros [= <- ?]. done.
Qed.

Lemma starts_with_spec (s p : string) : starts_with s p = true <-> exists r, s = String.append p r.
Proof.
  unfold starts_with. destruct (strip_prefix p s) as [r|] eqn:E.
  - apply strip_prefix_Some in E. naive_solver.
  - split; [done|]. intros [r Hr]. apply strip_prefix_Some in Hr. congruence.
Qed.

Lemma ends_with_spec (s p : string) : ends_with s p = true <-> exists r, s = String.append r p.
Proof.
  unfold ends_with. rewrite starts_with_spec. split; intros [r Hr].
  - exists (str_rev r). rewrite <-(str_rev_involutive s), Hr, str_rev_append.
    by rewrite str_rev_involutive.
  - exists (str_rev r). by rewrite Hr, str_rev_append.
Qed.

Lemma str_map_append (f : ascii -> ascii) (s t : string) :
  str_map f (String.append s t) = String.append (str_map f s) (str_map f t).
Proof. induction s as [|c s IH]; [done|]. simpl. by rewrite IH. Qed.

Lemma str_map_idem (f : ascii -> ascii) (s : string) :
  (forall c, f (f c) = f c) -> str_map f (str_map f s) = str_map f s.
Proof. intros Hf. induction s as [|c s IH]; [done|]. simpl. by rewrite Hf, IH. Qed.

Lemma lower_byte_idem (c : ascii) : lower_byte (lower_byte c) = lower_byte c.
Proof. destruct c as [[] [] [] [] [] [] [] []]; reflexivity. Qed.

Lemma to_ascii_lowercase_idem (s : string) :
  to_ascii_lowercase (to_ascii_lowercase s) = to_ascii_lowercase s.
Proof. apply str_map_idem, lower_byte_idem. Qed.

Lemma split_by_nonempty (f : ascii -> bool) (s : string) : split_by f s <> [].
Proof. destruct s as [|c s]; simpl; [done|]. destruct (f c); [done|]. by destruct (split_by f s). Qed.

(** No piece of a split contains a separator. *)
Fixpoint str_all (f : ascii -> bool) (s : string) : bool :=
  match s with
  | EmptyString => true
  | String c r => f c && str_all f r
  end.

Lemma str_all_append (f : ascii -> bool) (a b : string) : str_all f (String.append a b) = str_all f a && str_all f b.
Proof. induction a as [|c a IH]; [done|]. cbn. by rewrite IH, andb_assoc. Qed.

Lemma str_all_impl (f g : ascii -> bool) (a : string) : (forall c, f c = true -> g c = true) -> str_all f a = true -> str_all g a = true.
Proof.
  intros Hfg. induction a as [|c a IH]; [done|]. cbn. rewrite !andb_true_iff. intros [Hc Ha]. split; [by apply Hfg|by apply IH].
Qed.

Lemma split_by_pieces (f : ascii -> bool) (s : string) :
  Forall (fun p => str_all (fun c => negb (f c)) p = true) (split_by f s).
Proof.
  induction s as [|c s IH]; simpl; [by repeat constructor|].
  destruct (f c) eqn:E; [by constructor|].
  destruct (split_by f s) as [|h t]; simpl.
  - constructor; [|done]. simpl. by rewrite E.
  - inversion IH as [|? ? H1 H2]; subst. constructor; [|done]. simpl. by rewrite E, H1.
Qed.

Lemma join_split (c : ascii) (s : string) : join (String c "") (split c s) = s.
Proof.
  unfold split. induction s as [|d s IH]; [done|]. cbn [split_by].
  pose proof (split_by_nonempty (byte_is c) s) as Hne.
  destruct (byte_is c d) eqn:E.
  - apply bool_decide_eq_true in E as ->.
    destruct (split_by (byte_is d) s) as [|h t] eqn:Es; [done|].
    transitivity (String d (join (String d "") (h :: t))); [done|]. by rewrite IH.
  - destruct (split_by (byte_is c) s) as [|h t]; [done|].
    transitivity (String d (join (String c "") (h :: t))); [by destruct t|]. by rewrite IH.
Qed.

Lemma split_once_Some (c : ascii) (s a b : string) :
  split_once c s = Some (a, b) -> s = String.append a (String c b).
Proof.
  revert a b. induction s as [|d s IH]; intros a b; simpl; [done|].
  destruct (byte_is c d) eqn:E.
  - apply bool_decide_eq_true in E as ->. by intros [= <- <-].
  - destruct (split_once c s) as [[x y]|]; [|done]. intros [= <- <-].
    simpl. by rewrite (IH x y).
Qed.

#[export] Hint Rewrite str_rev_involutive to_ascii_lowercase_idem append_nil_r append_assoc str_eqb_refl : writ_rw.
#[export] Hint Resolve split_by_nonempty split_by_pieces : writ.

(** Printable ASCII but the space. *)
Definition graphic (c : ascii) : bool := (33 <=? byte_val c) && (byte_val c <? 127).

Lemma trim_start_graphic (c : ascii) (s : string) : graphic c = true -> trim_start (String c s) = String c s.
Proof.
  unfold graphic. intros H%andb_true_iff. destruct H as [H1%Z.leb_le H2%Z.ltb_lt].
  assert (Hw : ws_len (String c s) = 0%nat).
  { unfold ws_len.
    destruct (Z.leb_spec 9 (byte_val c)), (Z.leb_spec (byte_val c) 13), (Z.eqb_spec (byte_val c) 32); try lia; cbn [andb orb].
    destruct s as [|b r]; [done|].
    destruct (Z.eqb_spec (byte_val c) 194), (Z.eqb_spec (byte_val c) 225), (Z.eqb_spec (byte_val c) 226), (Z.eqb_spec (byte_val c) 227);
      try lia. cbn [andb]. by destruct r. }
  unfold trim_start. cbn [trim_start_aux]. by rewrite Hw.
Qed.

(** Nothing to trim. *)
Lemma trim_graphic (s : string) : str_all graphic s = true -> trim s = s.
Proof.
  intros Hs. unfold trim. assert (Hst : trim_start s = s).
  { destruct s as [|c s]; [done|]. apply trim_start_graphic. simpl in Hs. by apply andb_true_iff in Hs as [? _]. }
  rewrite Hst. clear Hst. induction s as [|c s IH]; [done|]. simpl in Hs. apply andb_true_iff in Hs as [Hc Hs].
  cbn [trim_end]. rewrite trim_start_graphic by done. cbn [is_empty]. by rewrite IH.
Qed.

(** *** Printing and parsing of integers *)

Lemma parse_digits_pos (d : Decimal.uint) (p : positive) :
  parse_digits (Zpos p) (NilEmpty.string_of_uint d) = Some (Zpos (Pos.of_uint_acc d p)).
Proof.
  revert p. induction d as [|d IH|d IH|d IH|d IH|d IH|d IH|d IH|d IH|d IH|d IH]; intros p; [done|..];
    cbn [NilEmpty.string_of_uint parse_digits Pos.of_uint_acc]; rewrite <- IH;
    match goal with |- context [is_digit ?c] => change (is_digit c) with true;
      let v := eval vm_compute in (byte_val c) in change (byte_val c) with v end;
    f_equal; lia.
Qed.

Lemma parse_digits_uint (d : Decimal.uint) :
  parse_digits 0 (NilEmpty.string_of_uint d) = Some (Z.of_N (Pos.of_uint d)).
Proof.
  induction d as [|d IH|d IH|d IH|d IH|d IH|d IH|d IH|d IH|d IH|d IH]; [done| exact IH|..];
    cbn [NilEmpty.string_of_uint parse_digits Pos.of_uint]; exact (parse_digits_pos d _).
Qed.

Lemma uint_head (d : Decimal.uint) : d <> Decimal.Nil ->
  exists c r, NilZero.string_of_uint d = String c r /\ NilEmpty.string_of_uint d = String c r /\ is_digit c = true.
Proof. destruct d; [done|..]; intros _; do 2 eexists; split_and!; reflexivity. Qed.

Lemma digit_not_sign (c : ascii) (s : string) : is_digit c = true ->
  strip_prefix "-" (String c s) = None /\ strip_prefix "+" (String c s) = None.
Proof.
  intros Hc. split.
  - destruct (strip_prefix "-" (String c s)) as [r|] eqn:E; [|done]. apply strip_prefix_Some in E. injection E as -> _. discriminate.
  - destruct (strip_prefix "+" (String c s)) as [r|] eqn:E; [|done]. apply strip_prefix_Some in E. injection E as -> _. discriminate.
Qed.

Lemma to_uint_not_nil (p : positive) : Pos.to_uint p <> Decimal.Nil.
Proof. intros E. pose proof (DecimalPos.Unsigned.of_to p) as H. by rewrite E in H. Qed.

(** [parse] inverts [to_string] on [i64]. *)
Lemma parse_Z_to_string (z : Z) : in_i64 z -> parse_i64 (Z_to_string z) = Some z.
Proof.
  intros Hz. unfold parse_i64, Z_to_string.
  assert (Hu : forall p, exists c r, NilZero.string_of_uint (Pos.to_uint p) = String c r /\ is_digit c = true /\
            parse_dec (String c r) = Some (Zpos p)).
  { intros p. destruct (uint_head _ (to_uint_not_nil p)) as (c & r & E1 & E2 & Hc). exists c, r. split; [done|]. split; [done|].
    unfold parse_dec. rewrite <- E2, parse_digits_uint. by rewrite DecimalPos.Unsigned.of_to. }
  destruct z as [|p|p].
  - reflexivity.
  - destruct (Hu p) as (c & r & E & Hc & Hp). cbn [Z.to_int NilZero.string_of_int]. rewrite E.
    destruct (digit_not_sign c r Hc) as [-> ->]. rewrite Hp. by rewrite bool_decide_eq_true_2.
  - destruct (Hu p) as (c & r & E & Hc & Hp). cbn [Z.to_int NilZero.string_of_int]. rewrite E.
    assert (Hs : strip_prefix "-" (String "-" (String c r)) = Some (String c r)) by (by apply strip_prefix_Some).
    rewrite Hs, Hp. cbn. by rewrite bool_decide_eq_true_2.
Qed.

(** Single bytes, lengths, and cutting at an index. *)
Lemma byte_val_inj (x y : ascii) : byte_val x = byte_val y -> x = y.
Proof.
  unfold byte_val. intros H%N2Z.inj. rewrite <-(ascii_N_embedding x), <-(ascii_N_embedding y). by rewrite H.
Qed.

Lemma chr_byte_val (c : ascii) : chr (byte_val c) = c.
Proof. unfold chr, byte_val. rewrite N2Z.id. apply ascii_N_embedding. Qed.

Lemma byte_val_chr (z : Z) : 0 <= z < 256 -> byte_val (chr z) = z.
Proof. intros Hz. unfold chr, byte_val. rewrite N_ascii_embedding by lia. lia. Qed.

Lemma byte_val_range (c : ascii) : 0 <= byte_val c < 256.
Proof. unfold byte_val. pose proof (N_ascii_bounded c). lia. Qed.

Lemma str_length_append (s t : string) : String.length (String.append s t) = (String.length s + String.length t)%nat.
Proof. induction s as [|c s IH]; simpl; lia. Qed.

Lemma append_inj (s s' t t' : string) : String.length s = String.length s' ->
  String.append s t = String.append s' t' -> s = s' /\ t = t'.
Proof.
  revert s'. induction s as [|c s IH]; intros [|c' s'] Hl He; simpl in *; try done.
  injection He as -> He. injection Hl as Hl. destruct (IH s' Hl He) as [-> ->]. done.
Qed.

Lemma str_take_drop (n : nat) (s : string) : String.append (str_take n s) (str_drop n s) = s.
Proof. revert s. induction n as [|n IH]; intros [|c s]; simpl; try done. by rewrite IH. Qed.

Lemma str_take_length (n : nat) (s : string) : String.length (str_take n s) = Nat.min n (String.length s).
Proof. revert s. induction n as [|n IH]; intros [|c s]; simpl; try done. by rewrite IH. Qed.

Lemma str_drop_length (n : nat) (s : string) : String.length (str_drop n s) = (String.length s - n)%nat.
Proof. revert s. induction n as [|n IH]; intros [|c s]; simpl; try done. Qed.

Lemma str_take_all (n : nat) (s : string) : (String.length s <= n)%nat -> str_take n s = s.
Proof. revert n. induction s as [|c s IH]; intros [|n] Hn; simpl in *; try done || lia. by rewrite IH by lia. Qed.

Lemma is_empty_spec (s : string) : is_empty s = true <-> s = "".
Proof. by destruct s. Qed.

Lemma str_take_append (s t : string) : str_take (String.length s) (String.append s t) = s.
Proof. induction s as [|c s IH]; simpl; [by destruct t|]. by rewrite IH. Qed.

Lemma str_drop_append (s t : string) : str_drop (String.length s) (String.append s t) = t.
Proof. induction s as [|c s IH]; simpl; [by destruct t|]. by rewrite IH. Qed.

Lemma str_take_take (n m : nat) (s : string) : (n <= m)%nat -> str_take n (str_take m s) = str_take n s.
Proof. revert m s. induction n as [|n IH]; intros [|m] [|c s] Hn; simpl; try done || lia. by rewrite IH by lia. Qed.

Lemma str_drop_take (n m : nat) (s : string) : str_drop n (str_take m s) = str_take (m - n) (str_drop n s).
Proof.
  revert m s. induction n as [|n IH]; intros m s; [by rewrite Nat.sub_0_r|].
  destruct m as [|m], s as [|c s]; simpl; [done|by destruct (str_drop n s)|by destruct (m - n)%nat|apply IH].
Qed.

(** The length of a displayed number: no more digits than its bound. *)
Lemma parse_digits_bounds (s : string) (acc v : Z) : 0 <= acc -> parse_digits acc s = Some v ->
  acc * 10 ^ str_len s <= v < (acc + 1) * 10 ^ str_len s.
Proof.
  unfold str_len. revert acc. induction s as [|c s IH]; intros acc Ha; cbn [parse_digits].
  { intros [= <-]. simpl. lia. }
  destruct (is_digit c) eqn:Ed; [|done]. unfold is_digit in Ed. apply andb_true_iff in Ed as [?%Z.leb_le ?%Z.leb_le].
  intros Hv%IH; [|lia]. cbn [String.length]. rewrite Nat2Z.inj_succ, Z.pow_succ_r by lia.
  assert (0 < 10 ^ Z.of_nat (String.length s)) by (apply Z.pow_pos_nonneg; lia). nia.
Qed.

Lemma to_uint_no_leading_zero (p : positive) (d : Decimal.uint) : Pos.to_uint p <> Decimal.D0 d.
Proof.
  intros E. pose proof (DecimalPos.Unsigned.to_of (Pos.to_uint p)) as Hn.
  rewrite DecimalPos.Unsigned.of_to in Hn. cbn [N.to_uint] in Hn. rewrite E, DecimalFacts.unorm_D0 in Hn. destruct (Decimal.uint_eq_dec d Decimal.Nil) as [->|Hd].
  - by apply (DecimalPos.Unsigned.to_uint_nonzero p).
  - apply (f_equal Decimal.nb_digits) in Hn. pose proof (DecimalFacts.nb_digits_unorm d Hd). simpl in Hn. lia.
Qed.

Lemma Z_to_string_digits (z : Z) : 0 <= z -> parse_digits 0 (Z_to_string z) = Some z.
Proof.
  destruct z as [|p|p]; [done| |lia]. intros _. unfold Z_to_string. cbn [Z.to_int NilZero.string_of_int].
  destruct (uint_head _ (to_uint_not_nil p)) as (c & r & -> & <- & _). by rewrite parse_digits_uint, DecimalPos.Unsigned.of_to.
Qed.

Lemma Z_to_string_length (z w : Z) : 0 <= z < 10 ^ w -> 1 <= w -> str_len (Z_to_string z) <= w.
Proof.
  intros Hz Hw. destruct z as [|p|p]; [by compute in Hw |- *| |lia].
  pose proof (Z_to_string_digits (Z.pos p)) as Hd. unfold Z_to_string in *. cbn [Z.to_int NilZero.string_of_int] in *.
  destruct (uint_head _ (to_uint_not_nil p)) as (c & r & E & E' & Hc). rewrite E in *. specialize (Hd ltac:(lia)).
  cbn [parse_digits] in Hd. rewrite Hc in Hd. apply parse_digits_bounds in Hd as [Hd _].
  2: { unfold is_digit in Hc. apply andb_true_iff in Hc as [?%Z.leb_le _]. lia. }
  assert (H1 : 1 <= byte_val c - 48).
  { destruct (Pos.to_uint p) as [|d|d|d|d|d|d|d|d|d|d] eqn:Ep; [discriminate| |injection E' as <- _; by compute..].
    by apply to_uint_no_leading_zero in Ep. }
  unfold str_len in *. cbn [String.length]. rewrite Nat2Z.inj_succ.
  destruct (Z_le_gt_dec w (Z.of_nat (String.length r))) as [Hle|]; [|lia].
  pose proof (Z.pow_le_mono_r 10 w (Z.of_nat (String.length r))). nia.
Qed.

(** Searching an extended string. *)
Lemma starts_with_app (s t p : string) : (String.length p <= String.length s)%nat ->
  starts_with (String.append s t) p = starts_with s p.
Proof.
  unfold starts_with. revert s. induction p as [|a p IH]; intros [|b s] Hl; simpl in *; try done || lia.
  destruct (bool_decide (a = b)); [|done]. apply IH. lia.
Qed.

Lemma starts_with_length (s p : string) : starts_with s p = true -> (String.length p <= String.length s)%nat.
Proof. intros [r ->]%starts_with_spec. rewrite str_length_append. lia. Qed.

Lemma find_str_length (s p : string) (n : nat) : find_str s p = Some n -> (n + String.length p <= String.length s)%nat.
Proof.
  revert n. induction s as [|c s IH]; intros n; cbn [find_str].
  - destruct (starts_with "" p) eqn:E; [|done]. intros [= <-]. by apply starts_with_length in E.
  - destruct (starts_with (String c s) p) eqn:E; [intros [= <-]; by apply starts_with_length in E|].
    destruct (find_str s p) as [k|]; [|done]. intros [= <-]. specialize (IH k eq_refl). simpl. lia.
Qed.

Lemma find_str_app (s t p : string) (n : nat) : find_str s p = Some n -> find_str (String.append s t) p = Some n.
Proof.
  revert n. induction s as [|c s IH]; intros n Hf; pose proof (find_str_length _ _ _ Hf) as Hl.
  - simpl in Hl. cbn [find_str] in Hf. destruct (starts_with "" p) eqn:E; [|done]. injection Hf as <-.
    destruct p; [|simpl in Hl; lia]. simpl. by destruct t.
  - cbn [String.append]. cbn [find_str] in Hf |- *.
    assert (Hs : starts_with (String c (String.append s t)) p = starts_with (String c s) p).
    { apply (starts_with_app (String c s) t p). simpl in *. lia. }
    rewrite Hs. destruct (starts_with (String c s) p); [done|].
    destruct (find_str s p) as [k|]; [|done]. cbn in Hf. injection Hf as <-. by rewrite (IH k).
Qed.

(** ** Characters and pieces of texts *)

(** Length in bytes of the character a string starts with. *)
Definition char_len (s : string) : nat :=
  match s with
  | EmptyString => 0
  | String c _ => if (byte_val c <? 128)%Z then 1 else if (byte_val c <? 224)%Z then 2 else if (byte_val c <? 240)%Z then 3 else 4
  end.

(** The characters of a string. *)
Fixpoint chars_from (skip : nat) (s : string) : list string :=
  match s with
  | EmptyString => []
  | String _ r =>
      match skip with
      | S k => chars_from k r
      | O => let n := char_len s in str_take n s :: chars_from (n - 1) r
      end
  end.
Definition chars : string -> list string := chars_from 0.

(** [str::replace] of the bytes of a class, and [contains] of one. *)
Fixpoint replace_byte (p : ascii -> bool) (by_ : string) (s : string) : string :=
  match s with EmptyString => "" | String c r => String.append (if p c then by_ else String c EmptyString) (replace_byte p by_ r) end.
Fixpoint has_byte (p : ascii -> bool) (s : string) : bool := match s with EmptyString => false | String c r => p c || has_byte p r end.

(** [contains(char::is_whitespace)] *)
Fixpoint has_white (s : string) : bool := match s with EmptyString => false | String _ r => (0 <? ws_len s)%nat || has_white r end.

Lemma has_byte_append (p : ascii -> bool) (a b : string) : has_byte p (String.append a b) = has_byte p a || has_byte p b.
Proof. induction a as [|d a IH]; cbn; [done|]. by rewrite IH, orb_assoc. Qed.
