(* ===== verification/Order.v ===== *)
(** * Orders given by a comparison

    [Ord::cmp] and the [partial_cmp] of floats that are numbers: what makes a comparison a total preorder, its instances, and the
    lemmas on stable sorting that need one. *)

From Stdlib Require Import Ascii String Sorted.
From S2P Require Import Prelude Ints F64 Str.
Open Scope Z_scope.

Class CmpOrder {A : Type} (cmp : A -> A -> comparison) : Prop := {
  cmp_opp : forall a b, cmp b a = CompOpp (cmp a b);
  cmp_eq : forall a b c, cmp a b = Eq -> cmp a c = cmp b c;
  cmp_lt : forall a b c, cmp a b = Lt -> cmp b c = Lt -> cmp a c = Lt;
}.

(** [a] may stand before [b]. *)
Definition cmp_le {A : Type} (cmp : A -> A -> comparison) (a b : A) : bool := match cmp a b with Gt => false | _ => true end.

(** The second decides where the first does not. *)
Definition cmp_lex {A : Type} (c1 c2 : A -> A -> comparison) (a b : A) : comparison := match c1 a b with Eq => c2 a b | c => c end.
Definition cmp_on {A B : Type} (f : A -> B) (cmp : B -> B -> comparison) (a b : A) : comparison := cmp (f a) (f b).
Definition cmp_rev {A : Type} (cmp : A -> A -> comparison) (a b : A) : comparison := cmp b a.

#[export] Typeclasses Opaque cmp_lex cmp_on cmp_rev.

(** ** Instances *)

#[export] Instance Z_order : CmpOrder Z.compare.
Proof.
  constructor.
  - intros a b. apply Z.compare_antisym.
  - by intros a b c ->%Z.compare_eq_iff.
  - intros a b c. rewrite !Z.compare_lt_iff. lia.
Qed.

#[export] Instance nat_order : CmpOrder Nat.compare.
Proof.
  constructor.
  - intros a b. apply Nat.compare_antisym.
  - by intros a b c ->%Nat.compare_eq.
  - intros a b c. rewrite !Nat.compare_lt_iff. lia.
Qed.

#[export] Instance cmp_on_order {A B : Type} (f : A -> B) (cmp : B -> B -> comparison) `{!CmpOrder cmp} : CmpOrder (cmp_on f cmp).
Proof. unfold cmp_on. constructor; intros; [apply cmp_opp|by apply cmp_eq|by eapply cmp_lt]. Qed.

#[export] Instance cmp_rev_order {A : Type} (cmp : A -> A -> comparison) `{!CmpOrder cmp} : CmpOrder (cmp_rev cmp).
Proof.
  unfold cmp_rev. constructor.
  - intros a b. apply cmp_opp.
  - intros a b c H. rewrite (cmp_opp a c), (cmp_opp b c). f_equal. apply cmp_eq. by rewrite cmp_opp, H.
  - intros a b c H1 H2. by apply (cmp_lt c b a).
Qed.

#[export] Instance cmp_lex_order {A : Type} (c1 c2 : A -> A -> comparison) `{!CmpOrder c1, !CmpOrder c2} : CmpOrder (cmp_lex c1 c2).
Proof.
  unfold cmp_lex. constructor.
  - intros a b. rewrite (cmp_opp a b). destruct (c1 a b); cbn; [apply cmp_opp|done|done].
  - intros a b c H. destruct (c1 a b) eqn:E; [|done|done]. rewrite (cmp_eq a b c E). destruct (c1 b c); [by apply cmp_eq|done|done].
  - intros a b c. destruct (c1 a b) eqn:E1; [| |done]; intros H1.
    + rewrite (cmp_eq a b c E1). destruct (c1 b c); [by apply cmp_lt|done|done].
    + destruct (c1 b c) eqn:E2; [| |done]; intros H2; [|by rewrite (cmp_lt a b c E1 E2)].
      assert (c1 a c = Lt) as ->; [|done]. rewrite (cmp_opp c a), <- (cmp_eq b c a E2), (cmp_opp a b), E1. done.
Qed.

Lemma ascii_compare (c d : ascii) : Ascii.compare c d = (byte_val c ?= byte_val d).
Proof. unfold Ascii.compare, byte_val. by rewrite N2Z.inj_compare. Qed.

#[export] Instance string_order : CmpOrder String.compare.
Proof.
  constructor.
  - intros a b. apply String.compare_antisym.
  - by intros a b c ->%String.compare_eq_iff.
  - intros a. induction a as [|x a IH]; intros [|y b] [|z c]; cbn; try done. rewrite !ascii_compare.
    destruct (Z.compare_spec (byte_val x) (byte_val y)) as [E1| |E1]; [| |done]; (destruct (Z.compare_spec (byte_val y) (byte_val z)) as [E2| |E2]; [| |done]);
      intros H1 H2; try (destruct (Z.compare_spec (byte_val x) (byte_val z)); [lia|done|lia]).
    rewrite E1, E2, Z.compare_refl. by apply (IH b).
Qed.

(** ** Floats that are numbers *)

(** The rank of a float in the order of numbers: sign class, exponent, significand. *)
Definition f64_rank (x : f64) : Z * (Z * Z) :=
  match x with
  | S754_zero _ | S754_nan => (0, (0, 0))
  | S754_infinity s => (if s then -2 else 2, (0, 0))
  | S754_finite s m e => if s then (-1, (- e, - Zpos m)) else (1, (e, Zpos m))
  end.

Definition rank_cmp : Z * (Z * Z) -> Z * (Z * Z) -> comparison :=
  cmp_lex (cmp_on fst Z.compare) (cmp_lex (cmp_on (fst ∘ snd) Z.compare) (cmp_on (snd ∘ snd) Z.compare)).

#[export] Instance rank_order : CmpOrder rank_cmp.
Proof. unfold rank_cmp. apply _. Qed.

Lemma SFcompare_rank (x y : f64) : f64_is_nan x = false -> f64_is_nan y = false -> SFcompare x y = Some (rank_cmp (f64_rank x) (f64_rank y)).
Proof.
  intros Hx Hy. destruct x as [s|s| |s m e]; [| |discriminate Hx|]; (destruct y as [t|t| |t n f]; [| |discriminate Hy|]).
  1-8: destruct s; try reflexivity; destruct t; reflexivity.
  destruct s, t; cbn [SFcompare f64_rank]; unfold rank_cmp, cmp_lex, cmp_on; cbn [fst snd compose]; [| reflexivity | reflexivity |].
  - rewrite Z.compare_opp. change (-1 ?= -1) with Eq. cbn iota. destruct (Z.compare_spec e f) as [->|H|H].
    + rewrite Z.compare_refl. cbn [Z.opp Z.compare]. f_equal.
    + destruct (Z.compare_spec f e); [lia|lia|reflexivity].
    + destruct (Z.compare_spec f e); [lia|reflexivity|lia].
  - change (1 ?= 1) with Eq. cbn iota. destruct (e ?= f); reflexivity.
Qed.

(** ** Sorting *)

Section le.
Context {A : Type} (cmp : A -> A -> comparison) `{!CmpOrder cmp}.

Lemma cmp_refl (a : A) : cmp a a = Eq.
Proof. pose proof (cmp_opp a a) as H. by destruct (cmp a a). Qed.

Lemma cmp_le_total (a b : A) : cmp_le cmp a b = true \/ cmp_le cmp b a = true.
Proof. unfold cmp_le. rewrite (cmp_opp a b). destruct (cmp a b); cbn; auto. Qed.

Lemma cmp_le_trans (a b c : A) : cmp_le cmp a b = true -> cmp_le cmp b c = true -> cmp_le cmp a c = true.
Proof.
  unfold cmp_le. destruct (cmp a b) eqn:E1; [| |done]; intros _.
  - by rewrite (cmp_eq a b c E1).
  - destruct (cmp b c) eqn:E2; [| |done]; intros _; [|by rewrite (cmp_lt a b c E1 E2)].
    rewrite (cmp_opp c a), <- (cmp_eq b c a E2), (cmp_opp a b), E1. done.
Qed.

Lemma cmp_le_sorted (l : list A) : StronglySorted (fun a b => cmp_le cmp a b = true) (sort_by (cmp_le cmp) l).
Proof. apply sort_by_sorted; [apply cmp_le_total|apply cmp_le_trans]. Qed.
End le.

(** An order only has to be one on what is sorted. *)
Lemma insert_sorted_ext {A : Type} (le le' : A -> A -> bool) (x : A) (l : list A) :
  (forall y, y ∈ l -> le x y = le' x y) -> insert_sorted le x l = insert_sorted le' x l.
Proof.
  induction l as [|y l IH]; intros H; cbn; [done|]. rewrite H by (by left). destruct (le' x y); [done|]. f_equal. apply IH. intros z Hz. apply H. by right.
Qed.

Lemma sort_by_ext {A : Type} (le le' : A -> A -> bool) (l : list A) :
  (forall x y, x ∈ l -> y ∈ l -> le x y = le' x y) -> sort_by le l = sort_by le' l.
Proof.
  induction l as [|x l IH]; intros H; cbn; [done|]. change (foldr (insert_sorted le) [] l) with (sort_by le l).
  change (foldr (insert_sorted le') [] l) with (sort_by le' l). rewrite IH by (intros y z Hy Hz; apply H; by right).
  apply insert_sorted_ext. intros y Hy%sort_by_elem. apply H; [by left|by right].
Qed.

(** Stability: elements that may stand in either order keep theirs. *)
Lemma retain_insert_sorted {A : Type} (le : A -> A -> bool) (p : A -> bool) (x : A) (l : list A) :
  (forall b, b ∈ l -> p x = true -> p b = true -> le x b = true) ->
  retain p (insert_sorted le x l) = retain p (x :: l).
Proof.
  induction l as [|y l IH]; intros Hp; [done|]. cbn [insert_sorted]. destruct (le x y) eqn:E; [done|].
  rewrite retain_cons, IH, !retain_cons by (intros b Hb; apply Hp; by right).
  destruct (p y) eqn:Ey, (p x) eqn:Ex; try done. rewrite (Hp y) in E; [done|by left|done|done].
Qed.

Lemma sort_by_stable {A : Type} (le : A -> A -> bool) (p : A -> bool) (l : list A) :
  (forall a b, a ∈ l -> b ∈ l -> p a = true -> p b = true -> le a b = true) -> retain p (sort_by le l) = retain p l.
Proof.
  induction l as [|x l IH]; intros Hp; [done|]. change (sort_by le (x :: l)) with (insert_sorted le x (sort_by le l)).
  rewrite retain_insert_sorted, !retain_cons, IH; [done| |].
  - intros a b Ha Hb. apply Hp; by right.
  - intros b Hb%sort_by_elem. apply Hp; [by left|by right].
Qed.
