(* ===== verification/F64Text.v ===== *)
(** * Binary64 and text

    Rust's parser of [f64], the roundings, and [format!] at a fixed number of digits, which rounds the exact
    value, ties to even. On integers below [2^53] the arithmetic, the comparisons, the parser and the printer of [f64] are
    those of the integers. *)

From Stdlib Require Import Ascii String DecimalString.
From S2P Require Import Prelude Ints F64 Str.
Open Scope string_scope.
Open Scope Z_scope.

(** ** Parsing *)

(** A run of digits: its value, its length, the rest. *)
Fixpoint take_digits (acc n : Z) (s : string) : Z * Z * string :=
  match s with
  | String c r => if is_digit c then take_digits (acc * 10 + (byte_val c - 48)) (n + 1) r else (acc, n, s)
  | EmptyString => (acc, n, s)
  end.

(** The exponent, to the end of the string. *)
Definition parse_exponent (s : string) : option Z :=
  match s with
  | EmptyString => Some 0
  | String c r =>
      if byte_is "e" (lower_byte c) then
        let '(neg, r) := match r with
                         | String d r' => if byte_is "-" d then (true, r') else if byte_is "+" d then (false, r') else (false, r)
                         | EmptyString => (false, r)
                         end in
        let '(v, n, rest) := take_digits 0 0 r in
        if (n =? 0) || negb (is_empty rest) then None else Some (if neg then - v else v)
      else None
  end.

(** Digits with an optional point, at least one of them, and an exponent. *)
Definition parse_decimal (s : string) : option f64 :=
  let '(i, ni, r) := take_digits 0 0 s in
  let '(m, nf, r) := match r with
                     | String c r' => if byte_is "." c then let '(m, n, r'') := take_digits i 0 r' in (m, n, r'') else (i, 0, r)
                     | EmptyString => (i, 0, r)
                     end in
  if ni + nf =? 0 then None else f64_of_dec m ∘ (fun e => e - nf) <$> parse_exponent r.

Definition f64_neg (x : f64) : f64 := SFopp x.

(** [str::parse::<f64>] *)
Definition parse_f64 (s : string) : option f64 :=
  let '(neg, r) := match s with
                   | String c r => if byte_is "-" c then (true, r) else if byte_is "+" c then (false, r) else (false, s)
                   | EmptyString => (false, s)
                   end in
  let lower := to_ascii_lowercase r in
  let magnitude :=
    if str_eqb lower "inf" || str_eqb lower "infinity" then Some (S754_infinity false)
    else if str_eqb lower "nan" then Some S754_nan
    else parse_decimal r in
  (fun x => if neg then f64_neg x else x) <$> magnitude.

(** ** Rounding and printing *)

Definition f64_abs (x : f64) : f64 := SFabs x.

(** [x.fract() == 0.0]; false for the infinities and NaN. *)
Definition fract_zero (x : f64) : bool :=
  match x with
  | S754_zero _ => true
  | S754_finite _ m e => (0 <=? e) || (Zpos m mod 2 ^ (- e) =? 0)
  | _ => false
  end.

(** [x.round() as i64]: halves away from zero. *)
Definition round_i64 (x : f64) : Z :=
  match x with
  | S754_finite s m e =>
      let r := if 0 <=? e then Zpos m * 2 ^ e else (2 * Zpos m + 2 ^ (- e)) / (2 * 2 ^ (- e)) in
      sat_i64 (if s then - r else r)
  | _ => f64_to_i64 x
  end.

(** The quotient rounded to the nearest integer, ties to even. *)
Definition div_half_even (a b : Z) : Z :=
  let q := a / b in
  let r := a mod b in
  if (2 * r <? b) || ((2 * r =? b) && Z.even q) then q else q + 1.

Definition scaled (m : positive) (e k : Z) : Z :=
  if 0 <=? e then Zpos m * 2 ^ e * 10 ^ k else div_half_even (Zpos m * 10 ^ k) (2 ^ (- e)).

Fixpoint zeros (n : nat) : string := match n with O => "" | S k => String "0" (zeros k) end.
(** [format!("{:0width$}", n)] *)
Definition pad_zeros (width n : Z) : string :=
  let s := Z_to_string n in String.append (zeros (Z.to_nat (width - str_len s))) s.

(** [format!("{:.k$}", x)]. *)
Definition format_fixed (k : Z) (x : f64) : string :=
  let digits neg n := String.append (if neg : bool then "-" else "")
    (if k =? 0 then Z_to_string n
     else String.append (Z_to_string (n / 10 ^ k)) (String "." (pad_zeros k (n mod 10 ^ k)))) in
  match x with
  | S754_nan => "NaN"
  | S754_infinity s => if s then "-inf" else "inf"
  | S754_zero s => digits s 0
  | S754_finite s m e => digits s (scaled m e k)
  end.

Example parse_ex1 : parse_f64 "-1.5e1" = Some (f64_of_Z (-15)).
Proof. vm_compute. reflexivity. Qed.
Example parse_ex2 : parse_f64 ".5" = parse_f64 "5.e-1" /\ parse_f64 "." = None /\ parse_f64 "1e" = None /\ parse_f64 "" = None.
Proof. repeat split; vm_compute; reflexivity. Qed.
Example parse_ex3 : parse_f64 "+Infinity" = Some (S754_infinity false) /\ parse_f64 "1e400" = Some (S754_infinity false).
Proof. repeat split; vm_compute; reflexivity. Qed.
Example format_ex : format_fixed 1 (f64_of_dec 25 (-2)) = "0.2" /\ format_fixed 2 (f64_of_dec 1 (-1)) = "0.10"
  /\ format_fixed 1 (f64_of_dec (-75) (-2)) = "-0.8" /\ format_fixed 0 (f64_of_dec 25 (-1)) = "2".
Proof. repeat split; vm_compute; reflexivity. Qed.

(** ** Padding *)


Lemma zeros_length (n : nat) : String.length (zeros n) = n.
Proof. induction n as [|n IH]; simpl; congruence. Qed.

Lemma zeros_digits (n : nat) (s : string) : parse_digits 0 (String.append (zeros n) s) = parse_digits 0 s.
Proof. induction n as [|n IH]; simpl; [done|]. exact IH. Qed.

Lemma pad_zeros_spec (w n : Z) : 1 <= w -> 0 <= n < 10 ^ w ->
  str_len (pad_zeros w n) = w /\ parse_digits 0 (pad_zeros w n) = Some n.
Proof.
  intros Hw Hn. unfold pad_zeros. pose proof (Z_to_string_length n w Hn Hw) as Hl. split.
  - unfold str_len in *. rewrite str_length_append, zeros_length. lia.
  - rewrite zeros_digits. apply Z_to_string_digits. lia.
Qed.

(** ** Floats and integers *)

(** ** The representation *)

(** The 53-bit mantissa of an integer and its exponent. *)
Definition mant (p : positive) : positive := Z.to_pos (Zpos p * 2 ^ (52 - Z.log2 (Zpos p))).
Definition canon (s : bool) (p : positive) : f64 := S754_finite s (mant p) (Z.log2 (Zpos p) - 52).

Definition small (z : Z) : Prop := Z.abs z < 2 ^ 53.

Lemma log2_small (p : positive) : Zpos p < 2 ^ 53 -> 0 <= Z.log2 (Zpos p) <= 52.
Proof. intros Hp. split; [apply Z.log2_nonneg|]. apply Z.lt_succ_r, Z.log2_lt_pow2; lia. Qed.

Lemma mant_val (p : positive) : Zpos p < 2 ^ 53 -> Zpos (mant p) = Zpos p * 2 ^ (52 - Z.log2 (Zpos p)).
Proof.
  intros Hp. pose proof (log2_small p Hp). unfold mant. rewrite Z2Pos.id; [done|].
  assert (0 < 2 ^ (52 - Z.log2 (Zpos p))) by (apply Z.pow_pos_nonneg; lia). lia.
Qed.

Lemma mant_log2 (p : positive) : Zpos p < 2 ^ 53 -> Z.log2 (Zpos (mant p)) = 52.
Proof. intros Hp. pose proof (log2_small p Hp). rewrite mant_val, Z.log2_mul_pow2 by lia. lia. Qed.

(** ** Exact rounding *)

Lemma shr_exact (n : positive) : forall m : positive,
  SpecFloat.iter_pos shr_1 n (Build_shr_record (Zpos m * 2 ^ Zpos n) false false) = Build_shr_record (Zpos m) false false.
Proof.
  assert (Hone : forall m : positive, shr_1 (Build_shr_record (Zpos m * 2) false false) = Build_shr_record (Zpos m) false false).
  { intros m. by rewrite Z.mul_comm. }
  assert (Hpos : forall (m q : positive), exists r : positive, Zpos r = Zpos m * 2 ^ Zpos q).
  { intros m q. assert (0 < 2 ^ Zpos q) by (apply Z.pow_pos_nonneg; lia).
    exists (Z.to_pos (Zpos m * 2 ^ Zpos q)). rewrite Z2Pos.id; lia. }
  induction n as [n IH|n IH|]; intros m; cbn [SpecFloat.iter_pos]; [| |apply Hone].
  - destruct (Hpos m n) as [r Hr], (Hpos r n) as [q Hq].
    replace (Zpos m * 2 ^ Zpos n~1) with (Zpos q * 2).
    + rewrite Hone, Hq, IH, Hr, IH. done.
    + rewrite Hq, Hr. replace (Zpos n~1) with (Zpos n + Zpos n + 1) by lia. rewrite !Z.pow_add_r by lia. lia.
  - destruct (Hpos m n) as [r Hr].
    replace (Zpos m * 2 ^ Zpos n~0) with (Zpos r * 2 ^ Zpos n).
    + rewrite IH, Hr, IH. done.
    + rewrite Hr. replace (Zpos n~0) with (Zpos n + Zpos n) by lia. rewrite Z.pow_add_r by lia. lia.
Qed.

Lemma round_aux_exact (s : bool) (P m : positive) (e n : Z) : 0 <= n -> Zpos P = Zpos m * 2 ^ n ->
  Z.log2 (Zpos m) = 52 -> -1074 <= e + n <= 971 ->
  binary_round_aux 53 1024 s (Zpos P) e loc_Exact = S754_finite s m (e + n).
Proof.
  intros Hn HP Hm He.
  assert (Hf : fexp 53 1024 (Zdigits2 (Zpos P) + e) - e = n).
  { unfold Zdigits2, fexp, emin. rewrite digits2_log2, HP, Z.log2_mul_pow2 by lia. lia. }
  assert (Hf' : fexp 53 1024 (Zdigits2 (Zpos m) + (e + n)) - (e + n) = 0).
  { unfold Zdigits2, fexp, emin. rewrite digits2_log2, Hm. lia. }
  assert (Hshr : shr (shr_record_of_loc (Zpos P) loc_Exact) e n = (Build_shr_record (Zpos m) false false, e + n)).
  { rewrite HP. cbn [shr_record_of_loc]. destruct n as [|n|n]; cbn [shr]; [|by rewrite shr_exact|lia].
    rewrite Z.mul_1_r. f_equal. lia. }
  unfold binary_round_aux, shr_fexp. rewrite Hf, Hshr. cbn [shr_m loc_of_shr_record round_nearest_even]. rewrite Hf'.
  cbn [shr shr_record_of_loc shr_m]. destruct (Z.leb_spec (e + n) (1024 - 53)); [done|lia].
Qed.

Lemma shl_align_val (m : positive) (e e' : Z) : e' <= e -> Zpos (fst (shl_align m e e')) = Zpos m * 2 ^ (e - e').
Proof.
  intros He. unfold shl_align. destruct (e' - e) as [|q|q] eqn:E; cbn [fst]; [|lia|].
  - replace (e - e') with 0 by lia. lia.
  - replace (e - e') with (Zpos q) by lia. clear.
    induction q as [|q IH] using Pos.peano_ind; [simpl; lia|].
    rewrite Pos.iter_succ, Pos2Z.inj_xO, IH, Pos2Z.inj_succ, Z.pow_succ_r by lia. lia.
Qed.

Lemma binary_round_exact (s : bool) (p P : positive) (k : Z) : Zpos p < 2 ^ 53 -> 0 <= k <= 1000 ->
  Zpos P = Zpos p * 2 ^ k -> binary_round 53 1024 s P (- k) = canon s p.
Proof.
  intros Hp Hk HP. pose proof (log2_small p Hp) as Hl. pose proof (mant_val p Hp) as Hm.
  unfold binary_round. rewrite digits2_log2, HP, Z.log2_mul_pow2 by lia.
  assert (Hf : fexp 53 1024 (k + Z.log2 (Zpos p) + 1 + - k) = Z.log2 (Zpos p) - 52) by (unfold fexp, emin; lia).
  rewrite Hf. set (l := Z.log2 (Zpos p)) in *. destruct (Z_lt_le_dec (l - 52) (- k)) as [Hlt|Hge].
  - pose proof (shl_align_val P (- k) (l - 52) ltac:(lia)) as Hv.
    assert (Hsnd : snd (shl_align P (- k) (l - 52)) = l - 52).
    { unfold shl_align. destruct (l - 52 - - k) eqn:E; [lia|lia|done]. }
    destruct (shl_align P (- k) (l - 52)) as [mz ez]; cbn [fst snd] in *. subst ez.
    replace (S754_finite s (mant p) (l - 52)) with (S754_finite s (mant p) (l - 52 + 0)) by (f_equal; lia).
    unfold canon. fold l. replace (l - 52) with (l - 52 + 0) at 2 by lia.
    apply round_aux_exact; [lia| |by apply mant_log2|lia].
    rewrite Hv, HP, Hm, Z.mul_1_r, <-Z.mul_assoc, <-Z.pow_add_r by lia. do 2 f_equal. lia.
  - assert (Hsame : shl_align P (- k) (l - 52) = (P, - k)).
    { unfold shl_align. destruct (l - 52 - - k) eqn:E; [done|done|lia]. }
    rewrite Hsame. unfold canon. fold l. replace (l - 52) with (- k + (l - 52 + k)) by lia.
    apply round_aux_exact; [lia| |by apply mant_log2|lia].
    rewrite HP, Hm, <-Z.mul_assoc, <-Z.pow_add_r by lia. do 2 f_equal. lia.
Qed.

(** The float of an integer. *)
Definition of_int (z : Z) : f64 :=
  match z with Z0 => S754_zero false | Zpos p => canon false p | Zneg p => canon true p end.

Lemma normalize_exact (v k : Z) : small v -> 0 <= k <= 1000 -> binary_normalize 53 1024 (v * 2 ^ k) (- k) false = of_int v.
Proof.
  unfold small. intros Hv Hk. assert (0 < 2 ^ k) by (apply Z.pow_pos_nonneg; lia).
  destruct v as [|p|p]; [done| |]; unfold binary_normalize, of_int.
  - destruct (Zpos p * 2 ^ k) as [|P|P] eqn:E; [lia| |lia]. by apply binary_round_exact.
  - destruct (Zneg p * 2 ^ k) as [|P|P] eqn:E; [lia|lia|]. apply binary_round_exact; lia.
Qed.

Lemma f64_of_int (v : Z) : small v -> f64_of_Z v = of_int v.
Proof. intros Hv. rewrite <-(normalize_exact v 0 Hv) by lia. unfold f64_of_Z. f_equal. lia. Qed.

(** ** Arithmetic *)

(** A finite value at an exponent not above its own, as an integer. *)
Definition at_exp (x : f64) (ez : Z) : Z :=
  match x with S754_finite s m e => cond_Zopp s (Zpos (fst (shl_align m e ez))) | _ => 0 end.

Lemma canon_at (s : bool) (p : positive) (ez : Z) : Zpos p < 2 ^ 53 -> ez <= Z.log2 (Zpos p) - 52 ->
  at_exp (canon s p) ez = cond_Zopp s (Zpos p) * 2 ^ (- ez).
Proof.
  intros Hp He. pose proof (log2_small p Hp). unfold at_exp, canon. rewrite shl_align_val, mant_val by lia.
  rewrite <-Z.mul_assoc, <-Z.pow_add_r by lia.
  replace (52 - Z.log2 (Zpos p) + (Z.log2 (Zpos p) - 52 - ez)) with (- ez) by lia. destruct s; cbn [cond_Zopp]; lia.
Qed.

Lemma canon_sum (s s' : bool) (p q : positive) (op : Z -> Z -> Z) : Zpos p < 2 ^ 53 -> Zpos q < 2 ^ 53 ->
  (forall a b k, op (a * k) (b * k) = op a b * k) -> small (op (cond_Zopp s (Zpos p)) (cond_Zopp s' (Zpos q))) ->
  let ez := Z.min (Z.log2 (Zpos p) - 52) (Z.log2 (Zpos q) - 52) in
  binary_normalize 53 1024 (op (at_exp (canon s p) ez) (at_exp (canon s' q) ez)) ez false
  = of_int (op (cond_Zopp s (Zpos p)) (cond_Zopp s' (Zpos q))).
Proof.
  intros Hp Hq Hop Hs ez. pose proof (log2_small p Hp). pose proof (log2_small q Hq).
  rewrite !canon_at by (done || unfold ez; lia). rewrite Hop.
  replace ez with (- - ez) at 2 by lia. apply normalize_exact; [done|]. unfold ez. lia.
Qed.

Lemma f64_add_int (a b : Z) : small a -> small b -> small (a + b) -> f64_add (of_int a) (of_int b) = of_int (a + b).
Proof.
  unfold small. intros Ha Hb Hab. destruct a as [|p|p], b as [|q|q]; try done; unfold f64_add, of_int, SFadd; fold (canon).
  1: exact (canon_sum false false p q Z.add ltac:(lia) ltac:(lia) ltac:(lia) Hab).
  1: exact (canon_sum false true p q Z.add ltac:(lia) ltac:(lia) ltac:(lia) Hab).
  1: exact (canon_sum true false p q Z.add ltac:(lia) ltac:(lia) ltac:(lia) Hab).
  exact (canon_sum true true p q Z.add ltac:(lia) ltac:(lia) ltac:(lia) Hab).
Qed.

Lemma f64_sub_int (a b : Z) : small a -> small b -> small (a - b) -> f64_sub (of_int a) (of_int b) = of_int (a - b).
Proof.
  unfold small. intros Ha Hb Hab. destruct a as [|p|p], b as [|q|q]; try done; unfold f64_sub, of_int, SFsub.
  1: exact (canon_sum false false p q Z.sub ltac:(lia) ltac:(lia) ltac:(lia) Hab).
  1: exact (canon_sum false true p q Z.sub ltac:(lia) ltac:(lia) ltac:(lia) Hab).
  1: exact (canon_sum true false p q Z.sub ltac:(lia) ltac:(lia) ltac:(lia) Hab).
  exact (canon_sum true true p q Z.sub ltac:(lia) ltac:(lia) ltac:(lia) Hab).
Qed.

Lemma canon_mul (s s' : bool) (p q : positive) : Zpos p < 2 ^ 53 -> Zpos q < 2 ^ 53 -> Zpos (p * q) < 2 ^ 53 ->
  f64_mul (canon s p) (canon s' q) = canon (xorb s s') (p * q).
Proof.
  intros Hp Hq Hpq. pose proof (log2_small p Hp). pose proof (log2_small q Hq). pose proof (log2_small _ Hpq).
  pose proof (Z.log2_mul_below (Zpos p) (Zpos q) ltac:(lia) ltac:(lia)) as Hlow. rewrite <-Pos2Z.inj_mul in Hlow.
  unfold f64_mul, SFmul, canon.
  replace (Z.log2 (Zpos (p * q)) - 52) with
    (Z.log2 (Zpos p) - 52 + (Z.log2 (Zpos q) - 52) + (Z.log2 (Zpos (p * q)) - Z.log2 (Zpos p) - Z.log2 (Zpos q) + 52)) by lia.
  apply round_aux_exact; [lia| |by apply mant_log2|lia].
  rewrite Pos2Z.inj_mul, !mant_val, (Pos2Z.inj_mul p q) by done. rewrite Pos2Z.inj_mul in *.
  set (lp := Z.log2 (Zpos p)) in *. set (lq := Z.log2 (Zpos q)) in *. set (l := Z.log2 (Zpos p * Zpos q)) in *.
  replace (Zpos p * Zpos q * 2 ^ (52 - l) * 2 ^ (l - lp - lq + 52))
    with (Zpos p * Zpos q * (2 ^ (52 - l) * 2 ^ (l - lp - lq + 52))) by lia.
  rewrite <-Z.pow_add_r by lia. replace (52 - l + (l - lp - lq + 52)) with ((52 - lp) + (52 - lq)) by lia.
  rewrite Z.pow_add_r by lia. lia.
Qed.

Lemma f64_mul_int (a b : Z) : small a -> small b -> small (a * b) ->
  f64_mul (of_int a) (of_int b) = of_int (a * b) \/ exists s, a * b = 0 /\ f64_mul (of_int a) (of_int b) = S754_zero s.
Proof.
  unfold small. intros Ha Hb Hab. destruct a as [|p|p], b as [|q|q]; try (right; eexists; split; [done|reflexivity]); left;
    unfold of_int; rewrite canon_mul by lia; done.
Qed.

(** ** Order *)

Lemma mant_compare (p q : positive) : Zpos p < 2 ^ 53 -> Zpos q < 2 ^ 53 ->
  match Z.compare (Z.log2 (Zpos p) - 52) (Z.log2 (Zpos q) - 52) with
  | Eq => Pos.compare_cont Eq (mant p) (mant q)
  | c => c
  end = Z.compare (Zpos p) (Zpos q).
Proof.
  intros Hp Hq. pose proof (mant_val p Hp) as Hm. pose proof (mant_val q Hq) as Hn.
  pose proof (log2_small p Hp). destruct (Z.compare_spec (Z.log2 (Zpos p) - 52) (Z.log2 (Zpos q) - 52)) as [He|He|He].
  - replace (Z.log2 (Zpos q)) with (Z.log2 (Zpos p)) in Hn by lia.
    assert (0 < 2 ^ (52 - Z.log2 (Zpos p))) by (apply Z.pow_pos_nonneg; lia).
    change (Pos.compare_cont Eq (mant p) (mant q)) with (Z.compare (Zpos (mant p)) (Zpos (mant q))).
    rewrite Hm, Hn. destruct (Z.compare_spec (Zpos p) (Zpos q)) as [E|E|E];
      [apply Z.compare_eq_iff|apply Z.compare_lt_iff|apply Z.compare_gt_iff]; nia.
  - symmetry. apply Z.compare_lt_iff. apply Z.log2_lt_cancel. lia.
  - symmetry. apply Z.compare_gt_iff. apply Z.log2_lt_cancel. lia.
Qed.

Lemma f64_compare_int (a b : Z) : small a -> small b -> SFcompare (of_int a) (of_int b) = Some (Z.compare a b).
Proof.
  unfold small. intros Ha Hb. destruct a as [|p|p], b as [|q|q]; try done; unfold of_int, canon; cbn [SFcompare]; f_equal.
  - rewrite <-(mant_compare p q) by lia. by destruct (_ ?= _).
  - change (Z.compare (Zneg p) (Zneg q)) with (CompOpp (Z.compare (Zpos p) (Zpos q))).
    rewrite <-(mant_compare p q) by lia. by destruct (_ ?= _).
Qed.

Lemma f64_eqb_int (a b : Z) : small a -> small b -> f64_eqb (of_int a) (of_int b) = (a =? b).
Proof. intros Ha Hb. unfold f64_eqb, SFeqb. rewrite f64_compare_int by done. destruct (Z.compare_spec a b), (Z.eqb_spec a b); done || lia. Qed.

Lemma f64_ltb_int (a b : Z) : small a -> small b -> f64_ltb (of_int a) (of_int b) = (a <? b).
Proof. intros Ha Hb. unfold f64_ltb, SFltb. by rewrite f64_compare_int. Qed.

Lemma f64_leb_int (a b : Z) : small a -> small b -> f64_leb (of_int a) (of_int b) = (a <=? b).
Proof. intros Ha Hb. unfold f64_leb, SFleb. by rewrite f64_compare_int. Qed.

(** ** Text *)

Lemma take_digits_all (s : string) : forall acc n v, parse_digits acc s = Some v -> take_digits acc n s = (v, n + str_len s, "").
Proof.
  induction s as [|c s IH]; intros acc n v; cbn [parse_digits take_digits].
  - intros [= <-]. unfold str_len. simpl. do 2 f_equal. lia.
  - destruct (is_digit c); [|done]. intros Hv. rewrite (IH _ _ _ Hv). unfold str_len. cbn [String.length].
    rewrite Nat2Z.inj_succ. do 2 f_equal. lia.
Qed.

(** The text of a natural number starts with a digit. *)
Lemma Z_to_string_head (z : Z) : 0 <= z -> exists c r, Z_to_string z = String c r /\ is_digit c = true.
Proof.
  destruct z as [|p|p]; [intros _; do 2 eexists; split; reflexivity| |lia]. intros _. unfold Z_to_string.
  cbn [Z.to_int NilZero.string_of_int]. destruct (uint_head _ (to_uint_not_nil p)) as (c & r & -> & _ & Hc). by exists c, r.
Qed.

Lemma Z_to_string_neg (p : positive) : Z_to_string (Zneg p) = String "-" (Z_to_string (Zpos p)).
Proof. reflexivity. Qed.

Lemma digit_bytes (c : ascii) : is_digit c = true ->
  byte_is "-" c = false /\ byte_is "+" c = false /\ graphic c = true /\ exists s, to_ascii_lowercase (String c "") = String c s /\ s = "".
Proof.
  destruct c as [[] [] [] [] [] [] [] []]; vm_compute; intros; try discriminate; repeat split; by eexists.
Qed.

Lemma parse_f64_nat (z : Z) : 0 <= z -> small z -> parse_f64 (Z_to_string z) = Some (of_int z).
Proof.
  intros Hz Hs. pose proof (Z_to_string_digits z Hz) as Hd. destruct (Z_to_string_head z Hz) as (c & r & E & Hc).
  rewrite E in *. destruct (digit_bytes c Hc) as (Hm & Hp & _ & s & Hl & _). unfold parse_f64. rewrite Hm, Hp.
  assert (Hlow : to_ascii_lowercase (String c r) = String c (to_ascii_lowercase r)).
  { unfold to_ascii_lowercase in *. cbn [str_map] in *. by injection Hl as -> _. }
  rewrite Hlow. assert (Hword : forall d w t, is_digit d = false -> str_eqb (String c t) (String d w) = false).
  { intros d w t Hd'. apply bool_decide_eq_false. intros [= ->]. congruence. }
  rewrite !Hword by reflexivity. cbn [orb]. unfold parse_decimal. rewrite (take_digits_all _ _ _ _ Hd).
  unfold str_len. destruct (Z.eqb_spec (0 + Z.of_nat (String.length (String c r)) + 0) 0); [simpl in *; lia|].
  cbn [parse_exponent fmap option_fmap option_map compose]. unfold f64_of_dec. cbn [Z.leb Z.sub Z.compare Z.add Z.opp].
  change (10 ^ 0) with 1. rewrite Z.mul_1_r. do 2 f_equal. by apply f64_of_int.
Qed.

Lemma parse_f64_int (z : Z) : small z -> parse_f64 (Z_to_string z) = Some (of_int z).
Proof.
  intros Hs. destruct z as [|p|p]; [by apply parse_f64_nat|by apply parse_f64_nat|].
  pose proof (parse_f64_nat (Zpos p) ltac:(lia) Hs) as Hp. rewrite Z_to_string_neg.
  destruct (Z_to_string_head (Zpos p) ltac:(lia)) as (c & r & E & Hc). rewrite E in *.
  destruct (digit_bytes c Hc) as (Hm & Hpl & _). unfold parse_f64 in *. rewrite Hm, Hpl in Hp.
  change (byte_is "-" "-") with true. cbn match. destruct (if _ || _ then _ else _) as [x|]; [|done].
  cbn in Hp |- *. injection Hp as ->. done.
Qed.

Lemma trim_int (z : Z) : trim (Z_to_string z) = Z_to_string z.
Proof.
  apply trim_graphic.
  assert (Hnat : forall p, str_all graphic (Z_to_string (Zpos p)) = true).
  { intros p. pose proof (Z_to_string_digits (Zpos p) ltac:(lia)) as Hd. revert Hd.
    generalize 0. induction (Z_to_string (Zpos p)) as [|c s IH]; intros acc; [done|]. cbn [parse_digits str_all].
    destruct (is_digit c) eqn:Ec; [|done]. destruct (digit_bytes c Ec) as (_ & _ & -> & _). apply IH. }
  destruct z as [|p|p]; [done|apply Hnat|]. rewrite Z_to_string_neg. cbn [str_all]. by rewrite Hnat.
Qed.

(** ** Printing *)

Lemma canon_abs (s : bool) (p : positive) : f64_abs (canon s p) = canon false p.
Proof. done. Qed.

Lemma canon_fract (s : bool) (p : positive) : Zpos p < 2 ^ 53 -> fract_zero (canon s p) = true.
Proof.
  intros Hp. pose proof (log2_small p Hp). unfold canon, fract_zero. rewrite mant_val by done.
  apply orb_true_iff. right. apply Z.eqb_eq. replace (- (Z.log2 (Zpos p) - 52)) with (52 - Z.log2 (Zpos p)) by lia.
  apply Z.mod_mul. assert (0 < 2 ^ (52 - Z.log2 (Zpos p))) by (apply Z.pow_pos_nonneg; lia). lia.
Qed.

Lemma f64_to_i64_int (z : Z) : small z -> f64_to_i64 (of_int z) = z.
Proof.
  intros Hs. assert (Hmag : forall p, Zpos p < 2 ^ 53 -> mag_trunc (mant p) (Z.log2 (Zpos p) - 52) = Zpos p).
  { intros p Hp. pose proof (log2_small p Hp). unfold mag_trunc. rewrite mant_val by done.
    assert (0 < 2 ^ (52 - Z.log2 (Zpos p))) by (apply Z.pow_pos_nonneg; lia).
    destruct (Z.leb_spec 0 (Z.log2 (Zpos p) - 52)).
    - replace (Z.log2 (Zpos p)) with 52 by lia. simpl. lia.
    - replace (- (Z.log2 (Zpos p) - 52)) with (52 - Z.log2 (Zpos p)) by lia. apply Z.div_mul. lia. }
  unfold small in Hs. destruct z as [|p|p]; [done| |]; unfold of_int, canon; cbn [f64_to_i64]; rewrite Hmag by lia;
    unfold sat_i64, i64_min, i64_max; lia.
Qed.
