(* ===== verification/Json.v ===== *)
(** * JSON values

    [serde_json::Value], built with the [preserve_order] feature: an object is an ordered
    map, and a number is an unsigned or a negative 64-bit integer or a binary64. *)

From S2P Require Import Prelude Ints F64 Str.
Open Scope Z_scope.

#[local] Set Warnings "-register-all".

Inductive number : Type :=
| PosInt (n : Z)
| NegInt (n : Z)
| Float (x : f64).

Inductive json : Type :=
| JNull
| JBool (b : bool)
| JNum (n : number)
| JStr (s : string)
| JArr (l : list json)
| JObj (m : list (string * json)).

Definition jobj : Type := list (string * json).

(** ** Maps *)

Fixpoint map_get {A : Type} (m : list (string * A)) (k : string) : option A :=
  match m with
  | [] => None
  | (k', v) :: m' => if str_eqb k' k then Some v else map_get m' k
  end.

(** [Map::insert]: a present key keeps its position. *)
Fixpoint map_insert {A : Type} (k : string) (v : A) (m : list (string * A)) : list (string * A) :=
  match m with
  | [] => [(k, v)]
  | (k', v') :: m' => if str_eqb k' k then (k', v) :: m' else (k', v') :: map_insert k v m'
  end.

Definition map_keys {A : Type} (m : list (string * A)) : list string := m.*1.

(** ** Accessors *)

Definition num_as_i64 (n : number) : option Z :=
  match n with
  | PosInt n => if n <=? i64_max then Some n else None
  | NegInt n => Some n
  | Float _ => None
  end.

Definition num_as_u64 (n : number) : option Z :=
  match n with PosInt n => Some n | _ => None end.

Definition num_as_f64 (n : number) : f64 :=
  match n with PosInt n | NegInt n => f64_of_Z n | Float x => x end.

Definition json_as_i64 (v : json) : option Z := match v with JNum n => num_as_i64 n | _ => None end.
Definition json_as_u64 (v : json) : option Z := match v with JNum n => num_as_u64 n | _ => None end.
Definition json_as_f64 (v : json) : option f64 := match v with JNum n => Some (num_as_f64 n) | _ => None end.
Definition json_as_str (v : json) : option string := match v with JStr s => Some s | _ => None end.
Definition json_as_bool (v : json) : option bool := match v with JBool b => Some b | _ => None end.
Definition json_as_array (v : json) : option (list json) := match v with JArr l => Some l | _ => None end.
Definition json_as_object (v : json) : option jobj := match v with JObj m => Some m | _ => None end.
Definition is_null (v : json) : bool := match v with JNull => true | _ => false end.
Definition is_object (v : json) : bool := match v with JObj _ => true | _ => false end.
Definition is_array (v : json) : bool := match v with JArr _ => true | _ => false end.

(** [Value::get] with a string index: [None] unless the value is an object. *)
Definition get (v : json) (k : string) : option json :=
  match v with JObj m => map_get m k | _ => None end.

(** Integers as JSON numbers ([Value::from(i64)]). *)
Definition json_of_Z (z : Z) : json := JNum (if 0 <=? z then PosInt z else NegInt z).

(** A number the parser can produce: integers of the widths the variants hold. *)
Definition number_ok (n : number) : bool :=
  match n with
  | PosInt n => (0 <=? n) && (n <=? u64_max)
  | NegInt n => (i64_min <=? n) && (n <? 0)
  | Float x => f64_is_finite x
  end.

(** ** Induction *)

Section json_induction.
Variable P : json -> Prop.
Hypothesis Hnull : P JNull.
Hypothesis Hbool : forall b, P (JBool b).
Hypothesis Hnum : forall n, P (JNum n).
Hypothesis Hstr : forall s, P (JStr s).
Hypothesis Harr : forall l, Forall P l -> P (JArr l).
Hypothesis Hobj : forall m, Forall (fun kv => P (snd kv)) m -> P (JObj m).

Fixpoint json_rect' (v : json) : P v :=
  match v with
  | JNull => Hnull
  | JBool b => Hbool b
  | JNum n => Hnum n
  | JStr s => Hstr s
  | JArr l =>
      Harr l ((fix go (l : list json) : Forall P l :=
                 match l with
                 | [] => Forall_nil_2 _
                 | x :: l' => Forall_cons_2 _ _ _ (json_rect' x) (go l')
                 end) l)
  | JObj m =>
      Hobj m ((fix go (m : list (string * json)) : Forall (fun kv => P (snd kv)) m :=
                 match m with
                 | [] => Forall_nil_2 _
                 | x :: m' => Forall_cons_2 _ _ _ (json_rect' (snd x)) (go m')
                 end) m)
  end.
End json_induction.

(** ** Lemmas *)

Lemma map_get_insert {A : Type} (k k' : string) (v : A) (m : list (string * A)) :
  map_get (map_insert k v m) k' = if str_eqb k k' then Some v else map_get m k'.
Proof.
  induction m as [|[a x] m IH]; simpl; [done|].
  destruct (str_eqb a k) eqn:E; simpl.
  - apply str_eqb_eq in E as ->. by destruct (str_eqb k k').
  - rewrite IH. destruct (str_eqb a k') eqn:E2; [|done].
    apply str_eqb_eq in E2 as ->. destruct (str_eqb k k') eqn:E3; [|done].
    apply str_eqb_eq in E3 as ->. by rewrite str_eqb_refl in E.
Qed.

Lemma map_get_elem {A : Type} (m : list (string * A)) (k : string) (v : A) :
  map_get m k = Some v -> (k, v) ∈ m.
Proof.
  induction m as [|[a x] m IH]; simpl; [done|]. rewrite elem_of_cons.
  destruct (str_eqb a k) eqn:E; [|auto].
  apply str_eqb_eq in E as ->. intros [= ->]. by left.
Qed.

Lemma json_as_i64_in_range (v : json) (z : Z) :
  (forall n, v = JNum n -> number_ok n = true) -> json_as_i64 v = Some z -> in_i64 z.
Proof.
  intros Hok. destruct v as [| |n| | |]; simpl; try done. specialize (Hok n eq_refl).
  destruct n as [n|n|x]; simpl in *; [|intros [= <-]|done];
    unfold in_i64, i64_min, i64_max in *; zcases; naive_solver lia.
Qed.

#[export] Hint Rewrite @map_get_insert : writ_rw.
