(* ===== verification/FlowExpr.v ===== *)
(** * local/flow.rs: conditions and templates

    What the blocks of an automation compute from its scope: paths, conditions, placeholders and their filters. The regular
    expressions, [serde_json]'s text of floats, arrays and objects, and Unicode case mapping are the interface
    [FlowLibs]. The template loop's fuel is the template's length; [render_unfold] is the loop's own equation. *)

From Stdlib Require Import Ascii String.
From S2P Require Import Prelude Ints F64 Str F64Text Json.
Open Scope string_scope.
Open Scope Z_scope.

Class FlowLibs : Type := {
  (** [None]: the pattern does not compile within the size limit *)
  regex_is_match : string -> string -> option bool;
  (** the text of group 1, else of the match, if any *)
  regex_captures : string -> string -> option (option string);
  json_text : json -> string;
  float_text : f64 -> string;
  unicode_upper : string -> string;
  unicode_lower : string -> string;
}.

Definition MAX_REGEX_PATTERN_LEN : Z := 512.

(** ** Scope *)

Definition Scope : Type := jobj.

(** [lookup_path]: the first segment indexes the scope, the others descend through objects. *)
Fixpoint descend (v : json) (segs : list string) : option json :=
  match segs with
  | [] => Some v
  | s :: segs => match v with JObj m => match map_get m s with Some v => descend v segs | None => None end | _ => None end
  end.

Definition lookup_path (scope : Scope) (path : string) : option json :=
  match split "."%char path with
  | [] => None
  | first :: segs => match map_get scope first with Some v => descend v segs | None => None end
  end.

Definition is_empty_value (v : json) : bool :=
  match v with
  | JNull => true
  | JStr s => is_empty s
  | JArr [] => true
  | JObj [] => true
  | _ => false
  end.

Section expr.
Context `{FlowLibs}.

Definition number_text (n : number) : string :=
  match n with PosInt z | NegInt z => Z_to_string z | Float x => float_text x end.

Definition value_to_string (v : option json) : string :=
  match v with
  | None | Some JNull => ""
  | Some (JStr s) => s
  | Some (JBool b) => if b then "true" else "false"
  | Some (JNum n) => number_text n
  | Some other => json_text other
  end.

(** ** Conditions *)

Definition values_equal (a b : string) : bool :=
  match parse_f64 (trim a), parse_f64 (trim b) with
  | Some x, Some y => f64_eqb x y
  | _, _ => str_eqb a b
  end.

Definition compare_numeric (op a b : string) : bool :=
  match parse_f64 (trim a), parse_f64 (trim b) with
  | Some x, Some y =>
      if str_eqb op "gt" then f64_ltb y x
      else if str_eqb op "gte" then f64_leb y x
      else if str_eqb op "lt" then f64_ltb x y
      else if str_eqb op "lte" then f64_leb x y
      else false
  | _, _ => false
  end.

Definition regex_matches (pattern haystack : string) : bool :=
  if MAX_REGEX_PATTERN_LEN <? str_len pattern then false else default false (regex_is_match pattern haystack).

(** A string member of a configuration, or a default. *)
Definition cfg_str (config : json) (k d : string) : string := default d (get config k ≫= json_as_str).

Definition eval_operator (operator target : string) (actual : option json) : bool :=
  let actual_str := value_to_string actual in
  let present := match actual with Some v => negb (is_empty_value v) | None => false end in
  if str_eqb operator "exists" then present
  else if str_eqb operator "changed" then present
  else if str_eqb operator "contains" then contains actual_str target
  else if str_eqb operator "not_contains" then negb (contains actual_str target)
  else if str_eqb operator "equals" then values_equal actual_str target
  else if str_eqb operator "not_equals" then negb (values_equal actual_str target)
  else if str_eqb operator "matches" then regex_matches target actual_str
  else if str_eqb operator "gt" || str_eqb operator "gte" || str_eqb operator "lt" || str_eqb operator "lte"
  then compare_numeric operator actual_str target
  else false.

Definition eval_condition (config : json) (scope : Scope) : bool :=
  let field := cfg_str config "field" "" in
  if is_empty field then true
  else eval_operator (cfg_str config "operator" "contains") (cfg_str config "value" "") (lookup_path scope field).

(** The gate of a root event. *)
Definition status_gate_matches (event_config context : json) : bool :=
  let gate := cfg_str event_config "status_condition" "any" in
  let success := get context "success" ≫= json_as_bool in
  if str_eqb gate "success" then bool_decide (success = Some true)
  else if str_eqb gate "error" then bool_decide (success = Some false)
  else true.

(** ** Filters *)

Definition ten_15 : f64 := f64_of_Z (10 ^ 15).

Definition fmt_num (n : f64) : string :=
  if fract_zero n && f64_ltb (f64_abs n) ten_15 then Z_to_string (f64_to_i64 n)
  else trim_end_by (byte_is ".") (trim_end_by (byte_is "0") (format_fixed 6 n)).

Definition regex_capture (pattern text : string) : string :=
  if MAX_REGEX_PATTERN_LEN <? str_len pattern then ""
  else match regex_captures pattern text with Some (Some s) => s | _ => "" end.

(** [chars().take(n)]: a character is a byte that is not a continuation, and the continuations after it. *)
Definition is_continuation (c : ascii) : bool := (128 <=? byte_val c) && (byte_val c <=? 191).
Fixpoint take_chars (n : Z) (s : string) : string :=
  match s with
  | EmptyString => ""
  | String c r =>
      if is_continuation c then String c (take_chars n r)
      else if n <=? 0 then "" else String c (take_chars (n - 1) r)
  end.

(** [str::replace]: non-overlapping occurrences from the left; an empty pattern matches at every character boundary. *)
Fixpoint replace_aux (skip : nat) (s a b : string) : string :=
  match s with
  | EmptyString => ""
  | String c r =>
      match skip with
      | S k => replace_aux k r a b
      | O => if starts_with s a then String.append b (replace_aux (String.length a - 1) r a b)
             else String c (replace_aux 0 r a b)
      end
  end.
Fixpoint intersperse (s b : string) : string :=
  match s with
  | EmptyString => b
  | String c r => if is_continuation c then String c (intersperse r b) else String.append b (String c (intersperse r b))
  end.
Definition replace (s a b : string) : string :=
  if is_empty a then intersperse s b else replace_aux 0 s a b.

(** [str::parse::<i32>] *)
Definition parse_i32 (s : string) : option Z :=
  match parse_i64 s with
  | Some z => if (- 2 ^ 31 <=? z) && (z <? 2 ^ 31) then Some z else None
  | None => None
  end.

Definition arith (name : string) (a b : f64) : f64 :=
  if str_eqb name "add" then f64_add a b
  else if str_eqb name "sub" then f64_sub a b
  else if str_eqb name "mul" then f64_mul a b
  else if f64_eqb b f64_zero then a else f64_div a b.

Definition round_filter (value arg : string) : string :=
  match parse_f64 (trim value) with
  | None => value
  | Some n =>
      let digits := default 0 (parse_i32 (trim arg)) in
      if digits <=? 0 then Z_to_string (round_i64 n) else format_fixed digits n
  end.

Definition arith_filter (name value arg : string) : string :=
  match parse_f64 (trim value), parse_f64 (trim arg) with
  | Some a, Some b => fmt_num (arith name a b)
  | _, _ => value
  end.

Definition apply_named (name arg value : string) : string :=
  if str_eqb name "default" || str_eqb name "or" then (if is_empty (trim value) then arg else value)
  else if str_eqb name "upper" then unicode_upper value
  else if str_eqb name "lower" then unicode_lower value
  else if str_eqb name "trim" then trim value
  else if str_eqb name "truncate" then
    match parse_u64 (trim arg) with Some n => take_chars n value | None => value end
  else if str_eqb name "replace" then
    match split_once ":" arg with Some (a, b) => replace value a b | None => value end
  else if str_eqb name "round" then round_filter value arg
  else if str_eqb name "add" || str_eqb name "sub" || str_eqb name "mul" || str_eqb name "div" then arith_filter name value arg
  else if str_eqb name "match" then regex_capture arg value
  else value.

Definition apply_filter (value spec : string) : string :=
  let (name, arg) := match split_once ":" spec with Some (n, a) => (n, a) | None => (spec, "") end in
  apply_named (to_ascii_lowercase (trim name)) arg value.

(** ** Templates *)

Definition render_expr (expr : string) (scope : Scope) : string :=
  match split "|"%char expr with
  | [] => ""
  | path :: filters =>
      foldl (fun cur f => apply_filter cur (trim f)) (value_to_string (lookup_path scope (trim path))) filters
  end.

Fixpoint render_fuel (fuel : nat) (rest : string) (scope : Scope) : string :=
  match fuel with
  | O => ""
  | S f =>
      match find_str rest "{{" with
      | None => rest
      | Some start =>
          let after := str_drop (start + 2) rest in
          match find_str after "}}" with
          | None => rest
          | Some stop =>
              String.append (str_take start rest)
                (String.append (render_expr (trim (str_take stop after)) scope) (render_fuel f (str_drop (stop + 2) after) scope))
          end
      end
  end.

Definition render_template (template : string) (scope : Scope) : string :=
  render_fuel (S (String.length template)) template scope.
End expr.

(** ** Numbers in text *)

Definition below_15 (z : Z) : Prop := Z.abs z < 10 ^ 15.

Lemma below_15_small (z : Z) : below_15 z -> small z.
Proof. unfold below_15, small. lia. Qed.

Lemma fmt_num_int (z : Z) : below_15 z -> fmt_num (of_int z) = Z_to_string z.
Proof.
  intros Hz. pose proof (below_15_small z Hz) as Hs. unfold fmt_num.
  assert (Hf : fract_zero (of_int z) = true).
  { unfold small in Hs. destruct z; [done|apply canon_fract; lia|apply canon_fract; lia]. }
  assert (Hl : f64_ltb (f64_abs (of_int z)) ten_15 = true).
  { assert (f64_abs (of_int z) = of_int (Z.abs z)) as -> by (by destruct z).
    unfold ten_15. rewrite f64_of_int by (unfold small; lia).
    rewrite f64_ltb_int by (unfold small in *; lia). apply Z.ltb_lt. exact Hz. }
  by rewrite Hf, Hl, f64_to_i64_int.
Qed.

Lemma fmt_num_zero (s : bool) : fmt_num (S754_zero s) = "0".
Proof. by destruct s. Qed.

Section numbers.
Context `{FlowLibs}.

Lemma values_equal_int (a b : Z) : small a -> small b -> values_equal (Z_to_string a) (Z_to_string b) = (a =? b).
Proof. intros Ha Hb. unfold values_equal. by rewrite !trim_int, !parse_f64_int, f64_eqb_int. Qed.

Lemma compare_int (op : string) (a b : Z) : small a -> small b ->
  compare_numeric op (Z_to_string a) (Z_to_string b) =
    (if str_eqb op "gt" then b <? a else if str_eqb op "gte" then b <=? a
     else if str_eqb op "lt" then a <? b else if str_eqb op "lte" then a <=? b else false).
Proof. intros Ha Hb. unfold compare_numeric. by rewrite !trim_int, !parse_f64_int, !f64_ltb_int, !f64_leb_int. Qed.

(** numeric conditions compare integers as integers, on any two below [2^53] in magnitude: each of the six operators on a scope's integer and
    a configured one is the integer comparison it names. *)
Theorem integer_conditions (scope : Scope) (field : string) (a b : Z) (operator : string) (op : Z -> Z -> bool) :
  small a -> small b -> lookup_path scope field = Some (json_of_Z a) -> field <> "" ->
  (operator, op) ∈ [("equals", fun x y => x =? y); ("not_equals", fun x y => negb (x =? y));
                    ("gt", fun x y => y <? x); ("gte", fun x y => y <=? x);
                    ("lt", fun x y => x <? y); ("lte", fun x y => x <=? y)] ->
  eval_condition (JObj [("field", JStr field); ("operator", JStr operator); ("value", JStr (Z_to_string b))]) scope = op a b.
Proof.
  intros Ha Hb Hl Hf Hop. unfold eval_condition. set (config := JObj _).
  assert (cfg_str config "field" "" = field) as -> by reflexivity.
  assert (cfg_str config "operator" "contains" = operator) as -> by reflexivity.
  assert (cfg_str config "value" "" = Z_to_string b) as -> by reflexivity.
  destruct (is_empty field) eqn:E; [by destruct field|].
  rewrite Hl. unfold eval_operator. assert (Hv : value_to_string (Some (json_of_Z a)) = Z_to_string a).
  { unfold json_of_Z. by destruct (0 <=? a). }
  rewrite Hv. rewrite !elem_of_cons, elem_of_nil in Hop.
  destruct Hop as [[= -> ->]|[[= -> ->]|[[= -> ->]|[[= -> ->]|[[= -> ->]|[[= -> ->]|[]]]]]]];
    cbn -[values_equal compare_numeric Z_to_string];
    rewrite ?values_equal_int, ?compare_int by done; done.
Qed.

(** the arithmetic filters are exact on integers: below [10^15] in magnitude, operands and result, [add], [sub] and [mul] render the
    integer result without a decimal point, and a division by zero leaves the value. *)
Theorem integer_filters (a b : Z) : below_15 a -> below_15 b ->
  (below_15 (a + b) -> apply_filter (Z_to_string a) (String.append "add:" (Z_to_string b)) = Z_to_string (a + b)) /\
  (below_15 (a - b) -> apply_filter (Z_to_string a) (String.append "sub:" (Z_to_string b)) = Z_to_string (a - b)) /\
  (below_15 (a * b) -> apply_filter (Z_to_string a) (String.append "mul:" (Z_to_string b)) = Z_to_string (a * b)) /\
  apply_filter (Z_to_string a) "div:0" = Z_to_string a.
Proof.
  intros Ha Hb. pose proof (below_15_small a Ha). pose proof (below_15_small b Hb).
  assert (Hspec : forall name c, name ∈ ["add"; "sub"; "mul"; "div"] -> small c ->
    apply_filter (Z_to_string a) (String.append name (String ":" (Z_to_string c))) = fmt_num (arith name (of_int a) (of_int c))).
  { intros name c Hn Hc. rewrite !elem_of_cons, elem_of_nil in Hn.
    assert (Hf : arith_filter name (Z_to_string a) (Z_to_string c) = fmt_num (arith name (of_int a) (of_int c))).
    { unfold arith_filter. by rewrite !trim_int, !parse_f64_int. }
    rewrite <-Hf. generalize (Z_to_string a) (Z_to_string c). intros x y.
    by destruct Hn as [->|[->|[->|[->|[]]]]]. }
  split_and!.
  - intros Hr. etrans; [apply (Hspec "add" b); [by left|done]|]. unfold arith. cbn.
    rewrite f64_add_int by (done || by apply below_15_small). by apply fmt_num_int.
  - intros Hr. etrans; [apply (Hspec "sub" b); [right; by left|done]|]. unfold arith. cbn.
    rewrite f64_sub_int by (done || by apply below_15_small). by apply fmt_num_int.
  - intros Hr. etrans; [apply (Hspec "mul" b); [do 2 right; by left|done]|]. unfold arith. cbn.
    destruct (f64_mul_int a b) as [->|(s & -> & ->)]; [done|done|by apply below_15_small|by apply fmt_num_int|apply fmt_num_zero].
  - etrans; [apply (Hspec "div" 0); [do 3 right; by left|done]|]. unfold arith. cbn. by apply fmt_num_int.
Qed.
End numbers.

(** ** Rendering *)

Section render.
Context `{FlowLibs}.

Lemma render_fuel_enough (scope : Scope) (fuel : nat) : forall rest : string, (String.length rest < fuel)%nat ->
  forall more : nat, render_fuel (fuel + more) rest scope = render_fuel fuel rest scope.
Proof.
  induction fuel as [|fuel IH]; intros rest Hl more; [lia|]. cbn [Nat.add render_fuel].
  destruct (find_str rest "{{") as [start|] eqn:Es; [|done].
  destruct (find_str (str_drop (start + 2) rest) "}}") as [stop|] eqn:Ee; [|done].
  apply find_str_length in Es, Ee. rewrite str_drop_length in Ee. cbn [String.length] in *.
  rewrite IH; [done|]. rewrite !str_drop_length. lia.
Qed.

(** The loop's equation. *)
Lemma render_unfold (template : string) (scope : Scope) :
  render_template template scope =
    match find_str template "{{" with
    | None => template
    | Some start =>
        let after := str_drop (start + 2) template in
        match find_str after "}}" with
        | None => template
        | Some stop =>
            String.append (str_take start template)
              (String.append (render_expr (trim (str_take stop after)) scope) (render_template (str_drop (stop + 2) after) scope))
        end
    end.
Proof.
  unfold render_template at 1. cbn [render_fuel].
  destruct (find_str template "{{") as [start|] eqn:Es; [|done].
  destruct (find_str (str_drop (start + 2) template) "}}") as [stop|] eqn:Ee; [|done]. cbv zeta. do 2 f_equal.
  set (rest := str_drop (stop + 2) (str_drop (start + 2) template)).
  apply find_str_length in Es, Ee. rewrite str_drop_length in Ee. cbn [String.length] in *.
  assert (Hl : (S (String.length rest) <= String.length template)%nat) by (unfold rest; rewrite !str_drop_length; lia).
  unfold render_template. replace (String.length template) with (S (String.length rest) + (String.length template - S (String.length rest)))%nat by lia.
  rewrite render_fuel_enough; [done|lia].
Qed.

(** templates render in one pass, left to right: text without an opening is itself, an unclosed opening and what follows it stay as they are,
    and the first placeholder becomes the value of its trimmed expression, before the rendering of the rest. The value put in is
    never scanned, so a scope cannot smuggle in placeholders. *)
Theorem render_single_pass (scope : Scope) (pre expr post : string) :
  find_str (String.append pre "{{") "{{" = Some (String.length pre) ->
  find_str (String.append expr "}}") "}}" = Some (String.length expr) ->
  render_template (String.append pre (String.append "{{" (String.append expr (String.append "}}" post)))) scope
    = String.append pre (String.append (render_expr (trim expr) scope) (render_template post scope)) /\
  (forall text, find_str text "{{" = None -> render_template text scope = text) /\
  (forall tail, find_str tail "}}" = None ->
     render_template (String.append pre (String.append "{{" tail)) scope = String.append pre (String.append "{{" tail)).
Proof.
  intros Hpre Hexpr.
  assert (Hopen : forall tail, find_str (String.append pre (String.append "{{" tail)) "{{" = Some (String.length pre)).
  { intros tail. rewrite <-append_assoc. by apply find_str_app. }
  assert (Hdrop : forall tail, str_drop (String.length pre + 2) (String.append pre (String.append "{{" tail)) = tail).
  { intros tail. rewrite <-append_assoc.
    replace (String.length pre + 2)%nat with (String.length (String.append pre "{{")) by (by rewrite str_length_append).
    apply str_drop_append. }
  assert (Htake : forall tail, str_take (String.length pre) (String.append pre tail) = pre) by (intros tail; apply str_take_append).
  split_and!.
  - rewrite render_unfold, Hopen. cbv zeta. rewrite Hdrop, Htake.
    assert (Hclose : find_str (String.append expr (String.append "}}" post)) "}}" = Some (String.length expr)).
    { rewrite <-append_assoc. by apply find_str_app. }
    rewrite Hclose, str_take_append. do 3 f_equal. rewrite <-append_assoc.
    replace (String.length expr + 2)%nat with (String.length (String.append expr "}}")) by (by rewrite str_length_append).
    apply str_drop_append.
  - intros text Ht. by rewrite render_unfold, Ht.
  - intros tail Ht. rewrite render_unfold, Hopen. cbv zeta. by rewrite Hdrop, Ht.
Qed.
End render.

(** ** Examples *)

#[export] Instance demo_flow : FlowLibs := {|
  regex_is_match := fun p s => Some (contains s p);
  regex_captures := fun p s => Some (if contains s p then Some p else None);
  json_text := fun v => match v with JArr [] => "[]" | JObj [] => "{}" | _ => "?" end;
  float_text := fun x => format_fixed 1 x;
  unicode_upper := to_ascii_uppercase;
  unicode_lower := to_ascii_lowercase;
|}.

Lemma integer_conditions_witness :
  eval_condition (JObj [("field", JStr "n"); ("operator", JStr "gte"); ("value", JStr (Z_to_string (-3)))]) [("n", json_of_Z 12)] = true.
Proof.
  apply (integer_conditions [("n", json_of_Z 12)] "n" 12 (-3) "gte" (fun x y => y <=? x)).
  - by compute.
  - by compute.
  - reflexivity.
  - discriminate.
  - do 3 right. by left.
Defined.

Lemma integer_filters_witness : apply_filter (Z_to_string 1299) (String.append "mul:" (Z_to_string (-3))) = Z_to_string (-3897).
Proof.
  assert (Ha : below_15 1299) by by_compute. assert (Hb : below_15 (-3)) by by_compute. assert (Hr : below_15 (1299 * -3)) by by_compute.
  destruct (integer_filters 1299 (-3) Ha Hb) as (_ & _ & Hm & _). exact (Hm Hr).
Defined.

Lemma render_single_pass_witness :
  render_template "a {{ x }}, {{y}} {{" [("x", JStr "{{y}}"); ("y", json_of_Z 7)] = "a {{y}}, 7 {{".
Proof.
  destruct (render_single_pass [("x", JStr "{{y}}"); ("y", json_of_Z 7)] "a " " x " ", {{y}} {{") as [H _];
    [reflexivity|reflexivity|]. etrans; [exact H|]. vm_compute. reflexivity.
Defined.

(** Two identifiers of seventeen digits that the condition takes for one, and a text that does not equal itself. *)
Example equals_collapses :
  values_equal "90071992547409931" "90071992547409932" = true /\ values_equal "NaN" "NaN" = false /\ values_equal "1e999" "inf" = true.
Proof. repeat split; vm_compute; reflexivity. Qed.
