(* ===== verification/Errors.v ===== *)
(** * local/error.rs: the errors of the local backend and their responses

    A driver error is its text and the constraint it violated. JSON and I/O errors are their texts. *)

From Stdlib Require Import Ascii String.
From S2P Require Import Prelude Ints F64 Str F64Text.
Open Scope string_scope.
Open Scope Z_scope.

(** [sqlx::error::ErrorKind], the constraint violations. *)
Inductive ErrorKind : Type := UniqueViolation | ForeignKeyViolation | NotNullViolation | CheckViolation.

Inductive LocalError : Type :=
| Db (text : string) (kind : option ErrorKind)
| Migrate (e : string)
| CipherUnavailable
| Corrupt (e : string)
| SchemaVersionFuture (found supported : Z)
| NotFound (e : string)
| BadRequest (e : string)
| Conflict (e : string)
| Unauthorized
| Forbidden
| IsolationViolation (e : string)
| Locked
| TooManyRequests
| CaptchaRequired (captcha_type : option string) (url : string)
| PaymentRequired (e : string)
| DeviceCapacity (would_use budget : f64)
| CloudUnreachable (e : string)
| IoError (e : string)
| Json (e : string)
| Internal (e : string).

Definition constraint_kind (e : LocalError) : option ErrorKind := match e with Db _ k => k | _ => None end.

(** The HTTP status. *)
Definition status (e : LocalError) : Z :=
  match e with
  | NotFound _ => 404
  | BadRequest _ => 400
  | Conflict _ => 409
  | Db _ k =>
      match k with
      | Some UniqueViolation => 409
      | Some _ => 400
      | None => 500
      end
  | Unauthorized => 401
  | Forbidden => 403
  | IsolationViolation _ => 403
  | Locked => 423
  | TooManyRequests => 429
  | CaptchaRequired _ _ => 402
  | PaymentRequired _ => 402
  | DeviceCapacity _ _ => 409
  | CloudUnreachable _ => 503
  | _ => 500
  end.

Definition code (e : LocalError) : string :=
  match e with
  | Db _ k =>
      match k with
      | Some UniqueViolation => "conflict"
      | Some ForeignKeyViolation => "invalid_reference"
      | Some _ => "invalid_field"
      | None => "db_error"
      end
  | Conflict _ => "conflict"
  | Migrate _ => "db_error"
  | CipherUnavailable => "cipher_unavailable"
  | Corrupt _ => "db_corrupt"
  | SchemaVersionFuture _ _ => "schema_version_future"
  | NotFound _ => "not_found"
  | BadRequest _ => "bad_request"
  | Unauthorized => "unauthorized"
  | Forbidden => "forbidden"
  | IsolationViolation _ => "isolation_violation"
  | Locked => "vault_locked"
  | TooManyRequests => "too_many_requests"
  | CaptchaRequired _ _ => "captcha_required"
  | PaymentRequired _ => "payment_required"
  | DeviceCapacity _ _ => "device_capacity"
  | CloudUnreachable _ => "cloud_unreachable"
  | IoError _ => "io_error"
  | Json _ => "json_error"
  | Internal _ => "internal"
  end.

Definition to_string (e : LocalError) : string :=
  match e with
  | Db t _ => "database error: " ++ t
  | Migrate t => "migration error: " ++ t
  | CipherUnavailable => "SQLCipher unavailable: PRAGMA cipher_version is empty (refusing to open a plaintext DB)"
  | Corrupt t => "database integrity check failed: " ++ t
  | SchemaVersionFuture found supported =>
      "database schema is from a newer app version (" ++ Z_to_string found ++ " > " ++ Z_to_string supported
        ++ "); upgrade Writ to open it"
  | NotFound t => "not found: " ++ t
  | BadRequest t => "bad request: " ++ t
  | Conflict t => "conflict: " ++ t
  | Unauthorized => "unauthorized"
  | Forbidden => "forbidden"
  | IsolationViolation t => "account isolation violation: " ++ t
  | Locked => "vault locked"
  | TooManyRequests => "too many requests"
  | CaptchaRequired _ _ => "captcha required: automated solving needs a connected Writ Cloud account"
  | PaymentRequired t => t
  | DeviceCapacity w b =>
      "this machine is at its monitor capacity: this change needs " ++ format_fixed 1 w ++ " of " ++ format_fixed 0 b
        ++ " checks/min — slow a check interval, disable a monitor, or run heavy monitors in the cloud"
  | CloudUnreachable t => "cloud unreachable: " ++ t
  | IoError t => "io error: " ++ t
  | Json t => "json error: " ++ t
  | Internal t => t
  end.

Definition public_message (e : LocalError) : string :=
  match e with
  | Db _ k =>
      match k with
      | Some UniqueViolation => "already exists: one of these values must be unique and is already in use"
      | Some ForeignKeyViolation => "invalid reference: a record this request points at does not exist"
      | Some NotNullViolation => "a required field is missing"
      | Some _ => "a field value is not allowed"
      | None => "database error"
      end
  | other => to_string other
  end.

(** What [into_response] sends: status, message, code, and the extra fields. *)
Record Response : Type := mkResponse {
  resp_status : Z;
  resp_error : string;
  resp_code : string;
  resp_captcha : option (option string * string);
  resp_capacity : option (f64 * f64);
}.

Definition into_response (e : LocalError) : Response :=
  mkResponse (status e) (public_message e) (code e)
    (match e with CaptchaRequired t u => Some (t, u) | _ => None end)
    (match e with DeviceCapacity w b => Some (w, b) | _ => None end).

(** ** Properties *)

(** The responses that tell the client to retry later or that are the server's fault. *)
Definition is_client_error (e : LocalError) : bool := (400 <=? status e) && (status e <? 500).

(** Responses are well-formed and leak no driver text. A status is always a client or server error, a client that branches on
    the machine code knows the status, a constraint violation is never a server error, and the response to a
    driver error depends on the violated constraint alone. *)
Theorem responses_classified :
  (forall e, 400 <= status e < 600) /\
  (forall e e', code e = code e' -> status e = status e') /\
  (forall t k, is_client_error (Db t k) = true <-> is_Some k) /\
  (forall t t' k, into_response (Db t k) = into_response (Db t' k)).
Proof.
  split_and!.
  - intros []; simpl; repeat case_match; lia.
  - intros e e' E. destruct e as [? [[]|]| | | | | | | | | | | | | | | | | | |];
      destruct e' as [? [[]|]| | | | | | | | | | | | | | | | | | |]; simpl in *; congruence.
  - intros t k. split; [destruct k; [eauto|done]|]. by intros [[] ->].
  - done.
Qed.
