(* ===== verification/Flow.v ===== *)
(** * local/flow.rs: the interpreter of an automation's block tree

    The walk runs in a world [W] that the handlers of the actions change: the engine that runs workflows, and the
    notification, export, streaming and AI handlers, which are the interface [FlowEnv]; the sleeps between attempts are
    not part of it. The recursion of the walk has fuel: [walk_terminates] says that
    the number of blocks is enough when block ids are distinct, and [duplicate_id_diverges] that otherwise
    none need be. *)

From Stdlib Require Import Ascii String.
From S2P Require Import Prelude Ints F64 Str Json FlowExpr Errors.
Open Scope string_scope.
Open Scope Z_scope.

(** ** Data *)

Inductive RunSource : Type := Manual | Api | Mcp | Scheduled | Webhook | Workflow | Monitor | CloudAgent.
Inductive Lane : Type := Interactive | Background.
Inductive RunStatus : Type := Running | Success | Failed | Cancelled | Timeout | CaptchaRequired | TwofaRequired.

#[export] Instance RunSource_eq_dec : EqDecision RunSource.
Proof. solve_decision. Defined.

Record RunRequest : Type := mkRequest {
  r_workflow_id : Z;
  r_inputs : json;
  r_source : RunSource;
  r_lane : Lane;
  r_dry_run : bool;
  r_persona_id : option Z;
  r_allow_local_secret_refs : bool;
}.

Record RunResult : Type := mkResult {
  run_id : Z;
  run_status : RunStatus;
  success : bool;
  run_error : option string;
  extracted_data : json;
  duration_ms : Z;
}.

Record FlowBlock : Type := mkBlock {
  block_id : string;
  kind : string;
  block_type : string;
  block_config : json;
  parent_id : option string;
}.

(** What the walk does not change: [by_parent] is a selection of [blocks]. *)
Record FlowCtx : Type := mkCtx {
  blocks : list FlowBlock;
  auto_workflow_id : option Z;
  base_inputs : json;
  source : RunSource;
  lane : Lane;
}.

(** The handlers. *)
Class FlowEnv (W : Type) : Type := {
  engine_run : RunRequest -> W -> result RunResult LocalError * W;
  run_notification_action : FlowBlock -> Scope -> W -> json * W;
  run_send_file_action : FlowBlock -> Scope -> W -> json * W;
  run_export_to_file_action : FlowBlock -> Scope -> W -> (json * Scope) * W;
  run_streaming_action : FlowBlock -> Scope -> W -> (json * Scope) * W;
  run_ai_session_action : FlowBlock -> Scope -> W -> (json * Scope) * W;
}.

(** [ctx.by_parent.get(node_id)]: the children in the order of the blocks. *)
Definition children (ctx : FlowCtx) (node_id : string) : list FlowBlock :=
  retain (fun b => bool_decide (parent_id b = Some node_id)) (blocks ctx).

Definition status_str (s : RunStatus) : string :=
  match s with
  | Running => "running"
  | Success => "success"
  | Failed => "failed"
  | Cancelled => "cancelled"
  | Timeout => "timeout"
  | CaptchaRequired => "captcha_required"
  | TwofaRequired => "twofa_required"
  end.

Definition opt_str (o : option string) : json := match o with Some s => JStr s | None => JNull end.

(** [record.get("ok") == Some(&Value::Bool(false))] *)
Definition not_ok (record : json) : bool := match get record "ok" with Some (JBool false) => true | _ => false end.

Definition cfg_i64 (config : json) (k : string) : option Z := get config k ≫= json_as_i64.

Section flow.
Context `{FlowLibs} {W : Type} `{FlowEnv W}.

(** ** A workflow action *)

(** The flow's inputs, overlaid by the action's. *)
Definition action_inputs (ctx : FlowCtx) (block : FlowBlock) : jobj :=
  let base := match base_inputs ctx with JObj m => m | _ => [] end in
  match get (block_config block) "inputs" with
  | Some (JObj cfg) => foldl (fun m kv => map_insert (fst kv) (snd kv) m) base cfg
  | _ => base
  end.

Definition action_request (ctx : FlowCtx) (block : FlowBlock) (workflow_id : Z) : RunRequest :=
  mkRequest workflow_id (JObj (action_inputs ctx block)) (source ctx) (lane ctx) false
    (cfg_i64 (block_config block) "persona_id") true.

(** One attempt's record, scope and outcome. *)
Definition attempt_outcome (workflow_id attempt : Z) (scope : Scope) (r : result RunResult LocalError) : (json * bool) * Scope :=
  match r with
  | Ok res =>
      ((JObj [("action", JStr "workflow"); ("workflow_id", json_of_Z workflow_id); ("run_id", json_of_Z (run_id res));
              ("ok", JBool (success res)); ("status", JStr (status_str (run_status res)));
              ("error", opt_str (run_error res)); ("attempt", json_of_Z (attempt + 1))], success res),
       map_insert "workflow_duration_seconds" (JNum (Float (f64_div (f64_of_Z (duration_ms res)) (f64_of_Z 1000))))
         (map_insert "error" (opt_str (run_error res))
           (map_insert "status" (JStr (status_str (run_status res)))
             (map_insert "success" (JBool (success res))
               (map_insert "result" (extracted_data res) scope)))))
  | Err e =>
      ((JObj [("action", JStr "workflow"); ("workflow_id", json_of_Z workflow_id); ("ok", JBool false);
              ("status", JStr "failed"); ("error", JStr (to_string e)); ("attempt", json_of_Z (attempt + 1))], false),
       map_insert "error" (JStr (to_string e))
         (map_insert "status" (JStr "failed") (map_insert "success" (JBool false) scope)))
  end.

(** The retry loop, with [more] retries to go. *)
Fixpoint attempts (more : nat) (req : RunRequest) (attempt : Z) (scope : Scope) (w : W) : (json * Scope) * W :=
  let '(r, w) := engine_run req w in
  let '((record, ok), child_scope) := attempt_outcome (r_workflow_id req) attempt scope r in
  match more with
  | O => ((record, child_scope), w)
  | S more => if ok : bool then ((record, child_scope), w) else attempts more req (attempt + 1) scope w
  end.

Definition retries (block : FlowBlock) : Z := Z.max (default 0 (cfg_i64 (block_config block) "retry")) 0.

Definition target_workflow (ctx : FlowCtx) (block : FlowBlock) : option Z :=
  match cfg_i64 (block_config block) "workflow_id" with Some z => Some z | None => auto_workflow_id ctx end.

Definition run_workflow_action (ctx : FlowCtx) (block : FlowBlock) (scope : Scope) (w : W) : (json * Scope) * W :=
  match target_workflow ctx block with
  | None => ((JObj [("action", JStr "workflow"); ("skipped", JBool true); ("reason", JStr "no workflow_id configured")], scope), w)
  | Some workflow_id => attempts (Z.to_nat (retries block)) (action_request ctx block workflow_id) 0 scope w
  end.

(** ** The walk *)

Definition skip_record (action reason : string) : json :=
  JObj [("action", JStr action); ("skipped", JBool true); ("reason", JStr reason)].

Definition condition_record (block : FlowBlock) (passed : bool) : json :=
  JObj [("action", JStr "condition"); ("field", JStr (cfg_str (block_config block) "field" ""));
        ("operator", JStr (cfg_str (block_config block) "operator" "contains")); ("passed", JBool passed)].

(** The elements a loop runs over. *)
Definition loop_items (block : FlowBlock) (scope : Scope) : list json :=
  let items := match lookup_path scope (cfg_str (block_config block) "source" "") with
               | Some (JArr l) => l
               | None | Some JNull => []
               | Some (JStr s) => if is_empty s then [] else [JStr s]
               | Some other => [other]
               end in
  take (Z.to_nat (Z.max (default 1000 (cfg_i64 (block_config block) "max_items")) 0)) items.

Definition item_scope (scope : Scope) (i : nat) (item : json) : Scope :=
  map_insert "item_index" (json_of_Z (Z.of_nat i)) (map_insert "item" item scope).

(** The records and the world of a subtree; [None] is out of fuel. *)
Definition Walk : Type := option (list json * W).

Definition walk_bind (r : Walk) (k : list json -> W -> Walk) : Walk :=
  match r with Some (out, w) => k out w | None => None end.

(** Records first, then the subtree's. *)
Definition walk_prepend (out : list json) (r : Walk) : Walk := walk_bind r (fun more w => Some ((out ++ more)%list, w)).

Section step.
Context (ctx : FlowCtx) (rec : string -> Scope -> W -> Walk).

Fixpoint run_items (node : string) (scope : Scope) (i : nat) (items : list json) (w : W) : Walk :=
  match items with
  | [] => Some ([], w)
  | item :: items =>
      walk_bind (rec node (item_scope scope i item) w) (fun out w => walk_prepend out (run_items node scope (S i) items w))
  end.

Definition run_action (child : FlowBlock) (scope : Scope) (w : W) : Walk :=
  let t := block_type child in
  let id := block_id child in
  if str_eqb t "workflow" then
    let '((record, child_scope), w) := run_workflow_action ctx child scope w in
    let stop_on_error := not_ok record && bool_decide (get (block_config child) "on_error" ≫= json_as_str = Some "stop") in
    if stop_on_error then
      Some ([record; JObj [("action", JStr "branch_stopped"); ("reason", JStr "workflow failed with on_error=stop")]], w)
    else walk_prepend [record] (rec id child_scope w)
  else if str_eqb t "for_each" then
    let items := loop_items child scope in
    walk_bind (run_items id scope 0 items w) (fun out w =>
      Some ((out ++ [JObj [("action", JStr "for_each"); ("iterations", json_of_Z (Z.of_nat (length items)))]])%list, w))
  else if str_eqb t "return_data" then
    let data := match map_get scope "result" with Some v => v | None => JObj scope end in
    walk_prepend [JObj [("action", JStr "return_data"); ("data", data)]] (rec id scope w)
  else if str_eqb t "notification" then
    let '(record, w) := run_notification_action child scope w in walk_prepend [record] (rec id scope w)
  else if str_eqb t "save_data_to_file" || str_eqb t "query_and_export" then
    let '((record, child_scope), w) := run_export_to_file_action child scope w in walk_prepend [record] (rec id child_scope w)
  else if str_eqb t "append_to_data" then
    walk_prepend [skip_record "append_to_data" "append_to_data is not supported on the desktop app (extracted data is derived from runs, not a writable store)"]
      (rec id scope w)
  else if str_eqb t "send_file" then
    let '(record, w) := run_send_file_action child scope w in walk_prepend [record] (rec id scope w)
  else if str_eqb t "start_streaming_session" || str_eqb t "stop_streaming_session" then
    let '((record, child_scope), w) := run_streaming_action child scope w in walk_prepend [record] (rec id child_scope w)
  else if str_eqb t "ai_session" then
    let '((record, child_scope), w) := run_ai_session_action child scope w in walk_prepend [record] (rec id child_scope w)
  else if str_eqb t "crawl" then
    walk_prepend [skip_record t "crawls run via Dragnet in the cloud; this automation crawls when run on the cloud"] (rec id scope w)
  else if str_eqb t "create_persona" then
    walk_prepend [skip_record t "action not supported on the desktop app (cloud-only)"] (rec id scope w)
  else walk_prepend [skip_record t "unknown action type"] (rec id scope w).

Definition run_child (child : FlowBlock) (scope : Scope) (w : W) : Walk :=
  let k := kind child in
  if str_eqb k "condition" then
    let passed := eval_condition (block_config child) scope in
    let record := condition_record child passed in
    if passed then walk_prepend [record] (rec (block_id child) scope w) else Some ([record], w)
  else if str_eqb k "action" then run_action child scope w
  else if str_eqb k "event" then rec (block_id child) scope w
  else Some ([], w).

(** The loop over the children: each starts from the parent's scope. *)
Fixpoint run_children (cs : list FlowBlock) (scope : Scope) (w : W) : Walk :=
  match cs with
  | [] => Some ([], w)
  | c :: cs => walk_bind (run_child c scope w) (fun out w => walk_prepend out (run_children cs scope w))
  end.
End step.

Fixpoint run_subtree (fuel : nat) (ctx : FlowCtx) (node_id : string) (scope : Scope) (w : W) : Walk :=
  match fuel with
  | O => None
  | S f => run_children ctx (run_subtree f ctx) (children ctx node_id) scope w
  end.
End flow.

(** ** Retries *)

Section retries.
Context `{FlowLibs} {W : Type} `{FlowEnv W}.

(** The results of [n] calls of the engine in a row. *)
Fixpoint calls (n : nat) (req : RunRequest) (w : W) : list (result RunResult LocalError) * W :=
  match n with
  | O => ([], w)
  | S n => let '(r, w) := engine_run req w in let '(rs, w) := calls n req w in (r :: rs, w)
  end.

Definition succeeded (r : result RunResult LocalError) : bool := match r with Ok res => success res | Err _ => false end.

Lemma attempt_outcome_ok (wid a : Z) (scope : Scope) (r : result RunResult LocalError) :
  snd (fst (attempt_outcome wid a scope r)) = succeeded r.
Proof. by destruct r. Qed.

Lemma attempts_spec (more : nat) : forall (req : RunRequest) (a : Z) (scope : Scope) (w : W),
  exists (rs : list (result RunResult LocalError)) (r : result RunResult LocalError),
    (length rs <= more)%nat /\ calls (S (length rs)) req w = ((rs ++ [r])%list, snd (attempts more req a scope w)) /\
    Forall (fun r => succeeded r = false) rs /\ (length rs = more \/ succeeded r = true) /\
    attempt_outcome (r_workflow_id req) (a + Z.of_nat (length rs)) scope r =
      ((fst (fst (attempts more req a scope w)), succeeded r), snd (fst (attempts more req a scope w))).
Proof.
  induction more as [|more IH]; intros req a scope w; cbn [attempts]; destruct (engine_run req w) as [r w1] eqn:Er.
  - exists [], r. cbn [length app calls]. rewrite Er. pose proof (attempt_outcome_ok (r_workflow_id req) a scope r) as Ho.
    replace (a + Z.of_nat 0) with a by lia.
    destruct (attempt_outcome (r_workflow_id req) a scope r) as [[record ok] s]. cbn in *. subst ok. by split_and!; [| |constructor|left|].
  - pose proof (attempt_outcome_ok (r_workflow_id req) a scope r) as Ho.
    destruct (attempt_outcome (r_workflow_id req) a scope r) as [[record ok] s] eqn:Eo. cbn in Ho. subst ok.
    destruct (succeeded r) eqn:Es.
    + exists [], r. cbn [length app calls]. rewrite Er. replace (a + Z.of_nat 0) with a by lia. rewrite Eo, Es.
      split_and!; [lia|done|constructor|by right|done].
    + destruct (IH req (a + 1) scope w1) as (rs & r' & Hl & Hc & Hf & Hlast & Ho).
      exists (r :: rs), r'. split_and!.
      * simpl. lia.
      * change (length (r :: rs)) with (S (length rs)).
        change (calls (S (S (length rs))) req w) with
          (let '(r, w) := engine_run req w in let '(rs', w) := calls (S (length rs)) req w in (r :: rs', w)).
        by rewrite Er, Hc.
      * by constructor.
      * destruct Hlast as [<-|Hlast]; [by left|by right].
      * cbn [length]. replace (a + Z.of_nat (S (length rs))) with (a + 1 + Z.of_nat (length rs)) by lia. done.
Qed.

(** a workflow action runs its workflow again only after a failed attempt, at most the configured number of extra times, each time with
    the same request, and stops at the first success. Its record and the scope below it are those of the last attempt, whose
    number it carries; with nothing to run, it is a skip that changes nothing. *)
Theorem retries_exact (ctx : FlowCtx) (block : FlowBlock) (scope : Scope) (w : W) :
  match target_workflow ctx block with
  | None => snd (run_workflow_action ctx block scope w) = w /\ snd (fst (run_workflow_action ctx block scope w)) = scope
  | Some wid =>
      exists rs r,
        Z.of_nat (length rs) <= retries block /\
        calls (S (length rs)) (action_request ctx block wid) w = ((rs ++ [r])%list, snd (run_workflow_action ctx block scope w)) /\
        Forall (fun r => succeeded r = false) rs /\ (Z.of_nat (length rs) = retries block \/ succeeded r = true) /\
        attempt_outcome wid (Z.of_nat (length rs)) scope r =
          ((fst (fst (run_workflow_action ctx block scope w)), succeeded r), snd (fst (run_workflow_action ctx block scope w)))
  end.
Proof.
  unfold run_workflow_action. destruct (target_workflow ctx block) as [wid|]; [|done].
  assert (Hr : 0 <= retries block) by (unfold retries; lia).
  destruct (attempts_spec (Z.to_nat (retries block)) (action_request ctx block wid) 0 scope w) as (rs & r & Hl & Hc & Hf & Hlast & Ho).
  exists rs, r. split_and!; [lia|done|done| |done]. destruct Hlast as [Hlast|]; [left; lia|by right].
Qed.
End retries.

(** ** Termination *)

Section termination.
Context `{FlowLibs} {W : Type} `{FlowEnv W} (ctx : FlowCtx).

Lemma elem_of_children (node : string) (c : FlowBlock) : c ∈ children ctx node <-> c ∈ blocks ctx /\ parent_id c = Some node.
Proof. unfold children. rewrite elem_of_retain, bool_decide_eq_true. tauto. Qed.

Lemma walk_bind_total (r : Walk (W := W)) (k : list json -> W -> Walk) : r <> None -> (forall out w, k out w <> None) -> walk_bind r k <> None.
Proof. destruct r as [[out w]|]; [|done]. intros _ Hk. apply Hk. Qed.

Lemma walk_prepend_total (out : list json) (r : Walk (W := W)) : r <> None -> walk_prepend out r <> None.
Proof. intros Hr. by apply walk_bind_total. Qed.

(** A child's walk ends if the walk below it does, from any scope. *)
Lemma run_child_total (rec : string -> Scope -> W -> Walk) (c : FlowBlock) (scope : Scope) (w : W) :
  (forall s w, rec (block_id c) s w <> None) -> run_child ctx rec c scope w <> None.
Proof.
  intros Hrec.
  assert (Hitems : forall items i w, run_items rec (block_id c) scope i items w <> None).
  { induction items as [|item items IH]; intros i w'; cbn [run_items]; [done|]. apply walk_bind_total; [apply Hrec|].
    intros out w1. by apply walk_prepend_total. }
  unfold run_child, run_action. repeat (case_match; try done);
    first [apply Hrec | by apply walk_prepend_total | apply walk_bind_total; [apply Hitems|done]].
Qed.

Lemma run_children_total (rec : string -> Scope -> W -> Walk) (cs : list FlowBlock) (scope : Scope) : forall w,
  (forall c, c ∈ cs -> forall s w, rec (block_id c) s w <> None) -> run_children ctx rec cs scope w <> None.
Proof.
  induction cs as [|c cs IH]; intros w Hrec; cbn [run_children]; [done|]. apply walk_bind_total.
  - apply run_child_total. apply Hrec. by left.
  - intros out w'. apply walk_prepend_total, IH. intros c' Hc'. apply Hrec. by right.
Qed.

(** The blocks from the current one up to its root. *)
Inductive path : list FlowBlock -> Prop :=
| path_root (b : FlowBlock) : b ∈ blocks ctx -> parent_id b = None -> path [b]
| path_child (b p : FlowBlock) (l : list FlowBlock) :
    b ∈ blocks ctx -> parent_id b = Some (block_id p) -> path (p :: l) -> path (b :: p :: l).

Lemma path_in (l : list FlowBlock) : path l -> forall b, b ∈ l -> b ∈ blocks ctx.
Proof. induction 1; intros x [->|Hx]%elem_of_cons; auto. by apply elem_of_nil in Hx. Qed.

Context (ids : NoDup (block_id <$> blocks ctx)).

Lemma same_block (b b' : FlowBlock) : b ∈ blocks ctx -> b' ∈ blocks ctx -> block_id b = block_id b' -> b = b'.
Proof.
  intros [i Hi]%list_elem_of_lookup [j Hj]%list_elem_of_lookup He.
  assert (i = j) as ->; [|congruence].
  apply (NoDup_lookup _ i j (block_id b) ids); rewrite list_lookup_fmap; [by rewrite Hi|by rewrite Hj, He].
Qed.

(** A block above another on a path: its parent is the next one. *)
Lemma path_parent (l : list FlowBlock) : path l -> forall i b, l !! i = Some b ->
  parent_id b = match l !! S i with Some p => Some (block_id p) | None => None end.
Proof.
  induction 1 as [b Hb Hp|b p l Hb Hp Hl IH]; intros [|i] x Hx; simplify_eq/=; try done.
  by apply IH in Hx.
Qed.

Lemma path_extend (b p : FlowBlock) (l : list FlowBlock) : path (p :: l) -> NoDup (p :: l) -> b ∈ blocks ctx ->
  parent_id b = Some (block_id p) -> NoDup (b :: p :: l).
Proof.
  intros Hl Hnd Hb Hp. constructor; [|done]. intros [i Hi]%list_elem_of_lookup.
  pose proof (path_parent _ Hl i b Hi) as Hpar. rewrite Hp in Hpar.
  destruct ((p :: l) !! S i) as [q|] eqn:Eq; [|done]. injection Hpar as Hpar.
  apply same_block in Hpar; [|apply (path_in _ Hl); by left|apply (path_in _ Hl); by eapply list_elem_of_lookup_2].
  subst q. assert (0%nat = S i) by (eapply NoDup_lookup; [exact Hnd|done|done]). done.
Qed.

Lemma path_walk_total (fuel : nat) : forall (b : FlowBlock) (l : list FlowBlock) (scope : Scope) (w : W),
  path (b :: l) -> NoDup (b :: l) -> (length (blocks ctx) < fuel + length (b :: l))%nat ->
  run_subtree fuel ctx (block_id b) scope w <> None.
Proof.
  induction fuel as [|fuel IH]; intros b l scope w Hp Hnd Hl.
  - exfalso. assert (length (b :: l) <= length (blocks ctx))%nat; [|lia].
    apply submseteq_length, NoDup_submseteq; [done|]. by apply path_in.
  - cbn [run_subtree]. apply run_children_total. intros c [Hc Hpar]%elem_of_children s w'.
    apply (IH c (b :: l)); [by constructor|by apply path_extend|simpl in *; lia].
Qed.
End termination.

Section finite.
Context `{FlowLibs} {W : Type} `{FlowEnv W}.

Lemma root_walk_total (ctx : FlowCtx) (root : FlowBlock) (scope : Scope) (w : W) (fuel : nat) :
  NoDup (block_id <$> blocks ctx) -> root ∈ blocks ctx -> parent_id root = None -> (length (blocks ctx) <= fuel)%nat ->
  is_Some (run_subtree fuel ctx (block_id root) scope w).
Proof.
  intros Hids Hin Hroot Hf. apply not_eq_None_Some. apply (path_walk_total ctx Hids _ root []).
  - by constructor.
  - apply NoDup_singleton.
  - simpl. lia.
Qed.

(** C39: with distinct block ids the walk from a root ends, whatever the parent links (dangling, or in cycles off the root), the scopes and
    what the handlers do: fuel for as many levels as there are blocks is always enough. *)
Theorem walk_terminates (ctx : FlowCtx) (root : FlowBlock) (scope : Scope) (w : W) (fuel : nat) :
  NoDup (block_id <$> blocks ctx) -> root ∈ blocks ctx -> parent_id root = None -> (length (blocks ctx) <= fuel)%nat ->
  is_Some (run_subtree fuel ctx (block_id root) scope w).
Proof. apply root_walk_total. Qed.

(** A root and a block that has the root's id and names it as its parent: no fuel is enough. *)
Lemma duplicate_id_diverges (ctx : FlowCtx) (a : FlowBlock) (scope : Scope) (w : W) :
  children ctx (block_id a) = [a] -> kind a = "event" -> forall fuel, run_subtree fuel ctx (block_id a) scope w = None.
Proof.
  intros Hc Hk. induction fuel as [|fuel IH]; [done|]. cbn [run_subtree]. rewrite Hc. cbn [run_children].
  unfold run_child. rewrite Hk. change (str_eqb "event" "condition") with false. change (str_eqb "event" "action") with false.
  change (str_eqb "event" "event") with true. by rewrite IH.
Qed.
End finite.

(** ** Where requests come from *)

Section provenance.
Context `{FlowLibs} {W : Type} (env : FlowEnv W).

(** The same handlers, with the engine's requests logged. *)
Definition logged : FlowEnv (list RunRequest * W) := {|
  engine_run := fun req lw => let '(r, w) := engine_run req (snd lw) in (r, ((fst lw ++ [req])%list, w));
  run_notification_action := fun b s lw => let '(r, w) := run_notification_action b s (snd lw) in (r, (fst lw, w));
  run_send_file_action := fun b s lw => let '(r, w) := run_send_file_action b s (snd lw) in (r, (fst lw, w));
  run_export_to_file_action := fun b s lw => let '(r, w) := run_export_to_file_action b s (snd lw) in (r, (fst lw, w));
  run_streaming_action := fun b s lw => let '(r, w) := run_streaming_action b s (snd lw) in (r, (fst lw, w));
  run_ai_session_action := fun b s lw => let '(r, w) := run_ai_session_action b s (snd lw) in (r, (fst lw, w));
|}.
Existing Instance logged.

(** A scope in which a block's children may run, when the block runs in [s]. *)
Inductive passes_to (ctx : FlowCtx) (c : FlowBlock) (s : Scope) : Scope -> Prop :=
| pass_condition : kind c = "condition" -> eval_condition (block_config c) s = true -> passes_to ctx c s s
| pass_event : kind c = "event" -> passes_to ctx c s s
| pass_action : kind c = "action" -> passes_to ctx c s s
| pass_item (i : nat) (item : json) :
    kind c = "action" -> block_type c = "for_each" -> item ∈ loop_items c s -> passes_to ctx c s (item_scope s i item)
| pass_workflow (wid a : Z) (r : result RunResult LocalError) :
    kind c = "action" -> block_type c = "workflow" -> target_workflow ctx c = Some wid ->
    (succeeded r = true \/ (get (block_config c) "on_error" ≫= json_as_str) <> Some "stop") ->
    passes_to ctx c s (snd (attempt_outcome wid a s r))
| pass_handler (w : W) :
    kind c = "action" ->
    block_type c ∈ ["save_data_to_file"; "query_and_export"; "start_streaming_session"; "stop_streaming_session"; "ai_session"] ->
    forall s', s' = snd (fst (run_export_to_file_action c s w)) \/ s' = snd (fst (run_streaming_action c s w)) \/
               s' = snd (fst (run_ai_session_action c s w)) -> passes_to ctx c s s'.

(** [reaches ctx node s b s']: the walk of the children of [node] in [s] may come to run [b] in [s']. *)
Inductive reaches (ctx : FlowCtx) : string -> Scope -> FlowBlock -> Scope -> Prop :=
| reach_child (node : string) (s : Scope) (c : FlowBlock) : c ∈ children ctx node -> reaches ctx node s c s
| reach_below (node : string) (s s1 : Scope) (c b : FlowBlock) (s2 : Scope) :
    c ∈ children ctx node -> passes_to ctx c s s1 -> reaches ctx (block_id c) s1 b s2 -> reaches ctx node s b s2.

(** The request of a workflow action that may run. *)
Definition justified (ctx : FlowCtx) (node : string) (s : Scope) (req : RunRequest) : Prop :=
  exists b s' wid, reaches ctx node s b s' /\ kind b = "action" /\ block_type b = "workflow" /\
    target_workflow ctx b = Some wid /\ req = action_request ctx b wid.

(** A walk that only appends to the log, requests that satisfy [P]. *)
Definition logs (P : RunRequest -> Prop) (l : list RunRequest) (r : Walk (W := list RunRequest * W)) : Prop :=
  match r with
  | None => True
  | Some (_, (l', _)) => exists new, l' = (l ++ new)%list /\ Forall P new
  end.

Lemma logs_bind (P : RunRequest -> Prop) (l : list RunRequest) (r : Walk (W := list RunRequest * W)) k :
  logs P l r -> (forall out l' w, logs P l' (k out (l', w))) -> logs P l (walk_bind r k).
Proof.
  destruct r as [[out [l' w]]|]; [|done]. intros (new & -> & Hnew) Hk. cbn. specialize (Hk out (l ++ new)%list w).
  destruct (k out _) as [[out' [l'' w']]|]; [|done]. destruct Hk as (new' & -> & Hnew').
  exists (new ++ new')%list. rewrite app_assoc. split; [done|]. by apply Forall_app.
Qed.

Lemma logs_some (P : RunRequest -> Prop) (l : list RunRequest) (out : list json) (w : W) : logs P l (Some (out, (l, w))).
Proof. exists []. by rewrite app_nil_r. Qed.

Lemma logs_prepend (P : RunRequest -> Prop) (l : list RunRequest) (out : list json) (r : Walk (W := list RunRequest * W)) :
  logs P l r -> logs P l (walk_prepend out r).
Proof. intros Hr. apply logs_bind; [done|]. intros out' l' w. apply logs_some. Qed.

Lemma logs_after (P : RunRequest -> Prop) (l new : list RunRequest) (r : Walk (W := list RunRequest * W)) :
  Forall P new -> logs P (l ++ new) r -> logs P l r.
Proof.
  intros Hnew. destruct r as [[out [l' w]]|]; [|done]. intros (new' & -> & Hn). exists (new ++ new')%list.
  rewrite app_assoc. split; [done|]. by apply Forall_app.
Qed.

(** The attempts of an action log its request only; the scope they leave is an outcome's, a success if the record is ok. *)
Lemma attempts_logged (more : nat) : forall (req : RunRequest) (a : Z) (scope : Scope) (l : list RunRequest) (w : W),
  exists n w' r a',
    attempts more req a scope (l, w) =
      ((fst (fst (attempt_outcome (r_workflow_id req) a' scope r)), snd (attempt_outcome (r_workflow_id req) a' scope r)),
       ((l ++ repeat req n)%list, w')).
Proof.
  induction more as [|more IH]; intros req a scope l w; cbn [attempts]; change (engine_run req (l, w)) with
    (let '(r, w') := (@engine_run W env req w) in (r, ((l ++ [req])%list, w'))); destruct (@engine_run W env req w) as [r w'].
  - exists 1%nat, w', r, a. by destruct (attempt_outcome _ _ _ _) as [[record ok] s].
  - destruct (attempt_outcome (r_workflow_id req) a scope r) as [[record ok] s] eqn:Eo. destruct ok.
    + exists 1%nat, w', r, a. by rewrite Eo.
    + destruct (IH req (a + 1) scope (l ++ [req])%list w') as (n & w2 & r2 & a2 & ->). exists (S n), w2, r2, a2.
      rewrite <-app_assoc. done.
Qed.

Lemma not_ok_outcome (wid a : Z) (s : Scope) (r : result RunResult LocalError) :
  not_ok (fst (fst (attempt_outcome wid a s r))) = negb (succeeded r).
Proof. destruct r as [res|e]; [|done]. cbn -[json_of_Z]. by destruct (success res). Qed.

Lemma justified_below (ctx : FlowCtx) (node : string) (s s1 : Scope) (c : FlowBlock) (req : RunRequest) :
  c ∈ children ctx node -> passes_to ctx c s s1 -> justified ctx (block_id c) s1 req -> justified ctx node s req.
Proof.
  intros Hc Hp (b & s' & wid & Hr & Hrest). exists b, s', wid. split; [by eapply reach_below|done].
Qed.

Lemma logs_mono (P Q : RunRequest -> Prop) (l : list RunRequest) (r : Walk (W := list RunRequest * W)) :
  (forall req, P req -> Q req) -> logs P l r -> logs Q l r.
Proof.
  intros Hpq. destruct r as [[out [l' w]]|]; [|done]. intros (new & -> & Hn). exists new. split; [done|].
  by eapply Forall_impl.
Qed.

Section child.
Context (ctx : FlowCtx) (rec : string -> Scope -> list RunRequest * W -> Walk (W := list RunRequest * W)).
Context (node : string) (c : FlowBlock) (s : Scope) (child : c ∈ children ctx node).
Context (Hrec : forall s1 l w, passes_to ctx c s s1 -> logs (justified ctx (block_id c) s1) l (rec (block_id c) s1 (l, w))).

Lemma rec_logs (s1 : Scope) (l : list RunRequest) (w : W) :
  passes_to ctx c s s1 -> logs (justified ctx node s) l (rec (block_id c) s1 (l, w)).
Proof. intros Hp. eapply logs_mono; [|by apply Hrec]. intros req. by apply justified_below. Qed.

Lemma run_items_logs (items : list json) : kind c = "action" -> block_type c = "for_each" ->
  (forall item, item ∈ items -> item ∈ loop_items c s) ->
  forall i l w, logs (justified ctx node s) l (run_items rec (block_id c) s i items (l, w)).
Proof.
  intros Hk Ht. induction items as [|item items IH]; intros Hin i l w; cbn [run_items]; [apply logs_some|].
  apply logs_bind; [apply rec_logs, pass_item; [done|done|apply Hin; by left]|].
  intros out l' w'. apply logs_prepend, IH. intros x Hx. apply Hin. by right.
Qed.

Lemma workflow_logs (l : list RunRequest) (w : W) : kind c = "action" -> block_type c = "workflow" ->
  logs (justified ctx node s) l (run_action ctx rec c s (l, w)).
Proof.
  intros Hk Ht. unfold run_action. rewrite Ht. change (str_eqb "workflow" "workflow") with true. cbv iota.
  unfold run_workflow_action. destruct (target_workflow ctx c) as [wid|] eqn:Ew.
  2: { cbn [not_ok get map_get]. apply logs_prepend, rec_logs. by apply pass_action. }
  destruct (attempts_logged (Z.to_nat (retries c)) (action_request ctx c wid) 0 s l w) as (n & w' & r & a & ->).
  change (r_workflow_id (action_request ctx c wid)) with wid. rewrite not_ok_outcome.
  assert (Hreq : Forall (justified ctx node s) (repeat (action_request ctx c wid) n)).
  { apply Forall_forall. intros req Hin%list_elem_of_In%repeat_spec. subst req. exists c, s, wid.
    split_and!; [by apply reach_child|done|done|done|done]. }
  apply (logs_after _ _ _ _ Hreq). destruct (negb (succeeded r) && _) eqn:Es; [apply logs_some|].
  apply logs_prepend, rec_logs. apply pass_workflow; [done|done|done|].
  apply andb_false_iff in Es as [Es|Es]; [left; by apply negb_false_iff in Es|right; by apply bool_decide_eq_false in Es].
Qed.

Lemma run_child_logs (l : list RunRequest) (w : W) : logs (justified ctx node s) l (run_child ctx rec c s (l, w)).
Proof.
  unfold run_child. destruct (str_eqb (kind c) "condition") eqn:Ek.
  { apply str_eqb_eq in Ek. destruct (eval_condition (block_config c) s) eqn:Ec; [|apply logs_some].
    apply logs_prepend, rec_logs. by apply pass_condition. }
  clear Ek. destruct (str_eqb (kind c) "action") eqn:Ek.
  2: { destruct (str_eqb (kind c) "event") eqn:Ev; [|apply logs_some]. apply str_eqb_eq in Ev. apply rec_logs. by apply pass_event. }
  apply str_eqb_eq in Ek. destruct (str_eqb (block_type c) "workflow") eqn:Ew; [apply str_eqb_eq in Ew; by apply workflow_logs|].
  assert (Hact : forall s', s' = s -> passes_to ctx c s s') by (intros s' ->; by apply pass_action).
  unfold run_action. rewrite Ew. destruct (str_eqb (block_type c) "for_each") eqn:Ef.
  { apply str_eqb_eq in Ef. apply logs_bind; [by apply run_items_logs|]. intros out l' w'. apply logs_some. }
  repeat (match goal with
          | |- context [str_eqb (block_type c) ?t] => destruct (str_eqb (block_type c) t) eqn:?
          end; cbn [orb]);
    try (apply logs_prepend, rec_logs; by apply Hact).
  all: repeat match goal with E : str_eqb (block_type c) ?t = true |- _ => apply str_eqb_eq in E end.
  all: cbn [run_notification_action run_send_file_action run_export_to_file_action run_streaming_action run_ai_session_action logged fst snd].
  all: match goal with
       | |- context [let '(_, _) := ?h in (_, (_, _))] => destruct h as [res w1] eqn:Eh
       end; cbv iota beta; cbn [fst snd]; try (destruct res as [record s1]); apply logs_prepend, rec_logs; try by apply Hact.
  all: apply (pass_handler ctx c s w Ek).
  all: try (match goal with E : block_type c = _ |- _ ∈ _ => rewrite E end; repeat (first [by left | right])).
  all: rewrite Eh; auto.
Qed.
End child.

Lemma run_children_logs (ctx : FlowCtx) (rec : string -> Scope -> list RunRequest * W -> Walk (W := list RunRequest * W))
    (node : string) (s : Scope) :
  (forall c s1 l w, c ∈ children ctx node -> passes_to ctx c s s1 -> logs (justified ctx (block_id c) s1) l (rec (block_id c) s1 (l, w))) ->
  forall cs l w, (forall c, c ∈ cs -> c ∈ children ctx node) -> logs (justified ctx node s) l (run_children ctx rec cs s (l, w)).
Proof.
  intros Hrec. induction cs as [|c cs IH]; intros l w Hin; cbn [run_children]; [apply logs_some|].
  assert (Hc : c ∈ children ctx node) by (apply Hin; by left). apply logs_bind.
  - apply run_child_logs; [done|]. intros s1 l' w' Hp. by apply Hrec.
  - intros out l' w'. apply logs_prepend, IH. intros x Hx. apply Hin. by right.
Qed.

Lemma walk_logs (ctx : FlowCtx) (fuel : nat) : forall (node : string) (s : Scope) (l : list RunRequest) (w : W),
  logs (justified ctx node s) l (run_subtree fuel ctx node s (l, w)).
Proof.
  induction fuel as [|fuel IH]; intros node s l w; [done|]. cbn [run_subtree].
  apply run_children_logs; [|done]. intros c s1 l' w' _ _. apply IH.
Qed.

End provenance.

(** ** What a walk keeps of the world *)

Section world.
Context `{FlowLibs} {W : Type} `{FlowEnv W} (R : W -> W -> Prop) `{!PreOrder R}.

(** A relation that each handler keeps, the engine for requests of source [src]. *)
Record handlers_keep (src : RunSource) : Prop := {
  keep_engine : forall req w, r_source req = src -> R w (snd (engine_run req w));
  keep_notification : forall b s w, R w (snd (run_notification_action b s w));
  keep_send_file : forall b s w, R w (snd (run_send_file_action b s w));
  keep_export : forall b s w, R w (snd (run_export_to_file_action b s w));
  keep_streaming : forall b s w, R w (snd (run_streaming_action b s w));
  keep_ai_session : forall b s w, R w (snd (run_ai_session_action b s w));
}.

Definition walk_keeps (w : W) (r : Walk (W := W)) : Prop := match r with Some (_, w') => R w w' | None => True end.

Lemma keeps_walk_bind (w : W) (r : Walk (W := W)) (k : list json -> W -> Walk) :
  walk_keeps w r -> (forall out w', walk_keeps w' (k out w')) -> walk_keeps w (walk_bind r k).
Proof.
  destruct r as [[out w1]|]; [|done]. cbn. intros H1 Hk. specialize (Hk out w1). destruct (k out w1) as [[out2 w2]|]; [|done].
  cbn in *. by etrans.
Qed.

Lemma keeps_walk_some (w : W) (out : list json) : walk_keeps w (Some (out, w)).
Proof. cbn. reflexivity. Qed.

Lemma keeps_walk_prepend (w : W) (out : list json) (r : Walk (W := W)) : walk_keeps w r -> walk_keeps w (walk_prepend out r).
Proof. intros Hr. apply keeps_walk_bind; [done|]. intros out' w'. apply keeps_walk_some. Qed.

Lemma keeps_walk_after (w w1 : W) (r : Walk (W := W)) : R w w1 -> walk_keeps w1 r -> walk_keeps w r.
Proof. intros H1 H2. destruct r as [[out w2]|]; [|done]. cbn in *. by etrans. Qed.

Lemma keeps_attempts (more : nat) : forall (req : RunRequest) (a : Z) (scope : Scope) (w : W),
  (forall w, R w (snd (engine_run req w))) -> R w (snd (attempts more req a scope w)).
Proof.
  induction more as [|more IH]; intros req a scope w He; cbn [attempts]; pose proof (He w) as Hw;
    destruct (engine_run req w) as [r w1]; destruct (attempt_outcome _ _ _ _) as [[record ok] s1]; [done|].
  destruct ok; [done|]. cbn in Hw. etrans; [exact Hw|]. by apply IH.
Qed.

Section step.
Context (ctx : FlowCtx) (keep : handlers_keep (source ctx)) (rec : string -> Scope -> W -> Walk (W := W)).
Context (Hrec : forall node s w, walk_keeps w (rec node s w)).

Lemma keeps_items (node : string) (s : Scope) (items : list json) : forall i w, walk_keeps w (run_items rec node s i items w).
Proof.
  induction items as [|item items IH]; intros i w; cbn [run_items]; [apply keeps_walk_some|].
  apply keeps_walk_bind; [apply Hrec|]. intros out w'. apply keeps_walk_prepend, IH.
Qed.

Lemma keeps_workflow (c : FlowBlock) (s : Scope) (w : W) : R w (snd (run_workflow_action ctx c s w)).
Proof.
  unfold run_workflow_action. destruct (target_workflow ctx c); [|reflexivity].
  apply keeps_attempts. intros w'. by apply (keep_engine _ keep).
Qed.

(** A handler, and then the children. *)
Ltac by_handler keep :=
  let Hw := fresh "Hw" in
  pose proof keep as Hw; match type of Hw with R _ (snd ?h) => destruct h as [[r s1] w1] || destruct h as [r w1] end;
  eapply keeps_walk_after; [exact Hw|apply keeps_walk_prepend, Hrec].

Lemma keeps_action (c : FlowBlock) (s : Scope) (w : W) : walk_keeps w (run_action ctx rec c s w).
Proof.
  unfold run_action. destruct (str_eqb (block_type c) "workflow").
  { pose proof (keeps_workflow c s w) as Hw. destruct (run_workflow_action ctx c s w) as [[record s1] w1].
    destruct (_ && _); [done|]. eapply keeps_walk_after; [exact Hw|]. apply keeps_walk_prepend, Hrec. }
  destruct (str_eqb (block_type c) "for_each").
  { apply keeps_walk_bind; [apply keeps_items|]. intros out w'. apply keeps_walk_some. }
  repeat (match goal with |- context [if ?b then _ else _] => destruct b end; [|]); try (by apply keeps_walk_prepend, Hrec).
  - by_handler (keep_notification _ keep c s w).
  - by_handler (keep_export _ keep c s w).
  - by_handler (keep_send_file _ keep c s w).
  - by_handler (keep_streaming _ keep c s w).
  - by_handler (keep_ai_session _ keep c s w).
Qed.

Lemma keeps_child (c : FlowBlock) (s : Scope) (w : W) : walk_keeps w (run_child ctx rec c s w).
Proof.
  unfold run_child. destruct (str_eqb (kind c) "condition").
  { destruct (eval_condition _ _); [apply keeps_walk_prepend, Hrec|apply keeps_walk_some]. }
  destruct (str_eqb (kind c) "action"); [apply keeps_action|]. destruct (str_eqb (kind c) "event"); [apply Hrec|apply keeps_walk_some].
Qed.

Lemma keeps_children (s : Scope) (cs : list FlowBlock) : forall w, walk_keeps w (run_children ctx rec cs s w).
Proof.
  induction cs as [|c cs IH]; intros w; cbn [run_children]; [apply keeps_walk_some|].
  apply keeps_walk_bind; [apply keeps_child|]. intros out w'. apply keeps_walk_prepend, IH.
Qed.
End step.

Lemma keeps_subtree (ctx : FlowCtx) : handlers_keep (source ctx) ->
  forall fuel node s w, walk_keeps w (run_subtree fuel ctx node s w).
Proof.
  intros keep. induction fuel as [|fuel IH]; intros node s w; [done|]. cbn [run_subtree].
  by apply keeps_children.
Qed.
End world.

(** ** Examples *)

(** An engine that answers each run with its workflow's id, failing the odd ones, and counts. *)
#[export] Instance demo_env : FlowEnv Z := {|
  engine_run := fun req n =>
    (Ok (mkResult n (if Z.even (r_workflow_id req + n) then Success else Failed) (Z.even (r_workflow_id req + n)) None
      (json_of_Z (r_workflow_id req)) 1500), n + 1);
  run_notification_action := fun b s n => (JNull, n);
  run_send_file_action := fun b s n => (JNull, n);
  run_export_to_file_action := fun b s n => ((JNull, s), n);
  run_streaming_action := fun b s n => ((JNull, s), n);
  run_ai_session_action := fun b s n => ((JNull, s), n);
|}.

(** An event, a condition on its payload, a workflow under it, and one under that. *)
Definition demo_blocks : list FlowBlock := [
  mkBlock "e" "event" "webhook_received" (JObj []) None;
  mkBlock "c" "condition" "condition" (JObj [("field", JStr "n"); ("operator", JStr "gt"); ("value", JStr "3")]) (Some "e");
  mkBlock "w" "action" "workflow" (JObj [("workflow_id", json_of_Z 7); ("retry", json_of_Z 2)]) (Some "c");
  mkBlock "x" "action" "return_data" (JObj []) (Some "w")].
Definition demo_ctx : FlowCtx := mkCtx demo_blocks None (JObj []) Webhook Background.

Example demo_walk : match run_subtree 5 demo_ctx "e" [("n", json_of_Z 4)] 0 with
  | Some (out, n) => length out = 3%nat /\ n = 2
  | None => False
  end.
Proof. vm_compute. split; reflexivity. Qed.

Lemma walk_terminates_witness : is_Some (run_subtree 4 demo_ctx "e" [("n", json_of_Z 4)] 0).
Proof.
  apply (walk_terminates demo_ctx (mkBlock "e" "event" "webhook_received" (JObj []) None)).
  - apply (bool_decide_unpack _). vm_compute. exact I.
  - by left.
  - reflexivity.
  - simpl. lia.
Defined.

