(* ===== verification/Scheduler.v ===== *)
(** * monitor/scheduler.rs

    The three schedulers of the monitoring subsystem. Every call of [now_ms()] is an
    argument here, in the order the code makes them, so a model run fixes the clock readings
    the code would have taken. *)

From S2P Require Import Prelude Ints F64.
Open Scope Z_scope.

Definition MIN_PERIOD_MS : Z := 1000.
Definition MAX_PERIOD_MS : Z := 365 * 24 * 60 * 60 * 1000.
Definition MAX_EPOCH_MS : Z := 4102444800000.

(** The xorshift step on a [u64] seed shared by both jitter generators. *)
Definition xorshift (x : Z) : Z :=
  let x := Z.lxor x (as_u64 (Z.shiftl x 13)) in
  let x := Z.lxor x (Z.shiftr x 7) in
  Z.lxor x (as_u64 (Z.shiftl x 17)).

Definition seed_mix : Z := 0x9E3779B97F4A7C15.
Definition offset_mix : Z := 0x2545F4914F6CDD1D.

(** ** The plain scheduler *)

Module Plain.
Record Scheduler : Type := mkScheduler {
  period_ms : Z;
  jitter_ms : Z;
  last_run_ts : option Z;
  next_run_ts : Z;
  jitter_seed : Z;
}.

Definition next_jitter (s : Scheduler) (max : Z) : Z * Scheduler :=
  if max <=? 0 then (0, s)
  else let x := xorshift (jitter_seed s) in
       (as_i64 (x mod as_u64 (as_u64 max + 1)),
        mkScheduler (period_ms s) (jitter_ms s) (last_run_ts s) (next_run_ts s) x).

Definition calculate_next_run (s : Scheduler) (now : Z) : Scheduler :=
  let next := as_i64 (now + period_ms s) in
  let '(next, s) :=
    if 0 <? jitter_ms s then let '(j, s) := next_jitter s (jitter_ms s) in (as_i64 (next + j), s)
    else (next, s) in
  mkScheduler (period_ms s) (jitter_ms s) (last_run_ts s) next (jitter_seed s).

Definition new (period jitter now_seed now_next : Z) : Scheduler :=
  let period := clamp MIN_PERIOD_MS MAX_PERIOD_MS period in
  let jitter := clamp 0 MAX_PERIOD_MS jitter in
  let s := mkScheduler period jitter None 0 (Z.lxor (as_u64 now_seed) seed_mix) in
  calculate_next_run s now_next.

Definition should_run (s : Scheduler) (now : Z) : bool := next_run_ts s <=? now.

Definition mark_completed (s : Scheduler) (now_last now_next : Z) : Scheduler :=
  calculate_next_run
    (mkScheduler (period_ms s) (jitter_ms s) (Some now_last) (next_run_ts s) (jitter_seed s)) now_next.

Definition update_period (s : Scheduler) (period now : Z) : Scheduler :=
  calculate_next_run
    (mkScheduler period (jitter_ms s) (last_run_ts s) (next_run_ts s) (jitter_seed s)) now.

Definition time_until_next_run_ms (s : Scheduler) (now : Z) : Z :=
  Z.max (as_i64 (next_run_ts s - now)) 0.
End Plain.

(** ** The adaptive scheduler *)

Module Adaptive.
Record AdaptiveScheduler : Type := mkAdaptive {
  base : Plain.Scheduler;
  min_period_ms : Z;
  max_period_ms : Z;
  increase_factor : f64;
  decrease_factor : f64;
  change_count : Z;
  no_change_count : Z;
}.

Definition new (initial min max now_seed now_next : Z) : AdaptiveScheduler :=
  mkAdaptive (Plain.new initial 0 now_seed now_next) min max
    (f64_of_dec 15 (-1)) (f64_of_dec 75 (-2)) 0 0.

Definition report_change_detected (a : AdaptiveScheduler) (now : Z) : AdaptiveScheduler :=
  let new_period :=
    Z.max (f64_to_i64 (f64_mul (f64_of_Z (Plain.period_ms (base a))) (decrease_factor a)))
      (min_period_ms a) in
  let base' :=
    if new_period =? Plain.period_ms (base a) then base a
    else Plain.update_period (base a) new_period now in
  mkAdaptive base' (min_period_ms a) (max_period_ms a) (increase_factor a) (decrease_factor a)
    (as_u64 (change_count a + 1)) 0.

Definition report_no_change (a : AdaptiveScheduler) (now : Z) : AdaptiveScheduler :=
  let quiet := as_u64 (no_change_count a + 1) in
  if 5 <=? quiet then
    let new_period :=
      Z.min (f64_to_i64 (f64_mul (f64_of_Z (Plain.period_ms (base a))) (increase_factor a)))
        (max_period_ms a) in
    if new_period =? Plain.period_ms (base a) then
      mkAdaptive (base a) (min_period_ms a) (max_period_ms a) (increase_factor a)
        (decrease_factor a) (change_count a) quiet
    else
      mkAdaptive (Plain.update_period (base a) new_period now) (min_period_ms a) (max_period_ms a)
        (increase_factor a) (decrease_factor a) (change_count a) 0
  else
    mkAdaptive (base a) (min_period_ms a) (max_period_ms a) (increase_factor a)
      (decrease_factor a) (change_count a) quiet.
End Adaptive.

(** ** The time-slot scheduler *)

Module TimeSlot.
Record TimeSlotScheduler : Type := mkTimeSlot {
  period_ms : Z;
  time_slot_offset_ms : Z;
  sync_epoch_ms : Z;
  jitter_percent : f64;
  last_run_ts : option Z;
  next_run_ts : Z;
  jitter_seed : Z;
}.

Definition next_signed_jitter (seed range : Z) : Z * Z :=
  if range <=? 0 then (0, seed)
  else let x := xorshift seed in
       let span := as_u64 (as_u64 (as_u64 range * 2) + 1) in
       (as_i64 (as_i64 (x mod span) - range), x).

(** The slot-aligned part of [_calculate_next_run]: the base run time before jitter. *)
Definition base_next_run (period offset epoch now : Z) : Z :=
  let time_since_epoch := sat_sub now epoch in
  let periods_elapsed := div_euclid time_since_epoch period in
  let elapsed_span := sat_mul periods_elapsed period in
  let current_slot_time := sat_add (sat_add epoch elapsed_span) offset in
  let next_slot_time := sat_add current_slot_time period in
  let base := if now <? current_slot_time then current_slot_time else next_slot_time in
  if base <=? now then
    let behind := sat_sub now base in
    let jumps := sat_add (div_euclid behind period) 1 in
    sat_add base (sat_mul jumps period)
  else base.

(** The largest jitter the coordinator may apply: [(period as f64 * 0.8) as i64]. *)
Definition max_safe_jitter (period : Z) : Z :=
  f64_to_i64 (f64_mul (f64_of_Z period) (f64_of_dec 8 (-1))).

(** The range of the scheduler's own jitter, from its percentage. *)
Definition jitter_range (period : Z) (percent : f64) : Z :=
  let pct := if f64_is_finite percent then f64_clamp f64_zero (f64_of_Z 100) percent else f64_zero in
  f64_to_i64 (f64_mul (f64_of_Z period) (f64_div pct (f64_of_Z 100))).

Definition calculate_next_run (s : TimeSlotScheduler) (coordinator_jitter_ms now : Z) : TimeSlotScheduler :=
  if period_ms s <=? 0 then
    mkTimeSlot (period_ms s) (time_slot_offset_ms s) (sync_epoch_ms s) (jitter_percent s)
      (last_run_ts s) i64_max (jitter_seed s)
  else
    let base := base_next_run (period_ms s) (time_slot_offset_ms s) (sync_epoch_ms s) now in
    let '(jitter, seed) :=
      if negb (coordinator_jitter_ms =? 0) then
        let max_safe := max_safe_jitter (period_ms s) in
        (clamp (- max_safe) max_safe coordinator_jitter_ms, jitter_seed s)
      else next_signed_jitter (jitter_seed s) (jitter_range (period_ms s) (jitter_percent s)) in
    let next_with_jitter := sat_add base jitter in
    mkTimeSlot (period_ms s) (time_slot_offset_ms s) (sync_epoch_ms s) (jitter_percent s)
      (last_run_ts s) (Z.max now next_with_jitter) seed.

(** [now_epoch] is only read when no epoch is given. *)
Definition new (period offset : Z) (epoch : option Z) (immediate_first_run : bool)
    (percent : f64) (last_run : option Z) (now_epoch now_seed now_next : Z) : TimeSlotScheduler :=
  let period := clamp MIN_PERIOD_MS MAX_PERIOD_MS period in
  let offset := clamp (- MAX_PERIOD_MS) MAX_PERIOD_MS offset in
  let epoch := clamp 0 MAX_EPOCH_MS <$> epoch in
  let seed := Z.lxor (Z.lxor (as_u64 now_seed) (as_u64 (as_u64 offset * offset_mix))) seed_mix in
  let s := mkTimeSlot period offset (unwrap_or epoch now_epoch) percent last_run 0 seed in
  if immediate_first_run then
    mkTimeSlot period offset (unwrap_or epoch now_epoch) percent last_run now_next seed
  else calculate_next_run s 0 now_next.

Definition should_run (s : TimeSlotScheduler) (now : Z) : bool := next_run_ts s <=? now.

Definition mark_completed (s : TimeSlotScheduler) (coordinator_jitter_ms now_last now_next : Z)
    : TimeSlotScheduler :=
  calculate_next_run
    (mkTimeSlot (period_ms s) (time_slot_offset_ms s) (sync_epoch_ms s) (jitter_percent s)
       (Some now_last) (next_run_ts s) (jitter_seed s)) coordinator_jitter_ms now_next.

Definition update_period (s : TimeSlotScheduler) (period now : Z) : TimeSlotScheduler :=
  calculate_next_run
    (mkTimeSlot period (time_slot_offset_ms s) (sync_epoch_ms s) (jitter_percent s)
       (last_run_ts s) (next_run_ts s) (jitter_seed s)) 0 now.

Definition update_time_slot (s : TimeSlotScheduler) (offset now : Z) : TimeSlotScheduler :=
  calculate_next_run
    (mkTimeSlot (period_ms s) offset (sync_epoch_ms s) (jitter_percent s)
       (last_run_ts s) (next_run_ts s) (jitter_seed s)) 0 now.

Definition time_until_next_run_ms (s : TimeSlotScheduler) (now : Z) : Z :=
  Z.max (as_i64 (next_run_ts s - now)) 0.

End TimeSlot.

(** ** Reference definitions *)

(** A slot time: congruent to the shared epoch plus the slot's offset. *)
Definition on_slot (period offset epoch t : Z) : Prop := (t - epoch - offset) mod period = 0.

(** The loop the closed form replaced: [while base <= now { base += period }]. *)
Fixpoint advance_loop (fuel : nat) (period now base : Z) : option Z :=
  if now <? base then Some base
  else match fuel with
       | O => None
       | S fuel' => advance_loop fuel' period now (base + period)
       end.

Definition base_next_run_loop (fuel : nat) (period offset epoch now : Z) : option Z :=
  let current_slot_time := epoch + (now - epoch) / period * period + offset in
  advance_loop fuel period now
    (if now <? current_slot_time then current_slot_time else current_slot_time + period).

(** What [TimeSlotScheduler::new] guarantees about the schedule parameters. *)
Definition params_ok (period offset epoch : Z) : Prop :=
  MIN_PERIOD_MS <= period <= MAX_PERIOD_MS /\
  - MAX_PERIOD_MS <= offset <= MAX_PERIOD_MS /\
  0 <= epoch <= MAX_EPOCH_MS.

(** Clock readings between 1970 and the year 292 million or so. *)
Definition clock_ok (now : Z) : Prop := 0 <= now < 2 ^ 62.

(** ** Lemmas *)

Import TimeSlot.

(** The slot arithmetic without the saturation, which never bites for such parameters. *)
Definition base_exact (period offset epoch now : Z) : Z :=
  let current_slot_time := epoch + (now - epoch) / period * period + offset in
  let base := if now <? current_slot_time then current_slot_time else current_slot_time + period in
  if base <=? now then base + ((now - base) / period + 1) * period else base.

Lemma base_next_run_exact (period offset epoch now : Z) :
  params_ok period offset epoch -> clock_ok now ->
  base_next_run period offset epoch now = base_exact period offset epoch now.
Proof.
  unfold params_ok, clock_ok, MIN_PERIOD_MS, MAX_PERIOD_MS, MAX_EPOCH_MS.
  intros (Hp & Ho & He) Hn. unfold base_next_run, base_exact.
  rewrite !div_euclid_pos by lia.
  rewrite (sat_sub_exact now epoch) by (unfold in_i64, i64_min, i64_max; lia).
  set (k := (now - epoch) / period).
  assert (Hk : now - epoch - period < k * period <= now - epoch) by (unfold k; apply div_mul_bounds; lia).
  rewrite (sat_mul_exact k period) by (unfold in_i64, i64_min, i64_max; lia).
  rewrite (sat_add_exact epoch) by (unfold in_i64, i64_min, i64_max; lia).
  rewrite (sat_add_exact _ offset) by (unfold in_i64, i64_min, i64_max; lia).
  set (cs := epoch + k * period + offset).
  rewrite (sat_add_exact cs period) by (unfold cs, in_i64, i64_min, i64_max; lia).
  set (b := if now <? cs then cs else cs + period).
  assert (Hb : now - 2 ^ 40 <= b <= now + 2 ^ 40) by (unfold b, cs; zcases; lia).
  destruct (Z.leb_spec b now); [|done].
  rewrite (sat_sub_exact now b) by (unfold in_i64, i64_min, i64_max; lia).
  set (j := (now - b) / period).
  assert (Hj : 0 <= j * period <= now - b).
  { pose proof (div_mul_bounds (now - b) period). unfold j. assert (0 <= (now - b) / period) by (apply Z.div_pos; lia). nia. }
  rewrite (sat_add_exact j 1) by (unfold in_i64, i64_min, i64_max; nia).
  rewrite (sat_mul_exact (j + 1) period) by (unfold in_i64, i64_min, i64_max; lia).
  apply sat_add_exact. unfold in_i64, i64_min, i64_max; lia.
Qed.

Lemma on_slot_shift (period offset epoch t k : Z) :
  period <> 0 -> on_slot period offset epoch (t + k * period) <-> on_slot period offset epoch t.
Proof.
  intros Hp. unfold on_slot.
  replace (t + k * period - epoch - offset) with (t - epoch - offset + k * period) by lia.
  by rewrite Z.mod_add.
Qed.

Lemma base_exact_spec (period offset epoch now : Z) :
  0 < period ->
  let b := base_exact period offset epoch now in
  now < b <= now + Z.max period offset /\ on_slot period offset epoch b.
Proof.
  intros Hp b. subst b. unfold base_exact.
  set (k := (now - epoch) / period).
  assert (Hk : now - epoch - period < k * period <= now - epoch) by (unfold k; apply div_mul_bounds; lia).
  set (cs := epoch + k * period + offset).
  assert (Hcs : on_slot period offset epoch cs).
  { unfold on_slot, cs. replace (epoch + k * period + offset - epoch - offset) with (k * period) by lia.
    by apply Z.mod_mul; lia. }
  destruct (Z.ltb_spec now cs).
  - destruct (Z.leb_spec cs now); [lia|]. split; [unfold cs; lia|done].
  - set (j := (now - (cs + period)) / period).
    assert (Hj : now - (cs + period) - period < j * period <= now - (cs + period)) by (unfold j; apply div_mul_bounds; lia).
    destruct (Z.leb_spec (cs + period) now).
    + split; [lia|]. rewrite on_slot_shift by lia.
      replace (cs + period) with (cs + 1 * period) by lia. by apply on_slot_shift; [lia|].
    + split; [lia|]. replace (cs + period) with (cs + 1 * period) by lia.
      by apply on_slot_shift; [lia|].
Qed.

(** Two slot times less than a period apart are the same slot time. *)
Lemma on_slot_unique (period offset epoch t u : Z) :
  0 < period -> on_slot period offset epoch t -> on_slot period offset epoch u ->
  Z.abs (t - u) < period -> t = u.
Proof.
  unfold on_slot. intros Hp Ht Hu Hd.
  apply Z.mod_divide in Ht as [a Ha]; [|lia]. apply Z.mod_divide in Hu as [b Hb]; [|lia].
  assert (t - u = (a - b) * period) as Heq by lia.
  assert (a - b = 0) by nia. lia.
Qed.

Lemma advance_loop_spec (fuel : nat) (period now base : Z) :
  0 < period -> now < base + Z.of_nat fuel * period ->
  advance_loop fuel period now base =
    Some (if base <=? now then base + ((now - base) / period + 1) * period else base).
Proof.
  intros Hp. revert base. induction fuel as [|fuel IH]; intros base Hf; simpl.
  - destruct (Z.ltb_spec now base); [|lia]. by destruct (Z.leb_spec base now); [lia|].
  - destruct (Z.ltb_spec now base); destruct (Z.leb_spec base now); try lia; [done|].
    rewrite IH by lia. f_equal. destruct (Z.leb_spec (base + period) now).
    + replace (now - (base + period)) with (now - base + (-1) * period) by lia.
      rewrite Z.div_add by lia. lia.
    + rewrite Z.div_small; lia.
Qed.

(** The 80% cap, computed in binary64, is exact on the whole range of periods. *)
Lemma max_safe_jitter_exact (period : Z) :
  MIN_PERIOD_MS <= period <= MAX_PERIOD_MS -> max_safe_jitter period = 4 * period / 5.
Proof. unfold MIN_PERIOD_MS, MAX_PERIOD_MS. intros H. apply f64_mul_08. lia. Qed.

Lemma params_ok_new (period offset : Z) (epoch : option Z) (now : Z) :
  0 <= now <= MAX_EPOCH_MS ->
  params_ok (clamp MIN_PERIOD_MS MAX_PERIOD_MS period)
    (clamp (- MAX_PERIOD_MS) MAX_PERIOD_MS offset)
    (unwrap_or (clamp 0 MAX_EPOCH_MS <$> epoch) now).
Proof.
  intros Hn. unfold params_ok. split; [|split].
  - apply clamp_bounds. unfold MIN_PERIOD_MS, MAX_PERIOD_MS. lia.
  - apply clamp_bounds. unfold MAX_PERIOD_MS. lia.
  - destruct epoch; simpl; [|done]. apply clamp_bounds. unfold MAX_EPOCH_MS. lia.
Qed.

#[export] Hint Resolve max_safe_jitter_exact params_ok_new : writ.

Lemma jitter_range_zero (period : Z) :
  0 < period < 2 ^ 53 -> jitter_range period f64_zero = 0.
Proof.
  intros Hp. destruct period as [|p|]; [lia| |lia].
  unfold jitter_range. simpl f64_is_finite. cbv iota.
  change (f64_clamp f64_zero (f64_of_Z 100) f64_zero) with f64_zero.
  change (f64_div f64_zero (f64_of_Z 100)) with f64_zero.
  rewrite f64_of_Z_exact by lia. reflexivity.
Qed.

Lemma clamp_sym (c j : Z) : 0 <= c -> - c <= clamp (- c) c j <= c.
Proof. unfold clamp. lia. Qed.

(** The jitter [calculate_next_run] adds to the slot time, for a scheduler whose own
    percentage is zero: both callers construct it so. *)
Definition applied_jitter (period coordinator_jitter_ms : Z) : Z :=
  clamp (- max_safe_jitter period) (max_safe_jitter period) coordinator_jitter_ms.

Lemma calculate_next_run_next (s : TimeSlotScheduler) (j now : Z) :
  params_ok (period_ms s) (time_slot_offset_ms s) (sync_epoch_ms s) ->
  jitter_percent s = f64_zero -> clock_ok now ->
  next_run_ts (calculate_next_run s j now) =
    Z.max now (base_exact (period_ms s) (time_slot_offset_ms s) (sync_epoch_ms s) now
               + applied_jitter (period_ms s) j).
Proof.
  intros Hok Hpct Hn. pose proof Hok as ([Hp1 Hp2] & Ho & He).
  unfold calculate_next_run. unfold MIN_PERIOD_MS, MAX_PERIOD_MS in Hp1, Hp2, Ho.
  destruct (Z.leb_spec (period_ms s) 0); [lia|].
  rewrite base_next_run_exact by done.
  destruct (base_exact_spec (period_ms s) (time_slot_offset_ms s) (sync_epoch_ms s) now ltac:(lia)) as [Hb _].
  set (b := base_exact _ _ _ now) in *.
  assert (Hcap : max_safe_jitter (period_ms s) = 4 * period_ms s / 5).
  { apply max_safe_jitter_exact. unfold MIN_PERIOD_MS, MAX_PERIOD_MS. lia. }
  assert (Hc : 0 <= 4 * period_ms s / 5 <= period_ms s) by zlia.
  assert (Haj : - period_ms s <= applied_jitter (period_ms s) j <= period_ms s).
  { unfold applied_jitter. pose proof (clamp_sym (max_safe_jitter (period_ms s)) j). lia. }
  unfold clock_ok in Hn.
  destruct (Z.eqb_spec j 0) as [->|Hj]; simpl negb; cbv iota.
  - rewrite Hpct, jitter_range_zero by lia. simpl.
    rewrite sat_add_exact by (unfold in_i64, i64_min, i64_max; lia).
    unfold applied_jitter, clamp. rewrite Hcap. f_equal. lia.
  - simpl. fold (applied_jitter (period_ms s) j).
    by rewrite sat_add_exact by (unfold in_i64, i64_min, i64_max; lia).
Qed.

Lemma calculate_next_run_params (s : TimeSlotScheduler) (j now : Z) :
  let s' := calculate_next_run s j now in
  period_ms s' = period_ms s /\ time_slot_offset_ms s' = time_slot_offset_ms s /\
  sync_epoch_ms s' = sync_epoch_ms s /\ jitter_percent s' = jitter_percent s.
Proof.
  unfold calculate_next_run. destruct (period_ms s <=? 0); [done|].
  destruct (negb (j =? 0)); [done|]. by destruct (next_signed_jitter _ _).
Qed.

(** ** Runs of a slot scheduler *)

(** A scheduler the monitoring loop can hold, with the clock reading its next run time was
    computed at: built by [new] with the zero percentage both callers pass, then completed
    any number of times with any coordinator jitter, or moved to another offset. *)
Inductive reachable : TimeSlotScheduler -> Z -> Prop :=
| reach_new period offset epoch last t0 t1 t2 :
    0 <= t0 <= MAX_EPOCH_MS -> t0 <= t1 <= t2 -> clock_ok t2 ->
    reachable (new period offset epoch false f64_zero last t0 t1 t2) t2
| reach_completed s t j t1 t2 :
    reachable s t -> t <= t1 <= t2 -> clock_ok t2 ->
    reachable (mark_completed s j t1 t2) t2
| reach_moved s t offset t1 :
    reachable s t -> t <= t1 -> clock_ok t1 -> - MAX_PERIOD_MS <= offset <= MAX_PERIOD_MS ->
    reachable (update_time_slot s offset t1) t1.

(** A next run time that has not drifted: a slot time after the reading, displaced by at most
    four fifths of a period, or the reading itself when the displacement reached it. *)
Definition undrifted (s : TimeSlotScheduler) (now : Z) : Prop :=
  now <= next_run_ts s /\
  exists b, on_slot (period_ms s) (time_slot_offset_ms s) (sync_epoch_ms s) b /\
    now < b <= now + Z.max (period_ms s) (time_slot_offset_ms s) /\
    (Z.abs (next_run_ts s - b) <= 4 * period_ms s / 5 \/
     next_run_ts s = now /\ b - now <= 4 * period_ms s / 5).

Definition sched_inv (s : TimeSlotScheduler) (now : Z) : Prop :=
  params_ok (period_ms s) (time_slot_offset_ms s) (sync_epoch_ms s) /\
  jitter_percent s = f64_zero /\ undrifted s now.

Lemma calculate_next_run_inv (s : TimeSlotScheduler) (j now : Z) :
  params_ok (period_ms s) (time_slot_offset_ms s) (sync_epoch_ms s) ->
  jitter_percent s = f64_zero -> clock_ok now ->
  sched_inv (calculate_next_run s j now) now.
Proof.
  intros Hok Hpct Hn.
  destruct (calculate_next_run_params s j now) as (Ep & Eo & Ee & Ej).
  unfold sched_inv, undrifted. rewrite Ep, Eo, Ee, Ej.
  rewrite calculate_next_run_next by done.
  split; [done|]. split; [done|]. split; [lia|].
  pose proof Hok as ([Hp1 Hp2] & _ & _). unfold MIN_PERIOD_MS in Hp1.
  destruct (base_exact_spec (period_ms s) (time_slot_offset_ms s) (sync_epoch_ms s) now ltac:(lia)) as [Hb Hs].
  exists (base_exact (period_ms s) (time_slot_offset_ms s) (sync_epoch_ms s) now).
  split; [done|]. split; [done|].
  set (b := base_exact _ _ _ now) in *.
  pose proof (clamp_sym (4 * period_ms s / 5) j ltac:(zlia)).
  unfold applied_jitter. rewrite max_safe_jitter_exact by done.
  set (c := clamp _ _ _) in *. lia.
Qed.

Lemma reachable_inv (s : TimeSlotScheduler) (t : Z) : reachable s t -> sched_inv s t /\ clock_ok t.
Proof.
  induction 1 as [period offset epoch last t0 t1 t2 H0 H1 H2
                 | s t j t1 t2 _ [[IH1 [IH2 _]] _] Ht Hc
                 | s t offset t1 _ [[IH1 [IH2 _]] _] Ht Hc Ho]; (split; [|done]).
  - apply calculate_next_run_inv; simpl; [by apply params_ok_new|done|done].
  - by apply calculate_next_run_inv.
  - apply calculate_next_run_inv; simpl; [|done|done].
    unfold params_ok in *. tauto.
Qed.

Lemma plain_update_period (s : Plain.Scheduler) (period now : Z) :
  Plain.period_ms (Plain.update_period s period now) = period.
Proof.
  unfold Plain.update_period, Plain.calculate_next_run, Plain.next_jitter. simpl.
  destruct (0 <? _); [|done]. by destruct (_ <=? 0).
Qed.

(** ** Properties *)

(** the slot-aligned run time computed from the shared epoch is strictly in the future,
    is a slot time, and, for an offset inside the period, is the first slot time after the
    clock reading, so at most a period away. *)
Theorem base_next_run_least (period offset epoch now : Z) :
  params_ok period offset epoch -> clock_ok now ->
  let b := base_next_run period offset epoch now in
  now < b /\ on_slot period offset epoch b /\
  (offset < period -> b <= now + period /\
     forall t, on_slot period offset epoch t -> now < t -> b <= t).
Proof.
  intros Hok Hn. rewrite base_next_run_exact by done. cbv zeta.
  assert (Hp : 0 < period) by (destruct Hok as [[? _] _]; unfold MIN_PERIOD_MS in *; lia).
  destruct (base_exact_spec period offset epoch now Hp) as [Hb Hs].
  split; [lia|]. split; [done|]. intros Ho. split; [lia|]. intros t Ht Hnt.
  destruct (Z.le_gt_cases (base_exact period offset epoch now) t) as [|Hlt]; [done|].
  rewrite (on_slot_unique period offset epoch _ t Hp Hs Ht); lia.
Qed.

Lemma base_next_run_least_witness :
  let b := base_next_run 30000 5000 1000000 1700000012345 in
  b = 1700000025000 /\ forall t, on_slot 30000 5000 1000000 t -> 1700000012345 < t -> b <= t.
Proof.
  split; [reflexivity|].
  refine (proj2 (proj2 (proj2 (base_next_run_least 30000 5000 1000000 1700000012345 _ _)) _)).
  - unfold params_ok, MIN_PERIOD_MS, MAX_PERIOD_MS, MAX_EPOCH_MS. lia.
  - unfold clock_ok. lia.
  - lia.
Defined.

(** the closed form that replaced the drift-correction loop computes what the loop
    [while base <= now { base += period }] computes, given as many iterations as it needs,
    and the loop does terminate. *)
Theorem base_next_run_equals_loop (period offset epoch now : Z) :
  params_ok period offset epoch -> clock_ok now ->
  exists n, forall fuel, (n <= fuel)%nat ->
    base_next_run_loop fuel period offset epoch now = Some (base_next_run period offset epoch now).
Proof.
  intros Hok Hn. rewrite base_next_run_exact by done.
  assert (Hp : 0 < period) by (destruct Hok as [[? _] _]; unfold MIN_PERIOD_MS in *; lia).
  exists (Z.to_nat (Z.abs now + Z.abs epoch + Z.abs offset + period + 1)). intros fuel Hf.
  unfold base_next_run_loop, base_exact. apply advance_loop_spec; [done|].
  pose proof (div_mul_bounds (now - epoch) period Hp). zcases; nia.
Qed.

Lemma base_next_run_equals_loop_witness :
  exists n, forall fuel, (n <= fuel)%nat ->
    base_next_run_loop fuel 60000 0 0 1000000 = Some (base_next_run 60000 0 0 1000000).
Proof.
  apply base_next_run_equals_loop.
  - unfold params_ok, MIN_PERIOD_MS, MAX_PERIOD_MS, MAX_EPOCH_MS. lia.
  - unfold clock_ok. lia.
Defined.

(** no drift accumulates. However often a slot scheduler has been completed, with
    whatever coordinator jitter and at whatever times, its next run time is a slot time of
    the shared epoch displaced by at most four fifths of a period, never one in the past. *)
Theorem schedule_never_drifts (s : TimeSlotScheduler) (t : Z) :
  reachable s t -> undrifted s t /\ MIN_PERIOD_MS <= period_ms s <= MAX_PERIOD_MS.
Proof. by intros [((Hp & _) & _ & Hu) _]%reachable_inv. Qed.

Lemma schedule_never_drifts_witness :
  let s := new 30000 5000 (Some 1000000) false f64_zero None 1700000000000 1700000000000 1700000000000 in
  let s' := mark_completed s (-60000) 1700000100000 1700000100001 in
  undrifted s' 1700000100001 /\ MIN_PERIOD_MS <= period_ms s' <= MAX_PERIOD_MS.
Proof.
  intros s s'. apply (schedule_never_drifts s' 1700000100001).
  apply (reach_completed s 1700000000000); [apply reach_new| |].
  all: unfold clock_ok, MAX_EPOCH_MS; lia.
Defined.

(** a slot that was just completed is due again at once exactly when the slot time it
    would next run at is no further away than the (capped) negative jitter it was given. So
    no non-negative jitter ever re-fires a slot, but a persistent negative hint keeps the
    slot due, recomputation after recomputation, until the slot time passes. *)
Theorem completed_slot_refires_iff (s : TimeSlotScheduler) (j t1 t2 : Z) :
  params_ok (period_ms s) (time_slot_offset_ms s) (sync_epoch_ms s) ->
  jitter_percent s = f64_zero -> clock_ok t2 ->
  should_run (mark_completed s j t1 t2) t2 = true <->
  base_next_run (period_ms s) (time_slot_offset_ms s) (sync_epoch_ms s) t2 - t2
    <= Z.min (4 * period_ms s / 5) (- j).
Proof.
  intros Hok Hpct Hn. unfold should_run, mark_completed.
  rewrite base_next_run_exact, calculate_next_run_next by done. simpl.
  pose proof Hok as ([Hp1 Hp2] & _ & _). unfold MIN_PERIOD_MS in Hp1.
  destruct (base_exact_spec (period_ms s) (time_slot_offset_ms s) (sync_epoch_ms s) t2 ltac:(lia)) as [Hb _].
  unfold applied_jitter, clamp. rewrite max_safe_jitter_exact by done.
  rewrite Z.leb_le. assert (0 <= 4 * period_ms s / 5) by zlia. lia.
Qed.

Lemma completed_slot_refires_iff_witness :
  let s := new 60000 0 (Some 0) false f64_zero None 0 0 0 in
  should_run (mark_completed s (-48000) 12000 12000) 12000 = true.
Proof.
  intros s. apply (completed_slot_refires_iff s (-48000) 12000 12000).
  - unfold params_ok, MIN_PERIOD_MS, MAX_PERIOD_MS, MAX_EPOCH_MS. vm_compute. repeat split; discriminate.
  - reflexivity.
  - unfold clock_ok. lia.
  - vm_compute. discriminate.
Defined.

(** the adaptive scheduler keeps its period between its bounds: a change report never
    lengthens it nor takes it under the minimum, five quiet reports never shorten it nor
    take it over the maximum, and the binary64 factors are exactly 3/4 and 3/2. *)
Theorem adaptive_period_bounded (a : Adaptive.AdaptiveScheduler) (now : Z) :
  0 < Adaptive.min_period_ms a <= Plain.period_ms (Adaptive.base a) ->
  Plain.period_ms (Adaptive.base a) <= Adaptive.max_period_ms a < 2 ^ 50 ->
  Adaptive.decrease_factor a = f64_of_dec 75 (-2) ->
  Adaptive.increase_factor a = f64_of_dec 15 (-1) ->
  let p := Plain.period_ms (Adaptive.base a) in
  Plain.period_ms (Adaptive.base (Adaptive.report_change_detected a now))
    = Z.max (3 * p / 4) (Adaptive.min_period_ms a) /\
  Plain.period_ms (Adaptive.base (Adaptive.report_no_change a now))
    = (if 5 <=? as_u64 (Adaptive.no_change_count a + 1)
       then Z.min (3 * p / 2) (Adaptive.max_period_ms a) else p) /\
  Adaptive.min_period_ms a <= Z.max (3 * p / 4) (Adaptive.min_period_ms a) <= p /\
  p <= Z.min (3 * p / 2) (Adaptive.max_period_ms a) <= Adaptive.max_period_ms a.
Proof.
  intros Hmin Hmax Hd Hi p. split_and!; try zlia.
  - unfold Adaptive.report_change_detected. rewrite Hd, f64_mul_075 by lia. fold p.
    destruct (Z.eqb_spec (Z.max (3 * p / 4) (Adaptive.min_period_ms a)) p) as [E|E]; simpl; [by rewrite E|].
    apply plain_update_period.
  - unfold Adaptive.report_no_change. rewrite Hi, f64_mul_15 by lia. fold p.
    destruct (5 <=? _); [|done].
    destruct (Z.eqb_spec (Z.min (3 * p / 2) (Adaptive.max_period_ms a)) p) as [E|E]; simpl; [by rewrite E|].
    apply plain_update_period.
Qed.

Lemma adaptive_period_bounded_witness :
  let a := Adaptive.new 10000 1000 60000 0 0 in
  Plain.period_ms (Adaptive.base (Adaptive.report_change_detected a 5)) = 7500.
Proof.
  intros a. destruct (adaptive_period_bounded a 5) as [H _]; [| |reflexivity|reflexivity|].
  - vm_compute. split; congruence.
  - vm_compute. split; congruence.
  - exact H.
Defined.
