(* ===== verification/Grouping.v ===== *)
(** * monitor/models.rs and monitor/grouping.rs

    Monitoring targets, the resolution of an agent's time slots from the coordinator's
    [time_slot_offsets] document, and the round-robin distribution of targets over slots. *)

From Stdlib Require Import Sorted.
From S2P Require Import Prelude Ints F64 Str Json Scheduler.
Open Scope Z_scope.

(** ** Data models *)

Record Selector : Type := mkSelector {
  sel_id : option Z;
  sel_name : option string;
  selector : string;
  content_type : string;
  ignore_regex : option string;
  baseline_hash : option string;
  baseline_content : option string;
  visual_region : option json;
}.

Record Target : Type := mkTarget {
  id : option Z;
  url : string;
  check_type : string;
  check_period_ms : option Z;
  requires_playwright : bool;
  pre_check_workflow : option json;
  auth_session : option json;
  timeout_ms : option Z;
  expected_status_code : option Z;
  check_ssl : bool;
  selectors : list Selector;
}.

(** A target id arrives as a number or as a string. *)
Definition de_opt_i64_flex (v : option json) : option Z :=
  match v with
  | Some (JNum n) => num_as_i64 n
  | Some (JStr s) => parse_i64 (trim s)
  | _ => None
  end.

Definition needs_browser (t : Target) : bool :=
  if str_eqb (check_type t) "uptime" then false
  else requires_playwright t || bool_decide (is_Some (pre_check_workflow t))
       || bool_decide (is_Some (auth_session t))
       || any (fun s => str_eqb (content_type s) "visual" && bool_decide (is_Some (visual_region s)))
            (selectors t).

(** ** Grouping *)

Definition MIN_CHECK_INTERVAL_MS : Z := 60000.

Record Slot : Type := mkSlot {
  scheduler : TimeSlot.TimeSlotScheduler;
  targets : list Target;
  slot_index : nat;
  offset_ms : Z;
}.

Record PeriodGroup : Type := mkGroup {
  period_ms : Z;
  slots : list Slot;
}.

Record Resolved : Type := mkResolved {
  offsets : list Z;
  effective_period_ms : Z;
}.

Definition floor_period (p : Z) : Z := Z.max p MIN_CHECK_INTERVAL_MS.

(** [filter_map(as_i64)] over a JSON array. *)
Definition ints_of (l : list json) : list Z := omap json_as_i64 l.

Definition or_zero (l : list Z) : list Z := match l with [] => [0] | _ => l end.

Definition resolve (time_slot_offsets : json) (period : Z) (period_idx num_period_groups : nat) : Resolved :=
  match time_slot_offsets with
  | JObj obj =>
      let pc := unwrap_or (map_get obj (Z_to_string period)) JNull in
      match pc with
      | JObj map =>
          let offset := unwrap_or (map_get map "offset_ms" ≫= json_as_i64) 0 in
          let eff := unwrap_or (map_get map "effective_period_ms" ≫= json_as_i64) period in
          mkResolved [offset] (floor_period eff)
      | JArr list => mkResolved (or_zero (ints_of list)) (floor_period period)
      | _ => mkResolved [0] (floor_period period)
      end
  | _ =>
      let base := or_zero (match time_slot_offsets with JArr a => ints_of a | _ => [] end) in
      let shift_per_period :=
        match base with
        | b0 :: b1 :: _ =>
            if (1 <? num_period_groups)%nat
            then Z.quot (as_i64 (b1 - b0)) (Z.of_nat num_period_groups + 1)
            else 0
        | _ => 0
        end in
      let offsets :=
        if 0 <? shift_per_period then
          let shift := as_i64 (Z.of_nat period_idx * shift_per_period) in
          (fun o => as_i64 (o + shift)) <$> base
        else base in
      mkResolved offsets (floor_period period)
  end.

(** The [BTreeMap] of targets by period: association list sorted by key. *)
Fixpoint push_period (p : Z) (t : Target) (m : list (Z * list Target)) : list (Z * list Target) :=
  match m with
  | [] => [(p, [t])]
  | (q, ts) :: m' =>
      if p <? q then (p, [t]) :: m
      else if p =? q then (q, (ts ++ [t])%list) :: m'
      else (q, ts) :: push_period p t m'
  end.

Definition target_period (global_period_ms : Z) (t : Target) : Z :=
  unwrap_or (check_period_ms t) global_period_ms.

Definition by_period (global_period_ms : Z) (ts : list Target) : list (Z * list Target) :=
  foldl (fun m t => push_period (target_period global_period_ms t) t m) [] ts.

(** The targets of slot [slot_idx] of [num_slots]: those whose index is congruent to it. *)
Definition slot_targets (num_slots slot_idx : nat) (ts : list Target) : list Target :=
  snd <$> retain (fun it => bool_decide (fst it `mod` num_slots = slot_idx)%nat) (enumerate ts).

(** The three clock readings [TimeSlotScheduler::new] takes, per group and slot index. *)
Definition readings : Type := nat -> nat -> Z * Z * Z.

Definition build_slot (clk : readings) (sync_epoch_ms : option Z) (period_idx : nat)
    (r : Resolved) (period_targets : list Target) (so : nat * Z) : option Slot :=
  let '(slot_idx, offset) := so in
  let num_slots := Nat.max (length (offsets r)) 1 in
  match slot_targets num_slots slot_idx period_targets with
  | [] => None
  | ts =>
      let '(t0, t1, t2) := clk period_idx slot_idx in
      Some (mkSlot
              (TimeSlot.new (effective_period_ms r) offset sync_epoch_ms false f64_zero None t0 t1 t2)
              ts slot_idx offset)
  end.

Definition build_group (clk : readings) (sync_epoch_ms : option Z) (time_slot_offsets : json)
    (num_groups : nat) (g : nat * (Z * list Target)) : PeriodGroup :=
  let '(period_idx, (period, period_targets)) := g in
  let r := resolve time_slot_offsets period period_idx num_groups in
  mkGroup period (omap (build_slot clk sync_epoch_ms period_idx r period_targets) (enumerate (offsets r))).

Definition group_targets (clk : readings) (ts : list Target) (global_period_ms : Z)
    (sync_epoch_ms : option Z) (time_slot_offsets : json) : list PeriodGroup :=
  let m := by_period global_period_ms ts in
  build_group clk sync_epoch_ms time_slot_offsets (length m) <$> enumerate m.

(** All the targets some slot of some group checks. *)
Definition group_slot_targets (g : PeriodGroup) : list Target := concat (targets <$> slots g).
Definition grouped_targets (gs : list PeriodGroup) : list Target := concat (group_slot_targets <$> gs).

(** ** Lemmas *)

Lemma slot_targets_perm (n : nat) (ts : list Target) :
  (0 < n)%nat -> concat ((fun k => slot_targets n k ts) <$> seq 0 n) ≡ₚ ts.
Proof.
  intros Hn. unfold slot_targets.
  transitivity (snd <$> concat ((fun k => retain (fun it => bool_decide (fst it `mod` n = k)%nat)
                                            (enumerate ts)) <$> seq 0 n)).
  - rewrite fmap_concat, <-list_fmap_compose. done.
  - rewrite (classes_perm (fun it : nat * Target => (fst it `mod` n)%nat) n).
    + by rewrite snd_enumerate.
    + intros it _. apply Nat.mod_upper_bound. lia.
Qed.

Lemma or_zero_nonempty (l : list Z) : (0 < length (or_zero l))%nat.
Proof. destruct l; simpl; lia. Qed.

Lemma resolve_nonempty (tso : json) (p : Z) (i n : nat) : (0 < length (offsets (resolve tso p i n)))%nat.
Proof.
  destruct tso as [| | | |a|obj]; simpl; try lia.
  - case_match; simpl; [rewrite length_fmap|]; apply or_zero_nonempty.
  - destruct (unwrap_or _ _); simpl; try lia. apply or_zero_nonempty.
Qed.

Lemma resolve_floor (tso : json) (p : Z) (i n : nat) :
  MIN_CHECK_INTERVAL_MS <= effective_period_ms (resolve tso p i n).
Proof.
  assert (H : forall q, MIN_CHECK_INTERVAL_MS <= floor_period q) by (intros; unfold floor_period; lia).
  destruct tso as [| | | |a|obj]; simpl; try apply H.
  destruct (unwrap_or _ _); simpl; apply H.
Qed.

Lemma build_group_targets (clk : readings) (e : option Z) (tso : json) (n i : nat) (p : Z) (ts : list Target) :
  group_slot_targets (build_group clk e tso n (i, (p, ts))) ≡ₚ ts.
Proof.
  unfold group_slot_targets, build_group. cbn [slots].
  set (r := resolve tso p i n). pose proof (resolve_nonempty tso p i n) as Hne. fold r in Hne.
  rewrite (concat_fmap_omap _ _ (fun so => slot_targets (length (offsets r)) (fst so) ts)).
  - transitivity (concat ((fun k => slot_targets (length (offsets r)) k ts) <$> (fst <$> enumerate (offsets r)))).
    + by rewrite <-list_fmap_compose.
    + rewrite fst_enumerate. by apply slot_targets_perm.
  - intros [k o] _. simpl. replace (Nat.max (length (offsets r)) 1) with (length (offsets r)) by lia.
    destruct (slot_targets _ k ts) as [|t l]; [done|]. by destruct (clk i k) as [[? ?] ?].
Qed.

Lemma push_period_perm (p : Z) (t : Target) (m : list (Z * list Target)) :
  concat (snd <$> push_period p t m) ≡ₚ concat (snd <$> m) ++ [t].
Proof.
  induction m as [|[q ts] m IH]; simpl; [done|]. zcases; simpl.
  - apply Permutation_cons_append.
  - rewrite <-!(assoc_L app). f_equiv. apply Permutation_app_comm.
  - by rewrite IH, (assoc_L app).
Qed.

Lemma by_period_perm (g : Z) (ts : list Target) : concat (snd <$> by_period g ts) ≡ₚ ts.
Proof.
  unfold by_period.
  assert (H : forall m, concat (snd <$> foldl (fun m t => push_period (target_period g t) t m) m ts)
                        ≡ₚ concat (snd <$> m) ++ ts).
  { induction ts as [|t ts IH]; intros m; simpl; [by rewrite app_nil_r|].
    by rewrite IH, push_period_perm, <-(assoc_L app). }
  by rewrite H.
Qed.

(** The invariant of the period map: keys strictly increase, and every target sits under its
    own period, in a bucket that is not empty. *)
Definition period_map_ok (g : Z) (m : list (Z * list Target)) : Prop :=
  StronglySorted Z.lt (fst <$> m) /\
  Forall (fun b => snd b <> [] /\ Forall (fun t => target_period g t = fst b) (snd b)) m.

Lemma push_period_keys (p q : Z) (t : Target) (m : list (Z * list Target)) :
  q ∈ (fst <$> push_period p t m) -> q = p \/ q ∈ (fst <$> m).
Proof.
  induction m as [|[r ts] m IH]; simpl.
  - rewrite elem_of_cons. naive_solver.
  - destruct (p <? r); [|destruct (p =? r)]; simpl; rewrite !elem_of_cons; tauto.
Qed.

Lemma push_period_ok (g : Z) (t : Target) (m : list (Z * list Target)) :
  period_map_ok g m -> period_map_ok g (push_period (target_period g t) t m).
Proof.
  set (p := target_period g t). intros [Hs Hf]. induction m as [|[q ts] m IH]; simpl.
  - split; [by repeat constructor|]. constructor; [|done]. split; [done|]. by repeat constructor.
  - inversion Hs as [|? ? Hs' Hlt]; subst. inversion Hf as [|? ? [Hn Ht] Hf']; subst.
    simpl in Hn, Ht, Hlt. zcases.
    + split; [|constructor; [split; [done|by repeat constructor]|done]].
      simpl. constructor; [done|]. constructor; [done|].
      eapply Forall_impl; [exact Hlt|]. simpl. lia.
    + subst q. split; [done|]. constructor; [|done]. simpl. split; [by destruct ts|].
      apply Forall_app. split; [done|by repeat constructor].
    + destruct (IH Hs' Hf') as [IH1 IH2]. split; [|by constructor].
      simpl. constructor; [done|]. apply Forall_forall. intros r Hr.
      destruct (push_period_keys _ _ _ _ Hr) as [-> | Hr']; [lia|].
      rewrite Forall_forall in Hlt. by apply Hlt.
Qed.

Lemma by_period_ok (g : Z) (ts : list Target) : period_map_ok g (by_period g ts).
Proof.
  unfold by_period.
  assert (H : forall m, period_map_ok g m ->
            period_map_ok g (foldl (fun m t => push_period (target_period g t) t m) m ts)).
  { induction ts as [|t ts IH]; intros m Hm; simpl; [done|]. by apply IH, push_period_ok. }
  apply H. split; constructor.
Qed.


Lemma group_targets_elem (clk : readings) (ts : list Target) (gp : Z) (e : option Z) (tso : json) (g : PeriodGroup) :
  g ∈ group_targets clk ts gp e tso ->
  exists i p l, (p, l) ∈ by_period gp ts /\ g = build_group clk e tso (length (by_period gp ts)) (i, (p, l)).
Proof.
  unfold group_targets. rewrite list_elem_of_fmap. intros ([i [p l]] & -> & Hin).
  exists i, p, l. split; [|done]. by apply enumerate_elem in Hin.
Qed.

(** The number of indices below [m] congruent to [k] modulo [n]. *)
Lemma count_class (n k m : nat) :
  (k < n)%nat ->
  length (retain (fun i => bool_decide (i `mod` n = k)%nat) (seq 0 m)) = ((m + n - 1 - k) / n)%nat.
Proof.
  intros Hk. induction m as [|m IH].
  - simpl. symmetry. apply Nat.div_small. lia.
  - rewrite seq_S, retain_app, length_app, IH, retain_cons. simpl.
    replace (m + n - 0 - k)%nat with (m + n - 1 - k + 1)%nat by lia.
    pose proof (Nat.div_mod_eq (m + n - 1 - k) n) as H1.
    pose proof (Nat.mod_upper_bound (m + n - 1 - k) n ltac:(lia)) as H2.
    set (q := ((m + n - 1 - k) / n)%nat) in *. set (r := ((m + n - 1 - k) mod n)%nat) in *.
    case_bool_decide as E.
    + simpl. apply (Nat.div_unique _ n (q + 1) 0); [lia|].
      pose proof (Nat.div_mod_eq m n) as H3. rewrite E in H3.
      assert (r = (n - 1)%nat) as Hr.
      { unfold r. replace (m + n - 1 - k)%nat with (n - 1 + (m / n) * n)%nat by lia.
        rewrite Nat.Div0.mod_add. apply Nat.mod_small. lia. }
      lia.
    + simpl. destruct (decide (r = n - 1)%nat) as [Hr|Hr].
      * exfalso. apply E. replace m with (k + q * n)%nat by lia.
        rewrite Nat.Div0.mod_add. by apply Nat.mod_small.
      * rewrite Nat.add_0_r. apply (Nat.div_unique _ n q (r + 1)); lia.
Qed.

Lemma slot_targets_length (n k : nat) (ts : list Target) :
  (k < n)%nat -> length (slot_targets n k ts) = ((length ts + n - 1 - k) / n)%nat.
Proof.
  intros Hk. rewrite <-(count_class n k (length ts)) by done. unfold slot_targets.
  rewrite length_fmap, <-fst_enumerate. generalize (enumerate ts). intros l.
  induction l as [|[i t] l IH]; [done|]. rewrite fmap_cons, !retain_cons. simpl.
  case_bool_decide; simpl; by rewrite IH.
Qed.

Lemma new_period (p o : Z) (e : option Z) (b : bool) (pct : f64) (lr : option Z) (t0 t1 t2 : Z) :
  TimeSlot.period_ms (TimeSlot.new p o e b pct lr t0 t1 t2) = clamp MIN_PERIOD_MS MAX_PERIOD_MS p.
Proof.
  unfold TimeSlot.new. destruct b; [done|].
  match goal with |- TimeSlot.period_ms (TimeSlot.calculate_next_run ?s ?j ?n) = _ =>
    apply (calculate_next_run_params s j n) end.
Qed.

(** ** Properties *)

(** Grouping loses and duplicates nothing: the targets of all slots of all period groups
    are a permutation of the assigned targets, whatever offsets document, sync epoch and clock
    readings, so every target is checked by exactly one slot. *)
Theorem group_targets_partition (clk : readings) (ts : list Target) (global_period_ms : Z)
    (sync_epoch_ms : option Z) (time_slot_offsets : json) :
  grouped_targets (group_targets clk ts global_period_ms sync_epoch_ms time_slot_offsets) ≡ₚ ts.
Proof.
  transitivity (concat (snd <$> by_period global_period_ms ts)); [|apply by_period_perm].
  unfold grouped_targets, group_targets. generalize (length (by_period global_period_ms ts)). intros n.
  rewrite <-(snd_enumerate (by_period global_period_ms ts)) at 2.
  induction (enumerate (by_period global_period_ms ts)) as [|[i [p l]] e IH]; [done|].
  rewrite !fmap_cons. cbn [concat]. by rewrite build_group_targets, IH.
Qed.

Lemma build_group_slot (clk : readings) (e : option Z) (tso : json) (n i : nat) (p : Z) (l : list Target) (s : Slot) :
  let r := resolve tso p i n in
  s ∈ slots (build_group clk e tso n (i, (p, l))) ->
  exists k o t0 t1 t2,
    offsets r !! k = Some o /\
    s = mkSlot (TimeSlot.new (effective_period_ms r) o e false f64_zero None t0 t1 t2)
          (slot_targets (length (offsets r)) k l) k o /\
    targets s <> [].
Proof.
  intros r Hs. unfold build_group in *. cbn [slots period_ms] in *. fold r in Hs.
  apply list_elem_of_omap in Hs as ([k o] & Hko & Hs).
  assert (Ho : offsets r !! k = Some o) by (by apply lookup_enumerate).
  pose proof (lookup_lt_Some _ _ _ Ho) as Hk. unfold build_slot in Hs.
  rewrite Nat.max_l in Hs by lia.
  destruct (slot_targets _ k l) as [|t l'] eqn:E; [done|].
  destruct (clk i k) as [[t0 t1] t2]. injection Hs as <-.
  exists k, o, t0, t1, t2. split_and!; [done| |done]. by rewrite E.
Qed.

Lemma slot_targets_elem (n k : nat) (l : list Target) (t : Target) : t ∈ slot_targets n k l -> t ∈ l.
Proof.
  unfold slot_targets. rewrite list_elem_of_fmap. intros ([j x] & -> & H).
  apply elem_of_retain in H as [_ H]. by apply enumerate_elem in H.
Qed.

(** Any two round-robin slots hold the same number of targets, give or take one. *)
Lemma slot_targets_balanced (n k k' : nat) (l : list Target) :
  (k < n)%nat -> (k' < n)%nat ->
  (length (slot_targets n k l) <= length (slot_targets n k' l) + 1)%nat.
Proof.
  intros Hk Hk'. rewrite !slot_targets_length by done.
  rewrite <-Nat.div_add by lia. apply Nat.Div0.div_le_mono. lia.
Qed.

Lemma group_targets_periods (clk : readings) (ts : list Target) (gp : Z) (e : option Z) (tso : json) :
  period_ms <$> group_targets clk ts gp e tso = fst <$> by_period gp ts.
Proof.
  unfold group_targets. generalize (length (by_period gp ts)). intros n.
  rewrite <-(snd_enumerate (by_period gp ts)) at 2. rewrite <-!list_fmap_compose.
  apply list_fmap_ext. by intros i [k [p l]] _.
Qed.

Lemma by_period_elem (gp : Z) (ts : list Target) (p : Z) (l : list Target) (t : Target) :
  (p, l) ∈ by_period gp ts -> t ∈ l -> t ∈ ts /\ target_period gp t = p.
Proof.
  intros Hp Ht. split.
  - rewrite <-(by_period_perm gp ts). apply list_elem_of_In, in_concat. exists l.
    split; apply list_elem_of_In; [|done]. apply list_elem_of_fmap. by exists (p, l).
  - destruct (by_period_ok gp ts) as [_ H]. rewrite Forall_forall in H.
    destruct (H _ Hp) as [_ Hf]. rewrite Forall_forall in Hf. by apply Hf.
Qed.

Lemma by_period_keys (gp : Z) (ts : list Target) (p : Z) :
  p ∈ (fst <$> by_period gp ts) <-> exists t, t ∈ ts /\ target_period gp t = p.
Proof.
  rewrite list_elem_of_fmap. split.
  - intros ([q l] & -> & Hin). destruct (by_period_ok gp ts) as [_ H]. rewrite Forall_forall in H.
    destruct (H _ Hin) as [Hne _]. destruct l as [|t l]; [done|]. exists t.
    apply (by_period_elem gp ts q (t :: l)); [done|]. by left.
  - intros (t & Ht & Hp). rewrite <-(by_period_perm gp ts) in Ht.
    apply list_elem_of_In, in_concat in Ht as (l & Hl & Htl).
    apply list_elem_of_In in Hl, Htl. apply list_elem_of_fmap in Hl as ([q l'] & -> & Hin).
    exists (q, l'). split; [|done]. simpl. by destruct (by_period_elem _ _ _ _ _ Hin Htl) as [_ <-].
Qed.

(** The anti-detection floor: whatever period a target asks for and whatever effective period
    the coordinator sends, no slot of this agent runs faster than once a minute, nor slower than
    the clamp of the schedulers. *)
Theorem anti_detection_floor (clk : readings) (ts : list Target) (global_period_ms : Z)
    (sync_epoch_ms : option Z) (time_slot_offsets : json) (g : PeriodGroup) (s : Slot) :
  g ∈ group_targets clk ts global_period_ms sync_epoch_ms time_slot_offsets -> s ∈ slots g ->
  MIN_CHECK_INTERVAL_MS <= TimeSlot.period_ms (scheduler s) <= MAX_PERIOD_MS.
Proof.
  intros Hg Hs.
  apply group_targets_elem in Hg as (i & p & l & _ & ->).
  apply build_group_slot in Hs as (k & o & t0 & t1 & t2 & _ & -> & _).
  cbn [scheduler]. rewrite new_period.
  pose proof (resolve_floor time_slot_offsets p i (length (by_period global_period_ms ts))).
  unfold clamp, MIN_CHECK_INTERVAL_MS, MIN_PERIOD_MS, MAX_PERIOD_MS in *. lia.
Qed.

Definition sample_target (u : string) (period : option Z) : Target :=
  mkTarget None u "uptime" period false None None None None false [].

(** Two targets with one-second periods, in the coordinator's rolling mode. *)
Definition sample_offsets : json :=
  JObj [("1000"%string, JObj [("offset_ms"%string, json_of_Z 250); ("effective_period_ms"%string, json_of_Z 2000)])].

Definition sample_groups : list PeriodGroup :=
  group_targets (fun _ _ => (10, 20, 30)) [sample_target "a" (Some 1000); sample_target "b" (Some 1000)]
    300000 (Some 0) sample_offsets.

Lemma sample_groups_slot : exists g s, g ∈ sample_groups /\ s ∈ slots g.
Proof.
  destruct sample_groups as [|g gs] eqn:E; [vm_compute in E; discriminate|].
  destruct (slots g) as [|s ss] eqn:Es.
  - vm_compute in E. injection E as <- _. discriminate.
  - exists g, s. rewrite Es. split; apply list_elem_of_here.
Qed.

Lemma anti_detection_floor_witness :
  exists g s, g ∈ sample_groups /\ s ∈ slots g /\
  MIN_CHECK_INTERVAL_MS <= TimeSlot.period_ms (scheduler s) <= MAX_PERIOD_MS.
Proof.
  destruct sample_groups_slot as (g & s & Hg & Hs). exists g, s. split; [exact Hg|].
  split; [exact Hs|]. exact (anti_detection_floor _ _ _ _ _ g s Hg Hs).
Defined.

(** The groups are the distinct periods of the targets, in increasing order, each once; a slot
    of a group never stands empty and only checks assigned targets whose own period is the
    group's; and the round-robin is balanced: two slots of a group differ by at most one
    target. *)
Theorem group_targets_by_period (clk : readings) (ts : list Target) (global_period_ms : Z)
    (sync_epoch_ms : option Z) (time_slot_offsets : json) :
  let gs := group_targets clk ts global_period_ms sync_epoch_ms time_slot_offsets in
  StronglySorted Z.lt (period_ms <$> gs) /\
  (forall p, p ∈ (period_ms <$> gs) <-> exists t, t ∈ ts /\ target_period global_period_ms t = p) /\
  Forall (fun g =>
    Forall (fun s => targets s <> [] /\
      forall t, t ∈ targets s -> t ∈ ts /\ target_period global_period_ms t = period_ms g) (slots g) /\
    forall s s', s ∈ slots g -> s' ∈ slots g ->
      (length (targets s) <= length (targets s') + 1)%nat) gs.
Proof.
  intros gs. unfold gs. rewrite group_targets_periods. split; [|split].
  - apply by_period_ok.
  - apply by_period_keys.
  - apply Forall_forall. intros g Hg. apply group_targets_elem in Hg as (i & p & l & Hin & ->). split.
    + apply Forall_forall. intros s Hs. apply build_group_slot in Hs as (k & o & t0 & t1 & t2 & _ & -> & Hne).
      split; [done|]. intros t Ht. apply slot_targets_elem in Ht. by apply (by_period_elem _ _ _ l).
    + intros s s' Hs Hs'.
      apply build_group_slot in Hs as (k & o & ? & ? & ? & Hk%lookup_lt_Some & -> & _).
      apply build_group_slot in Hs' as (k' & o' & ? & ? & ? & Hk'%lookup_lt_Some & -> & _).
      by apply slot_targets_balanced.
Qed.
