(* ===== verification/Incremental.v ===== *)
(** * monitor/incremental.rs

    The queue of versioned target updates and its application to the live target list. The
    [Deserialize] implementation derived for [Target] is generated code: it is the parameter
    [target_of_json] of every operation that decodes a change. *)

From Stdlib Require Import Sorted.
From S2P Require Import Prelude Ints Str Json Grouping.
Open Scope Z_scope.

(** ** Data *)

Record IncrementalUpdate : Type := mkUpdate {
  version : Z;
  changes : list json;
  full_rebuild_required : bool;
}.

Definition update_from_json (v : json) : option IncrementalUpdate :=
  match get v "version" ≫= json_as_i64 with
  | None => None
  | Some version =>
      let changes := unwrap_or (get v "changes" ≫= json_as_array) [] in
      let full := unwrap_or (get v "full_rebuild_required" ≫= json_as_bool) false in
      Some (mkUpdate version changes full)
  end.

Inductive Pending : Type :=
| FullRebuild (u : IncrementalUpdate)
| Incremental (u : IncrementalUpdate).

Record ApplyResult : Type := mkApplyResult {
  needs_regroup : bool;
  full_rebuild : bool;
  changes_applied : Z;
}.

Record IncrementalUpdateManager : Type := mkManager {
  pending : list Pending;
  current_version : Z;
  highest_queued_version : Z;
}.

(** ** Operations *)

Definition manager_new : IncrementalUpdateManager := mkManager [] 0 0.

Definition queue (m : IncrementalUpdateManager) (u : IncrementalUpdate) : IncrementalUpdateManager * bool :=
  let floor := Z.max (current_version m) (highest_queued_version m) in
  if version u <=? floor then (m, false)
  else if full_rebuild_required u
  then (mkManager [FullRebuild u] (current_version m) (version u), true)
  else (mkManager (pending m ++ [Incremental u]) (current_version m) (version u), true).

Definition has_pending (m : IncrementalUpdateManager) : bool :=
  match pending m with [] => false | _ => true end.

(** [iter_mut().find(f)] followed by a write through the reference. *)
Fixpoint replace_first {A : Type} (f : A -> bool) (t : A) (l : list A) : option (list A) :=
  match l with
  | [] => None
  | x :: l' => if f x then Some (t :: l') else cons x <$> replace_first f t l'
  end.

Definition opt_Z_eqb (a b : option Z) : bool :=
  match a, b with
  | Some x, Some y => x =? y
  | None, None => true
  | _, _ => false
  end.

Section apply.
Context (target_of_json : json -> option Target).

Definition apply_change (targets : list Target) (change : json) : list Target * bool :=
  let op := unwrap_or (get change "operation" ≫= json_as_str) ""%string in
  let target_id := get change "target_id" ≫= json_as_i64 in
  if str_eqb op "add" then
    match get change "target_data" ≫= target_of_json with
    | Some t =>
        ((retain (fun x => negb (opt_Z_eqb (id x) (id t)) || negb (str_eqb (url x) (url t))) targets
          ++ [t])%list, true)
    | None => (targets, false)
    end
  else if str_eqb op "remove" then
    let targets' :=
      match target_id with
      | Some id' => retain (fun x => negb (opt_Z_eqb (id x) (Some id'))) targets
      | None =>
          match (get change "target_data" ≫= fun d => get d "url") ≫= json_as_str with
          | Some u => retain (fun x => negb (str_eqb (url x) u)) targets
          | None => targets
          end
      end in
    (targets', negb (length targets' =? length targets)%nat)
  else if str_eqb op "modify" then
    match get change "target_data" ≫= target_of_json with
    | Some t =>
        match replace_first (fun x => (bool_decide (is_Some target_id) && opt_Z_eqb (id x) target_id)
                                      || str_eqb (url x) (url t)) t targets with
        | Some targets' => (targets', true)
        | None => ((targets ++ [t])%list, true)
        end
    | None => (targets, false)
    end
  else (targets, false).

Definition apply_changes (cs : list json) (targets : list Target) (r : ApplyResult) : list Target * ApplyResult :=
  foldl (fun '(ts, r) c =>
           match apply_change ts c with
           | (ts', true) => (ts', mkApplyResult true (full_rebuild r) (changes_applied r + 1))
           | (ts', false) => (ts', r)
           end) (targets, r) cs.

(** The [while let] loop, structural on the queue it pops. *)
Fixpoint apply_loop (q : list Pending) (current : Z) (targets : list Target) (r : ApplyResult)
    : Z * list Target * ApplyResult :=
  match q with
  | [] => (current, targets, r)
  | FullRebuild u :: _ =>
      (Z.max (version u) current, targets, mkApplyResult true true (changes_applied r))
  | Incremental u :: q' =>
      let '(targets, r) := apply_changes (changes u) targets r in
      apply_loop q' (Z.max (version u) current) targets r
  end.

Definition result_default : ApplyResult := mkApplyResult false false 0.

(** Both exits of the loop leave the queue empty. *)
Definition apply (m : IncrementalUpdateManager) (targets : list Target)
    : IncrementalUpdateManager * list Target * ApplyResult :=
  let '(current, targets, r) := apply_loop (pending m) (current_version m) targets result_default in
  (mkManager [] current (highest_queued_version m), targets, r).

End apply.

(** ** Specification

    Which updates of a stream are accepted above a floor (the strict running maxima of the
    versions), and what a drain of the accepted ones does. *)

Fixpoint accepted (floor : Z) (us : list IncrementalUpdate) : list IncrementalUpdate :=
  match us with
  | [] => []
  | u :: us' => if version u <=? floor then accepted floor us' else u :: accepted (version u) us'
  end.

Fixpoint last_rebuild (us : list IncrementalUpdate) : option IncrementalUpdate :=
  match us with
  | [] => None
  | u :: us' =>
      match last_rebuild us' with
      | Some v => Some v
      | None => if full_rebuild_required u then Some u else None
      end
  end.

Definition last_version (floor : Z) (us : list IncrementalUpdate) : Z := foldl (fun _ u => version u) floor us.

Definition queue_all (m : IncrementalUpdateManager) (us : list IncrementalUpdate) : IncrementalUpdateManager :=
  foldl (fun m u => fst (queue m u)) m us.

(** The drain, written on the accepted updates: one rebuild discards the target work of all. *)
Definition drain_spec (dec : json -> option Target) (current : Z) (us : list IncrementalUpdate) (ts : list Target)
    : Z * list Target * ApplyResult :=
  match last_rebuild us with
  | Some u => (version u, ts, mkApplyResult true true 0)
  | None =>
      let '(ts', r) := apply_changes dec (concat (changes <$> us)) ts result_default in
      (last_version current us, ts', r)
  end.

(** The version gate's invariant: queued versions strictly increase from the applied version to
    the highest accepted one, and a rebuild can only be at the head. *)
Definition pending_update (p : Pending) : IncrementalUpdate :=
  match p with FullRebuild u | Incremental u => u end.

Definition is_incremental (p : Pending) : Prop :=
  match p with Incremental u => full_rebuild_required u = false | FullRebuild _ => False end.

Definition manager_ok (m : IncrementalUpdateManager) : Prop :=
  current_version m <= highest_queued_version m /\
  StronglySorted Z.lt (version ∘ pending_update <$> pending m) /\
  Forall (fun p => current_version m < version (pending_update p) <= highest_queued_version m) (pending m) /\
  Forall is_incremental (tail (pending m)).

(** ** Lemmas *)

Lemma opt_Z_eqb_eq (a b : option Z) : opt_Z_eqb a b = true <-> a = b.
Proof.
  destruct a, b; simpl; rewrite ?Z.eqb_eq; naive_solver.
Qed.

Lemma apply_changes_app (dec : json -> option Target) (c1 c2 : list json) (ts : list Target) (r : ApplyResult) :
  apply_changes dec (c1 ++ c2) ts r =
  let '(ts', r') := apply_changes dec c1 ts r in apply_changes dec c2 ts' r'.
Proof.
  unfold apply_changes. rewrite foldl_app.
  by destruct (foldl _ (ts, r) c1).
Qed.

Lemma last_version_app (floor : Z) (us vs : list IncrementalUpdate) :
  last_version floor (us ++ vs) = last_version (last_version floor us) vs.
Proof. apply foldl_app. Qed.

Lemma accepted_app (floor : Z) (us vs : list IncrementalUpdate) :
  accepted floor (us ++ vs) = (accepted floor us ++ accepted (last_version floor (accepted floor us)) vs)%list.
Proof.
  revert floor. induction us as [|u us IH]; intros floor; simpl; [done|].
  destruct (version u <=? floor); [apply IH|]. simpl. by rewrite IH.
Qed.

Lemma accepted_sorted (floor : Z) (us : list IncrementalUpdate) :
  StronglySorted Z.lt (version <$> accepted floor us) /\ Forall (fun u => floor < version u) (accepted floor us).
Proof.
  revert floor. induction us as [|u us IH]; intros floor; simpl; [split; constructor|].
  destruct (Z.leb_spec (version u) floor); [apply IH|].
  destruct (IH (version u)) as [IH1 IH2]. split.
  - rewrite fmap_cons. constructor; [done|]. by apply Forall_fmap.
  - constructor; [done|]. eapply Forall_impl; [exact IH2|]. simpl. lia.
Qed.

Lemma last_rebuild_app (us vs : list IncrementalUpdate) :
  last_rebuild (us ++ vs) = match last_rebuild vs with Some v => Some v | None => last_rebuild us end.
Proof.
  induction us as [|u us IH]; simpl; [by destruct (last_rebuild vs)|].
  rewrite IH. by destruct (last_rebuild vs).
Qed.

Lemma last_version_max (floor : Z) (us : list IncrementalUpdate) :
  Forall (fun u => floor < version u) us -> StronglySorted Z.lt (version <$> us) ->
  floor <= last_version floor us /\ Forall (fun u => version u <= last_version floor us) us.
Proof.
  revert floor. induction us as [|u us IH]; intros floor Hf Hs; [split; [simpl; lia|constructor]|].
  apply sorted_fmap_cons in Hs as [Hs' Hlt]. inversion Hf; subst.
  destruct (IH (version u) Hlt Hs') as [Hle Hall].
  unfold last_version in *. simpl. split; [lia|]. constructor; [done|exact Hall].
Qed.

(** What the queue holds after a stream: the suffix of the accepted updates from the last
    rebuild on, the rebuild first. *)
Fixpoint queue_contents (q : list Pending) (us : list IncrementalUpdate) : list Pending :=
  match us with
  | [] => q
  | u :: us' => queue_contents (if full_rebuild_required u then [FullRebuild u] else (q ++ [Incremental u])%list) us'
  end.

Lemma queue_all_spec (m : IncrementalUpdateManager) (us : list IncrementalUpdate) :
  current_version m <= highest_queued_version m ->
  let acc := accepted (highest_queued_version m) us in
  queue_all m us =
  mkManager (queue_contents (pending m) acc) (current_version m) (last_version (highest_queued_version m) acc).
Proof.
  revert m. induction us as [|u us IH]; intros [q c h]; simpl; intros Hc; [done|].
  unfold queue. simpl. rewrite Z.max_r by done.
  destruct (Z.leb_spec (version u) h); simpl; [by apply IH|].
  destruct (full_rebuild_required u); rewrite IH by (simpl; lia); done.
Qed.

Lemma apply_loop_incr (dec : json -> option Target) (us : list IncrementalUpdate) (q : list Pending) (c : Z)
    (ts : list Target) (r : ApplyResult) :
  Forall (fun u => c < version u) us -> StronglySorted Z.lt (version <$> us) ->
  apply_loop dec ((Incremental <$> us) ++ q) c ts r =
  let '(ts', r') := apply_changes dec (concat (changes <$> us)) ts r in
  apply_loop dec q (last_version c us) ts' r'.
Proof.
  revert c ts r. induction us as [|u us IH]; intros c ts r Hf Hs; [done|].
  inversion Hf; subst. apply sorted_fmap_cons in Hs as [Hs' Hlt].
  rewrite !fmap_cons. simpl concat. rewrite apply_changes_app. simpl.
  destruct (apply_changes dec (changes u) ts r) as [ts1 r1].
  rewrite Z.max_l by lia. by rewrite IH.
Qed.

Lemma queue_contents_spec (q : list Pending) (us : list IncrementalUpdate) :
  match last_rebuild us with
  | None => queue_contents q us = (q ++ (Incremental <$> us))%list
  | Some v => exists vs, queue_contents q us = FullRebuild v :: (Incremental <$> vs)
  end.
Proof.
  revert q. induction us as [|u us IH]; intros q; simpl; [by rewrite app_nil_r|].
  specialize (IH (if full_rebuild_required u then [FullRebuild u] else (q ++ [Incremental u])%list)).
  destruct (last_rebuild us) as [v|]; [done|].
  destruct (full_rebuild_required u).
  - exists us. by rewrite IH.
  - by rewrite IH, <-(assoc_L app).
Qed.

Lemma last_rebuild_elem (us : list IncrementalUpdate) (u : IncrementalUpdate) :
  last_rebuild us = Some u -> u ∈ us /\ full_rebuild_required u = true.
Proof.
  induction us as [|v us IH]; simpl; [done|]. rewrite elem_of_cons.
  destruct (last_rebuild us); [intros [= ->]; naive_solver|].
  destruct (full_rebuild_required v) eqn:E; [|done]. intros [= ->]. auto.
Qed.

Lemma drain_queue (dec : json -> option Target) (m : IncrementalUpdateManager) (us : list IncrementalUpdate)
    (ts : list Target) :
  pending m = [] -> current_version m <= highest_queued_version m ->
  let acc := accepted (highest_queued_version m) us in
  apply dec (queue_all m us) ts =
  let '(c, ts', r) := drain_spec dec (current_version m) acc ts in
  (mkManager [] c (last_version (highest_queued_version m) acc), ts', r).
Proof.
  intros Hq Hc acc. rewrite queue_all_spec by done. fold acc. rewrite Hq.
  destruct (accepted_sorted (highest_queued_version m) us) as [Hs Hf]. fold acc in Hs, Hf.
  assert (Hf' : Forall (fun u => current_version m < version u) acc).
  { eapply Forall_impl; [exact Hf|]. simpl. lia. }
  unfold apply, drain_spec. cbn [pending current_version highest_queued_version].
  pose proof (queue_contents_spec [] acc) as Hqc.
  destruct (last_rebuild acc) as [v|] eqn:El.
  - destruct Hqc as [vs ->]. simpl. apply last_rebuild_elem in El as [Hv _].
    rewrite Forall_forall in Hf'. specialize (Hf' v Hv). by rewrite Z.max_l by lia.
  - rewrite Hqc. simpl. rewrite <-(app_nil_r (Incremental <$> acc)).
    rewrite apply_loop_incr by done.
    by destruct (apply_changes dec (concat (changes <$> acc)) ts result_default).
Qed.

Lemma apply_change_false (dec : json -> option Target) (ts : list Target) (c : json) :
  snd (apply_change dec ts c) = false -> fst (apply_change dec ts c) = ts.
Proof.
  unfold apply_change. destruct (str_eqb _ "add").
  - by destruct (get c "target_data" ≫= dec).
  - destruct (str_eqb _ "remove").
    + simpl. intros H. apply negb_false_iff, Nat.eqb_eq in H.
      destruct (get c "target_id" ≫= json_as_i64).
      * by apply retain_length_eq.
      * destruct (_ ≫= json_as_str); [by apply retain_length_eq|done].
    + destruct (str_eqb _ "modify"); [|done].
      destruct (get c "target_data" ≫= dec); [|done]. by destruct (replace_first _ _ _).
Qed.

Lemma sorted_snoc {A : Type} (f : A -> Z) (l : list A) (a : A) :
  StronglySorted Z.lt (f <$> l) -> Forall (fun x => f x < f a) l -> StronglySorted Z.lt (f <$> (l ++ [a])%list).
Proof.
  induction l as [|b l IH]; intros Hs Hf; [by repeat constructor|].
  apply sorted_fmap_cons in Hs as [Hs Hb]. inversion Hf; subst. simpl app.
  apply sorted_fmap_cons. split; [by apply IH|]. apply Forall_app. split; [done|by constructor].
Qed.

Lemma queue_ok (m : IncrementalUpdateManager) (u : IncrementalUpdate) :
  manager_ok m -> manager_ok (fst (queue m u)).
Proof.
  intros (Hc & Hs & Hb & Hi). unfold queue. rewrite Z.max_r by done.
  destruct (Z.leb_spec (version u) (highest_queued_version m)); [done|].
  destruct (full_rebuild_required u) eqn:Eu; unfold manager_ok; simpl.
  - split_and!; [lia|by repeat constructor| |constructor]. constructor; [simpl; lia|constructor].
  - split_and!; [lia| | |].
    + apply sorted_snoc; [done|]. eapply Forall_impl; [exact Hb|]. simpl. lia.
    + apply Forall_app. split; [|by constructor; [simpl; lia|]].
      eapply Forall_impl; [exact Hb|]. simpl. lia.
    + destruct (pending m) as [|p ps]; [constructor|]. simpl. apply Forall_app. split; [done|by constructor].
Qed.

Lemma apply_loop_version (dec : json -> option Target) (h : Z) (q : list Pending) (c : Z) (ts : list Target) (r : ApplyResult) :
  c <= h -> Forall (fun p => version (pending_update p) <= h) q ->
  c <= fst (fst (apply_loop dec q c ts r)) <= h.
Proof.
  revert c ts r. induction q as [|p q IH]; intros c ts r Hc Hf; [simpl; lia|].
  inversion Hf as [|? ? Hp Hq]; subst. destruct p as [u|u]; simpl in *; [lia|].
  destruct (apply_changes dec (changes u) ts r) as [ts' r'].
  specialize (IH (Z.max (version u) c) ts' r' ltac:(lia) Hq). lia.
Qed.

Lemma apply_manager (dec : json -> option Target) (m : IncrementalUpdateManager) (ts : list Target) :
  manager_ok m ->
  let m' := fst (fst (apply dec m ts)) in
  pending m' = [] /\ highest_queued_version m' = highest_queued_version m /\
  current_version m <= current_version m' <= highest_queued_version m.
Proof.
  intros (Hc & _ & Hb & _). unfold apply.
  pose proof (apply_loop_version dec (highest_queued_version m) (pending m) (current_version m) ts result_default Hc) as H.
  destruct (apply_loop _ _ _ _ _) as [[c ts'] r]. simpl in *. split_and!; try done; apply H;
    (eapply Forall_impl; [exact Hb|]; simpl; lia).
Qed.

Lemma replace_first_elem {A : Type} (f : A -> bool) (t : A) (l l' : list A) :
  replace_first f t l = Some l' -> t ∈ l'.
Proof.
  revert l'. induction l as [|a l IH]; intros l'; simpl; [done|].
  destruct (f a); [intros [= <-]; by left|].
  destruct (replace_first f t l) as [k|]; simpl; [|done]. intros [= <-]. right. by apply IH.
Qed.

Lemma removed_iff (i : Z) (ts : list Target) :
  negb (length (retain (fun x => negb (opt_Z_eqb (id x) (Some i))) ts) =? length ts)%nat = true <->
  exists x, x ∈ ts /\ id x = Some i.
Proof.
  rewrite negb_true_iff, Nat.eqb_neq. split.
  - intros Hne. destruct (any (fun x => opt_Z_eqb (id x) (Some i)) ts) eqn:E.
    + apply any_true in E as (x & Hx & Hi). exists x. by rewrite opt_Z_eqb_eq in Hi.
    + destruct Hne. f_equal. apply retain_all. intros x Hx. apply negb_true_iff.
      rewrite any_false in E. by apply E.
  - intros (x & Hx & Hi) Hl. apply retain_length_eq in Hl. rewrite <-Hl in Hx.
    apply elem_of_retain in Hx as [Hx _]. apply negb_true_iff, not_true_iff_false in Hx.
    by rewrite opt_Z_eqb_eq in Hx.
Qed.

(** ** Properties *)

(** The update protocol, end to end: draining the queue after any stream of updates, in any
    arrival order, does exactly what the specification says. The accepted updates are those whose
    version exceeds every version accepted before; with no rebuild among them all their changes are
    applied to the target list once each and in version order, and the applied version becomes the last accepted
    one; with a rebuild the target list is left alone, the caller is told to rebuild, and the
    applied version is that of the last rebuild. *)
Theorem queue_then_apply_spec (dec : json -> option Target) (m : IncrementalUpdateManager)
    (us : list IncrementalUpdate) (ts : list Target) :
  pending m = [] -> current_version m <= highest_queued_version m ->
  let acc := accepted (highest_queued_version m) us in
  StronglySorted Z.lt (version <$> acc) /\
  apply dec (queue_all m us) ts =
  let '(c, ts', r) := drain_spec dec (current_version m) acc ts in
  (mkManager [] c (last_version (highest_queued_version m) acc), ts', r).
Proof.
  intros Hq Hc acc. split; [apply accepted_sorted|by apply drain_queue].
Qed.

Definition sample_update (v : Z) (full : bool) : IncrementalUpdate :=
  mkUpdate v [JObj [("operation"%string, JStr "remove"); ("target_id"%string, json_of_Z v)]] full.

Lemma queue_then_apply_spec_witness :
  exists m', apply (fun _ => None) (queue_all manager_new [sample_update 5 false; sample_update 3 false; sample_update 6 false])
    [mkTarget (Some 3) "c" "content" None false None None None None true [];
     mkTarget (Some 5) "e" "content" None false None None None None true []] =
  (m', [mkTarget (Some 3) "c" "content" None false None None None None true []], mkApplyResult true false 1)
  /\ current_version m' = 6.
Proof.
  eexists. split.
  - refine (eq_trans (proj2 (queue_then_apply_spec _ manager_new _ _ _ _)) _);
      [reflexivity|vm_compute; discriminate|vm_compute; reflexivity].
  - reflexivity.
Defined.

(** The version gate's invariant: from the empty manager, queueing and draining in any order keep
    the applied version at most the highest accepted one and the queued versions strictly
    increasing in between, with a rebuild only at the head; and the applied version never
    decreases. *)
Theorem manager_invariant (dec : json -> option Target) (m : IncrementalUpdateManager) :
  manager_ok manager_new /\
  (manager_ok m ->
     (forall u, manager_ok (fst (queue m u))) /\
     (forall ts, let m' := fst (fst (apply dec m ts)) in
        manager_ok m' /\ has_pending m' = false /\ current_version m <= current_version m' /\
        forall u, snd (queue m' u) = true -> highest_queued_version m < version u)).
Proof.
  split; [by repeat constructor|]. intros Hm. split; [intros u; by apply queue_ok|].
  intros ts m'. destruct (apply_manager dec m ts Hm) as (Hp & Hh & Hv). fold m' in Hp, Hh, Hv.
  unfold manager_ok, has_pending, queue. rewrite Hp, Hh. split_and!; try done; try lia; try constructor.
  intros u. destruct (Z.leb_spec (version u) (Z.max (current_version m') (highest_queued_version m))); [done|lia].
Qed.

Lemma manager_invariant_witness :
  let m := fst (queue manager_new (sample_update 5 true)) in
  manager_ok m /\ manager_ok (fst (queue m (sample_update 7 false))).
Proof.
  destruct (manager_invariant (fun _ => None) manager_new) as [H0 H1].
  destruct (manager_invariant (fun _ => None) (fst (queue manager_new (sample_update 5 true)))) as [_ H2].
  pose proof (proj1 (H1 H0) (sample_update 5 true)) as H3.
  split; [exact H3|]. exact (proj1 (H2 H3) (sample_update 7 false)).
Defined.

(** A rebuild swallows what was queued behind it: an update accepted after a rebuild, before the
    drain, is neither applied by the drain nor accepted again when the coordinator re-sends it. *)
Theorem update_behind_rebuild_is_lost (dec : json -> option Target) (m : IncrementalUpdateManager)
    (r u : IncrementalUpdate) (ts : list Target) :
  pending m = [] -> current_version m <= highest_queued_version m ->
  highest_queued_version m < version r -> version r < version u ->
  full_rebuild_required r = true -> full_rebuild_required u = false ->
  let '(m1, accepted_r) := queue m r in
  let '(m2, accepted_u) := queue m1 u in
  let '(m3, ts', result) := apply dec m2 ts in
  accepted_r = true /\ accepted_u = true /\ ts' = ts /\ changes_applied result = 0 /\
  current_version m3 = version r /\ queue m3 u = (m3, false).
Proof.
  intros Hq Hc Hr Hu Er Eu. unfold queue. rewrite Z.max_r by done.
  destruct (Z.leb_spec (version r) (highest_queued_version m)); [lia|]. rewrite Er. simpl.
  rewrite Z.max_r by lia. destruct (Z.leb_spec (version u) (version r)); [lia|]. rewrite Eu. simpl.
  rewrite !Z.max_l by lia. split_and!; try done.
  destruct (Z.leb_spec (version u) (Z.max (version r) (version u))); [done|lia].
Qed.

Lemma update_behind_rebuild_is_lost_witness :
  let '(m1, a1) := queue manager_new (sample_update 5 true) in
  let '(m2, a2) := queue m1 (sample_update 6 false) in
  let '(m3, ts', result) := apply (fun _ => None) m2 [] in
  a1 = true /\ a2 = true /\ ts' = [] /\ changes_applied result = 0 /\
  current_version m3 = 5 /\ queue m3 (sample_update 6 false) = (m3, false).
Proof.
  exact (update_behind_rebuild_is_lost (fun _ => None) manager_new (sample_update 5 true)
           (sample_update 6 false) [] eq_refl ltac:(vm_compute; discriminate) eq_refl eq_refl eq_refl eq_refl).
Defined.

(** What one change does to the target list: a change that reports nothing applied leaves the
    list as it was; an [add] keeps exactly the targets that differ from the new one in id or in
    url (so a known id under a new url is kept beside it) and appends it; a [remove] by id keeps
    exactly the others; a [modify] puts the decoded target in the list. *)
Theorem apply_change_effect (dec : json -> option Target) (ts : list Target) (c : json) :
  let op := get c "operation" ≫= json_as_str in
  let '(ts', changed) := apply_change dec ts c in
  (changed = false -> ts' = ts) /\
  (forall t, op = Some "add"%string -> get c "target_data" ≫= dec = Some t ->
     changed = true /\ last ts' = Some t /\
     forall x, x ∈ ts' <-> x = t \/ x ∈ ts /\ (id x <> id t \/ url x <> url t)) /\
  (forall i, op = Some "remove"%string -> get c "target_id" ≫= json_as_i64 = Some i ->
     (forall x, x ∈ ts' <-> x ∈ ts /\ id x <> Some i) /\
     (changed = true <-> exists x, x ∈ ts /\ id x = Some i)) /\
  (forall t, op = Some "modify"%string -> get c "target_data" ≫= dec = Some t ->
     changed = true /\ t ∈ ts').
Proof.
  intros op. pose proof (apply_change_false dec ts c) as Hf.
  destruct (apply_change dec ts c) as [ts' changed] eqn:E. split; [done|]. clear Hf.
  unfold apply_change in E. fold op in E. split_and!.
  - intros t Hop Ht. rewrite Hop, Ht in E. simpl in E; injection E as <- <-.
    split; [done|]. split; [by apply last_snoc|]. intros x.
    rewrite elem_of_app, list_elem_of_singleton, elem_of_retain, orb_true_iff, !negb_true_iff,
      <-!not_true_iff_false, opt_Z_eqb_eq, str_eqb_eq. tauto.
  - intros i Hop Hi. rewrite Hop, Hi in E. simpl in E. injection E as <- <-. split.
    + intros x. rewrite elem_of_retain, negb_true_iff, <-not_true_iff_false, opt_Z_eqb_eq. tauto.
    + apply removed_iff.
  - intros t Hop Ht. rewrite Hop, Ht in E. simpl in E.
    destruct (replace_first _ t ts) as [ts1|] eqn:Er; injection E as <- <-; split; try done.
    + by eapply replace_first_elem.
    + apply elem_of_app. right. by left.
Qed.
