(* ===== verification/WorkflowSched.v ===== *)
(** * monitor/workflow_scheduler.rs

    Scheduled workflows: one slot-aligned scheduler per workflow id and the set of running ids.
    The [HashMap] and the [HashSet] are a [gmap] and a [gset]; their iteration order, which the
    code leaves open, is the one of [map_to_list]. A clock reading taken once per entry is a
    function of the entry's id, or of its position in the frame. *)

From S2P Require Import Prelude Ints F64 Str Json Scheduler.
Open Scope Z_scope.

Record WorkflowEntry : Type := mkEntry {
  scheduler : TimeSlot.TimeSlotScheduler;
  interval_ms : Z;
  offset_ms : Z;
  data : json;
}.

Record WorkflowScheduler : Type := mkWorkflows {
  sync_epoch_ms : Z;
  entries : gmap Z WorkflowEntry;
  running : gset Z;
}.

Definition workflows_new : WorkflowScheduler := mkWorkflows 0 ∅ ∅.

Definition wf_id (wf : json) : option Z := get wf "id" ≫= json_as_i64.

Definition wf_interval (wf : json) : Z :=
  clamp MIN_PERIOD_MS MAX_PERIOD_MS (unwrap_or (get wf "schedule_interval_ms" ≫= json_as_i64) 60000).

Definition wf_offset (wf : json) : Z :=
  clamp (- MAX_PERIOD_MS) MAX_PERIOD_MS (unwrap_or (get wf "time_slot_offset_ms" ≫= json_as_i64) 0).

(** The body of the loop over the frame's workflows, for workflow number [i] of the frame; the
    epoch is already clamped. *)
Definition update_entry (clk : nat -> Z * Z * Z) (epoch : Z) (es : gmap Z WorkflowEntry) (active : gset Z)
    (i : nat) (wf : json) : gmap Z WorkflowEntry * gset Z :=
  match wf_id wf with
  | None => (es, active)
  | Some wid =>
      let interval := wf_interval wf in
      let offset := wf_offset wf in
      let fresh :=
        let '(t0, t1, t2) := clk i in
        mkEntry (TimeSlot.new interval offset (Some epoch) false f64_zero None t0 t1 t2) interval offset wf in
      let entry :=
        match es !! wid with
        | Some entry =>
            if (interval_ms entry =? interval) && (offset_ms entry =? offset)
            then mkEntry (scheduler entry) (interval_ms entry) (offset_ms entry) wf
            else fresh
        | None => fresh
        end in
      (<[wid := entry]> es, {[wid]} ∪ active)
  end.

Fixpoint update_entries (clk : nat -> Z * Z * Z) (epoch : Z) (es : gmap Z WorkflowEntry) (active : gset Z)
    (i : nat) (wfs : list json) : gmap Z WorkflowEntry * gset Z :=
  match wfs with
  | [] => (es, active)
  | wf :: wfs' =>
      let '(es, active) := update_entry clk epoch es active i wf in
      update_entries clk epoch es active (S i) wfs'
  end.

Definition update_workflows (clk : nat -> Z * Z * Z) (w : WorkflowScheduler) (wfs : list json) (epoch : Z)
    : WorkflowScheduler :=
  let epoch := clamp 0 MAX_EPOCH_MS epoch in
  let '(es, active) := update_entries clk epoch (entries w) ∅ 0 wfs in
  mkWorkflows epoch (filter (fun '(k, _) => k ∈ active) es) (filter (fun k => k ∈ active) (running w)).

Definition wf_next_due_in_ms (w : WorkflowScheduler) (now : Z -> Z) : Z :=
  let l := (fun '(k, e) => TimeSlot.time_until_next_run_ms (scheduler e) (now k))
             <$> retain (fun '(k, _) => negb (bool_decide (k ∈ running w))) (map_to_list (entries w)) in
  match l with
  | [] => i64_max
  | t :: ts => foldl Z.min t ts
  end.

Definition due (w : WorkflowScheduler) (now : Z -> Z) : list Z :=
  fst <$> retain (fun '(k, e) => negb (bool_decide (k ∈ running w)) && TimeSlot.should_run (scheduler e) (now k))
            (map_to_list (entries w)).

Definition workflow_data (w : WorkflowScheduler) (k : Z) : option json := data <$> entries w !! k.

Definition mark_running (w : WorkflowScheduler) (k : Z) : WorkflowScheduler :=
  mkWorkflows (sync_epoch_ms w) (entries w) ({[k]} ∪ running w).

Definition mark_completed (w : WorkflowScheduler) (k now_last now_next : Z) : WorkflowScheduler :=
  mkWorkflows (sync_epoch_ms w)
    (alter (fun e => mkEntry (TimeSlot.mark_completed (scheduler e) 0 now_last now_next)
                       (interval_ms e) (offset_ms e) (data e)) k (entries w))
    (running w ∖ {[k]}).

(** ** Specification *)

(** The last workflow of the frame with this id: later ones overwrite earlier ones. *)
Fixpoint last_with_id (k : Z) (wfs : list json) : option json :=
  match wfs with
  | [] => None
  | wf :: wfs' =>
      match last_with_id k wfs' with
      | Some w => Some w
      | None => if bool_decide (wf_id wf = Some k) then Some wf else None
      end
  end.

(** Every entry's interval and offset are within the scheduler's bounds and are the ones its
    scheduler, which has no jitter of its own, runs on. *)
Definition entry_ok (e : WorkflowEntry) : Prop :=
  params_ok (interval_ms e) (offset_ms e) (TimeSlot.sync_epoch_ms (scheduler e)) /\
  TimeSlot.period_ms (scheduler e) = interval_ms e /\
  TimeSlot.time_slot_offset_ms (scheduler e) = offset_ms e /\
  TimeSlot.jitter_percent (scheduler e) = f64_zero.

Definition workflows_ok (w : WorkflowScheduler) : Prop :=
  0 <= sync_epoch_ms w <= MAX_EPOCH_MS /\ map_Forall (fun _ e => entry_ok e) (entries w).

(** ** Lemmas *)

Lemma new_entry_ok (wf : json) (epoch t0 t1 t2 : Z) :
  0 <= epoch <= MAX_EPOCH_MS ->
  entry_ok (mkEntry (TimeSlot.new (wf_interval wf) (wf_offset wf) (Some epoch) false f64_zero None t0 t1 t2)
              (wf_interval wf) (wf_offset wf) wf).
Proof.
  intros He. unfold entry_ok, params_ok. cbn [scheduler interval_ms offset_ms].
  assert (Hi : MIN_PERIOD_MS <= wf_interval wf <= MAX_PERIOD_MS)
    by (apply clamp_bounds; vm_compute; discriminate).
  assert (Ho : - MAX_PERIOD_MS <= wf_offset wf <= MAX_PERIOD_MS)
    by (apply clamp_bounds; vm_compute; discriminate).
  unfold TimeSlot.new.
  match goal with |- context [TimeSlot.calculate_next_run ?s ?j ?n] =>
    destruct (calculate_next_run_params s j n) as (-> & -> & -> & ->) end.
  cbn. rewrite !clamp_id by done. split_and!; try done; lia.
Qed.

Lemma update_entries_lookup (clk : nat -> Z * Z * Z) (epoch : Z) (wfs : list json) :
  forall es active i es' active',
  update_entries clk epoch es active i wfs = (es', active') ->
  (forall k, k ∈ active' <-> k ∈ active \/ is_Some (last_with_id k wfs)) /\
  (forall k, match last_with_id k wfs with
             | None => es' !! k = es !! k
             | Some wf => exists e, es' !! k = Some e /\ data e = wf /\
                 interval_ms e = wf_interval wf /\ offset_ms e = wf_offset wf
             end).
Proof.
  induction wfs as [|wf wfs IH]; intros es active i es' active'; simpl.
  { intros [= <- <-]. split; [|done]. intros k. rewrite is_Some_alt. tauto. }
  unfold update_entry. destruct (wf_id wf) as [wid|] eqn:Eid.
  2: { intros H. apply IH in H as [H1 H2]. split; intros k; [rewrite H1|specialize (H2 k)];
         rewrite bool_decide_eq_false_2 by done; by destruct (last_with_id k wfs). }
  set (entry := match es !! wid with Some _ => _ | None => _ end).
  assert (Hentry : data entry = wf /\ interval_ms entry = wf_interval wf /\ offset_ms entry = wf_offset wf).
  { unfold entry. destruct (clk i) as [[t0 t1] t2].
    destruct (es !! wid) as [e|]; [|done].
    destruct (Z.eqb_spec (interval_ms e) (wf_interval wf)); simpl; [|done].
    by destruct (Z.eqb_spec (offset_ms e) (wf_offset wf)). }
  clearbody entry. intros H. apply IH in H as [H1 H2]. split; intros k.
  - rewrite H1, elem_of_union, elem_of_singleton.
    destruct (last_with_id k wfs) as [w|]; [naive_solver|].
    case_bool_decide as E; rewrite !is_Some_alt; naive_solver.
  - specialize (H2 k). destruct (last_with_id k wfs) as [w|]; [done|].
    case_bool_decide as E.
    + injection E as ->. rewrite lookup_insert_eq in H2. by exists entry.
    + by rewrite lookup_insert_ne in H2 by congruence.
Qed.

Lemma update_entries_ok (clk : nat -> Z * Z * Z) (epoch : Z) (wfs : list json) :
  0 <= epoch <= MAX_EPOCH_MS ->
  forall es active i,
  map_Forall (fun _ e => entry_ok e) es ->
  map_Forall (fun _ e => entry_ok e) (fst (update_entries clk epoch es active i wfs)).
Proof.
  intros He. induction wfs as [|wf wfs IH]; intros es active i Hes; simpl; [done|].
  unfold update_entry. destruct (wf_id wf) as [wid|]; [|by apply IH]. apply IH.
  apply map_Forall_insert_2; [|done].
  pose proof (fun t0 t1 t2 => new_entry_ok wf epoch t0 t1 t2 He) as Hnew.
  destruct (clk i) as [[t0 t1] t2]. destruct (es !! wid) as [e|] eqn:El; [|apply Hnew].
  destruct (_ && _); [|apply Hnew]. exact (Hes wid e El).
Qed.

Lemma due_elem (w : WorkflowScheduler) (now : Z -> Z) (k : Z) :
  k ∈ due w now <->
  k ∉ running w /\ exists e, entries w !! k = Some e /\ TimeSlot.should_run (scheduler e) (now k) = true.
Proof.
  unfold due. rewrite list_elem_of_fmap. split.
  - intros ([k' e] & -> & H). apply elem_of_retain in H as [H He].
    apply andb_prop in H as [H1 H2]. apply negb_true_iff, bool_decide_eq_false_1 in H1.
    split; [done|]. exists e. by rewrite <-elem_of_map_to_list.
  - intros (Hr & e & He & Hs). exists (k, e). split; [done|]. apply elem_of_retain. split.
    + by rewrite bool_decide_eq_false_2, Hs.
    + by apply elem_of_map_to_list.
Qed.

Lemma mark_completed_ok (e : WorkflowEntry) (t1 t2 : Z) :
  entry_ok e ->
  entry_ok (mkEntry (TimeSlot.mark_completed (scheduler e) 0 t1 t2) (interval_ms e) (offset_ms e) (data e)).
Proof.
  unfold entry_ok, TimeSlot.mark_completed. cbn [scheduler interval_ms offset_ms].
  intros (Hp & H1 & H2 & H3).
  match goal with |- context [TimeSlot.calculate_next_run ?s ?j ?n] =>
    destruct (calculate_next_run_params s j n) as (-> & -> & -> & ->) end.
  done.
Qed.

(** A completed workflow's next run lies strictly after the reading it was computed at. *)
Lemma mark_completed_not_due (e : WorkflowEntry) (t1 t2 : Z) :
  entry_ok e -> clock_ok t2 ->
  TimeSlot.should_run (TimeSlot.mark_completed (scheduler e) 0 t1 t2) t2 = false.
Proof.
  intros (Hp & H1 & H2 & H3) Hc. unfold TimeSlot.should_run, TimeSlot.mark_completed.
  rewrite calculate_next_run_next; cbn; try done; [|by rewrite H1, H2].
  rewrite H1, H2. pose proof Hp as ([Hp1 Hp2] & _ & _). unfold MIN_PERIOD_MS in Hp1.
  destruct (base_exact_spec (interval_ms e) (offset_ms e) (TimeSlot.sync_epoch_ms (scheduler e)) t2 ltac:(lia)) as [Hb _].
  apply Z.leb_gt. unfold applied_jitter, clamp. rewrite max_safe_jitter_exact by done.
  assert (0 <= 4 * interval_ms e / 5) by zlia. lia.
Qed.

(** The operations of the scheduler and their traces. *)
Inductive wf_op : Type :=
| OpUpdate (clk : nat -> Z * Z * Z) (wfs : list json) (epoch : Z)
| OpRunning (k : Z)
| OpCompleted (k now_last now_next : Z).

Definition wf_step (w : WorkflowScheduler) (o : wf_op) : WorkflowScheduler :=
  match o with
  | OpUpdate clk wfs epoch => update_workflows clk w wfs epoch
  | OpRunning k => mark_running w k
  | OpCompleted k t1 t2 => mark_completed w k t1 t2
  end.

Definition wf_run (w : WorkflowScheduler) (os : list wf_op) : WorkflowScheduler := foldl wf_step w os.

(** An operation that neither completes the workflow nor unschedules it. *)
Definition keeps_running (k : Z) (o : wf_op) : bool :=
  match o with
  | OpUpdate _ wfs _ => bool_decide (is_Some (last_with_id k wfs))
  | OpRunning _ => true
  | OpCompleted k' _ _ => negb (k' =? k)
  end.

Lemma update_workflows_running (clk : nat -> Z * Z * Z) (w : WorkflowScheduler) (wfs : list json) (epoch k : Z) :
  k ∈ running (update_workflows clk w wfs epoch) <-> k ∈ running w /\ is_Some (last_with_id k wfs).
Proof.
  unfold update_workflows. destruct (update_entries _ _ _ _ _ _) as [es act] eqn:E.
  apply update_entries_lookup in E as [E _]. cbn [running].
  rewrite elem_of_filter, E, elem_of_empty. tauto.
Qed.

Lemma update_workflows_lookup (clk : nat -> Z * Z * Z) (w : WorkflowScheduler) (wfs : list json) (epoch k : Z) :
  match last_with_id k wfs with
  | None => entries (update_workflows clk w wfs epoch) !! k = None
  | Some wf => exists e, entries (update_workflows clk w wfs epoch) !! k = Some e /\ data e = wf /\
                 interval_ms e = wf_interval wf /\ offset_ms e = wf_offset wf
  end.
Proof.
  unfold update_workflows. destruct (update_entries _ _ _ _ _ _) as [es act] eqn:E.
  apply update_entries_lookup in E as [E1 E2]. specialize (E2 k). cbn [entries].
  destruct (last_with_id k wfs) as [wf|] eqn:El.
  - destruct E2 as (e & He & H). exists e. split; [|done].
    apply map_lookup_filter_Some. split; [done|]. apply E1. right. by rewrite El.
  - apply map_lookup_filter_None. right. intros e He Hk. apply E1 in Hk as [Hk|Hk].
    + set_solver.
    + rewrite El in Hk. by destruct Hk.
Qed.

Lemma wf_step_ok (w : WorkflowScheduler) (o : wf_op) : workflows_ok w -> workflows_ok (wf_step w o).
Proof.
  intros [He Hw]. destruct o as [clk wfs epoch|k|k t1 t2]; simpl; [|done|].
  - unfold update_workflows.
    assert (Hc : 0 <= clamp 0 MAX_EPOCH_MS epoch <= MAX_EPOCH_MS) by (apply clamp_bounds; vm_compute; discriminate).
    pose proof (update_entries_ok clk _ wfs Hc (entries w) ∅ 0 Hw) as H.
    destruct (update_entries _ _ _ _ _ _) as [es act]. split; [done|].
    intros k e Hk. apply map_lookup_filter_Some in Hk as [Hk _]. by apply (H k).
  - split; [done|]. intros k' e Hk. cbn [entries mark_completed] in Hk.
    apply lookup_alter_Some in Hk as [(-> & e' & Hk & ->)|[_ Hk]]; [|by apply (Hw k')].
    apply mark_completed_ok. by apply (Hw k').
Qed.

Lemma wf_run_ok (w : WorkflowScheduler) (os : list wf_op) : workflows_ok w -> workflows_ok (wf_run w os).
Proof. revert w. induction os as [|o os IH]; intros w Hw; [done|]. by apply IH, wf_step_ok. Qed.

Lemma wf_run_running (w : WorkflowScheduler) (os : list wf_op) (k : Z) :
  k ∈ running w -> all (keeps_running k) os = true -> k ∈ running (wf_run w os).
Proof.
  revert w. induction os as [|o os IH]; intros w Hk Hos; [done|].
  simpl in Hos. apply andb_prop in Hos as [Ho Hos]. apply IH; [|done].
  destruct o as [clk wfs epoch|k'|k' t1 t2]; simpl in *.
  - apply update_workflows_running. apply bool_decide_eq_true_1 in Ho. done.
  - set_solver.
  - apply negb_true_iff, Z.eqb_neq in Ho. set_solver.
Qed.

(** ** Properties *)

(** Reconciliation: after an [assign_workflows] frame the scheduled ids are exactly the frame's
    ids, each with the payload, interval and offset of its last occurrence; an id is still
    running exactly when it was running and the frame keeps it. *)
Theorem update_workflows_reconciles (clk : nat -> Z * Z * Z) (w : WorkflowScheduler) (wfs : list json) (epoch k : Z) :
  let w' := update_workflows clk w wfs epoch in
  workflow_data w' k = last_with_id k wfs /\
  (forall e, entries w' !! k = Some e ->
     interval_ms e = wf_interval (data e) /\ offset_ms e = wf_offset (data e)) /\
  (k ∈ running w' <-> k ∈ running w /\ is_Some (last_with_id k wfs)).
Proof.
  intros w'. pose proof (update_workflows_lookup clk w wfs epoch k) as H. fold w' in H.
  split; [|split; [|apply update_workflows_running]].
  - unfold workflow_data. destruct (last_with_id k wfs) as [wf|]; [|by rewrite H].
    destruct H as (e & -> & <- & _). done.
  - intros e He. destruct (last_with_id k wfs) as [wf|]; [|congruence].
    destruct H as (e' & He' & <- & H). rewrite He in He'. by injection He' as <-.
Qed.

(** Single flight: once launched, a workflow is not due again under any clock readings and any
    sequence of frames, launches and completions of other workflows, as long as no frame
    unschedules it; and its own completion arms its schedule strictly in the future. *)
Theorem workflow_single_flight (w : WorkflowScheduler) (k : Z) (os : list wf_op) (now : Z -> Z) :
  all (keeps_running k) os = true ->
  k ∉ due (wf_run (mark_running w k) os) now /\
  forall t1 t2, workflows_ok w -> clock_ok t2 ->
    k ∉ due (mark_completed (wf_run (mark_running w k) os) k t1 t2) (fun _ => t2).
Proof.
  intros Hos. split.
  - rewrite due_elem. intros [Hr _]. destruct Hr. apply wf_run_running; [|done]. simpl. set_solver.
  - intros t1 t2 Hw Hc. rewrite due_elem. intros (_ & e & He & Hs).
    set (w1 := wf_run (mark_running w k) os) in *.
    assert (Hw1 : workflows_ok w1) by (by apply wf_run_ok).
    cbn [entries mark_completed] in He. rewrite lookup_alter_eq in He.
    destruct (entries w1 !! k) as [e1|] eqn:E1; [|done]. injection He as <-.
    simpl in Hs. rewrite mark_completed_not_due in Hs; [done| |done].
    by apply (proj2 Hw1 k).
Qed.

Definition sample_workflow (k : Z) : json :=
  JObj [("id"%string, json_of_Z k); ("schedule_interval_ms"%string, json_of_Z 0)].

Lemma workflow_single_flight_witness :
  let w := update_workflows (fun _ => (0, 1, 2)) workflows_new [sample_workflow 7] 0 in
  let o := OpUpdate (fun _ => (3, 4, 5)) [sample_workflow 8; sample_workflow 7] 9 in
  due w (fun _ => 5000) = [7] /\ 7 ∉ due (wf_run (mark_running w 7) [o]) (fun _ => 5000).
Proof.
  intros w o. split; [vm_compute; reflexivity|].
  assert (Ho : all (keeps_running 7) [o] = true) by (vm_compute; reflexivity).
  exact (proj1 (workflow_single_flight w 7 [o] (fun _ => 5000) Ho)).
Defined.

(** The running set forgets a workflow that one frame leaves out: when the next frame brings it
    back it is due at its fresh schedule although the first run was never completed, so a slow
    workflow can be launched twice. *)
Theorem dropped_workflow_forgets_running (c1 c2 : nat -> Z * Z * Z) (w : WorkflowScheduler)
    (f1 f2 : list json) (e1 e2 k : Z) (wf : json) (now : Z -> Z) :
  last_with_id k f1 = None -> last_with_id k f2 = Some wf ->
  let w' := update_workflows c2 (update_workflows c1 (mark_running w k) f1 e1) f2 e2 in
  exists e, entries w' !! k = Some e /\
    (k ∈ due w' now <-> TimeSlot.next_run_ts (scheduler e) <= now k).
Proof.
  intros H1 H2 w'.
  pose proof (update_workflows_lookup c2 (update_workflows c1 (mark_running w k) f1 e1) f2 e2 k) as H.
  rewrite H2 in H. fold w' in H. destruct H as (e & He & _). exists e. split; [done|].
  rewrite due_elem. unfold TimeSlot.should_run. setoid_rewrite Z.leb_le. split.
  - intros (_ & e' & He' & Hn). rewrite He in He'. by injection He' as <-.
  - intros Hn. split; [|by exists e]. unfold w'. rewrite update_workflows_running.
    intros [Hr _]. apply update_workflows_running in Hr as [_ Hr]. rewrite H1 in Hr. by destruct Hr.
Qed.

Lemma dropped_workflow_forgets_running_witness :
  let clk := fun _ => (0, 0, 0) in
  let w := update_workflows clk workflows_new [sample_workflow 7] 0 in
  let w' := update_workflows clk (update_workflows clk (mark_running w 7) [] 0) [sample_workflow 7] 0 in
  7 ∈ due w' (fun _ => 1000).
Proof.
  intros clk w w'.
  destruct (dropped_workflow_forgets_running clk clk w [] [sample_workflow 7] 0 0 7 (sample_workflow 7)
              (fun _ => 1000) eq_refl eq_refl) as (e & He & Hd).
  apply Hd. vm_compute in He. injection He as <-. vm_compute. discriminate.
Defined.
