(* ===== verification/MonitorLoop.v ===== *)
(** * monitor/cloud_loop.rs

    The state behind the monitoring loop and every operation on it: the handlers of the
    coordinator's frames, the on-demand queue, the bookkeeping of running workflows, and the
    body of the loop. Each mutex is a field of the state; an operation that takes several locks
    in turn is the composition of the steps it makes under each. Clock readings are arguments:
    [readings] gives those taken for a group and a slot, functions of an id those taken per entry. *)

From S2P Require Import Prelude Ints F64 Str Json Scheduler Grouping Incremental WorkflowSched.
Open Scope Z_scope.

(** ** State *)

Record AntiDetection : Type := mkAD {
  skip_next_check : bool;
  next_check_jitter_ms : Z;
}.

Definition ad_default : AntiDetection := mkAD false 0.

Record Assignment : Type := mkAssignment {
  assigned : list Target;
  groups : list PeriodGroup;
  global_period_ms : Z;
  epoch_ms : option Z;
  time_slot_offsets : json;
}.

Definition assignment_default : Assignment := mkAssignment [] [] 60000 None JNull.

Record MonitorState : Type := mkState {
  inner : Assignment;
  anti_detection : gmap Z AntiDetection;
  incremental : IncrementalUpdateManager;
  workflows : WorkflowScheduler;
  pending_now : list Z;
  running_since : gmap Z Z;
}.

Definition state_new : MonitorState :=
  mkState assignment_default ∅ manager_new workflows_new [] ∅.

(** The sizes of the two permit pools, from the advertised number of workers. *)
Definition http_permits (parallel_workers : Z) : Z := Z.max parallel_workers 1.
Definition browser_permits (parallel_workers : Z) : Z := clamp 1 4 (Z.max parallel_workers 1 / 4).

(** In nanoseconds, like the readings of the monotonic clock. *)
Definition STALE_RUNNING_AGE : Z := 20 * 60 * 1000000000.

Definition set_inner (s : MonitorState) (a : Assignment) : MonitorState :=
  mkState a (anti_detection s) (incremental s) (workflows s) (pending_now s) (running_since s).
Definition set_anti_detection (s : MonitorState) (m : gmap Z AntiDetection) : MonitorState :=
  mkState (inner s) m (incremental s) (workflows s) (pending_now s) (running_since s).
Definition set_incremental (s : MonitorState) (m : IncrementalUpdateManager) : MonitorState :=
  mkState (inner s) (anti_detection s) m (workflows s) (pending_now s) (running_since s).
Definition set_workflows (s : MonitorState) (w : WorkflowScheduler) : MonitorState :=
  mkState (inner s) (anti_detection s) (incremental s) w (pending_now s) (running_since s).
Definition set_pending_now (s : MonitorState) (q : list Z) : MonitorState :=
  mkState (inner s) (anti_detection s) (incremental s) (workflows s) q (running_since s).
Definition set_running_since (s : MonitorState) (m : gmap Z Z) : MonitorState :=
  mkState (inner s) (anti_detection s) (incremental s) (workflows s) (pending_now s) m.

(** ** Workflow bookkeeping *)

Definition begin_workflow (s : MonitorState) (k now : Z) : MonitorState * option json :=
  let ws := mark_running (workflows s) k in
  (set_running_since (set_workflows s ws) (<[k := now]> (running_since s)), workflow_data ws k).

Definition finish_workflow (s : MonitorState) (k t1 t2 : Z) : MonitorState :=
  set_running_since (set_workflows s (mark_completed (workflows s) k t1 t2)) (delete k (running_since s)).

Definition stale_ids (s : MonitorState) (now : Z -> Z) : list Z :=
  fst <$> retain (fun '(k, since) => STALE_RUNNING_AGE <? Z.max 0 (now k - since)) (map_to_list (running_since s)).

Definition reap_stale_running (s : MonitorState) (now : Z -> Z) (fin : Z -> Z * Z) : MonitorState :=
  foldl (fun s k => finish_workflow s k (fst (fin k)) (snd (fin k))) s (stale_ids s now).

(** ** The on-demand queue *)

Definition check_target_now (s : MonitorState) (target_id : Z) : MonitorState :=
  if any (fun t => opt_Z_eqb (id t) (Some target_id)) (assigned (inner s)) then
    if any (Z.eqb target_id) (pending_now s) then s
    else set_pending_now s (pending_now s ++ [target_id])%list
  else s.

Definition collect_pending_now (s : MonitorState) : MonitorState * list Target :=
  let ids := pending_now s in
  let s := set_pending_now s [] in
  match ids with
  | [] => (s, [])
  | _ => (s, retain (fun t => match id t with Some tid => any (Z.eqb tid) ids | None => false end)
               (assigned (inner s)))
  end.

(** ** Frames of the coordinator *)

Definition hint_of_json (v : json) : AntiDetection :=
  mkAD (unwrap_or (get v "skip_next_check" ≫= json_as_bool) false)
       (unwrap_or (get v "next_check_jitter_ms" ≫= json_as_i64) 0).

Definition apply_sync (s : MonitorState) (msg : json) : MonitorState :=
  let s :=
    match get msg "anti_detection" ≫= json_as_object with
    | Some ad =>
        set_anti_detection s
          (foldl (fun m '(period_str, v) =>
                    match parse_i64 period_str with
                    | Some period => <[period := hint_of_json v]> m
                    | None => m
                    end) (anti_detection s) ad)
    | None => s
    end in
  match get msg "incremental_target_update" ≫= update_from_json with
  | Some update => set_incremental s (fst (queue (incremental s) update))
  | None => s
  end.

Definition assign_workflows (clk : nat -> Z * Z * Z) (s : MonitorState) (msg : json) : MonitorState :=
  let wfs := unwrap_or (get msg "scheduled_workflows" ≫= json_as_array) [] in
  let epoch := unwrap_or (get msg "sync_epoch_ms" ≫= json_as_i64) 0 in
  set_workflows s (update_workflows clk (workflows s) wfs epoch).

Section decoders.
Context (target_of_json : json -> option Target) (targets_of_json : json -> option (list Target)).

Definition assign_targets (clk : readings) (s : MonitorState) (msg : json) : MonitorState :=
  let targets := unwrap_or (get msg "targets" ≫= targets_of_json) [] in
  let period := unwrap_or (get msg "global_period_ms" ≫= json_as_i64) 60000 in
  let epoch := get msg "sync_epoch_ms" ≫= json_as_i64 in
  let offsets := unwrap_or (get msg "time_slot_offsets") JNull in
  set_inner s (mkAssignment targets (group_targets clk targets period epoch offsets) period epoch offsets).

Definition apply_pending_incremental (clk : readings) (s : MonitorState) : MonitorState :=
  if has_pending (incremental s) then
    let a := inner s in
    let '(m, targets, result) := apply target_of_json (incremental s) (assigned a) in
    let groups' :=
      if needs_regroup result
      then group_targets clk targets (global_period_ms a) (epoch_ms a) (time_slot_offsets a)
      else groups a in
    set_incremental
      (set_inner s (mkAssignment targets groups' (global_period_ms a) (epoch_ms a) (time_slot_offsets a))) m
  else s.

(** ** One scheduler tick *)

(** The sweep of the slots of one group: the three readings of a slot are that of [should_run]
    and the two of [mark_completed]. Results: the slots, the due batches, the consumed skips. *)
Fixpoint sweep_slots (clk : nat -> Z * Z * Z) (ad : AntiDetection) (period : Z) (i : nat) (ss : list Slot)
    : list Slot * list (list Target) * list Z :=
  match ss with
  | [] => ([], [], [])
  | s :: ss' =>
      let '(rest, batches, consumed) := sweep_slots clk ad period (S i) ss' in
      let '(t0, t1, t2) := clk i in
      if TimeSlot.should_run (Grouping.scheduler s) t0 then
        let s' := mkSlot (TimeSlot.mark_completed (Grouping.scheduler s) (next_check_jitter_ms ad) t1 t2)
                    (targets s) (slot_index s) (Grouping.offset_ms s) in
        if skip_next_check ad then (s' :: rest, batches, period :: consumed)
        else (s' :: rest, targets s :: batches, consumed)
      else (s :: rest, batches, consumed)
  end.

Fixpoint sweep_groups (clk : readings) (ad_map : gmap Z AntiDetection) (i : nat) (gs : list PeriodGroup)
    : list PeriodGroup * list (list Target) * list Z :=
  match gs with
  | [] => ([], [], [])
  | g :: gs' =>
      let ad := unwrap_or (ad_map !! period_ms g) ad_default in
      let '(ss, b1, c1) := sweep_slots (clk i) ad (period_ms g) 0 (slots g) in
      let '(rest, b2, c2) := sweep_groups clk ad_map (S i) gs' in
      (mkGroup (period_ms g) ss :: rest, b1 ++ b2, c1 ++ c2)%list
  end.

(** The three critical sections of [collect_due]: snapshot, sweep, consumption of the skips. *)
Definition sweep (clk : readings) (ad_map : gmap Z AntiDetection) (s : MonitorState)
    : MonitorState * list (list Target) * list Z :=
  let a := inner s in
  let '(gs, batches, consumed) := sweep_groups clk ad_map 0 (groups a) in
  (set_inner s (mkAssignment (assigned a) gs (global_period_ms a) (epoch_ms a) (time_slot_offsets a)),
   batches, consumed).

Definition consume_skips (consumed : list Z) (s : MonitorState) : MonitorState :=
  set_anti_detection s
    (foldl (fun m p => alter (fun ad => mkAD false (next_check_jitter_ms ad)) p m) (anti_detection s) consumed).

Definition collect_due (clk : readings) (now : Z -> Z) (s : MonitorState)
    : MonitorState * list (list Target) * list Z :=
  let ad_map := anti_detection s in
  let '(s, batches, consumed) := sweep clk ad_map s in
  let s := consume_skips consumed s in
  (s, batches, WorkflowSched.due (workflows s) now).

Definition next_due_in_ms (clk : nat -> nat -> Z) (now : Z -> Z) (s : MonitorState) : Z :=
  let until := concat ((fun '(i, g) =>
                  (fun '(k, sl) => TimeSlot.time_until_next_run_ms (Grouping.scheduler sl) (clk i k)) <$> enumerate (slots g))
                <$> enumerate (groups (inner s))) in
  Z.min (foldl Z.min i64_max until) (wf_next_due_in_ms (workflows s) now).

Definition MIN_SLEEP_MS : Z := 5.
Definition MAX_SLEEP_MS : Z := 1000.
Definition sleep_ms (due_in : Z) : Z := clamp MIN_SLEEP_MS MAX_SLEEP_MS due_in.

(** The readings of one pass of the loop body. *)
Record tick_clock : Type := mkClock {
  c_regroup : readings;
  c_reap_due : bool;
  c_reap : Z -> Z;
  c_fin : Z -> Z * Z;
  c_sweep : readings;
  c_due : Z -> Z;
  c_begin : Z -> Z;
}.

Definition launch (c : tick_clock) (s : MonitorState) (ids : list Z) : MonitorState * list (Z * json) :=
  foldl (fun '(s, runs) k =>
           match begin_workflow s k (c_begin c k) with
           | (s', Some data) => (s', runs ++ [(k, data)])%list
           | (s', None) => (s', runs)
           end) (s, []) ids.

(** The loop body after the sleep: the batches handed to [run_batch] and the workflows started. *)
Definition tick (c : tick_clock) (s : MonitorState) : MonitorState * list (list Target) * list (Z * json) :=
  let s := apply_pending_incremental (c_regroup c) s in
  let s := if c_reap_due c then reap_stale_running s (c_reap c) (c_fin c) else s in
  let '(s, batches, ids) := collect_due (c_sweep c) (c_due c) s in
  let '(s, now_batch) := collect_pending_now s in
  let batches := match now_batch with [] => batches | _ => (batches ++ [now_batch])%list end in
  let '(s, runs) := launch c s ids in
  (s, batches, runs).

End decoders.

(** ** Reference definitions *)

Definition slot_due (clk : nat -> Z * Z * Z) (ks : nat * Slot) : bool :=
  TimeSlot.should_run (Grouping.scheduler (snd ks)) (fst (fst (clk (fst ks)))).

Definition advance_slot (clk : nat -> Z * Z * Z) (ad : AntiDetection) (ks : nat * Slot) : Slot :=
  let '(k, s) := ks in
  if slot_due clk ks then
    mkSlot (TimeSlot.mark_completed (Grouping.scheduler s) (next_check_jitter_ms ad) (snd (fst (clk k))) (snd (clk k)))
      (targets s) (slot_index s) (Grouping.offset_ms s)
  else s.

Definition hint_for (ad_map : gmap Z AntiDetection) (p : Z) : AntiDetection := unwrap_or (ad_map !! p) ad_default.

(** The batches a sweep hands out: the targets of every due slot, in order, of the groups whose
    period the coordinator did not ask to skip. *)
Definition group_batches (clk : readings) (ad_map : gmap Z AntiDetection) (ig : nat * PeriodGroup) : list (list Target) :=
  let '(i, g) := ig in
  if skip_next_check (hint_for ad_map (period_ms g)) then []
  else (fun ks => targets (snd ks)) <$> retain (slot_due (clk i)) (enumerate (slots g)).

Definition advance_group (clk : readings) (ad_map : gmap Z AntiDetection) (ig : nat * PeriodGroup) : PeriodGroup :=
  let '(i, g) := ig in
  mkGroup (period_ms g) (advance_slot (clk i) (hint_for ad_map (period_ms g)) <$> enumerate (slots g)).

Definition group_due (clk : readings) (ig : nat * PeriodGroup) : bool :=
  any (slot_due (clk (fst ig))) (enumerate (slots (snd ig))).

(** The periods whose one-shot skip a sweep consumes. *)
Definition skip_consumed (clk : readings) (ad_map : gmap Z AntiDetection) (gs : list PeriodGroup) (p : Z) : bool :=
  skip_next_check (hint_for ad_map p) && any (fun ig => (period_ms (snd ig) =? p) && group_due clk ig) (enumerate gs).

(** ** Invariant *)

(** The slots hold the assigned targets; the update queue and the workflow table are well formed;
    on-demand ids are queued once; and every running workflow has a start time on record, so the
    reaper can see it. *)
Definition state_ok (s : MonitorState) : Prop :=
  grouped_targets (groups (inner s)) ≡ₚ assigned (inner s) /\
  manager_ok (incremental s) /\ workflows_ok (workflows s) /\
  NoDup (pending_now s) /\ running (workflows s) ⊆ dom (running_since s).

(** One atomic operation of the loop or of a frame handler. The sweep of a tick may use a snapshot of
    the hints that other operations have overtaken, and so may the consumption of its skips. *)
Inductive step (dec : json -> option Target) (decs : json -> option (list Target)) : MonitorState -> MonitorState -> Prop :=
| step_assign s clk msg : step dec decs s (assign_targets decs clk s msg)
| step_sync s msg : step dec decs s (apply_sync s msg)
| step_workflows s clk msg : step dec decs s (assign_workflows clk s msg)
| step_incremental s clk : step dec decs s (apply_pending_incremental dec clk s)
| step_check_now s k : step dec decs s (check_target_now s k)
| step_drain s : step dec decs s (fst (collect_pending_now s))
| step_sweep s clk snapshot : step dec decs s (fst (fst (sweep clk snapshot s)))
| step_consume s consumed : step dec decs s (consume_skips consumed s)
| step_begin s k now : step dec decs s (fst (begin_workflow s k now))
| step_finish s k t1 t2 : step dec decs s (finish_workflow s k t1 t2)
| step_reap s now fin : step dec decs s (reap_stale_running s now fin).

(** ** Lemmas *)

Lemma enumerate_cons_from {A : Type} (a : A) (l : list A) (i : nat) :
  zip (seq i (length (a :: l))) (a :: l) = (i, a) :: zip (seq (S i) (length l)) l.
Proof. done. Qed.

Lemma sweep_slots_spec (clk : nat -> Z * Z * Z) (ad : AntiDetection) (p : Z) (i : nat) (ss : list Slot) :
  let e := zip (seq i (length ss)) ss in
  sweep_slots clk ad p i ss =
  (advance_slot clk ad <$> e,
   if skip_next_check ad then [] else (fun ks => targets (snd ks)) <$> retain (slot_due clk) e,
   if skip_next_check ad then replicate (length (retain (slot_due clk) e)) p else []).
Proof.
  revert i. induction ss as [|s ss IH]; intros i; [simpl; by destruct (skip_next_check ad)|].
  cbv zeta. rewrite enumerate_cons_from, !retain_cons, !fmap_cons.
  cbn [sweep_slots]. rewrite IH.
  destruct (clk i) as [[t0 t1] t2] eqn:Ec.
  assert (Hd : slot_due clk (i, s) = TimeSlot.should_run (Grouping.scheduler s) t0).
  { unfold slot_due. cbn [fst snd]. by rewrite Ec. }
  assert (Ha : advance_slot clk ad (i, s) =
               if TimeSlot.should_run (Grouping.scheduler s) t0
               then mkSlot (TimeSlot.mark_completed (Grouping.scheduler s) (next_check_jitter_ms ad) t1 t2)
                      (targets s) (slot_index s) (Grouping.offset_ms s)
               else s).
  { unfold advance_slot. by rewrite Hd, Ec. }
  rewrite Hd, Ha.
  destruct (TimeSlot.should_run _ t0); by destruct (skip_next_check ad).
Qed.

Lemma sweep_groups_spec (clk : readings) (ad_map : gmap Z AntiDetection) (i : nat) (gs : list PeriodGroup) :
  let e := zip (seq i (length gs)) gs in
  sweep_groups clk ad_map i gs =
  (advance_group clk ad_map <$> e, concat (group_batches clk ad_map <$> e),
   concat ((fun ig => if skip_next_check (hint_for ad_map (period_ms (snd ig)))
                      then replicate (length (retain (slot_due (clk (fst ig))) (enumerate (slots (snd ig))))) (period_ms (snd ig))
                      else []) <$> e)).
Proof.
  revert i. induction gs as [|g gs IH]; intros i; [done|].
  cbv zeta. rewrite enumerate_cons_from, !fmap_cons. cbn [sweep_groups concat].
  rewrite IH, sweep_slots_spec. done.
Qed.

Lemma advance_slot_targets (clk : nat -> Z * Z * Z) (ad : AntiDetection) (ks : nat * Slot) :
  targets (advance_slot clk ad ks) = targets (snd ks).
Proof. destruct ks as [k s]. simpl. by destruct (slot_due clk (k, s)). Qed.

Lemma advance_group_targets (clk : readings) (ad_map : gmap Z AntiDetection) (ig : nat * PeriodGroup) :
  group_slot_targets (advance_group clk ad_map ig) = group_slot_targets (snd ig).
Proof.
  destruct ig as [i g]. unfold group_slot_targets, advance_group. cbn [slots snd].
  rewrite <-list_fmap_compose. f_equal.
  rewrite <-(snd_enumerate (slots g)) at 2. rewrite <-list_fmap_compose.
  apply list_fmap_ext. intros k x _. apply advance_slot_targets.
Qed.

Lemma sweep_targets (clk : readings) (ad_map : gmap Z AntiDetection) (gs : list PeriodGroup) :
  grouped_targets (advance_group clk ad_map <$> enumerate gs) = grouped_targets gs.
Proof.
  unfold grouped_targets. rewrite <-list_fmap_compose. f_equal.
  rewrite <-(snd_enumerate gs) at 2. rewrite <-list_fmap_compose.
  apply list_fmap_ext. intros k x _. apply advance_group_targets.
Qed.

Lemma sweep_inner (clk : readings) (ad_map : gmap Z AntiDetection) (s : MonitorState) :
  let a := inner s in
  fst (fst (sweep clk ad_map s)) =
  set_inner s (mkAssignment (assigned a) (advance_group clk ad_map <$> enumerate (groups a))
                 (global_period_ms a) (epoch_ms a) (time_slot_offsets a)).
Proof. unfold sweep. by rewrite sweep_groups_spec. Qed.

Lemma apply_no_regroup (dec : json -> option Target) (m : IncrementalUpdateManager) (ts : list Target) :
  let '(_, ts', r) := Incremental.apply dec m ts in needs_regroup r = false -> ts' = ts.
Proof.
  assert (Hc : forall cs ts r, let '(ts', r') := apply_changes dec cs ts r in
                needs_regroup r' = false -> ts' = ts /\ needs_regroup r = false).
  { intros cs. unfold apply_changes. induction cs as [|c cs IH]; intros us r; simpl; [done|].
    pose proof (apply_change_false dec us c) as Hf.
    destruct (apply_change dec us c) as [us' [|]]; simpl in Hf.
    - specialize (IH us' (mkApplyResult true (full_rebuild r) (changes_applied r + 1))).
      destruct (foldl _ _ cs) as [ts' r']. intros H. by destruct (IH H) as [_ H'].
    - rewrite (Hf eq_refl). apply IH. }
  assert (Hl : forall q c ts r, let '(_, ts', r') := apply_loop dec q c ts r in
                needs_regroup r' = false -> ts' = ts /\ needs_regroup r = false).
  { induction q as [|[u|u] q IH]; intros c us r; simpl; [done|done|].
    specialize (Hc (changes u) us r). destruct (apply_changes dec (changes u) us r) as [us' r1].
    specialize (IH (Z.max (version u) c) us' r1). destruct (apply_loop _ _ _ _ _) as [[c' us2] r2].
    intros H. destruct (IH H) as [-> H1]. by apply Hc. }
  unfold Incremental.apply. specialize (Hl (pending m) (current_version m) ts result_default).
  destruct (apply_loop _ _ _ _ _) as [[c ts'] r]. intros H. by apply Hl.
Qed.

Lemma consume_lookup (consumed : list Z) (m : gmap Z AntiDetection) (p : Z) :
  foldl (fun m p => alter (fun ad => mkAD false (next_check_jitter_ms ad)) p m) m consumed !! p =
  if any (Z.eqb p) consumed then (fun ad => mkAD false (next_check_jitter_ms ad)) <$> m !! p else m !! p.
Proof.
  revert m. induction consumed as [|q consumed IH]; intros m; [done|]. simpl. rewrite IH.
  destruct (Z.eqb_spec p q) as [->|Hne]; simpl.
  - rewrite lookup_alter_eq. destruct (any _ consumed); [|done]. by destruct (m !! q).
  - by rewrite lookup_alter_ne.
Qed.

Lemma reap_fold (fin : Z -> Z * Z) (ids : list Z) (s : MonitorState) :
  let s' := foldl (fun s k => finish_workflow s k (fst (fin k)) (snd (fin k))) s ids in
  inner s' = inner s /\ incremental s' = incremental s /\ pending_now s' = pending_now s /\
  anti_detection s' = anti_detection s /\
  (forall k, k ∈ running (workflows s') <-> k ∈ running (workflows s) /\ k ∉ ids) /\
  (forall k, running_since s' !! k = if any (Z.eqb k) ids then None else running_since s !! k) /\
  (workflows_ok (workflows s) -> workflows_ok (workflows s')).
Proof.
  revert s. induction ids as [|i ids IH]; intros s; cbv zeta.
  - simpl. split_and!; try done. intros k. split; [|tauto]. intros H. split; [done|apply not_elem_of_nil].
  - simpl. destruct (IH (finish_workflow s i (fst (fin i)) (snd (fin i)))) as (-> & -> & -> & -> & H1 & H2 & H3).
    split_and!; try done.
    + intros k. rewrite H1. cbn [finish_workflow workflows set_running_since set_workflows running mark_completed].
      rewrite elem_of_difference, elem_of_singleton, not_elem_of_cons. tauto.
    + intros k. rewrite H2. cbn [finish_workflow running_since set_running_since].
      destruct (Z.eqb_spec k i) as [->|Hne]; simpl.
      * rewrite lookup_delete_eq. by destruct (any _ ids).
      * by rewrite lookup_delete_ne by congruence.
    + intros Hw. apply H3. exact (wf_step_ok _ (OpCompleted i (fst (fin i)) (snd (fin i))) Hw).
Qed.

Lemma any_eqb_elem (k : Z) (l : list Z) : any (Z.eqb k) l = true <-> k ∈ l.
Proof. rewrite any_true. setoid_rewrite Z.eqb_eq. naive_solver. Qed.

Lemma stale_ids_elem (s : MonitorState) (now : Z -> Z) (k : Z) :
  k ∈ stale_ids s now <-> exists since, running_since s !! k = Some since /\ STALE_RUNNING_AGE < Z.max 0 (now k - since).
Proof.
  unfold stale_ids. rewrite list_elem_of_fmap. split.
  - intros ([k' since] & -> & H). apply elem_of_retain in H as [H He]. exists since.
    split; [by apply elem_of_map_to_list|by apply Z.ltb_lt].
  - intros (since & Hl & Hs). exists (k, since). split; [done|]. apply elem_of_retain.
    split; [by apply Z.ltb_lt|by apply elem_of_map_to_list].
Qed.

Lemma regroup_targets (clk : readings) (ts : list Target) (p : Z) (e : option Z) (o : json) :
  grouped_targets (group_targets clk ts p e o) ≡ₚ ts.
Proof.
  transitivity (concat (snd <$> by_period p ts)); [|apply by_period_perm].
  unfold grouped_targets, group_targets. generalize (length (by_period p ts)). intros n.
  rewrite <-(snd_enumerate (by_period p ts)) at 2.
  induction (enumerate (by_period p ts)) as [|[i [q l]] es IH]; [done|].
  rewrite !fmap_cons. cbn [concat]. by rewrite build_group_targets, IH.
Qed.

Lemma apply_pending_ok (dec : json -> option Target) (clk : readings) (s : MonitorState) :
  state_ok s -> state_ok (apply_pending_incremental dec clk s).
Proof.
  intros (Hg & Hm & Hr). unfold apply_pending_incremental. destruct (has_pending _); [|done].
  pose proof (apply_no_regroup dec (incremental s) (assigned (inner s))) as Hn.
  pose proof (apply_manager dec (incremental s) (assigned (inner s)) Hm) as Hv.
  destruct (Incremental.apply dec (incremental s) (assigned (inner s))) as [[m ts] r].
  cbn in Hv. destruct Hv as (Hp & Hh & Hv).
  split; [|split; [|exact Hr]].
  - simpl. destruct (needs_regroup r); [apply regroup_targets|]. by rewrite (Hn eq_refl).
  - unfold manager_ok. simpl. rewrite Hp. split_and!; [lia|constructor|constructor|constructor].
Qed.

Lemma apply_sync_parts (s : MonitorState) (msg : json) :
  inner (apply_sync s msg) = inner s /\ workflows (apply_sync s msg) = workflows s /\
  pending_now (apply_sync s msg) = pending_now s /\ running_since (apply_sync s msg) = running_since s /\
  (manager_ok (incremental s) -> manager_ok (incremental (apply_sync s msg))).
Proof.
  unfold apply_sync.
  destruct (get msg "anti_detection" ≫= json_as_object), (get msg "incremental_target_update" ≫= update_from_json);
    simpl; split_and!; try done; apply queue_ok.
Qed.

Lemma step_ok (dec : json -> option Target) (decs : json -> option (list Target)) (s s' : MonitorState) :
  step dec decs s s' -> state_ok s -> state_ok s'.
Proof.
  intros Hst. destruct Hst as
    [s clk msg|s msg|s clk msg|s clk|s k|s|s clk snapshot|s consumed|s k now|s k t1 t2|s now fin];
    intros Hok; pose proof Hok as (Hg & Hm & Hw & Hd & Hr).
  - split; [apply regroup_targets|done].
  - destruct (apply_sync_parts s msg) as (E1 & E2 & E3 & E4 & E5).
    unfold state_ok. rewrite E1, E2, E3, E4. by split_and!; auto.
  - split_and!; try done.
    + exact (wf_step_ok _ (OpUpdate clk _ _) Hw).
    + intros k Hk. apply update_workflows_running in Hk as [Hk _]. by apply Hr.
  - by apply apply_pending_ok.
  - unfold check_target_now. destruct (any _ (assigned _)); [|done].
    destruct (any (Z.eqb k) (pending_now s)) eqn:E; [done|]. split_and!; try done. simpl.
    apply NoDup_app. split; [done|]. split; [|apply NoDup_singleton].
    intros x Hx Hk. apply list_elem_of_singleton in Hk as ->.
    rewrite any_false in E. specialize (E k Hx). by rewrite Z.eqb_refl in E.
  - unfold collect_pending_now. destruct (pending_now s); split_and!; try done; constructor.
  - rewrite sweep_inner. split; [|done]. simpl. by rewrite sweep_targets.
  - done.
  - split_and!; try done. simpl. rewrite dom_insert_L. set_solver.
  - split_and!; try done.
    + exact (wf_step_ok _ (OpCompleted k t1 t2) Hw).
    + simpl. rewrite dom_delete_L. set_solver.
  - unfold reap_stale_running. destruct (reap_fold fin (stale_ids s now) s) as (E1 & E2 & E3 & E4 & H1 & H2 & H3).
    unfold state_ok. rewrite E1, E2, E3. split_and!; try done; [by apply H3|].
    intros k Hk. apply H1 in Hk as [Hk Hn]. specialize (Hr k Hk).
    apply elem_of_dom. rewrite H2. destruct (any (Z.eqb k) _) eqn:E; [by apply any_eqb_elem in E|].
    by apply elem_of_dom.
Qed.

(** The waits the loop takes the minimum of. *)
Definition slot_waits (clk : nat -> nat -> Z) (gs : list PeriodGroup) : list Z :=
  concat ((fun '(i, g) =>
             (fun '(k, sl) => TimeSlot.time_until_next_run_ms (Grouping.scheduler sl) (clk i k)) <$> enumerate (slots g))
          <$> enumerate gs).

Definition wf_waits (w : WorkflowScheduler) (now : Z -> Z) : list Z :=
  (fun '(k, e) => TimeSlot.time_until_next_run_ms (WorkflowSched.scheduler e) (now k))
    <$> retain (fun '(k, _) => negb (bool_decide (k ∈ running w))) (map_to_list (entries w)).

Lemma slot_waits_elem (clk : nat -> nat -> Z) (gs : list PeriodGroup) (x : Z) :
  x ∈ slot_waits clk gs <->
  exists i g k sl, gs !! i = Some g /\ slots g !! k = Some sl /\
    x = TimeSlot.time_until_next_run_ms (Grouping.scheduler sl) (clk i k).
Proof.
  unfold slot_waits. rewrite list_elem_of_In, in_concat. split.
  - intros (l & Hl & Hx). apply list_elem_of_In in Hl, Hx.
    apply list_elem_of_fmap in Hl as ([i g] & -> & Hg). apply list_elem_of_fmap in Hx as ([k sl] & -> & Hs).
    apply lookup_enumerate in Hg, Hs. by exists i, g, k, sl.
  - intros (i & g & k & sl & Hg & Hs & ->). eexists. split.
    + apply list_elem_of_In, list_elem_of_fmap. exists (i, g). split; [reflexivity|by apply lookup_enumerate].
    + apply list_elem_of_In, list_elem_of_fmap. exists (k, sl). split; [done|by apply lookup_enumerate].
Qed.

Lemma wf_waits_elem (w : WorkflowScheduler) (now : Z -> Z) (x : Z) :
  x ∈ wf_waits w now <->
  exists k e, entries w !! k = Some e /\ k ∉ running w /\
    x = TimeSlot.time_until_next_run_ms (WorkflowSched.scheduler e) (now k).
Proof.
  unfold wf_waits. rewrite list_elem_of_fmap. split.
  - intros ([k e] & -> & H). apply elem_of_retain in H as [H He]. exists k, e.
    split; [by apply elem_of_map_to_list|]. split; [|done].
    by apply negb_true_iff, bool_decide_eq_false_1 in H.
  - intros (k & e & He & Hr & ->). exists (k, e). split; [done|]. apply elem_of_retain.
    split; [by rewrite bool_decide_eq_false_2|by apply elem_of_map_to_list].
Qed.

Lemma foldl_min_cap (l : list Z) (m : Z) : foldl Z.min m l <= m.
Proof. apply fold_min_le. by left. Qed.

Lemma until_le_max (s : TimeSlot.TimeSlotScheduler) (now : Z) :
  TimeSlot.time_until_next_run_ms s now <= i64_max.
Proof.
  unfold TimeSlot.time_until_next_run_ms. pose proof (as_i64_in (TimeSlot.next_run_ts s - now)) as H.
  unfold in_i64, i64_max in *. lia.
Qed.

Lemma wf_next_due_min (w : WorkflowScheduler) (now : Z -> Z) :
  wf_next_due_in_ms w now = foldl Z.min i64_max (wf_waits w now).
Proof.
  unfold wf_next_due_in_ms. fold (wf_waits w now).
  pose proof (wf_waits_elem w now) as H. destruct (wf_waits w now) as [|t ts]; [done|]. simpl.
  replace (Z.min i64_max t) with t; [done|].
  assert (Ht : t ∈ t :: ts) by (by left). apply H in Ht as (k & e & _ & _ & ->).
  pose proof (until_le_max (WorkflowSched.scheduler e) (now k)). lia.
Qed.

Lemma next_due_min (clk : nat -> nat -> Z) (now : Z -> Z) (s : MonitorState) :
  next_due_in_ms clk now s =
  Z.min (foldl Z.min i64_max (slot_waits clk (groups (inner s)))) (foldl Z.min i64_max (wf_waits (workflows s) now)).
Proof. unfold next_due_in_ms. by rewrite wf_next_due_min. Qed.

(** ** Properties *)



(** A tick's sweep, exactly: the batches handed out are the targets of the due slots, in order, of
    the groups whose period is not to be skipped; every due slot, skipped or not, is
    advanced with its period's jitter and no other slot changes; and the one-shot skip flag is cleared
    for exactly the periods that had it and had a due slot, every other hint being kept. *)
Theorem collect_due_exact (clk : readings) (now : Z -> Z) (s : MonitorState) :
  let '(s', batches, ids) := collect_due clk now s in
  let gs := groups (inner s) in
  let ads := anti_detection s in
  batches = concat (group_batches clk ads <$> enumerate gs) /\
  groups (inner s') = (advance_group clk ads <$> enumerate gs) /\
  assigned (inner s') = assigned (inner s) /\
  (forall p, anti_detection s' !! p =
     if skip_consumed clk ads gs p then (fun ad => mkAD false (next_check_jitter_ms ad)) <$> ads !! p else ads !! p) /\
  ids = WorkflowSched.due (workflows s) now.
Proof.
  unfold collect_due, sweep. rewrite sweep_groups_spec.
  split_and!; try done. intros p. cbn [consume_skips anti_detection set_anti_detection set_inner].
  rewrite consume_lookup. fold (enumerate (groups (inner s))).
  match goal with |- (if ?a then _ else _) = (if ?b then _ else _) => replace a with b; [done|] end.
  apply bool_eq_iff. rewrite any_eqb_elem. unfold skip_consumed.
  rewrite andb_true_iff, any_true, list_elem_of_In, in_concat. split.
  - intros (Hs & ig & Hig & H). apply andb_prop in H as [Hp Hd]. apply Z.eqb_eq in Hp. subst p.
    eexists. split; [apply list_elem_of_In, list_elem_of_fmap; exists ig; split; [reflexivity|done]|].
    rewrite Hs. apply list_elem_of_In, elem_of_replicate. split; [done|].
    unfold group_due in Hd. apply any_true in Hd as (ks & Hks & Hd).
    intros E%nil_length_inv. by apply (elem_of_nil_inv _ ks E), elem_of_retain.
  - intros (l & Hl & Hp). apply list_elem_of_In, list_elem_of_fmap in Hl as (ig & -> & Hig).
    destruct (skip_next_check (hint_for (anti_detection s) (period_ms ig.2))) eqn:Es; [|done].
    apply list_elem_of_In, elem_of_replicate in Hp as [-> Hn]. split; [done|].
    exists ig. split; [done|]. rewrite Z.eqb_refl. apply any_true.
    destruct (retain _ _) as [|ks l] eqn:E; [done|]. exists ks.
    assert (Hks : ks ∈ retain (slot_due (clk ig.1)) (enumerate (slots ig.2))) by (rewrite E; by left).
    by apply elem_of_retain in Hks as [? ?].
Qed.

(** A group of one slot due at once, for the witnesses below. *)
Definition sample_state (skip : bool) : MonitorState :=
  set_anti_detection
    (assign_targets (fun _ => Some [sample_target "a" None]) (fun _ _ => (0, 0, 0)) state_new
       (JObj [("targets"%string, JArr []); ("sync_epoch_ms"%string, json_of_Z 0)]))
    {[60000 := mkAD skip 0]}.

Definition skip_hint : json :=
  JObj [("anti_detection"%string, JObj [("60000"%string, JObj [("skip_next_check"%string, JBool true)])])].

(** A hint can be lost between the sweep and the consumption: whatever a [target_sync] frame
    set in between, a period whose skip the sweep consumed ends without its skip flag, so a
    skip for the next cycle that arrives in that window is dropped. *)
Theorem skip_hint_lost_in_window (clk : readings) (s : MonitorState) (msg : json) (p : Z) :
  skip_consumed clk (anti_detection s) (groups (inner s)) p = true ->
  let '(s1, _, consumed) := sweep clk (anti_detection s) s in
  let s2 := apply_sync s1 msg in
  let s3 := consume_skips consumed s2 in
  anti_detection s3 !! p = (fun ad => mkAD false (next_check_jitter_ms ad)) <$> anti_detection s2 !! p.
Proof.
  intros Hp. unfold sweep. rewrite sweep_groups_spec. cbv zeta.
  cbn [consume_skips anti_detection set_anti_detection]. rewrite consume_lookup.
  match goal with |- (if ?a then _ else _) = _ => replace a with true; [done|] end.
  symmetry. apply any_eqb_elem, list_elem_of_In, in_concat.
  unfold skip_consumed in Hp. apply andb_prop in Hp as [Hs Hp].
  apply any_true in Hp as (ig & Hig & H). apply andb_prop in H as [Hp Hd]. apply Z.eqb_eq in Hp. subst p.
  eexists. split; [apply list_elem_of_In, list_elem_of_fmap; exists ig; split; [reflexivity|done]|].
  rewrite Hs. apply list_elem_of_In, elem_of_replicate. split; [done|].
  apply any_true in Hd as (ks & Hks & Hd).
  intros E%nil_length_inv. by apply (elem_of_nil_inv _ ks E), elem_of_retain.
Qed.

Lemma skip_hint_lost_in_window_witness :
  let s := sample_state true in
  let '(s1, _, consumed) := sweep (fun _ _ => (60000, 60000, 60000)) (anti_detection s) s in
  let s2 := apply_sync s1 skip_hint in
  anti_detection s2 !! 60000 = Some (mkAD true 0) /\
  anti_detection (consume_skips consumed s2) !! 60000 = Some (mkAD false 0).
Proof.
  intros s.
  assert (Hc : skip_consumed (fun _ _ => (60000, 60000, 60000)) (anti_detection s) (groups (inner s)) 60000 = true)
    by (vm_compute; reflexivity).
  pose proof (skip_hint_lost_in_window (fun _ _ => (60000, 60000, 60000)) s skip_hint 60000 Hc) as H.
  destruct (sweep _ _ s) as [[s1 b] consumed] eqn:E. cbv zeta in *.
  assert (E2 : anti_detection (apply_sync s1 skip_hint) !! 60000 = Some (mkAD true 0)).
  { pose proof (f_equal (fun x => fst (fst x)) E) as E1. cbn [fst] in E1. rewrite <-E1. vm_compute. reflexivity. }
  split; [exact E2|]. rewrite E2 in H. exact H.
Defined.

(** On-demand checks: an id is queued only when an assigned target has it, and then once; a drain hands
    out exactly the assigned targets with a queued id, in assignment order, and leaves the queue empty, so
    a request is served at most once. *)
Theorem check_now_served_once (s : MonitorState) (k : Z) :
  let s1 := check_target_now s k in
  let '(s2, batch) := collect_pending_now s1 in
  (forall j, j ∈ pending_now s1 <->
     j ∈ pending_now s \/ j = k /\ exists t, t ∈ assigned (inner s) /\ id t = Some k) /\
  check_target_now s1 k = s1 /\
  batch `sublist_of` assigned (inner s) /\
  (forall t, t ∈ batch <-> t ∈ assigned (inner s) /\ exists j, id t = Some j /\ j ∈ pending_now s1) /\
  collect_pending_now s2 = (s2, []).
Proof.
  assert (Hq : forall q (ts : list Target) t, t ∈ retain (fun t => match id t with Some tid => any (Z.eqb tid) q | None => false end) ts
                <-> t ∈ ts /\ exists j, id t = Some j /\ j ∈ q).
  { intros q ts t. rewrite elem_of_retain. destruct (id t) as [j|].
    - rewrite any_eqb_elem. naive_solver.
    - naive_solver. }
  assert (Hd : forall s0, let '(s2, batch) := collect_pending_now s0 in
     batch = retain (fun t => match id t with Some tid => any (Z.eqb tid) (pending_now s0) | None => false end) (assigned (inner s0))
     /\ collect_pending_now s2 = (s2, [])).
  { intros s0. unfold collect_pending_now. destruct (pending_now s0) as [|j q]; [|done]. split; [|done].
    symmetry. apply retain_none. intros t _. by destruct (id t). }
  assert (Hin : inner (check_target_now s k) = inner s).
  { unfold check_target_now. destruct (any _ (assigned _)); [|done]. by destruct (any _ (pending_now s)). }
  intros s1. specialize (Hd s1). destruct (collect_pending_now s1) as [s2 batch]. destruct Hd as [-> Hd].
  unfold s1. rewrite Hin. split_and!; [| |apply retain_sublist|intros t; apply Hq|done].
  - intros j. unfold check_target_now.
    assert (Hex : any (fun t => opt_Z_eqb (id t) (Some k)) (assigned (inner s)) = true <->
                  exists t, t ∈ assigned (inner s) /\ id t = Some k).
    { rewrite any_true. by setoid_rewrite opt_Z_eqb_eq. }
    destruct (any (fun t => opt_Z_eqb (id t) (Some k)) _); [|intuition congruence].
    destruct (any (Z.eqb k) (pending_now s)) eqn:E.
    + apply any_eqb_elem in E. naive_solver.
    + simpl. rewrite elem_of_app, list_elem_of_singleton. naive_solver.
  - unfold check_target_now at 1. rewrite Hin. unfold check_target_now.
    destruct (any (fun t => opt_Z_eqb (id t) (Some k)) _); [|done].
    destruct (any (Z.eqb k) (pending_now s)) eqn:E; [by rewrite E|]. simpl.
    replace (any (Z.eqb k) (pending_now s ++ [k])%list) with true; [done|].
    symmetry. apply any_eqb_elem, elem_of_app. right. by left.
Qed.

(** The reaper is a complete safety net: in a well-formed state, a running workflow started
    longer ago than the stale age is released and loses its start record, and no other running workflow is
    touched. *)
Theorem reaper_releases_exactly_stale (s : MonitorState) (now : Z -> Z) (fin : Z -> Z * Z) (k : Z) :
  state_ok s -> k ∈ running (workflows s) ->
  exists since, running_since s !! k = Some since /\
  let s' := reap_stale_running s now fin in
  if STALE_RUNNING_AGE <? now k - since
  then k ∉ running (workflows s') /\ running_since s' !! k = None
  else k ∈ running (workflows s') /\ running_since s' !! k = Some since.
Proof.
  intros (_ & _ & _ & _ & Hr) Hk. specialize (Hr k Hk). apply elem_of_dom in Hr as [since Hs].
  exists since. split; [done|]. intros s'. unfold s', reap_stale_running.
  destruct (reap_fold fin (stale_ids s now) s) as (_ & _ & _ & _ & H1 & H2 & _).
  assert (Hst : k ∈ stale_ids s now <-> STALE_RUNNING_AGE < now k - since).
  { rewrite stale_ids_elem. split.
    - intros (since' & Hs' & Hlt). rewrite Hs in Hs'. injection Hs' as <-. unfold STALE_RUNNING_AGE in *. lia.
    - intros Hlt. exists since. split; [done|]. lia. }
  destruct (Z.ltb_spec STALE_RUNNING_AGE (now k - since)) as [Hlt|Hge].
  - apply Hst in Hlt. rewrite H1, H2. split; [tauto|]. by apply any_eqb_elem in Hlt as ->.
  - rewrite H1, H2. assert (Hn : k ∉ stale_ids s now) by (rewrite Hst; lia). split; [done|].
    destruct (any (Z.eqb k) (stale_ids s now)) eqn:E; [by apply any_eqb_elem in E|done].
Qed.

(** A workflow unscheduled between [collect_due] and its launch is marked running although nothing
    runs: [begin_workflow] gives no payload, so the loop starts no task, and when a later frame
    schedules the id again it stays out of [due] at every time until some completion or the
    reaper releases it. *)
Theorem phantom_running_blocks_workflow (s : MonitorState) (k t : Z) (clk : nat -> Z * Z * Z) (msg wf : json)
    (now : Z -> Z) :
  entries (workflows s) !! k = None ->
  last_with_id k (unwrap_or (get msg "scheduled_workflows" ≫= json_as_array) []) = Some wf ->
  let '(s1, payload) := begin_workflow s k t in
  let s2 := assign_workflows clk s1 msg in
  payload = None /\ workflow_data (workflows s2) k = Some wf /\ k ∉ WorkflowSched.due (workflows s2) now.
Proof.
  intros Hk Hwf. cbn [begin_workflow]. split_and!.
  - unfold workflow_data. simpl. by rewrite Hk.
  - unfold assign_workflows. cbn [workflows set_workflows]. unfold workflow_data.
    match goal with |- data <$> entries (update_workflows _ ?w ?l ?e) !! k = _ =>
      pose proof (update_workflows_lookup clk w l e k) as H end.
    rewrite Hwf in H. by destruct H as (e & -> & <- & _).
  - rewrite due_elem. intros [Hr _]. destruct Hr. unfold assign_workflows. cbn [workflows set_workflows].
    apply update_workflows_running. rewrite Hwf. split; [|done]. simpl. set_solver.
Qed.

Lemma phantom_running_blocks_workflow_witness :
  let msg := JObj [("scheduled_workflows"%string, JArr [sample_workflow 7])] in
  let s2 := assign_workflows (fun _ => (0, 0, 0)) (fst (begin_workflow state_new 7 0)) msg in
  workflow_data (workflows s2) 7 = Some (sample_workflow 7) /\ 7 ∉ WorkflowSched.due (workflows s2) (fun _ => 10 ^ 15).
Proof.
  intros msg s2.
  destruct (phantom_running_blocks_workflow state_new 7 0 (fun _ => (0, 0, 0)) msg (sample_workflow 7) (fun _ => 10 ^ 15))
    as (_ & H1 & H2); [vm_compute; reflexivity|vm_compute; reflexivity|].
  split; [exact H1|exact H2].
Defined.

Lemma reaper_releases_exactly_stale_witness :
  let s := fst (begin_workflow state_new 7 0) in
  7 ∈ running (workflows s) /\
  exists since, running_since s !! 7 = Some since /\
    7 ∉ running (workflows (reap_stale_running s (fun _ => 2 * STALE_RUNNING_AGE) (fun _ => (0, 0)))).
Proof.
  intros s.
  assert (Hs : state_ok s).
  { apply (step_ok (fun _ => None) (fun _ => None) state_new); [apply step_begin|].
    split; [done|]. split; [by repeat constructor|]. split; [|split; [constructor|apply empty_subseteq]].
    split; [vm_compute; split; discriminate|apply map_Forall_empty]. }
  assert (Hk : 7 ∈ running (workflows s)) by (simpl; set_solver).
  split; [exact Hk|].
  destruct (reaper_releases_exactly_stale s (fun _ => 2 * STALE_RUNNING_AGE) (fun _ => (0, 0)) 7 Hs Hk) as (since & Hs1 & H).
  exists since. split; [exact Hs1|]. vm_compute in Hs1. injection Hs1 as <-. exact (proj1 H).
Defined.

(** The loop sleeps exactly to the next boundary: [next_due_in_ms] is the least time until
    any slot or any workflow not running is due (or the maximal value when nothing is
    scheduled), and the sleep taken is that time brought into 5 to 1000 milliseconds. *)
Theorem sleep_reaches_next_due (clk : nat -> nat -> Z) (now : Z -> Z) (s : MonitorState) :
  let due_in := next_due_in_ms clk now s in
  (forall i g k sl, groups (inner s) !! i = Some g -> slots g !! k = Some sl ->
     due_in <= TimeSlot.time_until_next_run_ms (Grouping.scheduler sl) (clk i k)) /\
  (forall k e, entries (workflows s) !! k = Some e -> k ∉ running (workflows s) ->
     due_in <= TimeSlot.time_until_next_run_ms (WorkflowSched.scheduler e) (now k)) /\
  (due_in = i64_max \/
   (exists i g k sl, groups (inner s) !! i = Some g /\ slots g !! k = Some sl /\
      due_in = TimeSlot.time_until_next_run_ms (Grouping.scheduler sl) (clk i k)) \/
   (exists k e, entries (workflows s) !! k = Some e /\ k ∉ running (workflows s) /\
      due_in = TimeSlot.time_until_next_run_ms (WorkflowSched.scheduler e) (now k))) /\
  MIN_SLEEP_MS <= sleep_ms due_in <= MAX_SLEEP_MS /\
  (MIN_SLEEP_MS <= due_in -> sleep_ms due_in <= due_in).
Proof.
  intros due_in.
  assert (Hle : forall x, x ∈ slot_waits clk (groups (inner s)) \/ x ∈ wf_waits (workflows s) now -> due_in <= x).
  { intros x Hx. unfold due_in. rewrite next_due_min.
    destruct Hx as [Hx|Hx]; apply (or_intror (A := x = i64_max)), fold_min_le in Hx; lia. }
  split_and!.
  - intros i g k sl Hg Hs. apply Hle. left. apply slot_waits_elem. by exists i, g, k, sl.
  - intros k e He Hr. apply Hle. right. apply wf_waits_elem. by exists k, e.
  - unfold due_in. rewrite next_due_min, <-slot_waits_elem, <-wf_waits_elem.
    pose proof (fold_min_elem (slot_waits clk (groups (inner s))) i64_max) as H1.
    pose proof (fold_min_elem (wf_waits (workflows s) now) i64_max) as H2.
    destruct (Z.min_spec (foldl Z.min i64_max (slot_waits clk (groups (inner s))))
                (foldl Z.min i64_max (wf_waits (workflows s) now))) as [[_ ->]|[_ ->]]; tauto.
  - apply clamp_bounds. vm_compute. discriminate.
  - apply clamp_bounds. vm_compute. discriminate.
  - unfold sleep_ms, clamp, MIN_SLEEP_MS, MAX_SLEEP_MS. lia.
Qed.

Lemma launch_steps (dec : json -> option Target) (decs : json -> option (list Target)) (c : tick_clock)
    (ids : list Z) (s : MonitorState) (acc : list (Z * json)) :
  let '(s', runs) := foldl (fun '(s, runs) k =>
           match begin_workflow s k (c_begin c k) with
           | (s', Some data) => (s', runs ++ [(k, data)])%list
           | (s', None) => (s', runs)
           end) (s, acc) ids in
  rtc (step dec decs) s s' /\ running (workflows s) ⊆ running (workflows s') /\
  (forall k, k ∈ ids -> k ∈ running (workflows s')) /\
  (forall k d, (k, d) ∈ runs -> (k, d) ∈ acc \/ k ∈ ids).
Proof.
  revert s acc. induction ids as [|i ids IH]; intros s acc.
  - simpl. split; [apply rtc_refl|]. split; [done|]. split; [set_solver|]. auto.
  - simpl. destruct (workflow_data (mark_running (workflows s) i) i) as [d|].
    + specialize (IH (fst (begin_workflow s i (c_begin c i))) (acc ++ [(i, d)])%list). simpl in IH.
      destruct (foldl _ _ ids) as [s' runs]. destruct IH as (H1 & H2 & H3 & H4). split_and!.
      * eapply rtc_l; [apply (step_begin _ _ s i (c_begin c i))|done].
      * set_solver.
      * intros k Hk. apply elem_of_cons in Hk as [->|Hk]; [apply H2; set_solver|by apply H3].
      * intros k d' Hk. apply H4 in Hk as [Hk|Hk]; set_solver.
    + specialize (IH (fst (begin_workflow s i (c_begin c i))) acc). simpl in IH.
      destruct (foldl _ _ ids) as [s' runs]. destruct IH as (H1 & H2 & H3 & H4). split_and!.
      * eapply rtc_l; [apply (step_begin _ _ s i (c_begin c i))|done].
      * set_solver.
      * intros k Hk. apply elem_of_cons in Hk as [->|Hk]; [apply H2; set_solver|by apply H3].
      * intros k d' Hk. apply H4 in Hk as [Hk|Hk]; set_solver.
Qed.

Lemma drain_parts (s : MonitorState) :
  workflows (fst (collect_pending_now s)) = workflows s.
Proof. unfold collect_pending_now. by destruct (pending_now s). Qed.

(** One pass of the loop is a run of the atomic operations, so it keeps the invariant; and every
    workflow it starts was due in the state it was collected from and is marked running when
    the pass ends, so the next pass cannot start it again. *)
Theorem tick_runs_steps (dec : json -> option Target) (decs : json -> option (list Target)) (c : tick_clock) (s : MonitorState) :
  let '(s', batches, runs) := tick dec c s in
  rtc (step dec decs) s s' /\ (state_ok s -> state_ok s') /\
  forall k d now, (k, d) ∈ runs -> k ∈ running (workflows s') /\ k ∉ WorkflowSched.due (workflows s') now.
Proof.
  unfold tick.
  set (s1 := apply_pending_incremental dec (c_regroup c) s).
  set (s2 := if c_reap_due c then _ else _). unfold collect_due.
  destruct (sweep (c_sweep c) (anti_detection s2) s2) as [[s3 b] consumed] eqn:E3.
  set (s4 := consume_skips consumed s3).
  pose proof (step_drain dec decs s4) as H5. pose proof (drain_parts s4) as H5'.
  destruct (collect_pending_now s4) as [s5 nb]. cbn [fst] in H5, H5'.
  unfold launch. pose proof (launch_steps dec decs c (WorkflowSched.due (workflows s4) (c_due c)) s5 []) as Hl.
  destruct (foldl _ _ _) as [s' runs]. destruct Hl as (Hr & _ & Hrun & Hruns).
  assert (Hrtc : rtc (step dec decs) s s').
  { eapply rtc_l; [apply step_incremental|]. fold s1.
    transitivity s2.
    { unfold s2. destruct (c_reap_due c); [|apply rtc_refl]. apply rtc_once, step_reap. }
    eapply rtc_l; [apply (step_sweep dec decs s2 (c_sweep c) (anti_detection s2))|].
    rewrite E3. eapply rtc_l; [apply step_consume|]. eapply rtc_l; [exact H5|exact Hr]. }
  split; [exact Hrtc|]. split.
  - clear -Hrtc. induction Hrtc; [done|]. intros Hs. apply IHHrtc. by eapply step_ok.
  - intros k d now Hk. apply Hruns in Hk as [Hk|Hk]; [by apply elem_of_nil in Hk|].
    specialize (Hrun k Hk). split; [done|]. rewrite due_elem. tauto.
Qed.
