(* ===== verification/IpAddr.v ===== *)
(** * Internet addresses

    [std::net::IpAddr] as the network components use it: the addresses as integers of their
    width, the classification predicates, and the textual parser of [FromStr], which takes a
    strict dotted quad or the RFC 4291 forms. *)

From Stdlib Require Import Ascii String.
From S2P Require Import Prelude Ints Str.
Open Scope Z_scope.

Inductive ip_addr : Type :=
| V4 (n : Z)
| V6 (n : Z).

#[export] Instance ip_addr_eq_dec : EqDecision ip_addr.
Proof. solve_decision. Defined.

Definition ip_ok (ip : ip_addr) : Prop :=
  match ip with
  | V4 n => 0 <= n < 2 ^ 32
  | V6 n => 0 <= n < 2 ^ 128
  end.

(** [octets()[i]] of a V4 address and [segments()[i]] of a V6 address. *)
Definition octet (n : Z) (i : Z) : Z := Z.land (Z.shiftr n (8 * (3 - i))) 255.
Definition segment (n : Z) (i : Z) : Z := Z.land (Z.shiftr n (16 * (7 - i))) 65535.

Definition v4_of_octets (a b c d : Z) : Z := a * 2 ^ 24 + b * 2 ^ 16 + c * 2 ^ 8 + d.
Definition v6_of_segments (l : list Z) : Z := foldl (fun n s => n * 2 ^ 16 + s) 0 l.

(** ** Classification of V4 and V6 addresses *)

Definition v4_is_private (n : Z) : bool :=
  (octet n 0 =? 10)
  || ((octet n 0 =? 172) && (16 <=? octet n 1) && (octet n 1 <=? 31))
  || ((octet n 0 =? 192) && (octet n 1 =? 168)).
Definition v4_is_link_local (n : Z) : bool := (octet n 0 =? 169) && (octet n 1 =? 254).

Definition is_loopback (ip : ip_addr) : bool :=
  match ip with V4 n => octet n 0 =? 127 | V6 n => n =? 1 end.
Definition is_multicast (ip : ip_addr) : bool :=
  match ip with
  | V4 n => (224 <=? octet n 0) && (octet n 0 <=? 239)
  | V6 n => Z.land (segment n 0) 0xff00 =? 0xff00
  end.
Definition is_unspecified (ip : ip_addr) : bool :=
  match ip with V4 n | V6 n => n =? 0 end.

(** [Ipv6Addr::to_ipv4_mapped]: the forms [::ffff:a.b.c.d]. *)
Definition to_ipv4_mapped (n : Z) : option Z :=
  if Z.shiftr n 32 =? 0xffff then Some (Z.land n (2 ^ 32 - 1)) else None.

(** ** Parsing *)

Definition digit_val (radix : Z) (c : ascii) : option Z :=
  let v := byte_val c in
  let d := if is_digit c then Some (v - 48)
           else if (97 <=? v) && (v <=? 102) then Some (v - 87)
           else if (65 <=? v) && (v <=? 70) then Some (v - 55)
           else None in
  match d with
  | Some d => if d <? radix then Some d else None
  | None => None
  end.

(** The greedy run of digits: value, number of digits, rest. *)
Fixpoint read_digits (radix acc : Z) (count : nat) (s : string) : Z * nat * string :=
  match s with
  | EmptyString => (acc, count, s)
  | String c r =>
      match digit_val radix c with
      | Some d => read_digits radix (acc * radix + d) (S count) r
      | None => (acc, count, s)
      end
  end.

Definition read_number (radix : Z) (max_digits : nat) (max : Z) (allow_zero_prefix : bool) (s : string)
    : option (Z * string) :=
  let '(v, count, rest) := read_digits radix 0 0 s in
  if (count =? 0)%nat || (max_digits <? count)%nat || (max <? v) then None
  else if negb allow_zero_prefix && starts_with s "0" && (1 <? count)%nat then None
  else Some (v, rest).

Definition read_char (c : ascii) (s : string) : option string :=
  match s with
  | String d r => if byte_is c d then Some r else None
  | EmptyString => None
  end.

Definition read_separator {A : Type} (sep : ascii) (index : nat) (inner : string -> option (A * string)) (s : string)
    : option (A * string) :=
  match index with
  | O => inner s
  | S _ => read_char sep s ≫= inner
  end.

Definition read_octet (i : nat) (s : string) : option (Z * string) :=
  read_separator "."%char i (read_number 10 3 255 false) s.

#[local] Arguments read_octet : simpl never.

Definition read_ipv4_addr (s : string) : option (Z * string) :=
  '(a, s) ← read_octet 0 s; '(b, s) ← read_octet 1 s;
  '(c, s) ← read_octet 2 s; '(d, s) ← read_octet 3 s;
  Some (v4_of_octets a b c d, s).

(** [read_groups] over the last [n] of the slots, [i] being read already: the groups read, whether the
    last two came from a dotted quad, the rest of the input. *)
Fixpoint read_groups (i n : nat) (s : string) : list Z * bool * string :=
  match n with
  | O => ([], false, s)
  | S n' =>
      match (if (1 <? n)%nat then read_separator ":"%char i read_ipv4_addr s else None) with
      | Some (v4, s') => ([Z.shiftr v4 16; Z.land v4 65535], true, s')
      | None =>
          match read_separator ":"%char i (read_number 16 4 65535 true) s with
          | Some (g, s') => let '(gs, v4, rest) := read_groups (S i) n' s' in (g :: gs, v4, rest)
          | None => ([], false, s)
          end
      end
  end.

Definition read_ipv6_addr (s : string) : option (Z * string) :=
  let '(head, head_ipv4, s1) := read_groups 0 8 s in
  let head_size := length head in
  if (head_size =? 8)%nat then Some (v6_of_segments head, s1)
  else if head_ipv4 then None
  else
    s2 ← read_char ":"%char s1; s3 ← read_char ":"%char s2;
    let '(tail, _, s4) := read_groups 0 (8 - (head_size + 1)) s3 in
    Some (v6_of_segments (head ++ replicate (8 - head_size - length tail) 0 ++ tail)%list, s4).

Definition parse_ip_addr (s : string) : option ip_addr :=
  let r := match read_ipv4_addr s with
           | Some (n, rest) => Some (V4 n, rest)
           | None => match read_ipv6_addr s with
                     | Some (n, rest) => Some (V6 n, rest)
                     | None => None
                     end
           end in
  match r with
  | Some (ip, EmptyString) => Some ip
  | _ => None
  end.

Example parse_v4_ex : parse_ip_addr "169.254.169.254" = Some (V4 0xa9fea9fe) /\ parse_ip_addr "127.0.0.01" = None
  /\ parse_ip_addr "1.2.3.256" = None /\ parse_ip_addr "1.2.3" = None.
Proof. by vm_compute. Qed.
Example parse_v6_ex : parse_ip_addr "::1" = Some (V6 1) /\ parse_ip_addr "::ffff:127.0.0.1" = Some (V6 0xffff7f000001)
  /\ parse_ip_addr "fd00:ec2::254" = Some (V6 (0xfd000ec2 * 2 ^ 96 + 0x254)) /\ parse_ip_addr "1:2:3:4:5:6:7:8" = Some (V6 0x00010002000300040005000600070008)
  /\ parse_ip_addr "1::2::3" = None /\ parse_ip_addr "::" = Some (V6 0).
Proof. by vm_compute. Qed.

(** ** Lemmas *)

(** Masking with [w - k] ones followed by [k] zeros clears the low [k] bits. *)
Lemma land_high_mask (w k x : Z) :
  0 <= k <= w -> 0 <= x < 2 ^ w -> Z.land x (Z.shiftl (Z.ones (w - k)) k) = x / 2 ^ k * 2 ^ k.
Proof.
  intros Hk Hx. rewrite <-Z.shiftr_div_pow2, <-Z.shiftl_mul_pow2 by lia.
  apply Z.bits_inj'. intros i Hi. rewrite Z.land_spec, !Z.shiftl_spec by done.
  destruct (Z.ltb_spec i k) as [Hlt|Hge].
  - rewrite (Z.testbit_neg_r _ (i - k)) by lia. rewrite (Z.testbit_neg_r (Z.shiftr x k)) by lia. apply andb_false_r.
  - rewrite Z.shiftr_spec by lia. replace (i - k + k) with i by lia.
    rewrite Z.testbit_ones_nonneg by lia.
    destruct (Z.ltb_spec (i - k) (w - k)); [apply andb_true_r|]. rewrite andb_false_r.
    symmetry. destruct (Z.eq_dec x 0) as [->|Hne]; [apply Z.testbit_0_l|].
    apply Z.bits_above_log2; [lia|]. apply Z.log2_lt_pow2; [lia|].
    apply (Z.lt_le_trans _ (2 ^ w)); [lia|]. apply Z.pow_le_mono_r; lia.
Qed.

Lemma octet_div (n i : Z) : 0 <= i <= 3 -> octet n i = n / 2 ^ (8 * (3 - i)) mod 256.
Proof.
  intros Hi. unfold octet. rewrite Z.shiftr_div_pow2 by lia. change 255 with (Z.ones 8).
  by rewrite Z.land_ones.
Qed.

Lemma segment_div (n i : Z) : 0 <= i <= 7 -> segment n i = n / 2 ^ (16 * (7 - i)) mod 65536.
Proof.
  intros Hi. unfold segment. rewrite Z.shiftr_div_pow2 by lia. change 65535 with (Z.ones 16).
  by rewrite Z.land_ones.
Qed.

Lemma octet0_div (n : Z) : 0 <= n < 2 ^ 32 -> octet n 0 = n / 2 ^ 24.
Proof. intros Hn. rewrite octet_div by lia. change (8 * (3 - 0)) with 24. zlia. Qed.

Lemma segment0_div (n : Z) : 0 <= n < 2 ^ 128 -> segment n 0 = n / 2 ^ 112.
Proof. intros Hn. rewrite segment_div by lia. change (16 * (7 - 0)) with 112. zlia. Qed.

Lemma digit_val_range (radix : Z) (c : ascii) (d : Z) : digit_val radix c = Some d -> 0 <= d < radix.
Proof.
  unfold digit_val, is_digit. intros H.
  destruct (if (48 <=? byte_val c) && (byte_val c <=? 57) then _ else _) as [e|] eqn:E; [|done].
  destruct (Z.ltb_spec e radix); [|done]. injection H as <-. split; [|done].
  repeat (case_match; simplify_eq; bool_prop); lia.
Qed.

Lemma read_digits_nonneg (radix acc : Z) (count : nat) (s : string) :
  0 <= acc -> 0 < radix -> 0 <= fst (fst (read_digits radix acc count s)).
Proof.
  revert acc count. induction s as [|c s IH]; intros acc count Ha Hr; simpl; [done|].
  destruct (digit_val radix c) as [d|] eqn:E; [|done]. apply IH; [|done].
  pose proof (digit_val_range radix c d E). nia.
Qed.

Lemma read_number_range (radix max : Z) (md : nat) (z : bool) (s rest : string) (v : Z) :
  0 < radix -> read_number radix md max z s = Some (v, rest) -> 0 <= v <= max.
Proof.
  intros Hr. unfold read_number. pose proof (read_digits_nonneg radix 0 0 s ltac:(lia) Hr) as Hn.
  destruct (read_digits radix 0 0 s) as [[v' c] r]. simpl in Hn.
  destruct (Z.ltb_spec max v'); [rewrite orb_true_r; discriminate|].
  destruct (_ || _); [discriminate|]. destruct (_ && _); [discriminate|]. intros [= <- <-]. lia.
Qed.

Lemma read_separator_Some {A : Type} (sep : ascii) (i : nat) (inner : string -> option (A * string)) (s : string) (r : A * string) :
  read_separator sep i inner s = Some r -> exists s', inner s' = Some r.
Proof.
  destruct i; simpl; [by exists s|]. destruct (read_char sep s) as [s'|]; simpl; [by exists s'|done].
Qed.

Lemma read_ipv4_range (s rest : string) (n : Z) : read_ipv4_addr s = Some (n, rest) -> 0 <= n < 2 ^ 32.
Proof.
  assert (Ho : forall i s o r, read_octet i s = Some (o, r) -> 0 <= o <= 255).
  { intros i s0 o r H. apply read_separator_Some in H as [s' H]. apply read_number_range in H; lia. }
  unfold read_ipv4_addr.
  destruct (read_octet 0 s) as [[a s1]|] eqn:E0; simpl; [|done].
  destruct (read_octet 1 s1) as [[b s2]|] eqn:E1; simpl; [|done].
  destruct (read_octet 2 s2) as [[c s3]|] eqn:E2; simpl; [|done].
  destruct (read_octet 3 s3) as [[d s4]|] eqn:E3; simpl; [|done].
  apply Ho in E0, E1, E2, E3. unfold v4_of_octets. intros [= <- <-]. lia.
Qed.

Lemma v6_of_segments_range (l : list Z) :
  Forall (fun g => 0 <= g < 2 ^ 16) l -> 0 <= v6_of_segments l < 2 ^ (16 * Z.of_nat (length l)).
Proof.
  unfold v6_of_segments. induction l as [|g l IH] using rev_ind; intros H; [simpl; lia|].
  apply Forall_app in H as [Hl Hg]. inversion Hg; subst. specialize (IH Hl).
  rewrite foldl_app, length_app. simpl. replace (16 * Z.of_nat (length l + 1)) with (16 * Z.of_nat (length l) + 16) by lia.
  rewrite Z.pow_add_r by lia. lia.
Qed.

Lemma read_groups_range (i n : nat) (s : string) :
  Forall (fun g => 0 <= g < 2 ^ 16) (fst (fst (read_groups i n s))) /\ (length (fst (fst (read_groups i n s))) <= n)%nat.
Proof.
  revert i s. induction n as [|n IH]; intros i s; [by repeat constructor|]. cbn [read_groups].
  destruct (if (1 <? S n)%nat then _ else None) as [[v4 s']|] eqn:E4.
  - destruct n as [|n]; [discriminate|]. cbn in E4. apply read_separator_Some in E4 as [s'' E4].
    apply read_ipv4_range in E4. cbn [fst length]. split; [|lia].
    rewrite Z.shiftr_div_pow2 by lia. change 65535 with (Z.ones 16). rewrite Z.land_ones by lia.
    repeat constructor; zlia.
  - destruct (read_separator ":" i (read_number 16 4 65535 true) s) as [[g s']|] eqn:E.
    + apply read_separator_Some in E as [s'' E]. apply read_number_range in E; [|lia].
      specialize (IH (S i) s'). destruct (read_groups (S i) n s') as [[gs v] r]. cbn [fst length] in *.
      split; [constructor; [lia|tauto]|lia].
    + cbn [fst length]. split; [constructor|lia].
Qed.

(** The parser only yields addresses of their width. *)
Lemma parse_ip_addr_ok (s : string) (ip : ip_addr) : parse_ip_addr s = Some ip -> ip_ok ip.
Proof.
  unfold parse_ip_addr. destruct (read_ipv4_addr s) as [[n r]|] eqn:E4.
  { apply read_ipv4_range in E4. destruct r; [|done]. intros [= <-]. exact E4. }
  unfold read_ipv6_addr. pose proof (read_groups_range 0 8 s) as [H1 H2].
  destruct (read_groups 0 8 s) as [[h v] s1]. cbn [fst] in *.
  assert (Hr : forall l, Forall (fun g => 0 <= g < 2 ^ 16) l -> length l = 8%nat -> 0 <= v6_of_segments l < 2 ^ 128).
  { intros l Hl Hn. apply v6_of_segments_range in Hl. by rewrite Hn in Hl. }
  destruct (Nat.eqb_spec (length h) 8) as [E8|E8].
  { destruct s1; [|done]. intros [= <-]. by apply Hr. }
  destruct v; [done|]. destruct (read_char ":" s1) as [s2|]; simpl; [|done].
  destruct (read_char ":" s2) as [s3|]; simpl; [|done].
  pose proof (read_groups_range 0 (8 - (length h + 1)) s3) as [H3 H4].
  destruct (read_groups 0 (8 - (length h + 1)) s3) as [[t v'] s4]. cbn [fst] in *.
  destruct s4; [|done]. intros [= <-]. apply Hr.
  - apply Forall_app. split; [done|]. apply Forall_app. split; [|done].
    apply Forall_replicate. lia.
  - rewrite !length_app, length_replicate. lia.
Qed.
