(* ===== verification/UrlGuard.v ===== *)
(** * security/url_guard.rs

    The screen against server-side request forgery: the blocked address ranges, the verdict on
    a URL in its synchronous, asynchronous and redirect forms, and the cache of resolved
    verdicts. [Url::parse] and the resolvers are parameters; the host of an http(s) URL is ASCII
    (the parser applies IDNA), so [to_lowercase] is the ASCII one. *)

From Stdlib Require Import Ascii String.
From S2P Require Import Prelude Ints Str IpAddr.
Open Scope Z_scope.

(** ** Blocked addresses *)

Record CidrBlock : Type := mkCidr {
  addr : ip_addr;
  prefix_len : Z;
}.

Definition cidr_v4 (a b c d prefix : Z) : CidrBlock := mkCidr (V4 (v4_of_octets a b c d)) prefix.
Definition cidr_v6 (segments : list Z) (prefix : Z) : CidrBlock := mkCidr (V6 (v6_of_segments segments)) prefix.

(** [MAX << (w - prefix)] at width [w]. *)
Definition net_mask (w prefix : Z) : Z :=
  if w <=? prefix then Z.ones w else Z.land (Z.shiftl (Z.ones w) (w - prefix)) (Z.ones w).

Definition cidr_contains (b : CidrBlock) (ip : ip_addr) : bool :=
  match addr b, ip with
  | V4 net, V4 a => let mask := net_mask 32 (prefix_len b) in Z.land net mask =? Z.land a mask
  | V6 net, V6 a => let mask := net_mask 128 (prefix_len b) in Z.land net mask =? Z.land a mask
  | _, _ => false
  end.

Definition CLOUD_METADATA_CIDRS : list CidrBlock :=
  [cidr_v4 169 254 169 254 32;
   cidr_v4 100 100 100 200 32;
   cidr_v6 [0xfd00; 0x0ec2; 0; 0; 0; 0; 0; 0x0254] 128;
   cidr_v6 [0x0064; 0xff9b; 0; 0; 0; 0; 0; 0] 96;
   cidr_v6 [0x2002; 0; 0; 0; 0; 0; 0; 0] 16].

(** The embedded address of [::a.b.c.d], but not of [::] and [::1]. *)
Definition ipv4_compatible (v6 : Z) : option Z :=
  if any (fun i => negb (segment v6 i =? 0)) [0; 1; 2; 3; 4; 5] then None
  else
    let s6 := segment v6 6 in
    let s7 := segment v6 7 in
    let v4 := v4_of_octets (Z.shiftr s6 8) (Z.land s6 255) (Z.shiftr s7 8) (Z.land s7 255) in
    if v4 <=? 1 then None else Some v4.

(** The checks after the normalisation of embedded IPv4 addresses. *)
Definition is_blocked_plain (ip : ip_addr) : bool :=
  if is_loopback ip || is_multicast ip || is_unspecified ip then true
  else
    let special :=
      match ip with
      | V4 n =>
          if v4_is_private n || v4_is_link_local n then true
          else if (octet n 0 =? 100) && ((64 <=? octet n 1) && (octet n 1 <=? 127)) then true
          else 240 <=? octet n 0
      | V6 n =>
          if Z.land (segment n 0) 0xffc0 =? 0xfe80 then true
          else if Z.land (segment n 0) 0xfe00 =? 0xfc00 then true
          else Z.land (segment n 0) 0xffc0 =? 0xfec0
      end in
    if special then true else any (fun b => cidr_contains b ip) CLOUD_METADATA_CIDRS.

Definition is_blocked_ip (ip : ip_addr) : bool :=
  match ip with
  | V6 v6 =>
      match (match to_ipv4_mapped v6 with Some v4 => Some v4 | None => ipv4_compatible v6 end) with
      | Some v4 => is_blocked_plain (V4 v4)
      | None => is_blocked_plain ip
      end
  | V4 _ => is_blocked_plain ip
  end.

(** ** Verdict on a URL *)

Definition BLOCKED_HOSTS : list string :=
  ["localhost"; "127.0.0.1"; "0.0.0.0"; "[::]"; "[::1]"; "metadata.google.internal"; "metadata.goog";
   "kubernetes.default.svc"; "kubernetes.default"; "kubernetes"]%string.

Definition SAFE_INTERNAL_PREFIXES : list string := ["about:"%string].

(** What the code reads of a parsed URL. *)
Record url : Type := mkUrl {
  scheme : string;
  host_str : option string;
}.

Definition is_bracket (c : ascii) : bool := byte_is "["%char c || byte_is "]"%char c.
Definition is_dot (c : ascii) : bool := byte_is "."%char c.

Definition parse_ip (s : string) : option ip_addr := parse_ip_addr (trim_by is_bracket s).

Definition hostname_clean (hostname : string) : string := trim_by is_bracket (to_ascii_lowercase hostname).
Definition hostname_no_dot (hostname : string) : string := trim_end_by is_dot (hostname_clean hostname).

(** The loop over [BLOCKED_HOSTS]. *)
Definition host_blocked (hostname : string) : bool :=
  any (fun blocked => str_eqb (hostname_clean hostname) blocked || str_eqb (hostname_no_dot hostname) blocked)
    BLOCKED_HOSTS.

(** The check of an address literal. *)
Definition literal_blocked (hostname : string) : bool :=
  match parse_ip (hostname_clean hostname) with
  | Some ip => is_blocked_ip ip
  | None => false
  end.

Definition http_scheme (s : string) : bool := str_eqb s "http" || str_eqb s "https".

Inductive HostVerdict : Type := Safe | Internal | Unresolved.

#[export] Instance host_verdict_eq_dec : EqDecision HostVerdict.
Proof. solve_decision. Defined.

Definition DNS_VERDICT_TTL : Z := 60 * 1000000000.
Definition ROUTE_DNS_TIMEOUT : Z := 2 * 1000000000.
Definition NAV_DNS_TIMEOUT : Z := 5 * 1000000000.
Definition DNS_CACHE_MAX_ENTRIES : Z := 4096.

Notation cache := (gmap string (HostVerdict * Z)).

(** The verdict on the addresses a name resolved to. *)
Definition addrs_verdict (addrs : list ip_addr) : HostVerdict :=
  if any is_blocked_ip addrs then Internal else Safe.

Section guard.
Context (url_parse : string -> option url).

Definition is_redirect_target_safe (u : string) : bool :=
  match url_parse u with
  | None => false
  | Some parsed =>
      if negb (http_scheme (scheme parsed)) then false
      else match host_str parsed with
           | None => false
           | Some hostname =>
               if host_blocked hostname then false
               else if literal_blocked hostname then false
               else true
           end
  end.

Definition safe_prefix (u : string) : bool := any (starts_with u) SAFE_INTERNAL_PREFIXES.
Definition relative_path (u : string) : bool := starts_with u "/" && negb (starts_with u "//").

(** [dns_resolve]: [None] is its error. *)
Definition is_url_safe_inner (dns_resolve : string -> option (list ip_addr)) (u : string)
    (fail_closed_on_dns_error : bool) : bool :=
  if is_empty u then false
  else if safe_prefix u then true
  else if relative_path u then true
  else
    match url_parse u with
    | None => false
    | Some parsed =>
        if negb (http_scheme (scheme parsed)) then false
        else match host_str parsed with
             | None => false
             | Some hostname =>
                 if host_blocked hostname then false
                 else if literal_blocked hostname then false
                 else match dns_resolve hostname with
                      | Some addrs => if any is_blocked_ip addrs then false else true
                      | None => if fail_closed_on_dns_error then false else true
                      end
             end
    end.

Definition is_url_safe (dns : string -> option (list ip_addr)) (u : string) : bool := is_url_safe_inner dns u false.
Definition is_navigation_url_safe (dns : string -> option (list ip_addr)) (u : string) : bool :=
  is_url_safe_inner dns u true.

(** [lookup] is the bounded resolution: [None] for an error or a timeout. [now_read] is the
    reading of [elapsed], [now_write] that of the insertion. *)
Definition resolve_host_verdict (lookup : string -> Z -> option (list ip_addr)) (now_read now_write : Z)
    (c : cache) (cache_key hostname : string) (timeout : Z) : HostVerdict * cache :=
  let fresh :=
    match c !! cache_key with
    | Some (verdict, decided_at) =>
        if Z.max 0 (now_read - decided_at) <? DNS_VERDICT_TTL then Some verdict else None
    | None => None
    end in
  match fresh with
  | Some verdict => (verdict, c)
  | None =>
      match lookup (String.append hostname ":0") timeout with
      | None => (Unresolved, c)
      | Some addrs =>
          let verdict := addrs_verdict addrs in
          let c := if DNS_CACHE_MAX_ENTRIES <=? Z.of_nat (size c) then ∅ else c in
          (verdict, <[cache_key := (verdict, now_write)]> c)
      end
  end.

Definition refusal_reason_inner (lookup : string -> Z -> option (list ip_addr)) (now_read now_write : Z)
    (c : cache) (u : string) (fail_closed_on_dns_error : bool) : option string * cache :=
  if is_empty u then (Some "the URL is empty"%string, c)
  else if safe_prefix u then (None, c)
  else if relative_path u then (None, c)
  else
    match url_parse u with
    | None => (Some "this is not a valid URL"%string, c)
    | Some parsed =>
        if negb (http_scheme (scheme parsed)) then (Some "only http(s) addresses can be opened"%string, c)
        else match host_str parsed with
             | None => (Some "the URL has no hostname"%string, c)
             | Some hostname =>
                 if host_blocked hostname
                 then (Some "this hostname is blocked (internal/metadata address)"%string, c)
                 else if literal_blocked hostname
                 then (Some "this address points at a private/internal network"%string, c)
                 else
                   let timeout := if fail_closed_on_dns_error then NAV_DNS_TIMEOUT else ROUTE_DNS_TIMEOUT in
                   let '(v, c) := resolve_host_verdict lookup now_read now_write c (hostname_no_dot hostname) hostname timeout in
                   (match v with
                    | Safe => None
                    | Internal => Some "this hostname resolves to a private/internal address"%string
                    | Unresolved =>
                        if fail_closed_on_dns_error
                        then Some "this domain could not be resolved — check the address for a typo, or check your network's DNS"%string
                        else None
                    end, c)
             end
    end.

End guard.

(** ** Reference definitions *)

(** The IPv4 ranges nothing may reach, as intervals. *)
Definition blocked_v4_ranges : list (Z * Z) :=
  [(0x00000000, 0x00000000);  (* unspecified *)
   (0x0a000000, 0x0affffff);  (* 10.0.0.0/8 *)
   (0x64400000, 0x647fffff);  (* 100.64.0.0/10 *)
   (0x7f000000, 0x7fffffff);  (* 127.0.0.0/8 *)
   (0xa9fe0000, 0xa9feffff);  (* 169.254.0.0/16 *)
   (0xac100000, 0xac1fffff);  (* 172.16.0.0/12 *)
   (0xc0a80000, 0xc0a8ffff);  (* 192.168.0.0/16 *)
   (0xe0000000, 0xffffffff)]. (* 224.0.0.0/4 and 240.0.0.0/4 *)

(** The IPv6 ranges nothing may reach, beside the embedded IPv4 addresses. *)
Definition blocked_v6_ranges : list (Z * Z) :=
  [(0, 1);                                                                  (* :: and ::1 *)
   (0x64ff9b * 2 ^ 96, 0x64ff9b * 2 ^ 96 + 0xffffffff);                     (* 64:ff9b::/96 *)
   (0x2002 * 2 ^ 112, 0x2003 * 2 ^ 112 - 1);                                (* 2002::/16 *)
   (0xfc00 * 2 ^ 112, 0xfe00 * 2 ^ 112 - 1);                                (* fc00::/7 *)
   (0xfe80 * 2 ^ 112, 2 ^ 128 - 1)].                                        (* fe80::/10, fec0::/10, ff00::/8 *)

Definition in_ranges (rs : list (Z * Z)) (n : Z) : bool := any (fun '(lo, hi) => (lo <=? n) && (n <=? hi)) rs.

(** The IPv4 address an IPv6 address stands for: the mapped and the compatible forms. *)
Definition embedded_v4 (n : Z) : option Z :=
  if (0xffff * 2 ^ 32 <=? n) && (n <? 0x10000 * 2 ^ 32) then Some (n - 0xffff * 2 ^ 32)
  else if (2 <=? n) && (n <? 2 ^ 32) then Some n
  else None.

Definition blocked_spec (ip : ip_addr) : bool :=
  match ip with
  | V4 n => in_ranges blocked_v4_ranges n
  | V6 n => match embedded_v4 n with
            | Some v4 => in_ranges blocked_v4_ranges v4
            | None => in_ranges blocked_v6_ranges n
            end
  end.

(** ** Lemmas *)

Lemma if_true_orb (a b : bool) : (if a then true else b) = a || b.
Proof. by destruct a. Qed.

Lemma net_mask_eq (w p : Z) : 0 <= p <= w -> net_mask w p = Z.shiftl (Z.ones p) (w - p).
Proof.
  intros Hp. unfold net_mask. destruct (Z.leb_spec w p).
  - replace p with w by lia. by rewrite Z.sub_diag, Z.shiftl_0_r.
  - rewrite Z.land_ones, !Z.shiftl_mul_pow2, !Z.ones_equiv by lia.
    symmetry. apply (Z.mod_unique_pos _ _ (2 ^ (w - p) - 1)).
    + assert (2 ^ p * 2 ^ (w - p) = 2 ^ w) by (rewrite <-Z.pow_add_r by lia; f_equal; lia).
      assert (0 < 2 ^ p /\ 0 < 2 ^ (w - p)) by (split; apply Z.pow_pos_nonneg; lia). nia.
    + assert (2 ^ p * 2 ^ (w - p) = 2 ^ w) by (rewrite <-Z.pow_add_r by lia; f_equal; lia). nia.
Qed.

(** Two addresses agree under a mask when their prefixes agree. *)
Lemma net_mask_land (w p net a : Z) :
  0 <= p <= w -> 0 <= net < 2 ^ w -> 0 <= a < 2 ^ w ->
  (Z.land net (net_mask w p) =? Z.land a (net_mask w p)) = (net / 2 ^ (w - p) =? a / 2 ^ (w - p)).
Proof.
  intros Hp Hn Ha. rewrite net_mask_eq by done.
  assert (Hm : forall x, 0 <= x < 2 ^ w ->
            Z.land x (Z.shiftl (Z.ones p) (w - p)) = x / 2 ^ (w - p) * 2 ^ (w - p)).
  { intros x Hx. rewrite <-(land_high_mask w) by lia. by replace (w - (w - p)) with p by lia. }
  rewrite !Hm by done. assert (0 < 2 ^ (w - p)) by (apply Z.pow_pos_nonneg; lia).
  destruct (Z.eqb_spec (net / 2 ^ (w - p)) (a / 2 ^ (w - p))) as [->|Hne]; [apply Z.eqb_refl|].
  apply Z.eqb_neq. intros E. apply Hne. nia.
Qed.

Ltac closed_bounds :=
  first [assumption | split; vm_compute; [discriminate|reflexivity] | split; vm_compute; discriminate].

Lemma blocked_plain_v4 (n : Z) : 0 <= n < 2 ^ 32 -> is_blocked_plain (V4 n) = in_ranges blocked_v4_ranges n.
Proof.
  intros Hn. unfold is_blocked_plain, is_loopback, is_multicast, is_unspecified, v4_is_private, v4_is_link_local,
    CLOUD_METADATA_CIDRS, cidr_v4, cidr_v6, cidr_contains, any. cbn [existsb addr prefix_len].
  rewrite !net_mask_land by closed_bounds.
  change (32 - 32) with 0. rewrite Z.pow_0_r, !Z.div_1_r.
  rewrite octet0_div, (octet_div n 1) by lia. change (8 * (3 - 1)) with 16.
  change (v4_of_octets 169 254 169 254) with 0xa9fea9fe. change (v4_of_octets 100 100 100 200) with 0x646464c8.
  set (a := n / 2 ^ 24). set (b := n / 2 ^ 16 mod 256).
  assert (Hab : a * 2 ^ 24 + b * 2 ^ 16 <= n < a * 2 ^ 24 + b * 2 ^ 16 + 2 ^ 16 /\ 0 <= a < 256 /\ 0 <= b < 256).
  { unfold a, b. change (2 ^ 24) with (2 ^ 16 * 256). rewrite <-Z.div_div by lia. zlia. }
  clearbody a b. apply bool_eq_iff. unfold in_ranges, blocked_v4_ranges, any. cbn [existsb].
  rewrite !if_true_orb, !orb_true_iff, !andb_true_iff, !Z.leb_le, !Z.eqb_eq. lia.
Qed.

Lemma top_digit_zero (m k : Z) :
  m / 2 ^ k mod 65536 = 0 -> 0 <= k -> 0 <= m < 2 ^ (k + 16) -> m < 2 ^ k.
Proof.
  intros H Hk Hm. assert (0 < 2 ^ k) by (apply Z.pow_pos_nonneg; lia).
  rewrite Z.pow_add_r in Hm by lia. rewrite Z.mod_small in H.
  - apply Z.div_small_iff in H; lia.
  - split; [apply Z.div_pos; lia|]. apply Z.div_lt_upper_bound; lia.
Qed.

Lemma segments_zero (n : Z) :
  0 <= n < 2 ^ 128 -> any (fun i => negb (segment n i =? 0)) [0; 1; 2; 3; 4; 5] = negb (n <? 2 ^ 32).
Proof.
  intros Hn.
  assert (Hs : forall i, 0 <= i <= 5 -> segment n i = n / 2 ^ 32 / 2 ^ (16 * (5 - i)) mod 65536).
  { intros i Hi. rewrite segment_div, Z.div_div by (try apply Z.pow_nonzero; lia).
    rewrite <-Z.pow_add_r by lia. do 3 f_equal. lia. }
  destruct (any _ _) eqn:E; symmetry.
  - apply any_true in E as (i & Hi & Hne). apply negb_true_iff, Z.eqb_neq in Hne.
    assert (Hi' : 0 <= i <= 5) by (rewrite !elem_of_cons, elem_of_nil in Hi; lia).
    apply negb_true_iff, Z.ltb_ge, Z.nlt_ge. intros Hlt. apply Hne.
    rewrite Hs, (Z.div_small n) by lia. by rewrite Z.div_0_l by (apply Z.pow_nonzero; lia).
  - rewrite any_false in E. apply negb_false_iff, Z.ltb_lt, Z.nle_gt. intros Hge.
    assert (Hz : forall i, 0 <= i <= 5 -> segment n i = 0).
    { intros i Hi. apply Z.eqb_eq, negb_false_iff, E. rewrite !elem_of_cons. lia. }
    pose proof (Hz 0) as H0. pose proof (Hz 1) as H1. pose proof (Hz 2) as H2.
    pose proof (Hz 3) as H3. pose proof (Hz 4) as H4. pose proof (Hz 5) as H5.
    rewrite Hs in H0, H1, H2, H3, H4, H5 by lia. clear Hs Hz E.
    specialize (H0 ltac:(lia)). specialize (H1 ltac:(lia)). specialize (H2 ltac:(lia)).
    specialize (H3 ltac:(lia)). specialize (H4 ltac:(lia)). specialize (H5 ltac:(lia)).
    assert (Hm : 0 < n / 2 ^ 32 < 2 ^ 96) by zlia. set (m := n / 2 ^ 32) in *. clearbody m.
    apply (top_digit_zero _ 80) in H0; [|lia..]. apply (top_digit_zero _ 64) in H1; [|lia..].
    apply (top_digit_zero _ 48) in H2; [|lia..]. apply (top_digit_zero _ 32) in H3; [|lia..].
    apply (top_digit_zero _ 16) in H4; [|lia..]. apply (top_digit_zero _ 0) in H5; lia.
Qed.

Lemma embedded_v4_spec (n : Z) :
  0 <= n < 2 ^ 128 ->
  match to_ipv4_mapped n with Some v4 => Some v4 | None => ipv4_compatible n end = embedded_v4 n.
Proof.
  intros Hn. unfold to_ipv4_mapped, ipv4_compatible, embedded_v4. rewrite segments_zero by done.
  rewrite Z.shiftr_div_pow2 by lia. change (2 ^ 32 - 1) with (Z.ones 32). rewrite Z.land_ones by lia.
  destruct (Z.eqb_spec (n / 2 ^ 32) 0xffff) as [E|E].
  - replace ((0xffff * 2 ^ 32 <=? n) && (n <? 0x10000 * 2 ^ 32)) with true
      by (symmetry; apply andb_true_iff; rewrite Z.leb_le, Z.ltb_lt; zlia).
    f_equal. zlia.
  - replace ((0xffff * 2 ^ 32 <=? n) && (n <? 0x10000 * 2 ^ 32)) with false
      by (symmetry; apply not_true_iff_false; rewrite andb_true_iff, Z.leb_le, Z.ltb_lt; zlia).
    destruct (Z.ltb_spec n (2 ^ 32)); simpl negb; cbv iota; [|by rewrite andb_false_r].
    assert (E4 : v4_of_octets (Z.shiftr (segment n 6) 8) (Z.land (segment n 6) 255)
                   (Z.shiftr (segment n 7) 8) (Z.land (segment n 7) 255) = n).
    { unfold v4_of_octets. change 255 with (Z.ones 8). rewrite !Z.land_ones, !Z.shiftr_div_pow2 by lia.
      rewrite !segment_div by lia. change (16 * (7 - 6)) with 16. change (16 * (7 - 7)) with 0. zlia. }
    rewrite E4, andb_true_r. destruct (Z.leb_spec n 1), (Z.leb_spec 2 n); (done || lia).
Qed.

Lemma blocked_plain_v6 (n : Z) :
  0 <= n < 2 ^ 128 -> is_blocked_plain (V6 n) = in_ranges blocked_v6_ranges n.
Proof.
  intros Hn. unfold is_blocked_plain, is_loopback, is_multicast, is_unspecified,
    CLOUD_METADATA_CIDRS, cidr_v4, cidr_v6, cidr_contains, any. cbn [existsb addr prefix_len].
  rewrite !net_mask_land by closed_bounds.
  rewrite segment0_div by done.
  assert (Hseg : 0 <= n / 2 ^ 112 < 2 ^ 16) by zlia.
  change 0xff00 with (Z.shiftl (Z.ones (16 - 8)) 8) at 1. change 0xffc0 with (Z.shiftl (Z.ones (16 - 6)) 6).
  change 0xfe00 with (Z.shiftl (Z.ones (16 - 9)) 9). rewrite !land_high_mask by lia.
  change (128 - 128) with 0. rewrite Z.pow_0_r, !Z.div_1_r.
  change (128 - 96) with 32. change (128 - 16) with 112.
  change (v6_of_segments [0xfd00; 0x0ec2; 0; 0; 0; 0; 0; 0x0254]) with (0xfd000ec2 * 2 ^ 96 + 0x254).
  change (v6_of_segments [0x0064; 0xff9b; 0; 0; 0; 0; 0; 0] / 2 ^ 32) with (0x64ff9b * 2 ^ 64).
  change (v6_of_segments [0x2002; 0; 0; 0; 0; 0; 0; 0] / 2 ^ 112) with 0x2002.
  assert (F1 : 0x64ff9b * 2 ^ 64 = n / 2 ^ 32 <-> 0x64ff9b * 2 ^ 96 <= n <= 0x64ff9b * 2 ^ 96 + 0xffffffff) by zlia.
  set (s := n / 2 ^ 112) in *.
  assert (Hs : s * 2 ^ 112 <= n < s * 2 ^ 112 + 2 ^ 112) by (unfold s; zlia).
  assert (F2 : s / 2 ^ 8 * 2 ^ 8 = 0xff00 <-> 0xff00 <= s) by (clear -Hseg; clearbody s; zlia).
  assert (F3 : s / 2 ^ 6 * 2 ^ 6 = 0xfe80 <-> 0xfe80 <= s < 0xfec0) by (clear -Hseg; clearbody s; zlia).
  assert (F4 : s / 2 ^ 6 * 2 ^ 6 = 0xfec0 <-> 0xfec0 <= s < 0xff00) by (clear -Hseg; clearbody s; zlia).
  assert (F5 : s / 2 ^ 9 * 2 ^ 9 = 0xfc00 <-> 0xfc00 <= s < 0xfe00) by (clear -Hseg; clearbody s; zlia).
  clearbody s. apply bool_eq_iff. unfold in_ranges, blocked_v6_ranges, any. cbn [existsb].
  rewrite !if_true_orb, !orb_true_iff, !andb_true_iff, !Z.leb_le, !Z.eqb_eq.
  rewrite F1, F2, F3, F4, F5. clear F1 F2 F3 F4 F5. lia.
Qed.

(** The decision on the host name of a URL that has one: what the three forms share. *)
Definition url_host (url_parse : string -> option url) (u : string) : option string :=
  parsed ← url_parse u;
  if http_scheme (scheme parsed) then host_str parsed else None.

Lemma redirect_target_host (url_parse : string -> option url) (u : string) :
  is_redirect_target_safe url_parse u =
  match url_host url_parse u with
  | Some h => negb (host_blocked h) && negb (literal_blocked h)
  | None => false
  end.
Proof.
  unfold is_redirect_target_safe, url_host. destruct (url_parse u) as [p|]; simpl; [|done].
  destruct (http_scheme (scheme p)); simpl; [|done]. destruct (host_str p) as [h|]; [|done].
  destruct (host_blocked h); [done|]. by destruct (literal_blocked h).
Qed.

Lemma safe_inner_host (url_parse : string -> option url) (dns : string -> option (list ip_addr)) (u : string) (fc : bool) :
  is_url_safe_inner url_parse dns u fc =
  negb (is_empty u) &&
  (safe_prefix u || relative_path u ||
   (is_redirect_target_safe url_parse u &&
    match url_host url_parse u ≫= dns with
    | Some addrs => negb (any is_blocked_ip addrs)
    | None => negb fc
    end)).
Proof.
  unfold is_url_safe_inner. rewrite redirect_target_host. unfold url_host.
  destruct (is_empty u); [done|]. destruct (safe_prefix u); [done|]. destruct (relative_path u); [done|].
  destruct (url_parse u) as [p|]; simpl; [|done]. destruct (http_scheme (scheme p)); simpl; [|done].
  destruct (host_str p) as [h|]; simpl; [|done]. destruct (host_blocked h); [done|].
  destruct (literal_blocked h); [done|]. simpl. destruct (dns h) as [a|]; [|by destruct fc].
  by destruct (any is_blocked_ip a).
Qed.

Lemma starts_with_empty (u p : string) : is_empty u = true -> is_empty p = false -> starts_with u p = false.
Proof. destruct u; [|done]. by destruct p. Qed.

Lemma shortcut_nonempty (u : string) : safe_prefix u || relative_path u = true -> is_empty u = false.
Proof. destruct u; [done|done]. Qed.

(** The cache after a lookup and the verdict it gave. *)
Lemma resolve_verdict_spec (lookup : string -> Z -> option (list ip_addr)) (r w : Z) (c : cache) (k h : string) (t : Z) :
  let '(v, c') := resolve_host_verdict lookup r w c k h t in
  (exists at_, c !! k = Some (v, at_) /\ Z.max 0 (r - at_) < DNS_VERDICT_TTL /\ c' = c) \/
  (forall v' at_, c !! k = Some (v', at_) -> DNS_VERDICT_TTL <= Z.max 0 (r - at_)) /\
  match lookup (String.append h ":0") t with
  | None => v = Unresolved /\ c' = c
  | Some addrs => v = addrs_verdict addrs /\
      c' = <[k := (v, w)]> (if DNS_CACHE_MAX_ENTRIES <=? Z.of_nat (size c) then ∅ else c)
  end.
Proof.
  unfold resolve_host_verdict. destruct (c !! k) as [[v0 at0]|] eqn:E.
  - destruct (Z.ltb_spec (Z.max 0 (r - at0)) DNS_VERDICT_TTL); [left; by exists at0|].
    destruct (lookup _ t); right; (split; [|done]); intros v' at_ [= <- <-]; done.
  - destruct (lookup _ t); right; (split; [|done]); intros v' at_; done.
Qed.

(** The cache invariant: bounded, and only definitive verdicts. *)
Definition cache_ok (c : cache) : Prop :=
  Z.of_nat (size c) <= DNS_CACHE_MAX_ENTRIES /\ map_Forall (fun _ e => fst e <> Unresolved) c.

Lemma addrs_verdict_definitive (addrs : list ip_addr) : addrs_verdict addrs <> Unresolved.
Proof. unfold addrs_verdict. by destruct (any is_blocked_ip addrs). Qed.

Lemma cache_insert_ok (c : cache) (k : string) (v : HostVerdict) (w : Z) :
  cache_ok c -> v <> Unresolved ->
  cache_ok (<[k := (v, w)]> (if DNS_CACHE_MAX_ENTRIES <=? Z.of_nat (size c) then ∅ else c)).
Proof.
  intros [Hs Hd] Hv. split.
  - destruct (Z.leb_spec DNS_CACHE_MAX_ENTRIES (Z.of_nat (size c))).
    + rewrite map_size_insert, lookup_empty, map_size_empty. vm_compute. discriminate.
    + rewrite map_size_insert. destruct (c !! k); simpl; lia.
  - apply map_Forall_insert_2; [done|]. destruct (_ <=? _); [apply map_Forall_empty|done].
Qed.

(** ** Properties *)

(** The blocked addresses, exactly: an address is blocked when it lies in one of eight IPv4 or five
    IPv6 intervals; an IPv6 address that stands for an IPv4 address, mapped or compatible, has the verdict
    of that address, so wrapping an internal target in IPv6 never changes the answer. *)
Theorem blocked_ip_exact (ip : ip_addr) : ip_ok ip -> is_blocked_ip ip = blocked_spec ip.
Proof.
  destruct ip as [n|n]; cbn [ip_ok is_blocked_ip blocked_spec]; intros Hn; [exact (blocked_plain_v4 n Hn)|].
  rewrite embedded_v4_spec by done. destruct (embedded_v4 n) as [v4|] eqn:E; [|by apply blocked_plain_v6].
  apply blocked_plain_v4. unfold embedded_v4 in E.
  destruct (_ && _) eqn:E1 in E; [injection E as <-; bool_prop; lia|].
  destruct (_ && _) eqn:E2 in E; [injection E as <-; bool_prop; lia|done].
Qed.

Lemma blocked_ip_exact_witness :
  (exists ip, parse_ip "[::ffff:169.254.169.254]" = Some ip /\ is_blocked_ip ip = blocked_spec ip /\ blocked_spec ip = true)
  /\ is_blocked_ip (V4 0x08080808) = false.
Proof.
  split.
  - eexists. split; [vm_compute; reflexivity|]. split; [|vm_compute; reflexivity].
    apply blocked_ip_exact. vm_compute. split; congruence.
  - rewrite (blocked_ip_exact (V4 0x08080808)); [vm_compute; reflexivity|]. vm_compute. split; congruence.
Defined.

(** C1: What the guard lets through, exactly: apart from [about:] URLs and same-origin paths, a URL is safe
    when the DNS-free redirect check accepts it and its host's resolution, when there is one, holds no
    blocked address; an unresolvable host passes only the fail-open form. So the navigation
    guard accepts no host it could not resolve, accepts only what the route guard accepts, and the redirect
    check refuses nothing the full guard would accept. *)
Theorem url_guard_exact (url_parse : string -> option url) (dns : string -> option (list ip_addr)) (u : string) :
  (forall fc, is_url_safe_inner url_parse dns u fc = true <->
     safe_prefix u = true \/ relative_path u = true \/
     u <> EmptyString /\ exists h, url_host url_parse u = Some h /\
       host_blocked h = false /\ literal_blocked h = false /\
       match dns h with
       | Some addrs => forall ip, ip ∈ addrs -> is_blocked_ip ip = false
       | None => fc = false
       end) /\
  (is_navigation_url_safe url_parse dns u = true -> is_url_safe url_parse dns u = true) /\
  (is_url_safe url_parse dns u = true ->
     safe_prefix u = true \/ relative_path u = true \/ is_redirect_target_safe url_parse u = true).
Proof.
  assert (H : forall fc, is_url_safe_inner url_parse dns u fc = true <->
     safe_prefix u = true \/ relative_path u = true \/
     u <> EmptyString /\ exists h, url_host url_parse u = Some h /\
       host_blocked h = false /\ literal_blocked h = false /\
       match dns h with
       | Some addrs => forall ip, ip ∈ addrs -> is_blocked_ip ip = false
       | None => fc = false
       end).
  { intros fc. rewrite safe_inner_host, andb_true_iff, !orb_true_iff, andb_true_iff, redirect_target_host, negb_true_iff.
    pose proof (shortcut_nonempty u) as Hs. rewrite orb_true_iff in Hs.
    assert (Hu : is_empty u = false <-> u <> EmptyString) by (by destruct u).
    destruct (url_host url_parse u) as [h|]; simpl; [|naive_solver].
    rewrite andb_true_iff, !negb_true_iff.
    assert (Hd : match dns h with Some addrs => negb (any is_blocked_ip addrs) | None => negb fc end = true <->
                 match dns h with
                 | Some addrs => forall ip, ip ∈ addrs -> is_blocked_ip ip = false
                 | None => fc = false
                 end).
    { destruct (dns h); rewrite negb_true_iff; [apply any_false|done]. }
    rewrite Hd, Hu. clear Hd Hu. naive_solver. }
  split; [exact H|]. split.
  - unfold is_navigation_url_safe, is_url_safe. rewrite !H. intros [?|[?|(Hu & h & Hh & H1 & H2 & H3)]]; [tauto|tauto|].
    right; right. split; [done|]. exists h. split_and!; try done. by destruct (dns h).
  - unfold is_url_safe. rewrite H, redirect_target_host.
    intros [?|[?|(Hu & h & -> & -> & -> & _)]]; [tauto|tauto|]. by right; right.
Qed.

(** The asynchronous guard decides as the synchronous one: with no fresh verdict in the cache and a bounded
    resolution that answers like the plain one, it gives no reason exactly when the synchronous
    guard says safe; the reason given is otherwise the first check that failed, and only a resolved
    host changes the cache. *)
Theorem sync_async_agree (url_parse : string -> option url) (dns : string -> option (list ip_addr))
    (lookup : string -> Z -> option (list ip_addr)) (r w : Z) (c : cache) (u : string) (fc : bool) :
  (forall h t, lookup (String.append h ":0") t = dns h) ->
  (forall h v at_, url_host url_parse u = Some h -> c !! hostname_no_dot h = Some (v, at_) ->
     DNS_VERDICT_TTL <= r - at_) ->
  let '(reason, c') := refusal_reason_inner url_parse lookup r w c u fc in
  is_url_safe_inner url_parse dns u fc = bool_decide (reason = None) /\
  (c' <> c -> exists h addrs, url_host url_parse u = Some h /\ dns h = Some addrs).
Proof.
  intros Hl Hc. unfold refusal_reason_inner, is_url_safe_inner, url_host in *.
  destruct (is_empty u); [done|]. destruct (safe_prefix u); [done|]. destruct (relative_path u); [done|].
  destruct (url_parse u) as [p|]; simpl in Hc |- *; [|done].
  destruct (http_scheme (scheme p)); simpl in Hc |- *; [|done].
  destruct (host_str p) as [h|]; simpl in Hc |- *; [|done].
  destruct (host_blocked h); [done|]. destruct (literal_blocked h); [done|].
  pose proof (resolve_verdict_spec lookup r w c (hostname_no_dot h) h (if fc then NAV_DNS_TIMEOUT else ROUTE_DNS_TIMEOUT)) as Hv.
  destruct (resolve_host_verdict _ _ _ _ _ _ _) as [v c'].
  destruct Hv as [(at_ & Hk & Ht & _)|[_ Hv]].
  { specialize (Hc h v at_ eq_refl Hk). unfold DNS_VERDICT_TTL in *. lia. }
  rewrite Hl in Hv. destruct (dns h) as [addrs|] eqn:Ed; destruct Hv as [-> Hc'].
  - unfold addrs_verdict. split; [by destruct (any is_blocked_ip addrs)|]. intros _. by exists h, addrs.
  - split; [by destruct fc|]. intros Hne. by destruct Hne.
Qed.

Definition sample_parse (u : string) : option url :=
  match strip_prefix "https://" u with Some h => Some (mkUrl "https" (Some h)) | None => None end.
Definition sample_dns (h : string) : option (list ip_addr) :=
  if str_eqb h "rebind.example" then Some [V4 0x08080808; V4 0x0a000001] else None.
Definition sample_lookup (h : string) (_ : Z) : option (list ip_addr) :=
  match strip_suffix ":0" h with Some h => sample_dns h | None => None end.

Lemma sync_async_agree_witness :
  let '(reason, _) := refusal_reason_inner sample_parse (fun h _ => if str_eqb h "rebind.example:0" then Some [V4 0x0a000001] else None)
                        5 6 ∅ "https://rebind.example" true in
  reason <> None /\ is_url_safe_inner sample_parse (fun h => if str_eqb (String.append h ":0") "rebind.example:0" then Some [V4 0x0a000001] else None)
                      "https://rebind.example" true = false.
Proof.
  pose proof (sync_async_agree sample_parse
    (fun h => if str_eqb (String.append h ":0") "rebind.example:0" then Some [V4 0x0a000001] else None)
    (fun h _ => if str_eqb h "rebind.example:0" then Some [V4 0x0a000001] else None) 5 6 ∅ "https://rebind.example" true
    (fun h t => eq_refl)) as H.
  assert (Hr : bool_decide (fst (refusal_reason_inner sample_parse
      (fun h _ => if str_eqb h "rebind.example:0" then Some [V4 0x0a000001] else None)
      5 6 ∅ "https://rebind.example" true) = None) = false) by (vm_compute; reflexivity).
  destruct (refusal_reason_inner _ _ _ _ _ _ _) as [reason c'].
  destruct H as [H _].
  - intros h v at_ _ He. vm_compute in He. discriminate.
  - split; [exact (bool_decide_eq_false_1 _ Hr)|]. rewrite H. exact Hr.
Defined.

(** The verdict cache: every lookup keeps it within 4096 entries, all of them definitive; a verdict is taken
    from it only within a minute of the resolution that gave it; and a failed or timed-out
    resolution is reported but never stored. *)
Theorem verdict_cache_sound (lookup : string -> Z -> option (list ip_addr)) (r w : Z) (c : cache) (k h : string) (t : Z) :
  cache_ok c ->
  let '(v, c') := resolve_host_verdict lookup r w c k h t in
  cache_ok c' /\
  (v = Unresolved -> c' = c /\ lookup (String.append h ":0") t = None) /\
  (forall k' v' at_, c' !! k' = Some (v', at_) -> c !! k' = Some (v', at_) \/
     k' = k /\ at_ = w /\ exists addrs, lookup (String.append h ":0") t = Some addrs /\ v' = addrs_verdict addrs) /\
  (forall v0 at_, c !! k = Some (v0, at_) -> (v = v0 /\ c' = c) \/ DNS_VERDICT_TTL <= Z.max 0 (r - at_)).
Proof.
  intros Hc. pose proof (resolve_verdict_spec lookup r w c k h t) as H.
  destruct (resolve_host_verdict lookup r w c k h t) as [v c'].
  destruct H as [(at_ & Hk & Ht & ->)|[Hstale H]].
  - split; [done|]. split; [|split].
    + intros ->. by destruct (proj2 Hc k (Unresolved, at_) Hk).
    + auto.
    + intros v0 at0 H0. rewrite Hk in H0. injection H0 as <- <-. by left.
  - destruct (lookup (String.append h ":0") t) as [addrs|]; destruct H as [-> ->].
    + pose proof (addrs_verdict_definitive addrs) as Hd. split; [by apply cache_insert_ok|].
      split; [done|]. split; [|intros v0 at0 H0; right; by eapply Hstale].
      intros k' v' at' H'. apply lookup_insert_Some in H' as [[<- [= <- <-]]|[Hne H']].
      * right. split; [done|]. split; [done|]. by exists addrs.
      * left. destruct (_ <=? _); [by rewrite lookup_empty in H'|done].
    + split; [done|]. split; [done|]. split; [auto|]. intros v0 at0 H0. right. by eapply Hstale.
Qed.

Lemma verdict_cache_sound_witness :
  let '(v, c') := resolve_host_verdict sample_lookup 0 1 ∅ "rebind.example" "rebind.example" 5 in
  cache_ok c' /\ v = Internal.
Proof.
  pose proof (verdict_cache_sound sample_lookup 0 1 ∅ "rebind.example" "rebind.example" 5) as H.
  assert (Hv : fst (resolve_host_verdict sample_lookup 0 1 ∅ "rebind.example" "rebind.example" 5) = Internal)
    by (vm_compute; reflexivity).
  destruct (resolve_host_verdict _ _ _ _ _ _ _) as [v c']. destruct H as [H _].
  - split; [vm_compute; discriminate|apply map_Forall_empty].
  - split; [exact H|exact Hv].
Defined.

(** A browser resolves a backslash after the slash like a second slash, so this relative path leaves the origin. *)
Example relative_backslash_is_safe :
  is_url_safe_inner (fun _ => None) (fun _ => None) "/\169.254.169.254/latest/" true = true.
Proof. reflexivity. Qed.
