(* ===== verification/CookieJar.v ===== *)
(** * automation/http_lane/jar.rs

    The cookie jar of the browserless HTTP lane. The clock ([now_epoch_wall]) is an argument
    of each operation that reads it; the two date parsers of the time library and the Unicode
    upper-casing of a non-ASCII character are parameters. Of a parsed URL the jar reads the scheme,
    the host and the path. *)

From Stdlib Require Import Ascii String Sorted.
From S2P Require Import Prelude Ints F64 Str Json.
Open Scope Z_scope.

(** ** Data *)

Record request_url : Type := mkReq {
  scheme : string;
  host_str : option string;
  path : string;
}.

Record StoredCookie : Type := mkCookie {
  c_name : string;
  c_value : string;
  c_domain : string;
  c_path : string;
  expires : f64;
  http_only : bool;
  secure : bool;
  same_site : option string;
  creation_index : Z;
}.

Record CookieJar : Type := mkJar {
  cookies : list StoredCookie;
  next_creation_index : Z;
}.

Definition MAX_COOKIES : nat := 512.
Definition jar_new : CookieJar := mkJar [] 0.

(** The [-1] of a session cookie. *)
Definition session_expiry : f64 := f64_of_Z (-1).

Definition is_expired (c : StoredCookie) (now : f64) : bool :=
  negb (f64_eqb (expires c) session_expiry) && f64_leb (expires c) now.

(** ** Matching *)

Definition domain_matches (host cookie_domain : string) : bool :=
  if is_empty cookie_domain then false
  else match strip_prefix "." cookie_domain with
       | Some bare => str_eqb host bare || ends_with host (String.append "." bare)
       | None => str_eqb host cookie_domain
       end.

Definition path_matches (req_path cookie_path : string) : bool :=
  if str_eqb cookie_path req_path then true
  else match strip_prefix cookie_path req_path with
       | Some rest => ends_with cookie_path "/" || starts_with rest "/"
       | None => false
       end.

(** [rfind] of one byte. *)
Fixpoint rfind_byte (f : ascii -> bool) (s : string) : option nat :=
  match s with
  | EmptyString => None
  | String c r => match rfind_byte f r with
                  | Some i => Some (S i)
                  | None => if f c then Some O else None
                  end
  end.

Definition default_path (u : request_url) : string :=
  let p := path u in
  if negb (starts_with p "/") then "/"%string
  else match rfind_byte (byte_is "/"%char) p with
       | Some O | None => "/"%string
       | Some i => str_take i p
       end.

(** ** The jar *)

Definition make_room (j : CookieJar) (now : f64) : CookieJar :=
  if (length (cookies j) <? MAX_COOKIES)%nat then j
  else
    match position (fun c => is_expired c now) (cookies j) with
    | Some pos => mkJar (delete pos (cookies j)) (next_creation_index j)
    | None =>
        match min_by_key (fun ic => creation_index (snd ic)) (enumerate (cookies j)) with
        | Some (pos, _) => mkJar (delete pos (cookies j)) (next_creation_index j)
        | None => j
        end
    end.

Definition same_key (name domain path : string) (c : StoredCookie) : bool :=
  str_eqb (c_name c) name && str_eqb (c_domain c) domain && str_eqb (c_path c) path.

(** The tail shared by [set_cookie] and [store_set_cookie]: replace, make room, append. *)
Definition store (j : CookieJar) (now : f64) (name value domain path : string) (expires : f64)
    (http_only secure : bool) (same_site : option string) : CookieJar :=
  let j := mkJar (retain (fun c => negb (same_key name domain path c)) (cookies j)) (next_creation_index j) in
  let j := make_room j now in
  mkJar (cookies j ++ [mkCookie name value domain path expires http_only secure same_site (next_creation_index j)])%list
        (next_creation_index j + 1).

Definition set_cookie (j : CookieJar) (now : f64) (name value domain path : string) : CookieJar :=
  store j now name value domain path session_expiry false false None.

Definition value_of (j : CookieJar) (name : string) : option string :=
  c_value <$> max_by_key creation_index (retain (fun c => str_eqb (c_name c) name) (cookies j)).

Definition clear (j : CookieJar) : CookieJar := mkJar [] (next_creation_index j).

(** Longest path first, then creation order. *)
Definition header_le (a b : StoredCookie) : bool :=
  if str_len (c_path b) <? str_len (c_path a) then true
  else if str_len (c_path a) <? str_len (c_path b) then false
  else creation_index a <=? creation_index b.

(** The filter of [cookie_header_for]. *)
Definition cookie_sent (u : request_url) (host : string) (now : f64) (c : StoredCookie) : bool :=
  let req_path := if is_empty (path u) then "/"%string else path u in
  if is_expired c now then false
  else if secure c && negb (str_eqb (scheme u) "https") then false
  else if negb (domain_matches host (c_domain c)) then false
  else path_matches req_path (c_path c).

Definition cookie_header_for (j : CookieJar) (u : request_url) (now_epoch : f64) : option string :=
  match host_str u with
  | None => None
  | Some h =>
      let host := to_ascii_lowercase h in
      match sort_by header_le (retain (cookie_sent u host now_epoch) (cookies j)) with
      | [] => None
      | l => Some (join "; " ((fun c => String.append (c_name c) (String.append "=" (c_value c))) <$> l))
      end
  end.

Definition to_session_cookie (c : StoredCookie) : json :=
  JObj [("name", JStr (c_name c)); ("value", JStr (c_value c)); ("domain", JStr (c_domain c)); ("path", JStr (c_path c));
        ("expires", if f64_eqb (expires c) session_expiry then json_of_Z (-1)
                    else if f64_is_finite (expires c) then JNum (Float (expires c)) else JNull);
        ("httpOnly", JBool (http_only c)); ("secure", JBool (secure c));
        ("sameSite", match same_site c with Some s => JStr s | None => JNull end)]%string.

Definition to_session_cookies (j : CookieJar) : list json := to_session_cookie <$> cookies j.

Section parameters.
Context (unicode_upper : string -> string).
Context (parse_rfc2822 parse_netscape_date : string -> option Z).

Definition char_to_uppercase (s : string) : string :=
  match s with
  | String c EmptyString => String (upper_byte c) EmptyString
  | _ => unicode_upper s
  end.

Definition normalize_same_site (v : string) : string :=
  let v := to_ascii_lowercase (trim v) in
  if str_eqb v "strict" then "Strict"%string
  else if str_eqb v "lax" then "Lax"%string
  else if str_eqb v "none" then "None"%string
  else if is_empty v then EmptyString
  else String.append (char_to_uppercase (str_take (char_len v) v)) (str_drop (char_len v) v).

(** The body of the loop of [from_session_cookies]; [None] when the entry is skipped. *)
Definition cookie_of_json (idx : Z) (c : json) : option StoredCookie :=
  match get c "name" ≫= json_as_str, get c "value" ≫= json_as_str with
  | Some name, Some value =>
      Some (mkCookie name value
              (unwrap_or (get c "domain" ≫= json_as_str) EmptyString)
              (unwrap_or (get c "path" ≫= json_as_str) "/"%string)
              (unwrap_or (get c "expires" ≫= json_as_f64) session_expiry)
              (unwrap_or (get c "httpOnly" ≫= json_as_bool) false)
              (unwrap_or (get c "secure" ≫= json_as_bool) false)
              (normalize_same_site <$> (get c "sameSite" ≫= json_as_str)) idx)
  | _, _ => None
  end.

Fixpoint seed (j : CookieJar) (cs : list json) : CookieJar :=
  match cs with
  | [] => j
  | c :: cs' =>
      match cookie_of_json (next_creation_index j) c with
      | None => seed j cs'
      | Some cookie =>
          if (MAX_COOKIES <=? length (cookies j))%nat then j
          else seed (mkJar (cookies j ++ [cookie])%list (next_creation_index j + 1)) cs'
      end
  end.

Definition from_session_cookies (cs : list json) : CookieJar := seed jar_new cs.

(** The attributes of a [Set-Cookie] header, as the loop over its parts collects them. *)
Record attributes : Type := mkAttrs {
  domain_attr : option string;
  path_attr : option string;
  expires_attr : option f64;
  max_age_attr : option f64;
  a_http_only : bool;
  a_secure : bool;
  a_same_site : option string;
}.

Definition attrs_default : attributes := mkAttrs None None None None false false None.

(** [find('=')] with both sides trimmed, or the whole with an empty value. *)
Definition key_value (attr : string) : string * string :=
  match split_once "="%char attr with
  | Some (k, v) => (trim k, trim v)
  | None => (attr, EmptyString)
  end.

Definition apply_attr (a : attributes) (part : string) : attributes :=
  let '(k, v) := key_value (trim part) in
  let k := to_ascii_lowercase k in
  let '(mkAttrs d p e m h s ss) := a in
  if str_eqb k "domain" && negb (is_empty v)
  then mkAttrs (Some (to_ascii_lowercase (trim_start_by (byte_is "."%char) v))) p e m h s ss
  else if str_eqb k "path" && starts_with v "/" then mkAttrs d (Some v) e m h s ss
  else if str_eqb k "expires" then
    match (match parse_rfc2822 v with Some t => Some t | None => parse_netscape_date v end) with
    | Some t => mkAttrs d p (Some (f64_of_Z t)) m h s ss
    | None => a
    end
  else if str_eqb k "max-age" then
    match parse_i64 v with
    | Some secs => mkAttrs d p e (Some (f64_of_Z secs)) h s ss
    | None => a
    end
  else if str_eqb k "httponly" then mkAttrs d p e m true s ss
  else if str_eqb k "secure" then mkAttrs d p e m h true ss
  else if str_eqb k "samesite" && negb (is_empty v)
  then mkAttrs d p e m h s (Some (normalize_same_site v))
  else a.

(** The stored domain: [None] rejects the cookie. *)
Definition stored_domain (host : string) (attr : option string) : option string :=
  match attr with
  | Some d =>
      if str_eqb host d || ends_with host (String.append "." d) then Some (String.append "." d) else None
  | None => Some host
  end.

(** [wall] is the reading a [Max-Age] is resolved against, [now] that of [make_room]. *)
Definition store_set_cookie (j : CookieJar) (wall now : f64) (u : request_url) (set_cookie : string) : CookieJar :=
  match host_str u with
  | None => j
  | Some h =>
      let host := to_ascii_lowercase h in
      match split ";"%char set_cookie with
      | [] => j
      | nv :: parts =>
          match split_once "="%char nv with
          | None => j
          | Some (n, v) =>
              let name := trim n in
              let value := trim v in
              if is_empty name then j
              else
                let a := foldl apply_attr attrs_default parts in
                match stored_domain host (domain_attr a) with
                | None => j
                | Some domain =>
                    let path := match path_attr a with Some p => p | None => default_path u end in
                    let expires :=
                      match max_age_attr a with
                      | Some ma => f64_add wall ma
                      | None => unwrap_or (expires_attr a) session_expiry
                      end in
                    store j now name value domain path expires (a_http_only a) (a_secure a) (a_same_site a)
                end
          end
      end
  end.

End parameters.

(** ** Invariant and lemmas *)

(** At most 512 cookies, in creation order, all created before the next index. *)
Definition jar_ok (j : CookieJar) : Prop :=
  (length (cookies j) <= MAX_COOKIES)%nat /\
  StronglySorted Z.lt (creation_index <$> cookies j) /\
  Forall (fun c => creation_index c < next_creation_index j) (cookies j).

Lemma sorted_sublist (f : StoredCookie -> Z) (l k : list StoredCookie) :
  l `sublist_of` k -> StronglySorted Z.lt (f <$> k) -> StronglySorted Z.lt (f <$> l).
Proof.
  induction 1 as [|x l k Hs IH|x l k Hs IH]; intros Hk; [constructor| |].
  - apply sorted_fmap_cons in Hk as [Hk Hx]. apply sorted_fmap_cons. split; [by apply IH|].
    by eapply Forall_sublist_of.
  - apply sorted_fmap_cons in Hk as [Hk Hx]. by apply IH.
Qed.

Lemma jar_sublist_ok (j : CookieJar) (l : list StoredCookie) :
  jar_ok j -> l `sublist_of` cookies j -> jar_ok (mkJar l (next_creation_index j)).
Proof.
  intros (Hl & Hs & Hf) Hsub. split_and!; simpl.
  - apply sublist_length in Hsub. lia.
  - by eapply sorted_sublist.
  - by eapply Forall_sublist_of.
Qed.

Lemma make_room_sublist (j : CookieJar) (now : f64) :
  cookies (make_room j now) `sublist_of` cookies j /\ next_creation_index (make_room j now) = next_creation_index j.
Proof.
  unfold make_room. destruct (_ <? _)%nat; [done|].
  destruct (position _ _); simpl; [split; [apply sublist_delete|done]|].
  destruct (min_by_key _ _) as [[pos c]|]; simpl; [split; [apply sublist_delete|done]|done].
Qed.

Lemma min_by_key_None {A : Type} (key : A -> Z) (l : list A) : min_by_key key l = None -> l = [].
Proof. destruct l as [|x l]; [done|]. simpl. by destruct (min_by_key key l). Qed.

Lemma make_room_length (j : CookieJar) (now : f64) :
  (length (cookies j) <= MAX_COOKIES)%nat -> (length (cookies (make_room j now)) < MAX_COOKIES)%nat.
Proof.
  intros Hl. unfold make_room. destruct (Nat.ltb_spec (length (cookies j)) MAX_COOKIES); [done|].
  destruct (position _ _) as [pos|] eqn:E; simpl.
  - apply position_Some in E as (c & Hc & _). rewrite length_delete; [|by eexists]. unfold MAX_COOKIES in *. lia.
  - destruct (min_by_key _ _) as [[pos c]|] eqn:Em; simpl.
    + apply min_by_key_Some in Em as [Hc _]. apply lookup_enumerate in Hc.
      rewrite length_delete; [|by eexists]. unfold MAX_COOKIES in *. lia.
    + apply min_by_key_None in Em. unfold enumerate in Em.
      assert (length (zip (seq 0 (length (cookies j))) (cookies j)) = 0%nat) as H0 by (by rewrite Em).
      rewrite length_zip, length_seq in H0. unfold MAX_COOKIES in *. lia.
Qed.

Lemma sorted_snoc_lt (l : list StoredCookie) (c : StoredCookie) :
  StronglySorted Z.lt (creation_index <$> l) -> Forall (fun d => creation_index d < creation_index c) l ->
  StronglySorted Z.lt (creation_index <$> (l ++ [c])%list).
Proof.
  induction l as [|b l IH]; intros Hs Hf; [by repeat constructor|].
  apply sorted_fmap_cons in Hs as [Hs Hb]. inversion Hf; subst.
  change ((b :: l) ++ [c])%list with (b :: (l ++ [c])%list).
  apply sorted_fmap_cons. split; [by apply IH|]. apply Forall_app. split; [done|by constructor].
Qed.

Lemma jar_push_ok (j : CookieJar) (c : StoredCookie) :
  jar_ok j -> (length (cookies j) < MAX_COOKIES)%nat -> creation_index c = next_creation_index j ->
  jar_ok (mkJar (cookies j ++ [c])%list (next_creation_index j + 1)).
Proof.
  intros (Hl & Hs & Hf) Hlt Hc. split_and!; simpl.
  - rewrite length_app. simpl. lia.
  - apply sorted_snoc_lt; [done|]. by rewrite Hc.
  - apply Forall_app. split; [|constructor; [lia|constructor]]. eapply Forall_impl; [exact Hf|]. simpl. lia.
Qed.

(** What the shared tail leaves: some of the old cookies, none with the key, and the new one last. *)
Lemma store_spec (j : CookieJar) (now : f64) (n v d p : string) (e : f64) (ho se : bool) (ss : option string) :
  jar_ok j ->
  let j' := store j now n v d p e ho se ss in
  jar_ok j' /\ exists old, cookies j' = (old ++ [mkCookie n v d p e ho se ss (next_creation_index j)])%list /\
    old `sublist_of` cookies j /\ Forall (fun c => same_key n d p c = false) old.
Proof.
  intros Hj j'. unfold j', store. set (j1 := mkJar (retain _ (cookies j)) _).
  assert (Hsub : cookies j1 `sublist_of` cookies j) by apply retain_sublist.
  assert (H1 : jar_ok j1) by (by apply (jar_sublist_ok j)).
  destruct (make_room_sublist j1 now) as [Hr Hn].
  pose proof (make_room_length j1 now (proj1 H1)) as Hlen.
  assert (H2 : jar_ok (make_room j1 now)).
  { pose proof (jar_sublist_ok j1 (cookies (make_room j1 now)) H1 Hr) as H. rewrite <-Hn in H.
    by destruct (make_room j1 now). }
  split; [apply jar_push_ok; done|]. exists (cookies (make_room j1 now)). rewrite Hn. split; [done|].
  split; [by etrans|]. apply Forall_forall. intros c Hc.
  assert (Hc1 : c ∈ cookies j1) by (by eapply sublist_subseteq).
  apply elem_of_retain in Hc1 as [Hc1 _]. by apply negb_true_iff in Hc1.
Qed.

Lemma seed_ok (up : string -> string) (cs : list json) (j : CookieJar) : jar_ok j -> jar_ok (seed up j cs).
Proof.
  revert j. induction cs as [|c cs IH]; intros j Hj; [done|]. cbn [seed].
  destruct (cookie_of_json up (next_creation_index j) c) as [k|] eqn:E; [|by apply IH].
  destruct (Nat.leb_spec MAX_COOKIES (length (cookies j))); [done|]. apply IH, jar_push_ok; [done..|].
  unfold cookie_of_json in E. by destruct (get c "name" ≫= json_as_str), (get c "value" ≫= json_as_str); simplify_eq.
Qed.

Lemma jar_new_ok : jar_ok jar_new.
Proof. split_and!; simpl; [unfold MAX_COOKIES; lia|constructor|constructor]. Qed.

(** The cookie [store_set_cookie] adds, if it accepts the header. *)
Lemma store_set_cookie_cases (up : string -> string) (p1 p2 : string -> option Z) (j : CookieJar) (wall now : f64)
    (u : request_url) (sc : string) :
  store_set_cookie up p1 p2 j wall now u sc = j \/
  exists h n v d p e ho se ss attr, host_str u = Some h /\
    stored_domain (to_ascii_lowercase h) attr = Some d /\ is_empty n = false /\
    store_set_cookie up p1 p2 j wall now u sc = store j now n v d p e ho se ss.
Proof.
  unfold store_set_cookie. destruct (host_str u) as [h|] eqn:Eh; [|by left].
  destruct (split ";" sc) as [|nv parts]; [by left|]. destruct (split_once "=" nv) as [[n v]|]; [|by left].
  destruct (is_empty (trim n)) eqn:En; [by left|].
  destruct (stored_domain _ _) as [d|] eqn:Ed; [|by left].
  right. do 10 eexists. split; [done|]. split; [exact Ed|]. split; [exact En|reflexivity].
Qed.

Lemma strip_dot (d : string) : strip_prefix "." (String.append "." d) = Some d.
Proof. by apply strip_prefix_Some. Qed.

Lemma domain_matches_dotted (host d : string) :
  domain_matches host (String.append "." d) = str_eqb host d || ends_with host (String.append "." d).
Proof. unfold domain_matches. rewrite strip_dot. done. Qed.

Lemma max_by_key_snoc {A : Type} (key : A -> Z) (l : list A) (x : A) :
  Forall (fun y => key y <= key x) l -> max_by_key key (l ++ [x])%list = Some x.
Proof.
  induction 1 as [|a l Ha Hl IH]; [done|]. simpl. rewrite IH. by destruct (Z.leb_spec (key a) (key x)); [|lia].
Qed.

Lemma cookie_sent_andb (u : request_url) (host : string) (now : f64) (c : StoredCookie) :
  cookie_sent u host now c =
  negb (is_expired c now) && negb (secure c && negb (str_eqb (scheme u) "https")) &&
  domain_matches host (c_domain c) && path_matches (if is_empty (path u) then "/"%string else path u) (c_path c).
Proof.
  unfold cookie_sent. destruct (is_expired c now); [done|]. destruct (secure c && _); [done|].
  by destruct (domain_matches host (c_domain c)).
Qed.

(** ** Properties *)

(** Scoping: whatever a response's [Set-Cookie] header says, the jar keeps only old cookies and at most one new one,
    stored under a domain the responding host itself matches; so the new cookie is later sent to
    that very host, or, under an accepted [Domain], only to hosts under the same suffix as the
    host that set it; and a secure cookie never leaves over plain http. *)
Theorem cookie_scoping (up : string -> string) (p1 p2 : string -> option Z) (j : CookieJar) (wall now : f64)
    (u : request_url) (h sc : string) (c : StoredCookie) :
  jar_ok j -> host_str u = Some h -> is_empty h = false ->
  c ∈ cookies (store_set_cookie up p1 p2 j wall now u sc) ->
  c ∈ cookies j \/
  (domain_matches (to_ascii_lowercase h) (c_domain c) = true /\
   forall u' host' now', cookie_sent u' host' now' c = true ->
     (secure c = true -> scheme u' = "https"%string) /\
     (host' = to_ascii_lowercase h \/
      exists d, c_domain c = String.append "." d /\
        (host' = d \/ ends_with host' (String.append "." d) = true) /\
        (to_ascii_lowercase h = d \/ ends_with (to_ascii_lowercase h) (String.append "." d) = true))).
Proof.
  intros Hj Hh Hne Hc.
  destruct (store_set_cookie_cases up p1 p2 j wall now u sc)
    as [E|(h' & n & v & d & p & e & ho & se & ss & attr & Hh' & Hd & _ & E)]; [rewrite E in Hc; by left|].
  rewrite Hh in Hh'. injection Hh' as <-. rewrite E in Hc.
  destruct (store_spec j now n v d p e ho se ss Hj) as (_ & old & Hold & Hsub & _). rewrite Hold in Hc.
  apply elem_of_app in Hc as [Hc|Hc]; [left; by eapply sublist_subseteq|right].
  apply list_elem_of_singleton in Hc as ->. cbn [c_domain].
  assert (Hsent : forall u' host' now' k, cookie_sent u' host' now' k = true ->
            (secure k = true -> scheme u' = "https"%string) /\ domain_matches host' (c_domain k) = true).
  { intros u' host' now' k. rewrite cookie_sent_andb, !andb_true_iff. intros [[[_ Hs] Hd'] _]. split; [|done].
    intros Hsec. rewrite Hsec in Hs. by apply negb_true_iff, negb_false_iff, str_eqb_eq in Hs. }
  unfold stored_domain in Hd. destruct attr as [a|].
  - destruct (_ || _) eqn:Ea; [|done]. injection Hd as <-. split.
    { pose proof (domain_matches_dotted (to_ascii_lowercase h) a) as Hdm. rewrite Ea in Hdm. exact Hdm. }
    intros u' host' now' Hs. apply Hsent in Hs as [Hs1 Hs2]. cbn [c_domain] in Hs2.
    pose proof (eq_trans (eq_sym (domain_matches_dotted host' a)) Hs2) as Hdm.
    split; [done|]. right. exists a.
    apply orb_true_iff in Ea, Hdm. rewrite str_eqb_eq in Ea, Hdm. done.
  - injection Hd as <-. set (host := to_ascii_lowercase h) in *.
    assert (He : is_empty host = false) by (by destruct h).
    unfold domain_matches. rewrite He. destruct (strip_prefix "." host) as [d'|] eqn:Er.
    + apply strip_prefix_Some in Er. change (String "." d') with (String.append "." d') in Er.
      assert (Hself : ends_with host (String.append "." d') = true).
      { apply ends_with_spec. by exists EmptyString. }
      rewrite Hself, orb_true_r. split; [done|].
      intros u' host' now' Hs. apply Hsent in Hs as [Hs1 Hs2]. split; [done|]. right. exists d'.
      cbn [c_domain] in Hs2. rewrite Er in Hs2.
      pose proof (eq_trans (eq_sym (domain_matches_dotted host' d')) Hs2) as Hdm. apply orb_true_iff in Hdm.
      rewrite str_eqb_eq in Hdm. auto.
    + split; [apply str_eqb_refl|]. intros u' host' now' Hs. apply Hsent in Hs as [Hs1 Hs2].
      cbn [c_domain] in Hs2. unfold domain_matches in Hs2. rewrite He, Er in Hs2. apply str_eqb_eq in Hs2. auto.
Qed.

Definition sample_req (sch h p : string) : request_url := mkReq sch (Some h) p.
Definition no_date (_ : string) : option Z := None.

Lemma cookie_scoping_witness :
  let j := store_set_cookie (fun s => s) no_date no_date jar_new (f64_of_Z 0) (f64_of_Z 0)
             (sample_req "https" "www.example.com" "/") "sid=1; Domain=example.com; Secure" in
  exists c, c ∈ cookies j /\ c_domain c = ".example.com"%string /\
    forall u' host' now', cookie_sent u' host' now' c = true -> secure c = true -> scheme u' = "https"%string.
Proof.
  intros j. destruct (cookies j) as [|c l] eqn:E; [vm_compute in E; discriminate|].
  assert (Hc : c ∈ cookies j) by (rewrite E; apply list_elem_of_here).
  exists c. split; [by rewrite E in Hc|].
  destruct (cookie_scoping (fun s => s) no_date no_date jar_new (f64_of_Z 0) (f64_of_Z 0)
     (sample_req "https" "www.example.com" "/") "www.example.com" "sid=1; Domain=example.com; Secure" c
     jar_new_ok eq_refl eq_refl Hc) as [H|[_ H]]; [by apply elem_of_nil in H|].
  split; [vm_compute in E; by injection E as <- _|].
  intros u' host' now' Hs. exact (proj1 (H u' host' now' Hs)).
Defined.

(** The jar's invariant and the effect of a store: seeding, setting and receiving cookies keep at most 512 cookies in
    creation order; a stored cookie becomes the last one, is the only one with its name, domain
    and path, and is the value that name then has; below the limit nothing else is lost. *)
Theorem jar_invariant (up : string -> string) (p1 p2 : string -> option Z) :
  (forall cs, jar_ok (from_session_cookies up cs)) /\
  (forall j wall now u sc, jar_ok j -> jar_ok (store_set_cookie up p1 p2 j wall now u sc)) /\
  (forall j, jar_ok j -> jar_ok (clear j)) /\
  forall j now n v d p, jar_ok j ->
    let j' := set_cookie j now n v d p in
    jar_ok j' /\ value_of j' n = Some v /\
    length (retain (same_key n d p) (cookies j')) = 1%nat /\
    ((length (cookies j) < MAX_COOKIES)%nat ->
       forall c, c ∈ cookies j -> same_key n d p c = false -> c ∈ cookies j').
Proof.
  split_and!.
  - intros cs. apply seed_ok, jar_new_ok.
  - intros j wall now u sc Hj.
    destruct (store_set_cookie_cases up p1 p2 j wall now u sc) as [->|(h & n & v & d & p & e & ho & se & ss & a & _ & _ & _ & ->)];
      [done|]. by apply store_spec.
  - intros j Hj. apply (jar_sublist_ok j); [done|]. apply sublist_nil_l.
  - intros j now n v d p Hj j'.
    destruct (store_spec j now n v d p session_expiry false false None Hj) as (Hok & old & Hold & Hsub & Hno).
    fold (set_cookie j now n v d p) in Hok, Hold. fold j' in Hok, Hold.
    set (new := mkCookie n v d p session_expiry false false None (next_creation_index j)) in *.
    split_and!; [done| | |].
    + unfold value_of. rewrite Hold, retain_app, retain_cons. cbn [c_name new]. rewrite str_eqb_refl.
      change (retain _ []) with (@nil StoredCookie). rewrite max_by_key_snoc; [done|]. apply Forall_forall. intros c Hc.
      apply elem_of_retain in Hc as [_ Hc]. destruct Hj as (_ & _ & Hlt). rewrite Forall_forall in Hlt.
      specialize (Hlt c ltac:(by eapply sublist_subseteq)). simpl. lia.
    + rewrite Hold, retain_app, length_app, retain_cons, retain_none.
      * unfold same_key. cbn [c_name c_domain c_path new]. by rewrite !str_eqb_refl.
      * intros c Hc. rewrite Forall_forall in Hno. by apply Hno.
    + intros Hlen c Hc Hk. unfold j', set_cookie, store, make_room. cbn [cookies].
      match goal with |- context [(length (retain ?f ?l) <? MAX_COOKIES)%nat] =>
        pose proof (retain_length f l); destruct (Nat.ltb_spec (length (retain f l)) MAX_COOKIES) end; [|lia].
      cbn [cookies]. apply elem_of_app. left. apply elem_of_retain. by rewrite Hk.
Qed.

(** ** The session round trip *)

(** A cookie as a session document gives it back, at a creation index. *)
Definition restored (up : string -> string) (idx : Z) (c : StoredCookie) : StoredCookie :=
  mkCookie (c_name c) (c_value c) (c_domain c) (c_path c)
    (if f64_eqb (expires c) session_expiry then session_expiry
     else if f64_is_finite (expires c) then expires c else session_expiry)
    (http_only c) (secure c) (normalize_same_site up <$> same_site c) idx.

Lemma cookie_of_session_cookie (up : string -> string) (idx : Z) (c : StoredCookie) :
  cookie_of_json up idx (to_session_cookie c) = Some (restored up idx c).
Proof.
  unfold cookie_of_json, to_session_cookie, restored.
  destruct (f64_eqb (expires c) session_expiry); [|destruct (f64_is_finite (expires c))];
    by destruct (same_site c).
Qed.

Lemma seed_session (up : string -> string) (l : list StoredCookie) (j : CookieJar) (k : nat) :
  (length (cookies j) + length l <= MAX_COOKIES)%nat -> next_creation_index j = Z.of_nat k ->
  cookies (seed up j (to_session_cookie <$> l)) =
  (cookies j ++ ((fun ic => restored up (Z.of_nat (fst ic)) (snd ic)) <$> zip (seq k (length l)) l))%list.
Proof.
  revert j k. induction l as [|c l IH]; intros j k Hl Hk; [by rewrite app_nil_r|].
  rewrite fmap_cons. cbn [seed]. rewrite cookie_of_session_cookie.
  cbn [length] in Hl. destruct (Nat.leb_spec MAX_COOKIES (length (cookies j))); [lia|].
  rewrite (IH _ (S k)); cbn [cookies next_creation_index]; [|rewrite length_app; cbn [length]; lia|lia].
  rewrite <-app_assoc, Hk. done.
Qed.

Lemma restored_sent (up : string -> string) (u : request_url) (host : string) (now : f64) (idx : Z) (c : StoredCookie) :
  f64_is_finite (expires c) = true -> cookie_sent u host now (restored up idx c) = cookie_sent u host now c.
Proof.
  intros Hf. rewrite !cookie_sent_andb. unfold is_expired, restored. cbn [expires secure c_domain c_path]. rewrite Hf.
  destruct (f64_eqb (expires c) session_expiry) eqn:E; [done|by rewrite E].
Qed.

(** A session survives the round trip through its document: a jar exported and seeded again has the same
    cookies up to the spelling of [sameSite], in the same order, and sends the same [Cookie] header
    to every URL at every time. *)
Theorem session_round_trip (up : string -> string) (j : CookieJar) :
  jar_ok j -> Forall (fun c => f64_is_finite (expires c) = true) (cookies j) ->
  let j' := from_session_cookies up (to_session_cookies j) in
  cookies j' = (fun ic => restored up (Z.of_nat (fst ic)) (snd ic)) <$> enumerate (cookies j) /\
  forall u now, cookie_header_for j' u now = cookie_header_for j u now.
Proof.
  intros (Hl & Hs & _) Hfin j'.
  assert (Hc : cookies j' = (fun ic => restored up (Z.of_nat (fst ic)) (snd ic)) <$> enumerate (cookies j)).
  { unfold j', from_session_cookies, to_session_cookies. by rewrite (seed_session up _ _ 0). }
  split; [done|]. intros u now. unfold cookie_header_for. destruct (host_str u) as [h|]; [|done].
  rewrite Hc. rewrite <-(snd_enumerate (cookies j)) at 2. rewrite !retain_fmap.
  rewrite (retain_ext _ (fun ic => cookie_sent u (to_ascii_lowercase h) now (snd ic))).
  2: { intros [i c] Hic. apply restored_sent. rewrite Forall_forall in Hfin. apply Hfin.
       by apply enumerate_elem in Hic. }
  set (le := fun a b : nat * StoredCookie => header_le (snd a) (snd b)).
  rewrite !(sort_by_fmap le); [|done|].
  2: { intros [i a] [k b] Ha Hb. apply elem_of_retain in Ha as [_ Ha], Hb as [_ Hb].
       apply lookup_enumerate in Ha, Hb. unfold le, header_le, restored. cbn [c_path creation_index fst snd].
       rewrite (sorted_lookup_le creation_index _ _ _ _ _ Hs Ha Hb).
       repeat case_match; try done.
       apply bool_eq_iff. rewrite Z.leb_le, Nat.leb_le. lia. }
  destruct (sort_by le _) as [|x l]; [done|]. rewrite !fmap_cons, <-!list_fmap_compose. done.
Qed.

Lemma session_round_trip_witness :
  let j := set_cookie (set_cookie jar_new (f64_of_Z 0) "a" "1" "example.com" "/") (f64_of_Z 0) "b" "2" "example.com" "/x" in
  cookie_header_for (from_session_cookies (fun s => s) (to_session_cookies j)) (sample_req "http" "example.com" "/x/y") (f64_of_Z 5)
  = Some "b=2; a=1"%string.
Proof.
  intros j.
  assert (Hj : jar_ok j).
  { split_and!; [vm_compute; repeat constructor| |]; vm_compute; repeat constructor. }
  rewrite (proj2 (session_round_trip (fun s => s) j Hj ltac:(vm_compute; repeat constructor))).
  vm_compute. reflexivity.
Defined.

(** ** Corner cases of the code *)

(** A deletion date one second before the epoch reads as the sentinel of a session cookie. *)
Example expiry_before_epoch_never_expires :
  let j := store_set_cookie (fun s => s) (fun _ => Some (-1)) no_date jar_new (f64_of_Z 1700000000) (f64_of_Z 1700000000)
             (sample_req "http" "example.com" "/") "sid=; Expires=Wed, 31 Dec 1969 23:59:59 GMT" in
  cookie_header_for j (sample_req "http" "example.com" "/") (f64_of_Z 1700000000) = Some "sid="%string.
Proof. vm_compute. reflexivity. Qed.

(** The suffix test takes an address for a host name. *)
Example domain_cookie_of_address_suffix :
  let j := store_set_cookie (fun s => s) no_date no_date jar_new (f64_of_Z 0) (f64_of_Z 0)
             (sample_req "http" "203.0.113.7" "/") "sid=1; Domain=113.7" in
  cookie_header_for j (sample_req "http" "198.51.113.7" "/") (f64_of_Z 0) = Some "sid=1"%string.
Proof. vm_compute. reflexivity. Qed.

(** A [Domain] of a lone dot, on a host name written with its trailing dot, covers every such name. *)
Example domain_of_lone_dot_is_global :
  let j := store_set_cookie (fun s => s) no_date no_date jar_new (f64_of_Z 0) (f64_of_Z 0)
             (sample_req "http" "a.example." "/") "sid=1; Domain=." in
  cookie_header_for j (sample_req "http" "b.test." "/") (f64_of_Z 0) = Some "sid=1"%string.
Proof. vm_compute. reflexivity. Qed.
