(* ===== verification/Governor.v ===== *)
(** * local/governor.rs

    Process-wide admission of engine runs. The configuration and the sampling of memory are
    functions; admission and release are a small-step system over any number of callers, one
    step per atomic operation of the code (the semaphore, the load and the compare-and-exchange of
    the gauge, the two halves of a permit's drop), so every interleaving of concurrent
    callers is covered. *)

From S2P Require Import Prelude Ints.
Open Scope Z_scope.

(** ** Configuration *)

Record LocalConfig : Type := mkLocal {
  l_max_concurrent_runs : Z;
  l_max_background_runs : Z;
  l_rss_soft_watermark_mb : Z;
}.

Record GovernorConfig : Type := mkGov {
  max_concurrent_runs : Z;
  max_background_runs : Z;
  rss_soft_watermark_bytes : Z;
}.

Definition governor_default : GovernorConfig := mkGov 4 2 (1536 * 1024 * 1024).

Definition from_local (c : LocalConfig) : GovernorConfig :=
  mkGov (l_max_concurrent_runs c) (l_max_background_runs c)
    (Z.min u64_max (l_rss_soft_watermark_mb c * (1024 * 1024))).

Definition sanitized (c : GovernorConfig) : GovernorConfig :=
  let runs := Z.max (max_concurrent_runs c) 1 in
  mkGov runs (clamp 1 runs (max_background_runs c)) (rss_soft_watermark_bytes c).

Definition max_browser_contexts (c : GovernorConfig) : Z :=
  Z.max (Z.min u64_max (max_concurrent_runs (sanitized c) * 2)) 4.

Definition dispatchable_sessions (c : GovernorConfig) : Z := max_background_runs (sanitized c).

(** ** Memory *)

(** In nanoseconds, like the readings of the monotonic clock. *)
Definition RSS_SAMPLE_TTL : Z := 750 * 1000000.

Record RssCache : Type := mkRss {
  rss_bytes : Z;
  taken : option Z;
}.

(** [sample] is the reading of the process, taken only when the cache is stale; [now_read] and [now_write] are the
    clock readings of [elapsed] and of the store. *)
Definition current_rss_bytes (c : RssCache) (now_read now_write sample : Z) : Z * RssCache :=
  let fresh := match taken c with Some t => Z.max 0 (now_read - t) <? RSS_SAMPLE_TTL | None => false end in
  if fresh then (rss_bytes c, c) else (sample, mkRss sample (Some now_write)).

Definition should_shed_background (cfg : GovernorConfig) (c : RssCache) (now_read now_write sample : Z) : bool * RssCache :=
  if rss_soft_watermark_bytes cfg =? 0 then (false, c)
  else let '(rss, c) := current_rss_bytes c now_read now_write sample in
       (rss_soft_watermark_bytes cfg <? rss, c).

(** ** Admission *)

Inductive GovernorReject : Type := BackgroundCeilingReached | MemoryWatermark.

Inductive Lane : Type := Interactive | Background.

(** Where a caller is. Between [BgReserved] and [BgRunning] it holds a global slot and is in the
    compare-and-exchange loop, having loaded [cur] in [BgLoaded cur]; [BgGlobalDropped] and [BgGuardLoaded prev] are the two
    points inside the drop of a background permit, after the global slot went back. *)
Inductive pc : Type :=
| Idle
| Waiting
| InteractiveRunning
| BgReserved
| BgLoaded (cur : Z)
| BgRunning
| BgGlobalDropped
| BgGuardLoaded (prev : Z)
| Rejected (r : GovernorReject).

Record Governor : Type := mkGovernor {
  cfg : GovernorConfig;
  free_slots : Z;
  background_inflight : Z;
  callers : list pc;
  rss_cache : RssCache;
}.

Definition governor_new (c : GovernorConfig) (n : nat) : Governor :=
  let c := sanitized c in
  mkGovernor c (max_concurrent_runs c) 0 (replicate n Idle) (mkRss 0 None).

Definition move (g : Governor) (free gauge : Z) (t : nat) (p : pc) (rss : RssCache) : Governor :=
  mkGovernor (cfg g) free gauge (<[t := p]> (callers g)) rss.

Inductive step : Governor -> Governor -> Prop :=
(* interactive: [acquire_owned] waits for a slot *)
| step_interactive g t :
    callers g !! t = Some Idle ->
    step g (move g (free_slots g) (background_inflight g) t Waiting (rss_cache g))
| step_acquire g t :
    callers g !! t = Some Waiting -> 0 < free_slots g ->
    step g (move g (free_slots g - 1) (background_inflight g) t InteractiveRunning (rss_cache g))
| step_interactive_drop g t :
    callers g !! t = Some InteractiveRunning ->
    step g (move g (free_slots g + 1) (background_inflight g) t Idle (rss_cache g))
(* background: shed, or [try_acquire_owned], which succeeds exactly when a slot is free *)
| step_shed g t r w sample rss :
    callers g !! t = Some Idle ->
    should_shed_background (cfg g) (rss_cache g) r w sample = (true, rss) ->
    step g (move g (free_slots g) (background_inflight g) t (Rejected MemoryWatermark) rss)
| step_reserve g t r w sample rss :
    callers g !! t = Some Idle ->
    should_shed_background (cfg g) (rss_cache g) r w sample = (false, rss) -> 0 < free_slots g ->
    step g (move g (free_slots g - 1) (background_inflight g) t BgReserved rss)
| step_no_slot g t r w sample rss :
    callers g !! t = Some Idle ->
    should_shed_background (cfg g) (rss_cache g) r w sample = (false, rss) -> free_slots g <= 0 ->
    step g (move g (free_slots g) (background_inflight g) t (Rejected BackgroundCeilingReached) rss)
(* the loop: load, reject at the sub-ceiling, or compare and exchange *)
| step_load g t :
    callers g !! t = Some BgReserved ->
    step g (move g (free_slots g) (background_inflight g) t (BgLoaded (background_inflight g)) (rss_cache g))
| step_ceiling g t cur :
    callers g !! t = Some (BgLoaded cur) -> max_background_runs (cfg g) <= cur ->
    step g (move g (free_slots g + 1) (background_inflight g) t (Rejected BackgroundCeilingReached) (rss_cache g))
| step_cas g t cur :
    callers g !! t = Some (BgLoaded cur) -> cur < max_background_runs (cfg g) -> background_inflight g = cur ->
    step g (move g (free_slots g) (cur + 1) t BgRunning (rss_cache g))
| step_cas_fail g t cur :
    callers g !! t = Some (BgLoaded cur) -> cur < max_background_runs (cfg g) -> background_inflight g <> cur ->
    step g (move g (free_slots g) (background_inflight g) t BgReserved (rss_cache g))
(* the drop of a background permit: the global slot first, then the guard's load and subtraction *)
| step_drop_global g t :
    callers g !! t = Some BgRunning ->
    step g (move g (free_slots g + 1) (background_inflight g) t BgGlobalDropped (rss_cache g))
| step_guard_load g t :
    callers g !! t = Some BgGlobalDropped ->
    step g (move g (free_slots g) (background_inflight g) t (BgGuardLoaded (background_inflight g)) (rss_cache g))
| step_guard_sub g t prev :
    callers g !! t = Some (BgGuardLoaded prev) -> 0 < prev ->
    step g (move g (free_slots g) (background_inflight g - 1) t Idle (rss_cache g))
| step_guard_skip g t prev :
    callers g !! t = Some (BgGuardLoaded prev) -> prev <= 0 ->
    step g (move g (free_slots g) (background_inflight g) t Idle (rss_cache g))
(* a rejected caller may come back *)
| step_retry g t r :
    callers g !! t = Some (Rejected r) ->
    step g (move g (free_slots g) (background_inflight g) t Idle (rss_cache g)).

(** The sequential reading of [admit_background]: the result when no other caller moves. *)
Definition admit_background (g : Governor) (now_read now_write sample : Z) : result unit GovernorReject :=
  if fst (should_shed_background (cfg g) (rss_cache g) now_read now_write sample) then Err MemoryWatermark
  else if free_slots g <=? 0 then Err BackgroundCeilingReached
  else if max_background_runs (cfg g) <=? background_inflight g then Err BackgroundCeilingReached
  else Ok tt.

(** ** Invariant *)

Definition holds_global (p : pc) : bool :=
  match p with InteractiveRunning | BgReserved | BgLoaded _ | BgRunning => true | _ => false end.
Definition counted (p : pc) : bool :=
  match p with BgRunning | BgGlobalDropped | BgGuardLoaded _ => true | _ => false end.
Definition running (p : pc) : bool := match p with InteractiveRunning | BgRunning => true | _ => false end.
Definition background_running (p : pc) : bool := match p with BgRunning => true | _ => false end.

Definition count (f : pc -> bool) (l : list pc) : Z := Z.of_nat (length (retain f l)).

Definition guard_sees_itself (p : pc) : Prop := match p with BgGuardLoaded prev => 0 < prev | _ => True end.

Definition governor_ok (g : Governor) : Prop :=
  0 <= free_slots g /\
  free_slots g + count holds_global (callers g) = max_concurrent_runs (cfg g) /\
  background_inflight g = count counted (callers g) /\
  background_inflight g <= max_background_runs (cfg g) /\
  max_background_runs (cfg g) <= max_concurrent_runs (cfg g) /\
  Forall guard_sees_itself (callers g).

(** ** Lemmas *)

Lemma count_insert (f : pc -> bool) (l : list pc) (i : nat) (x y : pc) :
  l !! i = Some x -> count f (<[i := y]> l) = count f l - Z.b2z (f x) + Z.b2z (f y).
Proof.
  unfold count. revert i. induction l as [|a l IH]; intros [|i] Hi; simplify_eq/=.
  - rewrite !retain_cons. destruct (f x), (f y); simpl; lia.
  - rewrite !retain_cons. specialize (IH i Hi). destruct (f a); simpl; lia.
Qed.

Lemma count_nonneg (f : pc -> bool) (l : list pc) : 0 <= count f l.
Proof. unfold count. lia. Qed.

Lemma count_mono (f h : pc -> bool) (l : list pc) :
  (forall p, f p = true -> h p = true) -> count f l <= count h l.
Proof.
  intros H. unfold count. induction l as [|a l IH]; [done|]. rewrite !retain_cons.
  pose proof (H a). destruct (f a), (h a); simpl; lia || (by exfalso; intuition).
Qed.

Lemma count_pos (f : pc -> bool) (l : list pc) (i : nat) (x : pc) : l !! i = Some x -> f x = true -> 0 < count f l.
Proof.
  intros Hi Hf. unfold count. assert (Hx : x ∈ retain f l).
  { apply elem_of_retain. split; [done|]. by eapply list_elem_of_lookup_2. }
  destruct (retain f l); [by apply elem_of_nil in Hx|]. simpl. lia.
Qed.

Lemma sanitized_bounds (c : GovernorConfig) :
  1 <= max_background_runs (sanitized c) <= max_concurrent_runs (sanitized c) /\ 1 <= max_concurrent_runs (sanitized c).
Proof. unfold sanitized, clamp. simpl. lia. Qed.

Lemma governor_new_ok (c : GovernorConfig) (n : nat) : governor_ok (governor_new c n).
Proof.
  pose proof (sanitized_bounds c).
  assert (H0 : forall f, f Idle = false -> count f (replicate n Idle) = 0).
  { intros f Hf. unfold count. rewrite retain_none; [done|].
    intros x Hx. by apply elem_of_replicate in Hx as [-> _]. }
  unfold governor_ok, governor_new. cbn [cfg free_slots background_inflight callers].
  rewrite !H0 by done. split_and!; try lia. apply Forall_replicate. done.
Qed.

Lemma move_ok (g : Governor) (free gauge : Z) (t : nat) (p q : pc) (rss : RssCache) :
  governor_ok g -> callers g !! t = Some p ->
  free = free_slots g + Z.b2z (holds_global p) - Z.b2z (holds_global q) ->
  gauge = background_inflight g - Z.b2z (counted p) + Z.b2z (counted q) ->
  0 <= free -> gauge <= max_background_runs (cfg g) -> guard_sees_itself q ->
  governor_ok (move g free gauge t q rss).
Proof.
  intros (H1 & H2 & H3 & H4 & H5 & H6) Hp Hfree Hgauge Hf Hg Hq. unfold governor_ok, move. cbn.
  rewrite !(count_insert _ _ _ p) by done. split_and!; try lia. by apply Forall_insert.
Qed.

Lemma governor_step_ok (g g' : Governor) : step g g' -> governor_ok g -> governor_ok g' /\ cfg g' = cfg g.
Proof.
  intros Hst Hok. pose proof Hok as (H1 & H2 & H3 & H4 & H5 & H6).
  destruct Hst as [g t Ht|g t Ht Hf|g t Ht|g t r w sa rss Ht Hs|g t r w sa rss Ht Hs Hf|g t r w sa rss Ht Hs Hf
    |g t Ht|g t cur Ht Hc|g t cur Ht Hc Hg|g t cur Ht Hc Hg|g t Ht|g t Ht|g t prev Ht Hp|g t prev Ht Hp|g t r Ht];
    (split; [|done]); eapply move_ok; try exact Ht; try done; cbn [holds_global counted Z.b2z]; try lia.
  - (* the guard's load counts its own run *)
    cbn. rewrite H3. eapply count_pos; [exact Ht|done].
  - (* so the guard never skips its subtraction *)
    rewrite Forall_forall in H6. specialize (H6 _ (list_elem_of_lookup_2 _ _ _ Ht)). simpl in H6. lia.
Qed.

Lemma reachable_ok (c : GovernorConfig) (n : nat) (g : Governor) :
  rtc step (governor_new c n) g -> governor_ok g /\ cfg g = sanitized c.
Proof.
  intros H. remember (governor_new c n) as g0 eqn:E.
  assert (H0 : governor_ok g0 /\ cfg g0 = sanitized c) by (subst; split; [apply governor_new_ok|done]).
  clear E. induction H as [|x y z Hst _ IH]; [done|]. destruct H0 as [H1 H2].
  destruct (governor_step_ok x y Hst H1) as [H3 H4]. apply IH. split; [done|]. by rewrite H4.
Qed.

Definition is_interactive (p : pc) : bool := match p with InteractiveRunning => true | _ => false end.
Definition settled (p : pc) : bool := match p with BgReserved | BgLoaded _ => false | _ => true end.
Definition at_rest (p : pc) : bool := match p with Idle | Waiting | Rejected _ => true | _ => false end.

Lemma count_none (f : pc -> bool) (l : list pc) : (forall p, p ∈ l -> f p = false) -> count f l = 0.
Proof. intros H. unfold count. by rewrite retain_none. Qed.

Lemma count_settled (l : list pc) :
  all settled l = true -> count holds_global l = count is_interactive l + count background_running l.
Proof.
  unfold count. induction l as [|p l IH]; simpl; [done|]. intros H. apply andb_prop in H as [Hp Hl].
  rewrite !retain_cons. specialize (IH Hl). destruct p; simpl in *; (done || lia).
Qed.

(** ** Properties *)

(** C7: Admission is safe under every interleaving of any number of callers: never more than the ceiling of runs
    at once, never more background runs than the sub-ceiling, and no slot or gauge unit is
    ever lost, so when every caller is idle, waiting or rejected all slots are free and the gauge is zero. *)
Theorem governor_safety (c : GovernorConfig) (n : nat) (g : Governor) :
  rtc step (governor_new c n) g ->
  count running (callers g) <= max_concurrent_runs (sanitized c) /\
  count background_running (callers g) <= max_background_runs (sanitized c) /\
  0 <= free_slots g /\
  (all at_rest (callers g) = true ->
     free_slots g = max_concurrent_runs (sanitized c) /\ background_inflight g = 0).
Proof.
  intros [(H1 & H2 & H3 & H4 & H5 & H6) <-]%reachable_ok.
  pose proof (count_mono running holds_global (callers g) ltac:(by intros [])).
  pose proof (count_mono background_running counted (callers g) ltac:(by intros [])).
  split_and!; try lia. intros Hr. rewrite all_true in Hr. split.
  - rewrite count_none in H2; [lia|]. intros p Hp. specialize (Hr p Hp). by destruct p.
  - rewrite H3. apply count_none. intros p Hp. specialize (Hr p Hp). by destruct p.
Qed.

(** Two background callers race: both reserve and load before either exchanges. *)
Definition raced : Governor :=
  mkGovernor (mkGov 2 1 0) 0 1 [BgRunning; BgReserved] (mkRss 0 None).

Lemma raced_reachable : rtc step (governor_new (mkGov 2 1 0) 2) raced.
Proof.
  eapply rtc_l; [eapply (step_reserve _ 0 0 0 0); [reflexivity|reflexivity|vm_compute; reflexivity]|].
  eapply rtc_l; [eapply (step_reserve _ 1 0 0 0); [reflexivity|reflexivity|vm_compute; reflexivity]|].
  eapply rtc_l; [eapply (step_load _ 0); reflexivity|].
  eapply rtc_l; [eapply (step_load _ 1); reflexivity|].
  eapply rtc_l; [eapply (step_cas _ 0 0); [reflexivity|vm_compute; reflexivity|reflexivity]|].
  eapply rtc_l; [eapply (step_cas_fail _ 1 0); [reflexivity|vm_compute; reflexivity|discriminate]|].
  apply rtc_refl.
Qed.

Lemma governor_safety_witness :
  count running (callers raced) <= 2 /\ count background_running (callers raced) <= 1 /\ 0 <= free_slots raced.
Proof.
  destruct (governor_safety (mkGov 2 1 0) 2 raced raced_reachable) as (H1 & H2 & H3 & _).
  split; [exact H1|]. split; [exact H2|exact H3].
Defined.

(** Headroom: once no background caller is inside its admission, interactive runs hold every slot background runs
    may not, so if no slot is free at least the difference of the two ceilings is interactive; a waiting
    interactive caller is never rejected and proceeds as soon as one slot is free. *)
Theorem interactive_headroom (c : GovernorConfig) (n : nat) (g : Governor) :
  rtc step (governor_new c n) g ->
  (all settled (callers g) = true -> free_slots g = 0 ->
     max_concurrent_runs (sanitized c) - max_background_runs (sanitized c) <= count is_interactive (callers g)) /\
  (forall t, callers g !! t = Some Waiting ->
     (forall g', step g g' -> callers g' !! t = Some Waiting \/ callers g' !! t = Some InteractiveRunning) /\
     (0 < free_slots g -> exists g', step g g' /\ callers g' !! t = Some InteractiveRunning)).
Proof.
  intros [(H1 & H2 & H3 & H4 & H5 & H6) <-]%reachable_ok. split.
  - intros Hs H0. rewrite count_settled in H2 by done.
    pose proof (count_mono background_running counted (callers g) ltac:(by intros [])). lia.
  - intros t Ht. assert (Hlt : (t < length (callers g))%nat) by (by eapply lookup_lt_Some). split.
    + intros g' Hst.
      assert (Hm : forall free gauge t' q rss, callers g !! t' <> Some Waiting \/ q = InteractiveRunning ->
                callers (move g free gauge t' q rss) !! t = Some Waiting \/
                callers (move g free gauge t' q rss) !! t = Some InteractiveRunning).
      { intros free gauge t' q rss Hq. unfold move. cbn. destruct (decide (t = t')) as [<-|Hne].
        - destruct Hq as [Hq| ->]; [done|]. right. by apply list_lookup_insert_eq.
        - left. by rewrite list_lookup_insert_ne. }
      destruct Hst; apply Hm; (by right) || (left; congruence).
    + intros Hf. eexists. split; [by apply (step_acquire g t)|]. cbn. by apply list_lookup_insert_eq.
Qed.

Lemma interactive_headroom_witness :
  let g := mkGovernor (mkGov 2 1 0) 2 0 [Waiting] (mkRss 0 None) in
  exists g', step g g' /\ callers g' !! 0%nat = Some InteractiveRunning.
Proof.
  intros g.
  assert (Hr : rtc step (governor_new (mkGov 2 1 0) 1) g).
  { eapply rtc_l; [apply (step_interactive _ 0); reflexivity|]. apply rtc_refl. }
  destruct (interactive_headroom (mkGov 2 1 0) 1 g Hr) as [_ H].
  exact (proj2 (H 0%nat eq_refl) ltac:(vm_compute; reflexivity)).
Defined.

(** The clamp allows equal ceilings, and forces them for one slot: then there is no headroom. *)
Example no_headroom_with_one_slot : sanitized (mkGov 1 2 0) = mkGov 1 1 0.
Proof. reflexivity. Qed.

(** Left alone, a background caller ends as the sequential reading says: running when memory is under the watermark, a
    slot is free and the gauge is under the sub-ceiling; rejected with the right reason and
    with slots and gauge unchanged otherwise. *)
Theorem admit_background_solo (c : GovernorConfig) (n : nat) (g : Governor) (t : nat) (r w sample : Z) :
  rtc step (governor_new c n) g -> callers g !! t = Some Idle ->
  exists g', rtc step g g' /\
    match admit_background g r w sample with
    | Ok _ => callers g' !! t = Some BgRunning /\
        free_slots g' = free_slots g - 1 /\ background_inflight g' = background_inflight g + 1
    | Err e => callers g' !! t = Some (Rejected e) /\
        free_slots g' = free_slots g /\ background_inflight g' = background_inflight g
    end.
Proof.
  intros [Hok _]%reachable_ok Ht. assert (Hlt : (t < length (callers g))%nat) by (by eapply lookup_lt_Some).
  unfold admit_background.
  destruct (should_shed_background (cfg g) (rss_cache g) r w sample) as [[|] rss] eqn:Es; simpl.
  { eexists. split; [apply rtc_once; by eapply step_shed|]. cbn. split; [by apply list_lookup_insert_eq|done]. }
  destruct (Z.leb_spec (free_slots g) 0) as [Hf|Hf].
  { eexists. split; [apply rtc_once; by eapply step_no_slot|]. cbn. split; [by apply list_lookup_insert_eq|done]. }
  pose proof (step_reserve g t r w sample rss Ht Es Hf) as S1.
  set (g1 := move g _ _ t BgReserved rss) in S1.
  assert (T1 : callers g1 !! t = Some BgReserved) by (by apply list_lookup_insert_eq).
  pose proof (step_load g1 t T1) as S2. set (g2 := move g1 _ _ t _ _) in S2.
  assert (L2 : (t < length (callers g2))%nat) by (cbn; by rewrite !length_insert).
  assert (T2 : callers g2 !! t = Some (BgLoaded (background_inflight g))).
  { cbn. apply list_lookup_insert_eq. by rewrite length_insert. }
  destruct (Z.leb_spec (max_background_runs (cfg g)) (background_inflight g)) as [Hb|Hb].
  - eexists. split; [eapply rtc_l; [exact S1|]; eapply rtc_l; [exact S2|]; apply rtc_once; by eapply step_ceiling|].
    split; [by apply list_lookup_insert_eq|]. cbn. lia.
  - eexists. split; [eapply rtc_l; [exact S1|]; eapply rtc_l; [exact S2|]; apply rtc_once; by eapply step_cas|].
    split; [by apply list_lookup_insert_eq|]. done.
Qed.

Lemma admit_background_solo_witness :
  exists g', rtc step (governor_new governor_default 1) g' /\ callers g' !! 0%nat = Some BgRunning.
Proof.
  destruct (admit_background_solo governor_default 1 (governor_new governor_default 1) 0 0 0 0 (rtc_refl _ _) eq_refl)
    as (g' & Hg & H). exists g'. split; [exact Hg|].
  assert (E : admit_background (governor_new governor_default 1) 0 0 0 = Ok tt) by (vm_compute; reflexivity).
  rewrite E in H. exact (proj1 H).
Defined.
