(* ===== verification/LocalAuth.v ===== *)
(** * local/auth.rs

    Authorization of the local API: the constant-time bearer comparison, the loopback allowlist of
    [Origin] and [Host] values, and the scope model of external keys. *)

From Stdlib Require Import Ascii String.
From S2P Require Import Prelude Ints Str.
Open Scope string_scope.
Open Scope Z_scope.

(** ** Tokens *)

Fixpoint xor_diff (a b : list ascii) (diff : Z) : Z :=
  match a, b with
  | x :: a', y :: b' => xor_diff a' b' (Z.lor diff (Z.lxor (byte_val x) (byte_val y)))
  | _, _ => diff
  end.

Definition ct_eq (a b : list ascii) : bool :=
  if negb (length a =? length b)%nat then false else xor_diff a b 0 =? 0.

Definition verify_local_bearer (presented token : string) : bool := ct_eq (bytes presented) (bytes token).

Definition parse_bearer (header : string) : option string := trim <$> strip_prefix "Bearer " header.

(** ** Origins *)

(** [split(..).next()], which always has a piece. *)
Definition first_piece (f : ascii -> bool) (s : string) : string :=
  match split_by f s with h :: _ => h | [] => s end.

Definition is_authority_end (c : ascii) : bool :=
  byte_is "/"%char c || byte_is "?"%char c || byte_is "#"%char c.

Definition is_loopback_authority (value : string) : bool :=
  let v := trim value in
  let authority :=
    match (match strip_prefix "http://" v with Some r => Some r | None => strip_prefix "https://" v end) with
    | Some rest => Some rest
    | None => if negb (contains v "://") then Some v else None
    end in
  match authority with
  | None => false
  | Some authority =>
      let authority := first_piece is_authority_end authority in
      let host :=
        match strip_prefix "[" authority with
        | Some rest => first_piece (byte_is "]"%char) rest
        | None => first_piece (byte_is ":"%char) authority
        end in
      let host := to_ascii_lowercase host in
      str_eqb host "127.0.0.1" || str_eqb host "localhost" || str_eqb host "::1"
  end.

Definition origin_allowed (value : string) (port : Z) : bool :=
  let v := trim value in
  if str_eqb v "tauri://localhost" || str_eqb v "http://tauri.localhost" || str_eqb v "https://tauri.localhost" then true
  else is_loopback_authority v.

Definition host_port (prefix h : string) (port : Z) : string :=
  String.append prefix (String.append h (String.append ":" (Z_to_string port))).

Definition origin_allowed_for (value : string) (port : Z) (exposed : bool) (lan_hosts : list string) : bool :=
  if origin_allowed value port then true
  else if negb exposed then false
  else
    let v := trim value in
    any (fun h =>
           let h := trim h in
           negb (is_empty h)
           && (str_eqb v (host_port "" h port) || str_eqb v (host_port "http://" h port)
               || str_eqb v (host_port "https://" h port))) lan_hosts.

Definition ws_origin_allowed (origin host : option string) (port : Z) : bool :=
  if match origin with Some o => negb (origin_allowed o port) | None => false end then false
  else if match host with Some h => negb (origin_allowed h port) | None => false end then false
  else true.

Definition ws_connect_authorized (presented_token origin host : option string) (runtime_token : string) (port : Z) : bool :=
  if match origin with Some o => negb (origin_allowed o port) | None => false end then false
  else if match host with Some h => negb (origin_allowed h port) | None => false end then false
  else match presented_token with
       | Some t => if negb (is_empty t) then verify_local_bearer t runtime_token else false
       | None => false
       end.

(** ** Scopes *)

Inductive Scope : Type := Read | Run | Admin | Manage.

#[export] Instance scope_eq_dec : EqDecision Scope.
Proof. solve_decision. Defined.

Definition scope_as_str (s : Scope) : string :=
  match s with Read => "read" | Run => "run" | Admin => "admin" | Manage => "manage" end.

Definition is_privileged_read_path (path : string) : bool := str_eqb path "/v1/backup/download".

Definition is_device_management_path (path : string) : bool :=
  starts_with path "/v1/vault/" || str_eqb path "/v1/vault"
  || str_eqb path "/v1/keys" || starts_with path "/v1/keys/"
  || starts_with path "/v1/cloud/reflect/api-keys"
  || str_eqb path "/v1/token/rotate"
  || str_eqb path "/v1/data/reset" || str_eqb path "/v1/backup/restore"
  || str_eqb path "/v1/network/expose"
  || str_eqb path "/v1/mcp/auth"
  || starts_with path "/v1/settings/telemetry"
  || str_eqb path "/v1/cloud/link/start" || str_eqb path "/v1/cloud/link/poll"
  || str_eqb path "/v1/cloud/unlink"
  || str_eqb path "/v1/tls/trust".

Definition is_run_path (path : string) : bool :=
  ends_with path "/run" || ends_with path "/cancel" || str_eqb path "/mcp"
  || ends_with path "/completions" || ends_with path "/responses".

Definition required_scope (method path : string) : Scope :=
  if is_privileged_read_path path then Manage
  else if eq_ignore_ascii_case method "GET" || eq_ignore_ascii_case method "HEAD" then Read
  else if is_run_path path then Run
  else if is_device_management_path path then Manage
  else Admin.

(** The four flags the loop over the grant sets. *)
Record flags : Type := mkFlags {
  has_read : bool;
  has_run : bool;
  has_admin : bool;
  has_manage : bool;
}.

Definition set_flag (f : flags) (tok : string) : flags :=
  let tok := trim tok in
  let '(mkFlags rd rn ad mg) := f in
  if str_eqb tok "read" then mkFlags true rn ad mg
  else if str_eqb tok "run" then mkFlags rd true ad mg
  else if str_eqb tok "admin" then mkFlags rd rn true mg
  else if str_eqb tok "manage" then mkFlags rd rn ad true
  else f.

Definition scope_grants (scopes_csv : string) (needed : Scope) : bool :=
  let f := foldl set_flag (mkFlags false false false false) (split ","%char scopes_csv) in
  match needed with
  | Read => has_read f || has_run f || has_admin f
  | Run => has_run f || has_admin f
  | Admin => has_admin f
  | Manage => has_manage f
  end.

Inductive Caller : Type :=
| FullAccess
| Scoped (csv : string).

Definition grants (c : Caller) (needed : Scope) : bool :=
  match c with
  | FullAccess => true
  | Scoped csv => scope_grants csv needed
  end.

Definition describe (c : Caller) : string := match c with FullAccess => "full-access" | Scoped csv => csv end.

Definition caller_or_deny (caller : option Caller) : Caller := unwrap_or caller (Scoped "").

(** ** Reference definitions *)

(** The scopes a token of a grant carries, and the scopes that satisfy a need. *)
Definition token_scope (tok : string) : option Scope :=
  let tok := trim tok in
  find_first (fun s => str_eqb tok (scope_as_str s)) [Read; Run; Admin; Manage].

Definition implies (held needed : Scope) : bool :=
  match held, needed with
  | Read, Read => true
  | Run, (Read | Run) => true
  | Admin, (Read | Run | Admin) => true
  | Manage, Manage => true
  | _, _ => false
  end.

(** The device-control routes that take no identifier. *)
Definition device_routes : list string :=
  ["/v1/vault"; "/v1/vault/lock"; "/v1/vault/unlock"; "/v1/keys"; "/v1/cloud/reflect/api-keys"; "/v1/token/rotate";
   "/v1/data/reset"; "/v1/backup/restore"; "/v1/network/expose"; "/v1/mcp/auth"; "/v1/settings/telemetry";
   "/v1/cloud/link/start"; "/v1/cloud/link/poll"; "/v1/cloud/unlink"; "/v1/tls/trust"].

(** ** Lemmas *)

Lemma lor_zero (a b : Z) : Z.lor a b = 0 <-> a = 0 /\ b = 0.
Proof. apply Z.lor_eq_0_iff. Qed.

Lemma xor_diff_zero (a b : list ascii) (diff : Z) :
  length a = length b -> xor_diff a b diff = 0 <-> diff = 0 /\ a = b.
Proof.
  revert b diff. induction a as [|x a IH]; intros [|y b] diff Hl; simplify_eq/=; [naive_solver|].
  rewrite IH by done. rewrite lor_zero, Z.lxor_eq_0_iff. split.
  - intros [[-> H] ->]. apply byte_val_inj in H as ->. done.
  - intros [-> [= -> ->]]. done.
Qed.

Lemma bytes_inj (s t : string) : bytes s = bytes t -> s = t.
Proof. intros H. rewrite <-(of_bytes_bytes s), <-(of_bytes_bytes t). by rewrite H. Qed.

Lemma ct_eq_spec (a b : list ascii) : ct_eq a b = true <-> a = b.
Proof.
  unfold ct_eq. destruct (Nat.eqb_spec (length a) (length b)) as [Hl|Hl]; simpl.
  - rewrite Z.eqb_eq, xor_diff_zero by done. tauto.
  - split; [done|]. by intros ->.
Qed.

Lemma set_flags_spec (toks : list string) (f : flags) :
  let g := foldl set_flag f toks in
  (has_read g = has_read f || any (fun t => bool_decide (token_scope t = Some Read)) toks) /\
  (has_run g = has_run f || any (fun t => bool_decide (token_scope t = Some Run)) toks) /\
  (has_admin g = has_admin f || any (fun t => bool_decide (token_scope t = Some Admin)) toks) /\
  (has_manage g = has_manage f || any (fun t => bool_decide (token_scope t = Some Manage)) toks).
Proof.
  revert f. induction toks as [|t toks IH]; intros f; cbv zeta; [by rewrite !orb_false_r|].
  cbn [foldl any existsb]. destruct (IH (set_flag f t)) as (-> & -> & -> & ->).
  destruct f as [rd rn ad mg]. unfold set_flag, token_scope. cbn [find_first scope_as_str]. fold (any (A:=string)).
  destruct (str_eqb (trim t) "read") eqn:E1; [|destruct (str_eqb (trim t) "run") eqn:E2;
    [|destruct (str_eqb (trim t) "admin") eqn:E3; [|destruct (str_eqb (trim t) "manage") eqn:E4]]];
    cbn [has_read has_run has_admin has_manage];
    repeat (rewrite bool_decide_eq_true_2 by done || rewrite bool_decide_eq_false_2 by done);
    rewrite ?orb_true_r, ?orb_true_l, ?orb_false_l; done.
Qed.

Lemma scope_grants_spec (csv : string) (needed : Scope) :
  scope_grants csv needed =
  any (fun t => match token_scope t with Some held => implies held needed | None => false end) (split ","%char csv).
Proof.
  unfold scope_grants. destruct (set_flags_spec (split ","%char csv) (mkFlags false false false false)) as (-> & -> & -> & ->).
  cbn [has_read has_run has_admin has_manage orb]. unfold any.
  induction (split ","%char csv) as [|t toks IH]; [by destruct needed|]. cbn [existsb].
  rewrite <-IH. clear IH. destruct (token_scope t) as [s|]; destruct needed; try destruct s; simpl;
    try (rewrite bool_decide_eq_true_2 by done); try (rewrite !bool_decide_eq_false_2 by done);
    rewrite ?orb_true_r, ?orb_false_l; done.
Qed.

Lemma split_by_none (f : ascii -> bool) (s : string) : str_all (fun c => negb (f c)) s = true -> split_by f s = [s].
Proof.
  induction s as [|c s IH]; simpl; [done|]. intros H. apply andb_prop in H as [Hc Hs].
  apply negb_true_iff in Hc. by rewrite Hc, IH.
Qed.

Lemma split_by_first (f : ascii -> bool) (s r : string) (c : ascii) :
  str_all (fun c => negb (f c)) s = true -> f c = true -> first_piece f (String.append s (String c r)) = s.
Proof.
  intros Hs Hc. unfold first_piece. induction s as [|a s IH]; simpl; [by rewrite Hc|].
  simpl in Hs. apply andb_prop in Hs as [Ha Hs]. apply negb_true_iff in Ha. rewrite Ha.
  specialize (IH Hs). destruct (split_by f (s +:+ String c r)) as [|p ps] eqn:E; [by apply split_by_nonempty in E|].
  by rewrite IH.
Qed.

Lemma first_piece_none (f : ascii -> bool) (s : string) : str_all (fun c => negb (f c)) s = true -> first_piece f s = s.
Proof. intros H. unfold first_piece. by rewrite split_by_none. Qed.

(** Bytes a host name may not contain. *)
Definition host_byte (c : ascii) : bool :=
  negb (is_authority_end c) && negb (byte_is ":"%char c) && negb (byte_is "["%char c).

Definition loopback_name (h : string) : bool :=
  let h := to_ascii_lowercase h in str_eqb h "127.0.0.1" || str_eqb h "localhost" || str_eqb h "::1".

Lemma authority_host (h rest : string) :
  str_all host_byte h = true -> (rest = "" \/ exists p, rest = String ":"%char p /\ str_all (fun c => negb (is_authority_end c)) p = true) ->
  first_piece is_authority_end (String.append h rest) = String.append h rest /\
  (h <> "" -> strip_prefix "[" (String.append h rest) = None) /\
  first_piece (byte_is ":"%char) (String.append h rest) = h.
Proof.
  intros Hh Hr.
  assert (He : str_all (fun c => negb (is_authority_end c)) h = true).
  { eapply str_all_impl; [|exact Hh]. intros c. unfold host_byte. intros H. by repeat apply andb_prop in H as [H ?]. }
  assert (Hc : str_all (fun c => negb (byte_is ":"%char c)) h = true).
  { eapply str_all_impl; [|exact Hh]. intros c. unfold host_byte. intros H. apply andb_prop in H as [H _]. by apply andb_prop in H as [_ H]. }
  split_and!.
  - apply first_piece_none. rewrite str_all_append, He. destruct Hr as [->|(p & -> & Hp)]; [done|]. simpl. by rewrite Hp.
  - intros Hne. destruct h as [|b h]; [done|]. simpl in Hh |- *. apply andb_prop in Hh as [Hb _].
    unfold host_byte in Hb. apply andb_prop in Hb as [_ Hb]. apply negb_true_iff in Hb.
    unfold byte_is in Hb. apply bool_decide_eq_false_1 in Hb. by rewrite bool_decide_eq_false_2.
  - destruct Hr as [->|(p & -> & Hp)].
    + rewrite append_nil_r. by apply first_piece_none.
    + by apply split_by_first.
Qed.

(** ** Properties *)

(** DNS-rebinding defence: an http or https [Origin] is allowed exactly when its host, without the port and whatever
    its case, is a loopback name, or it is the packaged web view's own origin; so a page served from any
    other host is refused, even when its domain resolves to the loopback address. *)
Theorem foreign_origin_rejected (https : bool) (h rest : string) (port : Z) :
  let v := String.append (if https then "https://" else "http://") (String.append h rest) in
  str_all host_byte h = true -> h <> "" -> trim v = v ->
  (rest = "" \/ exists p, rest = String ":"%char p /\ str_all (fun c => negb (is_authority_end c)) p = true) ->
  origin_allowed v port = loopback_name h || (str_eqb h "tauri.localhost" && is_empty rest).
Proof.
  intros v Hh Hne Ht Hr. destruct (authority_host h rest Hh Hr) as (H1 & H2 & H3). specialize (H2 Hne).
  assert (Hl : is_loopback_authority v = loopback_name h).
  { unfold is_loopback_authority. rewrite Ht. unfold v. destruct https.
    - change (strip_prefix "http://" (String.append "https://" (String.append h rest))) with (@None string).
      change (strip_prefix "https://" (String.append "https://" (String.append h rest))) with (Some (String.append h rest)).
      cbv iota beta. by rewrite H1, H2, H3.
    - change (strip_prefix "http://" (String.append "http://" (String.append h rest))) with (Some (String.append h rest)).
      cbv iota beta. by rewrite H1, H2, H3. }
  assert (Htauri : str_eqb v "tauri://localhost" || str_eqb v "http://tauri.localhost" || str_eqb v "https://tauri.localhost"
                   = str_eqb h "tauri.localhost" && is_empty rest).
  { assert (Hx : str_eqb (String.append h rest) "tauri.localhost" = str_eqb h "tauri.localhost" && is_empty rest).
    { destruct Hr as [->|(p & -> & Hp)]; [by rewrite append_nil_r, andb_true_r|]. rewrite andb_false_r.
      apply not_true_iff_false. intros E%str_eqb_eq.
      assert (Hc : str_all (fun c => negb (byte_is ":"%char c)) (String.append h (String ":"%char p)) = true) by (rewrite E; reflexivity).
      rewrite str_all_append in Hc. by rewrite andb_false_r in Hc. }
    rewrite <-Hx. unfold v. apply bool_eq_iff. rewrite !orb_true_iff, !str_eqb_eq.
    destruct https; simpl; split; [intros [[E|E]|E]|intros ->|intros [[E|E]|E]|intros ->]; try discriminate; simplify_eq; auto. }
  unfold origin_allowed. rewrite Ht, Htauri, Hl.
  destruct (str_eqb h "tauri.localhost" && is_empty rest); [by rewrite orb_true_r|by rewrite orb_false_r].
Qed.

Lemma foreign_origin_rejected_witness :
  origin_allowed "http://evil.example:8080" 8080 = false /\ origin_allowed "http://LOCALHOST:5173" 8080 = true.
Proof.
  split.
  - refine (eq_trans (foreign_origin_rejected false "evil.example" ":8080" 8080 _ _ _ _) _); try reflexivity; [discriminate|].
    right. by exists "8080".
  - refine (eq_trans (foreign_origin_rejected false "LOCALHOST" ":5173" 8080 _ _ _ _) _); try reflexivity; [discriminate|].
    right. by exists "5173".
Defined.

(** The bearer gates are exact: the accumulated comparison accepts exactly equal strings, and a WebSocket connect is
    authorized exactly when a non-empty token equals the daemon's and every [Origin] or [Host] present is allowed. *)
Theorem local_bearer_exact (presented token : string) (t origin host : option string) (port : Z) :
  (verify_local_bearer presented token = true <-> presented = token) /\
  (ws_connect_authorized t origin host token port = true <->
     t = Some token /\ token <> "" /\
     (forall o, origin = Some o -> origin_allowed o port = true) /\
     (forall h, host = Some h -> origin_allowed h port = true)) /\
  ws_connect_authorized t origin host token port =
    ws_origin_allowed origin host port && match t with Some t => negb (is_empty t) && verify_local_bearer t token | None => false end.
Proof.
  assert (Hv : forall a b, verify_local_bearer a b = true <-> a = b).
  { intros a b. unfold verify_local_bearer. rewrite ct_eq_spec. split; [apply bytes_inj|by intros ->]. }
  assert (He : ws_connect_authorized t origin host token port =
    ws_origin_allowed origin host port && match t with Some t => negb (is_empty t) && verify_local_bearer t token | None => false end).
  { unfold ws_connect_authorized, ws_origin_allowed. destruct (match origin with Some _ => _ | None => _ end); [done|].
    destruct (match host with Some _ => _ | None => _ end); [done|]. destruct t as [s|]; [|done]. by destruct (is_empty s). }
  assert (Ho : ws_origin_allowed origin host port = true <->
     (forall o, origin = Some o -> origin_allowed o port = true) /\ (forall h, host = Some h -> origin_allowed h port = true)).
  { unfold ws_origin_allowed. destruct origin as [o|], host as [h|].
    - destruct (origin_allowed o port) eqn:E1, (origin_allowed h port) eqn:E2; simpl; naive_solver.
    - destruct (origin_allowed o port) eqn:E1; simpl; naive_solver.
    - destruct (origin_allowed h port) eqn:E2; simpl; naive_solver.
    - naive_solver. }
  split; [apply Hv|]. split; [|done]. rewrite He, andb_true_iff, Ho. destruct t as [s|]; [|naive_solver].
  rewrite andb_true_iff, negb_true_iff, Hv. assert (Hs : is_empty s = false <-> s <> "") by (by destruct s).
  rewrite Hs. naive_solver.
Qed.

(** The scope model: a key holds a need exactly when one of the tokens of its grant implies it, admin standing for run
    and read, run for read, and manage only for itself; every mutation of a device-control route
    needs manage, and so does the one read that hands the device over; so a key reaches them exactly when it was issued a manage
    token, and a request that never passed the middleware holds nothing. *)
Theorem scope_model_exact (csv : string) (needed : Scope) (method path : string) :
  (scope_grants csv needed = true <-> exists t held, t ∈ split ","%char csv /\ token_scope t = Some held /\ implies held needed = true) /\
  (path ∈ device_routes -> eq_ignore_ascii_case method "GET" = false -> eq_ignore_ascii_case method "HEAD" = false ->
     (grants (Scoped csv) (required_scope method path) = true <-> exists t, t ∈ split ","%char csv /\ trim t = "manage")) /\
  required_scope method "/v1/backup/download" = Manage /\
  grants (caller_or_deny None) needed = false /\ grants FullAccess needed = true.
Proof.
  assert (Hg : forall n, scope_grants csv n = true <-> exists t held, t ∈ split ","%char csv /\ token_scope t = Some held /\ implies held n = true).
  { intros n. rewrite scope_grants_spec, any_true. split.
    - intros (t & Ht & H). destruct (token_scope t) as [held|] eqn:E; [|done]. by exists t, held.
    - intros (t & held & Ht & E & H). exists t. by rewrite E. }
  split; [apply Hg|]. split; [|split_and!; [done|by destruct needed|done]].
  intros Hp Hget Hhead.
  assert (Hm : required_scope method path = Manage).
  { unfold required_scope. rewrite Hget, Hhead. unfold device_routes in Hp. rewrite !elem_of_cons, elem_of_nil in Hp.
    repeat destruct Hp as [->|Hp]; try reflexivity. done. }
  rewrite Hm. change (grants (Scoped csv) Manage) with (scope_grants csv Manage). rewrite Hg. split.
  - intros (t & held & Ht & E & H). destruct held; try discriminate. exists t. split; [done|].
    unfold token_scope in E. apply find_first_Some in E as [_ E]. by apply str_eqb_eq in E.
  - intros (t & Ht & E). exists t, Manage. split; [done|]. split; [|done]. unfold token_scope. rewrite E. reflexivity.
Qed.

(** A device-control prefix does not cover a path whose last segment is an execute surface. *)
Example run_suffix_undercuts_device_prefix :
  is_device_management_path "/v1/cloud/reflect/api-keys/7/cancel" = true /\
  required_scope "POST" "/v1/cloud/reflect/api-keys/7/cancel" = Run /\ required_scope "DELETE" "/v1/keys/run" = Run.
Proof. repeat split; reflexivity. Qed.

(** User information or text after a bracketed address is not part of the host compared. *)
Example loopback_prefix_of_foreign_authority :
  origin_allowed "http://localhost:80@evil.example" 0 = true /\ origin_allowed "http://[::1].evil.example" 0 = true.
Proof. split; reflexivity. Qed.
