(* ===== verification/WsTicket.v ===== *)
(** * local/ws_ticket.rs

    Single-use tickets for WebSocket connects: the store, its issuance limits, and consumption. The
    digest and the encoding of the random bytes are parameters; each operation takes the
    reading of the clock it makes. *)

From Stdlib Require Import Ascii String.
From S2P Require Import Prelude Ints Str.
Open Scope Z_scope.

(** In nanoseconds. *)
Definition TICKET_TTL : Z := 30 * 1000000000.
Definition TICKET_PREFIX : string := "wtk_".
Definition MAX_OUTSTANDING : nat := 128.
Definition MAX_ISSUE_PER_WINDOW : Z := 120.
Definition RATE_WINDOW : Z := 60 * 1000000000.

Inductive WsRoute : Type := Record_ | AiPreview.

#[export] Instance ws_route_eq_dec : EqDecision WsRoute.
Proof. solve_decision. Defined.

Definition route_parse (s : string) : option WsRoute :=
  let s := trim s in
  if str_eqb s "record" then Some Record_
  else if str_eqb s "ai-preview" then Some AiPreview
  else None.

Definition route_as_str (r : WsRoute) : string :=
  match r with Record_ => "record" | AiPreview => "ai-preview" end.

Inductive IssueError : Type := RateLimited.

Record TicketEntry : Type := mkEntry {
  route : WsRoute;
  channel : option string;
  expires_at : Z;
}.

Record RateWindow : Type := mkWindow {
  window_start : Z;
  count : Z;
}.

Record TicketStore : Type := mkStore {
  tickets : gmap string TicketEntry;
  rate : RateWindow;
}.

Definition store_new (now : Z) : TicketStore := mkStore ∅ (mkWindow now 0).

Definition prune (s : TicketStore) (now : Z) : TicketStore :=
  mkStore (filter (fun '(_, e) => now < expires_at e) (tickets s)) (rate s).

Definition check_rate (w : RateWindow) (now : Z) : result RateWindow (IssueError * RateWindow) :=
  let w := if RATE_WINDOW <=? Z.max 0 (now - window_start w) then mkWindow now 0 else w in
  if MAX_ISSUE_PER_WINDOW <=? count w then Err (RateLimited, w)
  else Ok (mkWindow (window_start w) (count w + 1)).

Section store.
Context (hash_ticket : string -> string) (encode : string -> string).

Definition ticket_of (raw : string) : string := String.append TICKET_PREFIX (encode raw).

(** [raw] is the 32 random bytes. *)
Definition issue (s : TicketStore) (now : Z) (raw : string) (r : WsRoute) (c : option string)
    : TicketStore * result (string * Z) IssueError :=
  let s := prune s now in
  if (MAX_OUTSTANDING <=? size (tickets s))%nat then (s, Err RateLimited)
  else match check_rate (rate s) now with
       | Err (e, w) => (mkStore (tickets s) w, Err e)
       | Ok w =>
           let ticket := ticket_of raw in
           (mkStore (<[hash_ticket ticket := mkEntry r c (now + TICKET_TTL)]> (tickets s)) w, Ok (ticket, TICKET_TTL))
       end.

Definition consume (s : TicketStore) (now : Z) (presented : string) (r : WsRoute) (c : option string)
    : TicketStore * bool :=
  if is_empty presented then (s, false)
  else
    let hash := hash_ticket presented in
    match tickets s !! hash with
    | None => (s, false)
    | Some entry =>
        let s := mkStore (delete hash (tickets s)) (rate s) in
        if expires_at entry <=? now then (s, false)
        else if negb (bool_decide (route entry = r)) then (s, false)
        else (s, bool_decide (channel entry = c))
    end.

(** ** Specification

    A trace of calls with their clock readings; the specification keeps every ticket issued and not
    yet presented, without ever pruning. *)

Inductive event : Type :=
| Issue (now : Z) (raw : string) (r : WsRoute) (c : option string)
| Consume (now : Z) (presented : string) (r : WsRoute) (c : option string).

Definition event_time (e : event) : Z := match e with Issue now _ _ _ | Consume now _ _ _ => now end.

Definition is_ok {A E : Type} (r : result A E) : bool := match r with Ok _ => true | Err _ => false end.

Definition store_step (s : TicketStore) (e : event) : TicketStore * bool :=
  match e with
  | Issue now raw r c => let '(s, res) := issue s now raw r c in (s, is_ok res)
  | Consume now p r c => consume s now p r c
  end.

Fixpoint store_run (s : TicketStore) (es : list event) : list bool :=
  match es with
  | [] => []
  | e :: es' => let '(s, b) := store_step s e in b :: store_run s es'
  end.

(** [granted] tells whether the limits let an issuance through. *)
Definition spec_step (m : gmap string TicketEntry) (e : event) (granted : bool) : gmap string TicketEntry * bool :=
  match e with
  | Issue now raw r c =>
      (if granted then <[hash_ticket (ticket_of raw) := mkEntry r c (now + TICKET_TTL)]> m else m, granted)
  | Consume now p r c =>
      if is_empty p then (m, false)
      else (delete (hash_ticket p) m,
            match m !! hash_ticket p with
            | Some e => bool_decide (now < expires_at e /\ route e = r /\ channel e = c)
            | None => false
            end)
  end.

Fixpoint spec_run (m : gmap string TicketEntry) (es : list event) (granted : list bool) : list bool :=
  match es, granted with
  | e :: es', g :: gs => let '(m, b) := spec_step m e g in b :: spec_run m es' gs
  | _, _ => []
  end.

(** Readings of a monotonic clock from [t] on. *)
Fixpoint monotone (t : Z) (es : list event) : Prop :=
  match es with
  | [] => True
  | e :: es' => t <= event_time e /\ monotone (event_time e) es'
  end.

(** The store holds what the specification holds, less some tickets expired by [t]. *)
Definition refines (t : Z) (s : TicketStore) (m : gmap string TicketEntry) : Prop :=
  forall h, match tickets s !! h with
            | Some e => m !! h = Some e
            | None => forall e, m !! h = Some e -> expires_at e <= t
            end.

Definition store_ok (s : TicketStore) : Prop :=
  (size (tickets s) <= MAX_OUTSTANDING)%nat /\ 0 <= count (rate s) <= MAX_ISSUE_PER_WINDOW.

(** ** Lemmas *)

Lemma prune_lookup (s : TicketStore) (now : Z) (h : string) (e : TicketEntry) :
  tickets (prune s now) !! h = Some e <-> tickets s !! h = Some e /\ now < expires_at e.
Proof. unfold prune. cbn [tickets]. by rewrite map_lookup_filter_Some. Qed.

Lemma prune_refines (t now : Z) (s : TicketStore) (m : gmap string TicketEntry) :
  refines t s m -> t <= now -> refines now (prune s now) m.
Proof.
  intros Hr Ht h. specialize (Hr h). destruct (tickets (prune s now) !! h) as [e|] eqn:E.
  - apply prune_lookup in E as [E _]. by rewrite E in Hr.
  - intros e Hm. destruct (tickets s !! h) as [e'|] eqn:Es; [|specialize (Hr e Hm); lia].
    rewrite Hr in Hm. injection Hm as ->. apply Z.nlt_ge. intros Hlt.
    assert (H : tickets (prune s now) !! h = Some e) by (by apply prune_lookup). congruence.
Qed.

Lemma refines_weaken (t now : Z) (s : TicketStore) (m : gmap string TicketEntry) :
  refines t s m -> t <= now -> refines now s m.
Proof.
  intros Hr Ht h. specialize (Hr h). destruct (tickets s !! h); [done|]. intros e He. specialize (Hr e He). lia.
Qed.

Lemma refines_insert (t : Z) (s : TicketStore) (m : gmap string TicketEntry) (h : string) (e : TicketEntry) (w : RateWindow) :
  refines t s m -> refines t (mkStore (<[h := e]> (tickets s)) w) (<[h := e]> m).
Proof.
  intros Hr h'. cbn [tickets]. destruct (decide (h = h')) as [<-|Hne].
  - by rewrite !lookup_insert_eq.
  - rewrite !lookup_insert_ne by done. apply Hr.
Qed.

Lemma refines_delete (t : Z) (s : TicketStore) (m : gmap string TicketEntry) (h : string) (w : RateWindow) :
  refines t s m -> refines t (mkStore (delete h (tickets s)) w) (delete h m).
Proof.
  intros Hr h'. cbn [tickets]. destruct (decide (h = h')) as [<-|Hne].
  - by rewrite !lookup_delete_eq.
  - rewrite !lookup_delete_ne by done. apply Hr.
Qed.

Lemma step_refines (t : Z) (s : TicketStore) (m : gmap string TicketEntry) (e : event) :
  refines t s m -> t <= event_time e ->
  let '(s', b) := store_step s e in
  let '(m', b') := spec_step m e b in
  b' = b /\ refines (event_time e) s' m'.
Proof.
  intros Hr Ht. destruct e as [now raw r c|now p r c]; cbn [event_time] in Ht |- *; cbn [store_step spec_step].
  - unfold issue. pose proof (prune_refines t now s m Hr Ht) as Hp.
    destruct (_ <=? _)%nat; [done|].
    destruct (check_rate _ _) as [w|[e w]]; cbn [is_ok]; [|done]. split; [done|]. by apply refines_insert.
  - unfold consume. destruct (is_empty p); [split; [done|by eapply refines_weaken]|].
    pose proof (Hr (hash_ticket p)) as Hh. destruct (tickets s !! hash_ticket p) as [e|] eqn:E.
    + rewrite Hh. pose proof (refines_delete now s m (hash_ticket p) (rate s) (refines_weaken t now s m Hr Ht)) as Hd.
      destruct (Z.leb_spec (expires_at e) now); [split; [apply bool_decide_eq_false_2; intros [? _]; lia|done]|].
      case_bool_decide as Er; simpl; [|split; [apply bool_decide_eq_false_2; intros (_ & ? & _); done|done]].
      split; [|done]. apply bool_decide_ext. split; [tauto|intros ->; done].
    + split.
      * destruct (m !! hash_ticket p) as [e|] eqn:Em; [|done]. specialize (Hh e eq_refl).
        apply bool_decide_eq_false_2. intros [? _]. lia.
      * intros h. cbn. destruct (decide (hash_ticket p = h)) as [<-|Hne].
        -- rewrite E. intros e He. by rewrite lookup_delete_eq in He.
        -- rewrite lookup_delete_ne by done. by apply (refines_weaken t now s m Hr Ht).
Qed.

Lemma prune_size (s : TicketStore) (now : Z) : (size (tickets (prune s now)) <= size (tickets s))%nat.
Proof.
  unfold prune. cbn [tickets]. rewrite <-!size_dom. apply subseteq_size. apply dom_filter_subseteq.
Qed.

Lemma check_rate_ok (w w' : RateWindow) (now : Z) :
  0 <= count w <= MAX_ISSUE_PER_WINDOW ->
  (check_rate w now = Ok w' \/ (exists e, check_rate w now = Err (e, w'))) -> 0 <= count w' <= MAX_ISSUE_PER_WINDOW.
Proof.
  intros Hw. unfold check_rate. set (w1 := if RATE_WINDOW <=? _ then _ else w).
  assert (H1 : 0 <= count w1 <= MAX_ISSUE_PER_WINDOW).
  { unfold w1. destruct (RATE_WINDOW <=? _); [|done]. simpl. unfold MAX_ISSUE_PER_WINDOW. lia. }
  clearbody w1. destruct (Z.leb_spec MAX_ISSUE_PER_WINDOW (count w1)); intros [H'|[e H']]; simplify_eq/=; lia.
Qed.

Lemma store_step_ok (s : TicketStore) (e : event) : store_ok s -> store_ok (fst (store_step s e)).
Proof.
  intros [Hs Hw]. destruct e as [now raw r c|now p r c]; cbn [store_step].
  - unfold issue. pose proof (prune_size s now) as Hp.
    destruct (Nat.leb_spec MAX_OUTSTANDING (size (tickets (prune s now)))) as [Hc|Hc]; [split; [cbn [fst]; lia|done]|].
    destruct (check_rate (rate (prune s now)) now) as [w|[e w]] eqn:E; cbn [fst]; split; cbn [tickets rate];
      try (eapply check_rate_ok; [exact Hw|]; eauto); [|lia].
    rewrite map_size_insert. destruct (tickets (prune s now) !! _); cbv beta iota; unfold id; lia.
  - unfold consume. destruct (is_empty p); [done|].
    destruct (tickets s !! hash_ticket p) as [e|] eqn:E; [|done].
    assert (Hd : store_ok (mkStore (delete (hash_ticket p) (tickets s)) (rate s))).
    { split; [|done]. cbn [tickets]. rewrite map_size_delete, E. cbv beta iota. lia. }
    destruct (_ <=? _); [done|]. by destruct (negb _).
Qed.

End store.

(** ** Properties *)

(** C8: The ticket store refines its specification: over any trace of calls on a monotonic clock, a presented ticket is accepted
    exactly when it was issued, not presented since, not expired, and issued for this very route and
    channel; presenting a ticket spends it whatever the outcome, and the pruning never shows. *)
Theorem ticket_store_refines (hash_ticket encode : string -> string) (t0 : Z) (es : list event) :
  monotone t0 es ->
  spec_run hash_ticket encode ∅ es (store_run hash_ticket encode (store_new t0) es)
  = store_run hash_ticket encode (store_new t0) es.
Proof.
  assert (H : forall es t s m, refines t s m -> monotone t es ->
            spec_run hash_ticket encode m es (store_run hash_ticket encode s es) = store_run hash_ticket encode s es).
  { clear. induction es as [|e es IH]; intros t s m Hr Hm; [done|]. destruct Hm as [Ht Hm].
    pose proof (step_refines hash_ticket encode t s m e Hr Ht) as Hs. cbn [store_run].
    destruct (store_step hash_ticket encode s e) as [s' b]. cbn [spec_run].
    destruct (spec_step hash_ticket encode m e b) as [m' b']. destruct Hs as [-> Hs]. f_equal. by apply (IH (event_time e)). }
  apply H. intros h. change (tickets (store_new t0)) with (∅ : gmap string TicketEntry).
  rewrite !lookup_empty. by intros e He.
Qed.

Definition second : Z := 1000000000.

(** Issue, wrong route, right route too late; issue, right route, replay. *)
Definition sample_trace : list event :=
  [Issue 0 "a" Record_ None; Consume second "wtk_a" AiPreview None; Consume second "wtk_a" Record_ None;
   Issue second "b" AiPreview (Some "k"); Consume (2 * second) "wtk_b" AiPreview (Some "k"); Consume (2 * second) "wtk_b" AiPreview (Some "k");
   Issue (3 * second) "c" Record_ None; Consume (33 * second) "wtk_c" Record_ None]%string.

Lemma ticket_store_refines_witness :
  spec_run id id ∅ sample_trace [true; false; false; true; true; false; true; false] = [true; false; false; true; true; false; true; false].
Proof.
  assert (Hm : monotone 0 sample_trace) by (vm_compute; intuition discriminate).
  assert (Hrun : store_run id id (store_new 0) sample_trace = [true; false; false; true; true; false; true; false])
    by (vm_compute; reflexivity).
  pose proof (ticket_store_refines id id 0 sample_trace Hm) as H. rewrite Hrun in H. exact H.
Defined.

(** The store is bounded: after any calls, in any order and at any clock readings, it holds at most 128 tickets and its
    window has counted at most 120 issuances; an issuance refused for either limit adds no ticket. *)
Theorem ticket_store_bounded (hash_ticket encode : string -> string) (t0 : Z) (es : list event) :
  store_ok (foldl (fun s e => fst (store_step hash_ticket encode s e)) (store_new t0) es) /\
  forall s now raw r c, snd (issue hash_ticket encode s now raw r c) = Err RateLimited ->
    tickets (fst (issue hash_ticket encode s now raw r c)) = tickets (prune s now).
Proof.
  split.
  - assert (H : forall s, store_ok s -> store_ok (foldl (fun s e => fst (store_step hash_ticket encode s e)) s es)).
    { induction es as [|e es IH]; intros s Hs; [done|]. by apply IH, store_step_ok. }
    apply H. split; [vm_compute; lia|vm_compute; intuition discriminate].
  - intros s now raw r c. unfold issue. destruct (_ <=? _)%nat; [done|]. by destruct (check_rate _ _) as [w|[e w]].
Qed.

(** A fixed window, not a sliding one: 239 tickets minted, each spent at once, within half a second. *)
Fixpoint mint_and_spend (n : nat) (now : Z) : list event :=
  match n with
  | O => []
  | S n' => Issue now "x" Record_ None :: Consume now "wtk_x" Record_ None :: mint_and_spend n' now
  end.

Example window_boundary_doubles_rate :
  store_run id id (store_new 0)
    (Issue 0 "x" Record_ None :: mint_and_spend 119 (59 * second + 500000000) ++ mint_and_spend 120 (60 * second))%list
  = replicate 479 true.
Proof. vm_compute. reflexivity. Qed.
