(* ===== verification/Clamp.v ===== *)
(** * local/scheduler/clamp.rs

    The minimum cadences of local monitors and workflows. The two process-wide atomics are a
    state record of unsigned 64-bit values. *)

From S2P Require Import Prelude Ints.
Open Scope Z_scope.

Definition HTML_FLOOR_MS : Z := 60000.
Definition JS_FLOOR_MS : Z := 300000.
Definition WORKFLOW_FLOOR_MS : Z := 60000.

Record floors : Type := mkFloors {
  html_configured : Z;
  js_configured : Z;
}.

Definition floors_init : floors := mkFloors HTML_FLOOR_MS JS_FLOOR_MS.

Definition install_monitor_floors (f : floors) (html js : Z) : floors :=
  mkFloors (Z.max html HTML_FLOOR_MS) (Z.max js JS_FLOOR_MS).

Definition configured_monitor_floors (f : floors) : Z * Z := (html_configured f, js_configured f).

Definition monitor_floor_ms (f : floors) (requires_playwright : bool) : Z :=
  let '(html, js) := configured_monitor_floors f in
  if requires_playwright then as_i64 (Z.max js JS_FLOOR_MS) else as_i64 (Z.max html HTML_FLOOR_MS).

Definition clamp_monitor_interval_ms (f : floors) (requested_ms : option Z) (requires_playwright : bool) : Z :=
  let floor := monitor_floor_ms f requires_playwright in
  match requested_ms with
  | Some ms => if 0 <? ms then Z.max ms floor else floor
  | None => floor
  end.

Definition clamp_workflow_interval_ms (requested_ms : option Z) : Z :=
  match requested_ms with
  | Some ms => if 0 <? ms then Z.max ms WORKFLOW_FLOOR_MS else WORKFLOW_FLOOR_MS
  | None => WORKFLOW_FLOOR_MS
  end.

(** The hard floor of a kind of check. *)
Definition hard_floor (requires_playwright : bool) : Z := if requires_playwright then JS_FLOOR_MS else HTML_FLOOR_MS.

Lemma monitor_floor_ge (f : floors) (b : bool) :
  html_configured f <= i64_max -> js_configured f <= i64_max -> hard_floor b <= monitor_floor_ms f b.
Proof.
  intros Hh Hj. unfold monitor_floor_ms, hard_floor, configured_monitor_floors, HTML_FLOOR_MS, JS_FLOOR_MS.
  destruct b; rewrite as_i64_id; unfold in_i64, i64_min, i64_max in *; lia.
Qed.

(** The local cadence floors: with any configured floors that fit a signed 64-bit integer, an effective interval is
    never under the hard floor of its kind, nor under the configured one, and is the
    requested one when that is long enough; a workflow's is never under its floor. But the conversion
    of a larger configured floor wraps: some installed value lets a one-millisecond interval through. *)
Theorem interval_floor (f : floors) (html js : Z) (requested : option Z) (b : bool) :
  (html <= i64_max -> js <= i64_max ->
     let f' := install_monitor_floors f html js in
     let eff := clamp_monitor_interval_ms f' requested b in
     hard_floor b <= eff /\ (if b then js else html) <= eff /\
     (forall ms, requested = Some ms -> monitor_floor_ms f' b <= ms -> eff = ms) /\
     clamp_monitor_interval_ms f' (Some eff) b = eff) /\
  WORKFLOW_FLOOR_MS <= clamp_workflow_interval_ms requested /\
  clamp_monitor_interval_ms (install_monitor_floors f (2 ^ 63) (2 ^ 63)) (Some 1) b = 1.
Proof.
  split_and!.
  - intros Hh Hj f' eff.
    assert (Hf : hard_floor b <= monitor_floor_ms f' b /\ (if b then js else html) <= monitor_floor_ms f' b).
    { unfold monitor_floor_ms, hard_floor, f', configured_monitor_floors, install_monitor_floors, HTML_FLOOR_MS, JS_FLOOR_MS. simpl.
      destruct b; rewrite as_i64_id; unfold in_i64, i64_min, i64_max in *; lia. }
    assert (Hpos : 0 < hard_floor b) by (destruct b; vm_compute; reflexivity).
    unfold eff, clamp_monitor_interval_ms. set (fl := monitor_floor_ms f' b) in *. clearbody fl.
    destruct requested as [ms|].
    + destruct (Z.ltb_spec 0 ms); split_and!; try lia.
      * intros ms' [= <-]. lia.
      * destruct (Z.ltb_spec 0 (Z.max ms fl)); lia.
      * intros ms' [= <-]. lia.
      * destruct (Z.ltb_spec 0 fl); lia.
    + split_and!; try lia; [done|]. destruct (Z.ltb_spec 0 fl); lia.
  - unfold clamp_workflow_interval_ms, WORKFLOW_FLOOR_MS. destruct requested as [ms|]; [|lia].
    destruct (Z.ltb_spec 0 ms); lia.
  - destruct b; vm_compute; reflexivity.
Qed.
