(* ===== verification/Recurrence.v ===== *)
(** * local/scheduler/recurrence.rs

    Daily and weekly recurrences. Instants are nanoseconds since the epoch and calendar dates are
    day numbers; the calendar and the zone database ([chrono], [chrono_tz]) are the interface
    [Calendar], the RFC 3339 parser is a parameter, and a JSON parser of days is one. Instants are unbounded: the
    additions that leave chrono's range, which panic, are outside the model. *)

From Stdlib Require Import Ascii String.
From S2P Require Import Prelude Ints Str Json.
Open Scope Z_scope.

(** ** The calendar interface *)

Inductive LocalResult : Type :=
| Single (t : Z)
| Ambiguous (earliest latest : Z)
| NoTime.

Class Calendar (Tz : Type) : Type := {
  tz_parse : string -> option Tz;
  tz_utc : Tz;
  (** [now.with_timezone(&tz).date_naive()] *)
  local_date : Tz -> Z -> Z;
  (** [tz.with_ymd_and_hms] of a date's own year, month and day *)
  with_ymd_and_hms : Tz -> Z -> Z -> Z -> LocalResult;
  (** [weekday().number_from_monday()] *)
  weekday : Z -> Z;
  (** the range of dates [checked_add_days] stays in *)
  date_ok : Z -> bool;
}.

(** ** Data *)

Inductive Kind : Type := Interval | Daily | Weekly.

#[export] Instance kind_eq_dec : EqDecision Kind.
Proof. solve_decision. Defined.

Definition kind_parse (s : option string) : Kind :=
  match s with
  | Some s => if str_eqb s "daily" then Daily else if str_eqb s "weekly" then Weekly else Interval
  | None => Interval
  end.

Definition kind_as_str (k : Kind) : string :=
  match k with Interval => "interval" | Daily => "daily" | Weekly => "weekly" end.

Record Recurrence : Type := mkRecurrence {
  kind : Kind;
  interval_ms : Z;
  time : option string;
  days : list Z;
  tz : string;
}.

Definition parse_days_json (from_str : string -> option (list Z)) (days_json : option string) : list Z :=
  match days_json with
  | None => []
  | Some s =>
      let s := trim s in
      if is_empty s then []
      else match from_str s with
           | Some v => retain (fun d => (1 <=? d) && (d <=? 7)) v
           | None => []
           end
  end.

Definition from_columns (from_str : string -> option (list Z)) (k : option string) (interval : Z)
    (t days_json zone : option string) : Recurrence :=
  mkRecurrence (kind_parse k) interval t (parse_days_json from_str days_json) (unwrap_or zone EmptyString).

(** [m * 60_000] wraps in a release build. *)
Definition from_block_config (config : json) : Recurrence :=
  let k := kind_parse (get config "mode" ≫= json_as_str) in
  let interval :=
    match get config "interval_ms" ≫= json_as_i64 with
    | Some ms => ms
    | None => match get config "interval_minutes" ≫= json_as_i64 with
              | Some m => as_i64 (m * 60000)
              | None => 0
              end
    end in
  let days := match get config "days" ≫= json_as_array with
              | Some a => as_u32 <$> omap json_as_u64 a
              | None => []
              end in
  mkRecurrence k interval (get config "time" ≫= json_as_str) days (unwrap_or (get config "tz" ≫= json_as_str) EmptyString).

Definition parse_hhmm (t : option string) : Z * Z :=
  match t ≫= split_once ":"%char with
  | Some (h, m) =>
      match parse_u32 (trim h), parse_u32 (trim m) with
      | Some h, Some m => if (h <? 24) && (m <? 60) then (h, m) else (0, 0)
      | _, _ => (0, 0)
      end
  | None => (0, 0)
  end.

Definition ns_of_ms (ms : Z) : Z := ms * 1000000.
Definition one_day : Z := ns_of_ms 86400000.
Definition RECURRENCE_SEARCH_DAYS : nat := 8.

(** ** Occurrences *)

Section calendar.
Context {Tz : Type} `{!Calendar Tz}.

Definition load_tz (s : string) : Tz := unwrap_or (tz_parse s) tz_utc.

(** [wall] is the clock's reading, for the last fallback. *)
Definition local_at_utc (wall : Z) (zone : Tz) (d hh mm : Z) : Z :=
  match with_ymd_and_hms zone d hh mm with
  | Single t => t
  | Ambiguous a _ => a
  | NoTime =>
      match with_ymd_and_hms zone d (Z.min (hh + 1) 23) mm with
      | Single t => t
      | Ambiguous a _ => a
      | NoTime => match with_ymd_and_hms tz_utc d hh mm with Single t => t | _ => wall end
      end
  end.

Definition shift_local_date (d k : Z) : option Z := if date_ok (d + k) then Some (d + k) else None.

(** The loops over offsets [off..=8], in direction [sign]: the first candidate on an admitted day
    that passes [accept]. *)
Fixpoint search (wall : Z) (zone : Tz) (today hh mm : Z) (sign : Z) (day_ok : Z -> bool) (accept : Z -> bool)
    (off : nat) (fuel : nat) : option Z :=
  match fuel with
  | O => None
  | S fuel' =>
      let rest := search wall zone today hh mm sign day_ok accept (S off) fuel' in
      match shift_local_date today (sign * Z.of_nat off) with
      | None => rest
      | Some d =>
          if day_ok d then
            let cand := local_at_utc wall zone d hh mm in
            if accept cand then Some cand else rest
          else rest
      end
  end.

Definition day_matches (r : Recurrence) (d : Z) : bool :=
  match kind r with Weekly => any (Z.eqb (weekday d)) (days r) | _ => true end.

Definition next_run (wall : Z) (r : Recurrence) (now : Z) : Z :=
  match kind r with
  | Interval => now + ns_of_ms (Z.max (interval_ms r) 0)
  | Daily =>
      let zone := load_tz (tz r) in
      let '(hh, mm) := parse_hhmm (time r) in
      let today := local_date zone now in
      match search wall zone today hh mm 1 (fun _ => true) (fun c => now <? c) 0 (S RECURRENCE_SEARCH_DAYS) with
      | Some c => c
      | None => now + one_day
      end
  | Weekly =>
      let zone := load_tz (tz r) in
      let '(hh, mm) := parse_hhmm (time r) in
      let today := local_date zone now in
      match search wall zone today hh mm 1 (fun d => any (Z.eqb (weekday d)) (days r)) (fun c => now <? c)
              0 (S RECURRENCE_SEARCH_DAYS) with
      | Some c => c
      | None => now + ns_of_ms (Z.max (interval_ms r) 86400000)
      end
  end.

Definition prev_occurrence (wall : Z) (r : Recurrence) (now : Z) : option Z :=
  match kind r with
  | Interval => None
  | Daily =>
      let zone := load_tz (tz r) in
      let '(hh, mm) := parse_hhmm (time r) in
      search wall zone (local_date zone now) hh mm (-1) (fun _ => true) (fun c => c <=? now) 0 (S RECURRENCE_SEARCH_DAYS)
  | Weekly =>
      let zone := load_tz (tz r) in
      let '(hh, mm) := parse_hhmm (time r) in
      search wall zone (local_date zone now) hh mm (-1) (fun d => any (Z.eqb (weekday d)) (days r)) (fun c => c <=? now)
        0 (S RECURRENCE_SEARCH_DAYS)
  end.

Definition is_due (parse_rfc3339 : string -> option Z) (wall : Z) (r : Recurrence) (last_triggered_at : option string) (now : Z) : bool :=
  if bool_decide (kind r = Interval) then
    match last_triggered_at with
    | None => true
    | Some s => match parse_rfc3339 s with
                | Some prev => ns_of_ms (interval_ms r) <=? now - prev
                | None => true
                end
    end
  else
    match prev_occurrence wall r now with
    | None => false
    | Some prev =>
        match last_triggered_at with
        | None => true
        | Some s => match parse_rfc3339 s with
                    | Some last => last <? prev
                    | None => true
                    end
        end
    end.

(** ** Specification *)

(** An occurrence of a daily or weekly recurrence: the fire time on an admitted day. *)
Definition occurrence (wall : Z) (r : Recurrence) (o : Z) : Prop :=
  let '(hh, mm) := parse_hhmm (time r) in
  exists d, day_matches r d = true /\ o = local_at_utc wall (load_tz (tz r)) d hh mm.

(** What the code relies on at an instant: fire times increase with the date, those of earlier local
    dates are past and those of later ones are future, and the dates around are in the
    calendar's range. *)
Record regular (wall : Z) (r : Recurrence) (now : Z) : Prop := {
  reg_mono : forall d d' hh mm, parse_hhmm (time r) = (hh, mm) -> d < d' ->
    local_at_utc wall (load_tz (tz r)) d hh mm < local_at_utc wall (load_tz (tz r)) d' hh mm;
  reg_past : forall d hh mm, parse_hhmm (time r) = (hh, mm) -> d < local_date (load_tz (tz r)) now ->
    local_at_utc wall (load_tz (tz r)) d hh mm <= now;
  reg_future : forall d hh mm, parse_hhmm (time r) = (hh, mm) -> local_date (load_tz (tz r)) now < d ->
    now < local_at_utc wall (load_tz (tz r)) d hh mm;
  reg_dates : forall k, -8 <= k <= 8 -> date_ok (local_date (load_tz (tz r)) now + k) = true;
}.

(** The recurrence fires on some day of every week. *)
Definition fires (r : Recurrence) : Prop :=
  kind r = Daily \/
  kind r = Weekly /\ forall d, exists k, 0 <= k <= 6 /\ any (Z.eqb (weekday (d + k))) (days r) = true.

(** ** Lemmas *)

Lemma search_Some (wall : Z) (zone : Tz) (today hh mm sign : Z) (day_ok accept : Z -> bool) (off fuel : nat) (c : Z) :
  (forall k, (off <= k < off + fuel)%nat -> date_ok (today + sign * Z.of_nat k) = true) ->
  search wall zone today hh mm sign day_ok accept off fuel = Some c <->
  exists k, (off <= k < off + fuel)%nat /\ c = local_at_utc wall zone (today + sign * Z.of_nat k) hh mm /\
    day_ok (today + sign * Z.of_nat k) = true /\ accept c = true /\
    forall j, (off <= j < k)%nat ->
      day_ok (today + sign * Z.of_nat j) && accept (local_at_utc wall zone (today + sign * Z.of_nat j) hh mm) = false.
Proof.
  revert off. induction fuel as [|fuel IH]; intros off Hd; cbn [search].
  { split; [done|]. intros (k & Hk & _). lia. }
  unfold shift_local_date. rewrite Hd by lia. specialize (IH (S off) ltac:(intros; apply Hd; lia)).
  set (p := today + sign * Z.of_nat off).
  assert (Hrest : day_ok p && accept (local_at_utc wall zone p hh mm) = false ->
    search wall zone today hh mm sign day_ok accept (S off) fuel = Some c <->
    exists k, (off <= k < off + S fuel)%nat /\ c = local_at_utc wall zone (today + sign * Z.of_nat k) hh mm /\
      day_ok (today + sign * Z.of_nat k) = true /\ accept c = true /\
      forall j, (off <= j < k)%nat ->
        day_ok (today + sign * Z.of_nat j) && accept (local_at_utc wall zone (today + sign * Z.of_nat j) hh mm) = false).
  { intros Hp. rewrite IH. split.
    - intros (k & Hk & Hc & H1 & H2 & H3). exists k. split; [lia|]. split_and!; try done.
      intros j Hj. destruct (decide (j = off)) as [->|Hne]; [done|]. apply H3. lia.
    - intros (k & Hk & Hc & H1 & H2 & H3). exists k.
      assert (k <> off) by (intros ->; rewrite Hc in H2; fold p in H1, H2; by rewrite H1, H2 in Hp).
      split; [lia|]. split_and!; try done. intros j Hj. apply H3. lia. }
  destruct (day_ok p) eqn:Ep; [|by apply Hrest].
  destruct (accept (local_at_utc wall zone p hh mm)) eqn:Ea; [|by apply Hrest].
  split.
  - intros [= <-]. exists off. split; [lia|]. split_and!; try done. intros j Hj. lia.
  - intros (k & Hk & Hc & H1 & H2 & H3). destruct (decide (k = off)) as [->|Hne]; [by rewrite Hc|].
    specialize (H3 off ltac:(lia)). fold p in H3. by rewrite Ep, Ea in H3.
Qed.

Lemma search_complete (wall : Z) (zone : Tz) (today hh mm sign : Z) (day_ok accept : Z -> bool) (off fuel j : nat) :
  (forall k, (off <= k < off + fuel)%nat -> date_ok (today + sign * Z.of_nat k) = true) ->
  (off <= j < off + fuel)%nat -> day_ok (today + sign * Z.of_nat j) = true ->
  accept (local_at_utc wall zone (today + sign * Z.of_nat j) hh mm) = true ->
  exists c, search wall zone today hh mm sign day_ok accept off fuel = Some c.
Proof.
  revert off. induction fuel as [|fuel IH]; intros off Hd Hj Hday Hacc; [lia|]. cbn [search].
  unfold shift_local_date. rewrite Hd by lia.
  destruct (decide (j = off)) as [->|Hne]; [rewrite Hday, Hacc; eauto|].
  destruct (IH (S off)) as [c ->]; [intros; apply Hd; lia|lia|done|done|].
  repeat case_match; eauto.
Qed.

(** Both kinds search with the same day filter. *)
Lemma next_run_search (wall : Z) (r : Recurrence) (now hh mm : Z) :
  kind r <> Interval -> parse_hhmm (time r) = (hh, mm) ->
  next_run wall r now =
  match search wall (load_tz (tz r)) (local_date (load_tz (tz r)) now) hh mm 1 (day_matches r) (fun c => now <? c) 0 9 with
  | Some c => c
  | None => now + match kind r with Weekly => ns_of_ms (Z.max (interval_ms r) 86400000) | _ => one_day end
  end.
Proof. intros Hk Ht. unfold next_run, day_matches. rewrite Ht. by destruct (kind r). Qed.

Lemma prev_search (wall : Z) (r : Recurrence) (now hh mm : Z) :
  kind r <> Interval -> parse_hhmm (time r) = (hh, mm) ->
  prev_occurrence wall r now =
  search wall (load_tz (tz r)) (local_date (load_tz (tz r)) now) hh mm (-1) (day_matches r) (fun c => c <=? now) 0 9.
Proof. intros Hk Ht. unfold prev_occurrence, day_matches. rewrite Ht. by destruct (kind r). Qed.

Lemma fires_kind (r : Recurrence) : fires r -> kind r <> Interval.
Proof. intros [->|[-> _]]; done. Qed.

Lemma fires_in_week (r : Recurrence) (d : Z) : fires r -> exists k, 0 <= k <= 6 /\ day_matches r (d + k) = true.
Proof.
  unfold day_matches. intros [->|[-> H]].
  - exists 0. split; [lia|done].
  - apply H.
Qed.

(** The search forward returns the least occurrence after [now]. *)
Lemma next_run_spec (wall : Z) (r : Recurrence) (now : Z) :
  regular wall r now -> fires r ->
  occurrence wall r (next_run wall r now) /\ now < next_run wall r now /\
  forall o, occurrence wall r o -> now < o -> next_run wall r now <= o.
Proof.
  intros [Hm Hp Hf Hd] Hfire. destruct (parse_hhmm (time r)) as [hh mm] eqn:Et.
  pose proof (next_run_search wall r now hh mm (fires_kind r Hfire) Et) as Hn.
  set (zone := load_tz (tz r)) in *. set (today := local_date zone now) in *.
  pose proof (fun c => search_Some wall zone today hh mm 1 (day_matches r) (fun c => now <? c) 0 9 c
                ltac:(intros; apply Hd; lia)) as Hs.
  destruct (search wall zone today hh mm 1 (day_matches r) (fun c => now <? c) 0 9) as [c|] eqn:Es.
  - destruct (proj1 (Hs c) eq_refl) as (k & Hk & Hc & Hday & Hacc & Hmin). rewrite Hn.
    apply Z.ltb_lt in Hacc. unfold occurrence. rewrite Et. fold zone. split; [by eexists|]. split; [done|].
    intros o (d & Hdm & ->) Ho. apply Z.nlt_ge. intros Hlt.
    assert (Hdk : d < today + 1 * Z.of_nat k).
    { apply Z.nle_gt. intros Hle. destruct (Z.eq_dec d (today + 1 * Z.of_nat k)) as [->|Hne]; [lia|].
      pose proof (Hm (today + 1 * Z.of_nat k) d hh mm eq_refl ltac:(lia)). lia. }
    assert (Hdt : today <= d) by (apply Z.nlt_ge; intros H; specialize (Hp d hh mm eq_refl H); lia).
    specialize (Hmin (Z.to_nat (d - today)) ltac:(lia)).
    replace (today + 1 * Z.of_nat (Z.to_nat (d - today))) with d in Hmin by lia.
    rewrite Hdm in Hmin. simpl in Hmin. apply Z.ltb_ge in Hmin. lia.
  - exfalso. destruct (fires_in_week r (today + 1) Hfire) as (k & Hk & Hday).
    assert (Hex : exists j, (0 <= j < 0 + 9)%nat /\ day_matches r (today + 1 * Z.of_nat j) = true /\
              now < local_at_utc wall zone (today + 1 * Z.of_nat j) hh mm).
    { exists (Z.to_nat (k + 1)). split; [lia|]. replace (today + 1 * Z.of_nat (Z.to_nat (k + 1))) with (today + 1 + k) by lia.
      split; [done|]. apply (Hf _ hh mm eq_refl). fold zone today. lia. }
    destruct Hex as (j & Hj & Hdj & Haj).
    (* the first such offset would have been returned *)
    assert (Hfirst : exists c, search wall zone today hh mm 1 (day_matches r) (fun c => now <? c) 0 9 = Some c).
    { apply (search_complete _ _ _ _ _ _ _ _ _ _ j); [intros; apply Hd; lia|lia|done|by apply Z.ltb_lt]. }
    destruct Hfirst as [c Hc]. congruence.
Qed.

(** The search back returns the greatest occurrence up to [now]. *)
Lemma prev_spec (wall : Z) (r : Recurrence) (now : Z) :
  regular wall r now -> fires r ->
  exists p, prev_occurrence wall r now = Some p /\ occurrence wall r p /\ p <= now /\
    forall o, occurrence wall r o -> o <= now -> o <= p.
Proof.
  intros [Hm Hp Hf Hd] Hfire. destruct (parse_hhmm (time r)) as [hh mm] eqn:Et.
  rewrite (prev_search wall r now hh mm (fires_kind r Hfire) Et).
  set (zone := load_tz (tz r)) in *. set (today := local_date zone now) in *.
  destruct (fires_in_week r (today - 7) Hfire) as (w & Hw & Hday).
  destruct (search_complete wall zone today hh mm (-1) (day_matches r) (fun c => c <=? now) 0 9 (Z.to_nat (7 - w)))
    as [c Hc].
  { intros. apply Hd. lia. }
  { lia. }
  { by replace (today + -1 * Z.of_nat (Z.to_nat (7 - w))) with (today - 7 + w) by lia. }
  { apply Z.leb_le, (Hp _ hh mm eq_refl). lia. }
  exists c. split; [done|]. apply search_Some in Hc as (k & Hk & -> & Hdk & Hacc & Hmin); [|intros; apply Hd; lia].
  apply Z.leb_le in Hacc. unfold occurrence. rewrite Et. fold zone. split; [by eexists|]. split; [done|].
  intros o (d & Hdm & ->) Ho. apply Z.nlt_ge. intros Hlt.
  assert (Hdk' : today + -1 * Z.of_nat k < d).
  { apply Z.nle_gt. intros Hle. destruct (Z.eq_dec d (today + -1 * Z.of_nat k)) as [->|Hne]; [lia|].
    pose proof (Hm d (today + -1 * Z.of_nat k) hh mm eq_refl ltac:(lia)). lia. }
  assert (Hdt : d <= today) by (apply Z.nlt_ge; intros H; specialize (Hf d hh mm eq_refl H); lia).
  specialize (Hmin (Z.to_nat (today - d)) ltac:(lia)).
  replace (today + -1 * Z.of_nat (Z.to_nat (today - d))) with d in Hmin by lia.
  rewrite Hdm in Hmin. simpl in Hmin. apply Z.leb_gt in Hmin. lia.
Qed.

(** Whatever the calendar, a daily or weekly fire time is in the future. *)
Lemma next_run_future (wall : Z) (r : Recurrence) (now : Z) : kind r <> Interval -> now < next_run wall r now.
Proof.
  intros Hk. destruct (parse_hhmm (time r)) as [hh mm] eqn:Et. rewrite (next_run_search wall r now hh mm Hk Et).
  assert (Hs : forall off fuel c, search wall (load_tz (tz r)) (local_date (load_tz (tz r)) now) hh mm 1 (day_matches r)
              (fun c => now <? c) off fuel = Some c -> now < c).
  { intros off fuel. revert off. induction fuel as [|fuel IH]; intros off c; cbn [search]; [done|].
    repeat case_match; intros; simplify_eq; try (by eapply IH). by apply Z.ltb_lt. }
  case_match; [by eapply Hs|]. unfold one_day, ns_of_ms. case_match; lia.
Qed.

(** The instants from [last] (exclusive) to [now] hold an occurrence. *)
Definition owed (wall : Z) (r : Recurrence) (last now : Z) : Prop :=
  exists o, occurrence wall r o /\ last < o /\ o <= now.
End calendar.

(** ** Properties *)

(** A daily or weekly schedule's next run is the least of its occurrences after [now], where fire times
    increase with the date and the dates around [now] are ordinary; and, on any calendar at all, the next run
    is strictly after [now], so no tick reschedules a row in the past. *)
Theorem next_run_least {Tz : Type} `{!Calendar Tz} (wall : Z) (r : Recurrence) (now : Z) :
  regular wall r now -> fires r ->
  occurrence wall r (next_run wall r now) /\
  (forall o, occurrence wall r o -> now < o <-> next_run wall r now <= o) /\
  (forall r' now', kind r' <> Interval -> now' < next_run wall r' now').
Proof.
  intros Hreg Hf. destruct (next_run_spec wall r now Hreg Hf) as (Ho & Hlt & Hmin).
  split_and!; [done| |auto using next_run_future]. intros o Hoc. split; [by apply Hmin|lia].
Qed.

(** A daily or weekly automation that last fired at [last] is due exactly when one of its occurrences
    falls after [last] and not after [now]; it stops being due as soon as it is marked fired at [now], and
    at the run [next_run] gives it is due again. *)
Theorem is_due_iff_occurrence {Tz : Type} `{!Calendar Tz} (rfc : string -> option Z) (wall : Z) (r : Recurrence)
    (s : string) (last now : Z) :
  regular wall r now -> fires r -> rfc s = Some last ->
  (is_due rfc wall r (Some s) now = true <-> owed wall r last now) /\
  (now <= last -> is_due rfc wall r (Some s) now = false) /\
  is_due rfc wall r None now = true /\
  (regular wall r last -> next_run wall r last <= now <-> is_due rfc wall r (Some s) now = true).
Proof.
  intros Hreg Hf Hs. destruct (prev_spec wall r now Hreg Hf) as (p & Hp & Ho & Hle & Hmax).
  assert (Hdue : forall l, is_due rfc wall r l now =
    match l with None => true | Some s => match rfc s with Some q => q <? p | None => true end end).
  { intros l. unfold is_due. rewrite bool_decide_eq_false_2 by (by apply fires_kind). by rewrite Hp. }
  assert (Hiff : is_due rfc wall r (Some s) now = true <-> owed wall r last now).
  { rewrite Hdue, Hs, Z.ltb_lt. split.
    - intros H. by exists p.
    - intros (o & Hoc & H1 & H2). specialize (Hmax o Hoc H2). lia. }
  split_and!; [done| | |].
  - intros H. rewrite Hdue, Hs. apply Z.ltb_ge. lia.
  - by rewrite Hdue.
  - intros Hrl. rewrite Hiff. destruct (next_run_spec wall r last Hrl Hf) as (Hno & Hnl & Hnm). split.
    + intros H. by exists (next_run wall r last).
    + intros (o & Hoc & H1 & H2). specialize (Hnm o Hoc H1). lia.
Qed.

(** ** A concrete calendar: UTC *)

Definition minute_ns : Z := 60000000000.

#[local] Instance utc_calendar : Calendar unit := {|
  tz_parse := fun _ => None;
  tz_utc := tt;
  local_date := fun _ now => now / one_day;
  with_ymd_and_hms := fun _ d hh mm => Single (d * one_day + (hh * 60 + mm) * minute_ns);
  weekday := fun d => (d + 3) mod 7 + 1;
  date_ok := fun _ => true;
|}.

(** Wednesdays and Fridays at 09:30. *)
Definition wed_fri : Recurrence := mkRecurrence Weekly 0 (Some "09:30"%string) [3; 5] "UTC".

Lemma wed_fri_regular (now : Z) : regular 0 wed_fri now.
Proof.
  split; unfold local_at_utc; simpl.
  - intros d d' hh mm _ H. unfold one_day, ns_of_ms. lia.
  - intros d hh mm Ht H. vm_compute in Ht. injection Ht as <- <-. unfold one_day, ns_of_ms, minute_ns in *. zlia.
  - intros d hh mm Ht H. vm_compute in Ht. injection Ht as <- <-. unfold one_day, ns_of_ms, minute_ns in *. zlia.
  - done.
Qed.

Lemma wed_fri_fires : fires wed_fri.
Proof.
  right. split; [done|]. intros d. exists ((9 - (d + 3) mod 7) mod 7). split; [zlia|].
  simpl. rewrite orb_true_iff. left. apply Z.eqb_eq. zlia.
Qed.

Lemma next_run_least_witness :
  next_run 0 wed_fri (20000 * one_day) = 20000 * one_day + 570 * minute_ns /\
  occurrence 0 wed_fri (next_run 0 wed_fri (20000 * one_day)).
Proof.
  split; [vm_compute; reflexivity|].
  apply (next_run_least 0 wed_fri (20000 * one_day) (wed_fri_regular _) wed_fri_fires).
Defined.

Lemma is_due_iff_occurrence_witness :
  let rfc := fun _ : string => Some (20000 * one_day) in
  is_due rfc 0 wed_fri (Some EmptyString) (20002 * one_day) = true /\ owed 0 wed_fri (20000 * one_day) (20002 * one_day).
Proof.
  intros rfc. assert (H : is_due rfc 0 wed_fri (Some EmptyString) (20002 * one_day) = true) by (vm_compute; reflexivity).
  split; [exact H|].
  apply (is_due_iff_occurrence rfc 0 wed_fri EmptyString (20000 * one_day) (20002 * one_day)
    (wed_fri_regular _) wed_fri_fires eq_refl). exact H.
Defined.
