(* ===== verification/Store.v ===== *)
(** * Effects: a store whose operations can fail

    The daemon's handlers run statements against the encrypted database, files and the OS keyring, and
    stop at the first error. The monad [M] threads a state that carries a list of faults: each
    operation takes the next one and fails, without effect, when it is set. As every caller stops at an error, a
    fault is also a crash just before the operation. [hoare] is the program logic of
    [M]; local/store/config_kv.rs is the key/value table. *)

From Stdlib Require Import Ascii String.
From S2P Require Import Prelude Ints Str.
From S2P Require Export Errors.
Open Scope Z_scope.

(** A failed statement, and a failed file operation. *)
Definition DbError : LocalError := Db EmptyString None.
Definition Io : LocalError := IoError EmptyString.

Class Faulty (S : Type) : Type := {
  faults : S -> list bool;
  set_faults : list bool -> S -> S;
}.

(** A state with the [config] table. *)
Class HasConfig (S : Type) : Type := {
  config : S -> gmap string string;
  set_config : gmap string string -> S -> S;
}.

Definition M (S A : Type) : Type := S -> result A LocalError * S.

Definition ret {S A : Type} (a : A) : M S A := fun s => (Ok a, s).
Definition throw {S A : Type} (e : LocalError) : M S A := fun s => (Err e, s).
Definition bind {S A B : Type} (c : M S A) (k : A -> M S B) : M S B :=
  fun s => match c s with
           | (Ok a, s) => k a s
           | (Err e, s) => (Err e, s)
           end.
(** A call whose error the caller handles. *)
Definition attempt {S A : Type} (c : M S A) : M S (result A LocalError) :=
  fun s => let '(r, s) := c s in (Ok r, s).

Declare Scope store_scope.
Delimit Scope store_scope with store.
Notation "'let!' x ':=' c 'in' k" := (bind c (fun x => k))
  (at level 10, x pattern, c at level 100, k at level 200) : store_scope.
Notation "c ;! k" := (bind c (fun _ => k)) (at level 100, k at level 200, right associativity) : store_scope.
Open Scope store_scope.

(** An operation that fails with [e] at a fault. *)
Definition faulted {S A : Type} `{Faulty S} (e : LocalError) (f : S -> A * S) : M S A :=
  fun s =>
    match faults s with
    | true :: fs => (Err e, set_faults fs s)
    | false :: fs => let '(a, s) := f (set_faults fs s) in (Ok a, s)
    | [] => let '(a, s) := f s in (Ok a, s)
    end.

(** A database statement. *)
Definition statement {S A : Type} `{Faulty S} (f : S -> A * S) : M S A := faulted DbError f.

Definition from_result {S A : Type} (r : result A LocalError) : M S A :=
  match r with Ok a => ret a | Err e => throw e end.

(** ** [config_kv] *)

Section config.
Context {S : Type} `{Faulty S, HasConfig S}.

Definition kv_get (k : string) : M S (option string) := statement (fun s => (config s !! k, s)).
Definition kv_get_or (k d : string) : M S string := let! v := kv_get k in ret (unwrap_or v d).
Definition kv_set (k v : string) : M S unit := statement (fun s => (tt, set_config (<[k := v]> (config s)) s)).
Definition kv_delete (k : string) : M S bool :=
  statement (fun s => (bool_decide (is_Some (config s !! k)), set_config (delete k (config s)) s)).
End config.

(** ** Program logic *)

(** From [P], a result satisfies [Q] and an error leaves [E]. *)
Definition hoare {S A : Type} (P : S -> Prop) (c : M S A) (Q : A -> S -> Prop) (E : S -> Prop) : Prop :=
  forall s, P s -> match c s with (Ok a, s') => Q a s' | (Err _, s') => E s' end.

Section hoare.
Context {S : Type}.

Lemma hoare_ret {A : Type} (a : A) (P : S -> Prop) (Q : A -> S -> Prop) (E : S -> Prop) :
  (forall s, P s -> Q a s) -> hoare P (ret a) Q E.
Proof. intros H s Hs. by apply H. Qed.

Lemma hoare_throw {A : Type} (e : LocalError) (P : S -> Prop) (Q : A -> S -> Prop) (E : S -> Prop) :
  (forall s, P s -> E s) -> hoare P (throw e) Q E.
Proof. intros H s Hs. by apply H. Qed.

Lemma hoare_bind {A B : Type} (c : M S A) (k : A -> M S B) (P E : S -> Prop) (R : A -> S -> Prop) (Q : B -> S -> Prop) :
  hoare P c R E -> (forall a, hoare (R a) (k a) Q E) -> hoare P (bind c k) Q E.
Proof.
  intros Hc Hk s Hs. unfold bind. specialize (Hc s Hs). destruct (c s) as [[a|e] s']; [|done]. by apply Hk.
Qed.

Lemma hoare_attempt {A : Type} (c : M S A) (P E : S -> Prop) (Q : A -> S -> Prop) (F : S -> Prop) :
  hoare P c Q E -> hoare P (attempt c) (fun r s => match r with Ok a => Q a s | Err _ => E s end) F.
Proof. intros Hc s Hs. unfold attempt. specialize (Hc s Hs). destruct (c s) as [r s']. by destruct r. Qed.

Lemma hoare_conseq {A : Type} (c : M S A) (P P' E E' : S -> Prop) (Q Q' : A -> S -> Prop) :
  hoare P' c Q' E' -> (forall s, P s -> P' s) -> (forall a s, Q' a s -> Q a s) -> (forall s, E' s -> E s) -> hoare P c Q E.
Proof. intros Hc HP HQ HE s Hs. specialize (Hc s (HP s Hs)). destruct (c s) as [[a|e] s']; auto. Qed.

Lemma hoare_faulted {A : Type} `{Faulty S} (e : LocalError) (f : S -> A * S) (P E : S -> Prop) (Q : A -> S -> Prop) :
  (forall s fs, P s -> P (set_faults fs s)) -> (forall s, P s -> E s) ->
  (forall s, P s -> Q (fst (f s)) (snd (f s))) -> hoare P (faulted e f) Q E.
Proof.
  intros Hfs HE Hf s Hs. unfold faulted. destruct (faults s) as [|[] fs].
  - specialize (Hf s Hs). by destruct (f s).
  - auto.
  - specialize (Hf _ (Hfs s fs Hs)). by destruct (f _).
Qed.

(** An invariant kept whether or not [c] fails, with a fact about its result. *)
Definition keeps {A : Type} (I : S -> Prop) (c : M S A) (Q : A -> Prop) : Prop :=
  hoare I c (fun a s => I s /\ Q a) I.

Lemma keeps_state {A : Type} (I : S -> Prop) (c : M S A) (Q : A -> Prop) (s : S) : keeps I c Q -> I s -> I (snd (c s)).
Proof. intros Hc Hs. specialize (Hc s Hs). destruct (c s) as [[a|e] s']; [apply Hc|done]. Qed.

Lemma keeps_result {A : Type} (I : S -> Prop) (c : M S A) (Q : A -> Prop) (s : S) (a : A) :
  keeps I c Q -> I s -> fst (c s) = Ok a -> Q a.
Proof. intros Hc Hs E. specialize (Hc s Hs). destruct (c s) as [[a'|e] s']; simplify_eq/=. apply Hc. Qed.

Lemma keeps_ret {A : Type} (I : S -> Prop) (a : A) (Q : A -> Prop) : Q a -> keeps I (ret a) Q.
Proof. intros HQ. by apply hoare_ret. Qed.

Lemma keeps_throw {A : Type} (I : S -> Prop) (e : LocalError) (Q : A -> Prop) : keeps I (throw e) Q.
Proof. by apply hoare_throw. Qed.

Lemma keeps_bind {A B : Type} (I : S -> Prop) (c : M S A) (k : A -> M S B) (P : A -> Prop) (Q : B -> Prop) :
  keeps I c P -> (forall a, P a -> keeps I (k a) Q) -> keeps I (bind c k) Q.
Proof. intros Hc Hk. eapply hoare_bind; [exact Hc|]. intros a s [Hs Ha]. by apply (Hk a Ha). Qed.

Lemma keeps_attempt {A : Type} (I : S -> Prop) (c : M S A) (P : A -> Prop) :
  keeps I c P -> keeps I (attempt c) (fun r => forall a, r = Ok a -> P a).
Proof.
  intros Hc. eapply hoare_conseq; [apply (hoare_attempt c I I _ I Hc)|done| |done].
  intros [a|e] s H; simpl in H; [|done]. destruct H as [H1 H2]. split; [done|]. by intros ? [= <-].
Qed.

Lemma keeps_weaken {A : Type} (I : S -> Prop) (c : M S A) (P Q : A -> Prop) :
  (forall a, P a -> Q a) -> keeps I c P -> keeps I c Q.
Proof. intros HPQ Hc. eapply hoare_conseq; [exact Hc|done| |done]. intros a s [H1 H2]. auto. Qed.

Lemma keeps_faulted {A : Type} `{Faulty S} (I : S -> Prop) (e : LocalError) (f : S -> A * S) (Q : A -> Prop) :
  (forall s fs, I s -> I (set_faults fs s)) ->
  (forall s, I s -> I (snd (f s)) /\ Q (fst (f s))) -> keeps I (faulted e f) Q.
Proof. intros Hfs Hf. by apply hoare_faulted. Qed.

Lemma bind_Ok {A B : Type} (c : M S A) (k : A -> M S B) (s s' : S) (a : A) :
  c s = (Ok a, s') -> bind c k s = k a s'.
Proof. intros E. unfold bind. by rewrite E. Qed.

Lemma bind_Err {A B : Type} (c : M S A) (k : A -> M S B) (s s' : S) (e : LocalError) :
  c s = (Err e, s') -> bind c k s = (Err e, s').
Proof. intros E. unfold bind. by rewrite E. Qed.

Lemma faulted_clean {A : Type} `{Faulty S} (e : LocalError) (f : S -> A * S) (s : S) :
  faults s = [] -> faulted e f s = (Ok (fst (f s)), snd (f s)).
Proof. intros E. unfold faulted. rewrite E. by destruct (f s). Qed.
End hoare.

Section config_clean.
Context {S : Type} `{Faulty S, HasConfig S}.

Lemma kv_get_clean (k : string) (s : S) : faults s = [] -> kv_get k s = (Ok (config s !! k), s).
Proof. intros E. unfold kv_get, statement. by rewrite faulted_clean. Qed.

Lemma kv_set_clean (k v : string) (s : S) : faults s = [] -> kv_set k v s = (Ok tt, set_config (<[k := v]> (config s)) s).
Proof. intros E. unfold kv_set, statement. by rewrite faulted_clean. Qed.
End config_clean.
