(* ===== verification/UpdateManifest.v ===== *)
(** * local/update/manifest.rs and local/update/policy.rs

    The auto-update manifest, the canonical form its signature covers, the signature check, and the
    chain of gates that decides whether an update applies. The libraries the code calls (semver,
    chrono, serde_json, base64, ed25519, sha2) are the interface [UpdateLibs]. Instants are
    nanoseconds since the epoch; bytes are strings. *)

From Stdlib Require Import Ascii String Sorted.
From stdpp Require Import sorting.
From S2P Require Import Prelude Ints Str Json.
Open Scope Z_scope.

(** ** The libraries *)

Class UpdateLibs : Type := {
  (** [semver::Version] *)
  sv : Type;
  semver_parse : string -> result sv string;
  sv_cmp : sv -> sv -> comparison;
  (** [DateTime::parse_from_rfc3339] *)
  parse_from_rfc3339 : string -> option Z;
  (** [serde_json]: a slice to a value, the printers of numbers and string literals *)
  json_from_slice : string -> result json string;
  number_to_string : number -> string;
  string_to_json : string -> string;
  (** [base64] *)
  url_safe_no_pad_decode : string -> option string;
  url_safe_decode : string -> option string;
  (** [ed25519_dalek] *)
  VerifyingKey : Type;
  verifying_key_from_bytes : list Z -> option VerifyingKey;
  ed25519_verify : VerifyingKey -> string -> string -> bool;
  (** [sha2] *)
  sha256 : string -> list Z;
}.

(** Documented behaviour: the order of versions is asymmetric and transitive. *)
Class UpdateLaws `{UpdateLibs} : Prop := {
  sv_cmp_anti : forall a b, sv_cmp a b = Lt <-> sv_cmp b a = Gt;
  sv_cmp_trans : forall a b c, sv_cmp a b = Lt -> sv_cmp b c = Lt -> sv_cmp a c = Lt;
}.

(** ** The manifest *)

Definition SCHEMA_VERSION : Z := 1.

Record PinnedKey : Type := mkPinnedKey { pinned_kid : string; pubkey_hex : string }.

Definition PINNED_KEYS : list PinnedKey := [
  mkPinnedKey "wtu-2026-1" "4cc68c37093d0c5fe64e3f8558c7cb7758caf43a7cdb76ff7067c237b58cd75d";
  mkPinnedKey "wtu-2026-2" "1d6e66be1c1545c8de0daa4d54f5f19209a42fcfb599efc85e7a31e062e9737f"].

(** A shipped build, where the test keys are compiled out. *)
Definition pinned_pubkey (kid : string) : option string :=
  pubkey_hex <$> head (retain (fun k => str_eqb (pinned_kid k) kid) PINNED_KEYS).

Record Rollout : Type := mkRollout { percentage : Z; cohort_seed : string }.

Record Artifact : Type := mkArtifact {
  url : string;
  size_bytes : Z;
  artifact_sha256 : string;
  format : string;
  installer : option string;
}.

Record Signed : Type := mkSigned {
  manifest_id : string;
  channel : string;
  version : string;
  min_supported_version : string;
  released_at : string;
  manifest_expires_at : string;
  notes_url : option string;
  changelog : option string;
  security_advisory : bool;
  rollout : option Rollout;
  chromium_revision : option string;
  artifacts : gmap string Artifact;
}.

Record Manifest : Type := mkManifest {
  schema_version : Z;
  kid : string;
  signature : string;
  signed : Signed;
}.

Inductive ManifestError : Type :=
| Malformed (e : string)
| UnsupportedSchema (found supported : Z)
| UnknownKid (k : string)
| BadPinnedKey (k : string)
| MalformedSignature
| BadSignature.

(** ** Hexadecimal *)

(** [char::to_digit(16)] *)
Definition to_digit16 (c : ascii) : option Z :=
  let b := byte_val c in
  if is_digit c then Some (b - 48)
  else if (97 <=? b) && (b <=? 102) then Some (b - 87)
  else if (65 <=? b) && (b <=? 70) then Some (b - 55)
  else None.

Fixpoint hex_pairs (l : list ascii) : option (list Z) :=
  match l with
  | h :: l :: rest =>
      match to_digit16 h, to_digit16 l with
      | Some hi, Some lo => cons (Z.lor (Z.shiftl hi 4) lo) <$> hex_pairs rest
      | _, _ => None
      end
  | _ => Some []
  end.

Definition decode_hex_32 (hex : string) : option (list Z) :=
  let hex := trim hex in
  if str_len hex =? 64 then hex_pairs (bytes hex) else None.

Definition hex_digit (n : Z) : ascii := chr (if n <? 10 then n + 48 else n + 87).

(** [{b:02x}] of every byte *)
Definition hex_lower (l : list Z) : string :=
  of_bytes (b ← l; [hex_digit (Z.shiftr b 4); hex_digit (Z.land b 15)]).

(** ** Canonical JSON *)

Definition cont (c : ascii) : Z := byte_val c - 128.

(** [str::encode_utf16] of UTF-8 bytes. *)
Fixpoint encode_utf16 (s : string) : list Z :=
  match s with
  | EmptyString => []
  | String c r =>
      let b := byte_val c in
      if b <? 128 then b :: encode_utf16 r
      else match r with
           | EmptyString => []
           | String c1 r1 =>
               if b <? 224 then ((b - 192) * 64 + cont c1) :: encode_utf16 r1
               else match r1 with
                    | EmptyString => []
                    | String c2 r2 =>
                        if b <? 240 then ((b - 224) * 4096 + cont c1 * 64 + cont c2) :: encode_utf16 r2
                        else match r2 with
                             | EmptyString => []
                             | String c3 r3 =>
                                 let p := (b - 240) * 262144 + cont c1 * 4096 + cont c2 * 64 + cont c3 - 65536 in
                                 (55296 + Z.shiftr p 10) :: (56320 + Z.land p 1023) :: encode_utf16 r3
                             end
                    end
           end
  end.

(** [Iterator::cmp] *)
Fixpoint units_cmp (a b : list Z) : comparison :=
  match a, b with
  | [], [] => Eq
  | [], _ => Lt
  | _, [] => Gt
  | x :: a', y :: b' => match x ?= y with Eq => units_cmp a' b' | c => c end
  end.

Definition jcs_key_cmp (a b : string) : comparison := units_cmp (encode_utf16 a) (encode_utf16 b).

Definition not_gt (c : comparison) : bool := match c with Gt => false | _ => true end.

Definition key_le (a b : string * string) : bool := not_gt (jcs_key_cmp a.1 b.1).

Lemma units_cmp_opp (a b : list Z) : units_cmp b a = CompOpp (units_cmp a b).
Proof.
  revert b. induction a as [|x a IH]; intros [|y b]; simpl; try done.
  rewrite (Z.compare_antisym x y). destruct (x ?= y); simpl; auto.
Qed.

Lemma units_cmp_eq (a b : list Z) : units_cmp a b = Eq <-> a = b.
Proof.
  revert b. induction a as [|x a IH]; intros [|y b]; simpl; try done.
  destruct (Z.compare_spec x y) as [->|H|H]; rewrite ?IH; naive_solver lia.
Qed.

Lemma units_cmp_trans (a b c : list Z) :
  units_cmp a b <> Gt -> units_cmp b c <> Gt -> units_cmp a c <> Gt.
Proof.
  revert b c. induction a as [|x a IH]; intros [|y b] [|z c]; simpl; try done.
  destruct (Z.compare_spec x y), (Z.compare_spec y z), (Z.compare_spec x z); try done; try lia; eauto.
Qed.

Lemma key_le_spec (a b : string * string) : key_le a b = true <-> jcs_key_cmp a.1 b.1 <> Gt.
Proof. unfold key_le. by destruct (jcs_key_cmp a.1 b.1). Qed.

Lemma key_le_total (a b : string * string) : key_le a b = true \/ key_le b a = true.
Proof.
  rewrite !key_le_spec. unfold jcs_key_cmp. rewrite (units_cmp_opp (encode_utf16 a.1) (encode_utf16 b.1)).
  destruct (units_cmp (encode_utf16 a.1) (encode_utf16 b.1)); simpl; naive_solver.
Qed.

Lemma key_le_trans (a b c : string * string) : key_le a b = true -> key_le b c = true -> key_le a c = true.
Proof. rewrite !key_le_spec. apply units_cmp_trans. Qed.

Lemma key_le_antisym (a b : string * string) :
  key_le a b = true -> key_le b a = true -> encode_utf16 a.1 = encode_utf16 b.1.
Proof.
  rewrite !key_le_spec. unfold jcs_key_cmp. rewrite (units_cmp_opp (encode_utf16 a.1) (encode_utf16 b.1)).
  rewrite <- units_cmp_eq. by destruct (units_cmp (encode_utf16 a.1) (encode_utf16 b.1)).
Qed.

(** Sorting the fields does not depend on the order they come in when their keys differ. *)
Lemma sort_fields_perm (l l' : list (string * string)) :
  l ≡ₚ l' -> NoDup (encode_utf16 <$> l.*1) -> sort_by key_le l = sort_by key_le l'.
Proof.
  intros Hp Hnd. apply (StronglySorted_unique_strong (fun a b => key_le a b = true)).
  - intros a b Ha Hb H1 H2. pose proof (key_le_antisym a b H1 H2) as He.
    rewrite sort_by_elem in Ha, Hb. rewrite <- Hp in Hb.
    apply list_elem_of_lookup in Ha as [i Hi], Hb as [j Hj].
    rewrite <- list_fmap_compose in Hnd. assert (i = j) as ->; [|congruence].
    eapply (NoDup_lookup _ i j); [apply Hnd| |]; rewrite list_lookup_fmap; [by rewrite Hi|].
    rewrite Hj. simpl. by rewrite He.
  - apply sort_by_sorted; [apply key_le_total|apply key_le_trans].
  - apply sort_by_sorted; [apply key_le_total|apply key_le_trans].
  - by rewrite !sort_by_perm.
Qed.

(** ** The policy's data *)

Inductive Channel : Type := Stable | Beta | Managed.

Definition channel_as_str (c : Channel) : string :=
  match c with Stable => "stable" | Beta => "beta" | Managed => "managed" end.

Definition channel_parse (s : string) : option Channel :=
  let s := to_ascii_lowercase (trim s) in
  if str_eqb s "stable" then Some Stable
  else if str_eqb s "beta" then Some Beta
  else if str_eqb s "managed" then Some Managed
  else None.

Record PolicyInput : Type := mkInput {
  input_channel : Channel;
  installed_version : string;
  installed_build_released_at : option string;
  install_id : string;
  platform_key : string;
  now : Z;
}.

Record UpdateDecision : Type := mkDecision {
  decision_version : string;
  decision_released_at : string;
  artifact : Artifact;
}.

(** [BadVersion] carries the three parts its message is formatted from. *)
Inductive UpdateReject : Type :=
| Signature (e : ManifestError)
| WrongChannel (manifest client : string)
| Expired (at_ : string)
| ReplayOlderThanInstalled (at_ : string)
| BadTimestamp (at_ : string)
| NotNewer (version installed : string)
| BelowMinSupported (installed min_supported : string)
| BadVersion (field value e : string)
| NotInRollout (bucket percentage : Z)
| NoArtifactForPlatform (platform : string).

Definition is_skip (e : UpdateReject) : bool :=
  match e with
  | WrongChannel _ _ | NotNewer _ _ | BelowMinSupported _ _ | NotInRollout _ _ | NoArtifactForPlatform _ => true
  | _ => false
  end.

Definition code (e : UpdateReject) : string :=
  match e with
  | Signature e => match e with
                   | UnsupportedSchema _ _ => "unsupported_schema"
                   | UnknownKid _ => "unknown_kid"
                   | BadPinnedKey _ => "bad_pinned_key"
                   | MalformedSignature => "malformed_signature"
                   | BadSignature => "bad_signature"
                   | Malformed _ => "malformed_manifest"
                   end
  | WrongChannel _ _ => "wrong_channel"
  | Expired _ => "expired"
  | ReplayOlderThanInstalled _ => "replay_older_than_installed"
  | BadTimestamp _ => "bad_timestamp"
  | NotNewer _ _ => "not_newer"
  | BelowMinSupported _ _ => "below_min_supported"
  | BadVersion _ _ _ => "bad_version"
  | NotInRollout _ _ => "not_in_rollout"
  | NoArtifactForPlatform _ => "no_artifact_for_platform"
  end.

Definition current_platform_key (target_os target_arch : string) : string :=
  if str_eqb target_os "macos" && str_eqb target_arch "aarch64" then "macos-aarch64"
  else if str_eqb target_os "macos" && str_eqb target_arch "x86_64" then "macos-x86_64"
  else if str_eqb target_os "windows" && str_eqb target_arch "x86_64" then "windows-x86_64"
  else if str_eqb target_os "linux" && str_eqb target_arch "x86_64" then "linux-x86_64"
  else EmptyString.

(** ** Verification and the gates *)

Definition quote (s : string) : string := String "034" (String.append s (String "034" EmptyString)).
Definition no_signed_object : string :=
  String.append "manifest has no top-level " (String.append (quote "signed") " object").

Section update.
Context `{UpdateLibs}.
Local Open Scope writ_scope.

(** The fields are sorted by key, then printed with the value each key has. *)
Fixpoint canonicalize_value (v : json) : string :=
  match v with
  | JNull => "null"
  | JBool b => if b then "true" else "false"
  | JNum n => number_to_string n
  | JStr s => string_to_json s
  | JArr items => String.append "[" (String.append (join "," (map canonicalize_value items)) "]")
  | JObj m =>
      let fields := sort_by key_le (map (fun '(k, v) => (k, canonicalize_value v)) m) in
      String.append "{" (String.append
        (join "," (map (fun '(k, c) => String.append (string_to_json k) (String.append ":" c)) fields)) "}")
  end.

Definition verifying_key_from_hex (hex : string) : option VerifyingKey :=
  decode_hex_32 hex ≫= verifying_key_from_bytes.

Definition pinned_keys_production_ready : result unit string :=
  match PINNED_KEYS with
  | [] => Err "daemon update PINNED_KEYS is EMPTY — provision real Ed25519 update keys before release"%string
  | _ => match head (retain (fun k => bool_decide (verifying_key_from_hex (pubkey_hex k) = None)) PINNED_KEYS) with
         | Some k => Err (String.append "pinned update key " (String.append (quote (pinned_kid k))
                            " is not a valid Ed25519 public key"))
         | None => Ok tt
         end
  end.

Definition decode_signature (sig : string) : option string :=
  match url_safe_no_pad_decode (trim sig), url_safe_decode (trim sig) with
  | Some raw, _ | None, Some raw => if str_len raw =? 64 then Some raw else None
  | None, None => None
  end.

Definition verify_signature (m : Manifest) (b : string) : result unit ManifestError :=
  if negb (schema_version m =? SCHEMA_VERSION) then Err (UnsupportedSchema (schema_version m) SCHEMA_VERSION)
  else
    let? hex := ok_or (pinned_pubkey (kid m)) (UnknownKid (kid m)) in
    let? key := ok_or (verifying_key_from_hex hex) (BadPinnedKey (kid m)) in
    let? raw := map_err Malformed (json_from_slice b) in
    let? signed := ok_or (get raw "signed") (Malformed no_signed_object) in
    let? sig := ok_or (decode_signature (signature m)) MalformedSignature in
    if ed25519_verify key (canonicalize_value signed) sig then Ok tt else Err BadSignature.

Definition parse_rfc3339 (s : string) : option Z := parse_from_rfc3339 (trim s).

(** A digest has 32 bytes; the last branch is not reached. *)
Definition rollout_bucket (id seed : string) : Z :=
  match sha256 (String.append id (String.append ":" seed)) with
  | d0 :: d1 :: d2 :: d3 :: _ => (((d0 * 256 + d1) * 256 + d2) * 256 + d3) mod 100
  | _ => 0
  end.

Definition semver (field value : string) : result sv UpdateReject :=
  map_err (BadVersion field value) (semver_parse (trim value)).

Definition evaluate (m : Manifest) (b : string) (input : PolicyInput) : result UpdateDecision UpdateReject :=
  let s := signed m in
  let? _ := map_err Signature (verify_signature m b) in
  if negb (str_eqb (channel s) (channel_as_str (input_channel input)))
  then Err (WrongChannel (channel s) (channel_as_str (input_channel input)))
  else
    let? expires_at := ok_or (parse_rfc3339 (manifest_expires_at s)) (BadTimestamp (manifest_expires_at s)) in
    if expires_at <? now input then Err (Expired (manifest_expires_at s))
    else
      let? released := ok_or (parse_rfc3339 (released_at s)) (BadTimestamp (released_at s)) in
      let replayed := match installed_build_released_at input ≫= parse_rfc3339 with
                      | Some installed_at => released <? installed_at
                      | None => false
                      end in
      if replayed then Err (ReplayOlderThanInstalled (released_at s))
      else
        let? cand := semver "version" (version s) in
        let? installed := semver "installed" (installed_version input) in
        let? min_supported := semver "min_supported_version" (min_supported_version s) in
        if not_gt (sv_cmp cand installed) then Err (NotNewer (version s) (installed_version input))
        else
          match sv_cmp installed min_supported with
          | Lt => Err (BelowMinSupported (installed_version input) (min_supported_version s))
          | _ =>
              let held := if security_advisory s then None
                          else match rollout s with
                               | None => None
                               | Some r =>
                                   let pct := Z.min (percentage r) 100 in
                                   let bucket := rollout_bucket (install_id input) (cohort_seed r) in
                                   if pct <=? bucket then Some (NotInRollout bucket pct) else None
                               end in
              match held with
              | Some e => Err e
              | None =>
                  let? artifact := ok_or (artifacts s !! platform_key input) (NoArtifactForPlatform (platform_key input)) in
                  Ok (mkDecision (version s) (released_at s) artifact)
              end
          end.

Definition expected_sha256 (d : UpdateDecision) : string := artifact_sha256 (artifact d).

Definition verify_artifact_bytes (d : UpdateDecision) (b : string) : bool :=
  eq_ignore_ascii_case (hex_lower (sha256 b)) (trim (artifact_sha256 (artifact d))).

(** ** Specification *)

(** What a manifest must satisfy to be applied, as one conjunction. *)
Record applies (m : Manifest) (b : string) (i : PolicyInput) (d : UpdateDecision) : Prop := {
  app_signed : verify_signature m b = Ok tt;
  app_channel : channel (signed m) = channel_as_str (input_channel i);
  app_fresh : exists ex, parse_rfc3339 (manifest_expires_at (signed m)) = Some ex /\ now i <= ex;
  app_not_replayed : exists rel, parse_rfc3339 (released_at (signed m)) = Some rel /\
    forall at_, installed_build_released_at i ≫= parse_rfc3339 = Some at_ -> at_ <= rel;
  app_newer : exists c v f,
    semver_parse (trim (version (signed m))) = Ok c /\
    semver_parse (trim (installed_version i)) = Ok v /\
    semver_parse (trim (min_supported_version (signed m))) = Ok f /\
    sv_cmp c v = Gt /\ sv_cmp v f <> Lt;
  app_cohort : security_advisory (signed m) = true \/
    forall r, rollout (signed m) = Some r ->
      rollout_bucket (install_id i) (cohort_seed r) < Z.min (percentage r) 100;
  app_decision : exists a, artifacts (signed m) !! platform_key i = Some a /\
    d = mkDecision (version (signed m)) (released_at (signed m)) a;
}.

(** The part of it every skip but the wrong channel has passed too. *)
Definition timely (m : Manifest) (i : PolicyInput) : Prop :=
  channel (signed m) = channel_as_str (input_channel i) /\
  (exists ex, parse_rfc3339 (manifest_expires_at (signed m)) = Some ex /\ now i <= ex) /\
  (exists rel, parse_rfc3339 (released_at (signed m)) = Some rel /\
     forall at_, installed_build_released_at i ≫= parse_rfc3339 = Some at_ -> at_ <= rel).

(** Reorderings of the fields of objects, at any depth; the keys of an object differ. *)
Inductive reorder : json -> json -> Prop :=
| reorder_here m m' : m ≡ₚ m' -> NoDup (encode_utf16 <$> m.*1) -> reorder (JObj m) (JObj m')
| reorder_item l1 v v' l2 : reorder v v' -> reorder (JArr (l1 ++ v :: l2)) (JArr (l1 ++ v' :: l2))
| reorder_field m1 k v v' m2 : reorder v v' -> reorder (JObj (m1 ++ (k, v) :: m2)) (JObj (m1 ++ (k, v') :: m2))
| reorder_trans u v w : reorder u v -> reorder v w -> reorder u w.

(** ** Lemmas *)

Lemma result_bind_Ok {A B E : Type} (r : result A E) (k : A -> result B E) (x : B) :
  result_bind r k = Ok x <-> exists a, r = Ok a /\ k a = Ok x.
Proof. destruct r; simpl; naive_solver. Qed.

Lemma not_gt_false (c : comparison) : not_gt c = false <-> c = Gt.
Proof. by destruct c. Qed.

Lemma timely_iff (m : Manifest) (i : PolicyInput) :
  timely m i <-> channel (signed m) = channel_as_str (input_channel i) /\
    exists ex rel, parse_rfc3339 (manifest_expires_at (signed m)) = Some ex /\ now i <= ex /\
      parse_rfc3339 (released_at (signed m)) = Some rel /\
      match installed_build_released_at i ≫= parse_rfc3339 with Some at_ => rel <? at_ | None => false end = false.
Proof.
  unfold timely. destruct (installed_build_released_at i ≫= parse_rfc3339) as [at_|].
  - split.
    + intros (Hc & (ex & He & Hn) & rel & Hr & Hp). split; [done|]. exists ex, rel. split_and!; try done.
      apply Z.ltb_ge. by apply Hp.
    + intros (Hc & ex & rel & He & Hn & Hr & Hp). split; [done|]. apply Z.ltb_ge in Hp.
      split; [by exists ex|]. exists rel. split; [done|]. by intros a [= <-].
  - naive_solver.
Qed.

(** The gates after the signature, the channel and the dates. *)
Definition gates (m : Manifest) (i : PolicyInput) : result UpdateDecision UpdateReject :=
  let s := signed m in
  let? cand := semver "version" (version s) in
  let? installed := semver "installed" (installed_version i) in
  let? min_supported := semver "min_supported_version" (min_supported_version s) in
  if not_gt (sv_cmp cand installed) then Err (NotNewer (version s) (installed_version i))
  else
    match sv_cmp installed min_supported with
    | Lt => Err (BelowMinSupported (installed_version i) (min_supported_version s))
    | _ =>
        let held := if security_advisory s then None
                    else match rollout s with
                         | None => None
                         | Some r =>
                             let pct := Z.min (percentage r) 100 in
                             let bucket := rollout_bucket (install_id i) (cohort_seed r) in
                             if pct <=? bucket then Some (NotInRollout bucket pct) else None
                         end in
        match held with
        | Some e => Err e
        | None =>
            let? artifact := ok_or (artifacts s !! platform_key i) (NoArtifactForPlatform (platform_key i)) in
            Ok (mkDecision (version s) (released_at s) artifact)
        end
    end.

(** Either the dates pass and the gates decide, or the manifest is refused before them. *)
Lemma evaluate_split (m : Manifest) (b : string) (i : PolicyInput) :
  (verify_signature m b = Ok tt /\ timely m i /\ evaluate m b i = gates m i) \/
  (verify_signature m b = Ok tt /\ ~ timely m i /\ exists e, evaluate m b i = Err e /\
     (is_skip e = true <-> channel (signed m) <> channel_as_str (input_channel i)) /\ forall e', e <> Signature e') \/
  (exists e, verify_signature m b = Err e /\ evaluate m b i = Err (Signature e)).
Proof.
  pose proof (timely_iff m i) as Ht.
  assert (Hev : evaluate m b i = evaluate m b i) by done. unfold evaluate at 2 in Hev.
  destruct (verify_signature m b) as [[]|e]; cbn [map_err result_bind] in Hev; [|eauto].
  destruct (str_eqb (channel (signed m)) (channel_as_str (input_channel i))) eqn:Ec; cbn [negb] in Hev.
  2:{ right; left. assert (channel (signed m) <> channel_as_str (input_channel i))
        by (intros E; apply str_eqb_eq in E; congruence).
      split; [done|]. split; [intros [? _]; congruence|]. eexists; split; [done|]. by simpl. }
  apply str_eqb_eq in Ec.
  assert (Hno : forall e, is_skip e = false -> (forall e', e <> Signature e') -> (exists e', Err (A := UpdateDecision) e = Err e' /\
            (is_skip e' = true <-> channel (signed m) <> channel_as_str (input_channel i)) /\ forall x, e' <> Signature x)).
  { intros e He Hs. exists e. split; [done|]. rewrite He. split; [|done]. split; [done|congruence]. }
  destruct (parse_rfc3339 (manifest_expires_at (signed m))) as [ex|] eqn:Ee; cbn [ok_or result_bind] in Hev.
  2:{ right; left. rewrite Hev. split; [done|]. split; [|by apply Hno].
      rewrite Ht. intros (_ & x & y & E & _). congruence. }
  destruct (Z.ltb_spec ex (now i)).
  { right; left. rewrite Hev. split; [done|]. split; [|by apply Hno].
    rewrite Ht. intros (_ & x & y & E & Hn & _). simplify_eq. lia. }
  destruct (parse_rfc3339 (released_at (signed m))) as [rel|] eqn:Er; cbn [ok_or result_bind] in Hev.
  2:{ right; left. rewrite Hev. split; [done|]. split; [|by apply Hno].
      rewrite Ht. intros (_ & x & y & _ & _ & E & _). congruence. }
  destruct (match installed_build_released_at i ≫= parse_rfc3339 with Some at_ => rel <? at_ | None => false end) eqn:Ep;
    cbv zeta in Hev; rewrite Hev.
  { right; left. split; [done|]. split; [|by apply Hno].
    rewrite Ht. intros (_ & x & y & _ & _ & E & Hf). simplify_eq. congruence. }
  left. split; [done|]. split; [|done]. apply Ht. split; [done|]. by exists ex, rel.
Qed.

Lemma semver_Ok (f v : string) (x : sv) : semver f v = Ok x <-> semver_parse (trim v) = Ok x.
Proof. unfold semver. destruct (semver_parse (trim v)); simpl; naive_solver. Qed.

Lemma gates_not_signature (m : Manifest) (i : PolicyInput) (e : ManifestError) : gates m i <> Err (Signature e).
Proof.
  unfold gates, semver. destruct (semver_parse (trim (version (signed m)))); [|done].
  destruct (semver_parse (trim (installed_version i))); [|done].
  destruct (semver_parse (trim (min_supported_version (signed m)))); [|done]. cbn [map_err result_bind].
  destruct (not_gt _); [done|]. cbv zeta. destruct (artifacts (signed m) !! platform_key i); simpl; repeat case_match; simplify_eq; done.
Qed.

Lemma gates_Ok (m : Manifest) (i : PolicyInput) (d : UpdateDecision) :
  gates m i = Ok d <->
  (exists c v f, semver_parse (trim (version (signed m))) = Ok c /\
     semver_parse (trim (installed_version i)) = Ok v /\
     semver_parse (trim (min_supported_version (signed m))) = Ok f /\
     sv_cmp c v = Gt /\ sv_cmp v f <> Lt) /\
  (security_advisory (signed m) = true \/
   forall r, rollout (signed m) = Some r -> rollout_bucket (install_id i) (cohort_seed r) < Z.min (percentage r) 100) /\
  exists a, artifacts (signed m) !! platform_key i = Some a /\ d = mkDecision (version (signed m)) (released_at (signed m)) a.
Proof.
  unfold gates. cbv zeta. rewrite result_bind_Ok. setoid_rewrite result_bind_Ok. setoid_rewrite result_bind_Ok.
  setoid_rewrite semver_Ok.
  assert (Hheld : forall c v f, (if not_gt (sv_cmp c v) then Err (NotNewer (version (signed m)) (installed_version i))
      else match sv_cmp v f with
           | Lt => Err (BelowMinSupported (installed_version i) (min_supported_version (signed m)))
           | _ => match (if security_advisory (signed m) then None
                         else match rollout (signed m) with
                              | None => None
                              | Some r => if Z.min (percentage r) 100 <=? rollout_bucket (install_id i) (cohort_seed r)
                                          then Some (NotInRollout (rollout_bucket (install_id i) (cohort_seed r)) (Z.min (percentage r) 100))
                                          else None
                              end) with
                  | Some e => Err e
                  | None => let? artifact := ok_or (artifacts (signed m) !! platform_key i) (NoArtifactForPlatform (platform_key i)) in
                            Ok (mkDecision (version (signed m)) (released_at (signed m)) artifact)
                  end
           end) = Ok d <->
     sv_cmp c v = Gt /\ sv_cmp v f <> Lt /\
     (security_advisory (signed m) = true \/
      forall r, rollout (signed m) = Some r -> rollout_bucket (install_id i) (cohort_seed r) < Z.min (percentage r) 100) /\
     exists a, artifacts (signed m) !! platform_key i = Some a /\ d = mkDecision (version (signed m)) (released_at (signed m)) a).
  { intros c v f. rewrite <- (not_gt_false (sv_cmp c v)). destruct (not_gt (sv_cmp c v)); [naive_solver|].
    assert (Hart : (let? artifact := ok_or (artifacts (signed m) !! platform_key i) (NoArtifactForPlatform (platform_key i)) in
              Ok (mkDecision (version (signed m)) (released_at (signed m)) artifact)) = Ok d <->
            exists a, artifacts (signed m) !! platform_key i = Some a /\ d = mkDecision (version (signed m)) (released_at (signed m)) a).
    { destruct (artifacts (signed m) !! platform_key i); simpl; naive_solver. }
    destruct (security_advisory (signed m)), (rollout (signed m)) as [r|];
      try (destruct (Z.leb_spec (Z.min (percentage r) 100) (rollout_bucket (install_id i) (cohort_seed r))));
      destruct (sv_cmp v f); rewrite ?Hart; naive_solver lia. }
  setoid_rewrite Hheld. naive_solver.
Qed.

Lemma evaluate_Ok (m : Manifest) (b : string) (i : PolicyInput) (d : UpdateDecision) :
  evaluate m b i = Ok d <-> applies m b i d.
Proof.
  destruct (evaluate_split m b i) as [(Hv & Ht & He)|[(Hv & Ht & e0 & He & _)|(e0 & Hv & He)]]; rewrite He.
  - rewrite gates_Ok. destruct Ht as (Hc & Hf & Hr). split.
    + intros (H1 & H2 & H3). by split.
    + by intros [].
  - split; [done|]. intros [? ? ? ?]. exfalso. by apply Ht.
  - split; [done|]. intros [? ? ? ?]. congruence.
Qed.

(** The manifest with its rollout, if it has one, at percentage [p]. *)
Definition at_percentage (m : Manifest) (p : Z) : Manifest :=
  let s := signed m in
  mkManifest (schema_version m) (kid m) (signature m)
    (mkSigned (manifest_id s) (channel s) (version s) (min_supported_version s) (released_at s)
       (manifest_expires_at s) (notes_url s) (changelog s) (security_advisory s)
       ((fun r => mkRollout p (cohort_seed r)) <$> rollout s) (chromium_revision s) (artifacts s)).

Lemma canonicalize_reorder (v v' : json) : reorder v v' -> canonicalize_value v = canonicalize_value v'.
Proof.
  induction 1 as [m m' Hp Hnd|l1 v v' l2 _ IH|m1 k v v' m2 _ IH|u v w _ IH1 _ IH2]; simpl.
  - rewrite (sort_fields_perm _ (map (fun '(k, v) => (k, canonicalize_value v)) m')); [done|by apply Permutation_map|].
    assert (E : (map (fun '(k, v) => (k, canonicalize_value v)) m).*1 = m.*1) by
      (clear; induction m as [|[] m IH]; [done|]; cbn; by f_equal).
    by rewrite E.
  - by rewrite !map_app, !map_cons, IH.
  - by rewrite !map_app, !map_cons, IH.
  - congruence.
Qed.

Lemma rollout_bucket_lt (id seed : string) : 0 <= rollout_bucket id seed < 100.
Proof. unfold rollout_bucket. repeat case_match; try lia; apply Z.mod_pos_bound; lia. Qed.
End update.

(** ** Properties *)

(** C6: The update policy approves exactly the manifests that carry a valid signature by a pinned key, are for the client's channel,
    unexpired, not older than the installed build, strictly newer than the installed version, directly
    applicable, in the client's rollout cohort and for its platform; the decision carries the signed version and
    artifact. And every skip, a normal outcome, comes from a manifest whose signature verified, and which, the
    wrong channel apart, passed the date checks as well. *)
Theorem evaluate_exact `{UpdateLibs} (m : Manifest) (b : string) (i : PolicyInput) :
  (forall d, evaluate m b i = Ok d <-> applies m b i d) /\
  (forall e, evaluate m b i = Err e -> is_skip e = true ->
     verify_signature m b = Ok tt /\ (timely m i \/ channel (signed m) <> channel_as_str (input_channel i))) /\
  (forall e, evaluate m b i = Err (Signature e) <-> verify_signature m b = Err e).
Proof.
  destruct (evaluate_split m b i) as [(Hv & Ht & He)|[(Hv & Ht & e0 & He & Hs & Hn)|(e0 & Hv & He)]];
    (split; [apply evaluate_Ok|]); rewrite He; split.
  - auto.
  - intros e. split; [by intros ?%gates_not_signature|congruence].
  - intros e [= ->] H1. split; [done|]. right. by apply Hs.
  - intros e. split; [|congruence]. intros [= ->]. by destruct (Hn e).
  - intros e [= <-]. done.
  - intros e. rewrite Hv. naive_solver.
Qed.

(** The signature covers the signed object whatever the order its fields come in, at any depth: two wire forms
    that differ in field order alone verify alike, so do their evaluations. *)
Theorem signature_ignores_field_order `{UpdateLibs} (m : Manifest) (b b' : string) (raw raw' v v' : json) (i : PolicyInput) :
  json_from_slice b = Ok raw -> json_from_slice b' = Ok raw' ->
  get raw "signed" = Some v -> get raw' "signed" = Some v' -> reorder v v' ->
  verify_signature m b = verify_signature m b' /\ evaluate m b i = evaluate m b' i.
Proof.
  intros H1 H2 H3 H4 Hr. assert (Hv : verify_signature m b = verify_signature m b').
  { unfold verify_signature. rewrite H1, H2. cbn [map_err result_bind]. rewrite H3, H4. cbn [ok_or result_bind].
    by rewrite (canonicalize_reorder v v' Hr). }
  split; [done|]. unfold evaluate. by rewrite Hv.
Qed.

(** A staged rollout only ever widens: a client that applies a release at some percentage applies it at every
    higher one, with the same decision, and at a hundred per cent no client is held back. *)
Theorem rollout_monotone `{UpdateLibs} (m : Manifest) (b b' : string) (i : PolicyInput) (p p' : Z) (d : UpdateDecision) :
  p <= p' -> verify_signature (at_percentage m p') b' = Ok tt -> evaluate (at_percentage m p) b i = Ok d ->
  evaluate (at_percentage m p') b' i = Ok d /\
  forall j bucket pct, 100 <= p' -> evaluate (at_percentage m p') b' j <> Err (NotInRollout bucket pct).
Proof.
  intros Hp Hv Hd. split.
  - rewrite evaluate_Ok in *. destruct Hd as [_ Hc Hf Hr Hn Hco Ha]. split; try done.
    destruct Hco as [Hs|Hco]; [by left|]. right. intros r Hro. simpl in *.
    destruct (rollout (signed m)) as [r0|]; simplify_eq/=. specialize (Hco _ eq_refl). simpl in Hco. lia.
  - intros j bucket pct Hfull He. revert He. unfold evaluate. rewrite Hv. cbn [map_err result_bind].
    unfold semver, ok_or, result_bind, map_err. cbv zeta.
    repeat (case_match; simplify_eq/=; try done); intros; simplify_eq.
    all: match goal with Hr : _ <$> ?o = Some _ |- _ => destruct o as [r0|]; simplify_eq/= end.
    all: pose proof (rollout_bucket_lt (install_id j) (cohort_seed r0)).
    all: match goal with Hb : (_ <=? _) = true |- _ => apply Z.leb_le in Hb; lia end.
Qed.

(** ** A concrete choice of the libraries *)

Definition dotted_parse (s : string) : result (list Z) string :=
  match mapM parse_u64 (split "."%char s) with Some l => Ok l | None => Err "not a version"%string end.

#[local] Instance demo_libs : UpdateLibs := {|
  sv := list Z;
  semver_parse := dotted_parse;
  sv_cmp := units_cmp;
  parse_from_rfc3339 := parse_i64;
  json_from_slice := fun s =>
    if str_eqb s "1" then Ok (JObj [("signed"%string, JObj [("b"%string, JNull); ("a"%string, JNull)])])
    else Ok (JObj [("signed"%string, JObj [("a"%string, JNull); ("b"%string, JNull)])]);
  number_to_string := fun _ => "0"%string;
  string_to_json := fun s => s;
  url_safe_no_pad_decode := fun s => Some s;
  url_safe_decode := fun s => Some s;
  VerifyingKey := unit;
  verifying_key_from_bytes := fun _ => Some tt;
  ed25519_verify := fun _ msg _ => str_eqb msg "{a:null,b:null}";
  sha256 := fun s => repeat (str_len s mod 256) 32;
|}.

#[local] Instance demo_laws : UpdateLaws.
Proof.
  split; simpl.
  - intros a b. rewrite (units_cmp_opp a b). by destruct (units_cmp a b).
  - intros a b c. revert b c. induction a as [|x a IH]; intros [|y b] [|z c]; simpl; try done.
    destruct (Z.compare_spec x y), (Z.compare_spec y z), (Z.compare_spec x z); try done; try lia; eauto.
Qed.

Definition demo_manifest : Manifest :=
  mkManifest 1 "wtu-2026-1" "4cc68c37093d0c5fe64e3f8558c7cb7758caf43a7cdb76ff7067c237b58cd75d"
    (mkSigned "id" "stable" "1.2.0" "1.0.0" "50" "200" None None false (Some (mkRollout 100 "seed")) None
       {["linux-x86_64"%string := mkArtifact "u" 1 "00" "appimage" None]}).

Definition demo_input : PolicyInput := mkInput Stable "1.1.0" (Some "40"%string) "install" "linux-x86_64" 100.

Lemma evaluate_exact_witness :
  verify_signature demo_manifest "1" = Ok tt /\
  exists d, evaluate demo_manifest "1" demo_input = Ok d /\ applies demo_manifest "1" demo_input d.
Proof.
  split; [vm_compute; reflexivity|].
  exists (mkDecision "1.2.0" "50" (mkArtifact "u" 1 "00" "appimage" None)).
  assert (Hd : evaluate demo_manifest "1" demo_input =
               Ok (mkDecision "1.2.0" "50" (mkArtifact "u" 1 "00" "appimage" None))) by (vm_compute; reflexivity).
  split; [exact Hd|]. by apply (evaluate_exact demo_manifest "1" demo_input).
Defined.

Lemma signature_ignores_field_order_witness :
  verify_signature demo_manifest "1" = verify_signature demo_manifest "2".
Proof.
  eapply (signature_ignores_field_order demo_manifest "1" "2" _ _ _ _ demo_input);
    [vm_compute; reflexivity|vm_compute; reflexivity|vm_compute; reflexivity|vm_compute; reflexivity|].
  apply reorder_here; [constructor|]. apply (bool_decide_unpack _). vm_compute. exact I.
Defined.

Lemma rollout_monotone_witness :
  exists d, evaluate (at_percentage demo_manifest 100) "2" demo_input = Ok d.
Proof.
  exists (mkDecision "1.2.0" "50" (mkArtifact "u" 1 "00" "appimage" None)).
  apply (rollout_monotone demo_manifest "1" "2" demo_input 99 100); vm_compute; try reflexivity. discriminate.
Defined.
