(* ===== verification/UpdateState.v ===== *)
(** * The update's state: local/update/version_record.rs, local/update/rollback.rs, the boot
    reconciliation of local/app/lifecycle.rs and the handlers of local/api/v1/update.rs

    The encrypted database is the version record's row, the key/value table, and a list of faults:
    each statement takes the next one and fails when it is set. The build's version, the self-check's
    probes and the random bytes of an install id are arguments; the decoder of a manifest and the
    printed errors are parameters. *)

From Stdlib Require Import Ascii String.
From S2P Require Import Prelude Ints Str Json Store UpdateManifest.
Open Scope Z_scope.

(** ** Data *)

Module Rec.
Record VersionRecord : Type := mkRecord {
  installed_version : option string;
  prior_version : option string;
  installed_build_released_at : option string;
  health_fail_count : Z;
}.
End Rec.
Import Rec.

Definition record_default : VersionRecord := mkRecord None None None 0.

Definition with_count (r : VersionRecord) (c : Z) : VersionRecord :=
  mkRecord (installed_version r) (prior_version r) (installed_build_released_at r) c.

Record Db : Type := mkDb {
  app_meta : option VersionRecord;
  config : gmap string string;
  faults : list bool;
}.

Definition HEALTH_FAIL_ROLLBACK_THRESHOLD : Z := 2.
Definition INSTALL_ID_KEY : string := "update.install_id".
Definition CHANNEL_KEY : string := "update.channel".
Definition ROLLBACK_TO_KEY : string := "update.rollback_to".

(** ** The store *)

#[export] Instance db_faulty : Faulty Db := {|
  Store.faults := faults;
  Store.set_faults := fun fs db => mkDb (app_meta db) (config db) fs;
|}.

#[export] Instance db_config : HasConfig Db := {|
  Store.config := config;
  Store.set_config := fun kv db => mkDb (app_meta db) kv (faults db);
|}.

#[local] Abbreviation M := (Store.M Db).

(** ** The version record *)

Definition load : M VersionRecord := statement (fun db => (unwrap_or (app_meta db) record_default, db)).
Definition save (r : VersionRecord) : M unit := statement (fun db => (tt, mkDb (Some r) (config db) (faults db))).

Definition ensure_seeded (current_version : string) (released_at : option string) : M VersionRecord :=
  let! r := load in
  if is_empty (unwrap_or (installed_version r) EmptyString) then
    let r := mkRecord (Some current_version) (prior_version r)
               (match installed_build_released_at r with None => released_at | Some d => Some d end) (health_fail_count r) in
    let! _ := save r in ret r
  else ret r.

Definition record_health_success (r : VersionRecord) : M VersionRecord :=
  if health_fail_count r =? 0 then ret r
  else let next := with_count r 0 in let! _ := save next in ret next.

Definition record_health_fail (r : VersionRecord) : M VersionRecord :=
  let next := with_count r (sat_add (health_fail_count r) 1) in
  let! _ := save next in ret next.

Definition record_rollback (r : VersionRecord) : M VersionRecord :=
  let next := match prior_version r with
              | Some prior => mkRecord (Some prior) None None 0
              | None => with_count r 0
              end in
  let! _ := save next in ret next.

(** ** Self-check and rollback *)

Record SelfCheckReport : Type := mkReport { cipher_present : bool; db_ok : bool; healthy : bool }.

(** The two probes: the cipher is active, and a trivial query succeeds. *)
Definition probe (cipher select : bool) : SelfCheckReport := mkReport cipher (cipher && select) (cipher && select).

(** [open_] holds the probes of the database when it opens. *)
Definition self_check_db_path (open_ : option (bool * bool)) : SelfCheckReport :=
  match open_ with
  | Some (c, s) => probe c s
  | None => mkReport false false false
  end.

Inductive RollbackAction : Type :=
| Healthy
| HeldFailing (fail_count : Z)
| Rollback (prior_version : option string).

Definition decide_ (r : VersionRecord) (report : SelfCheckReport) : RollbackAction :=
  if healthy report then Healthy
  else
    let next := sat_add (health_fail_count r) 1 in
    if HEALTH_FAIL_ROLLBACK_THRESHOLD <=? next then Rollback (prior_version r) else HeldFailing next.

Definition run_post_update_gate (cipher select : bool) : M RollbackAction :=
  let! loaded := attempt load in
  match loaded with
  | Err _ => ret Healthy
  | Ok record =>
      let action := decide_ record (probe cipher select) in
      let! _ := attempt match action with
                        | Healthy => record_health_success record
                        | HeldFailing _ => record_health_fail record
                        | Rollback _ => record_rollback record
                        end in
      ret action
  end.

(** ** The boot reconciliation *)

Section update.
Context `{UpdateLibs}.

Definition record_successful_update (r : VersionRecord) (new_version : string) (new_released_at : option string)
    : M VersionRecord :=
  let refused := match installed_version r with
                 | Some cur => match semver_parse new_version, semver_parse cur with
                               | Ok a, Ok b => not_gt (sv_cmp a b)
                               | _, _ => false
                               end
                 | None => false
                 end in
  if refused then throw (BadRequest (String.append "refusing to record update to " (String.append new_version
                        (String.append ": not newer than installed " (unwrap_or (installed_version r) EmptyString)))))
  else
    let next := mkRecord (Some new_version) (installed_version r)
                  (match new_released_at with Some d => Some d | None => installed_build_released_at r end) 0 in
    let! _ := save next in ret next.

(** Step 2 of the reconciliation: is the running build newer than the recorded version? *)
Definition newer (running : string) (r : VersionRecord) : bool :=
  match installed_version r ≫= (fun v => result_ok (semver_parse v)), result_ok (semver_parse running) with
  | Some recorded, Some now => negb (not_gt (sv_cmp now recorded))
  | _, _ => false
  end.

(** An error is logged. *)
Definition record_applied (running : string) (r : VersionRecord) : M unit :=
  if newer running r then let! _ := attempt (record_successful_update r running None) in ret tt else ret tt.

(** [running] is the build's own version. *)
Definition reconcile_update_state (running : string) (cipher select : bool) : M unit :=
  let! record := ensure_seeded running None in
  let! _ := record_applied running record in
  let! action := run_post_update_gate cipher select in
  match action with
  | Rollback (Some prior) => kv_set ROLLBACK_TO_KEY prior
  | Rollback None => kv_set ROLLBACK_TO_KEY EmptyString
  | HeldFailing _ => ret tt
  | Healthy => let! _ := kv_delete ROLLBACK_TO_KEY in ret tt
  end.

(** ** The handlers *)

Record Verdict : Type := mkVerdict {
  approved : bool;
  verdict_code : string;
  reason : string;
  verdict_version : option string;
  verdict_sha256 : option string;
}.

Definition reject_verdict (code reason : string) (version : option string) : Verdict := mkVerdict false code reason version None.

(** The [{:?}] printer of strings. *)
Context (str_debug : string -> string).

Definition set_channel (body : string) : M Channel :=
  match channel_parse body with
  | None => throw (BadRequest (String.append "unknown update channel " (String.append (str_debug body)
                                 " (expected stable, beta or managed)")))
  | Some c => let! _ := kv_set CHANNEL_KEY (channel_as_str c) in ret c
  end.

Record State : Type := mkState {
  st_channel : string;
  st_installed_version : option string;
  st_prior_version : option string;
  st_health_fail_count : Z;
  st_rollback_pending : bool;
  st_rollback_to : option string;
  st_running_version : string;
}.

Definition state (running : string) : M State :=
  let! channel := kv_get_or CHANNEL_KEY "stable" in
  let! record := load in
  let! rollback_to := kv_get ROLLBACK_TO_KEY in
  ret (mkState channel (installed_version record) (prior_version record) (health_fail_count record)
         (bool_decide (is_Some rollback_to))
         (rollback_to ≫= fun v => if is_empty (trim v) then None else Some v) running).

(** [minted] is the fresh id. *)
Definition load_or_mint_install_id (minted : string) : M string :=
  let! id := kv_get INSTALL_ID_KEY in
  match id with
  | Some id => if is_empty (trim id) then let! _ := kv_set INSTALL_ID_KEY minted in ret minted else ret id
  | None => let! _ := kv_set INSTALL_ID_KEY minted in ret minted
  end.

(** The derived decoder and encoder of a manifest, and the derived printing of errors. *)
Context (to_vec : json -> option string) (manifest_parse : string -> result Manifest string)
  (manifest_error_to_string : ManifestError -> string) (reject_to_string : UpdateReject -> string).

Definition verify (running minted target_os target_arch : string) (now : Z) (manifest : json) (expected_version : option string)
    : M Verdict :=
  if is_null manifest then throw (BadRequest "missing manifest"%string)
  else
    match to_vec manifest with
    | None => throw (BadRequest "manifest is not serializable JSON"%string)
    | Some b =>
        match map_err Malformed (manifest_parse b) with
        | Err e => ret (reject_verdict "malformed_manifest" (manifest_error_to_string e) None)
        | Ok m =>
            let! channel_str := kv_get_or CHANNEL_KEY "stable" in
            match channel_parse channel_str with
            | None => ret (reject_verdict "unknown_channel" "configured channel is unknown" None)
            | Some channel =>
                let! record := load in
                let installed := unwrap_or (installed_version record) running in
                let! install_id := load_or_mint_install_id minted in
                let input := mkInput channel installed (installed_build_released_at record) install_id
                               (current_platform_key target_os target_arch) now in
                match evaluate m b input with
                | Ok decision =>
                    let mismatch := match expected_version with
                                    | Some e => negb (str_eqb (trim e) (decision_version decision))
                                    | None => false
                                    end in
                    if mismatch then
                      ret (reject_verdict "version_mismatch" "manifest version does not match the version being installed"
                             (Some (decision_version decision)))
                    else ret (mkVerdict true "approved" "manifest passed all §3 gates" (Some (decision_version decision))
                                (Some (expected_sha256 decision)))
                | Err e => ret (reject_verdict (code e) (reject_to_string e) None)
                end
            end
        end
    end.

(** ** Histories *)

(** What happens to the database, each with its faults. *)
Inductive event : Type :=
| Boot (running : string) (cipher select : bool) (fs : list bool)
| SetChannel (body : string) (fs : list bool)
| GetState (running : string) (fs : list bool)
| Verify (running minted target_os target_arch : string) (now : Z) (manifest : json) (expected : option string) (fs : list bool).

Definition with_faults (db : Db) (fs : list bool) : Db := mkDb (app_meta db) (config db) fs.

Definition event_step (db : Db) (e : event) : Db :=
  match e with
  | Boot running c s fs => snd (reconcile_update_state running c s (with_faults db fs))
  | SetChannel body fs => snd (set_channel body (with_faults db fs))
  | GetState running fs => snd (state running (with_faults db fs))
  | Verify running minted os arch now m e fs => snd (verify running minted os arch now m e (with_faults db fs))
  end.

Definition run (db : Db) (es : list event) : Db := foldl event_step db es.

(** The migrated database: the row with no versions, and any key/value pairs. *)
Definition migrated (db : Db) : Prop := app_meta db = Some record_default.

(** A build has a version. *)
Definition event_ok (e : event) : Prop := match e with Boot running _ _ _ => running <> EmptyString | _ => True end.

(** ** Invariant *)

Definition row (db : Db) : VersionRecord := unwrap_or (app_meta db) record_default.

(** No release date is recorded, at most one failure is counted, and the retained version is older
    than the installed one. *)
Record row_ok (r : VersionRecord) : Prop := {
  row_date : installed_build_released_at r = None;
  row_count : health_fail_count r = 0 \/ health_fail_count r = 1;
  row_installed : installed_version r <> Some EmptyString;
  row_prior : forall p, prior_version r = Some p -> p <> EmptyString /\ exists i a b,
    installed_version r = Some i /\ semver_parse p = Ok a /\ semver_parse i = Ok b /\ sv_cmp b a = Gt;
}.

(** The row stays well-formed, faults or not, and a result satisfies a predicate. *)
#[local] Abbreviation keeps := (Store.keeps (fun db : Db => row_ok (row db))).

Lemma keeps_statement {A : Type} (f : Db -> A * Db) (Q : A -> Prop) :
  (forall db, row_ok (row db) -> row_ok (row (snd (f db))) /\ Q (fst (f db))) -> keeps (statement f) Q.
Proof. intros Hf. by apply keeps_faulted. Qed.

Lemma keeps_kv_get (k : string) : keeps (kv_get k) (fun _ => True).
Proof. by apply keeps_statement. Qed.
Lemma keeps_kv_set (k v : string) : keeps (kv_set k v) (fun _ => True).
Proof. by apply keeps_statement. Qed.
Lemma keeps_kv_delete (k : string) : keeps (kv_delete k) (fun _ => True).
Proof. by apply keeps_statement. Qed.
Lemma keeps_kv_get_or (k d : string) : keeps (kv_get_or k d) (fun _ => True).
Proof. eapply keeps_bind; [apply keeps_kv_get|]. intros; by apply keeps_ret. Qed.
Lemma keeps_load : keeps load row_ok.
Proof. by apply keeps_statement. Qed.
Lemma keeps_save (r : VersionRecord) : row_ok r -> keeps (save r) (fun _ => True).
Proof. intros Hr. by apply keeps_statement. Qed.

Lemma keeps_save_ret (r : VersionRecord) (Q : VersionRecord -> Prop) :
  row_ok r -> Q r -> keeps (let! _ := save r in ret r) Q.
Proof. intros Hr HQ. eapply keeps_bind; [by apply keeps_save|]. intros. by apply keeps_ret. Qed.

Lemma with_count_ok (r : VersionRecord) (c : Z) : c = 0 \/ c = 1 -> row_ok r -> row_ok (with_count r c).
Proof. intros Hc []. by split. Qed.

Lemma rolled_back_ok (r : VersionRecord) (p : string) : row_ok r -> prior_version r = Some p ->
  row_ok (mkRecord (Some p) None None 0).
Proof. intros [_ _ _ Hr] [Hp _]%Hr. split; simpl; auto; congruence. Qed.

Lemma keeps_seeded (v : string) : v <> EmptyString ->
  keeps (ensure_seeded v None) (fun r => row_ok r /\ exists i, installed_version r = Some i).
Proof.
  intros Hv. eapply keeps_bind; [apply keeps_load|]. intros r [Hd Hc Hi Hp].
  destruct (installed_version r) as [i|] eqn:Ei; simpl.
  - destruct i as [|ch i]; [done|]. apply keeps_ret. split; [|eauto]. by split; rewrite ?Ei.
  - apply keeps_save_ret; [|split; [|by exists v]]; split; simpl; rewrite ?Hd; try done; try congruence;
      intros p Hpr; destruct (Hp p Hpr) as (_ & i & a & b & E & _); congruence.
Qed.

Lemma keeps_update (r : VersionRecord) (v i : string) (a b : sv) :
  row_ok r -> installed_version r = Some i -> semver_parse i = Ok a -> semver_parse v = Ok b -> sv_cmp b a = Gt ->
  v <> EmptyString -> keeps (record_successful_update r v None) (fun _ => True).
Proof.
  intros [Hd Hc Hi Hp] Ei Ha Hb Hlt Hv. unfold record_successful_update. rewrite Ei, Ha, Hb, Hlt. cbn [not_gt].
  apply keeps_save_ret; [|done]. split; simpl; auto; [congruence|].
  intros p [= <-]. split; [congruence|]. by exists v, a, b.
Qed.

Lemma keeps_gate (c s : bool) : keeps (run_post_update_gate c s)
  (fun action => match action with Rollback (Some p) => p <> EmptyString | _ => True end).
Proof.
  eapply keeps_bind; [apply keeps_attempt, keeps_load|]. intros [r|e] Hr; [|by apply keeps_ret].
  specialize (Hr r eq_refl). unfold decide_, probe. cbn [healthy].
  eapply keeps_bind with (P := fun _ => True).
  - eapply keeps_weaken; [|apply keeps_attempt with (P := fun _ => True)]; [done|]. destruct (c && s).
    + unfold record_health_success. destruct (health_fail_count r =? 0); [by apply keeps_ret|].
      apply keeps_save_ret; [|done]. apply with_count_ok; auto.
    + destruct (Z.leb_spec HEALTH_FAIL_ROLLBACK_THRESHOLD (sat_add (health_fail_count r) 1)).
      * unfold record_rollback. destruct (prior_version r) as [p|] eqn:Ep; apply keeps_save_ret; try done.
        -- by eapply rolled_back_ok.
        -- apply with_count_ok; auto.
      * apply keeps_save_ret; [|done]. apply with_count_ok; [|done].
        destruct (row_count r Hr) as [E|E]; rewrite E in *; [by right|done].
  - intros _ _. apply keeps_ret. destruct (c && s); [done|].
    destruct (HEALTH_FAIL_ROLLBACK_THRESHOLD <=? sat_add (health_fail_count r) 1); [|done].
    destruct (prior_version r) eqn:Ep; [|done]. by apply (row_prior r Hr).
Qed.

Lemma keeps_applied (v i : string) (r : VersionRecord) :
  v <> EmptyString -> row_ok r -> installed_version r = Some i -> keeps (record_applied v r) (fun _ => True).
Proof.
  intros Hv Hr Ei. unfold record_applied, newer. rewrite Ei. cbn [mbind option_bind].
  destruct (semver_parse i) as [a|] eqn:Ea, (semver_parse v) as [b|] eqn:Eb; cbn [result_ok]; try by apply keeps_ret.
  destruct (sv_cmp b a) eqn:Ec; cbn [not_gt negb]; try by apply keeps_ret.
  eapply keeps_bind; [apply keeps_attempt; by eapply keeps_update|]. intros; by apply keeps_ret.
Qed.

Lemma keeps_reconcile (v : string) (c s : bool) : v <> EmptyString -> keeps (reconcile_update_state v c s) (fun _ => True).
Proof.
  intros Hv. eapply keeps_bind; [by apply keeps_seeded|]. intros r [Hr [i Ei]].
  eapply keeps_bind with (P := fun _ => True); [by eapply keeps_applied|].
  intros _ _. eapply keeps_bind; [apply keeps_gate|]. intros [| |[p|]] _.
  + eapply keeps_bind; [apply keeps_kv_delete|]. intros; by apply keeps_ret.
  + by apply keeps_ret.
  + apply keeps_kv_set.
  + apply keeps_kv_set.
Qed.

Lemma keeps_install_id (minted : string) : keeps (load_or_mint_install_id minted) (fun _ => True).
Proof.
  eapply keeps_bind; [apply keeps_kv_get|]. intros [id|] _; [destruct (is_empty (trim id)); [|by apply keeps_ret]|];
    (eapply keeps_bind; [apply keeps_kv_set|]; intros; by apply keeps_ret).
Qed.

(** Without a recorded release date nothing is refused as a replay. *)
Lemma no_date_no_replay (m : Manifest) (b : string) (i : PolicyInput) :
  UpdateManifest.installed_build_released_at i = None ->
  forall e, evaluate m b i = Err e -> code e <> "replay_older_than_installed"%string.
Proof.
  intros Hi e He Hc. destruct e as [[]| | | | | | | | |]; try discriminate Hc. clear Hc. revert He.
  unfold evaluate, semver. rewrite Hi. cbn [mbind option_bind]. cbv zeta.
  unfold ok_or, result_bind, map_err. repeat (case_match; simplify_eq/=; try done).
Qed.

Lemma keeps_verify (running minted os arch : string) (now : Z) (m : json) (e : option string) :
  keeps (verify running minted os arch now m e) (fun v => verdict_code v <> "replay_older_than_installed"%string).
Proof.
  unfold verify. destruct (is_null m); [apply keeps_throw|]. destruct (to_vec m); [|apply keeps_throw].
  destruct (map_err Malformed (manifest_parse s)) as [mf|]; [|by apply keeps_ret].
  eapply keeps_bind; [apply keeps_kv_get_or|]. intros ch _. destruct (channel_parse ch); [|by apply keeps_ret].
  eapply keeps_bind; [apply keeps_load|]. intros r Hr.
  eapply keeps_bind; [apply keeps_install_id|]. intros id _.
  match goal with |- context [evaluate mf s ?i] => pose proof (no_date_no_replay mf s i (row_date r Hr)) as Hno end.
  destruct (evaluate mf s _) as [d|e'].
  - destruct (match e with Some _ => _ | None => _ end); by apply keeps_ret.
  - apply keeps_ret. by apply Hno.
Qed.

Lemma keeps_set_channel (body : string) : keeps (set_channel body) (fun _ => True).
Proof.
  unfold set_channel. destruct (channel_parse body); [|apply keeps_throw].
  eapply keeps_bind; [apply keeps_kv_set|]. intros; by apply keeps_ret.
Qed.

Lemma keeps_get_state (running : string) : keeps (state running) (fun _ => True).
Proof.
  eapply keeps_bind; [apply keeps_kv_get_or|]. intros ? _. eapply keeps_bind; [apply keeps_load|]. intros ? _.
  eapply keeps_bind; [apply keeps_kv_get|]. intros; by apply keeps_ret.
Qed.

Lemma event_step_ok (db : Db) (e : event) : event_ok e -> row_ok (row db) -> row_ok (row (event_step db e)).
Proof.
  intros He Hr. destruct e as [v c s fs|body fs|v fs|v mi os arch now m ex fs]; simpl;
    (eapply (keeps_state (fun db => row_ok (row db))); [|exact Hr]).
  - by apply keeps_reconcile.
  - apply keeps_set_channel.
  - apply keeps_get_state.
  - apply keeps_verify.
Qed.

Lemma run_ok (db : Db) (es : list event) : migrated db -> Forall event_ok es -> row_ok (row (run db es)).
Proof.
  intros Hm He. assert (H0 : row_ok (row db)) by (unfold row; rewrite Hm; split; simpl; auto; done).
  clear Hm. revert db H0. induction He as [|e es He _ IH]; intros db H0; [done|].
  apply IH. by apply event_step_ok.
Qed.

(** ** A boot without faults, as a function of the record *)

Definition seeded (running : string) (r : VersionRecord) : VersionRecord :=
  if is_empty (unwrap_or (installed_version r) EmptyString)
  then mkRecord (Some running) (prior_version r) (installed_build_released_at r) (health_fail_count r) else r.

Definition advanced (running : string) (r : VersionRecord) : VersionRecord :=
  if newer running r then mkRecord (Some running) (installed_version r) (installed_build_released_at r) 0 else r.

Definition settled (r : VersionRecord) (action : RollbackAction) : VersionRecord :=
  match action with
  | Healthy => with_count r 0
  | HeldFailing c => with_count r c
  | Rollback (Some p) => mkRecord (Some p) None None 0
  | Rollback None => with_count r 0
  end.

Definition demand (action : RollbackAction) (kv : gmap string string) : gmap string string :=
  match action with
  | Healthy => delete ROLLBACK_TO_KEY kv
  | HeldFailing _ => kv
  | Rollback p => <[ROLLBACK_TO_KEY := unwrap_or p EmptyString]> kv
  end.

Definition boot_spec (running : string) (ok : bool) (r : VersionRecord) : VersionRecord * RollbackAction :=
  let r := advanced running (seeded running r) in
  let action := decide_ r (probe ok ok) in
  (settled r action, action).

Lemma with_count_same (r : VersionRecord) : with_count r (health_fail_count r) = r.
Proof. by destruct r. Qed.

Lemma seeded_clean (running : string) (r : VersionRecord) (kv : gmap string string) :
  ensure_seeded running None (mkDb (Some r) kv []) = (Ok (seeded running r), mkDb (Some (seeded running r)) kv []).
Proof.
  unfold ensure_seeded, seeded, bind, load, statement, unwrap_or; simpl.
  destruct (is_empty _); [|done]. simpl. by destruct (installed_build_released_at r).
Qed.

Lemma advanced_clean (running : string) (r : VersionRecord) (kv : gmap string string) :
  record_applied running r (mkDb (Some r) kv []) = (Ok tt, mkDb (Some (advanced running r)) kv []).
Proof.
  unfold advanced, record_applied. destruct (newer running r) eqn:En; [|done]. unfold newer in En.
  unfold bind, attempt, record_successful_update. destruct (installed_version r) as [i|] eqn:Ei; [|done]. simpl in En.
  destruct (semver_parse i) as [a|], (semver_parse running) as [b|]; try done. cbn [result_ok] in En.
  apply negb_true_iff in En. by rewrite En.
Qed.

Lemma gate_clean (c s : bool) (r : VersionRecord) (kv : gmap string string) :
  run_post_update_gate c s (mkDb (Some r) kv []) =
    (Ok (decide_ r (probe (c && s) (c && s))), mkDb (Some (settled r (decide_ r (probe (c && s) (c && s))))) kv []).
Proof.
  unfold run_post_update_gate, bind, attempt, load, statement, unwrap_or; simpl.
  unfold decide_, probe; simpl. rewrite andb_diag. destruct (c && s); simpl.
  - unfold record_health_success. destruct (Z.eqb_spec (health_fail_count r) 0) as [E|E]; simpl; [|done].
    rewrite <- E at 1. by rewrite with_count_same.
  - destruct (HEALTH_FAIL_ROLLBACK_THRESHOLD <=? sat_add (health_fail_count r) 1); simpl; [|done].
    unfold record_rollback. by destruct (prior_version r).
Qed.

(** The reconciliation of a boot implements [boot_spec]. *)
Lemma reconcile_clean (running : string) (c s : bool) (r : VersionRecord) (kv : gmap string string) :
  let '(r', action) := boot_spec running (c && s) r in
  reconcile_update_state running c s (mkDb (Some r) kv []) = (Ok tt, mkDb (Some r') (demand action kv) []).
Proof.
  unfold boot_spec. unfold reconcile_update_state, bind at 1. rewrite seeded_clean.
  unfold bind at 1. rewrite advanced_clean.
  unfold bind at 1. rewrite gate_clean. set (r2 := advanced running (seeded running r)).
  by destruct (decide_ r2 (probe (c && s) (c && s))) as [| |[p|]].
Qed.

(** A build [v] newer than the installed [w]. *)
Record upgrade (w v : string) : Prop := {
  up_w : w <> EmptyString;
  up_v : v <> EmptyString;
  up_newer : exists a b, semver_parse w = Ok a /\ semver_parse v = Ok b /\ sv_cmp b a = Gt;
}.

Lemma cmp_irrefl `{!UpdateLaws} (b : sv) : sv_cmp b b <> Gt.
Proof. intros E. pose proof (proj2 (sv_cmp_anti b b) E). congruence. Qed.

(** The first boot of a newer build, from a record at [w]; and a later boot of the same build. *)
Lemma boot_first `{!UpdateLaws} (r : VersionRecord) (w v : string) (ok : bool) :
  upgrade w v -> installed_version r = Some w ->
  boot_spec v ok r =
    (mkRecord (Some v) (Some w) (installed_build_released_at r) (if ok then 0 else 1),
     if ok then Healthy else HeldFailing 1).
Proof.
  intros [Hw Hv (a & b & Ha & Hb & Hgt)] Hi. unfold boot_spec, seeded. rewrite Hi. simpl.
  destruct w as [|c w]; [done|]. simpl. unfold advanced, newer. rewrite Hi. simpl. rewrite Ha, Hb. simpl. rewrite Hgt. simpl.
  unfold decide_. simpl. by destruct ok.
Qed.

Lemma boot_again `{!UpdateLaws} (v w : string) (d : option string) (n : Z) (ok : bool) :
  upgrade w v -> n = 0 \/ n = 1 ->
  boot_spec v ok (mkRecord (Some v) (Some w) d n) =
    if ok then (mkRecord (Some v) (Some w) d 0, Healthy)
    else if n =? 1 then (mkRecord (Some w) None None 0, Rollback (Some w))
    else (mkRecord (Some v) (Some w) d 1, HeldFailing 1).
Proof.
  intros [Hw Hv (a & b & Ha & Hb & Hgt)] Hn. unfold boot_spec, seeded. simpl.
  destruct v as [|c v]; [done|]. simpl. unfold advanced, newer. simpl. rewrite Hb. simpl.
  destruct (sv_cmp b b) eqn:E; [| |by destruct (cmp_irrefl b)]; simpl;
    (destruct Hn as [-> | ->]; unfold decide_; simpl; destruct ok; simpl; done).
Qed.

Lemma boot_step (v : string) (c s : bool) (r : VersionRecord) (kv : gmap string string) :
  event_step (mkDb (Some r) kv []) (Boot v c s []) =
  mkDb (Some (boot_spec v (c && s) r).1) (demand (boot_spec v (c && s) r).2 kv) [].
Proof.
  unfold event_step, with_faults. cbn [app_meta config]. pose proof (reconcile_clean v c s r kv) as Hc.
  destruct (boot_spec v (c && s) r) as [r' act]. by rewrite Hc.
Qed.

(** A rollback demand is invisible to the verifier. *)
Lemma verify_ignores_demand (running minted os arch : string) (now : Z) (m : json) (e : option string)
    (r r' : VersionRecord) (kv : gmap string string) (p : string) :
  installed_version r = installed_version r' -> installed_build_released_at r = installed_build_released_at r' ->
  fst (verify running minted os arch now m e (mkDb (Some r') (<[ROLLBACK_TO_KEY := p]> kv) [])) =
  fst (verify running minted os arch now m e (mkDb (Some r) kv [])).
Proof.
  intros H1 H2. unfold verify. destruct (is_null m); [done|]. destruct (to_vec m) as [b|]; [|done].
  destruct (map_err Malformed (manifest_parse b)) as [mf|]; [|done].
  assert (Hk : forall k, k <> ROLLBACK_TO_KEY -> <[ROLLBACK_TO_KEY := p]> kv !! k = kv !! k)
    by (intros k Hk; by rewrite lookup_insert_ne).
  unfold bind, kv_get_or, bind, kv_get, statement, ret; simpl. rewrite Hk by done.
  destruct (channel_parse (unwrap_or (kv !! CHANNEL_KEY) "stable")) as [ch|]; [|done]. simpl.
  rewrite <- H1, <- H2. unfold load_or_mint_install_id, bind, kv_get, statement; simpl. rewrite Hk by done.
  destruct (kv !! INSTALL_ID_KEY) as [id|]; simpl; [destruct (is_empty (trim id)); simpl|];
    (destruct (evaluate mf b _) as [d|]; [|done]); by destruct (match e with Some _ => _ | None => _ end).
Qed.
End update.

(** ** Properties *)

(** Whatever boots, checks and channel changes a migrated database goes through, and whichever statements fail, the version
    record stays well-formed: at most one failed self-check is counted, the retained version is older than the
    installed one, and no build's release date is ever recorded. So no verification ever answers that a
    manifest is a replay older than the installed build. *)
Theorem version_record_invariant `{UpdateLibs} (dbg : string -> string) (to_vec : json -> option string)
    (parse : string -> result Manifest string) (me : ManifestError -> string) (re : UpdateReject -> string)
    (db : Db) (es : list event) :
  migrated db -> Forall event_ok es ->
  row_ok (row (run dbg to_vec parse me re db es)) /\
  forall running minted os arch now m e fs v,
    fst (verify to_vec parse me re running minted os arch now m e
           (with_faults (run dbg to_vec parse me re db es) fs)) = Ok v ->
    verdict_code v <> "replay_older_than_installed"%string.
Proof.
  intros Hm He. pose proof (run_ok dbg to_vec parse me re db es Hm He) as Hr. split; [done|].
  intros running minted os arch now m e fs v Hv.
  exact (keeps_result _ _ _ (with_faults _ fs) _ (keeps_verify to_vec parse me re running minted os arch now m e) Hr Hv).
Qed.

(** A newer build gets two boots: its first failed self-check is held without a demand, the second one in a
    row demands the version it replaced and makes that the installed one again; a healthy boot
    in between keeps the build, with the previous version retained and no demand left. *)
Theorem two_strikes_rollback `{UpdateLibs} `{!UpdateLaws} (dbg : string -> string) (to_vec : json -> option string)
    (parse : string -> result Manifest string) (me : ManifestError -> string) (re : UpdateReject -> string)
    (r : VersionRecord) (kv : gmap string string) (w v : string) (c s : bool) :
  upgrade w v -> installed_version r = Some w -> c && s = false ->
  let date := installed_build_released_at r in
  let boots := run dbg to_vec parse me re (mkDb (Some r) kv []) in
  let bad := Boot v c s [] in
  let good := Boot v true true [] in
  boots [bad] = mkDb (Some (mkRecord (Some v) (Some w) date 1)) kv [] /\
  boots [bad; bad] = mkDb (Some (mkRecord (Some w) None None 0)) (<[ROLLBACK_TO_KEY := w]> kv) [] /\
  boots [good] = mkDb (Some (mkRecord (Some v) (Some w) date 0)) (delete ROLLBACK_TO_KEY kv) [] /\
  boots [bad; good] = boots [good].
Proof.
  intros Hu Hi Hcs date boots bad good.
  assert (H1 : boots [bad] = mkDb (Some (mkRecord (Some v) (Some w) date 1)) kv []).
  { unfold boots, run, bad. cbn [foldl]. by rewrite boot_step, Hcs, (boot_first r w v false Hu Hi). }
  assert (H2 : boots [good] = mkDb (Some (mkRecord (Some v) (Some w) date 0)) (delete ROLLBACK_TO_KEY kv) []).
  { unfold boots, run, good. cbn [foldl]. rewrite boot_step. cbn [andb]. by rewrite (boot_first r w v true Hu Hi). }
  split_and!; [done| |done|].
  - unfold boots, run in *. cbn [foldl] in *. rewrite H1. unfold bad. rewrite boot_step, Hcs.
    by rewrite boot_again by auto.
  - unfold boots, run in *. cbn [foldl] in *. rewrite H2, H1. unfold good. rewrite boot_step. cbn [andb].
    by rewrite boot_again by auto.
Qed.

(** The daemon forgets that it rolled a build back. After two failed boots every verification answers as it did before the
    update, so the build just rolled back is approved again; and when the failing build boots once more,
    its boot counts as the first one after an update, resets the installed version to it and withdraws nothing, so
    failing boots alternate for ever between the two records. *)
Theorem rollback_reoffers_build `{UpdateLibs} `{!UpdateLaws} (dbg : string -> string) (to_vec : json -> option string)
    (parse : string -> result Manifest string) (me : ManifestError -> string) (re : UpdateReject -> string)
    (r : VersionRecord) (kv : gmap string string) (w v : string) (c s : bool) :
  upgrade w v -> installed_version r = Some w -> installed_build_released_at r = None -> c && s = false ->
  let db := mkDb (Some r) kv [] in
  let boots := run dbg to_vec parse me re db in
  let bad := Boot v c s [] in
  (forall running minted os arch now m e,
     fst (verify to_vec parse me re running minted os arch now m e (boots [bad; bad])) =
     fst (verify to_vec parse me re running minted os arch now m e db)) /\
  boots [bad; bad; bad] = mkDb (Some (mkRecord (Some v) (Some w) None 1)) (<[ROLLBACK_TO_KEY := w]> kv) [] /\
  boots [bad; bad; bad; bad] = boots [bad; bad].
Proof.
  intros Hu Hi Hd Hcs db boots bad.
  assert (H2 : boots [bad; bad] = mkDb (Some (mkRecord (Some w) None None 0)) (<[ROLLBACK_TO_KEY := w]> kv) []).
  { unfold boots, run, bad, db. cbn [foldl]. rewrite boot_step, Hcs, (boot_first r w v false Hu Hi).
    rewrite boot_step, Hcs. cbn [fst]. by rewrite boot_again by auto. }
  assert (H3 : boots [bad; bad; bad] = mkDb (Some (mkRecord (Some v) (Some w) None 1)) (<[ROLLBACK_TO_KEY := w]> kv) []).
  { unfold boots, run in *. cbn [foldl] in *. rewrite H2. unfold bad.
    by rewrite boot_step, Hcs, (boot_first (mkRecord (Some w) None None 0) w v false Hu eq_refl). }
  split_and!; [| done |].
  - intros running minted os arch now m e. rewrite H2. apply verify_ignores_demand; simpl; congruence.
  - rewrite H2. unfold boots, run in *. cbn [foldl] in *. rewrite H3. unfold bad. rewrite boot_step, Hcs.
    rewrite boot_again by auto. cbn. by rewrite insert_insert_eq.
Qed.

(** ** Witnesses *)

#[local] Existing Instance demo_libs.
#[local] Existing Instance demo_laws.

Lemma demo_upgrade : upgrade "1.1.0" "1.2.0".
Proof. split; [done|done|]. exists [1; 1; 0], [1; 2; 0]. by vm_compute. Qed.

Definition demo_record : VersionRecord := mkRecord (Some "1.1.0"%string) None None 0.
Definition demo_parse (s : string) : result Manifest string := Ok demo_manifest.
Definition demo_vec (v : json) : option string := Some "1"%string.
Definition no_text {A : Type} (a : A) : string := EmptyString.

Lemma version_record_invariant_witness :
  row_ok (row (run no_text demo_vec demo_parse no_text no_text (mkDb (Some record_default) ∅ [])
    [Boot "1.1.0" true true []; Boot "1.2.0" true false [false; true]; Boot "1.2.0" false false []])).
Proof.
  apply (version_record_invariant no_text demo_vec demo_parse no_text no_text); [reflexivity|].
  repeat constructor; discriminate.
Defined.

Lemma two_strikes_rollback_witness :
  run no_text demo_vec demo_parse no_text no_text (mkDb (Some demo_record) ∅ [])
    [Boot "1.2.0" true false []; Boot "1.2.0" true false []] =
  mkDb (Some demo_record) {[ROLLBACK_TO_KEY := "1.1.0"%string]} [].
Proof.
  apply (two_strikes_rollback no_text demo_vec demo_parse no_text no_text demo_record ∅ "1.1.0" "1.2.0" true false);
    [exact demo_upgrade|reflexivity|reflexivity].
Defined.

Lemma rollback_reoffers_build_witness :
  let db := mkDb (Some demo_record) ∅ [] in
  let bad := Boot "1.2.0" true false [] in
  let ask := verify demo_vec demo_parse no_text no_text "1.2.0" "id" "linux" "x86_64" 100 (JBool true) None in
  result_ok (fst (ask db)) = Some (mkVerdict true "approved" "manifest passed all §3 gates" (Some "1.2.0"%string) (Some "00"%string)) /\
  fst (ask (run no_text demo_vec demo_parse no_text no_text db [bad; bad])) = fst (ask db).
Proof.
  split; [vm_compute; reflexivity|].
  apply (rollback_reoffers_build no_text demo_vec demo_parse no_text no_text demo_record ∅ "1.1.0" "1.2.0" true false);
    [exact demo_upgrade|reflexivity|reflexivity|reflexivity].
Defined.
