(* ===== verification/FlowRun.v ===== *)
(** * local/flow.rs: firing an automation

    [run_automation] over the tables of automations and executions: the gate of its root event, the guardrails, the execution row's
    life and the walk between. Tables are maps by id; the engine and the handlers change a world [W], whose clock is [utc_now], and not these
    tables. A statement can fail (see Store), a walk can be out of fuel, and the conversion of a cooldown can panic. *)

From Stdlib Require Import Ascii String.
From S2P Require Import Prelude Ints Str Json FlowExpr Store Flow.
Open Scope string_scope.
Open Scope Z_scope.

(** ** Data *)

(** The columns a dispatch reads. *)
Record Automation : Type := mkAutomation {
  a_id : Z;
  a_target_id : option Z;
  a_event_type : string;
  a_workflow_id : option Z;
  a_enabled : Z;
  a_priority : option Z;
  a_conditions : string;
  a_blocks : option string;
  a_last_triggered_at : option string;
  a_trigger_count : option Z;
}.

Record AutomationExecution : Type := mkExecution {
  e_id : Z;
  e_automation_id : Z;
  e_change_id : option Z;
  e_status : string;
  e_trigger_context : option string;
  e_action_results : string;
  e_triggered_at : string;
  e_completed_at : option string;
  e_error_message : option string;
}.

(** The event's name is only for the log. *)
Record FlowTrigger : Type := mkTrigger {
  t_change_id : option Z;
  t_base_inputs : json;
  t_context : json;
  t_source : RunSource;
  t_lane : Lane;
}.

Record State (W : Type) : Type := mkState {
  automations : gmap Z Automation;
  executions : gmap Z AutomationExecution;
  changes : gset Z;
  next_execution : Z;
  world : W;
  plan : list bool;
}.
Arguments mkState {W}. Arguments automations {W}. Arguments executions {W}. Arguments changes {W}.
Arguments next_execution {W}. Arguments world {W}. Arguments plan {W}.

#[export] Instance State_Faulty {W : Type} : Faulty (State W) := {|
  faults := plan;
  set_faults fs s := mkState (automations s) (executions s) (changes s) (next_execution s) (world s) fs;
|}.

Definition set_automations {W : Type} (m : gmap Z Automation) (s : State W) : State W :=
  mkState m (executions s) (changes s) (next_execution s) (world s) (plan s).
Definition set_executions {W : Type} (m : gmap Z AutomationExecution) (next : Z) (s : State W) : State W :=
  mkState (automations s) m (changes s) next (world s) (plan s).
Definition set_world {W : Type} (w : W) (s : State W) : State W :=
  mkState (automations s) (executions s) (changes s) (next_execution s) w (plan s).

(** [serde_json::from_str] of a value and of the derived blocks, chrono's parser, and SQLite's text of an instant, in
    nanoseconds since the epoch. *)
Class RunLibs (W : Type) : Type := {
  from_str : string -> option json;
  blocks_from_str : string -> option (list FlowBlock);
  parse_from_rfc3339 : string -> option Z;
  strftime : Z -> string;
  utc_now : W -> Z;
}.

(** How a call of the interpreter ends. *)
Inductive outcome (A : Type) : Type :=
| Returned (r : result A LocalError)
| Panicked
| OutOfFuel.
Arguments Returned {A}. Arguments Panicked {A}. Arguments OutOfFuel {A}.

Inductive Guard : Type := Passes | Blocks (reason : string) | Overflows.

#[export] Instance Guard_eq_dec : EqDecision Guard.
Proof. solve_decision. Defined.

Section run.
Context `{FlowLibs} {W : Type} `{FlowEnv W} `{RunLibs W}.

(** ** Blocks *)

Definition parse_blocks (blocks : option string) : list FlowBlock :=
  match blocks with
  | Some s => if is_empty (trim s) then [] else default [] (blocks_from_str s)
  | None => []
  end.

Definition executable (b : FlowBlock) : bool := str_eqb (kind b) "action" || str_eqb (kind b) "condition".

Definition has_executable_tree (blocks : option string) : bool := any executable (parse_blocks blocks).

Definition is_root (b : FlowBlock) : bool := bool_decide (parent_id b = None).

Definition root_event (blocks : list FlowBlock) : option FlowBlock :=
  find_first (fun b => str_eqb (kind b) "event" && is_root b) blocks.

(** ** Guardrails *)

(** [ChronoDuration::minutes] panics past the milliseconds of a 64-bit integer. *)
Definition MAX_SECONDS : Z := 9223372036854775.
Definition minutes (m : Z) : option Z := if MAX_SECONDS <? m * 60 then None else Some (m * 60 * 1000000000).

Definition conditions_of (auto : Automation) : json := default JNull (from_str (a_conditions auto)).
Definition max_fires (auto : Automation) : option Z := get (conditions_of auto) "max_fires" ≫= json_as_i64.
Definition cooldown_minutes (auto : Automation) : option Z :=
  (get (conditions_of auto) "schedule" ≫= (fun s => get s "cooldown_minutes")) ≫= json_as_i64.
Definition last_fire (auto : Automation) : option Z := a_last_triggered_at auto ≫= parse_from_rfc3339.
Definition fire_count (auto : Automation) : Z := default 0 (a_trigger_count auto).

Definition guardrail_block_reason (auto : Automation) (source : RunSource) (now : Z) : Guard :=
  if bool_decide (source = Manual) then Passes
  else
    let fires_reached := match max_fires auto with Some max => (0 <? max) && (max <=? fire_count auto) | None => false end in
    if fires_reached then Blocks "max_fires reached"
    else
      match cooldown_minutes auto with
      | Some cool =>
          if 0 <? cool then
            match last_fire auto with
            | Some last =>
                match minutes cool with
                | None => Overflows
                | Some d => if now - last <? d then Blocks "cooldown active" else Passes
                end
            | None => Passes
            end
          else Passes
      | None => Passes
      end.

(** ** store/automation_executions.rs *)

Definition get_execution (id : Z) : M (State W) (option AutomationExecution) := statement (fun s => (executions s !! id, s)).

(** The table's foreign keys are enforced. *)
Definition insert_execution (automation_id : Z) (change_id : option Z) (status trigger_context action_results : option string) :
    M (State W) AutomationExecution :=
  let! id := statement (fun s =>
    if bool_decide (is_Some (automations s !! automation_id)) &&
       match change_id with Some c => bool_decide (c ∈ changes s) | None => true end
    then let id := next_execution s in
         let row := mkExecution id automation_id change_id (default "pending" status) trigger_context
                      (default "[]" action_results) (strftime (utc_now (world s))) None None in
         (Some id, set_executions (<[id := row]> (executions s)) (id + 1) s)
    else (None, s)) in
  match id with
  | None => throw DbError
  | Some id =>
      let! row := get_execution id in
      match row with Some r => ret r | None => throw (NotFound ("automation_execution " ++ Z_to_string id)) end
  end.

Definition completed (status : string) (results : option string) (error : option string) (at_ : string) (r : AutomationExecution) :
    AutomationExecution :=
  mkExecution (e_id r) (e_automation_id r) (e_change_id r) status (e_trigger_context r)
    (default (e_action_results r) results) (e_triggered_at r) (Some at_) error.

Definition complete_execution (id : Z) (status : string) (results error : option string) :
    M (State W) (option AutomationExecution) :=
  let! affected := statement (fun s =>
    (bool_decide (is_Some (executions s !! id)),
     set_executions (alter (completed status results error (strftime (utc_now (world s)))) id (executions s)) (next_execution s) s)) in
  if affected : bool then get_execution id else ret None.

(** ** store/automations.rs *)

Definition fired (at_ : string) (a : Automation) : Automation :=
  mkAutomation (a_id a) (a_target_id a) (a_event_type a) (a_workflow_id a) (a_enabled a) (a_priority a)
    (a_conditions a) (a_blocks a) (Some at_) (Some (default 0 (a_trigger_count a) + 1)).

Definition mark_triggered (id : Z) : M (State W) bool :=
  statement (fun s =>
    (bool_decide (is_Some (automations s !! id)),
     set_automations (alter (fired (strftime (utc_now (world s)))) id (automations s)) s)).

(** ** The run *)

(** No blocks: the linked workflow. *)
Definition run_legacy (auto : Automation) (trigger : FlowTrigger) (w : W) : list json * W :=
  match a_workflow_id auto with
  | None => ([JObj [("action", JStr "noop"); ("detail", JStr "no workflow_id to run")]], w)
  | Some workflow_id =>
      let '(r, w) := engine_run (mkRequest workflow_id (t_base_inputs trigger) (t_source trigger) (t_lane trigger) false None true) w in
      (match r with
       | Ok res => [JObj [("action", JStr "workflow"); ("workflow_id", json_of_Z workflow_id); ("run_id", json_of_Z (run_id res));
                          ("ok", JBool (success res)); ("status", JStr (status_str (run_status res)));
                          ("error", opt_str (run_error res))]]
       | Err e => [JObj [("action", JStr "workflow"); ("workflow_id", json_of_Z workflow_id); ("ok", JBool false);
                         ("status", JStr "failed"); ("error", JStr (to_string e))]]
       end, w)
  end.

(** Each root's subtree starts from the trigger's scope. *)
Fixpoint walk_roots (fuel : nat) (ctx : FlowCtx) (roots : list FlowBlock) (scope : Scope) (w : W) : Walk (W := W) :=
  match roots with
  | [] => Some ([], w)
  | root :: roots =>
      walk_bind (run_subtree fuel ctx (block_id root) scope w) (fun out w => walk_prepend out (walk_roots fuel ctx roots scope w))
  end.

Definition run_results (fuel : nat) (auto : Automation) (trigger : FlowTrigger) (w : W) : Walk (W := W) :=
  let blocks := parse_blocks (a_blocks auto) in
  if any executable blocks then
    let scope := match t_context trigger with JObj m => m | _ => [] end in
    let ctx := mkCtx blocks (a_workflow_id auto) (t_base_inputs trigger) (t_source trigger) (t_lane trigger) in
    walk_roots fuel ctx (retain is_root blocks) scope w
  else Some (run_legacy auto trigger w).

(** The execution's terminal columns. *)
Definition record_error (r : json) : option string := if not_ok r then get r "error" ≫= json_as_str else None.
Definition first_error (results : list json) : option string := head (omap record_error results).
Definition final_status (results : list json) : string := if any not_ok results then "failed" else "success".

Definition gate_matches (auto : Automation) (trigger : FlowTrigger) : bool :=
  match root_event (parse_blocks (a_blocks auto)) with
  | Some ev => status_gate_matches (block_config ev) (t_context trigger)
  | None => true
  end.

Definition open_execution (auto : Automation) (trigger : FlowTrigger) : M (State W) AutomationExecution :=
  let! exec := insert_execution (a_id auto) (t_change_id trigger) (Some "running") (Some (json_text (t_context trigger))) None in
  attempt (mark_triggered (a_id auto)) ;! ret exec.

Definition run_automation (fuel : nat) (auto : Automation) (trigger : FlowTrigger) (s : State W) :
    outcome (option AutomationExecution) * State W :=
  if negb (gate_matches auto trigger) then (Returned (Ok None), s)
  else
    match guardrail_block_reason auto (t_source trigger) (utc_now (world s)) with
    | Overflows => (Panicked, s)
    | Blocks _ => (Returned (Ok None), s)
    | Passes =>
        match open_execution auto trigger s with
        | (Err e, s) => (Returned (Err e), s)
        | (Ok exec, s) =>
            match run_results fuel auto trigger (world s) with
            | None => (OutOfFuel, s)
            | Some (results, w) =>
                let '(r, s) := complete_execution (e_id exec) (final_status results) (Some (json_text (JArr results)))
                                 (first_error results) (set_world w s) in
                (Returned r, s)
            end
        end
    end.
End run.

(** ** Steps without a fault *)

Lemma alter_known {A : Type} (f : A -> A) (m : gmap Z A) (i : Z) (x : A) : m !! i = Some x -> alter f i m = <[i := f x]> m.
Proof.
  intros Hx. apply map_eq. intros j. destruct (decide (j = i)) as [->|Hj].
  - by rewrite lookup_alter_eq, lookup_insert_eq, Hx.
  - by rewrite lookup_alter_ne, lookup_insert_ne.
Qed.

Section clean.
Context `{FlowLibs} {W : Type} `{FlowEnv W} `{RunLibs W}.

Definition references_ok (auto : Automation) (trigger : FlowTrigger) (s : State W) : bool :=
  bool_decide (is_Some (automations s !! a_id auto)) &&
  match t_change_id trigger with Some c => bool_decide (c ∈ changes s) | None => true end.

Definition opened (auto : Automation) (trigger : FlowTrigger) (s : State W) : AutomationExecution :=
  mkExecution (next_execution s) (a_id auto) (t_change_id trigger) "running" (Some (json_text (t_context trigger))) "[]"
    (strftime (utc_now (world s))) None None.

(** The state with the row open and the fire counted. *)
Definition open_state (auto : Automation) (trigger : FlowTrigger) (s : State W) : State W :=
  set_automations (alter (fired (strftime (utc_now (world s)))) (a_id auto) (automations s))
    (set_executions (<[next_execution s := opened auto trigger s]> (executions s)) (next_execution s + 1) s).

Lemma statement_clean {A : Type} (f : State W -> A * State W) (s : State W) :
  plan s = [] -> statement f s = (Ok (fst (f s)), snd (f s)).
Proof. intros E. unfold statement. by apply faulted_clean. Qed.

Lemma insert_clean (auto : Automation) (trigger : FlowTrigger) (s : State W) : plan s = [] ->
  insert_execution (a_id auto) (t_change_id trigger) (Some "running") (Some (json_text (t_context trigger))) None s =
  if references_ok auto trigger s
  then (Ok (opened auto trigger s), set_executions (<[next_execution s := opened auto trigger s]> (executions s)) (next_execution s + 1) s)
  else (Err DbError, s).
Proof.
  intros E. unfold insert_execution, bind. rewrite statement_clean by done. cbv beta.
  fold (references_ok auto trigger s). destruct (references_ok auto trigger s); [|done]. cbn [fst snd].
  unfold get_execution. rewrite statement_clean by done. cbn [fst snd executions set_executions].
  by rewrite lookup_insert_eq.
Qed.

Lemma open_clean (auto : Automation) (trigger : FlowTrigger) (s : State W) : plan s = [] ->
  open_execution auto trigger s =
  if references_ok auto trigger s then (Ok (opened auto trigger s), open_state auto trigger s) else (Err DbError, s).
Proof.
  intros E. unfold open_execution. unfold bind at 1. rewrite insert_clean by done.
  destruct (references_ok auto trigger s); [|done]. unfold bind, attempt, mark_triggered.
  by rewrite statement_clean.
Qed.

Lemma complete_clean (id : Z) (status : string) (results error : option string) (s : State W) (r : AutomationExecution) :
  plan s = [] -> executions s !! id = Some r ->
  let r' := completed status results error (strftime (utc_now (world s))) r in
  complete_execution id status results error s =
    (Ok (Some r'), set_executions (<[id := r']> (executions s)) (next_execution s) s).
Proof.
  intros E Hr r'. unfold complete_execution, bind. rewrite statement_clean by done. cbn [fst snd].
  rewrite bool_decide_eq_true_2 by eauto. unfold get_execution. rewrite statement_clean by done.
  cbn [fst snd executions set_executions]. rewrite lookup_alter_eq, Hr. cbn.
  by rewrite (alter_known _ _ _ _ Hr).
Qed.

Lemma walk_roots_total (fuel : nat) (ctx : FlowCtx) (roots : list FlowBlock) (scope : Scope) : forall w : W,
  (forall root s w, root ∈ roots -> run_subtree fuel ctx (block_id root) s w <> None) -> walk_roots fuel ctx roots scope w <> None.
Proof.
  induction roots as [|root roots IH]; intros w Ht; [done|]. cbn [walk_roots].
  apply walk_bind_total; [apply Ht; by left|]. intros out w'. apply walk_prepend_total, IH.
  intros r s w1 Hr. apply Ht. by right.
Qed.

Lemma run_results_total (fuel : nat) (auto : Automation) (trigger : FlowTrigger) (w : W) :
  NoDup (block_id <$> parse_blocks (a_blocks auto)) -> (length (parse_blocks (a_blocks auto)) <= fuel)%nat ->
  run_results fuel auto trigger w <> None.
Proof.
  intros Hids Hf. unfold run_results. destruct (any executable _); [|done].
  apply walk_roots_total. intros root s w' Hr. apply elem_of_retain in Hr as [Hroot Hin].
  apply bool_decide_eq_true in Hroot. apply not_eq_None_Some.
  by apply (root_walk_total _ root).
Qed.
End clean.

(** ** Steps with faults *)

(** A statement either fails, or has its effect. *)
Lemma statement_cases {W A : Type} (f : State W -> A * State W) (s : State W) :
  (exists fs, statement f s = (Err DbError, set_faults fs s)) \/
  exists fs, statement f s = (Ok (fst (f (set_faults fs s))), snd (f (set_faults fs s))).
Proof.
  unfold statement, faulted. destruct (faults s) as [|[] fs] eqn:E.
  - right. exists []. replace (set_faults [] s) with s; [by destruct (f s)|]. destruct s. simpl in *. by subst.
  - left. by exists fs.
  - right. exists fs. by destruct (f _).
Qed.

Ltac case_statement :=
  match goal with |- context [statement ?f ?s] =>
    let fs := fresh "fs" in let E := fresh "E" in destruct (statement_cases f s) as [[fs E]|[fs E]]; rewrite E end.

Section faulty.
Context `{FlowLibs} {W : Type} `{FlowEnv W} `{RunLibs W}.

Lemma insert_cases (auto : Automation) (trigger : FlowTrigger) (s : State W) :
  match insert_execution (a_id auto) (t_change_id trigger) (Some "running") (Some (json_text (t_context trigger))) None s with
  | (Ok row, s') => row = opened auto trigger s /\
      exists fs, s' = set_faults fs (set_executions (<[next_execution s := row]> (executions s)) (next_execution s + 1) s)
  | (Err e, s') => e = DbError /\ exists fs, s' = set_faults fs s \/
      s' = set_faults fs (set_executions (<[next_execution s := opened auto trigger s]> (executions s)) (next_execution s + 1) s)
  end.
Proof.
  unfold insert_execution, bind at 1.
  case_statement; [split; [done|]; exists fs; by left|].
  cbv beta. destruct (_ && _); [|split; [done|]; exists fs; by left].
  cbn [fst snd]. unfold get_execution, bind.
  case_statement; [split; [done|]; exists fs0; by right|].
  cbn [fst snd executions set_faults State_Faulty set_executions next_execution]. rewrite lookup_insert_eq.
  split; [done|]. by exists fs0.
Qed.

Lemma open_cases (auto : Automation) (trigger : FlowTrigger) (s : State W) :
  match open_execution auto trigger s with
  | (Ok row, s') => row = opened auto trigger s /\
      executions s' = <[next_execution s := row]> (executions s) /\ world s' = world s /\
      (automations s' = automations s \/ automations s' = automations (open_state auto trigger s))
  | (Err e, s') => e = DbError /\ world s' = world s /\ automations s' = automations s /\
      (executions s' = executions s \/ executions s' = <[next_execution s := opened auto trigger s]> (executions s))
  end.
Proof.
  unfold open_execution, bind at 1. pose proof (insert_cases auto trigger s) as Hi.
  destruct (insert_execution _ _ _ _ _ s) as [[row|e] s1].
  - destruct Hi as [-> [fs ->]]. unfold bind, attempt, mark_triggered.
    case_statement; cbn; split_and!; auto.
  - destruct Hi as [-> [fs [-> | ->]]]; cbn; auto.
Qed.

Lemma complete_cases (id : Z) (status : string) (results error : option string) (s : State W) (r : AutomationExecution) :
  executions s !! id = Some r ->
  let r' := completed status results error (strftime (utc_now (world s))) r in
  let '(res, s') := complete_execution id status results error s in
  automations s' = automations s /\ world s' = world s /\
  ((executions s' = executions s /\ res = Err DbError) \/
   (executions s' = <[id := r']> (executions s) /\ (res = Err DbError \/ res = Ok (Some r')))).
Proof.
  intros Hr r'. unfold complete_execution, bind.
  case_statement; [cbn; split_and!; auto|].
  cbn [fst snd]. rewrite bool_decide_eq_true_2 by (cbn; eauto). unfold get_execution.
  rewrite (alter_known _ _ _ _ Hr).
  case_statement; cbn; [split_and!; auto|].
  rewrite ?(alter_known _ _ _ _ Hr), lookup_insert_eq. split_and!; auto.
Qed.

(** What one call may change, whatever fails. *)
Definition recorded (auto : Automation) (trigger : FlowTrigger) (s s' : State W) (row : AutomationExecution) : Prop :=
  gate_matches auto trigger = true /\ guardrail_block_reason auto (t_source trigger) (utc_now (world s)) = Passes /\
  e_automation_id row = a_id auto /\ e_triggered_at row = strftime (utc_now (world s)) /\
  executions s' = <[next_execution s := row]> (executions s) /\
  (automations s' = automations s \/ automations s' = automations (open_state auto trigger s)).

Lemma run_cases (fuel : nat) (auto : Automation) (trigger : FlowTrigger) (s : State W) :
  let '(o, s') := run_automation fuel auto trigger s in
  (executions s' = executions s /\ automations s' = automations s /\ world s' = world s /\
     (o = Panicked \/ o = Returned (Ok None) \/ o = Returned (Err DbError))) \/
  exists row, recorded auto trigger s s' row /\
    ((row = opened auto trigger s /\ (o = OutOfFuel \/ o = Returned (Err DbError))) \/
     (exists results, run_results fuel auto trigger (world s) = Some (results, world s') /\ e_status row = final_status results /\
        e_error_message row = first_error results /\ is_Some (e_completed_at row) /\
        (o = Returned (Ok (Some row)) \/ o = Returned (Err DbError)))).
Proof.
  unfold run_automation. destruct (gate_matches auto trigger) eqn:Eg; [|left; split_and!; auto]. cbn [negb].
  destruct (guardrail_block_reason _ _ _) eqn:Eb; [|left; split_and!; auto|left; split_and!; auto].
  pose proof (open_cases auto trigger s) as Ho. destruct (open_execution auto trigger s) as [[row|e] s1].
  - destruct Ho as (-> & He & Hw & Ha). rewrite Hw.
    destruct (run_results fuel auto trigger (world s)) as [[results w]|] eqn:Er.
    + assert (Hl : executions (set_world w s1) !! next_execution s = Some (opened auto trigger s)) by (cbn; rewrite He; apply lookup_insert_eq).
      pose proof (complete_cases _ (final_status results) (Some (json_text (JArr results))) (first_error results) _ _ Hl) as Hc.
      change (e_id (opened auto trigger s)) with (next_execution s).
      destruct (complete_execution _ _ _ _ _) as [r s2]. destruct Hc as (Ha2 & Hw2 & Hc). cbn in Ha2, Hw2, Hc. rewrite He in Hc. right.
      destruct Hc as [[He2 ->]|[He2 Hr]].
      * exists (opened auto trigger s). split; [|auto]. unfold recorded. rewrite Ha2. by split_and!.
      * rewrite insert_insert_eq in He2. eexists. split; [|right; exists results].
        { unfold recorded. rewrite Ha2. split_and!; [done|done| | |exact He2|done]; done. }
        rewrite Hw2. split_and!; [done..|by eexists|]. destruct Hr as [-> | ->]; auto.
    + right. exists (opened auto trigger s). split; [|auto]. by split_and!.
  - destruct Ho as (-> & Hw & Ha & [He|He]).
    + left. split_and!; auto.
    + right. exists (opened auto trigger s). split; [|auto]. split_and!; auto.
Qed.
End faulty.

Section clean_run.
Context `{FlowLibs} {W : Type} `{FlowEnv W} `{RunLibs W}.

(** Without faults a call either leaves the tables, or opens a row and counts the fire. *)
Definition fires_now (auto : Automation) (trigger : FlowTrigger) (s s' : State W) : Prop :=
  guardrail_block_reason auto (t_source trigger) (utc_now (world s)) = Passes /\
  exists row, e_automation_id row = a_id auto /\ e_triggered_at row = strftime (utc_now (world s)) /\
    executions s' = <[next_execution s := row]> (executions s) /\ next_execution s' = next_execution s + 1 /\
    automations s' = alter (fired (strftime (utc_now (world s)))) (a_id auto) (automations s).

Lemma run_clean (fuel : nat) (auto : Automation) (trigger : FlowTrigger) (s : State W) : plan s = [] ->
  let s' := snd (run_automation fuel auto trigger s) in
  plan s' = [] /\
  ((executions s' = executions s /\ automations s' = automations s /\ next_execution s' = next_execution s) \/
   fires_now auto trigger s s').
Proof.
  intros Ep. unfold run_automation. destruct (gate_matches auto trigger); [|cbn; auto]. cbn [negb].
  destruct (guardrail_block_reason _ _ _) eqn:Eb; [|cbn; auto|cbn; auto].
  rewrite open_clean by done. destruct (references_ok auto trigger s); [|cbn; auto].
  change (world (open_state auto trigger s)) with (world s).
  destruct (run_results fuel auto trigger (world s)) as [[results w]|].
  - rewrite (complete_clean _ _ _ _ (set_world w (open_state auto trigger s)) (opened auto trigger s)) by (done || apply lookup_insert_eq).
    cbn. split; [done|]. right. split; [done|]. rewrite insert_insert_eq. eexists. split_and!; [| |done..]; done.
  - cbn. split; [done|]. right. split; [done|]. exists (opened auto trigger s). by split_and!.
Qed.
End clean_run.

Section run_world.
Context `{FlowLibs} {W : Type} `{FlowEnv W} `{RunLibs W} (R : W -> W -> Prop) `{!PreOrder R}.

Lemma keeps_roots (fuel : nat) (ctx : FlowCtx) (scope : Scope) (roots : list FlowBlock) : handlers_keep R (source ctx) ->
  forall w, walk_keeps R w (walk_roots fuel ctx roots scope w).
Proof.
  intros keep. induction roots as [|root roots IH]; intros w; cbn [walk_roots]; [by apply keeps_walk_some|].
  apply keeps_walk_bind; [done|by apply keeps_subtree|]. intros out w'. by apply keeps_walk_prepend.
Qed.

Lemma keeps_results (fuel : nat) (auto : Automation) (trigger : FlowTrigger) (w : W) : handlers_keep R (t_source trigger) ->
  walk_keeps R w (run_results fuel auto trigger w).
Proof.
  intros keep. unfold run_results. destruct (any executable _); [by apply keeps_roots|].
  unfold run_legacy. destruct (a_workflow_id auto) as [wid|]; [|by apply keeps_walk_some].
  match goal with |- context [engine_run ?req w] => pose proof (keep_engine _ _ keep req w eq_refl) as Hw; destruct (engine_run req w) end.
  done.
Qed.

Lemma run_world (fuel : nat) (auto : Automation) (trigger : FlowTrigger) (s : State W) : handlers_keep R (t_source trigger) ->
  R (world s) (world (snd (run_automation fuel auto trigger s))).
Proof.
  intros keep. pose proof (keeps_results fuel auto trigger (world s) keep) as Hk.
  unfold run_automation in *. destruct (negb _); [reflexivity|]. destruct (guardrail_block_reason _ _ _); [|reflexivity|reflexivity].
  pose proof (open_cases auto trigger s) as Ho. destruct (open_execution auto trigger s) as [[row|e] s1].
  - destruct Ho as (-> & He & Hw & _). rewrite Hw in *. destruct (run_results _ _ _ _) as [[results w]|]; [|cbn; by rewrite Hw].
    assert (Hl : executions (set_world w s1) !! next_execution s = Some (opened auto trigger s)) by (cbn; rewrite He; apply lookup_insert_eq).
    pose proof (complete_cases _ (final_status results) (Some (json_text (JArr results))) (first_error results) _ _ Hl) as Hcc.
    change (e_id (opened auto trigger s)) with (next_execution s) in *.
    destruct (complete_execution _ _ _ _ _) as [r s2]. destruct Hcc as (_ & Hw2 & _). cbn. by rewrite Hw2.
  - destruct Ho as (_ & Hw & _). cbn. by rewrite Hw.
Qed.
End run_world.

(** ** What a call does *)

Section theorems.
Context `{FlowLibs} {W : Type} `{FlowEnv W} `{RunLibs W}.

(** Work is recorded, whatever statements fail and whether or not the walk ends: a call that changes the world, or never
    returns, has passed the gate and the guardrails and left an execution row of its automation; a row it returns is that one, is
    stored, and is complete, failed exactly if some record is not ok; an error is a failed statement; and
    no other row of either table changes. *)
Theorem work_is_recorded (fuel : nat) (auto : Automation) (trigger : FlowTrigger) (s : State W) :
  let '(o, s') := run_automation fuel auto trigger s in
  (world s' <> world s \/ o = OutOfFuel ->
     gate_matches auto trigger = true /\ guardrail_block_reason auto (t_source trigger) (utc_now (world s)) = Passes /\
     exists row, executions s' !! next_execution s = Some row /\ e_automation_id row = a_id auto) /\
  (forall row, o = Returned (Ok (Some row)) ->
     executions s' !! next_execution s = Some row /\ is_Some (e_completed_at row) /\
     exists results, run_results fuel auto trigger (world s) = Some (results, world s') /\
       e_status row = (if any not_ok results then "failed" else "success")) /\
  (forall e, o = Returned (Err e) -> e = DbError) /\
  (forall id, id <> next_execution s -> executions s' !! id = executions s !! id) /\
  (forall id, id <> a_id auto -> automations s' !! id = automations s !! id).
Proof.
  pose proof (run_cases fuel auto trigger s) as Hc. destruct (run_automation fuel auto trigger s) as [o s'].
  destruct Hc as [(He & Ha & Hw & Ho)|(row & (Hg & Hp & Hid & _ & He & Ha) & Hr)].
  { rewrite He, Ha, Hw. destruct Ho as [-> |[-> | ->]]; split_and!; naive_solver. }
  rewrite He. split_and!.
  - intros _. split_and!; [done..|]. exists row. by rewrite lookup_insert_eq.
  - intros row' ->. rewrite lookup_insert_eq. destruct Hr as [[_ [?|?]]|(results & Hr & Hs & _ & Hc & [Ho|Ho])]; simplify_eq.
    split_and!; [done..|]. by exists results.
  - intros e ->. destruct Hr as [[_ [?|?]]|(results & _ & _ & _ & _ & [Ho|Ho])]; by simplify_eq.
  - intros id Hne. by rewrite lookup_insert_ne.
  - intros id Hne. destruct Ha as [-> | ->]; [done|]. cbn. by rewrite lookup_alter_ne.
Qed.

Lemma first_error_spec (results : list json) (m : string) : first_error results = Some m ->
  exists pre r post, results = (pre ++ r :: post)%list /\ record_error r = Some m /\ forall q, q ∈ pre -> record_error q = None.
Proof.
  unfold first_error. induction results as [|r results IH]; [done|]. simpl. destruct (record_error r) as [m'|] eqn:Er; simpl.
  - intros [= ->]. exists [], r, results. split_and!; [done..|]. intros q Hq. by apply elem_of_nil in Hq.
  - intros Hm. destruct (IH Hm) as (pre & r' & post & -> & Hr' & Hpre). exists (r :: pre), r', post. split_and!; [done..|].
    intros q [->|Hq]%elem_of_cons; auto.
Qed.

(** One firing when no statement fails and block ids are distinct: a gate or a guardrail that does not pass returns nothing and changes
    nothing; otherwise the call returns the one new row, complete, the automation counts one more fire at the row's time, and the row
    is failed exactly if some record is not ok, with the message of the first record that has one. *)
Theorem firing_outcome (fuel : nat) (auto : Automation) (trigger : FlowTrigger) (s : State W) :
  plan s = [] -> references_ok auto trigger s = true ->
  NoDup (block_id <$> parse_blocks (a_blocks auto)) -> (length (parse_blocks (a_blocks auto)) <= fuel)%nat ->
  guardrail_block_reason auto (t_source trigger) (utc_now (world s)) <> Overflows ->
  if gate_matches auto trigger && bool_decide (guardrail_block_reason auto (t_source trigger) (utc_now (world s)) = Passes)
  then exists results row s',
    run_automation fuel auto trigger s = (Returned (Ok (Some row)), s') /\
    run_results fuel auto trigger (world s) = Some (results, world s') /\
    executions s' = <[next_execution s := row]> (executions s) /\ next_execution s' = next_execution s + 1 /\
    automations s' = alter (fired (e_triggered_at row)) (a_id auto) (automations s) /\
    e_triggered_at row = strftime (utc_now (world s)) /\ e_completed_at row = Some (strftime (utc_now (world s'))) /\
    e_status row = (if any not_ok results then "failed" else "success") /\
    (forall m, e_error_message row = Some m -> exists pre r post, results = (pre ++ r :: post)%list /\
       not_ok r = true /\ get r "error" = Some (JStr m) /\ forall q, q ∈ pre -> record_error q = None)
  else run_automation fuel auto trigger s = (Returned (Ok None), s).
Proof.
  intros Ep Href Hids Hf Hov. unfold run_automation. destruct (gate_matches auto trigger); [|done]. cbn [negb andb].
  destruct (guardrail_block_reason _ _ _) eqn:Eb; [|by rewrite bool_decide_eq_false_2|done].
  rewrite bool_decide_eq_true_2 by done. rewrite open_clean, Href by done.
  destruct (run_results fuel auto trigger (world s)) as [[results w]|] eqn:Er; [|by apply run_results_total in Er].
  change (world (open_state auto trigger s)) with (world s). rewrite Er.
  rewrite (complete_clean _ _ _ _ (set_world w (open_state auto trigger s)) (opened auto trigger s)) by (done || apply lookup_insert_eq).
  eexists results, _, _. split; [reflexivity|]. cbn. rewrite insert_insert_eq. split_and!; try done.
  intros m Hm. destruct (first_error_spec results m Hm) as (pre & r & post & -> & Hr & Hpre). exists pre, r, post.
  unfold record_error in Hr. destruct (not_ok r); [|done]. split_and!; try done.
  destruct (get r "error") as [[]|]; simplify_eq/=; done.
Qed.
End theorems.

(** ** Examples *)

(** Texts that stand for their values, decimal instants in milliseconds, and a clock of a minute a run. *)
#[export] Instance demo_run : RunLibs Z := {|
  from_str := fun s =>
    if str_eqb s "once" then Some (JObj [("max_fires", json_of_Z 1)])
    else if str_eqb s "endless" then Some (JObj [("schedule", JObj [("cooldown_minutes", json_of_Z (2 ^ 60))])])
    else None;
  blocks_from_str := fun s => if str_eqb s "tree" then Some demo_blocks else None;
  parse_from_rfc3339 := fun s => (fun ms => ms * 1000000) <$> parse_i64 s;
  strftime := fun t => Z_to_string (t / 1000000);
  utc_now := fun n => n * 60000000000;
|}.

Definition demo_auto (conditions : string) (last : option string) : Automation :=
  mkAutomation 1 None "webhook_received" None 1 None conditions (Some "tree") last None.
Definition demo_trigger : FlowTrigger := mkTrigger None (JObj []) (JObj [("n", json_of_Z 4)]) Webhook Background.
Definition demo_state (auto : Automation) (fs : list bool) : State Z := mkState {[1 := auto]} ∅ ∅ 1 0 fs.

Lemma firing_outcome_witness :
  exists row s', run_automation 5 (demo_auto "once" None) demo_trigger (demo_state (demo_auto "once" None) []) = (Returned (Ok (Some row)), s') /\
    e_status row = "success" /\ (a_trigger_count <$> automations s' !! 1) = Some (Some 1).
Proof.
  pose proof (firing_outcome 5 (demo_auto "once" None) demo_trigger (demo_state (demo_auto "once" None) []) eq_refl eq_refl) as Hf.
  destruct Hf as (results & row & s' & Hr & Hw & _ & _ & Ha & _ & _ & Hs & _).
  - apply (bool_decide_unpack _). vm_compute. exact I.
  - vm_compute. lia.
  - vm_compute. discriminate.
  - exists row, s'. split; [exact Hr|]. split; [|by rewrite Ha].
    rewrite Hs. vm_compute in Hw. by injection Hw as <- _.
Defined.

(** The count of fires is written after the row, and its error is dropped: [max_fires] of one, two runs. *)
Example lost_mark_fires_again :
  let auto := demo_auto "once" None in
  let s0 := demo_state auto [false; false; true] in
  let s1 := snd (run_automation 5 auto demo_trigger s0) in
  let s2 := match automations s1 !! 1 with Some row => snd (run_automation 5 row demo_trigger s1) | None => s1 end in
  size (executions s2) = 2%nat /\ (a_trigger_count <$> automations s2 !! 1) = Some (Some 1).
Proof. vm_compute. split; reflexivity. Qed.

(** The guardrails read the row the caller loaded: two dispatches that load before either marks both run. *)
Example stale_row_fires_again :
  let auto := demo_auto "once" None in
  let s1 := snd (run_automation 5 auto demo_trigger (demo_state auto [])) in
  let s2 := snd (run_automation 5 auto demo_trigger s1) in
  size (executions s2) = 2%nat /\ (a_trigger_count <$> automations s2 !! 1) = Some (Some 2).
Proof. vm_compute. split; reflexivity. Qed.

(** A cooldown over 2^63 milliseconds panics from the second fire on. *)
Example huge_cooldown_panics :
  fst (run_automation 5 (demo_auto "endless" (Some "0")) demo_trigger (demo_state (demo_auto "endless" (Some "0")) [])) = Panicked.
Proof. vm_compute. reflexivity. Qed.
