(* ===== verification/Dispatch.v ===== *)
(** * Dispatching automations: monitor/runner.rs, engine/flow_events.rs, engine/streaming.rs, ai/run.rs, scheduler/scheduled_automations.rs

    Each source of events loads the enabled automations of its event once and fires those it selects, in order. A pass
    runs alone: rows loaded at its start are current until each one's turn. The event engine logs the events it
    spawns, each of which is a later pass. [build_change_context] and the events' contexts are arguments. *)

From Stdlib Require Import Ascii String.
From S2P Require Import Prelude Ints F64 Str Json FlowExpr Store Flow FlowRun Clamp.
From S2P Require Recurrence.
Open Scope string_scope.
Open Scope Z_scope.

(** ** Loading *)

(** [priority DESC, id ASC]; SQLite orders NULL first. *)
Definition dispatch_le (a b : Automation) : bool :=
  match a_priority a, a_priority b with
  | None, Some _ => false
  | Some _, None => true
  | None, None => a_id a <=? a_id b
  | Some p, Some q => (q <? p) || ((p =? q) && (a_id a <=? a_id b))
  end.

(** SQLite's LIMIT: none when negative. *)
Definition sql_limit {A : Type} (limit : Z) (l : list A) : list A := if limit <? 0 then l else take (Z.to_nat limit) l.

Record DispatchOutcome : Type := mkOutcome { matched : Z; succeeded : Z; failed : Z }.
Definition no_dispatch : DispatchOutcome := mkOutcome 0 0 0.

Inductive CheckStatus : Type := Unchanged | Changed | CheckError | CheckTimeout | Skipped.

Record ScheduledAutomationReport : Type := mkReport { considered : Z; dispatched : Z; r_failed : Z }.

Definition EVENT_CHANGE_DETECTED : string := "change_detected".
Definition EVENT_MONITOR_DOWN : string := "monitor_down".
Definition EVENT_MONITOR_RECOVERED : string := "monitor_recovered".
Definition EVENT_MONITOR_STALE : string := "monitor_stale".

Section dispatch.
Context `{FlowLibs} {W : Type} `{FlowEnv W} `{RunLibs W}.

Definition list_enabled_for_event (event : string) (limit : Z) : M (State W) (list Automation) :=
  statement (fun s =>
    (sql_limit limit (sort_by dispatch_le
      (retain (fun a => (a_enabled a =? 1) && str_eqb (a_event_type a) event) (map_to_list (automations s)).*2)), s)).

(** Fire each in turn; a panic or a walk that does not end stops the loop. *)
Fixpoint run_each {T : Type} (fuel : nat) (trigger : FlowTrigger)
    (tally : T -> result (option AutomationExecution) LocalError -> T) (autos : list Automation) (acc : T) (s : State W) :
    outcome T * State W :=
  match autos with
  | [] => (Returned (Ok acc), s)
  | auto :: autos =>
      match run_automation fuel auto trigger s with
      | (Returned r, s) => run_each fuel trigger tally autos (tally acc r) s
      | (Panicked, s) => (Panicked, s)
      | (OutOfFuel, s) => (OutOfFuel, s)
      end
  end.

(** Load, select, fire. *)
Definition dispatch {T : Type} (fuel : nat) (event : string) (limit : Z) (select : Automation -> bool) (trigger : FlowTrigger)
    (start : list Automation -> T) (tally : T -> result (option AutomationExecution) LocalError -> T) (s : State W) :
    outcome T * State W :=
  match list_enabled_for_event event limit s with
  | (Err e, s) => (Returned (Err e), s)
  | (Ok all, s) => let chosen := retain select all in run_each fuel trigger tally chosen (start all) s
  end.

(** ** monitor/runner.rs *)

Definition tally_outcome (out : DispatchOutcome) (r : result (option AutomationExecution) LocalError) : DispatchOutcome :=
  match r with
  | Ok (Some exec) =>
      if str_eqb (e_status exec) "failed" then mkOutcome (matched out) (succeeded out) (failed out + 1)
      else mkOutcome (matched out) (succeeded out + 1) (failed out)
  | Ok None => mkOutcome (matched out) (succeeded out + 1) (failed out)
  | Err _ => mkOutcome (matched out) (succeeded out) (failed out + 1)
  end.

Definition on_target (target_id : Z) (a : Automation) : bool := bool_decide (a_target_id a = Some target_id).

(** A failed load is an empty outcome. *)
Definition or_none (r : outcome DispatchOutcome * State W) : outcome DispatchOutcome * State W :=
  match r with (Returned (Err _), s) => (Returned (Ok no_dispatch), s) | r => r end.

Definition dispatch_to_target (fuel : nat) (event : string) (target_id : Z) (trigger : FlowTrigger) (s : State W) :
    outcome DispatchOutcome * State W :=
  or_none (dispatch fuel event 256 (on_target target_id) trigger
    (fun all => mkOutcome (Z.of_nat (length (retain (on_target target_id) all))) 0 0) tally_outcome s).

Definition dispatch_change_automations (fuel : nat) (target_id : Z) (change_id : option Z) (context : json) :
    State W -> outcome DispatchOutcome * State W :=
  dispatch_to_target fuel EVENT_CHANGE_DETECTED target_id (mkTrigger change_id (JObj []) context Monitor Background).

Definition build_health_context (target_id : Z) (url event : string) : json :=
  JObj [("event", JStr event); ("target_id", json_of_Z target_id); ("target_name", JStr url); ("url", JStr url);
        ("state", JStr (if str_eqb event EVENT_MONITOR_RECOVERED then "ok" else if str_eqb event EVENT_MONITOR_STALE then "stale" else "down"))].

Definition dispatch_health_automations (fuel : nat) (target_id : Z) (url event : string) :
    State W -> outcome DispatchOutcome * State W :=
  dispatch_to_target fuel event target_id (mkTrigger None (JObj []) (build_health_context target_id url event) Monitor Background).

Definition one_of (s : string) (l : list string) : bool := any (str_eqb s) l.

Definition classify_health_edge (prior : option string) (status : CheckStatus) : option string :=
  let now_unhealthy := match status with CheckError | CheckTimeout => true | _ => false end in
  let now_healthy := match status with Changed | Unchanged => true | _ => false end in
  let prior_healthy := match prior with Some p => one_of p ["unchanged"; "changed"; "up"; "ok"] | None => false end in
  let prior_unhealthy := match prior with Some p => one_of p ["error"; "down"; "stale"] | None => false end in
  if now_unhealthy && prior_healthy then Some EVENT_MONITOR_DOWN
  else if now_healthy && prior_unhealthy then Some EVENT_MONITOR_RECOVERED
  else None.

Definition maybe_dispatch_health_edge (fuel : nat) (target_id : Z) (url : string) (prior : option string) (status : CheckStatus)
    (s : State W) : outcome unit * State W :=
  match classify_health_edge prior status with
  | None => (Returned (Ok tt), s)
  | Some event =>
      match dispatch_health_automations fuel target_id url event s with
      | (Returned _, s) => (Returned (Ok tt), s)
      | (Panicked, s) => (Panicked, s)
      | (OutOfFuel, s) => (OutOfFuel, s)
      end
  end.

(** ** Workflow, streaming and AI session events *)

Definition watches_workflow (auto_workflow_id : option Z) (workflow_id : Z) : bool :=
  bool_decide (auto_workflow_id = None) || bool_decide (auto_workflow_id = Some workflow_id).

Definition has_tree (a : Automation) : bool := has_executable_tree (a_blocks a).

Definition event_trigger (context : json) : FlowTrigger := mkTrigger None (JObj []) context Workflow Background.

(** Errors are logged. *)
Definition fire_all (fuel : nat) (event : string) (watches : Automation -> bool) (context : json) (s : State W) : outcome unit * State W :=
  match dispatch fuel event 256 (fun a => watches a && has_tree a) (event_trigger context) (fun _ => tt) (fun _ _ => tt) s with
  | (Returned _, s) => (Returned (Ok tt), s)
  | r => r
  end.

Definition fire_event (fuel : nat) (event : string) (workflow_id : Z) (context : json) : State W -> outcome unit * State W :=
  fire_all fuel event (fun a => watches_workflow (a_workflow_id a) workflow_id) context.

Definition fire_streaming_event (fuel : nat) (event : string) (workflow_id : Z) (context : json) : State W -> outcome unit * State W :=
  fire_all fuel event (fun a => match a_workflow_id a with Some wid => wid =? workflow_id | None => true end) context.

Definition fire_ai_session_event (fuel : nat) (event : string) (workflow_id : option Z) (context : json) :
    State W -> outcome unit * State W :=
  fire_all fuel event (fun a => match a_workflow_id a with Some wid => bool_decide (Some wid = workflow_id) | None => true end) context.

(** ** scheduler/scheduled_automations.rs *)

(** The root of the tree, as the lane reads it. *)
Definition scheduled_root (b : json) : bool :=
  bool_decide (get b "type" ≫= json_as_str = Some "event") &&
  match get b "parentId" with Some v => is_null v | None => true end.

Definition scheduled_recurrence (auto : Automation) : option Recurrence.Recurrence :=
  match a_blocks auto with
  | None => None
  | Some text =>
      match from_str (trim text) ≫= json_as_array with
      | None => None
      | Some arr =>
          match find_first scheduled_root arr with
          | None => None
          | Some root =>
              if bool_decide (get root "blockType" ≫= json_as_str = Some "scheduled") then
                let r := Recurrence.from_block_config (default JNull (get root "config")) in
                Some match Recurrence.kind r with
                     | Recurrence.Interval =>
                         Recurrence.mkRecurrence (Recurrence.kind r) (clamp_workflow_interval_ms (Some (Recurrence.interval_ms r)))
                           (Recurrence.time r) (Recurrence.days r) (Recurrence.tz r)
                     | _ => r
                     end
              else None
          end
      end
  end.

Definition tally_report (rep : ScheduledAutomationReport) (r : result (option AutomationExecution) LocalError) : ScheduledAutomationReport :=
  match r with
  | Ok _ => mkReport (considered rep) (dispatched rep + 1) (r_failed rep)
  | Err _ => mkReport (considered rep) (dispatched rep) (r_failed rep + 1)
  end.

Definition dispatch_due_scheduled_automations {Tz : Type} `{!Recurrence.Calendar Tz} (fuel : nat) (now scheduled_batch_limit : Z)
    (s : State W) : outcome ScheduledAutomationReport * State W :=
  let due a := match scheduled_recurrence a with
               | Some r => Recurrence.is_due parse_from_rfc3339 (utc_now (world s)) r (a_last_triggered_at a) now
               | None => false
               end in
  dispatch fuel "scheduled" scheduled_batch_limit (fun a => due a && has_tree a)
    (mkTrigger None (JObj []) (JObj [("event", JStr "scheduled")]) Scheduled Background)
    (fun all => mkReport (Z.of_nat (length (retain (fun a => bool_decide (is_Some (scheduled_recurrence a))) all))) 0 0)
    tally_report s.
End dispatch.

(** ** engine/flow_events.rs: the event engine *)

Record Spawned : Type := mkSpawned { sp_event : string; sp_workflow : Z; sp_context : json }.

Definition started_event (workflow_id : Z) : Spawned :=
  mkSpawned "workflow_started" workflow_id (JObj [("event", JStr "workflow_started"); ("workflow_id", json_of_Z workflow_id)]).

Definition completed_event (workflow_id : Z) (result : RunResult) : Spawned :=
  mkSpawned "workflow_completed" workflow_id (JObj [
    ("event", JStr "workflow_completed"); ("workflow_id", json_of_Z workflow_id); ("success", JBool (success result));
    ("status", JStr (status_str (run_status result))); ("error", opt_str (run_error result)); ("result", extracted_data result);
    ("workflow_duration_seconds", JNum (Float (f64_div (f64_of_Z (duration_ms result)) (f64_of_Z 1000))))]).

(** [run]: the inner run, then the events it spawns; the handlers are the inner engine's. *)
Definition event_engine {W : Type} (inner : FlowEnv W) : FlowEnv (W * list Spawned) := {|
  engine_run := fun req '(w, log) =>
    let fire := negb (bool_decide (r_source req = Workflow)) && (0 <? r_workflow_id req) in
    match engine_run req w with
    | (Ok result, w) =>
        (Ok result, (w, if fire then (log ++ [started_event (r_workflow_id req); completed_event (r_workflow_id req) result])%list else log))
    | (Err e, w) => (Err e, (w, log))
    end;
  run_notification_action := fun b s '(w, log) => let '(r, w) := run_notification_action b s w in (r, (w, log));
  run_send_file_action := fun b s '(w, log) => let '(r, w) := run_send_file_action b s w in (r, (w, log));
  run_export_to_file_action := fun b s '(w, log) => let '(r, w) := run_export_to_file_action b s w in (r, (w, log));
  run_streaming_action := fun b s '(w, log) => let '(r, w) := run_streaming_action b s w in (r, (w, log));
  run_ai_session_action := fun b s '(w, log) => let '(r, w) := run_ai_session_action b s w in (r, (w, log));
|}.

(** ** Passes keep invariants *)

Section passes.
Context `{FlowLibs} {W : Type} `{FlowEnv W} `{RunLibs W}.

Lemma run_frame (fuel : nat) (auto : Automation) (trigger : FlowTrigger) (s : State W) (id : Z) :
  id <> a_id auto -> automations (snd (run_automation fuel auto trigger s)) !! id = automations s !! id.
Proof.
  intros Hne. pose proof (run_cases fuel auto trigger s) as Hc. destruct (run_automation fuel auto trigger s) as [o s'].
  cbn [snd]. destruct Hc as [(_ & -> & _)|(row & (_ & _ & _ & _ & _ & [-> | ->]) & _)]; [done..|]. cbn. by rewrite lookup_alter_ne.
Qed.

(** Rows a pass has not reached are current. *)
Lemma run_each_inv {T : Type} (I : State W -> Prop) (fuel : nat) (trigger : FlowTrigger)
    (tally : T -> result (option AutomationExecution) LocalError -> T) (autos : list Automation) : forall (acc : T) (s : State W),
  NoDup (a_id <$> autos) -> (forall auto, auto ∈ autos -> automations s !! a_id auto = Some auto) ->
  (forall auto s, auto ∈ autos -> I s -> automations s !! a_id auto = Some auto -> I (snd (run_automation fuel auto trigger s))) ->
  I s -> I (snd (run_each fuel trigger tally autos acc s)).
Proof.
  induction autos as [|auto autos IH]; intros acc s Hnd Hcur Hstep Hs; [done|]. cbn [run_each].
  rewrite fmap_cons in Hnd. apply NoDup_cons in Hnd as [Hnot Hnd].
  assert (Hs' : I (snd (run_automation fuel auto trigger s))) by (apply Hstep; [by left|done|apply Hcur; by left]).
  assert (Hcur' : forall x, x ∈ autos -> automations (snd (run_automation fuel auto trigger s)) !! a_id x = Some x).
  { intros x Hx. rewrite run_frame; [apply Hcur; by right|]. intros E. apply Hnot. rewrite <-E. by apply list_elem_of_fmap_2. }
  destruct (run_automation fuel auto trigger s) as [[r| |] s1]; cbn [snd] in *; [|done|done].
  apply IH; [done..| |done]. intros x s2 Hx. apply Hstep. by right.
Qed.

Definition keyed (s : State W) : Prop := forall k r, automations s !! k = Some r -> a_id r = k.

Lemma listed_clean (event : string) (limit : Z) (s : State W) : plan s = [] -> keyed s ->
  exists all, list_enabled_for_event event limit s = (Ok all, s) /\ NoDup (a_id <$> all) /\
    forall a, a ∈ all -> automations s !! a_id a = Some a /\ a_event_type a = event.
Proof.
  intros Ep Hk. unfold list_enabled_for_event. rewrite statement_clean by done. cbn [fst snd].
  set (rows := (map_to_list (automations s)).*2). set (l := retain _ rows). eexists. split; [done|].
  assert (Hrows : forall a, a ∈ rows -> automations s !! a_id a = Some a).
  { intros a Ha. apply list_elem_of_fmap in Ha as ([k r] & -> & Hr). apply elem_of_map_to_list in Hr. cbn. by rewrite (Hk k r Hr). }
  assert (Hnd : NoDup (a_id <$> rows)).
  { unfold rows. rewrite <-list_fmap_compose.
    rewrite (list_fmap_ext _ fst); [apply NoDup_fst_map_to_list|].
    intros i [k r] Hi. cbn. apply Hk. apply elem_of_map_to_list. by eapply list_elem_of_lookup_2. }
  assert (Hsub : sql_limit limit (sort_by dispatch_le l) ⊆+ l).
  { rewrite <-(sort_by_perm dispatch_le l) at 2. unfold sql_limit. destruct (limit <? 0); [done|]. apply sublist_submseteq, sublist_take. }
  split.
  - assert (Hsub' : sql_limit limit (sort_by dispatch_le l) ⊆+ rows) by (etrans; [exact Hsub|apply sublist_submseteq, retain_sublist]).
    apply submseteq_Permutation in Hsub' as [k Hk']. rewrite Hk', fmap_app in Hnd. by apply NoDup_app in Hnd as [? _].
  - intros a Ha. assert (Hin : a ∈ l) by (by eapply elem_of_submseteq). apply elem_of_retain in Hin as [He Hin].
    apply andb_true_iff in He as [_ He%str_eqb_eq]. split; [by apply Hrows|done].
Qed.

Lemma dispatch_inv {T : Type} (I : State W -> Prop) (fuel : nat) (event : string) (limit : Z) (select : Automation -> bool)
    (trigger : FlowTrigger) (start : list Automation -> T) (tally : T -> result (option AutomationExecution) LocalError -> T) (s : State W) :
  plan s = [] -> keyed s -> I s ->
  (forall auto s1, select auto = true -> a_event_type auto = event -> automations s !! a_id auto = Some auto ->
     I s1 -> automations s1 !! a_id auto = Some auto -> I (snd (run_automation fuel auto trigger s1))) ->
  I (snd (dispatch fuel event limit select trigger start tally s)).
Proof.
  intros Ep Hk Hs Hstep. unfold dispatch. destruct (listed_clean event limit s Ep Hk) as (all & -> & Hnd & Hcur).
  apply run_each_inv; [| | |done].
  - eapply sublist_NoDup; [exact Hnd|]. by apply fmap_sublist, retain_sublist.
  - intros a [_ Ha]%elem_of_retain. by apply Hcur.
  - intros a s1 [Hsel Ha]%elem_of_retain. by apply Hstep; [|apply Hcur..].
Qed.
End passes.

(** ** The history of an automation *)

(** The passes, and the world between them. *)
Inductive Activity (W : Type) : Type :=
| OnChange (target_id : Z) (change_id : option Z) (context : json)
| OnHealth (target_id : Z) (url event : string)
| OnWorkflow (event : string) (workflow_id : Z) (context : json)
| OnStreaming (event : string) (workflow_id : Z) (context : json)
| OnSession (event : string) (workflow_id : option Z) (context : json)
| OnTick (now limit : Z)
| Elsewhere (f : W -> W).
Arguments OnChange {W}. Arguments OnHealth {W}. Arguments OnWorkflow {W}. Arguments OnStreaming {W}.
Arguments OnSession {W}. Arguments OnTick {W}. Arguments Elsewhere {W}.

Section history.
Context `{FlowLibs} {W : Type} `{FlowEnv W} `{RunLibs W} {Tz : Type} `{!Recurrence.Calendar Tz}.

Definition act (fuel : nat) (s : State W) (a : Activity W) : State W :=
  match a with
  | OnChange target_id change_id context => snd (dispatch_change_automations fuel target_id change_id context s)
  | OnHealth target_id url event => snd (dispatch_health_automations fuel target_id url event s)
  | OnWorkflow event workflow_id context => snd (fire_event fuel event workflow_id context s)
  | OnStreaming event workflow_id context => snd (fire_streaming_event fuel event workflow_id context s)
  | OnSession event workflow_id context => snd (fire_ai_session_event fuel event workflow_id context s)
  | OnTick now limit => snd (dispatch_due_scheduled_automations (Tz := Tz) fuel now limit s)
  | Elsewhere f => set_world (f (world s)) s
  end.

Definition ms : Z := 1000000.
(** SQLite's instants are the clock's, to the millisecond. *)
Hypothesis clock_text : forall w : W, parse_from_rfc3339 (strftime (utc_now w)) = Some (utc_now w / ms * ms).

Definition fires_of (id : Z) (s : State W) : gmap Z AutomationExecution :=
  filter (fun ie => e_automation_id ie.2 = id) (executions s).
Definition fired_at (e : AutomationExecution) : option Z := parse_from_rfc3339 (e_triggered_at e).

(** What the passes keep of automation [a0]. *)
Definition same_rule (a b : Automation) : Prop :=
  a_conditions a = a_conditions b /\ a_blocks a = a_blocks b /\ a_event_type a = a_event_type b.
Record tracked (a0 : Automation) (s : State W) : Prop := {
  tr_plan : plan s = [];
  tr_keyed : keyed s;
  tr_fresh : forall i e, executions s !! i = Some e -> i < next_execution s;
  tr_row : exists row, automations s !! a_id a0 = Some row /\ same_rule a0 row /\
    Z.of_nat (size (fires_of (a_id a0) s)) = fire_count row;
}.

Lemma tracked_world (a0 : Automation) (w : W) (s : State W) : tracked a0 s -> tracked a0 (set_world w s).
Proof. by intros []. Qed.

(** A fire of [a0] on the way from [s] to [s']. *)
Definition adds_fire (a0 : Automation) (s s' : State W) : Prop :=
  exists auto row, automations s !! a_id a0 = Some auto /\ fired_at row = Some (utc_now (world s) / ms * ms) /\
    fires_of (a_id a0) s' = <[next_execution s := row]> (fires_of (a_id a0) s) /\
    automations s' !! a_id a0 = Some (fired (strftime (utc_now (world s))) auto) /\
    Z.of_nat (size (fires_of (a_id a0) s')) = fire_count auto + 1.

Lemma tracked_step (fuel : nat) (a0 auto : Automation) (trigger : FlowTrigger) (s : State W) :
  tracked a0 s -> automations s !! a_id auto = Some auto ->
  let s' := snd (run_automation fuel auto trigger s) in
  tracked a0 s' /\
  ((fires_of (a_id a0) s' = fires_of (a_id a0) s /\ automations s' !! a_id a0 = automations s !! a_id a0) \/
   a_id auto = a_id a0 /\ guardrail_block_reason auto (t_source trigger) (utc_now (world s)) = Passes /\ adds_fire a0 s s').
Proof.
  intros [Hp Hk Hf (row & Hrow & Hc & Hn)] Hcur s'. destruct (run_clean fuel auto trigger s Hp) as [Hp' Hcase].
  fold s' in Hp', Hcase. destruct Hcase as [(He & Ha & Hn')|(Hg & ex & Hid & Ht & He & Hn' & Ha)].
  { unfold fires_of. rewrite He, Ha. split; [|by left]. constructor; [done|by unfold keyed; rewrite Ha|by rewrite He, Hn'|].
    exists row. rewrite Ha. unfold fires_of. rewrite He. by split_and!. }
  assert (Hk' : keyed s').
  { intros k r. rewrite Ha. destruct (decide (k = a_id auto)) as [->|Hne]; [|rewrite lookup_alter_ne by done; apply Hk].
    rewrite lookup_alter_eq, Hcur. cbn. by intros [= <-]. }
  assert (Hf' : forall i e, executions s' !! i = Some e -> i < next_execution s').
  { intros i e. rewrite He, Hn', lookup_insert_Some. intros [[<- _]|[_ Hi]]; [|apply Hf in Hi]; lia. }
  assert (Hnone : executions s !! next_execution s = None).
  { destruct (executions s !! next_execution s) eqn:E; [|done]. apply Hf in E. lia. }
  destruct (decide (a_id auto = a_id a0)) as [Eid|Hne].
  - assert (row = auto) as -> by (rewrite Eid in Hcur; congruence).
    assert (Hfires : fires_of (a_id a0) s' = <[next_execution s := ex]> (fires_of (a_id a0) s)).
    { unfold fires_of. rewrite He. apply map_filter_insert_True. cbn. congruence. }
    assert (Hsize : Z.of_nat (size (fires_of (a_id a0) s')) = fire_count auto + 1).
    { rewrite Hfires, map_size_insert_None; [lia|]. apply map_lookup_filter_None. by left. }
    assert (Hrow' : automations s' !! a_id a0 = Some (fired (strftime (utc_now (world s))) auto)).
    { by rewrite Ha, <-Eid, lookup_alter_eq, Hcur. }
    split; [constructor; [done..|]; eexists; by split_and!|]. right. split_and!; [done..|].
    exists auto, ex. split_and!; [done| |done..]. unfold fired_at. by rewrite Ht.
  - assert (Hfires : fires_of (a_id a0) s' = fires_of (a_id a0) s).
    { unfold fires_of. rewrite He. rewrite map_filter_insert_False by (cbn; congruence). by rewrite delete_id. }
    assert (Hrow' : automations s' !! a_id a0 = automations s !! a_id a0) by (by rewrite Ha, lookup_alter_ne).
    split; [|by left]. constructor; [done..|]. exists row. rewrite Hrow', Hfires. by split_and!.
Qed.

(** What an activity dispatches. *)
Definition selects (a : Activity W) (s : State W) : option (string * Z * (Automation -> bool) * FlowTrigger) :=
  match a with
  | OnChange target_id change_id context =>
      Some (EVENT_CHANGE_DETECTED, 256, on_target target_id, mkTrigger change_id (JObj []) context Monitor Background)
  | OnHealth target_id url event =>
      Some (event, 256, on_target target_id, mkTrigger None (JObj []) (build_health_context target_id url event) Monitor Background)
  | OnWorkflow event workflow_id context =>
      Some (event, 256, fun a => watches_workflow (a_workflow_id a) workflow_id && has_tree a, event_trigger context)
  | OnStreaming event workflow_id context =>
      Some (event, 256, fun a => match a_workflow_id a with Some wid => wid =? workflow_id | None => true end && has_tree a, event_trigger context)
  | OnSession event workflow_id context =>
      Some (event, 256, fun a => match a_workflow_id a with Some wid => bool_decide (Some wid = workflow_id) | None => true end && has_tree a,
            event_trigger context)
  | OnTick now limit =>
      Some ("scheduled", limit, fun a =>
        match scheduled_recurrence a with
        | Some r => Recurrence.is_due parse_from_rfc3339 (utc_now (world s)) r (a_last_triggered_at a) now
        | None => false
        end && has_tree a, mkTrigger None (JObj []) (JObj [("event", JStr "scheduled")]) Scheduled Background)
  | Elsewhere _ => None
  end.

Lemma to_target_dispatch (fuel : nat) (event : string) (target_id : Z) (trigger : FlowTrigger) (s : State W) :
  exists T (start : list Automation -> T) tally,
    snd (dispatch_to_target fuel event target_id trigger s) =
    snd (dispatch fuel event 256 (on_target target_id) trigger start tally s).
Proof.
  exists DispatchOutcome, (fun all => mkOutcome (Z.of_nat (length (retain (on_target target_id) all))) 0 0), tally_outcome.
  unfold dispatch_to_target. by destruct (dispatch _ _ _ _ _ _ _ s) as [[[]| |]].
Qed.

Lemma fire_all_dispatch (fuel : nat) (event : string) (watches : Automation -> bool) (context : json) (s : State W) :
  exists T (start : list Automation -> T) tally,
    snd (fire_all fuel event watches context s) =
    snd (dispatch fuel event 256 (fun a => watches a && has_tree a) (event_trigger context) start tally s).
Proof.
  exists unit, (fun _ => tt), (fun _ _ => tt). unfold fire_all.
  by destruct (dispatch _ _ _ _ _ _ _ s) as [[]].
Qed.

Lemma act_selects (fuel : nat) (a : Activity W) (s : State W) :
  match selects a s with
  | Some (event, limit, select, trigger) => t_source trigger <> Manual /\
      exists T (start : list Automation -> T) tally, act fuel s a = snd (dispatch fuel event limit select trigger start tally s)
  | None => exists f, act fuel s a = set_world (f (world s)) s
  end.
Proof.
  destruct a; cbn [selects]; [split; [done|].. |by eexists].
  - apply to_target_dispatch.
  - apply to_target_dispatch.
  - apply fire_all_dispatch.
  - apply fire_all_dispatch.
  - apply fire_all_dispatch.
  - by do 3 eexists.
Qed.

(** An invariant that each firing of a pass keeps. *)
Lemma act_inv (I : State W -> Prop) (fuel : nat) (a : Activity W) (s : State W) :
  plan s = [] -> keyed s -> I s -> (selects a s = None -> forall w, I (set_world w s)) ->
  (forall event limit select trigger auto s1, selects a s = Some (event, limit, select, trigger) -> t_source trigger <> Manual ->
     select auto = true -> a_event_type auto = event -> automations s !! a_id auto = Some auto ->
     I s1 -> automations s1 !! a_id auto = Some auto -> I (snd (run_automation fuel auto trigger s1))) ->
  I (act fuel s a).
Proof.
  intros Ep Hk Hs Hw Hstep. pose proof (act_selects fuel a s) as Ha. destruct (selects a s) as [[[[event limit] select] trigger]|].
  - destruct Ha as (Hm & T & start & tally & ->). apply dispatch_inv; [done..|]. intros auto s1. by apply (Hstep event limit select trigger).
  - destruct Ha as [f ->]. by apply Hw.
Qed.

(** ** Guardrails over a history *)

Definition minute : Z := 60 * 1000000000.

Lemma guard_passes (auto : Automation) (src : RunSource) (now : Z) :
  guardrail_block_reason auto src now = Passes -> src <> Manual ->
  (forall m, max_fires auto = Some m -> 0 < m -> fire_count auto < m) /\
  (forall c last, cooldown_minutes auto = Some c -> 0 < c -> last_fire auto = Some last -> last + c * minute <= now).
Proof.
  unfold guardrail_block_reason. intros Hg Hm. rewrite bool_decide_eq_false_2 in Hg by done. split.
  - intros m Em Hpos. rewrite Em in Hg. destruct ((0 <? m) && (m <=? fire_count auto)) eqn:E; [done|].
    apply andb_false_iff in E as [E|E]; lia.
  - intros c last Ec Hpos El. destruct (match max_fires auto with Some _ => _ | None => _ end); [done|]. rewrite Ec, El in Hg.
    replace (0 <? c) with true in Hg by lia. unfold minutes in Hg. destruct (MAX_SECONDS <? c * 60); [done|].
    destruct (now - last <? c * 60 * 1000000000) eqn:E; [done|]. unfold minute. lia.
Qed.

Lemma same_rule_guards (a b : Automation) : same_rule a b -> max_fires a = max_fires b /\ cooldown_minutes a = cooldown_minutes b.
Proof. intros (Hc & _). unfold max_fires, cooldown_minutes, conditions_of. by rewrite Hc. Qed.

(** Fires are at least [d] apart, the later ones with the larger ids. *)
Definition gaps (id d : Z) (s : State W) : Prop :=
  forall i j ei ej, fires_of id s !! i = Some ei -> fires_of id s !! j = Some ej -> i < j ->
    exists ti tj, fired_at ei = Some ti /\ fired_at ej = Some tj /\ ti + d <= tj.

(** ... and the row's time is the last one's. *)
Definition spaced (id d : Z) (s : State W) : Prop :=
  gaps id d s /\
  forall row i e, automations s !! id = Some row -> fires_of id s !! i = Some e ->
    exists t u, fired_at e = Some t /\ last_fire row = Some (u * ms) /\ t <= u * ms.

Lemma spaced_step (a0 : Automation) (d : Z) (s s' : State W) :
  (forall i e, executions s !! i = Some e -> i < next_execution s) ->
  (ms | d) -> 0 <= d -> spaced (a_id a0) d s ->
  (forall auto last, automations s !! a_id a0 = Some auto -> last_fire auto = Some last -> last + d <= utc_now (world s)) ->
  adds_fire a0 s s' -> spaced (a_id a0) d s'.
Proof.
  intros Hf [q ->] Hd [Hg Hl] Hlast (auto & ex & Ha & Hex & Hfires & Hrow & _).
  assert (Hold : forall i e, fires_of (a_id a0) s !! i = Some e -> i < next_execution s /\
    exists t, fired_at e = Some t /\ t + q * ms <= utc_now (world s) / ms * ms).
  { intros i e He. split; [apply (Hf i e); by apply map_lookup_filter_Some in He as [? _]|].
    destruct (Hl auto i e Ha He) as (t & u & Et & Eu & Htu). exists t. split; [done|].
    specialize (Hlast auto _ Ha Eu). assert (u + q <= utc_now (world s) / ms) by (apply Z.div_le_lower_bound; unfold ms in *; lia).
    unfold ms in *. lia. }
  split.
  - intros i j ei ej. rewrite Hfires, !lookup_insert_Some. intros [[<- <-]|[_ Hi]] [[<- <-]|[_ Hj]] Hij; [lia| | |by eapply Hg].
    + apply Hold in Hj as [Hj _]. lia.
    + apply Hold in Hi as (_ & t & Et & Ht). eauto.
  - intros row i e. rewrite Hrow, Hfires. intros [= <-]. unfold last_fire. cbn. rewrite clock_text, lookup_insert_Some.
    intros [[_ <-]|[_ Hi]]; [eexists _, _; split_and!; [exact Hex|done|done]|].
    apply Hold in Hi as (_ & t & Et & Ht). exists t. eexists. split_and!; [done|done|]. unfold ms in *. lia.
Qed.

Lemma spaced_same (a0 : Automation) (d : Z) (s s' : State W) :
  fires_of (a_id a0) s' = fires_of (a_id a0) s -> automations s' !! a_id a0 = automations s !! a_id a0 ->
  spaced (a_id a0) d s -> spaced (a_id a0) d s'.
Proof. intros Hf Ha [Hg Hl]. unfold spaced, gaps. rewrite Hf, Ha. by split. Qed.

(** An automation that has not fired. *)
Definition unfired (a0 : Automation) (s : State W) : Prop :=
  plan s = [] /\ keyed s /\ (forall i e, executions s !! i = Some e -> i < next_execution s /\ e_automation_id e <> a_id a0) /\
  automations s !! a_id a0 = Some a0 /\ fire_count a0 = 0.

Lemma unfired_fires (a0 : Automation) (s : State W) : unfired a0 s -> fires_of (a_id a0) s = ∅.
Proof.
  intros (_ & _ & Hf & _). apply map_empty. intros i. apply map_lookup_filter_None.
  right. intros e He. by apply (Hf i e).
Qed.

Lemma unfired_tracked (a0 : Automation) (s : State W) : unfired a0 s -> tracked a0 s.
Proof.
  intros Hu. pose proof (unfired_fires a0 s Hu) as He. destruct Hu as (Hp & Hk & Hf & Ha & Hc).
  constructor; [done|done|by intros i e Hi; apply (Hf i e)|]. exists a0. rewrite He, map_size_empty, Hc. by split_and!.
Qed.

Lemma unfired_spaced (a0 : Automation) (d : Z) (s : State W) : unfired a0 s -> spaced (a_id a0) d s.
Proof.
  intros Hu. unfold spaced, gaps. rewrite (unfired_fires a0 s Hu). split; [intros i j ei ej E1|intros row i e _ E1];
    by rewrite lookup_empty in E1.
Qed.

(** What holds of a guarded automation between passes. *)
Definition guarded (a0 : Automation) (s : State W) : Prop :=
  tracked a0 s /\
  (forall m, max_fires a0 = Some m -> 0 < m -> Z.of_nat (size (fires_of (a_id a0) s)) <= m) /\
  (forall c, cooldown_minutes a0 = Some c -> 0 < c -> spaced (a_id a0) (c * minute) s).

Lemma guarded_step (fuel : nat) (a0 auto : Automation) (trigger : FlowTrigger) (s : State W) :
  t_source trigger <> Manual -> automations s !! a_id auto = Some auto ->
  guarded a0 s -> guarded a0 (snd (run_automation fuel auto trigger s)).
Proof.
  intros Hm Hcur (Ht & Hn & Hs). destruct (tracked_step fuel a0 auto trigger s Ht Hcur) as [Ht' Hcase].
  destruct Hcase as [[Hf Ha]|(Eid & Hg & Hadd)].
  { split; [done|]. rewrite Hf. split; [done|]. intros c Hc Hpos. by eapply spaced_same; [..|apply Hs]. }
  destruct (guard_passes _ _ _ Hg Hm) as [Hmax Hcool].
  assert (Hrule : same_rule a0 auto).
  { destruct (tr_row _ _ Ht) as (row & Hrow & Hr & _). rewrite Eid in Hcur. by simplify_eq. }
  apply same_rule_guards in Hrule as [Em Ec]. split; [done|]. split.
  - intros m Hmx Hpos. rewrite Em in Hmx. specialize (Hmax m Hmx Hpos).
    destruct Hadd as (auto' & ex & Ha & _ & _ & _ & Hsz). rewrite Eid in Hcur. simplify_eq. lia.
  - intros c Hc Hpos. eapply spaced_step; [apply Ht| | |by apply Hs| |done].
    + exists (c * 60000). unfold minute, ms. lia.
    + unfold minute. lia.
    + intros auto' last Ha Hl. rewrite Eid in Hcur. simplify_eq. apply Hcool; [congruence|done|done].
Qed.

Lemma guarded_acts (fuel : nat) (a0 : Automation) (acts : list (Activity W)) : forall s : State W,
  guarded a0 s -> guarded a0 (foldl (act fuel) s acts).
Proof.
  induction acts as [|a acts IH]; intros s Hs; [done|]. cbn [foldl]. apply IH.
  apply act_inv; [apply Hs|apply Hs|done| |].
  - intros _ w. destruct Hs as (Ht & Hn & Hc). split; [by apply tracked_world|by split].
  - intros event limit select trigger auto s1 _ Hm _ _ _ Hs1 Hcur. by apply guarded_step.
Qed.


(** ** The cadence of a scheduled automation *)

(** Ticks are not ahead of the clock, and only they dispatch scheduled automations. *)
Fixpoint timely (fuel : nat) (s : State W) (acts : list (Activity W)) : Prop :=
  match acts with
  | [] => True
  | a :: acts =>
      match a with
      | OnTick now _ => now <= utc_now (world s)
      | OnHealth _ _ event | OnWorkflow event _ _ | OnStreaming event _ _ | OnSession event _ _ => event <> "scheduled"
      | _ => True
      end /\ timely fuel (act fuel s a) acts
  end.

Definition not_back (w w' : W) : Prop := utc_now w <= utc_now w'.

#[local] Instance not_back_order : PreOrder not_back.
Proof. unfold not_back. split; [intros w; lia|intros w1 w2 w3; lia]. Qed.

Lemma scheduled_floored (a0 : Automation) (r : Recurrence.Recurrence) :
  scheduled_recurrence a0 = Some r -> Recurrence.kind r = Recurrence.Interval -> WORKFLOW_FLOOR_MS <= Recurrence.interval_ms r.
Proof.
  unfold scheduled_recurrence. destruct (a_blocks a0); [|done]. destruct (_ ≫= _) as [arr|]; [|done].
  destruct (find_first _ arr) as [root|]; [|done]. destruct (bool_decide _); [|done].
  generalize (Recurrence.from_block_config (default JNull (get root "config"))). intros q [= <-]. destruct (Recurrence.kind q) eqn:Ek; cbn; [|by rewrite Ek..].
  intros _. unfold WORKFLOW_FLOOR_MS. destruct (0 <? _); lia.
Qed.

Lemma due_after_interval (wall now : Z) (r : Recurrence.Recurrence) (auto : Automation) (last : Z) :
  Recurrence.kind r = Recurrence.Interval -> last_fire auto = Some last ->
  Recurrence.is_due (Tz := Tz) parse_from_rfc3339 wall r (a_last_triggered_at auto) now = true ->
  last + Recurrence.interval_ms r * ms <= now.
Proof.
  unfold last_fire, Recurrence.is_due. intros -> El. rewrite bool_decide_eq_true_2 by done.
  destruct (a_last_triggered_at auto) as [t|]; [|done]. cbn in El. rewrite El. unfold Recurrence.ns_of_ms, ms. lia.
Qed.

(** What holds of a scheduled automation during the passes that start at time [t]. *)
Definition on_schedule (a0 : Automation) (d t : Z) (s : State W) : Prop :=
  tracked a0 s /\ spaced (a_id a0) d s /\ t <= utc_now (world s).

Lemma same_rule_scheduled (a b : Automation) : same_rule a b -> scheduled_recurrence a = scheduled_recurrence b.
Proof. intros (_ & Hb & _). unfold scheduled_recurrence. by rewrite Hb. Qed.

Lemma on_schedule_step (fuel : nat) (a0 auto : Automation) (r : Recurrence.Recurrence) (trigger : FlowTrigger) (t : Z) (s : State W) :
  scheduled_recurrence a0 = Some r -> Recurrence.kind r = Recurrence.Interval ->
  handlers_keep not_back (t_source trigger) -> automations s !! a_id auto = Some auto ->
  (a_id auto = a_id a0 -> same_rule a0 auto -> forall last, last_fire auto = Some last -> last + Recurrence.interval_ms r * ms <= t) ->
  on_schedule a0 (Recurrence.interval_ms r * ms) t s ->
  on_schedule a0 (Recurrence.interval_ms r * ms) t (snd (run_automation fuel auto trigger s)).
Proof.
  intros Hr Hk keep Hcur Hdue (Ht & Hs & Hw). pose proof (run_world not_back fuel auto trigger s keep) as Hclock.
  destruct (tracked_step fuel a0 auto trigger s Ht Hcur) as [Ht' Hcase].
  split; [done|]. split; [|unfold not_back in Hclock; lia].
  destruct Hcase as [[Hf Ha]|(Eid & _ & Hadd)]; [by eapply spaced_same|].
  pose proof (scheduled_floored a0 r Hr Hk) as Hfloor. unfold WORKFLOW_FLOOR_MS in Hfloor.
  eapply spaced_step; [apply Ht|by exists (Recurrence.interval_ms r)|unfold ms; lia|done| |done].
  intros auto' last Ha Hl. rewrite Eid in Hcur. simplify_eq. etrans; [|exact Hw]. apply Hdue; [done| |done].
  destruct (tr_row _ _ Ht) as (row & Hrow & Hrule & _). by simplify_eq.
Qed.

(** The cadence of a scheduled automation is never undercut: with a clock that handlers do not set back, over any history of passes two runs of
    an automation on an interval are at least the interval apart, and that is at least the scheduler's minute whatever the block asks for. *)
Theorem scheduled_cadence (fuel : nat) (a0 : Automation) (r : Recurrence.Recurrence) (s : State W) (acts : list (Activity W)) :
  unfired a0 s -> a_event_type a0 = "scheduled" -> scheduled_recurrence a0 = Some r -> Recurrence.kind r = Recurrence.Interval ->
  (forall src, handlers_keep not_back src) -> timely fuel s acts ->
  60000 <= Recurrence.interval_ms r /\ gaps (a_id a0) (Recurrence.interval_ms r * ms) (foldl (act fuel) s acts).
Proof.
  intros Hu He Hr Hk keep Htime. split; [exact (scheduled_floored a0 r Hr Hk)|].
  assert (Hstart : tracked a0 s /\ spaced (a_id a0) (Recurrence.interval_ms r * ms) s).
  { split; [by apply unfired_tracked|by apply unfired_spaced]. }
  clear Hu. revert s Hstart Htime. induction acts as [|a acts IH]; intros s [Ht Hs]; [intros _; apply Hs|].
  cbn [foldl timely]. intros [Ha Htime]. apply IH; [|done].
  destruct (selects a s) as [sel|] eqn:Esel.
  2: { pose proof (act_selects fuel a s) as Hsel. rewrite Esel in Hsel. destruct Hsel as [f ->]. split; [by apply tracked_world|exact Hs]. }
  assert (Hon : on_schedule a0 (Recurrence.interval_ms r * ms) (utc_now (world s)) (act fuel s a)); [|by split; apply Hon].
  apply act_inv; [apply Ht|apply Ht|by split_and!|by rewrite Esel|].
  intros event limit select trigger auto s1 E' _ Hsel Hev Hcur0 Hs1 Hcur. apply on_schedule_step; [done..| |done].
  intros Eid Hrule last Hl. pose proof Hrule as (_ & _ & Hevent). rewrite He in Hevent.
  assert (Hs' : exists now lim, a = OnTick now lim).
  { destruct a; cbn [selects] in E', Ha; simplify_eq; [unfold EVENT_CHANGE_DETECTED in *; congruence|by do 2 eexists]. }
  destruct Hs' as (now & lim & ->). cbn [selects] in E'. injection E' as _ _ <- _. cbv beta in Hsel.
  apply andb_true_iff in Hsel as [Hdue _].
  rewrite <-(same_rule_scheduled a0 auto), Hr in Hdue by done. etrans; [by eapply due_after_interval|exact Ha].
Qed.
End history.

(** ** Events chain once *)

Section one_hop.
Context `{FlowLibs} {W : Type} `{FlowEnv W} `{RunLibs W} (R : W -> W -> Prop) `{!PreOrder R}.

Lemma run_each_world {T : Type} (fuel : nat) (trigger : FlowTrigger)
    (tally : T -> result (option AutomationExecution) LocalError -> T) (autos : list Automation) :
  handlers_keep R (t_source trigger) ->
  forall (acc : T) (s : State W), R (world s) (world (snd (run_each fuel trigger tally autos acc s))).
Proof.
  intros keep. induction autos as [|auto autos IH]; intros acc s; [reflexivity|]. cbn [run_each].
  pose proof (run_world R fuel auto trigger s keep) as Hr. destruct (run_automation fuel auto trigger s) as [[r| |] s1]; [|done|done].
  etrans; [exact Hr|apply IH].
Qed.

Lemma dispatch_world {T : Type} (fuel : nat) (event : string) (limit : Z) (select : Automation -> bool) (trigger : FlowTrigger)
    (start : list Automation -> T) (tally : T -> result (option AutomationExecution) LocalError -> T) (s : State W) :
  handlers_keep R (t_source trigger) -> R (world s) (world (snd (dispatch fuel event limit select trigger start tally s))).
Proof.
  intros keep. unfold dispatch, list_enabled_for_event. case_statement; [reflexivity|]. cbn [fst snd].
  etrans; [|by apply run_each_world]. reflexivity.
Qed.
End one_hop.

Section chain.
Context `{FlowLibs} {W : Type} (inner : FlowEnv W) `{RunLibs (W * list Spawned)}.

(** The events of one run. *)
Definition run_events (run : Z * RunResult) : list Spawned := [started_event run.1; completed_event run.1 run.2].

(** Runs of positive workflows that spawned their pairs, none when the source is an event's. *)
Definition chains (src : RunSource) (w w' : W * list Spawned) : Prop :=
  exists runs, snd w' = (snd w ++ runs ≫= run_events)%list /\ (src = Workflow -> runs = []) /\ Forall (fun run => 0 < run.1) runs.

#[local] Instance chains_order (src : RunSource) : PreOrder (chains src).
Proof.
  split.
  - intros w. exists []. by rewrite app_nil_r.
  - intros w1 w2 w3 (r1 & E1 & N1 & P1) (r2 & E2 & N2 & P2). exists (r1 ++ r2)%list.
    rewrite bind_app, E2, E1, app_assoc. split; [done|]. split; [|by apply Forall_app].
    intros Hs. by rewrite N1, N2.
Qed.

Lemma event_engine_chains (src : RunSource) : handlers_keep (W := W * list Spawned) (H0 := event_engine inner) (chains src) src.
Proof.
  assert (Hsame : forall w w' l, chains src (w, l) (w', l)) by (intros w w' l; exists []; by rewrite app_nil_r).
  split.
  - intros req [w log] Hsrc. cbn. destruct (engine_run req w) as [[result|e] w1]; [|apply Hsame].
    destruct (negb (bool_decide (r_source req = Workflow)) && (0 <? r_workflow_id req)) eqn:E; [|apply Hsame].
    apply andb_true_iff in E as [E1 E2]. apply negb_true_iff, bool_decide_eq_false in E1.
    exists [(r_workflow_id req, result)]. cbn. split; [done|]. split; [intros ->; congruence|]. repeat constructor. cbn. lia.
  - intros b s [w log]. cbn. destruct (run_notification_action b s w). apply Hsame.
  - intros b s [w log]. cbn. destruct (run_send_file_action b s w). apply Hsame.
  - intros b s [w log]. cbn. destruct (run_export_to_file_action b s w). apply Hsame.
  - intros b s [w log]. cbn. destruct (run_streaming_action b s w). apply Hsame.
  - intros b s [w log]. cbn. destruct (run_ai_session_action b s w). apply Hsame.
Qed.

(** Events chain once: an automation run through the event engine spawns exactly a started and a completed event, in this order, for
    each run of a stored workflow that did not fail to start; the automations an event fires spawn none, whatever
    they run and whatever fails. *)
Theorem events_one_hop (fuel : nat) (auto : Automation) (trigger : FlowTrigger) (s : State (W * list Spawned)) :
  (exists runs, snd (world (snd (run_automation (H0 := event_engine inner) fuel auto trigger s))) =
     (snd (world s) ++ runs ≫= run_events)%list /\ Forall (fun run => 0 < run.1) runs) /\
  forall event workflow_id session context,
    snd (world (snd (fire_event (H0 := event_engine inner) fuel event workflow_id context s))) = snd (world s) /\
    snd (world (snd (fire_streaming_event (H0 := event_engine inner) fuel event workflow_id context s))) = snd (world s) /\
    snd (world (snd (fire_ai_session_event (H0 := event_engine inner) fuel event session context s))) = snd (world s).
Proof.
  split.
  - destruct (run_world (H0 := event_engine inner) (chains (t_source trigger)) fuel auto trigger s (event_engine_chains _)) as (runs & E & _ & P).
    by exists runs.
  - intros event workflow_id session context.
    assert (Hall : forall watches, snd (world (snd (fire_all (H0 := event_engine inner) fuel event watches context s))) = snd (world s)).
    { intros watches. destruct (fire_all_dispatch (H0 := event_engine inner) fuel event watches context s) as (T & start & tally & ->).
      destruct (dispatch_world (H0 := event_engine inner) (chains Workflow) fuel event 256 (fun a => watches a && has_tree a)
        (event_trigger context) start tally s (event_engine_chains _)) as (runs & E & N & _).
      rewrite E, (N eq_refl). by rewrite app_nil_r. }
    split_and!; apply Hall.
Qed.
End chain.

(** ** Examples *)

(** A clock of a minute a run, up to 10^6 of them. *)
Definition demo_minute (n : Z) : Z := Z.max 0 (Z.min n 1000000) * 60000000000.
#[local] Instance demo_clock : RunLibs Z := {|
  from_str := fun s =>
    if str_eqb s "guards" then Some (JObj [("max_fires", json_of_Z 2); ("schedule", JObj [("cooldown_minutes", json_of_Z 3)])])
    else if str_eqb s "every" then
      Some (JArr [JObj [("type", JStr "event"); ("blockType", JStr "scheduled"); ("config", JObj [("interval_ms", json_of_Z 1)])]])
    else None;
  blocks_from_str := fun s => Some demo_blocks;
  parse_from_rfc3339 := fun s => (fun t => t * 1000000) <$> parse_i64 s;
  strftime := fun t => Z_to_string (t / 1000000);
  utc_now := demo_minute;
|}.
#[local] Existing Instance Recurrence.utc_calendar.

Lemma demo_clock_text (n : Z) : parse_from_rfc3339 (strftime (utc_now n)) = Some (utc_now n / ms * ms).
Proof.
  cbn. unfold demo_minute. rewrite parse_Z_to_string; [done|].
  unfold in_i64, i64_min, i64_max. zlia.
Qed.

Definition demo_rule (event conditions blocks : string) : Automation :=
  mkAutomation 1 (Some 9) event None 1 None conditions (Some blocks) None None.
Definition demo_start (a0 : Automation) : State Z := mkState {[1 := a0]} ∅ ∅ 1 0 [].

Lemma demo_unfired (a0 : Automation) : a_id a0 = 1 -> a_trigger_count a0 = None -> unfired a0 (demo_start a0).
Proof.
  intros Hid Hc. split_and!; [done| |by intros i e Hi; cbn in Hi; rewrite lookup_empty in Hi| |unfold fire_count; by rewrite Hc].
  - intros k r Hk. cbn in Hk. apply lookup_singleton_Some in Hk as [<- <-]. done.
  - rewrite Hid. cbn. apply lookup_singleton_eq.
Qed.

(** Six changes in as many minutes run the automation twice. *)
Definition demo_acts : list (Activity Z) := repeat (OnChange 9 None (JObj [("n", json_of_Z 4)])) 3 ++ [Elsewhere (Z.add 2)] ++
  repeat (OnChange 9 None (JObj [("n", json_of_Z 4)])) 3.


Lemma demo_keep (src : RunSource) : handlers_keep (W := Z) not_back src.
Proof.
  assert (Hsucc : forall n, not_back n (n + 1)) by (intros n; unfold not_back; cbn; unfold demo_minute; lia).
  assert (Hrefl : forall n : Z, not_back n n) by (intros n; unfold not_back; lia).
  split; intros; cbn; auto.
Qed.

(** An interval of a millisecond, three ticks in a minute. *)
Definition demo_ticks : list (Activity Z) := [OnTick 0 64; Elsewhere (Z.add 1); OnTick 59000000000 64; OnTick 60000000000 64].

Lemma scheduled_cadence_witness :
  let s' := foldl (act (Tz := unit) 5) (demo_start (demo_rule "scheduled" "c" "every")) demo_ticks in
  size (fires_of 1 s') = 2%nat /\ gaps 1 (60000 * ms) s'.
Proof.
  intros s'. split; [vm_compute; reflexivity|].
  refine (proj2 (scheduled_cadence (Tz := unit) demo_clock_text 5 (demo_rule "scheduled" "c" "every")
    (Recurrence.mkRecurrence Recurrence.Interval 60000 None [] "") (demo_start (demo_rule "scheduled" "c" "every")) demo_ticks
    (demo_unfired (demo_rule "scheduled" "c" "every") eq_refl eq_refl) eq_refl _ eq_refl demo_keep _)).
  - vm_compute. reflexivity.
  - vm_compute. repeat split; discriminate.
Defined.
