(* ===== verification/Extract.v ===== *)
(** * monitor/extract.rs, automation/response_extract.rs

    The field extractors of selectors and the path language they share with the extractions of an HTTP response.
    The regular expressions, the HTML parser and [serde_json::from_str] are the interface [ExtractLibs]. *)

From Stdlib Require Import Ascii String.
From S2P Require Import Prelude Ints Str Json.
Open Scope string_scope.
Open Scope Z_scope.

Class ExtractLibs : Type := {
  json_from_str : string -> option json;
  (** the number of groups of a pattern, with the whole match; [None] when it does not compile *)
  captures_len : string -> option Z;
  (** the matches of a pattern in a text, each with its groups *)
  captures_iter : string -> string -> list (list (option string));
  (** the elements a CSS selector finds in a fragment: their attributes and their text *)
  html_select : string -> string -> option (list (list (string * string) * string));
}.

(** ** Paths *)

(** [str::lines]. *)
Definition strip_cr (s : string) : string := match strip_suffix (String (chr 13) "") s with Some r => r | None => s end.
Fixpoint lines_of (pieces : list string) : list string :=
  match pieces with
  | [] => []
  | [last] => if is_empty last then [] else [last]
  | l :: rest => strip_cr l :: lines_of rest
  end.
Definition lines (s : string) : list string := lines_of (split (chr 10) s).

(** One piece between closing brackets. *)
Definition parse_bracket (part : string) : option Z :=
  let p := trim (trim_start_by (byte_is "["%char) part) in if is_empty p then None else parse_u64 p.

Definition split_key_indices (seg : string) : string * list Z :=
  match find_byte (byte_is "["%char) seg with
  | None => (seg, [])
  | Some b =>
      (str_take b seg,
       omap parse_bracket (split "]"%char (str_drop b seg)))
  end.

Definition get_index (v : json) (i : Z) : option json :=
  match v with JArr l => l !! Z.to_nat i | _ => None end.

Fixpoint follow (indices : list Z) (v : json) : option json :=
  match indices with
  | [] => Some v
  | i :: rest => match get_index v i with Some v => follow rest v | None => None end
  end.

Definition path_segment (seg : string) (v : json) : option json :=
  let '(key, indices) := split_key_indices seg in
  match (if is_empty key then Some v else get v key) with
  | Some v => follow indices v
  | None => None
  end.

Fixpoint path_segments (segs : list string) (v : json) : option json :=
  match segs with
  | [] => Some v
  | raw :: segs =>
      let seg := trim raw in
      if is_empty seg then path_segments segs v
      else match path_segment seg v with Some v => path_segments segs v | None => None end
  end.

Definition json_path_get (root : json) (path : string) : option json :=
  path_segments (split "."%char (trim_start_by (byte_is "$"%char) (trim path))) root.

Definition json_value_path (root : json) (path : string) : option json := json_path_get root path.

(** ** Extractors *)

Section extractors.
Context `{ExtractLibs}.

Definition default_value (d : option string) (is_array : bool) : json :=
  match d with
  | Some d => if is_array then JArr [JStr d] else JStr d
  | None => if is_array then JArr [] else JNull
  end.

Definition extract_text (content : string) (is_array : bool) : option json :=
  let trimmed := trim content in
  if is_empty trimmed then None
  else if is_array then Some (JArr (JStr <$> retain (fun l => negb (is_empty l)) (trim <$> lines trimmed)))
  else Some (JStr trimmed).

Definition cfg (config : json) (k : string) : option string := get config k ≫= json_as_str.

Definition extract_regex (content : string) (config : json) (is_array : bool) : option json :=
  match cfg config "pattern" with
  | None => None
  | Some pattern =>
      match captures_len pattern with
      | None => None
      | Some n =>
          let group := match get config "group" ≫= json_as_u64 with Some g => g | None => if 1 <? n then 1 else 0 end in
          let pick (caps : list (option string)) := caps !! Z.to_nat group ≫= id in
          let all := captures_iter pattern content in
          if is_array then
            match omap pick all with [] => None | l => Some (JArr (JStr <$> l)) end
          else match all with caps :: _ => JStr <$> pick caps | [] => None end
      end
  end.

Definition node_value (attribute : option string) (node : list (string * string) * string) : option string :=
  match attribute with
  | Some attr => map_get (fst node) attr
  | None => let t := trim (snd node) in if is_empty t then None else Some t
  end.

Definition select_nodes (content selector : string) (attribute : option string) (is_array : bool) : option json :=
  match html_select content selector with
  | None => None
  | Some nodes =>
      match omap (node_value attribute) nodes with
      | [] => None
      | first :: rest => Some (if is_array then JArr (JStr <$> first :: rest) else JStr first)
      end
  end.

Definition extract_css (content : string) (config : json) (is_array : bool) : option json :=
  match cfg config "selector" with
  | None => None
  | Some selector => select_nodes content selector (cfg config "attribute") is_array
  end.

Definition extract_attribute (content : string) (config : json) (is_array : bool) : option json :=
  match cfg config "attribute" with
  | None => None
  | Some attribute => select_nodes content (default "*" (cfg config "selector")) (Some attribute) is_array
  end.

Definition extract_json_path (content : string) (config : json) (is_array : bool) : option json :=
  match cfg config "path" with
  | None => None
  | Some path =>
      match json_from_str content ≫= (fun root => json_path_get root path) with
      | None => None
      | Some found => Some (if is_array then match found with JArr _ => found | other => JArr [other] end else found)
      end
  end.

Definition run_extractor (content extract_type : string) (config : json) (is_array : bool) (d : option string) : json :=
  let resolved :=
    if str_eqb extract_type "text" then extract_text content is_array
    else if str_eqb extract_type "regex" then extract_regex content config is_array
    else if str_eqb extract_type "css" then extract_css content config is_array
    else if str_eqb extract_type "attribute" then extract_attribute content config is_array
    else if str_eqb extract_type "json_path" || str_eqb extract_type "json" then extract_json_path content config is_array
    else None in
  default (default_value d is_array) resolved.
End extractors.

(** ** automation/response_extract.rs *)

(** What a step's configuration has besides the fields it names. *)
Definition apply_response_extractions (extra : jobj) (data : json) : list (string * json) :=
  match map_get extra "response_extractions" with
  | Some (JObj map) =>
      omap (fun np => match json_as_str (snd np) with
                      | Some path => pair (fst np) <$> json_value_path data path
                      | None => None
                      end) map
  | Some (JArr items) =>
      omap (fun item =>
        let name := match get item "key" with Some v => Some v | None => get item "name" end ≫= json_as_str in
        match name, get item "path" ≫= json_as_str with
        | Some name, Some path => pair name <$> json_value_path data path
        | _, _ => None
        end) items
  | _ => []
  end.

Example path_ex :
  let v := JObj [("a", JArr [JObj [("b", JStr "x")]])] in
  json_path_get v "$.a[0].b" = Some (JStr "x") /\ json_path_get v "a[1].b" = None /\ json_path_get v "" = Some v.
Proof. repeat split; reflexivity. Qed.

(** An index that is not a number is skipped, where the language has no wildcards and a miss should be [None]. *)
Example wildcard_skipped : json_path_get (JObj [("a", JObj [("b", JStr "x")])]) "$.a[*].b" = Some (JStr "x").
Proof. reflexivity. Qed.

(** ** Paths round trip *)

Lemma split_app (c : ascii) (a s : string) : str_all (fun d => negb (byte_is c d)) a = true ->
  split c (String.append a (String c s)) = a :: split c s.
Proof.
  unfold split. induction a as [|d a IH]; intros Ha; cbn [String.append split_by].
  - unfold byte_is. by rewrite bool_decide_eq_true_2.
  - cbn [str_all] in Ha. apply andb_true_iff in Ha as [Hd Ha]. apply negb_true_iff in Hd. rewrite Hd.
    by rewrite (IH Ha).
Qed.

Lemma split_none (c : ascii) (a : string) : str_all (fun d => negb (byte_is c d)) a = true -> split c a = [a].
Proof.
  unfold split. induction a as [|d a IH]; intros Ha; [done|]. cbn [str_all split_by] in *.
  apply andb_true_iff in Ha as [Hd Ha]. apply negb_true_iff in Hd. by rewrite Hd, (IH Ha).
Qed.

Lemma digits_all (s : string) : forall acc v, parse_digits acc s = Some v -> str_all is_digit s = true.
Proof.
  induction s as [|c s IH]; intros acc v; [done|]. cbn. destruct (is_digit c); [|done]. apply IH.
Qed.

(** The text of a path: an optional run of indices, then keys with theirs. *)
Definition index_text (i : Z) : string := String.append "[" (String.append (Z_to_string i) "]").
Fixpoint indices_text (l : list Z) : string :=
  match l with [] => "" | i :: l => String.append (index_text i) (indices_text l) end.
Fixpoint keys_text (segs : list (string * list Z)) : string :=
  match segs with
  | [] => ""
  | (k, ix) :: segs => String.append "." (String.append k (String.append (indices_text ix) (keys_text segs)))
  end.
Definition path_text (lead : list Z) (segs : list (string * list Z)) : string :=
  String.append "$" (String.append (indices_text lead) (keys_text segs)).

(** What it denotes. *)
Fixpoint lookup_keys (segs : list (string * list Z)) (v : json) : option json :=
  match segs with
  | [] => Some v
  | (k, ix) :: segs => match get v k ≫= follow ix with Some v => lookup_keys segs v | None => None end
  end.

Definition key_char (c : ascii) : bool := graphic c && negb (byte_is "."%char c) && negb (byte_is "["%char c).
Definition key_ok (k : string) : Prop := k <> "" /\ str_all key_char k = true.
Definition index_ok (i : Z) : Prop := 0 <= i <= u64_max.

Lemma index_digits (i : Z) : index_ok i -> str_all is_digit (Z_to_string i) = true.
Proof. intros [Hi _]. eapply digits_all. by apply Z_to_string_digits. Qed.

Lemma digit_graphic (c : ascii) : is_digit c = true -> graphic c = true.
Proof. unfold is_digit, graphic. intros H. apply andb_true_iff in H as [H1 H2]. apply andb_true_iff. lia. Qed.

Lemma parse_index (i : Z) : index_ok i -> parse_u64 (Z_to_string i) = Some i.
Proof.
  intros Hi. pose proof (index_digits i Hi) as Hd. destruct Hi as [H0 H1]. unfold parse_u64, parse_unsigned.
  pose proof (Z_to_string_digits i H0) as Hp.
  destruct (Z_to_string i) as [|c r] eqn:E.
  { exfalso. cbn in Hp. assert (i = 0) as -> by congruence. vm_compute in E. discriminate. }
  assert (Hs : strip_prefix "+" (String c r) = None).
  { cbn in Hd. apply andb_true_iff in Hd as [Hc _]. by apply digit_not_sign. }
  rewrite Hs. cbn [parse_dec]. rewrite Hp. by replace (i <=? u64_max) with true by lia.
Qed.

Lemma index_chars (l : list Z) (c : ascii) : Forall index_ok l -> is_digit c = false -> byte_is "["%char c = false -> byte_is "]"%char c = false ->
  str_all (fun d => negb (byte_is c d)) (indices_text l) = true.
Proof.
  intros Hl Hd Ho Hcl. assert (Hne : forall d e, byte_is d e = false -> negb (byte_is e d) = true).
  { unfold byte_is. intros d e. rewrite negb_true_iff, !bool_decide_eq_false. congruence. }
  induction Hl as [|i l Hi Hl IH]; [done|]. cbn [indices_text]. unfold index_text.
  rewrite !str_all_append, IH. cbn [str_all].
  rewrite (Hne _ _ Ho), (Hne _ _ Hcl), !andb_true_r. cbn.
  eapply str_all_impl; [|by apply index_digits]. intros d Hdd. apply negb_true_iff. unfold byte_is. apply bool_decide_eq_false. congruence.
Qed.

Lemma split_indices (l : list Z) : Forall index_ok l ->
  omap parse_bracket (split "]"%char (indices_text l)) = l.
Proof.
  induction 1 as [|i l Hi Hl IH]; [done|]. cbn [indices_text]. unfold index_text.
  pose proof (index_digits i Hi) as Hd. pose proof (parse_index i Hi) as Hp.
  assert (E : String.append (String.append "[" (String.append (Z_to_string i) "]")) (indices_text l) =
              String.append (String "["%char (Z_to_string i)) (String "]"%char (indices_text l))) by (by rewrite !append_assoc).
  rewrite E, split_app.
  2: { cbn [str_all]. apply andb_true_iff. split; [done|]. eapply str_all_impl; [|exact Hd]. intros d Hdd.
       apply negb_true_iff. unfold byte_is. apply bool_decide_eq_false. intros <-. discriminate. }
  change (omap parse_bracket (?a :: ?k)) with (match parse_bracket a with Some y => y :: omap parse_bracket k | None => omap parse_bracket k end).
  rewrite IH. unfold parse_bracket. cbn [trim_start_by]. change (byte_is "["%char "["%char) with true. cbv iota.
  destruct (Z_to_string i) as [|c r] eqn:Ez; [discriminate Hp|]. cbn [str_all] in Hd. apply andb_true_iff in Hd as [Hc Hr].
  cbn [trim_start_by]. replace (byte_is "["%char c) with false.
  2: { symmetry. unfold byte_is. apply bool_decide_eq_false. intros <-. discriminate. }
  rewrite trim_graphic.
  2: { cbn [str_all]. rewrite (digit_graphic c Hc). eapply str_all_impl; [|exact Hr]. apply digit_graphic. }
  cbn [is_empty]. by rewrite Hp.
Qed.

Lemma key_not (k : string) (c : ascii) : str_all key_char k = true -> key_char c = false -> str_all (fun d => negb (byte_is c d)) k = true.
Proof.
  intros Hk Hc. eapply str_all_impl; [|exact Hk]. intros d Hd. apply negb_true_iff. unfold byte_is. apply bool_decide_eq_false. congruence.
Qed.

Lemma find_byte_app (f : ascii -> bool) (a s : string) : str_all (fun d => negb (f d)) a = true ->
  find_byte f (String.append a s) = Nat.add (String.length a) <$> find_byte f s.
Proof.
  induction a as [|c a IH]; intros Ha; cbn; [by destruct (find_byte f s)|]. cbn in Ha. apply andb_true_iff in Ha as [Hc Ha].
  apply negb_true_iff in Hc. rewrite Hc, (IH Ha). by destruct (find_byte f s).
Qed.

Lemma split_segment (k : string) (ix : list Z) : str_all key_char k = true -> Forall index_ok ix ->
  split_key_indices (String.append k (indices_text ix)) = (k, ix).
Proof.
  intros Hk Hi. unfold split_key_indices. rewrite find_byte_app by (by apply (key_not k "["%char)).
  destruct ix as [|i ix]; [cbn; by rewrite append_nil_r|].
  change (find_byte (byte_is "["%char) (indices_text (i :: ix))) with (Some O).
  cbn [fmap option_fmap option_map]. rewrite Nat.add_0_r, str_take_append, str_drop_append. by rewrite split_indices.
Qed.

Lemma segment_graphic (k : string) (ix : list Z) : str_all key_char k = true -> Forall index_ok ix ->
  str_all graphic (String.append k (indices_text ix)) = true.
Proof.
  intros Hk Hi. rewrite str_all_append. apply andb_true_iff. split.
  - eapply str_all_impl; [|exact Hk]. unfold key_char. intros c Hc. by do 2 apply andb_true_iff in Hc as [Hc _].
  - induction Hi as [|i ix Hi Hix IH]; [done|]. cbn [indices_text]. unfold index_text. rewrite !str_all_append, IH. cbn.
    rewrite !andb_true_r. eapply str_all_impl; [|by apply index_digits]. apply digit_graphic.
Qed.

Lemma segment_split (k : string) (ix : list Z) : str_all key_char k = true -> Forall index_ok ix ->
  str_all (fun d => negb (byte_is "."%char d)) (String.append k (indices_text ix)) = true.
Proof.
  intros Hk Hi. rewrite str_all_append. apply andb_true_iff. split; [by apply key_not|by apply index_chars].
Qed.

(** The segments the path splits into. *)
Fixpoint key_pieces (segs : list (string * list Z)) : list string :=
  match segs with [] => [] | (k, ix) :: segs => String.append k (indices_text ix) :: key_pieces segs end.

Definition seg_ok (s : string * list Z) : Prop := key_ok (fst s) /\ Forall index_ok (snd s).

Lemma split_keys (a : string) (segs : list (string * list Z)) : str_all (fun d => negb (byte_is "."%char d)) a = true ->
  Forall seg_ok segs -> split "."%char (String.append a (keys_text segs)) = a :: key_pieces segs.
Proof.
  intros Ha Hs. revert a Ha. induction Hs as [|[k ix] segs [[Hne Hk] Hi] Hs IH]; intros a Ha; cbn [keys_text key_pieces].
  - rewrite append_nil_r. by apply split_none.
  - cbn in Hk, Hi. change (String.append "." ?t) with (String "."%char t). rewrite split_app by done. f_equal.
    rewrite <-append_assoc. by apply IH, segment_split.
Qed.

Lemma path_segments_keys (segs : list (string * list Z)) : Forall seg_ok segs -> forall v,
  path_segments (key_pieces segs) v = lookup_keys segs v.
Proof.
  induction 1 as [|[k ix] segs [[Hne Hk] Hi] Hs IH]; intros v; [done|]. cbn [key_pieces path_segments lookup_keys]. cbn in Hk, Hi, Hne.
  rewrite trim_graphic by (by apply segment_graphic).
  assert (He : is_empty (String.append k (indices_text ix)) = false) by (by destruct k).
  rewrite He. unfold path_segment. rewrite split_segment by done.
  assert (He' : is_empty k = false) by (by destruct k). rewrite He'.
  destruct (get v k) as [w|]; [|done]. cbn. destruct (follow ix w); [apply IH|done].
Qed.

Lemma keys_graphic (segs : list (string * list Z)) : Forall seg_ok segs -> str_all graphic (keys_text segs) = true.
Proof.
  induction 1 as [|[k ix] segs [[Hne Hk] Hi] Hs IH]; [done|]. cbn [keys_text]. rewrite !str_all_append, IH, andb_true_r.
  cbn in Hk, Hi. pose proof (segment_graphic k ix Hk Hi) as Hg. rewrite str_all_append in Hg. by rewrite Hg.
Qed.

Lemma no_dollar (lead : list Z) (segs : list (string * list Z)) :
  trim_start_by (byte_is "$"%char) (String.append (indices_text lead) (keys_text segs)) = String.append (indices_text lead) (keys_text segs).
Proof. by destruct lead as [|i lead]; [destruct segs as [|[k ix] segs]|]. Qed.

(** The path language denotes what it says: the text of a run of indices and of keys with theirs resolves to following them, for
    keys of printable characters other than dot and opening bracket and indices of 64 bits. *)
Theorem path_denotes (lead : list Z) (segs : list (string * list Z)) (root : json) :
  Forall index_ok lead -> Forall seg_ok segs ->
  json_value_path root (path_text lead segs) = follow lead root ≫= lookup_keys segs.
Proof.
  intros Hl Hs. unfold json_value_path, json_path_get, path_text.
  rewrite trim_graphic.
  2: { rewrite !str_all_append. cbn [str_all]. pose proof (segment_graphic "" lead eq_refl Hl) as Hg. cbn [String.append] in Hg. by rewrite Hg, keys_graphic. }
  change (String.append "$" ?t) with (String "$"%char t). cbn [trim_start_by]. change (byte_is "$"%char "$"%char) with true. cbv iota.
  rewrite no_dollar by done. rewrite split_keys; [|by apply (segment_split "")|done]. cbn [path_segments].
  rewrite trim_graphic by (by apply (segment_graphic "")). destruct lead as [|i lead].
  - cbn. by apply path_segments_keys.
  - change (is_empty (indices_text (i :: lead))) with false. cbv iota. unfold path_segment.
    change (indices_text (i :: lead)) with (String.append "" (indices_text (i :: lead))). rewrite split_segment by done. cbn [is_empty].
    destruct (follow (i :: lead) root); [by apply path_segments_keys|done].
Qed.

Lemma path_denotes_witness :
  json_value_path (JArr [JObj [("a b", JNull); ("a", JArr [JNull; JStr "x"])]]) (path_text [0] [("a", [1])]) = Some (JStr "x").
Proof.
  rewrite (path_denotes [0] [("a", [1])]); [reflexivity| |].
  - repeat constructor; unfold u64_max; lia.
  - repeat constructor; cbn; try done; unfold u64_max; lia.
Defined.
