(* ===== verification/Resolve.v ===== *)
(** * util/value_resolver.rs

    The placeholders of a step: four passes, each a [replace_all] of the fixed pattern "{{prefix" [^}]+ "}}", over
    files, extracted values, secrets and form data. [serde_json]'s text of a value is an argument. [resolve_flat] gives the
    result on templates whose values have no braces; [secret_injection] is what happens otherwise. *)

From Stdlib Require Import Ascii String.
From S2P Require Import Prelude Ints Str Json Extract.
Open Scope string_scope.
Open Scope Z_scope.

(** ** One pass *)

(** The longest run of bytes other than a closing brace. *)
Fixpoint key_run (s : string) : string * string :=
  match s with
  | EmptyString => ("", "")
  | String c r => if byte_is "}"%char c then ("", s) else let '(k, rest) := key_run r in (String c k, rest)
  end.

(** The key of a match at the start of [s], and the length of the match. *)
Definition match_at (prefix s : string) : option (string * nat) :=
  match strip_prefix (String.append "{{" prefix) s with
  | None => None
  | Some r =>
      let '(key, rest) := key_run r in
      if is_empty key then None
      else if starts_with rest "}}" then Some (key, (String.length (String.append "{{" prefix) + String.length key + 2)%nat)
      else None
  end.

(** [f] of the key, or the match itself. *)
Fixpoint replace_all (prefix : string) (f : string -> option string) (skip : nat) (s : string) : string :=
  match s with
  | EmptyString => ""
  | String c r =>
      match skip with
      | S k => replace_all prefix f k r
      | O =>
          match match_at prefix s with
          | Some (key, len) =>
              let whole := str_take len s in
              String.append (default whole (f key)) (replace_all prefix f (len - 1) r)
          | None => String c (replace_all prefix f 0 r)
          end
      end
  end.

Section resolve.
Context (to_json_text : json -> string).

Definition number_literal (n : number) : string :=
  match n with PosInt z | NegInt z => Z_to_string z | Float _ => to_json_text (JNum n) end.

Definition extracted_to_string (v : json) : option string :=
  match v with
  | JNull => None
  | JStr s => Some s
  | JBool b => Some (if b then "true" else "false")
  | JNum n => Some (number_literal n)
  | other => Some (to_json_text other)
  end.

Definition resolve_value_full (value : string) (credentials : gmap string string) (form_data files : option (gmap string string))
    (extracted : option (gmap string json)) : string :=
  let r := match files with Some fm => replace_all "file:" (fun k => fm !! trim k) 0 value | None => value end in
  let r := match extracted with
           | Some ex => replace_all "extracted:" (fun k => ex !! trim k ≫= extracted_to_string) 0 r
           | None => r
           end in
  let r := replace_all "secret:" (fun k => credentials !! k) 0 r in
  match form_data with Some fd => replace_all "" (fun k => fd !! k) 0 r | None => r end.

Definition resolve_value_with_files (value : string) (credentials : gmap string string) (form_data files : option (gmap string string)) : string :=
  resolve_value_full value credentials form_data files None.

Definition resolve_value (value : string) (credentials : gmap string string) (form_data : option (gmap string string)) : string :=
  resolve_value_with_files value credentials form_data None.

(** ** Templates *)

Inductive Kind : Type := File | Extracted | Secret | Form.
#[export] Instance Kind_eq_dec : EqDecision Kind. Proof. solve_decision. Defined.
Inductive Piece : Type := Lit (s : string) | Hole (k : Kind) (key : string).

Definition prefix_of (k : Kind) : string :=
  match k with File => "file:" | Extracted => "extracted:" | Secret => "secret:" | Form => "" end.
Definition piece_text (p : Piece) : string :=
  match p with Lit s => s | Hole k key => String.append "{{" (String.append (prefix_of k) (String.append key "}}")) end.
Definition strings (l : list string) : string := foldr String.append "" l.
Fixpoint text (t : list Piece) : string := match t with [] => "" | p :: t => String.append (piece_text p) (text t) end.

Definition plain_byte (c : ascii) : bool := negb (byte_is "{"%char c) && negb (byte_is "}"%char c).
Definition plain (s : string) : Prop := str_all plain_byte s = true.

(** No opening brace. *)
Definition no_open (s : string) : bool := str_all (fun c => negb (byte_is "{"%char c)) s.

(** Literals without opening braces; keys without braces, and form keys that do not start like another kind. *)
Definition piece_ok (p : Piece) : Prop :=
  match p with
  | Lit s => no_open s = true
  | Hole k key => key <> "" /\ plain key /\
      (k = Form -> forall k', k' <> Form -> starts_with key (prefix_of k') = false)
  end.

(** The body of a hole, and one pass on pieces. *)
Definition body (k : Kind) (key : string) : string := String.append (prefix_of k) key.
Definition pass (prefix : string) (f : string -> option string) (p : Piece) : Piece :=
  match p with
  | Lit s => p
  | Hole k key => match strip_prefix prefix (body k key) ≫= f with Some v => Lit v | None => p end
  end.

(** What a piece resolves to: its own kind's value, or else the form's under the whole body, or else itself. *)
Definition piece_value (credentials form_data files : gmap string string) (extracted : gmap string json) (p : Piece) : string :=
  match p with
  | Lit s => s
  | Hole k key =>
      let own := match k with
                 | File => files !! trim key
                 | Extracted => extracted !! trim key ≫= extracted_to_string
                 | Secret => credentials !! key
                 | Form => None
                 end in
      match own with
      | Some v => v
      | None => default (piece_text p) (form_data !! body k key)
      end
  end.
End resolve.

(** ** Lemmas *)

Lemma match_at_open (prefix : string) (c : ascii) (r : string) : byte_is "{"%char c = false -> match_at prefix (String c r) = None.
Proof.
  intros Hc. unfold match_at. destruct (strip_prefix _ _) as [q|] eqn:E; [|done].
  apply strip_prefix_Some in E. cbn in E. injection E as -> _. by vm_compute in Hc.
Qed.

Lemma match_at_single (prefix : string) (c : ascii) (r : string) : byte_is "{"%char c = false ->
  match_at prefix (String "{"%char (String c r)) = None.
Proof.
  intros Hc. unfold match_at. destruct (strip_prefix _ _) as [q|] eqn:E; [|done].
  apply strip_prefix_Some in E. cbn in E. injection E as -> _. by vm_compute in Hc.
Qed.

Lemma replace_lit (prefix : string) (f : string -> option string) (s t : string) : no_open s = true ->
  replace_all prefix f 0 (String.append s t) = String.append s (replace_all prefix f 0 t).
Proof.
  unfold no_open. induction s as [|c s IH]; [done|]. cbn [str_all String.append replace_all]. intros Hs.
  apply andb_true_iff in Hs as [Hc Hs]. apply negb_true_iff in Hc. rewrite match_at_open by done. by rewrite IH.
Qed.

Lemma replace_skip (prefix : string) (f : string -> option string) (k : nat) : forall s : string,
  replace_all prefix f k s = replace_all prefix f 0 (str_drop k s).
Proof. induction k as [|k IH]; intros s; [by destruct s|]. destruct s as [|c s]; [done|]. cbn [replace_all str_drop]. apply IH. Qed.

Lemma plain_no_open (s : string) : plain s -> no_open s = true.
Proof. apply str_all_impl. unfold plain_byte. intros c Hc. by apply andb_true_iff in Hc as [Hc _]. Qed.

Lemma key_run_close (rest : string) : key_run (String.append "}}" rest) = ("", String.append "}}" rest).
Proof. reflexivity. Qed.

Lemma key_run_plain (key t : string) : plain key -> key_run t = ("", t) -> key_run (String.append key t) = (key, t).
Proof.
  intros Hk Ht. unfold plain in Hk. induction key as [|c key IH]; [done|]. cbn [str_all] in Hk. cbn [String.append key_run].
  apply andb_true_iff in Hk as [Hc Hk]. unfold plain_byte in Hc. apply andb_true_iff in Hc as [_ Hc]. apply negb_true_iff in Hc.
  by rewrite Hc, IH.
Qed.

Lemma strip_prefix_open (p s : string) : strip_prefix (String.append "{{" p) (String.append "{{" s) = strip_prefix p s.
Proof. reflexivity. Qed.

Lemma strip_prefix_None (p s : string) : strip_prefix p s = None <-> (forall r, s <> String.append p r).
Proof.
  split.
  - intros Hn r ->. assert (H : strip_prefix p (String.append p r) = Some r) by (by apply strip_prefix_Some). by rewrite H in Hn.
  - intros Hn. destruct (strip_prefix p s) as [r|] eqn:E; [|done]. apply strip_prefix_Some in E. by destruct (Hn r).
Qed.

Lemma strip_prefix_closed (p b r : string) : plain p -> strip_prefix p b = None -> strip_prefix p (String.append b (String "}"%char r)) = None.
Proof.
  rewrite !strip_prefix_None. revert b. unfold plain. induction p as [|c p IH]; intros b Hp Hn q; [by destruct (Hn b)|].
  cbn [str_all] in Hp. apply andb_true_iff in Hp as [Hc Hp]. destruct b as [|d b]; cbn [String.append]; intros E.
  - assert (c = "}"%char) as -> by congruence. by vm_compute in Hc.
  - assert (d = c) as -> by congruence. apply (IH b Hp) with (r := q); [|congruence]. intros q' ->. by apply (Hn q').
Qed.

Lemma body_plain (k : Kind) (key : string) : plain key -> plain (body k key).
Proof. intros Hk. unfold plain, body. rewrite str_all_append. apply andb_true_iff. split; [by destruct k|done]. Qed.

Lemma hole_text (k : Kind) (key rest : string) :
  String.append (piece_text (Hole k key)) rest = String.append "{{" (String.append (body k key) (String.append "}}" rest)).
Proof. cbn. unfold body. by rewrite !append_assoc. Qed.

Lemma hole_length (k : Kind) (key : string) : String.length (piece_text (Hole k key)) = (4 + String.length (body k key))%nat.
Proof. unfold body. cbn [piece_text]. rewrite !str_length_append. cbn. lia. Qed.

Lemma replace_match (prefix : string) (f : string -> option string) (s key : string) (len : nat) :
  match_at prefix s = Some (key, len) -> (0 < len)%nat ->
  replace_all prefix f 0 s = String.append (default (str_take len s) (f key)) (replace_all prefix f 0 (str_drop len s)).
Proof.
  intros Hm Hl. destruct s as [|c r]; [done|]. cbn [replace_all]. rewrite Hm, replace_skip. destruct len as [|n]; [lia|].
  cbn [str_drop]. by rewrite Nat.sub_succ, Nat.sub_0_r.
Qed.

Lemma replace_miss (prefix : string) (f : string -> option string) (c : ascii) (r : string) :
  match_at prefix (String c r) = None -> replace_all prefix f 0 (String c r) = String c (replace_all prefix f 0 r).
Proof. intros Hm. cbn [replace_all]. by rewrite Hm. Qed.

(** A pass over a hole it matches, and over one it does not. *)
Lemma replace_hole (prefix : string) (f : string -> option string) (k : Kind) (key rest q : string) : plain key ->
  strip_prefix prefix (body k key) = Some q -> q <> "" ->
  replace_all prefix f 0 (String.append (piece_text (Hole k key)) rest) =
  String.append (default (piece_text (Hole k key)) (f q)) (replace_all prefix f 0 rest).
Proof.
  intros Hk Hq Hne. apply body_plain with (k := k) in Hk. apply strip_prefix_Some in Hq.
  assert (Hpq : plain q).
  { unfold plain in *. rewrite Hq, str_all_append in Hk. by apply andb_true_iff in Hk as [_ Hk]. }
  assert (Hm : match_at prefix (String.append (piece_text (Hole k key)) rest) = Some (q, String.length (piece_text (Hole k key)))).
  { rewrite hole_length, hole_text, Hq, append_assoc. unfold match_at. rewrite strip_prefix_open.
    assert (Hs : strip_prefix prefix (String.append prefix (String.append q (String.append "}}" rest))) = Some (String.append q (String.append "}}" rest)))
      by (by apply strip_prefix_Some).
    rewrite Hs, key_run_plain by (done || apply key_run_close). destruct q as [|c q]; [done|]. cbn [is_empty].
    assert (Hst : starts_with (String.append "}}" rest) "}}" = true) by (apply starts_with_spec; by exists rest). rewrite Hst.
    rewrite !str_length_append. do 2 f_equal. cbn. lia. }
  rewrite (replace_match _ _ _ _ _ Hm) by (rewrite hole_length; lia). by rewrite str_take_append, str_drop_append.
Qed.

Lemma replace_no_hole (prefix : string) (f : string -> option string) (k : Kind) (key rest : string) : plain key -> plain prefix -> key <> "" ->
  strip_prefix prefix (body k key) = None ->
  replace_all prefix f 0 (String.append (piece_text (Hole k key)) rest) = String.append (piece_text (Hole k key)) (replace_all prefix f 0 rest).
Proof.
  intros Hk Hp Hne Hn. rewrite !hole_text. pose proof (body_plain k key Hk) as Hb.
  assert (Hm : match_at prefix (String.append "{{" (String.append (body k key) (String.append "}}" rest))) = None).
  { unfold match_at. rewrite strip_prefix_open. change (String.append "}}" rest) with (String "}"%char (String "}"%char rest)).
    by rewrite strip_prefix_closed. }
  assert (Hm2 : match_at prefix (String "{"%char (String.append (body k key) (String.append "}}" rest))) = None).
  { destruct (body k key) as [|c b] eqn:Eb; [by destruct k, key|]. cbn [String.append]. apply match_at_single.
    unfold plain in Hb. cbn [str_all] in Hb. apply andb_true_iff in Hb as [Hb _]. unfold plain_byte in Hb.
    apply andb_true_iff in Hb as [Hb _]. by apply negb_true_iff in Hb. }
  assert (Hopen : forall t, String.append "{{" t = String "{"%char (String "{"%char t)) by reflexivity. rewrite !Hopen in *.
  rewrite (replace_miss _ _ _ _ Hm), (replace_miss _ _ _ _ Hm2). do 2 f_equal. rewrite <-!append_assoc.
  apply replace_lit. unfold no_open. rewrite str_all_append. apply andb_true_iff. split; [by apply plain_no_open|done].
Qed.

(** One pass on a template. *)
Lemma replace_template (prefix : string) (f : string -> option string) (t : list Piece) : plain prefix ->
  (forall k key, Hole k key ∈ t -> plain key /\ key <> "" /\ strip_prefix prefix (body k key) <> Some "") ->
  (forall s, Lit s ∈ t -> no_open s = true) ->
  replace_all prefix f 0 (text t) = text (pass prefix f <$> t).
Proof.
  intros Hp Hh Hl. induction t as [|p t IH]; [done|]. cbn [fmap list_fmap text].
  rewrite <-IH by (intros; (apply Hh || apply Hl); by right). destruct p as [s|k key].
  - cbn [pass piece_text]. apply replace_lit, Hl. by left.
  - destruct (Hh k key) as (Hk & Hne & Hb); [by left|]. cbn [pass].
    destruct (strip_prefix prefix (body k key)) as [q|] eqn:Eq.
    + rewrite (replace_hole _ _ _ _ _ q) by (done || congruence). cbn [mbind option_bind]. by destruct (f q).
    + by rewrite replace_no_hole.
Qed.

(** The keys of a template are what every pass needs. *)
Definition holes_ok (t : list Piece) : Prop := forall p, p ∈ t -> piece_ok p.

Lemma hole_prefix (k : Kind) (key : string) (k' : Kind) : piece_ok (Hole k key) ->
  strip_prefix (prefix_of k') (body k key) =
    if decide (k' = Form) then Some (body k key) else if decide (k' = k) then Some key else None.
Proof.
  intros (Hne & Hk & Hf). destruct (decide (k' = Form)) as [->|Hk']; [done|]. destruct (decide (k' = k)) as [<-|Hd].
  - apply strip_prefix_Some. reflexivity.
  - destruct (decide (k = Form)) as [->|Hnf]; [|by destruct k, k'].
    specialize (Hf eq_refl k' Hk'). cbn [body]. apply strip_prefix_None. intros r Hr. apply not_true_iff_false in Hf.
    apply Hf, starts_with_spec. by exists r.
Qed.

Lemma pass_hole (k : Kind) (key : string) (k' : Kind) (f : string -> option string) : piece_ok (Hole k key) ->
  pass (prefix_of k') f (Hole k key) =
    match (if decide (k' = Form) then f (body k key) else if decide (k' = k) then f key else None) with Some v => Lit v | None => Hole k key end.
Proof. intros Hp. cbn [pass]. rewrite hole_prefix by done. by repeat case_decide. Qed.

Lemma pass_lit (prefix : string) (f : string -> option string) (s : string) : pass prefix f (Lit s) = Lit s.
Proof. reflexivity. Qed.

Lemma pass_ok (k : Kind) (f : string -> option string) (p : Piece) : (forall key v, f key = Some v -> no_open v = true) ->
  piece_ok p -> piece_ok (pass (prefix_of k) f p).
Proof.
  intros Hf Hp. destruct p as [s|k' key]; [done|]. cbn [pass]. destruct (strip_prefix _ _ ≫= f) as [v|] eqn:E; [|done].
  apply bind_Some in E as (q & _ & Hv). by apply (Hf q).
Qed.

Lemma pass_template (k : Kind) (f : string -> option string) (t : list Piece) : holes_ok t ->
  replace_all (prefix_of k) f 0 (text t) = text (pass (prefix_of k) f <$> t).
Proof.
  intros Ht. apply replace_template; [by destruct k| |intros s; apply Ht]. intros k' key Hin. pose proof (Ht _ Hin) as Hp.
  rewrite hole_prefix by done. destruct Hp as (Hne & Hk & _). split_and!; [done|done|].
  repeat case_decide; [destruct k', key; cbn; congruence|congruence|done].
Qed.

Lemma passes_ok (k : Kind) (f : string -> option string) (t : list Piece) : (forall key v, f key = Some v -> no_open v = true) ->
  holes_ok t -> holes_ok (pass (prefix_of k) f <$> t).
Proof. intros Hf Ht p. rewrite list_elem_of_fmap. intros (q & -> & Hq). apply pass_ok; [done|by apply Ht]. Qed.

(** A pass whose map is absent. *)
Lemma pass_none (k : Kind) (t : list Piece) : text (pass (prefix_of k) (fun _ => None) <$> t) = text t.
Proof.
  f_equal. induction t as [|p t IH]; [done|]. cbn [fmap list_fmap]. rewrite IH. f_equal. destruct p as [s|k' key]; [done|].
  cbn [pass]. by destruct (strip_prefix _ _).
Qed.

Section flat.
Context (to_json_text : json -> string) (credentials : gmap string string).
Context (form_data files : option (gmap string string)) (extracted : option (gmap string json)).

Definition file_of (k : string) : option string := default ∅ files !! trim k.
Definition extracted_of (k : string) : option string := default ∅ extracted !! trim k ≫= extracted_to_string to_json_text.
Definition form_of (k : string) : option string := default ∅ form_data !! k.
Definition all_passes (p : Piece) : Piece :=
  pass "" form_of (pass "secret:" (fun k => credentials !! k) (pass "extracted:" extracted_of (pass "file:" file_of p))).

Lemma all_passes_value (p : Piece) : piece_ok p ->
  piece_text (all_passes p) = piece_value to_json_text credentials (default ∅ form_data) (default ∅ files) (default ∅ extracted) p.
Proof.
  intros Hp. destruct p as [s|k key]; [done|].
  assert (Hs : forall k' f, pass (prefix_of k') f (Hole k key) = _) by (intros k' f; by apply pass_hole).
  unfold all_passes, piece_value. change "file:" with (prefix_of File). change "extracted:" with (prefix_of Extracted).
  change "secret:" with (prefix_of Secret). change (pass "") with (pass (prefix_of Form)). fold (file_of key) (extracted_of key).
  rewrite (Hs File). destruct k; (do 2 (rewrite ?decide_False, ?decide_True by done));
    [destruct (file_of key)|destruct (extracted_of key) eqn:E|destruct (credentials !! key) eqn:E|];
    rewrite ?(Hs Extracted), ?(Hs Secret); repeat (rewrite ?decide_False, ?decide_True, ?E, ?pass_lit, ?(Hs Secret), ?(Hs Form) by done);
    try done; unfold form_of; match goal with |- context [match ?o with Some _ => _ | None => _ end] => by destruct o end.
Qed.
End flat.

Lemma text_strings (t : list Piece) : text t = strings (piece_text <$> t).
Proof. induction t as [|p t IH]; [done|]. cbn [text fmap list_fmap strings foldr]. by rewrite IH. Qed.

(** A pass that may be absent, as the source guards it. *)
Lemma pass_opt {A} (k : Kind) (m : option (gmap string A)) (g : gmap string A -> string -> option string) (t : list Piece) :
  holes_ok t -> (forall key, g ∅ key = None) ->
  match m with Some x => replace_all (prefix_of k) (g x) 0 (text t) | None => text t end = text (pass (prefix_of k) (g (default ∅ m)) <$> t).
Proof.
  intros Ht Hg. destruct m as [x|]; [by apply pass_template|]. cbn [default from_option]. rewrite <-(pass_none k t) at 1. f_equal.
  apply list_fmap_ext. intros _ p _. destruct p as [s|k' key]; [done|]. cbn [pass]. destruct (strip_prefix _ _); cbn; by rewrite ?Hg.
Qed.

(** The values the first three passes put in have no opening brace. *)
Definition values_ok (to_json_text : json -> string) (credentials : gmap string string) (files : option (gmap string string))
    (extracted : option (gmap string json)) : Prop :=
  (forall k v, file_of files k = Some v -> no_open v = true) /\
  (forall k v, extracted_of to_json_text extracted k = Some v -> no_open v = true) /\
  (forall k v, credentials !! k = Some v -> no_open v = true).

(** The four successive textual passes of the step's placeholder resolver amount to one substitution: on a template of
    literals and well-formed holes (any number of holes of each kind, any of the four maps absent), the result is the
    concatenation of each hole's own value, with the form data looked up under the whole body when the hole's own map has no
    value for it, and the hole left verbatim when that fails too, provided that no substituted file path, extracted value or
    secret contains an opening brace. *)
Theorem resolve_flat (to_json_text : json -> string) (t : list Piece) (credentials : gmap string string)
    (form_data files : option (gmap string string)) (extracted : option (gmap string json)) :
  holes_ok t -> values_ok to_json_text credentials files extracted ->
  resolve_value_full to_json_text (text t) credentials form_data files extracted =
  strings (piece_value to_json_text credentials (default ∅ form_data) (default ∅ files) (default ∅ extracted) <$> t).
Proof.
  intros Ht (Hf & He & Hc). unfold resolve_value_full.
  rewrite (pass_opt File files (fun fm k => fm !! trim k)) by (done || intros; apply lookup_empty).
  assert (H1 : holes_ok (pass (prefix_of File) (file_of files) <$> t)) by (by apply passes_ok).
  rewrite (pass_opt Extracted extracted (fun ex k => ex !! trim k ≫= extracted_to_string to_json_text)) by (exact H1 || (intros; by rewrite lookup_empty)).
  apply (passes_ok Extracted (extracted_of to_json_text extracted)) in H1 as H2; [|done].
  rewrite (pass_template Secret) by exact H2.
  apply (passes_ok Secret (fun k => credentials !! k)) in H2 as H3; [|done].
  rewrite (pass_opt Form form_data (fun fd k => fd !! k)) by (exact H3 || (intros; apply lookup_empty)).
  rewrite text_strings, <-!list_fmap_compose. f_equal. apply list_fmap_ext. intros i p Hp. cbn [compose].
  apply (all_passes_value to_json_text credentials form_data files extracted p), Ht, list_elem_of_lookup. by exists i.
Qed.

(** ** What the hypotheses exclude *)

Definition demo_secrets : gmap string string := {["pw" := "hunter2"]}.

(** A value scraped from a page that spells a secret's placeholder is expanded by the secret pass. *)
Example secret_injection :
  resolve_value_full (fun _ => "") "q={{extracted:name}}" demo_secrets None None (Some {["name" := JStr "{{secret:pw}}"]}) = "q=hunter2".
Proof. vm_compute. reflexivity. Qed.

(** An unresolved secret is looked up in the form data, prefix included. *)
Example secret_falls_through :
  resolve_value (fun _ => "") "{{secret:x}}" demo_secrets (Some {["secret:x" := "form"]}) = "form".
Proof. vm_compute. reflexivity. Qed.

Definition demo_template : list Piece :=
  [Lit "u="; Hole Form "user"; Lit "&p="; Hole Secret "pw"; Lit "&c="; Hole Extracted " csrf "; Lit "}"; Hole File "cv"; Hole Secret "gone"].

Lemma demo_values_ok : values_ok (fun _ => "") demo_secrets None (Some {["csrf" := JNum (PosInt 42)]}).
Proof.
  unfold demo_secrets. split_and!; intros k v.
  - unfold file_of. cbn. by rewrite lookup_empty.
  - unfold extracted_of. cbn. destruct (decide (trim k = "csrf")) as [->|Hk].
    + rewrite lookup_singleton_eq. intros [= <-]. by vm_compute.
    + rewrite lookup_singleton_ne by done. done.
  - intros [<- <-]%lookup_singleton_Some. by vm_compute.
Qed.

Lemma resolve_flat_witness :
  resolve_value_full (fun _ => "") "u={{user}}&p={{secret:pw}}&c={{extracted: csrf }}}{{file:cv}}{{secret:gone}}" demo_secrets
    (Some {["user" := "{{secret:pw}}"]}) None (Some {["csrf" := JNum (PosInt 42)]}) =
  "u={{secret:pw}}&p=hunter2&c=42}{{file:cv}}{{secret:gone}}".
Proof.
  refine (eq_trans (resolve_flat (fun _ => "") demo_template demo_secrets (Some {["user" := "{{secret:pw}}"]}) None
    (Some {["csrf" := JNum (PosInt 42)]}) _ demo_values_ok) _).
  - refine (proj1 (Forall_forall piece_ok demo_template) _). repeat (constructor; [first [reflexivity | split_and!; [done|reflexivity|]; intros E [] Hn; reflexivity || done]|]).
    constructor.
  - vm_compute. reflexivity.
Defined.
