(* ===== verification/HttpLane.v ===== *)
(** * automation/http_lane/mod.rs: the request driver of the browserless lane

    The lane runs in a state [Lane]: the executor, the variables and tokens of the recipe's runner, the guard's table of
    host verdicts and the log of what was done.
    The network, the resolver and the clocks are functions of the log, so they answer as they please; the URL library,
    the HTTP types and the iteration order of the header table are the rest of the interface [HttpNet]. [Opened] marks
    the start of a request in the log and has no counterpart in the code; the default headers of the client
    (user agent, language) are not in the log. *)

From Stdlib Require Import Ascii String.
From S2P Require Import Prelude Ints F64 Str Json Extract IpAddr.
From S2P Require UrlGuard CookieJar.
Open Scope string_scope.
Open Scope Z_scope.

(** ** Data *)

Inductive FallbackReason : Type := ChallengePage | HtmlNotJson | LoginLoop | AuthFailed | Network | Unsupported.
#[export] Instance FallbackReason_eq_dec : EqDecision FallbackReason.
Proof. solve_decision. Defined.

Definition fallback_str (r : FallbackReason) : string :=
  match r with
  | ChallengePage => "challenge_page"
  | HtmlNotJson => "html_not_json"
  | LoginLoop => "login_loop"
  | AuthFailed => "auth_failed"
  | Network => "network"
  | Unsupported => "unsupported"
  end.

Inductive ParkKind : Type := Twofa (message : string) | Attention (message : string).

(** The messages of a fatal error, up to the text of a library's own error. *)
Inductive fatal : Type :=
| BadUrl (url : string)
| BlockedBySsrfGuard (url : string)
| BadMethod (method : string)
| BadLocation (location : string)
| BadProxy (server : string)
| ClientBuildFailed
| NoUrlProvided
| RunCancelled.

Inductive HttpLaneError : Type :=
| Fallback (r : FallbackReason)
| Fatal (f : fatal)
| Parked (p : ParkKind).

Definition is_fallback (r : FallbackReason) (e : HttpLaneError) : bool :=
  match e with Fallback r' => bool_decide (r = r') | _ => false end.

(** What the lane reads of a parsed URL. *)
Record Url : Type := mkUrl {
  as_str : string;
  u_scheme : string;
  u_host : option string;
  u_path : string;
  query_pairs : list (string * string);
}.

Definition guard_url (u : Url) : UrlGuard.url := UrlGuard.mkUrl (u_scheme u) (u_host u).
Definition jar_url (u : Url) : CookieJar.request_url := CookieJar.mkReq (u_scheme u) (u_host u) (u_path u).

(** A request handed to the client. *)
Record Request : Type := mkRequest {
  rq_method : string;
  rq_url : Url;
  rq_headers : list (string * string);
  rq_body : option string;
}.

(** What comes back: header names in lower case, a value that is not text is [None]; [None] for a body over the budget or
    a failed read. *)
Record Reply : Type := mkReply {
  rp_status : Z;
  rp_headers : list (string * option string);
  rp_body : option string;
}.

Record HttpResponse : Type := mkResponse {
  status : Z;
  headers : list (string * string);
  body : string;
  json_body : option json;
  final_url : Url;
  redirect_chain : list Url;
  elapsed_ms : Z;
}.

Record SessionState : Type := mkSession {
  s_cookies : list json;
  s_headers : gmap string string;
  local_storage : gmap string string;
  session_storage : gmap string string;
  extracted_at : option string;
  fingerprint : option json;
  s_tokens : option json;
}.

Record HttpProxyConfig : Type := mkProxy {
  server : string;
  username : option string;
  password : option string;
  bypass : option string;
}.

Record HttpLaneOptions : Type := mkOptions {
  o_fingerprint : option json;
  o_proxy : option HttpProxyConfig;
  o_session : option SessionState;
  o_entry_url : option string;
}.

(** The identity and the egress of the client. *)
Record Client : Type := mkClient {
  user_agent : string;
  accept_language : option string;
  proxy_server : option string;
  proxy_auth : option (string * string);
  no_proxy : option string;
}.

Record HttpLaneExecutor : Type := mkExec {
  client : Client;
  jar : CookieJar.CookieJar;
  sticky_headers : gmap string string;
  entry_registrable : option string;
  seeded_state : option SessionState;
  token_store : option json;
}.

Inductive StepPhase : Type := Running | Succeeded | Skipped | Failed.

Inductive Event : Type :=
| Opened (origin : option string)
| Clock
| Vetted (url : string) (safe : bool)
| Sent (r : Request)
| OnStep (index : nat) (step_type : string) (phase : StepPhase)
| Slept (ms : Z).

(** [vars] and [tokens] are those of the recipe's runner. *)
Record Lane : Type := mkLane {
  exec : HttpLaneExecutor;
  vars : gmap string json;
  tokens : gmap string json;
  dns : gmap string (UrlGuard.HostVerdict * Z);
  log : list Event;
}.

Definition set_exec (e : HttpLaneExecutor) (s : Lane) : Lane := mkLane e (vars s) (tokens s) (dns s) (log s).
Definition set_vars (v : gmap string json) (s : Lane) : Lane := mkLane (exec s) v (tokens s) (dns s) (log s).
Definition set_tokens (t : gmap string json) (s : Lane) : Lane := mkLane (exec s) (vars s) t (dns s) (log s).
Definition set_jar (j : CookieJar.CookieJar) (e : HttpLaneExecutor) : HttpLaneExecutor :=
  mkExec (client e) j (sticky_headers e) (entry_registrable e) (seeded_state e) (token_store e).
Definition set_sticky (h : gmap string string) (e : HttpLaneExecutor) : HttpLaneExecutor :=
  mkExec (client e) (jar e) h (entry_registrable e) (seeded_state e) (token_store e).
Definition push (ev : Event) (s : Lane) : Lane := mkLane (exec s) (vars s) (tokens s) (dns s) (ev :: log s).

Class HttpNet : Type := {
  url_parse : string -> option Url;
  url_join : Url -> string -> option Url;
  (** [Method::from_bytes] *)
  method_ok : string -> bool;
  unicode_upper : string -> string;
  parse_rfc2822 : string -> option Z;
  parse_netscape_date : string -> option Z;
  header_value_ok : string -> bool;
  proxy_ok : string -> bool;
  client_ok : Client -> bool;
  header_order : gmap string string -> list (string * string);
  header_order_perm : forall m, header_order m ≡ₚ map_to_list m;
  token_order : gmap string json -> list (string * json);
  token_order_perm : forall m, token_order m ≡ₚ map_to_list m;
  lookup_host : list Event -> string -> Z -> option (list ip_addr);
  instant : list Event -> Z;
  epoch : list Event -> f64;
  rfc3339 : list Event -> string;
  answer : list Event -> Request -> option Reply;
  (** the observer of a run *)
  is_cancelled : list Event -> bool;
}.

(** ** The effects *)

Definition L (A : Type) : Type := Lane -> result A HttpLaneError * Lane.

Definition ret {A : Type} (a : A) : L A := fun s => (Ok a, s).
Definition fail {A : Type} (e : HttpLaneError) : L A := fun s => (Err e, s).
Definition bind {A B : Type} (m : L A) (k : A -> L B) : L B :=
  fun s => match m s with (Ok a, s) => k a s | (Err e, s) => (Err e, s) end.
Definition gets {A : Type} (f : HttpLaneExecutor -> A) : L A := fun s => (Ok (f (exec s)), s).
Definition modify (f : HttpLaneExecutor -> HttpLaneExecutor) : L unit := fun s => (Ok tt, set_exec (f (exec s)) s).
Definition read {A : Type} (f : Lane -> A) : L A := fun s => (Ok (f s), s).
Definition insert_var (k : string) (v : json) : L unit := fun s => (Ok tt, set_vars (<[k := v]> (vars s)) s).
Definition insert_token (k : string) (v : json) : L unit := fun s => (Ok tt, set_tokens (<[k := v]> (tokens s)) s).
Definition note (ev : Event) : L unit := fun s => (Ok tt, push ev s).

Declare Scope lane_scope.
Delimit Scope lane_scope with lane.
Notation "'let@' x ':=' c 'in' k" := (bind c (fun x => k)) (at level 10, x pattern, c at level 100, k at level 200) : lane_scope.
Notation "c ;@ k" := (bind c (fun _ => k)) (at level 100, k at level 200, right associativity) : lane_scope.
Open Scope lane_scope.

Definition MAX_REDIRECTS : nat := 10.
Definition DEFAULT_UA : string :=
  "Mozilla/5.0 (Macintosh; Intel Mac OS X 10_15_7) AppleWebKit/537.36 (KHTML, like Gecko) Chrome/124.0.0.0 Safari/537.36".

Definition AUTH_HEADERS : list string := ["authorization"; "cookie"; "x-api-key"; "x-auth-token"; "api-key"].
Definition is_auth_header (name : string) : bool := any (str_eqb (to_ascii_lowercase name)) AUTH_HEADERS.

(** The last two labels of a host. *)
Definition registrable_domain (host : string) : string :=
  let labels := split "."%char host in
  if (length labels <=? 2)%nat then host else join "." (drop (length labels - 2) labels).

Definition fingerprint_headers (fp : option json) : string * string :=
  let field k := fp ≫= (fun f => get f k ≫= json_as_str) in
  let ua := default DEFAULT_UA (field "user_agent") in
  let locale := default "en-US" (field "locale") in
  let base := default "en" (head (split_by (fun c => byte_is "-"%char c || byte_is "_"%char c) locale)) in
  (ua, String.append locale (String.append "," (String.append base ";q=0.9"))).

Definition normalize_proxy_url (server : string) : string :=
  if contains server "://" then server else String.append "http://" server.

Section lane.
Context `{ExtractLibs, HttpNet}.

Definition parse_guard (s : string) : option UrlGuard.url := guard_url <$> url_parse s.

(** The clock of the cookie jar. *)
Definition now_epoch : L f64 := fun s => (Ok (epoch (log s)), push Clock s).
Definition now_instant : L Z := fun s => (Ok (instant (log s)), push Clock s).

(** ** The executor *)

Definition new (o : HttpLaneOptions) : result HttpLaneExecutor HttpLaneError :=
  let '(ua, lang) := fingerprint_headers (o_fingerprint o) in
  let lang := if header_value_ok lang then Some lang else None in
  let build c :=
    if client_ok c then
      Ok (mkExec c
            (match o_session o with
             | Some s => CookieJar.from_session_cookies unicode_upper (s_cookies s)
             | None => CookieJar.jar_new
             end)
            (match o_session o with Some s => s_headers s | None => ∅ end)
            ((o_entry_url o ≫= url_parse) ≫= (fun u => registrable_domain <$> u_host u))
            (o_session o)
            (o_session o ≫= s_tokens))
    else Err (Fatal ClientBuildFailed) in
  match o_proxy o with
  | None => build (mkClient ua lang None None None)
  | Some p =>
      let server := normalize_proxy_url (server p) in
      if proxy_ok server then
        build (mkClient ua lang (Some server)
                 (match username p, password p with Some u, Some pw => Some (u, pw) | _, _ => None end) (bypass p))
      else Err (Fatal (BadProxy server))
  end.

Definition merge_tokens (tokens : json) (e : HttpLaneExecutor) : HttpLaneExecutor :=
  mkExec (client e) (jar e) (sticky_headers e) (entry_registrable e) (seeded_state e) (Some tokens).

Definition has_session (e : HttpLaneExecutor) : bool :=
  negb (bool_decide (CookieJar.cookies (jar e) = [])) || negb (bool_decide (sticky_headers e = ∅)).

Definition cookie_value (e : HttpLaneExecutor) (name : string) : option string := CookieJar.value_of (jar e) name.

Definition set_sticky_header (name value : string) (e : HttpLaneExecutor) : HttpLaneExecutor :=
  set_sticky (<[name := value]> (sticky_headers e)) e.

(** The header of one token of the store. *)
Definition seed_token (e : HttpLaneExecutor) (entry : json) : HttpLaneExecutor :=
  match get entry "header" ≫= json_as_str, get entry "value" ≫= json_as_str with
  | Some header, Some value =>
      set_sticky_header header (String.append (default "" (get entry "prefix" ≫= json_as_str)) value) e
  | _, _ => e
  end.

Definition seed_tokens (tokens : json) (e : HttpLaneExecutor) : HttpLaneExecutor :=
  match json_as_object tokens with
  | Some m => foldl seed_token e m.*2
  | None => e
  end.

Definition export_session_state (s : Lane) : SessionState :=
  let e := exec s in
  let state := default (mkSession [] ∅ ∅ ∅ None None None) (seeded_state e) in
  mkSession (CookieJar.to_session_cookies (jar e)) (sticky_headers e ∪ s_headers state) (local_storage state)
    (session_storage state) (Some (rfc3339 (log s))) (fingerprint state)
    (match token_store e with Some t => Some t | None => s_tokens state end).

(** ** A request *)

(** [is_navigation_url_safe_async]. *)
Definition vet_url (u : string) : L bool :=
  fun s =>
    let '(reason, c) := UrlGuard.refusal_reason_inner parse_guard (lookup_host (log s)) (instant (log s)) (instant (Clock :: log s)) (dns s) u true in
    let safe := bool_decide (reason = None) in
    (Ok safe, mkLane (exec s) (vars s) (tokens s) c (Vetted u safe :: log s)).

Definition send (r : Request) : L Reply :=
  fun s => (match answer (log s) r with Some p => Ok p | None => Err (Fallback Network) end, push (Sent r) s).


Definition to_uppercase (s : string) : string :=
  if str_all (fun c => byte_val c <? 128) s then to_ascii_uppercase s else unicode_upper s.

Definition registrable (u : Url) : option string := registrable_domain <$> u_host u.

(** The [Cookie] header for a URL, when it is sent. *)
Definition cookie_header (u : Url) (cross_site : bool) : L (list (string * string)) :=
  let@ now := now_epoch in
  let@ c := gets (fun e => CookieJar.cookie_header_for (jar e) (jar_url u) now) in
  ret (match c with Some c => if negb cross_site then [("cookie", c)] else [] | None => [] end).

Definition outgoing_headers (sticky : gmap string string) (hs : list (string * string)) (cross_site : bool) : list (string * string) :=
  retain (fun kv => negb (cross_site && is_auth_header (fst kv))) (header_order sticky ++ hs).

Definition allows_body (method : string) : bool := negb (str_eqb method "GET") && negb (str_eqb method "HEAD").

Definition header_values (name : string) (hs : list (string * option string)) : list (option string) :=
  snd <$> retain (fun kv => str_eqb (fst kv) name) hs.

Fixpoint store_cookies (u : Url) (vs : list (option string)) : L unit :=
  match vs with
  | [] => ret tt
  | None :: vs => store_cookies u vs
  | Some v :: vs =>
      let@ wall := now_epoch in
      let@ now := now_epoch in
      modify (fun e => set_jar (CookieJar.store_set_cookie unicode_upper parse_rfc2822 parse_netscape_date (jar e) wall now (jar_url u) v) e) ;@
      store_cookies u vs
  end.

(** The target of a redirect. *)
Definition location (p : Reply) : option string :=
  if (300 <=? rp_status p) && (rp_status p <? 400) then head (header_values "location" (rp_headers p)) ≫= id else None.

(** 301, 302 and 303 turn the request into a [GET] without body. *)
Definition redirected (status : Z) (method : string) (body : option string) : string * option string :=
  if (301 <=? status) && (status <=? 303) then ("GET", None) else (method, body).

Definition terminal (start : Z) (u : Url) (chain : list Url) (p : Reply) : L HttpResponse :=
  match rp_body p with
  | None => fail (Fallback Network)
  | Some text =>
      let@ end_ := now_instant in
      ret (mkResponse (rp_status p) ((fun kv => (fst kv, default "" (snd kv))) <$> rp_headers p) text (json_from_str text) u chain
             (as_u64 ((end_ - start) / 1000000)))
  end.

(** The loop over the hops. *)
Fixpoint hops (n : nat) (start : Z) (origin : option string) (hs : list (string * string)) (method : string) (u : Url)
    (body : option string) (chain : list Url) : L HttpResponse :=
  match n with
  | O => fail (Fallback LoginLoop)
  | S n =>
      let@ safe := vet_url (as_str u) in
      if negb safe then fail (Fatal (BlockedBySsrfGuard (as_str u))) else
      let cross_site := negb (bool_decide (registrable u = origin)) in
      if negb (method_ok method) then fail (Fatal (BadMethod method)) else
      let@ sticky := gets sticky_headers in
      let@ cookie := cookie_header u cross_site in
      let@ reply := send (mkRequest method u (outgoing_headers sticky hs cross_site ++ cookie)
                            (if allows_body method then body else None)) in
      store_cookies u (header_values "set-cookie" (rp_headers reply)) ;@
      match location reply with
      | Some loc =>
          match url_join u loc with
          | None => fail (Fatal (BadLocation loc))
          | Some next =>
              let '(method, body) := redirected (rp_status reply) method body in
              hops n start origin hs method next body (chain ++ [next])
          end
      | None => terminal start u chain reply
      end
  end.

Definition request (method url : string) (hs : list (string * string)) (body : option string) : L HttpResponse :=
  let@ start := now_instant in
  match url_parse url with
  | None => fail (Fatal (BadUrl url))
  | Some u =>
      note (Opened (registrable u)) ;@
      hops (S MAX_REDIRECTS) start (registrable u) hs (to_uppercase method) u body []
  end.
End lane.

(** ** Program logic *)

(** From [P], a result satisfies [Q] and an error leaves [E]. *)
Definition triple {A : Type} (P : Lane -> Prop) (m : L A) (Q : A -> Lane -> Prop) (E : Lane -> Prop) : Prop :=
  forall s, P s -> match m s with (Ok a, s') => Q a s' | (Err _, s') => E s' end.

Lemma triple_ret {A : Type} (a : A) (P : Lane -> Prop) (Q : A -> Lane -> Prop) (E : Lane -> Prop) :
  (forall s, P s -> Q a s) -> triple P (ret a) Q E.
Proof. intros HQ s Hs. by apply HQ. Qed.

Lemma triple_fail {A : Type} (e : HttpLaneError) (P : Lane -> Prop) (Q : A -> Lane -> Prop) (E : Lane -> Prop) :
  (forall s, P s -> E s) -> triple P (fail e) Q E.
Proof. intros HE s Hs. by apply HE. Qed.

Lemma triple_bind {A B : Type} (m : L A) (k : A -> L B) (P E : Lane -> Prop) (R : A -> Lane -> Prop) (Q : B -> Lane -> Prop) :
  triple P m R E -> (forall a, triple (R a) (k a) Q E) -> triple P (bind m k) Q E.
Proof. intros Hm Hk s Hs. unfold bind. specialize (Hm s Hs). destruct (m s) as [[a|e] s']; [|done]. by apply Hk. Qed.

Lemma triple_conseq {A : Type} (m : L A) (P P' E E' : Lane -> Prop) (Q Q' : A -> Lane -> Prop) :
  triple P' m Q' E' -> (forall s, P s -> P' s) -> (forall a s, Q' a s -> Q a s) -> (forall s, E' s -> E s) -> triple P m Q E.
Proof. intros Hm HP HQ HE s Hs. specialize (Hm s (HP s Hs)). destruct (m s) as [[a|e] s']; auto. Qed.

(** An invariant of the state, whatever the outcome. *)
Notation keeps P m := (triple P m (fun _ => P) P).

Lemma kept_bind {A B : Type} (m : L A) (k : A -> L B) (P : Lane -> Prop) :
  keeps P m -> (forall a, keeps P (k a)) -> keeps P (bind m k).
Proof. intros Hm Hk. by eapply triple_bind. Qed.

Lemma keeps_step {A B : Type} (m : L A) (k : A -> L B) (P E : Lane -> Prop) (Q : B -> Lane -> Prop) :
  keeps P m -> (forall s, P s -> E s) -> (forall a, triple P (k a) Q E) -> triple P (bind m k) Q E.
Proof. intros Hm HE Hk. eapply triple_bind; [|exact Hk]. by eapply triple_conseq. Qed.

Lemma kept_weaken {A : Type} (m : L A) (P R : Lane -> Prop) :
  keeps P m -> (forall s, P s -> R s) -> triple P m (fun _ => R) R.
Proof. intros Hm HR. by eapply triple_conseq. Qed.

Lemma kept_ret {A : Type} (a : A) (P : Lane -> Prop) : keeps P (ret a).
Proof. by apply triple_ret. Qed.

Lemma keeps_fail {A : Type} (e : HttpLaneError) (P : Lane -> Prop) : keeps P (fail (A := A) e).
Proof. by apply triple_fail. Qed.

Lemma keeps_gets {A : Type} (f : HttpLaneExecutor -> A) (P : Lane -> Prop) : keeps P (gets f).
Proof. by intros s Hs. Qed.

(** A property of the log alone. *)
Definition of_log (P : list Event -> Prop) (s : Lane) : Prop := P (log s).

Lemma keeps_modify (f : HttpLaneExecutor -> HttpLaneExecutor) (P : list Event -> Prop) : keeps (of_log P) (modify f).
Proof. by intros s Hs. Qed.
Lemma keeps_read {A : Type} (f : Lane -> A) (P : Lane -> Prop) : keeps P (read f).
Proof. by intros s Hs. Qed.
Lemma keeps_insert_var (k : string) (v : json) (P : list Event -> Prop) : keeps (of_log P) (insert_var k v).
Proof. by intros s Hs. Qed.
Lemma keeps_insert_token (k : string) (v : json) (P : list Event -> Prop) : keeps (of_log P) (insert_token k v).
Proof. by intros s Hs. Qed.

Create HintDb lane.
#[export] Hint Resolve kept_bind kept_ret keeps_fail keeps_gets keeps_modify keeps_read keeps_insert_var keeps_insert_token : lane.

(** ** The audit of a log *)

Section audit.
Context `{ExtractLibs, HttpNet}.

(** The current request's entry site, the last URL the guard let through, and the requests sent since the request opened. *)
Record Watch : Type := mkWatch {
  w_origin : option (option string);
  w_vetted : option string;
  w_sent : nat;
}.

(** What the guard's redirect check lets through, or an address without a network host. *)
Definition url_ok (u : string) : bool :=
  UrlGuard.safe_prefix u || UrlGuard.relative_path u || UrlGuard.is_redirect_target_safe parse_guard u.

Definition sent_ok (w : Watch) (r : Request) : bool :=
  match w_origin w with
  | None => false
  | Some origin =>
      bool_decide (w_vetted w = Some (as_str (rq_url r))) && url_ok (as_str (rq_url r)) && (w_sent w <? S MAX_REDIRECTS)%nat
      && method_ok (rq_method r)
      && (bool_decide (registrable (rq_url r) = origin) || all (fun kv => negb (is_auth_header (fst kv))) (rq_headers r))
      && (allows_body (rq_method r) || bool_decide (rq_body r = None))
  end.

Definition watch (ev : Event) (w : Watch) : option Watch :=
  match ev with
  | Opened origin => Some (mkWatch (Some origin) None 0)
  | Clock | OnStep _ _ _ | Slept _ => Some w
  | Vetted u safe => Some (mkWatch (w_origin w) (if safe then Some u else None) (w_sent w))
  | Sent r => if sent_ok w r then Some (mkWatch (w_origin w) None (S (w_sent w))) else None
  end.

Fixpoint audit (l : list Event) : option Watch :=
  match l with
  | [] => Some (mkWatch None None 0)
  | ev :: l => audit l ≫= watch ev
  end.

Definition of_audit (P : option Watch -> Prop) : Lane -> Prop := of_log (fun l => P (audit l)).
Definition audited : Lane -> Prop := of_audit is_Some.

(** Within a request: [n] more may be sent; and the guard has let [u] through. *)
Definition inside (n : nat) (origin : option string) : Lane -> Prop :=
  of_audit (fun o => exists w, o = Some w /\ w_origin w = Some origin /\ (w_sent w + n <= S MAX_REDIRECTS)%nat).
Definition vetted (n : nat) (origin : option string) (u : string) : Lane -> Prop :=
  of_audit (fun o => exists w, o = Some w /\ w_origin w = Some origin /\ (w_sent w + n <= S MAX_REDIRECTS)%nat /\
    w_vetted w = Some u /\ url_ok u = true).

Lemma inside_audited (n : nat) (origin : option string) (s : Lane) : inside n origin s -> audited s.
Proof. intros (w & Hw & _). by exists w. Qed.

Lemma vetted_inside (n : nat) (origin : option string) (u : string) (s : Lane) : vetted n origin u s -> inside n origin s.
Proof. intros (w & Hw & Ho & Hn & _). by exists w. Qed.

Lemma refusal_none (lookup : string -> Z -> option (list ip_addr)) (r w : Z) (c : gmap string (UrlGuard.HostVerdict * Z)) (u : string) (fc : bool) :
  fst (UrlGuard.refusal_reason_inner parse_guard lookup r w c u fc) = None -> url_ok u = true.
Proof.
  unfold UrlGuard.refusal_reason_inner, url_ok, UrlGuard.is_redirect_target_safe.
  destruct (is_empty u); [done|]. destruct (UrlGuard.safe_prefix u); [done|]. destruct (UrlGuard.relative_path u); [done|].
  destruct (parse_guard u) as [p|]; [|done]. destruct (UrlGuard.http_scheme _); [|done]. cbn [negb].
  destruct (UrlGuard.host_str p) as [h|]; [|done]. destruct (UrlGuard.host_blocked h); [done|]. by destruct (UrlGuard.literal_blocked h).
Qed.

Lemma vet_triple (n : nat) (origin : option string) (u : string) :
  triple (inside n origin) (vet_url u) (fun safe => if safe then vetted n origin u else inside n origin) (inside n origin).
Proof.
  intros s (w & Hw & Ho & Hn). unfold vet_url. pose proof (refusal_none (lookup_host (log s)) (instant (log s)) (instant (Clock :: log s)) (dns s) u true) as Hr.
  destruct (UrlGuard.refusal_reason_inner _ _ _ _ _ _ _) as [reason c]. cbn [fst] in Hr.
  case_bool_decide as Hd; eexists; cbn [log audit]; rewrite Hw; (split; [reflexivity|]); cbn [w_origin w_sent w_vetted]; auto.
Qed.

Lemma audit_clock (l : list Event) : audit (Clock :: l) = audit l.
Proof. cbn. by destruct (audit l). Qed.

Lemma keeps_epoch (P : option Watch -> Prop) : keeps (of_audit P) now_epoch.
Proof. intros s Hs. unfold now_epoch, of_audit, of_log in *. cbn [push log]. by rewrite audit_clock. Qed.
Lemma keeps_instant (P : option Watch -> Prop) : keeps (of_audit P) now_instant.
Proof. intros s Hs. unfold now_instant, of_audit, of_log in *. cbn [push log]. by rewrite audit_clock. Qed.
Local Hint Resolve keeps_epoch keeps_instant : lane.

Lemma keeps_cookie_header (P : option Watch -> Prop) (u : Url) (b : bool) : keeps (of_audit P) (cookie_header u b).
Proof. unfold cookie_header. auto with lane. Qed.

Lemma keeps_store_cookies (P : option Watch -> Prop) (u : Url) (vs : list (option string)) : keeps (of_audit P) (store_cookies u vs).
Proof.
  induction vs as [|[v|] vs IH]; [by apply kept_ret| |exact IH]. cbn [store_cookies].
  apply kept_bind; [auto with lane|intros wall]. apply kept_bind; [auto with lane|intros now]. apply kept_bind; [|done].
  apply keeps_modify.
Qed.

Lemma keeps_terminal (P : option Watch -> Prop) (start : Z) (u : Url) (chain : list Url) (p : Reply) :
  keeps (of_audit P) (terminal start u chain p).
Proof. unfold terminal. destruct (rp_body p); auto with lane. Qed.
Local Hint Resolve keeps_cookie_header keeps_store_cookies keeps_terminal : lane.

Lemma cookie_header_triple (P E : Lane -> Prop) (u : Url) (cross : bool) : keeps P now_epoch -> (forall s, P s -> E s) ->
  triple P (cookie_header u cross) (fun c s => P s /\ (cross = true -> c = [])) E.
Proof.
  intros HP HE. unfold cookie_header. apply keeps_step; [done|done|intros now]. apply keeps_step; [apply keeps_gets|done|intros c].
  apply triple_ret. intros s Hs. split; [done|intros ->]. by destruct c.
Qed.

Lemma outgoing_no_auth (sticky : gmap string string) (hs : list (string * string)) :
  all (fun kv => negb (is_auth_header (fst kv))) (outgoing_headers sticky hs true) = true.
Proof. apply all_true. intros kv Hkv. by apply elem_of_retain in Hkv as [Hkv _]. Qed.

Lemma send_triple (n : nat) (origin : option string) (r : Request) :
  method_ok (rq_method r) = true ->
  (registrable (rq_url r) <> origin -> all (fun kv => negb (is_auth_header (fst kv))) (rq_headers r) = true) ->
  (allows_body (rq_method r) = false -> rq_body r = None) ->
  triple (vetted (S n) origin (as_str (rq_url r))) (send r) (fun _ => inside n origin) (inside n origin).
Proof.
  intros Hm Hh Hb s (w & Hw & Ho & Hn & Hv & Hu).
  assert (Hok : sent_ok w r = true).
  { unfold sent_ok. rewrite Ho, Hv, bool_decide_eq_true_2, Hu, Hm by done. cbn [andb].
    assert (Hlt : (w_sent w <? S MAX_REDIRECTS)%nat = true) by (apply Nat.ltb_lt; lia). rewrite Hlt. cbn [andb].
    apply andb_true_iff. split; apply orb_true_iff.
    - destruct (decide (registrable (rq_url r) = origin)) as [E|E]; [left; by rewrite bool_decide_eq_true_2|right; by apply Hh].
    - destruct (allows_body (rq_method r)); [by left|right]. by rewrite Hb, bool_decide_eq_true_2. }
  assert (Hi : inside n origin (push (Sent r) s)).
  { exists (mkWatch (w_origin w) None (S (w_sent w))). cbn [push log audit]. unfold audit in Hw. fold audit in Hw. rewrite Hw. cbn [mbind option_bind watch].
    rewrite Hok. cbn [w_origin w_sent]. split_and!; [done|done|lia]. }
  unfold send. by destruct (answer (log s) r).
Qed.

Lemma hops_inside (n : nat) (start : Z) (origin : option string) (hs : list (string * string)) :
  forall method u body chain,
  triple (inside n origin) (hops n start origin hs method u body chain) (fun _ => audited) audited.
Proof.
  assert (Herr : forall n s, inside n origin s -> audited s) by (intros; by eapply inside_audited).
  induction n as [|n IH]; intros method u body chain; [apply triple_fail; apply Herr|]. cbn [hops].
  eapply triple_bind; [eapply triple_conseq; [apply vet_triple|intros s Hs; exact Hs|intros a s Hs; exact Hs|apply Herr]|intros safe].
  destruct safe; cbn [negb]; [|apply triple_fail, Herr].
  assert (Hve : forall s, vetted (S n) origin (as_str u) s -> audited s) by (intros s Hs; by eapply Herr, vetted_inside).
  destruct (method_ok method) eqn:Hm; cbn [negb]; [|by apply triple_fail].
  apply keeps_step; [apply keeps_gets|done|intros sticky].
  eapply triple_bind; [apply cookie_header_triple; [apply keeps_epoch|exact Hve]|intros cookie].
  set (cross := negb (bool_decide (registrable u = origin))).
  set (r := mkRequest method u (outgoing_headers sticky hs cross ++ cookie) (if allows_body method then body else None)).
  eapply triple_bind with (R := fun _ => inside n origin).
  { intros s [Hs Hc].
    assert (Hh : registrable u <> origin -> all (fun kv => negb (is_auth_header (fst kv))) (rq_headers r) = true).
    { intros E. assert (Hx : cross = true) by (unfold cross; rewrite bool_decide_eq_false_2; [done|exact E]).
      cbn [rq_headers r]. rewrite (Hc Hx), app_nil_r, Hx. apply outgoing_no_auth. }
    assert (Hb : allows_body method = false -> rq_body r = None) by (cbn [rq_body r]; by intros ->).
    pose proof (send_triple n origin r Hm Hh Hb s Hs) as Ht. destruct (send r s) as [[a|e] s']; [done|by apply Herr in Ht]. }
  intros reply. apply keeps_step; [apply keeps_store_cookies|apply Herr|intros []].
  destruct (location reply) as [loc|].
  - destruct (url_join u loc) as [next|]; [|apply triple_fail, Herr].
    destruct (redirected (rp_status reply) method body) as [method' body']. apply IH.
  - apply kept_weaken; [apply keeps_terminal|apply Herr].
Qed.

(** A request keeps the audit of the log, whatever it returns. *)
Lemma keeps_request (method url : string) (hs : list (string * string)) (body : option string) :
  keeps audited (request method url hs body).
Proof.
  unfold request. apply kept_bind; [apply keeps_instant|intros start]. destruct (url_parse url) as [u|]; [|apply keeps_fail].
  eapply triple_bind with (R := fun _ => inside (S MAX_REDIRECTS) (registrable u)); [|intros; apply hops_inside].
  intros s [w Hw]. exists (mkWatch (Some (registrable u)) None 0). cbn [note snd push log audit]. rewrite Hw. by split_and!.
Qed.
End audit.

(** ** The executor's invariant, and a session's round trip *)

Section executor.
Context `{ExtractLibs, HttpNet}.

(** The jar's invariant; what the session seeded is still there, or has been replaced. *)
Definition exec_ok (e : HttpLaneExecutor) : Prop :=
  CookieJar.jar_ok (jar e) /\
  match seeded_state e with
  | None => True
  | Some s => dom (s_headers s) ⊆ dom (sticky_headers e) /\ (token_store e = None -> s_tokens s = None)
  end.
Definition of_exec (P : HttpLaneExecutor -> Prop) (s : Lane) : Prop := P (exec s).

Lemma exec_ok_jar (j : CookieJar.CookieJar) (e : HttpLaneExecutor) : CookieJar.jar_ok j -> exec_ok e -> exec_ok (set_jar j e).
Proof. intros Hj (_ & He). by split. Qed.

Lemma exec_ok_sticky (name value : string) (e : HttpLaneExecutor) : exec_ok e -> exec_ok (set_sticky_header name value e).
Proof.
  intros (Hj & He). split; [done|]. cbn. destruct (seeded_state e) as [s|]; [|done]. destruct He as [Hd Ht]. split; [|done].
  rewrite dom_insert. set_solver.
Qed.

Lemma exec_ok_seed (tokens : json) (e : HttpLaneExecutor) : exec_ok e -> exec_ok (seed_tokens tokens e).
Proof.
  intros He. unfold seed_tokens. destruct (json_as_object tokens) as [m|]; [|done]. revert e He.
  induction m.*2 as [|entry l IH]; intros e He; [done|]. cbn [foldl]. apply IH. unfold seed_token.
  destruct (get entry "header" ≫= json_as_str), (get entry "value" ≫= json_as_str); try done. by apply exec_ok_sticky.
Qed.

Lemma exec_ok_merge (tokens : json) (e : HttpLaneExecutor) : exec_ok e -> exec_ok (merge_tokens tokens e).
Proof. intros (Hj & He). split; [done|]. cbn. destruct (seeded_state e) as [s|]; [|done]. by destruct He. Qed.

Lemma new_cases (o : HttpLaneOptions) (e : HttpLaneExecutor) : new o = Ok e -> exists c, e = mkExec c
  (match o_session o with Some s => CookieJar.from_session_cookies unicode_upper (s_cookies s) | None => CookieJar.jar_new end)
  (match o_session o with Some s => s_headers s | None => ∅ end)
  ((o_entry_url o ≫= url_parse) ≫= (fun u => registrable_domain <$> u_host u)) (o_session o) (o_session o ≫= s_tokens).
Proof.
  unfold new. destruct (fingerprint_headers _) as [ua lang].
  destruct (o_proxy o) as [p|]; [destruct (proxy_ok _); [|done]|]; destruct (client_ok _); try done; intros [= <-]; by eexists.
Qed.

Lemma new_ok (o : HttpLaneOptions) (e : HttpLaneExecutor) : new o = Ok e -> exec_ok e.
Proof.
  intros (c & ->)%new_cases. split; cbn.
  - destruct (o_session o); [apply CookieJar.seed_ok|]; apply CookieJar.jar_new_ok.
  - by destruct (o_session o).
Qed.


Lemma keeps_exec_store (u : Url) (vs : list (option string)) : keeps (of_exec exec_ok) (store_cookies u vs).
Proof.
  induction vs as [|[v|] vs IH]; [by apply kept_ret| |exact IH]. cbn [store_cookies].
  apply kept_bind; [by intros s Hs|intros wall]. apply kept_bind; [by intros s Hs|intros now]. apply kept_bind; [|done].
  intros s Hs. cbn. apply exec_ok_jar; [|exact Hs]. destruct Hs as (Hj & _).
  destruct (CookieJar.store_set_cookie_cases unicode_upper parse_rfc2822 parse_netscape_date (jar (exec s)) wall now (jar_url u) v)
    as [->|(h & n & v' & d & p & e & ho & se & ss & a & _ & _ & _ & ->)]; [done|]. by apply CookieJar.store_spec.
Qed.

Lemma keeps_exec_hops (n : nat) (start : Z) (origin : option string) (hs : list (string * string)) :
  forall method u body chain, keeps (of_exec exec_ok) (hops n start origin hs method u body chain).
Proof.
  induction n as [|n IH]; intros method u body chain; [apply keeps_fail|]. cbn [hops].
  apply kept_bind; [intros s Hs; unfold vet_url; by destruct (UrlGuard.refusal_reason_inner _ _ _ _ _ _ _)|intros safe].
  destruct safe; cbn [negb]; [|apply keeps_fail]. destruct (method_ok method); cbn [negb]; [|apply keeps_fail].
  apply kept_bind; [apply keeps_gets|intros sticky].
  apply kept_bind; [unfold cookie_header; apply kept_bind; [by intros s Hs|intros now]; apply kept_bind; [apply keeps_gets|intros; apply kept_ret]|intros cookie].
  apply kept_bind; [intros s Hs; unfold send; by destruct (answer _ _)|intros reply].
  apply kept_bind; [apply keeps_exec_store|intros []]. destruct (location reply) as [loc|].
  - destruct (url_join u loc) as [next|]; [|apply keeps_fail]. destruct (redirected _ _ _). apply IH.
  - unfold terminal. destruct (rp_body reply); [|apply keeps_fail]. apply kept_bind; [by intros st Hst|intros; apply kept_ret].
Qed.

Lemma keeps_exec_request (method url : string) (hs : list (string * string)) (body : option string) :
  keeps (of_exec exec_ok) (request method url hs body).
Proof.
  unfold request. apply kept_bind; [by intros s Hs|intros start]. destruct (url_parse url) as [u|]; [|apply keeps_fail].
  apply kept_bind; [by intros s Hs|intros []]. apply keeps_exec_hops.
Qed.

(** A session survives its document: an executor built from the session that another one exports has that executor's
    sticky headers and token store, sends the same [Cookie] header to every URL at every time, and answers
    alike when asked whether it holds a session, so a run that reuses it sends what the exporting run
    would have sent. *)
Theorem session_restores (o : HttpLaneOptions) (l : Lane) (e : HttpLaneExecutor) :
  exec_ok (exec l) -> Forall (fun c => f64_is_finite (CookieJar.expires c) = true) (CookieJar.cookies (jar (exec l))) ->
  o_session o = Some (export_session_state l) -> new o = Ok e ->
  sticky_headers e = sticky_headers (exec l) /\ token_store e = token_store (exec l) /\
  (forall u now, CookieJar.cookie_header_for (jar e) u now = CookieJar.cookie_header_for (jar (exec l)) u now) /\
  has_session e = has_session (exec l).
Proof.
  intros (Hj & Hs) Hf Ho (c & ->)%new_cases. rewrite Ho. cbn [sticky_headers token_store jar mbind option_bind export_session_state s_cookies s_headers s_tokens].
  destruct (CookieJar.session_round_trip unicode_upper (jar (exec l)) Hj Hf) as [Hc Hh].
  assert (Hst : sticky_headers (exec l) ∪ s_headers (default (mkSession [] ∅ ∅ ∅ None None None) (seeded_state (exec l))) = sticky_headers (exec l)).
  { destruct (seeded_state (exec l)) as [st|]; cbn; [|apply map_union_empty]. destruct Hs as [Hd _].
    apply map_eq. intros k. rewrite lookup_union. destruct (sticky_headers (exec l) !! k) as [v|] eqn:E.
    - by destruct (s_headers st !! k).
    - assert (Hn : s_headers st !! k = None) by (apply not_elem_of_dom; apply not_elem_of_dom in E; set_solver). by rewrite Hn. }
  split_and!; [exact Hst| |exact Hh|].
  - destruct (token_store (exec l)) as [t|] eqn:E; [done|]. destruct (seeded_state (exec l)) as [st|]; [|done]. cbn. by apply Hs.
  - unfold has_session. cbn [jar sticky_headers]. rewrite Hst, Hc. f_equal. f_equal. apply bool_decide_ext.
    unfold enumerate. destruct (CookieJar.cookies (jar (exec l))); split; done.
Qed.
End executor.

(** ** A concrete network *)

Definition demo_libs : ExtractLibs := {|
  json_from_str := fun s => if starts_with s "{" then Some (JObj [("items", JArr [])]) else None;
  captures_len := fun _ => None;
  captures_iter := fun _ _ => [];
  html_select := fun _ _ => None;
|}.

(** "https://host/path". *)
Definition demo_parse (s : string) : option Url :=
  match strip_prefix "https://" s with
  | None => None
  | Some r =>
      let '(h, p) := match split_once "/"%char r with Some (h, p) => (h, String.append "/" p) | None => (r, "/") end in
      Some (mkUrl s "https" (Some h) p [])
  end.

Definition demo_net (answer : list Event -> Request -> option Reply) : HttpNet := {|
  url_parse := demo_parse;
  url_join := fun _ loc => demo_parse loc;
  method_ok := fun m => negb (is_empty m);
  unicode_upper := fun s => s;
  parse_rfc2822 := fun _ => None;
  parse_netscape_date := fun _ => None;
  header_value_ok := fun _ => true;
  proxy_ok := fun _ => true;
  client_ok := fun _ => true;
  header_order := map_to_list;
  header_order_perm := fun m => Permutation_refl (map_to_list m);
  token_order := map_to_list;
  token_order_perm := fun m => Permutation_refl (map_to_list m);
  lookup_host := fun _ _ _ => Some [V4 (v4_of_octets 93 184 216 34)];
  instant := fun l => Z.of_nat (length l) * 1000000;
  epoch := fun l => f64_of_Z (1700000000 + Z.of_nat (length l));
  rfc3339 := fun _ => "2026-01-01T00:00:00+00:00";
  answer := answer;
  is_cancelled := fun _ => false;
|}.

Definition demo_exec (sticky : gmap string string) : HttpLaneExecutor :=
  mkExec (mkClient DEFAULT_UA None None None None) CookieJar.jar_new sticky (Some "example.com") None None.
Definition demo_lane (sticky : gmap string string) : Lane := mkLane (demo_exec sticky) ∅ ∅ ∅ [].

(** The hosts reached, with the names of the headers each was sent. *)
Definition reached (l : list Event) : list (option string * list string) :=
  omap (fun ev => match ev with Sent r => Some (u_host (rq_url r), (rq_headers r).*1) | _ => None end) (rev l).

(** Each request to [from] is redirected to [to]. *)
Definition redirecting (from to : string) (_ : list Event) (r : Request) : option Reply :=
  Some (if bool_decide (u_host (rq_url r) = Some from)
        then mkReply 302 [("location", Some (String.append "https://" to))] (Some "")
        else mkReply 200 [] (Some "{}")).

Definition run_demo (from to url : string) (sticky : gmap string string) : list (option string * list string) :=
  reached (log (snd (@request demo_libs (demo_net (redirecting from to)) "get" url [] None (demo_lane sticky)))).

(** A redirect to another site drops the authorization header ... *)
Example cross_site_strips :
  run_demo "app.example.com" "other.org" "https://app.example.com/x" {["Authorization" := "Bearer t"]} =
  [(Some "app.example.com", ["Authorization"]); (Some "other.org", [])].
Proof. vm_compute. reflexivity. Qed.

(** ... but not when the two sites share a public suffix of two labels, or are addresses with the same last two numbers. *)
Example public_suffix_leak :
  run_demo "shop.co.uk" "evil.co.uk" "https://shop.co.uk/x" {["Authorization" := "Bearer t"]} =
  [(Some "shop.co.uk", ["Authorization"]); (Some "evil.co.uk", ["Authorization"])] /\
  registrable_domain "203.0.113.7" = registrable_domain "198.51.113.7".
Proof. split; vm_compute; reflexivity. Qed.

(** A token stored under a header of another name crosses sites. *)
Example named_token_leak :
  run_demo "app.example.com" "other.org" "https://app.example.com/x" {["X-Session-Token" := "t"]} =
  [(Some "app.example.com", ["X-Session-Token"]); (Some "other.org", ["X-Session-Token"])].
Proof. vm_compute. reflexivity. Qed.

(** The headers of the token store are not confined to the entry's site: any step's own URL is the site they are kept for. *)
Example sticky_not_scoped :
  run_demo "" "" "https://other.org/x" {["Authorization" := "Bearer t"]} = [(Some "other.org", ["Authorization"])] /\
  entry_registrable (demo_exec ∅) = Some "example.com".
Proof. split; vm_compute; reflexivity. Qed.

(** The redirects followed are ten, the requests sent eleven. *)
Example eleven_requests :
  length (reached (log (snd (@request demo_libs (demo_net (fun _ _ => Some (mkReply 302 [("location", Some "https://a.org/")] (Some "")))) "get" "https://a.org/" [] None (demo_lane ∅))))) = 11%nat.
Proof. vm_compute. reflexivity. Qed.

Definition demo_session : Lane :=
  mkLane (set_jar (CookieJar.set_cookie CookieJar.jar_new (f64_of_Z 0) "sid" "good" "app.example.com" "/") (demo_exec {["Authorization" := "Bearer t"]})) ∅ ∅ ∅ [].

Lemma session_restores_witness : exists e,
  @new (demo_net (fun _ _ => None)) (mkOptions None None (Some (@export_session_state (demo_net (fun _ _ => None)) demo_session)) None) = Ok e /\
  sticky_headers e = {["Authorization" := "Bearer t"]} /\ has_session e = true.
Proof.
  eexists. split; [reflexivity|].
  assert (Hok : exec_ok (exec demo_session)).
  { split; [|done]. split_and!; [vm_compute; lia|vm_compute; repeat constructor|vm_compute; repeat constructor]. }
  destruct (@session_restores (demo_net (fun _ _ => None)) (mkOptions None None (Some (@export_session_state (demo_net (fun _ _ => None)) demo_session)) None)
    demo_session _ Hok ltac:(vm_compute; repeat constructor) eq_refl eq_refl) as (H1 & _ & _ & H2).
  split; [exact H1|exact H2].
Defined.

(** ** The number of requests *)

Fixpoint opened (l : list Event) : nat := match l with [] => 0 | Opened _ :: l => S (opened l) | _ :: l => opened l end.
Fixpoint sent (l : list Event) : nat := match l with [] => 0 | Sent _ :: l => S (sent l) | _ :: l => sent l end.

(** At most [n] requests are opened, whatever the outcome. *)
Definition opens {A : Type} (n : nat) (m : L A) : Prop := forall s, (opened (log (snd (m s))) <= opened (log s) + n)%nat.

Lemma opens_bind {A B : Type} (n k : nat) (m : L A) (f : A -> L B) : opens n m -> (forall a, opens k (f a)) -> opens (n + k) (bind m f).
Proof.
  intros Hm Hf s. unfold bind. specialize (Hm s). destruct (m s) as [[a|e] s']; cbn [snd] in *; [|lia].
  specialize (Hf a s'). lia.
Qed.

Lemma opens_le {A : Type} (n k : nat) (m : L A) : opens n m -> (n <= k)%nat -> opens k m.
Proof. intros Hm Hk s. specialize (Hm s). lia. Qed.

(** A step that opens none, before one that does. *)
Lemma opens_seq {A B : Type} (n : nat) (m : L A) (f : A -> L B) : opens 0 m -> (forall a, opens n (f a)) -> opens n (bind m f).
Proof. intros Hm Hf. by apply (opens_bind 0 n). Qed.

Lemma opens_ret {A : Type} (n : nat) (a : A) : opens n (ret a).
Proof. intros s. cbn. lia. Qed.
Lemma opens_fail {A : Type} (n : nat) (e : HttpLaneError) : opens n (fail (A := A) e).
Proof. intros s. cbn. lia. Qed.
Lemma opens_gets {A : Type} (f : HttpLaneExecutor -> A) : opens 0 (gets f).
Proof. intros s. cbn. lia. Qed.
Lemma opens_read {A : Type} (f : Lane -> A) : opens 0 (read f).
Proof. intros s. cbn. lia. Qed.
Lemma opens_modify (f : HttpLaneExecutor -> HttpLaneExecutor) : opens 0 (modify f).
Proof. intros s. cbn. lia. Qed.
Lemma opens_insert_var (k : string) (v : json) : opens 0 (insert_var k v).
Proof. intros s. cbn. lia. Qed.
Lemma opens_insert_token (k : string) (v : json) : opens 0 (insert_token k v).
Proof. intros s. cbn. lia. Qed.
Lemma opens_on_step (i : nat) (t : string) (p : StepPhase) : opens 0 (note (OnStep i t p)).
Proof. intros s. cbn. lia. Qed.
Lemma opens_slept (ms : Z) : opens 0 (note (Slept ms)).
Proof. intros s. cbn. lia. Qed.
#[export] Hint Resolve opens_seq opens_ret opens_fail opens_gets opens_read opens_modify opens_insert_var opens_insert_token opens_on_step
  opens_slept : lane.

Section opens.
Context `{ExtractLibs, HttpNet}.

Lemma opens_epoch : opens 0 now_epoch.
Proof. intros s. cbn. lia. Qed.
Lemma opens_instant : opens 0 now_instant.
Proof. intros s. cbn. lia. Qed.
Local Hint Resolve opens_epoch opens_instant : lane.

Lemma opens_store_cookies (u : Url) (vs : list (option string)) : opens 0 (store_cookies u vs).
Proof. induction vs as [|[v|] vs IH]; cbn [store_cookies]; auto 6 with lane. Qed.

Lemma opens_hops (n : nat) (start : Z) (origin : option string) (hs : list (string * string)) :
  forall method u body chain, opens 0 (hops n start origin hs method u body chain).
Proof.
  induction n as [|n IH]; intros method u body chain; [apply opens_fail|]. cbn [hops].
  apply opens_seq; [|intros safe; destruct safe; cbn [negb]; [|apply opens_fail]].
  { intros s. unfold vet_url. destruct (UrlGuard.refusal_reason_inner _ _ _ _ _ _ _). cbn. lia. }
  destruct (method_ok method); cbn [negb]; [|apply opens_fail]. apply opens_seq; [auto with lane|intros sticky].
  apply opens_seq; [unfold cookie_header; auto with lane|intros cookie].
  apply opens_seq; [intros s; unfold send; destruct (answer _ _); cbn; lia|intros reply].
  apply opens_seq; [apply opens_store_cookies|intros []]. destruct (location reply).
  - destruct (url_join u _); [|apply opens_fail]. destruct (redirected _ _ _). apply IH.
  - unfold terminal. destruct (rp_body reply); auto with lane.
Qed.

Lemma opens_request (method url : string) (hs : list (string * string)) (body : option string) : opens 1 (request method url hs body).
Proof.
  unfold request. apply opens_seq; [apply opens_instant|intros start]. destruct (url_parse url); [|apply opens_fail].
  apply (opens_bind 1 0); [|intros; apply opens_hops]. intros s. cbn. lia.
Qed.

(** An audited log has at most eleven requests sent for each one opened. *)
Lemma audit_sent (l : list Event) (w : Watch) : audit l = Some w ->
  (w_sent w <= S MAX_REDIRECTS)%nat /\ (w_origin w = None -> sent l = 0)%nat /\
  (sent l + S MAX_REDIRECTS <= S MAX_REDIRECTS * opened l + w_sent w \/ w_origin w = None)%nat.
Proof.
  revert w. induction l as [|ev l IH]; intros w Hw; [injection Hw as <-; cbn; auto with lia|].
  cbn [audit] in Hw. destruct (audit l) as [w'|] eqn:E; [|done]. cbn [mbind option_bind] in Hw. specialize (IH w' eq_refl) as (H1 & H2 & H3).
  destruct ev; cbn [watch] in Hw; cbn [sent opened].
  - injection Hw as <-. cbn [w_sent w_origin length]. split_and!; [lia|done|left]. destruct H3 as [H3|H3]; [lia|]. specialize (H2 H3). lia.
  - by injection Hw as <-.
  - injection Hw as <-. by cbn.
  - destruct (sent_ok w' r) eqn:Es; [|done]. injection Hw as <-. cbn [w_sent w_origin length]. unfold sent_ok in Es.
    destruct (w_origin w'); [|done]. destruct (Nat.ltb_spec (w_sent w') (S MAX_REDIRECTS)); [|by rewrite !andb_false_r in Es].
    split_and!; [lia|done|left]. destruct H3 as [H3|H3]; [lia|done].
  - by injection Hw as <-.
  - by injection Hw as <-.
Qed.
End opens.

(** Requests opened against a budget that the result may hand on. *)
Definition spends {A : Type} (n : nat) (m : L A) (rest : A -> nat) : Prop :=
  forall s, match m s with
            | (Ok a, s') => (opened (log s') + rest a <= opened (log s) + n)%nat
            | (Err _, s') => (opened (log s') <= opened (log s) + n)%nat
            end.

Lemma spends_opens {A : Type} (n k : nat) (m : L A) : opens n m -> spends (n + k) m (fun _ => k).
Proof. intros Hm s. specialize (Hm s). destruct (m s) as [[a|e] s']; cbn [snd] in Hm; lia. Qed.

Lemma opens_spends {A : Type} (n : nat) (m : L A) (rest : A -> nat) : spends n m rest -> opens n m.
Proof. intros Hm s. specialize (Hm s). destruct (m s) as [[a|e] s']; cbn [snd]; lia. Qed.

Lemma spends_bind {A B : Type} (n : nat) (m : L A) (k : A -> L B) (f : A -> nat) (g : B -> nat) :
  spends n m f -> (forall a, spends (f a) (k a) g) -> spends n (bind m k) g.
Proof.
  intros Hm Hk s. unfold bind. specialize (Hm s). destruct (m s) as [[a|e] s']; [|done]. specialize (Hk a s').
  destruct (k a s') as [[b|e] s'']; lia.
Qed.

(** A part of known cost first. *)
Lemma spends_first {A B : Type} (n k : nat) (m : L A) (f : A -> L B) (g : B -> nat) :
  opens n m -> (forall a, spends k (f a) g) -> spends (n + k) (bind m f) g.
Proof. intros Hm Hf. eapply spends_bind; [by apply spends_opens|done]. Qed.

Lemma spends_ret {A : Type} (n : nat) (a : A) (f : A -> nat) : (f a <= n)%nat -> spends n (ret a) f.
Proof. intros Hn s. cbn. lia. Qed.

Lemma spends_fail {A : Type} (n : nat) (e : HttpLaneError) (f : A -> nat) : spends n (fail e) f.
Proof. intros s. cbn. lia. Qed.

(** ** The errors an operation ends with *)

Definition errs {A : Type} (E : HttpLaneError -> Prop) (m : L A) : Prop := forall s, match m s with (Ok _, _) => True | (Err e, _) => E e end.

Lemma errs_bind {A B : Type} (E : HttpLaneError -> Prop) (m : L A) (k : A -> L B) : errs E m -> (forall a, errs E (k a)) -> errs E (bind m k).
Proof. intros Hm Hk s. unfold bind. specialize (Hm s). destruct (m s) as [[a|e] s']; [apply Hk|done]. Qed.
Lemma errs_ret {A : Type} (E : HttpLaneError -> Prop) (a : A) : errs E (ret a).
Proof. by intros s. Qed.
Lemma errs_fail {A : Type} (E : HttpLaneError -> Prop) (e : HttpLaneError) : E e -> errs E (fail (A := A) e).
Proof. by intros He s. Qed.
Lemma errs_total {A : Type} (E : HttpLaneError -> Prop) (f : Lane -> A) (g : Lane -> Lane) : errs E (fun s => (Ok (f s), g s)).
Proof. by intros s. Qed.
#[export] Hint Resolve errs_bind errs_ret errs_fail : lane.

(** An operation that cannot fail, or fails with an expected error. *)
Ltac no_error := let s := fresh "s" in intros s; done.
#[export] Hint Extern 1 (errs _ _) => no_error : lane.

(** What a request can fail with: no redirect loop is called anything but [LoginLoop], no failure of the network or of a body
    anything but [Network]. *)
Definition request_error (e : HttpLaneError) : Prop :=
  match e with
  | Fallback r => r = LoginLoop \/ r = Network
  | Fatal (BadUrl _ | BlockedBySsrfGuard _ | BadMethod _ | BadLocation _) => True
  | _ => False
  end.

Section errs.
Context `{ExtractLibs, HttpNet}.

Lemma errs_store_cookies (E : HttpLaneError -> Prop) (u : Url) (vs : list (option string)) : errs E (store_cookies u vs).
Proof. induction vs as [|[v|] vs IH]; cbn [store_cookies]; auto 8 with lane. Qed.

Lemma errs_hops (n : nat) (start : Z) (origin : option string) (hs : list (string * string)) :
  forall method u body chain, errs request_error (hops n start origin hs method u body chain).
Proof.
  induction n as [|n IH]; intros method u body chain; [apply errs_fail; by left|]. cbn [hops].
  apply errs_bind; [intros s; unfold vet_url; by destruct (UrlGuard.refusal_reason_inner _ _ _ _ _ _ _)|intros safe].
  destruct safe; cbn [negb]; [|by apply errs_fail]. destruct (method_ok method); cbn [negb]; [|by apply errs_fail].
  apply errs_bind; [by intros s|intros sticky]. apply errs_bind; [unfold cookie_header; apply errs_bind; [by intros s|intros now]; apply errs_bind; [by intros s|intros c; apply errs_ret]|intros cookie].
  apply errs_bind; [intros s; unfold send; destruct (answer _ _); [done|by right]|intros reply].
  apply errs_bind; [apply errs_store_cookies|intros []]. destruct (location reply).
  - destruct (url_join u _); [|by apply errs_fail]. destruct (redirected _ _ _). apply IH.
  - unfold terminal. destruct (rp_body reply) as [text|]; [|apply errs_fail; by right].
    apply errs_bind; [by intros st|intros now; apply errs_ret].
Qed.

Lemma errs_request (method url : string) (hs : list (string * string)) (body : option string) :
  errs request_error (request method url hs body).
Proof.
  unfold request. apply errs_bind; [by intros s|intros start]. destruct (url_parse url); [|by apply errs_fail].
  apply errs_bind; [by intros s|intros []]. apply errs_hops.
Qed.
End errs.
