(* ===== verification/HttpSteps.v ===== *)
(** * automation/http_lane/steps.rs and eligibility.rs

    Building and sending one request step, and the gate that decides which workflows the lane may run. The text of a JSON
    value is the interface [JsonText], as in the resolver of placeholders. *)

From Stdlib Require Import Ascii String.
From S2P Require Import Prelude Ints F64 Str Json Extract Resolve HttpLane.
Open Scope string_scope.
Open Scope Z_scope.
Open Scope lane_scope.

Class JsonText : Type := { json_text : json -> string }.

(** What the lane reads of a step's configuration. *)
Record WorkflowStepConfig : Type := mkConfig {
  c_url : option string;
  c_duration : option f64;
  extra : jobj;
}.

Record BuiltRequest : Type := mkBuilt {
  b_method : string;
  b_url : string;
  b_headers : list (string * string);
  b_body : option string;
}.

(** The values a template is resolved against. *)
Record Inputs : Type := mkInputs {
  credentials : gmap string string;
  form_data : gmap string string;
}.

Definition CR : string := String (chr 13) "".
Definition LF : string := String (chr 10) "".

(** A header value that is dropped. *)
Definition bad_header_value (v : string) : bool :=
  is_empty (trim v) || contains v "{{" || (contains v CR || contains v LF).

Definition is_nonempty (v : json) : bool :=
  match v with
  | JNull => false
  | JBool b => b
  | JNum n => negb (f64_eqb (num_as_f64 n) (f64_of_Z 0))
  | JStr s => negb (is_empty (trim s))
  | JArr l => match l with [] => false | _ => true end
  | JObj m => match m with [] => false | _ => true end
  end.

Section steps.
Context `{ExtractLibs, HttpNet, JsonText}.

Definition resolve_in (i : Inputs) (extracted : gmap string json) (s : string) : string :=
  resolve_value_full json_text s (credentials i) (Some (form_data i)) None (Some extracted).

Definition resolve_headers (c : WorkflowStepConfig) (i : Inputs) (extracted : gmap string json) : list (string * string) :=
  match map_get (extra c) "headers" ≫= json_as_object with
  | None => []
  | Some m =>
      omap (fun kv => let val := resolve_in i extracted (default "" (json_as_str (snd kv))) in
                      if bad_header_value val then None else Some (fst kv, val)) m
  end.

Definition non_null (v : option json) : option json := match v with Some JNull | None => None | Some v => Some v end.

Definition built_body (c : WorkflowStepConfig) (i : Inputs) (extracted : gmap string json) : option string :=
  match (match non_null (map_get (extra c) "body") with Some b => Some b | None => non_null (map_get (extra c) "body_template") end) with
  | None => None
  | Some b =>
      let s := match b with JStr s => s | b => json_text b end in
      let s := resolve_in i extracted s in
      if is_empty (trim s) || str_eqb (trim s) "null" then None else Some s
  end.

Definition build_request (c : WorkflowStepConfig) (i : Inputs) (extracted : gmap string json) : result BuiltRequest HttpLaneError :=
  let url := resolve_in i extracted (default "" (c_url c)) in
  if is_empty (trim url) then Err (Fatal NoUrlProvided)
  else
    let method := to_uppercase (default "GET" (map_get (extra c) "method" ≫= json_as_str)) in
    let body := if allows_body method then built_body c i extracted else None in
    Ok (mkBuilt method url (resolve_headers c i extracted) body).

Definition of_result {A : Type} (r : result A HttpLaneError) : L A := match r with Ok a => ret a | Err e => fail e end.

Definition without_auth (hs : list (string * string)) : list (string * string) :=
  retain (fun kv => negb (is_auth_header (fst kv))) hs.

Definition unauthorized (r : HttpResponse) : bool := (status r =? 401) || (status r =? 403).

Definition run_request (r : BuiltRequest) : L HttpResponse :=
  let@ resp := request (b_method r) (b_url r) (b_headers r) (b_body r) in
  if unauthorized resp then
    let stripped := without_auth (b_headers r) in
    if negb (length stripped =? length (b_headers r))%nat then
      let@ retry := request (b_method r) (b_url r) stripped (b_body r) in
      ret (if status retry <? 400 then retry else resp)
    else ret resp
  else ret resp.

Definition extractions_from_response (c : WorkflowStepConfig) (r : HttpResponse) : gmap string json :=
  let data := default (JStr (body r)) (json_body r) in
  let out := foldl (fun m nv => <[fst nv := snd nv]> m) (∅ : gmap string json) (apply_response_extractions (extra c) data) in
  let variable := default "api_result" (map_get (extra c) "variable" ≫= json_as_str) in
  let value := if is_nonempty data then data else JObj [("status", json_of_Z (status r)); ("data", data)] in
  <[variable := value]> out.
End steps.

(** ** eligibility.rs *)

Record HttpEligibility : Type := mkEligibility {
  eligible : bool;
  reason : string;
}.

Definition kill_switch_engaged (env : option string) : bool :=
  match env with Some v => any (str_eqb v) ["1"; "true"; "TRUE"; "yes"] | None => false end.

Definition is_http_step_type (t : string) : bool := any (str_eqb t) ["api_call"; "login_post"; "return"; "wait"].

Definition step_enabled (raw : json) : bool := default true (get raw "enabled" ≫= json_as_bool).
Definition step_type (raw : json) : string := default "" (get raw "type" ≫= json_as_str).

Definition wait_is_duration_only (raw : json) : bool :=
  let cfg := default raw (get raw "config") in
  let cond := match get cfg "condition" ≫= json_as_str with Some c => Some c | None => get raw "condition" ≫= json_as_str end in
  match cond with None => true | Some c => str_eqb c "duration" || str_eqb c "timeout" end.

Fixpoint references_file_asset (v : json) : bool :=
  match v with
  | JStr s => contains s "{{file:"
  | JArr l => (fix go (l : list json) : bool := match l with [] => false | v :: l => references_file_asset v || go l end) l
  | JObj m => (fix go (m : list (string * json)) : bool := match m with [] => false | (_, v) :: m => references_file_asset v || go m end) m
  | _ => false
  end.

(** The loop of [http_lane_eligible], and what follows it. *)
Fixpoint eligible_loop (saw_request : bool) (raw_steps : list json) : HttpEligibility :=
  match raw_steps with
  | [] => if saw_request then mkEligibility true "eligible" else mkEligibility false "no_request"
  | raw :: raw_steps =>
      if negb (step_enabled raw) then eligible_loop saw_request raw_steps else
      let st := step_type raw in
      if is_empty st then eligible_loop saw_request raw_steps else
      if negb (is_http_step_type st) then mkEligibility false "dom_step" else
      if str_eqb st "wait" && negb (wait_is_duration_only raw) then mkEligibility false "wait_condition" else
      if references_file_asset raw then mkEligibility false "file_asset" else
      eligible_loop (saw_request || (str_eqb st "api_call" || str_eqb st "login_post")) raw_steps
  end.

Definition http_lane_eligible (env : option string) (raw_steps : list json) : HttpEligibility :=
  if kill_switch_engaged env then mkEligibility false "kill_switch" else eligible_loop false raw_steps.

(** A step both lanes run. *)
Definition live_step (raw : json) : bool := step_enabled raw && negb (is_empty (step_type raw)).

Lemma eligible_loop_live (raw_steps : list json) : forall saw, eligible (eligible_loop saw raw_steps) = true ->
  Forall (fun raw => live_step raw = true -> is_http_step_type (step_type raw) = true /\ references_file_asset raw = false /\
            (step_type raw = "wait" -> wait_is_duration_only raw = true)) raw_steps.
Proof.
  induction raw_steps as [|raw l IH]; intros saw; [constructor|]. cbn [eligible_loop].
  assert (Hskip : live_step raw = false -> eligible (eligible_loop saw l) = true -> Forall (fun raw => live_step raw = true -> is_http_step_type (step_type raw) = true /\ references_file_asset raw = false /\
            (step_type raw = "wait" -> wait_is_duration_only raw = true)) (raw :: l)).
  { intros Hl He. constructor; [congruence|by apply (IH saw)]. }
  unfold live_step in *. destruct (step_enabled raw); cbn [negb andb] in *; [|by apply Hskip].
  destruct (is_empty (step_type raw)); cbn [negb] in *; [by apply Hskip|]. clear Hskip.
  destruct (is_http_step_type (step_type raw)) eqn:Ht; cbn [negb]; [|done].
  destruct (str_eqb (step_type raw) "wait" && negb (wait_is_duration_only raw)) eqn:Hw; [done|].
  destruct (references_file_asset raw) eqn:Hf; [done|]. intros He. constructor; [|by eapply IH].
  intros _. split_and!; [done|done|]. intros E. rewrite E in Hw. cbn in Hw. by apply negb_false_iff in Hw.
Qed.

(** ** Lemmas *)

Section lemmas.
Context `{ExtractLibs, HttpNet, JsonText}.

Lemma keeps_of_result {A : Type} (r : result A HttpLaneError) (P : Lane -> Prop) : triple P (of_result r) (fun _ => P) P.
Proof. destruct r; [by apply kept_ret|by apply keeps_fail]. Qed.

(** A predicate kept by each request is kept by [run_request]. *)
Lemma keeps_run_request (P : Lane -> Prop) (r : BuiltRequest) :
  (forall method url hs body, triple P (request method url hs body) (fun _ => P) P) -> triple P (run_request r) (fun _ => P) P.
Proof.
  intros Hr. unfold run_request. apply kept_bind; [done|intros resp]. destruct (unauthorized resp); [|by apply kept_ret].
  destruct (negb _); [|by apply kept_ret]. apply kept_bind; [done|intros retry]. by apply kept_ret.
Qed.

Definition header_text (s : string) : bool := negb (contains s "{{") && negb (contains s CR) && negb (contains s LF).

(** No built header can inject another one or carry an unresolved placeholder. *)
Lemma built_headers_ok (c : WorkflowStepConfig) (i : Inputs) (extracted : gmap string json) (b : BuiltRequest) :
  build_request c i extracted = Ok b ->
  Forall (fun kv => is_empty (trim (snd kv)) = false /\ header_text (snd kv) = true) (b_headers b) /\
  (allows_body (b_method b) = false -> b_body b = None) /\ is_empty (trim (b_url b)) = false.
Proof.
  unfold build_request. destruct (is_empty (trim (resolve_in _ _ _))) eqn:Eu; [done|]. intros [= <-].
  cbn [b_headers b_method b_body b_url]. split_and!; [|by intros ->|done].
  unfold resolve_headers. destruct (_ ≫= json_as_object) as [m|]; [|constructor].
  apply Forall_forall. intros kv Hkv. apply list_elem_of_omap in Hkv as ([k v] & _ & E). cbn [fst snd] in E.
  destruct (bad_header_value _) eqn:Eb; [done|]. injection E as <-. cbn [snd]. unfold bad_header_value in Eb.
  apply orb_false_iff in Eb as [Eb Ec]. apply orb_false_iff in Eb as [Ea Eb]. apply orb_false_iff in Ec as [Ec Ed].
  split; [done|]. unfold header_text. by rewrite Eb, Ec, Ed.
Qed.
End lemmas.
