(* ===== verification/AuthRecipe.v ===== *)
(** * automation/http_lane/recipe.rs

    The declarative recipe that owns a workflow's authentication, and its interpreter: reuse, refresh, or log in with the
    challenges of a second factor. A table of the recipe is only ever iterated, so it is the list of its entries in
    the order of that iteration; the variables and the tokens, which change, are maps of the run's state. *)

From Stdlib Require Import Ascii String.
From S2P Require Import Prelude Ints F64 Str Json Extract Resolve HttpLane HttpSteps.
From S2P Require CookieJar.
Open Scope string_scope.
Open Scope Z_scope.
Open Scope lane_scope.

(** ** The schema *)

Record RequestSpec : Type := mkRequestSpec {
  q_method : string;
  q_url : string;
  q_headers : list (string * string);
  q_body : option string;
}.

Record StoreSpec : Type := mkStoreSpec {
  as_ : string;
  st_header : option string;
  st_prefix : option string;
  cookie_name : option string;
}.

Record ExtractSpec : Type := mkExtractSpec {
  from : string;
  path : option string;
  selector : option string;
  attribute : option string;
  pattern : option string;
  name : option string;
  param : option string;
  source : option string;
  optional : bool;
  store : option StoreSpec;
}.

Record ExpectSpec : Type := mkExpect {
  x_status : list Z;
  url_patterns : list string;
  not_url_patterns : list string;
  body_regex : option string;
  not_body_regex : option string;
  json_path_present : option string;
}.

Record Challenge : Type := mkChallenge {
  ch_kind : string;
  detect : ExpectSpec;
  submit : RequestSpec;
  ch_extract : list (string * ExtractSpec);
  ch_expect : option ExpectSpec;
}.

Record RecipeStep : Type := mkStep {
  request_of : RequestSpec;
  extract : list (string * ExtractSpec);
  expect : option ExpectSpec;
  challenges : list Challenge;
}.

Record TokenDecl : Type := mkToken {
  t_header : option string;
  t_prefix : option string;
  t_value : string;
}.

Record LoginBlock : Type := mkLogin {
  steps : list RecipeStep;
  login_tokens : list (string * TokenDecl);
}.

Record StaleSpec : Type := mkStale {
  stale_status : list Z;
  stale_url_patterns : list string;
  html_when_json_expected : bool;
}.

Record AuthRecipe : Type := mkRecipe {
  version : Z;
  kind : string;
  http : bool;
  probe : option RecipeStep;
  login : option LoginBlock;
  refresh : option RecipeStep;
  stale : option StaleSpec;
}.

Definition degenerate (login_steps : list RequestSpec) (login_url_patterns : list string) : AuthRecipe :=
  mkRecipe 1 "http" true None (Some (mkLogin ((fun r => mkStep r [] None []) <$> login_steps) [])) None
    (Some (mkStale [401; 403] login_url_patterns true)).

(** ** Challenges *)

Inductive ChallengeResolver : Type := LocalPersona (totp_code : option string) | NoResolver.

Definition resolve_challenge (r : ChallengeResolver) (kind : string) : result string ParkKind :=
  match (if str_eqb kind "totp" then match r with LocalPersona (Some code) => Some code | _ => None end else None) with
  | Some code => Ok code
  | None =>
      if str_eqb kind "totp" then Err (Attention "This sign-in needs an authenticator (TOTP) code and no persona provided one.")
      else if str_eqb kind "email_otp"
      then Err (Twofa "This sign-in needs an emailed code — run in the cloud or link a persona with an OTP relay.")
      else Err (Attention "This sign-in needs a one-time code you must supply — run it in the browser or attach a 2FA persona.")
  end.

(** ** The interpreter *)

Inductive AuthOutcome : Type := Reused | Refreshed | LoggedIn | NoAuthNeeded.
#[export] Instance AuthOutcome_eq_dec : EqDecision AuthOutcome.
Proof. solve_decision. Defined.

Class RecipeLibs : Type := {
  (** [Regex::new] and [is_match]: [None] when the pattern does not compile *)
  regex_is_match : string -> string -> option bool;
  base64_url_decode : string -> option string;
}.

(** What a runner does not change. *)
Record Runner : Type := mkRunner {
  recipe : AuthRecipe;
  inputs : Inputs;
  challenge : ChallengeResolver;
  relogin_max_retries : nat;
}.

(** [str::replace]. *)
Fixpoint replace_from (skip : nat) (s pat to : string) : string :=
  match s with
  | EmptyString => ""
  | String c r =>
      match skip with
      | S k => replace_from k r pat to
      | O => if starts_with s pat then String.append to (replace_from (String.length pat - 1) r pat to)
             else String c (replace_from 0 r pat to)
      end
  end.

Definition lower_contains (s p : string) : bool := contains s (to_ascii_lowercase p).

Definition looks_like_challenge (r : HttpResponse) : bool :=
  any (contains (to_ascii_lowercase (body r))) ["cf-chl"; "cf-turnstile"; "just a moment"; "challenge-platform"].

Section recipe.
Context `{ExtractLibs, HttpNet, JsonText, RecipeLibs}.

Definition value_to_string (v : json) : string := match v with JStr s => s | JNull => "" | other => json_text other end.

Definition expect_matches (e : ExpectSpec) (r : HttpResponse) : bool :=
  let final := to_ascii_lowercase (as_str (final_url r)) in
  if negb (bool_decide (x_status e = [])) && negb (any (Z.eqb (status r)) (x_status e)) then false
  else if any (fun p => negb (lower_contains final p)) (url_patterns e) then false
  else if any (lower_contains final) (not_url_patterns e) then false
  else if match body_regex e ≫= (fun re => regex_is_match re (body r)) with Some m => negb m | None => false end then false
  else if default false (not_body_regex e ≫= (fun re => regex_is_match re (body r))) then false
  else match json_path_present e with
       | Some p => bool_decide (is_Some (json_value_path (default JNull (json_body r)) p))
       | None => true
       end.

Definition detect_matches (d : ExpectSpec) (r : HttpResponse) : bool :=
  if bool_decide (x_status d = []) && bool_decide (url_patterns d = []) && bool_decide (body_regex d = None)
     && bool_decide (json_path_present d = None)
  then false else expect_matches d r.

Definition expect_ok (e : option ExpectSpec) (r : HttpResponse) : bool :=
  match e with None => status r <? 400 | Some e => expect_matches e r end.

Definition decode_jwt_claim (jwt claim : string) : option json :=
  match split "."%char jwt !! 1%nat with
  | None => None
  | Some payload =>
      match base64_url_decode payload ≫= json_from_str with
      | Some v => get v claim
      | None => None
      end
  end.

(** The first pair of a key along the redirects and the final URL. *)
Fixpoint query_param (urls : list Url) (param : string) : option string :=
  match urls with
  | [] => None
  | u :: urls => match find_first (fun kv => str_eqb (fst kv) param) (query_pairs u) with
                 | Some (_, v) => Some v
                 | None => query_param urls param
                 end
  end.

Definition not_null (v : json) : option json := if is_null v then None else Some v.

Definition extract_value (spec : ExtractSpec) (r : HttpResponse) (e : HttpLaneExecutor) (vars : gmap string json) : option json :=
  if str_eqb (from spec) "json" then
    match path spec with Some p => json_value_path (default JNull (json_body r)) p | None => None end
  else if str_eqb (from spec) "html_css" then
    match selector spec with
    | None => None
    | Some sel =>
        let cfg := ("selector", JStr sel) :: match attribute spec with Some a => [("attribute", JStr a)] | None => [] end in
        not_null (run_extractor (body r) "css" (JObj cfg) false None)
    end
  else if str_eqb (from spec) "regex" then
    match pattern spec with
    | None => None
    | Some p => not_null (run_extractor (body r) "regex" (JObj [("pattern", JStr p)]) false None)
    end
  else if str_eqb (from spec) "header" then
    match name spec with
    | None => None
    | Some n => (fun kv => JStr (snd kv)) <$> find_first (fun kv => str_eqb (to_ascii_lowercase (fst kv)) (to_ascii_lowercase n)) (headers r)
    end
  else if str_eqb (from spec) "cookie" then
    match name spec with Some n => JStr <$> cookie_value e n | None => None end
  else if str_eqb (from spec) "redirect_param" then
    match param spec with Some p => JStr <$> query_param (redirect_chain r ++ [final_url r]) p | None => None end
  else if str_eqb (from spec) "jwt_claim" then
    match source spec, (match path spec with Some c => Some c | None => name spec end) with
    | Some src, Some claim => match vars !! src ≫= json_as_str with Some jwt => decode_jwt_claim jwt claim | None => None end
    | _, _ => None
    end
  else None.

Definition apply_store (st : StoreSpec) (v : json) : L unit :=
  let sval := value_to_string v in
  if str_eqb (as_ st) "header" then
    match st_header st with
    | None => ret tt
    | Some h =>
        let prefix := default "" (st_prefix st) in
        modify (set_sticky_header h (String.append prefix sval)) ;@
        insert_token h (JObj ([("value", JStr sval); ("header", JStr h)] ++ (if is_empty prefix then [] else [("prefix", JStr prefix)])))
    end
  else if str_eqb (as_ st) "cookie" then
    match cookie_name st with
    | None => ret tt
    | Some n =>
        let@ dom := gets entry_registrable in
        match dom with
        | None => ret tt
        | Some d => let@ now := now_epoch in modify (fun e => set_jar (CookieJar.set_cookie (jar e) now n sval d "/") e)
        end
    end
  else ret tt.

Fixpoint apply_extractions (specs : list (string * ExtractSpec)) (r : HttpResponse) : L unit :=
  match specs with
  | [] => ret tt
  | (n, spec) :: specs =>
      let@ v := read (fun s => extract_value spec r (exec s) (vars s)) in
      match v with
      | Some v =>
          match store spec with Some st => apply_store st v | None => ret tt end ;@
          insert_var n v ;@
          apply_extractions specs r
      | None => if optional spec then apply_extractions specs r else fail (Fallback AuthFailed)
      end
  end.

Context (rn : Runner).

Definition resolve_vars (s : string) : L string := read (fun st => resolve_in (inputs rn) (vars st) s).

Definition resolve_with_challenge (code : option string) (vars : gmap string json) (s : string) : string :=
  let out := resolve_in (inputs rn) vars s in
  match code with Some c => replace_from 0 out "{{challenge:code}}" c | None => out end.

Definition run_recipe_request_with (q : RequestSpec) (code : option string) : L HttpResponse :=
  let@ f := read (fun st => resolve_with_challenge code (vars st)) in
  let hs := omap (fun kv => let val := f (snd kv) in if bad_header_value val then None else Some (fst kv, val)) (q_headers q) in
  request (q_method q) (f (q_url q)) hs (f <$> q_body q).

Definition run_recipe_request (q : RequestSpec) : L HttpResponse := run_recipe_request_with q None.

Fixpoint run_challenges (chs : list Challenge) (step_expect : option ExpectSpec) (parent : HttpResponse) : L bool :=
  match chs with
  | [] => ret false
  | ch :: chs =>
      if negb (detect_matches (detect ch) parent) then run_challenges chs step_expect parent
      else
        match resolve_challenge (challenge rn) (ch_kind ch) with
        | Err park => fail (Parked park)
        | Ok code =>
            let@ resp := run_recipe_request_with (submit ch) (Some code) in
            apply_extractions (ch_extract ch) resp ;@
            if expect_ok (match ch_expect ch with Some e => Some e | None => step_expect end) resp then ret true
            else run_challenges chs step_expect parent
        end
  end.

Fixpoint run_login_steps (sts : list RecipeStep) : L unit :=
  match sts with
  | [] => ret tt
  | st :: sts =>
      let@ resp := run_recipe_request (request_of st) in
      if looks_like_challenge resp then fail (Fallback ChallengePage)
      else
        apply_extractions (extract st) resp ;@
        let@ ok := (if expect_ok (expect st) resp then ret true
                    else match challenges st with [] => ret false | chs => run_challenges chs (expect st) resp end) in
        if ok then run_login_steps sts else fail (Fallback AuthFailed)
  end.

Definition run_login_once (l : LoginBlock) : L unit := run_login_steps (steps l).

Fixpoint apply_login_tokens (ts : list (string * TokenDecl)) : L unit :=
  match ts with
  | [] => ret tt
  | (n, decl) :: ts =>
      let@ value := resolve_vars (t_value decl) in
      if is_empty (trim value) || contains value "{{" then apply_login_tokens ts
      else
        match t_header decl with
        | Some h => modify (set_sticky_header h (String.append (default "" (t_prefix decl)) value))
        | None => ret tt
        end ;@
        insert_token n (JObj ([("value", JStr value)] ++ match t_header decl with Some h => [("header", JStr h)] | None => [] end
                              ++ match t_prefix decl with Some p => [("prefix", JStr p)] | None => [] end)) ;@
        apply_login_tokens ts
  end.

Definition clear_jar : L unit := modify (fun e => set_jar (CookieJar.clear (jar e)) e).

(** The loop of [do_login]: [retries] remain. *)
Fixpoint login_loop (retries : nat) (l : LoginBlock) : L unit :=
  fun s =>
    match run_login_once l s with
    | (Ok tt, s) => apply_login_tokens (login_tokens l) s
    | (Err e, s) =>
        match retries with
        | S retries => if is_fallback AuthFailed e then (clear_jar ;@ login_loop retries l) s else (Err e, s)
        | O => (Err e, s)
        end
    end.

Definition do_login : L unit :=
  match login (recipe rn) with
  | None => fail (Fallback Unsupported)
  | Some l => login_loop (relogin_max_retries rn) l
  end.

Definition try_refresh : L bool :=
  match refresh (recipe rn) with
  | None => ret false
  | Some st =>
      let@ resp := run_recipe_request (request_of st) in
      if negb (expect_ok (expect st) resp) then ret false
      else apply_extractions (extract st) resp ;@ ret true
  end.

Definition export_tokens (s : Lane) : option json :=
  if bool_decide (tokens s = ∅) then None else Some (JObj (token_order (tokens s))).

Definition log_in : L AuthOutcome := do_login ;@ ret LoggedIn.

Definition ensure_session : L AuthOutcome :=
  let@ t := read export_tokens in
  match t with Some t => modify (seed_tokens t) | None => ret tt end ;@
  let@ warm := gets has_session in
  if warm then
    match probe (recipe rn) with
    | None => ret Reused
    | Some p =>
        let@ resp := run_recipe_request (request_of p) in
        if expect_ok (expect p) resp then ret Reused
        else
          let@ refreshed := try_refresh in
          if refreshed then ret Refreshed else log_in
    end
  else log_in.

Definition reauthenticate : L AuthOutcome :=
  let@ refreshed := try_refresh in
  if refreshed then ret Refreshed
  else clear_jar ;@ log_in.
End recipe.

(** [RecipeRunner::new]: the tokens of the session a run is seeded with. *)
Definition seeded_runner_tokens (seeded : option json) : gmap string json :=
  match seeded ≫= json_as_object with
  | Some m => foldl (fun t kv => <[fst kv := snd kv]> t) ∅ m
  | None => ∅
  end.

(** ** What the interpreter keeps *)

Section keep.
Context `{ExtractLibs, HttpNet, JsonText, RecipeLibs}.

(** Predicates that each primitive of the interpreter keeps. *)
Record stable (P : Lane -> Prop) : Prop := {
  stable_request : forall method url hs body, keeps P (request method url hs body);
  stable_epoch : keeps P now_epoch;
  stable_on_step : forall i t p, keeps P (note (OnStep i t p));
  stable_slept : forall ms, keeps P (note (Slept ms));
  stable_sticky : forall n v, keeps P (modify (set_sticky_header n v));
  stable_seed : forall t, keeps P (modify (seed_tokens t));
  stable_cookie : forall now n v d, keeps P (modify (fun e => set_jar (CookieJar.set_cookie (jar e) now n v d "/") e));
  stable_clear : keeps P clear_jar;
  stable_var : forall k v, keeps P (insert_var k v);
  stable_token : forall k v, keeps P (insert_token k v);
}.

Lemma stable_audited : stable audited.
Proof.
  split; intros; try apply keeps_modify; try apply keeps_insert_var; try apply keeps_insert_token; try apply keeps_epoch.
  apply keeps_request.
Qed.

Lemma stable_exec_ok : stable (of_exec exec_ok).
Proof.
  split; intros; try (by intros s Hs).
  - apply keeps_exec_request.
  - intros s Hs. by apply exec_ok_sticky.
  - intros s Hs. by apply exec_ok_seed.
  - intros s Hs. apply exec_ok_jar; [|exact Hs]. unfold CookieJar.set_cookie. apply CookieJar.store_spec, Hs.
  - intros s Hs. apply exec_ok_jar; [|exact Hs]. apply (CookieJar.jar_sublist_ok (jar (exec s))); [apply Hs|apply sublist_nil_l].
Qed.

Section one.
Context (P : Lane -> Prop) (HP : stable P).

Lemma keeps_apply_store (st : StoreSpec) (v : json) : keeps P (apply_store st v).
Proof.
  unfold apply_store. destruct (str_eqb (as_ st) "header").
  - destruct (st_header st); [|apply kept_ret]. apply kept_bind; [apply HP|intros; apply HP].
  - destruct (str_eqb (as_ st) "cookie"); [|apply kept_ret]. destruct (cookie_name st); [|apply kept_ret].
    apply kept_bind; [apply keeps_gets|intros [d|]]; [|apply kept_ret]. apply kept_bind; intros; apply HP.
Qed.

Lemma keeps_extractions (specs : list (string * ExtractSpec)) (r : HttpResponse) : keeps P (apply_extractions specs r).
Proof.
  induction specs as [|[n spec] specs IH]; [apply kept_ret|]. cbn [apply_extractions].
  apply kept_bind; [apply keeps_read|intros [v|]]; [|destruct (optional spec); [done|apply keeps_fail]].
  apply kept_bind; [destruct (store spec); [apply keeps_apply_store|apply kept_ret]|intros _].
  apply kept_bind; [apply HP|done].
Qed.

Lemma keeps_recipe_request (rn : Runner) (q : RequestSpec) (code : option string) : keeps P (run_recipe_request_with rn q code).
Proof. apply kept_bind; [apply keeps_read|intros; apply HP]. Qed.

Lemma keeps_challenges (rn : Runner) (chs : list Challenge) (e : option ExpectSpec) (r : HttpResponse) : keeps P (run_challenges rn chs e r).
Proof.
  induction chs as [|ch chs IH]; [apply kept_ret|]. cbn [run_challenges]. destruct (negb _); [done|].
  destruct (resolve_challenge _ _); [|apply keeps_fail]. apply kept_bind; [apply keeps_recipe_request|intros resp].
  apply kept_bind; [apply keeps_extractions|intros _]. by destruct (expect_ok _ _); [apply kept_ret|].
Qed.

Lemma keeps_login_steps (rn : Runner) (sts : list RecipeStep) : keeps P (run_login_steps rn sts).
Proof.
  induction sts as [|st sts IH]; [apply kept_ret|]. cbn [run_login_steps]. apply kept_bind; [apply keeps_recipe_request|intros resp].
  destruct (looks_like_challenge resp); [apply keeps_fail|]. apply kept_bind; [apply keeps_extractions|intros _].
  apply kept_bind; [|intros []; [done|apply keeps_fail]]. destruct (expect_ok _ _); [apply kept_ret|].
  destruct (challenges st); [apply kept_ret|apply keeps_challenges].
Qed.

Lemma keeps_login_tokens (rn : Runner) (ts : list (string * TokenDecl)) : keeps P (apply_login_tokens rn ts).
Proof.
  induction ts as [|[n d] ts IH]; [apply kept_ret|]. cbn [apply_login_tokens]. apply kept_bind; [apply keeps_read|intros v].
  destruct (_ || _); [done|]. apply kept_bind; [destruct (t_header d); [apply HP|apply kept_ret]|intros _].
  apply kept_bind; [apply HP|done].
Qed.

Lemma keeps_login_loop (rn : Runner) (n : nat) (l : LoginBlock) : keeps P (login_loop rn n l).
Proof.
  induction n as [|n IH]; intros s Hs; cbn [login_loop]; pose proof (keeps_login_steps rn (steps l) s Hs) as Hr;
    change (run_login_steps rn (steps l)) with (run_login_once rn l) in Hr; destruct (run_login_once rn l s) as [[[]|e] s'];
    try (by apply keeps_login_tokens); [done|].
  destruct (is_fallback AuthFailed e); [|done]. by apply (kept_bind clear_jar (fun _ => login_loop rn n l) P (stable_clear P HP) (fun _ => IH)).
Qed.

Lemma keeps_do_login (rn : Runner) : keeps P (do_login rn).
Proof. unfold do_login. destruct (login (recipe rn)); [apply keeps_login_loop|apply keeps_fail]. Qed.

Lemma keeps_refresh (rn : Runner) : keeps P (try_refresh rn).
Proof.
  unfold try_refresh. destruct (refresh (recipe rn)) as [st|]; [|apply kept_ret]. apply kept_bind; [apply keeps_recipe_request|intros resp].
  destruct (negb _); [apply kept_ret|]. apply kept_bind; [apply keeps_extractions|intros; apply kept_ret].
Qed.

Lemma keeps_log_in (rn : Runner) : keeps P (log_in rn).
Proof. apply kept_bind; [apply keeps_do_login|intros; apply kept_ret]. Qed.

Lemma keeps_ensure_session (rn : Runner) : keeps P (ensure_session rn).
Proof.
  unfold ensure_session. apply kept_bind; [apply keeps_read|intros t]. apply kept_bind; [destruct t; [apply HP|apply kept_ret]|intros _].
  apply kept_bind; [apply keeps_gets|intros []]; [|apply keeps_log_in]. destruct (probe (recipe rn)) as [p|]; [|apply kept_ret].
  apply kept_bind; [apply keeps_recipe_request|intros resp]. destruct (expect_ok _ _); [apply kept_ret|].
  apply kept_bind; [apply keeps_refresh|intros []; [apply kept_ret|apply keeps_log_in]].
Qed.

Lemma keeps_reauthenticate (rn : Runner) : keeps P (reauthenticate rn).
Proof.
  unfold reauthenticate. apply kept_bind; [apply keeps_refresh|intros []; [apply kept_ret|]].
  apply kept_bind; [apply HP|intros; apply keeps_log_in].
Qed.
End one.
End keep.

(** ** How many requests it opens *)

Section opens.
Context `{ExtractLibs, HttpNet, JsonText, RecipeLibs}.
Context (rn : Runner).

Definition step_requests (st : RecipeStep) : nat := S (length (challenges st)).
Definition login_requests (l : LoginBlock) : nat := sum_list_with step_requests (steps l).
(** A whole sign-in, its retries included; the refresh before it. *)
Definition sign_in_requests : nat :=
  match login (recipe rn) with Some l => S (relogin_max_retries rn) * login_requests l | None => 0 end.

Local Hint Resolve opens_epoch opens_instant opens_request : lane.

Lemma opens_apply_store (st : StoreSpec) (v : json) : opens 0 (apply_store st v).
Proof.
  unfold apply_store. destruct (str_eqb (as_ st) "header"); [destruct (st_header st); auto with lane|].
  destruct (str_eqb (as_ st) "cookie"); [|auto with lane]. destruct (cookie_name st); [|auto with lane].
  apply opens_seq; [auto with lane|intros [d|]; auto with lane].
Qed.

Lemma opens_extractions (specs : list (string * ExtractSpec)) (r : HttpResponse) : opens 0 (apply_extractions specs r).
Proof.
  induction specs as [|[n spec] specs IH]; [apply opens_ret|]. cbn [apply_extractions].
  apply opens_seq; [apply opens_read|]. intros [v|]; [|destruct (optional spec); [done|apply opens_fail]].
  apply opens_seq; [destruct (store spec); [apply opens_apply_store|apply opens_ret]|intros _].
  apply opens_seq; [apply opens_insert_var|done].
Qed.

Lemma opens_recipe_request (q : RequestSpec) (code : option string) : opens 1 (run_recipe_request_with rn q code).
Proof. unfold run_recipe_request_with. auto with lane. Qed.

Lemma opens_challenges (chs : list Challenge) (e : option ExpectSpec) (r : HttpResponse) : opens (length chs) (run_challenges rn chs e r).
Proof.
  induction chs as [|ch chs IH]; [apply opens_ret|]. cbn [run_challenges length]. destruct (negb _); [eapply opens_le; [exact IH|lia]|].
  destruct (resolve_challenge _ _) as [code|park]; [|apply opens_fail].
  apply (opens_bind 1 (length chs)); [apply opens_recipe_request|intros resp].
  apply opens_seq; [apply opens_extractions|intros _]. destruct (expect_ok _ _); [apply opens_ret|exact IH].
Qed.

Lemma opens_login_steps (sts : list RecipeStep) : opens (sum_list_with step_requests sts) (run_login_steps rn sts).
Proof.
  induction sts as [|st sts IH]; [apply opens_ret|]. cbn [run_login_steps sum_list_with]. unfold step_requests at 1.
  apply (opens_bind 1 _); [apply opens_recipe_request|intros resp]. destruct (looks_like_challenge resp); [apply opens_fail|].
  apply opens_seq; [apply opens_extractions|intros _]. apply opens_bind; [|intros []; [done|apply opens_fail]].
  destruct (expect_ok _ _); [apply opens_ret|]. destruct (challenges st) as [|ch chs]; [apply opens_ret|apply (opens_challenges (ch :: chs))].
Qed.

Lemma opens_login_tokens (ts : list (string * TokenDecl)) : opens 0 (apply_login_tokens rn ts).
Proof.
  induction ts as [|[n d] ts IH]; [apply opens_ret|]. cbn [apply_login_tokens]. apply opens_seq; [apply opens_read|intros v].
  destruct (_ || _); [done|].
  apply opens_seq; [destruct (t_header d); [apply opens_modify|apply opens_ret]|intros _]. apply opens_seq; [apply opens_insert_token|done].
Qed.

Lemma opens_clear : opens 0 clear_jar.
Proof. apply opens_modify. Qed.

Lemma opens_login_loop (n : nat) (l : LoginBlock) : opens (S n * login_requests l) (login_loop rn n l).
Proof.
  induction n as [|n IH]; intros s; cbn [login_loop]; pose proof (opens_login_steps (steps l) s) as Hr; fold (login_requests l) in Hr;
    change (run_login_steps rn (steps l)) with (run_login_once rn l) in Hr; destruct (run_login_once rn l s) as [[[]|e] s']; cbn [snd] in *.
  - pose proof (opens_login_tokens (login_tokens l) s'). lia.
  - lia.
  - pose proof (opens_login_tokens (login_tokens l) s'). lia.
  - destruct (is_fallback AuthFailed e); cbn [snd]; [|lia].
    pose proof (opens_seq _ clear_jar (fun _ => login_loop rn n l) opens_clear (fun _ => IH) s') as Hc. lia.
Qed.

Lemma opens_do_login : opens sign_in_requests (do_login rn).
Proof. unfold do_login, sign_in_requests. destruct (login (recipe rn)); [apply opens_login_loop|apply opens_fail]. Qed.

Lemma opens_refresh : opens 1 (try_refresh rn).
Proof.
  unfold try_refresh. destruct (refresh (recipe rn)) as [st|]; [|apply opens_ret]. apply (opens_bind 1 0); [apply opens_recipe_request|intros resp].
  destruct (negb _); [apply opens_ret|]. apply opens_seq; [apply opens_extractions|intros; apply opens_ret].
Qed.

Lemma opens_log_in : opens sign_in_requests (log_in rn).
Proof. unfold log_in. rewrite <-(Nat.add_0_r sign_in_requests). apply opens_bind; [apply opens_do_login|intros; apply opens_ret]. Qed.

Lemma opens_reauthenticate : opens (1 + sign_in_requests) (reauthenticate rn).
Proof.
  unfold reauthenticate. apply opens_bind; [apply opens_refresh|intros []; [apply opens_ret|]].
  apply opens_seq; [apply opens_clear|intros; apply opens_log_in].
Qed.

Lemma opens_ensure_session : opens (2 + sign_in_requests) (ensure_session rn).
Proof.
  unfold ensure_session. apply opens_seq; [apply opens_read|intros t]. apply opens_seq; [destruct t; [apply opens_modify|apply opens_ret]|intros _].
  apply opens_seq; [apply opens_gets|intros []]; [|eapply opens_le; [apply opens_log_in|lia]].
  destruct (probe (recipe rn)) as [p|]; [|apply opens_ret].
  apply (opens_bind 1 (1 + sign_in_requests)); [apply opens_recipe_request|intros resp]. destruct (expect_ok _ _); [apply opens_ret|].
  apply opens_bind; [apply opens_refresh|intros []; [apply opens_ret|apply opens_log_in]].
Qed.
End opens.

(** ** How it can fail *)

Section errs.
Context `{ExtractLibs, HttpNet, JsonText, RecipeLibs}.
Context (rn : Runner).

Definition has_challenge : Prop := exists l st, login (recipe rn) = Some l /\ st ∈ steps l /\ challenges st <> [].

(** A recipe's sign-in fails as a request does, or on a challenge page, a refusal, a code nobody can supply; or because
    there is no login to run. *)
Definition recipe_error (e : HttpLaneError) : Prop :=
  match e with
  | Fallback ChallengePage | Fallback AuthFailed => True
  | Fallback Unsupported => login (recipe rn) = None
  | Parked _ => has_challenge
  | e => request_error e
  end.

Lemma request_recipe_error (e : HttpLaneError) : request_error e -> recipe_error e.
Proof. destruct e as [[]|f|p]; cbn; try done; naive_solver. Qed.

Lemma errs_weaken {A : Type} (E F : HttpLaneError -> Prop) (m : L A) : (forall e, E e -> F e) -> errs E m -> errs F m.
Proof. intros HE Hm s. specialize (Hm s). destruct (m s) as [[a|e] s']; auto. Qed.

Lemma errs_recipe_request (q : RequestSpec) (code : option string) : errs recipe_error (run_recipe_request_with rn q code).
Proof. apply errs_bind; [no_error|intros f]. eapply errs_weaken; [apply request_recipe_error|apply errs_request]. Qed.

Lemma errs_apply_store (E : HttpLaneError -> Prop) (st : StoreSpec) (v : json) : errs E (apply_store st v).
Proof.
  unfold apply_store. destruct (str_eqb (as_ st) "header"); [destruct (st_header st); [apply errs_bind; intros; no_error|no_error]|].
  destruct (str_eqb (as_ st) "cookie"); [|no_error]. destruct (cookie_name st); [|no_error].
  apply errs_bind; [no_error|intros [d|]; [|no_error]]. apply errs_bind; intros; no_error.
Qed.

Lemma errs_extractions (specs : list (string * ExtractSpec)) (r : HttpResponse) : errs recipe_error (apply_extractions specs r).
Proof.
  induction specs as [|[n spec] specs IH]; [no_error|]. cbn [apply_extractions].
  apply errs_bind; [no_error|intros [v|]; [|destruct (optional spec); [done|no_error]]].
  apply errs_bind; [destruct (store spec); [apply errs_apply_store|no_error]|intros _]. apply errs_bind; [no_error|done].
Qed.

Lemma errs_challenges (chs : list Challenge) (e : option ExpectSpec) (r : HttpResponse) :
  (chs <> [] -> has_challenge) -> errs recipe_error (run_challenges rn chs e r).
Proof.
  induction chs as [|ch chs IH]; intros Hc; [no_error|]. cbn [run_challenges].
  assert (Hrest : errs recipe_error (run_challenges rn chs e r)) by (apply IH; intros; by apply Hc).
  destruct (negb _); [done|]. destruct (resolve_challenge _ _) as [code|park]; [|intros s; by apply Hc].
  apply errs_bind; [apply errs_recipe_request|intros resp]. apply errs_bind; [apply errs_extractions|intros _].
  by destruct (expect_ok _ _); [intros s|].
Qed.

Lemma errs_login_steps (sts : list RecipeStep) :
  (forall st, st ∈ sts -> challenges st <> [] -> has_challenge) -> errs recipe_error (run_login_steps rn sts).
Proof.
  induction sts as [|st sts IH]; intros Hc; [no_error|]. cbn [run_login_steps].
  assert (Hrest : errs recipe_error (run_login_steps rn sts)) by (apply IH; intros st' Hs; apply Hc; by right).
  apply errs_bind; [apply errs_recipe_request|intros resp]. destruct (looks_like_challenge resp); [no_error|].
  apply errs_bind; [apply errs_extractions|intros _]. apply errs_bind; [|intros []; [done|no_error]].
  destruct (expect_ok _ _); [no_error|]. pose proof (Hc st ltac:(by left)) as Hst. destruct (challenges st) as [|ch chs]; [no_error|].
  apply errs_challenges. intros _. by apply Hst.
Qed.

Lemma errs_login_tokens (E : HttpLaneError -> Prop) (ts : list (string * TokenDecl)) : errs E (apply_login_tokens rn ts).
Proof.
  induction ts as [|[n d] ts IH]; [no_error|]. cbn [apply_login_tokens]. apply errs_bind; [no_error|intros v].
  destruct (_ || _); [done|]. apply errs_bind; [destruct (t_header d); no_error|intros _]. apply errs_bind; [no_error|done].
Qed.

Lemma errs_login_loop (n : nat) (l : LoginBlock) : login (recipe rn) = Some l -> errs recipe_error (login_loop rn n l).
Proof.
  intros Hl. assert (Ho : errs recipe_error (run_login_once rn l)) by (apply errs_login_steps; intros st Hs Hc; by exists l, st).
  induction n as [|n IH]; intros s; cbn [login_loop]; specialize (Ho s); destruct (run_login_once rn l s) as [[[]|e] s'];
    try (by apply errs_login_tokens); [done|].
  destruct (is_fallback AuthFailed e); [|done]. apply (errs_bind recipe_error clear_jar); [no_error|done].
Qed.

Lemma errs_log_in : errs recipe_error (log_in rn).
Proof.
  apply errs_bind; [|intros; no_error]. unfold do_login. destruct (login (recipe rn)) as [l|] eqn:E; [by apply errs_login_loop|no_error].
Qed.

Lemma errs_refresh : errs recipe_error (try_refresh rn).
Proof.
  unfold try_refresh. destruct (refresh (recipe rn)) as [st|]; [|no_error]. apply errs_bind; [apply errs_recipe_request|intros resp].
  destruct (negb _); [no_error|]. apply errs_bind; [apply errs_extractions|intros; no_error].
Qed.

Lemma errs_ensure_session : errs recipe_error (ensure_session rn).
Proof.
  unfold ensure_session. apply errs_bind; [no_error|intros t]. apply errs_bind; [destruct t; no_error|intros _].
  apply errs_bind; [no_error|intros []]; [|apply errs_log_in]. destruct (probe (recipe rn)) as [p|]; [|no_error].
  apply errs_bind; [apply errs_recipe_request|intros resp]. destruct (expect_ok _ _); [no_error|].
  apply errs_bind; [apply errs_refresh|intros []; [no_error|apply errs_log_in]].
Qed.

Lemma errs_reauthenticate : errs recipe_error (reauthenticate rn).
Proof.
  unfold reauthenticate. apply errs_bind; [apply errs_refresh|intros []; [no_error|]].
  apply errs_bind; [no_error|intros; apply errs_log_in].
Qed.
End errs.
