(* ===== verification/HttpLadder.v ===== *)
(** * automation/http_lane/ladder.rs

    A workflow over the HTTP lane: lazy login, detection of an expired session, bounded re-login, fallback to the browser.
    The observer's calls are events of the log. *)

From Stdlib Require Import Ascii String.
From S2P Require Import Prelude Ints F64 Str Json Extract Resolve HttpLane HttpSteps AuthRecipe.
From S2P Require CookieJar.
Open Scope string_scope.
Open Scope Z_scope.
Open Scope lane_scope.

Record LadderConfig : Type := mkLadder {
  login_url_patterns : list string;
  max_relogins : Z;
}.

Record LadderOutcome : Type := mkOutcome {
  extracted : gmap string json;
  steps_completed : nat;
}.

Record ParsedStep : Type := mkParsed {
  p_index : nat;
  p_type : string;
  p_config : WorkflowStepConfig;
}.

(** [serde_json::from_value] of a step's configuration. *)
Class ConfigLibs : Type := { config_from_value : json -> option WorkflowStepConfig }.

Definition default_config : WorkflowStepConfig := mkConfig None None [].

Definition is_stale (r : HttpResponse) (c : WorkflowStepConfig) (cfg : LadderConfig) : bool :=
  if unauthorized r then true
  else
    let final := to_ascii_lowercase (as_str (final_url r)) in
    if any (fun p => negb (is_empty p) && contains final (to_ascii_lowercase p)) (login_url_patterns cfg) then true
    else
      let expects_json := bool_decide (is_Some (map_get (extra c) "response_extractions")) || bool_decide (is_Some (map_get (extra c) "variable")) in
      expects_json && bool_decide (json_body r = None) && starts_with (trim_start (body r)) "<".

Definition looks_like_challenge (r : HttpResponse) : bool :=
  if any (contains (to_ascii_lowercase (body r))) ["cf-chl"; "cf-turnstile"; "just a moment"; "challenge-platform"; "/cdn-cgi/challenge"] then true
  else if status r =? 403 then
    let server := match find_first (fun kv => eq_ignore_ascii_case (fst kv) "server") (headers r) with
                  | Some (_, v) => to_ascii_lowercase v
                  | None => ""
                  end in
    contains server "cloudflare" || contains server "akamai"
  else false.

(** [x as u64]: truncation, saturating at the ends, NaN to zero. *)
Definition f64_to_u64 (x : f64) : Z :=
  match x with
  | S754_nan | S754_zero _ => 0
  | S754_infinity s => if s then 0 else u64_max
  | S754_finite s m e => if s then 0 else Z.min (mag_trunc m e) u64_max
  end.

(** The milliseconds a wait sleeps. *)
Definition wait_ms (c : WorkflowStepConfig) : Z :=
  Z.min (match c_duration c with
         | Some d => f64_to_u64 d
         | None => default 0 (map_get (extra c) "duration" ≫= json_as_u64)
         end) 30000.

Definition wait_step (c : WorkflowStepConfig) : L unit := if 0 <? wait_ms c then note (Slept (wait_ms c)) else ret tt.

Section ladder.
Context `{ExtractLibs, HttpNet, JsonText, RecipeLibs, ConfigLibs}.

Definition parse_step (i : nat) (raw : json) : option ParsedStep :=
  if negb (step_enabled raw) then None
  else if is_empty (step_type raw) then None
  else Some (mkParsed i (step_type raw) (default default_config (config_from_value (default raw (get raw "config"))))).

Definition parse_steps (raw_steps : list json) : list ParsedStep := omap (fun ir => parse_step (fst ir) (snd ir)) (enumerate raw_steps).

Context (i : Inputs) (cfg : LadderConfig) (rn : option Runner).

Definition run_login_step (st : ParsedStep) (ex : gmap string json) : L unit :=
  let@ req := of_result (build_request (p_config st) i ex) in
  let@ resp := run_request req in
  if looks_like_challenge resp then fail (Fallback ChallengePage)
  else if 400 <=? status resp then fail (Fallback AuthFailed)
  else ret tt.

Fixpoint run_logins (sts : list ParsedStep) (ex : gmap string json) : L unit :=
  match sts with
  | [] => ret tt
  | st :: sts => run_login_step st ex ;@ run_logins sts ex
  end.

Definition is_login (st : ParsedStep) : bool := str_eqb (p_type st) "login_post".

Definition relogin (steps : list ParsedStep) (ex : gmap string json) : L unit :=
  clear_jar ;@ run_logins (retain is_login steps) ex.

(** The variables of the runner over what was extracted. *)
Definition merge_vars (ex : gmap string json) : L (gmap string json) := read (fun s => vars s ∪ ex).

Definition on_step (st : ParsedStep) (p : StepPhase) : L unit := note (OnStep (p_index st) (p_type st) p).
Definition fail_step {A : Type} (st : ParsedStep) (r : FallbackReason) : L A := on_step st Failed ;@ fail (Fallback r).

(** An expired session: sign in again, then the call once more. Returns the extracted values and the response. *)
Definition recover (steps : list ParsedStep) (st : ParsedStep) (attempts : Z) (ex : gmap string json) : L (gmap string json * HttpResponse) :=
  if max_relogins cfg <=? attempts then fail_step st AuthFailed
  else
    let@ ex := match rn with
               | Some rn => reauthenticate rn ;@ merge_vars ex
               | None =>
                   match retain is_login steps with
                   | [] => fail_step st AuthFailed
                   | _ => relogin steps ex ;@ ret ex
                   end
               end in
    let@ req := of_result (build_request (p_config st) i ex) in
    let@ resp := run_request req in
    if is_stale resp (p_config st) cfg then fail_step st LoginLoop else ret (ex, resp).

(** One data call: the extracted values and the count of re-logins after it. *)
Definition api_call (steps : list ParsedStep) (st : ParsedStep) (attempts : Z) (ex : gmap string json) : L (gmap string json * Z) :=
  on_step st Running ;@
  let@ req := of_result (build_request (p_config st) i ex) in
  let@ resp := run_request req in
  if looks_like_challenge resp then fail_step st ChallengePage
  else
    let@ r := (if is_stale resp (p_config st) cfg
               then let@ er := recover steps st attempts ex in ret (er, attempts + 1)
               else ret (ex, resp, attempts)) in
    let '(ex, resp, attempts) := r in
    on_step st Succeeded ;@
    ret (extractions_from_response (p_config st) resp ∪ ex, attempts).

(** The loop over the steps. *)
Fixpoint run_steps (steps : list ParsedStep) (skip_login : bool) (todo : list ParsedStep) (attempts : Z) (completed : nat)
    (ex : gmap string json) : L LadderOutcome :=
  match todo with
  | [] => ret (mkOutcome ex completed)
  | st :: todo =>
      let@ cancelled := read (fun s => is_cancelled (log s)) in
      if cancelled then fail (Fatal RunCancelled)
      else if str_eqb (p_type st) "login_post" then
        if skip_login then on_step st Skipped ;@ run_steps steps skip_login todo attempts completed ex
        else
          on_step st Running ;@ run_login_step st ex ;@ on_step st Succeeded ;@
          run_steps steps skip_login todo attempts (S completed) ex
      else if str_eqb (p_type st) "api_call" then
        let@ r := api_call steps st attempts ex in
        run_steps steps skip_login todo (snd r) (S completed) (fst r)
      else if str_eqb (p_type st) "wait" then
        on_step st Running ;@ wait_step (p_config st) ;@ on_step st Succeeded ;@
        run_steps steps skip_login todo attempts (S completed) ex
      else if str_eqb (p_type st) "return" then on_step st Succeeded ;@ ret (mkOutcome ex (S completed))
      else fail (Fallback Unsupported)
  end.

Definition run_workflow_http (raw_steps : list json) : L LadderOutcome :=
  let steps := parse_steps raw_steps in
  let@ ex := match rn with Some rn => ensure_session rn ;@ merge_vars ∅ | None => ret ∅ end in
  let@ warm := gets has_session in
  run_steps steps (bool_decide (is_Some rn) || warm) steps 0 0 ex.
End ladder.

(** ** What a run keeps *)

Section keep.
Context `{ExtractLibs, HttpNet, JsonText, RecipeLibs, ConfigLibs}.
Context (i : Inputs) (cfg : LadderConfig) (rn : option Runner).
Context (P : Lane -> Prop) (HP : stable P).

Lemma keeps_on_step (st : ParsedStep) (p : StepPhase) : keeps P (on_step st p).
Proof. apply HP. Qed.

Lemma keeps_fail_step {A : Type} (st : ParsedStep) (r : FallbackReason) : keeps P (fail_step (A := A) st r).
Proof. apply kept_bind; [apply keeps_on_step|intros; apply keeps_fail]. Qed.

Lemma keeps_lane_request (r : BuiltRequest) : keeps P (run_request r).
Proof. apply keeps_run_request, HP. Qed.

Lemma keeps_login_step (st : ParsedStep) (ex : gmap string json) : keeps P (run_login_step i st ex).
Proof.
  apply kept_bind; [apply keeps_of_result|intros req]. apply kept_bind; [apply keeps_lane_request|intros resp].
  destruct (looks_like_challenge resp); [apply keeps_fail|]. destruct (_ <=? _); [apply keeps_fail|apply kept_ret].
Qed.

Lemma keeps_logins (sts : list ParsedStep) (ex : gmap string json) : keeps P (run_logins i sts ex).
Proof. induction sts as [|st sts IH]; [apply kept_ret|]. apply kept_bind; [apply keeps_login_step|done]. Qed.

Lemma keeps_relogin (steps : list ParsedStep) (ex : gmap string json) : keeps P (relogin i steps ex).
Proof. apply kept_bind; [apply HP|intros; apply keeps_logins]. Qed.

Lemma keeps_recover (steps : list ParsedStep) (st : ParsedStep) (n : Z) (ex : gmap string json) : keeps P (recover i cfg rn steps st n ex).
Proof.
  unfold recover. destruct (_ <=? _); [apply keeps_fail_step|]. apply kept_bind.
  { destruct rn as [r|].
    - apply kept_bind; [by apply keeps_reauthenticate|intros; apply keeps_read].
    - destruct (retain is_login steps); [apply keeps_fail_step|]. apply kept_bind; [apply keeps_relogin|intros; apply kept_ret]. }
  intros ex'. apply kept_bind; [apply keeps_of_result|intros req]. apply kept_bind; [apply keeps_lane_request|intros resp].
  destruct (is_stale _ _ _); [apply keeps_fail_step|apply kept_ret].
Qed.

Lemma keeps_api_call (steps : list ParsedStep) (st : ParsedStep) (n : Z) (ex : gmap string json) : keeps P (api_call i cfg rn steps st n ex).
Proof.
  apply kept_bind; [apply keeps_on_step|intros _]. apply kept_bind; [apply keeps_of_result|intros req].
  apply kept_bind; [apply keeps_lane_request|intros resp]. destruct (looks_like_challenge resp); [apply keeps_fail_step|].
  apply kept_bind.
  { destruct (is_stale _ _ _); [apply kept_bind; [apply keeps_recover|intros]|]; apply kept_ret. }
  intros [[ex' resp'] n']. apply kept_bind; [apply keeps_on_step|intros; apply kept_ret].
Qed.

Lemma keeps_wait (c : WorkflowStepConfig) : keeps P (wait_step c).
Proof. unfold wait_step. destruct (_ <? _); [apply HP|apply kept_ret]. Qed.

Lemma keeps_steps (steps : list ParsedStep) (skip : bool) (todo : list ParsedStep) :
  forall n k ex, keeps P (run_steps i cfg rn steps skip todo n k ex).
Proof.
  induction todo as [|st todo IH]; intros n k ex; [apply kept_ret|]. cbn [run_steps].
  apply kept_bind; [apply keeps_read|intros []; [apply keeps_fail|]].
  destruct (str_eqb (p_type st) "login_post").
  { destruct skip; [apply kept_bind; [apply keeps_on_step|done]|].
    apply kept_bind; [apply keeps_on_step|intros _]. apply kept_bind; [apply keeps_login_step|intros _].
    apply kept_bind; [apply keeps_on_step|done]. }
  destruct (str_eqb (p_type st) "api_call"); [apply kept_bind; [apply keeps_api_call|done]|].
  destruct (str_eqb (p_type st) "wait").
  { apply kept_bind; [apply keeps_on_step|intros _]. apply kept_bind; [apply keeps_wait|intros _].
    apply kept_bind; [apply keeps_on_step|done]. }
  destruct (str_eqb (p_type st) "return"); [|apply keeps_fail]. apply kept_bind; [apply keeps_on_step|intros; apply kept_ret].
Qed.

Lemma keeps_run (raw_steps : list json) : keeps P (run_workflow_http i cfg rn raw_steps).
Proof.
  unfold run_workflow_http. apply kept_bind.
  { destruct rn as [r|]; [|apply kept_ret]. apply kept_bind; [by apply keeps_ensure_session|intros; apply keeps_read]. }
  intros ex. apply kept_bind; [apply keeps_gets|intros warm; apply keeps_steps].
Qed.
End keep.

(** ** How many requests a run opens *)

Section opens.
Context `{ExtractLibs, HttpNet, JsonText, RecipeLibs, ConfigLibs}.
Context (i : Inputs) (cfg : LadderConfig) (rn : option Runner).

Lemma opens_of_result {A : Type} (n : nat) (r : result A HttpLaneError) : opens n (of_result r).
Proof. destruct r; [apply opens_ret|apply opens_fail]. Qed.

Lemma opens_run_request (r : BuiltRequest) : opens 2 (run_request r).
Proof.
  unfold run_request. apply (opens_bind 1 1); [apply opens_request|intros resp]. destruct (unauthorized resp); [|apply opens_ret].
  destruct (negb _); [|apply opens_ret]. apply (opens_bind 1 0); [apply opens_request|intros; apply opens_ret].
Qed.

Lemma opens_step {A : Type} (st : ParsedStep) (p : StepPhase) (n : nat) (k : unit -> L A) :
  (forall a, opens n (k a)) -> opens n (bind (on_step st p) k).
Proof. apply opens_seq, opens_on_step. Qed.

Lemma opens_fail_step {A : Type} (n : nat) (st : ParsedStep) (r : FallbackReason) : opens n (fail_step (A := A) st r).
Proof. apply opens_step. intros. apply opens_fail. Qed.

Lemma opens_login_step (st : ParsedStep) (ex : gmap string json) : opens 2 (run_login_step i st ex).
Proof.
  apply opens_seq; [apply opens_of_result|intros req]. apply (opens_bind 2 0); [apply opens_run_request|intros resp].
  destruct (looks_like_challenge resp); [apply opens_fail|]. destruct (_ <=? _); [apply opens_fail|apply opens_ret].
Qed.

Lemma opens_logins (sts : list ParsedStep) (ex : gmap string json) : opens (2 * length sts) (run_logins i sts ex).
Proof.
  induction sts as [|st sts IH]; [apply opens_ret|]. cbn [run_logins length]. eapply opens_le.
  - apply (opens_bind 2 (2 * length sts)); [apply opens_login_step|done].
  - lia.
Qed.

(** One recovery: the sign-in, and the call again. *)
Definition recovery_requests (steps : list ParsedStep) : nat :=
  match rn with Some r => 1 + sign_in_requests r | None => 2 * length (retain is_login steps) end + 2.
(** What the recoveries left may open. *)
Definition budget (steps : list ParsedStep) (attempts : Z) : nat := Z.to_nat (max_relogins cfg - attempts) * recovery_requests steps.

Lemma opens_recover (steps : list ParsedStep) (st : ParsedStep) (n : Z) (ex : gmap string json) :
  spends (budget steps n) (recover i cfg rn steps st n ex) (fun _ => budget steps (n + 1)).
Proof.
  unfold recover. destruct (Z.leb_spec (max_relogins cfg) n) as [Hn|Hn]; [intros s; cbn; lia|].
  assert (Hb : budget steps n = (recovery_requests steps + budget steps (n + 1))%nat) by (unfold budget; nia).
  rewrite Hb. unfold recovery_requests at 1. rewrite <-Nat.add_assoc. eapply spends_first.
  - destruct rn as [r|].
    + rewrite <-(Nat.add_0_r (1 + _)). apply opens_bind; [apply opens_reauthenticate|intros; apply opens_read].
    + destruct (retain is_login steps) as [|l ls] eqn:E; [apply opens_fail_step|]. rewrite <-E, <-(Nat.add_0_r (2 * _)).
      apply opens_bind; [|intros; apply opens_ret]. unfold relogin. apply opens_seq; [apply opens_clear|intros; apply opens_logins].
  - intros ex'. apply (spends_first 0 (2 + budget steps (n + 1))); [apply opens_of_result|intros req].
    apply (spends_first 2 (budget steps (n + 1))); [apply opens_run_request|intros resp].
    destruct (is_stale _ _ _); [|by apply spends_ret]. intros s. cbn. lia.
Qed.

Lemma opens_api_call (steps : list ParsedStep) (st : ParsedStep) (n : Z) (ex : gmap string json) :
  spends (2 + budget steps n) (api_call i cfg rn steps st n ex) (fun r => budget steps (snd r)).
Proof.
  unfold api_call. apply (spends_first 0 (2 + budget steps n)); [apply opens_on_step|intros _].
  apply (spends_first 0 (2 + budget steps n)); [apply opens_of_result|intros req].
  apply (spends_first 2 (budget steps n)); [apply opens_run_request|intros resp]. destruct (looks_like_challenge resp); [intros s; cbn; lia|].
  eapply spends_bind with (f := fun r => budget steps (snd r)).
  - destruct (is_stale _ _ _); [|by apply spends_ret]. eapply spends_bind; [apply opens_recover|intros er]. by apply spends_ret.
  - intros [[ex' resp'] n']. apply (spends_first 0 (budget steps n')); [apply opens_on_step|intros _]. by apply spends_ret.
Qed.

Lemma opens_wait (c : WorkflowStepConfig) : opens 0 (wait_step c).
Proof. unfold wait_step. destruct (_ <? _); [apply opens_slept|apply opens_ret]. Qed.

Lemma opens_steps (steps : list ParsedStep) (skip : bool) (todo : list ParsedStep) :
  forall n k ex, opens (2 * length todo + budget steps n) (run_steps i cfg rn steps skip todo n k ex).
Proof.
  induction todo as [|st todo IH]; intros n k ex; [apply opens_ret|]. cbn [run_steps length].
  apply opens_seq; [apply opens_read|intros []; [apply opens_fail|]].
  assert (Hrest : forall n k ex, opens (2 * S (length todo) + budget steps n) (run_steps i cfg rn steps skip todo n k ex))
    by (intros; eapply opens_le; [apply IH|lia]).
  destruct (str_eqb (p_type st) "login_post").
  { destruct skip; [by apply opens_step|]. apply opens_step. intros _. eapply opens_le.
    - apply opens_bind; [apply opens_login_step|intros _]. apply opens_step. intros _. apply IH.
    - lia. }
  destruct (str_eqb (p_type st) "api_call").
  { apply (opens_spends _ _ (fun _ => 0%nat)). replace (2 * S (length todo) + budget steps n)%nat with (2 + budget steps n + 2 * length todo)%nat by lia.
    eapply spends_bind with (f := fun r => (budget steps (snd r) + 2 * length todo)%nat).
    - intros s. pose proof (opens_api_call steps st n ex s) as Ha. destruct (api_call _ _ _ _ _ _ _ s) as [[r|e] s']; lia.
    - intros r s. pose proof (IH (snd r) (S k) (fst r) s) as Hr. destruct (run_steps _ _ _ _ _ _ _ _ _ s) as [[o|e] s']; cbn [snd] in Hr; lia. }
  destruct (str_eqb (p_type st) "wait").
  { apply opens_step. intros _. apply opens_seq; [apply opens_wait|intros _]. by apply opens_step. }
  destruct (str_eqb (p_type st) "return"); [|apply opens_fail]. apply opens_step. intros. apply opens_ret.
Qed.

(** The requests a run may open: the recipe's session, two for each step, and the recoveries. *)
Definition run_requests (raw_steps : list json) : nat :=
  match rn with Some r => 2 + sign_in_requests r | None => 0 end + (2 * length (parse_steps raw_steps) + budget (parse_steps raw_steps) 0).

Lemma opens_run (raw_steps : list json) : opens (run_requests raw_steps) (run_workflow_http i cfg rn raw_steps).
Proof.
  unfold run_workflow_http, run_requests. apply opens_bind.
  - destruct rn as [r|]; [|apply opens_ret]. rewrite <-(Nat.add_0_r (2 + _)). apply opens_bind; [apply opens_ensure_session|intros; apply opens_read].
  - intros ex. apply opens_seq; [apply opens_gets|intros warm; apply opens_steps].
Qed.
End opens.

(** ** How a run ends *)

Section outcome.
Context `{ExtractLibs, HttpNet, JsonText, RecipeLibs, ConfigLibs}.
Context (i : Inputs) (cfg : LadderConfig) (rn : option Runner).

(** The errors of a run: those of its recipe, if it has one, of its requests, and its own. *)
Definition run_error (e : HttpLaneError) : Prop :=
  match e with
  | Fallback Unsupported | Parked _ => match rn with Some r => recipe_error r e | None => False end
  | Fallback HtmlNotJson => False
  | Fallback _ => True
  | Fatal (BadProxy _ | ClientBuildFailed) => False
  | Fatal _ => True
  end.

Lemma request_run_error (e : HttpLaneError) : request_error e -> run_error e.
Proof. destruct e as [[]|[]|p]; cbn; try done; by intros [|]. Qed.

Lemma recipe_run_error (r : Runner) (e : HttpLaneError) : rn = Some r -> recipe_error r e -> run_error e.
Proof. intros E. destruct e as [[]|[]|p]; cbn; try done; rewrite ?E; try done; by intros [|]. Qed.

Lemma errs_build (c : WorkflowStepConfig) (ex : gmap string json) : errs run_error (of_result (build_request c i ex)).
Proof. unfold build_request. destruct (is_empty _); no_error. Qed.

Lemma errs_run_request (r : BuiltRequest) : errs run_error (run_request r).
Proof.
  assert (Hr : forall m u h b, errs run_error (request m u h b)) by (intros; eapply errs_weaken; [apply request_run_error|apply errs_request]).
  unfold run_request. apply errs_bind; [apply Hr|intros resp]. destruct (unauthorized resp); [|no_error].
  destruct (negb _); [|no_error]. apply errs_bind; [apply Hr|intros; no_error].
Qed.

Lemma errs_login_step (st : ParsedStep) (ex : gmap string json) : errs run_error (run_login_step i st ex).
Proof.
  apply errs_bind; [apply errs_build|intros req]. apply errs_bind; [apply errs_run_request|intros resp].
  destruct (looks_like_challenge resp); [no_error|]. destruct (_ <=? _); no_error.
Qed.

Lemma errs_logins (sts : list ParsedStep) (ex : gmap string json) : errs run_error (run_logins i sts ex).
Proof. induction sts as [|st sts IH]; [no_error|]. apply errs_bind; [apply errs_login_step|done]. Qed.

Lemma errs_fail_step {A : Type} (st : ParsedStep) (r : FallbackReason) : run_error (Fallback r) -> errs run_error (fail_step (A := A) st r).
Proof. intros Hr. apply errs_bind; [no_error|intros; no_error]. Qed.

Lemma errs_recover (sts : list ParsedStep) (st : ParsedStep) (n : Z) (ex : gmap string json) : errs run_error (recover i cfg rn sts st n ex).
Proof.
  unfold recover. destruct (_ <=? _); [by apply errs_fail_step|]. apply errs_bind.
  { destruct rn as [r|] eqn:E.
    - apply errs_bind; [|intros; no_error]. eapply errs_weaken; [intros e; by apply recipe_run_error|apply errs_reauthenticate].
    - destruct (retain is_login sts); [by apply errs_fail_step|]. apply errs_bind; [|intros; no_error].
      apply errs_bind; [no_error|intros; apply errs_logins]. }
  intros ex'. apply errs_bind; [apply errs_build|intros req]. apply errs_bind; [apply errs_run_request|intros resp].
  destruct (is_stale _ _ _); [by apply errs_fail_step|no_error].
Qed.

Lemma errs_api_call (sts : list ParsedStep) (st : ParsedStep) (n : Z) (ex : gmap string json) : errs run_error (api_call i cfg rn sts st n ex).
Proof.
  apply errs_bind; [no_error|intros _]. apply errs_bind; [apply errs_build|intros req].
  apply errs_bind; [apply errs_run_request|intros resp]. destruct (looks_like_challenge resp); [by apply errs_fail_step|].
  apply errs_bind; [destruct (is_stale _ _ _); [apply errs_bind; [apply errs_recover|intros]|]; no_error|].
  intros [[ex' resp'] n']. apply errs_bind; [no_error|intros; no_error].
Qed.

(** The step types the gate lets through. *)
Lemma errs_steps (sts : list ParsedStep) (skip : bool) (todo : list ParsedStep) :
  Forall (fun st => is_http_step_type (p_type st) = true) todo -> forall n k ex, errs run_error (run_steps i cfg rn sts skip todo n k ex).
Proof.
  induction 1 as [|st todo Ht _ IH]; intros n k ex; [no_error|]. cbn [run_steps].
  apply errs_bind; [no_error|intros []; [no_error|]]. unfold is_http_step_type, any in Ht. cbn [existsb] in Ht.
  destruct (str_eqb (p_type st) "login_post").
  { destruct skip; [apply errs_bind; [no_error|done]|]. apply errs_bind; [no_error|intros _].
    apply errs_bind; [apply errs_login_step|intros _]. apply errs_bind; [no_error|done]. }
  destruct (str_eqb (p_type st) "api_call"); [by apply errs_bind; [apply errs_api_call|]|].
  destruct (str_eqb (p_type st) "wait").
  { apply errs_bind; [no_error|intros _]. apply errs_bind; [unfold wait_step; destruct (_ <? _); no_error|intros _].
    apply errs_bind; [no_error|done]. }
  destruct (str_eqb (p_type st) "return"); [|done]. apply errs_bind; [no_error|intros; no_error].
Qed.

Lemma parsed_types (raw_steps : list json) :
  Forall (fun raw => live_step raw = true -> is_http_step_type (step_type raw) = true) raw_steps ->
  Forall (fun st => is_http_step_type (p_type st) = true) (parse_steps raw_steps).
Proof.
  intros Hf. apply Forall_forall. intros st Hst. apply list_elem_of_omap in Hst as ([k raw] & Hin & E). cbn [fst snd] in E.
  apply enumerate_elem in Hin. rewrite Forall_forall in Hf. specialize (Hf raw Hin). unfold parse_step in E. unfold live_step in Hf.
  destruct (step_enabled raw); [|done]. cbn [negb] in E. destruct (is_empty (step_type raw)); [done|]. injection E as <-. by apply Hf.
Qed.

(** What the gate promises, the ladder keeps: a workflow that the eligibility gate admits ends over the HTTP lane in an outcome, a
    fatal error of one of its own addresses (or a cancellation), or one of four reasons to fall back; it is never
    declined as unsupported, and parks for a code only when the login of its recipe declares a challenge, which a
    workflow without a recipe cannot; the only recipe that is unsupported has no login. *)
Theorem eligible_run_outcome (env : option string) (raw_steps : list json) (s : Lane) :
  eligible (http_lane_eligible env raw_steps) = true ->
  match fst (run_workflow_http i cfg rn raw_steps s) with
  | Ok _ => True
  | Err (Fallback r) => r = ChallengePage \/ r = LoginLoop \/ r = AuthFailed \/ r = Network \/
      r = Unsupported /\ exists p, rn = Some p /\ login (recipe p) = None
  | Err (Fatal f) => f <> ClientBuildFailed /\ forall server, f <> BadProxy server
  | Err (Parked _) => exists p, rn = Some p /\ has_challenge p
  end.
Proof.
  intros He. unfold http_lane_eligible in He. destruct (kill_switch_engaged env); [done|].
  assert (Hr : errs run_error (run_workflow_http i cfg rn raw_steps)).
  { unfold run_workflow_http. apply errs_bind.
    - destruct rn as [r|] eqn:E; [|no_error]. apply errs_bind; [|intros; no_error].
      eapply errs_weaken; [intros e; by apply recipe_run_error|apply errs_ensure_session].
    - intros ex. apply errs_bind; [no_error|intros warm]. apply errs_steps, parsed_types.
      eapply Forall_impl; [by eapply eligible_loop_live|]. cbn. intros raw Hraw Hl. by apply Hraw. }
  specialize (Hr s). destruct (run_workflow_http i cfg rn raw_steps s) as [[o|e] s']; [done|]. cbn [fst].
  destruct e as [r|f|p]; cbn in Hr.
  - destruct r; try tauto. destruct rn as [p|]; [|done]. do 4 right. split; [done|]. by exists p.
  - by destruct f.
  - destruct rn as [r|]; [|done]. by exists r.
Qed.


(** C38: A run is bounded: whatever the network answers, it sends at most eleven requests for each of those it opens, and it opens at most
    two for a probe and a refresh, the whole sign-in of the recipe with its retries, two for each enabled step, and for each of the
    permitted re-logins one recovery, the sign-in and the call again. *)
Theorem run_bounded (raw_steps : list json) (e : HttpLaneExecutor) (v t : gmap string json) (c : gmap string (UrlGuard.HostVerdict * Z)) :
  let s' := snd (run_workflow_http i cfg rn raw_steps (mkLane e v t c [])) in
  (opened (log s') <= run_requests cfg rn raw_steps /\ sent (log s') <= 11 * run_requests cfg rn raw_steps)%nat.
Proof.
  intros s'. pose proof (opens_run i cfg rn raw_steps (mkLane e v t c [])) as Ho. cbn [log opened] in Ho. rewrite Nat.add_0_l in Ho. fold s' in Ho.
  assert (Ha : audited s').
  { pose proof (keeps_run i cfg rn audited stable_audited raw_steps (mkLane e v t c [])) as Hk. unfold s'.
    destruct (run_workflow_http i cfg rn raw_steps _) as [[o|er] st]; apply Hk; by eexists. }
  destruct Ha as [w Hw]. pose proof (audit_sent (log s') w Hw) as (P1 & P2 & P3). split; [done|].
  destruct P3 as [P3|P3]; [unfold MAX_REDIRECTS in *; lia|]. rewrite (P2 P3). lia.
Qed.
End outcome.

(** ** Runs on a concrete network *)

Definition demo_text : JsonText := {| json_text := fun _ => "" |}.
Definition demo_recipe_libs : RecipeLibs := {| regex_is_match := fun _ _ => None; base64_url_decode := fun _ => None |}.
Definition demo_configs : ConfigLibs := {|
  config_from_value := fun v => match v with JObj m => Some (mkConfig (map_get m "url" ≫= json_as_str) None m) | _ => None end;
|}.
Definition demo_step (type url method : string) (hs : jobj) : json :=
  JObj [("type", JStr type); ("config", JObj [("url", JStr url); ("method", JStr method); ("headers", JObj hs)])].
Definition demo_run (answer : list Event -> Request -> option Reply) (sticky : gmap string string) (raw_steps : list json) :
    result LadderOutcome HttpLaneError * Lane :=
  @run_workflow_http demo_libs (demo_net answer) demo_text demo_recipe_libs demo_configs (mkInputs ∅ ∅) (mkLadder [] 1) None raw_steps
    (demo_lane sticky).
Definition requests_of (l : list Event) : list (string * string * list string) :=
  omap (fun ev => match ev with Sent r => Some (rq_method r, as_str (rq_url r), (rq_headers r).*1) | _ => None end) (rev l).

(** Sign in, then one call. *)
Definition login_and_call : list json :=
  [demo_step "login_post" "https://app.example.com/login" "post" []; demo_step "api_call" "https://app.example.com/data" "get" []].

Definition always_ok (_ : list Event) (_ : Request) : option Reply := Some (mkReply 200 [] (Some "{}")).

Lemma eligible_run_outcome_witness : exists o, eligible (http_lane_eligible None login_and_call) = true /\
  fst (demo_run always_ok ∅ login_and_call) = Ok o /\ steps_completed o = 2%nat.
Proof.
  assert (He : eligible (http_lane_eligible None login_and_call) = true) by (vm_compute; reflexivity).
  pose proof (@eligible_run_outcome demo_libs (demo_net always_ok) demo_text demo_recipe_libs demo_configs (mkInputs ∅ ∅) (mkLadder [] 1) None
    None login_and_call (demo_lane ∅) He) as Hr.
  change (run_workflow_http _ _ _ _ _) with (demo_run always_ok ∅ login_and_call) in Hr.
  destruct (fst (demo_run always_ok ∅ login_and_call)) as [o|e] eqn:E.
  - exists o. split_and!; [done|done|]. revert E. vm_compute. by intros [= <-].
  - exfalso. revert E. vm_compute. discriminate.
Defined.


(** ** Corner cases of the code *)

(** A challenge page after a re-login is taken for the call's result. *)
Definition challenge_after_login (l : list Event) (r : Request) : option Reply :=
  Some (if contains (as_str (rq_url r)) "/login" then mkReply 200 [] (Some "{}")
        else if (sent l =? 0)%nat then mkReply 401 [] (Some "") else mkReply 200 [] (Some "Just a moment...")).

Example challenge_unseen_after_relogin :
  match demo_run challenge_after_login {["X-Session" := "t"]} login_and_call with
  | (Ok o, s) => extracted o !! "api_result" = Some (JStr "Just a moment...") /\ sent (log s) = 3%nat
  | _ => False
  end.
Proof. vm_compute. split; reflexivity. Qed.

(** The retry "with auth-class headers stripped" still carries the stored token. *)
Example retry_keeps_sticky_token :
  requests_of (log (snd (demo_run (fun _ _ => Some (mkReply 401 [] (Some ""))) {["Authorization" := "Bearer stale"]}
    [demo_step "api_call" "https://app.example.com/data" "get" [("X-Api-Key", JStr "k")]]))) =
  [("GET", "https://app.example.com/data", ["Authorization"; "X-Api-Key"]); ("GET", "https://app.example.com/data", ["Authorization"])].
Proof. vm_compute. reflexivity. Qed.

(** A step with effects that went through is sent again by the browser when a later one falls back. *)
Definition second_challenged (l : list Event) (_ : Request) : option Reply :=
  Some (if (sent l =? 0)%nat then mkReply 200 [] (Some "{}") else mkReply 200 [] (Some "just a moment")).

Example fallback_after_effect :
  match demo_run second_challenged ∅ [demo_step "api_call" "https://app.example.com/order" "post" []; demo_step "api_call" "https://app.example.com/x" "get" []] with
  | (Err e, s) => is_fallback ChallengePage e = true /\ head (requests_of (log s)) = Some ("POST", "https://app.example.com/order", [])
  | _ => False
  end.
Proof. vm_compute. split; reflexivity. Qed.

(** A cookie that a recipe stores is for the registrable domain alone: the host signed in to never gets it. *)
Example stored_cookie_unsent :
  let s := snd (@apply_store (demo_net always_ok) demo_text (mkStoreSpec "cookie" None None (Some "sid")) (JStr "v") (demo_lane ∅)) in
  length (CookieJar.cookies (jar (exec s))) = 1%nat /\
  CookieJar.cookie_header_for (jar (exec s)) (CookieJar.mkReq "https" (Some "app.example.com") "/") (f64_of_Z 0) = None.
Proof. vm_compute. split; reflexivity. Qed.
