(* ===== verification/VaultRoot.v ===== *)
(** * local/vault.rs: the root key, its custody, field encryption; the keying of local/db.rs

    The home directory and the OS keyring are one state, [Home]: the key file, the keyring's entries, the
    rotation journal and the encrypted database. Each file or keyring operation is atomic and may
    fail. The primitives (HKDF, XChaCha20-Poly1305, base64, Argon2id, BIP39) are the interface
    [VaultLibs]. A root is its 32 bytes. *)

From Stdlib Require Import Ascii String.
From S2P Require Import Prelude Ints Str UpdateManifest Store.
Open Scope Z_scope.
Open Scope store_scope.

(** ** The libraries *)

Class VaultLibs : Type := {
  (** HKDF-SHA512 of a key and a label, 32 bytes *)
  hkdf : list Z -> string -> list Z;
  (** the AEAD: key, nonce, message or ciphertext, associated data *)
  aead_encrypt : list Z -> string -> string -> string -> option string;
  aead_decrypt : list Z -> string -> string -> string -> option string;
  b64_encode : string -> string;
  b64_decode : string -> option string;
  (** [Argon2id] of a passphrase and a salt at costs m, t, p *)
  argon2id : string -> string -> Z -> Z -> Z -> option (list Z);
  (** BIP39: entropy to a phrase, a phrase to its entropy *)
  mnemonic_from_entropy : list Z -> option string;
  mnemonic_parse : string -> option (list Z);
}.

(** Documented behaviour. *)
Class VaultLaws `{VaultLibs} : Prop := {
  b64_round_trip : forall s, b64_decode (b64_encode s) = Some s;
  aead_round_trip : forall k n m a c, aead_encrypt k n m a = Some c -> aead_decrypt k n c a = Some m;
  hkdf_length : forall k l, length (hkdf k l) = 32%nat;
  hkdf_bytes : forall k l, Forall (fun b => 0 <= b < 256) (hkdf k l);
  argon2id_length : forall p s m t q k, argon2id p s m t q = Some k -> length k = 32%nat;
  argon2id_bytes : forall p s m t q k, argon2id p s m t q = Some k -> Forall (fun b => 0 <= b < 256) k;
  mnemonic_round_trip : forall e m, mnemonic_from_entropy e = Some m -> mnemonic_parse (trim m) = Some e;
}.

(** ** Root keys *)

Definition RootKey : Type := list Z.

(** 32 bytes. *)
Definition root_ok (r : RootKey) : Prop := length r = 32%nat /\ Forall (fun b => 0 <= b < 256) r.

Definition xor (a b : RootKey) : RootKey := zip_with Z.lxor a b.

Definition ct_eq (a b : RootKey) : bool := foldl Z.lor 0 (zip_with Z.lxor a b) =? 0.

Definition bytes_to_string (l : list Z) : string := of_bytes (map chr l).
Definition string_to_bytes (s : string) : list Z := map byte_val (bytes s).

(** ** Field encryption and database keys *)

Definition FIELD_MAGIC : string := "WF1:".

Section field.
Context `{VaultLibs}.

Definition seal_field (root : RootKey) (nonce plaintext aad : string) : result string LocalError :=
  match aead_encrypt (hkdf root "writ-field-v1") nonce plaintext aad with
  | Some ct => Ok (String.append FIELD_MAGIC (b64_encode (String.append nonce ct)))
  | None => Err (Internal "vault seal failed")
  end.

Definition open_field (root : RootKey) (blob aad : string) : result string LocalError :=
  match strip_prefix FIELD_MAGIC blob with
  | None => Err (Internal "unknown field-cipher prefix")
  | Some b64 =>
      match b64_decode b64 with
      | None => Err (Internal "vault: bad base64")
      | Some raw =>
          if (String.length raw <? 24)%nat then Err (Internal "vault: blob too short")
          else match aead_decrypt (hkdf root "writ-field-v1") (str_take 24 raw) (str_drop 24 raw) aad with
               | Some p => Ok p
               | None => Err (Internal "vault open failed (auth/tamper)")
               end
      end
  end.

Definition db_key_hex_for (root : RootKey) : string := hex_lower (hkdf root "writ-db-v1").
End field.

(** [is_ascii_hexdigit] *)
Definition is_raw_hex_key (key : string) : bool :=
  (str_len key =? 64) && all (fun c => bool_decide (is_Some (to_digit16 c))) (bytes key).

Definition quoted (s : string) : string := String "'" (String.append s (String "'" EmptyString)).

(** [key.replace] of a quote by two. *)
Fixpoint double_quotes (s : string) : string :=
  match s with
  | EmptyString => EmptyString
  | String c s' => if byte_is "'" c then String c (String c (double_quotes s')) else String c (double_quotes s')
  end.

Definition key_pragma_value (key : string) : string :=
  if is_raw_hex_key key then quote (String "x" (quoted key)) else quoted (double_quotes key).

Definition passphrase_pragma_value (key : string) : string := quoted (double_quotes key).

(** ** The home *)

Record Secret : Type := mkSecret { secret_id : Z; secret_key : string; value_encrypted : string }.

Record Persona : Type := mkPersona {
  persona_id : Z;
  credentials_encrypted : option string;
  totp_seed_encrypted : option string;
  proxy_config_encrypted : option string;
  session_state_encrypted : option string;
}.

(** The encrypted file: the pragma value it opens under, and the tables used here, rows newest first. *)
Record DbFile : Type := mkDbFile {
  pragma_key : string;
  kv : gmap string string;
  secrets : list Secret;
  personas : list Persona;
}.

Record RotateJournal : Type := mkJournal {
  j_generation : Z;
  new_root_hex : string;
  root_in_keyring : bool;
}.

Record Home : Type := mkHome {
  key_file : option (list Z);
  keyring : gmap string (list Z);
  journal : option RotateJournal;
  db_file : option DbFile;
  home_faults : list bool;
}.

Definition set_key_file (v : option (list Z)) (h : Home) : Home := mkHome v (keyring h) (journal h) (db_file h) (home_faults h).
Definition set_keyring (v : gmap string (list Z)) (h : Home) : Home := mkHome (key_file h) v (journal h) (db_file h) (home_faults h).
Definition set_journal (v : option RotateJournal) (h : Home) : Home := mkHome (key_file h) (keyring h) v (db_file h) (home_faults h).
Definition set_db_file (v : option DbFile) (h : Home) : Home := mkHome (key_file h) (keyring h) (journal h) v (home_faults h).

#[export] Instance home_faulty : Faulty Home := {|
  Store.faults := home_faults;
  Store.set_faults := fun fs h => mkHome (key_file h) (keyring h) (journal h) (db_file h) fs;
|}.

#[export] Instance home_config : HasConfig Home := {|
  Store.config := fun h => match db_file h with Some d => kv d | None => ∅ end;
  Store.set_config := fun m h =>
    match db_file h with
    | Some d => set_db_file (Some (mkDbFile (pragma_key d) m (secrets d) (personas d))) h
    | None => h
    end;
|}.

(** ** Custody of the root *)

Definition KEYRING_ACCOUNT_LOCAL : string := "master".

(** [profile] is the environment variable. *)
Definition keyring_account (profile : option string) : string :=
  match profile with
  | Some p => if negb (is_empty (trim p)) && negb (str_eqb (trim p) "local")
              then String.append "v1-" (trim p) else KEYRING_ACCOUNT_LOCAL
  | None => KEYRING_ACCOUNT_LOCAL
  end.

Definition rotation_keyring_account (profile : option string) : string :=
  String.append (keyring_account profile) "::rotate".

(** A stored value of another length reads as none. *)
Definition only_32 (v : option (list Z)) : option RootKey :=
  match v with Some b => if Nat.eqb (length b) 32 then Some b else None | None => None end.

Definition keyring_get (account : string) : M Home (option RootKey) :=
  faulted (Internal "keyring get") (fun h => (only_32 (keyring h !! account), h)).

Definition keyring_set (account : string) (root : RootKey) : M Home unit :=
  faulted (Internal "keyring set") (fun h => (tt, set_keyring (<[account := root]> (keyring h)) h)).

Definition keyring_erase (account : string) : M Home unit :=
  faulted (Internal "keyring delete") (fun h => (tt, set_keyring (delete account (keyring h)) h)).

Definition file_get : M Home (option RootKey) := faulted Io (fun h => (only_32 (key_file h), h)).
Definition file_set (root : RootKey) : M Home unit := faulted Io (fun h => (tt, set_key_file (Some root) h)).

(** Write and read back. *)
Definition store_verified (account : string) (root : RootKey) : M Home bool :=
  let! w := attempt (keyring_set account root) in
  match w with
  | Err _ => ret false
  | Ok _ => let! r := attempt (keyring_get account) in
            ret (match r with Ok (Some rb) => bool_decide (rb = root) | _ => false end)
  end.

Definition keyring_store_verified (profile : option string) (root : RootKey) : M Home bool :=
  store_verified (keyring_account profile) root.

Definition file_matches_root (root : RootKey) : M Home bool :=
  let! r := attempt file_get in
  ret (match r with Ok (Some on_disk) => ct_eq on_disk root | _ => false end).

Definition remove_key_file_if_present : M Home unit :=
  let! _ := attempt (faulted Io (fun h => (tt, set_key_file None h))) in ret tt.

(** A database file that is not empty. *)
Definition db_has_content (h : Home) : bool := match db_file h with Some _ => true | None => false end.

(** The part of [load_or_create] after the keyring. [minted] is the fresh random root. The message of a refusal is cut after its first sentence. *)
Definition load_from_file (profile : option string) (minted : RootKey) (use_keyring : bool) : M Home RootKey :=
  let! f := file_get in
  match f with
  | Some root =>
      if use_keyring then
        let! stored := keyring_store_verified profile root in
        if stored then remove_key_file_if_present ;! ret root else ret root
      else ret root
  | None =>
      fun h =>
        if db_has_content h then
          (Err (Internal "vault: refusing to mint a NEW vault root while an existing encrypted database is present"), h)
        else
          (let! stored := if use_keyring then keyring_store_verified profile minted else ret false in
           (if stored then ret tt else file_set minted) ;! ret minted) h
  end.

(** A profile without an entry adopts the shared one. *)
Definition adopts (profile : option string) (h : Home) : bool :=
  negb (str_eqb (keyring_account profile) KEYRING_ACCOUNT_LOCAL) && db_has_content h.

Definition load_or_create (profile : option string) (minted : RootKey) (use_keyring : bool) : M Home RootKey :=
  let account := keyring_account profile in
  if use_keyring then
    let! k := keyring_get account in
    match k with
    | Some root =>
        let! same := file_matches_root root in
        (if same then remove_key_file_if_present else ret tt) ;! ret root
    | None =>
        fun h =>
          if adopts profile h then
            (let! m := keyring_get KEYRING_ACCOUNT_LOCAL in
             match m with
             | Some master => let! _ := attempt (keyring_set account master) in ret master
             | None => load_from_file profile minted use_keyring
             end) h
          else load_from_file profile minted use_keyring h
    end
  else load_from_file profile minted use_keyring.

Definition keyring_put_rotation_root (profile : option string) (root : RootKey) : M Home bool :=
  store_verified (rotation_keyring_account profile) root.

Definition keyring_get_rotation_root (profile : option string) : M Home (option RootKey) :=
  let! r := attempt (keyring_get (rotation_keyring_account profile)) in
  ret (match r with Ok v => v | Err _ => None end).

Definition keyring_delete_rotation_root (profile : option string) : M Home unit :=
  let! _ := attempt (keyring_erase (rotation_keyring_account profile)) in ret tt.

Definition persist_new_root (profile : option string) (new_root : RootKey) (use_keyring : bool) : M Home unit :=
  let! stored := if use_keyring then keyring_store_verified profile new_root else ret false in
  if stored then remove_key_file_if_present else file_set new_root.

(** ** Lemmas *)

Lemma xor_length (a b : RootKey) : length a = length b -> length (xor a b) = length a.
Proof. intros E. unfold xor. rewrite length_zip_with. lia. Qed.

Lemma xor_cancel (a k : RootKey) : length a = length k -> xor (xor a k) k = a.
Proof.
  revert k. induction a as [|x a IH]; intros [|y k] E; simplify_eq/=; [done|]. unfold xor in *.
  rewrite Z.lxor_assoc, Z.lxor_nilpotent, Z.lxor_0_r. f_equal. by apply IH.
Qed.

Lemma xor_comm (a b : RootKey) : xor a b = xor b a.
Proof. revert b. induction a as [|x a IH]; intros [|y b]; simpl; try done. unfold xor in *. simpl. by rewrite Z.lxor_comm, IH. Qed.

Lemma xor_assoc (a b c : RootKey) : xor (xor a b) c = xor a (xor b c).
Proof.
  revert b c. induction a as [|x a IH]; intros [|y b] [|z c]; try done. unfold xor in *. simpl. by rewrite Z.lxor_assoc, IH.
Qed.

Lemma xor_inj (a b k : RootKey) : length a = length k -> length b = length k -> xor a k = xor b k -> a = b.
Proof. intros Ha Hb E. rewrite <- (xor_cancel a k Ha), <- (xor_cancel b k Hb). by rewrite E. Qed.

(** Two keys take the same root out of a wrap only when they are equal. *)
Lemma xor_unwrap (root k k' : RootKey) : length k = length root -> length k' = length root ->
  xor (xor root k) k' = root <-> k' = k.
Proof.
  intros Hk Hk'. split; [|intros ->; apply xor_cancel; congruence].
  intros E. apply (f_equal (fun x => xor x k')) in E.
  rewrite xor_cancel in E by (rewrite xor_length; congruence).
  rewrite (xor_comm root), (xor_comm root) in E. apply xor_inj in E; congruence.
Qed.

Lemma lxor_byte (x y : Z) : 0 <= x < 256 -> 0 <= y < 256 -> 0 <= Z.lxor x y < 256.
Proof.
  intros Hx Hy. split; [apply Z.lxor_nonneg; lia|].
  destruct (Z.eq_dec (Z.lxor x y) 0) as [->|Hne]; [lia|].
  apply (Z.log2_lt_cancel (Z.lxor x y) 256). eapply Z.le_lt_trans; [apply Z.log2_lxor; lia|].
  assert (Hb : forall z, 0 <= z < 256 -> Z.log2 z < 8).
  { intros z Hz. destruct (Z.eq_dec z 0) as [->|]; [done|]. apply Z.log2_lt_pow2; lia. }
  pose proof (Hb x Hx). pose proof (Hb y Hy). change (Z.log2 256) with 8. lia.
Qed.

Lemma xor_ok (a b : RootKey) : root_ok a -> root_ok b -> root_ok (xor a b).
Proof.
  intros [La Fa] [Lb Fb]. split; [rewrite xor_length; lia|]. unfold xor. clear La Lb.
  revert b Fb. induction Fa as [|x a Hx _ IH]; intros [|y b] Fb; simpl; try constructor.
  - inversion Fb; subst. by apply lxor_byte.
  - inversion Fb; subst. by apply IH.
Qed.

Lemma foldl_lor_zero (l : list Z) (d : Z) :
  0 <= d -> Forall (fun x => 0 <= x) l -> foldl Z.lor d l = 0 <-> d = 0 /\ Forall (fun x => x = 0) l.
Proof.
  intros Hd Hl. revert d Hd. induction Hl as [|x l Hx _ IH]; intros d Hd; simpl; [naive_solver|].
  rewrite IH by (by apply Z.lor_nonneg). rewrite Z.lor_eq_0_iff, Forall_cons. tauto.
Qed.

(** The comparison is equality. *)
Lemma root_ct_eq_spec (a b : RootKey) : root_ok a -> root_ok b -> ct_eq a b = true <-> a = b.
Proof.
  intros [La Fa] [Lb Fb]. unfold ct_eq. rewrite Z.eqb_eq, foldl_lor_zero; [|lia|].
  - assert (Hl : length a = length b) by lia. clear La Lb Fa Fb.
    revert b Hl. induction a as [|x a IH]; intros [|y b] Hl; simplify_eq/=; [naive_solver|].
    rewrite Forall_cons, Z.lxor_eq_0_iff. specialize (IH b Hl). naive_solver.
  - clear La Lb. revert b Fb. induction Fa as [|x a Hx _ IH]; intros [|y b] Fb; simpl; try constructor; inversion Fb; subst.
    + apply Z.lxor_nonneg. lia.
    + by apply IH.
Qed.

Lemma bytes_to_string_inv (l : list Z) : Forall (fun b => 0 <= b < 256) l -> string_to_bytes (bytes_to_string l) = l.
Proof.
  intros Hl. unfold string_to_bytes, bytes_to_string. rewrite bytes_of_bytes, map_map.
  induction Hl as [|b l Hb _ IH]; simpl; [done|]. rewrite IH. f_equal. unfold byte_val, chr.
  rewrite N_ascii_embedding by lia. lia.
Qed.

Lemma bytes_to_string_length (l : list Z) : String.length (bytes_to_string l) = length l.
Proof. unfold bytes_to_string, of_bytes. induction l as [|x l IH]; simpl; [done|]. by rewrite IH. Qed.

Lemma open_seal `{VaultLaws} (root : RootKey) (nonce p aad blob : string) :
  String.length nonce = 24%nat -> seal_field root nonce p aad = Ok blob -> open_field root blob aad = Ok p.
Proof.
  intros Hn. unfold seal_field, open_field. destruct (aead_encrypt _ nonce p aad) as [ct|] eqn:E; [|done].
  set (x := b64_encode (String.append nonce ct)). intros E'. apply (f_equal result_ok) in E'. cbn [result_ok] in E'.
  assert (blob = String.append FIELD_MAGIC x) as -> by congruence. clear E'.
  assert (Hs : strip_prefix FIELD_MAGIC (String.append FIELD_MAGIC x) = Some x) by (by apply strip_prefix_Some).
  rewrite Hs. unfold x. rewrite b64_round_trip.
  assert (Hlen : (String.length (String.append nonce ct) <? 24)%nat = false).
  { apply Nat.ltb_ge. rewrite <- Hn. clear. induction nonce as [|c s IH]; simpl; lia. }
  rewrite Hlen. rewrite <- Hn, str_take_append, str_drop_append. by rewrite (aead_round_trip _ _ _ _ _ E).
Qed.

(** ** Custody *)

(** The root a start finds, if any. *)
Definition custody (profile : option string) (use_keyring : bool) (h : Home) : option RootKey :=
  let on_file := only_32 (key_file h) in
  if use_keyring then
    match only_32 (keyring h !! keyring_account profile) with
    | Some r => Some r
    | None =>
        if adopts profile h
        then match only_32 (keyring h !! KEYRING_ACCOUNT_LOCAL) with Some m => Some m | None => on_file end
        else on_file
    end
  else on_file.

(** A predicate that does not look at the faults. *)
Definition stable (P : Home -> Prop) : Prop := forall h fs, P h -> P (set_faults fs h).

Lemma hoare_read {A : Type} (e : LocalError) (f : Home -> A) (P E : Home -> Prop) :
  stable P -> (forall h, P h -> E h) -> hoare P (faulted e (fun h => (f h, h))) (fun a h => P h /\ a = f h) E.
Proof. intros HP HE. by apply hoare_faulted. Qed.

Lemma hoare_write (e : LocalError) (f : Home -> Home) (P Q E : Home -> Prop) :
  stable P -> (forall h, P h -> E h) -> (forall h, P h -> Q (f h)) ->
  hoare P (faulted e (fun h => (tt, f h))) (fun _ h => Q h) E.
Proof. intros HP HE HQ. by apply hoare_faulted. Qed.

(** A read whose error is handled changes nothing. *)
Lemma hoare_attempt_read {A : Type} (e : LocalError) (f : Home -> A) (P E : Home -> Prop) :
  stable P -> hoare P (attempt (faulted e (fun h => (f h, h)))) (fun _ => P) E.
Proof.
  intros HP h Hh. unfold attempt, faulted. destruct (faults h) as [|[] fs]; try done; by apply HP.
Qed.

(** The verified store either wrote the root, or left things as they were. *)
Lemma hoare_store_verified (account : string) (root : RootKey) (P W E : Home -> Prop) :
  stable P -> stable W -> (forall h, P h -> W (set_keyring (<[account := root]> (keyring h)) h)) ->
  hoare P (store_verified account root) (fun b h => if b then W h else P h \/ W h) E.
Proof.
  intros HP HW HPW. unfold store_verified.
  eapply hoare_bind with (R := fun w h => match w with Ok _ => W h | Err _ => P h end).
  - eapply (hoare_attempt _ P P (fun _ h => W h)). apply hoare_write; auto.
  - intros [[]|e]; [|apply hoare_ret; auto].
    eapply hoare_bind with (R := fun _ h => W h).
    + by apply hoare_attempt_read.
    + intros r. apply hoare_ret. intros h Hw. destruct (match r with Ok (Some rb) => _ | _ => _ end); auto.
Qed.

Lemma hoare_remove_file (P Q E : Home -> Prop) :
  stable P -> (forall h, P h -> Q h) -> (forall h, P h -> Q (set_key_file None h)) ->
  hoare P remove_key_file_if_present (fun _ h => Q h) E.
Proof.
  intros HP H1 H2. unfold remove_key_file_if_present.
  eapply hoare_bind with (R := fun _ h => Q h); [|intros; by apply hoare_ret].
  eapply hoare_conseq; [apply (hoare_attempt (faulted Io (fun h => (tt, set_key_file None h))) P Q (fun _ h => Q h))|done| |done].
  - by apply hoare_write.
  - intros [a|e] h; auto.
Qed.

Lemma only_32_Some (v : option (list Z)) (r : RootKey) : only_32 v = Some r <-> v = Some r /\ length r = 32%nat.
Proof. unfold only_32. destruct v as [b|]; [|naive_solver]. destruct (Nat.eqb_spec (length b) 32); naive_solver. Qed.

Lemma custody_stable (profile : option string) (uk : bool) (r : option RootKey) : stable (fun h => custody profile uk h = r).
Proof. intros h fs H. exact H. Qed.

Lemma custody_set_entry (profile : option string) (uk : bool) (r : RootKey) (h : Home) :
  length r = 32%nat -> uk = true -> custody profile uk (set_keyring (<[keyring_account profile := r]> (keyring h)) h) = Some r.
Proof.
  intros Hl ->. unfold custody, set_keyring. cbn [keyring]. rewrite lookup_insert_eq. unfold only_32 at 1. by rewrite Hl.
Qed.

(** With the root in the keyring the file does not matter. *)
Lemma custody_entry (profile : option string) (h : Home) (r : RootKey) :
  only_32 (keyring h !! keyring_account profile) = Some r -> custody profile true h = Some r.
Proof. intros H. unfold custody. by rewrite H. Qed.

Definition holds (profile : option string) (uk : bool) (r : RootKey) (h : Home) : Prop := custody profile uk h = Some r.
Definition entry_is (profile : option string) (r : option RootKey) (h : Home) : Prop :=
  only_32 (keyring h !! keyring_account profile) = r.

Lemma load_from_file_hoare (profile : option string) (minted : RootKey) (uk : bool) (r : RootKey) :
  hoare (fun h => holds profile uk r h /\ only_32 (key_file h) = Some r) (load_from_file profile minted uk)
    (fun x h => x = r /\ holds profile uk r h) (holds profile uk r).
Proof.
  set (P := fun h => holds profile uk r h /\ only_32 (key_file h) = Some r).
  assert (HP : stable P) by (intros h fs H; exact H).
  unfold load_from_file. eapply hoare_bind with (R := fun v h => P h /\ v = only_32 (key_file h)).
  { apply hoare_read; [exact HP|by intros h [? _]]. }
  intros [root|]; [|intros h [[_ H] E]; congruence].
  intros h [[Hc H] E]. assert (root = r) as -> by congruence. apply only_32_Some in H as Hl. destruct Hl as [_ Hl].
  revert h Hc H E. enough (Hh : hoare P
    (if uk then let! stored := keyring_store_verified profile r in
       if stored then remove_key_file_if_present ;! ret r else ret r else ret r)
    (fun x h => x = r /\ holds profile uk r h) (holds profile uk r)).
  { intros h Hc H _. exact (Hh h (conj Hc H)). }
  destruct uk; [|by apply hoare_ret; intros h [? _]].
  eapply hoare_bind; [apply (hoare_store_verified _ r P (entry_is profile (Some r)))|].
  - exact HP.
  - intros h fs H. exact H.
  - intros h _. unfold entry_is. cbn [keyring set_keyring]. rewrite lookup_insert_eq. by apply only_32_Some.
  - intros []; [|apply hoare_ret; intros h [[? _]|?]; [done|split; [done|by apply custody_entry]]].
    eapply hoare_bind with (R := fun _ => holds profile true r); [|intros; by apply hoare_ret].
    apply (hoare_remove_file (entry_is profile (Some r))); [intros h fs H; exact H| |]; intros h H; by apply custody_entry.
Qed.

(** A start keeps the root it finds, and returns it. *)
Lemma load_or_create_hoare (profile : option string) (minted : RootKey) (uk : bool) (r : RootKey) :
  hoare (holds profile uk r) (load_or_create profile minted uk)
    (fun x h => x = r /\ holds profile uk r h) (holds profile uk r).
Proof.
  unfold load_or_create. destruct uk eqn:Euk.
  2:{ eapply hoare_conseq; [apply load_from_file_hoare|by split|done|done]. }
  set (C := holds profile true r). assert (HC : stable C) by (intros h fs H; exact H).
  eapply hoare_bind with (R := fun v h => C h /\ v = only_32 (keyring h !! keyring_account profile)); [by apply hoare_read|].
  intros [root|].
  - assert (HW : stable (entry_is profile (Some root))) by (intros h fs H; exact H).
    intros h [Hc Hk]. assert (root = r) as -> by (unfold C, holds, custody in Hc; rewrite <- Hk in Hc; congruence).
    symmetry in Hk. clear Hc. revert h Hk.
    change (hoare (entry_is profile (Some r))
      (let! same := file_matches_root r in (if same then remove_key_file_if_present else ret tt) ;! ret r) (fun x h => x = r /\ C h) C).
    eapply hoare_bind with (R := fun _ => entry_is profile (Some r)).
    { unfold file_matches_root. eapply hoare_bind with (R := fun _ => entry_is profile (Some r)); [|intros; by apply hoare_ret].
      by apply hoare_attempt_read. }
    intros same. eapply hoare_bind with (R := fun _ => entry_is profile (Some r)).
    + destruct same; [by apply (hoare_remove_file (entry_is profile (Some r)))|by apply hoare_ret].
    + intros _. apply hoare_ret. intros h H. split; [done|by apply custody_entry].
  - set (P := fun h => C h /\ entry_is profile None h). assert (HP : stable P) by (intros h fs H; exact H).
    intros h [Hc Hk]. symmetry in Hk. destruct (adopts profile h) eqn:Ea.
    2:{ apply (load_from_file_hoare profile minted true r h). split; [done|].
        unfold C, holds, custody in Hc. by rewrite Hk, Ea in Hc. }
    enough (Hh : hoare (fun h => P h /\ adopts profile h = true)
        (let! m := keyring_get KEYRING_ACCOUNT_LOCAL in
         match m with
         | Some master => let! _ := attempt (keyring_set (keyring_account profile) master) in ret master
         | None => load_from_file profile minted true
         end) (fun x h => x = r /\ C h) C) by exact (Hh h (conj (conj Hc Hk) Ea)).
    clear h Hc Hk Ea.
    eapply hoare_bind with (R := fun m h => (P h /\ adopts profile h = true) /\ m = only_32 (keyring h !! KEYRING_ACCOUNT_LOCAL)).
    { apply hoare_read; [intros h fs H; exact H|by intros h [[? _] _]]. }
    intros [master|] h [[[Hc Hk] Ea] Hm]; pose proof Hc as Hc'; unfold C, holds, custody in Hc'; rewrite Hk, Ea, <- Hm in Hc'.
    + injection Hc' as ->. symmetry in Hm. apply only_32_Some in Hm as [_ Hl].
      apply (hoare_bind (attempt (keyring_set (keyring_account profile) r)) (fun _ => ret r) C C (fun _ => C) (fun x h => x = r /\ C h));
        [|intros ?; by apply hoare_ret|exact Hc].
      eapply hoare_conseq; [apply (hoare_attempt (keyring_set (keyring_account profile) r) C C (fun _ => C))|done|by intros [?|?]|done].
      apply hoare_write; [exact HC|done|]. intros; by apply custody_set_entry.
    + by apply (load_from_file_hoare profile minted true r h).
Qed.

(** Without a root, a start over an existing database fails. *)
Lemma load_or_create_refuses (profile : option string) (minted : RootKey) (uk : bool) :
  hoare (fun h => custody profile uk h = None /\ db_has_content h = true) (load_or_create profile minted uk)
    (fun _ _ => False) (fun _ => True).
Proof.
  set (P := fun h => custody profile uk h = None /\ db_has_content h = true).
  assert (HP : stable P) by (intros h fs H; exact H).
  assert (Hread : forall (A : Type) e (f : Home -> A), hoare P (faulted e (fun h => (f h, h))) (fun a h => P h /\ a = f h) (fun _ => True)).
  { intros A e f. by apply hoare_read. }
  assert (Hf : hoare (fun h => only_32 (key_file h) = None /\ db_has_content h = true) (load_from_file profile minted uk)
    (fun _ _ => False) (fun _ => True)).
  { unfold load_from_file. eapply hoare_bind; [apply (hoare_read Io (fun h => only_32 (key_file h)) (fun h => only_32 (key_file h) = None /\ db_has_content h = true) (fun _ => True)); [intros h fs H; exact H|done]|].
    intros [k|] h [[H Hdb] E]; [congruence|]. by rewrite Hdb. }
  unfold load_or_create. destruct uk; [|by eapply hoare_conseq].
  eapply hoare_bind; [apply Hread|]. intros [k|] h [[Hc Hdb] Hk]; pose proof Hc as Hc'; unfold custody in Hc'; rewrite <- Hk in Hc'; [done|].
  destruct (adopts profile h) eqn:Ea.
  2:{ apply (Hf h). by split. }
  enough (Hh : hoare (fun h => P h /\ entry_is profile None h /\ adopts profile h = true)
    (let! m := keyring_get KEYRING_ACCOUNT_LOCAL in
     match m with
     | Some master => let! _ := attempt (keyring_set (keyring_account profile) master) in ret master
     | None => load_from_file profile minted true
     end) (fun _ _ => False) (fun _ => True)) by (symmetry in Hk; exact (Hh h (conj (conj Hc Hdb) (conj Hk Ea)))).
  eapply hoare_bind; [apply hoare_read; [intros h0 fs H; exact H|done]|]. clear h Hc Hdb Hk Hc' Ea.
  intros [master|] h [[[Hc Hdb] [Hk Ea]] Hm]; unfold custody in Hc; unfold entry_is in Hk; rewrite Hk, Ea, <- Hm in Hc; [done|].
  apply (Hf h). by split.
Qed.

(** A verified store that did not write failed at once. *)
Lemma store_verified_cases (account : string) (root : RootKey) (h h' : Home) (b : bool) :
  store_verified account root h = (Ok b, h') ->
  (b = false /\ exists fs, home_faults h = true :: fs /\ h' = set_faults fs h) \/
  (keyring h' = <[account := root]> (keyring h) /\ key_file h' = key_file h).
Proof.
  unfold store_verified, bind, attempt, keyring_set, keyring_get, faulted. cbn [faults home_faulty].
  destruct (home_faults h) as [|[] fs] eqn:Ef; [|intros [= <- <-]; left; eauto|];
    cbn [set_faults home_faulty home_faults set_keyring]; [rewrite Ef|destruct fs as [|[] fs]];
    intros [= <- <-]; right; done.
Qed.

Lemma remove_file_keyring (h : Home) : keyring (snd (remove_key_file_if_present h)) = keyring h.
Proof. unfold remove_key_file_if_present, bind, attempt, faulted. by destruct (faults h) as [|[] fs]. Qed.

Lemma file_set_Ok (root : RootKey) (h h' : Home) :
  file_set root h = (Ok tt, h') -> keyring h' = keyring h /\ key_file h' = Some root /\ db_file h' = db_file h.
Proof. unfold file_set, faulted. by destruct (faults h) as [|[] fs]; intros [= <-]. Qed.

(** A root that only the file holds. *)
Lemma custody_of_file (profile : option string) (uk : bool) (h : Home) (r : RootKey) :
  only_32 (key_file h) = Some r ->
  custody profile uk h = Some r \/
  (uk = true /\ exists k, k <> r /\ forall h', keyring h' = keyring h -> db_file h' = db_file h -> custody profile uk h' = Some k).
Proof.
  intros Hf. destruct uk; [|by left]. unfold custody.
  destruct (decide (custody profile true h = Some r)) as [|Hne]; [by left|]. right. split; [done|].
  unfold custody in Hne. destruct (only_32 (keyring h !! keyring_account profile)) as [k|] eqn:Ek.
  { exists k. split; [congruence|]. intros h' E _. by rewrite E, Ek. }
  destruct (adopts profile h) eqn:Ea; [|congruence].
  destruct (only_32 (keyring h !! KEYRING_ACCOUNT_LOCAL)) as [k|] eqn:El; [|congruence].
  exists k. split; [congruence|]. intros h' E Ed. rewrite E, Ek, El.
  unfold adopts, db_has_content in *. by rewrite Ed, Ea.
Qed.

(** ** Properties *)

(** C4: No start of the daemon loses the vault's root. When the keyring, the shared legacy entry or the key file yields one, it is what
    [load_or_create] returns, and it is still what the next start finds, whichever file or keyring
    operations fail on the way; and a start without any root never mints one over an
    existing database. *)
Theorem root_never_lost (profile : option string) (minted r : RootKey) (use_keyring : bool) (h : Home) (fs : list bool) :
  (custody profile use_keyring h = Some r ->
     let '(res, h') := load_or_create profile minted use_keyring (set_faults fs h) in
     custody profile use_keyring h' = Some r /\ forall x, res = Ok x -> x = r) /\
  (custody profile use_keyring h = None -> db_has_content h = true ->
     forall x, fst (load_or_create profile minted use_keyring (set_faults fs h)) <> Ok x).
Proof.
  split.
  - intros Hc. pose proof (load_or_create_hoare profile minted use_keyring r (set_faults fs h) Hc) as H.
    destruct (load_or_create profile minted use_keyring (set_faults fs h)) as [[x|e] h']; [|done].
    destruct H as [-> H]. split; [done|]. by intros ? [= <-].
  - intros Hc Hdb x. pose proof (load_or_create_refuses profile minted use_keyring (set_faults fs h) (conj Hc Hdb)) as H.
    destruct (load_or_create profile minted use_keyring (set_faults fs h)) as [[y|e] h']; [done|]. simpl. by intros [=].
Qed.

(** [persist_new_root] can report success without the new root being the one the next start uses. On success the new root is what a start finds,
    except when the keyring is in use and its write failed: then the key file holds the new root, the keyring is
    untouched, and a root it held is the one every later start returns, which the comment on the fallback
    rules out. *)
Theorem persist_behind_stale_keyring (profile : option string) (new_root : RootKey) (use_keyring : bool) (h h' : Home)
    (H32 : length new_root = 32%nat) (Hok : persist_new_root profile new_root use_keyring h = (Ok tt, h')) :
  holds profile use_keyring new_root h' \/
  (use_keyring = true /\ (exists fs, home_faults h = true :: fs) /\ keyring h' = keyring h /\
   key_file h' = Some new_root /\
   exists stale, stale <> new_root /\ custody profile use_keyring h = Some stale /\
     forall minted fs x, fst (load_or_create profile minted use_keyring (set_faults fs h')) = Ok x -> x = stale).
Proof.
  assert (H32' : only_32 (Some new_root) = Some new_root) by (by apply only_32_Some).
  assert (Hstart : forall k h1, custody profile use_keyring h1 = Some k -> forall minted fs x,
    fst (load_or_create profile minted use_keyring (set_faults fs h1)) = Ok x -> x = k).
  { intros k h1 Hk minted fs x E. pose proof (load_or_create_hoare profile minted use_keyring k (set_faults fs h1) Hk) as H.
    destruct (load_or_create _ _ _ _) as [[y|e] h2]; simplify_eq/=. by destruct H. }
  unfold persist_new_root, bind in Hok. destruct use_keyring.
  2:{ left. apply file_set_Ok in Hok as (_ & E & _). unfold holds, custody. by rewrite E. }
  unfold keyring_store_verified in Hok.
  destruct (store_verified _ _ h) as [[b|e] h1] eqn:Es; [|done].
  apply store_verified_cases in Es as [(-> & fs & Ef & ->)|[Ek Ef]].
  - apply file_set_Ok in Hok as (E1 & E2 & E3). destruct (custody_of_file profile true h' new_root) as [|(_ & k & Hne & Hk)].
    { by rewrite E2. }
    { by left. }
    right. split; [done|]. split; [eauto|]. do 2 (split; [done|]). exists k. split; [done|].
    split; [by apply Hk; [rewrite E1|rewrite E3]|]. by apply Hstart, Hk.
  - left. apply custody_entry. destruct b.
    + pose proof (remove_file_keyring h1) as Hr. rewrite Hok in Hr. cbn [snd] in Hr. by rewrite Hr, Ek, lookup_insert_eq.
    + apply file_set_Ok in Hok as (E1 & _ & _). by rewrite E1, Ek, lookup_insert_eq.
Qed.

(** The witness: the keyring holds the old root and its write fails. *)
Example persist_behind_stale_keyring_witness :
  let old := repeat 1 32 in
  let new := repeat 2 32 in
  let h := mkHome None {[ KEYRING_ACCOUNT_LOCAL := old ]} None None [true] in
  let h' := snd (persist_new_root None new true h) in
  holds None true new h' \/
  (true = true /\ (exists fs, home_faults h = true :: fs) /\ keyring h' = keyring h /\
   key_file h' = Some new /\
   exists stale, stale <> new /\ custody None true h = Some stale /\
     forall minted fs x, fst (load_or_create None minted true (set_faults fs h')) = Ok x -> x = stale).
Proof. intros old new h h'. apply (persist_behind_stale_keyring None new true h h'); reflexivity. Defined.

(** ** A model of the interface, for examples *)

Definition demo_key (k : list Z) (shift : Z) : list Z := map (fun b => (b + shift) mod 256) (take 32 (k ++ repeat 0 32)).
Definition demo_tag (k : list Z) (n a : string) : string := String.append (bytes_to_string k) (String.append n a).
Definition demo_entropy : list Z := repeat 7 32.

#[export] Instance demo_libs : VaultLibs := {|
  hkdf := fun k l => demo_key k (str_len l);
  aead_encrypt := fun k n m a => Some (String.append (demo_tag k n a) m);
  aead_decrypt := fun k n c a => strip_prefix (demo_tag k n a) c;
  b64_encode := fun s => s;
  b64_decode := fun s => Some s;
  argon2id := fun p s m t q => Some (demo_key (string_to_bytes (String.append p s)) 0);
  mnemonic_from_entropy := fun e => if bool_decide (e = demo_entropy) then Some "seven" else None;
  mnemonic_parse := fun s => if str_eqb s "seven" then Some demo_entropy else None;
|}.

Lemma demo_key_length (k : list Z) (s : Z) : length (demo_key k s) = 32%nat.
Proof. unfold demo_key. rewrite length_map, length_take, length_app, repeat_length. lia. Qed.

Lemma demo_key_bytes (k : list Z) (s : Z) : Forall (fun b => 0 <= b < 256) (demo_key k s).
Proof. unfold demo_key. apply Forall_fmap, Forall_forall. intros b _. simpl. by apply Z.mod_pos_bound. Qed.

#[export] Instance demo_laws : VaultLaws.
Proof.
  split; simpl.
  - done.
  - intros k n m a c [= <-]. by apply strip_prefix_Some.
  - intros. apply demo_key_length.
  - intros. apply demo_key_bytes.
  - intros p s m t q k [= <-]. apply demo_key_length.
  - intros p s m t q k [= <-]. apply demo_key_bytes.
  - intros e m. case_bool_decide; [|done]. intros [= <-]. by subst.
Qed.
