(* ===== verification/VaultFiles.v ===== *)
(** * local/vault.rs: the file cipher; local/vault_rotate.rs: the lazy migration of a file

    The [WFB1] envelope: magic, chunk size, base nonce, then the sealed chunks. A file's bytes are a
    [string]. The random base nonce is an argument; [usize] and the chunk counter are unbounded, as a
    buffer is shorter than [2^63]. The decryption loop has fuel, with [decrypt_file_terminates] saying how much
    is enough. *)

From Stdlib Require Import Ascii String.
From S2P Require Import Prelude Ints Str Store VaultRoot.
Open Scope string_scope.
Open Scope Z_scope.
Open Scope writ_scope.

(** ** The envelope *)

Definition FILE_MAGIC : string := "WFB1".
Definition FILE_CHUNK_SIZE : Z := 64 * 1024.
Definition FILE_HEADER_LEN : Z := 4 + 4 + 24.

(** [to_le_bytes] of a [u32], [to_be_bytes] of a [u64], [u32::from_le_bytes]. *)
Definition le_bytes (n : nat) (z : Z) : list Z := map (fun i => z / 2 ^ (8 * Z.of_nat i) mod 256) (seq 0 n).
Definition u32_to_le (z : Z) : string := bytes_to_string (le_bytes 4 z).
Definition u64_to_be (z : Z) : string := bytes_to_string (rev (le_bytes 8 z)).
Definition from_le (s : string) : Z := foldr (fun b acc => b + 256 * acc) 0 (string_to_bytes s).

(** [slice::chunks], with the length as fuel. *)
Fixpoint chunks_fuel (fuel n : nat) (s : string) : list string :=
  match fuel with
  | O => []
  | S f => if is_empty s then [] else str_take n s :: chunks_fuel f n (str_drop n s)
  end.
Definition chunks (n : Z) (s : string) : list string := chunks_fuel (String.length s) (Z.to_nat n) s.

Definition xor_first (s : string) : string :=
  match s with
  | String c r => String (chr (Z.lxor (byte_val c) 1)) r
  | EmptyString => EmptyString
  end.

Definition chunk_nonce (base : string) (index : Z) (last : bool) : string :=
  let n := String.append (str_take 16 base) (u64_to_be index) in
  if last then xor_first n else n.

Section files.
Context `{VaultLibs}.

(** [file_cipher]: its key. *)
Definition file_cipher (root : RootKey) : list Z := hkdf root "writ-file-v1".

Definition seal_chunk (key : list Z) (base : string) (index : Z) (last : bool) (msg : string) : result string LocalError :=
  ok_or (aead_encrypt key (chunk_nonce base index last) msg FILE_MAGIC) (Internal "vault file seal failed").

(** The loop over the peekable chunks. *)
Fixpoint seal_chunks (key : list Z) (base : string) (index : Z) (cs : list string) : result string LocalError :=
  match cs with
  | [] => Ok ""
  | c :: rest =>
      let? ct := seal_chunk key base index (match rest with [] => true | _ => false end) c in
      let? more := seal_chunks key base (index + 1) rest in
      Ok (String.append ct more)
  end.

Definition file_header (base : string) : string :=
  String.append FILE_MAGIC (String.append (u32_to_le FILE_CHUNK_SIZE) base).

Definition encrypt_file (root : RootKey) (base plaintext : string) : result string LocalError :=
  let key := file_cipher root in
  let? body := match chunks FILE_CHUNK_SIZE plaintext with
               | [] => seal_chunk key base 0 true ""
               | cs => seal_chunks key base 0 cs
               end in
  Ok (String.append (file_header base) body).

(** The loop of [decrypt_file], from the rest of the body on; [None] is out of fuel. *)
Fixpoint open_chunks (fuel : nat) (key : list Z) (base : string) (sealed_chunk index : Z) (rest out : string)
    : option (result string LocalError) :=
  match fuel with
  | O => None
  | S f =>
      if is_empty rest then Some (Err (Internal "vault: file envelope truncated"))
      else
        let last := str_len rest <=? sealed_chunk in
        let take := if last then str_len rest else sealed_chunk in
        match aead_decrypt key (chunk_nonce base index last) (str_take (Z.to_nat take) rest) FILE_MAGIC with
        | None => Some (Err (Internal "vault file open failed (auth/tamper)"))
        | Some pt =>
            let out := String.append out pt in
            if last then Some (Ok out)
            else open_chunks f key base sealed_chunk (index + 1) (str_drop (Z.to_nat take) rest) out
        end
  end.

Definition decrypt_file (fuel : nat) (root : RootKey) (blob : string) : option (result string LocalError) :=
  if (str_len blob <? FILE_HEADER_LEN) || negb (str_eqb (str_take 4 blob) FILE_MAGIC)
  then Some (Err (Internal "vault: not a WFB1 file envelope"))
  else
    let chunk_size := from_le (str_take 4 (str_drop 4 blob)) in
    if (chunk_size =? 0) || (16 * 1024 * 1024 <? chunk_size)
    then Some (Err (Internal "vault: implausible file chunk size"))
    else
      let base := str_take 24 (str_drop 8 blob) in
      open_chunks fuel (file_cipher root) base (chunk_size + 16) 0 (str_drop (Z.to_nat FILE_HEADER_LEN) blob) "".

(** [decrypt_file] with fuel for every iteration. *)
Definition open_file (root : RootKey) (blob : string) : result string LocalError :=
  default (Err (Internal "")) (decrypt_file (S (String.length blob)) root blob).

Definition reencrypt_file_blob (current previous : RootKey) (base blob : string) : result (option string) LocalError :=
  match open_file current blob with
  | Ok _ => Ok None
  | Err _ =>
      let? plain := open_file previous blob in
      let? reenc := encrypt_file current base plain in
      Ok (Some reenc)
  end.
End files.

(** ** Bytes *)

Lemma from_le_bytes (n : nat) (z : Z) : 0 <= z < 2 ^ (8 * Z.of_nat n) -> from_le (bytes_to_string (le_bytes n z)) = z.
Proof.
  intros Hz. unfold from_le. rewrite bytes_to_string_inv; cycle 1.
  { unfold le_bytes. apply Forall_forall. intros b Hb. apply list_elem_of_In, in_map_iff in Hb as (i & <- & _).
    by apply Z.mod_pos_bound. }
  unfold le_bytes. revert z Hz. induction n as [|n IH]; intros z Hz; [simpl in *; lia|].
  change (seq 0 (S n)) with (O :: seq 1 n). rewrite <-fmap_S_seq. cbn [map foldr]. rewrite map_map.
  erewrite map_ext; [rewrite (IH (z / 256))|].
  - change (8 * Z.of_nat 0) with 0. rewrite Z.pow_0_r, Z.div_1_r. pose proof (Z.div_mod z 256). lia.
  - assert (2 ^ (8 * Z.of_nat (S n)) = 256 * 2 ^ (8 * Z.of_nat n)).
    { change 256 with (2 ^ 8). rewrite <-Z.pow_add_r by lia. f_equal. lia. }
    split; [apply Z.div_pos; lia|]. apply Z.div_lt_upper_bound; lia.
  - intros i. simpl. replace (8 * Z.of_nat (S i)) with (8 + 8 * Z.of_nat i) by lia.
    rewrite Z.pow_add_r, Z.div_div by lia. done.
Qed.

Lemma le_bytes_range (n : nat) (z : Z) : Forall (fun b => 0 <= b < 256) (le_bytes n z).
Proof.
  unfold le_bytes. apply Forall_forall. intros b Hb.
  apply list_elem_of_In, in_map_iff in Hb as (i & <- & _). by apply Z.mod_pos_bound.
Qed.

Lemma bytes_to_string_inj (l k : list Z) : Forall (fun b => 0 <= b < 256) l -> Forall (fun b => 0 <= b < 256) k ->
  bytes_to_string l = bytes_to_string k -> l = k.
Proof. intros Hl Hk He. by rewrite <-(bytes_to_string_inv l), <-(bytes_to_string_inv k), He. Qed.

Lemma u64_to_be_inj (i j : Z) : in_u64 i -> in_u64 j -> u64_to_be i = u64_to_be j -> i = j.
Proof.
  unfold in_u64, u64_max. intros Hi Hj He.
  apply bytes_to_string_inj in He; try (apply Forall_rev, le_bytes_range).
  apply (f_equal (@rev Z)) in He. rewrite !rev_involutive in He.
  rewrite <-(from_le_bytes 8 i), <-(from_le_bytes 8 j) by (simpl; lia). by rewrite He.
Qed.

Lemma xor_first_neq (c : ascii) : chr (Z.lxor (byte_val c) 1) <> c.
Proof. destruct c as [[] [] [] [] [] [] [] []]; vm_compute; discriminate. Qed.

(** ** Nonces *)

Lemma nonce_body (base : string) (i : Z) (last : bool) : (16 <= String.length base)%nat ->
  exists c r, str_take 16 base = String c r /\
    chunk_nonce base i last = String.append (String (if last then chr (Z.lxor (byte_val c) 1) else c) r) (u64_to_be i).
Proof.
  destruct base as [|c base]; [simpl; lia|]. intros _. exists c, (str_take 15 base). split; [done|].
  by destruct last.
Qed.

(** The nonces of one file are pairwise distinct. *)
Lemma chunk_nonces_distinct (base : string) (i j : Z) (last last' : bool) :
  String.length base = 24%nat -> in_u64 i -> in_u64 j ->
  chunk_nonce base i last = chunk_nonce base j last' -> i = j /\ last = last'.
Proof.
  intros Hb Hi Hj He.
  destruct (nonce_body base i last) as (c & r & Hc & Hn); [lia|].
  destruct (nonce_body base j last') as (c' & r' & Hc' & Hn'); [lia|].
  rewrite Hc in Hc'. injection Hc' as <- <-. rewrite Hn, Hn' in He.
  apply append_inj in He as [He Hi']; [|done]. split; [by apply u64_to_be_inj|].
  injection He as He. pose proof (xor_first_neq c). destruct last, last'; congruence.
Qed.

Lemma from_le_nonneg (s : string) : 0 <= from_le s.
Proof.
  unfold from_le, string_to_bytes. induction (bytes s) as [|c l IH]; cbn [map foldr]; [done|].
  pose proof (byte_val_range c). lia.
Qed.

(** ** Chunks *)

Lemma chunks_fuel_concat (f n : nat) (s : string) : (String.length s <= f)%nat -> (0 < n)%nat ->
  foldr String.append "" (chunks_fuel f n s) = s.
Proof.
  revert s. induction f as [|f IH]; intros s Hf Hn; simpl.
  - destruct s; simpl in *; [done|lia].
  - destruct s as [|c s]; [done|]. cbn [is_empty foldr]. rewrite IH; [apply str_take_drop| |done].
    rewrite str_drop_length. simpl in *. lia.
Qed.

(** Every chunk but the last is full. *)
Fixpoint sized (n : Z) (cs : list string) : Prop :=
  match cs with
  | [] => False
  | [c] => str_len c <= n
  | c :: rest => str_len c = n /\ sized n rest
  end.

Lemma chunks_fuel_sized (f n : nat) (s : string) : (String.length s <= f)%nat -> (0 < n)%nat -> s <> "" ->
  sized (Z.of_nat n) (chunks_fuel f n s).
Proof.
  revert s. induction f as [|f IH]; intros s Hf Hn Hs.
  { destruct s; [done|simpl in Hf; lia]. }
  cbn [chunks_fuel]. destruct (is_empty s) eqn:E; [by apply is_empty_spec in E|].
  pose proof (str_take_length n s) as Ht. pose proof (str_drop_length n s) as Hd.
  destruct (is_empty (str_drop n s)) eqn:E'.
  - apply is_empty_spec in E'. rewrite E'. destruct f; cbn; unfold str_len; lia.
  - assert (Hne : str_drop n s <> "") by (intros He; by rewrite He in E').
    assert (Hl : (0 < String.length (str_drop n s))%nat) by (destruct (str_drop n s); [done|simpl; lia]).
    specialize (IH (str_drop n s) ltac:(lia) Hn Hne).
    destruct (chunks_fuel f n (str_drop n s)) as [|c cs]; [done|]. split; [unfold str_len; lia|done].
Qed.

(** What is sealed: an empty file has one empty chunk. *)
Definition file_chunks (plaintext : string) : list string :=
  match chunks FILE_CHUNK_SIZE plaintext with
  | [] => [""]
  | cs => cs
  end.

Lemma file_chunks_concat (p : string) : foldr String.append "" (file_chunks p) = p.
Proof.
  unfold file_chunks, chunks.
  assert (Hc : foldr String.append "" (chunks_fuel (String.length p) (Z.to_nat FILE_CHUNK_SIZE) p) = p).
  { apply chunks_fuel_concat; [done|]. unfold FILE_CHUNK_SIZE. lia. }
  destruct (chunks_fuel _ _ p); [by rewrite <-Hc|done].
Qed.

Lemma file_chunks_sized (p : string) : sized FILE_CHUNK_SIZE (file_chunks p).
Proof.
  unfold file_chunks, chunks. destruct (is_empty p) eqn:E; [apply is_empty_spec in E as ->; by compute|].
  pose proof (chunks_fuel_sized (String.length p) (Z.to_nat FILE_CHUNK_SIZE) p) as Hs.
  rewrite Z2Nat.id in Hs by (by compute). destruct (chunks_fuel _ _ p); [|].
  - exfalso. apply Hs; [done|unfold FILE_CHUNK_SIZE; lia|]. intros ->. done.
  - apply Hs; [done|unfold FILE_CHUNK_SIZE; lia|]. intros ->. done.
Qed.

Lemma Ok_inj {A E : Type} (a b : A) : Ok (E := E) a = Ok b -> a = b.
Proof. by intros [= ->]. Qed.

Lemma file_chunks_encrypt `{VaultLibs} (root : RootKey) (base p : string) :
  encrypt_file root base p =
    (let? body := seal_chunks (file_cipher root) base 0 (file_chunks p) in Ok (String.append (file_header base) body)).
Proof.
  unfold encrypt_file, file_chunks. destruct (chunks FILE_CHUNK_SIZE p); [|done].
  simpl. destruct (seal_chunk _ base 0 true ""); [|done]. simpl. by rewrite append_nil_r.
Qed.

(** ** Round trip *)

(** The AEAD adds a 16-byte tag. *)
Class FileLaws `{VaultLaws} : Prop := {
  aead_size : forall k n m a c, aead_encrypt k n m a = Some c -> str_len c = str_len m + 16;
}.

Section round_trip.
Context `{FileLaws}.

Lemma seal_chunk_open (key : list Z) (base : string) (i : Z) (last : bool) (m ct : string) :
  seal_chunk key base i last m = Ok ct ->
  aead_decrypt key (chunk_nonce base i last) ct FILE_MAGIC = Some m /\ str_len ct = str_len m + 16.
Proof.
  unfold seal_chunk. destruct (aead_encrypt _ _ m _) as [c|] eqn:E; [|done]. intros [= <-].
  split; [by apply aead_round_trip|by eapply aead_size].
Qed.

Lemma seal_chunks_cons (key : list Z) (base : string) (i : Z) (c body : string) (cs : list string) :
  seal_chunks key base i (c :: cs) = Ok body ->
  exists ct more, seal_chunk key base i (match cs with [] => true | _ => false end) c = Ok ct /\
    seal_chunks key base (i + 1) cs = Ok more /\ body = String.append ct more.
Proof.
  cbn [seal_chunks]. destruct (seal_chunk _ _ _ _ c) as [ct|] eqn:E; [|done]. cbn [result_bind].
  destruct (seal_chunks _ _ _ cs) as [more|] eqn:E'; [|done]. cbn [result_bind]. intros [= <-]. by exists ct, more.
Qed.

Lemma seal_chunks_length (key : list Z) (base : string) (i n : Z) (cs : list string) (body : string) :
  0 <= n -> sized n cs -> seal_chunks key base i cs = Ok body -> 16 <= str_len body.
Proof.
  destruct cs as [|c cs]; [done|]. intros _ _ Hs.
  apply seal_chunks_cons in Hs as (ct & more & Hc & _ & ->). apply seal_chunk_open in Hc as [_ Hc].
  unfold str_len in *. rewrite str_length_append. lia.
Qed.

Lemma open_seal_chunks (key : list Z) (base : string) (n : Z) (cs : list string) : 0 <= n -> sized n cs ->
  forall (fuel : nat) (i : Z) (body out : string), seal_chunks key base i cs = Ok body -> (length cs <= fuel)%nat ->
  open_chunks fuel key base (n + 16) i body out = Some (Ok (String.append out (foldr String.append "" cs))).
Proof.
  intros Hn. induction cs as [|c cs IH]; [done|]. intros Hz fuel i body out Hs Hf.
  destruct fuel as [|fuel]; [simpl in Hf; lia|]. cbn [length] in Hf.
  pose proof (seal_chunks_length _ _ _ _ _ _ Hn Hz Hs) as Hlen.
  apply seal_chunks_cons in Hs as (ct & more & Hc & Hm & ->).
  apply seal_chunk_open in Hc as [Hc Hct]. cbn [open_chunks].
  destruct (is_empty (String.append ct more)) eqn:E; [apply is_empty_spec in E; rewrite E in Hlen; by compute in Hlen|].
  unfold str_len in *. rewrite str_length_append in Hlen |- *. destruct cs as [|c' cs].
  - injection Hm as <-. cbn [sized] in Hz. rewrite append_nil_r. cbn [String.length] in *.
    assert (Hle : (Z.of_nat (String.length ct + 0) <=? n + 16) = true) by (apply Z.leb_le; unfold str_len in *; lia). rewrite Hle.
    rewrite str_take_all by lia. rewrite Hc. cbn [foldr]. by rewrite append_nil_r.
  - destruct Hz as [Hz1 Hz2]. pose proof (seal_chunks_length _ _ _ _ _ _ Hn Hz2 Hm) as Hml. unfold str_len in *.
    assert (Hle : (Z.of_nat (String.length ct + String.length more) <=? n + 16) = false) by (apply Z.leb_gt; lia). rewrite Hle.
    assert (Z.to_nat (n + 16) = String.length ct) as -> by lia.
    rewrite str_take_append, str_drop_append, Hc, (IH Hz2 _ _ _ _ Hm) by lia.
    cbn [foldr]. by rewrite append_assoc.
Qed.

Lemma seal_chunks_exact (key : list Z) (base : string) (cs : list string) : forall (i : Z) (body : string),
  seal_chunks key base i cs = Ok body ->
  str_len body = str_len (foldr String.append "" cs) + 16 * Z.of_nat (length cs).
Proof.
  induction cs as [|c cs IH]; intros i body; [by intros [= <-]|].
  intros (ct & more & Hc & Hm & ->)%seal_chunks_cons. apply IH in Hm. apply seal_chunk_open in Hc as [_ Hc].
  unfold str_len in *. cbn [foldr length]. rewrite !str_length_append. lia.
Qed.

Lemma header_parts (base body : string) : String.length base = 24%nat ->
  let blob := String.append (file_header base) body in
  (str_len blob <? FILE_HEADER_LEN) = false /\ str_take 4 blob = FILE_MAGIC /\
  from_le (str_take 4 (str_drop 4 blob)) = FILE_CHUNK_SIZE /\
  str_take 24 (str_drop 8 blob) = base /\ str_drop (Z.to_nat FILE_HEADER_LEN) blob = body.
Proof.
  intros Hb. assert (Hl : String.length (file_header base) = 32%nat).
  { unfold file_header. rewrite !str_length_append, Hb. reflexivity. }
  cbn zeta. repeat split.
  - apply Z.ltb_ge. unfold str_len, FILE_HEADER_LEN. rewrite str_length_append, Hl. lia.
  - rewrite <-Hb. change (str_drop 8 (String.append (file_header base) body)) with (String.append base body).
    apply str_take_append.
  - change (Z.to_nat FILE_HEADER_LEN) with 32%nat. rewrite <-Hl. apply str_drop_append.
Qed.

Lemma decrypt_envelope (fuel : nat) (root : RootKey) (base body : string) : String.length base = 24%nat ->
  decrypt_file fuel root (String.append (file_header base) body) =
  open_chunks fuel (file_cipher root) base (FILE_CHUNK_SIZE + 16) 0 body "".
Proof.
  intros Hb. destruct (header_parts base body Hb) as (E1 & E2 & E3 & E4 & E5). cbn zeta in *.
  unfold decrypt_file. rewrite E1, E2, E3, E4, E5. done.
Qed.
End round_trip.

Lemma encrypt_file_Ok `{VaultLibs} (root : RootKey) (base p blob : string) : encrypt_file root base p = Ok blob ->
  exists body, seal_chunks (file_cipher root) base 0 (file_chunks p) = Ok body /\
    blob = String.append (file_header base) body.
Proof.
  rewrite file_chunks_encrypt. destruct (seal_chunks _ _ _ _) as [body|]; [|done].
  intros [= <-]. by exists body.
Qed.

Lemma encrypt_file_length `{FileLaws} (root : RootKey) (base p blob : string) :
  String.length base = 24%nat -> encrypt_file root base p = Ok blob ->
  str_len blob = FILE_HEADER_LEN + str_len p + 16 * Z.of_nat (length (file_chunks p)).
Proof.
  intros Hb (body & Hs & ->)%encrypt_file_Ok. apply seal_chunks_exact in Hs. rewrite file_chunks_concat in Hs.
  unfold str_len, FILE_HEADER_LEN in *. unfold file_header. rewrite !str_length_append, Hb. cbn. lia.
Qed.

Lemma decrypt_sealed `{FileLaws} (root : RootKey) (base p blob : string) (fuel : nat) :
  String.length base = 24%nat -> encrypt_file root base p = Ok blob -> (length (file_chunks p) <= fuel)%nat ->
  decrypt_file fuel root blob = Some (Ok p).
Proof.
  intros Hb (body & Hs & ->)%encrypt_file_Ok Hf. rewrite decrypt_envelope by done.
  rewrite (open_seal_chunks _ _ FILE_CHUNK_SIZE (file_chunks p)); [|by compute|apply file_chunks_sized|done|done].
  by rewrite file_chunks_concat.
Qed.

(** ** Termination *)

Section termination.
Context `{VaultLibs}.

Lemma open_chunks_terminates (key : list Z) (base : string) (sc : Z) (fuel : nat) : 0 < sc ->
  forall (i : Z) (body out : string), str_len body / sc < Z.of_nat fuel ->
  exists r, forall more : nat, open_chunks (fuel + more) key base sc i body out = Some r.
Proof.
  intros Hsc. induction fuel as [|fuel IH]; intros i body out Hf.
  { unfold str_len in Hf. pose proof (Z.div_pos (Z.of_nat (String.length body)) sc). lia. }
  cbn [Nat.add open_chunks]. destruct (is_empty body); [by eexists|].
  destruct (Z.leb_spec (str_len body) sc) as [Hle|Hgt].
  - destruct (aead_decrypt _ _ _ _); by eexists.
  - destruct (aead_decrypt _ _ _ _) as [pt|]; [|by eexists]. apply IH.
    unfold str_len in *. rewrite str_drop_length, Nat2Z.inj_sub, Z2Nat.id by lia.
    replace (Z.of_nat (String.length body)) with (Z.of_nat (String.length body) - sc + 1 * sc) in Hf by lia.
    rewrite Z.div_add in Hf by lia. lia.
Qed.

Lemma decrypt_file_runs (root : RootKey) (blob : string) (fuel : nat) :
  str_len blob / 17 < Z.of_nat fuel ->
  exists r, forall more : nat, decrypt_file (fuel + more) root blob = Some r.
Proof.
  intros Hf. unfold decrypt_file. destruct (_ || _); [by eexists|].
  pose proof (from_le_nonneg (str_take 4 (str_drop 4 blob))) as Hcs. revert Hcs.
  generalize (from_le (str_take 4 (str_drop 4 blob))) as cs. intros cs Hcs.
  destruct (_ || _) eqn:E; [by eexists|]. apply orb_false_elim in E as [E%Z.eqb_neq _].
  apply open_chunks_terminates; [lia|].
  set (body := str_drop _ blob). assert (Hb : str_len body <= str_len blob).
  { unfold body, str_len. rewrite str_drop_length. lia. }
  enough (str_len body / (cs + 16) <= str_len blob / 17) by lia.
  trans (str_len blob / (cs + 16)); [apply Z.div_le_mono; lia|].
  apply Z.div_le_compat_l; unfold str_len; lia.
Qed.
Lemma open_chunks_more (key : list Z) (base : string) (sc : Z) (fuel more : nat) (i : Z) (body out : string) r :
  open_chunks fuel key base sc i body out = Some r -> open_chunks (fuel + more) key base sc i body out = Some r.
Proof.
  revert i body out. induction fuel as [|fuel IH]; intros i body out; [done|]. cbn [Nat.add open_chunks].
  destruct (is_empty body); [done|]. destruct (aead_decrypt _ _ _ _); [|done].
  destruct (_ <=? _); [done|]. apply IH.
Qed.

Lemma decrypt_file_more (root : RootKey) (blob : string) (fuel more : nat) r :
  decrypt_file fuel root blob = Some r -> decrypt_file (fuel + more) root blob = Some r.
Proof. unfold decrypt_file. destruct (_ || _); [done|]. destruct (_ || _); [done|]. apply open_chunks_more. Qed.

(** [open_file] has fuel enough. *)
Lemma open_file_spec (root : RootKey) (blob : string) (fuel : nat) (r : result string LocalError) :
  decrypt_file fuel root blob = Some r -> open_file root blob = r.
Proof.
  intros Hr. unfold open_file. destruct (decrypt_file_runs root blob (S (String.length blob))) as [r' Hr'].
  { unfold str_len. apply Z.div_lt_upper_bound; lia. }
  pose proof (Hr' 0%nat) as H0. rewrite Nat.add_0_r in H0. rewrite H0. simpl.
  apply (decrypt_file_more _ _ _ (S (String.length blob))) in Hr.
  rewrite Nat.add_comm, Hr' in Hr. congruence.
Qed.

Lemma open_file_fuel (root : RootKey) (blob p : string) :
  open_file root blob = Ok p -> exists fuel, decrypt_file fuel root blob = Some (Ok p).
Proof.
  unfold open_file. intros Ho. exists (S (String.length blob)). destruct (decrypt_file _ _ _); simpl in Ho; [by rewrite Ho|done].
Qed.

(** the decryption loop ends on every input, however corrupt: there is one outcome, reached
    with any fuel above a seventeenth of the input's length (a chunk and its tag are 17 bytes at the least),
    and it is the outcome of [open_file]. *)
Theorem decrypt_file_terminates (root : RootKey) (blob : string) :
  forall fuel : nat, str_len blob / 17 < Z.of_nat fuel -> decrypt_file fuel root blob = Some (open_file root blob).
Proof.
  intros fuel Hf. destruct (decrypt_file_runs root blob fuel Hf) as [r Hr]. specialize (Hr O).
  rewrite Nat.add_0_r in Hr. by rewrite (open_file_spec _ _ _ _ Hr).
Qed.
End termination.

Lemma decrypt_file_terminates_witness :
  decrypt_file 3 demo_entropy (str_take 40 "WFB1????this is not the body of an envelope")
  = Some (open_file demo_entropy (str_take 40 "WFB1????this is not the body of an envelope")).
Proof. apply (decrypt_file_terminates _ _ 3). reflexivity. Defined.


Lemma open_sealed `{FileLaws} (root : RootKey) (base p blob : string) :
  String.length base = 24%nat -> encrypt_file root base p = Ok blob -> open_file root blob = Ok p.
Proof. intros Hb He. eapply open_file_spec. by apply (decrypt_sealed root base p blob (length (file_chunks p))). Qed.

(** the file cipher round-trips: an envelope is its header, the bytes and a 16-byte tag per chunk
    long, and it opens under the same root to exactly the bytes sealed, after one
    iteration per chunk, whatever their number (an empty file has one). *)
Theorem file_round_trip `{FileLaws} (root : RootKey) (base p blob : string) :
  String.length base = 24%nat -> encrypt_file root base p = Ok blob ->
  str_len blob = FILE_HEADER_LEN + str_len p + 16 * Z.of_nat (length (file_chunks p)) /\
  open_file root blob = Ok p /\
  (forall fuel : nat, (length (file_chunks p) <= fuel)%nat -> decrypt_file fuel root blob = Some (Ok p)).
Proof.
  intros Hb He. split; [by eapply encrypt_file_length|]. split; [by eapply open_sealed|].
  intros fuel Hf. by eapply decrypt_sealed.
Qed.

(** ** Tampering *)

(** Under this key, what opens at a nonce of the file with this base is what [encrypt_file] sealed there: the
    chunk of that index, flagged as it was. *)
Definition authentic `{VaultLibs} (key : list Z) (base p : string) : Prop :=
  forall (i : nat) (last : bool) (c m : string), Z.of_nat i <= u64_max ->
  aead_decrypt key (chunk_nonce base (Z.of_nat i) last) c FILE_MAGIC = Some m ->
  aead_encrypt key (chunk_nonce base (Z.of_nat i) last) m FILE_MAGIC = Some c /\
  file_chunks p !! i = Some m /\ (last = true <-> S i = length (file_chunks p)).

Section tampering.
Context `{VaultLibs}.

Lemma open_authentic (key : list Z) (base p : string) (sc : Z) (fuel : nat) : authentic key base p -> 0 < sc ->
  forall (i : nat) (body out q : string), Z.of_nat i + str_len body <= u64_max ->
  open_chunks fuel key base sc (Z.of_nat i) body out = Some (Ok q) ->
  seal_chunks key base (Z.of_nat i) (drop i (file_chunks p)) = Ok body /\
  q = String.append out (foldr String.append "" (drop i (file_chunks p))).
Proof.
  intros Ha Hsc. induction fuel as [|fuel IH]; intros i body out q Hi; [done|]. cbn [open_chunks].
  destruct (is_empty body); [done|]. unfold str_len in Hi.
  destruct (aead_decrypt _ _ _ _) as [pt|] eqn:Ed; [|done].
  apply Ha in Ed as (Ee & Hpt & Hlast); [|lia].
  rewrite (drop_S _ _ _ Hpt). cbn [seal_chunks foldr]. destruct (Z.leb_spec (str_len body) sc) as [Hle|Hgt].
  - intros [= <-]. apply proj1 in Hlast. specialize (Hlast eq_refl).
    rewrite (drop_ge _ (S i)) by lia. unfold seal_chunk. rewrite Ee. cbn. unfold str_len.
    rewrite Nat2Z.id, str_take_all, append_nil_r by lia. by rewrite append_nil_r.
  - intros Ho.
    assert (Hlt : (S i < length (file_chunks p))%nat).
    { apply lookup_lt_Some in Hpt. destruct (decide (S i = length (file_chunks p))) as [E|]; [|lia].
      apply Hlast in E. done. }
    change (Z.of_nat i + 1) with (Z.succ (Z.of_nat i)) in *. rewrite <-Nat2Z.inj_succ in *.
    unfold str_len in Hgt. apply IH in Ho as [Hs ->].
    + destruct (drop (S i) (file_chunks p)) as [|c cs] eqn:Ed.
      { apply (f_equal length) in Ed. rewrite length_drop in Ed. simpl in Ed. lia. }
      unfold seal_chunk. rewrite Ee. cbn [ok_or result_bind]. rewrite Hs. cbn [result_bind].
      rewrite str_take_drop, append_assoc. done.
    + unfold str_len. rewrite str_drop_length. lia.
Qed.

Lemma header_base (base body : string) : String.length base = 24%nat ->
  str_drop 32 (String.append (file_header base) body) = body /\
  str_take 24 (str_drop 8 (String.append (file_header base) body)) = base.
Proof. intros Hb. destruct (header_parts base body Hb) as (_ & _ & _ & H4 & H5). done. Qed.

Lemma open_any (root : RootKey) (base p blob q : string) (fuel : nat) :
  authentic (file_cipher root) base p -> str_len blob <= u64_max -> str_take 24 (str_drop 8 blob) = base ->
  decrypt_file fuel root blob = Some (Ok q) ->
  seal_chunks (file_cipher root) base 0 (file_chunks p) = Ok (str_drop 32 blob) /\ q = p.
Proof.
  intros Ha Hl Hb. unfold decrypt_file. destruct (_ || _); [done|].
  pose proof (from_le_nonneg (str_take 4 (str_drop 4 blob))) as Hcs. revert Hcs.
  generalize (from_le (str_take 4 (str_drop 4 blob))) as cs. intros cs Hcs.
  destruct (_ || _) eqn:E; [done|]. rewrite Hb. change (Z.to_nat FILE_HEADER_LEN) with 32%nat.
  intros Ho. apply (open_authentic _ _ p (cs + 16) _ Ha ltac:(lia) 0) in Ho as [Hs ->]; cycle 1.
  { unfold str_len in *. rewrite str_drop_length. lia. }
  change (drop 0 (file_chunks p)) with (file_chunks p) in *. split; [done|]. apply file_chunks_concat.
Qed.

End tampering.

(** ** Lazy migration *)

(** a file sealed under the previous root that does not open under the current one is resealed once: the new
    envelope opens to the same bytes, and presenting it again changes nothing. A file that opens under neither
    root is left alone, with the error of the previous root. *)
Theorem file_migrates_once `{FileLaws} (current previous : RootKey) (base base' p blob blob' : string) :
  String.length base = 24%nat -> String.length base' = 24%nat ->
  encrypt_file previous base p = Ok blob -> encrypt_file current base' p = Ok blob' ->
  (exists e, open_file current blob = Err e) ->
  reencrypt_file_blob current previous base' blob = Ok (Some blob') /\
  open_file current blob' = Ok p /\
  (forall base2, reencrypt_file_blob current previous base2 blob' = Ok None) /\
  (forall base2 other e e', open_file current other = Err e -> open_file previous other = Err e' ->
     reencrypt_file_blob current previous base2 other = Err e').
Proof.
  intros Hb Hb' He He' [e Hno].
  pose proof (open_sealed _ _ _ _ Hb He) as Ho. pose proof (open_sealed _ _ _ _ Hb' He') as Ho'.
  unfold reencrypt_file_blob. repeat split.
  - rewrite Hno, Ho. cbn [result_bind]. rewrite He'. done.
  - done.
  - intros base2. by rewrite Ho'.
  - intros base2 other x e' Hx Hy. by rewrite Hx, Hy.
Qed.

(** ** Examples *)

(** An AEAD whose tag holds the bytes of the nonce that vary within a file, and six bytes of the key. *)
Definition tag16 (k : list Z) (n : string) : string :=
  str_take 16 (String.append (str_take 1 n) (String.append (str_drop 16 n)
    (String.append (bytes_to_string (take 7 k)) "................"))).

Definition file_libs : VaultLibs := {|
  hkdf := fun k l => demo_key k (str_len l);
  aead_encrypt := fun k n m a => Some (String.append m (tag16 k n));
  aead_decrypt := fun k n c a => strip_suffix (tag16 k n) c;
  b64_encode := b64_encode; b64_decode := b64_decode; argon2id := argon2id;
  mnemonic_from_entropy := mnemonic_from_entropy; mnemonic_parse := mnemonic_parse;
|}.

Lemma file_laws : @VaultLaws file_libs.
Proof.
  split; simpl; try apply demo_laws.
  intros k n m a c [= <-]. unfold strip_suffix. rewrite str_rev_append.
  assert (strip_prefix (str_rev (tag16 k n)) (String.append (str_rev (tag16 k n)) (str_rev m)) = Some (str_rev m)) as ->
    by (by apply strip_prefix_Some). simpl. by rewrite str_rev_involutive.
Qed.

Lemma file_sizes : @FileLaws file_libs file_laws.
Proof.
  split. intros k n m a c [= <-]. unfold str_len. rewrite str_length_append. unfold tag16.
  rewrite str_take_length, !str_length_append. cbn [String.length]. lia.
Qed.

(** An AEAD under which one sealing was ever made: the one chunk of the file "abc". *)
Definition demo_base : string := str_take 24 "the base nonce of a file".
Definition one_ct : string := String.append "abc" (tag16 [] (chunk_nonce demo_base 0 true)).
Definition one_file_libs : VaultLibs := {|
  hkdf := fun k l => demo_key k (str_len l);
  aead_encrypt := fun k n m a => if str_eqb n (chunk_nonce demo_base 0 true) && str_eqb m "abc" then Some one_ct else None;
  aead_decrypt := fun k n c a => if str_eqb n (chunk_nonce demo_base 0 true) && str_eqb c one_ct then Some "abc" else None;
  b64_encode := b64_encode; b64_decode := b64_decode; argon2id := argon2id;
  mnemonic_from_entropy := mnemonic_from_entropy; mnemonic_parse := mnemonic_parse;
|}.

Lemma one_file_authentic (k : list Z) : @authentic one_file_libs k demo_base "abc".
Proof.
  intros i last c m Hi. cbn [aead_decrypt aead_encrypt one_file_libs]. unfold str_eqb.
  case_bool_decide as Hn; [|done]. cbn [andb]. case_bool_decide as Hc; [|done]. intros [= <-].
  apply chunk_nonces_distinct in Hn as [Hi0 ->]; [|done|unfold in_u64; lia|by compute].
  assert (i = 0%nat) as -> by lia. split; [by rewrite Hc|]. split; [by vm_compute|]. by vm_compute.
Qed.

Definition sealed (L : VaultLibs) (root : RootKey) (base p : string) : string :=
  default "" (result_ok (@encrypt_file L root base p)).

Lemma file_round_trip_witness :
  str_len (sealed file_libs demo_entropy demo_base "hello") = 32 + 5 + 16 /\
  @open_file file_libs demo_entropy (sealed file_libs demo_entropy demo_base "hello") = Ok "hello".
Proof.
  destruct (@file_round_trip file_libs file_laws file_sizes demo_entropy demo_base "hello"
    (sealed file_libs demo_entropy demo_base "hello")) as (H1 & H2 & _).
  - reflexivity.
  - vm_compute. reflexivity.
  - split; [exact H1|exact H2].
Defined.


Lemma file_migrates_once_witness :
  let current := repeat 9 32 in let base' := str_take 24 "the base nonce of resealing" in
  @reencrypt_file_blob file_libs current demo_entropy base' (sealed file_libs demo_entropy demo_base "hello")
  = Ok (Some (sealed file_libs current base' "hello")).
Proof.
  intros current base'.
  refine (proj1 (@file_migrates_once file_libs file_laws file_sizes current demo_entropy demo_base base' "hello"
    (sealed file_libs demo_entropy demo_base "hello") (sealed file_libs current base' "hello") _ _ _ _ _)).
  - reflexivity.
  - reflexivity.
  - vm_compute. reflexivity.
  - vm_compute. reflexivity.
  - eexists. vm_compute. reflexivity.
Defined.
