(* ===== verification/Totp.v ===== *)
(** * local/vault.rs, [mint_totp_at]; api/v1/personas.rs, [validate_totp]; local/authenticator_import.rs, [normalize_base32]

    Time-based codes (RFC 6238). Base32 and HMAC are the interface [OtpLibs]. [u32] arithmetic is written as a
    release build computes it, wrapping. *)

From Stdlib Require Import Ascii String.
From S2P Require Import Prelude Ints Str F64Text Store VaultRoot VaultFiles.
Open Scope string_scope.
Open Scope Z_scope.
Open Scope writ_scope.

Inductive Algorithm : Type := SHA1 | SHA256 | SHA512.

Class OtpLibs : Type := {
  base32_decode : string -> option (list Z);
  base32_encode : list Z -> string;
  (** key and message; [new_from_slice] may refuse a key *)
  hmac : Algorithm -> list Z -> list Z -> option (list Z);
}.

Definition is_base32_byte (c : ascii) : bool := is_upper c || ((50 <=? byte_val c) && (byte_val c <=? 55)).
Definition is_byte (b : Z) : Prop := 0 <= b < 256.

Class OtpLaws `{OtpLibs} : Prop := {
  base32_round_trip : forall l, Forall is_byte l -> base32_decode (base32_encode l) = Some l;
  base32_canonical : forall s l, base32_decode s = Some l -> Forall is_byte l /\ base32_encode l = s;
  base32_empty : base32_encode [] = "";
  base32_alphabet : forall l, str_all is_base32_byte (base32_encode l) = true;
  hmac_bytes : forall a k m out, hmac a k m = Some out -> Forall is_byte out;
  hmac_length : forall a k m out, hmac a k m = Some out ->
    length out = match a with SHA1 => 20 | SHA256 => 32 | SHA512 => 64 end%nat;
}.

(** ** Cleaning a seed *)

(** [chars().filter(...)]: drops whole white-space characters and the bytes [f] selects. *)
Fixpoint drop_chars (f : ascii -> bool) (skip : nat) (s : string) : string :=
  match s with
  | EmptyString => EmptyString
  | String c r =>
      match skip with
      | S k => drop_chars f k r
      | O => match ws_len s with
             | S k => drop_chars f k r
             | O => if f c then drop_chars f 0 r else String c (drop_chars f 0 r)
             end
      end
  end.

(** [trim_end_matches] of the padding, then upper case. *)
Definition unpad_upper (s : string) : string := to_ascii_uppercase (trim_end_by (byte_is "=") s).

Section totp.
Context `{OtpLibs}.

Definition normalize_base32 (secret : string) : option string :=
  let cleaned := unpad_upper (drop_chars (byte_is "-") 0 secret) in
  if is_empty cleaned then None
  else match base32_decode cleaned with
       | Some _ => Some cleaned
       | None => None
       end.

(** [PersonaWrite::cleaned_totp_seed]: the inner empty string clears the seed. *)
Definition cleaned_totp_seed (totp_seed : option string) : result (option string) LocalError :=
  match totp_seed with
  | None => Ok None
  | Some raw =>
      match normalize_base32 raw with
      | Some seed => Ok (Some seed)
      | None =>
          if is_empty (trim raw) then Ok (Some "")
          else Err (BadRequest "totp_seed is not valid base32 — paste the secret from the site's authenticator setup")
      end
  end.

(** ** Minting *)

Definition algorithm_of (name : string) : Algorithm :=
  let name := to_ascii_uppercase (trim name) in
  if str_eqb name "SHA256" then SHA256 else if str_eqb name "SHA512" then SHA512 else SHA1.

Definition counter_bytes (counter : Z) : list Z := rev (le_bytes 8 counter).

(** The dynamic truncation of RFC 4226; the indices are in range ([truncation_in_range]). *)
Definition dynamic_truncation (mac : list Z) : Z :=
  let offset := Z.to_nat (Z.land (nth (length mac - 1) mac 0) 15) in
  Z.lor (Z.lor (Z.lor
    (Z.shiftl (Z.land (nth offset mac 0) 127) 24)
    (Z.shiftl (nth (offset + 1) mac 0) 16))
    (Z.shiftl (nth (offset + 2) mac 0) 8))
    (nth (offset + 3) mac 0).

Definition mint_totp_at (seed_b32 : string) (digits period_seconds : Z) (algorithm : string) (unix_secs : Z)
    : result string LocalError :=
  let normalized := unpad_upper (drop_chars (fun _ => false) 0 seed_b32) in
  let? key := ok_or (base32_decode normalized) (Internal "totp: seed is not valid base32") in
  if bool_decide (key = []) then Err (Internal "totp: empty seed")
  else
    let period := Z.max period_seconds 1 in
    let counter := unix_secs / period in
    let digits := clamp 6 10 digits in
    let? mac := ok_or (hmac (algorithm_of algorithm) key (counter_bytes counter)) (Internal "totp: bad key length") in
    let modulo := as_u32 (10 ^ digits) in
    Ok (pad_zeros digits (dynamic_truncation mac mod modulo)).

(** ** Validation *)

Record ValidateTotpBody : Type := mkValidate {
  v_totp_seed : string;
  v_code : option string;
  v_algorithm : option string;
  v_digits : option Z;
  v_period : option Z;
}.

(** The answer's [valid_base32] and [matches_code], [None] for null. *)
Definition validate_totp (body : ValidateTotpBody) (now : Z) : bool * option bool :=
  let digits := clamp 6 10 (default 6 (v_digits body)) in
  let period := Z.max (default 30 (v_period body)) 1 in
  let algorithm := default "SHA1" (v_algorithm body) in
  let seed := normalize_base32 (v_totp_seed body) in
  let matches_code :=
    match seed, v_code body with
    | Some seed, Some raw =>
        let code := trim raw in
        if is_empty code then None
        else Some (any (fun t => match mint_totp_at seed digits period algorithm t with
                                 | Ok expected => str_eqb expected code
                                 | Err _ => false
                                 end) [Z.max 0 (now - period); now; as_u64 (now + period)])
    | _, _ => None
    end in
  (bool_decide (is_Some seed), matches_code).
End totp.

(** ** Arithmetic of the truncation *)

Lemma lor_shift (a b n : Z) : 0 <= n -> 0 <= b < 2 ^ n -> Z.lor (Z.shiftl a n) b = a * 2 ^ n + b.
Proof.
  intros Hn Hb. rewrite <-Z.shiftl_mul_pow2 by done. symmetry. apply Z.add_nocarry_lor.
  apply Z.bits_inj'. intros k Hk. rewrite Z.land_spec, Z.bits_0.
  destruct (Z_lt_le_dec k n); [by rewrite Z.shiftl_spec_low by lia|].
  destruct (Z.eq_dec b 0) as [->|]; [by rewrite Z.bits_0, andb_false_r|].
  rewrite (Z.bits_above_log2 b), andb_false_r; [done|lia|]. apply Z.log2_lt_pow2; [lia|].
  pose proof (Z.pow_le_mono_r 2 n k). lia.
Qed.

Lemma nth_byte (l : list Z) (i : nat) : Forall is_byte l -> is_byte (nth i l 0).
Proof.
  intros Hl. destruct (decide (i < length l)%nat) as [Hi|Hi].
  - by apply (Forall_nth is_byte).
  - rewrite nth_overflow by lia. by compute.
Qed.

Definition mac_window (mac : list Z) : nat := Z.to_nat (nth (length mac - 1) mac 0 mod 16).

(** RFC 4226: 31 bits, big-endian, from the window the last byte selects. *)
Definition rfc_truncation (mac : list Z) : Z :=
  let b i := nth (mac_window mac + i) mac 0 in
  (b 0%nat mod 128) * 2 ^ 24 + b 1%nat * 2 ^ 16 + b 2%nat * 2 ^ 8 + b 3%nat.

Lemma truncation_spec (mac : list Z) : Forall is_byte mac -> dynamic_truncation mac = rfc_truncation mac.
Proof.
  intros Hm. unfold dynamic_truncation, rfc_truncation, mac_window. cbv zeta beta.
  assert (Hland : forall x, Z.land x 15 = x mod 16) by (intros x; change 15 with (Z.ones 4); by apply Z.land_ones).
  assert (Hland' : forall x, Z.land x 127 = x mod 128) by (intros x; change 127 with (Z.ones 7); by apply Z.land_ones).
  rewrite Hland, Hland'. set (o := Z.to_nat _). rewrite Nat.add_0_r.
  pose proof (nth_byte mac o Hm) as H0. pose proof (nth_byte mac (o + 1) Hm) as H1.
  pose proof (nth_byte mac (o + 2) Hm) as H2. pose proof (nth_byte mac (o + 3) Hm) as H3.
  unfold is_byte in *. revert H0 H1 H2 H3.
  generalize (nth o mac 0) (nth (o + 1) mac 0) (nth (o + 2) mac 0) (nth (o + 3) mac 0). intros a b c d Ha Hb Hc Hd.
  rewrite (Z.shiftl_mul_pow2 b 16), (Z.shiftl_mul_pow2 c 8) by lia.
  rewrite (lor_shift (a mod 128) (b * 2 ^ 16) 24) by lia.
  replace (a mod 128 * 2 ^ 24 + b * 2 ^ 16) with (Z.shiftl (a mod 128 * 2 ^ 8 + b) 16)
    by (rewrite Z.shiftl_mul_pow2; lia).
  rewrite (lor_shift _ (c * 2 ^ 8) 16) by lia.
  replace ((a mod 128 * 2 ^ 8 + b) * 2 ^ 16 + c * 2 ^ 8) with (Z.shiftl ((a mod 128 * 2 ^ 8 + b) * 2 ^ 8 + c) 8)
    by (rewrite Z.shiftl_mul_pow2; lia).
  rewrite (lor_shift _ d 8), ?Z.shiftl_mul_pow2 by lia. lia.
Qed.

Lemma truncation_range (mac : list Z) : Forall is_byte mac -> 0 <= rfc_truncation mac < 2 ^ 31.
Proof.
  intros Hm. unfold rfc_truncation. cbv zeta beta.
  pose proof (nth_byte mac (mac_window mac + 1) Hm) as H1.
  pose proof (nth_byte mac (mac_window mac + 2) Hm) as H2. pose proof (nth_byte mac (mac_window mac + 3) Hm) as H3.
  pose proof (Z.mod_pos_bound (nth (mac_window mac + 0) mac 0) 128). unfold is_byte in *. lia.
Qed.

Lemma truncation_in_range `{OtpLaws} (a : Algorithm) (k m mac : list Z) : hmac a k m = Some mac ->
  (mac_window mac + 3 < length mac)%nat.
Proof.
  intros Hm. apply hmac_length in Hm. unfold mac_window.
  pose proof (Z.mod_pos_bound (nth (length mac - 1) mac 0) 16). destruct a; lia.
Qed.

(** ** Printing a code *)

Lemma parse_digits_graphic (s : string) (acc v : Z) : parse_digits acc s = Some v -> str_all graphic s = true.
Proof.
  revert acc. induction s as [|c s IH]; intros acc; [done|]. cbn [parse_digits str_all].
  destruct (is_digit c) eqn:Ec; [|done]. intros ->%IH. rewrite andb_true_r. unfold is_digit, graphic in *.
  apply andb_true_iff in Ec as [?%Z.leb_le ?%Z.leb_le]. apply andb_true_iff. split; [apply Z.leb_le|apply Z.ltb_lt]; lia.
Qed.

(** The modulus of a code, as the code computes it: ten digits wrap. *)
Definition code_modulus (digits : Z) : Z := if 10 <=? digits then 1410065408 else 10 ^ Z.max 6 digits.

Lemma modulus_spec (digits : Z) : as_u32 (10 ^ clamp 6 10 digits) = code_modulus digits.
Proof.
  unfold code_modulus, clamp. destruct (Z.leb_spec 10 digits) as [Hd|Hd].
  - by replace (Z.max 6 (Z.min digits 10)) with 10 by lia.
  - rewrite Z.min_l by lia.
    assert (Hc : Z.max 6 digits = 6 \/ Z.max 6 digits = 7 \/ Z.max 6 digits = 8 \/ Z.max 6 digits = 9) by lia.
    by destruct Hc as [->|[->|[->| ->]]].
Qed.

Lemma modulus_le (digits : Z) : 0 < code_modulus digits <= 10 ^ clamp 6 10 digits.
Proof.
  unfold code_modulus, clamp. destruct (Z.leb_spec 10 digits) as [Hd|Hd].
  - by replace (Z.max 6 (Z.min digits 10)) with 10 by lia.
  - replace (Z.max 6 (Z.min digits 10)) with (Z.max 6 digits) by lia. split; [apply Z.pow_pos_nonneg|]; lia.
Qed.

(** ** Cleaned seeds *)

Lemma base32_byte (c : ascii) : is_base32_byte c = true ->
  graphic c = true /\ byte_is "=" c = false /\ upper_byte c = c /\ ws_len (String c "") = 0%nat.
Proof. destruct c as [[] [] [] [] [] [] [] []]; vm_compute; intros; repeat split; discriminate || reflexivity. Qed.

Lemma base32_ws (c : ascii) (s : string) : is_base32_byte c = true -> ws_len (String c s) = 0%nat.
Proof.
  intros Hc. unfold is_base32_byte, is_upper in Hc. unfold ws_len.
  set (a := byte_val c) in *. clearbody a.
  assert (Ha : 50 <= a <= 90).
  { apply orb_true_iff in Hc as [Hc|Hc]; apply andb_true_iff in Hc as [?%Z.leb_le ?%Z.leb_le]; lia. }
  assert (((9 <=? a) && (a <=? 13)) || (a =? 32) = false) as -> by lia.
  destruct s as [|b s]; [done|].
  assert ((a =? 194) = false) as -> by lia. destruct s as [|d s]; [done|].
  assert ((a =? 225) = false) as -> by lia. assert ((a =? 226) = false) as -> by lia.
  by assert ((a =? 227) = false) as -> by lia.
Qed.

Lemma drop_chars_base32 (f : ascii -> bool) (s : string) : (forall c, is_base32_byte c = true -> f c = false) ->
  str_all is_base32_byte s = true -> drop_chars f 0 s = s.
Proof.
  intros Hf. induction s as [|c s IH]; [done|]. cbn [str_all]. intros [Hc Hs]%andb_true_iff.
  cbn [drop_chars]. rewrite base32_ws, Hf, (IH Hs) by done. done.
Qed.

Lemma unpad_upper_base32 (s : string) : str_all is_base32_byte s = true -> unpad_upper s = s.
Proof.
  unfold unpad_upper, to_ascii_uppercase. intros Hs.
  assert (trim_end_by (byte_is "=") s = s) as ->.
  - induction s as [|c s IH]; [done|]. cbn [str_all] in Hs. apply andb_true_iff in Hs as [Hc Hs].
    cbn [trim_end_by]. rewrite (IH Hs). apply base32_byte in Hc as (_ & Hc & _ & _). rewrite Hc. by destruct s.
  - induction s as [|c s IH]; [done|]. cbn [str_all] in Hs. apply andb_true_iff in Hs as [Hc Hs].
    cbn [str_map]. rewrite (IH Hs). by apply base32_byte in Hc as (_ & _ & -> & _).
Qed.

Lemma not_dash (c : ascii) : is_base32_byte c = true -> byte_is "-" c = false.
Proof. destruct c as [[] [] [] [] [] [] [] []]; vm_compute; intros; discriminate || reflexivity. Qed.

(** ** Theorems *)

Section theorems.
Context `{OtpLaws}.

Definition seed_key (seed : string) : option (list Z) := base32_decode (unpad_upper (drop_chars (fun _ => false) 0 seed)).
Definition time_step (period unix_secs : Z) : Z := unix_secs / Z.max period 1.

Lemma mint_code (seed algorithm : string) (digits period t : Z) (key mac : list Z) :
  seed_key seed = Some key -> key <> [] ->
  hmac (algorithm_of algorithm) key (counter_bytes (time_step period t)) = Some mac ->
  exists code, mint_totp_at seed digits period algorithm t = Ok code /\
    str_len code = clamp 6 10 digits /\
    parse_digits 0 code = Some (rfc_truncation mac mod code_modulus digits).
Proof.
  unfold seed_key, time_step. intros Hk Hne Hm. unfold mint_totp_at. rewrite Hk. cbn [ok_or result_bind].
  rewrite bool_decide_eq_false_2 by done. rewrite Hm. cbn [ok_or result_bind].
  rewrite modulus_spec, (truncation_spec mac) by (by eapply hmac_bytes).
  eexists. split; [done|]. pose proof (modulus_le digits).
  pose proof (Z.mod_pos_bound (rfc_truncation mac) (code_modulus digits)).
  apply pad_zeros_spec; [|lia]. pose proof (clamp_bounds 6 10 digits). lia.
Qed.

(** a seed that decodes to a key mints exactly the clamped number of digits, and as a number they are the
    31-bit RFC 4226 truncation of the HMAC of the time step, whose window lies in the digest, modulo
    the power of ten: exactly for six to nine digits; for ten, modulo 1410065408, which is [10^10] wrapped
    to 32 bits, so the code is the right one just when the truncation is below it. *)
Theorem totp_code (seed algorithm : string) (digits period t : Z) (key mac : list Z) :
  seed_key seed = Some key -> key <> [] ->
  hmac (algorithm_of algorithm) key (counter_bytes (time_step period t)) = Some mac ->
  (mac_window mac + 3 < length mac)%nat /\
  exists code v, mint_totp_at seed digits period algorithm t = Ok code /\
    str_len code = clamp 6 10 digits /\ parse_digits 0 code = Some v /\
    (digits < 10 -> v = rfc_truncation mac mod 10 ^ Z.max 6 digits) /\
    (10 <= digits -> (v = rfc_truncation mac mod 10 ^ 10 <-> rfc_truncation mac < 1410065408)).
Proof.
  intros Hk Hne Hm. split; [by eapply truncation_in_range|].
  destruct (mint_code seed algorithm digits period t key mac Hk Hne Hm) as (code & Hc & Hl & Hv).
  pose proof (truncation_range mac ltac:(by eapply hmac_bytes)) as Hr.
  exists code, (rfc_truncation mac mod code_modulus digits). split_and!; [done..| |].
  - intros Hd. unfold code_modulus. destruct (Z.leb_spec 10 digits); [lia|done].
  - intros Hd. unfold code_modulus. destruct (Z.leb_spec 10 digits); [|lia].
    rewrite (Z.mod_small _ (10 ^ 10)) by lia. split; intros Hv'; [|apply Z.mod_small; lia].
    pose proof (Z.mod_pos_bound (rfc_truncation mac) 1410065408). lia.
Qed.

Lemma decoded_alphabet (s : string) (key : list Z) : base32_decode s = Some key -> str_all is_base32_byte s = true.
Proof. intros [_ <-]%base32_canonical. apply base32_alphabet. Qed.

Lemma normalized_seed (raw s : string) : normalize_base32 raw = Some s ->
  str_all is_base32_byte s = true /\ exists key, seed_key s = Some key /\ key <> [].
Proof.
  unfold normalize_base32. set (cleaned := unpad_upper _). destruct (is_empty cleaned) eqn:Ee; [done|].
  destruct (base32_decode cleaned) as [key|] eqn:Ed; [|done]. intros [= <-].
  pose proof (decoded_alphabet _ _ Ed) as Ha. split; [done|]. exists key. split.
  - unfold seed_key. rewrite drop_chars_base32, unpad_upper_base32 by done. done.
  - intros ->. apply base32_canonical in Ed as [_ Ed]. rewrite base32_empty in Ed. by rewrite <-Ed in Ee.
Qed.

(** a seed accepted for storage is in canonical form (cleaning it again changes nothing) and mints: with an HMAC that
    takes every key, no algorithm, length, period or time makes it fail, so the check at the door
    leaves no seed that fails at the second-factor step. *)
Theorem stored_seed_mints (raw seed : string) :
  (forall a k m, is_Some (hmac a k m)) ->
  cleaned_totp_seed (Some raw) = Ok (Some seed) -> seed <> "" ->
  normalize_base32 seed = Some seed /\
  forall digits period algorithm t, exists code, mint_totp_at seed digits period algorithm t = Ok code.
Proof.
  intros Hh Hc Hne. unfold cleaned_totp_seed in Hc. destruct (normalize_base32 raw) as [s|] eqn:En.
  2: { destruct (is_empty (trim raw)); [injection Hc as <-|]; done. }
  injection Hc as ->. destruct (normalized_seed _ _ En) as (Ha & key & Hk & Hkne). split.
  - unfold normalize_base32. rewrite (drop_chars_base32 _ _ not_dash Ha), unpad_upper_base32 by done.
    destruct (is_empty seed) eqn:Ee; [by apply is_empty_spec in Ee|].
    unfold seed_key in Hk. rewrite drop_chars_base32, unpad_upper_base32 in Hk by done. by rewrite Hk.
  - intros digits period algorithm t. destruct (Hh (algorithm_of algorithm) key (counter_bytes (time_step period t))) as [mac Hm].
    destruct (mint_code seed algorithm digits period t key mac Hk Hkne Hm) as (code & Hcode & _). by exists code.
Qed.

Lemma mint_time_step (seed algorithm : string) (digits period t u : Z) : time_step period t = time_step period u ->
  mint_totp_at seed digits period algorithm t = mint_totp_at seed digits period algorithm u.
Proof. unfold time_step, mint_totp_at. by intros ->. Qed.

Lemma mint_not_blank (seed algorithm : string) (digits period t : Z) (code : string) :
  mint_totp_at seed digits period algorithm t = Ok code -> trim code = code /\ is_empty code = false.
Proof.
  intros Hm. pose proof Hm as Hm'. unfold mint_totp_at in Hm'. destruct (base32_decode _) as [key|] eqn:Ek; [|done].
  cbn [ok_or result_bind] in Hm'. destruct (bool_decide (key = [])) eqn:Eb; [done|]. apply bool_decide_eq_false in Eb.
  destruct (hmac _ _ _) as [mac|] eqn:Eh; [|done]. clear Hm'.
  destruct (mint_code seed algorithm digits period t key mac Ek Eb Eh) as (code' & Hc & Hl & Hd).
  rewrite Hm in Hc. injection Hc as <-. split.
  - apply trim_graphic. by eapply parse_digits_graphic.
  - pose proof (clamp_bounds 6 10 digits). destruct code; [|done]. unfold str_len in Hl. simpl in Hl. lia.
Qed.

Lemma window_steps (p now : Z) : 1 <= p -> 0 <= now ->
  let window := [Z.max 0 (now - p); now; now + p] in
  (forall t, t ∈ window -> 0 <= t /\ Z.abs (t / p - now / p) <= 1) /\
  (forall t, 0 <= t -> Z.abs (t / p - now / p) <= 1 -> exists u, u ∈ window /\ u / p = t / p).
Proof.
  intros Hp Hnow window.
  assert (Hnext : (now + p) / p = now / p + 1) by (rewrite <-(Z.mul_1_l p) at 1; rewrite Z.div_add; lia).
  assert (Hprev : Z.max 0 (now - p) / p = Z.max 0 (now / p - 1)).
  { destruct (Z_lt_le_dec now p) as [Hlt|Hle].
    - rewrite (Z.div_small now p), !Z.max_l by lia. apply Z.div_0_l. lia.
    - replace (now - p) with (now + (-1) * p) by lia. pose proof (Z.div_le_lower_bound now p 1).
      rewrite Z.max_r, Z.div_add by lia. lia. }
  pose proof (Z.div_pos now p). split; intros t.
  - unfold window. rewrite !elem_of_cons, elem_of_nil. intros [->|[->|[->|[]]]]; rewrite ?Hnext, ?Hprev; lia.
  - intros Ht Hd. pose proof (Z.div_pos t p).
    assert (t / p = now / p - 1 \/ t / p = now / p \/ t / p = now / p + 1) as [E|[E|E]] by lia; rewrite E.
    + exists (Z.max 0 (now - p)). split; [by left|]. rewrite Hprev. lia.
    + exists now. split; [right; by left|done].
    + exists (now + p). split; [do 2 right; by left|done].
Qed.

(** a pasted code is confirmed exactly when the seed mints it in the current time step or a neighbouring one
    (at time zero the step before is the first itself), so a clock off by less than a period never refuses a true code; it is
    not judged when the seed is malformed or no code is sent. *)
Theorem validation_window (body : ValidateTotpBody) (now : Z) :
  let period := Z.max (default 30 (v_period body)) 1 in
  let mint seed t := mint_totp_at seed (clamp 6 10 (default 6 (v_digits body))) period (default "SHA1" (v_algorithm body)) t in
  0 <= now -> now + period <= u64_max ->
  (normalize_base32 (v_totp_seed body) = None -> validate_totp body now = (false, None)) /\
  (forall seed, normalize_base32 (v_totp_seed body) = Some seed ->
     fst (validate_totp body now) = true /\
     forall code, v_code body = Some code -> is_empty (trim code) = false ->
     exists b, snd (validate_totp body now) = Some b /\
       (b = true <-> exists t, 0 <= t /\ Z.abs (t / period - now / period) <= 1 /\ mint seed t = Ok (trim code))).
Proof.
  intros period mint Hnow Hmax.
  assert (Hu : as_u64 (now + period) = now + period) by (apply as_u64_id; unfold in_u64; lia).
  split; [intros Hn; unfold validate_totp; by rewrite Hn|].
  intros seed Hs. split; [unfold validate_totp; by rewrite Hs|].
  intros code Hc Hne. unfold validate_totp. rewrite Hs, Hc, Hne. fold period. eexists. split; [done|].
  rewrite any_true, Hu. split.
  - intros (t & Ht & He). destruct (mint_totp_at _ _ _ _ t) as [x|] eqn:Em; [|done]. apply str_eqb_eq in He as ->.
    destruct (window_steps period now ltac:(lia) Hnow) as [Hw _]. destruct (Hw t Ht). by exists t.
  - intros (t & Ht & Hd & Hm). destruct (window_steps period now ltac:(lia) Hnow) as [_ Hw].
    destruct (Hw t Ht Hd) as (u & Hin & He). exists u. split; [done|]. unfold mint in Hm.
    rewrite (mint_time_step _ _ _ _ u t), Hm; [apply str_eqb_refl|]. unfold time_step. by rewrite Z.max_l by lia.
Qed.
End theorems.

(** ** Examples *)

(** Two letters per byte, and a digest of equal bytes. *)
Fixpoint nibbles (l : list Z) : string :=
  match l with
  | [] => ""
  | b :: l' => String (chr (65 + b / 16)) (String (chr (65 + b mod 16)) (nibbles l'))
  end.
Definition nibble (c : ascii) : option Z :=
  if (65 <=? byte_val c) && (byte_val c <=? 80) then Some (byte_val c - 65) else None.
Fixpoint un_nibbles (s : string) : option (list Z) :=
  match s with
  | EmptyString => Some []
  | String c (String d r) =>
      match nibble c, nibble d, un_nibbles r with
      | Some x, Some y, Some l => Some (16 * x + y :: l)
      | _, _, _ => None
      end
  | _ => None
  end.

#[export] Instance demo_otp : OtpLibs := {|
  base32_decode := un_nibbles;
  base32_encode := fun l => nibbles (map (fun b => b mod 256) l);
  hmac := fun a k m => Some (repeat ((foldr Z.add 0 k + foldr Z.add 0 m) mod 256)
    (match a with SHA1 => 20 | SHA256 => 32 | SHA512 => 64 end));
|}.

Lemma nibble_chr (x : Z) : 0 <= x < 16 -> nibble (chr (65 + x)) = Some x /\ is_base32_byte (chr (65 + x)) = true.
Proof.
  intros Hx. unfold nibble, is_base32_byte, is_upper. rewrite byte_val_chr by lia.
  destruct (Z.leb_spec 65 (65 + x)), (Z.leb_spec (65 + x) 80), (Z.leb_spec (65 + x) 90); try lia.
  split; [f_equal; lia|done].
Qed.

Lemma un_nibbles_nibbles (l : list Z) : Forall is_byte l -> un_nibbles (nibbles l) = Some l.
Proof.
  induction 1 as [|b l Hb _ IH]; [done|]. unfold is_byte in Hb. cbn [nibbles un_nibbles].
  rewrite IH. destruct (nibble_chr (b / 16)) as [-> _]; [split; [apply Z.div_pos|apply Z.div_lt_upper_bound]; lia|].
  destruct (nibble_chr (b mod 16)) as [-> _]; [apply Z.mod_pos_bound; lia|].
  do 2 f_equal. pose proof (Z.div_mod b 16). lia.
Qed.

Lemma nibbles_un_nibbles (n : nat) : forall (s : string) (l : list Z), (String.length s <= n)%nat -> un_nibbles s = Some l ->
  Forall is_byte l /\ nibbles l = s.
Proof.
  induction n as [|n IH]; intros [|c [|d r]] l Hn; simpl in Hn; try lia; cbn [un_nibbles]; try done; try (by intros [= <-]).
  unfold nibble. destruct (_ && _) eqn:E1; [|done]. destruct ((_ <=? byte_val d) && _) eqn:E2; [|done].
  destruct (un_nibbles r) as [l'|] eqn:E; [|done]. intros [= <-]. destruct (IH r l') as [Hl Hr]; [lia|done|].
  apply andb_true_iff in E1 as [?%Z.leb_le ?%Z.leb_le]. apply andb_true_iff in E2 as [?%Z.leb_le ?%Z.leb_le].
  split; [constructor; [unfold is_byte; lia|done]|]. cbn [nibbles]. rewrite Hr.
  set (x := byte_val c - 65) in *. set (y := byte_val d - 65) in *.
  assert (Hd : (16 * x + y) / 16 = x) by (symmetry; apply (Z.div_unique _ _ _ y); lia).
  assert (Hm : (16 * x + y) mod 16 = y) by (symmetry; apply (Z.mod_unique _ _ x); lia).
  rewrite Hd, Hm. unfold x, y. rewrite !Zplus_minus, !chr_byte_val. done.
Qed.

Lemma mod_bytes (l : list Z) : Forall is_byte (map (fun b => b mod 256) l).
Proof. apply Forall_fmap, Forall_forall. intros b _. unfold is_byte. simpl. by apply Z.mod_pos_bound. Qed.

Lemma mod_bytes_id (l : list Z) : Forall is_byte l -> map (fun b => b mod 256) l = l.
Proof. induction 1 as [|b l Hb _ IH]; [done|]. simpl. rewrite IH. unfold is_byte in Hb. by rewrite Z.mod_small. Qed.

#[export] Instance demo_otp_laws : OtpLaws.
Proof.
  split.
  - intros l Hl. cbn [base32_decode base32_encode demo_otp]. rewrite mod_bytes_id by done. by apply un_nibbles_nibbles.
  - intros s l Hs. destruct (nibbles_un_nibbles _ s l (le_n _) Hs) as [Hl <-]. split; [done|].
    cbn [base32_encode demo_otp]. by rewrite mod_bytes_id.
  - done.
  - intros l. cbn [base32_encode demo_otp]. induction (mod_bytes l) as [|b k Hb _ IH]; [done|].
    unfold is_byte in Hb. cbn [nibbles str_all]. rewrite IH.
    destruct (nibble_chr (b / 16)) as [_ ->]; [split; [apply Z.div_pos|apply Z.div_lt_upper_bound]; lia|].
    destruct (nibble_chr (b mod 16)) as [_ ->]; [apply Z.mod_pos_bound; lia|]. done.
  - intros a k m out [= <-]. apply Forall_forall. intros x Hx%list_elem_of_In%repeat_spec. subst x. unfold is_byte.
    by apply Z.mod_pos_bound.
  - intros a k m out [= <-]. apply repeat_length.
Qed.

Lemma totp_code_witness : exists code v,
  mint_totp_at " ha HA== " 8 30 "sha256" 59 = Ok code /\ str_len code = 8 /\ parse_digits 0 code = Some v.
Proof.
  destruct (totp_code " ha HA== " "sha256" 8 30 59 [112; 112] (repeat 225 32)) as (_ & code & v & H1 & H2 & H3 & _).
  - vm_compute. reflexivity.
  - discriminate.
  - vm_compute. reflexivity.
  - exists code, v. split; [exact H1|]. split; [exact H2|exact H3].
Defined.

(** A ten-digit code that is not the RFC's. *)
Example ten_digits_wrap :
  mint_totp_at "HPAA" 10 30 "SHA1" 0 = Ok "0728996735" /\ rfc_truncation (repeat 127 20) mod 10 ^ 10 = 2139062143.
Proof. split; vm_compute; reflexivity. Qed.

Lemma stored_seed_mints_witness : exists code, mint_totp_at "HAHA" 6 30 "" 1000 = Ok code.
Proof.
  destruct (stored_seed_mints "ha-ha==" "HAHA") as [_ H].
  - intros a k m. eexists. reflexivity.
  - vm_compute. reflexivity.
  - discriminate.
  - apply H.
Defined.

Lemma validation_window_witness :
  snd (validate_totp (mkValidate "ha-ha" (Some " 036386 ") None None None) 95) = Some true.
Proof.
  destruct (validation_window (mkValidate "ha-ha" (Some " 036386 ") None None None) 95) as [_ H].
  - lia.
  - by compute.
  - destruct (H "HAHA" ltac:(vm_compute; reflexivity)) as [_ Hc].
    destruct (Hc " 036386 " ltac:(reflexivity) ltac:(vm_compute; reflexivity)) as (b & Hb & Hiff).
    rewrite Hb. f_equal. apply Hiff. exists 60. split; [lia|]. split; [by compute|]. vm_compute. reflexivity.
Defined.
