(* ===== verification/AuthImport.v ===== *)
(** * local/authenticator_import.rs: importing an authenticator's accounts

    The protobuf wire reader, the parsers of [otpauth://] URIs and of Google's export, de-duplication,
    and the staging of parsed accounts between preview and commit. A byte buffer is a [list Z]; an
    index out of a slice and the arithmetic overflow of a release build (which wraps) are modelled, the
    former as [Panic]. URL parsing, base64 and Unicode lower-casing are the interface [ImportLibs]. *)

From Stdlib Require Import Ascii String.
From S2P Require Import Prelude Ints Str Json UpdateManifest Store VaultRoot VaultFiles Totp.
Open Scope string_scope.
Open Scope Z_scope.
Open Scope writ_scope.

(** ** Outcomes: a returned error, or a panic of the thread *)

Inductive Failure : Type := Failed (e : string) | Panic.

(** ** The wire reader *)

Inductive ProtoValue : Type := Varint (v : Z) | Bytes (b : list Z) | Fixed (v : Z).

Definition Field : Type := Z * Z * ProtoValue.

(** [buf.get(i)] *)
Definition get_byte (buf : list Z) (i : Z) : option Z := buf !! Z.to_nat i.

(** The loop of [read_varint]: [k] more bytes may be read before the shift passes 63. *)
Fixpoint read_varint_loop (k : nat) (buf : list Z) (i acc shift : Z) : result (Z * Z) Failure :=
  match k with
  | O => Err (Failed "varint too long")
  | S k =>
      match get_byte buf i with
      | None => Err (Failed "truncated varint")
      | Some b =>
          let acc := Z.lor acc (as_u64 (Z.shiftl (Z.land b 127) shift)) in
          if Z.land b 128 =? 0 then Ok (acc, i + 1) else read_varint_loop k buf (i + 1) acc (shift + 7)
      end
  end.

(** The shifts 0, 7, ..., 63. *)
Definition read_varint (buf : list Z) (i : Z) : result (Z * Z) Failure := read_varint_loop 10 buf i 0 0.

(** [&buf[i..j]] *)
Definition slice (buf : list Z) (i j : Z) : result (list Z) Failure :=
  if (i <=? j) && (j <=? Z.of_nat (length buf)) then Ok (take (Z.to_nat (j - i)) (drop (Z.to_nat i) buf)) else Err Panic.

Definition from_le_list (l : list Z) : Z := foldr (fun b acc => b + 256 * acc) 0 l.

(** One field: the value and the index after it. *)
Definition read_field (buf : list Z) (i : Z) : result (Field * Z) Failure :=
  let n := Z.of_nat (length buf) in
  let? (tag, i) := read_varint buf i in
  let field_num := Z.shiftr tag 3 in
  let wire_type := Z.land tag 7 in
  if wire_type =? 0 then
    let? (val, i) := read_varint buf i in Ok ((field_num, 0, Varint val), i)
  else if wire_type =? 2 then
    let? (len, i) := read_varint buf i in
    let stop := as_u64 (i + len) in
    if n <? stop then Err (Failed "truncated protobuf field")
    else let? b := slice buf i stop in Ok ((field_num, 2, Bytes b), stop)
  else if wire_type =? 5 then
    if n <? i + 4 then Err (Failed "truncated protobuf field")
    else let? b := slice buf i (i + 4) in Ok ((field_num, 5, Fixed (from_le_list b)), i + 4)
  else if wire_type =? 1 then
    if n <? i + 8 then Err (Failed "truncated protobuf field")
    else let? b := slice buf i (i + 8) in Ok ((field_num, 1, Fixed (from_le_list b)), i + 8)
  else Err (Failed (String.append "unsupported protobuf wire type " (Z_to_string wire_type))).

(** The loop; the fuel is a field more than the buffer has bytes ([iter_protobuf_terminates]). *)
Fixpoint iter_fields (fuel : nat) (buf : list Z) (i : Z) : option (result (list Field) Failure) :=
  match fuel with
  | O => None
  | S f =>
      if i <? Z.of_nat (length buf) then
        match read_field buf i with
        | Err e => Some (Err e)
        | Ok (fld, i) =>
            match iter_fields f buf i with
            | Some (Ok fs) => Some (Ok (fld :: fs))
            | o => o
            end
        end
      else Some (Ok [])
  end.

Definition iter_protobuf_fields (buf : list Z) : result (list Field) Failure :=
  default (Err Panic) (iter_fields (S (length buf)) buf 0).

(** ** UTF-8, lossily *)

(** Whether the list starts with a whole character, and the bytes it (or the longest ill-formed prefix) takes. *)
Definition utf8_step (l : list Z) : bool * nat :=
  let within lo hi (o : option Z) := match o with Some b => (lo <=? b) && (b <=? hi) | None => false end in
  let cont := within 128 191 in
  let a := default 0 (l !! 0%nat) in
  if a <? 128 then (true, 1%nat)
  else if (194 <=? a) && (a <=? 223) then
    if cont (l !! 1%nat) then (true, 2%nat) else (false, 1%nat)
  else if (224 <=? a) && (a <=? 239) then
    if within (if a =? 224 then 160 else 128) (if a =? 237 then 159 else 191) (l !! 1%nat)
    then if cont (l !! 2%nat) then (true, 3%nat) else (false, 2%nat)
    else (false, 1%nat)
  else if (240 <=? a) && (a <=? 244) then
    if within (if a =? 240 then 144 else 128) (if a =? 244 then 143 else 191) (l !! 1%nat)
    then if cont (l !! 2%nat) then if cont (l !! 3%nat) then (true, 4%nat) else (false, 3%nat) else (false, 2%nat)
    else (false, 1%nat)
  else (false, 1%nat).

(** U+FFFD for each ill-formed prefix; [copy] and [skip] count the bytes left of the current piece. *)
Fixpoint utf8_lossy (copy skip : nat) (l : list Z) : list Z :=
  match l with
  | [] => []
  | a :: r =>
      match copy, skip with
      | S c, _ => a :: utf8_lossy c 0 r
      | O, S k => utf8_lossy 0 k r
      | O, O =>
          match utf8_step l with
          | (true, n) => a :: utf8_lossy (n - 1) 0 r
          | (false, n) => 239 :: 191 :: 189 :: utf8_lossy 0 (n - 1) r
          end
      end
  end.

Definition from_utf8_lossy (l : list Z) : string := bytes_to_string (utf8_lossy 0 0 l).

Example lossy_ex : utf8_lossy 0 0 [72; 240; 159; 146; 150; 226; 130; 65; 255]
  = [72; 240; 159; 146; 150; 239; 191; 189; 65; 239; 191; 189].
Proof. reflexivity. Qed.

(** ** Entries *)

Record ImportEntry : Type := mkEntry {
  secret : string;
  issuer : option string;
  label : option string;
  algorithm : string;
  digits : Z;
  period : Z;
}.

(** A parsed URL, as far as it is read. *)
Record ParsedUrl : Type := mkUrl {
  u_scheme : string;
  u_host : option string;
  u_path : string;
  u_query : list (string * string);
}.

Class ImportLibs : Type := {
  url_parse : string -> option ParsedUrl;
  b64_standard : string -> option (list Z);
  b64_url_safe : string -> option (list Z);
  to_lowercase : string -> string;
}.

Definition STAGE_TTL : Z := 600.
Definition MAX_ENTRIES : nat := 200.
Definition MAX_STAGED : nat := 16.

Definition decode_utf8 (b : list Z) : option string :=
  let s := from_utf8_lossy b in if is_empty s then None else Some s.

(** [percent_decode]; an escape is two bytes [u8::from_str_radix] accepts at radix 16, so "%+1" is one too. *)
Definition hex_pair (a b : ascii) : option Z :=
  match to_digit16 a, to_digit16 b with
  | Some x, Some y => Some (16 * x + y)
  | _, Some y => if byte_is "+" a then Some y else None
  | _, _ => None
  end.

Fixpoint percent_bytes (skip : nat) (s : string) : list Z :=
  match s with
  | EmptyString => []
  | String c r =>
      match skip with
      | S k => percent_bytes k r
      | O =>
          match (if byte_is "%" c then match r with String a (String b _) => hex_pair a b | _ => None end else None) with
          | Some v => v :: percent_bytes 2 r
          | None => if byte_is "+" c then 32 :: percent_bytes 0 r else byte_val c :: percent_bytes 0 r
          end
      end
  end.

Definition percent_decode (s : string) : string := from_utf8_lossy (percent_bytes 0 s).

Section import.
Context `{OtpLibs, ImportLibs}.

(** *** otpauth:// *)

(** The collected [HashMap]: the last pair of a name stays. *)
Definition query_get (k : string) (q : list (string * string)) : option string :=
  snd <$> find_first (fun p => str_eqb (fst p) k) (reverse q).

Definition non_empty (s : string) : option string := if is_empty s then None else Some s.

Definition fail {A : Type} (e : string) : result A Failure := Err (Failed e).

(** Issuer and label from the path and the query's issuer. *)
Definition issuer_label (label_raw issuer : option string) : option string * option string :=
  match label_raw with
  | None => (issuer, None)
  | Some raw =>
      match split_once ":" raw with
      | None => (issuer, label_raw)
      | Some (prefix, rest) =>
          let issuer := match issuer with None => non_empty (trim prefix) | Some _ => issuer end in
          let rest := trim rest in
          (issuer, if is_empty rest then label_raw else Some rest)
      end
  end.

Definition parse_otpauth_uri (uri : string) : result (option ImportEntry) Failure :=
  let? parsed := ok_or (url_parse uri) (Failed "not an otpauth:// URI") in
  if negb (str_eqb (u_scheme parsed) "otpauth") then fail "not an otpauth:// URI"
  else
    let otp_type := to_ascii_lowercase (default "" (u_host parsed)) in
    if str_eqb otp_type "hotp" then Ok None
    else if negb (str_eqb otp_type "totp") then
      fail (String.append "unsupported otpauth type '" (String.append otp_type "'"))
    else
      let q := u_query parsed in
      let secret_raw := default "" (trim <$> query_get "secret" q) in
      if is_empty secret_raw then fail "otpauth URI missing secret"
      else
        let? secret := ok_or (normalize_base32 secret_raw) (Failed "otpauth secret is not valid base32") in
        let label_raw := non_empty (percent_decode (trim_start_by (byte_is "/") (u_path parsed))) in
        let issuer := match query_get "issuer" q with Some s => non_empty (trim s) | None => None end in
        let (issuer, label) := issuer_label label_raw issuer in
        let algorithm :=
          match to_ascii_uppercase <$> query_get "algorithm" q with
          | Some a => if str_eqb a "SHA256" || str_eqb a "SHA512" then a else "SHA1"
          | None => "SHA1"
          end in
        let digits :=
          match query_get "digits" q ≫= parse_i64 with
          | Some d => if (d =? 6) || (d =? 8) then d else 6
          | None => 6
          end in
        let period :=
          match query_get "period" q ≫= parse_i64 with
          | Some p => if 0 <? p then p else 30
          | None => 30
          end in
        Ok (Some (mkEntry secret issuer label algorithm digits period)).

(** *** The migration blob *)

(** The locals of [parse_otp_parameters]. *)
Record OtpParameters : Type := mkParams {
  p_secret : option (list Z);
  p_name : option string;
  p_issuer : option string;
  p_algorithm : string;
  p_digits : Z;
  p_type : Z;
}.

Definition otp_field (p : OtpParameters) (f : Field) : OtpParameters :=
  let '(mkParams s n i a d t) := p in
  let '(num, wire, value) := f in
  match value with
  | Bytes b =>
      if wire =? 2 then
        if num =? 1 then mkParams (Some b) n i a d t
        else if num =? 2 then mkParams s (decode_utf8 b) i a d t
        else if num =? 3 then mkParams s n (decode_utf8 b) a d t
        else p
      else p
  | Varint v =>
      if wire =? 0 then
        if num =? 4 then mkParams s n i (if v =? 2 then "SHA256" else if v =? 3 then "SHA512" else "SHA1") d t
        else if num =? 5 then mkParams s n i a (if v =? 2 then 8 else 6) t
        else if num =? 6 then mkParams s n i a d v
        else p
      else p
  | Fixed _ => p
  end.

Definition parse_otp_parameters (buf : list Z) : result (option ImportEntry) Failure :=
  match iter_protobuf_fields buf with
  | Err Panic => Err Panic
  | Err (Failed _) => Ok None
  | Ok fields =>
      let p := foldl otp_field (mkParams None None None "SHA1" 6 2) fields in
      if negb (p_type p =? 2) then Ok None
      else match p_secret p with
           | None | Some [] => Ok None
           | Some bytes => Ok (Some (mkEntry (base32_encode bytes) (p_issuer p) (p_name p) (p_algorithm p) (p_digits p) 30))
           end
  end.

Definition b64_decode_loose (data : string) : option (list Z) :=
  let s := of_bytes (retain (fun c => negb (byte_is "010" c || byte_is "013" c)) (bytes data)) in
  let s := trim s in
  let padded := String.append s (of_bytes (repeat "="%char (Z.to_nat ((4 - str_len s mod 4) mod 4)))) in
  match b64_standard padded with
  | Some b => Some b
  | None => b64_url_safe padded
  end.

(** The loop over the outer message's fields. *)
Fixpoint otp_entries (fields : list Field) : result (list ImportEntry) Failure :=
  match fields with
  | [] => Ok []
  | (num, wire, value) :: rest =>
      match value with
      | Bytes buf =>
          if (num =? 1) && (wire =? 2) then
            let? e := parse_otp_parameters buf in
            let? es := otp_entries rest in
            Ok (match e with Some e => e :: es | None => es end)
          else otp_entries rest
      | _ => otp_entries rest
      end
  end.

Definition migration_data (payload : string) : result string Failure :=
  let payload := trim payload in
  if contains (to_ascii_lowercase payload) "otpauth-migration://" || contains payload "data=" then
    let? parsed := ok_or (url_parse payload) (Failed "migration URI is not a valid URI") in
    let data := default "" (snd <$> find_first (fun p => str_eqb (fst p) "data") (u_query parsed)) in
    if is_empty (trim data) then fail "migration URI missing data= parameter" else Ok (trim data)
  else Ok payload.

Definition parse_migration_payload (payload : string) : result (list ImportEntry) Failure :=
  let? data := migration_data payload in
  let? raw := ok_or (b64_decode_loose (percent_decode data)) (Failed "migration data is not valid base64") in
  let? fields := iter_protobuf_fields raw in
  let? entries := otp_entries fields in
  match entries with
  | [] => fail "no TOTP accounts in the Google Authenticator export"
  | _ => Ok entries
  end.

(** *** The mix *)

Definition entry_key (e : ImportEntry) : string * string * string :=
  (secret e, to_lowercase (default "" (issuer e)), to_lowercase (default "" (label e))).

Fixpoint dedupe_from (seen : gset (string * string * string)) (es : list ImportEntry) : list ImportEntry :=
  match es with
  | [] => []
  | e :: es =>
      if bool_decide (entry_key e ∈ seen) then dedupe_from seen es
      else e :: dedupe_from ({[ entry_key e ]} ∪ seen) es
  end.
Definition dedupe (es : list ImportEntry) : list ImportEntry := dedupe_from ∅ es.

(** One URI's effect on the two accumulators; a panic ends everything. *)
Definition batch (r : result (list ImportEntry) Failure) : result (list ImportEntry * list string) Failure :=
  match r with
  | Ok es => Ok (es, [])
  | Err (Failed e) => Ok ([], [e])
  | Err Panic => Err Panic
  end.

Definition parse_uri (uri : string) : result (list ImportEntry * list string) Failure :=
  let uri := trim uri in
  if is_empty uri then Ok ([], [])
  else if starts_with (to_ascii_lowercase uri) "otpauth-migration://" then batch (parse_migration_payload uri)
  else batch (match parse_otpauth_uri uri with
              | Ok (Some e) => Ok [e]
              | Ok None => Ok []
              | Err e => Err e
              end).

Fixpoint parse_uris (uris : list string) : result (list ImportEntry * list string) Failure :=
  match uris with
  | [] => Ok ([], [])
  | u :: us =>
      let? (es, errs) := parse_uri u in
      let? (es', errs') := parse_uris us in
      Ok ((es ++ es')%list, (errs ++ errs')%list)
  end.

Definition parse_payloads (otpauth_uris : list string) (migration_payload : option string) : result (list ImportEntry) Failure :=
  let? (es, errs) := parse_uris otpauth_uris in
  let? (es', errs') :=
    match migration_payload with
    | Some p => if is_empty (trim p) then Ok ([], []) else batch (parse_migration_payload (trim p))
    | None => Ok ([], [])
    end in
  let errors := (errs ++ errs')%list in
  let deduped := dedupe (es ++ es')%list in
  match deduped with
  | [] => fail (match errors with [] => "no TOTP accounts found in the import" | _ => join "; " (take 3 errors) end)
  | _ =>
      if (MAX_ENTRIES <? length deduped)%nat then
        fail (String.append "import has too many accounts (" (String.append (Z_to_string (Z.of_nat (length deduped))) " > 200)"))
      else Ok deduped
  end.
End import.

(** ** The wire format, written *)

Fixpoint encode_varint (k : nat) (v : Z) : list Z :=
  match k with
  | O => []
  | S k => if v <? 128 then [v] else (v mod 128 + 128) :: encode_varint k (v / 128)
  end.
Definition write_varint (v : Z) : list Z := encode_varint 10 v.

Definition write_field (f : Field) : list Z :=
  let '(num, wire, value) := f in
  match value with
  | Varint v => write_varint (8 * num) ++ write_varint v
  | Bytes b => write_varint (8 * num + 2) ++ write_varint (Z.of_nat (length b)) ++ b
  | Fixed v => if wire =? 5 then write_varint (8 * num + 5) ++ le_bytes 4 v else write_varint (8 * num + 1) ++ le_bytes 8 v
  end.

Definition field_ok (f : Field) : Prop :=
  let '(num, wire, value) := f in
  0 <= num < 2 ^ 61 /\
  match value with
  | Varint v => wire = 0 /\ in_u64 v
  | Bytes b => wire = 2
  | Fixed v => (wire = 5 /\ 0 <= v < 2 ^ 32) \/ (wire = 1 /\ in_u64 v)
  end.

Definition write_fields (fs : list Field) : list Z := concat (map write_field fs).

(** ** Reading what was written *)

Lemma get_byte_app (pre post : list Z) (b : Z) : get_byte (pre ++ b :: post) (Z.of_nat (length pre)) = Some b.
Proof. unfold get_byte. rewrite Nat2Z.id. by apply list_lookup_middle. Qed.

Lemma low_bits (b : Z) : Z.land b 127 = b mod 128.
Proof. change 127 with (Z.ones 7). by apply Z.land_ones. Qed.

Lemma high_bit (b : Z) : 0 <= b < 256 -> (Z.land b 128 =? 0) = (b <? 128).
Proof.
  intros Hb. assert (E : Z.land b 128 = if Z.testbit b 7 then 128 else 0).
  { change 128 with (2 ^ 7). apply Z.bits_inj'. intros k Hk. rewrite Z.land_spec, Z.pow2_bits_eqb by lia.
    destruct (Z.eqb_spec 7 k) as [<-|Hk7].
    - rewrite andb_true_r. destruct (Z.testbit b 7); reflexivity.
    - rewrite andb_false_r. destruct (Z.testbit b 7); [|by rewrite Z.bits_0].
      rewrite Z.pow2_bits_eqb by lia. symmetry. by apply Z.eqb_neq. }
  rewrite E, Z.testbit_odd, Z.shiftr_div_pow2 by lia. change (2 ^ 7) with 128.
  destruct (Z.ltb_spec b 128).
  - by rewrite Z.div_small by lia.
  - assert (b / 128 = 1) as -> by (symmetry; apply (Z.div_unique _ _ _ (b - 128)); lia). done.
Qed.

Lemma lor_low (acc x s : Z) : 0 <= s -> 0 <= acc < 2 ^ s -> Z.lor acc (Z.shiftl x s) = acc + x * 2 ^ s.
Proof. intros Hs Ha. rewrite Z.lor_comm, lor_shift by done. lia. Qed.

(** One byte read. *)
Lemma read_varint_byte (k : nat) (pre post : list Z) (b acc shift : Z) : 0 <= b < 256 ->
  read_varint_loop (S k) (pre ++ b :: post) (Z.of_nat (length pre)) acc shift =
    let acc := Z.lor acc (as_u64 (Z.shiftl (b mod 128) shift)) in
    if b <? 128 then Ok (acc, Z.of_nat (length (pre ++ [b])))
    else read_varint_loop k ((pre ++ [b]) ++ post) (Z.of_nat (length (pre ++ [b]))) acc (shift + 7).
Proof.
  intros Hb. rewrite <-app_assoc. cbn [app]. rewrite length_app, Nat2Z.inj_add. change (Z.of_nat (length [b])) with 1.
  change (read_varint_loop (S k) ?l ?i ?a ?s) with
    (match get_byte l i with
     | None => Err (Failed "truncated varint")
     | Some b => let acc := Z.lor a (as_u64 (Z.shiftl (Z.land b 127) s)) in
                 if Z.land b 128 =? 0 then Ok (acc, i + 1) else read_varint_loop k l (i + 1) acc (s + 7)
     end).
  by rewrite get_byte_app, low_bits, high_bit.
Qed.

Lemma read_varint_written (k : nat) : (k <= 9)%nat -> forall (pre post : list Z) (v acc : Z),
  let shift := 7 * (9 - Z.of_nat k) in
  0 <= acc < 2 ^ shift -> 0 <= v < 2 ^ (64 - shift) ->
  read_varint_loop (S k) (pre ++ encode_varint (S k) v ++ post) (Z.of_nat (length pre)) acc shift
  = Ok (acc + v * 2 ^ shift, Z.of_nat (length pre) + Z.of_nat (length (encode_varint (S k) v))).
Proof.
  induction k as [|k IH]; intros Hk pre post v acc shift Ha Hv.
  all: assert (Hp : 2 ^ (64 - shift) * 2 ^ shift = 2 ^ 64) by (rewrite <-Z.pow_add_r by lia; f_equal; lia).
  all: assert (Hs0 : 0 < 2 ^ shift) by (apply Z.pow_pos_nonneg; lia).
  all: assert (Hbits : forall x, 0 <= x <= v -> Z.lor acc (as_u64 (Z.shiftl x shift)) = acc + x * 2 ^ shift).
  1, 3: intros x Hx; rewrite as_u64_id; [apply lor_low; lia|]; rewrite Z.shiftl_mul_pow2 by lia; unfold in_u64, u64_max; nia.
  all: change (encode_varint (S ?m) v) with (if v <? 128 then [v] else (v mod 128 + 128) :: encode_varint m (v / 128)).
  all: destruct (Z.ltb_spec v 128) as [Hlt|Hge]; [|try (subst shift; simpl in Hv; lia)].
  1, 2: cbn [app]; rewrite read_varint_byte, (proj2 (Z.ltb_lt v 128)), Z.mod_small, Hbits, length_app by lia;
    cbn [length]; do 2 f_equal; lia.
  - pose proof (Z.mod_pos_bound v 128) as Hm. pose proof (Z.div_mod v 128) as Hd.
    cbn [app]. rewrite read_varint_byte, (proj2 (Z.ltb_ge _ 128)) by lia.
    assert ((v mod 128 + 128) mod 128 = v mod 128) as -> by (symmetry; apply (Z.mod_unique _ _ 1); lia).
    rewrite Hbits by lia. set (pre' := (pre ++ [v mod 128 + 128])%list).
    assert (Hl : Z.of_nat (length pre') = Z.of_nat (length pre) + 1) by (unfold pre'; rewrite length_app; simpl; lia).
    assert (Hnext : 2 ^ (shift + 7) = 2 ^ shift * 128) by (by rewrite Z.pow_add_r by lia).
    specialize (IH ltac:(lia) pre' post (v / 128) (acc + v mod 128 * 2 ^ shift)). cbv zeta in IH |- *.
    replace (7 * (9 - Z.of_nat k)) with (shift + 7) in IH by lia. rewrite IH.
    + cbn [length]. rewrite Hnext, Hl. do 2 f_equal; [nia|lia].
    + rewrite Hnext. nia.
    + split; [apply Z.div_pos; lia|]. apply Z.div_lt_upper_bound; [lia|].
      replace (64 - shift) with (7 + (64 - (shift + 7))) in Hv by lia. rewrite Z.pow_add_r in Hv by lia. lia.
Qed.

Lemma read_varint_app (pre post : list Z) (v : Z) : in_u64 v ->
  read_varint (pre ++ write_varint v ++ post) (Z.of_nat (length pre)) = Ok (v, Z.of_nat (length (pre ++ write_varint v))).
Proof.
  unfold in_u64, u64_max. intros Hv. unfold read_varint, write_varint.
  pose proof (read_varint_written 9 ltac:(lia) pre post v 0) as E. cbv zeta in E.
  change (7 * (9 - Z.of_nat 9)) with 0 in E. rewrite E by (simpl; lia). rewrite length_app. do 2 f_equal; lia.
Qed.

(** A length-delimited or fixed value that is there is read. *)
Lemma slice_app (pre post b : list Z) :
  slice (pre ++ b ++ post) (Z.of_nat (length pre)) (Z.of_nat (length pre) + Z.of_nat (length b)) = Ok b.
Proof.
  unfold slice. rewrite !length_app.
  assert ((_ <=? _) && (_ <=? _) = true) as -> by (apply andb_true_iff; split; apply Z.leb_le; lia).
  replace (Z.to_nat (_ - _)) with (length b) by lia. rewrite Nat2Z.id, drop_app_length.
  f_equal. by rewrite take_app_length.
Qed.

Lemma stop_in_range (pre post b : list Z) :
  (Z.of_nat (length (pre ++ b ++ post)) <? Z.of_nat (length pre) + Z.of_nat (length b)) = false.
Proof. apply Z.ltb_ge. rewrite !length_app. lia. Qed.

Lemma le_bytes_length (n : nat) (z : Z) : length (le_bytes n z) = n.
Proof. unfold le_bytes. by rewrite length_map, length_seq. Qed.

Lemma fixed_value (pre post : list Z) (n : nat) (v : Z) :
  (Z.of_nat (length (pre ++ le_bytes n v ++ post)) <? Z.of_nat (length pre) + Z.of_nat n) = false /\
  slice (pre ++ le_bytes n v ++ post) (Z.of_nat (length pre)) (Z.of_nat (length pre) + Z.of_nat n) = Ok (le_bytes n v).
Proof.
  pose proof (stop_in_range pre post (le_bytes n v)) as E. pose proof (slice_app pre post (le_bytes n v)) as E'.
  rewrite le_bytes_length in E, E'. done.
Qed.

Lemma from_le_list_bytes (n : nat) (z : Z) : 0 <= z < 2 ^ (8 * Z.of_nat n) -> from_le_list (le_bytes n z) = z.
Proof.
  intros Hz. rewrite <-(from_le_bytes n z Hz) at 2. unfold from_le. by rewrite bytes_to_string_inv by apply le_bytes_range.
Qed.

Lemma tag_parts (num w : Z) : 0 <= w < 8 -> Z.shiftr (8 * num + w) 3 = num /\ Z.land (8 * num + w) 7 = w.
Proof.
  intros Hw. split.
  - rewrite Z.shiftr_div_pow2 by lia. symmetry. apply (Z.div_unique _ _ _ w); lia.
  - change 7 with (Z.ones 3). rewrite Z.land_ones by lia. symmetry. apply (Z.mod_unique _ _ num); lia.
Qed.

Lemma read_tag (pre post : list Z) (num w : Z) : 0 <= num < 2 ^ 61 -> 0 <= w < 8 ->
  read_varint (pre ++ write_varint (8 * num + w) ++ post) (Z.of_nat (length pre))
  = Ok (8 * num + w, Z.of_nat (length (pre ++ write_varint (8 * num + w)))).
Proof. intros Hn Hw. apply read_varint_app. unfold in_u64, u64_max. lia. Qed.

Lemma read_field_written (pre post : list Z) (f : Field) : field_ok f ->
  Z.of_nat (length (pre ++ write_field f ++ post)) <= i64_max ->
  read_field (pre ++ write_field f ++ post) (Z.of_nat (length pre)) = Ok (f, Z.of_nat (length (pre ++ write_field f))).
Proof.
  destruct f as [[num wire] value]. intros [Hn Hv] Hl. unfold read_field. cbn [write_field] in *.
  destruct value as [v|b|v].
  - destruct Hv as [-> Hv]. replace (8 * num) with (8 * num + 0) by lia.
    rewrite <-!app_assoc. rewrite read_tag by lia. cbn [result_bind]. destruct (tag_parts num 0) as [-> ->]; [lia|]. cbn [Z.eqb].
    rewrite app_assoc, read_varint_app by done. cbn [result_bind]. by rewrite <-app_assoc.
  - subst wire. rewrite <-!app_assoc in *. rewrite read_tag by lia. cbn [result_bind].
    destruct (tag_parts num 2) as [-> ->]; [lia|]. cbn [Z.eqb Pos.eqb].
    rewrite !length_app in Hl. unfold i64_max in Hl.
    rewrite app_assoc, read_varint_app by (unfold in_u64, u64_max; lia). cbn [result_bind].
    set (pre' := ((pre ++ write_varint (8 * num + 2)) ++ write_varint (Z.of_nat (length b)))%list).
    rewrite as_u64_id by (unfold in_u64, u64_max, pre'; rewrite !length_app; lia).
    replace ((pre ++ write_varint (8 * num + 2)) ++ write_varint (Z.of_nat (length b)) ++ b ++ post)%list
      with (pre' ++ b ++ post)%list by (unfold pre'; by rewrite <-!app_assoc).
    rewrite stop_in_range, slice_app. cbn [result_bind]. rewrite <-Nat2Z.inj_add, <-length_app.
    unfold pre'. by rewrite <-!app_assoc.
  - destruct Hv as [[-> Hv]|[-> Hv]]; cbn [Z.eqb Pos.eqb] in *; rewrite <-!app_assoc in *; rewrite read_tag by lia; cbn [result_bind].
    + destruct (tag_parts num 5) as [-> ->]; [lia|]. cbn [Z.eqb Pos.eqb].
      rewrite app_assoc. destruct (fixed_value (pre ++ write_varint (8 * num + 5)) post 4 v) as [E1 E2].
      change (Z.of_nat 4) with 4 in *. rewrite E1, E2. cbn [result_bind].
      rewrite from_le_list_bytes by (simpl; lia). rewrite !length_app, le_bytes_length. do 2 f_equal. lia.
    + destruct (tag_parts num 1) as [-> ->]; [lia|]. cbn [Z.eqb Pos.eqb].
      rewrite app_assoc. destruct (fixed_value (pre ++ write_varint (8 * num + 1)) post 8 v) as [E1 E2].
      change (Z.of_nat 8) with 8 in *. rewrite E1, E2. cbn [result_bind]. unfold in_u64, u64_max in Hv.
      rewrite from_le_list_bytes by (simpl; lia). rewrite !length_app, le_bytes_length. do 2 f_equal. lia.
Qed.

Lemma write_varint_nonempty (v : Z) : (0 < length (write_varint v))%nat.
Proof. unfold write_varint. cbn [encode_varint]. destruct (v <? 128); simpl; lia. Qed.

Lemma write_field_nonempty (f : Field) : (0 < length (write_field f))%nat.
Proof.
  destruct f as [[num wire] [v|b|v]]; cbn [write_field]; [| |destruct (wire =? 5)]; rewrite length_app;
    match goal with |- context [write_varint ?x] => pose proof (write_varint_nonempty x) end; lia.
Qed.

Lemma iter_fields_written (fs : list Field) : Forall field_ok fs -> forall (pre : list Z) (fuel : nat),
  Z.of_nat (length (pre ++ write_fields fs)) <= i64_max -> (length fs < fuel)%nat ->
  iter_fields fuel (pre ++ write_fields fs) (Z.of_nat (length pre)) = Some (Ok fs).
Proof.
  induction 1 as [|f fs Hf _ IH]; intros pre fuel Hl Hfuel; (destruct fuel as [|fuel]; [simpl in Hfuel; lia|]);
    cbn [iter_fields]; unfold write_fields in *; cbn [map concat] in *.
  - rewrite app_nil_r. by rewrite (proj2 (Z.ltb_ge _ _)) by lia.
  - pose proof (write_field_nonempty f). rewrite (proj2 (Z.ltb_lt _ _)) by (rewrite !length_app; lia).
    rewrite read_field_written by done. rewrite app_assoc in Hl |- *. rewrite IH; [done|done|cbn [length] in Hfuel; lia].
Qed.

(** the wire reader inverts the wire format: a message written field by field, of any of the four wire types with 64-bit
    values and numbers below [2^61], is read back as exactly those fields. *)
Theorem wire_round_trip (fs : list Field) :
  Forall field_ok fs -> Z.of_nat (length (write_fields fs)) <= i64_max -> iter_protobuf_fields (write_fields fs) = Ok fs.
Proof.
  intros Hfs Hl. unfold iter_protobuf_fields. pose proof (iter_fields_written fs Hfs [] (S (length (write_fields fs)))) as E.
  cbn [app length] in E. change (Z.of_nat 0) with 0 in E. rewrite E; [done|done|].
  enough (length fs <= length (write_fields fs))%nat by lia. clear.
  unfold write_fields. induction fs as [|f fs IH]; cbn [map concat length]; [lia|].
  rewrite length_app. pose proof (write_field_nonempty f). lia.
Qed.

Lemma wire_round_trip_witness :
  iter_protobuf_fields (write_fields [(1, 2, Bytes [7; 8]); (5, 0, Varint (2 ^ 64 - 1)); (9, 5, Fixed 77); (2 ^ 60, 1, Fixed (2 ^ 63))])
  = Ok [(1, 2, Bytes [7; 8]); (5, 0, Varint (2 ^ 64 - 1)); (9, 5, Fixed 77); (2 ^ 60, 1, Fixed (2 ^ 63))].
Proof.
  apply wire_round_trip.
  - repeat (apply Forall_cons; split; [unfold field_ok, in_u64, u64_max; lia|]). apply Forall_nil. exact I.
  - vm_compute. discriminate.
Defined.

(** ** Termination, and the one panic *)

Lemma read_varint_loop_bounds (k : nat) (buf : list Z) : forall (i acc shift v j : Z), 0 <= i -> 0 <= shift -> in_u64 acc ->
  read_varint_loop k buf i acc shift = Ok (v, j) -> i < j <= Z.of_nat (length buf) /\ in_u64 v.
Proof.
  induction k as [|k IH]; intros i acc shift v j Hi Hs Ha; [done|]. cbn [read_varint_loop].
  destruct (get_byte buf i) as [b|] eqn:Eb; [|done]. unfold get_byte in Eb.
  assert (Hlen : i < Z.of_nat (length buf)) by (apply lookup_lt_Some in Eb; lia).
  set (acc' := Z.lor acc _). assert (Ha' : in_u64 acc').
  { pose proof (as_u64_in (Z.shiftl (Z.land b 127) shift)) as Hw. unfold in_u64, u64_max in *.
    assert (0 <= acc') by (apply Z.lor_nonneg; lia). split; [done|].
    destruct (Z.eq_dec acc' 0) as [->|]; [lia|]. enough (acc' < 2 ^ 64) by lia. apply Z.log2_lt_pow2; [lia|].
    unfold acc'. rewrite Z.log2_lor by lia.
    assert (Hl : forall x, 0 <= x <= 2 ^ 64 - 1 -> Z.log2 x < 64).
    { intros x Hx. destruct (Z.eq_dec x 0) as [->|]; [done|]. apply Z.log2_lt_pow2; lia. }
    apply Z.max_lub_lt; apply Hl; lia. }
  destruct (_ =? 0); [intros [= <- <-]; split; [lia|done]|].
  intros Hr. apply IH in Hr as [? ?]; [|lia|lia|done]. split; [lia|done].
Qed.

Lemma read_varint_bounds (buf : list Z) (i v j : Z) : 0 <= i -> read_varint buf i = Ok (v, j) ->
  i < j <= Z.of_nat (length buf) /\ in_u64 v.
Proof. intros Hi. apply read_varint_loop_bounds; [done|lia|by compute]. Qed.

Lemma read_varint_no_panic (k : nat) (buf : list Z) (i acc shift : Z) : read_varint_loop k buf i acc shift <> Err Panic.
Proof.
  revert i acc shift. induction k as [|k IH]; intros i acc shift; [done|]. cbn [read_varint_loop].
  destruct (get_byte buf i); [|done]. destruct (_ =? 0); [done|]. apply IH.
Qed.

Lemma slice_Ok (buf : list Z) (i j : Z) (b : list Z) : slice buf i j = Ok b -> i <= j <= Z.of_nat (length buf).
Proof. unfold slice. destruct (_ && _) eqn:E; [|done]. intros _. apply andb_true_iff in E as [?%Z.leb_le ?%Z.leb_le]. lia. Qed.

Lemma read_field_advances (buf : list Z) (i j : Z) (f : Field) : 0 <= i -> read_field buf i = Ok (f, j) ->
  i < j <= Z.of_nat (length buf).
Proof.
  intros Hi. unfold read_field. destruct (read_varint buf i) as [[tag i1]|] eqn:E1; [|done]. cbn [result_bind].
  apply read_varint_bounds in E1 as [E1 _]; [|done].
  destruct (_ =? 0); [|destruct (_ =? 2); [|destruct (_ =? 5); [|destruct (_ =? 1); [|done]]]].
  - destruct (read_varint buf i1) as [[v i2]|] eqn:E2; [|done]. cbn [result_bind]. intros [= <- <-].
    apply read_varint_bounds in E2 as [E2 _]; lia.
  - destruct (read_varint buf i1) as [[v i2]|] eqn:E2; [|done]. cbn [result_bind].
    apply read_varint_bounds in E2 as [E2 _]; [|lia]. destruct (_ <? _); [done|].
    destruct (slice _ _ _) as [b|] eqn:E3; [|done]. cbn [result_bind]. intros [= <- <-]. apply slice_Ok in E3. lia.
  - destruct (_ <? _); [done|]. destruct (slice _ _ _) as [b|] eqn:E3; [|done]. cbn [result_bind]. intros [= <- <-].
    apply slice_Ok in E3. lia.
  - destruct (_ <? _); [done|]. destruct (slice _ _ _) as [b|] eqn:E3; [|done]. cbn [result_bind]. intros [= <- <-].
    apply slice_Ok in E3. lia.
Qed.

Lemma iter_fields_terminates (fuel : nat) (buf : list Z) : forall i : Z, 0 <= i <= Z.of_nat (length buf) ->
  Z.of_nat (length buf) - i < Z.of_nat fuel ->
  exists r, forall more : nat, iter_fields (fuel + more) buf i = Some r.
Proof.
  induction fuel as [|fuel IH]; intros i Hi Hf; [lia|]. cbn [Nat.add iter_fields].
  destruct (Z.ltb_spec i (Z.of_nat (length buf))); [|by eexists].
  destruct (read_field buf i) as [[f j]|e] eqn:E; [|by eexists]. apply read_field_advances in E; [|lia].
  destruct (IH j) as [r Hr]; [lia|lia|]. destruct r as [fs|e]; eexists; intros more; by rewrite Hr.
Qed.

(** The length-delimited field at [i] declares a length whose end passes [2^64]. *)
Definition length_overflows (buf : list Z) (i : Z) : Prop :=
  exists tag i1 len i2, read_varint buf i = Ok (tag, i1) /\ Z.land tag 7 = 2 /\
    read_varint buf i1 = Ok (len, i2) /\ 2 ^ 64 <= i2 + len.

Lemma read_field_panics (buf : list Z) (i : Z) : 0 <= i -> Z.of_nat (length buf) <= i64_max ->
  read_field buf i = Err Panic <-> length_overflows buf i.
Proof.
  intros Hi Hl. unfold length_overflows, i64_max in *. split.
  - unfold read_field. destruct (read_varint buf i) as [[tag i1]|e] eqn:E1.
    2: { intros [= ->]. by apply read_varint_no_panic in E1. }
    cbn [result_bind]. pose proof E1 as E1'. apply read_varint_bounds in E1' as [E1' _]; [|done].
    destruct (_ =? 0); [|destruct (_ =? 2) eqn:Ew; [|destruct (_ =? 5); [|destruct (_ =? 1); [|done]]]].
    + destruct (read_varint buf i1) as [[v i2]|e] eqn:E2; [done|]. intros [= ->]. by apply read_varint_no_panic in E2.
    + destruct (read_varint buf i1) as [[len i2]|e] eqn:E2.
      2: { intros [= ->]. by apply read_varint_no_panic in E2. }
      cbn [result_bind]. pose proof E2 as E2'. apply read_varint_bounds in E2' as [E2' Hlen]; [|lia].
      destruct (Z.ltb_spec (Z.of_nat (length buf)) (as_u64 (i2 + len))) as [|Hs]; [done|].
      unfold slice. destruct ((i2 <=? as_u64 (i2 + len)) && _) eqn:Es; [done|]. intros _.
      exists tag, i1, len, i2. split_and!; [done|by apply Z.eqb_eq|done|].
      destruct (Z_lt_le_dec (i2 + len) (2 ^ 64)) as [Hlt|]; [|done]. unfold in_u64, u64_max in Hlen.
      rewrite as_u64_id in Es, Hs by (unfold in_u64, u64_max; lia).
      apply andb_false_iff in Es as [?%Z.leb_gt|?%Z.leb_gt]; lia.
    + destruct (Z.ltb_spec (Z.of_nat (length buf)) (i1 + 4)); [done|]. unfold slice.
      by rewrite (proj2 (Z.leb_le _ _)), (proj2 (Z.leb_le _ _)) by lia.
    + destruct (Z.ltb_spec (Z.of_nat (length buf)) (i1 + 8)); [done|]. unfold slice.
      by rewrite (proj2 (Z.leb_le _ _)), (proj2 (Z.leb_le _ _)) by lia.
  - intros (tag & i1 & len & i2 & E1 & Ew & E2 & Hov). unfold read_field. rewrite E1. cbn [result_bind].
    rewrite Ew. cbn [Z.eqb Pos.eqb]. rewrite E2. cbn [result_bind].
    apply read_varint_bounds in E1 as [E1 _]; [|done]. apply read_varint_bounds in E2 as [E2 Hlen]; [|lia].
    unfold in_u64, u64_max in Hlen. assert (Hw : as_u64 (i2 + len) = i2 + len - 2 ^ 64).
    { unfold as_u64, wrap_u. symmetry. apply (Z.mod_unique _ _ 1); lia. }
    rewrite Hw. rewrite (proj2 (Z.ltb_ge _ _)) by lia. unfold slice.
    by rewrite (proj2 (Z.leb_gt i2 _)) by lia.
Qed.

Lemma iter_fields_panics (fuel : nat) (buf : list Z) : Z.of_nat (length buf) <= i64_max -> forall i : Z, 0 <= i ->
  iter_fields fuel buf i = Some (Err Panic) -> exists j, i <= j < Z.of_nat (length buf) /\ length_overflows buf j.
Proof.
  intros Hl. induction fuel as [|fuel IH]; intros i Hi; [done|]. cbn [iter_fields].
  destruct (Z.ltb_spec i (Z.of_nat (length buf))); [|done].
  destruct (read_field buf i) as [[f j]|e] eqn:E.
  - pose proof (read_field_advances _ _ _ _ Hi E). destruct (iter_fields fuel buf j) as [[fs|e]|] eqn:Er; [done| |done].
    intros [= ->]. destruct (IH j ltac:(lia) Er) as (k & Hk & Ho). exists k. split; [lia|done].
  - intros [= ->]. exists i. split; [lia|]. by apply read_field_panics.
Qed.

Lemma iter_protobuf_fuel (buf : list Z) (fuel : nat) : (length buf < fuel)%nat ->
  iter_fields fuel buf 0 = Some (iter_protobuf_fields buf).
Proof.
  intros Hf. destruct (iter_fields_terminates (S (length buf)) buf 0) as [r Hr]; [lia|lia|].
  pose proof (Hr 0%nat) as E. rewrite Nat.add_0_r in E. unfold iter_protobuf_fields. rewrite E. cbn [default].
  replace fuel with (S (length buf) + (fuel - S (length buf)))%nat by lia. apply Hr.
Qed.

(** the wire reader ends on every buffer, after at most one field per byte, with fields, an error or a panic; it can panic only where a
    length-delimited field declares a length that carries the index past [2^64], and does when the first field is one. *)
Theorem wire_reader_total (buf : list Z) : Z.of_nat (length buf) <= i64_max ->
  (forall fuel : nat, (length buf < fuel)%nat -> iter_fields fuel buf 0 = Some (iter_protobuf_fields buf)) /\
  (iter_protobuf_fields buf = Err Panic -> exists i, 0 <= i < Z.of_nat (length buf) /\ length_overflows buf i) /\
  (length_overflows buf 0 -> iter_protobuf_fields buf = Err Panic).
Proof.
  intros Hl. pose proof (iter_protobuf_fuel buf (S (length buf)) ltac:(lia)) as Hf.
  split_and!; [intros fuel; apply iter_protobuf_fuel| |].
  - intros Hp. rewrite Hp in Hf. by apply iter_fields_panics in Hf.
  - intros Ho. assert (Hne : 0 < Z.of_nat (length buf)).
    { destruct Ho as (tag & i1 & len & i2 & E & _). apply read_varint_bounds in E; lia. }
    cbn [iter_fields] in Hf. rewrite (proj2 (Z.ltb_lt _ _)) in Hf by done.
    apply read_field_panics in Ho; [|lia|done]. rewrite Ho in Hf. by injection Hf.
Qed.

(** Field 1, wire type 2, of length [2^64 - 1]. *)
Definition crafted : list Z := 10 :: repeat 255 9 ++ [1].

Lemma crafted_overflows : length_overflows crafted 0.
Proof. exists 10, 1, (2 ^ 64 - 1), 11. split_and!; [reflexivity|reflexivity|reflexivity|lia]. Qed.

Lemma wire_reader_total_witness : iter_protobuf_fields crafted = Err Panic.
Proof. destruct (wire_reader_total crafted) as (_ & _ & H); [by compute|]. apply H, crafted_overflows. Defined.

(** An export in which an account or the message itself has such a length panics the import. *)
Lemma crafted_export_panics `{OtpLibs, ImportLibs} (payload data : string) (raw : list Z) :
  migration_data payload = Ok data -> b64_decode_loose (percent_decode data) = Some raw ->
  Z.of_nat (length raw) <= i64_max -> length_overflows raw 0 -> parse_migration_payload payload = Err Panic.
Proof.
  intros Hd Hr Hl Ho. unfold parse_migration_payload. rewrite Hd. cbn [result_bind]. rewrite Hr. cbn [ok_or result_bind].
  pose proof (iter_protobuf_fuel raw (S (length raw)) ltac:(lia)) as Hf. cbn [iter_fields] in Hf.
  rewrite (proj2 (Z.ltb_lt _ _)) in Hf.
  2: { destruct Ho as (tag & i1 & len & i2 & E & _). apply read_varint_bounds in E; lia. }
  apply read_field_panics in Ho; [|lia|done]. rewrite Ho in Hf. injection Hf as Hf. by rewrite <-Hf.
Qed.

(** ** What an import yields *)

Class ImportLaws `{ImportLibs} : Prop := {
  b64_standard_bytes : forall s l, b64_standard s = Some l -> Forall is_byte l;
  b64_url_safe_bytes : forall s l, b64_url_safe s = Some l -> Forall is_byte l;
}.

(** De-duplication keeps the first entry of each key. *)
Lemma dedupe_from_spec `{ImportLibs} (es : list ImportEntry) : forall seen,
  NoDup (entry_key <$> dedupe_from seen es) /\
  (forall e, e ∈ dedupe_from seen es -> e ∈ es /\ entry_key e ∉ seen) /\
  (forall e, e ∈ es -> entry_key e ∉ seen -> entry_key e ∈ entry_key <$> dedupe_from seen es).
Proof.
  induction es as [|a es IH]; intros seen; cbn [dedupe_from].
  { split_and!; [constructor| |]; intros e He; by apply elem_of_nil in He. }
  case_bool_decide as Ha.
  - destruct (IH seen) as (H1 & H2 & H3). split_and!; [done| |].
    + intros e He. destruct (H2 e He). split; [by right|done].
    + intros e [->|He]%elem_of_cons Hs; [done|]. by apply H3.
  - destruct (IH ({[entry_key a]} ∪ seen)) as (H1 & H2 & H3). rewrite fmap_cons. split_and!.
    + constructor; [|done]. intros (e & He & Hin)%list_elem_of_fmap. apply H2 in Hin as [_ Hin].
      apply Hin, elem_of_union_l, elem_of_singleton. done.
    + intros e [->|He]%elem_of_cons; [split; [by left|done]|]. apply H2 in He as [? [_ ?]%not_elem_of_union]. split; [by right|done].
    + intros e [->|He]%elem_of_cons Hs; [by left|].
      destruct (decide (entry_key e = entry_key a)) as [->|Hne]; [by left|]. right. apply H3; [done|].
      apply not_elem_of_union. split; [by rewrite elem_of_singleton|done].
Qed.

Section imported.
Context `{OtpLaws, ImportLaws}.

(** The type of an entry, beyond its fields' types. *)
Definition entry_ok (e : ImportEntry) : Prop :=
  normalize_base32 (secret e) = Some (secret e) /\
  (exists key, seed_key (secret e) = Some key /\ key <> []) /\
  algorithm e ∈ ["SHA1"; "SHA256"; "SHA512"] /\ (digits e = 6 \/ digits e = 8) /\ 0 < period e <= i64_max.

Lemma base32_seed (s : string) (key : list Z) : base32_decode s = Some key -> key <> [] ->
  normalize_base32 s = Some s /\ seed_key s = Some key.
Proof.
  intros Hd Hne. pose proof (decoded_alphabet _ _ Hd) as Ha. split.
  - unfold normalize_base32. rewrite (drop_chars_base32 _ _ not_dash Ha), unpad_upper_base32 by done.
    destruct (is_empty s) eqn:Ee; [|by rewrite Hd]. apply is_empty_spec in Ee as ->. exfalso. apply Hne.
    rewrite <-base32_empty, base32_round_trip in Hd by constructor. by injection Hd.
  - unfold seed_key. by rewrite drop_chars_base32, unpad_upper_base32.
Qed.

Lemma normalized_ok (raw s : string) : normalize_base32 raw = Some s ->
  normalize_base32 s = Some s /\ exists key, seed_key s = Some key /\ key <> [].
Proof.
  intros Hn. destruct (normalized_seed _ _ Hn) as (Ha & key & Hk & Hne).
  assert (Hd : base32_decode s = Some key) by (unfold seed_key in Hk; by rewrite drop_chars_base32, unpad_upper_base32 in Hk).
  split; [by eapply base32_seed|by exists key].
Qed.

Lemma parse_i64_range (s : string) (z : Z) : parse_i64 s = Some z -> in_i64 z.
Proof.
  unfold parse_i64. destruct (match strip_prefix "-" s with Some _ => _ | None => _ end) as [x|]; [|done].
  case_bool_decide; [|done]. by intros [= <-].
Qed.

Lemma uri_entry_ok (uri : string) (e : ImportEntry) : parse_otpauth_uri uri = Ok (Some e) -> entry_ok e.
Proof.
  unfold parse_otpauth_uri, fail. destruct (url_parse uri) as [u|]; [|done]. cbn [ok_or result_bind].
  destruct (negb _); [done|]. destruct (str_eqb _ "hotp"); [done|]. destruct (negb _); [done|].
  destruct (is_empty _); [done|]. destruct (normalize_base32 _) as [s|] eqn:En; [|done]. cbn [ok_or result_bind].
  generalize (query_get "algorithm" (u_query u)) (query_get "digits" (u_query u)) (query_get "period" (u_query u)).
  intros alg dig per. destruct (issuer_label _ _) as [iss lab]. intros He%Ok_inj%Some_inj. subst e.
  destruct (normalized_ok _ _ En) as [Hs Hk]. split_and!; cbn; [done|done| | | |].
  - destruct alg as [a|]; cbn; [|by left]. destruct (str_eqb _ "SHA256") eqn:E1; cbn.
    + apply str_eqb_eq in E1 as ->. right. by left.
    + destruct (str_eqb _ "SHA512") eqn:E2; [|by left]. apply str_eqb_eq in E2 as ->. do 2 right. by left.
  - destruct (dig ≫= parse_i64) as [d|]; [|by left]. destruct (Z.eqb_spec d 6) as [->|]; [by left|].
    destruct (Z.eqb_spec d 8) as [->|]; [by right|by left].
  - destruct (per ≫= parse_i64) as [p|]; [|lia]. destruct (Z.ltb_spec 0 p); lia.
  - destruct per as [x|]; cbn; [|by compute]. destruct (parse_i64 x) as [p|] eqn:Ep; [|by compute].
    apply parse_i64_range in Ep. unfold in_i64 in Ep. destruct (0 <? p); [lia|by compute].
Qed.

Lemma slice_bytes (buf : list Z) (i j : Z) (b : list Z) : Forall is_byte buf -> slice buf i j = Ok b -> Forall is_byte b.
Proof. intros Hb. unfold slice. destruct (_ && _); [|done]. intros [= <-]. by apply Forall_take, Forall_drop. Qed.

Definition field_bytes (f : Field) : Prop := match snd f with Bytes b => Forall is_byte b | _ => True end.

Lemma read_field_bytes (buf : list Z) (i j : Z) (f : Field) : Forall is_byte buf -> read_field buf i = Ok (f, j) -> field_bytes f.
Proof.
  intros Hb. unfold read_field. destruct (read_varint buf i) as [[tag i1]|]; [|done]. cbn [result_bind].
  destruct (_ =? 0); [|destruct (_ =? 2); [|destruct (_ =? 5); [|destruct (_ =? 1); [|done]]]].
  - destruct (read_varint buf i1) as [[v i2]|]; [|done]. by intros [= <- <-].
  - destruct (read_varint buf i1) as [[v i2]|]; [|done]. cbn [result_bind]. destruct (_ <? _); [done|].
    destruct (slice _ _ _) as [b|] eqn:E; [|done]. intros [= <- <-]. by eapply slice_bytes.
  - destruct (_ <? _); [done|]. destruct (slice _ _ _); [|done]. by intros [= <- <-].
  - destruct (_ <? _); [done|]. destruct (slice _ _ _); [|done]. by intros [= <- <-].
Qed.

Lemma iter_fields_bytes (fuel : nat) (buf : list Z) : Forall is_byte buf -> forall i fs,
  iter_fields fuel buf i = Some (Ok fs) -> Forall field_bytes fs.
Proof.
  intros Hb. induction fuel as [|fuel IH]; intros i fs; [done|]. cbn [iter_fields].
  destruct (_ <? _); [|by intros [= <-]]. destruct (read_field buf i) as [[f j]|] eqn:E; [|done].
  destruct (iter_fields fuel buf j) as [[gs|]|] eqn:Er; try done. intros [= <-].
  constructor; [by eapply read_field_bytes|by eapply IH].
Qed.

Lemma iter_protobuf_bytes (buf : list Z) (fs : list Field) : Forall is_byte buf ->
  iter_protobuf_fields buf = Ok fs -> Forall field_bytes fs.
Proof.
  intros Hb Hi. pose proof (iter_protobuf_fuel buf (S (length buf)) ltac:(lia)) as Hf. rewrite Hi in Hf.
  by eapply iter_fields_bytes.
Qed.

(** What the fold over an account's fields keeps. *)
Definition params_typed (p : OtpParameters) : Prop :=
  match p_secret p with Some b => Forall is_byte b | None => True end /\
  p_algorithm p ∈ ["SHA1"; "SHA256"; "SHA512"] /\ (p_digits p = 6 \/ p_digits p = 8).

Lemma otp_field_typed (p : OtpParameters) (f : Field) : field_bytes f -> params_typed p -> params_typed (otp_field p f).
Proof.
  destruct p as [s n i a d t], f as [[num wire] [v|b|v]]; unfold field_bytes, params_typed; cbn; intros Hb (P1 & P2 & P3).
  - destruct (_ =? 0); [|done]. destruct (_ =? 4); [cbn|destruct (_ =? 5); [cbn|by destruct (_ =? 6)]].
    + split_and!; [done| |done]. destruct (_ =? 2); [right; by left|]. destruct (_ =? 3); [do 2 right; by left|by left].
    + split_and!; [done|done|]. destruct (_ =? 2); auto.
  - destruct (_ =? 2); [|done]. destruct (_ =? 1); [done|]. destruct (_ =? 2); [done|]. by destruct (_ =? 3).
  - done.
Qed.

Lemma otp_fields_typed (fs : list Field) (p : OtpParameters) : Forall field_bytes fs -> params_typed p ->
  params_typed (foldl otp_field p fs).
Proof.
  intros Hf. revert p. induction Hf as [|f fs Hb _ IH]; intros p Hp; [done|]. cbn [foldl].
  apply IH. by apply otp_field_typed.
Qed.

Lemma otp_parameters_ok (buf : list Z) (e : ImportEntry) : Forall is_byte buf ->
  parse_otp_parameters buf = Ok (Some e) -> entry_ok e.
Proof.
  intros Hb. unfold parse_otp_parameters. destruct (iter_protobuf_fields buf) as [fs|[|]] eqn:Ei; [|done..].
  apply iter_protobuf_bytes in Ei; [|done].
  pose proof (otp_fields_typed fs (mkParams None None None "SHA1" 6 2) Ei) as Hp.
  set (p := foldl otp_field _ fs) in *. clearbody p. destruct Hp as (P1 & P2 & P3).
  { split_and!; [done|by left|by left]. }
  destruct (negb _); [done|]. destruct (p_secret p) as [[|b bs]|] eqn:Es; [done| |done].
  intros He%Ok_inj%Some_inj. subst e. pose proof (base32_round_trip _ P1) as Hd.
  destruct (base32_seed _ _ Hd) as [Hn Hk]; [done|].
  split_and!; cbn; [done|by exists (b :: bs)|done|done|lia|by compute].
Qed.

Lemma otp_entries_ok (fs : list Field) : Forall field_bytes fs -> forall es, otp_entries fs = Ok es -> Forall entry_ok es.
Proof.
  induction 1 as [|[[num wire] [v|b|v]] fs Hb _ IH]; intros es; cbn [otp_entries]; [by intros [= <-]|apply IH| |apply IH].
  destruct (_ && _); [|apply IH]. destruct (parse_otp_parameters b) as [o|] eqn:Ep; [|done]. cbn [result_bind].
  destruct (otp_entries fs) as [es'|]; [|done]. cbn [result_bind]. intros [= <-]. specialize (IH es' eq_refl).
  destruct o as [e|]; [|done]. constructor; [|done]. by apply otp_parameters_ok in Ep.
Qed.

Lemma b64_loose_bytes (s : string) (l : list Z) : b64_decode_loose s = Some l -> Forall is_byte l.
Proof.
  unfold b64_decode_loose. destruct (b64_standard _) as [b|] eqn:E.
  - intros [= <-]. by eapply b64_standard_bytes.
  - apply b64_url_safe_bytes.
Qed.

Lemma migration_ok (payload : string) (es : list ImportEntry) : parse_migration_payload payload = Ok es -> Forall entry_ok es.
Proof.
  unfold parse_migration_payload. destruct (migration_data payload) as [d|]; [|done]. cbn [result_bind].
  destruct (b64_decode_loose _) as [raw|] eqn:Er; [|done]. cbn [ok_or result_bind].
  destruct (iter_protobuf_fields raw) as [fs|] eqn:Ei; [|done]. cbn [result_bind].
  destruct (otp_entries fs) as [es'|] eqn:Ee; [|done]. cbn [result_bind].
  apply b64_loose_bytes in Er. apply iter_protobuf_bytes in Ei; [|done]. apply otp_entries_ok in Ee; [|done].
  destruct es'; [done|]. intros [= <-]. done.
Qed.

Lemma batch_ok (r : result (list ImportEntry) Failure) (es : list ImportEntry) (errs : list string) :
  (forall es', r = Ok es' -> Forall entry_ok es') -> batch r = Ok (es, errs) -> Forall entry_ok es.
Proof. destruct r as [es'|[e|]]; intros Hr; [|intros [= <- _]; constructor|done]. intros [= <- _]. by apply Hr. Qed.

Lemma uris_ok (uris : list string) : forall es errs, parse_uris uris = Ok (es, errs) -> Forall entry_ok es.
Proof.
  induction uris as [|u us IH]; intros es errs; cbn [parse_uris]; [by intros [= <- _]|].
  destruct (parse_uri u) as [[es1 errs1]|] eqn:Eu; [|done]. cbn [result_bind].
  destruct (parse_uris us) as [[es2 errs2]|]; [|done]. cbn [result_bind]. intros [= <- _].
  apply Forall_app. split; [|by eapply IH]. unfold parse_uri in Eu. destruct (is_empty _); [by injection Eu as <- _|].
  destruct (starts_with _ _); (eapply batch_ok; [|exact Eu]); [exact (migration_ok _)|].
  intros es' Hes. destruct (parse_otpauth_uri _) as [[e|]|] eqn:Ee; [| |done]; apply Ok_inj in Hes; subst es'.
  - apply Forall_singleton. by eapply uri_entry_ok.
  - constructor.
Qed.

(** C34: whatever mix of URIs and exports is given, what is staged is well-formed: between 1 and 200 entries, no two with the same seed, issuer
    and account up to case, each with a canonical base32 seed of a non-empty key, a known hash, six or eight digits and a
    positive period; and every one of them mints a code of its length at any time. *)
Theorem imported_entries_ok (uris : list string) (migration : option string) (es : list ImportEntry) :
  (forall a k m, is_Some (hmac a k m)) -> parse_payloads uris migration = Ok es ->
  (0 < length es <= MAX_ENTRIES)%nat /\ NoDup (entry_key <$> es) /\ Forall entry_ok es /\
  forall e t, e ∈ es -> exists code, mint_totp_at (secret e) (digits e) (period e) (algorithm e) t = Ok code /\ str_len code = digits e.
Proof.
  intros Hh. unfold parse_payloads. destruct (parse_uris uris) as [[es1 errs1]|] eqn:Eu; [|done]. cbn [result_bind].
  destruct (match migration with Some _ => _ | None => _ end) as [[es2 errs2]|] eqn:Em; [|done]. cbn [result_bind].
  assert (Hall : Forall entry_ok (es1 ++ es2)).
  { apply Forall_app. split; [by eapply uris_ok|]. destruct migration as [p|]; [|by injection Em as <- _].
    destruct (is_empty _); [by injection Em as <- _|]. eapply batch_ok; [exact (migration_ok (trim p))|exact Em]. }
  destruct (dedupe_from_spec (es1 ++ es2) ∅) as (Hnd & Hsub & _). unfold dedupe.
  destruct (dedupe_from ∅ (es1 ++ es2)) as [|e0 d] eqn:Ed; [done|]. rewrite <-Ed in *.
  destruct (Nat.ltb_spec MAX_ENTRIES (length (dedupe_from ∅ (es1 ++ es2)))); [done|]. intros [= <-].
  assert (Hok : Forall entry_ok (dedupe_from ∅ (es1 ++ es2))).
  { rewrite Forall_forall in Hall |- *. intros e He. by apply Hall, Hsub. }
  split_and!; [rewrite Ed; simpl; lia|done|done|done|].
  intros e t He. rewrite Forall_forall in Hok. destruct (Hok e He) as (_ & (key & Hk & Hne) & _ & Hd & _).
  destruct (Hh (algorithm_of (algorithm e)) key (counter_bytes (time_step (period e) t))) as [mac Hm].
  destruct (mint_code (secret e) (algorithm e) (digits e) (period e) t key mac Hk Hne Hm) as (code & Hc & Hl & _).
  exists code. split; [done|]. rewrite Hl. by destruct Hd as [-> | ->].
Qed.
End imported.

(** ** Examples *)

(** One URL, and two letters a byte for base64. *)
#[export] Instance demo_import : ImportLibs := {|
  url_parse := fun s =>
    if str_eqb s "otpauth://totp/Acme:me?secret=haha&digits=8"
    then Some (mkUrl "otpauth" (Some "totp") "/Acme:me" [("secret", "haha"); ("digits", "8")]) else None;
  b64_standard := fun s => un_nibbles (trim_end_by (byte_is "=") s);
  b64_url_safe := fun s => None;
  to_lowercase := to_ascii_lowercase;
|}.

#[export] Instance demo_import_laws : ImportLaws.
Proof.
  split; [|done]. intros s l Hs. by apply (nibbles_un_nibbles _ _ l (le_n _)) in Hs as [? _].
Qed.

Definition demo_uris : list string := [" otpauth://totp/Acme:me?secret=haha&digits=8"; "otpauth://totp/Acme:me?secret=haha&digits=8"; ""].
Definition demo_entry : ImportEntry := mkEntry "HAHA" (Some "Acme") (Some "me") "SHA1" 8 30.

Lemma imported_entries_ok_witness :
  entry_ok demo_entry /\ exists code, mint_totp_at "HAHA" 8 30 "SHA1" 1000 = Ok code /\ str_len code = 8.
Proof.
  destruct (imported_entries_ok demo_uris None [demo_entry]) as (_ & _ & H3 & H4).
  - intros a k m. eexists. reflexivity.
  - vm_compute. reflexivity.
  - split; [by apply Forall_inv in H3|]. apply (H4 demo_entry 1000). by left.
Defined.

(** An eleven-byte message panics the import. *)
Example crafted_panics : parse_payloads [] (Some (nibbles crafted)) = Err Panic.
Proof. vm_compute. reflexivity. Qed.
