(* ===== verification/AuthStage.v ===== *)
(** * local/authenticator_import.rs: the staging of an import between preview and commit

    The process-wide map of staged imports, by token. Clock readings are arguments, in seconds; the order in which a
    [HashMap] iterates is a parameter, any permutation of the map's entries. *)

From Stdlib Require Import Ascii String.
From S2P Require Import Prelude Ints Str AuthImport.
Open Scope string_scope.
Open Scope Z_scope.

Record Staged : Type := mkStaged { entries : list ImportEntry; expires_at : Z }.
Notation Stage := (gmap string Staged).

(** [map.retain(|_, s| s.expires_at > now)] *)
Definition unexpired (now : Z) (m : Stage) : Stage := filter (fun kv => now < expires_at (snd kv)) m.

Section staging.
Context (iter : Stage -> list (string * Staged)).

(** The loop that makes room, with the map's size as fuel. *)
Fixpoint make_room (fuel : nat) (m : Stage) : Stage :=
  match fuel with
  | O => m
  | S f =>
      if (MAX_STAGED <=? size m)%nat then
        match min_by_key (fun kv => expires_at (snd kv)) (iter m) with
        | Some (oldest, _) => make_room f (delete oldest m)
        | None => m
        end
      else m
  end.

Definition stage_entries (token : string) (es : list ImportEntry) (now : Z) (m : Stage) : Stage :=
  let m := unexpired now m in
  <[token := mkStaged es (now + STAGE_TTL)]> (make_room (size m) m).

Definition load_staged (token : string) (now : Z) (m : Stage) : option (list ImportEntry) * Stage :=
  if is_empty token then (None, m)
  else let m := unexpired now m in (entries <$> m !! token, m).

Definition consume_staged (token : string) (m : Stage) : Stage := delete token m.

(** A history of calls. *)
Inductive StageOp : Type :=
| OpStage (token : string) (es : list ImportEntry) (now : Z)
| OpLoad (token : string) (now : Z)
| OpConsume (token : string).

Definition run_op (m : Stage) (o : StageOp) : Stage :=
  match o with
  | OpStage t es now => stage_entries t es now m
  | OpLoad t now => snd (load_staged t now m)
  | OpConsume t => consume_staged t m
  end.
Definition run_ops (m : Stage) (os : list StageOp) : Stage := foldl run_op m os.

Context (iter_perm : forall m, iter m ≡ₚ map_to_list m).

(** ** Room *)

Lemma unexpired_Some (now : Z) (m : Stage) (t : string) (s : Staged) :
  unexpired now m !! t = Some s <-> m !! t = Some s /\ now < expires_at s.
Proof. unfold unexpired. by rewrite map_lookup_filter_Some. Qed.

Lemma oldest_spec (m : Stage) (t : string) (s : Staged) :
  min_by_key (fun kv => expires_at (snd kv)) (iter m) = Some (t, s) ->
  m !! t = Some s /\ forall t' s', m !! t' = Some s' -> expires_at s <= expires_at s'.
Proof.
  intros [Hin Hmin]%min_by_key_Some. rewrite iter_perm, elem_of_map_to_list in Hin. split; [done|].
  intros t' s' Ht'. rewrite Forall_forall in Hmin. apply (Hmin (t', s')). by rewrite iter_perm, elem_of_map_to_list.
Qed.

Lemma oldest_exists (m : Stage) : (0 < size m)%nat -> min_by_key (fun kv => expires_at (snd kv)) (iter m) <> None.
Proof.
  intros Hm. assert (Hl : length (iter m) = size m) by (rewrite iter_perm; apply length_map_to_list).
  destruct (iter m) as [|kv l]; [simpl in Hl; lia|]. simpl. by destruct (min_by_key _ l).
Qed.

Lemma make_room_small (fuel : nat) (m : Stage) : (size m <= fuel)%nat -> (size (make_room fuel m) < MAX_STAGED)%nat.
Proof.
  revert m. induction fuel as [|fuel IH]; intros m Hm; cbn [make_room]; [unfold MAX_STAGED; lia|].
  destruct (Nat.leb_spec MAX_STAGED (size m)) as [Hle|]; [|done].
  pose proof (oldest_exists m) as Ho. destruct (min_by_key _ _) as [[t s]|] eqn:E.
  - apply oldest_spec in E as [Ht _]. apply IH. rewrite map_size_delete_Some by eauto. lia.
  - exfalso. by apply Ho; [unfold MAX_STAGED in Hle; lia|].
Qed.

Lemma run_op_bounded (m : Stage) (o : StageOp) : (size m <= MAX_STAGED)%nat -> (size (run_op m o) <= MAX_STAGED)%nat.
Proof.
  intros Hm. assert (Hu : forall now, (size (unexpired now m) <= MAX_STAGED)%nat).
  { intros now. etrans; [|exact Hm]. apply map_subseteq_size, map_filter_subseteq. }
  destruct o as [t es now|t now|t]; cbn.
  - unfold stage_entries. rewrite map_size_insert.
    pose proof (make_room_small _ (unexpired now m) (le_n _)). case_match; unfold id; lia.
  - unfold load_staged. destruct (is_empty t); [done|apply Hu].
  - etrans; [|exact Hm]. apply map_subseteq_size, delete_subseteq.
Qed.

(** ** The life of a token *)

(** [tok] holds [es] until [x]; at most [k] other entries expire later, and none at the same time. *)
Definition staged_as (tok : string) (es : list ImportEntry) (x : Z) (k : nat) (m : Stage) : Prop :=
  m !! tok = Some (mkStaged es x) /\
  (size (filter (fun kv => (x < expires_at (snd kv))%Z) m) <= k)%nat /\
  forall t s, m !! t = Some s -> t <> tok -> expires_at s <> x.

Lemma newer_subseteq (x : Z) (m m' : Stage) : m' ⊆ m ->
  (size (filter (fun kv => (x < expires_at (snd kv))%Z) m') <= size (filter (fun kv => (x < expires_at (snd kv))%Z) m))%nat.
Proof. intros Hs. apply map_subseteq_size. by apply map_filter_subseteq_mono. Qed.

Lemma staged_as_subseteq (tok : string) (es : list ImportEntry) (x : Z) (k : nat) (m m' : Stage) :
  m' ⊆ m -> is_Some (m' !! tok) -> staged_as tok es x k m -> staged_as tok es x k m'.
Proof.
  intros Hs [s Ht] (H1 & H2 & H3). pose proof (lookup_weaken _ _ _ _ Ht Hs) as Ht'. split_and!; [congruence| |].
  - etrans; [by apply newer_subseteq|done].
  - intros t s' Hl. apply H3. by eapply lookup_weaken.
Qed.

Lemma staged_unexpired (tok : string) (es : list ImportEntry) (x now : Z) (k : nat) (m : Stage) :
  now < x -> staged_as tok es x k m -> staged_as tok es x k (unexpired now m).
Proof.
  intros Hn Hs. apply (staged_as_subseteq _ _ _ _ m); [apply map_filter_subseteq| |done].
  exists (mkStaged es x). apply unexpired_Some. split; [apply Hs|done].
Qed.

(** The oldest of sixteen is another entry, while fewer than fifteen are newer. *)
Lemma oldest_is_other (tok : string) (es : list ImportEntry) (x : Z) (k : nat) (m : Stage) (s : Staged) :
  staged_as tok es x k m -> (k < 15)%nat -> (MAX_STAGED <= size m)%nat ->
  min_by_key (fun kv => expires_at (snd kv)) (iter m) <> Some (tok, s).
Proof.
  intros (Ht & Hk & Hx) Hlt Hm [Hs Hmin]%oldest_spec. rewrite Ht in Hs. injection Hs as <-. cbn in Hmin.
  assert (Hd : delete tok m ⊆ filter (fun kv => (x < expires_at (snd kv))%Z) m).
  { apply map_subseteq_spec. intros t s [Hne Hl]%lookup_delete_Some. apply map_lookup_filter_Some. split; [done|].
    cbn. pose proof (Hmin t s Hl). assert (expires_at s <> x) by (eapply Hx; [exact Hl|done]). lia. }
  apply map_subseteq_size in Hd. rewrite map_size_delete_Some in Hd by eauto. unfold MAX_STAGED in Hm. lia.
Qed.

Lemma staged_make_room (tok : string) (es : list ImportEntry) (x : Z) (k fuel : nat) (m : Stage) :
  (k < 15)%nat -> staged_as tok es x k m -> staged_as tok es x k (make_room fuel m).
Proof.
  intros Hk. revert m. induction fuel as [|fuel IH]; intros m Hs; cbn [make_room]; [done|].
  destruct (Nat.leb_spec MAX_STAGED (size m)) as [Hle|]; [|done].
  destruct (min_by_key _ _) as [[t s]|] eqn:E; [|done]. apply IH.
  destruct (decide (t = tok)) as [->|Hne]; [by apply (oldest_is_other tok es x k m s) in E|].
  apply (staged_as_subseteq _ _ _ _ m); [apply delete_subseteq| |done]. destruct Hs as [Ht _].
  rewrite lookup_delete_ne by done. by rewrite Ht.
Qed.

Lemma newer_insert (x y : Z) (t : string) (es : list ImportEntry) (m : Stage) :
  (size (filter (fun kv => (x < expires_at (snd kv))%Z) (<[t := mkStaged es y]> m))
   <= S (size (filter (fun kv => (x < expires_at (snd kv))%Z) m)))%nat.
Proof.
  assert (Hs : filter (fun kv => (x < expires_at (snd kv))%Z) (<[t := mkStaged es y]> m)
               ⊆ <[t := mkStaged es y]> (filter (fun kv => (x < expires_at (snd kv))%Z) m)).
  { apply map_subseteq_spec. intros u s [[[<- <-]|[Hne Hl]]%lookup_insert_Some Hx]%map_lookup_filter_Some.
    - apply lookup_insert_eq.
    - rewrite lookup_insert_ne by done. by apply map_lookup_filter_Some. }
  apply map_subseteq_size in Hs. etrans; [exact Hs|]. rewrite map_size_insert. case_match; unfold id; lia.
Qed.

(** Operations that leave [tok] alone before it expires, at times after it was staged; the number that stage something. *)
Definition leaves (tok : string) (x : Z) (o : StageOp) : Prop :=
  match o with
  | OpStage t _ now => t <> tok /\ x < now + STAGE_TTL /\ now < x
  | OpLoad _ now => now < x
  | OpConsume t => t <> tok
  end.
Definition stagings (os : list StageOp) : nat :=
  length (retain (fun o => match o with OpStage _ _ _ => true | _ => false end) os).

Lemma staged_op (tok : string) (es : list ImportEntry) (x : Z) (k : nat) (m : Stage) (o : StageOp) :
  leaves tok x o -> staged_as tok es x k m -> (k + stagings [o] <= 15)%nat ->
  staged_as tok es x (k + stagings [o]) (run_op m o).
Proof.
  destruct o as [t es' now|t now|t]; cbn -[staged_as stagings]; intros Hl Hs Hk.
  - destruct Hl as (Hne & Hx & Hnow). change (stagings _) with 1%nat in *. unfold stage_entries.
    apply (staged_unexpired _ _ _ now) in Hs; [|done].
    apply (staged_make_room _ _ _ _ (size (unexpired now m))) in Hs; [|lia].
    revert Hs. generalize (make_room (size (unexpired now m)) (unexpired now m)). clear m Hk. intros m (H1 & H2 & H3).
    split_and!; [by rewrite lookup_insert_ne| |].
    + pose proof (newer_insert x (now + STAGE_TTL) t es' m). lia.
    + intros u s [[<- <-]|[_ Hu]]%lookup_insert_Some; [cbn; lia|by apply H3].
  - change (stagings _) with 0%nat. rewrite Nat.add_0_r. unfold load_staged. destruct (is_empty t); [done|].
    by apply staged_unexpired.
  - change (stagings _) with 0%nat. rewrite Nat.add_0_r. unfold consume_staged.
    apply (staged_as_subseteq _ _ _ _ m); [apply delete_subseteq| |done].
    rewrite lookup_delete_ne by done. destruct Hs as [Ht _]. by rewrite Ht.
Qed.

Lemma staged_ops (tok : string) (es : list ImportEntry) (x : Z) (os : list StageOp) : Forall (leaves tok x) os ->
  forall (k : nat) (m : Stage), staged_as tok es x k m -> (k + stagings os <= 15)%nat ->
  staged_as tok es x (k + stagings os) (run_ops m os).
Proof.
  induction 1 as [|o os Ho _ IH]; intros k m Hs Hk; [change (stagings []) with 0%nat; by rewrite Nat.add_0_r|].
  assert (E : stagings (o :: os) = (stagings [o] + stagings os)%nat) by (by destruct o).
  rewrite E, Nat.add_assoc in *. apply IH; [|done]. apply staged_op; [done..|lia].
Qed.

(** Nothing but staging it again brings a token back. *)
Definition not_staging (tok : string) (o : StageOp) : Prop := match o with OpStage t _ _ => t <> tok | _ => True end.

Lemma make_room_subseteq (fuel : nat) (m : Stage) : make_room fuel m ⊆ m.
Proof.
  revert m. induction fuel as [|fuel IH]; intros m; cbn [make_room]; [done|].
  destruct (_ <=? _)%nat; [|done]. destruct (min_by_key _ _) as [[t s]|]; [|done].
  etrans; [apply IH|apply delete_subseteq].
Qed.

Lemma run_ops_lookup (tok : string) (os : list StageOp) : Forall (not_staging tok) os -> forall (m : Stage) (s : Staged),
  run_ops m os !! tok = Some s -> m !! tok = Some s.
Proof.
  induction 1 as [|o os Ho _ IH]; intros m s Hm; [done|]. apply IH in Hm. destruct o as [t es' now|t now|t]; cbn in *.
  - unfold stage_entries in Hm. rewrite lookup_insert_ne in Hm by done.
    eapply lookup_weaken in Hm; [|apply make_room_subseteq]. by apply unexpired_Some in Hm as [? _].
  - unfold load_staged in Hm. destruct (is_empty t); [done|]. by apply unexpired_Some in Hm as [? _].
  - unfold consume_staged in Hm. by apply lookup_delete_Some in Hm as [_ ?].
Qed.

(** the staging area never holds more than sixteen imports. A staged import loads, unchanged, until its ten
    minutes are over, as long as it is not consumed and fewer than sixteen others are staged after it (the oldest
    give way, whatever order the map iterates in); consumed or expired, it never loads again. *)
Theorem staged_import_lifetime (m : Stage) (tok : string) (es : list ImportEntry) (now : Z) (os : list StageOp) :
  (size m <= MAX_STAGED)%nat -> tok <> "" ->
  (forall t s, m !! t = Some s -> expires_at s < now + STAGE_TTL) ->
  let m' := run_ops (stage_entries tok es now m) os in
  (size m' <= MAX_STAGED)%nat /\
  (Forall (leaves tok (now + STAGE_TTL)) os -> (stagings os <= 15)%nat ->
     forall t, t < now + STAGE_TTL -> fst (load_staged tok t m') = Some es) /\
  (Forall (not_staging tok) os ->
     (forall t, now + STAGE_TTL <= t -> fst (load_staged tok t m') = None) /\
     forall t, fst (load_staged tok t (run_ops (consume_staged tok (stage_entries tok es now m)) os)) = None).
Proof.
  intros Hm Hne Hold m'. set (m1 := stage_entries tok es now m) in *.
  assert (Hload : forall t n, fst (load_staged tok t n) = entries <$> (unexpired t n !! tok)).
  { intros t n. unfold load_staged. destruct (is_empty tok) eqn:E; [|done]. by destruct tok. }
  assert (Hb : (size m1 <= MAX_STAGED)%nat) by (by apply (run_op_bounded m (OpStage tok es now))).
  split_and!.
  - unfold m'. clear -Hb iter_perm. revert Hb. generalize m1. induction os as [|o os IH]; intros n Hn; [done|].
    apply IH. by apply run_op_bounded.
  - intros Hl Hs t Ht. assert (Hs1 : staged_as tok es (now + STAGE_TTL) 0 m1).
    { assert (Hsub : forall t s, make_room (size (unexpired now m)) (unexpired now m) !! t = Some s -> expires_at s < now + STAGE_TTL).
      { intros u s Hu. eapply lookup_weaken in Hu; [|apply make_room_subseteq]. apply unexpired_Some in Hu as [Hu _]. by eapply Hold. }
      unfold m1, stage_entries. split_and!; [apply lookup_insert_eq| |].
      - rewrite map_empty_filter_2; [by rewrite map_size_empty|].
        intros u s [[<- <-]|[_ Hu]]%lookup_insert_Some; cbn; [lia|]. pose proof (Hsub u s Hu). lia.
      - intros u s [[<- _]|[_ Hu]]%lookup_insert_Some; [done|]. pose proof (Hsub u s Hu). lia. }
    apply (staged_ops _ _ _ os Hl) in Hs1; [|lia]. apply (staged_unexpired _ _ _ t) in Hs1; [|done].
    rewrite Hload. unfold m'. by rewrite (proj1 Hs1).
  - intros Hn. split.
    + intros t Ht. rewrite Hload. destruct (unexpired t m' !! tok) as [s|] eqn:E; [exfalso|done].
      apply unexpired_Some in E as [E Hx]. apply (run_ops_lookup _ _ Hn) in E. unfold m1, stage_entries in E.
      rewrite lookup_insert_eq in E. injection E as <-. cbn in Hx. lia.
    + intros t. rewrite Hload. destruct (unexpired t _ !! tok) as [s|] eqn:E; [exfalso|done].
      apply unexpired_Some in E as [E _]. apply (run_ops_lookup _ _ Hn) in E. unfold consume_staged in E. by rewrite lookup_delete_eq in E.
Qed.
End staging.

Lemma staged_import_lifetime_witness :
  let e := mkEntry "HAHA" None None "SHA1" 6 30 in
  let m := run_ops map_to_list (stage_entries map_to_list "t" [e] 0 ∅) [OpStage "u" [] 1; OpLoad "u" 2; OpConsume "u"] in
  fst (load_staged "t" 599 m) = Some [e] /\ fst (load_staged "t" 600 m) = None.
Proof.
  intros e m. destruct (staged_import_lifetime map_to_list (fun _ => reflexivity _) ∅ "t" [e] 0
    [OpStage "u" [] 1; OpLoad "u" 2; OpConsume "u"]) as (_ & H2 & H3).
  - rewrite map_size_empty. unfold MAX_STAGED. lia.
  - discriminate.
  - intros t s Hs. by rewrite lookup_empty in Hs.
  - split.
    + apply H2; [|vm_compute; lia|reflexivity]. repeat constructor; discriminate || reflexivity.
    + apply H3; [|reflexivity]. repeat constructor; discriminate.
Defined.
