(* ===== verification/VaultRecovery.v ===== *)
(** * local/vault_recovery.rs: the recovery code

    The wrap in the [config] table is the root xored with a key derived from the entropy of a BIP39
    phrase. A [Mnemonic] is represented by its entropy; its words are [mnemonic_from_entropy] and
    [mnemonic_parse]. *)

From Stdlib Require Import Ascii String.
From S2P Require Import Prelude Ints Str Store VaultRoot.
Open Scope Z_scope.
Open Scope store_scope.

Definition CFG_RECOVERY_WRAP : string := "vault_recovery.wrap_b64".
Definition RECOVERY_INFO : string := "writ-recovery-v1".

Section recovery.
Context `{VaultLibs} {S : Type} `{Faulty S, HasConfig S}.

Definition wrap_key_from_mnemonic (entropy : list Z) : RootKey := hkdf entropy RECOVERY_INFO.

Definition b64 (b : list Z) : string := b64_encode (bytes_to_string b).

(** vault_lock.rs has its own copy; [who] is the prefix of the messages. *)
Definition unb64_32 (who s : string) : result RootKey LocalError :=
  match b64_decode s with
  | None => Err (Internal (String.append who ": bad wrap base64"))
  | Some raw =>
      if Nat.eqb (String.length raw) 32 then Ok (string_to_bytes raw)
      else Err (Internal (String.append who ": wrap is not 32 bytes"))
  end.

Definition recovery_is_configured : M S bool :=
  let! w := kv_get CFG_RECOVERY_WRAP in ret (bool_decide (is_Some w)).

(** [entropy] is the fresh randomness. *)
Definition generate_recovery (root : RootKey) (entropy : list Z) : M S string :=
  match mnemonic_from_entropy entropy with
  | None => throw (Internal "recovery: mnemonic gen")
  | Some phrase =>
      let wrap := xor root (wrap_key_from_mnemonic entropy) in
      kv_set CFG_RECOVERY_WRAP (b64 wrap) ;! ret phrase
  end.

Definition restore_from (mnemonic_phrase : string) (expected : option RootKey) : M S RootKey :=
  let! w := kv_get CFG_RECOVERY_WRAP in
  match w with
  | None => throw (BadRequest "no recovery code is configured for this vault")
  | Some wrap_b64 =>
      match mnemonic_parse (trim mnemonic_phrase) with
      | None => throw (BadRequest "recovery code is not a valid mnemonic")
      | Some entropy =>
          let wrap_key := wrap_key_from_mnemonic entropy in
          let! wrap := from_result (unb64_32 "recovery" wrap_b64) in
          let candidate := xor wrap wrap_key in
          match expected with
          | Some exp => if ct_eq candidate exp then ret candidate else throw Unauthorized
          | None => ret candidate
          end
      end
  end.

Definition rewrap_for_new_root (old_root new_root : RootKey) : M S unit :=
  let! w := kv_get CFG_RECOVERY_WRAP in
  match w with
  | None => ret tt
  | Some wrap_b64 =>
      let! stored := from_result (unb64_32 "recovery" wrap_b64) in
      let k := xor old_root stored in
      kv_set CFG_RECOVERY_WRAP (b64 (xor new_root k))
  end.
End recovery.

(** ** Lemmas *)

Section lemmas.
Context `{VaultLaws}.

Lemma unb64_32_b64 (who : string) (r : RootKey) : root_ok r -> unb64_32 who (b64 r) = Ok r.
Proof.
  intros [Hl Hb]. unfold unb64_32, b64. rewrite b64_round_trip, bytes_to_string_length, Hl. simpl.
  by rewrite bytes_to_string_inv.
Qed.

Lemma hkdf_ok (k : list Z) (l : string) : root_ok (hkdf k l).
Proof. split; [apply hkdf_length|apply hkdf_bytes]. Qed.

Lemma ct_eq_refl (r : RootKey) : root_ok r -> ct_eq r r = true.
Proof. intros Hr. by apply root_ct_eq_spec. Qed.

(** The stored wrap is the root under the phrase's entropy. *)
Definition wraps (root : RootKey) (entropy : list Z) (cfg : gmap string string) : Prop :=
  cfg !! CFG_RECOVERY_WRAP = Some (b64 (xor root (wrap_key_from_mnemonic entropy))).

Lemma wraps_ok (root : RootKey) (entropy : list Z) : root_ok root -> root_ok (xor root (wrap_key_from_mnemonic entropy)).
Proof. intros Hr. apply xor_ok; [done|apply hkdf_ok]. Qed.

(** The re-wrap of a wrap of the old root is the wrap of the new. *)
Lemma rewrap_key (old new : RootKey) (k : RootKey) : length old = 32%nat -> length k = 32%nat ->
  xor new (xor old (xor old k)) = xor new k.
Proof.
  intros Ho Hk. f_equal. rewrite (xor_comm old k), (xor_comm old), xor_cancel; [done|congruence].
Qed.
End lemmas.
