(* ===== verification/VaultLock.v ===== *)
(** * local/vault_lock.rs, local/api/v1/vault.rs: the passphrase lock over the vault

    [Daemon] is the lock of the process with the home of VaultRoot.v. Requests run one at a
    time, each with two clock readings in nanoseconds (the second when the state is written) and the
    faults of its database statements. Argon2id is a function: a derivation that fails for want of
    memory fails each time. *)

From Stdlib Require Import Ascii String.
From S2P Require Import Prelude Ints Str Store VaultRoot VaultRecovery.
Open Scope Z_scope.
Open Scope store_scope.

Definition CFG_WRAP : string := "vault_lock.wrap_b64".
Definition CFG_SALT : string := "vault_lock.salt_b64".
Definition CFG_M_COST : string := "vault_lock.m_cost_kib".
Definition CFG_T_COST : string := "vault_lock.t_cost".
Definition CFG_P_COST : string := "vault_lock.p_cost".

Definition ARGON2_M_COST_FULL : Z := 256 * 1024.
Definition ARGON2_M_COST_LOW : Z := 64 * 1024.
Definition ARGON2_T_COST : Z := 3.
Definition ARGON2_P_COST : Z := 1.
Definition DEFAULT_IDLE_SECS : Z := 15 * 60.

(** A second, in nanoseconds. *)
Definition SECOND : Z := 1000000000.

Inductive LockMode : Type := Disabled | Unlocked | Locked_.

#[export] Instance lockmode_eq_dec : EqDecision LockMode.
Proof. solve_decision. Defined.

Record Machine : Type := mkMachine {
  mode : LockMode;
  last_activity : Z;
  idle : Z;
}.

Definition set_mode (v : LockMode) (g : Machine) : Machine := mkMachine v (last_activity g) (idle g).
Definition set_last_activity (v : Z) (g : Machine) : Machine := mkMachine (mode g) v (idle g).
Definition set_idle (v : Z) (g : Machine) : Machine := mkMachine (mode g) (last_activity g) v.

Record LockStatus : Type := mkStatus {
  enabled : bool;
  locked : bool;
  idle_timeout_secs : Z;
}.

(** [Instant::elapsed] saturates. *)
Definition elapsed (now last : Z) : Z := Z.max 0 (now - last).

Definition disabled (now : Z) : Machine := mkMachine Disabled now (DEFAULT_IDLE_SECS * SECOND).

Definition is_locked (now now' : Z) (g : Machine) : bool * Machine :=
  match mode g with
  | Disabled => (false, g)
  | Locked_ => (true, g)
  | Unlocked =>
      if idle g <=? elapsed now (last_activity g) then
        let g := if idle g <=? elapsed now' (last_activity g) then set_mode Locked_ g else g in
        (bool_decide (mode g = Locked_), g)
      else (false, g)
  end.

Definition touch (now : Z) (g : Machine) : Machine :=
  match mode g with Unlocked => set_last_activity now g | _ => g end.

Definition lock (g : Machine) : Machine :=
  match mode g with Disabled => g | _ => set_mode Locked_ g end.

Definition status (now now' : Z) (g : Machine) : LockStatus * Machine :=
  let '(l, g) := is_locked now now' g in
  let on := negb (bool_decide (mode g = Disabled)) in
  (mkStatus on l (if on then idle g / SECOND else 0), g).

Definition set_idle_secs (secs : Z) (g : Machine) : Machine := set_idle (clamp 60 (24 * 3600) secs * SECOND) g.

(** ** The daemon *)

Record Daemon : Type := mkDaemon {
  machine : Machine;
  home : Home;
}.

#[export] Instance daemon_faulty : Faulty Daemon := {|
  Store.faults := fun d => home_faults (home d);
  Store.set_faults := fun fs d => mkDaemon (machine d) (set_faults fs (home d));
|}.

#[export] Instance daemon_config : HasConfig Daemon := {|
  Store.config := fun d => config (home d);
  Store.set_config := fun m d => mkDaemon (machine d) (set_config m (home d));
|}.

(** An operation on the lock itself. *)
Definition with_machine {A : Type} (f : Machine -> A * Machine) : M Daemon A :=
  fun d => let '(a, g) := f (machine d) in (Ok a, mkDaemon g (home d)).

Definition modify (f : Machine -> Machine) : M Daemon unit := with_machine (fun g => (tt, f g)).

Definition guard (now now' : Z) : M Daemon unit :=
  let! l := with_machine (is_locked now now') in if l then throw Locked else ret tt.

(** [chars().count()] of a UTF-8 string: the bytes that do not continue a character. *)
Definition chars_count (s : string) : Z :=
  Z.of_nat (length (retain (fun c => negb ((128 <=? byte_val c) && (byte_val c <? 192))) (bytes s))).

Section lock.
Context `{VaultLibs}.

Definition probe (m : Z) : bool :=
  bool_decide (is_Some (argon2id "probe" (bytes_to_string (repeat 0 16)) m ARGON2_T_COST ARGON2_P_COST)).

Definition probe_cost_tier : Z * Z * Z :=
  if probe ARGON2_M_COST_FULL then (ARGON2_M_COST_FULL, ARGON2_T_COST, ARGON2_P_COST)
  else (ARGON2_M_COST_LOW, ARGON2_T_COST, ARGON2_P_COST).

Definition is_configured : M Daemon bool := let! w := kv_get CFG_WRAP in ret (bool_decide (is_Some w)).

Definition load (now : Z) : M Daemon Machine :=
  let! w := kv_get CFG_WRAP in
  ret (mkMachine (if bool_decide (is_Some w) then Locked_ else Disabled) now (DEFAULT_IDLE_SECS * SECOND)).

(** [salt] is the fresh salt. *)
Definition enable (root : RootKey) (passphrase : string) (salt : list Z) (now : Z) : M Daemon unit :=
  if chars_count passphrase <? 6 then throw (BadRequest "passphrase must be at least 6 characters")
  else
    let '(m, t, p) := probe_cost_tier in
    match argon2id passphrase (bytes_to_string salt) m t p with
    | None => throw (Internal "argon2 derivation failed")
    | Some key =>
        let wrap := xor root key in
        kv_set CFG_WRAP (b64 wrap) ;!
        kv_set CFG_SALT (b64 salt) ;!
        kv_set CFG_M_COST (Z_to_string m) ;!
        kv_set CFG_T_COST (Z_to_string t) ;!
        kv_set CFG_P_COST (Z_to_string p) ;!
        modify (fun g => set_last_activity now (set_mode Unlocked g))
    end.

Fixpoint delete_all (ks : list string) : M Daemon unit :=
  match ks with
  | [] => ret tt
  | k :: ks => let! _ := attempt (kv_delete k) in delete_all ks
  end.

Definition disable : M Daemon unit :=
  delete_all [CFG_WRAP; CFG_SALT; CFG_M_COST; CFG_T_COST; CFG_P_COST] ;! modify (set_mode Disabled).

Definition get_cost (k : string) (d : Z) : M Daemon Z :=
  let! v := kv_get k in ret (unwrap_or (v ≫= parse_u32) d).

Definition unlock (root : RootKey) (passphrase : string) (now : Z) : M Daemon unit :=
  let! g := with_machine (fun g => (g, g)) in
  if bool_decide (mode g = Disabled) then ret tt
  else
    let! w := kv_get CFG_WRAP in
    let! wrap_b64 := from_result (ok_or w (Internal "vault lock: missing wrap")) in
    let! s := kv_get CFG_SALT in
    let! salt_b64 := from_result (ok_or s (Internal "vault lock: missing salt")) in
    let! m := get_cost CFG_M_COST ARGON2_M_COST_FULL in
    let! t := get_cost CFG_T_COST ARGON2_T_COST in
    let! p := get_cost CFG_P_COST ARGON2_P_COST in
    let! wrap := from_result (unb64_32 "vault lock" wrap_b64) in
    let! salt := from_result (ok_or (b64_decode salt_b64) (Internal "vault lock: bad salt")) in
    let! key := from_result (ok_or (argon2id passphrase salt m t p) (Internal "argon2 derivation failed")) in
    let candidate := xor wrap key in
    if ct_eq candidate root then modify (fun g => set_last_activity now (set_mode Unlocked g))
    else throw Unauthorized.

(** ** The requests *)

(** [SecretAccess] is a secret-touching route: the guard, then the timer when it succeeds. [SetIdle] is the
    setter. *)
Inductive request : Type :=
| GetStatus
| PostLock
| PostUnlock (passphrase : string)
| PostEnable (passphrase : string) (salt entropy : list Z)
| PostDisable
| PostRecoveryGenerate (entropy : list Z)
| SecretAccess
| SetIdle (secs : Z).

Inductive answer : Type :=
| AStatus (s : LockStatus)
| AOk
| AMnemonic (phrase : string).

Definition handle (root : RootKey) (now now' : Z) (r : request) : M Daemon answer :=
  match r with
  | GetStatus => let! s := with_machine (status now now') in ret (AStatus s)
  | PostLock => modify lock ;! ret AOk
  | PostUnlock pp => unlock root pp now' ;! ret AOk
  | PostEnable pp salt entropy =>
      let! c := is_configured in
      (if c then guard now now' else ret tt) ;!
      enable root pp salt now' ;!
      let! mnemonic := generate_recovery root entropy in
      ret (AMnemonic mnemonic)
  | PostDisable => guard now now' ;! disable ;! ret AOk
  | PostRecoveryGenerate entropy =>
      guard now now' ;! let! mnemonic := generate_recovery root entropy in ret (AMnemonic mnemonic)
  | SecretAccess => guard now now' ;! modify (touch now') ;! ret AOk
  | SetIdle secs => modify (set_idle_secs secs) ;! ret AOk
  end.

(** A request with its faults, or a restart of the process, which serves requests once [load] succeeds. *)
Inductive event : Type :=
| Request (now now' : Z) (fs : list bool) (r : request)
| RestartAt (now : Z).

Definition event_step (root : RootKey) (d : Daemon) (e : event) : option (result answer LocalError) * Daemon :=
  match e with
  | Request now now' fs r => let '(a, d) := handle root now now' r (set_faults fs d) in (Some a, d)
  | RestartAt now =>
      match load now (set_faults [] d) with
      | (Ok g, d) => (None, mkDaemon g (home d))
      | (Err _, d) => (None, d)
      end
  end.

Fixpoint run (root : RootKey) (d : Daemon) (es : list event) : list (option (result answer LocalError)) * Daemon :=
  match es with
  | [] => ([], d)
  | e :: es => let '(a, d) := event_step root d e in let '(l, d) := run root d es in (a :: l, d)
  end.
End lock.

(** ** Lemmas *)

(** Lock and configuration. *)
Definition at_ (g : Machine) (c : gmap string string) (d : Daemon) : Prop :=
  machine d = g /\ config (home d) = c /\ is_Some (db_file (home d)).

Section lemmas.
Context `{VaultLaws}.

Lemma at_get (g : Machine) (c : gmap string string) (k : string) :
  hoare (at_ g c) (kv_get k) (fun v d => at_ g c d /\ v = c !! k) (at_ g c).
Proof. apply hoare_faulted; [done|done|]. intros d (E1 & E2 & Hd). split; [done|]. simpl. by rewrite <- E2. Qed.

Lemma at_set (g : Machine) (c : gmap string string) (k v : string) (E : Daemon -> Prop) :
  (forall d, at_ g c d -> E d) -> hoare (at_ g c) (kv_set k v) (fun _ => at_ g (<[k := v]> c)) E.
Proof.
  intros HE. apply hoare_faulted; [done|done|]. intros d (<- & <- & [f Hf]). unfold at_. simpl. rewrite Hf.
  split; [done|]. simpl. eauto.
Qed.

Lemma at_from_result {A : Type} (r : result A LocalError) (g : Machine) (c : gmap string string) :
  hoare (at_ g c) (from_result r) (fun a d => at_ g c d /\ r = Ok a) (at_ g c).
Proof. destruct r; by intros d. Qed.

Definition cost (c : gmap string string) (k : string) (d : Z) : Z := unwrap_or (c !! k ≫= parse_u32) d.

(** The passphrase takes the root out of the stored wrap. *)
Definition opens (root : RootKey) (c : gmap string string) (pp : string) : Prop :=
  exists w s wrap salt key,
    c !! CFG_WRAP = Some w /\ c !! CFG_SALT = Some s /\
    unb64_32 "vault lock" w = Ok wrap /\ b64_decode s = Some salt /\
    argon2id pp salt (cost c CFG_M_COST ARGON2_M_COST_FULL) (cost c CFG_T_COST ARGON2_T_COST) (cost c CFG_P_COST ARGON2_P_COST)
      = Some key /\
    xor wrap key = root.

Lemma at_cost (g : Machine) (c : gmap string string) (k : string) (x : Z) :
  hoare (at_ g c) (get_cost k x) (fun v d => at_ g c d /\ v = cost c k x) (at_ g c).
Proof. eapply hoare_bind; [apply at_get|]. intros v. apply hoare_ret. by intros d [? ->]. Qed.

Lemma hoare_fact {A : Type} (P : Daemon -> Prop) (X : Prop) (c : M Daemon A) (Q : A -> Daemon -> Prop) (E : Daemon -> Prop) :
  (X -> hoare P c Q E) -> hoare (fun d => P d /\ X) c Q E.
Proof. intros Hc d [Hd HX]. by apply Hc. Qed.

Lemma unb64_32_ok (who s : string) (r : RootKey) : unb64_32 who s = Ok r -> root_ok r.
Proof.
  unfold unb64_32. destruct (b64_decode s) as [raw|]; [|done]. destruct (Nat.eqb_spec (String.length raw) 32) as [E|]; [|done].
  intros [= <-]. unfold string_to_bytes, root_ok. rewrite map_length. split.
  - rewrite <- E. clear. unfold bytes. induction raw; simpl; congruence.
  - clear. induction (bytes raw) as [|c l IH]; simpl; constructor; [|done].
    unfold byte_val. pose proof (N_ascii_bounded c). lia.
Qed.

(** One read of a handler; its result is named [H]. *)
Ltac read_step H :=
  eapply hoare_bind; [first [apply at_get | apply at_cost | apply at_from_result]|]; intros ?; apply hoare_fact; intros H.

(** A successful unlock had the right passphrase. *)
Lemma unlock_hoare (root : RootKey) (pp : string) (now : Z) (g : Machine) (c : gmap string string) :
  root_ok root -> mode g <> Disabled ->
  hoare (at_ g c) (unlock root pp now) (fun _ _ => opens root c pp) (at_ g c).
Proof.
  intros Hr Hg. unfold unlock. eapply hoare_bind with (R := fun g' d => at_ g c d /\ g' = g).
  { intros d (E & H1 & H2). by simpl. }
  intros g'. apply hoare_fact. intros ->.
  rewrite bool_decide_eq_false_2 by done.
  read_step Hw. subst. read_step Hw. read_step Hs. subst. read_step Hs. do 3 (read_step Hc; subst).
  read_step Hwrap. read_step Hsalt. read_step Hkey.
  destruct (ct_eq _ _) eqn:Ec; [|by apply hoare_throw]. intros d _. simpl.
  destruct (c !! CFG_WRAP) as [w|] eqn:E1; [|done]. destruct (c !! CFG_SALT) as [s|] eqn:E2; [|done].
  injection Hw as <-. injection Hs as <-.
  destruct (b64_decode s) as [salt|] eqn:E3; [|done]. injection Hsalt as <-.
  destruct (argon2id _ _ _ _ _) as [k|] eqn:E4; [|done]. injection Hkey as <-.
  eexists w, s, _, salt, k. split_and!; try done.
  apply root_ct_eq_spec; [|done|done]. apply xor_ok; [by eapply unb64_32_ok|].
  split; [by eapply argon2id_length|by eapply argon2id_bytes].
Qed.

(** And the right passphrase unlocks. *)
Lemma unlock_complete (root : RootKey) (pp : string) (now : Z) (d : Daemon) :
  root_ok root -> home_faults (home d) = [] -> mode (machine d) <> Disabled -> opens root (config (home d)) pp ->
  unlock root pp now d = (Ok tt, mkDaemon (mkMachine Unlocked now (idle (machine d))) (home d)).
Proof.
  intros Hr Hf Hm (w & s & wrap & salt & key & Hw & Hs & Hwrap & Hsalt & Hkey & Hx).
  assert (Hget : forall k, kv_get k d = (Ok (config (home d) !! k), d)) by (intros k; exact (kv_get_clean k d Hf)).
  assert (Hcost : forall k x, get_cost k x d = (Ok (cost (config (home d)) k x), d)).
  { intros k x. unfold get_cost. by rewrite (bind_Ok _ _ _ _ _ (Hget k)). }
  unfold unlock. rewrite (bind_Ok _ _ d d (machine d)) by (by destruct d).
  rewrite bool_decide_eq_false_2 by done.
  rewrite (bind_Ok _ _ _ _ _ (Hget _)), Hw. rewrite (bind_Ok _ _ d d w) by done.
  rewrite (bind_Ok _ _ _ _ _ (Hget _)), Hs. rewrite (bind_Ok _ _ d d s) by done.
  do 3 rewrite (bind_Ok _ _ _ _ _ (Hcost _ _)). rewrite (bind_Ok _ _ d d wrap) by (by rewrite Hwrap).
  rewrite (bind_Ok _ _ d d salt) by (by rewrite Hsalt). rewrite (bind_Ok _ _ d d key) by (by rewrite Hkey).
  by rewrite Hx, (ct_eq_refl _ Hr).
Qed.

(** What a request to a locked vault is answered. *)
Definition refused (e : event) (a : option (result answer LocalError)) : Prop :=
  match e with
  | RestartAt _ => a = None
  | Request _ _ _ GetStatus => exists i, a = Some (Ok (AStatus (mkStatus true true i)))
  | Request _ _ _ (PostLock | SetIdle _) => a = Some (Ok AOk)
  | Request _ _ _ _ => exists err, a = Some (Err err)
  end.

(** Locked over the configuration [c]. *)
Definition shut (c : gmap string string) (d : Daemon) : Prop :=
  mode (machine d) = Locked_ /\ config (home d) = c /\ is_Some (c !! CFG_WRAP).

Lemma shut_has_db (c : gmap string string) (d : Daemon) : shut c d -> is_Some (db_file (home d)).
Proof. intros (_ & <- & [w Hw]). simpl in Hw. by destruct (db_file (home d)). Qed.

Lemma shut_at (c : gmap string string) (d : Daemon) : shut c d -> at_ (machine d) c d.
Proof. intros Hd. split; [done|]. split; [apply Hd|by eapply shut_has_db]. Qed.

Lemma guard_shut (now now' : Z) (d : Daemon) : mode (machine d) = Locked_ -> guard now now' d = (Err Locked, d).
Proof. intros E. unfold guard, bind, with_machine, is_locked. rewrite E. by destruct d. Qed.

Lemma enable_shut (root : RootKey) (c : gmap string string) (now now' : Z) (d : Daemon) (pp : string) (salt entropy : list Z) :
  shut c d -> exists err d', handle root now now' (PostEnable pp salt entropy) d = (Err err, d') /\ shut c d'.
Proof.
  intros Hd. cbn [handle]. unfold is_configured.
  pose proof (at_get (machine d) c CFG_WRAP d (shut_at _ _ Hd)) as Hg.
  destruct (kv_get CFG_WRAP d) as [[w|err] d1] eqn:E.
  - destruct Hg as [(Hm & Hc & _) ->]. exists Locked, d1.
    assert (Hd1 : shut c d1) by (split_and!; [rewrite Hm; apply Hd|done|apply Hd]). split; [|done].
    unfold bind at 1. rewrite (bind_Ok _ _ _ _ _ E). unfold ret at 1. rewrite bool_decide_eq_true_2 by apply Hd.
    by rewrite (bind_Err _ _ _ _ _ (guard_shut now now' d1 (proj1 Hd1))).
  - exists err, d1. split; [|by destruct Hg as (Hm & Hc & _); split_and!; [rewrite Hm; apply Hd|done|apply Hd]].
    apply bind_Err. by apply bind_Err.
Qed.

Lemma event_shut (root : RootKey) (c : gmap string string) (d : Daemon) (e : event) :
  root_ok root -> shut c d -> (forall now now' fs pp, e = Request now now' fs (PostUnlock pp) -> ~ opens root c pp) ->
  refused e (fst (event_step root d e)) /\ shut c (snd (event_step root d e)).
Proof.
  intros Hr Hd Ho. destruct e as [now now' fs r|now]; cbn [event_step].
  2:{ unfold load. rewrite (bind_Ok _ _ _ _ _ (kv_get_clean CFG_WRAP (set_faults [] d) ltac:(done))). unfold ret.
      cbn [fst snd refused]. split; [done|]. split_and!; [|apply Hd|apply Hd]. cbn [machine mode].
      rewrite bool_decide_eq_true_2; [done|]. destruct Hd as (_ & E & Hw). simpl in *. by rewrite E. }
  assert (Hfs : shut c (set_faults fs d)) by exact Hd. clear Hd. revert Hfs. generalize (set_faults fs d). intros d0 Hd.
  assert (Hm := proj1 Hd).
  destruct r; cbn [handle]; try (rewrite (bind_Err _ _ _ _ _ (guard_shut now now' d0 Hm)); cbn; by eauto).
  - unfold bind, with_machine, status, is_locked. rewrite Hm. cbn. rewrite ?Hm. cbn. split; [by eauto|exact Hd].
  - unfold bind, modify, with_machine, lock. rewrite Hm. cbn. split; [done|]. split; [done|apply Hd].
  - pose proof (unlock_hoare root passphrase now' (machine d0) c Hr ltac:(congruence) d0 (shut_at _ _ Hd)) as Hu.
    unfold bind. destruct (unlock root passphrase now' d0) as [[[]|err] d1]; [by destruct (Ho now now' fs passphrase)|].
    cbn. split; [by eauto|]. destruct Hu as (E & Hc & _). split_and!; [by rewrite E|done|apply Hd].
  - destruct (enable_shut root c now now' d0 passphrase salt entropy Hd) as (err & d1 & E & Hd1).
    cbn [handle] in E. rewrite E. cbn. by eauto.
  - unfold bind, modify, with_machine, set_idle_secs. cbn. split; [done|exact Hd].
Qed.

(** Whatever is asked of a locked vault without the passphrase. *)
Lemma run_shut (root : RootKey) (c : gmap string string) (es : list event) (d : Daemon) :
  root_ok root -> shut c d ->
  (forall now now' fs pp, Request now now' fs (PostUnlock pp) ∈ es -> ~ opens root c pp) ->
  Forall2 refused es (fst (run root d es)) /\ shut c (snd (run root d es)).
Proof.
  intros Hr. revert d. induction es as [|e es IH]; intros d Hd Ho; cbn [run]; [by split; [constructor|]|].
  destruct (event_shut root c d e Hr Hd) as [H1 H2]; [intros ???? ->; eapply Ho; left|].
  destruct (event_step root d e) as [a d1]. cbn [fst snd] in *.
  destruct (IH d1 H2) as [H3 H4]; [intros ???? ?; eapply Ho; by right|].
  destruct (run root d1 es) as [l d2]. cbn [fst snd] in *. split; [by constructor|done].
Qed.

(** The configuration a successful enable leaves. *)
Definition enabled_config (root key : RootKey) (salt entropy : list Z) (c : gmap string string) : gmap string string :=
  let '(m, t, p) := probe_cost_tier in
  <[CFG_RECOVERY_WRAP := b64 (xor root (wrap_key_from_mnemonic entropy))]>
    (<[CFG_P_COST := Z_to_string p]> (<[CFG_T_COST := Z_to_string t]> (<[CFG_M_COST := Z_to_string m]>
      (<[CFG_SALT := b64 salt]> (<[CFG_WRAP := b64 (xor root key)]> c))))).

(** The key of a passphrase at the probed costs. *)
Definition tier_key (pp : string) (salt : list Z) : option (list Z) :=
  let '(m, t, p) := probe_cost_tier in argon2id pp (bytes_to_string salt) m t p.

Lemma at_modify (f : Machine -> Machine) (g : Machine) (c : gmap string string) (E : Daemon -> Prop) :
  hoare (at_ g c) (modify f) (fun _ => at_ (f g) c) E.
Proof. intros d (<- & H1 & H2). by split. Qed.

Lemma at_generate (root : RootKey) (entropy : list Z) (g : Machine) (c : gmap string string) :
  hoare (at_ g c) (generate_recovery root entropy)
    (fun phrase d => at_ g (<[CFG_RECOVERY_WRAP := b64 (xor root (wrap_key_from_mnemonic entropy))]> c) d /\
       mnemonic_from_entropy entropy = Some phrase) (fun _ => True).
Proof.
  unfold generate_recovery. destruct (mnemonic_from_entropy entropy) as [phrase|]; [|by intros d _].
  eapply hoare_bind; [by apply at_set|]. intros []. by apply hoare_ret.
Qed.

Lemma enable_hoare (root : RootKey) (pp : string) (salt entropy : list Z) (now' : Z) (g : Machine) (c : gmap string string) :
  hoare (at_ g c)
    (enable root pp salt now' ;! let! mnemonic := generate_recovery root entropy in ret (AMnemonic mnemonic))
    (fun a d => 6 <= chars_count pp /\ exists key phrase, tier_key pp salt = Some key /\
       a = AMnemonic phrase /\ mnemonic_from_entropy entropy = Some phrase /\
       at_ (mkMachine Unlocked now' (idle g)) (enabled_config root key salt entropy c) d)
    (fun _ => True).
Proof.
  unfold enable, tier_key, enabled_config.
  destruct (Z.ltb_spec (chars_count pp) 6) as [|Hlen]; [by intros d _|].
  destruct probe_cost_tier as [[m t] p].
  destruct (argon2id pp _ m t p) as [key|]; [|by intros d _].
  eapply hoare_bind.
  - do 5 (eapply hoare_bind; [by apply at_set|]; intros ?). apply at_modify.
  - intros []. eapply hoare_bind; [apply at_generate|]. intros phrase. apply hoare_fact. intros E.
    apply hoare_ret. intros d Hd. split; [done|]. by exists key, phrase.
Qed.

Lemma enabled_opens (root key : RootKey) (salt entropy : list Z) (c : gmap string string) (pp : string) :
  root_ok root -> root_ok key -> opens root (enabled_config root key salt entropy c) pp <-> tier_key pp salt = Some key.
Proof.
  intros Hr Hk. unfold opens, enabled_config, tier_key, cost.
  assert (Hp : probe_cost_tier = (ARGON2_M_COST_FULL, ARGON2_T_COST, ARGON2_P_COST) \/
               probe_cost_tier = (ARGON2_M_COST_LOW, ARGON2_T_COST, ARGON2_P_COST)).
  { unfold probe_cost_tier. destruct (probe _); auto. }
  destruct probe_cost_tier as [[m t] p].
  assert (Hu : parse_u32 (Z_to_string m) = Some m /\ parse_u32 (Z_to_string t) = Some t /\ parse_u32 (Z_to_string p) = Some p).
  { destruct Hp as [[= -> -> ->]|[= -> -> ->]]; by vm_compute. }
  destruct Hu as (Hm & Ht & Hq). clear Hp.
  rewrite !lookup_insert. cbn [decide]. simplify_map_eq. rewrite Hm, Ht, Hq. cbn [unwrap_or default].
  split.
  - intros (w & s & wrap & salt' & key' & [= <-] & [= <-] & Hw & Hs & Hkey & Hx).
    rewrite (unb64_32_b64 _ _ (xor_ok _ _ Hr Hk)) in Hw. injection Hw as <-.
    unfold b64 in Hs. rewrite b64_round_trip in Hs. injection Hs as <-.
    apply xor_unwrap in Hx; [by subst| |].
    + destruct Hr, Hk. congruence.
    + pose proof (argon2id_length _ _ _ _ _ _ Hkey). destruct Hr. congruence.
  - intros Hkey. exists (b64 (xor root key)), (b64 salt), (xor root key), (bytes_to_string salt), key.
    split_and!; try done.
    + by apply unb64_32_b64, xor_ok.
    + by apply b64_round_trip.
    + apply xor_cancel. destruct Hr, Hk. congruence.
Qed.

(** A start over a configured lock is locked. *)
Lemma restart_shut (root : RootKey) (d : Daemon) (t : Z) :
  is_Some (config (home d) !! CFG_WRAP) ->
  fst (event_step root d (RestartAt t)) = None /\ shut (config (home d)) (snd (event_step root d (RestartAt t))).
Proof.
  intros Hw. cbn [event_step]. unfold load. rewrite (bind_Ok _ _ _ _ _ (kv_get_clean CFG_WRAP (set_faults [] d) ltac:(done))).
  unfold ret. split; [done|]. split_and!; [|done|done]. cbn [snd machine mode]. by rewrite bool_decide_eq_true_2.
Qed.

(** A wrap without its salt locks every passphrase out from the next start on. *)
Lemma no_salt_locked_out (root : RootKey) (d : Daemon) (t : Z) (es : list event) :
  root_ok root -> is_Some (config (home d) !! CFG_WRAP) -> config (home d) !! CFG_SALT = None ->
  Forall2 refused es (fst (run root (snd (event_step root d (RestartAt t))) es)).
Proof.
  intros Hr Hw Hs. destruct (restart_shut root d t Hw) as [_ Hd].
  apply (run_shut root (config (home d)) es _ Hr Hd). intros _ _ _ pp _ (w & s & wrap & salt & key & _ & E & _). congruence.
Qed.

(** Without faults an unlock succeeds exactly with the passphrase. *)
Lemma unlock_exact (root : RootKey) (c : gmap string string) (d : Daemon) (now now' : Z) (pp : string) :
  root_ok root -> shut c d ->
  fst (event_step root d (Request now now' [] (PostUnlock pp))) = Some (Ok AOk) <-> opens root c pp.
Proof.
  intros Hr Hd. cbn [event_step handle]. unfold bind. assert (Hd0 : shut c (set_faults [] d)) by exact Hd. split; intros E.
  - pose proof (unlock_hoare root pp now' _ c Hr ltac:(by rewrite (proj1 Hd0)) _ (shut_at _ _ Hd0)) as Hu.
    by destruct (unlock root pp now' (set_faults [] d)) as [[]].
  - rewrite (unlock_complete root pp now' (set_faults [] d)); [done|done|done|by rewrite (proj1 Hd0)|].
    by rewrite (proj1 (proj2 Hd0)).
Qed.

(** What a successful enable request leaves. *)
Lemma post_enable_hoare (root : RootKey) (pp : string) (salt entropy : list Z) (now now' : Z) (g : Machine) (c : gmap string string) :
  hoare (at_ g c) (handle root now now' (PostEnable pp salt entropy))
    (fun a d => 6 <= chars_count pp /\ exists key phrase w, tier_key pp salt = Some key /\
       a = AMnemonic phrase /\ mnemonic_from_entropy entropy = Some phrase /\
       at_ (mkMachine Unlocked now' w) (enabled_config root key salt entropy c) d)
    (fun _ => True).
Proof.
  cbn [handle]. eapply hoare_bind with (R := fun _ => at_ g c).
  { eapply hoare_bind with (R := fun _ => at_ g c); [|intros v; by apply hoare_ret].
    eapply hoare_conseq; [apply at_get|done|by intros v d [? _]|done]. }
  intros b. eapply hoare_bind with (R := fun _ d => exists g', at_ g' c d).
  - destruct b; [|apply hoare_ret; eauto]. intros d (<- & Hc & Hdb). unfold guard, bind, with_machine.
    destruct (is_locked now now' (machine d)) as [[] g']; [done|]. exists g'. by split.
  - intros _ d [g' Hd]. pose proof (enable_hoare root pp salt entropy now' g' c d Hd) as He.
    destruct (bind _ _ d) as [[a|err] d1]; [|done]. destruct He as (Hl & key & phrase & H1 & H2 & H3 & H4).
    split; [done|]. by exists key, phrase, (idle g').
Qed.

Lemma restore_enabled (root key : RootKey) (salt entropy : list Z) (c : gmap string string) (phrase : string)
    (expected : option RootKey) (d : Daemon) :
  root_ok root -> home_faults (home d) = [] -> config (home d) = enabled_config root key salt entropy c ->
  mnemonic_from_entropy entropy = Some phrase -> expected = None \/ expected = Some root ->
  fst (restore_from phrase expected d) = Ok root.
Proof.
  intros Hr Hf Hc Hp Hex. unfold restore_from. rewrite (bind_Ok _ _ _ _ _ (kv_get_clean _ d ltac:(exact Hf))).
  assert (Hw : config d !! CFG_RECOVERY_WRAP = Some (b64 (xor root (wrap_key_from_mnemonic entropy)))).
  { change (config d) with (config (home d)). rewrite Hc. unfold enabled_config. destruct probe_cost_tier as [[m t] p].
    by rewrite lookup_insert_eq. }
  rewrite Hw, (mnemonic_round_trip _ _ Hp).
  rewrite (bind_Ok _ _ d d (xor root (wrap_key_from_mnemonic entropy))) by (by rewrite (unb64_32_b64 _ _ (wraps_ok root entropy Hr))).
  rewrite xor_cancel by (destruct Hr; unfold wrap_key_from_mnemonic; by rewrite hkdf_length).
  destruct Hex as [-> | ->]; [done|]. by rewrite ct_eq_refl.
Qed.

(** The idle timer: an access is granted when it comes less than [w] after the last granted one, and after a
    longer gap none is. *)
Fixpoint session (w last : Z) (ts : list (Z * Z)) : list bool :=
  match ts with
  | [] => []
  | (now, now') :: ts =>
      if now - last <? w then true :: session w now' ts else false :: map (fun _ => false) ts
  end.

(** The clock does not run backwards. *)
Fixpoint ordered (last : Z) (ts : list (Z * Z)) : Prop :=
  match ts with
  | [] => True
  | (now, now') :: ts => last <= now /\ now <= now' /\ ordered now' ts
  end.

Definition accesses (ts : list (Z * Z)) : list event := map (fun t => Request (fst t) (snd t) [] SecretAccess) ts.

Definition grants (b : bool) : option (result answer LocalError) := Some (if b then Ok AOk else Err Locked).

Lemma accesses_shut (root : RootKey) (ts : list (Z * Z)) (d : Daemon) :
  mode (machine d) = Locked_ -> fst (run root d (accesses ts)) = map (fun _ => grants false) ts.
Proof.
  revert d. induction ts as [|[n n'] ts IH]; intros d Hm; [done|]. cbn [accesses map run fst snd event_step handle].
  rewrite (bind_Err _ _ _ _ _ (guard_shut n n' (set_faults [] d) ltac:(exact Hm))).
  assert (Hm' : mode (machine (set_faults [] d)) = Locked_) by done.
  specialize (IH _ Hm'). unfold accesses in IH. destruct (run root _ _) as [l d2] eqn:E. cbn [fst] in *. by rewrite IH.
Qed.

Lemma access_step (root : RootKey) (n n' : Z) (d : Daemon) :
  mode (machine d) = Unlocked -> last_activity (machine d) <= n <= n' ->
  event_step root d (Request n n' [] SecretAccess) =
    if n - last_activity (machine d) <? idle (machine d)
    then (grants true, mkDaemon (mkMachine Unlocked n' (idle (machine d))) (set_faults [] (home d)))
    else (grants false, mkDaemon (set_mode Locked_ (machine d)) (set_faults [] (home d))).
Proof.
  intros Hm Hn. destruct d as [[mo la w] h]. cbn [machine mode last_activity idle] in *. subst mo.
  cbn [event_step handle]. unfold guard, bind, with_machine, is_locked, modify. cbn [set_faults daemon_faulty machine mode idle last_activity home].
  unfold elapsed. rewrite !Z.max_r by lia.
  destruct (Z.ltb_spec (n - la) w), (Z.leb_spec w (n - la)); try lia; [done|].
  destruct (Z.leb_spec w (n' - la)); [done|lia].
Qed.
End lemmas.

(** ** Properties *)

Section properties.
Context `{VaultLaws}.

(** C3: A locked vault opens only with its passphrase. Whatever is asked of it, with any database faults, clock readings and
    restarts, as long as no unlock carries a passphrase that takes the root out of the stored wrap, it stays locked,
    the lock's configuration is unchanged, no secret is served, no recovery code is issued and enable and
    disable are refused; and a fault-free unlock at the end succeeds exactly with such a passphrase. *)
Theorem app_lock_sticky (root : RootKey) (c : gmap string string) (d : Daemon) (es : list event)
    (Hr : root_ok root) (Hd : shut c d)
    (Hes : forall now now' fs pp, Request now now' fs (PostUnlock pp) ∈ es -> ~ opens root c pp) :
  let '(l, d') := run root d es in
  Forall2 refused es l /\ shut c d' /\
  forall now now' pp, fst (event_step root d' (Request now now' [] (PostUnlock pp))) = Some (Ok AOk) <-> opens root c pp.
Proof.
  destruct (run_shut root c es d Hr Hd Hes) as [H1 H2]. destruct (run root d es) as [l d']. cbn [fst snd] in *.
  split; [done|]. split; [done|]. intros. by apply unlock_exact.
Qed.

(** Setting the passphrase works. When the enable request succeeds, whatever faults it was given, the session is unlocked, and
    after a restart exactly the passphrases with the same Argon2id key unlock it; the answer is the phrase
    of the fresh entropy, and recovery with it yields the root. *)
Theorem enable_then_unlock (root : RootKey) (pp : string) (salt entropy : list Z) (fs : list bool) (now now' : Z)
    (d d1 : Daemon) (a : answer) (Hr : root_ok root) (Hdb : is_Some (db_file (home d)))
    (Hok : event_step root d (Request now now' fs (PostEnable pp salt entropy)) = (Some (Ok a), d1)) :
  mode (machine d1) = Unlocked /\ 6 <= chars_count pp /\ is_Some (tier_key pp salt) /\
  (forall t t' t'' pp', fst (run root d1 [RestartAt t; Request t' t'' [] (PostUnlock pp')]) = [None; Some (Ok AOk)] <->
     tier_key pp' salt = tier_key pp salt) /\
  exists phrase, a = AMnemonic phrase /\ mnemonic_from_entropy entropy = Some phrase /\
    forall expected, expected = None \/ expected = Some root -> fst (restore_from phrase expected (set_faults [] d1)) = Ok root.
Proof.
  cbn [event_step] in Hok.
  assert (Hd : at_ (machine d) (config (home d)) (set_faults fs d)) by done.
  pose proof (post_enable_hoare root pp salt entropy now now' _ _ _ Hd) as He.
  destruct (handle root now now' _ (set_faults fs d)) as [[a'|err] d2]; [|done]. injection Hok as -> ->.
  destruct He as (Hlen & key & phrase & w & Hkey & -> & Hp & Hm & Hc & Hdb1).
  assert (Hk : root_ok key).
  { unfold tier_key in Hkey. destruct probe_cost_tier as [[m t] p]. split; [by eapply argon2id_length|by eapply argon2id_bytes]. }
  split; [by rewrite Hm|]. split; [done|]. split; [by exists key|]. split.
  - intros t t' t'' pp'. rewrite Hkey, <- (enabled_opens root key salt entropy (config (home d)) pp' Hr Hk).
    assert (Hw : is_Some (config (home d1) !! CFG_WRAP)).
    { rewrite Hc. unfold enabled_config. destruct probe_cost_tier as [[m t0] p]. by simplify_map_eq. }
    destruct (restart_shut root d1 t Hw) as [E1 Hs]. rewrite Hc in Hs.
    rewrite <- (unlock_exact root _ _ t' t'' pp' Hr Hs). cbn [run].
    destruct (event_step root d1 (RestartAt t)) as [r0 d3]. cbn [fst snd] in *. subst r0.
    destruct (event_step root d3 _) as [r1 d4]. cbn [fst snd]. split; [by intros [= ->]|by intros ->].
  - exists phrase. split; [done|]. split; [done|]. intros expected Hex. by eapply restore_enabled.
Qed.

(** The idle timer is exact. On an unlocked vault, accesses to secrets are granted while each comes within the idle
    window of the last; the first that does not is refused, and so is every later one. *)
Theorem idle_session_exact (root : RootKey) (ts : list (Z * Z)) (d : Daemon)
    (Hm : mode (machine d) = Unlocked) (Hts : ordered (last_activity (machine d)) ts) :
  fst (run root d (accesses ts)) = map grants (session (idle (machine d)) (last_activity (machine d)) ts).
Proof.
  revert d Hm Hts. induction ts as [|[n n'] ts IH]; intros d Hm Hts; [done|]. destruct Hts as (H1 & H2 & H3).
  cbn [accesses map run fst snd session]. rewrite (access_step root n n' d Hm) by lia.
  fold (accesses ts). destruct (n - last_activity (machine d) <? idle (machine d)) eqn:Et.
  - specialize (IH (mkDaemon (mkMachine Unlocked n' (idle (machine d))) (set_faults [] (home d))) eq_refl H3).
    destruct (run root _ _) as [l d2]. cbn [fst map machine idle last_activity] in *. by rewrite IH.
  - pose proof (accesses_shut root ts (mkDaemon (set_mode Locked_ (machine d)) (set_faults [] (home d))) eq_refl) as E.
    destruct (run root _ _) as [l d2]. cbn [fst map] in *. rewrite E, map_map. reflexivity.
Qed.

#[local] Definition with_kv (m : gmap string string) (f : DbFile) : DbFile := mkDbFile (pragma_key f) m (secrets f) (personas f).

(** A failed statement can lock everyone out of the vault. When the statement after the stored wrap fails in the first enable request, or the first
    delete in a disable request, which is answered with success, then after the next restart no passphrase
    unlocks, and enable, disable and recovery codes are refused for ever. *)
Theorem app_lock_lockout (root : RootKey) (pp : string) (salt entropy : list Z) (now now' t : Z) (d : Daemon)
    (Hr : root_ok root) (Hdb : is_Some (db_file (home d))) :
  (config (home d) !! CFG_WRAP = None -> config (home d) !! CFG_SALT = None ->
   6 <= chars_count pp -> is_Some (tier_key pp salt) ->
   let '(a, d1) := event_step root d (Request now now' [false; false; true] (PostEnable pp salt entropy)) in
   a = Some (Err DbError) /\
   forall es, Forall2 refused es (fst (run root (snd (event_step root d1 (RestartAt t))) es))) /\
  (mode (machine d) = Unlocked -> now - last_activity (machine d) < idle (machine d) -> 0 < idle (machine d) ->
   is_Some (config (home d) !! CFG_WRAP) ->
   let '(a, d1) := event_step root d (Request now now' [true] PostDisable) in
   a = Some (Ok AOk) /\ mode (machine d1) = Disabled /\
   forall es, Forall2 refused es (fst (run root (snd (event_step root d1 (RestartAt t))) es))).
Proof.
  destruct d as [g [kf kr j [f|] fs0]]; [|by destruct Hdb]. cbn [machine home] in *. split.
  - intros Hw Hs Hlen [key Hkey]. set (d := mkDaemon g (mkHome kf kr j (Some f) fs0)).
    set (f1 := with_kv (<[CFG_WRAP := b64 (xor root key)]> (kv f)) f).
    enough (E : event_step root d (Request now now' [false; false; true] (PostEnable pp salt entropy)) =
      (Some (Err DbError), mkDaemon g (mkHome kf kr j (Some f1) []))).
    { rewrite E. split; [done|]. intros es. apply no_salt_locked_out; [done| |].
      - simpl. rewrite lookup_insert_eq. eauto.
      - simpl. by rewrite lookup_insert_ne by done. }
    cbn [event_step handle]. unfold tier_key in Hkey. unfold is_configured, bind at 1 2, kv_get, statement, faulted.
    cbn in Hw. cbn. rewrite Hw. unfold ret at 1. cbn. unfold enable.
    destruct (Z.ltb_spec (chars_count pp) 6); [lia|]. destruct probe_cost_tier as [[m t0] p]. by rewrite Hkey.
  - intros Hm Hidle Hw0 [w Hw]. cbn in Hw.
    set (f1 := with_kv (delete CFG_P_COST (delete CFG_T_COST (delete CFG_M_COST (delete CFG_SALT (kv f))))) f).
    enough (E : event_step root (mkDaemon g (mkHome kf kr j (Some f) fs0)) (Request now now' [true] PostDisable) =
      (Some (Ok AOk), mkDaemon (set_mode Disabled g) (mkHome kf kr j (Some f1) []))).
    { rewrite E. split; [done|]. split; [done|]. intros es. apply no_salt_locked_out; [done| |]; cbn.
      - rewrite !lookup_delete_ne by done. eauto.
      - rewrite !lookup_delete_ne by done. by rewrite lookup_delete_eq. }
    cbn [event_step handle]. unfold guard, bind at 1 2, with_machine, is_locked. cbn [set_faults daemon_faulty machine]. rewrite Hm.
    destruct (Z.leb_spec (idle g) (elapsed now (last_activity g))) as [Hle|_]; [unfold elapsed in Hle; lia|].
    unfold disable, delete_all, attempt, kv_delete, statement, faulted. by cbn.
Qed.
End properties.

(** ** Examples *)

Definition demo_root : RootKey := repeat 1 32.
Definition demo_salt : list Z := repeat 2 16.
Definition demo_home : Home := mkHome (Some demo_root) ∅ None (Some (mkDbFile EmptyString ∅ [] [])) [].
Definition demo_day0 : Daemon := mkDaemon (disabled 0) demo_home.
(** After an enable, and after a restart. *)
Definition demo_open : Daemon :=
  snd (event_step demo_root demo_day0 (Request 1 2 [] (PostEnable "correct" demo_salt demo_entropy))).
Definition demo_locked : Daemon := snd (event_step demo_root demo_open (RestartAt 3)).

Lemma demo_root_ok : root_ok demo_root.
Proof. split; [done|]. unfold demo_root. repeat (constructor; [lia|]). constructor. Qed.

Definition demo_config : gmap string string := config (home demo_locked).

Lemma demo_shut : shut demo_config demo_locked.
Proof. split; [vm_compute; reflexivity|]. split; [reflexivity|]. vm_compute. eauto. Qed.

(** No such passphrase. *)
Lemma demo_not_opens : ~ opens demo_root demo_config "wrong!".
Proof.
  intros (w & s & wrap & salt & key & Hw & Hs & H1 & H2 & H3 & H4). vm_compute in Hw, Hs. injection Hw as <-. injection Hs as <-.
  vm_compute in H1. injection H1 as <-. vm_compute in H2. injection H2 as <-. vm_compute in H3. injection H3 as <-.
  vm_compute in H4. discriminate.
Qed.

Example app_lock_sticky_witness :
  let es := [Request 4 4 [] (PostUnlock "wrong!"); Request 5 5 [true] PostDisable; Request 6 6 [] SecretAccess; RestartAt 7] in
  let '(l, d') := run demo_root demo_locked es in
  Forall2 refused es l /\ shut demo_config d' /\
  forall now now' pp, fst (event_step demo_root d' (Request now now' [] (PostUnlock pp))) = Some (Ok AOk) <-> opens demo_root demo_config pp.
Proof.
  intros es. apply (app_lock_sticky demo_root demo_config demo_locked es demo_root_ok demo_shut).
  intros now now' fs pp Hpp. unfold es in Hpp. repeat (apply elem_of_cons in Hpp as [Hpp|Hpp]; [first [discriminate|injection Hpp as -> -> -> ->; exact demo_not_opens]|]).
  by apply elem_of_nil in Hpp.
Defined.

Example enable_then_unlock_witness :
  mode (machine demo_open) = Unlocked /\ 6 <= chars_count "correct" /\ is_Some (tier_key "correct" demo_salt) /\
  (forall t t' t'' pp', fst (run demo_root demo_open [RestartAt t; Request t' t'' [] (PostUnlock pp')]) = [None; Some (Ok AOk)] <->
     tier_key pp' demo_salt = tier_key "correct" demo_salt) /\
  exists phrase, AMnemonic "seven" = AMnemonic phrase /\ mnemonic_from_entropy demo_entropy = Some phrase /\
    forall expected, expected = None \/ expected = Some demo_root ->
      fst (restore_from phrase expected (set_faults [] demo_open)) = Ok demo_root.
Proof.
  apply (enable_then_unlock demo_root "correct" demo_salt demo_entropy [] 1 2 demo_day0 demo_open (AMnemonic "seven") demo_root_ok).
  - vm_compute. eauto.
  - vm_compute. reflexivity.
Defined.

Example idle_session_exact_witness :
  fst (run demo_root demo_open (accesses [(3, 4); (5, 6); (6 + 900 * SECOND, 7 + 900 * SECOND); (8 + 900 * SECOND, 8 + 900 * SECOND)])) =
    map grants [true; true; false; false].
Proof.
  apply (idle_session_exact demo_root [(3, 4); (5, 6); (6 + 900 * SECOND, 7 + 900 * SECOND); (8 + 900 * SECOND, 8 + 900 * SECOND)] demo_open).
  - vm_compute. reflexivity.
  - vm_compute. repeat split; discriminate.
Defined.

Example app_lock_lockout_witness :
  let '(a, d1) := event_step demo_root demo_day0 (Request 1 2 [false; false; true] (PostEnable "correct" demo_salt demo_entropy)) in
  a = Some (Err DbError) /\
  forall es, Forall2 refused es (fst (run demo_root (snd (event_step demo_root d1 (RestartAt 9))) es)).
Proof.
  apply (proj1 (app_lock_lockout demo_root "correct" demo_salt demo_entropy 1 2 9 demo_day0 demo_root_ok ltac:(vm_compute; eauto))).
  - reflexivity.
  - reflexivity.
  - vm_compute. discriminate.
  - vm_compute. eauto.
Defined.
