(* ===== verification/VaultRotate.v ===== *)
(** * local/vault_rotate.rs: the rotation of the root, and step 3 of the boot in local/app/lifecycle.rs

    On the home of VaultRoot.v. [nonce] gives the fresh nonce of the field of an AAD, and [profile] the
    keyring account. Connecting, migrating and the rekey of the file are one operation each. A crash is a
    list of faults that are all set from some point on. *)

From Stdlib Require Import Ascii String.
From S2P Require Import Prelude Ints Str UpdateManifest Store VaultRoot VaultRecovery VaultLock.
Open Scope Z_scope.
Open Scope writ_scope.
Open Scope store_scope.

Definition CFG_GEN : string := "vault_rotate.generation".
Definition CFG_PHASE : string := "vault_rotate.phase".
Definition CFG_REWRAP_GEN : string := "vault_rotate.recovery_rewrap_generation".

Inductive RotatePhase : Type := Begin | Rekey | Reseal | Rewrap | Persist | Done.

Definition phase_code (p : RotatePhase) : Z :=
  match p with Begin => 0 | Rekey => 1 | Reseal => 2 | Rewrap => 3 | Persist => 4 | Done => 5 end.

Definition from_i64 (v : Z) : RotatePhase :=
  match v with 1 => Rekey | 2 => Reseal | 3 => Rewrap | 4 => Persist | 5 => Done | _ => Begin end.

Definition secret_value_aad (key : string) : string := String.append "vault_secrets|value_encrypted|" key.
Definition persona_aad (column : string) (id : Z) : string :=
  String.append "personas|" (String.append column (String.append "|" (Z_to_string id))).

(** ** The tables: local/store/vault_secrets.rs, personas.rs *)

Definition LIST_CAP : nat := 500.

Definition on_db {A : Type} (f : DbFile -> A * DbFile) (d : A) : M Home A :=
  statement (fun h => match db_file h with
                      | Some b => let '(a, b) := f b in (a, set_db_file (Some b) h)
                      | None => (d, h)
                      end).

Definition set_secrets (v : list Secret) (f : DbFile) : DbFile := mkDbFile (pragma_key f) (kv f) v (personas f).
Definition set_personas (v : list Persona) (f : DbFile) : DbFile := mkDbFile (pragma_key f) (kv f) (secrets f) v.
Definition set_kv (v : gmap string string) (f : DbFile) : DbFile := mkDbFile (pragma_key f) v (secrets f) (personas f).
Definition set_pragma_key (v : string) (f : DbFile) : DbFile := mkDbFile v (kv f) (secrets f) (personas f).

Definition list_secrets : M Home (list Secret) := on_db (fun f => (take LIST_CAP (secrets f), f)) [].

Definition update_value (id : Z) (value : string) : M Home unit :=
  on_db (fun f => (tt, set_secrets (map (fun s => if secret_id s =? id then mkSecret id (secret_key s) value else s) (secrets f)) f)) tt.

Definition list_personas : M Home (list Persona) := on_db (fun f => (take LIST_CAP (personas f), f)) [].

(** [COALESCE(new, old)] *)
Definition coalesce (a b : option string) : option string := match a with Some _ => a | None => b end.

(** The sealed columns of [PersonaUpdate]. *)
Record PersonaUpdate : Type := mkUpdate {
  u_credentials : option string;
  u_totp_seed : option string;
  u_proxy_config : option string;
  u_session_state : option string;
}.

Definition update_persona_row (u : PersonaUpdate) (p : Persona) : Persona :=
  mkPersona (persona_id p) (coalesce (u_credentials u) (credentials_encrypted p))
    (coalesce (u_totp_seed u) (totp_seed_encrypted p)) (coalesce (u_proxy_config u) (proxy_config_encrypted p))
    (coalesce (u_session_state u) (session_state_encrypted p)).

Definition update_persona (id : Z) (u : PersonaUpdate) : M Home unit :=
  on_db (fun f => (tt, set_personas (map (fun p => if persona_id p =? id then update_persona_row u p else p) (personas f)) f)) tt.

(** ** Progress *)

Definition set_phase (p : RotatePhase) : M Home unit := kv_set CFG_PHASE (Z_to_string (phase_code p)).

Definition current_phase : M Home RotatePhase :=
  let! v := kv_get CFG_PHASE in
  ret (match v ≫= parse_i64 with Some v => from_i64 v | None => Done end).

Definition generation : M Home Z := let! v := kv_get CFG_GEN in ret (unwrap_or (v ≫= parse_i64) 0).

Record RotateReport : Type := mkReport { r_generation : Z; secrets_resealed : Z; personas_resealed : Z }.

(** ** The database file *)

Section rotate.
Context `{VaultLibs}.

(** The keyring account's environment, whether SQLCipher is linked, the fresh nonces. *)
Context (profile : option string) (cipher_active : bool) (nonce : string -> string).

(** Does the file decrypt with this pragma? *)
Definition connects (pragma : string) (h : Home) : bool :=
  match db_file h with Some f => str_eqb (pragma_key f) pragma | None => false end.

Definition rekey_db_file (old_key_hex new_key_hex : string) : M Home unit :=
  let old_keyed := key_pragma_value old_key_hex in
  let! opened := statement (fun h => (connects old_keyed h, h)) in
  if negb opened then throw DbError
  else
    let! cv := statement (fun h => (cipher_active, h)) in
    if negb cv then throw CipherUnavailable
    else
      let new_keyed := key_pragma_value new_key_hex in
      faulted (Internal "PRAGMA rekey failed") (fun h =>
        (tt, match db_file h with Some f => set_db_file (Some (set_pragma_key new_keyed f)) h | None => h end)).

(** [db::open]: an absent file is created. *)
Definition open_db (key_hex : string) : M Home unit :=
  let keyed := key_pragma_value key_hex in
  let! opened := statement (fun h =>
    match db_file h with
    | Some f => (str_eqb (pragma_key f) keyed, h)
    | None => (true, set_db_file (Some (mkDbFile keyed ∅ [] [])) h)
    end) in
  if negb opened then throw DbError else if cipher_active then ret tt else throw CipherUnavailable.

Fixpoint opens_in_a_form (forms : list string) : M Home bool :=
  match forms with
  | [] => ret false
  | keyed :: forms =>
      let! ok := attempt (statement (fun h => (connects keyed h, h))) in
      match ok with Ok true => ret true | _ => opens_in_a_form forms end
  end.

Definition db_opens_under (key_hex : string) : M Home bool :=
  let raw := key_pragma_value key_hex in
  let pass := passphrase_pragma_value key_hex in
  opens_in_a_form (if str_eqb raw pass then [raw] else [raw; pass]).

(** ** Resealing *)

Fixpoint reseal_secrets (old new : RootKey) (rows : list Secret) (count : Z) : M Home Z :=
  match rows with
  | [] => ret count
  | row :: rows =>
      let aad := secret_value_aad (secret_key row) in
      match open_field new (value_encrypted row) aad with
      | Ok _ => reseal_secrets old new rows count
      | Err _ =>
          let! plain := from_result (open_field old (value_encrypted row) aad) in
          let! sealed := from_result (seal_field new (nonce aad) plain aad) in
          update_value (secret_id row) sealed ;!
          reseal_secrets old new rows (count + 1)
      end
  end.

(** One column: its new blob when it has to change. *)
Definition reseal_column (old new : RootKey) (col : string) (id : Z) (blob : option string) : result (option string) LocalError :=
  match blob with
  | None => Ok None
  | Some blob =>
      let aad := persona_aad col id in
      match open_field new blob aad with
      | Ok _ => Ok None
      | Err _ =>
          let? plain := open_field old blob aad in
          let? sealed := seal_field new (nonce aad) plain aad in
          Ok (Some sealed)
      end
  end.

Definition some_count (l : list (option string)) : Z := Z.of_nat (length (retain (fun x => bool_decide (is_Some x)) l)).

Fixpoint reseal_personas (old new : RootKey) (rows : list Persona) (count : Z) : M Home Z :=
  match rows with
  | [] => ret count
  | p :: rows =>
      let col c blob := from_result (reseal_column old new c (persona_id p) blob) in
      let! c1 := col "credentials_encrypted" (credentials_encrypted p) in
      let! c2 := col "totp_seed_encrypted" (totp_seed_encrypted p) in
      let! c3 := col "proxy_config_encrypted" (proxy_config_encrypted p) in
      let! c4 := col "session_state_encrypted" (session_state_encrypted p) in
      let touched := some_count [c1; c2; c3; c4] in
      (if 0 <? touched then update_persona (persona_id p) (mkUpdate c1 c2 c3 c4) else ret tt) ;!
      reseal_personas old new rows (count + touched)
  end.

Definition reseal_all (old new : RootKey) : M Home (Z * Z) :=
  let! rows := list_secrets in
  let! n := reseal_secrets old new rows 0 in
  let! ps := list_personas in
  let! k := reseal_personas old new ps 0 in
  ret (n, k).

(** ** The journal *)

(** [u8::from_str_radix] of two digits, which takes a sign. *)
Definition radix_pair (a b : ascii) : option Z :=
  if byte_is "+" a then to_digit16 b
  else match to_digit16 a, to_digit16 b with
       | Some hi, Some lo => Some (16 * hi + lo)
       | _, _ => None
       end.

Fixpoint radix_pairs (l : list ascii) : option (list Z) :=
  match l with
  | a :: b :: rest => match radix_pair a b with Some x => cons x <$> radix_pairs rest | None => None end
  | _ => Some []
  end.

(** A slice inside a multi-byte character panics; that is not modelled. *)
Definition decode_root_hex (s : string) : result RootKey LocalError :=
  let s := trim s in
  if negb (str_len s =? 64) then Err (Internal "rotation journal: bad root length")
  else ok_or (radix_pairs (bytes s)) (Internal "rotation journal: bad hex").

(** Serialised, written and read back by the same code: the record itself. *)
Definition write_journal (gen : Z) (new_root : RootKey) (use_keyring : bool) : M Home unit :=
  let! in_keyring := if use_keyring then keyring_put_rotation_root profile new_root else ret false in
  let new_root_hex := if in_keyring then EmptyString else hex_lower new_root in
  faulted Io (fun h => (tt, set_journal (Some (mkJournal gen new_root_hex in_keyring)) h)).

Definition read_journal : M Home (option RootKey) :=
  let! j := faulted Io (fun h => (journal h, h)) in
  match j with
  | None => ret None
  | Some j =>
      if root_in_keyring j then
        let! r := keyring_get_rotation_root profile in
        match r with
        | Some b => ret (Some b)
        | None => throw (Internal "rotation journal marks the new root as keyring-held but the keyring entry is missing")
        end
      else
        let! r := from_result (decode_root_hex (new_root_hex j)) in ret (Some r)
  end.

Definition remove_journal : M Home unit :=
  let! _ := attempt (faulted Io (fun h => (tt, set_journal None h))) in ret tt.

(** ** Rotation and recovery *)

Definition rewrap_recovery_idempotent (old_root new_root : RootKey) (gen : Z) : M Home unit :=
  let! done := kv_get CFG_REWRAP_GEN in
  if bool_decide (done ≫= parse_i64 = Some gen) then ret tt
  else
    rewrap_for_new_root old_root new_root ;!
    kv_set CFG_REWRAP_GEN (Z_to_string gen).

Definition recover_interrupted_rotation (old : RootKey) (use_keyring : bool) : M Home bool :=
  let! j := read_journal in
  match j with
  | None => ret false
  | Some new_root =>
      let new_key := db_key_hex_for new_root in
      let old_key := db_key_hex_for old in
      let! window_a := db_opens_under new_key in
      if window_a then
        persist_new_root profile new_root use_keyring ;!
        remove_journal ;!
        keyring_delete_rotation_root profile ;!
        ret true
      else
        let! window_b := db_opens_under old_key in
        if window_b then
          open_db old_key ;!
          let! _ := reseal_all old new_root in
          let! gen := generation in
          rewrap_recovery_idempotent old new_root gen ;!
          rekey_db_file old_key new_key ;!
          persist_new_root profile new_root use_keyring ;!
          remove_journal ;!
          keyring_delete_rotation_root profile ;!
          ret true
        else ret false
  end.

(** [new_root] is the fresh root. *)
Definition rotate_root (old new_root : RootKey) (use_keyring : bool) (rewrap : RootKey -> M Home unit) : M Home RotateReport :=
  let old_key_hex := db_key_hex_for old in
  let new_key_hex := db_key_hex_for new_root in
  let! g := generation in
  let next_gen := as_i64 (g + 1) in
  kv_set CFG_GEN (Z_to_string next_gen) ;!
  set_phase Begin ;!
  write_journal next_gen new_root use_keyring ;!
  let! counts := reseal_all old new_root in
  set_phase Reseal ;!
  rewrap new_root ;!
  set_phase Rewrap ;!
  rekey_db_file old_key_hex new_key_hex ;!
  persist_new_root profile new_root use_keyring ;!
  open_db new_key_hex ;!
  set_phase Done ;!
  remove_journal ;!
  keyring_delete_rotation_root profile ;!
  ret (mkReport next_gen (fst counts) (snd counts)).

Definition rewrap_only (old new_root : RootKey) (use_keyring : bool) : M Home RotateReport :=
  rotate_root old new_root use_keyring (fun new_root =>
    let! gen := generation in rewrap_recovery_idempotent old new_root gen).

(** Steps 3 and 3b of the boot: the vault the database is then opened with. [minted] is the root of a first run. *)
Definition boot (minted : RootKey) (use_keyring : bool) : M Home RootKey :=
  let! vault := load_or_create profile minted use_keyring in
  let! r := attempt (recover_interrupted_rotation vault use_keyring) in
  match r with
  | Ok true => load_or_create profile minted use_keyring
  | Ok false => ret vault
  | Err _ => ret vault
  end.
End rotate.

(** ** Hexadecimal round trip *)

Lemma hex_digit_spec (n : Z) : 0 <= n < 16 ->
  to_digit16 (hex_digit n) = Some n /\ graphic (hex_digit n) = true /\ byte_is "+" (hex_digit n) = false.
Proof.
  intros Hn. assert (Hc : n ∈ (Z.of_nat <$> seq 0 16)).
  { apply list_elem_of_fmap. exists (Z.to_nat n). split; [lia|]. apply elem_of_seq. lia. }
  assert (Hall : Forall (fun n => to_digit16 (hex_digit n) = Some n /\ graphic (hex_digit n) = true /\ byte_is "+" (hex_digit n) = false)
    (Z.of_nat <$> seq 0 16)) by (repeat constructor).
  rewrite Forall_forall in Hall. by apply Hall.
Qed.

Lemma nibbles (b : Z) : 0 <= b < 256 -> 0 <= Z.shiftr b 4 < 16 /\ 0 <= Z.land b 15 < 16 /\ 16 * Z.shiftr b 4 + Z.land b 15 = b.
Proof.
  intros Hb. rewrite Z.shiftr_div_pow2 by lia. change 15 with (Z.ones 4). rewrite Z.land_ones by lia.
  change (2 ^ 4) with 16. zlia.
Qed.

Lemma hex_lower_cons (b : Z) (l : list Z) :
  hex_lower (b :: l) = String (hex_digit (Z.shiftr b 4)) (String (hex_digit (Z.land b 15)) (hex_lower l)).
Proof. done. Qed.

Lemma hex_lower_spec (l : list Z) : Forall (fun b => 0 <= b < 256) l ->
  radix_pairs (bytes (hex_lower l)) = Some l /\ str_all graphic (hex_lower l) = true /\
  String.length (hex_lower l) = (2 * length l)%nat /\
  all (fun c => bool_decide (is_Some (to_digit16 c))) (bytes (hex_lower l)) = true.
Proof.
  induction 1 as [|b l Hb _ (IH1 & IH2 & IH3 & IH4)]; [done|]. rewrite hex_lower_cons.
  destruct (nibbles b Hb) as (H1 & H2 & H3).
  destruct (hex_digit_spec _ H1) as (A1 & A2 & A3), (hex_digit_spec _ H2) as (B1 & B2 & B3).
  split_and!.
  - cbn [bytes list_ascii_of_string radix_pairs]. unfold radix_pair. rewrite A3, A1, B1, H3.
    unfold bytes in IH1. by rewrite IH1.
  - cbn [str_all]. by rewrite A2, B2.
  - cbn [String.length length]. lia.
  - unfold all, bytes in *. cbn [list_ascii_of_string forallb]. rewrite A1, B1, IH4. done.
Qed.

Lemma decode_root_hex_lower (r : RootKey) : root_ok r -> decode_root_hex (hex_lower r) = Ok r.
Proof.
  intros [Hl Hb]. destruct (hex_lower_spec r Hb) as (H1 & H2 & H3 & _). unfold decode_root_hex.
  rewrite trim_graphic by done. unfold str_len. rewrite H3, Hl. cbn [Z.eqb negb]. by rewrite H1.
Qed.

Lemma hex_lower_inj (a b : RootKey) : root_ok a -> root_ok b -> hex_lower a = hex_lower b -> a = b.
Proof. intros Ha Hb E. pose proof (decode_root_hex_lower a Ha) as H. rewrite E, (decode_root_hex_lower b Hb) in H. congruence. Qed.

(** ** The keys of the database *)

Section keys.
Context `{VaultLaws}.

Lemma db_key_raw (r : RootKey) : is_raw_hex_key (db_key_hex_for r) = true.
Proof.
  unfold is_raw_hex_key, db_key_hex_for. destruct (hex_lower_spec (hkdf r "writ-db-v1")) as (_ & _ & H3 & H4); [apply hkdf_bytes|].
  unfold str_len. rewrite H3, hkdf_length, H4. done.
Qed.

Lemma key_pragma_raw (r : RootKey) : key_pragma_value (db_key_hex_for r) = quote (String "x" (quoted (db_key_hex_for r))).
Proof. unfold key_pragma_value. by rewrite db_key_raw. Qed.

Lemma append_inj_r (a b t : string) : String.append a t = String.append b t -> a = b.
Proof.
  intros E. apply (f_equal bytes) in E. rewrite !bytes_append in E. apply app_inv_tail in E.
  rewrite <- (of_bytes_bytes a), <- (of_bytes_bytes b). by rewrite E.
Qed.

(** Roots with different database keys have different pragma values, and neither is a passphrase form. *)
Lemma pragma_distinct (a b : RootKey) : hkdf a "writ-db-v1" <> hkdf b "writ-db-v1" ->
  key_pragma_value (db_key_hex_for a) <> key_pragma_value (db_key_hex_for b).
Proof.
  intros Hne E. rewrite !key_pragma_raw in E. unfold quote, quoted in E.
  injection E as E. apply append_inj_r in E. apply append_inj_r in E. apply Hne.
  by apply (hex_lower_inj _ _ (hkdf_ok a _) (hkdf_ok b _)).
Qed.

Lemma pragma_not_passphrase (a : RootKey) (s : string) : key_pragma_value (db_key_hex_for a) <> passphrase_pragma_value s.
Proof. rewrite key_pragma_raw. by unfold quote, passphrase_pragma_value, quoted. Qed.
End keys.
