(* ===== verification/VaultCrash.v ===== *)
(** * The crash safety of the rotation of the root

    Key file custody, at most 500 secrets and personas: through any faults, so any crashes, of the rotation and of
    the boots after it, the home stays in one of four states ([before], [begun], [rekeyed], [committed]), from each
    of which a boot without faults ends with the database open under the root it loads and every field
    readable. Then what a rotation does not carry over: the recovery wrap when it is interrupted between the wrap and its marker,
    the app lock, the rows past the listing's cap, the rows of an interrupted rotation under a second one, and a failed
    recovery at boot. *)

From Stdlib Require Import Ascii String.
From S2P Require Import Prelude Ints Str UpdateManifest Store VaultRoot VaultRecovery VaultLock VaultRotate.
Open Scope Z_scope.
Open Scope store_scope.

(** ** Triples with and without faults *)

(** With [clean] there are no faults, and then no operation fails. *)
Definition with_faults (clean : bool) (P : Home -> Prop) : Home -> Prop :=
  fun h => P h /\ (clean = true -> home_faults h = []).
Definition failed (clean : bool) (P : Home -> Prop) : Home -> Prop := fun h => clean = false /\ P h.

Definition triple {A : Type} (clean : bool) (P : Home -> Prop) (c : M Home A) (Q : A -> Home -> Prop) (E : Home -> Prop) : Prop :=
  hoare (with_faults clean P) c (fun a => with_faults clean (Q a)) (failed clean E).

Section triples.
Context {A B : Type} (clean : bool).
Implicit Types (P E : Home -> Prop).

Lemma t_op (e : LocalError) (f : Home -> A * Home) P (Q : A -> Home -> Prop) E :
  stable P -> (forall h, home_faults (snd (f h)) = home_faults h) -> (forall h, P h -> E h) ->
  (forall h, P h -> Q (fst (f h)) (snd (f h))) -> triple clean P (faulted e f) Q E.
Proof.
  intros HP Hf HE HQ h [Hh Hc]. unfold faulted. cbn [faults home_faulty].
  destruct (home_faults h) as [|[] fs] eqn:Ef.
  - specialize (HQ h Hh). specialize (Hf h). destruct (f h) as [a h']. simpl in *. split; [done|]. intros _. congruence.
  - destruct clean; [by specialize (Hc eq_refl)|]. split; [done|]. apply HE, (HP h fs), Hh.
  - destruct clean; [by specialize (Hc eq_refl)|]. specialize (HQ _ (HP h fs Hh)). cbn [set_faults home_faulty] in *.
    destruct (f _) as [a h']. by split.
Qed.

Lemma t_ret (a : A) P (Q : A -> Home -> Prop) E : (forall h, P h -> Q a h) -> triple clean P (ret a) Q E.
Proof. intros HQ h [Hh Hc]. split; auto. Qed.

Lemma t_bind (c : M Home A) (k : A -> M Home B) P (R : A -> Home -> Prop) (Q : B -> Home -> Prop) E :
  triple clean P c R E -> (forall a, triple clean (R a) (k a) Q E) -> triple clean P (bind c k) Q E.
Proof. intros Hc Hk. by eapply hoare_bind. Qed.

Lemma t_conseq (c : M Home A) P P' (Q Q' : A -> Home -> Prop) E E' :
  triple clean P' c Q' E' -> (forall h, P h -> P' h) -> (forall a h, Q' a h -> Q a h) -> (forall h, E' h -> E h) ->
  triple clean P c Q E.
Proof.
  intros Hc HP HQ HE. eapply hoare_conseq; [exact Hc| | |].
  - intros h [? ?]. split; auto.
  - intros a h [? ?]. split; auto.
  - intros h [? ?]. split; auto.
Qed.

(** An error that is handled; there is none without faults. *)
Lemma t_attempt (c : M Home A) P (Q : A -> Home -> Prop) E F :
  triple clean P c Q E -> triple clean P (attempt c) (fun r h => match r with Ok a => Q a h | Err _ => clean = false /\ E h end) F.
Proof.
  intros Hc h Hh. specialize (Hc h Hh). unfold attempt. destruct (c h) as [[a|e] h']; [done|].
  destruct Hc as [-> HE]. by split.
Qed.

Lemma t_fact (c : M Home A) P (X : Prop) (Q : A -> Home -> Prop) E :
  (X -> triple clean P c Q E) -> triple clean (fun h => P h /\ X) c Q E.
Proof. intros Hc h [[Hh HX] Hf]. by apply Hc. Qed.

Lemma t_ex {I : Type} (c : M Home A) (X : I -> Prop) (P : I -> Home -> Prop) (Q : A -> Home -> Prop) E :
  (forall i, X i -> triple clean (P i) c Q E) -> triple clean (fun h => exists i, X i /\ P i h) c Q E.
Proof. intros Hc h [(i & HX & Hh) Hf]. by apply (Hc i). Qed.

Lemma t_from_ok (r : result A LocalError) (a : A) P E : r = Ok a -> triple clean P (from_result r) (fun x h => P h /\ x = a) E.
Proof. intros ->. apply t_ret. by split. Qed.
End triples.

(** A write whose error is ignored. *)
Lemma t_try (clean : bool) (e : LocalError) (f : Home -> Home) (P R E : Home -> Prop) :
  stable P -> (forall h, home_faults (f h) = home_faults h) -> (forall h, P h -> R (f h)) -> (clean = false -> forall h, P h -> R h) ->
  triple clean P (let! _ := attempt (faulted e (fun h => (tt, f h))) in ret tt) (fun _ => R) E.
Proof.
  intros HP Hf H1 H2. eapply t_bind; [apply t_attempt, (t_op clean e _ P (fun _ => R) P); auto|].
  intros [a|e'] h [Hh Hc]; [by split|]. destruct Hh as [-> Hh]. split; auto.
Qed.

(** ** The operations on a home whose files are known *)

Definition home_is (kf : option RootKey) (j : option RotateJournal) (f : DbFile) (h : Home) : Prop :=
  key_file h = kf /\ journal h = j /\ db_file h = Some f.

Lemma home_is_stable kf j f : stable (home_is kf j f).
Proof. intros h fs H. exact H. Qed.

Section ops.
Context (clean : bool) (kf : option RootKey) (j : option RotateJournal) (f : DbFile).
Implicit Type E : Home -> Prop.

Lemma t_on_db {A : Type} (g : DbFile -> A * DbFile) (d : A) E : (forall h, home_is kf j f h -> E h) ->
  triple clean (home_is kf j f) (on_db g d) (fun a h => home_is kf j (snd (g f)) h /\ a = fst (g f)) E.
Proof.
  intros HE. apply t_op; [apply home_is_stable| |done|].
  - intros h. destruct (db_file h) as [b|]; [|done]. by destruct (g b).
  - intros h (H1 & H2 & H3). rewrite H3. destruct (g f) as [a b]. by split.
Qed.

Lemma t_kv_get (k : string) E : (forall h, home_is kf j f h -> E h) ->
  triple clean (home_is kf j f) (kv_get k) (fun v h => home_is kf j f h /\ v = kv f !! k) E.
Proof.
  intros HE. apply t_op; [apply home_is_stable|done|done|]. intros h (H1 & H2 & H3). cbn. by rewrite H3.
Qed.

Lemma t_kv_set (k v : string) E : (forall h, home_is kf j f h -> E h) ->
  triple clean (home_is kf j f) (kv_set k v) (fun _ => home_is kf j (set_kv (<[k := v]> (kv f)) f)) E.
Proof.
  intros HE. apply t_op; [apply home_is_stable| |done|].
  - intros h. cbn. by destruct (db_file h).
  - intros h (H1 & H2 & H3). unfold home_is. cbn. rewrite H3. by split.
Qed.

Lemma t_connects (e : LocalError) (s : string) E : (forall h, home_is kf j f h -> E h) ->
  triple clean (home_is kf j f) (faulted e (fun h => (connects s h, h)))
    (fun b h => home_is kf j f h /\ b = str_eqb (pragma_key f) s) E.
Proof.
  intros HE. apply t_op; [apply home_is_stable|done|done|]. intros h Hh. split; [done|].
  unfold connects. cbn [fst snd]. by destruct Hh as (_ & _ & ->).
Qed.

Lemma t_opens (forms : list string) E :
  triple clean (home_is kf j f) (opens_in_a_form forms)
    (fun b h => home_is kf j f h /\ ((b = true -> pragma_key f ∈ forms) /\ (clean = true -> pragma_key f ∈ forms -> b = true))) E.
Proof.
  induction forms as [|s forms IH]; cbn [opens_in_a_form].
  { apply t_ret. intros h Hh. split; [done|]. split; [done|]. intros _ Hin. by apply elem_of_nil in Hin. }
  eapply t_bind; [by apply t_attempt, (t_connects _ _ (home_is kf j f))|]. intros r.
  assert (Hrest : forall (X : Prop), (X -> clean = true -> pragma_key f <> s) ->
    triple clean (fun h => home_is kf j f h /\ X) (opens_in_a_form forms)
    (fun b h => home_is kf j f h /\ ((b = true -> pragma_key f ∈ s :: forms) /\ (clean = true -> pragma_key f ∈ s :: forms -> b = true))) E).
  { intros X HX. apply t_fact. intros Hx. eapply t_conseq; [exact IH|done| |done]. intros b h (Hh & H1 & H2).
    split; [done|]. split; [intros; right; auto|]. intros Hcl Hin. apply elem_of_cons in Hin as [Hin|Hin]; [by destruct (HX Hx Hcl)|auto]. }
  destruct r as [[]|e].
  - apply t_fact. intros Eb. symmetry in Eb. apply str_eqb_eq in Eb. apply t_ret. intros h Hh. split; [done|]. rewrite Eb.
    split; [intros _; left|done].
  - eapply Hrest. intros Eb _ Es. by rewrite Es, str_eqb_refl in Eb.
  - eapply t_conseq; [apply (Hrest (clean = false))|..]; [congruence| |done|done]. by intros h [? ?].
Qed.
End ops.

(** ** Fields *)

Section fields.
Context `{VaultLaws} (nonce : string -> string) (new : RootKey).

Definition secret_in (r : RootKey) (s : Secret) : option string :=
  result_ok (open_field r (value_encrypted s) (secret_value_aad (secret_key s))).

(** [Some None] is a NULL column. *)
Definition cell_in (r : RootKey) (col : string) (id : Z) (b : option string) : option (option string) :=
  match b with
  | None => Some None
  | Some b => Some <$> result_ok (open_field r b (persona_aad col id))
  end.

Definition cells (p : Persona) : list (string * option string) :=
  [("credentials_encrypted"%string, credentials_encrypted p); ("totp_seed_encrypted"%string, totp_seed_encrypted p);
   ("proxy_config_encrypted"%string, proxy_config_encrypted p); ("session_state_encrypted"%string, session_state_encrypted p)].

Definition persona_in (r : RootKey) (p : Persona) : list (option (option string)) :=
  map (fun c => cell_in r (fst c) (persona_id p) (snd c)) (cells p).

(** What a field holds in the middle of a rotation from [o]: the new root is tried first. *)
Definition first {A : Type} (a b : option A) : option A := match a with Some _ => a | None => b end.
Definition content (o : RootKey) (s : Secret) : option string := first (secret_in new s) (secret_in o s).
Definition cell_content (o : RootKey) (col : string) (id : Z) (b : option string) : option (option string) :=
  first (cell_in new col id b) (cell_in o col id b).
Definition persona_content (o : RootKey) (p : Persona) : list (option (option string)) :=
  map (fun c => cell_content o (fst c) (persona_id p) (snd c)) (cells p).

(** Resealed with the same content, or not yet. *)
Definition moved (o : RootKey) (s s' : Secret) : Prop :=
  secret_id s' = secret_id s /\ secret_key s' = secret_key s /\ is_Some (secret_in new s') /\ secret_in new s' = content o s.
Definition moved_persona (o : RootKey) (p p' : Persona) : Prop :=
  persona_id p' = persona_id p /\ Forall is_Some (persona_in new p') /\ persona_in new p' = persona_content o p.
Definition maybe {A : Type} (R : A -> A -> Prop) (a b : A) : Prop := b = a \/ R a b.

Lemma maybe_refl {A : Type} (R : A -> A -> Prop) (l : list A) : Forall2 (maybe R) l l.
Proof. induction l; constructor; [by left|done]. Qed.

Lemma all_maybe {A : Type} (R : A -> A -> Prop) (l k : list A) : Forall2 R l k -> Forall2 (maybe R) l k.
Proof. intros HR. eapply Forall2_impl; [exact HR|]. by right. Qed.

Context (Hnonce : forall a, String.length (nonce a) = 24%nat).
Context (Hseal : forall k n m a, is_Some (aead_encrypt k n m a)).

Lemma reseal_opens (plain aad : string) : exists blob,
  seal_field new (nonce aad) plain aad = Ok blob /\ open_field new blob aad = Ok plain.
Proof.
  destruct (Hseal (hkdf new "writ-field-v1") (nonce aad) plain aad) as [ct Hct].
  assert (Hs : exists blob, seal_field new (nonce aad) plain aad = Ok blob) by (unfold seal_field; rewrite Hct; eauto).
  destruct Hs as [blob Hs]. exists blob. split; [done|]. by eapply open_seal.
Qed.

(** One row by its id. *)
Lemma map_update_mid {A : Type} (id : A -> Z) (g : A -> A) (l : list A) (x : A) (k : list A) :
  NoDup (map id (l ++ x :: k)) -> map (fun s => if id s =? id x then g s else s) (l ++ x :: k) = (l ++ g x :: k)%list.
Proof.
  intros Hnd. rewrite map_app. cbn [map]. rewrite Z.eqb_refl.
  assert (Hid : forall m, (forall y, y ∈ m -> id y <> id x) -> map (fun s => if id s =? id x then g s else s) m = m).
  { intros m Hm. induction m as [|y m IH]; [done|]. cbn [map].
    destruct (Z.eqb_spec (id y) (id x)) as [E|]; [destruct (Hm y); [left|done]|]. f_equal. apply IH. intros; apply Hm; by right. }
  rewrite map_app in Hnd. cbn [map] in Hnd. apply NoDup_app in Hnd as (_ & H1 & H2). apply NoDup_cons in H2 as [H2 _].
  rewrite !Hid; [done| |].
  - intros y Hy E. apply H2. rewrite <- E. by apply list_elem_of_fmap_2.
  - intros y Hy E. apply (H1 (id y)); [by apply list_elem_of_fmap_2|]. rewrite E. left.
Qed.

Lemma reseal_secrets_triple (clean : bool) (kf : option RootKey) (j : option RotateJournal) (f : DbFile) (o : RootKey)
    (pre rows : list Secret) (n : Z) :
  NoDup (map secret_id (pre ++ rows)) -> Forall (fun s => is_Some (content o s)) rows ->
  triple clean (home_is kf j (set_secrets (pre ++ rows) f)) (reseal_secrets nonce o new rows n)
    (fun _ h => exists rows', Forall2 (moved o) rows rows' /\ home_is kf j (set_secrets (pre ++ rows') f) h)
    (fun h => exists rows', Forall2 (maybe (moved o)) rows rows' /\ home_is kf j (set_secrets (pre ++ rows') f) h).
Proof.
  revert pre n. induction rows as [|row rows IH]; intros pre n Hnd Hr.
  { apply t_ret. intros h Hh. by exists []. }
  apply Forall_cons in Hr as [[p Hp] Hr]. cbn [reseal_secrets].
  (* the rest, once this row is moved *)
  assert (Hrest : forall row' m, moved o row row' ->
    triple clean (home_is kf j (set_secrets (pre ++ row' :: rows) f)) (reseal_secrets nonce o new rows m)
      (fun _ h => exists rows', Forall2 (moved o) (row :: rows) rows' /\ home_is kf j (set_secrets (pre ++ rows') f) h)
      (fun h => exists rows', Forall2 (maybe (moved o)) (row :: rows) rows' /\ home_is kf j (set_secrets (pre ++ rows') f) h)).
  { intros row' m Hm. specialize (IH (pre ++ [row'])%list m). rewrite <- !app_assoc in IH. cbn [app] in IH.
    eapply t_conseq; [apply IH|done| |].
    - rewrite map_app in *. cbn [map] in *. by rewrite (proj1 Hm).
    - done.
    - intros a h (rows' & H1 & H2). exists (row' :: rows'). rewrite <- app_assoc in H2. split; [by constructor|done].
    - intros h (rows' & H1 & H2). exists (row' :: rows'). rewrite <- app_assoc in H2. split; [constructor; [by right|done]|done]. }
  unfold content, first, secret_in in Hp.
  destruct (open_field new (value_encrypted row) _) as [q|e] eqn:En; simpl in Hp.
  { apply Hrest. split_and!; try done; unfold content, first, secret_in; rewrite En; simpl; eauto. }
  destruct (open_field o (value_encrypted row) _) as [q|e'] eqn:Eo; [|done]. injection Hp as ->.
  destruct (reseal_opens p (secret_value_aad (secret_key row))) as (blob & Hs & Ho).
  eapply t_bind; [exact (t_from_ok clean _ _ _ _ eq_refl)|]. intros x. apply t_fact. intros ->.
  eapply t_bind; [exact (t_from_ok clean _ _ _ _ Hs)|]. intros x. apply t_fact. intros ->.
  set (row' := mkSecret (secret_id row) (secret_key row) blob).
  eapply t_bind with (R := fun _ => home_is kf j (set_secrets (pre ++ row' :: rows) f)); [|intros []; apply Hrest].
  - eapply t_conseq; [apply t_on_db|done| |].
    + intros h Hh. exact Hh.
    + intros a h [Hh _]. cbn [snd fst] in Hh. unfold set_secrets in Hh. cbn [secrets pragma_key kv personas] in Hh.
      rewrite (map_update_mid secret_id (fun s => mkSecret (secret_id row) (secret_key s) blob)) in Hh by done. exact Hh.
    + intros h Hh. exists (row :: rows). split; [apply maybe_refl|done].
  - unfold moved, content, first, secret_in, row'. cbn [secret_id secret_key value_encrypted]. rewrite Ho, En, Eo. cbn. by eauto.
Qed.

Lemma reseal_column_ok (o : RootKey) (col : string) (id : Z) (b : option string) :
  is_Some (cell_content o col id b) -> exists u, reseal_column nonce o new col id b = Ok u /\
    cell_in new col id (coalesce u b) = cell_content o col id b.
Proof.
  destruct b as [b|]; [|by exists None]. unfold cell_content, first, cell_in, reseal_column.
  destruct (open_field new b _) as [q|e] eqn:En.
  { intros _. exists None. cbn [coalesce]. by rewrite En. }
  destruct (open_field o b _) as [q|e'] eqn:Eo; [|by intros []]. intros _.
  destruct (reseal_opens q (persona_aad col id)) as (blob & Hs & Ho). exists (Some blob). cbn [coalesce result_bind]. by rewrite Hs, Ho.
Qed.

Definition apply_update (u : list (option string)) (p : Persona) : Persona :=
  match u with [c1; c2; c3; c4] => update_persona_row (mkUpdate c1 c2 c3 c4) p | _ => p end.

Lemma nothing_touched (c1 c2 c3 c4 : option string) (p : Persona) :
  (0 <? some_count [c1; c2; c3; c4]) = false -> update_persona_row (mkUpdate c1 c2 c3 c4) p = p.
Proof. destruct c1, c2, c3, c4; try done. by destruct p. Qed.

Lemma reseal_personas_triple (clean : bool) (kf : option RootKey) (j : option RotateJournal) (f : DbFile) (o : RootKey)
    (pre rows : list Persona) (n : Z) :
  NoDup (map persona_id (pre ++ rows)) -> Forall (fun p => Forall is_Some (persona_content o p)) rows ->
  triple clean (home_is kf j (set_personas (pre ++ rows) f)) (reseal_personas nonce o new rows n)
    (fun _ h => exists rows', Forall2 (moved_persona o) rows rows' /\ home_is kf j (set_personas (pre ++ rows') f) h)
    (fun h => exists rows', Forall2 (maybe (moved_persona o)) rows rows' /\ home_is kf j (set_personas (pre ++ rows') f) h).
Proof.
  revert pre n. induction rows as [|p rows IH]; intros pre n Hnd Hr.
  { apply t_ret. intros h Hh. by exists []. }
  apply Forall_cons in Hr as [Hp Hr]. cbn [reseal_personas].
  assert (Hrest : forall p' m, moved_persona o p p' ->
    triple clean (home_is kf j (set_personas (pre ++ p' :: rows) f)) (reseal_personas nonce o new rows m)
      (fun _ h => exists rows', Forall2 (moved_persona o) (p :: rows) rows' /\ home_is kf j (set_personas (pre ++ rows') f) h)
      (fun h => exists rows', Forall2 (maybe (moved_persona o)) (p :: rows) rows' /\ home_is kf j (set_personas (pre ++ rows') f) h)).
  { intros p' m Hm. specialize (IH (pre ++ [p'])%list m). rewrite <- !app_assoc in IH. cbn [app] in IH.
    eapply t_conseq; [apply IH|done| |].
    - rewrite map_app in *. cbn [map] in *. by rewrite (proj1 Hm).
    - done.
    - intros a h (rows' & H1 & H2). exists (p' :: rows'). rewrite <- app_assoc in H2. split; [by constructor|done].
    - intros h (rows' & H1 & H2). exists (p' :: rows'). rewrite <- app_assoc in H2. split; [constructor; [by right|done]|done]. }
  unfold persona_content, cells in Hp. cbn [map fst snd] in Hp. rewrite !Forall_cons in Hp. destruct Hp as (P1 & P2 & P3 & P4 & _).
  destruct (reseal_column_ok _ _ _ _ P1) as (c1 & E1 & F1), (reseal_column_ok _ _ _ _ P2) as (c2 & E2 & F2),
    (reseal_column_ok _ _ _ _ P3) as (c3 & E3 & F3), (reseal_column_ok _ _ _ _ P4) as (c4 & E4 & F4).
  do 4 (eapply t_bind; [eapply t_from_ok; first [exact E1|exact E2|exact E3|exact E4]|]; intros x; apply t_fact; intros ->).
  set (p' := update_persona_row (mkUpdate c1 c2 c3 c4) p).
  assert (Hm : moved_persona o p p').
  { unfold moved_persona, persona_in, persona_content, cells, p'. cbn [map fst snd persona_id update_persona_row
      credentials_encrypted totp_seed_encrypted proxy_config_encrypted session_state_encrypted u_credentials u_totp_seed u_proxy_config u_session_state].
    rewrite F1, F2, F3, F4. split; [done|]. split; [|done]. by repeat constructor. }
  eapply t_bind with (R := fun _ => home_is kf j (set_personas (pre ++ p' :: rows) f)); [|intros []; by apply Hrest].
  destruct (0 <? some_count [c1; c2; c3; c4]) eqn:Et.
  - eapply t_conseq; [apply t_on_db|done| |].
    + intros h Hh. exact Hh.
    + intros a h [Hh _]. cbn [snd fst] in Hh. unfold set_personas in Hh. cbn [secrets pragma_key kv personas] in Hh.
      rewrite (map_update_mid persona_id (update_persona_row (mkUpdate c1 c2 c3 c4))) in Hh by done. exact Hh.
    + intros h Hh. exists (p :: rows). split; [apply maybe_refl|done].
  - apply t_ret. unfold p'. by rewrite nothing_touched.
Qed.

Definition moved_file (R : Secret -> Secret -> Prop) (Rp : Persona -> Persona -> Prop) (f f' : DbFile) : Prop :=
  pragma_key f' = pragma_key f /\ kv f' = kv f /\ Forall2 R (secrets f) (secrets f') /\ Forall2 Rp (personas f) (personas f').

(** The first [LIST_CAP] rows are all there are. *)
Definition capped (f : DbFile) : Prop :=
  (length (secrets f) <= LIST_CAP)%nat /\ (length (personas f) <= LIST_CAP)%nat /\
  NoDup (map secret_id (secrets f)) /\ NoDup (map persona_id (personas f)).

Definition readable (o : RootKey) (f : DbFile) : Prop :=
  Forall (fun s => is_Some (content o s)) (secrets f) /\ Forall (fun p => Forall is_Some (persona_content o p)) (personas f).

Lemma reseal_all_triple (clean : bool) (kf : option RootKey) (j : option RotateJournal) (f : DbFile) (o : RootKey) :
  capped f -> readable o f ->
  triple clean (home_is kf j f) (reseal_all nonce o new)
    (fun _ h => exists f', moved_file (moved o) (moved_persona o) f f' /\ home_is kf j f' h)
    (fun h => exists f', moved_file (maybe (moved o)) (maybe (moved_persona o)) f f' /\ home_is kf j f' h).
Proof.
  intros (L1 & L2 & N1 & N2) [R1 R2]. unfold reseal_all. destruct f as [pk m ss ps]. cbn [secrets personas] in *.
  assert (Hsame : forall h, home_is kf j (mkDbFile pk m ss ps) h -> exists f',
    moved_file (maybe (moved o)) (maybe (moved_persona o)) (mkDbFile pk m ss ps) f' /\ home_is kf j f' h).
  { intros h Hh. exists (mkDbFile pk m ss ps). split; [|done]. split_and!; try done; apply maybe_refl. }
  eapply t_bind; [by apply t_on_db|]. intros rows. apply t_fact. cbn [fst snd secrets]. intros ->. rewrite take_ge by done.
  eapply t_bind; [eapply t_conseq; [apply (reseal_secrets_triple clean kf j (mkDbFile pk m ss ps) o [] ss 0); done|done| |]|].
  { intros a h Hh. exact Hh. }
  { intros h (ss' & Hss & Hh). exists (mkDbFile pk m ss' ps). split; [|done]. split_and!; try done. apply maybe_refl. }
  intros n h [(ss' & Hss & Hh) Hc]. revert h Hh Hc. unfold set_secrets. cbn [app pragma_key kv personas].
  enough (Ht : triple clean (home_is kf j (mkDbFile pk m ss' ps)) (let! ps := list_personas in let! k := reseal_personas nonce o new ps 0 in ret (n, k))
    (fun _ h => exists f', moved_file (moved o) (moved_persona o) (mkDbFile pk m ss ps) f' /\ home_is kf j f' h)
    (fun h => exists f', moved_file (maybe (moved o)) (maybe (moved_persona o)) (mkDbFile pk m ss ps) f' /\ home_is kf j f' h))
    by (intros h Hh Hc; exact (Ht h (conj Hh Hc))).
  eapply t_bind.
  { apply t_on_db. intros h Hh. exists (mkDbFile pk m ss' ps). split; [|done]. split_and!; try done; [by apply all_maybe|apply maybe_refl]. }
  intros rows. apply t_fact. cbn [fst snd personas]. intros ->. rewrite take_ge by done.
  eapply t_bind; [eapply t_conseq; [apply (reseal_personas_triple clean kf j (mkDbFile pk m ss' ps) o [] ps 0); done|done| |]|].
  { intros a h (ps' & Hps & Hh). assert (Hx : exists f', moved_file (moved o) (moved_persona o) (mkDbFile pk m ss ps) f' /\ home_is kf j f' h).
    { by exists (mkDbFile pk m ss' ps'). }
    exact Hx. }
  { intros h (ps' & Hps & Hh). exists (mkDbFile pk m ss' ps'). split; [|done]. split_and!; try done. by apply all_maybe. }
  intros k. by apply t_ret.
Qed.
End fields.

(** ** The steps of the rotation *)

(** The recovery wrap, if any, is one. *)
Definition wrap_ok `{VaultLibs} (m : gmap string string) : Prop :=
  forall w, m !! CFG_RECOVERY_WRAP = Some w -> exists r, unb64_32 "recovery" w = Ok r.

Section steps.
Context `{VaultLaws} (profile : option string) (clean : bool) (kf : option RootKey) (j : option RotateJournal) (f : DbFile).

Lemma wrap_ok_insert (m : gmap string string) (k v : string) : k <> CFG_RECOVERY_WRAP -> wrap_ok m -> wrap_ok (<[k := v]> m).
Proof. intros Hk Hm w. rewrite lookup_insert_ne by done. apply Hm. Qed.

Definition other_kv (h : Home) : Prop := exists m, wrap_ok m /\ home_is kf j (set_kv m f) h.

Lemma other_kv_same (h : Home) : wrap_ok (kv f) -> home_is kf j f h -> other_kv h.
Proof. intros Hm Hh. exists (kv f). split; [done|]. destruct f. exact Hh. Qed.

Lemma t_kv_set_other (m : gmap string string) (k v : string) : k <> CFG_RECOVERY_WRAP -> wrap_ok m ->
  triple clean (home_is kf j (set_kv m f)) (kv_set k v) (fun _ => other_kv) other_kv.
Proof.
  intros Hk Hm. eapply t_conseq; [apply t_kv_set|done| |].
  - intros h Hh. exact Hh.
  - intros a h Hh. exists (<[k := v]> m). split; [by apply wrap_ok_insert|exact Hh].
  - intros h Hh. by exists m.
Qed.

Lemma rewrap_triple (o new : RootKey) (gen : Z) : root_ok o -> root_ok new -> wrap_ok (kv f) ->
  triple clean (home_is kf j f) (rewrap_recovery_idempotent o new gen) (fun _ => other_kv) other_kv.
Proof.
  intros Ho Hn Hm. assert (Hs := fun h => other_kv_same h Hm). unfold rewrap_recovery_idempotent.
  eapply t_bind; [by apply t_kv_get|]. intros d. apply t_fact. intros ->.
  case_bool_decide; [by apply t_ret|].
  eapply t_bind with (R := fun _ => other_kv).
  - unfold rewrap_for_new_root. eapply t_bind; [by apply t_kv_get|]. intros w. apply t_fact. intros ->.
    destruct (kv f !! CFG_RECOVERY_WRAP) as [w|] eqn:Ew; [|by apply t_ret].
    destruct (Hm w Ew) as [r Hr]. eapply t_bind; [exact (t_from_ok clean _ r _ _ Hr)|]. intros x. apply t_fact. intros ->.
    eapply t_conseq; [apply t_kv_set|done| |done]; [done|]. intros a h Hh.
    exists (<[CFG_RECOVERY_WRAP := b64 (xor new (xor o r))]> (kv f)). split; [|done]. intros w'. rewrite lookup_insert_eq. intros [= <-].
    exists (xor new (xor o r)). apply unb64_32_b64, xor_ok; [done|]. apply xor_ok; [done|]. by eapply unb64_32_ok.
  - intros [] h [(m & Hm1 & Hm2) Hm3]. by apply (t_kv_set_other m CFG_REWRAP_GEN (Z_to_string gen)).
Qed.

Lemma generation_triple (E : Home -> Prop) : (forall h, home_is kf j f h -> E h) ->
  triple clean (home_is kf j f) generation (fun _ => home_is kf j f) E.
Proof. intros HE. eapply t_bind; [by apply t_kv_get|]. intros v. apply t_ret. by intros h [? _]. Qed.

Definition rekeyed_file (key_hex : string) : DbFile := set_pragma_key (key_pragma_value key_hex) f.

Lemma rekey_triple (a b : string) (E : Home -> Prop) : pragma_key f = key_pragma_value a ->
  (forall h, home_is kf j f h -> E h) ->
  triple clean (home_is kf j f) (rekey_db_file true a b) (fun _ => home_is kf j (rekeyed_file b)) E.
Proof.
  intros Hp HE. unfold rekey_db_file. eapply t_bind; [by apply t_connects|]. intros x. apply t_fact. intros ->.
  rewrite Hp, str_eqb_refl. cbn [negb]. eapply t_bind with (R := fun cv h => home_is kf j f h /\ cv = true).
  { apply t_op; [apply home_is_stable|done|done|by split]. }
  intros cv. apply t_fact. intros ->. apply t_op; [apply home_is_stable| |done|].
  - intros h. cbn. by destruct (db_file h).
  - intros h (H1 & H2 & H3). cbn [fst snd]. rewrite H3. by split.
Qed.

Lemma open_db_triple (a : string) (E : Home -> Prop) : pragma_key f = key_pragma_value a ->
  (forall h, home_is kf j f h -> E h) -> triple clean (home_is kf j f) (open_db true a) (fun _ => home_is kf j f) E.
Proof.
  intros Hp HE. unfold open_db. eapply t_bind with (R := fun x h => home_is kf j f h /\ x = true).
  - apply t_op; [apply home_is_stable| |done|].
    + intros h. cbn. by destruct (db_file h).
    + intros h (H1 & H2 & H3). rewrite H3. cbn [fst snd]. by rewrite Hp, str_eqb_refl.
  - intros x. apply t_fact. intros ->. by apply t_ret.
Qed.

Lemma persist_triple (r : RootKey) (E : Home -> Prop) : (forall h, home_is kf j f h -> E h) ->
  triple clean (home_is kf j f) (persist_new_root profile r false) (fun _ => home_is (Some r) j f) E.
Proof.
  intros HE. unfold persist_new_root. eapply t_bind with (R := fun b h => home_is kf j f h /\ b = false); [by apply t_ret|].
  intros b. apply t_fact. intros ->. apply t_op; [apply home_is_stable|done|done|]. by intros h (H1 & H2 & H3).
Qed.

(** Dropping the journal and its keyring entry, and answering. *)
Lemma cleanup_triple {A : Type} (a : A) (E : Home -> Prop) :
  triple clean (home_is kf j f) (remove_journal ;! keyring_delete_rotation_root profile ;! ret a)
    (fun x h => (home_is kf None f h \/ clean = false /\ home_is kf j f h) /\ x = a) E.
Proof.
  set (R := fun h => home_is kf None f h \/ clean = false /\ home_is kf j f h).
  eapply t_bind with (R := fun _ => R).
  - apply (t_try clean Io (set_journal None) (home_is kf j f) R); [apply home_is_stable|done| |by right].
    intros h (H1 & H2 & H3). by left.
  - intros []. eapply t_bind with (R := fun _ => R); [|intros []; by apply t_ret].
    apply (t_try clean _ (fun h => set_keyring (delete _ (keyring h)) h) R R); try done. intros h fs Hh. exact Hh.
Qed.

Lemma load_triple (v : RootKey) (minted : RootKey) : length v = 32%nat -> kf = Some v ->
  triple clean (home_is kf j f) (load_or_create profile minted false) (fun x h => home_is kf j f h /\ x = v) (home_is kf j f).
Proof.
  intros Hl ->. unfold load_or_create, load_from_file.
  eapply t_bind with (R := fun x h => home_is (Some v) j f h /\ x = Some v).
  - apply t_op; [apply home_is_stable|done|done|]. intros h Hh. split; [done|]. cbn [fst].
    destruct Hh as (-> & _). by apply only_32_Some.
  - intros x. apply t_fact. intros ->. by apply t_ret.
Qed.

Lemma read_journal_triple (E : Home -> Prop) : (forall h, home_is kf j f h -> E h) ->
  forall r, match j with None => r = None | Some q => root_in_keyring q = false /\ exists x, r = Some x /\ decode_root_hex (new_root_hex q) = Ok x end ->
  triple clean (home_is kf j f) (read_journal profile) (fun x h => home_is kf j f h /\ x = r) E.
Proof.
  intros HE r Hr. unfold read_journal. eapply t_bind with (R := fun x h => home_is kf j f h /\ x = j).
  - apply t_op; [apply home_is_stable|done|done|]. intros h Hh. split; [done|]. by destruct Hh as (_ & -> & _).
  - intros x. apply t_fact. intros ->. destruct j as [q|]; [|by subst; apply t_ret].
    destruct Hr as (-> & x & -> & Hx). eapply t_bind; [exact (t_from_ok clean _ x _ _ Hx)|]. intros y. apply t_fact. intros ->.
    by apply t_ret.
Qed.

Lemma db_opens_triple (r : RootKey) (E : Home -> Prop) :
  (forall s, pragma_key f <> passphrase_pragma_value s) ->
  triple clean (home_is kf j f) (db_opens_under (db_key_hex_for r))
    (fun b h => home_is kf j f h /\ ((b = true -> pragma_key f = key_pragma_value (db_key_hex_for r)) /\
                                     (clean = true -> pragma_key f = key_pragma_value (db_key_hex_for r) -> b = true))) E.
Proof.
  intros Hp. unfold db_opens_under.
  destruct (str_eqb _ _) eqn:Es; [apply str_eqb_eq in Es; by destruct (pragma_not_passphrase r (db_key_hex_for r))|].
  eapply t_conseq; [apply t_opens|done| |by intros h Hh; exact Hh]. intros b h (Hh & H1 & H2). split; [done|]. split.
  - intros Hb. specialize (H1 Hb). rewrite !elem_of_cons, elem_of_nil in H1. destruct H1 as [H1|[H1|[]]]; [done|]. by destruct (Hp _ H1).
  - intros Hc Hk. apply H2; [done|]. rewrite Hk. left.
Qed.
End steps.

(** ** The states of a home around a rotation *)

Section crash.
Context `{VaultLaws} (profile : option string) (old new : RootKey) (f0 : DbFile).
Context (Hold : root_ok old) (Hnew : root_ok new) (Hkeys : hkdf old "writ-db-v1" <> hkdf new "writ-db-v1").
Context (Hcap : capped f0) (Hread : readable new old f0).

Definition under (r : RootKey) (f : DbFile) : Prop := pragma_key f = key_pragma_value (db_key_hex_for r).

Definition secret_row (f : Secret -> option string) (s : Secret) : Z * string * option string := (secret_id s, secret_key s, f s).
Definition persona_row (f : Persona -> list (option (option string))) (p : Persona) : Z * list (option (option string)) := (persona_id p, f p).

(** Every field holds what it held. *)
Definition same_content (f : DbFile) : Prop :=
  map (secret_row (content new old)) (secrets f) = map (secret_row (content new old)) (secrets f0) /\
  map (persona_row (persona_content new old)) (personas f) = map (persona_row (persona_content new old)) (personas f0).
Definition good (f : DbFile) : Prop := same_content f /\ wrap_ok (kv f).
Definition all_new (f : DbFile) : Prop :=
  Forall (fun s => is_Some (secret_in new s)) (secrets f) /\ Forall (fun p => Forall is_Some (persona_in new p)) (personas f).

Definition journaled (j : option RotateJournal) : Prop := exists g, j = Some (mkJournal g (hex_lower new) false).

Definition before (h : Home) : Prop :=
  exists f, home_is (Some old) None f h /\ under old f /\ secrets f = secrets f0 /\ personas f = personas f0 /\ wrap_ok (kv f).
Definition begun (h : Home) : Prop :=
  exists f j, home_is (Some old) j f h /\ journaled j /\ under old f /\ good f.
Definition rekeyed (h : Home) : Prop :=
  exists kf f j, home_is (Some kf) j f h /\ (kf = old \/ kf = new) /\ journaled j /\ under new f /\ good f /\ all_new f.
Definition committed (h : Home) : Prop :=
  exists f, home_is (Some new) None f h /\ under new f /\ good f /\ all_new f.

Definition late (h : Home) : Prop := rekeyed h \/ committed h.
Definition early (h : Home) : Prop := before h \/ begun h.

(** *** Content *)

Lemma secret_row_like (v : RootKey) (s s' : Secret) :
  content new v s = content new old s -> maybe (moved new v) s s' ->
  secret_row (content new old) s' = secret_row (content new old) s.
Proof.
  intros Hv [->|(H1 & H2 & [p Hp] & H3)]; [done|]. unfold secret_row. rewrite H1, H2. f_equal.
  rewrite <- Hv, <- H3, Hp. unfold content, first. by rewrite Hp.
Qed.

Lemma persona_in_content (p : Persona) : Forall is_Some (persona_in new p) -> persona_content new old p = persona_in new p.
Proof.
  intros Hp. unfold persona_content, persona_in in *. rewrite Forall_forall in Hp. apply map_ext_in. intros c Hc.
  apply list_elem_of_In in Hc. assert (Hs : is_Some (cell_in new (fst c) (persona_id p) (snd c))).
  { apply Hp. apply list_elem_of_fmap. by exists c. }
  destruct Hs as [x Hx]. unfold cell_content, first. by rewrite Hx.
Qed.

Lemma persona_row_like (v : RootKey) (p p' : Persona) :
  persona_content new v p = persona_content new old p -> maybe (moved_persona new v) p p' ->
  persona_row (persona_content new old) p' = persona_row (persona_content new old) p.
Proof.
  intros Hv [->|(H1 & H2 & H3)]; [done|]. unfold persona_row. rewrite H1. f_equal.
  by rewrite persona_in_content, H3.
Qed.

(** Resealing from the root the file is under: the old one, or the new one when every field is new. *)
Definition source (v : RootKey) (f : DbFile) : Prop := v = old \/ v = new /\ all_new f.

Lemma source_secret (v : RootKey) (f : DbFile) (s : Secret) : source v f -> s ∈ secrets f -> content new v s = content new old s.
Proof.
  intros [->|[-> [Hn _]]] Hs; [done|]. rewrite Forall_forall in Hn. destruct (Hn s Hs) as [p Hp]. unfold content, first. by rewrite Hp.
Qed.

Lemma source_persona (v : RootKey) (f : DbFile) (p : Persona) : source v f -> p ∈ personas f ->
  persona_content new v p = persona_content new old p.
Proof.
  intros [->|[-> [_ Hn]]] Hp; [done|]. rewrite Forall_forall in Hn. rewrite (persona_in_content p) by auto.
  specialize (Hn p Hp). unfold persona_content, persona_in in *. rewrite Forall_forall in Hn. apply map_ext_in. intros c Hc.
  apply list_elem_of_In in Hc. assert (Hs : is_Some (cell_in new (fst c) (persona_id p) (snd c))).
  { apply Hn. apply list_elem_of_fmap. by exists c. }
  destruct Hs as [x Hx]. unfold cell_content, first. by rewrite Hx.
Qed.

Lemma map_like {A B : Type} (g : A -> B) (R : A -> A -> Prop) (l k : list A) :
  (forall a b, a ∈ l -> R a b -> g b = g a) -> Forall2 R l k -> map g k = map g l.
Proof.
  intros Hg HR. induction HR as [|a b l k Hab _ IH]; [done|]. simpl. rewrite (Hg a b); [|left|done]. f_equal.
  apply IH. intros x y Hx. apply Hg. by right.
Qed.

Lemma moved_good (v : RootKey) (f f' : DbFile) : source v f -> good f ->
  moved_file (maybe (moved new v)) (maybe (moved_persona new v)) f f' -> good f' /\ pragma_key f' = pragma_key f.
Proof.
  intros Hv [[Hs Hp] Hm] (E1 & E2 & H1 & H2). split; [|done]. split; [split|by rewrite E2].
  - rewrite <- Hs. eapply map_like; [|exact H1]. intros s s' Hin. apply secret_row_like. by eapply source_secret.
  - rewrite <- Hp. eapply map_like; [|exact H2]. intros p p' Hin. apply persona_row_like. by eapply source_persona.
Qed.

Lemma moved_all_new (v : RootKey) (f f' : DbFile) : moved_file (moved new v) (moved_persona new v) f f' -> all_new f'.
Proof.
  intros (_ & _ & H1 & H2). split.
  - clear H2. induction H1 as [|s s' l k Hs _ IH]; constructor; [by destruct Hs as (_ & _ & ? & _)|done].
  - clear H1. induction H2 as [|s s' l k Hs _ IH]; constructor; [by destruct Hs as (_ & ? & _)|done].
Qed.

Lemma moved_maybe (v : RootKey) (f f' : DbFile) : moved_file (moved new v) (moved_persona new v) f f' ->
  moved_file (maybe (moved new v)) (maybe (moved_persona new v)) f f'.
Proof. intros (? & ? & ? & ?). split_and!; try done; by apply all_maybe. Qed.

Lemma Forall_map_eq {A B : Type} (g : A -> B) (P : B -> Prop) (l k : list A) :
  map g l = map g k -> Forall (fun a => P (g a)) k -> Forall (fun a => P (g a)) l.
Proof.
  revert k. induction l as [|a l IH]; intros [|b k] E Hk; try done. injection E as E1 E2. apply Forall_cons in Hk as [Hb Hk].
  constructor; [by rewrite E1|by apply (IH k)].
Qed.

Lemma map_eq_via {A B C : Type} (g : A -> B) (f : B -> C) (l k : list A) : map g l = map g k -> map (fun a => f (g a)) l = map (fun a => f (g a)) k.
Proof. intros E. rewrite <- !(map_map g f). by rewrite E. Qed.

(** The caps, the ids and readability only depend on the content. *)
Lemma same_capped (f : DbFile) : same_content f -> capped f /\ readable new old f.
Proof.
  intros [Hs Hp]. destruct Hcap as (L1 & L2 & N1 & N2), Hread as [R1 R2]. split; [split_and!|split].
  - apply (f_equal length) in Hs. rewrite !length_map in Hs. lia.
  - apply (f_equal length) in Hp. rewrite !length_map in Hp. lia.
  - replace (map secret_id (secrets f)) with (map secret_id (secrets f0)); [done|symmetry].
    exact (map_eq_via (secret_row (content new old)) (fun r => fst (fst r)) _ _ Hs).
  - replace (map persona_id (personas f)) with (map persona_id (personas f0)); [done|symmetry].
    exact (map_eq_via (persona_row (persona_content new old)) fst _ _ Hp).
  - exact (Forall_map_eq (secret_row (content new old)) (fun r => is_Some (snd r)) _ _ Hs R1).
  - exact (Forall_map_eq (persona_row (persona_content new old)) (fun r => Forall is_Some (snd r)) _ _ Hp R2).
Qed.

Lemma source_readable (v : RootKey) (f : DbFile) : source v f -> good f -> readable new v f.
Proof.
  intros Hv [Hs _]. destruct (same_capped f Hs) as [_ [R1 R2]]. rewrite Forall_forall in R1. rewrite Forall_forall in R2. split; apply Forall_forall.
  - intros s Hin. rewrite (source_secret v f s) by done. by apply R1.
  - intros p Hin. rewrite (source_persona v f p) by done. by apply R2.
Qed.

Lemma good_kv (m : gmap string string) (f : DbFile) : good f -> wrap_ok m -> good (set_kv m f).
Proof. intros [H1 _] Hm. by split. Qed.

Lemma good_rekeyed (k : string) (f : DbFile) : good f -> good (rekeyed_file f k).
Proof. intros [H1 H2]. by split. Qed.

(** *** The triples *)

Context (nonce : string -> string) (Hnonce : forall a, String.length (nonce a) = 24%nat).
Context (Hseal : forall k n m a, is_Some (aead_encrypt k n m a)).
Context (clean : bool).

(** The states reached, after the rekey or not. *)
Definition inv (lt : bool) (h : Home) : Prop := late h \/ lt = false /\ early h.

Lemma old_not_new : old <> new.
Proof. intros E. apply Hkeys. by rewrite E. Qed.

Lemma under_distinct (f : DbFile) : under old f -> under new f -> False.
Proof. unfold under. intros -> E. by apply (pragma_distinct old new Hkeys). Qed.

Lemma under_form (r : RootKey) (f : DbFile) : under r f -> forall s, pragma_key f <> passphrase_pragma_value s.
Proof. intros ->. apply pragma_not_passphrase. Qed.

Lemma maybe_moved_all_new (v : RootKey) (f f' : DbFile) : all_new f ->
  moved_file (maybe (moved new v)) (maybe (moved_persona new v)) f f' -> all_new f'.
Proof.
  intros [A1 A2] (_ & _ & H1 & H2). split.
  - clear A2 H2. induction H1 as [|s s' l k [->|Hs] _ IH]; [done|..]; apply Forall_cons in A1 as [? ?]; constructor; auto.
    by destruct Hs as (_ & _ & ? & _).
  - clear A1 H1. induction H2 as [|s s' l k [->|Hs] _ IH]; [done|..]; apply Forall_cons in A2 as [? ?]; constructor; auto.
    by destruct Hs as (_ & ? & _).
Qed.

(** The loaded root is that of the file: a rotation from [v] can (still) run. *)
Definition runs (v : RootKey) (lt : bool) (f : DbFile) : Prop :=
  under v f /\ good f /\ (v = old /\ lt = false \/ v = new /\ all_new f).

Lemma runs_source (v : RootKey) (lt : bool) (f : DbFile) : runs v lt f -> source v f.
Proof. intros (_ & _ & [[-> _]|[-> ?]]); [by left|by right]. Qed.

Lemma runs_root (v : RootKey) (lt : bool) (f : DbFile) : runs v lt f -> root_ok v.
Proof. by intros (_ & _ & [[-> _]|[-> _]]). Qed.

Lemma runs_inv (v : RootKey) (lt : bool) (f : DbFile) (j : option RotateJournal) (h : Home) :
  runs v lt f -> journaled j -> home_is (Some v) j f h -> inv lt h.
Proof.
  intros (Hu & Hg & [[-> ->]|[-> Hn]]) Hj Hh.
  - right. split; [done|]. right. by exists f, j.
  - left. left. exists new, f, j. split_and!; auto.
Qed.

Lemma runs_moved (v : RootKey) (lt : bool) (f f' : DbFile) : runs v lt f ->
  moved_file (maybe (moved new v)) (maybe (moved_persona new v)) f f' -> runs v lt f'.
Proof.
  intros Hr Hm. destruct (moved_good v f f' (runs_source _ _ _ Hr)) as [Hg Ep]; [by destruct Hr as (_ & ? & _)|done|].
  destruct Hr as (Hu & _ & Hv). split; [unfold under in *; congruence|]. split; [done|].
  destruct Hv as [?|[-> Hn]]; [by left|right]. split; [done|]. by eapply maybe_moved_all_new.
Qed.

Lemma runs_kv (v : RootKey) (lt : bool) (f : DbFile) (m : gmap string string) : runs v lt f -> wrap_ok m -> runs v lt (set_kv m f).
Proof. intros (Hu & Hg & Hv) Hm. split; [done|]. split; [by apply good_kv|done]. Qed.

(** From the rekey on. *)
Lemma finish_triple {A : Type} (a : A) (v : RootKey) (j : option RotateJournal) (f : DbFile) :
  under new f -> good f -> all_new f -> journaled j -> v = old \/ v = new ->
  triple clean (home_is (Some v) j f)
    (persist_new_root profile new false ;! remove_journal ;! keyring_delete_rotation_root profile ;! ret a)
    (fun x h => (committed h \/ clean = false /\ rekeyed h) /\ x = a) late.
Proof.
  intros Hu Hg Hn Hj Hv.
  assert (Hre : forall kf h, kf = old \/ kf = new -> home_is (Some kf) j f h -> rekeyed h) by (intros kf h Hkf Hh; by exists kf, f, j).
  eapply t_bind; [apply persist_triple|intros []].
  - intros h Hh. left. by apply (Hre v).
  - eapply t_conseq; [apply (cleanup_triple profile clean (Some new) j f a late)|done| |done].
    intros x h [[Hh|[Hc Hh]] ->]; split; auto.
    + left. by exists f.
    + right. split; [done|]. apply (Hre new); auto.
Qed.

(** Window B: the file is still under the loaded root. *)
Lemma recover_forward (v : RootKey) (lt : bool) (j : option RotateJournal) (f : DbFile) :
  journaled j -> v = old \/ v = new -> runs v lt f ->
  triple clean (home_is (Some v) j f)
    (open_db true (db_key_hex_for v) ;!
     let! _ := reseal_all nonce v new in
     let! gen := generation in
     rewrap_recovery_idempotent v new gen ;!
     rekey_db_file true (db_key_hex_for v) (db_key_hex_for new) ;!
     persist_new_root profile new false ;! remove_journal ;! keyring_delete_rotation_root profile ;! ret true)
    (fun b h => (committed h \/ clean = false /\ rekeyed h) /\ b = true) (inv lt).
Proof.
  intros Hj Hv Hr.
  eapply t_bind; [apply open_db_triple; [apply Hr|intros h; by apply runs_inv]|]. intros [].
  eapply t_bind.
  { eapply t_conseq; [apply (reseal_all_triple nonce new Hnonce Hseal clean (Some v) j f v)| |intros a h Hh; exact Hh|].
    - apply same_capped, Hr.
    - apply source_readable; [by eapply runs_source|apply Hr].
    - done.
    - intros h (f' & Hm & Hh). eapply runs_inv; [by eapply runs_moved|done|done]. }
  intros counts. apply t_ex. intros f' Hm. pose proof (moved_all_new v f f' Hm) as Hn.
  apply moved_maybe in Hm. pose proof (runs_moved _ _ _ _ Hr Hm) as Hr'. clear Hr Hm f.
  eapply t_bind; [apply generation_triple; intros h; by apply runs_inv|]. intros gen.
  eapply t_bind.
  { eapply t_conseq; [apply (rewrap_triple clean (Some v) j f' v new gen)|done|intros a h Hh; exact Hh|].
    - by eapply runs_root.
    - done.
    - apply Hr'.
    - intros h (m & Hm & Hh). eapply runs_inv; [by apply runs_kv|done|done]. }
  intros []. apply t_ex. intros m Hm. assert (Hr : runs v lt (set_kv m f')) by (by apply runs_kv).
  assert (Hn' : all_new (set_kv m f')) by done. revert Hr Hn'. generalize (set_kv m f'). intros f'' Hr Hn''.
  eapply t_bind; [apply rekey_triple; [apply Hr|intros h; by apply runs_inv]|].
  intros []. eapply t_conseq; [apply (finish_triple true v j (rekeyed_file f'' (db_key_hex_for new))); try done|done|done|].
  - apply good_rekeyed, Hr.
  - intros h Hh. by left.
Qed.

Lemma recover_step (v : RootKey) (lt : bool) (j : option RotateJournal) (f : DbFile) :
  journaled j -> v = old \/ v = new -> runs v lt f \/ under new f /\ good f /\ all_new f ->
  triple clean (home_is (Some v) j f) (recover_interrupted_rotation profile true nonce v false)
    (fun b h => (b = true /\ (committed h \/ clean = false /\ rekeyed h)) \/ (b = false /\ clean = false /\ home_is (Some v) j f h))
    (inv lt).
Proof.
  intros [g ->] Hv Hf. set (j := Some (mkJournal g (hex_lower new) false)). assert (Hj : journaled j) by (by exists g).
  assert (Hinv : forall h, home_is (Some v) j f h -> inv lt h).
  { destruct Hf as [Hr|(Hu & Hg & Hn)]; [intros h; by apply runs_inv|]. intros h Hh. left. left. by exists v, f, j. }
  assert (Hform : forall s, pragma_key f <> passphrase_pragma_value s).
  { destruct Hf as [(Hu & _)|(Hu & _)]; by eapply under_form. }
  unfold recover_interrupted_rotation.
  eapply t_bind; [apply (read_journal_triple profile clean (Some v) j f (inv lt) Hinv (Some new))|].
  { split; [done|]. exists new. split; [done|]. by apply decode_root_hex_lower. }
  intros x. apply t_fact. intros ->. cbv zeta.
  eapply t_bind; [by apply db_opens_triple|]. intros a. apply t_fact. intros [A1 A2]. destruct a.
  - specialize (A1 eq_refl). assert (Hg : good f /\ all_new f).
    { destruct Hf as [(Hu & Hg & [[-> _]|[-> Hn]])|(_ & ? & ?)]; [|done|done]. by destruct (under_distinct f). }
    destruct Hg as [Hg Hn]. eapply t_conseq; [apply (finish_triple true v j f); done|done| |].
    + intros b h [Hh ->]. by left.
    + intros h Hh. by left.
  - eapply t_bind; [by apply db_opens_triple|]. intros b. apply t_fact. intros [B1 B2]. destruct b.
    2:{ apply t_ret. intros h Hh. right. split_and!; try done. destruct clean; [|done].
        destruct Hf as [(Hu & _)|(Hu & _)]; [by specialize (B2 eq_refl Hu)|by specialize (A2 eq_refl Hu)]. }
    specialize (B1 eq_refl). assert (Hr : runs v lt f).
    { destruct Hf as [?|(Hu & Hg & Hn)]; [done|]. destruct Hv as [-> | ->]; [by destruct (under_distinct f)|]. split; [done|]. split; [done|by right]. }
    eapply t_conseq; [by apply (recover_forward v lt j f)|done| |done]. intros b h [Hh ->]. by left.
Qed.

Lemma runs_set (v : RootKey) (lt : bool) (f : DbFile) (k x : string) : k <> CFG_RECOVERY_WRAP ->
  runs v lt f -> runs v lt (set_kv (<[k := x]> (kv f)) f).
Proof. intros Hk Hr. apply runs_kv; [done|]. apply wrap_ok_insert; [done|]. apply Hr. Qed.

Definition before_file (f : DbFile) : Prop := under old f /\ secrets f = secrets f0 /\ personas f = personas f0 /\ wrap_ok (kv f).

Lemma before_set (f : DbFile) (k x : string) : k <> CFG_RECOVERY_WRAP -> before_file f -> before_file (set_kv (<[k := x]> (kv f)) f).
Proof. intros Hk (H1 & H2 & H3 & H4). split_and!; try done. by apply wrap_ok_insert. Qed.

Lemma before_inv (f : DbFile) (h : Home) : before_file f -> home_is (Some old) None f h -> inv false h.
Proof. intros (H1 & H2 & H3 & H4) Hh. right. split; [done|]. left. by exists f. Qed.

Lemma before_runs (f : DbFile) : before_file f -> runs old false f.
Proof.
  intros (H1 & H2 & H3 & H4). split; [done|]. split; [|by left]. split; [|done]. split; by rewrite ?H2, ?H3.
Qed.

(** From the reseal to the end of [rotate_root]. *)
Lemma rotate_forward (j : option RotateJournal) (f : DbFile) (gen : Z) :
  journaled j -> runs old false f ->
  triple clean (home_is (Some old) j f)
    (let! counts := reseal_all nonce old new in
     set_phase Reseal ;!
     (let! gen := generation in rewrap_recovery_idempotent old new gen) ;!
     set_phase Rewrap ;!
     rekey_db_file true (db_key_hex_for old) (db_key_hex_for new) ;!
     persist_new_root profile new false ;!
     open_db true (db_key_hex_for new) ;!
     set_phase Done ;!
     remove_journal ;!
     keyring_delete_rotation_root profile ;!
     ret (mkReport gen (fst counts) (snd counts)))
    (fun _ h => committed h \/ clean = false /\ rekeyed h) (inv false).
Proof.
  intros Hj Hr. eapply t_bind.
  { eapply t_conseq; [apply (reseal_all_triple nonce new Hnonce Hseal clean (Some old) j f old)|done|intros a h Hh; exact Hh|].
    - apply same_capped, Hr.
    - apply source_readable; [by left|apply Hr].
    - intros h (f' & Hm & Hh). eapply runs_inv; [by eapply runs_moved|done|done]. }
  intros counts. apply t_ex. intros f1 Hm. pose proof (moved_all_new old f f1 Hm) as Hn1.
  apply moved_maybe in Hm. pose proof (runs_moved _ _ _ _ Hr Hm) as Hr1. clear Hm Hr.
  eapply t_bind; [apply t_kv_set; intros h; by apply runs_inv|]. intros [].
  assert (Hr2 := runs_set _ _ _ CFG_PHASE (Z_to_string (phase_code Reseal)) ltac:(done) Hr1).
  revert Hr2. generalize (<[CFG_PHASE := Z_to_string (phase_code Reseal)]> (kv f1)). intros m2 Hr2.
  eapply t_bind; [eapply t_bind; [apply generation_triple; intros h; by apply runs_inv|]|].
  { intros g. eapply t_conseq; [apply (rewrap_triple clean (Some old) j (set_kv m2 f1) old new g Hold Hnew)|done|intros a h Hh; exact Hh|].
    - apply Hr2.
    - intros h (m & Hm & Hh). eapply (runs_inv _ _ _ _ _ (runs_kv _ _ _ m Hr2 Hm)); done. }
  intros []. apply t_ex. intros m3 Hm3. assert (Hr3 := runs_kv _ _ _ m3 Hr2 Hm3). change (set_kv m3 (set_kv m2 f1)) with (set_kv m3 f1) in *.
  eapply t_bind; [apply t_kv_set; intros h; by apply runs_inv|]. intros [].
  assert (Hr4 := runs_set _ _ _ CFG_PHASE (Z_to_string (phase_code Rewrap)) ltac:(done) Hr3).
  assert (Hn4 : all_new (set_kv (<[CFG_PHASE := Z_to_string (phase_code Rewrap)]> (kv (set_kv m3 f1))) (set_kv m3 f1))) by done.
  revert Hr4 Hn4. generalize (set_kv (<[CFG_PHASE := Z_to_string (phase_code Rewrap)]> (kv (set_kv m3 f1))) (set_kv m3 f1)).
  clear f f1 Hr1 m2 Hr2 m3 Hm3 Hr3 Hn1. intros f Hr Hn.
  eapply t_bind; [apply rekey_triple; [apply Hr|intros h; by apply runs_inv]|]. intros [].
  assert (Hre : forall kf g h, kf = old \/ kf = new -> under new g -> good g -> all_new g -> home_is (Some kf) j g h -> inv false h).
  { intros kf g h Hkf H1 H2 H3 Hh. left. left. by exists kf, g, j. }
  assert (Hg := good_rekeyed (db_key_hex_for new) f ltac:(apply Hr)).
  eapply t_bind; [apply persist_triple; intros h; apply Hre; [by left|done|done|done]|]. intros [].
  eapply t_bind; [apply open_db_triple; [done|intros h; apply Hre; [by right|done|done|done]]|]. intros [].
  eapply t_bind; [apply t_kv_set; intros h; apply Hre; [by right|done|done|done]|]. intros [].
  assert (Hg' := good_kv _ _ Hg (wrap_ok_insert (kv (rekeyed_file f (db_key_hex_for new))) CFG_PHASE (Z_to_string (phase_code Done)) ltac:(done) ltac:(apply Hg))).
  set (f3 := set_kv (<[CFG_PHASE := Z_to_string (phase_code Done)]> (kv (rekeyed_file f (db_key_hex_for new))))
               (rekeyed_file f (db_key_hex_for new))) in *.
  eapply t_conseq; [apply (cleanup_triple profile clean (Some new) j f3 _ (inv false))|intros h Hh; exact Hh| |done].
  intros x h [[Hh|[Hc Hh]] _]; [left|right].
  - exists f3. split; [done|]. split; [exact eq_refl|]. by split.
  - split; [done|]. exists new, f3, j. split; [done|]. split; [by right|]. split; [done|]. split; [exact eq_refl|]. by split.
Qed.

Lemma rotate_triple (f : DbFile) : before_file f ->
  triple clean (home_is (Some old) None f) (rewrap_only profile true nonce old new false)
    (fun _ h => committed h \/ clean = false /\ rekeyed h) (inv false).
Proof.
  intros Hf. unfold rewrap_only, rotate_root.
  eapply t_bind; [apply generation_triple; intros h; by apply before_inv|]. intros g. cbv zeta.
  eapply t_bind; [apply t_kv_set; intros h; by apply before_inv|]. intros [].
  assert (Hf1 := before_set f CFG_GEN (Z_to_string (as_i64 (g + 1))) ltac:(done) Hf).
  revert Hf1. generalize (set_kv (<[CFG_GEN := Z_to_string (as_i64 (g + 1))]> (kv f)) f). intros f1 Hf1.
  eapply t_bind; [apply t_kv_set; intros h; by apply before_inv|]. intros [].
  assert (Hf2 := before_set f1 CFG_PHASE (Z_to_string (phase_code Begin)) ltac:(done) Hf1).
  revert Hf2. generalize (set_kv (<[CFG_PHASE := Z_to_string (phase_code Begin)]> (kv f1)) f1). intros f2 Hf2.
  set (j := Some (mkJournal (as_i64 (g + 1)) (hex_lower new) false)).
  eapply t_bind with (R := fun _ => home_is (Some old) j f2).
  - unfold write_journal. eapply t_bind with (R := fun b h => home_is (Some old) None f2 h /\ b = false); [by apply t_ret|].
    intros b. apply t_fact. intros ->. apply t_op; [apply home_is_stable|done|intros h; by apply before_inv|].
    by intros h (H1 & H2 & H3).
  - intros []. apply rotate_forward; [by exists (as_i64 (g + 1))|by apply before_runs].
Qed.

(** The root a boot without faults ends with. *)
Definition settled (lt : bool) (v : RootKey) (h : Home) : Prop :=
  v = new /\ committed h \/ lt = false /\ v = old /\ before h.

Lemma boot_from (lt : bool) (v minted : RootKey) (j : option RotateJournal) (f : DbFile) :
  journaled j -> v = old \/ v = new -> runs v lt f \/ under new f /\ good f /\ all_new f ->
  triple clean (home_is (Some v) j f) (boot profile true nonce minted false)
    (fun v h => inv lt h /\ (clean = true -> settled lt v h)) (inv lt).
Proof.
  intros Hj Hv Hf. assert (Hl : length v = 32%nat) by (destruct Hv as [-> | ->]; [apply Hold|apply Hnew]).
  assert (Hinv : forall h, home_is (Some v) j f h -> inv lt h).
  { destruct Hf as [Hr|(Hu & Hg & Hn)]; [intros h; by apply runs_inv|]. intros h Hh. left. left. by exists v, f, j. }
  unfold boot. eapply t_bind.
  { eapply t_conseq; [by apply (load_triple profile clean (Some v) j f v minted Hl)|done| |done]. intros a h Hh. exact Hh. }
  intros x. apply t_fact. intros ->.
  eapply t_bind; [by apply t_attempt, (recover_step v lt j f)|].
  intros [b|e]; cbv beta iota.
  2:{ apply t_ret. intros h [-> Hi]. by split. }
  assert (Hlate : forall h, committed h \/ clean = false /\ rekeyed h -> late h) by (intros h [?|[_ ?]]; [by right|by left]).
  destruct b.
  - intros h [[[_ Hh]|[? _]] Hc]; [|done]. assert (Hi : inv lt h) by (left; by apply Hlate).
    destruct Hh as [(g & Hh & Hu & Hg & Hn)|[Hcl (kf & g & k & Hh & Hkf & Hk & Hu & Hg & Hn)]].
    + assert (Ht : triple clean (home_is (Some new) None g) (load_or_create profile minted false)
        (fun v h => inv lt h /\ (clean = true -> settled lt v h)) (inv lt)); [|exact (Ht h (conj Hh Hc))].
      assert (Hcm : forall h, home_is (Some new) None g h -> committed h) by (intros h' Hh'; by exists g).
      eapply t_conseq; [apply (load_triple profile clean (Some new) None g new minted); [apply Hnew|done]|done| |].
      * intros a h' [Hh' ->]. split; [left; right; by apply Hcm|]. intros _. left. split; [done|by apply Hcm].
      * intros h' Hh'. left. right. by apply Hcm.
    + assert (Hlk : length kf = 32%nat) by (destruct Hkf as [-> | ->]; [apply Hold|apply Hnew]).
      assert (Ht : triple clean (home_is (Some kf) k g) (load_or_create profile minted false)
        (fun v h => inv lt h /\ (clean = true -> settled lt v h)) (inv lt)); [|exact (Ht h (conj Hh Hc))].
      assert (Hcm : forall h, home_is (Some kf) k g h -> inv lt h) by (intros h' Hh'; left; left; by exists kf, g, k).
      eapply t_conseq; [by apply (load_triple profile clean (Some kf) k g kf minted)|done| |done].
      intros a h' [Hh' ->]. split; [by apply Hcm|]. congruence.
  - apply t_ret. intros h [[? _]|(_ & Hcl & Hh)]; [done|]. split; [by apply Hinv|]. congruence.
Qed.

(** Without a journal there is nothing to recover. *)
Lemma boot_idle (lt : bool) (v minted : RootKey) (f : DbFile) :
  length v = 32%nat -> (forall h, home_is (Some v) None f h -> inv lt h /\ settled lt v h) ->
  triple clean (home_is (Some v) None f) (boot profile true nonce minted false)
    (fun v h => inv lt h /\ (clean = true -> settled lt v h)) (inv lt).
Proof.
  intros Hl Hs. unfold boot. assert (Hi : forall h, home_is (Some v) None f h -> inv lt h) by (intros h Hh; by apply Hs).
  eapply t_bind.
  { eapply t_conseq; [by apply (load_triple profile clean (Some v) None f v minted Hl)|done| |done]. intros a h Hh. exact Hh. }
  intros x. apply t_fact. intros ->.
  eapply t_bind with (R := fun r h => home_is (Some v) None f h /\ (r = Ok false \/ exists e, r = Err e)).
  - intros h Hh. pose proof (read_journal_triple profile clean (Some v) None f (home_is (Some v) None f) (fun _ H => H) None eq_refl h Hh) as Ht.
    unfold attempt, recover_interrupted_rotation, bind. destruct (read_journal profile h) as [[r|e] h'].
    + destruct Ht as [[Hh' ->] Hc]. split; [|done]. split; [done|by left].
    + destruct Ht as [Hc Hh']. split; [|congruence]. split; [done|right; eauto].
  - intros r. apply t_fact. intros [->|[e ->]]; apply t_ret; intros h Hh; split; auto; intros _; by apply Hs.
Qed.

Lemma boot_triple (lt : bool) (minted : RootKey) :
  triple clean (inv lt) (boot profile true nonce minted false)
    (fun v h => inv lt h /\ (clean = true -> settled lt v h)) (inv lt).
Proof.
  intros h [Hh Hc]. destruct Hh as [[(kf & f & j & Hh & Hkf & Hj & Hu & Hg & Hn)|(f & Hh & Hu & Hg & Hn)]|[-> [(f & Hh & Hf)|(f & j & Hh & Hj & Hu & Hg)]]].
  - apply (boot_from lt kf minted j f Hj Hkf); [by right|by split].
  - apply (boot_idle lt new minted f); [apply Hnew| |by split]. intros h' Hh'.
    assert (Hcm : committed h') by (by exists f). split; [left; by right|left; by split].
  - apply (boot_idle false old minted f); [apply Hold| |by split]. intros h' Hh'.
    assert (Hb : before h') by (by exists f). split; [right; split; [done|by left]|right; by split_and!].
  - apply (boot_from false old minted j f Hj); [by left| |by split]. left. split; [done|]. split; [done|by left].
Qed.
End crash.

(** ** The theorem *)

Section theorem.
Context `{VaultLaws}.

(** The plaintexts under a root. *)
Definition fields (r : RootKey) (f : DbFile) : list (Z * string * option string) * list (Z * list (option (option string))) :=
  (map (secret_row (secret_in r)) (secrets f), map (persona_row (persona_in r)) (personas f)).

(** Every field opens under [r], and under [r'] none does. *)
Definition sealed_by (r r' : RootKey) (f : DbFile) : Prop :=
  Forall (fun s => is_Some (secret_in r s) /\ secret_in r' s = None) (secrets f) /\
  Forall (fun p => Forall (fun c => is_Some (cell_in r (fst c) (persona_id p) (snd c)) /\
    (snd c <> None -> cell_in r' (fst c) (persona_id p) (snd c) = None)) (cells p)) (personas f).

Lemma sealed_content (old new : RootKey) (f : DbFile) : sealed_by old new f ->
  readable new old f /\ map (secret_row (content new old)) (secrets f) = map (secret_row (secret_in old)) (secrets f) /\
  map (persona_row (persona_content new old)) (personas f) = map (persona_row (persona_in old)) (personas f).
Proof.
  intros [Hs Hp].
  assert (Es : forall s, s ∈ secrets f -> is_Some (secret_in old s) /\ content new old s = secret_in old s).
  { intros s Hin. rewrite Forall_forall in Hs. destruct (Hs s Hin) as [H1 H2]. split; [done|]. unfold content, first. by rewrite H2. }
  assert (Ep : forall p, p ∈ personas f -> Forall is_Some (persona_content new old p) /\ persona_content new old p = persona_in old p).
  { intros p Hin. rewrite Forall_forall in Hp. specialize (Hp p Hin).
    assert (E : persona_content new old p = persona_in old p).
    { unfold persona_content, persona_in. apply map_ext_in. intros [c b] Hc. apply list_elem_of_In in Hc.
      rewrite Forall_forall in Hp. destruct (Hp _ Hc) as [_ H2]. cbn [fst snd] in *. unfold cell_content, first.
      destruct b as [b|]; [by rewrite H2|done]. }
    split; [|done]. rewrite E. unfold persona_in. apply Forall_forall. intros x (c & -> & Hc)%list_elem_of_fmap.
    rewrite Forall_forall in Hp. by apply (Hp c). }
  split_and!.
  - split; apply Forall_forall; [intros s Hin; destruct (Es s Hin) as [H1 ->]; done|intros p Hin; by apply Ep].
  - apply map_ext_in. intros s Hin. unfold secret_row. f_equal. by apply Es, list_elem_of_In.
  - apply map_ext_in. intros p Hin. unfold persona_row. f_equal. by apply Ep, list_elem_of_In.
Qed.

Lemma all_new_fields (old new : RootKey) (f : DbFile) : all_new new f ->
  fields new f = (map (secret_row (content new old)) (secrets f), map (persona_row (persona_content new old)) (personas f)).
Proof.
  intros [Hs Hp]. rewrite Forall_forall in Hs. rewrite Forall_forall in Hp. unfold fields. f_equal; apply map_ext_in; intros x Hx%list_elem_of_In.
  - unfold secret_row, content, first. destruct (Hs x Hx) as [p Hp']. by rewrite Hp'.
  - unfold persona_row. by rewrite persona_in_content by auto.
Qed.

Lemma settled_fields (old new : RootKey) (f0 : DbFile) (lt : bool) (v : RootKey) (h : Home) :
  sealed_by old new f0 -> settled old new f0 lt v h ->
  (v = new \/ v = old) /\ (lt = true -> v = new) /\ exists f, home_is (Some v) None f h /\ under v f /\ fields v f = fields old f0.
Proof.
  intros Hs Hv. destruct (sealed_content old new f0 Hs) as (_ & Es & Ep).
  destruct Hv as [[-> (f & Hh & Hu & [[E1 E2] _] & Hn)]|(-> & -> & (f & Hh & Hu & E1 & E2 & _))].
  - split; [by left|]. split; [done|]. exists f. split; [done|]. split; [done|].
    rewrite (all_new_fields old new f Hn), E1, E2, Es, Ep. done.
  - split; [by right|]. split; [done|]. exists f. split; [done|]. split; [done|]. unfold fields. by rewrite E1, E2.
Qed.

End theorem.

(** ** Examples *)

Definition demo_new : RootKey := repeat 3 32.
Definition demo_nonce (aad : string) : string := bytes_to_string (repeat 9 24).
Definition demo_seal (r : RootKey) (aad p : string) : string :=
  unwrap_or (result_ok (seal_field r (demo_nonce aad) p aad)) EmptyString.
Definition demo_secret (id : Z) (key : string) : Secret := mkSecret id key (demo_seal demo_root (secret_value_aad key) "hunter2").
Definition demo_persona : Persona :=
  mkPersona 1 (Some (demo_seal demo_root (persona_aad "credentials_encrypted" 1) "me")) None None
    (Some (demo_seal demo_root (persona_aad "session_state_encrypted" 1) "cookies")).
Definition demo_file : DbFile :=
  mkDbFile (key_pragma_value (db_key_hex_for demo_root)) ∅ [demo_secret 2 "B"; demo_secret 1 "A"] [demo_persona].

Lemma demo_new_ok : root_ok demo_new.
Proof. split; [done|]. unfold demo_new. repeat (constructor; [lia|]). constructor. Qed.

Lemma demo_sealed : sealed_by demo_root demo_new demo_file.
Proof.
  split; repeat constructor; cbn [cells map fst snd]; try (vm_compute; eauto; fail); try (vm_compute; intros; congruence).
Qed.


(** ** What a rotation does not do *)

(** ** A predicate every step of a rotation keeps *)

Section keeps.
Context `{VaultLibs} (profile : option string) (cipher : bool) (nonce : string -> string).

(** The keys a rotation writes. *)
Definition rotation_keys : list string := [CFG_GEN; CFG_PHASE; CFG_REWRAP_GEN; CFG_RECOVERY_WRAP].

(** [P] holds of the ids of the listed secrets. *)
Record step_keeps (I : Home -> Prop) (P : Z -> Prop) : Prop := {
  sk_stable : stable I;
  sk_db : forall h, I h -> is_Some (db_file h);
  sk_listed : forall h f s, I h -> db_file h = Some f -> s ∈ take LIST_CAP (secrets f) -> P (secret_id s);
  sk_kv : forall h f k v, k ∈ rotation_keys -> I h -> db_file h = Some f -> I (set_db_file (Some (set_kv (<[k := v]> (kv f)) f)) h);
  sk_secret : forall h f id v, P id -> I h -> db_file h = Some f ->
    I (set_db_file (Some (set_secrets (map (fun s => if secret_id s =? id then mkSecret id (secret_key s) v else s) (secrets f)) f)) h);
  sk_personas : forall h f ps, I h -> db_file h = Some f -> I (set_db_file (Some (set_personas ps f)) h);
  sk_pragma : forall h f k, I h -> db_file h = Some f -> I (set_db_file (Some (set_pragma_key k f)) h);
  sk_key_file : forall h v, I h -> I (set_key_file v h);
  sk_keyring : forall h v, I h -> I (set_keyring v h);
  sk_journal : forall h v, I h -> I (set_journal v h);
}.

Context (I : Home -> Prop) (P : Z -> Prop) (HI : step_keeps I P).

Lemma k_read {A : Type} (e : LocalError) (g : Home -> A) : keeps I (faulted e (fun h => (g h, h))) (fun _ => True).
Proof. apply keeps_faulted; [apply (sk_stable _ _ HI)|by split]. Qed.

Lemma k_write (e : LocalError) (g : Home -> Home) : (forall h, I h -> I (g h)) -> keeps I (faulted e (fun h => (tt, g h))) (fun _ => True).
Proof. intros Hg. apply keeps_faulted; [apply (sk_stable _ _ HI)|]. intros h Hh. by split; [apply Hg|]. Qed.

Lemma k_true {A : Type} (c : M Home A) (Q : A -> Prop) : keeps I c Q -> keeps I c (fun _ => True).
Proof. by apply keeps_weaken. Qed.

Lemma k_bind {A B : Type} (c : M Home A) (k : A -> M Home B) :
  keeps I c (fun _ => True) -> (forall a, keeps I (k a) (fun _ => True)) -> keeps I (bind c k) (fun _ => True).
Proof. intros Hc Hk. eapply keeps_bind; [exact Hc|]. intros a _. apply Hk. Qed.

Lemma k_attempt {A : Type} (c : M Home A) : keeps I c (fun _ => True) -> keeps I (attempt c) (fun _ => True).
Proof. intros Hc. eapply k_true, keeps_attempt, Hc. Qed.

Lemma k_from_result {A : Type} (r : result A LocalError) : keeps I (from_result r) (fun _ => True).
Proof. destruct r; [by apply keeps_ret|by apply keeps_throw]. Qed.

Lemma k_on_db {A : Type} (g : DbFile -> A * DbFile) (d : A) (Q : A -> Prop) :
  (forall h f, I h -> db_file h = Some f -> I (set_db_file (Some (snd (g f))) h) /\ Q (fst (g f))) -> keeps I (on_db g d) Q.
Proof.
  intros Hg. apply keeps_faulted; [apply (sk_stable _ _ HI)|]. intros h Hh. destruct (sk_db _ _ HI h Hh) as [f Hf]. rewrite Hf.
  specialize (Hg h f Hh Hf). destruct (g f) as [a b]. exact Hg.
Qed.

Lemma k_same (h : Home) (f : DbFile) : I h -> db_file h = Some f -> I (set_db_file (Some f) h).
Proof. intros Hh Hf. destruct h as [kf kr j d fs]. cbn in *. by subst. Qed.

Lemma k_kv_get (k : string) : keeps I (kv_get k) (fun _ => True).
Proof. apply k_read. Qed.

Lemma k_kv_set (k v : string) : k ∈ rotation_keys -> keeps I (kv_set k v) (fun _ => True).
Proof.
  intros Hk. apply k_write. intros h Hh. destruct (sk_db _ _ HI h Hh) as [f Hf]. cbn. rewrite Hf.
  by apply (sk_kv _ _ HI h f).
Qed.

Lemma k_connects (e : LocalError) (s : string) : keeps I (faulted e (fun h => (connects s h, h))) (fun _ => True).
Proof. apply k_read. Qed.

Lemma k_ret {A : Type} (a : A) : keeps I (ret a) (fun _ => True).
Proof. by apply keeps_ret. Qed.

Lemma k_throw {A : Type} (e : LocalError) : keeps I (throw e : M Home A) (fun _ => True).
Proof. by apply keeps_throw. Qed.

(** The structure of a program, down to its operations. *)
Ltac walk_with known := repeat first
  [ progress cbv beta zeta
  | known
  | apply k_ret | apply k_throw | apply k_from_result | apply k_kv_get | apply k_read
  | apply k_kv_set; unfold rotation_keys; set_solver
  | apply k_attempt
  | apply k_bind; [|intros ?]
  | case_match ].
Ltac walk := walk_with fail.

Lemma k_reseal_secrets (o n : RootKey) (rows : list Secret) (c : Z) : Forall (fun s => P (secret_id s)) rows ->
  keeps I (reseal_secrets nonce o n rows c) (fun _ => True).
Proof.
  revert c. induction rows as [|row rows IH]; intros c Hr; cbn [reseal_secrets]; [apply k_ret|].
  apply Forall_cons in Hr as [Hp Hr]. walk; [by apply IH| |by apply IH].
  apply k_on_db. intros h f Hh Hf. split; [|done]. by apply (sk_secret _ _ HI).
Qed.

Lemma k_reseal_personas (o n : RootKey) (rows : list Persona) (c : Z) : keeps I (reseal_personas nonce o n rows c) (fun _ => True).
Proof.
  revert c. induction rows as [|p rows IH]; intros c; cbn [reseal_personas]; [apply k_ret|]. walk; [|apply IH..].
  apply k_on_db. intros h f Hh Hf. split; [|done]. by apply (sk_personas _ _ HI).
Qed.

Lemma k_reseal_all (o n : RootKey) : keeps I (reseal_all nonce o n) (fun _ => True).
Proof.
  unfold reseal_all. eapply keeps_bind with (P := fun rows => Forall (fun s => P (secret_id s)) rows).
  { apply k_on_db. intros h f Hh Hf. split; [by apply k_same|]. apply Forall_forall. intros s Hs. by apply (sk_listed _ _ HI h f). }
  intros rows Hrows. apply k_bind; [by apply k_reseal_secrets|]. intros a. apply k_bind.
  { apply k_on_db. intros h f Hh Hf. split; [by apply k_same|done]. }
  intros ps. apply k_bind; [apply k_reseal_personas|]. intros b. apply k_ret.
Qed.

Lemma k_keyring_set (a : string) (r : RootKey) : keeps I (keyring_set a r) (fun _ => True).
Proof. apply k_write. intros h. apply (sk_keyring _ _ HI). Qed.

Lemma k_store_verified (a : string) (r : RootKey) : keeps I (store_verified a r) (fun _ => True).
Proof. unfold store_verified. walk_with ltac:(apply k_keyring_set). Qed.

Lemma k_remove_key_file : keeps I remove_key_file_if_present (fun _ => True).
Proof. unfold remove_key_file_if_present. walk. apply k_write. intros h. apply (sk_key_file _ _ HI). Qed.

Lemma k_persist (r : RootKey) (uk : bool) : keeps I (persist_new_root profile r uk) (fun _ => True).
Proof.
  unfold persist_new_root, keyring_store_verified, file_set.
  walk_with ltac:(first [apply k_store_verified|apply k_remove_key_file]).
  apply k_write. intros h. apply (sk_key_file _ _ HI).
Qed.

Lemma k_write_journal (g : Z) (r : RootKey) (uk : bool) : keeps I (write_journal profile g r uk) (fun _ => True).
Proof.
  unfold write_journal, keyring_put_rotation_root. walk_with ltac:(apply k_store_verified);
    apply k_write; intros h; apply (sk_journal _ _ HI).
Qed.

Lemma k_rekey (a b : string) : keeps I (rekey_db_file cipher a b) (fun _ => True).
Proof.
  unfold rekey_db_file, statement. walk. apply k_write. intros h Hh. destruct (sk_db _ _ HI h Hh) as [f Hf]. rewrite Hf.
  by apply (sk_pragma _ _ HI).
Qed.

Lemma k_open_db (a : string) : keeps I (open_db cipher a) (fun _ => True).
Proof.
  unfold open_db. apply k_bind; [|intros b; walk]. apply keeps_faulted; [apply (sk_stable _ _ HI)|].
  intros h Hh. destruct (sk_db _ _ HI h Hh) as [f Hf]. by rewrite Hf.
Qed.

Lemma k_rewrap (o n : RootKey) (g : Z) : keeps I (rewrap_recovery_idempotent o n g) (fun _ => True).
Proof. unfold rewrap_recovery_idempotent, rewrap_for_new_root. walk. Qed.

(** Any rotation, faults included, keeps [I]. *)
Lemma rotation_keeps (o n : RootKey) (uk : bool) : keeps I (rewrap_only profile cipher nonce o n uk) (fun _ => True).
Proof.
  unfold rewrap_only, rotate_root, generation, set_phase, remove_journal, keyring_delete_rotation_root.
  walk_with ltac:(first [apply k_write_journal|apply k_reseal_all|apply k_rewrap|apply k_rekey|apply k_persist|apply k_open_db]).
  - apply k_write. intros h. apply (sk_journal _ _ HI).
  - apply k_write. intros h. apply (sk_keyring _ _ HI).
Qed.
End keeps.

(** ** Two such predicates *)

Section predicates.
Context (h0 : Home) (f0 : DbFile).

Definition lock_keys : list string := [CFG_WRAP; CFG_SALT; CFG_M_COST; CFG_T_COST; CFG_P_COST].

(** The app lock's settings are as in [c]. *)
Definition lock_as (c : gmap string string) (h : Home) : Prop :=
  is_Some (db_file h) /\ forall k, k ∈ lock_keys -> config h !! k = c !! k.

Lemma lock_as_steps (c : gmap string string) : step_keeps (lock_as c) (fun _ => True).
Proof.
  assert (Hsame : forall h h', db_file h' = db_file h -> lock_as c h -> lock_as c h').
  { intros h h' E [H1 H2]. split; [by rewrite E|]. intros k Hk. rewrite <- H2 by done. cbn. by rewrite E. }
  assert (Hkv : forall h f f', db_file h = Some f -> kv f' = kv f -> lock_as c h -> lock_as c (set_db_file (Some f') h)).
  { intros h f f' Ef E [H1 H2]. split; [by cbn|]. intros k Hk. rewrite <- H2 by done. cbn. by rewrite Ef, E. }
  split.
  - intros h fs Hh. exact Hh.
  - by intros h [? _].
  - done.
  - intros h f k v Hk [H1 H2] Hf. split; [by cbn|]. intros k' Hk'. rewrite <- H2 by done. cbn. rewrite Hf.
    apply lookup_insert_ne. intros ->. unfold rotation_keys, lock_keys in *. rewrite !elem_of_cons, !elem_of_nil in *.
    destruct_or!; by subst.
  - intros h f id v _ Hh Hf. by eapply Hkv.
  - intros h f ps Hh Hf. by eapply Hkv.
  - intros h f k Hh Hf. by eapply Hkv.
  - intros h v Hh. by eapply Hsame.
  - intros h v Hh. by eapply Hsame.
  - intros h v Hh. by eapply Hsame.
Qed.

(** A row that the listing does not reach. *)
Definition row_kept (ids : list Z) (s : Secret) (h : Home) : Prop :=
  exists f, db_file h = Some f /\ map secret_id (secrets f) = ids /\ s ∈ secrets f.

Lemma row_kept_steps (ids : list Z) (s : Secret) : NoDup ids -> secret_id s ∈ drop LIST_CAP ids ->
  step_keeps (row_kept ids s) (fun id => id ∈ take LIST_CAP ids).
Proof.
  intros Hnd Hs.
  assert (Hne : forall id, id ∈ take LIST_CAP ids -> id <> secret_id s).
  { intros id Hid ->. rewrite <- (take_drop LIST_CAP ids) in Hnd. apply NoDup_app in Hnd as (_ & Hd & _). by apply (Hd (secret_id s)). }
  assert (Hsame : forall h h', db_file h' = db_file h -> row_kept ids s h -> row_kept ids s h').
  { intros h h' E (f & H1 & H2). exists f. by rewrite E. }
  assert (Hsec : forall h f f', db_file h = Some f -> secrets f' = secrets f -> row_kept ids s h -> row_kept ids s (set_db_file (Some f') h)).
  { intros h f f' Ef E (g & H1 & H2 & H3). exists f'. rewrite Ef in H1. injection H1 as ->. by rewrite E. }
  split.
  - intros h fs Hh. exact Hh.
  - intros h (f & -> & _). eauto.
  - intros h f x (g & H1 & <- & H3) Hf Hx. rewrite H1 in Hf. injection Hf as ->. rewrite <- fmap_take. by apply list_elem_of_fmap_2.
  - intros h f k v _ Hh Hf. by eapply Hsec.
  - intros h f id v Hid (g & H1 & H2 & H3) Hf. rewrite H1 in Hf. injection Hf as ->. eexists. split; [done|]. cbn [secrets set_secrets]. split.
    + rewrite map_map, <- H2. apply map_ext. intros x. destruct (Z.eqb_spec (secret_id x) id); [by cbn|done].
    + apply list_elem_of_fmap. exists s. split; [|done]. destruct (Z.eqb_spec (secret_id s) id) as [E|]; [|done].
      by destruct (Hne id Hid).
  - intros h f ps Hh Hf. by eapply Hsec.
  - intros h f k Hh Hf. by eapply Hsec.
  - intros h v Hh. by eapply Hsame.
  - intros h v Hh. by eapply Hsame.
  - intros h v Hh. by eapply Hsame.
Qed.
End predicates.

(** ** Properties *)

Section properties.
Context `{VaultLaws} (profile : option string) (cipher : bool) (nonce : string -> string).

Lemma opens_ext (r : RootKey) (c c' : gmap string string) (pp : string) :
  (forall k, k ∈ lock_keys -> c' !! k = c !! k) -> opens r c' pp -> opens r c pp.
Proof.
  intros Hk (w & s & wrap & salt & key & H1 & H2 & H3 & H4 & H5 & H6). unfold cost in H5.
  rewrite !Hk in H5 by (unfold lock_keys; set_solver). rewrite Hk in H1 by (unfold lock_keys; set_solver).
  rewrite Hk in H2 by (unfold lock_keys; set_solver). by exists w, s, wrap, salt, key.
Qed.

Lemma opens_root (r r' : RootKey) (c : gmap string string) (pp : string) : opens r c pp -> opens r' c pp -> r = r'.
Proof.
  intros (w & s & wrap & salt & key & H1 & H2 & H3 & H4 & H5 & H6) (w' & s' & wrap' & salt' & key' & K1 & K2 & K3 & K4 & K5 & K6).
  congruence.
Qed.

Lemma rewrap_calc (old new : RootKey) (e : list Z) : root_ok old -> root_ok new ->
  unb64_32 "recovery" (b64 (xor old (wrap_key_from_mnemonic e))) = Ok (xor old (wrap_key_from_mnemonic e)) /\
  xor new (xor old (xor old (wrap_key_from_mnemonic e))) = xor new (wrap_key_from_mnemonic e) /\
  xor new (xor old (xor new (wrap_key_from_mnemonic e))) = xor old (wrap_key_from_mnemonic e).
Proof.
  intros Ho Hn. pose proof (hkdf_length e RECOVERY_INFO) as Hk. destruct (Ho) as [Lo _]. destruct (Hn) as [Ln _].
  split; [by apply unb64_32_b64, wraps_ok|]. unfold wrap_key_from_mnemonic. split; [by apply rewrap_key|].
  set (k := hkdf e RECOVERY_INFO) in *. rewrite (xor_comm new (xor old _)), xor_assoc, (xor_comm new k), xor_cancel by congruence.
  done.
Qed.

(** One pass: complete, and stopped before the marker. *)
Lemma rewrap_pass (old new : RootKey) (gen : Z) (kf : option (list Z)) (kr : gmap string (list Z)) (j : option RotateJournal) (f : DbFile)
    (m : gmap string string) (w : string) (stored : RootKey) :
  m !! CFG_REWRAP_GEN ≫= parse_i64 <> Some gen -> m !! CFG_RECOVERY_WRAP = Some w -> unb64_32 "recovery" w = Ok stored ->
  let m' := <[CFG_RECOVERY_WRAP := b64 (xor new (xor old stored))]> m in
  rewrap_recovery_idempotent old new gen (mkHome kf kr j (Some (set_kv m f)) []) =
    (Ok tt, mkHome kf kr j (Some (set_kv (<[CFG_REWRAP_GEN := Z_to_string gen]> m') f)) []) /\
  rewrap_recovery_idempotent old new gen (mkHome kf kr j (Some (set_kv m f)) [false; false; false; true]) =
    (Err DbError, mkHome kf kr j (Some (set_kv m' f)) []).
Proof.
  intros Hm Hw Hu m'. unfold rewrap_recovery_idempotent, rewrap_for_new_root, bind, kv_get, kv_set, statement, faulted.
  split; cbn; rewrite bool_decide_eq_false_2 by done; cbn; rewrite Hw; cbn; rewrite Hu; done.
Qed.

(** The re-wrap of the recovery code is not applied once. With the wrap of the old root, a re-wrap without faults leaves that of the new root, and
    every later one for the same generation, whatever fails, keeps it. But when the marker's statement fails after the
    wrap is stored, the resumed re-wrap, which succeeds, brings back the wrap of the old root: the phrase then recovers
    a root that opens nothing. *)
Theorem recovery_rewrap_twice (old new : RootKey) (e : list Z) (gen : Z) (h : Home) (f : DbFile)
    (Hold : root_ok old) (Hnew : root_ok new) (Hgen : in_i64 gen) (Hf : db_file h = Some f)
    (Hw : wraps old e (kv f)) (Hm : kv f !! CFG_REWRAP_GEN ≫= parse_i64 <> Some gen) :
  (let '(r, h1) := rewrap_recovery_idempotent old new gen (set_faults [] h) in
   r = Ok tt /\ wraps new e (config h1) /\
   forall fs, wraps new e (config (snd (rewrap_recovery_idempotent old new gen (set_faults fs h1))))) /\
  (let '(r, h1) := rewrap_recovery_idempotent old new gen (set_faults [false; false; false; true] h) in
   r = Err DbError /\
   let '(r', h2) := rewrap_recovery_idempotent old new gen (set_faults [] h1) in r' = Ok tt /\ wraps old e (config h2)).
Proof.
  destruct (rewrap_calc old new e Hold Hnew) as (C1 & C2 & C3).
  destruct h as [kf kr j [f'|] fs0]; [|done]. injection Hf as ->. unfold wraps in *.
  set (K := fun r => b64 (xor r (wrap_key_from_mnemonic e))) in *.
  destruct f as [pk m0 ss ps]. cbn [kv] in *. set (f := mkDbFile pk m0 ss ps).
  assert (Hother : forall m fs, m !! CFG_REWRAP_GEN ≫= parse_i64 = Some gen -> m !! CFG_RECOVERY_WRAP = Some (K new) ->
    config (snd (rewrap_recovery_idempotent old new gen (mkHome kf kr j (Some (set_kv m f)) fs))) !! CFG_RECOVERY_WRAP = Some (K new)).
  { intros m fs H1 H2. unfold rewrap_recovery_idempotent, bind, kv_get, statement, faulted. cbn.
    destruct fs as [|[] fs]; cbn; rewrite ?H1, ?bool_decide_eq_true_2 by done; done. }
  assert (Hmark : forall m : gmap string string, <[CFG_REWRAP_GEN := Z_to_string gen]> m !! CFG_REWRAP_GEN ≫= parse_i64 = Some gen).
  { intros m. rewrite lookup_insert_eq. by apply parse_Z_to_string. }
  split.
  - change (set_faults [] _) with (mkHome kf kr j (Some (set_kv m0 f)) []).
    rewrite (proj1 (rewrap_pass old new gen kf kr j f m0 _ _ Hm Hw C1)). split; [done|]. rewrite C2. split.
    + cbn. by rewrite lookup_insert_ne, lookup_insert_eq by done.
    + intros fs. apply Hother; [apply Hmark|]. by rewrite lookup_insert_ne, lookup_insert_eq by done.
  - change (set_faults [false; false; false; true] _) with (mkHome kf kr j (Some (set_kv m0 f)) [false; false; false; true]).
    rewrite (proj2 (rewrap_pass old new gen kf kr j f m0 _ _ Hm Hw C1)). split; [done|]. rewrite C2.
    set (m := <[CFG_RECOVERY_WRAP := K new]> m0).
    change (set_faults [] _) with (mkHome kf kr j (Some (set_kv m f)) []).
    assert (Hm' : m !! CFG_REWRAP_GEN ≫= parse_i64 <> Some gen) by (unfold m; by rewrite lookup_insert_ne by done).
    assert (Hw' : m !! CFG_RECOVERY_WRAP = Some (K new)) by (unfold m; by rewrite lookup_insert_eq).
    assert (C4 : unb64_32 "recovery" (K new) = Ok (xor new (wrap_key_from_mnemonic e))) by (by apply unb64_32_b64, wraps_ok).
    rewrite (proj1 (rewrap_pass old new gen kf kr j f m _ _ Hm' Hw' C4)). split; [done|]. rewrite C3.
    cbn. by rewrite lookup_insert_ne, lookup_insert_eq by done.
Qed.

(** A rotation of the root strands the app lock. The lock's stored wrap is that of the old root throughout, so a passphrase
    that opened the vault under the old root does not open it under the new one, though the lock stays configured
    and every start is locked. *)
Theorem rotation_strands_app_lock (old new : RootKey) (use_keyring : bool) (h : Home) (fs : list bool) (pp : string)
    (Hdb : is_Some (db_file h)) (Hne : old <> new) (Hpp : opens old (config h) pp) :
  let h' := snd (rewrap_only profile cipher nonce old new use_keyring (set_faults fs h)) in
  is_Some (config h' !! CFG_WRAP) /\ ~ opens new (config h') pp.
Proof.
  assert (Hl : lock_as (config h) (set_faults fs h)) by (split; [exact Hdb|done]).
  pose proof (keeps_state _ _ _ _ (rotation_keeps profile cipher nonce _ _ (lock_as_steps (config h)) old new use_keyring) Hl) as [_ Hk].
  cbv zeta. split.
  - rewrite Hk by (unfold lock_keys; set_solver). destruct Hpp as (w & ? & ? & ? & ? & E & _). rewrite E. eauto.
  - intros Ho. apply Hne. eapply opens_root; [exact Hpp|]. by eapply opens_ext.
Qed.

(** A rotation reseals the first 500 secrets only. A row past the listing's cap is still in the table, byte for byte as the
    old root sealed it, whatever fails or succeeds. *)
Theorem rows_past_cap_not_resealed (old new : RootKey) (use_keyring : bool) (h : Home) (fs : list bool) (f : DbFile) (s : Secret)
    (Hf : db_file h = Some f) (Hnd : NoDup (map secret_id (secrets f))) (Hs : s ∈ drop LIST_CAP (secrets f)) :
  exists f', db_file (snd (rewrap_only profile cipher nonce old new use_keyring (set_faults fs h))) = Some f' /\ s ∈ secrets f'.
Proof.
  assert (Hid : secret_id s ∈ drop LIST_CAP (map secret_id (secrets f))).
  { change (map secret_id (secrets f)) with (secret_id <$> secrets f). rewrite <- fmap_drop. by apply list_elem_of_fmap_2. }
  assert (Hl : row_kept (map secret_id (secrets f)) s (set_faults fs h)).
  { exists f. split_and!; try done. rewrite <- (take_drop LIST_CAP (secrets f)). apply elem_of_app. by right. }
  pose proof (keeps_state _ _ _ _ (rotation_keeps profile cipher nonce _ _ (row_kept_steps _ s Hnd Hid) old new use_keyring) Hl)
    as (f' & H1 & _ & H3).
  by exists f'.
Qed.
End properties.

(** ** Examples *)

Definition demo_wrapped : DbFile :=
  mkDbFile EmptyString {[ CFG_RECOVERY_WRAP := b64 (xor demo_root (wrap_key_from_mnemonic demo_entropy)) ]} [] [].
Definition demo_wrapped_home : Home := mkHome (Some demo_root) ∅ None (Some demo_wrapped) [].

Example recovery_rewrap_twice_witness :
  let '(r, h1) := rewrap_recovery_idempotent demo_root demo_new 1 (set_faults [false; false; false; true] demo_wrapped_home) in
  r = Err DbError /\
  let '(r', h2) := rewrap_recovery_idempotent demo_root demo_new 1 (set_faults [] h1) in
  r' = Ok tt /\ wraps demo_root demo_entropy (config h2).
Proof.
  apply (proj2 (recovery_rewrap_twice demo_root demo_new demo_entropy 1 demo_wrapped_home demo_wrapped demo_root_ok demo_new_ok
    ltac:(unfold in_i64, i64_min, i64_max; lia) eq_refl eq_refl ltac:(vm_compute; discriminate))).
Defined.

(** The vault that was enabled in VaultLock.v. *)
Example rotation_strands_app_lock_witness :
  let h' := snd (rewrap_only None true demo_nonce demo_root demo_new false (set_faults [] (home demo_open))) in
  is_Some (config h' !! CFG_WRAP) /\ ~ opens demo_new (config h') "correct".
Proof.
  apply (rotation_strands_app_lock None true demo_nonce demo_root demo_new false (home demo_open) [] "correct").
  - vm_compute. eauto.
  - vm_compute. discriminate.
  - vm_compute. do 5 eexists. split_and!; reflexivity.
Defined.

Definition demo_many : DbFile :=
  mkDbFile (key_pragma_value (db_key_hex_for demo_root)) ∅ (map (fun n => demo_secret (Z.of_nat n) "K") (seq 0 501)) [].
Definition demo_many_home : Home := mkHome (Some demo_root) ∅ None (Some demo_many) [].

Example rows_past_cap_not_resealed_witness :
  exists f', db_file (snd (rewrap_only None true demo_nonce demo_root demo_new false (set_faults [] demo_many_home))) = Some f' /\
    demo_secret 500 "K" ∈ secrets f'.
Proof.
  apply (rows_past_cap_not_resealed None true demo_nonce demo_root demo_new false demo_many_home [] demo_many (demo_secret 500 "K")).
  - reflexivity.
  - apply (bool_decide_unpack _). vm_compute. exact I.
  - change (drop LIST_CAP (secrets demo_many)) with [demo_secret 500 "K"]. left.
Defined.

(** A rotation stopped after one row, then another one: the row is under a root that no file or journal
    holds, and every later boot leaves it there. *)
Example second_rotation_loses_row :
  let third := repeat 5 32 in
  let h1 := snd (rewrap_only None true demo_nonce demo_root demo_new false
    (mkHome (Some demo_root) ∅ None (Some demo_file) [false; false; false; false; false; false; true])) in
  let h2 := snd (rewrap_only None true demo_nonce demo_root third false (set_faults [] h1)) in
  let '(r, h3) := boot None true demo_nonce demo_root false (set_faults [] h2) in
  r = Ok demo_root /\ key_file h3 = Some demo_root /\
  (new_root_hex <$> journal h3) = Some (hex_lower third) /\
  exists f s, db_file h3 = Some f /\ head (secrets f) = Some s /\
    secret_in demo_root s = None /\ secret_in third s = None /\ secret_in demo_new s = Some "hunter2"%string.
Proof. vm_compute. split_and!; try reflexivity. do 2 eexists. split_and!; reflexivity. Qed.

(** A boot whose recovery fails to write the key file goes on with the old root, under which the re-keyed database
    does not open. *)
Example failed_recovery_boots_old_root :
  let h1 := snd (rewrap_only None true demo_nonce demo_root demo_new false
    (mkHome (Some demo_root) ∅ None (Some demo_file) (repeat false 18 ++ [true])%list)) in
  let '(r, h2) := boot None true demo_nonce demo_root false (set_faults [false; false; false; true] h1) in
  r = Ok demo_root /\ connects (key_pragma_value (db_key_hex_for demo_root)) h2 = false /\
  connects (key_pragma_value (db_key_hex_for demo_new)) h2 = true.
Proof. vm_compute. repeat split. Qed.
