(* ===== verification/Robots.v ===== *)
(** * crawl_shard/robots.rs and crawl_shard/body_limit.rs: what a crawl reads of robots.txt

    The rules of the [User-agent: *] group, the decision on a path and the bounded parse, with the bounded read every
    fetch of the crawl goes through. [star_directives] is the reference for [parse]: the directives of the star groups
    in order, without a bound. The cache by origin is in [CrawlAdmit], where the fetches are. *)

From Stdlib Require Import Ascii String.
From S2P Require Import Prelude Ints Str Extract.
Open Scope string_scope.
Open Scope list_scope.
Open Scope Z_scope.

(** ** Bounded reads *)

Definition HTML_MAX : Z := 10 * 1024 * 1024.
Definition ROBOTS_MAX : Z := 512 * 1024.
Definition SITEMAP_MAX : Z := 10 * 1024 * 1024.
Definition DOC_MAX : Z := 32 * 1024 * 1024.
Definition API_RESPONSE_MAX : Z := 10 * 1024 * 1024.

Inductive BodyReadError : Type :=
| TooLarge (limit observed : Z)
| Transport.

(** A body in transit: the advertised length, the decoded chunks as they arrive, and whether the transfer fails after
    them. *)
Record Body : Type := mkBody {
  content_length : option Z;
  chunks : list string;
  broken : bool;
}.

(** The loop of [read_bytes_capped] over the chunks; [out] is the buffer. *)
Fixpoint read_chunks (limit : Z) (out : string) (cs : list string) (fails : bool) : result string BodyReadError :=
  match cs with
  | [] => if fails then Err Transport else Ok out
  | c :: cs =>
      let would_be := Z.min u64_max (str_len out + str_len c) in
      if limit <? would_be then Err (TooLarge limit would_be)
      else read_chunks limit (String.append out c) cs fails
  end.

Definition read_bytes_capped (b : Body) (limit : Z) : result string BodyReadError :=
  match content_length b with
  | Some len => if limit <? len then Err (TooLarge limit len) else read_chunks limit "" (chunks b) (broken b)
  | None => read_chunks limit "" (chunks b) (broken b)
  end.

Definition body_text (b : Body) : string := foldr String.append "" (chunks b).

(** ** Rules *)

Definition MAX_RULES : Z := 4000.

Record RobotsRules : Type := mkRules {
  allow : list string;
  disallow : list string;
}.

Definition no_rules : RobotsRules := mkRules [] [].

Definition path_matches (path rule : string) : bool :=
  starts_with path (unwrap_or (strip_suffix "*" rule) rule).

(** [best_len] and [decision] of [allowed] after one rule. *)
Definition allow_rule (path : string) (st : Z * bool) (a : string) : Z * bool :=
  let '(best_len, decision) := st in
  if path_matches path a && (best_len <=? str_len a) then (str_len a, true) else (best_len, decision).

Definition disallow_rule (path : string) (st : Z * bool) (d : string) : Z * bool :=
  let '(best_len, decision) := st in
  if is_empty d then (best_len, decision)
  else if path_matches path d && (best_len <? str_len d) then (str_len d, false) else (best_len, decision).

Definition allowed (r : RobotsRules) (path : string) : bool :=
  let path := if is_empty path then "/" else path in
  snd (foldl (disallow_rule path) (foldl (allow_rule path) (-1, true) (allow r)) (disallow r)).

(** ** Parsing *)

Record parser : Type := mkParser {
  rules : RobotsRules;
  group_is_star : bool;
  in_agent_block : bool;
}.

Definition parser_init : parser := mkParser no_rules false false.

Definition rule_count (r : RobotsRules) : Z := Z.of_nat (length (allow r) + length (disallow r)).

(** The field and the value of a line that carries a directive. *)
Definition field_value (raw : string) : option (string * string) :=
  let line := trim (unwrap_or (head (split "#" raw)) "") in
  if is_empty line then None
  else match split_once ":" line with
       | None => None
       | Some (field, value) => Some (to_ascii_lowercase (trim field), trim value)
       end.

(** The body of the loop of [parse] for one directive. *)
Definition parse_field (p : parser) (field value : string) : parser :=
  if str_eqb field "user-agent" then
    mkParser (rules p) (str_eqb value "*" || (in_agent_block p && group_is_star p)) true
  else if str_eqb field "disallow" then
    let r := if group_is_star p && (rule_count (rules p) <? MAX_RULES)
             then mkRules (allow (rules p)) (disallow (rules p) ++ [value]) else rules p in
    mkParser r (group_is_star p) false
  else if str_eqb field "allow" then
    let r := if group_is_star p && (rule_count (rules p) <? MAX_RULES)
             then mkRules (allow (rules p) ++ [value]) (disallow (rules p)) else rules p in
    mkParser r (group_is_star p) false
  else mkParser (rules p) (group_is_star p) false.

Definition parse_line (p : parser) (raw : string) : parser :=
  match field_value raw with
  | None => p
  | Some (field, value) => parse_field p field value
  end.

Definition parse (body : string) : RobotsRules := rules (foldl parse_line parser_init (lines body)).

(** ** Reference definitions *)

(** [l] is the directives read so far, the last one first. *)
Fixpoint agent_run (l : list (string * string)) : bool :=
  match l with
  | [] => false
  | (field, value) :: l => str_eqb field "user-agent" && (str_eqb value "*" || agent_run l)
  end.

(** The last block of consecutive agent lines names the star agent. *)
Fixpoint star_group (l : list (string * string)) : bool :=
  match l with
  | [] => false
  | (field, value) :: l' => if str_eqb field "user-agent" then agent_run l else star_group l'
  end.

Definition is_rule (field : string) : bool := str_eqb field "allow" || str_eqb field "disallow".

(** The rules of the star groups among [fs], in order; [before] was read first. *)
Fixpoint star_directives (before fs : list (string * string)) : list (string * string) :=
  match fs with
  | [] => []
  | (field, value) :: fs =>
      (if is_rule field && star_group before then [(field, value)] else []) ++ star_directives ((field, value) :: before) fs
  end.

Definition values_of (field : string) (ds : list (string * string)) : list string :=
  snd <$> retain (fun d => str_eqb (fst d) field) ds.

Definition rules_of (ds : list (string * string)) : RobotsRules := mkRules (values_of "allow" ds) (values_of "disallow" ds).

(** ** Lemmas *)

Lemma star_directives_snoc (before fs : list (string * string)) (f v : string) :
  star_directives before (fs ++ [(f, v)]) =
  star_directives before fs ++ (if is_rule f && star_group (rev fs ++ before) then [(f, v)] else []).
Proof.
  revert before. induction fs as [|[g w] fs IH]; intros before; cbn [app star_directives rev].
  - by rewrite app_nil_r.
  - rewrite IH, <-!app_assoc. done.
Qed.

Lemma values_of_app (field : string) (a b : list (string * string)) :
  values_of field (a ++ b) = values_of field a ++ values_of field b.
Proof. unfold values_of. by rewrite retain_app, fmap_app. Qed.

Lemma values_of_one (field f v : string) : values_of field [(f, v)] = if str_eqb f field then [v] else [].
Proof. unfold values_of. rewrite retain_cons. cbn [fst]. by destruct (str_eqb f field). Qed.

Lemma rules_of_count (ds : list (string * string)) :
  Forall (fun d => is_rule (fst d) = true) ds -> rule_count (rules_of ds) = Z.of_nat (length ds).
Proof.
  unfold rule_count, rules_of. cbn [allow disallow]. intros H. f_equal.
  induction H as [|[f v] ds Hf _ IH]; [done|]. change ((f, v) :: ds) with ([(f, v)] ++ ds).
  rewrite !values_of_app, !length_app, !values_of_one. cbn [length].
  cbn [fst] in Hf. unfold is_rule in Hf. destruct (str_eqb f "allow") eqn:E.
  - apply str_eqb_eq in E as ->. replace (str_eqb "allow" "disallow") with false by done. cbn [length]. lia.
  - simpl in Hf. rewrite Hf. cbn [length]. lia.
Qed.

Lemma star_directives_rules (before fs : list (string * string)) :
  Forall (fun d => is_rule (fst d) = true) (star_directives before fs).
Proof.
  revert before. induction fs as [|[f v] fs IH]; intros before; [constructor|]. cbn [star_directives].
  apply Forall_app_2; [|done]. destruct (is_rule f) eqn:E; [|constructor].
  destruct (star_group before); simpl; [by repeat constructor|constructor].
Qed.

(** One rule appended under the cap. *)
Lemma take_snoc_cap (n : nat) (ds : list (string * string)) (d : string * string) :
  take n (ds ++ [d]) = if (length ds <? n)%nat then take n ds ++ [d] else take n ds.
Proof.
  destruct (Nat.ltb_spec (length ds) n) as [H|H].
  - rewrite !take_ge; [done|lia|rewrite length_app; simpl; lia].
  - by rewrite take_app_le.
Qed.

Lemma rules_of_take_count (n : nat) (before fs : list (string * string)) :
  rule_count (rules_of (take n (star_directives before fs))) = Z.of_nat (Nat.min n (length (star_directives before fs))).
Proof. rewrite rules_of_count, length_take; [done|]. apply Forall_take, star_directives_rules. Qed.

(** The parser's state is a function of the directives read. *)
Definition parser_at (fs : list (string * string)) (p : parser) : Prop :=
  rules p = rules_of (take (Z.to_nat MAX_RULES) (star_directives [] fs)) /\
  group_is_star p = star_group (rev fs) /\
  in_agent_block p && group_is_star p = agent_run (rev fs).

Lemma rules_of_snoc (fs : list (string * string)) (f v : string) (p : parser) :
  parser_at fs p -> is_rule f = true ->
  rules_of (take (Z.to_nat MAX_RULES) (star_directives [] (fs ++ [(f, v)]))) =
  if group_is_star p && (rule_count (rules p) <? MAX_RULES)
  then mkRules (allow (rules p) ++ values_of "allow" [(f, v)]) (disallow (rules p) ++ values_of "disallow" [(f, v)])
  else rules p.
Proof.
  intros (Hr & Hs & _) Hf. rewrite star_directives_snoc, Hf, app_nil_r, <-Hs. simpl andb.
  destruct (group_is_star p); simpl; [|by rewrite app_nil_r, Hr].
  rewrite take_snoc_cap, Hr, rules_of_take_count.
  destruct (Nat.ltb_spec (length (star_directives [] fs)) (Z.to_nat MAX_RULES)) as [H|H].
  - replace (Z.of_nat _ <? MAX_RULES) with true by (symmetry; apply Z.ltb_lt; lia).
    unfold rules_of. by rewrite !values_of_app.
  - replace (Z.of_nat _ <? MAX_RULES) with false by (symmetry; apply Z.ltb_ge; lia). done.
Qed.

Lemma rules_of_other (fs : list (string * string)) (f v : string) :
  is_rule f = false -> star_directives [] (fs ++ [(f, v)]) = star_directives [] fs.
Proof. intros Hf. by rewrite star_directives_snoc, Hf, app_nil_r. Qed.

Lemma parse_field_at (fs : list (string * string)) (f v : string) (p : parser) :
  parser_at fs p -> parser_at (fs ++ [(f, v)]) (parse_field p f v).
Proof.
  intros H. pose proof H as (Hr & Hs & Ha). unfold parse_field, parser_at.
  rewrite rev_unit. cbn [star_group agent_run].
  destruct (str_eqb f "user-agent") eqn:E1; [|destruct (str_eqb f "disallow") eqn:E2; [|destruct (str_eqb f "allow") eqn:E3]];
    cbn [rules group_is_star in_agent_block andb].
  - apply str_eqb_eq in E1 as ->. rewrite rules_of_other by done. by rewrite Ha.
  - rewrite (rules_of_snoc fs f v p H) by (unfold is_rule; by rewrite E2, orb_true_r).
    apply str_eqb_eq in E2 as ->. rewrite !values_of_one, str_eqb_refl.
    replace (str_eqb "disallow" "allow") with false by done. by rewrite app_nil_r.
  - rewrite (rules_of_snoc fs f v p H) by (unfold is_rule; by rewrite E3).
    apply str_eqb_eq in E3 as ->. rewrite !values_of_one, str_eqb_refl.
    replace (str_eqb "allow" "disallow") with false by done. by rewrite app_nil_r.
  - rewrite rules_of_other by (unfold is_rule; by rewrite E3, E2). by rewrite Hs.
Qed.

Lemma parse_lines_at (ls : list string) :
  parser_at (omap field_value ls) (foldl parse_line parser_init ls).
Proof.
  induction ls as [|l ls IH] using rev_ind; [done|].
  rewrite foldl_app, omap_app. cbn [foldl]. change (omap field_value [l]) with (match field_value l with Some b => [b] | None => [] end).
  unfold parse_line at 1. destruct (field_value l) as [[f v]|]; [by apply parse_field_at|by rewrite app_nil_r].
Qed.

Lemma allow_fold (path : string) (l : list string) (best : Z) :
  exists len, foldl (allow_rule path) (best, true) l = (len, true) /\ best <= len /\
    (forall a, a ∈ l -> path_matches path a = true -> str_len a <= len) /\
    (len = best \/ exists a, a ∈ l /\ path_matches path a = true /\ str_len a = len).
Proof.
  revert best. induction l as [|a l IH]; intros best; cbn [foldl].
  { exists best. split_and!; [done|lia| |by left]. intros a Ha. by apply elem_of_nil in Ha. }
  unfold allow_rule at 2. destruct (path_matches path a && (best <=? str_len a)) eqn:E.
  - apply andb_prop in E as [Em El]. apply Z.leb_le in El.
    destruct (IH (str_len a)) as (len & -> & Hle & Hall & Hex). exists len.
    split_and!; [done|lia| |].
    + intros b [->|Hb]%elem_of_cons Hm; [done|by apply Hall].
    + right. destruct Hex as [->|(b & ? & ?)]; [exists a|exists b]; rewrite elem_of_cons; auto.
  - destruct (IH best) as (len & -> & Hle & Hall & Hex). exists len.
    split_and!; [done|done| |].
    + intros b [->|Hb]%elem_of_cons Hm; [|by apply Hall]. rewrite Hm in E. apply Z.leb_gt in E. lia.
    + destruct Hex as [->|(b & ? & ?)]; [by left|]. right. exists b. rewrite elem_of_cons. auto.
Qed.

Lemma disallow_fold (path : string) (l : list string) (best : Z) (b : bool) :
  snd (foldl (disallow_rule path) (best, b) l) =
  b && negb (any (fun d => negb (is_empty d) && path_matches path d && (best <? str_len d)) l).
Proof.
  revert best b. induction l as [|d l IH]; intros best b; cbn [foldl]; [by destruct b|].
  unfold disallow_rule at 2, any. cbn [existsb]. fold (any (A := string)).
  destruct (is_empty d); simpl; [apply IH|].
  destruct (path_matches path d && (best <? str_len d)); simpl; rewrite IH; [by rewrite andb_false_r|done].
Qed.

(** ** Theorems *)

(** a path is refused exactly when some non-empty [Disallow] rule matches it and is strictly longer than every
    [Allow] rule that matches it: the longest match wins, and [Allow] wins a tie. *)
Theorem robots_longest_match (r : RobotsRules) (path : string) :
  let p := if is_empty path then "/" else path in
  allowed r path = false <->
  exists d, d ∈ disallow r /\ d <> "" /\ path_matches p d = true /\
            forall a, a ∈ allow r -> path_matches p a = true -> str_len a < str_len d.
Proof.
  intros p. unfold allowed. fold p. destruct (allow_fold p (allow r) (-1)) as (len & -> & Hle & Hall & Hex).
  rewrite disallow_fold. simpl. rewrite negb_false_iff, any_true. split.
  - intros (d & Hd & Hc). bool_prop. apply Z.ltb_lt in H0. exists d. split_and!; [done| |done|].
    + intros ->. done.
    + intros a Ha Hm. specialize (Hall a Ha Hm). lia.
  - intros (d & Hd & Hne & Hm & Hlt). exists d. split; [done|]. rewrite !andb_true_iff, Hm, negb_true_iff, Z.ltb_lt.
    split_and!; [|done|].
    + destruct d; [by destruct Hne|done].
    + destruct Hex as [->|(a & Ha & Hma & <-)]; [|by apply Hlt]. unfold str_len. lia.
Qed.

(** the rules kept from a file are the first [MAX_RULES] directives of its star groups, where a directive is in a star
    group when the last block of agent lines before it names [*]. *)
Theorem robots_parse_exact (body : string) :
  parse body = rules_of (take (Z.to_nat MAX_RULES) (star_directives [] (omap field_value (lines body)))).
Proof. apply parse_lines_at. Qed.

Lemma parse_rule_count (body : string) : rule_count (parse body) <= MAX_RULES.
Proof. unfold parse. destruct (parse_lines_at (lines body)) as [-> _]. rewrite rules_of_take_count. unfold MAX_RULES. lia. Qed.

Example star_group_ex :
  parse (join (String (chr 10) "")
           ["User-agent: BadBot"; "Disallow: /"; ""; "User-agent: a"; "User-agent: *"; "Disallow: /admin # x"; "Allow: /admin/ok"])
  = mkRules ["/admin/ok"] ["/admin"].
Proof. by vm_compute. Qed.

Lemma read_chunks_spec (limit : Z) (cs : list string) (fails : bool) (out : string) :
  0 <= limit <= u64_max -> str_len out <= limit ->
  read_chunks limit out cs fails =
  let whole := String.append out (foldr String.append "" cs) in
  if str_len whole <=? limit then if fails then Err Transport else Ok whole
  else read_chunks limit out cs fails.
Proof.
  intros Hl. revert out. induction cs as [|c cs IH]; intros out Ho; cbn [read_chunks foldr].
  - rewrite append_nil_r. cbv zeta. by rewrite (proj2 (Z.leb_le _ _) Ho).
  - cbv zeta. destruct (Z.leb_spec (str_len (String.append out (String.append c (foldr String.append "" cs)))) limit) as [H|H]; [|done].
    unfold str_len in *. rewrite !str_length_append in H.
    replace (limit <? _) with false by (symmetry; apply Z.ltb_ge; lia).
    rewrite IH by (rewrite str_length_append; lia). cbv zeta. rewrite append_assoc.
    replace (_ <=? limit) with true by (symmetry; apply Z.leb_le; rewrite !str_length_append; lia). done.
Qed.

Lemma read_chunks_over (limit : Z) (cs : list string) (fails : bool) (out : string) :
  0 <= limit < u64_max -> str_len out <= limit ->
  limit < str_len (String.append out (foldr String.append "" cs)) ->
  exists observed, read_chunks limit out cs fails = Err (TooLarge limit observed) /\ limit < observed.
Proof.
  intros Hl. revert out. induction cs as [|c cs IH]; intros out Ho H; cbn [read_chunks foldr] in *.
  - rewrite append_nil_r in H. lia.
  - cbv zeta. unfold str_len in *. destruct (Z.ltb_spec limit (Z.min u64_max (Z.of_nat (String.length out) + Z.of_nat (String.length c)))) as [Hc|Hc].
    + eexists. split; [done|]. lia.
    + apply IH; [rewrite str_length_append; lia|]. by rewrite append_assoc.
Qed.

(** a bounded read returns the whole body when its decoded chunks fit the budget, the advertised length does and the
    transfer completes; when either is over the budget it fails, whatever the transfer does. *)
Theorem body_read_bounded (b : Body) (limit : Z) (H : 0 <= limit < u64_max) :
  let advertised := unwrap_or (content_length b) 0 in
  match read_bytes_capped b limit with
  | Ok out => out = body_text b /\ str_len out <= limit /\ advertised <= limit /\ broken b = false
  | Err Transport => str_len (body_text b) <= limit /\ advertised <= limit /\ broken b = true
  | Err (TooLarge l observed) => l = limit /\ limit < observed /\ (limit < advertised \/ limit < str_len (body_text b))
  end.
Proof.
  intros advertised. unfold read_bytes_capped, advertised.
  assert (Hr : match read_chunks limit "" (chunks b) (broken b) with
               | Ok out => out = body_text b /\ str_len out <= limit /\ broken b = false
               | Err Transport => str_len (body_text b) <= limit /\ broken b = true
               | Err (TooLarge l observed) => l = limit /\ limit < observed /\ limit < str_len (body_text b)
               end).
  { destruct (Z.leb_spec (str_len (body_text b)) limit) as [Hb|Hb].
    - rewrite read_chunks_spec; [|lia|unfold str_len; simpl; lia]. cbv zeta. change (String.append "" ?x) with x.
      fold (body_text b). rewrite (proj2 (Z.leb_le _ _) Hb). by destruct (broken b).
    - destruct (read_chunks_over limit (chunks b) (broken b) "") as (o & -> & Ho); [done|unfold str_len; simpl; lia|done|].
      done. }
  destruct (content_length b) as [len|]; simpl.
  - destruct (Z.ltb_spec limit len) as [Hlen|Hlen]; [split_and!; try done; by left|].
    destruct (read_chunks _ _ _ _) as [out|[l o|]]; simpl in Hr |- *; naive_solver lia.
  - destruct (read_chunks _ _ _ _) as [out|[l o|]]; simpl in Hr |- *; naive_solver lia.
Qed.

Lemma body_read_bounded_witness :
  0 <= 4 < u64_max /\
  match read_bytes_capped (mkBody (Some 2) ["ab"; "cd"; "e"] false) 4 with
  | Err (TooLarge l observed) => l = 4 /\ observed = 5
  | _ => False
  end.
Proof.
  split; [done|].
  pose proof (body_read_bounded (mkBody (Some 2) ["ab"; "cd"; "e"] false) 4 ltac:(done)) as H.
  vm_compute in H |- *. destruct H. done.
Defined.
