(* ===== verification/CrawlNet.v ===== *)
(** * crawl_shard/mod.rs: the data of a crawl, the session it replays and the classification of refusals

    A crawl has tasks: the manager and the workers. Each appends what it does to a log, and the network, the resolver, the
    clocks, the browser and the text extractor are functions of the log, so they answer as they please: [CrawlNet]. The
    page extractor (crawl_shard/extract.rs), the document extractor and the document store are calls of that interface. *)

From Stdlib Require Import Ascii String.
From S2P Require Export Trace.
From S2P Require Import Prelude Ints F64 Str Json IpAddr Robots.
From S2P Require Extract UrlGuard Str AuthImport.
Open Scope string_scope.
Open Scope list_scope.
Open Scope Z_scope.
Open Scope trace_scope.

(** ** Data *)

(** What the crawl reads of a parsed URL; [no_fragment] is its text once the fragment is cleared. *)
Record Url : Type := mkUrl {
  u_scheme : string;
  u_host : option string;
  u_port : option Z;
  u_path : string;
  u_query : option string;
  no_fragment : string;
}.

Definition guard_url (u : Url) : UrlGuard.url := UrlGuard.mkUrl (u_scheme u) (u_host u).

Record FrontierItem : Type := mkItem { i_url : string; i_depth : Z }.
#[export] Instance FrontierItem_eq_dec : EqDecision FrontierItem.
Proof. solve_decision. Defined.

Record ShardCookie : Type := mkCookie {
  c_name : string;
  c_value : string;
  c_domain : string;
  c_path : string;
  c_expires : f64;
  c_http_only : bool;
  c_secure : bool;
  c_same_site : option string;
}.

Record CrawlAuth : Type := mkAuth {
  a_cookies : list ShardCookie;
  local_storage : gmap string string;
  session_storage : gmap string string;
  a_headers : gmap string string;
  a_domain : string;
  user_agent : option string;
}.

Definition auth_default : CrawlAuth := mkAuth [] ∅ ∅ ∅ "" None.

(** [artifact]: whether a document store is configured. *)
Record CrawlConfig : Type := mkConfig {
  seed_host : string;
  seed_reg : string;
  same_domain : bool;
  allow_subdomains : bool;
  include_res : list string;
  exclude_res : list string;
  max_depth : Z;
  page_budget : Z;
  delay_ms : Z;
  respect_robots : bool;
  extract_mode : string;
  extract_schema : option json;
  render_mode : string;
  ocr_mode : string;
  content : option json;
  browser_available : bool;
  auth : CrawlAuth;
  want_thumbnails : bool;
  artifact : bool;
}.

Record PageLink : Type := mkLink { l_url : string; l_text : string }.

Record PageExtract : Type := mkExtract {
  x_title : string;
  x_rows : list json;
  x_links : list PageLink;
  x_favicon : option string;
  text_len : Z;
}.

Record BlockInfo : Type := mkBlock {
  b_kind : string;
  b_status : option Z;
  b_retry_after : option Z;
}.

Record Page : Type := mkPage {
  title : string;
  rows : list json;
  links : list PageLink;
  favicon : option string;
  content_kind : string;
  lane : string;
  screenshot : option string;
  file : option json;
}.

Inductive PageOutcome : Type :=
| Extracted (p : Page)
| NeedsBrowser (thin_html : option string) (blocked_fallback : option BlockInfo)
| Blocked (b : BlockInfo)
| Failed (reason : string).

Record WorkerOut : Type := mkOut { w_url : string; w_depth : Z; w_outcome : PageOutcome }.

Record ResolvedOut : Type := mkResolved {
  r_url : string;
  r_depth : Z;
  r_outcome : PageOutcome;
  escalated : bool;
  fetched_at : string;
}.

(** A GET of the crawl: the [Cookie] header, the session's agent and its headers. *)
Record Request : Type := mkRequest {
  rq_url : string;
  rq_cookie : option string;
  rq_user_agent : option string;
  rq_headers : gmap string string;
}.

Definition plain_get (u : string) : Request := mkRequest u None None ∅.

(** A response; header values that are not text are [None]. *)
Record Reply : Type := mkReply {
  rp_status : Z;
  rp_url : string;
  rp_content_type : option string;
  rp_retry_after : option string;
  rp_body : Body;
}.

Definition is_success (r : Reply) : bool := (200 <=? rp_status r) && (rp_status r <? 300).

(** What a render left behind: the address, the document, the picture that was asked for. *)
Record Rendering : Type := mkRendering { rn_url : string; rn_html : string; rn_shot : option string }.

Inductive Event : Type :=
| Vetted (url : string) (safe : bool)
| Requested (r : Request)
| CookiesAdded (url : string) (cs : list ShardCookie)
| StorageInjected (url : string) (local session : gmap string string)
| Rendered (url : string)
| Spawned (i : FrontierItem)
| Joined (i : FrontierItem)
| Statement.

Record Vetting : Type := mkVetting {
  v_lookup : string -> Z -> option (list ip_addr);
  v_read : Z;
  v_write : Z;
  v_table : gmap string (UrlGuard.HostVerdict * Z);
}.

Class CrawlNet : Type := {
  url_parse : string -> option Url;
  regex_ok : string -> bool;
  is_match : string -> string -> bool;
  (** the matches of a pattern in a text, each with its groups *)
  captures_iter : string -> string -> list (list (option string));
  json_from_str : string -> option json;
  json_to_string : json -> string;
  (** [char::to_lowercase] outside ASCII *)
  unicode_lower : string -> string;
  (** the text of a body under its content type *)
  decode_text : string -> string -> string;
  (** the resolver, the clock and the verdict table a call of the guard meets *)
  vetting : list Event -> Vetting;
  (** [None]: the request fails *)
  answer : list Event -> Request -> option Reply;
  now_iso : list Event -> string;
  (** [crawl_shard::extract::extract], and the reason the call was given up *)
  page_extract : string -> string -> Z -> string -> string -> option json -> option json -> PageExtract;
  extraction_fails : list Event -> option string;
  doc_configured : bool;
  doc_extract : list Event -> string -> string -> string -> string -> option json;
  capture_document : list Event -> string -> string -> string -> option json;
  browser_ready : list Event -> bool;
  (** a context and a page, the navigations of the storage replay, the render *)
  context_opens : list Event -> bool;
  goto_ok : list Event -> bool;
  reload_ok : list Event -> bool;
  render : list Event -> string -> bool -> option Rendering;
}.

(** ** Tasks *)

Notation W := (Trace.W Event).

Section net.
Context `{CrawlNet}.

(** [is_navigation_url_safe_async], in the surroundings it meets. *)
Definition nav_safe (v : Vetting) (u : string) : bool :=
  bool_decide (fst (UrlGuard.refusal_reason_inner (fun s => guard_url <$> url_parse s) (v_lookup v) (v_read v) (v_write v) (v_table v) u true) = None).

Definition vet (u : string) : W bool :=
  fun l => let safe := nav_safe (vetting l) u in (safe, Vetted u safe :: l).

Definition get_url (r : Request) : W (option Reply) := fun l => (answer l r, Requested r :: l).

(** ** Addresses *)

Definition host_of (u : string) : string :=
  match url_parse u with
  | Some p => match u_host p with Some h => to_ascii_lowercase h | None => "" end
  | None => ""
  end.

Definition registrable (host : string) : string :=
  let labels := split "." host in
  if (2 <=? length labels)%nat then join "." (drop (length labels - 2) labels) else host.

Definition origin_of (p : Url) : option string :=
  match u_host p with
  | Some h =>
      let port := match u_port p with Some n => String.append ":" (Z_to_string n) | None => "" end in
      Some (String.append (u_scheme p) (String.append "://" (String.append h port)))
  | None => None
  end.

(** ** Refusals *)

Definition RATE_LIMIT_STATUSES : list Z := [429].
Definition BLOCK_STATUSES : list Z := [401; 403; 407; 429; 451].
Definition RETRY_AFTER_MAX_S : Z := 3600.
Definition MIN_TEXT_FOR_HTTP : Z := 200.
Definition CHALLENGE_SCAN_CHARS : nat := Z.to_nat 20000.

Definition CHALLENGE_MARKERS : list string :=
  ["just a moment"; "checking your browser"; "cf-browser-verification"; "cf_chl_opt"; "/cdn-cgi/challenge-platform";
   "captcha-delivery.com"; "g-recaptcha"; "h-captcha"; "hcaptcha.com"; "px-captcha"; "are you a robot";
   "enable javascript and cookies to continue"; "access denied"; "request unsuccessful. incapsula"].

Definition mem (l : list Z) (z : Z) : bool := any (Z.eqb z) l.

(** The first [n] characters, each mapped by [f]. *)
Fixpoint map_chars (f : string -> string) (n : nat) (s : string) : string :=
  match n with
  | O => ""
  | S n =>
      if is_empty s then ""
      else let k := Str.char_len s in String.append (f (str_take k s)) (map_chars f n (str_drop k s))
  end.

Definition char_to_lowercase (s : string) : string :=
  match s with
  | String c EmptyString => String (lower_byte c) EmptyString
  | _ => unicode_lower s
  end.

Definition classify_block (status : option Z) (body : string) : option string :=
  let by_status :=
    match status with
    | Some s => if mem RATE_LIMIT_STATUSES s then Some "rate_limited" else if mem BLOCK_STATUSES s then Some "forbidden" else None
    | None => None
    end in
  match by_status with
  | Some k => Some k
  | None =>
      if negb (is_empty body) && (let low := map_chars char_to_lowercase CHALLENGE_SCAN_CHARS body in any (contains low) CHALLENGE_MARKERS)
      then Some "challenge" else None
  end.

Definition parse_retry_after (value : option string) : option Z :=
  match value with
  | Some v => (fun s => Z.min s RETRY_AFTER_MAX_S) <$> parse_u32 (trim v)
  | None => None
  end.

(** ** The replayed session *)

Definition auth_is_empty (a : CrawlAuth) : bool :=
  bool_decide (a_cookies a = []) && bool_decide (local_storage a = ∅) && bool_decide (session_storage a = ∅) && bool_decide (a_headers a = ∅).

Definition has_storage (a : CrawlAuth) : bool :=
  negb (bool_decide (local_storage a = ∅)) || negb (bool_decide (session_storage a = ∅)).

(** A host under a domain: the domain or a name below it. *)
Definition host_under (host domain : string) : bool :=
  str_eqb host domain || ends_with host (String.append "." domain).

Definition host_in_domain (a : CrawlAuth) (u : string) : bool :=
  if is_empty (a_domain a) then false
  else match url_parse u with
       | None => false
       | Some p => match u_host p with
                   | None => false
                   | Some h => host_under (to_ascii_lowercase h) (a_domain a)
                   end
       end.

Definition header_replay_allowed (a : CrawlAuth) (u : string) : bool :=
  negb (bool_decide (a_headers a = ∅)) && starts_with u "https://" && host_in_domain a u.

Definition cookie_matches (u : string) (c : ShardCookie) : bool :=
  if is_empty (c_domain c) then false
  else match url_parse u with
       | None => false
       | Some p => match u_host p with
                   | None => false
                   | Some h =>
                       let path_match := is_empty (c_path c) || str_eqb (c_path c) "/" || starts_with (u_path p) (c_path c) in
                       let scheme_ok := negb (c_secure c) || str_eqb (u_scheme p) "https" in
                       host_under (to_ascii_lowercase h) (c_domain c) && path_match && scheme_ok
                   end
       end.

Definition cookie_pair (c : ShardCookie) : string := String.append (c_name c) (String.append "=" (c_value c)).

Definition cookie_header_for (u : string) (cs : list ShardCookie) : option string :=
  match cs with
  | [] => None
  | _ =>
      match cookie_pair <$> retain (cookie_matches u) cs with
      | [] => None
      | pairs => Some (join "; " pairs)
      end
  end.

Definition trim_dots (s : string) : string := trim_start_by (byte_is "."%char) s.

Definition cookie_of_session (c : json) : option ShardCookie :=
  match get c "name" ≫= json_as_str, get c "value" ≫= json_as_str with
  | Some name, Some value =>
      Some (mkCookie name value
              (to_ascii_lowercase (trim_dots (unwrap_or (get c "domain" ≫= json_as_str) "")))
              (unwrap_or (get c "path" ≫= json_as_str) "/")
              (unwrap_or (get c "expires" ≫= json_as_f64) (f64_of_Z (-1)))
              (unwrap_or (get c "httpOnly" ≫= json_as_bool) false)
              (unwrap_or (get c "secure" ≫= json_as_bool) false)
              (get c "sameSite" ≫= json_as_str))
  | _, _ => None
  end.

(** Collecting into a map: a later entry replaces an earlier one. *)
Definition collect_strings (key : string -> string) (m : jobj) : gmap string string :=
  foldl (fun acc kv => match json_as_str (snd kv) with Some s => <[key (fst kv) := s]> acc | None => acc end) ∅ m.

Definition flat_map (ss : json) (key : string) : gmap string string :=
  match get ss key ≫= json_as_object with
  | Some o => collect_strings (fun k => k) o
  | None => ∅
  end.

(** One item of a Playwright origin, [entry().or_insert_with()]. *)
Definition origin_item (m : gmap string string) (item : json) : gmap string string :=
  match get item "name" ≫= json_as_str, get item "value" ≫= json_as_str with
  | Some name, Some value => if bool_decide (is_Some (m !! name)) then m else <[name := value]> m
  | _, _ => m
  end.

Definition origin_items (m : gmap string string) (origin : json) : gmap string string :=
  match get origin "localStorage" ≫= json_as_array with
  | Some items => foldl origin_item m items
  | None => m
  end.

Definition auth_from_session (session_state : option json) (auth_domain : string) : CrawlAuth :=
  match session_state with
  | None | Some JNull => auth_default
  | Some ss =>
      let cookies := match get ss "cookies" ≫= json_as_array with Some arr => omap cookie_of_session arr | None => [] end in
      let local_storage :=
        match get ss "origins" ≫= json_as_array with
        | Some origins => foldl origin_items (flat_map ss "localStorage") origins
        | None => flat_map ss "localStorage"
        end in
      let session_storage := flat_map ss "sessionStorage" in
      let headers := match get ss "headers" ≫= json_as_object with Some o => collect_strings to_ascii_lowercase o | None => ∅ end in
      let domain :=
        if negb (is_empty auth_domain) then to_ascii_lowercase (trim_dots auth_domain)
        else unwrap_or (min_by_key str_len (c_domain <$> retain (fun c => negb (is_empty (c_domain c))) cookies)) "" in
      let user_agent :=
        match get ss "fingerprint" with
        | Some fp =>
            match (match get fp "userAgent" with Some v => Some v | None => get fp "user_agent" end) ≫= json_as_str with
            | Some s => if is_empty s then None else Some s
            | None => None
            end
        | None => None
        end in
      mkAuth cookies local_storage session_storage headers domain user_agent
  end.

(** ** Documents *)

Definition head_of (s : string) : string := str_take 64 s.
Definition content_class (content_type : string) : string :=
  to_ascii_lowercase (trim (unwrap_or (head (split ";" content_type)) "")).
Definition url_file (u : string) : string := to_ascii_lowercase (unwrap_or (head (split "?" u)) "").
Definition B (l : list Z) (s : string) : string := String.append (of_bytes (chr <$> l)) s.

Definition is_image (h : string) : bool :=
  starts_with h (B [137] "PNG") || starts_with h (B [255; 216; 255] "") || starts_with h "GIF8" || starts_with h "BM"
  || starts_with h (String.append "II*" (B [0] "")) || starts_with h (String.append "MM" (B [0] "*"))
  || (starts_with h "RIFF" && (12 <=? str_len h) && str_eqb (str_take 4 (str_drop 8 h)) "WEBP").

Definition office_type (c : string) : bool :=
  contains c "openxmlformats-officedocument" || str_eqb c "application/msword"
  || str_eqb c "application/vnd.ms-excel" || str_eqb c "application/vnd.ms-powerpoint".

Definition NONHTML_SUFFIXES : list string :=
  [".pdf"; ".docx"; ".xlsx"; ".pptx"; ".doc"; ".xls"; ".ppt"; ".json"; ".csv"; ".tsv"; ".png"; ".jpg"; ".jpeg"; ".webp";
   ".gif"; ".bmp"; ".tif"; ".tiff"].

Definition is_nonhtml (content_type h u : string) : bool :=
  let c := content_class content_type in
  let url_l := url_file u in
  if starts_with h "%PDF" then true
  else if is_image h then true
  else
    let office_ct := office_type c in
    if starts_with h (String.append "PK" (B [3; 4] ""))
       && (office_ct || ends_with url_l ".docx" || ends_with url_l ".xlsx" || ends_with url_l ".pptx") then true
    else if str_eqb c "application/pdf" || office_ct || starts_with c "image/" then true
    else if str_eqb c "application/json" || str_eqb c "text/json" || ends_with c "+json" then true
    else if str_eqb c "text/csv" || str_eqb c "application/csv" || str_eqb c "text/tab-separated-values" then true
    else if is_empty c || str_eqb c "application/octet-stream" then any (ends_with url_l) NONHTML_SUFFIXES
    else false.

Definition DOC_SUFFIXES : list string :=
  [".pdf"; ".docx"; ".xlsx"; ".pptx"; ".doc"; ".xls"; ".ppt"; ".csv"; ".tsv"; ".png"; ".jpg"; ".jpeg"; ".webp"; ".gif";
   ".bmp"; ".tiff"].

(** crawl_shard/capture.rs *)
Definition is_capturable (content_type u : string) : bool :=
  let c := content_class content_type in
  let url_l := url_file u in
  if str_eqb c "application/pdf" || office_type c || starts_with c "image/" then true
  else if str_eqb c "text/csv" || str_eqb c "application/csv" || str_eqb c "text/tab-separated-values" then true
  else if (is_empty c || str_eqb c "application/octet-stream") && negb (ends_with url_l ".json")
  then any (ends_with url_l) DOC_SUFFIXES
  else false.

End net.

Definition take_chars (n : nat) (s : string) : string := map_chars (fun c => c) n s.

Definition markdown_mark (c : ascii) : bool := any (byte_is c) ["#"; ">"; "-"; "*"; " "]%char.

Definition line_text (line : string) : string := trim (trim_start_by markdown_mark (trim line)).

Definition first_line (text : string) (limit : nat) : string :=
  match find_first (fun s => negb (is_empty s)) (line_text <$> Extract.lines text) with
  | Some s => take_chars limit s
  | None => ""
  end.

Definition tag_row (kind : string) (r : json) : json :=
  match r with JObj m => JObj (map_insert "content_kind" (JStr kind) m) | _ => r end.
Definition tag_content_kind (rs : list json) (kind : string) : list json := tag_row kind <$> rs.

(** The last piece of a split, if it is not empty. *)
Definition last_piece (c : ascii) (s : string) : option string :=
  match last (split c s) with Some p => if is_empty p then None else Some p | None => None end.

Definition doc_stub_row (u : string) (depth : Z) (content_type : string) (content_bytes : Z) (now : string)
    (captured : bool) (reason : string) : string * list json * string * string :=
  let title := unwrap_or (last_piece "/" u) u in
  let kind := unwrap_or (last_piece "/" (unwrap_or (head (split ";" content_type)) "")) "document" in
  let row := JObj
    [("url", JStr u); ("title", JStr title); ("markdown", JStr ""); ("word_count", json_of_Z 0); ("depth", json_of_Z depth);
     ("fetched_at", JStr now); ("content_kind", JStr kind); ("content_bytes", json_of_Z content_bytes);
     ("extraction_skipped", JStr reason); ("captured", JBool captured)] in
  (title, [row], kind, "doc").

Definition or_else {A : Type} (a b : option A) : option A := match a with Some _ => a | None => b end.

(** A record of a schema extraction as a row. *)
Definition record_row (u kind : string) (r : json) : option json :=
  match r with
  | JObj m =>
      let m := match map_get m "_source_url" with Some _ => m | None => map_insert "_source_url" (JStr u) m end in
      Some (JObj (map_insert "content_kind" (JStr kind) m))
  | _ => None
  end.

(** [split_whitespace().count()] *)
Fixpoint count_words (skip : nat) (inside : bool) (s : string) : Z :=
  match s with
  | EmptyString => 0
  | String _ r =>
      match skip with
      | S k => count_words k inside r
      | O => match ws_len s with
             | O => (if inside then 0 else 1) + count_words (Str.char_len s - 1) true r
             | S k => count_words k false r
             end
      end
  end.
Definition word_count (s : string) : Z := count_words 0 false s.

Definition rows_from_doc (doc : json) (u : string) (depth : Z) (now mode : string) : string * list json * string * string :=
  let kind := unwrap_or (or_else (get doc "content_kind") (get doc "kind") ≫= json_as_str) "unknown" in
  let md := unwrap_or (or_else (get doc "markdown" ≫= json_as_str) (get doc "text" ≫= json_as_str)) "" in
  let title := unwrap_or ((get doc "meta" ≫= fun m => get m "title") ≫= json_as_str) (first_line md 200) in
  let records :=
    if str_eqb mode "schema" then match get doc "records" ≫= json_as_array with Some rs => omap (record_row u kind) rs | None => [] end
    else [] in
  let rs :=
    match records with
    | [] =>
        let row := [("url", JStr u); ("title", JStr title); ("markdown", JStr md); ("word_count", json_of_Z (word_count md));
                    ("depth", json_of_Z depth); ("fetched_at", JStr now); ("content_kind", JStr kind)] in
        [JObj match get doc "ocr" ≫= fun o => get o "confidence" with
              | Some conf => if is_null conf then row else map_insert "ocr_confidence" conf row
              | None => row
              end]
    | _ => records
    end in
  (title, rs, kind, if str_eqb kind "ocr" then "ocr" else "doc").

(** ** A sample network *)

(** An absolute address without a port. *)
Definition sample_url (u : string) : option Url :=
  let whole := unwrap_or (head (split "#" u)) "" in
  let mk s r :=
    let '(h, p) := match split_once "/" r with Some (h, p) => (h, String.append "/" p) | None => (r, "/") end in
    mkUrl s (Some h) None (unwrap_or (head (split "?" p)) "") (snd <$> split_once "?" p) whole in
  match strip_prefix "https://" whole with
  | Some r => Some (mk "https" r)
  | None => mk "http" <$> strip_prefix "http://" whole
  end.

(** Every name resolves to a public address; the page extractor finds [found] on a page. *)
Definition sample_net (pages : string -> option Reply) (found : string -> list PageLink) : CrawlNet := {|
  url_parse := sample_url;
  regex_ok := fun _ => true;
  is_match := fun re s => contains s re;
  captures_iter := fun _ s => (fun u => [None; Some u]) <$> split " " s;
  json_from_str := fun _ => None;
  json_to_string := fun _ => "";
  unicode_lower := fun s => s;
  decode_text := fun _ b => b;
  vetting := fun _ => mkVetting (fun _ _ => Some [V4 (v4_of_octets 93 184 216 34)]) 0 0 ∅;
  answer := fun _ r => pages (rq_url r);
  now_iso := fun _ => "2026-01-01T00:00:00.000Z";
  page_extract := fun html base _ _ _ _ _ => mkExtract "t" [JObj [("url", JStr base)]] (found base) None (str_len html);
  extraction_fails := fun _ => None;
  doc_configured := false;
  doc_extract := fun _ _ _ _ _ => None;
  capture_document := fun _ _ _ _ => None;
  browser_ready := fun _ => true;
  context_opens := fun _ => true;
  goto_ok := fun _ => true;
  reload_ok := fun _ => true;
  render := fun _ u _ => Some (mkRendering u "rendered" None);
|}.

Definition sample_reply (status : Z) (u ct body : string) : Reply := mkReply status u (Some ct) (Some "7200") (mkBody None [body] false).
Definition sample_config : CrawlConfig :=
  mkConfig "a.test" "a.test" true true [] [] 3 500 0 true "markdown" None "auto" "auto" None false auth_default false false.
