(* ===== verification/CrawlFetch.v ===== *)
(** * crawl_shard/mod.rs: one page of a crawl

    [http_fetch], [fetch_and_extract], the browser escalation [resolve_outcome] and the worker [fetch_resolve]. The bound on
    concurrent renders ([render_slots]) only delays a worker and is not in the model. *)

From Stdlib Require Import Ascii String.
From S2P Require Import Prelude Ints F64 Str Json Robots CrawlNet.
From S2P Require AuthImport.
Open Scope string_scope.
Open Scope list_scope.
Open Scope Z_scope.
Open Scope trace_scope.

Record Fetched : Type := mkFetched {
  f_status : Z;
  final_url : string;
  content_type : string;
  f_text : option string;
  raw : option string;
  retry_after : option Z;
}.

Definition body_error (e : BodyReadError) : string :=
  match e with
  | TooLarge limit observed =>
      String.append "response body too large: " (String.append (Z_to_string observed)
        (String.append " bytes exceeds the " (String.append (Z_to_string limit) "-byte budget")))
  | Transport => "read body failed: "
  end.

Section fetch.
Context `{CrawlNet}.

(** What [http_fetch] asks for. *)
Definition request_for (u : string) (a : CrawlAuth) : Request :=
  mkRequest u (cookie_header_for u (a_cookies a)) (user_agent a) (if header_replay_allowed a u then a_headers a else ∅).

Definition texty (ct : string) : bool :=
  is_empty ct || contains ct "html" || contains ct "xml" || starts_with ct "text/" || contains ct "json" || contains ct "csv".

Definition text_limit (ct : string) : Z :=
  if contains ct "json" || contains ct "csv" || contains ct "tab-separated" then DOC_MAX else HTML_MAX.

Definition read_reply (r : Reply) : result Fetched string :=
  let ct := to_ascii_lowercase (unwrap_or (rp_content_type r) "") in
  let ra := parse_retry_after (rp_retry_after r) in
  if texty ct then
    match read_bytes_capped (rp_body r) (text_limit ct) with
    | Ok b => Ok (mkFetched (rp_status r) (rp_url r) ct (Some (decode_text (unwrap_or (rp_content_type r) "") b)) None ra)
    | Err e => Err (body_error e)
    end
  else
    match read_bytes_capped (rp_body r) DOC_MAX with
    | Ok b => Ok (mkFetched (rp_status r) (rp_url r) ct None (Some b) ra)
    | Err e => Err (body_error e)
    end.

Definition http_fetch (u : string) (a : CrawlAuth) : W (result Fetched string) :=
  let^ r := get_url (request_for u a) in
  wret (match r with Some r => read_reply r | None => Err "fetch failed: " end).

Definition extract_offloaded (html base_url : string) (depth : Z) (at_ mode : string) (schema content : option json) : W (result PageExtract string) :=
  ask (fun l => match extraction_fails l with
                | Some reason => Err reason
                | None => Ok (page_extract html base_url depth at_ mode schema content)
                end).

Definition html_page (ex : PageExtract) (lane : string) (shot : option string) : PageOutcome :=
  Extracted (mkPage (x_title ex) (tag_content_kind (x_rows ex) "html") (x_links ex) (x_favicon ex) "html" lane shot None).

(** ** The browser *)

Definition apply_browser_auth (u : string) (a : CrawlAuth) : W bool :=
  if auth_is_empty a then wret false
  else
    let matching := retain (cookie_matches u) (a_cookies a) in
    let^ _ := match matching with [] => wret tt | _ => note (CookiesAdded u matching) end in
    if negb (has_storage a) || negb (host_in_domain a u) then wret false
    else
      let^ ok := ask goto_ok in
      if negb ok then wret false
      else
        note (StorageInjected u (local_storage a) (session_storage a)) ;^
        ask reload_ok.

Definition fetch_via_browser (u : string) (want_screenshot : bool) (a : CrawlAuth) : W (option Rendering) :=
  let^ warm := ask browser_ready in
  if negb warm then wret None
  else
    let^ safe := vet u in
    if negb safe then wret None
    else
      let^ opened := ask context_opens in
      if negb opened then wret None
      else
        let^ injected_storage := apply_browser_auth u a in
        let^ arrived := if injected_storage then wret true else ask goto_ok in
        if negb arrived then wret None
        else
          note (Rendered u) ;^
          ask (fun l => (fun r => mkRendering (rn_url r) (rn_html r) (if want_screenshot then rn_shot r else None)) <$> render l u want_screenshot).

Definition refused (info : option BlockInfo) : option PageOutcome := Blocked <$> info.

(** The result of the OCR of a picture, when it found text. *)
Definition ocr_page (cfg : CrawlConfig) (doc : json) (u : string) (depth : Z) (now : string) (ex : PageExtract)
    (thumb : option string) : option PageOutcome :=
  let has_text := match get doc "text" ≫= json_as_str with Some s => negb (is_empty (trim s)) | None => false end in
  if has_text then
    let '(title, rs, kind, _) := rows_from_doc doc u depth now (extract_mode cfg) in
    Some (Extracted (mkPage title rs (x_links ex) (x_favicon ex) kind "ocr" thumb None))
  else None.

(** The client of the document extractor turns away empty and oversized bodies itself. *)
Definition MAX_FORWARD_BYTES : Z := 32 * 1024 * 1024.
Definition call_doc_extract (data ct u ocr : string) : W (option json) :=
  if negb doc_configured then wret None
  else if is_empty data || (MAX_FORWARD_BYTES <? str_len data) then wret None
  else ask (fun l => doc_extract l data (if is_empty ct then "application/octet-stream" else ct) u ocr).

Definition rendered_page (cfg : CrawlConfig) (r : Rendering) (depth : Z) (now : string) (blocked_fallback : option BlockInfo)
    (want_ocr_shot : bool) : W PageOutcome :=
  match classify_block None (rn_html r) with
  | Some kind => wret (default (Blocked (mkBlock kind None None)) (refused blocked_fallback))
  | None =>
      let^ ex := extract_offloaded (rn_html r) (rn_url r) depth now (extract_mode cfg) (extract_schema cfg) (content cfg) in
      match ex with
      | Err reason => wret (Failed reason)
      | Ok ex =>
          let thumb := if want_thumbnails cfg then rn_shot r else None in
          let^ ocr :=
            match rn_shot r with
            | Some png =>
                if want_ocr_shot && (text_len ex <? MIN_TEXT_FOR_HTTP) then
                  let^ doc := call_doc_extract png "image/jpeg" (rn_url r) (ocr_mode cfg) in
                  wret (doc ≫= fun doc => ocr_page cfg doc (rn_url r) depth now ex thumb)
                else wret None
            | None => wret None
            end in
          wret (match ocr with Some o => o | None => html_page ex "browser" thumb end)
      end
  end.

Definition resolve_outcome (browser : bool) (cfg : CrawlConfig) (u : string) (depth : Z) (outcome : PageOutcome) (now : string) : W PageOutcome :=
  match outcome with
  | NeedsBrowser thin_html blocked_fallback =>
      let want_ocr_shot := negb (str_eqb (ocr_mode cfg) "off") && doc_configured in
      let want_shot := want_ocr_shot || want_thumbnails cfg in
      let^ rendering := if browser then fetch_via_browser u want_shot (auth cfg) else wret None in
      match rendering with
      | Some r => rendered_page cfg r depth now blocked_fallback want_ocr_shot
      | None =>
          match refused blocked_fallback, thin_html with
          | Some blocked, _ => wret blocked
          | None, Some html =>
              let^ ex := extract_offloaded html u depth now (extract_mode cfg) (extract_schema cfg) (content cfg) in
              wret (match ex with Ok ex => html_page ex "http" None | Err reason => Failed reason end)
          | None, None => wret (Failed "no content (HTTP failed, browser unavailable)")
          end
      end
  | _ => wret outcome
  end.

(** ** The HTTP lane *)

Definition may_browser (cfg : CrawlConfig) : bool := browser_available cfg && negb (str_eqb (render_mode cfg) "http").

Definition stamp_file (f : option json) (rs : list json) : list json :=
  match f with
  | Some f => (fun r => match r with JObj m => JObj (map_insert "file" f m) | _ => r end) <$> rs
  | None => rs
  end.

Definition error_page (cfg : CrawlConfig) (f : Fetched) : PageOutcome :=
  match classify_block (Some (f_status f)) "" with
  | Some kind =>
      let info := mkBlock kind (Some (f_status f)) (retry_after f) in
      if may_browser cfg then NeedsBrowser None (Some info) else Blocked info
  | None => if may_browser cfg then NeedsBrowser None None else Failed (String.append "HTTP " (Z_to_string (f_status f)))
  end.

Definition document_page (cfg : CrawlConfig) (f : Fetched) (depth : Z) : W PageOutcome :=
  let bytes := match raw f with Some b => b | None => unwrap_or (f_text f) "" end in
  let^ doc := call_doc_extract bytes (content_type f) (final_url f) (ocr_mode cfg) in
  let^ stored :=
    if artifact cfg && is_capturable (content_type f) (final_url f) && negb (is_empty bytes)
    then ask (fun l => capture_document l (final_url f) bytes (content_type f)) else wret None in
  let^ now := ask now_iso in
  let '(title, rs, kind, lane) :=
    match doc with
    | Some doc => rows_from_doc doc (final_url f) depth now (extract_mode cfg)
    | None => doc_stub_row (final_url f) depth (content_type f) (str_len bytes) now (bool_decide (is_Some stored))
                (if doc_configured then "doc-extract failed" else "doc-extract not configured")
    end in
  wret (Extracted (mkPage title (stamp_file stored rs) [] None kind lane None stored)).

Definition html_body (f : Fetched) : string :=
  match f_text f with
  | Some t => t
  | None => AuthImport.from_utf8_lossy (byte_val <$> bytes (unwrap_or (raw f) ""))
  end.

Definition page_html (cfg : CrawlConfig) (f : Fetched) (depth : Z) : W PageOutcome :=
  let html := html_body f in
  match (if may_browser cfg then None else classify_block None html) with
  | Some kind => wret (Blocked (mkBlock kind (Some (f_status f)) (retry_after f)))
  | None =>
      if str_eqb (render_mode cfg) "browser" && browser_available cfg then wret (NeedsBrowser (Some html) None)
      else
        let^ now := ask now_iso in
        let keep_for_browser := str_eqb (render_mode cfg) "auto" && browser_available cfg in
        let^ ex := extract_offloaded html (final_url f) depth now (extract_mode cfg) (extract_schema cfg) (content cfg) in
        wret (match ex with
              | Err reason => Failed reason
              | Ok ex =>
                  if keep_for_browser && (text_len ex <? MIN_TEXT_FOR_HTTP) then NeedsBrowser (Some html) None
                  else html_page ex "http" None
              end)
  end.

(** The body of [fetch_and_extract] once its host slot is claimed. *)
Definition fetch_outcome (cfg : CrawlConfig) (item : FrontierItem) : W PageOutcome :=
  let^ fetched := http_fetch (i_url item) (auth cfg) in
  match fetched with
  | Err reason => wret (if may_browser cfg then NeedsBrowser None None else Failed reason)
  | Ok f =>
      if 400 <=? f_status f then wret (error_page cfg f)
      else
        let full := match raw f with Some b => b | None => unwrap_or (f_text f) "" end in
        if is_nonhtml (content_type f) (head_of full) (final_url f) then document_page cfg f (i_depth item)
        else page_html cfg f (i_depth item)
  end.

Definition fetch_and_extract (cfg : CrawlConfig) (item : FrontierItem) : W WorkerOut :=
  let^ o := fetch_outcome cfg item in
  wret (mkOut (i_url item) (i_depth item) o).

Definition is_needs_browser (o : PageOutcome) : bool := match o with NeedsBrowser _ _ => true | _ => false end.

Definition fetch_resolve (browser : bool) (cfg : CrawlConfig) (item : FrontierItem) : W ResolvedOut :=
  let^ out := fetch_and_extract cfg item in
  let escalated := is_needs_browser (w_outcome out) in
  let^ at_ := ask now_iso in
  let^ o := if escalated then resolve_outcome browser cfg (w_url out) (w_depth out) (w_outcome out) at_ else wret (w_outcome out) in
  wret (mkResolved (w_url out) (w_depth out) o escalated at_).

(** ** What a task does *)

Lemma adds_vet (P : Event -> Prop) (u : string) (Q : bool -> Prop) :
  (forall b, P (Vetted u b)) -> (forall b, Q b) -> adds P (vet u) Q.
Proof. intros HP HQ l. exists [Vetted u (nav_safe (vetting l) u)]. split_and!; [done|by repeat constructor|apply HQ]. Qed.

Lemma adds_get (P : Event -> Prop) (r : Request) (Q : option Reply -> Prop) :
  P (Requested r) -> (forall o, Q o) -> adds P (get_url r) Q.
Proof. intros HP HQ l. exists [Requested r]. split_and!; [done|by repeat constructor|apply HQ]. Qed.

End fetch.



(** Walk a task, with nothing to say of the values it passes. *)
Ltac walk :=
  repeat match goal with
  | |- adds _ (wbind _ _) _ => eapply (adds_bind _ _ _ (fun _ => True)); [|intros ? _]
  | |- adds _ (wret _) _ => apply adds_ret
  | |- adds _ (ask _) _ => apply adds_ask; intros ?
  | |- adds _ (note _) _ => apply adds_note
  | |- adds _ (vet _) _ => apply adds_vet; intros ?
  | |- adds _ (get_url _) _ => apply adds_get; [|intros ?]
  | |- adds _ (match ?x with _ => _ end) _ => let E := fresh "E" in destruct x eqn:E
  | |- adds _ (let '_ := ?x in _) _ => let E := fresh "E" in destruct x eqn:E
  end; try done.

(** ** Where the session may go *)

Section scoping.
Context `{CrawlNet}.

(** A URL of a host under [domain]; over TLS when [tls]. *)
Definition goes_to (u domain : string) (tls : bool) : Prop :=
  exists p h, url_parse u = Some p /\ u_host p = Some h /\ host_under (to_ascii_lowercase h) domain = true /\
              (tls = true -> u_scheme p = "https") /\ domain <> "".

Definition cookie_goes (u : string) (c : ShardCookie) : Prop := goes_to u (c_domain c) (c_secure c).

Definition session_scoped (a : CrawlAuth) (e : Event) : Prop :=
  match e with
  | Requested r =>
      (rq_headers r = ∅ \/ rq_headers r = a_headers a /\ starts_with (rq_url r) "https://" = true /\ goes_to (rq_url r) (a_domain a) false) /\
      (rq_cookie r = None \/
       exists cs, cs `sublist_of` a_cookies a /\ cs <> [] /\ rq_cookie r = Some (join "; " (cookie_pair <$> cs)) /\ Forall (cookie_goes (rq_url r)) cs)
  | CookiesAdded u cs => cs `sublist_of` a_cookies a /\ Forall (cookie_goes u) cs
  | StorageInjected u loc ses => loc = local_storage a /\ ses = session_storage a /\ goes_to u (a_domain a) false
  | _ => True
  end.

Lemma host_in_domain_goes (a : CrawlAuth) (u : string) : host_in_domain a u = true -> goes_to u (a_domain a) false.
Proof.
  unfold host_in_domain. destruct (is_empty (a_domain a)) eqn:Ee; [done|].
  destruct (url_parse u) as [p|] eqn:Ep; [|done]. destruct (u_host p) as [h|] eqn:Eh; [|done].
  intros Hu. exists p, h. split_and!; try done. intros E. by rewrite E in Ee.
Qed.

Lemma cookie_matches_goes (u : string) (c : ShardCookie) : cookie_matches u c = true -> cookie_goes u c.
Proof.
  unfold cookie_matches. destruct (is_empty (c_domain c)) eqn:Ee; [done|].
  destruct (url_parse u) as [p|] eqn:Ep; [|done]. destruct (u_host p) as [h|] eqn:Eh; [|done].
  intros Hm. bool_prop. exists p, h. split_and!; try done.
  - intros Es. rewrite Es in *. simpl in *. by apply str_eqb_eq.
  - intros E. by rewrite E in Ee.
Qed.

Lemma matching_goes (u : string) (cs : list ShardCookie) : Forall (cookie_goes u) (retain (cookie_matches u) cs).
Proof. apply Forall_forall. intros c [Hm _]%elem_of_retain. by apply cookie_matches_goes. Qed.

Lemma request_scoped (u : string) (a : CrawlAuth) : session_scoped a (Requested (request_for u a)).
Proof.
  unfold request_for. cbn. split.
  - unfold header_replay_allowed. destruct (_ && _) eqn:E; [right|by left]. bool_prop.
    split_and!; [done|done|by apply host_in_domain_goes].
  - unfold cookie_header_for. destruct (a_cookies a) as [|c cs] eqn:Ec; [by left|].
    destruct (cookie_pair <$> retain (cookie_matches u) (c :: cs)) as [|x xs] eqn:Ep; [by left|]. right.
    exists (retain (cookie_matches u) (c :: cs)). rewrite Ep.
    split_and!; [apply retain_sublist| |done|apply matching_goes]. intros E0. by rewrite E0 in Ep.
Qed.

Lemma plain_scoped (u : string) (a : CrawlAuth) : session_scoped a (Requested (plain_get u)).
Proof. by split; left. Qed.

Lemma browser_auth_scoped (u : string) (a : CrawlAuth) : adds (session_scoped a) (apply_browser_auth u a) (fun _ => True).
Proof.
  unfold apply_browser_auth. destruct (auth_is_empty a); [by walk|].
  eapply (adds_bind _ _ _ (fun _ => True)); [|intros ? _].
  - destruct (retain _ _) eqn:E; [by walk|]. rewrite <-E. walk. split; [apply retain_sublist|apply matching_goes].
  - destruct (negb (has_storage a) || negb (host_in_domain a u)) eqn:E; [by walk|].
    apply orb_false_elim in E as [_ E]. apply negb_false_iff in E. walk.
    cbn. split_and!; [done|done|by apply host_in_domain_goes].
Qed.

Lemma fetch_via_browser_scoped (u : string) (b : bool) (a : CrawlAuth) : adds (session_scoped a) (fetch_via_browser u b a) (fun _ => True).
Proof. unfold fetch_via_browser. walk. apply browser_auth_scoped. Qed.

Lemma http_fetch_scoped (u : string) (a : CrawlAuth) : adds (session_scoped a) (http_fetch u a) (fun _ => True).
Proof. unfold http_fetch. walk. apply request_scoped. Qed.

Lemma fetch_resolve_adds (browser : bool) (cfg : CrawlConfig) (item : FrontierItem) :
  adds (session_scoped (auth cfg)) (fetch_resolve browser cfg item) (fun _ => True).
Proof.
  unfold fetch_resolve, fetch_and_extract, fetch_outcome, page_html, document_page, resolve_outcome, rendered_page,
    call_doc_extract, extract_offloaded.
  walk; apply fetch_via_browser_scoped || apply http_fetch_scoped || done.
Qed.


End scoping.

(** ** What becomes of a page *)

Section outcomes.
Context `{CrawlNet}.

Notation any_event := (fun _ : Event => True).

Lemma fetch_via_browser_any (u : string) (b : bool) (a : CrawlAuth) : adds any_event (fetch_via_browser u b a) (fun _ => True).
Proof. intros l. destruct (fetch_via_browser_scoped u b a l) as (n & ? & ? & _). exists n. split_and!; [done|by apply Forall_true|done]. Qed.

Lemma adds_true {A : Type} (P : Event -> Prop) (m : W A) : adds P m (fun _ => True) -> adds any_event m (fun _ => True).
Proof. intros Hm l. destruct (Hm l) as (n & ? & ? & _). exists n. split_and!; [done|by apply Forall_true|done]. Qed.

(** What a rendered page becomes. *)
Definition render_result (blocked_fallback : option BlockInfo) (o : PageOutcome) : Prop :=
  match o with
  | Extracted p => lane p = "browser" \/ lane p = "ocr"
  | Blocked b => b = default (mkBlock "challenge" None None) blocked_fallback
  | Failed _ => True
  | NeedsBrowser _ _ => False
  end.

Lemma classify_body_only (body : string) (k : string) : classify_block None body = Some k -> k = "challenge".
Proof. unfold classify_block. destruct (_ && _); [|done]. by intros [= <-]. Qed.

Lemma html_page_lane (bf : option BlockInfo) (ex : PageExtract) (t : option string) : render_result bf (html_page ex "browser" t).
Proof. by left. Qed.

Lemma ocr_page_result (bf : option BlockInfo) (cfg : CrawlConfig) (doc : json) (u : string) (depth : Z) (now : string) (ex : PageExtract)
    (t : option string) (o : PageOutcome) : ocr_page cfg doc u depth now ex t = Some o -> render_result bf o.
Proof.
  unfold ocr_page. destruct (match _ with Some _ => _ | None => _ end); [|done].
  destruct (rows_from_doc doc u depth now (extract_mode cfg)) as [[[ti rs] k] ln]. intros [= <-]. by right.
Qed.

Lemma rendered_page_result (cfg : CrawlConfig) (r : Rendering) (depth : Z) (now : string) (bf : option BlockInfo) (shot : bool) :
  adds any_event (rendered_page cfg r depth now bf shot) (render_result bf).
Proof.
  unfold rendered_page. destruct (classify_block None (rn_html r)) as [k|] eqn:Ek.
  - apply adds_ret. rewrite (classify_body_only _ _ Ek). by destruct bf.
  - eapply (adds_bind _ _ _ (fun _ => True)); [by unfold extract_offloaded; walk|].
    intros [ex|reason] _; [|by apply adds_ret].
    eapply (adds_bind _ _ _ (fun o : option PageOutcome => match o with Some o => render_result bf o | None => True end)).
    + destruct (rn_shot r) as [png|]; [|by apply adds_ret]. destruct (_ && _); [|by apply adds_ret].
      eapply (adds_bind _ _ _ (fun _ => True)); [by unfold call_doc_extract; walk|]. intros doc _. apply adds_ret.
      destruct doc as [doc|]; [|done]. simpl. destruct (ocr_page _ _ _ _ _ _ _) as [o|] eqn:Eo; [|done].
      by eapply ocr_page_result.
    + intros [o|] Ho; apply adds_ret; [done|apply html_page_lane].
Qed.

(** The result of a page that was handed to the browser. *)
Definition escalation_result (browser : bool) (thin_html : option string) (bf : option BlockInfo) (o : PageOutcome) : Prop :=
  (browser = true /\ render_result bf o) \/
  match bf with
  | Some b => o = Blocked b
  | None => match o with
            | Extracted p => lane p = "http" /\ is_Some thin_html
            | Failed _ => True
            | _ => False
            end
  end.

Lemma resolve_outcome_result (browser : bool) (cfg : CrawlConfig) (u : string) (depth : Z) (t : option string) (bf : option BlockInfo) (now : string) :
  adds any_event (resolve_outcome browser cfg u depth (NeedsBrowser t bf) now) (escalation_result browser t bf).
Proof.
  unfold resolve_outcome.
  eapply (adds_bind _ _ _ (fun r : option Rendering => is_Some r -> browser = true)).
  { destruct browser; [|apply adds_ret; by intros [? ?]].
    eapply adds_weaken; [|apply fetch_via_browser_any]. done. }
  intros [r|] Hr.
  - eapply adds_weaken; [|apply rendered_page_result]. intros o Ho. left. split; [by apply Hr|done].
  - destruct bf as [b|]; [by apply adds_ret; right|]. destruct t as [html|]; [|by apply adds_ret; right].
    eapply (adds_bind _ _ _ (fun _ => True)); [by unfold extract_offloaded; walk|].
    intros [ex|reason] _; apply adds_ret; right; simpl; eauto.
Qed.

(** An outcome is settled when no browser is asked for. *)
Lemma fetch_resolve_result (browser : bool) (cfg : CrawlConfig) (item : FrontierItem) :
  adds any_event (fetch_resolve browser cfg item)
    (fun r => r_url r = i_url item /\ r_depth r = i_depth item /\ is_needs_browser (r_outcome r) = false).
Proof.
  unfold fetch_resolve.
  eapply (adds_bind _ _ _ (fun out => w_url out = i_url item /\ w_depth out = i_depth item)).
  { unfold fetch_and_extract. eapply (adds_bind _ _ _ (fun _ => True)); [|intros o _; by apply adds_ret].
    unfold fetch_outcome, page_html, document_page, call_doc_extract, extract_offloaded.
    walk. eapply adds_true, http_fetch_scoped. }
  intros [u d o] [Hu Hd]. simpl in Hu, Hd. subst u d. cbn [w_outcome w_url w_depth].
  eapply (adds_bind _ _ _ (fun _ => True)); [by walk|]. intros at_ _.
  eapply (adds_bind _ _ _ (fun o => is_needs_browser o = false)).
  - destruct o as [p|t bf|b|reason]; cbn [is_needs_browser]; try (by apply adds_ret).
    eapply adds_weaken; [|apply resolve_outcome_result]. intros o [[_ Ho]|Ho].
    + by destruct o.
    + destruct bf as [b|]; [by subst o|]. by destruct o.
  - intros o' Ho'. apply adds_ret. done.
Qed.

Lemma http_fetch_answer (u : string) (a : CrawlAuth) (l : list Event) (rep : Reply) :
  answer l (request_for u a) = Some rep -> http_fetch u a l = (read_reply rep, Requested (request_for u a) :: l).
Proof. intros E. unfold http_fetch, wbind, get_url, wret. by rewrite E. Qed.

Lemma read_reply_meta (rep : Reply) (f : Fetched) : read_reply rep = Ok f ->
  f_status f = rp_status rep /\ retry_after f = parse_retry_after (rp_retry_after rep).
Proof.
  unfold read_reply. destruct (texty _); destruct (read_bytes_capped _ _); intros [= <-]; done.
Qed.

Lemma retry_after_clamped (v : option string) (s : Z) : parse_retry_after v = Some s -> s <= RETRY_AFTER_MAX_S.
Proof. unfold parse_retry_after. destruct v as [v|]; [|done]. destruct (parse_u32 _); [|done]. simpl. intros [= <-]. lia. Qed.

Definition refusal_kind (status : Z) : string := if status =? 429 then "rate_limited" else "forbidden".

Lemma classify_status (s : Z) : s ∈ BLOCK_STATUSES -> classify_block (Some s) "" = Some (refusal_kind s).
Proof.
  intros Hs. unfold BLOCK_STATUSES in Hs. rewrite !elem_of_cons, elem_of_nil in Hs.
  destruct Hs as [->|[->|[->|[->|[->|[]]]]]]; by vm_compute.
Qed.

Lemma block_status_error (s : Z) : s ∈ BLOCK_STATUSES -> 400 <=? s = true.
Proof.
  intros Hs. unfold BLOCK_STATUSES in Hs. rewrite !elem_of_cons, elem_of_nil in Hs.
  by destruct Hs as [->|[->|[->|[->|[->|[]]]]]].
Qed.

Lemma fetch_resolve_pair (browser : bool) (cfg : CrawlConfig) (item : FrontierItem) (l : list Event) :
  r_outcome (fst (fetch_resolve browser cfg item l)) =
  let '(o, l1) := fetch_outcome cfg item l in
  if is_needs_browser o then fst (resolve_outcome browser cfg (i_url item) (i_depth item) o (now_iso l1) l1) else o.
Proof.
  unfold fetch_resolve, fetch_and_extract, wbind, ask, wret. destruct (fetch_outcome cfg item l) as [o l1]. simpl.
  destruct (is_needs_browser o); [|done]. by destruct (resolve_outcome _ _ _ _ _ _ _).
Qed.

(** a refusal of the host (429, 401, 403, 407, 451) never becomes a dead link or banked content of the HTTP lane: without a
    browser the page is reported refused with the original status, kind and [Retry-After] (clamped to an hour); with one the
    page may also come back from a render, and a refusal it reports is still the original one. *)
Theorem refusal_reported (browser : bool) (cfg : CrawlConfig) (item : FrontierItem) (l : list Event) (rep : Reply) (f : Fetched)
    (Ha : answer l (request_for (i_url item) (auth cfg)) = Some rep) (Hf : read_reply rep = Ok f)
    (Hs : rp_status rep ∈ BLOCK_STATUSES) :
  let info := mkBlock (refusal_kind (rp_status rep)) (Some (rp_status rep)) (retry_after f) in
  (match retry_after f with Some s => s <= RETRY_AFTER_MAX_S | None => True end) /\
  match r_outcome (fst (fetch_resolve browser cfg item l)) with
  | Blocked b => b = info
  | Extracted p => may_browser cfg = true /\ browser = true /\ (lane p = "browser" \/ lane p = "ocr")
  | Failed _ => may_browser cfg = true /\ browser = true
  | NeedsBrowser _ _ => False
  end.
Proof.
  intros info. destruct (read_reply_meta rep f Hf) as [Es Er]. split.
  { rewrite Er. destruct (parse_retry_after _) as [s|] eqn:E; [|done]. by eapply retry_after_clamped. }
  rewrite fetch_resolve_pair. unfold fetch_outcome, wbind. rewrite (http_fetch_answer _ _ _ _ Ha), Hf.
  assert (H4 : 400 <=? f_status f = true).
  { rewrite Es. by apply block_status_error. }
  rewrite H4. unfold wret, error_page. rewrite Es, (classify_status _ Hs). fold info.
  destruct (may_browser cfg); cbn [is_needs_browser fst]; [|done].
  match goal with |- context [resolve_outcome ?b ?c ?u ?d ?o ?n ?l0] => destruct (resolve_outcome_result b c u d None (Some info) n l0) as (? & _ & _ & Hr) end.
  destruct Hr as [[-> Hr]|Hr]; [|by rewrite Hr]. by destruct (fst _).
Qed.

Lemma doc_rows_some (f : option json) (rs : list json) : rs <> [] -> stamp_file f rs <> [].
Proof. destruct f; [|done]. by destruct rs. Qed.

Lemma rows_from_doc_some (doc : json) (u : string) (depth : Z) (now mode : string) :
  let '(_, rs, _, ln) := rows_from_doc doc u depth now mode in rs <> [] /\ (ln = "doc" \/ ln = "ocr").
Proof.
  unfold rows_from_doc. cbv zeta.
  split; [by destruct (if str_eqb mode "schema" then _ else _)|].
  match goal with |- context [str_eqb ?k "ocr"] => destruct (str_eqb k "ocr") end; auto.
Qed.

(** a document the host served is never a failed page: without a text extractor, or when it fails, the page is still
    extracted, with at least one row, on the document lanes, without links, and the handle of its stored copy is on the page. *)
Theorem document_never_fails (browser : bool) (cfg : CrawlConfig) (item : FrontierItem) (l : list Event) (rep : Reply) (f : Fetched)
    (Ha : answer l (request_for (i_url item) (auth cfg)) = Some rep) (Hf : read_reply rep = Ok f)
    (Hs : rp_status rep < 400)
    (Hd : is_nonhtml (content_type f) (head_of (match raw f with Some b => b | None => unwrap_or (f_text f) "" end)) (final_url f) = true) :
  exists p, r_outcome (fst (fetch_resolve browser cfg item l)) = Extracted p /\ rows p <> [] /\ links p = [] /\
            (lane p = "doc" \/ lane p = "ocr") /\ escalated (fst (fetch_resolve browser cfg item l)) = false /\
            (is_Some (file p) -> artifact cfg = true).
Proof.
  destruct (read_reply_meta rep f Hf) as [Es _].
  assert (Hdoc : adds any_event (document_page cfg f (i_depth item))
            (fun o => exists p, o = Extracted p /\ rows p <> [] /\ links p = [] /\ (lane p = "doc" \/ lane p = "ocr") /\ (is_Some (file p) -> artifact cfg = true))).
  { unfold document_page. eapply (adds_bind _ _ _ (fun _ => True)); [by unfold call_doc_extract; walk|]. intros doc _.
    eapply (adds_bind _ _ _ (fun s => is_Some s -> artifact cfg = true)).
    { destruct (artifact cfg); simpl; [by walk|]. apply adds_ret. by intros [? ?]. }
    intros stored Hst. eapply (adds_bind _ _ _ (fun _ => True)); [by walk|]. intros now _.
    destruct doc as [doc|].
    - pose proof (rows_from_doc_some doc (final_url f) (i_depth item) now (extract_mode cfg)) as Hr.
      destruct (rows_from_doc _ _ _ _ _) as [[[ti rs] k] ln]. destruct Hr as [Hr Hl]. apply adds_ret.
      eexists. split_and!; [done|by apply doc_rows_some|done|done|done].
    - unfold doc_stub_row. apply adds_ret. eexists. split_and!; [done|by apply doc_rows_some|done|by left|done]. }
  assert (E : exists p l1, fetch_outcome cfg item l = (Extracted p, l1) /\ rows p <> [] /\ links p = [] /\ (lane p = "doc" \/ lane p = "ocr") /\
                           (is_Some (file p) -> artifact cfg = true)).
  { unfold fetch_outcome, wbind. rewrite (http_fetch_answer _ _ _ _ Ha), Hf.
    replace (400 <=? f_status f) with false by (symmetry; apply Z.leb_gt; lia). cbv zeta. rewrite Hd.
    match goal with |- context [document_page ?c ?g ?d ?l0] => destruct (Hdoc l0) as (? & _ & _ & p & Ep & HP); destruct (document_page c g d l0) as [o l1] end.
    simpl in Ep. subst o. by exists p, l1. }
  destruct E as (p & l1 & E & HP1 & HP2 & HP3 & HP4). exists p.
  rewrite fetch_resolve_pair, E. split_and!; try done.
  unfold fetch_resolve, fetch_and_extract, wbind, ask, wret. by rewrite E.
Qed.

End outcomes.

Lemma refusal_reported_witness :
  let net := sample_net (fun u => Some (sample_reply 403 u "text/html" "no")) (fun _ => []) in
  match r_outcome (fst (@fetch_resolve net false sample_config (mkItem "https://a.test/x" 1) [])) with
  | Blocked b => b = mkBlock "forbidden" (Some 403) (Some 3600)
  | _ => False
  end.
Proof.
  intros net.
  pose proof (@refusal_reported net false sample_config (mkItem "https://a.test/x" 1) []
    (sample_reply 403 "https://a.test/x" "text/html" "no")
    (mkFetched 403 "https://a.test/x" "text/html" (Some "no") None (Some 3600))
    ltac:(by vm_compute) ltac:(by vm_compute) ltac:(by apply (bool_decide_eq_true_1 _); vm_compute)) as [_ T].
  vm_compute in T |- *. exact T.
Defined.

Lemma document_never_fails_witness :
  let net := sample_net (fun u => Some (sample_reply 200 u "application/pdf" "%PDF-1.7")) (fun _ => []) in
  exists p, r_outcome (fst (@fetch_resolve net false sample_config (mkItem "https://a.test/x.pdf" 1) [])) = Extracted p /\ lane p = "doc".
Proof.
  intros net.
  destruct (@document_never_fails net false sample_config (mkItem "https://a.test/x.pdf" 1) []
    (sample_reply 200 "https://a.test/x.pdf" "application/pdf" "%PDF-1.7")
    (mkFetched 200 "https://a.test/x.pdf" "application/pdf" None (Some "%PDF-1.7") (Some 3600))
    ltac:(by vm_compute) ltac:(by vm_compute) ltac:(by vm_compute) ltac:(by vm_compute)) as (p & Ep & _ & _ & [Hl|Hl] & _).
  - exists p. by split.
  - exfalso. vm_compute in Ep. injection Ep as <-. by vm_compute in Hl.
Defined.
