(* ===== verification/CrawlAdmit.v ===== *)
(** * crawl_shard/mod.rs: admission to the frontier and the sitemap seeding

    The manager's state with the rules of [RobotsCache] by origin, the scope tests, [admit_url], which alone puts a page on the
    frontier, and [discover_sitemap_urls]. *)

From Stdlib Require Import Ascii String.
From S2P Require Import Prelude Ints F64 Str Json Extract Robots CrawlNet CrawlFetch.
Open Scope string_scope.
Open Scope list_scope.
Open Scope Z_scope.
Open Scope trace_scope.

Definition VISITED_HARD_CAP : Z := 200000.
Definition SITEMAP_HARD_CAP : Z := 5000.

Record Counters : Type := mkCounters {
  discovered : Z;
  done_ : Z;
  failed : Z;
  skipped : Z;
  max_depth_seen : Z;
}.
Definition counters_default : Counters := mkCounters 0 0 0 0 0.

Record Manager : Type := mkManager {
  visited : gset string;
  frontier : list FrontierItem;
  counters : Counters;
  by_origin : gmap string RobotsRules;
  mlog : list Event;
}.

Definition manager_new : Manager := mkManager ∅ [] counters_default ∅ [].

Definition set_counters (c : Counters) (m : Manager) : Manager := mkManager (visited m) (frontier m) c (by_origin m) (mlog m).
Definition set_log (l : list Event) (m : Manager) : Manager := mkManager (visited m) (frontier m) (counters m) (by_origin m) l.
Definition set_frontier (f : list FrontierItem) (m : Manager) : Manager := mkManager (visited m) f (counters m) (by_origin m) (mlog m).

Definition skip_one (c : Counters) : Counters := mkCounters (discovered c) (done_ c) (failed c) (skipped c + 1) (max_depth_seen c).
Definition discover_one (depth : Z) (c : Counters) : Counters :=
  mkCounters (discovered c + 1) (done_ c) (failed c) (skipped c) (Z.max (max_depth_seen c) depth).

Section admit_url.
Context `{CrawlNet}.

(** ** Scope *)

Definition in_domain_scope (cfg : CrawlConfig) (u : string) : bool :=
  let h := host_of u in
  if is_empty h then false
  else if negb (same_domain cfg) then true
  else if allow_subdomains cfg
  then str_eqb h (seed_host cfg) || str_eqb h (seed_reg cfg) || ends_with h (String.append "." (seed_reg cfg))
  else str_eqb h (seed_host cfg).

(** The path and the query a filter is matched against. *)
Definition filter_path (u : string) : string :=
  match url_parse u with
  | Some p => match u_query p with
              | Some q => if is_empty q then u_path p else String.append (u_path p) (String.append "?" q)
              | None => u_path p
              end
  | None => "/"
  end.

Definition passes_path_filters (cfg : CrawlConfig) (u : string) : bool :=
  let path := filter_path u in
  if any (fun re => is_match re path) (exclude_res cfg) then false
  else match include_res cfg with
       | [] => true
       | _ => any (fun re => is_match re path) (include_res cfg)
       end.

Definition normalize_url (raw : string) : string :=
  match url_parse raw with
  | Some p => no_fragment p
  | None => trim raw
  end.

Definition is_http (u : string) : bool := starts_with u "http://" || starts_with u "https://".

Definition in_scope (cfg : CrawlConfig) (u : string) (depth : Z) : bool :=
  in_domain_scope cfg u && negb ((0 <? depth) && negb (passes_path_filters cfg u)).

(** ** robots.txt *)

Definition fetch_rules (origin : string) : W RobotsRules :=
  let^ r := get_url (plain_get (String.append origin "/robots.txt")) in
  wret (match r with
        | Some r =>
            if is_success r then
              match read_bytes_capped (rp_body r) ROBOTS_MAX with
              | Ok b => parse (decode_text (unwrap_or (rp_content_type r) "") b)
              | Err _ => no_rules
              end
            else no_rules
        | None => no_rules
        end).

(** [RobotsCache::allowed] *)
Definition cache_allowed (cache : gmap string RobotsRules) (u : string) : W (bool * gmap string RobotsRules) :=
  match url_parse u with
  | None => wret (true, cache)
  | Some p =>
      match origin_of p with
      | None => wret (true, cache)
      | Some origin =>
          let^ cache :=
            match cache !! origin with
            | Some _ => wret cache
            | None => let^ rules := fetch_rules origin in wret (<[origin := rules]> cache)
            end in
          wret (match cache !! origin with Some r => allowed r (u_path p) | None => true end, cache)
      end
  end.

(** ** Admission *)

Definition admit_url (cfg : CrawlConfig) (raw_url : string) (depth : Z) (m : Manager) : Manager :=
  if (max_depth cfg <? depth) || (page_budget cfg <=? discovered (counters m)) then m
  else
    let u := normalize_url raw_url in
    if negb (is_http u) then m
    else if negb (in_domain_scope cfg u) || ((0 <? depth) && negb (passes_path_filters cfg u)) then m
    else if (VISITED_HARD_CAP <=? Z.of_nat (size (visited m))) && negb (bool_decide (u ∈ visited m)) then m
    else if bool_decide (u ∈ visited m) then m
    else
      let m := mkManager ({[u]} ∪ visited m) (frontier m) (counters m) (by_origin m) (mlog m) in
      let '(safe, l) := vet u (mlog m) in
      let m := set_log l m in
      if negb safe then set_counters (skip_one (counters m)) m
      else
        let '((ok, cache), l) := if respect_robots cfg then cache_allowed (by_origin m) u (mlog m) else ((true, by_origin m), mlog m) in
        let m := mkManager (visited m) (frontier m) (counters m) cache l in
        if negb ok then set_counters (skip_one (counters m)) m
        else
          mkManager (visited m) (frontier m ++ [mkItem u depth]) (discover_one depth (counters m)) (by_origin m) (mlog m).

(** The loops over links and sitemap URLs: they stop at the budget. *)
Fixpoint admit_all (cfg : CrawlConfig) (urls : list string) (depth : Z) (m : Manager) : Manager :=
  match urls with
  | [] => m
  | u :: urls => if page_budget cfg <=? discovered (counters m) then m else admit_all cfg urls depth (admit_url cfg u depth m)
  end.

(** ** Sitemaps *)

Definition LOC_RE : string := "(?is)<loc>\s*([^<\s]+)\s*</loc>".

Definition extract_locs (xml : string) (limit : Z) : list string :=
  take (Z.to_nat limit) (omap (fun c => trim <$> (c !! 1%nat ≫= fun g => g)) (captures_iter LOC_RE xml)).

Definition sitemap_line (line : string) : option string :=
  let l := trim line in
  if starts_with (to_ascii_lowercase l) "sitemap:" then
    match split_once ":" l with
    | Some (_, v) => let v := trim v in if is_empty v then None else Some v
    | None => None
    end
  else None.

(** A vetted GET of a sitemap file; [None] when it is refused or fails. *)
Definition vetted_text (u : string) (limit : Z) : W (option string) :=
  let^ safe := vet u in
  if negb safe then wret None
  else
    let^ r := get_url (plain_get u) in
    wret (r ≫= fun r =>
          if is_success r then decode_text (unwrap_or (rp_content_type r) "") <$> result_ok (read_bytes_capped (rp_body r) limit)
          else None).

Definition room (urls : list string) : Z := Z.max 0 (SITEMAP_HARD_CAP - Z.of_nat (length urls)).
Definition full (urls : list string) : bool := SITEMAP_HARD_CAP <=? Z.of_nat (length urls).

(** The children of a sitemap index. *)
Fixpoint sitemap_children (cs : list string) (seen : gset string) (urls : list string) : W (gset string * list string) :=
  match cs with
  | [] => wret (seen, urls)
  | child :: cs =>
      if bool_decide (child ∈ seen) then sitemap_children cs seen urls
      else
        let seen := {[child]} ∪ seen in
        let^ safe := vet child in
        if negb safe then sitemap_children cs seen urls
        else
          let^ r := get_url (plain_get child) in
          match (r ≫= fun r => if is_success r
                               then decode_text (unwrap_or (rp_content_type r) "") <$> result_ok (read_bytes_capped (rp_body r) SITEMAP_MAX)
                               else None) with
          | Some ct =>
              if room urls =? 0 then wret (seen, urls)
              else
                let urls := urls ++ extract_locs ct (room urls) in
                if full urls then wret (seen, urls) else sitemap_children cs seen urls
          | None => if full urls then wret (seen, urls) else sitemap_children cs seen urls
          end
  end.

Fixpoint sitemap_maps (sms : list string) (seen : gset string) (urls : list string) : W (list string) :=
  match sms with
  | [] => wret urls
  | sm :: sms =>
      if bool_decide (sm ∈ seen) then sitemap_maps sms seen urls
      else
        let seen := {[sm]} ∪ seen in
        let^ text := vetted_text sm SITEMAP_MAX in
        match text with
        | None => sitemap_maps sms seen urls
        | Some text =>
            let locs := extract_locs text (Z.max (room urls) 1) in
            let^ after :=
              if contains (to_ascii_lowercase text) "<sitemapindex" then sitemap_children (take 20 locs) seen urls
              else wret (seen, urls ++ locs) in
            let '(seen, urls) := after in
            if full urls then wret urls else sitemap_maps sms seen urls
        end
  end.

(** Deduplication that keeps the first of each. *)
Fixpoint dedup_urls (seen : gset string) (urls : list string) : list string :=
  match urls with
  | [] => []
  | u :: urls => if bool_decide (u ∈ seen) then dedup_urls seen urls else u :: dedup_urls ({[u]} ∪ seen) urls
  end.

Definition discover_sitemap_urls (seed_url : string) : W (list string) :=
  match url_parse seed_url ≫= origin_of with
  | None => wret []
  | Some origin =>
      let^ text := vetted_text (String.append origin "/robots.txt") ROBOTS_MAX in
      let candidates := match text with Some t => omap sitemap_line (lines t) | None => [] end in
      let candidates := match candidates with [] => [String.append origin "/sitemap.xml"] | _ => candidates end in
      let^ urls := sitemap_maps (take 5 candidates) ∅ [] in
      wret (dedup_urls ∅ urls)
  end.

(** ** Invariant *)

Definition robots_agree (cache : gmap string RobotsRules) (u : string) : Prop :=
  forall p o, url_parse u = Some p -> origin_of p = Some o ->
  exists r, cache !! o = Some r /\ allowed r (u_path p) = true.

(** A page that may be fetched: what was established when it entered the frontier. *)
Definition admissible (cfg : CrawlConfig) (m : Manager) (i : FrontierItem) : Prop :=
  is_http (i_url i) = true /\ in_scope cfg (i_url i) (i_depth i) = true /\ i_depth i <= max_depth cfg /\
  Vetted (i_url i) true ∈ mlog m /\ (respect_robots cfg = true -> robots_agree (by_origin m) (i_url i)) /\ i_url i ∈ visited m.

(** [gone] has left the frontier. *)
Record manager_ok (cfg : CrawlConfig) (gone : list FrontierItem) (m : Manager) : Prop := {
  ok_admissible : Forall (admissible cfg m) (gone ++ frontier m);
  ok_once : NoDup (i_url <$> gone ++ frontier m);
  ok_count : discovered (counters m) = Z.of_nat (length (gone ++ frontier m));
  ok_budget : discovered (counters m) <= Z.max 0 (page_budget cfg);
  ok_visited : Z.of_nat (size (visited m)) <= VISITED_HARD_CAP;
}.

Definition extends (m m' : Manager) : Prop :=
  visited m ⊆ visited m' /\ by_origin m ⊆ by_origin m' /\ (exists new, mlog m' = new ++ mlog m) /\
  done_ (counters m') = done_ (counters m) /\ failed (counters m') = failed (counters m) /\
  discovered (counters m) <= discovered (counters m').

Lemma extends_refl (m : Manager) : extends m m.
Proof. split_and!; try done. by exists []. Qed.

Lemma extends_trans (m1 m2 m3 : Manager) : extends m1 m2 -> extends m2 m3 -> extends m1 m3.
Proof.
  intros (V1 & O1 & [n1 L1] & D1 & F1 & C1) (V2 & O2 & [n2 L2] & D2 & F2 & C2).
  split_and!; [by etrans|by etrans| |congruence|congruence|lia]. exists (n2 ++ n1). by rewrite L2, L1, app_assoc.
Qed.

Lemma admissible_extends (cfg : CrawlConfig) (m m' : Manager) (i : FrontierItem) :
  extends m m' -> admissible cfg m i -> admissible cfg m' i.
Proof.
  intros (V & O & [n L] & _) (A1 & A2 & A3 & A4 & A5 & A6). split_and!; try done.
  - rewrite L. apply elem_of_app. by right.
  - intros Hr p o Hp Ho. destruct (A5 Hr p o Hp Ho) as (r & Hl & Ha). exists r. split; [by eapply lookup_weaken|done].
  - by apply V.
Qed.

Lemma cache_allowed_spec (cache : gmap string RobotsRules) (u : string) (l : list Event) :
  let '((ok, cache'), l') := cache_allowed cache u l in
  cache ⊆ cache' /\ (exists new, l' = new ++ l) /\ (ok = true -> robots_agree cache' u).
Proof.
  unfold cache_allowed, wbind, wret. destruct (url_parse u) as [p|] eqn:Ep.
  2:{ split_and!; [done|by exists []|]. intros _ p o Hp. congruence. }
  destruct (origin_of p) as [o|] eqn:Eo.
  2:{ split_and!; [done|by exists []|]. intros _ p' o Hp Ho. congruence. }
  destruct (cache !! o) as [r|] eqn:Ec.
  - rewrite Ec. split_and!; [done|by exists []|]. intros Ha p' o' Hp Ho. exists r. by simplify_eq.
  - unfold fetch_rules, wbind, get_url, wret.
    match goal with |- context [<[o := ?r]> cache] => set (rules := r) end.
    rewrite lookup_insert_eq. split_and!; [by apply insert_subseteq|by eexists [_]|].
    intros Ha p' o' Hp Ho. exists rules. simplify_eq. by rewrite lookup_insert_eq.
Qed.

(** The outcomes of [admit_url]: nothing changes, the page is skipped, or it enters the frontier. *)
Inductive admission (cfg : CrawlConfig) (raw : string) (depth : Z) (m m' : Manager) : Prop :=
| Ignored : m' = m -> admission cfg raw depth m m'
| Turned_away :
    extends m m' -> frontier m' = frontier m -> discovered (counters m') = discovered (counters m) ->
    Z.of_nat (size (visited m')) <= Z.max VISITED_HARD_CAP (Z.of_nat (size (visited m))) ->
    admission cfg raw depth m m'
| Entered :
    extends m m' -> frontier m' = frontier m ++ [mkItem (normalize_url raw) depth] -> normalize_url raw ∉ visited m ->
    discovered (counters m) < page_budget cfg -> discovered (counters m') = discovered (counters m) + 1 ->
    Z.of_nat (size (visited m')) <= Z.max VISITED_HARD_CAP (Z.of_nat (size (visited m))) ->
    admissible cfg m' (mkItem (normalize_url raw) depth) ->
    admission cfg raw depth m m'.

Lemma visited_grows (u : string) (s : gset string) :
  u ∉ s -> (VISITED_HARD_CAP <=? Z.of_nat (size s)) = false ->
  Z.of_nat (size ({[u]} ∪ s)) <= Z.max VISITED_HARD_CAP (Z.of_nat (size s)).
Proof. intros Hu Hc. apply Z.leb_gt in Hc. rewrite size_union by set_solver. rewrite size_singleton. lia. Qed.

Lemma admit_cases (cfg : CrawlConfig) (raw : string) (depth : Z) (m : Manager) :
  admission cfg raw depth m (admit_url cfg raw depth m).
Proof.
  unfold admit_url. destruct (_ || (_ <=? discovered _)) eqn:E1; [by apply Ignored|].
  apply orb_false_elim in E1 as [Ed Eb]. apply Z.ltb_ge in Ed. apply Z.leb_gt in Eb.
  set (u := normalize_url raw) in *. destruct (is_http u) eqn:Eh; [|by apply Ignored].
  destruct (negb (in_domain_scope cfg u) || _) eqn:Es; [by apply Ignored|].
  destruct (_ && negb (bool_decide (u ∈ visited m))) eqn:Ec; [by apply Ignored|].
  destruct (bool_decide (u ∈ visited m)) eqn:Ev; [by apply Ignored|]. apply bool_decide_eq_false_1 in Ev.
  rewrite andb_true_r in Ec. pose proof (visited_grows u (visited m) Ev Ec) as Hsz.
  unfold vet. cbn [negb]. destruct (nav_safe (vetting _) u) eqn:Esafe; cbn [negb].
  2:{ apply Turned_away; try done. split_and!; try done; [set_solver|by eexists [_]]. }
  set (r := if respect_robots cfg then _ else _).
  assert (Hr : let '((ok, cache), l) := r in by_origin m ⊆ cache /\
     (exists new, l = new ++ Vetted u true :: mlog m) /\ (ok = true -> respect_robots cfg = true -> robots_agree cache u)).
  { unfold r. destruct (respect_robots cfg).
    - pose proof (cache_allowed_spec (by_origin m) u (Vetted u true :: mlog m)) as Hc. cbn [by_origin mlog set_log].
      destruct (cache_allowed _ _ _) as [[ok cache] l]. destruct Hc as (? & ? & Hc). split_and!; auto.
    - split_and!; [done|by exists []|done]. }
  destruct r as [[ok cache] l]. destruct Hr as (Hsub & [new ->] & Hag). destruct ok; cbn [negb].
  - apply Entered; cbn; try done.
    + split_and!; cbn; try done; [set_solver| |lia]. exists (new ++ [Vetted u true]). by rewrite <-app_assoc.
    + apply orb_false_elim in Es as [Es1 Es2]. apply negb_false_iff in Es1. split_and!; cbn; try done.
      * unfold in_scope. fold u. by rewrite Es1, Es2.
      * apply elem_of_app. right. by left.
      * by apply Hag.
      * set_solver.
  - apply Turned_away; cbn; try done. split_and!; cbn; try done; [set_solver|]. exists (new ++ [Vetted u true]). by rewrite <-app_assoc.
Qed.

Lemma admit_extends (cfg : CrawlConfig) (raw : string) (depth : Z) (m : Manager) : extends m (admit_url cfg raw depth m).
Proof. destruct (admit_cases cfg raw depth m) as [->| |]; [apply extends_refl|done|done]. Qed.

Lemma admit_ok (cfg : CrawlConfig) (gone : list FrontierItem) (raw : string) (depth : Z) (m : Manager) :
  manager_ok cfg gone m -> manager_ok cfg gone (admit_url cfg raw depth m).
Proof.
  intros [O1 O2 O3 O4 O5].
  destruct (admit_cases cfg raw depth m) as [->|Hx Ef Ed Hv|Hx Ef Hn Hb Ed Hv Ha]; [by split| |].
  - split; rewrite ?Ef, ?Ed; try done; [|lia]. eapply Forall_impl; [exact O1|]. intros i. by apply admissible_extends.
  - split.
    + rewrite Ef, app_assoc. apply Forall_app. split; [|by apply Forall_singleton].
      eapply Forall_impl; [exact O1|]. intros i. by apply admissible_extends.
    + rewrite Ef, app_assoc, fmap_app. apply NoDup_app. split_and!; [done| |apply NoDup_singleton].
      intros x Hx' Hs. apply list_elem_of_singleton in Hs as ->. apply list_elem_of_fmap in Hx' as (i & Ei & Hi). simpl in Ei.
      rewrite Forall_forall in O1. destruct (O1 i Hi) as (_ & _ & _ & _ & _ & Hvis). apply Hn. by rewrite Ei.
    + rewrite Ef, app_assoc, length_app, Ed, O3. simpl. lia.
    + lia.
    + lia.
Qed.

Lemma admit_all_ok (cfg : CrawlConfig) (gone : list FrontierItem) (urls : list string) (depth : Z) (m : Manager) :
  manager_ok cfg gone m -> manager_ok cfg gone (admit_all cfg urls depth m) /\ extends m (admit_all cfg urls depth m).
Proof.
  revert m. induction urls as [|u urls IH]; intros m Hm; cbn [admit_all]; [split; [done|apply extends_refl]|].
  destruct (_ <=? _); [split; [done|apply extends_refl]|].
  destruct (IH _ (admit_ok cfg gone u depth m Hm)) as [H1 H2]. split; [done|].
  eapply extends_trans; [apply admit_extends|exact H2].
Qed.

Lemma manager_new_ok (cfg : CrawlConfig) : manager_ok cfg [] manager_new.
Proof. split; cbn; try done; [constructor|lia]. Qed.

End admit_url.

(** ** Sitemap seeding *)

Section sitemap.
Context `{CrawlNet}.

(** Every request made was of an address the guard had passed. *)
Definition vetted_fetches (new : list Event) : Prop := forall r, Requested r ∈ new -> Vetted (rq_url r) true ∈ new.

Definition seg {A : Type} (m : W A) (Q : A -> Prop) : Prop :=
  forall l, exists new, snd (m l) = new ++ l /\ vetted_fetches new /\ Q (fst (m l)).

Lemma vetted_fetches_app (a b : list Event) : vetted_fetches a -> vetted_fetches b -> vetted_fetches (a ++ b).
Proof. intros Ha Hb r [Hr|Hr]%elem_of_app; apply elem_of_app; [left; by apply Ha|right; by apply Hb]. Qed.

Lemma seg_ret {A : Type} (a : A) (Q : A -> Prop) : Q a -> seg (wret a) Q.
Proof. intros Ha l. exists []. split_and!; [done| |done]. intros r Hr. by apply elem_of_nil in Hr. Qed.

Lemma seg_bind {A B : Type} (m : W A) (k : A -> W B) (R : A -> Prop) (Q : B -> Prop) :
  seg m R -> (forall a, R a -> seg (k a) Q) -> seg (wbind m k) Q.
Proof.
  intros Hm Hk l. destruct (Hm l) as (n1 & E1 & F1 & Ra). unfold wbind. destruct (m l) as [a l1]. simpl in *. subst l1.
  destruct (Hk a Ra (n1 ++ l)) as (n2 & E2 & F2 & Qb). exists (n2 ++ n1). rewrite E2, app_assoc.
  split_and!; [done|by apply vetted_fetches_app|done].
Qed.

Lemma seg_vetted_get {B : Type} (u : string) (a : W B) (k : option Reply -> W B) (Q : B -> Prop) :
  seg a Q -> (forall r, seg (k r) Q) ->
  seg (wbind (vet u) (fun safe => if negb safe then a else wbind (get_url (plain_get u)) k)) Q.
Proof.
  intros Ha Hk l. unfold wbind, vet, get_url. destruct (nav_safe (vetting l) u); cbn [negb].
  - match goal with |- context [k ?r ?l0] => destruct (Hk r l0) as (n & E & F & HQ); exists (n ++ [Requested (plain_get u); Vetted u true]) end.
    rewrite E, <-app_assoc. split_and!; [done| |done]. apply vetted_fetches_app; [done|].
    intros r Hr. rewrite !elem_of_cons, elem_of_nil in Hr |- *. destruct Hr as [[= ->]|[[=]|[]]]. auto.
  - destruct (Ha (Vetted u false :: l)) as (n & E & F & HQ). exists (n ++ [Vetted u false]).
    rewrite E, <-app_assoc. split_and!; [done| |done]. apply vetted_fetches_app; [done|].
    intros r Hr. by apply list_elem_of_singleton in Hr.
Qed.

Definition capped (urls : list string) : Prop := Z.of_nat (length urls) <= SITEMAP_HARD_CAP.
Definition open (urls : list string) : Prop := Z.of_nat (length urls) < SITEMAP_HARD_CAP.

Lemma not_full (urls : list string) : full urls = false -> open urls.
Proof. apply Z.leb_gt. Qed.

Lemma extract_locs_length (xml : string) (limit : Z) : 0 <= limit -> Z.of_nat (length (extract_locs xml limit)) <= limit.
Proof. intros Hl. unfold extract_locs. rewrite length_take. lia. Qed.

Lemma open_capped (urls : list string) : open urls -> capped urls.
Proof. unfold open, capped. lia. Qed.

Lemma room_capped (urls : list string) (xml : string) : capped urls -> capped (urls ++ extract_locs xml (room urls)).
Proof.
  unfold capped. intros Hc. rewrite length_app. assert (Hr : 0 <= room urls) by (unfold room; lia).
  pose proof (extract_locs_length xml (room urls) Hr). unfold room in *. lia.
Qed.

Lemma sitemap_children_seg (cs : list string) (seen : gset string) (urls : list string) :
  capped urls -> seg (sitemap_children cs seen urls) (fun r => capped (snd r)).
Proof.
  revert seen urls. induction cs as [|c cs IH]; intros seen urls Hc; cbn [sitemap_children]; [by apply seg_ret|].
  destruct (bool_decide _); [by apply IH|]. cbv zeta. apply seg_vetted_get; [by apply IH|]. intros r.
  destruct (r ≫= _) as [ct|].
  - destruct (room urls =? 0); [by apply seg_ret|].
    destruct (full _); [by apply seg_ret, room_capped|by apply IH, room_capped].
  - destruct (full urls); [by apply seg_ret|by apply IH].
Qed.

Lemma vetted_text_seg (u : string) (limit : Z) : seg (vetted_text u limit) (fun _ => True).
Proof. unfold vetted_text. apply seg_vetted_get; intros; by apply seg_ret. Qed.

Lemma sitemap_maps_seg (sms : list string) (seen : gset string) (urls : list string) :
  open urls -> seg (sitemap_maps sms seen urls) capped.
Proof.
  revert seen urls. induction sms as [|sm sms IH]; intros seen urls Hc; cbn [sitemap_maps]; [by apply seg_ret, open_capped|].
  destruct (bool_decide _); [by apply IH|]. cbv zeta. eapply seg_bind; [apply vetted_text_seg|]. intros [text|] _; [|by apply IH].
  eapply (seg_bind _ _ (fun r => capped (snd r))).
  - destruct (contains _ _); [by apply sitemap_children_seg, open_capped|]. apply seg_ret. cbn [snd].
    unfold capped, open, room in *. rewrite length_app.
    pose proof (extract_locs_length text (Z.max (Z.max 0 (SITEMAP_HARD_CAP - Z.of_nat (length urls))) 1)). lia.
  - intros [seen' urls'] Hu. destruct (full urls') eqn:Ef; [by apply seg_ret|]. by apply IH, not_full.
Qed.

Lemma dedup_spec (urls : list string) (seen : gset string) :
  NoDup (dedup_urls seen urls) /\ (forall u, u ∈ dedup_urls seen urls -> u ∉ seen) /\ (length (dedup_urls seen urls) <= length urls)%nat.
Proof.
  revert seen. induction urls as [|u urls IH]; intros seen; cbn [dedup_urls].
  { split_and!; [constructor|by intros u Hu%elem_of_nil|done]. }
  destruct (bool_decide (u ∈ seen)) eqn:E.
  - destruct (IH seen) as (? & ? & ?). split_and!; [done|done|simpl; lia].
  - apply bool_decide_eq_false_1 in E. destruct (IH ({[u]} ∪ seen)) as (Hn & Hs & Hl). split_and!.
    + constructor; [|done]. intros Hu. specialize (Hs u Hu). set_solver.
    + intros v [->|Hv]%elem_of_cons; [done|]. specialize (Hs v Hv). set_solver.
    + simpl. lia.
Qed.

Lemma discover_sitemap_seg (seed_url : string) :
  seg (discover_sitemap_urls seed_url) (fun urls => NoDup urls /\ capped urls).
Proof.
  unfold discover_sitemap_urls. destruct (url_parse seed_url ≫= origin_of) as [o|].
  2:{ apply seg_ret. split; [constructor|done]. }
  eapply seg_bind; [apply vetted_text_seg|]. intros text _. cbv zeta.
  eapply seg_bind; [by apply sitemap_maps_seg|]. intros urls Hu. apply seg_ret.
  destruct (dedup_spec urls ∅) as (Hn & _ & Hl). split; [done|]. unfold capped in *. lia.
Qed.

(** sitemap seeding returns at most [SITEMAP_HARD_CAP] URLs, without repetition, whatever the files it reads contain,
    and it fetches nothing - robots.txt, sitemap or the child of an index - that the URL guard had not passed. *)
Theorem sitemap_bounded_and_vetted (seed_url : string) (l : list Event) :
  let urls := fst (discover_sitemap_urls seed_url l) in
  NoDup urls /\ Z.of_nat (length urls) <= SITEMAP_HARD_CAP /\
  exists new, snd (discover_sitemap_urls seed_url l) = new ++ l /\
              forall r, Requested r ∈ new -> Vetted (rq_url r) true ∈ new.
Proof.
  destruct (discover_sitemap_seg seed_url l) as (new & E & Hv & Hn & Hc). split_and!; [done|done|]. by exists new.
Qed.

End sitemap.
