(* ===== verification/CrawlJobs.v ===== *)
(** * local/store/crawl_jobs.rs: the row of a crawl

    The table by identifier and its statements. The life of a row: [queued], [mapping], [crawling], [stopping], then one of
    [completed], [failed] and [cancelled]. [now] is the clock of the database; [list] is not modelled. *)

From Stdlib Require Import Ascii String.
From S2P Require Import Prelude Ints Str Json.
Open Scope string_scope.
Open Scope list_scope.
Open Scope Z_scope.

Record CrawlJob : Type := mkJob {
  j_id : Z;
  name : string;
  seed_url : string;
  include_paths : string;
  exclude_paths : string;
  j_max_depth : Z;
  j_same_domain : Z;
  j_allow_subdomains : Z;
  j_extract_mode : string;
  j_extract_schema : option string;
  content_spec : option string;
  persona_id : option Z;
  j_respect_robots : Z;
  j_delay_ms : Z;
  max_concurrent : Z;
  j_page_budget : Z;
  workflow_id : option Z;
  concierge_session_id : option Z;
  j_status : string;
  pages_discovered : Z;
  pages_done : Z;
  pages_failed : Z;
  pages_skipped : Z;
  workers_active : Z;
  current_depth : Z;
  j_error : option string;
  cancel_requested : Z;
  created_at : string;
  updated_at : option string;
  started_at : option string;
  completed_at : option string;
}.

Record NewCrawlJob : Type := mkNewJob {
  n_name : string;
  n_seed_url : string;
  n_include_paths : option string;
  n_exclude_paths : option string;
  n_max_depth : option Z;
  n_same_domain : option Z;
  n_allow_subdomains : option Z;
  n_extract_mode : option string;
  n_extract_schema : option string;
  n_content_spec : option string;
  n_persona_id : option Z;
  n_respect_robots : option Z;
  n_delay_ms : option Z;
  n_max_concurrent : option Z;
  n_page_budget : option Z;
  n_concierge_session_id : option Z;
}.

Record CounterSnapshot : Type := mkSnapshot {
  s_discovered : Z;
  s_done : Z;
  s_failed : Z;
  s_skipped : Z;
  s_workers_active : Z;
  s_current_depth : Z;
}.

Definition terminal_status (s : string) : bool := any (str_eqb s) ["completed"; "failed"; "cancelled"].
Definition is_terminal (c : CrawlJob) : bool := terminal_status (j_status c).

Notation table := (gmap Z CrawlJob).

Definition insert_row (id : Z) (now : string) (n : NewCrawlJob) : CrawlJob :=
  mkJob id (n_name n) (n_seed_url n) (unwrap_or (n_include_paths n) "[]") (unwrap_or (n_exclude_paths n) "[]")
    (unwrap_or (n_max_depth n) 3) (unwrap_or (n_same_domain n) 1) (unwrap_or (n_allow_subdomains n) 1)
    (unwrap_or (n_extract_mode n) "markdown") (n_extract_schema n) (n_content_spec n) (n_persona_id n)
    (unwrap_or (n_respect_robots n) 1) (unwrap_or (n_delay_ms n) 250) (unwrap_or (n_max_concurrent n) 4)
    (unwrap_or (n_page_budget n) 500) None (n_concierge_session_id n) "queued" 0 0 0 0 0 0 None 0 now None None None.

(** The identifier is one the table never had. *)
Definition insert (t : table) (id : Z) (now : string) (n : NewCrawlJob) : table := <[id := insert_row id now n]> t.

Definition get_by_id (t : table) (id : Z) : option CrawlJob := t !! id.

(** An [UPDATE] of one row under a guard: the table, and whether the row was changed. *)
Definition update_where (guard : CrawlJob -> bool) (f : CrawlJob -> CrawlJob) (t : table) (id : Z) : table * bool :=
  match t !! id with
  | Some c => if guard c then (<[id := f c]> t, true) else (t, false)
  | None => (t, false)
  end.

Definition with_status (s : string) (err : option string) (cancel workers : Z) (updated started completed : option string) (c : CrawlJob) : CrawlJob :=
  mkJob (j_id c) (name c) (seed_url c) (include_paths c) (exclude_paths c) (j_max_depth c) (j_same_domain c)
    (j_allow_subdomains c) (j_extract_mode c) (j_extract_schema c) (content_spec c) (persona_id c) (j_respect_robots c)
    (j_delay_ms c) (max_concurrent c) (j_page_budget c) (workflow_id c) (concierge_session_id c) s
    (pages_discovered c) (pages_done c) (pages_failed c) (pages_skipped c) workers (current_depth c) err
    cancel (created_at c) updated started completed.

Definition set_workflow_id (t : table) (id workflow : Z) (now : string) : table :=
  fst (update_where (fun _ => true) (fun c =>
    mkJob (j_id c) (name c) (seed_url c) (include_paths c) (exclude_paths c) (j_max_depth c) (j_same_domain c)
      (j_allow_subdomains c) (j_extract_mode c) (j_extract_schema c) (content_spec c) (persona_id c) (j_respect_robots c)
      (j_delay_ms c) (max_concurrent c) (j_page_budget c) (Some workflow) (concierge_session_id c) (j_status c)
      (pages_discovered c) (pages_done c) (pages_failed c) (pages_skipped c) (workers_active c) (current_depth c) (j_error c)
      (cancel_requested c) (created_at c) (Some now) (started_at c) (completed_at c)) t id).

Definition delete (t : table) (id : Z) : table * bool := (base.delete id t, bool_decide (is_Some (t !! id))).

Definition set_status (t : table) (id : Z) (now status : string) : table :=
  fst (update_where (fun _ => true) (fun c =>
    let started := match started_at c with
                   | Some s => Some s
                   | None => if str_eqb status "mapping" || str_eqb status "crawling" then Some now else None
                   end in
    with_status status (j_error c) (cancel_requested c) (workers_active c) (Some now) started (completed_at c) c) t id).

Definition set_counters (t : table) (id : Z) (now : string) (s : CounterSnapshot) : table :=
  fst (update_where (fun _ => true) (fun c =>
    mkJob (j_id c) (name c) (seed_url c) (include_paths c) (exclude_paths c) (j_max_depth c) (j_same_domain c)
      (j_allow_subdomains c) (j_extract_mode c) (j_extract_schema c) (content_spec c) (persona_id c) (j_respect_robots c)
      (j_delay_ms c) (max_concurrent c) (j_page_budget c) (workflow_id c) (concierge_session_id c) (j_status c)
      (s_discovered s) (s_done s) (s_failed s) (s_skipped s) (s_workers_active s) (Z.max (current_depth c) (s_current_depth s)) (j_error c)
      (cancel_requested c) (created_at c) (Some now) (started_at c) (completed_at c)) t id).

Definition live_status (s : string) : bool := any (str_eqb s) ["queued"; "mapping"; "crawling"].

Definition request_cancel (t : table) (id : Z) (now : string) : table * bool :=
  update_where (fun c => negb (is_terminal c)) (fun c =>
    with_status (if live_status (j_status c) then "stopping" else j_status c) (j_error c) 1 (workers_active c) (Some now)
      (started_at c) (completed_at c) c) t id.

Definition is_cancel_requested (t : table) (id : Z) : bool :=
  match t !! id with Some c => negb (cancel_requested c =? 0) | None => false end.

(** The table, and the row as it stands; [None] when there is no row. *)
Definition finalize (t : table) (id : Z) (now status : string) (error : option string) : table * option CrawlJob :=
  let t := fst (update_where (fun c => negb (is_terminal c)) (fun c =>
    with_status status error 0 0 (Some now) (started_at c) (Some now) c) t id) in
  (t, get_by_id t id).

Definition orphaned (c : CrawlJob) : bool := any (str_eqb (j_status c)) ["queued"; "mapping"; "crawling"; "stopping"].

(** The boot sweep, and the number of rows it failed. *)
Definition interrupt_orphaned (t : table) (now : string) : table * Z :=
  ((fun c => if orphaned c
             then with_status "failed" (Some "Interrupted: the app restarted while the crawl was running.") 0 0 (Some now)
                    (started_at c) (Some now) c
             else c) <$> t,
   Z.of_nat (size (filter (fun kv => orphaned (snd kv) = true) t))).

(** ** The life of a row *)

Definition status_ok (c : CrawlJob) : Prop := is_terminal c = true \/ orphaned c = true.
Definition table_ok (t : table) : Prop := map_Forall (fun _ c => status_ok c) t.

Lemma update_where_ok (guard : CrawlJob -> bool) (f : CrawlJob -> CrawlJob) (t : table) (id : Z) :
  (forall c, status_ok c -> guard c = true -> status_ok (f c)) -> table_ok t -> table_ok (fst (update_where guard f t id)).
Proof.
  intros Hf Ht. unfold update_where. destruct (t !! id) as [c|] eqn:E; [|done]. destruct (guard c) eqn:Eg; [|done].
  apply map_Forall_insert_2; [|done]. apply Hf; [by apply (Ht id)|done].
Qed.

(** The statuses of a live row; [set_status] is called with [mapping] and [crawling]. *)
Definition running (s : string) : bool := any (str_eqb s) ["queued"; "mapping"; "crawling"; "stopping"].

Lemma set_status_ok (t : table) (id : Z) (now s : string) : running s = true -> table_ok t -> table_ok (set_status t id now s).
Proof. intros Hs. apply update_where_ok. intros c _ _. by right. Qed.

Lemma finalize_ok (t : table) (id : Z) (now s : string) (e : option string) : terminal_status s = true -> table_ok t -> table_ok (fst (finalize t id now s e)).
Proof. intros Hs Ht. unfold finalize. cbn [fst]. apply update_where_ok; [|done]. intros c _ _. by left. Qed.

Lemma request_cancel_ok (t : table) (id : Z) (now : string) : table_ok t -> table_ok (fst (request_cancel t id now)).
Proof.
  apply update_where_ok. intros c Hc Hg. right. apply negb_true_iff in Hg. destruct Hc as [Hc|Hc]; [congruence|].
  unfold orphaned, with_status. cbn [j_status]. destruct (live_status (j_status c)) eqn:El; [done|]. exact Hc.
Qed.

Lemma update_lookup_ne (guard : CrawlJob -> bool) (f : CrawlJob -> CrawlJob) (t : table) (id k : Z) :
  k <> id -> fst (update_where guard f t id) !! k = t !! k.
Proof.
  intros Hk. unfold update_where. destruct (t !! id) as [c|]; [|done]. destruct (guard c); [|done]. by apply lookup_insert_ne.
Qed.

Lemma update_lookup_eq (guard : CrawlJob -> bool) (f : CrawlJob -> CrawlJob) (t : table) (id : Z) (c : CrawlJob) :
  t !! id = Some c -> fst (update_where guard f t id) !! id = Some (if guard c then f c else c).
Proof. intros E. unfold update_where. rewrite E. destruct (guard c); [by apply lookup_insert_eq|done]. Qed.

(** a settled crawl stays settled: [request_cancel], [finalize] and the boot sweep leave a terminal row as it is, a
    late finalize returns the row it found, a cancel is accepted exactly while the row is live, and after the boot sweep no row
    is left without an outcome. *)
Theorem crawl_row_settles (t : table) (id : Z) (now s : string) (e : option string) (c : CrawlJob)
    (Hc : t !! id = Some c) (Ht : table_ok t) (Hs : terminal_status s = true) :
  snd (request_cancel t id now) = negb (is_terminal c) /\
  (exists c', snd (finalize t id now s e) = Some c' /\ is_terminal c' = true /\
              if is_terminal c then c' = c else j_status c' = s /\ j_error c' = e /\ cancel_requested c' = 0 /\ workers_active c' = 0) /\
  (is_terminal c = true ->
     fst (request_cancel t id now) = t /\ fst (finalize t id now s e) = t /\ fst (interrupt_orphaned t now) !! id = Some c) /\
  map_Forall (fun _ d => is_terminal d = true) (fst (interrupt_orphaned t now)).
Proof.
  assert (Hnot : forall d, is_terminal d = true -> orphaned d = false).
  { intros d. unfold is_terminal, orphaned, terminal_status, any. cbn [existsb]. rewrite !orb_true_iff, !str_eqb_eq.
    by intros [->|[->|[->|]]]. }
  split_and!.
  - unfold request_cancel, update_where. rewrite Hc. by destruct (is_terminal c).
  - unfold finalize, get_by_id. cbn [snd]. rewrite (update_lookup_eq _ _ _ _ _ Hc). eexists. split; [done|].
    destruct (is_terminal c) eqn:Et; cbn [negb]; [done|]. by unfold is_terminal.
  - intros Hterm. unfold request_cancel, finalize, interrupt_orphaned, update_where. rewrite Hc, Hterm. cbn [fst negb].
    split_and!; [done|done|]. by rewrite lookup_fmap, Hc; simpl; rewrite (Hnot c Hterm).
  - intros k d. unfold interrupt_orphaned. cbn [fst]. rewrite lookup_fmap. destruct (t !! k) as [r|] eqn:Er; [|done]. simpl. intros [= <-].
    destruct (orphaned r) eqn:Eo; [done|]. destruct (Ht k r Er) as [?|?]; [done|congruence].
Qed.

Definition sample_new : NewCrawlJob :=
  mkNewJob "c" "https://a.test/" None None None None None None None None None None None None None None.

Lemma crawl_row_settles_witness :
  let t := fst (finalize (insert ∅ 7 "t0" sample_new) 7 "t1" "cancelled" None) in
  snd (request_cancel t 7 "t2") = false /\ fst (finalize t 7 "t2" "completed" None) = t.
Proof.
  intros t.
  destruct (crawl_row_settles t 7 "t2" "completed" None
    (with_status "cancelled" None 0 0 (Some "t1") None (Some "t1") (insert_row 7 "t0" sample_new))
    ltac:(by vm_compute)
    ltac:(apply finalize_ok; [done|]; apply map_Forall_insert_2; [by right|apply map_Forall_empty])
    ltac:(by vm_compute)) as (H1 & _ & H2 & _).
  split; [exact H1|]. apply H2. by vm_compute.
Defined.
