(* ===== verification/CrawlLoop.v ===== *)
(** * crawl_shard/mod.rs: a whole-site crawl on this machine

    [start_crawl], [run_crawl] and what they persist. The state of the loop is the manager of [CrawlAdmit], the pages in flight (the
    [JoinSet]), the row buffer and the database; [history] is the pages the loop has heard of, with what became of them, and has no
    counterpart in the code. The worker that finishes next, its panic, a failing statement and a cancel request that lands
    before a statement are the environment's: [CrawlHost]. A worker's events enter the log when the manager joins it. *)

From Stdlib Require Import Ascii String.
From S2P Require Import Prelude Ints F64 Str Json Robots CrawlNet CrawlFetch CrawlAdmit CrawlJobs.
From S2P Require Import Errors.
Open Scope string_scope.
Open Scope list_scope.
Open Scope Z_scope.
Open Scope trace_scope.

Definition FLUSH_BATCH : nat := 25.

Record Run : Type := mkRun {
  mgr : Manager;
  workers : list FrontierItem;
  buffer : list json;
  stopping : bool;
  cancel_poll : Z;
  jobs : gmap Z CrawlJob;
  batches : list (list json);
  history : list (FrontierItem * option PageOutcome);
}.

Class CrawlHost : Type := {
  host_net :: CrawlNet;
  statement_fails : list Event -> bool;
  cancel_lands : list Event -> bool;
  (** the place of the next finished worker among those in flight *)
  next_joined : list Event -> nat;
  panics : list Event -> bool;
  engine_browser : bool;
  (** the saved session of a persona, signed in again if need be *)
  persona_session : list Event -> Z -> result json string;
}.

Section run.
Context `{CrawlHost}.

Definition with_mgr (m : Manager) (r : Run) : Run :=
  mkRun m (workers r) (buffer r) (stopping r) (cancel_poll r) (jobs r) (batches r) (history r).
Definition run_log (r : Run) : list Event := mlog (mgr r).

(** ** Statements *)

(** A cancel request of another handler may land first; [false] when the statement fails. *)
Definition statement (id : Z) (f : gmap Z CrawlJob -> gmap Z CrawlJob) (r : Run) : bool * Run :=
  let l := run_log r in
  let t := if cancel_lands l then fst (request_cancel (jobs r) id (now_iso l)) else jobs r in
  let ok := negb (statement_fails l) in
  (ok, mkRun (set_log (Statement :: l) (mgr r)) (workers r) (buffer r) (stopping r) (cancel_poll r) (if ok then f t else t)
         (batches r) (history r)).

Definition push_counters (id : Z) (c : Counters) (active : Z) (r : Run) : Run :=
  snd (statement id (fun t => CrawlJobs.set_counters t id (now_iso (run_log r))
    (mkSnapshot (discovered c) (done_ c) (failed c) (skipped c) active (max_depth_seen c))) r).

(** [flush]: the rows leave the buffer before the statement that stores them. *)
Definition flush (id : Z) (r : Run) : Run :=
  match buffer r with
  | [] => r
  | rows =>
      let '(ok, r) := statement id (fun t => t) r in
      mkRun (mgr r) (workers r) [] (stopping r) (cancel_poll r) (jobs r) (if ok then batches r ++ [rows] else batches r) (history r)
  end.

(** ** The loop *)

Definition poll_cancel (id : Z) (r : Run) : Run :=
  if stopping r then r
  else
    let r := mkRun (mgr r) (workers r) (buffer r) (stopping r) (cancel_poll r + 1) (jobs r) (batches r) (history r) in
    if cancel_poll r mod 4 =? 0 then
      let '(ok, r) := statement id (fun t => t) r in
      if ok && is_cancel_requested (jobs r) id
      then mkRun (set_frontier [] (mgr r)) (workers r) (buffer r) true (cancel_poll r) (jobs r) (batches r) (history r)
      else r
    else r.

(** The refill pops and spawns until the window is full. *)
Fixpoint refill (room : nat) (m : Manager) (ws : list FrontierItem) : Manager * list FrontierItem :=
  match room, frontier m with
  | S room, i :: rest => refill room (set_log (Spawned i :: mlog m) (set_frontier rest m)) (ws ++ [i])
  | _, _ => (m, ws)
  end.

Definition refill_workers (window : nat) (r : Run) : Run :=
  if stopping r then r
  else
    let '(m, ws) := refill (window - length (workers r)) (mgr r) (workers r) in
    mkRun m ws (buffer r) (stopping r) (cancel_poll r) (jobs r) (batches r) (history r).

Definition fail_one (c : Counters) : Counters := mkCounters (discovered c) (done_ c) (failed c + 1) (skipped c) (max_depth_seen c).
Definition done_one (c : Counters) : Counters := mkCounters (discovered c) (done_ c + 1) (failed c) (skipped c) (max_depth_seen c).

Definition record (i : FrontierItem) (o : option PageOutcome) (r : Run) : Run :=
  mkRun (mgr r) (workers r) (buffer r) (stopping r) (cancel_poll r) (jobs r) (batches r) (history r ++ [(i, o)]).
Definition on_counters (f : Counters -> Counters) (r : Run) : Run := with_mgr (CrawlAdmit.set_counters (f (counters (mgr r))) (mgr r)) r.

Definition absorb (cfg : CrawlConfig) (out : ResolvedOut) (r : Run) : Run :=
  match r_outcome out with
  | Extracted p =>
      let r := on_counters done_one r in
      let r := mkRun (mgr r) (workers r) (buffer r ++ rows p) (stopping r) (cancel_poll r) (jobs r) (batches r) (history r) in
      if stopping r then r
      else with_mgr (admit_all cfg (l_url <$> links p) (r_depth out + 1) (mgr r)) r
  | Blocked _ | CrawlNet.Failed _ | NeedsBrowser _ _ => on_counters fail_one r
  end.

(** One iteration after the refill, when a worker is in flight. *)
Definition join_one (cfg : CrawlConfig) (id : Z) (r : Run) : Run :=
  let k := (next_joined (run_log r) mod length (workers r))%nat in
  match workers r !! k with
  | None => r
  | Some item =>
      let crashed := panics (run_log r) in
      let r := mkRun (set_log (Joined item :: run_log r) (mgr r)) (base.delete k (workers r)) (buffer r) (stopping r) (cancel_poll r)
                 (jobs r) (batches r) (history r) in
      if crashed then
        let r := on_counters fail_one (record item None r) in
        push_counters id (counters (mgr r)) (Z.of_nat (length (workers r))) r
      else
        let '(out, l) := fetch_resolve engine_browser cfg item (run_log r) in
        let r := absorb cfg out (record item (Some (r_outcome out)) (with_mgr (set_log l (mgr r)) r)) in
        let r := if (FLUSH_BATCH <=? length (buffer r))%nat then flush id r else r in
        push_counters id (counters (mgr r)) (Z.of_nat (length (workers r))) r
  end.

(** [None] on convergence. *)
Definition turn (cfg : CrawlConfig) (id : Z) (window : nat) (r : Run) : Run * bool :=
  let r := refill_workers window (poll_cancel id r) in
  match workers r with
  | [] => (r, true)
  | _ => (join_one cfg id r, false)
  end.

Fixpoint crawl_loop (fuel : nat) (cfg : CrawlConfig) (id : Z) (window : nat) (r : Run) : option Run :=
  match fuel with
  | O => None
  | S fuel => let '(r, over) := turn cfg id window r in if over then Some r else crawl_loop fuel cfg id window r
  end.

(** ** The run *)

Definition string_list (raw : string) : list string :=
  match json_from_str raw with
  | Some (JArr l) => match mapM json_as_str l with Some l => l | None => [] end
  | _ => []
  end.

Definition build_config (c : CrawlJob) (browser_available : bool) (a : CrawlAuth) : CrawlConfig :=
  let seed_host := host_of (seed_url c) in
  mkConfig seed_host (registrable seed_host) (negb (j_same_domain c =? 0)) (negb (j_allow_subdomains c =? 0))
    (retain regex_ok (string_list (include_paths c))) (retain regex_ok (string_list (exclude_paths c)))
    (j_max_depth c) (j_page_budget c) (Z.max 0 (j_delay_ms c)) (negb (j_respect_robots c =? 0)) (j_extract_mode c)
    (j_extract_schema c ≫= json_from_str) "auto" "auto" (content_spec c ≫= json_from_str) browser_available a false false.

(** [resolve_local_crawl_auth] after the login. *)
Definition resolve_local_crawl_auth (l : list Event) (pid : Z) (seed : string) : result CrawlAuth string :=
  match persona_session l pid with
  | Err msg => Err msg
  | Ok blob =>
      let a := auth_from_session (Some blob) (registrable (host_of seed)) in
      if auth_is_empty a
      then Err "The login session for this crawl's persona has expired. Sign in again with the persona, then start the crawl."
      else Ok a
  end.

(** What the run did to the rest of the daemon. *)
Inductive Ending : Type :=
| Not_run
| Refused_login (msg : string)
| Errored
| Finished (status : string) (fires_lifecycle : bool).

Definition run_init (t : gmap Z CrawlJob) (l : list Event) : Run :=
  mkRun (set_log l manager_new) [] [] false 0 t [] [].

Definition set_row_status (id : Z) (s : string) (r : Run) : bool * Run :=
  statement id (fun t => set_status t id (now_iso (run_log r)) s) r.
(** The update, and the statement that reads the row back. *)
Definition finalize_row (id : Z) (s : string) (e : option string) (r : Run) : bool * Run :=
  let '(ok, r) := statement id (fun t => fst (finalize t id (now_iso (run_log r)) s e)) r in
  if ok then statement id (fun t => t) r else (false, r).

(** The seeding between the two status changes. *)
Definition seed_frontier (cfg : CrawlConfig) (seed : string) (r : Run) : Run :=
  let m := admit_url cfg seed 0 (mgr r) in
  let '(urls, l) := discover_sitemap_urls seed (mlog m) in
  with_mgr (admit_all cfg (take (Z.to_nat SITEMAP_HARD_CAP) urls) 0 (set_log l m)) r.

Definition conclude (id : Z) (r : Run) : Ending * Run :=
  let r := flush id r in
  let status := if stopping r then "cancelled" else "completed" in
  let '(_, r) := finalize_row id status None r in
  (Finished status (str_eqb status "completed"), r).

(** A run with its configuration; [None] when the fuel does not suffice. *)
Definition crawl_with (fuel : nat) (cfg : CrawlConfig) (id : Z) (c : CrawlJob) (r : Run) : option (Ending * Run) :=
  let '(ok, r) := set_row_status id "mapping" r in
  if negb ok then Some (Errored, r)
  else
    let r := seed_frontier cfg (seed_url c) r in
    let '(ok, r) := set_row_status id "crawling" r in
    if negb ok then Some (Errored, r)
    else
      let r := push_counters id (counters (mgr r)) (Z.of_nat (length (frontier (mgr r)))) r in
      let window := Z.to_nat (Z.max 1 (max_concurrent c)) in
      conclude id <$> crawl_loop fuel cfg id window r.

Definition run_crawl (fuel : nat) (id : Z) (r : Run) : option (Ending * Run) :=
  let '(ok, r) := statement id (fun t => t) r in
  if negb ok then Some (Errored, r)
  else
    match get_by_id (jobs r) id with
    | None => Some (Not_run, r)
    | Some c =>
        if is_terminal c then Some (Not_run, r)
        else
          match workflow_id c with
          | None => Some (Errored, r)
          | Some _ =>
              match (match persona_id c with
                     | Some pid => resolve_local_crawl_auth (run_log r) pid (seed_url c)
                     | None => Ok auth_default
                     end) with
              | Err msg =>
                  let '(ok, r) := finalize_row id "failed" (Some msg) r in
                  Some (if ok then Refused_login msg else Errored, r)
              | Ok a => crawl_with fuel (build_config c engine_browser a) id c r
              end
          end
    end.

(** The task of [start_crawl]: an error of the run fails the row, with the error's text, which is not modelled. *)
Definition crawl_task (fuel : nat) (id : Z) (r : Run) : option (Ending * Run) :=
  match run_crawl fuel id r with
  | Some (Errored, r) => Some (Errored, snd (finalize_row id "failed" (Some "") r))
  | o => o
  end.

(** ** Starting a crawl *)

Record StartParams : Type := mkStart {
  p_seed_url : string;
  p_name : option string;
  p_extract_mode : string;
  p_extract_schema : option json;
  p_persona_id : option Z;
  p_include_paths : list string;
  p_exclude_paths : list string;
  p_max_depth : Z;
  p_page_budget : Z;
  p_max_concurrent : Z;
  p_delay_ms : Z;
  p_respect_robots : bool;
  p_same_domain : bool;
  p_allow_subdomains : bool;
  p_content : option json;
  p_concierge_session_id : option Z;
}.

Definition start_default : StartParams :=
  mkStart "" None "markdown" None None [] [] 3 500 4 250 true true true None None.

Definition normalize_and_vet_seed (raw : string) : W (result string LocalError) :=
  let seed := trim raw in
  if is_empty seed then wret (Err (BadRequest "A URL is required."))
  else
    let seed := if is_http seed then seed else String.append "https://" seed in
    let^ safe := vet seed in
    wret (if negb safe then Err (BadRequest (String.append "URL is not allowed: " seed))
          else match url_parse seed with
               | None => Err (BadRequest (String.append "Invalid URL: " seed))
               | Some _ => Ok seed
               end).

Definition b2z (b : bool) : Z := if b then 1 else 0.

(** The row [start_crawl] inserts once the seed is vetted. *)
Definition start_row (p : StartParams) (seed : string) : NewCrawlJob :=
  let extract_mode := if str_eqb (p_extract_mode p) "schema" then "schema" else "markdown" in
  let host := host_of seed in
  let name := match p_name p with
              | Some s => if is_empty (trim s) then String.append "Dragnet: " (if is_empty host then seed else host) else s
              | None => String.append "Dragnet: " (if is_empty host then seed else host)
              end in
  mkNewJob name seed (Some (json_to_string (JArr (JStr <$> p_include_paths p)))) (Some (json_to_string (JArr (JStr <$> p_exclude_paths p))))
    (Some (clamp 0 20 (p_max_depth p))) (Some (b2z (p_same_domain p))) (Some (b2z (p_allow_subdomains p))) (Some extract_mode)
    (json_to_string <$> p_extract_schema p)
    (match p_content p with Some v => if is_null v then None else Some (json_to_string v) | None => None end)
    (p_persona_id p) (Some (b2z (p_respect_robots p))) (Some (clamp 0 60000 (p_delay_ms p)))
    (Some (clamp 1 32 (p_max_concurrent p))) (Some (clamp 1 50000 (p_page_budget p))) (p_concierge_session_id p).

End run.

(** ** Invariant *)

Section invariant.
Context `{CrawlHost}.

Lemma manager_ok_change (cfg : CrawlConfig) (gone gone' : list FrontierItem) (m m' : Manager) :
  gone' ++ frontier m' ≡ₚ gone ++ frontier m -> visited m' = visited m -> by_origin m' = by_origin m ->
  (exists new, mlog m' = new ++ mlog m) -> discovered (counters m') = discovered (counters m) ->
  manager_ok cfg gone m -> manager_ok cfg gone' m'.
Proof.
  intros Hp Hv Ho [new Hl] Hc [O1 O2 O3 O4 O5].
  assert (Ha : forall i, admissible cfg m i -> admissible cfg m' i).
  { intros i (A1 & A2 & A3 & A4 & A5 & A6). split_and!; try done; rewrite ?Ho, ?Hv, ?Hl; try done. apply elem_of_app. by right. }
  split.
  - rewrite Hp. eapply Forall_impl; [exact O1|]. done.
  - by rewrite Hp.
  - by rewrite Hc, O3, Hp.
  - by rewrite Hc.
  - by rewrite Hv.
Qed.

(** What the rows of the pages are. *)
Definition outcome_rows (o : option PageOutcome) : list json := match o with Some (Extracted p) => rows p | _ => [] end.
Definition page_rows (h : list (FrontierItem * option PageOutcome)) : list json := concat (outcome_rows ∘ snd <$> h).
Definition extracted (o : option PageOutcome) : bool := match o with Some (Extracted _) => true | _ => false end.
Definition count_done (h : list (FrontierItem * option PageOutcome)) : Z := Z.of_nat (length (retain (extracted ∘ snd) h)).

Definition pages (r : Run) : list FrontierItem := fst <$> history r.

Record run_ok (cfg : CrawlConfig) (window : nat) (dropped : list FrontierItem) (r : Run) : Prop := {
  run_manager : manager_ok cfg (pages r ++ workers r ++ dropped) (mgr r);
  run_done : done_ (counters (mgr r)) = count_done (history r);
  run_failed : done_ (counters (mgr r)) + failed (counters (mgr r)) = Z.of_nat (length (history r));
  run_dropped : stopping r = false -> dropped = [];
  run_stopped : stopping r = true -> frontier (mgr r) = [];
  run_window : (length (workers r) <= window)%nat;
  run_rows : concat (batches r) ++ buffer r `sublist_of` page_rows (history r);
  run_rows_all : (forall l, statement_fails l = false) -> concat (batches r) ++ buffer r = page_rows (history r);
}.

(** The parts of a run a statement leaves alone. *)
Definition same_run (r r' : Run) : Prop :=
  workers r' = workers r /\ stopping r' = stopping r /\ history r' = history r /\ frontier (mgr r') = frontier (mgr r) /\
  visited (mgr r') = visited (mgr r) /\ by_origin (mgr r') = by_origin (mgr r) /\ counters (mgr r') = counters (mgr r) /\
  exists new, run_log r' = new ++ run_log r.

Lemma same_run_ok (cfg : CrawlConfig) (window : nat) (d : list FrontierItem) (r r' : Run) :
  same_run r r' ->
  concat (batches r') ++ buffer r' `sublist_of` concat (batches r) ++ buffer r ->
  ((forall l, statement_fails l = false) -> concat (batches r') ++ buffer r' = concat (batches r) ++ buffer r) ->
  run_ok cfg window d r -> run_ok cfg window d r'.
Proof.
  intros (W & S & Hh & F & V & O & C & L) Hb Hb' [R1 R2 R3 R4 R5 R6 R7 R8].
  split; unfold pages in *; rewrite ?W, ?S, ?Hh, ?F, ?C; try done.
  - eapply manager_ok_change; [|exact V|exact O|exact L|by rewrite C|exact R1]. by rewrite F.
  - by etrans.
  - intros Hf. by rewrite (Hb' Hf), (R8 Hf).
Qed.

Lemma statement_same (id : Z) (f : gmap Z CrawlJob -> gmap Z CrawlJob) (r : Run) :
  same_run r (snd (statement id f r)) /\ batches (snd (statement id f r)) = batches r /\ buffer (snd (statement id f r)) = buffer r /\
  fst (statement id f r) = negb (statement_fails (run_log r)).
Proof. split_and!; try done. split_and!; try done. by exists [Statement]. Qed.

Lemma statement_ok (cfg : CrawlConfig) (window : nat) (d : list FrontierItem) (id : Z) (f : gmap Z CrawlJob -> gmap Z CrawlJob) (r : Run) :
  run_ok cfg window d r -> run_ok cfg window d (snd (statement id f r)).
Proof.
  intros Hr. destruct (statement_same id f r) as (Hs & Eb & Ebuf & _).
  eapply same_run_ok; [exact Hs| | |exact Hr]; by rewrite Eb, Ebuf.
Qed.

Lemma flush_ok (cfg : CrawlConfig) (window : nat) (d : list FrontierItem) (id : Z) (r : Run) :
  run_ok cfg window d r -> run_ok cfg window d (flush id r) /\ buffer (flush id r) = [] /\ same_run r (flush id r).
Proof.
  intros Hr. assert (Hrefl : same_run r r) by (split_and!; try done; by exists []).
  unfold flush. destruct (buffer r) as [|x xs] eqn:Eb; [done|].
  destruct (statement_same id (fun t => t) r) as (Hs & Ebt & Ebuf & Eok).
  destruct (statement id (fun t => t) r) as [ok r1]. cbn [fst snd] in *. split_and!; [|done|exact Hs].
  eapply same_run_ok; [exact Hs| | |exact Hr]; cbn [batches buffer].
  - rewrite app_nil_r, Eb. destruct ok; cbv iota; rewrite Ebt; [|by apply sublist_inserts_r].
    rewrite concat_app. cbn [concat]. by rewrite app_nil_r.
  - intros Hf. rewrite Hf in Eok. subst ok. cbn [negb]. rewrite Ebt, Eb, app_nil_r, concat_app. cbn [concat]. by rewrite app_nil_r.
Qed.

Lemma push_counters_ok (cfg : CrawlConfig) (window : nat) (d : list FrontierItem) (id : Z) (c : Counters) (n : Z) (r : Run) :
  run_ok cfg window d r -> run_ok cfg window d (push_counters id c n r).
Proof. apply statement_ok. Qed.

Lemma poll_cancel_ok (cfg : CrawlConfig) (window : nat) (d : list FrontierItem) (id : Z) (r : Run) :
  run_ok cfg window d r ->
  exists d', run_ok cfg window d' (poll_cancel id r) /\ history (poll_cancel id r) = history r /\ workers (poll_cancel id r) = workers r.
Proof.
  intros Hr. unfold poll_cancel. destruct (stopping r) eqn:Es; [by exists d|].
  set (r0 := mkRun _ _ _ _ _ _ _ _).
  assert (H0 : run_ok cfg window d r0).
  { apply (same_run_ok cfg window d r); [|done|done|exact Hr]. split_and!; try done. by exists []. }
  destruct (cancel_poll r0 mod 4 =? 0); [|by exists d].
  destruct (statement_same id (fun t => t) r0) as ((W & S & Hh & F & V & O & C & L) & Eb & Ebuf & _).
  pose proof (statement_ok cfg window d id (fun t => t) r0 H0) as H1.
  destruct (statement id (fun t => t) r0) as [ok r1]. cbn [fst snd] in *.
  destruct (ok && is_cancel_requested (jobs r1) id); [|by exists d].
  exists (d ++ frontier (mgr r1)). split_and!; [|done|done].
  destruct H1 as [R1 R2 R3 R4 R5 R6 R7 R8]. split; try done.
  eapply (manager_ok_change cfg _ _ (mgr r1)); [|done|done|by exists []|done|exact R1].
  cbn [workers mgr frontier set_frontier]. unfold pages. cbn [history]. rewrite app_nil_r. rewrite <-!app_assoc. done.
Qed.

Lemma refill_grows (k : nat) (m : Manager) (ws : list FrontierItem) : (length ws <= length (snd (refill k m ws)))%nat.
Proof.
  revert m ws. induction k as [|k IH]; intros m ws; cbn [refill]; [done|]. destruct (frontier m) as [|j rest]; [done|].
  etrans; [|apply IH]. rewrite length_app. lia.
Qed.

Lemma refill_spec (cfg : CrawlConfig) (h d : list FrontierItem) (k : nat) (m : Manager) (ws : list FrontierItem) :
  manager_ok cfg (h ++ ws ++ d) m ->
  let '(m', ws') := refill k m ws in
  manager_ok cfg (h ++ ws' ++ d) m' /\ counters m' = counters m /\ (length ws' <= length ws + k)%nat /\
  ((0 < k)%nat -> ws' = [] -> frontier m' = []).
Proof.
  revert m ws. induction k as [|k IH]; intros m ws Hm; cbn [refill]; [split_and!; [done|done|lia|lia]|].
  destruct (frontier m) as [|i rest] eqn:Ef; [split_and!; try done; lia|].
  set (m1 := set_log _ _). specialize (IH m1 (ws ++ [i])).
  destruct (refill k m1 (ws ++ [i])) as [m' ws'] eqn:E.
  destruct IH as (I1 & I2 & I3 & I4).
  { eapply (manager_ok_change cfg _ _ m); [|done|done|by exists [Spawned i]|done|exact Hm].
    cbn. rewrite Ef, <-!app_assoc. cbn [app]. do 2 f_equiv. by rewrite Permutation_middle. }
  rewrite length_app in I3. simpl in I3. split_and!; [done|done|lia|]. intros _ ->. exfalso.
  pose proof (refill_grows k m1 (ws ++ [i])) as Hlen. rewrite E, length_app in Hlen. simpl in Hlen. lia.
Qed.

Lemma refill_workers_ok (cfg : CrawlConfig) (window : nat) (d : list FrontierItem) (r : Run) :
  run_ok cfg window d r -> (0 < window)%nat ->
  run_ok cfg window d (refill_workers window r) /\ history (refill_workers window r) = history r /\
  stopping (refill_workers window r) = stopping r /\
  (workers (refill_workers window r) = [] -> frontier (mgr (refill_workers window r)) = []).
Proof.
  intros Hr Hw. unfold refill_workers. destruct (stopping r) eqn:Es.
  { split_and!; [done|done|done|]. intros _. by eapply run_stopped. }
  pose proof Hr as [R1 R2 R3 R4 R5 R6 R7 R8].
  pose proof (refill_spec cfg (pages r) d (window - length (workers r)) (mgr r) (workers r) R1) as Hf.
  destruct (refill _ _ _) as [m' ws'] eqn:Ef. destruct Hf as (F1 & F2 & F3 & F4). cbn [workers mgr history stopping].
  split_and!; [|done|done|].
  - split; cbn; rewrite ?F2; try done; [auto|]. lia.
  - intros ->. apply F4; [|done].
    pose proof (refill_grows (window - length (workers r)) (mgr r) (workers r)) as Hlen. rewrite Ef in Hlen. simpl in Hlen. lia.
Qed.

Lemma page_rows_snoc (h : list (FrontierItem * option PageOutcome)) (i : FrontierItem) (o : option PageOutcome) :
  page_rows (h ++ [(i, o)]) = page_rows h ++ outcome_rows o.
Proof. unfold page_rows. rewrite fmap_app, concat_app. cbn. by rewrite app_nil_r. Qed.

Lemma count_done_snoc (h : list (FrontierItem * option PageOutcome)) (i : FrontierItem) (o : option PageOutcome) :
  count_done (h ++ [(i, o)]) = count_done h + (if extracted o then 1 else 0).
Proof.
  unfold count_done. rewrite retain_app, retain_cons, length_app. cbn [compose snd]. destruct (extracted o); simpl; lia.
Qed.

Lemma delete_perm (l : list FrontierItem) (k : nat) (x : FrontierItem) : l !! k = Some x -> l ≡ₚ x :: base.delete k l.
Proof. intros Hk. by apply delete_Permutation. Qed.

Lemma settled_perm (h ws d f : list FrontierItem) (k : nat) (x : FrontierItem) :
  ws !! k = Some x -> ((h ++ [x]) ++ base.delete k ws ++ d) ++ f ≡ₚ (h ++ ws ++ d) ++ f.
Proof.
  intros Hk. f_equiv. rewrite <-app_assoc. f_equiv. cbn [app]. rewrite app_comm_cons. f_equiv. symmetry. by apply delete_perm.
Qed.

(** One page leaves the workers for the history. *)
Lemma settle_ok (cfg : CrawlConfig) (window : nat) (d : list FrontierItem) (r r' : Run) (k : nat) (item : FrontierItem) (o : option PageOutcome) :
  run_ok cfg window d r -> workers r !! k = Some item ->
  workers r' = base.delete k (workers r) -> stopping r' = stopping r -> history r' = history r ++ [(item, o)] ->
  frontier (mgr r') = frontier (mgr r) -> visited (mgr r') = visited (mgr r) -> by_origin (mgr r') = by_origin (mgr r) ->
  (exists new, run_log r' = new ++ run_log r) ->
  counters (mgr r') = (if extracted o then done_one else fail_one) (counters (mgr r)) ->
  batches r' = batches r -> buffer r' = buffer r ++ outcome_rows o -> run_ok cfg window d r'.
Proof.
  intros [R1 R2 R3 R4 R5 R6 R7 R8] Hk W S Hh F V O L C Bt Bf.
  split; unfold pages in *; rewrite ?S, ?F; try done.
  - eapply manager_ok_change; [|exact V|exact O|exact L| |exact R1].
    + rewrite W, Hh, F, fmap_app. by apply settled_perm.
    + rewrite C. by destruct (extracted o).
  - rewrite C, Hh, count_done_snoc, <-R2. destruct (extracted o); cbn; lia.
  - rewrite C, Hh, length_app. simpl. destruct (extracted o); cbn; lia.
  - rewrite W, length_delete by (by exists item). lia.
  - rewrite Bt, Bf, Hh, page_rows_snoc, app_assoc. by apply sublist_app.
  - intros Hf. by rewrite Bt, Bf, Hh, page_rows_snoc, app_assoc, (R8 Hf).
Qed.

Lemma admit_all_run_ok (cfg : CrawlConfig) (window : nat) (d : list FrontierItem) (r : Run) (urls : list string) (depth : Z) :
  run_ok cfg window d r -> stopping r = false -> run_ok cfg window d (with_mgr (admit_all cfg urls depth (mgr r)) r).
Proof.
  intros [R1 R2 R3 R4 R5 R6 R7 R8] Hs.
  destruct (admit_all_ok cfg _ urls depth (mgr r) R1) as [A1 (_ & _ & _ & A2 & A3 & _)].
  split; cbn; rewrite ?A2, ?A3; try done. congruence.
Qed.

Lemma join_one_ok (cfg : CrawlConfig) (window : nat) (d : list FrontierItem) (id : Z) (r : Run) :
  run_ok cfg window d r -> workers r <> [] ->
  run_ok cfg window d (join_one cfg id r) /\ length (history (join_one cfg id r)) = S (length (history r)).
Proof.
  intros Hr Hne. unfold join_one. cbv zeta. set (k := (_ mod _)%nat).
  assert (Hk : is_Some (workers r !! k)).
  { apply lookup_lt_is_Some. apply Nat.mod_upper_bound. by destruct (workers r). }
  destruct Hk as [item Hk]. rewrite Hk.
  destruct (panics (run_log r)).
  { split.
    - apply push_counters_ok. eapply (settle_ok cfg window d r _ k item None Hr Hk); try done; [by eexists [_]|by rewrite app_nil_r].
    - cbn. rewrite length_app. simpl. lia. }
  set (l0 := run_log _). destruct (fetch_resolve_adds engine_browser cfg item l0) as (new & El & _ & _).
  destruct (fetch_resolve_result engine_browser cfg item l0) as (_ & _ & _ & Eu & _ & _).
  destruct (fetch_resolve engine_browser cfg item l0) as [out l]. cbn [fst snd] in *.
  set (r2 := absorb _ _ _).
  assert (H2 : run_ok cfg window d r2 /\ length (history r2) = S (length (history r))).
  { unfold r2, absorb. destruct (r_outcome out) as [p|t b|b|reason] eqn:Eo.
    2-4: split; [eapply (settle_ok cfg window d r _ k item (Some (r_outcome out)) Hr Hk); rewrite ?Eo; try done;
           [exists (new ++ [Joined item]); cbn; by rewrite El, <-app_assoc|cbn; by rewrite app_nil_r]
         |cbn; rewrite length_app; simpl; lia].
    set (r1 := mkRun _ _ _ _ _ _ _ _).
    assert (H1 : run_ok cfg window d r1).
    { eapply (settle_ok cfg window d r _ k item (Some (r_outcome out)) Hr Hk); rewrite ?Eo; try done.
      exists (new ++ [Joined item]). cbn. by rewrite El, <-app_assoc. }
    split.
    - destruct (stopping r1) eqn:Es; [done|]. by apply admit_all_run_ok.
    - transitivity (length (history r1)); [by destruct (stopping r1)|]. cbn. rewrite length_app. simpl. lia. }
  destruct H2 as [H2 Hlen]. destruct (FLUSH_BATCH <=? length (buffer r2))%nat.
  - destruct (flush_ok cfg window d id r2 H2) as (H3 & _ & (_ & _ & Hh & _)). split; [by apply push_counters_ok|].
    cbn. by rewrite Hh.
  - split; [by apply push_counters_ok|done].
Qed.

Lemma turn_spec (cfg : CrawlConfig) (id : Z) (window : nat) (d : list FrontierItem) (r : Run) :
  run_ok cfg window d r -> (0 < window)%nat ->
  let '(r', over) := turn cfg id window r in
  (exists d', run_ok cfg window d' r') /\
  (if over then workers r' = [] /\ frontier (mgr r') = [] /\ history r' = history r
   else length (history r') = S (length (history r))).
Proof.
  intros Hr Hw. unfold turn. destruct (poll_cancel_ok cfg window d id r Hr) as (d1 & H1 & Eh & _).
  destruct (refill_workers_ok cfg window d1 _ H1 Hw) as (H2 & Eh2 & _ & Hf). cbv zeta.
  destruct (workers (refill_workers window (poll_cancel id r))) as [|w ws] eqn:Ew.
  - split; [by exists d1|]. split_and!; [done|by apply Hf|congruence].
  - destruct (join_one_ok cfg window d1 id _ H2) as [H3 Hl]; [by rewrite Ew|]. split; [by exists d1|]. congruence.
Qed.

Lemma run_budget (cfg : CrawlConfig) (window : nat) (d : list FrontierItem) (r : Run) :
  run_ok cfg window d r -> Z.of_nat (length (history r)) <= Z.max 0 (page_budget cfg).
Proof.
  intros [[_ _ O3 O4 _] _ _ _ _ _ _ _]. rewrite O3 in O4. rewrite !length_app in O4. unfold pages in O4. rewrite length_fmap in O4. lia.
Qed.

Lemma crawl_loop_spec (cfg : CrawlConfig) (id : Z) (window fuel : nat) (d : list FrontierItem) (r : Run) :
  run_ok cfg window d r -> (0 < window)%nat ->
  (Z.to_nat (Z.max 0 (page_budget cfg)) - length (history r) < fuel)%nat ->
  exists r' d', crawl_loop fuel cfg id window r = Some r' /\ run_ok cfg window d' r' /\ workers r' = [] /\ frontier (mgr r') = [].
Proof.
  revert d r. induction fuel as [|fuel IH]; intros d r Hr Hw Hfuel; [lia|]. cbn [crawl_loop].
  pose proof (turn_spec cfg id window d r Hr Hw) as Ht. destruct (turn cfg id window r) as [r1 over].
  destruct Ht as ((d1 & H1) & Ht). destruct over.
  - destruct Ht as (Hw1 & Hf1 & _). by exists r1, d1.
  - apply (IH d1); [done|done|]. pose proof (run_budget cfg window d1 r1 H1). lia.
Qed.

Lemma crawl_loop_sound (cfg : CrawlConfig) (id : Z) (window fuel : nat) (d : list FrontierItem) (r r' : Run) :
  run_ok cfg window d r -> (0 < window)%nat -> crawl_loop fuel cfg id window r = Some r' ->
  exists d', run_ok cfg window d' r' /\ workers r' = [] /\ frontier (mgr r') = [].
Proof.
  revert d r. induction fuel as [|fuel IH]; intros d r Hr Hw; [done|]. cbn [crawl_loop].
  pose proof (turn_spec cfg id window d r Hr Hw) as Ht. destruct (turn cfg id window r) as [r1 over].
  destruct Ht as ((d1 & H1) & Ht). destruct over; [|by apply (IH d1)].
  intros [= <-]. destruct Ht as (Hw1 & Hf1 & _). by exists d1.
Qed.

End invariant.

(** ** A whole run *)

Section whole.
Context `{CrawlHost}.

Lemma run_init_ok (cfg : CrawlConfig) (window : nat) (t : gmap Z CrawlJob) (l : list Event) : run_ok cfg window [] (run_init t l).
Proof.
  split; try done; [|simpl; lia].
  eapply (manager_ok_change cfg [] _ manager_new); try done; [by exists l; rewrite app_nil_r|apply manager_new_ok].
Qed.

Lemma seed_frontier_ok (cfg : CrawlConfig) (window : nat) (d : list FrontierItem) (seed : string) (r : Run) :
  run_ok cfg window d r -> stopping r = false ->
  run_ok cfg window d (seed_frontier cfg seed r) /\ stopping (seed_frontier cfg seed r) = false /\ history (seed_frontier cfg seed r) = history r.
Proof.
  intros Hr Hs. unfold seed_frontier.
  pose proof (discover_sitemap_seg seed (mlog (admit_url cfg seed 0 (mgr r)))) as (new & El & _ & _).
  destruct (discover_sitemap_urls seed _) as [urls l]. cbn [snd] in El. subst l.
  split_and!; [|done|done].
  set (m1 := set_log _ _).
  assert (H1 : run_ok cfg window d (with_mgr m1 r)).
  { destruct Hr as [R1 R2 R3 R4 R5 R6 R7 R8]. pose proof (admit_extends cfg seed 0 (mgr r)) as (_ & _ & _ & A2 & A3 & _).
    split; cbn; rewrite ?A2, ?A3; try done; [|congruence].
    eapply (manager_ok_change cfg _ _ (admit_url cfg seed 0 (mgr r))); [done|done|done|by exists new|done|by apply admit_ok]. }
  exact (admit_all_run_ok cfg window d (with_mgr m1 r) _ 0 H1 Hs).
Qed.

Lemma conclude_ok (cfg : CrawlConfig) (window : nat) (d : list FrontierItem) (id : Z) (r : Run) :
  run_ok cfg window d r ->
  let '(e, r') := conclude id r in
  run_ok cfg window d r' /\ same_run r r' /\ buffer r' = [] /\
  e = (if stopping r then Finished "cancelled" false else Finished "completed" true).
Proof.
  intros Hr. unfold conclude. destruct (flush_ok cfg window d id r Hr) as (H1 & Eb & S1).
  unfold finalize_row. set (f := fun t : gmap Z CrawlJob => _). set (r1 := flush id r) in *.
  destruct (statement_same id f r1) as (S2 & _ & Eb2 & _). pose proof (statement_ok cfg window d id f r1 H1) as H2.
  destruct (statement id f r1) as [ok r2]. cbn [fst snd] in *.
  assert (Hst : stopping r1 = stopping r) by (by destruct S1 as (_ & ? & _)).
  assert (Htr : forall a b c, same_run a b -> same_run b c -> same_run a c).
  { intros a b c (?&?&?&?&?&?&?&n1&L1) (?&?&?&?&?&?&?&n2&L2). split_and!; try congruence.
    exists (n2 ++ n1). by rewrite L2, L1, app_assoc. }
  assert (He : Finished (if stopping r1 then "cancelled" else "completed") (str_eqb (if stopping r1 then "cancelled" else "completed") "completed")
               = (if stopping r then Finished "cancelled" false else Finished "completed" true)).
  { rewrite Hst. by destruct (stopping r). }
  destruct ok.
  - destruct (statement_same id (fun t => t) r2) as (S3 & _ & Eb3 & _).
    pose proof (statement_ok cfg window d id (fun t => t) r2 H2) as H3. destruct (statement id _ r2) as [ok3 r3]. cbn [fst snd] in *.
    split_and!; [done|eauto|congruence|done].
  - split_and!; [done|eauto|congruence|done].
Qed.

(** The state a run ends in. *)
Definition ended (cfg : CrawlConfig) (e : Ending) (r : Run) : Prop :=
  exists window d, run_ok cfg window d r /\ workers r = [] /\
  match e with
  | Finished s fires => frontier (mgr r) = [] /\ buffer r = [] /\ fires = str_eqb s "completed" /\
                        (s = "completed" /\ d = [] \/ s = "cancelled")
  | _ => history r = []
  end.

Lemma set_row_status_ok (cfg : CrawlConfig) (window : nat) (d : list FrontierItem) (id : Z) (s : string) (r : Run) :
  run_ok cfg window d r -> run_ok cfg window d (snd (set_row_status id s r)) /\ same_run r (snd (set_row_status id s r)).
Proof. intros Hr. split; [by apply statement_ok|by apply statement_same]. Qed.

Lemma crawl_with_spec (fuel : nat) (cfg : CrawlConfig) (id : Z) (c : CrawlJob) (r : Run) :
  let window := Z.to_nat (Z.max 1 (max_concurrent c)) in
  run_ok cfg window [] r -> stopping r = false -> history r = [] -> workers r = [] ->
  (Z.max 0 (page_budget cfg) < Z.of_nat fuel -> is_Some (crawl_with fuel cfg id c r)) /\
  (forall e r', crawl_with fuel cfg id c r = Some (e, r') -> ended cfg e r').
Proof.
  intros window Hr Hs Hh Hwk. unfold crawl_with. fold window.
  destruct (set_row_status_ok cfg window [] id "mapping" r Hr) as [H1 (W1 & S1 & Hh1 & _)].
  destruct (set_row_status id "mapping" r) as [ok r1]. cbn [fst snd] in *.
  destruct ok; cbn [negb].
  2:{ split; [done|]. intros e r' [= <- <-]. exists window, []. split_and!; congruence || done. }
  destruct (seed_frontier_ok cfg window [] (seed_url c) r1 H1 ltac:(congruence)) as (H2 & S2 & Hh2).
  assert (W2 : workers (seed_frontier cfg (seed_url c) r1) = []).
  { unfold seed_frontier. destruct (discover_sitemap_urls _ _). cbn. congruence. }
  set (r2 := seed_frontier _ _ _) in *.
  destruct (set_row_status_ok cfg window [] id "crawling" r2 H2) as [H3 (W3 & S3 & Hh3 & _)].
  destruct (set_row_status id "crawling" r2) as [ok r3]. cbn [fst snd] in *.
  destruct ok; cbn [negb].
  2:{ split; [done|]. intros e r' [= <- <-]. exists window, []. split_and!; congruence || done. }
  set (r4 := push_counters _ _ _ _). assert (H4 : run_ok cfg window [] r4) by (by apply push_counters_ok).
  assert (Hh4 : history r4 = []) by (cbn; congruence).
  assert (Hw : (0 < window)%nat) by (unfold window; lia).
  split.
  - intros Hf. destruct (crawl_loop_spec cfg id window fuel [] r4 H4 Hw) as (r5 & d5 & -> & _).
    { rewrite Hh4. cbn [length]. lia. }
    by eexists.
  - intros e r' E. apply fmap_Some in E as (r5 & E5 & E).
    destruct (crawl_loop_sound cfg id window fuel [] r4 r5 H4 Hw E5) as (d5 & H5 & W5 & F5).
    pose proof (conclude_ok cfg window d5 id r5 H5) as Hc. rewrite <-E in Hc.
    destruct Hc as (H6 & (W6 & S6 & _ & F6 & _) & B6 & Ee). exists window, d5. split_and!; [done|congruence|].
    destruct (stopping r5) eqn:Es; subst e; split_and!; try congruence; try done; [by right|].
    left. split; [done|]. by apply (run_dropped _ _ _ _ H5).
Qed.

End whole.

(** ** The row of a run *)

Section row.
Context `{CrawlHost}.

Definition live_row (id : Z) (t : gmap Z CrawlJob) : Prop := exists c, t !! id = Some c /\ is_terminal c = false.

Lemma update_live (id : Z) (guard : CrawlJob -> bool) (f : CrawlJob -> CrawlJob) (t : gmap Z CrawlJob) :
  (forall c, is_terminal c = false -> is_terminal (f c) = false) -> live_row id t -> live_row id (fst (update_where guard f t id)).
Proof.
  intros Hf (c & Hc & Ht). exists (if guard c then f c else c). split; [by apply update_lookup_eq|]. destruct (guard c); auto.
Qed.

Lemma cancel_live (id : Z) (now : string) (t : gmap Z CrawlJob) : live_row id t -> live_row id (fst (request_cancel t id now)).
Proof.
  apply update_live. intros c Hc. unfold is_terminal in *. cbn [j_status with_status]. by destruct (live_status (j_status c)).
Qed.

Lemma statement_live (id : Z) (f : gmap Z CrawlJob -> gmap Z CrawlJob) (r : Run) :
  (forall t, live_row id t -> live_row id (f t)) -> live_row id (jobs r) -> live_row id (jobs (snd (statement id f r))).
Proof.
  intros Hf Hr. unfold statement. cbn [snd jobs].
  assert (Hc : live_row id (if cancel_lands (run_log r) then fst (request_cancel (jobs r) id (now_iso (run_log r))) else jobs r)).
  { destruct (cancel_lands _); [by apply cancel_live|done]. }
  destruct (negb _); auto.
Qed.

Lemma push_counters_live (id : Z) (c : Counters) (n : Z) (r : Run) : live_row id (jobs r) -> live_row id (jobs (push_counters id c n r)).
Proof. apply statement_live. intros t. by apply update_live. Qed.

Lemma flush_live (id : Z) (r : Run) : live_row id (jobs r) -> live_row id (jobs (flush id r)).
Proof.
  intros Hr. unfold flush. destruct (buffer r); [done|].
  pose proof (statement_live id (fun t => t) r (fun t Ht => Ht) Hr) as H1. by destruct (statement id _ r).
Qed.

Lemma join_one_live (cfg : CrawlConfig) (id : Z) (r : Run) : live_row id (jobs r) -> live_row id (jobs (join_one cfg id r)).
Proof.
  intros Hr. unfold join_one. cbv zeta. destruct (workers r !! _) as [item|]; [|done].
  destruct (panics _); [by apply push_counters_live|].
  destruct (fetch_resolve _ _ _ _) as [out l]. apply push_counters_live.
  match goal with |- context [absorb cfg out ?r0] => set (r1 := absorb cfg out r0) end.
  assert (H1 : live_row id (jobs r1)).
  { unfold r1, absorb. destruct (r_outcome out); try done. cbv zeta. by destruct (stopping _). }
  destruct (FLUSH_BATCH <=? _)%nat; [by apply flush_live|done].
Qed.

Lemma turn_live (cfg : CrawlConfig) (id : Z) (window : nat) (r : Run) : live_row id (jobs r) -> live_row id (jobs (fst (turn cfg id window r))).
Proof.
  intros Hr. unfold turn. cbv zeta. set (r1 := poll_cancel id r).
  assert (H1 : live_row id (jobs r1)).
  { unfold r1, poll_cancel. destruct (stopping r); [done|]. cbv zeta. destruct (_ mod 4 =? 0); [|done].
    match goal with |- context [statement id ?f ?r0] => pose proof (statement_live id f r0 (fun t Ht => Ht) Hr) as H0; destruct (statement id f r0) as [ok r2] end.
    cbn [snd] in H0. by destruct (ok && _). }
  assert (H2 : live_row id (jobs (refill_workers window r1))).
  { unfold refill_workers. destruct (stopping r1); [done|]. by destruct (refill _ _ _). }
  destruct (workers (refill_workers window r1)); [done|]. by apply join_one_live.
Qed.

Lemma crawl_loop_live (fuel : nat) (cfg : CrawlConfig) (id : Z) (window : nat) (r r' : Run) :
  live_row id (jobs r) -> crawl_loop fuel cfg id window r = Some r' -> live_row id (jobs r').
Proof.
  revert r. induction fuel as [|fuel IH]; intros r Hr; cbn [crawl_loop]; [done|].
  pose proof (turn_live cfg id window r Hr) as Ht. destruct (turn cfg id window r) as [r1 over]. cbn [fst] in Ht.
  destruct over; [by intros [= <-]|by apply IH].
Qed.

(** A row with the outcome [s] and the error [e]. *)
Definition settled (id : Z) (s : string) (e : option string) (t : gmap Z CrawlJob) : Prop :=
  exists c, t !! id = Some c /\ is_terminal c = true /\ j_status c = s /\ j_error c = e.

Lemma finalize_row_settles (id : Z) (s : string) (e : option string) (r : Run) :
  (forall l, statement_fails l = false) -> terminal_status s = true -> live_row id (jobs r) ->
  fst (finalize_row id s e r) = true /\ settled id s e (jobs (snd (finalize_row id s e r))).
Proof.
  intros Hnf Hs Hr. unfold finalize_row, statement. rewrite !Hnf. cbn [negb fst snd jobs]. split; [done|].
  set (t0 := if cancel_lands (run_log r) then _ else _).
  assert (Ht0 : live_row id t0) by (unfold t0; destruct (cancel_lands _); [by apply cancel_live|done]).
  clearbody t0. destruct Ht0 as (c & Hc & Hterm).
  assert (Hset : settled id s e (fst (finalize t0 id (now_iso (run_log r)) s e))).
  { unfold finalize. cbn [fst]. eexists. split; [by apply update_lookup_eq|]. rewrite Hterm. cbn [negb]. done. }
  match goal with |- settled _ _ _ (if ?b then _ else _) => destruct b end; [|exact Hset]. destruct Hset as (c1 & Hc1 & Ht1 & ? & ?). exists c1. split; [|done].
  unfold request_cancel, update_where. by rewrite Hc1, Ht1.
Qed.

Lemma seed_frontier_jobs (cfg : CrawlConfig) (seed : string) (r : Run) : jobs (seed_frontier cfg seed r) = jobs r.
Proof. unfold seed_frontier. by destruct (discover_sitemap_urls _ _). Qed.

Lemma set_row_status_live (id : Z) (s : string) (r : Run) :
  terminal_status s = false -> live_row id (jobs r) -> live_row id (jobs (snd (set_row_status id s r))).
Proof. intros Hs. apply statement_live. intros t. by apply update_live. Qed.

Lemma crawl_with_settles (fuel : nat) (cfg : CrawlConfig) (id : Z) (c : CrawlJob) (r r' : Run) (e : Ending) :
  (forall l, statement_fails l = false) -> live_row id (jobs r) -> crawl_with fuel cfg id c r = Some (e, r') ->
  exists s, e = Finished s (str_eqb s "completed") /\ settled id s None (jobs r').
Proof.
  intros Hnf Hr. unfold crawl_with.
  pose proof (set_row_status_live id "mapping" r eq_refl Hr) as H1.
  assert (E1 : fst (set_row_status id "mapping" r) = true) by (cbn; by rewrite Hnf).
  destruct (set_row_status id "mapping" r) as [ok r1]. cbn [fst snd] in *. subst ok. cbn [negb].
  rewrite <-(seed_frontier_jobs cfg (seed_url c)) in H1. set (r2 := seed_frontier _ _ _) in *.
  pose proof (set_row_status_live id "crawling" r2 eq_refl H1) as H3.
  assert (E3 : fst (set_row_status id "crawling" r2) = true) by (cbn; by rewrite Hnf).
  destruct (set_row_status id "crawling" r2) as [ok r3]. cbn [fst snd] in *. subst ok. cbn [negb].
  intros E. apply fmap_Some in E as (r5 & E5 & E). apply crawl_loop_live in E5; [|by apply push_counters_live].
  unfold conclude in E. apply (flush_live id) in E5.
  set (s := if stopping (flush id r5) then "cancelled" else "completed") in *.
  assert (Hs : terminal_status s = true) by (unfold s; by destruct (stopping _)).
  destruct (finalize_row_settles id s None _ Hnf Hs E5) as [_ Hset].
  destruct (finalize_row id s None (flush id r5)) as [ok r6]. cbn [snd] in Hset. injection E as -> ->. by exists s.
Qed.

(** The row a run reads, after a cancel that may have landed. *)
Lemma read_row (id : Z) (t : gmap Z CrawlJob) (l : list Event) (c : CrawlJob) :
  jobs (snd (statement id (fun t => t) (run_init t l))) !! id = Some c ->
  exists c0, t !! id = Some c0 /\ j_page_budget c = j_page_budget c0 /\ is_terminal c = is_terminal c0 /\
             workflow_id c = workflow_id c0 /\ persona_id c = persona_id c0 /\ seed_url c = seed_url c0.
Proof.
  unfold statement. cbn [snd jobs run_init run_log mgr].
  match goal with |- context [if cancel_lands ?x then _ else _] => destruct (cancel_lands x) end; cbn [negb];
    destruct (negb _); intros E; try (by exists c).
  all: unfold request_cancel, update_where in E; destruct (t !! id) as [c0|] eqn:Ec; [|simpl in E; congruence];
    exists c0; split; [done|]; destruct (is_terminal c0) eqn:Et; cbn [negb fst] in E;
    [rewrite Ec in E; by simplify_eq|]; rewrite lookup_insert_eq in E; simplify_eq; split_and!; try done;
    unfold is_terminal in *; cbn [j_status with_status]; by destruct (live_status (j_status c0)).
Qed.

Lemma row_read (id : Z) (t : gmap Z CrawlJob) (l : list Event) (c0 : CrawlJob) :
  t !! id = Some c0 -> exists c, jobs (snd (statement id (fun t => t) (run_init t l))) !! id = Some c.
Proof.
  intros Hc. unfold statement. cbn [snd jobs run_init].
  destruct (cancel_lands _), (negb _); eauto; unfold request_cancel; eexists; by apply update_lookup_eq.
Qed.

End row.

(** ** Theorems *)

Section theorems.
Context `{CrawlHost}.

(** C40: a crawl ends, whatever the network, the workers, the database and other handlers do: the page budget of the row and one
    iteration more suffice. When it has run its course no page is in flight or queued, its rows have left the buffer, and
    the lifecycle automations fire exactly on completion; otherwise it fetched nothing. *)
Theorem crawl_terminates (fuel : nat) (id : Z) (t : gmap Z CrawlJob) (l : list Event)
    (Hb : forall c, t !! id = Some c -> Z.max 0 (j_page_budget c) < Z.of_nat fuel) :
  exists e r, crawl_task fuel id (run_init t l) = Some (e, r) /\ workers r = [] /\
    match e with
    | Finished s fires => frontier (mgr r) = [] /\ buffer r = [] /\ (s = "completed" \/ s = "cancelled") /\ fires = str_eqb s "completed"
    | _ => history r = []
    end.
Proof.
  unfold crawl_task, run_crawl.
  pose proof (read_row id t l) as Hread. pose proof (statement_same id (fun t => t) (run_init t l)) as ((W & S & Hh & _) & _ & _ & _).
  assert (Hok : forall cfg w, run_ok cfg w [] (snd (statement id (fun t => t) (run_init t l)))) by (intros; apply statement_ok, run_init_ok).
  destruct (statement id (fun t => t) (run_init t l)) as [ok r]. cbn [fst snd] in *.
  assert (Herr : forall s e r0, workers r0 = [] -> history r0 = [] ->
            workers (snd (finalize_row id s e r0)) = [] /\ history (snd (finalize_row id s e r0)) = []).
  { intros s e r0 Ew Eh. unfold finalize_row. unfold statement. destruct (negb _); done. }
  destruct ok; cbn [negb]; [|do 2 eexists; by destruct (Herr "failed" (Some "") r W Hh)].
  unfold get_by_id. destruct (jobs r !! id) as [c|] eqn:Ec; [|by do 2 eexists].
  destruct (is_terminal c); [by do 2 eexists|].
  destruct (workflow_id c); [|do 2 eexists; by destruct (Herr "failed" (Some "") r W Hh)].
  destruct (match persona_id c with Some _ => _ | None => _ end) as [a|msg].
  - set (cfg := build_config c engine_browser a). destruct (Hread c eq_refl) as (c0 & Hc0 & Hbud & _).
    destruct (crawl_with_spec fuel cfg id c r (Hok _ _) S Hh W) as [Hterm Hsound].
    destruct Hterm as [[e r'] E].
    { unfold cfg. cbn [page_budget build_config]. rewrite Hbud. by apply Hb. }
    rewrite E. destruct (Hsound e r' E) as (w & d & _ & W' & He).
    destruct e as [|msg| |s fires]; try (by do 2 eexists).
    + do 2 eexists. by destruct (Herr "failed" (Some "") r' W' He).
    + do 2 eexists. split; [done|]. destruct He as (? & ? & ? & [[? _]|?]); split_and!; auto.
  - destruct (Herr "failed" (Some msg) r W Hh) as [Ew Eh].
    destruct (finalize_row id "failed" (Some msg) r) as [ok r1]. cbn [snd] in *. destruct ok; [by do 2 eexists|].
    do 2 eexists. by destruct (Herr "failed" (Some "") r1 Ew Eh).
Qed.

(** C11: every page a crawl fetches was admitted: its URL is http(s), in the crawl's domain scope, passes the path filters unless it
    is an entry page, is within the depth, was passed by the URL guard and allowed by the rules read for its origin; no URL is fetched
    twice, the pages never exceed the budget, and the visited set stays under its cap. *)
Theorem crawl_pages_admitted (fuel : nat) (cfg : CrawlConfig) (id : Z) (c : CrawlJob) (t : gmap Z CrawlJob) (l : list Event)
    (e : Ending) (r : Run) (E : crawl_with fuel cfg id c (run_init t l) = Some (e, r)) :
  Forall (admissible cfg (mgr r)) (pages r) /\ NoDup (i_url <$> pages r) /\
  Z.of_nat (length (history r)) <= Z.max 0 (page_budget cfg) /\ Z.of_nat (size (visited (mgr r))) <= VISITED_HARD_CAP.
Proof.
  destruct (crawl_with_spec fuel cfg id c (run_init t l) (run_init_ok _ _ _ _) eq_refl eq_refl eq_refl) as [_ Hs].
  destruct (Hs e r E) as (w & d & Hr & _). pose proof (run_budget _ _ _ _ Hr) as Hb.
  destruct Hr as [[O1 O2 _ _ O5] _ _ _ _ _ _ _]. rewrite <-!app_assoc in O1, O2. apply Forall_app in O1 as [O1 _].
  rewrite fmap_app in O2. apply NoDup_app in O2 as (O2 & _). done.
Qed.

(** the books of a crawl balance: its counters are the extracted and the other pages it heard of, a completed crawl has heard of
    every page it discovered, and the stored batches are the rows of the extracted pages in the order the pages came back; a
    batch can only be missing through a failed statement. *)
Theorem crawl_books_balance (fuel : nat) (cfg : CrawlConfig) (id : Z) (c : CrawlJob) (t : gmap Z CrawlJob) (l : list Event)
    (s : string) (fires : bool) (r : Run) (E : crawl_with fuel cfg id c (run_init t l) = Some (Finished s fires, r)) :
  done_ (counters (mgr r)) = count_done (history r) /\
  done_ (counters (mgr r)) + failed (counters (mgr r)) = Z.of_nat (length (history r)) /\
  (s = "completed" -> discovered (counters (mgr r)) = done_ (counters (mgr r)) + failed (counters (mgr r))) /\
  concat (batches r) `sublist_of` page_rows (history r) /\
  ((forall l, statement_fails l = false) -> concat (batches r) = page_rows (history r)).
Proof.
  destruct (crawl_with_spec fuel cfg id c (run_init t l) (run_init_ok _ _ _ _) eq_refl eq_refl eq_refl) as [_ Hs].
  destruct (Hs _ r E) as (w & d & Hr & Hw & Hf & Hbuf & _ & Hd). destruct Hr as [[_ _ O3 _ _] R2 R3 _ _ _ R7 R8].
  rewrite Hbuf, app_nil_r in R7, R8. split_and!; try done. intros ->. destruct Hd as [[_ ->]|]; [|done].
  rewrite R3, O3, Hw, Hf. unfold pages. by rewrite !app_nil_r, length_fmap.
Qed.

(** a crawl leaves its row settled: if no statement fails, a live row with a workflow ends terminal with the outcome the
    run reports, cancelled when the run saw the request, and failed with the reason when the login identity is refused. *)
Theorem crawl_row_final (fuel : nat) (id : Z) (t : gmap Z CrawlJob) (l : list Event) (c : CrawlJob) (w : Z) (e : Ending) (r : Run)
    (Hnf : forall l, statement_fails l = false) (Hc : t !! id = Some c) (Hlive : is_terminal c = false) (Hw : workflow_id c = Some w)
    (E : crawl_task fuel id (run_init t l) = Some (e, r)) :
  match e with
  | Finished s _ => settled id s None (jobs r)
  | Refused_login msg => settled id "failed" (Some msg) (jobs r)
  | _ => False
  end.
Proof.
  revert E. unfold crawl_task, run_crawl.
  pose proof (read_row id t l) as Hread. destruct (row_read id t l c Hc) as [c1 Hc1].
  assert (E1 : fst (statement id (fun t => t) (run_init t l)) = true) by (cbn; by rewrite Hnf).
  destruct (statement id (fun t => t) (run_init t l)) as [ok r1]. cbn [fst snd] in *. subst ok. cbn [negb].
  destruct (Hread c1 Hc1) as (c0 & Hc0 & _ & Et & Ew & _). simplify_eq. unfold get_by_id. rewrite Hc1, Et, Hlive, Ew, Hw.
  assert (Hlr : live_row id (jobs r1)) by (exists c1; split; congruence).
  destruct (match persona_id c1 with Some _ => _ | None => _ end) as [a|msg].
  - destruct (crawl_with _ _ _ _ _) as [[e1 r2]|] eqn:E2; [|done].
    destruct (crawl_with_settles _ _ _ _ _ _ _ Hnf Hlr E2) as (s & -> & Hset). by intros [= <- <-].
  - destruct (finalize_row_settles id "failed" (Some msg) r1 Hnf eq_refl Hlr) as [Eok Hset].
    destruct (finalize_row id "failed" (Some msg) r1) as [ok r2]. cbn [fst snd] in *. subst ok. by intros [= <- <-].
Qed.

End theorems.

(** ** A sample crawl *)

(** A site of three pages with a robots.txt; the third is disallowed, and page 2 links off the site. *)
Definition sample_pages (u : string) : option Reply :=
  if str_eqb u "https://a.test/robots.txt" then Some (sample_reply 200 u "text/plain" "User-agent: *
Disallow: /private")
  else if ends_with u "sitemap.xml" then None
  else if ends_with u "/gone" then Some (sample_reply 404 u "text/html" "")
  else Some (sample_reply 200 u "text/html" "page").

Definition sample_found (u : string) : list PageLink :=
  if str_eqb u "https://a.test/" then [mkLink "https://a.test/x#top" ""; mkLink "https://a.test/private" ""; mkLink "https://b.test/" ""; mkLink "https://a.test/gone" ""]
  else [mkLink "https://a.test/" ""; mkLink "https://a.test/x" ""].

Definition sample_host (cancel : list Event -> bool) : CrawlHost := {|
  host_net := sample_net sample_pages sample_found;
  statement_fails := fun _ => false;
  cancel_lands := cancel;
  next_joined := fun _ => 0%nat;
  panics := fun _ => false;
  engine_browser := false;
  persona_session := fun _ _ => Err "no session";
|}.

Definition sample_job : CrawlJob :=
  mkJob 1 "c" "https://a.test/" "[]" "[]" 3 1 1 "markdown" None None None 1 0 2 10 (Some 5) None "queued" 0 0 0 0 0 0 None 0 "t" None None None.

Definition never (_ : list Event) : bool := false.

Notation sample_task := (@crawl_task (sample_host never) 11 1 (run_init {[1 := sample_job]} [])).
Notation sample_run :=
  (@crawl_with (sample_host never) 11 (@build_config (sample_host never) sample_job false auth_default) 1 sample_job (run_init {[1 := sample_job]} [])).

(** What the sample crawl fetches and stores: the disallowed page and the page of the other site are not among its pages. *)
Definition completes (o : option (Ending * Run)) : Prop :=
  match o with
  | Some (e, r) => e = Finished "completed" true /\
                   i_url <$> pages r = ["https://a.test/"; "https://a.test/x"; "https://a.test/gone"] /\
                   done_ (counters (mgr r)) = 2 /\ skipped (counters (mgr r)) = 1 /\ length (concat (batches r)) = 2%nat
  | None => False
  end.

Lemma sample_task_completes : completes sample_task.
Proof. by vm_compute. Qed.
Lemma sample_run_completes : completes sample_run.
Proof. by vm_compute. Qed.

Lemma crawl_terminates_witness : exists e r, sample_task = Some (e, r) /\ workers r = [].
Proof.
  destruct (@crawl_terminates (sample_host never) 11 1 {[1 := sample_job]} [] ltac:(intros c Hc; apply lookup_singleton_Some in Hc as [_ <-]; done))
    as (e & r & E & Hw & _).
  exists e, r. split; [exact E|exact Hw].
Defined.

Lemma crawl_pages_admitted_witness :
  match sample_run with Some (_, r) => NoDup (i_url <$> pages r) | None => False end.
Proof.
  pose proof sample_run_completes as Hc. destruct sample_run as [[e r]|] eqn:E; [|exact Hc].
  destruct (@crawl_pages_admitted (sample_host never) _ _ _ _ _ _ _ _ E) as (_ & Hn & _). exact Hn.
Defined.

Lemma crawl_books_balance_witness :
  match sample_run with Some (_, r) => discovered (counters (mgr r)) = 3 /\ concat (batches r) = page_rows (history r) | None => False end.
Proof.
  pose proof sample_run_completes as Hc. destruct sample_run as [[e r]|] eqn:E; [|exact Hc]. destruct Hc as (-> & Hp & Hd & _).
  destruct (@crawl_books_balance (sample_host never) _ _ _ _ _ _ _ _ _ E) as (H1 & H2 & H3 & _ & H5).
  split; [|by apply H5]. rewrite (H3 eq_refl), H2. apply (f_equal length) in Hp. unfold pages in Hp. rewrite !length_fmap in Hp. by rewrite Hp.
Defined.

Lemma crawl_row_final_witness :
  match sample_task with Some (_, r) => settled 1 "completed" None (jobs r) | None => False end.
Proof.
  pose proof sample_task_completes as Hc. destruct sample_task as [[e r]|] eqn:E; [|exact Hc]. destruct Hc as (-> & _).
  exact (@crawl_row_final (sample_host never) 11 1 {[1 := sample_job]} [] sample_job 5 _ r ltac:(done) (lookup_singleton_eq 1 sample_job) ltac:(done) ltac:(done) E).
Defined.

(** A cancel request that lands before the crawl's first statement is accepted ([cancel_requested] is set while the row is live), and
    the crawl still runs to completion: the flag is polled at every fourth iteration only, the second status change covers
    [stopping], and the final update clears the flag. *)
Definition cancel_first (l : list Event) : bool := match l with [] => true | _ => false end.

Definition small_job : CrawlJob :=
  mkJob 1 "c" "https://a.test/" "[]" "[]" 3 1 1 "markdown" None None None 1 0 2 2 (Some 5) None "queued" 0 0 0 0 0 0 None 0 "t" None None None.

Lemma accepted_cancel_is_lost :
  snd (request_cancel {[1 := small_job]} 1 "t") = true /\
  match @crawl_task (sample_host cancel_first) 11 1 (run_init {[1 := small_job]} []) with
  | Some (e, r) => e = Finished "completed" true /\ i_url <$> pages r = ["https://a.test/"; "https://a.test/x"]
  | None => False
  end.
Proof. split; by vm_compute. Qed.
