(* ===== verification/CrawlShard.v ===== *)
(** * crawl_shard/mod.rs: a shard of a coordinator's crawl

    [run_crawl_shard] and the message around it. The state of the loop is [Shard]; as in [CrawlLoop], [history] is the pages the
    loop has heard of and has no counterpart, and so has [handed], the items given back unfetched. [progress] is what was sent into the sink. The
    next finished worker and the panics are the environment's: [ShardHost].
    Then [claim_host_slot] over the process-wide table [HOST_NEXT_SLOT]: times are nanoseconds of the monotonic clock. A claim is one pass
    through the lock; the sleep is outside it, so claims of any number of workers are a sequence. *)

From Stdlib Require Import Ascii String Sorted.
From S2P Require Import Prelude Ints F64 Str Json Robots CrawlNet CrawlFetch.
Open Scope string_scope.
Open Scope list_scope.
Open Scope Z_scope.
Open Scope trace_scope.

Definition SHARD_CONCURRENCY : nat := 6.
Definition SHARD_DISCOVERED_CAP : nat := Z.to_nat 3000.
Definition CONSEC_BLOCK_ABORT : nat := 3.

Record ShardExtract : Type := mkSpec {
  mode : string;
  schema : option json;
  s_delay_ms : Z;
  s_render_mode : string;
  s_ocr_mode : string;
  s_content : option json;
}.

Record ShardProgress : Type := mkProgress { p_done : Z; p_failed : Z; p_total : Z }.

Record Lanes : Type := mkLanes { n_http : Z; n_browser : Z; n_doc : Z; n_ocr : Z }.

Record ShardResult : Type := mkResult {
  engine : string;
  pages : list json;
  failed : list json;
  discovered : list PageLink;
  blocked : list json;
  agent_blocked : bool;
  max_retry_after : Z;
  extracted_data : list json;
  lane_counts : Lanes;
}.

Record Shard : Type := mkShard {
  queue : list FrontierItem;
  workers : list FrontierItem;
  result : ShardResult;
  seen_links : gset string;
  consec_block : nat;
  progress : list ShardProgress;
  slog : list Event;
  history : list (FrontierItem * option ResolvedOut);
  handed : list FrontierItem;
}.

Definition result_new : ShardResult := mkResult "http" [] [] [] [] false 0 [] (mkLanes 0 0 0 0).

Definition shard_new (items : list FrontierItem) (l : list Event) : Shard := mkShard items [] result_new ∅ 0 [] l [] [].

Class ShardHost : Type := {
  shard_net :: CrawlNet;
  shard_next : list Event -> nat;
  shard_panics : list Event -> bool;
  base64_encode : string -> string;
}.

Section shard.
Context `{ShardHost}.

Definition build_shard_config (spec : ShardExtract) (a : CrawlAuth) (browser_available artifact : bool) : CrawlConfig :=
  mkConfig "" "" false true [] [] 0 0 (s_delay_ms spec) false (if str_eqb (mode spec) "schema" then "schema" else "markdown")
    (schema spec) (s_render_mode spec) (s_ocr_mode spec) (s_content spec) browser_available a true artifact.

Definition opt_str (o : option string) : json := match o with Some s => JStr s | None => JNull end.
Definition opt_num (o : option Z) : json := match o with Some z => json_of_Z z | None => JNull end.

(** ** One page *)

Definition insert_some (k : string) (o : option json) (m : jobj) : jobj := match o with Some v => map_insert k v m | None => m end.

Definition page_json (out : ResolvedOut) (p : Page) : json :=
  JObj (insert_some "file" (file p)
       (insert_some "screenshot_b64" ((fun b => JStr (base64_encode b)) <$> screenshot p)
       (insert_some "favicon" (JStr <$> favicon p)
         [("url", JStr (r_url out)); ("status", JStr "ok"); ("title", JStr (title p)); ("depth", json_of_Z (r_depth out));
          ("fetched_at", JStr (fetched_at out)); ("content_kind", JStr (content_kind p))]))).

Definition count_lane (ln : string) (n : Lanes) : Lanes :=
  if str_eqb ln "browser" then mkLanes (n_http n) (n_browser n + 1) (n_doc n) (n_ocr n)
  else if str_eqb ln "doc" then mkLanes (n_http n) (n_browser n) (n_doc n + 1) (n_ocr n)
  else if str_eqb ln "ocr" then mkLanes (n_http n) (n_browser n) (n_doc n) (n_ocr n + 1)
  else mkLanes (n_http n + 1) (n_browser n) (n_doc n) (n_ocr n).

(** The loop over harvested links. *)
Fixpoint harvest (ls : list PageLink) (seen : gset string) (found : list PageLink) : gset string * list PageLink :=
  match ls with
  | [] => (seen, found)
  | l :: ls =>
      if (SHARD_DISCOVERED_CAP <=? length found)%nat then (seen, found)
      else if bool_decide (l_url l ∈ seen) then harvest ls seen found
      else harvest ls ({[l_url l]} ∪ seen) (found ++ [l])
  end.

Definition blocked_json (out : ResolvedOut) (b : BlockInfo) : json :=
  JObj [("url", JStr (r_url out)); ("depth", json_of_Z (r_depth out)); ("status", opt_num (b_status b));
        ("block_kind", JStr (b_kind b)); ("retry_after", opt_num (b_retry_after b))].

Definition refused_json (out : ResolvedOut) (b : BlockInfo) : json :=
  JObj [("url", JStr (r_url out)); ("reason", JStr (String.append "blocked (" (String.append (b_kind b) ")")));
        ("blocked", JBool true); ("block_kind", JStr (b_kind b))].

Definition failed_json (out : ResolvedOut) (reason : string) : json := JObj [("url", JStr (r_url out)); ("reason", JStr reason)].

Definition handed_json (i : FrontierItem) : json :=
  JObj [("url", JStr (i_url i)); ("depth", json_of_Z (i_depth i)); ("status", JNull); ("block_kind", JStr "host_blocked_agent");
        ("retry_after", JNull)].

(** What a resolved page adds to the result, the links seen and the run of refusals. *)
Definition absorb (out : ResolvedOut) (r : ShardResult) (seen : gset string) (consec : nat) : ShardResult * gset string * nat :=
  let eng := if escalated out then "browser" else engine r in
  match r_outcome out with
  | Extracted p =>
      let '(seen, found) := harvest (links p) seen (discovered r) in
      (mkResult eng (pages r ++ [page_json out p]) (failed r) found (blocked r) (agent_blocked r) (max_retry_after r)
         (extracted_data r ++ rows p) (count_lane (lane p) (lane_counts r)), seen, O)
  | Blocked b =>
      let consec := S consec in
      (mkResult eng (pages r) (failed r ++ [refused_json out b]) (discovered r) (blocked r ++ [blocked_json out b])
         (if (CONSEC_BLOCK_ABORT <=? consec)%nat then true else agent_blocked r)
         (match b_retry_after b with Some ra => Z.max (max_retry_after r) ra | None => max_retry_after r end)
         (extracted_data r) (lane_counts r), seen, consec)
  | Failed reason =>
      (mkResult eng (pages r) (failed r ++ [failed_json out reason]) (discovered r) (blocked r) (agent_blocked r)
         (max_retry_after r) (extracted_data r) (lane_counts r), seen, O)
  | NeedsBrowser _ _ =>
      (mkResult eng (pages r) (failed r ++ [failed_json out "no content (browser unavailable)"]) (discovered r) (blocked r)
         (agent_blocked r) (max_retry_after r) (extracted_data r) (lane_counts r), seen, consec)
  end.

(** ** The loop *)

(** The early abort gives every unfetched item back. *)
Definition give_back (s : Shard) : Shard :=
  if agent_blocked (result s) then
    let r := result s in
    mkShard [] (workers s)
      (mkResult (engine r) (pages r) (failed r) (discovered r) (blocked r ++ (handed_json <$> queue s)) (agent_blocked r)
         (max_retry_after r) (extracted_data r) (lane_counts r))
      (seen_links s) (consec_block s) (progress s) (slog s) (history s) (handed s ++ queue s)
  else s.

Fixpoint refill (room : nat) (s : Shard) : Shard :=
  match room, queue s with
  | S room, i :: rest =>
      refill room (mkShard rest (workers s ++ [i]) (result s) (seen_links s) (consec_block s) (progress s) (Spawned i :: slog s)
                     (history s) (handed s))
  | _, _ => s
  end.

Definition join_one (browser : bool) (cfg : CrawlConfig) (total : Z) (report : bool) (s : Shard) : Shard :=
  let k := (shard_next (slog s) mod length (workers s))%nat in
  match workers s !! k with
  | None => s
  | Some item =>
      let ws := base.delete k (workers s) in
      if shard_panics (slog s) then
        mkShard (queue s) ws (result s) (seen_links s) (consec_block s) (progress s) (Joined item :: slog s)
          (history s ++ [(item, None)]) (handed s)
      else
        let '(out, l) := fetch_resolve browser cfg item (Joined item :: slog s) in
        let '(r, seen, consec) := absorb out (result s) (seen_links s) (consec_block s) in
        let tally := mkProgress (Z.of_nat (length (pages r))) (Z.of_nat (length (failed r))) total in
        mkShard (queue s) ws r seen consec (if report then progress s ++ [tally] else progress s) l
          (history s ++ [(item, Some out)]) (handed s)
  end.

Definition turn (browser : bool) (cfg : CrawlConfig) (window : nat) (total : Z) (report : bool) (s : Shard) : Shard * bool :=
  let s := give_back s in
  let s := refill (window - length (workers s)) s in
  match workers s with
  | [] => (s, true)
  | _ => (join_one browser cfg total report s, false)
  end.

Fixpoint shard_loop (fuel : nat) (browser : bool) (cfg : CrawlConfig) (window : nat) (total : Z) (report : bool) (s : Shard) : option Shard :=
  match fuel with
  | O => None
  | S fuel =>
      let '(s, over) := turn browser cfg window total report s in
      if over then Some s else shard_loop fuel browser cfg window total report s
  end.

Definition window_of (items : list FrontierItem) : nat := Nat.min SHARD_CONCURRENCY (Nat.max (length items) 1).

Definition run_crawl_shard (browser : bool) (items : list FrontierItem) (spec : ShardExtract) (a : CrawlAuth) (report artifact : bool)
    (l : list Event) : option Shard :=
  shard_loop (S (length items)) browser (build_shard_config spec a browser artifact) (window_of items) (Z.of_nat (length items)) report
    (shard_new items l).

(** ** The message *)

Definition into_result_data (r : ShardResult) : json :=
  JObj [("engine", JStr (engine r)); ("pages", JArr (pages r)); ("failed", JArr (failed r));
        ("discovered_urls", JArr ((fun l => JStr (l_url l)) <$> discovered r));
        ("discovered_links", JArr ((fun l => JObj [("url", JStr (l_url l)); ("text", JStr (l_text l))]) <$> discovered r));
        ("blocked", JArr (blocked r)); ("agent_blocked", JBool (agent_blocked r)); ("retry_after", json_of_Z (max_retry_after r));
        ("extracted_data", JArr (extracted_data r));
        ("lane_counts", JObj [("http", json_of_Z (n_http (lane_counts r))); ("browser", json_of_Z (n_browser (lane_counts r)));
                              ("doc", json_of_Z (n_doc (lane_counts r))); ("ocr", json_of_Z (n_ocr (lane_counts r)))])].

Definition one_of (l : list string) (o : option string) (d : string) : string :=
  match o with Some s => if any (str_eqb s) l then s else d | None => d end.

Definition some_nonnull (o : option json) : option json := match o with Some JNull => None | o => o end.

Definition shard_item (it : json) : option FrontierItem :=
  match get it "url" ≫= json_as_str with
  | Some u => Some (mkItem u (unwrap_or (get it "depth" ≫= json_as_i64) 0))
  | None => None
  end.

Definition step_delay (config : json) : option Z :=
  ((((get config "steps" ≫= json_as_array) ≫= head) ≫= fun s => get s "config") ≫= fun c => get c "delay_ms") ≫= json_as_i64.

(** What a message asks for: the items, the spec and the session. *)
Definition parse_shard (config : json) : list FrontierItem * ShardExtract * CrawlAuth :=
  let tc := unwrap_or (get config "trigger_context") (JObj []) in
  let extract := unwrap_or (get tc "_crawl_extract") (JObj []) in
  let delay_ms := Z.max 0 (unwrap_or (or_else (get extract "delay_ms" ≫= json_as_i64) (step_delay config)) 0) in
  let items := match get tc "_crawl_shard" ≫= json_as_array with Some arr => omap shard_item arr | None => [] end in
  let content := match get extract "content" with Some c => if is_object c then Some c else None | None => None end in
  let auth_domain := unwrap_or (get extract "auth_domain" ≫= json_as_str) "" in
  (items,
   mkSpec (unwrap_or (get extract "mode" ≫= json_as_str) "markdown") (some_nonnull (get extract "schema")) delay_ms
     (one_of ["auto"; "http"; "browser"] (get extract "render_mode" ≫= json_as_str) "auto")
     (one_of ["auto"; "off"; "force"] (get extract "ocr_mode" ≫= json_as_str) "auto") content,
   auth_from_session (get config "session_state") auth_domain).

Definition run_shard_from_message (browser : bool) (task_id : string) (config : json) (report artifact : bool) (l : list Event) : option json :=
  let '(items, spec, a) := parse_shard config in
  (fun s => JObj [("type", JStr "task_result"); ("task_id", JStr task_id); ("success", JBool true);
                  ("result_data", into_result_data (result s)); ("error", JNull)])
    <$> run_crawl_shard browser items spec a report artifact l.

(** ** Invariant *)

(** The pages that came back, in order. *)
Definition outs (s : Shard) : list ResolvedOut := omap snd (history s).

Definition page_of (out : ResolvedOut) : option json := match r_outcome out with Extracted p => Some (page_json out p) | _ => None end.
Definition failed_of (out : ResolvedOut) : option json :=
  match r_outcome out with
  | Extracted _ => None
  | Blocked b => Some (refused_json out b)
  | Failed reason => Some (failed_json out reason)
  | NeedsBrowser _ _ => Some (failed_json out "no content (browser unavailable)")
  end.
Definition blocked_of (out : ResolvedOut) : option json := match r_outcome out with Blocked b => Some (blocked_json out b) | _ => None end.
Definition rows_of (out : ResolvedOut) : list json := match r_outcome out with Extracted p => rows p | _ => [] end.
Definition is_refused (out : ResolvedOut) : bool := match r_outcome out with Blocked _ => true | _ => false end.

(** The refusals at the end of a list. *)
Fixpoint trailing (l : list ResolvedOut) : nat :=
  match l with
  | [] => O
  | o :: l => if forallb is_refused (o :: l) then length (o :: l) else trailing l
  end.

(** Three refusals in a row, [rest] after them. *)
Definition refused_thrice (l rest : list ResolvedOut) : Prop :=
  exists a b1 b2 b3, l = a ++ b1 :: b2 :: b3 :: rest /\ is_refused b1 = true /\ is_refused b2 = true /\ is_refused b3 = true.

Lemma trailing_snoc (l : list ResolvedOut) (o : ResolvedOut) : trailing (l ++ [o]) = if is_refused o then S (trailing l) else O.
Proof.
  induction l as [|x l IH]; [simpl; by destruct (is_refused o)|].
  change ((x :: l) ++ [o]) with (x :: (l ++ [o])). cbn [trailing]. rewrite IH.
  change (x :: l ++ [o]) with ((x :: l) ++ [o]). rewrite forallb_app. cbn [forallb]. rewrite andb_true_r.
  destruct (is_refused o); rewrite ?andb_true_r, ?andb_false_r; [|done].
  destruct (is_refused x && forallb is_refused l); [|done]. rewrite length_app. simpl. lia.
Qed.

Lemma refused_thrice_snoc (l rest : list ResolvedOut) (o : ResolvedOut) :
  refused_thrice (l ++ [o]) rest ->
  (exists rest', rest = rest' ++ [o] /\ refused_thrice l rest') \/ (rest = [] /\ is_refused o = true /\ (2 <= trailing l)%nat).
Proof.
  intros (a & b1 & b2 & b3 & E & H1 & H2 & H3). destruct rest as [|x rest _] using rev_ind.
  - right. change (a ++ [b1; b2; b3]) with (a ++ ([b1; b2] ++ [b3])) in E. rewrite app_assoc in E.
    apply app_inj_tail in E as [-> ->]. split_and!; [done|done|].
    change [b1; b2] with ([b1] ++ [b2]). rewrite app_assoc, !trailing_snoc, H1, H2. lia.
  - left. exists rest. rewrite !app_comm_cons, app_assoc in E. apply app_inj_tail in E as [-> ->].
    split; [done|]. by exists a, b1, b2, b3.
Qed.

Lemma refused_thrice_mono (l rest : list ResolvedOut) (o : ResolvedOut) : refused_thrice l rest -> refused_thrice (l ++ [o]) (rest ++ [o]).
Proof. intros (a & b1 & b2 & b3 & -> & H1 & H2 & H3). exists a, b1, b2, b3. by rewrite <-app_assoc. Qed.

Lemma trailing_thrice (l : list ResolvedOut) : (3 <= trailing l)%nat -> refused_thrice l [].
Proof.
  destruct l as [|b3 l _] using rev_ind; [simpl; lia|]. rewrite trailing_snoc. destruct (is_refused b3) eqn:E3; [|lia].
  destruct l as [|b2 l _] using rev_ind; [simpl; lia|]. rewrite trailing_snoc. destruct (is_refused b2) eqn:E2; [|lia].
  destruct l as [|b1 l _] using rev_ind; [simpl; lia|]. rewrite trailing_snoc. destruct (is_refused b1) eqn:E1; [|lia].
  intros _. exists l, b1, b2, b3. by rewrite <-!app_assoc.
Qed.

Record shard_ok (items : list FrontierItem) (window : nat) (s : Shard) : Prop := {
  ok_items : (fst <$> history s) ++ handed s ++ workers s ++ queue s ≡ₚ items;
  ok_window : (length (workers s) <= window)%nat;
  ok_urls : Forall (fun h => match snd h with Some o => r_url o = i_url (fst h) /\ r_depth o = i_depth (fst h) | None => True end) (history s);
  ok_pages : pages (result s) = omap page_of (outs s);
  ok_failed : failed (result s) = omap failed_of (outs s);
  ok_blocked : blocked (result s) ≡ₚ omap blocked_of (outs s) ++ (handed_json <$> handed s);
  ok_rows : extracted_data (result s) = concat (rows_of <$> outs s);
  ok_consec : consec_block s = trailing (outs s);
  ok_agent : agent_blocked (result s) = true <-> exists rest, refused_thrice (outs s) rest;
  ok_handed : handed s <> [] -> agent_blocked (result s) = true;
  ok_links : list_to_set (l_url <$> discovered (result s)) = seen_links s /\ NoDup (l_url <$> discovered (result s)) /\
             (length (discovered (result s)) <= SHARD_DISCOVERED_CAP)%nat;
  ok_stop : forall rest, refused_thrice (outs s) rest -> (length rest + length (workers s) <= window - 1)%nat;
}.

Lemma harvest_ok (ls : list PageLink) (seen : gset string) (found : list PageLink) :
  list_to_set (l_url <$> found) = seen -> NoDup (l_url <$> found) -> (length found <= SHARD_DISCOVERED_CAP)%nat ->
  let '(seen', found') := harvest ls seen found in
  list_to_set (l_url <$> found') = seen' /\ NoDup (l_url <$> found') /\ (length found' <= SHARD_DISCOVERED_CAP)%nat.
Proof.
  revert seen found. induction ls as [|l ls IH]; intros seen found Hs Hn Hl; cbn [harvest]; [done|].
  destruct (Nat.leb_spec SHARD_DISCOVERED_CAP (length found)); [done|].
  destruct (bool_decide (l_url l ∈ seen)) eqn:E; [by apply IH|]. apply bool_decide_eq_false_1 in E. apply IH.
  - rewrite fmap_app, list_to_set_app_L, Hs. cbn. set_solver.
  - rewrite fmap_app. apply NoDup_app. split_and!; [done| |apply NoDup_singleton].
    intros x Hx Hx'. apply list_elem_of_singleton in Hx' as ->. apply E. rewrite <-Hs. by apply elem_of_list_to_set.
  - rewrite length_app. simpl. lia.
Qed.

Lemma give_back_ok (items : list FrontierItem) (window : nat) (s : Shard) :
  shard_ok items window s ->
  shard_ok items window (give_back s) /\ (agent_blocked (result (give_back s)) = true -> queue (give_back s) = []) /\
  history (give_back s) = history s /\ workers (give_back s) = workers s.
Proof.
  intros Hs. unfold give_back. destruct (agent_blocked (result s)) eqn:Ea; [|split_and!; [done|congruence|done|done]].
  split_and!; try done. destruct Hs as [O1 O2 O3 O4 O5 O6 O7 O8 O9 O10 O11 O12].
  split; try done.
  - cbn. rewrite <-O1, app_nil_r, <-app_assoc. apply Permutation_app_head, Permutation_app_head, Permutation_app_comm.
  - unfold outs. cbn [result blocked history handed]. rewrite fmap_app, app_assoc. apply Permutation_app_tail, O6.
  - rewrite Ea in O9. exact O9.
Qed.

Lemma refill_ok (items : list FrontierItem) (window k : nat) (s : Shard) :
  (length (workers s) + k <= window)%nat -> (agent_blocked (result s) = true -> queue s = []) -> shard_ok items window s ->
  shard_ok items window (refill k s) /\ history (refill k s) = history s /\ (length (workers s) <= length (workers (refill k s)))%nat /\
  ((0 < k)%nat -> workers (refill k s) = [] -> queue (refill k s) = []).
Proof.
  revert s. induction k as [|k IH]; intros s Hk Ha Hs; cbn [refill]; [split_and!; [done|done|done|lia]|].
  destruct (queue s) as [|i rest] eqn:Eq; [done|].
  set (s1 := mkShard _ _ _ _ _ _ _ _ _).
  assert (Hab : agent_blocked (result s) = false) by (destruct (agent_blocked (result s)); [by specialize (Ha eq_refl)|done]).
  assert (H1 : shard_ok items window s1).
  { destruct Hs as [O1 O2 O3 O4 O5 O6 O7 O8 O9 O10 O11 O12]. split; try done.
    - cbn. rewrite <-O1, Eq, <-app_assoc. done.
    - cbn. rewrite length_app. simpl. lia.
    - intros r Hr. exfalso. assert (agent_blocked (result s) = true) by (apply O9; by exists r). congruence. }
  destruct (IH s1) as (I1 & I2 & I3 & I4); [cbn; rewrite length_app; simpl; lia|cbn; congruence|done|].
  assert (Hlen : length (workers s1) = S (length (workers s))) by (cbn; rewrite length_app; simpl; lia).
  split_and!; [done|done|lia|]. intros _ Hw. rewrite Hw in I3. cbn [length] in I3. lia.
Qed.

(** ** Progress *)

(** What [spawn_progress_forwarder] waits for: a tally, a tick of its timer, the end of the shard. *)
Inductive Signal : Type := Tally (p : ShardProgress) | Tick | Dropped.

Definition progress_frame (task_id : string) (p : ShardProgress) : json :=
  JObj [("type", JStr "task_progress"); ("task_id", JStr task_id); ("crawl_pages_done", json_of_Z (p_done p));
        ("crawl_pages_failed", json_of_Z (p_failed p)); ("crawl_pages_total", json_of_Z (p_total p));
        ("message", JStr (String.append (Z_to_string (p_done p + p_failed p)) (String.append "/" (String.append (Z_to_string (p_total p)) " pages"))))].

(** The tallies sent, from the latest one that was not. *)
Fixpoint forwarded (latest : option ShardProgress) (ss : list Signal) : list ShardProgress :=
  match ss with
  | [] => []
  | Tally p :: ss => forwarded (Some p) ss
  | Dropped :: _ => option_list latest
  | Tick :: ss => option_list latest ++ forwarded None ss
  end.

Definition spawn_progress_forwarder (task_id : string) (ss : list Signal) : list json := progress_frame task_id <$> forwarded None ss.

Definition tallies (ss : list Signal) : list ShardProgress := omap (fun s => match s with Tally p => Some p | _ => None end) ss.

(** The frames are some of the tallies, in order. *)
Lemma forwarded_sublist (ss : list Signal) (latest : option ShardProgress) : forwarded latest ss `sublist_of` option_list latest ++ tallies ss.
Proof.
  revert latest. induction ss as [|[p| |] ss IH]; intros latest; cbn [forwarded].
  - apply sublist_nil_l.
  - change (tallies (Tally p :: ss)) with (option_list (Some p) ++ tallies ss). etrans; [apply IH|]. by apply sublist_inserts_l.
  - change (tallies (Tick :: ss)) with (tallies ss). apply sublist_app; [done|]. apply (IH None).
  - by apply sublist_inserts_r.
Qed.

(** When the shard ends, its last tally has been sent. *)
Lemma forwarded_last (ss : list Signal) (latest : option ShardProgress) (p : ShardProgress) :
  Forall (fun s => s <> Dropped) ss -> last (option_list latest ++ tallies ss) = Some p ->
  latest <> None \/ tallies ss <> [] -> last (forwarded latest (ss ++ [Dropped])) = Some p.
Proof.
  intros Hd. revert latest. induction Hd as [|s ss Hs Hd IH]; intros latest Hl Hne.
  - cbn. by rewrite app_nil_r in Hl.
  - destruct s as [q| |]; [| |done].
    + change (tallies (Tally q :: ss)) with (q :: tallies ss) in *. cbn [app forwarded]. apply IH; [|by left].
      change (option_list (Some q) ++ tallies ss) with (q :: tallies ss). rewrite last_app in Hl.
      destruct (last (q :: tallies ss)) eqn:E; [done|]. by apply last_None in E.
    + change (tallies (Tick :: ss)) with (tallies ss) in *. cbn [app forwarded].
      destruct (tallies ss) as [|t ts] eqn:Et.
      * rewrite app_nil_r in Hl. assert (forwarded None (ss ++ [Dropped]) = []) as ->; [|by rewrite app_nil_r].
        assert (H0 : forwarded None (ss ++ [Dropped]) `sublist_of` []).
        { pose proof (forwarded_sublist (ss ++ [Dropped]) None) as Hx. unfold tallies in *. rewrite omap_app, Et in Hx. exact Hx. }
        by apply sublist_nil_r in H0.
      * rewrite last_app, (IH None); [done| |by right]. rewrite last_app in Hl |- *.
        destruct (last (t :: ts)) eqn:E; [done|]. by apply last_None in E.
Qed.

End shard.

(** ** The loop *)

Section loop.
Context `{ShardHost}.

Lemma outs_snoc (h : list (FrontierItem * option ResolvedOut)) (i : FrontierItem) (o : option ResolvedOut) :
  omap snd (h ++ [(i, o)]) = omap snd h ++ match o with Some o => [o] | None => [] end.
Proof. rewrite omap_app. by destruct o. Qed.

Lemma omap_snoc {A B : Type} (f : A -> option B) (l : list A) (x : A) :
  omap f (l ++ [x]) = omap f l ++ match f x with Some y => [y] | None => [] end.
Proof. rewrite omap_app. change (omap f [x]) with (match f x with Some y => [y] | None => [] end). by destruct (f x). Qed.

(** What [absorb] changes, in terms of the page alone. *)
Lemma absorb_spec (out : ResolvedOut) (r : ShardResult) (seen : gset string) (consec : nat) :
  is_needs_browser (r_outcome out) = false ->
  let '(r', seen', consec') := absorb out r seen consec in
  pages r' = pages r ++ match page_of out with Some j => [j] | None => [] end /\
  failed r' = failed r ++ match failed_of out with Some j => [j] | None => [] end /\
  blocked r' = blocked r ++ match blocked_of out with Some j => [j] | None => [] end /\
  extracted_data r' = extracted_data r ++ rows_of out /\
  consec' = (if is_refused out then S consec else O) /\
  (agent_blocked r' = if is_refused out && (2 <=? consec)%nat then true else agent_blocked r) /\
  (list_to_set (l_url <$> discovered r) = seen -> NoDup (l_url <$> discovered r) -> (length (discovered r) <= SHARD_DISCOVERED_CAP)%nat ->
   list_to_set (l_url <$> discovered r') = seen' /\ NoDup (l_url <$> discovered r') /\ (length (discovered r') <= SHARD_DISCOVERED_CAP)%nat).
Proof.
  unfold absorb, page_of, failed_of, blocked_of, rows_of, is_refused. destruct (r_outcome out) as [p|t b|b|reason]; intros Hnb; [|done| |].
  - pose proof (harvest_ok (links p) seen (discovered r)) as Hh. destruct (harvest _ _ _) as [seen' found].
    cbn. rewrite !app_nil_r. split_and!; done.
  - cbn. rewrite !app_nil_r. split_and!; try done; by destruct consec as [|[|?]].
  - cbn. rewrite !app_nil_r. split_and!; done.
Qed.

Lemma shard_join_ok (items : list FrontierItem) (window : nat) (browser : bool) (cfg : CrawlConfig) (total : Z) (report : bool) (s : Shard) :
  shard_ok items window s -> workers s <> [] -> (agent_blocked (result s) = true -> queue s = []) ->
  shard_ok items window (join_one browser cfg total report s) /\
  length (history (join_one browser cfg total report s)) = S (length (history s)).
Proof.
  intros Hs Hne Hq. unfold join_one. cbv zeta. set (k := (_ mod _)%nat).
  assert (Hk : is_Some (workers s !! k)).
  { apply lookup_lt_is_Some. apply Nat.mod_upper_bound. by destruct (workers s). }
  destruct Hk as [item Hk]. rewrite Hk.
  pose proof (length_delete (workers s) k ltac:(by exists item)) as Hlen.
  assert (Hpos : (0 < length (workers s))%nat) by (destruct (workers s); [done|simpl; lia]).
  assert (Hperm : forall o, (fst <$> history s ++ [(item, o)]) ++ handed s ++ base.delete k (workers s) ++ queue s ≡ₚ items).
  { intros o. destruct Hs as [O1 _ _ _ _ _ _ _ _ _ _ _]. rewrite <-O1, fmap_app, <-app_assoc. apply Permutation_app_head. cbn.
    rewrite (Permutation_app_comm _ (queue s)), !(Permutation_middle (handed s)). apply Permutation_app_head.
    rewrite (delete_Permutation _ _ _ Hk) at 2. cbn. constructor. apply Permutation_app_comm. }
  destruct Hs as [O1 O2 O3 O4 O5 O6 O7 O8 O9 O10 O11 O12].
  destruct (shard_panics (slog s)).
  { split; [|cbn; rewrite length_app; simpl; lia].
    assert (Ho : omap snd (history s ++ [(item, None)]) = outs s) by (rewrite outs_snoc; apply app_nil_r).
    split; unfold outs; cbn [history result consec_block workers queue handed seen_links]; rewrite ?Ho; try done.
    - lia.
    - apply Forall_app. split; [done|]. by apply Forall_singleton.
    - intros rest Hr. specialize (O12 rest Hr). lia. }
  destruct (fetch_resolve_result browser cfg item (Joined item :: slog s)) as (_ & _ & _ & Eu & Ed & Hnb).
  destruct (fetch_resolve browser cfg item (Joined item :: slog s)) as [out l]. cbn [fst] in Eu, Ed, Hnb.
  pose proof (absorb_spec out (result s) (seen_links s) (consec_block s) Hnb) as Ha.
  destruct (absorb out (result s) (seen_links s) (consec_block s)) as [[r seen] consec].
  destruct Ha as (A1 & A2 & A3 & A4 & A5 & A6 & A7).
  split; [|cbn; rewrite length_app; simpl; lia].
  assert (Ho : omap snd (history s ++ [(item, Some out)]) = outs s ++ [out]) by apply outs_snoc.
  assert (Hag : agent_blocked r = true <-> exists rest, refused_thrice (outs s ++ [out]) rest).
  { rewrite A6. split.
    - destruct (is_refused out && (2 <=? consec_block s)%nat) eqn:E.
      + intros _. apply andb_prop in E as [E1 E2]. apply Nat.leb_le in E2. exists []. apply trailing_thrice.
        rewrite trailing_snoc, E1, <-O8. lia.
      + intros [rest Hr]%O9. exists (rest ++ [out]). by apply refused_thrice_mono.
    - intros [rest [(rest' & _ & Hr)|(_ & E1 & E2)]%refused_thrice_snoc].
      + destruct (is_refused out && _); [done|]. apply O9. by exists rest'.
      + rewrite E1, O8. by rewrite (proj2 (Nat.leb_le _ _) E2). }
  split; unfold outs; cbn [history result consec_block workers queue handed seen_links]; rewrite ?Ho; try done.
  - lia.
  - apply Forall_app. split; [done|]. by apply Forall_singleton.
  - by rewrite A1, O4, omap_snoc.
  - by rewrite A2, O5, omap_snoc.
  - rewrite A3, O6, omap_snoc, <-!app_assoc. apply Permutation_app_head, Permutation_app_comm.
  - rewrite A4, O7, fmap_app, concat_app. cbn. by rewrite app_nil_r.
  - by rewrite A5, O8, trailing_snoc.
  - intros Hh. rewrite A6. destruct (_ && _); [done|]. by apply O10.
  - destruct O11 as (? & ? & ?). by apply A7.
  - intros rest [(rest' & -> & Hr)|(-> & _)]%refused_thrice_snoc.
    + specialize (O12 rest' Hr). rewrite length_app. simpl. lia.
    + simpl. lia.
Qed.

Lemma shard_turn_spec (items : list FrontierItem) (window : nat) (browser : bool) (cfg : CrawlConfig) (total : Z) (report : bool) (s : Shard) :
  shard_ok items window s -> (0 < window)%nat ->
  let '(s', over) := turn browser cfg window total report s in
  shard_ok items window s' /\
  (if over then workers s' = [] /\ queue s' = [] else length (history s') = S (length (history s))).
Proof.
  intros Hs Hw. unfold turn. cbv zeta. destruct (give_back_ok items window s Hs) as (H1 & Hq & Eh & Ew).
  set (s1 := give_back s) in *.
  destruct (refill_ok items window (window - length (workers s1)) s1) as (H2 & Eh2 & Hl & Hf);
    [pose proof (ok_window _ _ _ H1); lia|done|done|].
  set (s2 := refill _ s1) in *.
  assert (Hq2 : agent_blocked (result s2) = true -> queue s2 = []).
  { assert (Hg : forall n s0, (agent_blocked (result s0) = true -> queue s0 = []) ->
                  agent_blocked (result (refill n s0)) = true -> queue (refill n s0) = []).
    { induction n as [|n IHn]; intros s0 Hs0; cbn [refill]; [done|]. destruct (queue s0) as [|i rest] eqn:Eq; [congruence|].
      apply IHn. cbn. intros Hab. specialize (Hs0 Hab). done. }
    by apply Hg. }
  destruct (workers s2) as [|w ws] eqn:Ews.
  - split; [done|]. split; [done|]. apply Hf; [|done]. cbn [length] in Hl. lia.
  - destruct (shard_join_ok items window browser cfg total report s2 H2) as [H3 Hlen]; [by rewrite Ews|done|].
    split; [done|]. congruence.
Qed.

Lemma history_bound (items : list FrontierItem) (window : nat) (s : Shard) : shard_ok items window s -> (length (history s) <= length items)%nat.
Proof. intros [O1 _ _ _ _ _ _ _ _ _ _ _]. apply Permutation_length in O1. rewrite !length_app, length_fmap in O1. lia. Qed.

Lemma shard_loop_spec (fuel : nat) (items : list FrontierItem) (window : nat) (browser : bool) (cfg : CrawlConfig) (total : Z) (report : bool) (s : Shard) :
  shard_ok items window s -> (0 < window)%nat -> (length items - length (history s) < fuel)%nat ->
  exists s', shard_loop fuel browser cfg window total report s = Some s' /\ shard_ok items window s' /\ workers s' = [] /\ queue s' = [].
Proof.
  revert s. induction fuel as [|fuel IH]; intros s Hs Hw Hf; [lia|]. cbn [shard_loop].
  pose proof (shard_turn_spec items window browser cfg total report s Hs Hw) as Ht. destruct (turn browser cfg window total report s) as [s1 over].
  destruct Ht as [H1 Ht]. destruct over; [destruct Ht; by exists s1|].
  apply IH; [done|done|]. pose proof (history_bound _ _ _ H1). lia.
Qed.

Lemma shard_new_ok (items : list FrontierItem) (window : nat) (l : list Event) : shard_ok items window (shard_new items l).
Proof.
  assert (Hno : forall rest, ~ refused_thrice [] rest) by (intros rest (a & b1 & b2 & b3 & E & _); by destruct a).
  split; try done; cbn; try lia.
  - split; [done|]. by intros [rest Hr%Hno].
  - split_and!; [done|constructor|lia].
  - intros rest Hr. by destruct (Hno rest).
Qed.

Lemma run_crawl_shard_spec (browser : bool) (items : list FrontierItem) (spec : ShardExtract) (a : CrawlAuth) (report artifact : bool) (l : list Event) :
  exists s, run_crawl_shard browser items spec a report artifact l = Some s /\ shard_ok items (window_of items) s /\ workers s = [] /\ queue s = [].
Proof. apply shard_loop_spec; [apply shard_new_ok|unfold window_of, SHARD_CONCURRENCY; lia|simpl; lia]. Qed.


(** a shard stops hammering a host that refuses it: it reports the agent blocked exactly when three results in a row were
    refusals, it hands items back only then, and after the third refusal at most [SHARD_CONCURRENCY - 1] more pages come
    back, the ones already in flight. *)
Theorem shard_stops_hammering (browser : bool) (items : list FrontierItem) (spec : ShardExtract) (a : CrawlAuth) (report artifact : bool)
    (l : list Event) (s : Shard) (E : run_crawl_shard browser items spec a report artifact l = Some s) :
  (agent_blocked (result s) = true <-> exists rest, refused_thrice (outs s) rest) /\
  (handed s <> [] -> agent_blocked (result s) = true) /\
  (forall rest, refused_thrice (outs s) rest -> (length rest <= SHARD_CONCURRENCY - 1)%nat).
Proof.
  destruct (run_crawl_shard_spec browser items spec a report artifact l) as (s' & E' & [O1 O2 O3 O4 O5 O6 O7 O8 O9 O10 O11 O12] & Ew & Eq).
  simplify_eq. split_and!; [done|done|]. intros rest Hr. specialize (O12 rest Hr). unfold window_of in O12. lia.
Qed.

End loop.

(** ** A sample shard *)

Definition sample_shard_host : ShardHost := {|
  shard_net := sample_net (fun u => Some (sample_reply (if ends_with u "/ok" then 200 else 403) u "text/html" "page")) (fun _ => []);
  shard_next := fun _ => O;
  shard_panics := fun _ => false;
  base64_encode := fun s => s;
|}.

Definition sample_items : list FrontierItem :=
  (fun k => mkItem (String.append "https://a.test/" (Z_to_string k)) 1) <$> [1; 2; 3; 4; 5; 6; 7; 8; 9; 10; 11; 12].

Notation sample_shard := (@run_crawl_shard sample_shard_host false sample_items (mkSpec "markdown" None 0 "auto" "auto" None) auth_default false false []).

(** Twelve pages of a host that refuses: three refusals, five more in flight, four handed back. *)
Lemma sample_shard_ends :
  match sample_shard with
  | Some s => agent_blocked (result s) = true /\ length (history s) = 8%nat /\ length (handed s) = 4%nat /\ length (blocked (result s)) = 12%nat
  | None => False
  end.
Proof. by vm_compute. Qed.

Lemma shard_stops_hammering_witness :
  match sample_shard with
  | Some s => exists rest, refused_thrice (outs s) rest /\ (length rest <= 5)%nat
  | None => False
  end.
Proof.
  pose proof sample_shard_ends as Hs. destruct sample_shard as [s|] eqn:E; [|exact Hs].
  destruct (@shard_stops_hammering sample_shard_host _ _ _ _ _ _ _ _ E) as (H1 & _ & H3). destruct Hs as [Ha _].
  destruct (proj1 H1 Ha) as [rest Hr]. exists rest. split; [exact Hr|exact (H3 rest Hr)].
Defined.

(** ** The pace of a host *)

Definition HOST_SLOT_PRUNE_AT : Z := 512.

Notation slot_table := (gmap string Z).

(** A call: its URL, its delay and the clock it reads under the lock. *)
Record Claim : Type := mkClaim { cl_url : string; cl_delay_ms : Z; cl_now : Z }.

(** What a call was given: its key, the time it may start and the gap it reserved. *)
Record Grant : Type := mkGrant { g_key : string; g_start : Z; g_delay : Z }.

Section pace.
Context `{CrawlNet}.

Definition slot_key (u : string) : string :=
  match url_parse u with
  | Some p => match u_host p with Some h => registrable (to_ascii_lowercase h) | None => "" end
  | None => ""
  end.

Definition prune (key : string) (now : Z) (slots : slot_table) : slot_table :=
  if HOST_SLOT_PRUNE_AT <? Z.of_nat (size slots)
  then filter (fun kv => (now <? snd kv) || str_eqb (fst kv) key = true) slots
  else slots.

(** [None] when the call returns at once. *)
Definition claim_host_slot (c : Claim) (slots : slot_table) : option Grant * slot_table :=
  if cl_delay_ms c =? 0 then (None, slots)
  else
    let delay := cl_delay_ms c * 1000000 in
    let key := slot_key (cl_url c) in
    let at_ := match slots !! key with Some t => Z.max t (cl_now c) | None => cl_now c end in
    (Some (mkGrant key at_ delay), prune key (cl_now c) (<[key := at_ + delay]> slots)).

Fixpoint claims (cs : list Claim) (slots : slot_table) : list Grant * slot_table :=
  match cs with
  | [] => ([], slots)
  | c :: cs =>
      let '(g, slots) := claim_host_slot c slots in
      let '(gs, slots) := claims cs slots in
      (match g with Some g => g :: gs | None => gs end, slots)
  end.

(** ** Spacing *)

(** At time [now], the gap of a grant is over or still reserved. *)
Definition reserved (slots : slot_table) (now : Z) (g : Grant) : Prop :=
  g_start g + g_delay g <= now \/ exists t, slots !! g_key g = Some t /\ g_start g + g_delay g <= t.

Lemma slot_prune_lookup (key k : string) (now : Z) (slots : slot_table) :
  prune key now slots !! k = slots !! k \/ (k <> key /\ exists t, slots !! k = Some t /\ t <= now).
Proof.
  unfold prune. destruct (_ <? _); [|by left]. destruct (slots !! k) as [t|] eqn:E.
  - destruct ((now <? t) || str_eqb k key) eqn:Ep.
    + left. by apply map_lookup_filter_Some_2.
    + right. apply orb_false_elim in Ep as [E1 E2]. apply Z.ltb_ge in E1. split; [|by exists t].
      intros ->. by rewrite str_eqb_refl in E2.
  - left. apply map_lookup_filter_None_2. by left.
Qed.

Lemma reserved_later (slots : slot_table) (now now' : Z) (g : Grant) : now <= now' -> reserved slots now g -> reserved slots now' g.
Proof. intros Hn [Hg|Hg]; [left; lia|by right]. Qed.

Lemma reserved_prune (key : string) (slots : slot_table) (now : Z) (g : Grant) :
  reserved slots now g -> reserved (prune key now slots) now g.
Proof.
  intros [Hg|(t & Et & Hg)]; [by left|]. destruct (slot_prune_lookup key (g_key g) now slots) as [E|(_ & t' & E & Ht)].
  - right. exists t. by rewrite E.
  - left. simplify_eq. lia.
Qed.

(** One claim keeps the earlier gaps and starts after them. *)
Lemma claim_spec (c : Claim) (slots : slot_table) (old : list Grant) :
  0 <= cl_delay_ms c -> Forall (reserved slots (cl_now c)) old ->
  let '(g, slots') := claim_host_slot c slots in
  match g with
  | None => slots' = slots /\ cl_delay_ms c = 0
  | Some g =>
      g_key g = slot_key (cl_url c) /\ g_delay g = cl_delay_ms c * 1000000 /\ cl_now c <= g_start g /\
      Forall (reserved slots' (cl_now c)) (old ++ [g]) /\
      Forall (fun o => g_key o = g_key g -> g_start o + g_delay o <= g_start g) old
  end.
Proof.
  intros Hd Hold. unfold claim_host_slot. destruct (Z.eqb_spec (cl_delay_ms c) 0) as [|Hnz]; [done|].
  set (key := slot_key (cl_url c)). set (at_ := match slots !! key with Some t => _ | None => _ end).
  assert (Hat : cl_now c <= at_) by (unfold at_; destruct (slots !! key); lia). cbn [g_key g_start g_delay].
  split_and!; [done|done|done| |].
  - apply Forall_app. split.
    + eapply Forall_impl; [exact Hold|]. intros o Ho. apply reserved_prune. destruct Ho as [Ho|(t & Et & Ho)]; [by left|]. right.
      destruct (decide (g_key o = key)) as [E|E].
      * rewrite E in *. exists (at_ + cl_delay_ms c * 1000000). rewrite lookup_insert_eq. split; [done|].
        unfold at_. rewrite Et. lia.
      * exists t. by rewrite lookup_insert_ne.
    + apply Forall_singleton, reserved_prune. right. cbn [g_key g_start g_delay]. eexists. by rewrite lookup_insert_eq.
  - eapply Forall_impl; [exact Hold|]. intros o [Ho|(t & Et & Ho)] Ek; [lia|]. rewrite Ek in Et. unfold at_. fold key in Et. rewrite Et. lia.
Qed.

Definition spaced (a b : Grant) : Prop := g_key a = g_key b -> g_start a + g_delay a <= g_start b.

Lemma claims_spaced (cs : list Claim) (slots : slot_table) (old : list Grant) :
  StronglySorted Z.le (cl_now <$> cs) -> Forall (fun c => 0 <= cl_delay_ms c) cs ->
  (forall c, head cs = Some c -> Forall (reserved slots (cl_now c)) old) ->
  StronglySorted spaced (fst (claims cs slots)) /\ Forall (fun o => Forall (spaced o) (fst (claims cs slots))) old.
Proof.
  revert slots old. induction cs as [|c cs IH]; intros slots old Hs Hd Hold; cbn [claims].
  { split; [constructor|]. by apply Forall_true. }
  apply Forall_cons in Hd as [Hdc Hd]. rewrite fmap_cons in Hs. inversion Hs as [|? ? Hs' Hle]; subst.
  pose proof (claim_spec c slots old Hdc (Hold c eq_refl)) as Hc.
  assert (Hnext : forall slots' gs, Forall (reserved slots' (cl_now c)) gs ->
             forall c', head cs = Some c' -> Forall (reserved slots' (cl_now c')) gs).
  { intros slots' gs Hgs c' Hc'. eapply Forall_impl; [exact Hgs|]. intros g. apply reserved_later.
    destruct cs as [|c0 cs']; [done|]. simpl in Hc'. simplify_eq. rewrite fmap_cons in Hle. by apply Forall_cons in Hle as [? _]. }
  destruct (claim_host_slot c slots) as [[g|] slots'].
  - destruct Hc as (_ & _ & _ & Hres & Hsp).
    destruct (IH slots' (old ++ [g]) Hs' Hd (Hnext _ _ Hres)) as [H1 H2].
    destruct (claims cs slots') as [gs slots2]. cbn [fst] in *. apply Forall_app in H2 as [H2 Hg]. rewrite Forall_singleton in Hg.
    split; [by constructor|]. rewrite Forall_forall in H2, Hsp |- *. intros o Ho. constructor; [exact (Hsp o Ho)|exact (H2 o Ho)].
  - destruct Hc as [-> _]. destruct (IH slots old Hs' Hd (Hnext _ _ (Hold c eq_refl))) as [H1 H2].
    destruct (claims cs slots) as [gs slots2]. done.
Qed.

(** requests to one site keep the gap the operator set, for the whole process: over any sequence of claims, however the workers
    and shards interleave and whatever the pruning of the table drops, a request to a registrable domain starts at least its
    predecessors' delays after each of them. *)
Theorem host_slots_spaced (cs : list Claim) (Hs : StronglySorted Z.le (cl_now <$> cs)) (Hd : Forall (fun c => 0 <= cl_delay_ms c) cs) :
  StronglySorted spaced (fst (claims cs ∅)).
Proof. by apply (claims_spaced cs ∅ []). Qed.

End pace.

Definition sample_claims : list Claim :=
  [mkClaim "https://www.a.test/1" 250 0; mkClaim "https://cdn.a.test/2" 250 10; mkClaim "https://b.test/" 250 20; mkClaim "https://a.test/3" 250 30].

Lemma host_slots_spaced_witness :
  let net := sample_net (fun _ => None) (fun _ => []) in
  StronglySorted spaced (fst (@claims net sample_claims ∅)) /\ g_start <$> fst (@claims net sample_claims ∅) = [0; 250000000; 20; 500000000].
Proof.
  intros net. split; [|by vm_compute].
  apply (@host_slots_spaced net sample_claims).
  - repeat (constructor; [|repeat constructor; discriminate]). constructor.
  - repeat constructor; discriminate.
Defined.
