(* ===== verification/Registry.v ===== *)
(** * local/engine/events.rs, registry.rs: the frames of a run and the table of live runs

    A run has a channel of frames, a cancel token and a status code, shared by the entry of the table, the guard of the
    run and whoever holds a clone: they are one cell of a store, and the table maps a run to its cell. A channel is what was
    sent on it; the rings of the broadcast channels and what a late subscriber misses are the library's. Owning a guard is
    having it in [guards]: an operation on a guard that is gone cannot be written. *)

From Stdlib Require Import Ascii String.
From S2P Require Import Prelude Ints Str.
Open Scope string_scope.
Open Scope list_scope.
Open Scope Z_scope.

(** ** events.rs *)

Inductive RunStatus : Type := Running | Success | Failed | Cancelled | Timeout | CaptchaRequired | TwofaRequired.
#[export] Instance RunStatus_eq_dec : EqDecision RunStatus. Proof. solve_decision. Defined.

Inductive StepStatus : Type := StepRunning | StepSucceeded | StepFailed | StepSkipped.
#[export] Instance StepStatus_eq_dec : EqDecision StepStatus. Proof. solve_decision. Defined.

Inductive RunEvent : Type :=
| Started (run_id total_steps : Z)
| Step (run_id index : Z) (step_type : string) (status : StepStatus)
| Progress (run_id completed total : Z)
| Repairing (run_id : Z) (slow : bool)
| Finished (run_id : Z) (status : RunStatus)
| Error (run_id : Z) (message : string)
| CloudReflected (task_id : Z)
| CloudEntity (entity action : string) (id target_id : option Z).

Definition event_run_id (e : RunEvent) : Z :=
  match e with
  | Started r _ | Step r _ _ _ | Progress r _ _ | Repairing r _ | Finished r _ | Error r _ => r
  | CloudReflected t => t
  | CloudEntity _ _ _ _ => 0
  end.

Definition is_terminal (e : RunEvent) : bool := match e with Finished _ _ | Error _ _ => true | _ => false end.

Definition event_name (e : RunEvent) : string :=
  match e with
  | Started _ _ => "started"
  | Step _ _ _ _ => "step"
  | Progress _ _ _ => "progress"
  | Repairing _ _ => "repairing"
  | Finished _ _ => "finished"
  | Error _ _ => "error"
  | CloudReflected _ => "cloud_reflected"
  | CloudEntity _ _ _ _ => "entity"
  end.

Definition status_to_code (s : RunStatus) : Z :=
  match s with
  | Running => 0 | Success => 1 | Failed => 2 | Cancelled => 3 | Timeout => 4 | CaptchaRequired => 5 | TwofaRequired => 6
  end.

Definition code_to_status (code : Z) : RunStatus :=
  match code with
  | 1 => Success | 2 => Failed | 3 => Cancelled | 4 => Timeout | 5 => CaptchaRequired | 6 => TwofaRequired
  | _ => Running
  end.

(** ** The table *)

(** What the clones of one run share. *)
Record RunHandleInner : Type := mkHandle {
  events : list RunEvent;
  cancel : bool;
  status : Z;
}.

Record EmitGuard : Type := mkGuard {
  run_id : Z;
  handle : nat;
  finished : bool;
}.

(** [guards] and [accepted] are not in the source: the guards that live, and the cells of the cancel requests that were told
    they flipped the token. *)
Record RunRegistry : Type := mkRegistry {
  runs : gmap Z nat;
  global : list RunEvent;
  handles : list RunHandleInner;
  guards : gmap nat EmitGuard;
  accepted : list nat;
}.

Definition registry_new : RunRegistry := mkRegistry ∅ [] [] ∅ [].

Definition set_handles (h : list RunHandleInner) (r : RunRegistry) : RunRegistry :=
  mkRegistry (runs r) (global r) h (guards r) (accepted r).

(** [CancelToken::cancel] of a clone: whether this call flipped the flag. *)
Definition token_cancel (c : nat) (r : RunRegistry) : bool * RunRegistry :=
  match handles r !! c with
  | None => (false, r)
  | Some h =>
      let was := cancel h in
      (negb was, mkRegistry (runs r) (global r) (alter (fun h => mkHandle (events h) true (status h)) c (handles r)) (guards r)
                   (if was then accepted r else accepted r ++ [c]))
  end.

Definition is_cancelled (c : nat) (r : RunRegistry) : bool := match handles r !! c with Some h => cancel h | None => false end.

(** A send on a run's channel. *)
Definition send (c : nat) (e : RunEvent) (r : RunRegistry) : RunRegistry :=
  set_handles (alter (fun h => mkHandle (events h ++ [e]) (cancel h) (status h)) c (handles r)) r.

Definition emit_global (e : RunEvent) (r : RunRegistry) : RunRegistry :=
  mkRegistry (runs r) (global r ++ [e]) (handles r) (guards r) (accepted r).

Definition register (id : Z) (r : RunRegistry) : EmitGuard * RunRegistry :=
  let c := length (handles r) in
  let g := mkGuard id c false in
  (g, mkRegistry (<[id := c]> (runs r)) (global r) (handles r ++ [mkHandle [] false (status_to_code Running)])
        (<[c := g]> (guards r)) (accepted r)).

Definition cancel_run (id : Z) (r : RunRegistry) : option bool * RunRegistry :=
  match runs r !! id with
  | None => (None, r)
  | Some c => let '(b, r) := token_cancel c r in (Some b, r)
  end.

Definition live_count (r : RunRegistry) : nat := size (runs r).
Definition is_live (id : Z) (r : RunRegistry) : bool := bool_decide (is_Some (runs r !! id)).
Definition remove (id : Z) (r : RunRegistry) : RunRegistry :=
  mkRegistry (delete id (runs r)) (global r) (handles r) (guards r) (accepted r).

(** [RunHandle::status] of a live run. *)
Definition run_status (id : Z) (r : RunRegistry) : option RunStatus :=
  (fun h => code_to_status (status h)) <$> (runs r !! id ≫= fun c => handles r !! c).

(** ** The guard of a run *)

Definition emit (g : EmitGuard) (e : RunEvent) (r : RunRegistry) : RunRegistry := send (handle g) e (emit_global e r).

Definition set_status (g : EmitGuard) (s : RunStatus) (r : RunRegistry) : RunRegistry :=
  set_handles (alter (fun h => mkHandle (events h) (cancel h) (status_to_code s)) (handle g) (handles r)) r.

(** [Drop]; the guard is gone. *)
Definition drop_guard (g : EmitGuard) (r : RunRegistry) : RunRegistry :=
  let r := if finished g then r
           else remove (run_id g) (emit g (Error (run_id g) "run ended without a terminal result") r) in
  mkRegistry (runs r) (global r) (handles r) (delete (handle g) (guards r)) (accepted r).

Definition finish (g : EmitGuard) (s : RunStatus) (r : RunRegistry) : RunRegistry :=
  let r := emit g (Finished (run_id g) s) (set_status g s r) in
  drop_guard (mkGuard (run_id g) (handle g) true) (remove (run_id g) r).

Definition finish_error (g : EmitGuard) (message : string) (r : RunRegistry) : RunRegistry :=
  let r := emit g (Error (run_id g) message) (set_status g Failed r) in
  drop_guard (mkGuard (run_id g) (handle g) true) (remove (run_id g) r).

(** ** Sequences of operations *)

Inductive Op : Type :=
| ORegister (id : Z)
| OEmit (c : nat) (e : RunEvent)
| OEmitStep (c : nat) (e : RunEvent)
| OSetStatus (c : nat) (s : RunStatus)
| OFinish (c : nat) (s : RunStatus)
| OFinishError (c : nat) (message : string)
| ODropGuard (c : nat)
| OCancelRun (id : Z)
| OTokenCancel (c : nat)
| OEmitGlobal (e : RunEvent).

Definition with_guard (c : nat) (f : EmitGuard -> RunRegistry -> RunRegistry) (r : RunRegistry) : RunRegistry :=
  match guards r !! c with Some g => f g r | None => r end.

Definition step (r : RunRegistry) (o : Op) : RunRegistry :=
  match o with
  | ORegister id => snd (register id r)
  | OEmit c e => with_guard c (fun g => emit g e) r
  | OEmitStep c e => send c e r
  | OSetStatus c s => with_guard c (fun g => set_status g s) r
  | OFinish c s => with_guard c (fun g => finish g s) r
  | OFinishError c m => with_guard c (fun g => finish_error g m) r
  | ODropGuard c => with_guard c drop_guard r
  | OCancelRun id => snd (cancel_run id r)
  | OTokenCancel c => snd (token_cancel c r)
  | OEmitGlobal e => emit_global e r
  end.

(** What the engine keeps to: a run is registered once at a time, and the frames it emits between are not terminal. *)
Definition op_ok (r : RunRegistry) (o : Op) : Prop :=
  match o with
  | ORegister id => runs r !! id = None
  | OEmit _ e | OEmitStep _ e | OEmitGlobal e => is_terminal e = false
  | _ => True
  end.

Inductive reachable : RunRegistry -> Prop :=
| reach_new : reachable registry_new
| reach_step r o : reachable r -> op_ok r o -> reachable (step r o).

(** ** Lemmas *)

Definition terminals (l : list RunEvent) : nat := length (retain is_terminal l).
Arguments terminals : simpl never.

Lemma terminals_snoc (l : list RunEvent) (e : RunEvent) : terminals (l ++ [e]) = (terminals l + if is_terminal e then 1 else 0)%nat.
Proof. unfold terminals. rewrite retain_app, length_app. cbn. by destruct (is_terminal e). Qed.

(** [code_to_status] is the inverse of [status_to_code]. *)
Lemma code_round_trip (s : RunStatus) : code_to_status (status_to_code s) = s.
Proof. by destruct s. Qed.

(** Whether a cell still has its guard. *)
Definition owed (r : RunRegistry) (c : nat) : nat := match guards r !! c with Some _ => 0 | None => 1 end.

Record registry_ok (r : RunRegistry) : Prop := {
  live_guarded : forall id c, runs r !! id = Some c <-> guards r !! c = Some (mkGuard id c false);
  guard_own : forall c g, guards r !! c = Some g -> handle g = c /\ finished g = false;
  guard_cell : forall c, is_Some (guards r !! c) -> (c < length (handles r))%nat;
  one_end : forall c h, handles r !! c = Some h -> terminals (events h) = owed r c;
  flips : NoDup (accepted r) /\ forall c, c ∈ accepted r <-> exists h, handles r !! c = Some h /\ cancel h = true;
  ends_counted : (terminals (global r) + size (guards r) = length (handles r))%nat;
  same_size : size (runs r) = size (guards r);
}.

(** Cells change in what is not said of them. *)
Lemma alter_handle_ok (f : RunHandleInner -> RunHandleInner) (c : nat) (r : RunRegistry) :
  (forall h, terminals (events (f h)) = terminals (events h) /\ cancel (f h) = cancel h) ->
  registry_ok r -> registry_ok (set_handles (alter f c (handles r)) r).
Proof.
  intros Hf [L O C T [N F] G Z]. constructor; cbn; [done|done|by rewrite length_alter| | |by rewrite length_alter|done].
  - intros d h. rewrite list_lookup_alter. destruct (decide _) as [->|]; [|by apply T].
    destruct (handles r !! d) as [h0|] eqn:E; [|done]. intros [= <-]. rewrite (proj1 (Hf h0)). by apply T.
  - split; [done|]. intros d. rewrite F. rewrite list_lookup_alter. destruct (decide _) as [->|]; [|done].
    destruct (handles r !! d) as [h0|]; cbn; [|done]. split; intros (h & [= <-] & Hc); eexists; (split; [done|]).
    + by rewrite (proj2 (Hf h0)).
    + by rewrite <- (proj2 (Hf h0)).
Qed.

Lemma send_ok (c : nat) (e : RunEvent) (r : RunRegistry) : is_terminal e = false -> registry_ok r -> registry_ok (send c e r).
Proof.
  intros He Hr. apply alter_handle_ok; [|done]. intros h. cbn. rewrite terminals_snoc, He. split; [lia|done].
Qed.

Lemma emit_global_ok (e : RunEvent) (r : RunRegistry) : is_terminal e = false -> registry_ok r -> registry_ok (emit_global e r).
Proof. intros He [L O C T F G Z]. constructor; cbn; try done. rewrite terminals_snoc, He. lia. Qed.

Lemma guard_status_ok (g : EmitGuard) (s : RunStatus) (r : RunRegistry) : registry_ok r -> registry_ok (set_status g s r).
Proof. intros Hr. by apply alter_handle_ok. Qed.

Lemma token_cancel_ok (c : nat) (r : RunRegistry) : registry_ok r -> registry_ok (snd (token_cancel c r)).
Proof.
  intros [L O C T [N F] G Z]. unfold token_cancel. destruct (handles r !! c) as [h|] eqn:E; [|done]. cbn.
  constructor; cbn; [done|done|by rewrite length_alter| | |by rewrite length_alter|done].
  - intros d h'. rewrite list_lookup_alter. destruct (decide _) as [->|]; [|by apply T]. rewrite E. intros [= <-]. by apply T in E.
  - assert (Hc : c ∈ accepted r <-> cancel h = true).
    { rewrite F. split; [intros (h' & E' & ?); congruence|by exists h]. }
    split.
    + destruct (cancel h); [done|]. apply NoDup_app. split_and!; [done| |apply NoDup_singleton].
      intros x Hx ->%list_elem_of_singleton. by apply Hc in Hx.
    + intros d. rewrite list_lookup_alter. destruct (decide (c = d)) as [<-|Hd].
      * rewrite E. cbn. split; [intros _; by eexists|intros _]. destruct (cancel h); [by apply Hc|].
        apply elem_of_app. right. by apply list_elem_of_singleton.
      * rewrite <- F. destruct (cancel h); [done|]. rewrite elem_of_app, list_elem_of_singleton. split; [by intros [?| ->]|by left].
Qed.

Lemma register_ok (id : Z) (r : RunRegistry) : runs r !! id = None -> registry_ok r -> registry_ok (snd (register id r)).
Proof.
  intros Hid [L O C T [N F] G Z]. cbn. set (c := length (handles r)).
  assert (Hc : guards r !! c = None).
  { destruct (guards r !! c) eqn:E; [|done]. assert (Hlt := C c ltac:(by eexists)). subst c. lia. }
  constructor; cbn.
  - intros i d. destruct (decide (id = i)) as [<-|Hi].
    + rewrite lookup_insert_eq. split; [intros [= <-]; by rewrite lookup_insert_eq|].
      destruct (decide (c = d)) as [<-|]; [done|]. rewrite lookup_insert_ne by done. rewrite <- L, Hid. done.
    + rewrite lookup_insert_ne by done. destruct (decide (c = d)) as [<-|].
      * rewrite lookup_insert_eq, L, Hc. split; [done|]. intros [= <-]. done.
      * rewrite lookup_insert_ne by done. apply L.
  - intros d g. destruct (decide (c = d)) as [<-|]; [|rewrite lookup_insert_ne by done; apply O].
    rewrite lookup_insert_eq. by intros [= <-].
  - intros d. rewrite length_app. destruct (decide (c = d)) as [<-|]; [subst c; cbn; lia|]. rewrite lookup_insert_ne by done.
    intros Hd. apply C in Hd. lia.
  - intros d h. unfold owed. cbn. rewrite lookup_app. destruct (handles r !! d) as [h0|] eqn:E.
    + intros [= <-]. apply lookup_lt_Some in E as Hlt. rewrite lookup_insert_ne by (subst c; lia). by apply T.
    + intros Hd. apply lookup_ge_None in E. destruct (d - length (handles r))%nat as [|k] eqn:Ek; [|done].
      injection Hd as <-. assert (d = c) as -> by (subst c; lia). by rewrite lookup_insert_eq.
  - split; [done|]. intros d. rewrite F, lookup_app. destruct (handles r !! d) as [h0|] eqn:E; [done|].
    split; [by intros (? & ? & _)|]. intros (h & Hd & Hcan). destruct (d - length (handles r))%nat; [|done]. by injection Hd as <-.
  - rewrite length_app. cbn. rewrite map_size_insert_None by done. lia.
  - rewrite !map_size_insert_None by done. by rewrite Z.
Qed.

(** The end of a run: its terminal frame is sent, its entry and its guard go. *)
Lemma end_ok (g : EmitGuard) (e : RunEvent) (r : RunRegistry) :
  is_terminal e = true -> guards r !! handle g = Some g -> registry_ok r ->
  registry_ok (drop_guard (mkGuard (run_id g) (handle g) true) (remove (run_id g) (emit g e r))).
Proof.
  intros He Hg Hr. destruct Hr as [L O C T [N F] G Z]. destruct (O _ _ Hg) as [Hh Hf]. destruct g as [id c f]. cbn in *. subst f.
  assert (Hlt : (c < length (handles r))%nat) by (apply C; by eexists).
  constructor; cbn.
  - intros i d. destruct (decide (id = i)) as [<-|Hi].
    + rewrite lookup_delete_eq. split; [done|]. destruct (decide (c = d)) as [<-|]; [by rewrite lookup_delete_eq|].
      rewrite lookup_delete_ne by done. rewrite <- L. intros E. apply L in Hg. congruence.
    + rewrite lookup_delete_ne by done. destruct (decide (c = d)) as [<-|]; [|by rewrite lookup_delete_ne].
      rewrite lookup_delete_eq, L, Hg. split; [|done]. intros [= <-]. done.
  - intros d g'. rewrite lookup_delete_Some. intros [_ E]. by apply O.
  - intros d. rewrite length_alter. intros [g' E]. apply lookup_delete_Some in E as [_ E]. apply C. by eexists.
  - intros d h. rewrite list_lookup_alter. unfold owed. cbn. destruct (decide (c = d)) as [<-|Hd].
    + rewrite lookup_delete_eq. destruct (handles r !! c) as [h0|] eqn:E; [|done]. intros [= <-]. cbn.
      rewrite terminals_snoc, He, (T c h0 E). unfold owed. by rewrite Hg.
    + rewrite lookup_delete_ne by done. apply T.
  - split; [done|]. intros d. rewrite F, list_lookup_alter. destruct (decide (c = d)) as [<-|]; [|done].
    destruct (handles r !! c) as [h0|]; cbn; [|done]. split; intros (h & [= <-] & ?); by eexists.
  - rewrite length_alter, terminals_snoc, He. rewrite map_size_delete_Some by (by eexists).
    assert (size (guards r) <> 0%nat) by (intros E%map_size_empty_inv; rewrite E in Hg; done). lia.
  - apply L in Hg as Hl. rewrite !map_size_delete_Some by (by eexists). by rewrite Z.
Qed.

Lemma with_guard_ok (c : nat) (f : EmitGuard -> RunRegistry -> RunRegistry) (r : RunRegistry) :
  (forall g, guards r !! handle g = Some g -> finished g = false -> registry_ok r -> registry_ok (f g r)) ->
  registry_ok r -> registry_ok (with_guard c f r).
Proof.
  intros Hf Hr. unfold with_guard. destruct (guards r !! c) as [g|] eqn:E; [|done].
  destruct (guard_own r Hr c g E) as [<- ?]. by apply Hf.
Qed.

Lemma registry_step_ok (r : RunRegistry) (o : Op) : op_ok r o -> registry_ok r -> registry_ok (step r o).
Proof.
  intros Ho Hr. destruct o as [id|c e|c e|c s|c s|c m|c|id|c|e]; cbn in *.
  - by apply register_ok.
  - apply with_guard_ok; [|done]. intros g _ _ _. apply send_ok; [done|]. by apply emit_global_ok.
  - by apply send_ok.
  - apply with_guard_ok; [|done]. intros g _ _ _. by apply guard_status_ok.
  - apply with_guard_ok; [|done]. intros g Hg _ _. apply (end_ok g (Finished (run_id g) s) (set_status g s r)); [done|done|].
    by apply guard_status_ok.
  - apply with_guard_ok; [|done]. intros g Hg _ _. apply (end_ok g (Error (run_id g) m) (set_status g Failed r)); [done|done|].
    by apply guard_status_ok.
  - apply with_guard_ok; [|done]. intros g Hg Hf _. unfold drop_guard. rewrite Hf.
    by apply (end_ok g (Error (run_id g) "run ended without a terminal result") r).
  - unfold cancel_run. destruct (runs r !! id) as [c|]; [|done]. assert (Hc := token_cancel_ok c r Hr).
    by destruct (token_cancel c r).
  - by apply token_cancel_ok.
  - by apply emit_global_ok.
Qed.

Lemma reachable_registry_ok (r : RunRegistry) : reachable r -> registry_ok r.
Proof.
  induction 1 as [|r o _ IH Ho]; [|by apply registry_step_ok]. constructor; cbn; try done.
  - intros c [? ?]. done.
  - split; [apply NoDup_nil_2|]. intros c. split; [by intros ?%not_elem_of_nil|by intros (? & ? & _)].
Qed.

(** ** Properties *)

(** In every reachable state of the table, an id is live exactly while an unfinished guard for it exists; the channel of a
    run carries no terminal frame while its guard lives and exactly one after, and the stream of all runs carries one terminal
    frame for each run that ended; a cancel request is answered [None] for a run that is not live, and otherwise tells whether
    it is the first for that run, so that exactly one request is told it flipped the token. *)
Theorem registry_tracks_runs (r : RunRegistry) (Hr : reachable r) :
  (forall id, is_live id r = true <-> exists c, guards r !! c = Some (mkGuard id c false)) /\
  (forall c h, handles r !! c = Some h -> terminals (events h) = if guards r !! c then 0%nat else 1%nat) /\
  (terminals (global r) + size (guards r) = length (handles r))%nat /\
  live_count r = size (guards r) /\
  (forall id, fst (cancel_run id r) = (fun c => negb (bool_decide (c ∈ accepted r))) <$> runs r !! id) /\
  NoDup (accepted r).
Proof.
  apply reachable_registry_ok in Hr as [L O C T [N F] G Z]. split_and!; [| |done|done| |done].
  - intros id. unfold is_live. rewrite bool_decide_eq_true. split; intros [c E]; exists c; by apply L.
  - intros c h E. rewrite (T c h E). unfold owed. by destruct (guards r !! c).
  - intros id. unfold cancel_run. destruct (runs r !! id) as [c|] eqn:E; [|done]. unfold token_cancel.
    assert (Hlt : (c < length (handles r))%nat) by (apply C; apply L in E; by eexists).
    apply lookup_lt_is_Some in Hlt as [h Eh]. rewrite Eh. cbn. f_equal. f_equal. apply eq_bool_prop_intro.
    rewrite bool_decide_spec, F. split; [intros ?; exists h; split; [done|by apply Is_true_true]|].
    intros (h' & E' & ?). apply Is_true_true. congruence.
Qed.

(** ** A run that is cancelled twice, beside one that goes on *)

Definition demo_ops : list Op :=
  [ORegister 7; ORegister 8; OEmit 0 (Started 7 2); OCancelRun 7; OCancelRun 7; OEmitStep 0 (Step 7 0 "wait" StepRunning); OFinish 0 Cancelled].
Definition demo_registry : RunRegistry := foldl step registry_new demo_ops.

Lemma demo_reachable : reachable demo_registry.
Proof. unfold demo_registry, demo_ops. repeat (apply reach_step; [|done]). apply reach_new. Qed.

Lemma registry_tracks_runs_witness :
  reachable demo_registry /\ accepted demo_registry = [0%nat] /\ is_live 7 demo_registry = false /\
  (exists c, guards demo_registry !! c = Some (mkGuard 8 c false)) /\ live_count demo_registry = 1%nat.
Proof.
  destruct (registry_tracks_runs demo_registry demo_reachable) as (L & _ & _ & S & _ & _).
  split_and!; [apply demo_reachable|vm_compute; reflexivity|vm_compute; reflexivity| |].
  - apply L. vm_compute. reflexivity.
  - rewrite S. vm_compute. reflexivity.
Defined.

(** A second registration of an id takes the entry, and the end of the first run removes it: the second run then lives
    without an entry. *)
Lemma second_registration_loses_entry :
  let r := foldl step registry_new [ORegister 7; ORegister 7; OFinish 0 Success] in
  is_live 7 r = false /\ guards r !! 1%nat = Some (mkGuard 7 1 false).
Proof. vm_compute. by split. Qed.
