(* ===== verification/RunRows.v ===== *)
(** * local/store/runs.rs: the rows of the runs, and the outcome counters of local/store/workflows.rs

    The table by identifier and its statements. The life of a row: [running], between times [repairing], then one of
    [success], [failed], [cancelled], [timeout], [captcha_required], [twofa_required] and [interrupted]. [now] is the clock of
    the database. The reads over the extracted data (stubs, full text, imported rows) are not modelled. *)

From Stdlib Require Import Ascii String.
From S2P Require Import Prelude Ints Str.
Open Scope string_scope.
Open Scope list_scope.
Open Scope Z_scope.

Record Run : Type := mkRun {
  id : Z;
  workflow_id : option Z;
  target_id : option Z;
  change_id : option Z;
  automation_id : option Z;
  status : string;
  trigger_type : string;
  success : option Z;
  started_at : option string;
  completed_at : option string;
  duration_ms : option Z;
  trigger_context : option string;
  result_data : option string;
  error_message : option string;
  failure_category : option string;
  ai_repair_succeeded : option Z;
  attempt_count : Z;
  max_attempts : Z;
  created_at : string;
}.

Record NewRun : Type := mkNewRun {
  n_workflow_id : option Z;
  n_target_id : option Z;
  n_change_id : option Z;
  n_automation_id : option Z;
  n_trigger_type : option string;
  n_trigger_context : option string;
  n_max_attempts : option Z;
}.

Notation table := (gmap Z Run).

Definition insert_row (i : Z) (now : string) (n : NewRun) : Run :=
  mkRun i (n_workflow_id n) (n_target_id n) (n_change_id n) (n_automation_id n) "running" (default "manual" (n_trigger_type n)) None
    (Some now) None None (n_trigger_context n) None None None None 1 (default 3 (n_max_attempts n)) now.

(** The identifier is one the table never had. *)
Definition insert (t : table) (i : Z) (now : string) (n : NewRun) : table := <[i := insert_row i now n]> t.

Definition get_by_id (t : table) (i : Z) : option Run := t !! i.

(** An [UPDATE] of one row: the table, and whether there was one. *)
Definition update_row (f : Run -> Run) (t : table) (i : Z) : table * bool := (alter f i t, bool_decide (is_Some (t !! i))).

(** The columns that end a run. *)
Definition settle (s : string) (ok : Z) (now : string) (data error category : option string) (ms : option Z) (r : Run) : Run :=
  mkRun (id r) (workflow_id r) (target_id r) (change_id r) (automation_id r) s (trigger_type r) (Some ok) (started_at r) (Some now)
    ms (trigger_context r) data error category (ai_repair_succeeded r) (attempt_count r) (max_attempts r) (created_at r).

Definition complete (t : table) (i : Z) (now : string) (data : option string) (ms : option Z) : table * bool :=
  update_row (fun r => settle "success" 1 now data (error_message r) (failure_category r) ms r) t i.

Definition fail (t : table) (i : Z) (now s : string) (error category : option string) (ms : option Z) : table * bool :=
  update_row (fun r => settle s 0 now (result_data r) error category ms r) t i.

Definition with_status (s : string) (r : Run) : Run :=
  mkRun (id r) (workflow_id r) (target_id r) (change_id r) (automation_id r) s (trigger_type r) (success r) (started_at r)
    (completed_at r) (duration_ms r) (trigger_context r) (result_data r) (error_message r) (failure_category r)
    (ai_repair_succeeded r) (attempt_count r) (max_attempts r) (created_at r).

Definition set_status (t : table) (i : Z) (s : string) : table * bool := update_row (with_status s) t i.

Definition with_repair (v : Z) (r : Run) : Run :=
  mkRun (id r) (workflow_id r) (target_id r) (change_id r) (automation_id r) (status r) (trigger_type r) (success r) (started_at r)
    (completed_at r) (duration_ms r) (trigger_context r) (result_data r) (error_message r) (failure_category r)
    (Some v) (attempt_count r) (max_attempts r) (created_at r).

Definition set_repair_outcome (t : table) (i : Z) (succeeded : bool) : table * bool :=
  update_row (with_repair (if succeeded then 1 else 0)) t i.

Definition with_result_data (data : option string) (r : Run) : Run :=
  mkRun (id r) (workflow_id r) (target_id r) (change_id r) (automation_id r) (status r) (trigger_type r) (success r) (started_at r)
    (completed_at r) (duration_ms r) (trigger_context r) data (error_message r) (failure_category r)
    (ai_repair_succeeded r) (attempt_count r) (max_attempts r) (created_at r).

Definition set_result_data (t : table) (i : Z) (data : option string) : table * bool := update_row (with_result_data data) t i.

Definition with_attempt (r : Run) : Run :=
  mkRun (id r) (workflow_id r) (target_id r) (change_id r) (automation_id r) (status r) (trigger_type r) (success r) (started_at r)
    (completed_at r) (duration_ms r) (trigger_context r) (result_data r) (error_message r) (failure_category r)
    (ai_repair_succeeded r) (attempt_count r + 1) (max_attempts r) (created_at r).

(** The new count; [None] when there is no row. *)
Definition bump_attempt (t : table) (i : Z) : table * option Z :=
  let t := alter with_attempt i t in (t, attempt_count <$> t !! i).

Definition delete (t : table) (i : Z) : table * bool := (base.delete i t, bool_decide (is_Some (t !! i))).

Definition in_flight (s : string) : bool := any (str_eqb s) ["running"; "repairing"].

Definition interrupted (now : string) (r : Run) : Run :=
  settle "interrupted" 0 now (result_data r) (Some (default "daemon restarted while this run was in flight" (error_message r)))
    (Some (default "interrupted" (failure_category r))) (duration_ms r) r.

(** The sweep of a start, and the number of rows it changed. *)
Definition interrupt_running (t : table) (now : string) : table * Z :=
  ((fun r => if in_flight (status r) then interrupted now r else r) <$> t,
   Z.of_nat (size (filter (fun ir => in_flight (status (snd ir)) = true) t))).

(** ** Listings: the rows of a selection, newest first, at most [limit] of them *)

Definition rows_of (t : table) : list Run := (map_to_list t).*2.

(** [ORDER BY created_at DESC, id DESC] *)
Definition newer (a b : Run) : bool :=
  match String.compare (created_at a) (created_at b) with Gt => true | Lt => false | Eq => id b <=? id a end.

Definition select (p : Run -> bool) (limit : Z) (t : table) : list Run :=
  take (Z.to_nat (clamp 1 1000 limit)) (sort_by newer (retain p (rows_of t))).

Definition list_runs (t : table) (limit : Z) : list Run := select (fun _ => true) limit t.
Definition list_by_workflow (t : table) (w limit : Z) : list Run := select (fun r => bool_decide (workflow_id r = Some w)) limit t.
Definition list_by_status (t : table) (s : string) (limit : Z) : list Run := select (fun r => str_eqb (status r) s) limit t.
Definition list_live_by_trigger_type (t : table) (ty : string) (limit : Z) : list Run :=
  select (fun r => str_eqb (trigger_type r) ty && in_flight (status r)) limit t.

(** ** The outcome counters of a workflow *)

Record Rollup : Type := mkRollup {
  usage_count : Z;
  total_run_count : Z;
  total_failure_count : Z;
  consecutive_failures : Z;
  last_run_at : option string;
  last_failure_at : option string;
  last_failure_error : option string;
  updated_at : option string;
}.

Definition record_run_outcome (now : string) (ok : bool) (error : option string) (w : Rollup) : Rollup :=
  if ok then
    mkRollup (usage_count w + 1) (total_run_count w + 1) (total_failure_count w) 0 (Some now) (last_failure_at w)
      (last_failure_error w) (Some now)
  else
    mkRollup (usage_count w + 1) (total_run_count w + 1) (total_failure_count w + 1) (consecutive_failures w + 1) (Some now)
      (Some now) error (Some now).

(** ** Lemmas *)

Lemma update_row_eq (f : Run -> Run) (t : table) (i : Z) (r : Run) :
  t !! i = Some r -> update_row f t i = (<[i := f r]> t, true).
Proof.
  intros E. unfold update_row. rewrite (bool_decide_eq_true_2 (is_Some (t !! i))) by (by eexists). f_equal. apply map_eq. intros j.
  destruct (decide (i = j)) as [<-|]; [by rewrite lookup_alter_eq, lookup_insert_eq, E|].
  by rewrite lookup_alter_ne, lookup_insert_ne.
Qed.

Lemma update_row_none (f : Run -> Run) (t : table) (i : Z) : t !! i = None -> update_row f t i = (t, false).
Proof.
  intros E. unfold update_row. rewrite (bool_decide_eq_false_2 (is_Some (t !! i))) by (by apply eq_None_not_Some). f_equal. apply map_eq. intros j.
  destruct (decide (i = j)) as [<-|]; [by rewrite lookup_alter_eq, E|by rewrite lookup_alter_ne].
Qed.

Lemma in_flight_true (s : string) : in_flight s = true <-> s = "running" \/ s = "repairing".
Proof.
  unfold in_flight. cbn. rewrite orb_false_r, orb_true_iff. unfold str_eqb. by rewrite !bool_decide_eq_true.
Qed.

Lemma interrupted_settled (now : string) (r : Run) : in_flight (status (interrupted now r)) = false.
Proof. done. Qed.

(** The rows in flight have no verdict. *)
Definition row_ok (r : Run) : Prop := in_flight (status r) = true <-> success r = None.

Lemma sweep_lookup (t : table) (now : string) (i : Z) :
  fst (interrupt_running t now) !! i = (fun r => if in_flight (status r) then interrupted now r else r) <$> t !! i.
Proof. apply lookup_fmap. Qed.

(** The sweep of a start settles every row in flight as interrupted with a verdict, keeps an error message and a category
    it finds, leaves every settled row as it is, adds and removes none, and counts what it changed; after it no run is live, so
    the listing of live runs is empty, and a second sweep changes nothing. *)
Theorem boot_sweep_exact (t : table) (now : string) :
  let '(t', n) := interrupt_running t now in
  (forall i r, t' !! i = Some r -> in_flight (status r) = false) /\
  (forall i r, t !! i = Some r -> in_flight (status r) = false -> t' !! i = Some r) /\
  (forall i r, t !! i = Some r -> status r = "running" \/ status r = "repairing" ->
     exists r', t' !! i = Some r' /\ status r' = "interrupted" /\ success r' = Some 0 /\ completed_at r' = Some now /\
       error_message r' = Some (default "daemon restarted while this run was in flight" (error_message r)) /\
       result_data r' = result_data r) /\
  dom t' = dom t /\
  n = Z.of_nat (size (filter (fun ir => in_flight (status (snd ir)) = true) t)) /\
  (forall ty limit, list_live_by_trigger_type t' ty limit = []) /\
  (forall later, interrupt_running t' later = (t', 0)).
Proof.
  assert (Hdead : forall i r, fst (interrupt_running t now) !! i = Some r -> in_flight (status r) = false).
  { intros i r. rewrite sweep_lookup. intros (r0 & _ & ->)%fmap_Some. destruct (in_flight (status r0)) eqn:E; [apply interrupted_settled|done]. }
  change (interrupt_running t now) with (fst (interrupt_running t now), snd (interrupt_running t now)). cbv iota beta.
  split_and!; [exact Hdead| | |apply dom_fmap_L|done| |].
  - intros i r E Hs. rewrite (sweep_lookup t now i), E, fmap_Some. exists r. by rewrite Hs.
  - intros i r E Hs%in_flight_true. exists (interrupted now r). rewrite (sweep_lookup t now i), E. split_and!; [|done..]. apply fmap_Some. exists r. by rewrite Hs.
  - intros ty limit. unfold list_live_by_trigger_type, select.
    assert (Hno : retain (fun r => str_eqb (trigger_type r) ty && in_flight (status r)) (rows_of (fst (interrupt_running t now))) = []).
    { apply retain_none. intros r Hr. apply list_elem_of_fmap in Hr as ([i r'] & -> & Hi%elem_of_map_to_list).
      change (snd (i, r')) with r'. by rewrite (Hdead i r' Hi), andb_false_r. }
    rewrite Hno. apply take_nil.
  - intros later. unfold interrupt_running. f_equal.
    + apply map_eq. intros i. rewrite lookup_fmap. destruct (fst _ !! i) as [r|] eqn:E; [|done]. apply Hdead in E as Hf.
      apply fmap_Some. exists r. by rewrite Hf.
    + rewrite map_empty_filter_2; [done|]. intros i r E. change (snd (i, r)) with r. by rewrite (Hdead i r E).
Qed.
