(* ===== verification/RunWorld.v ===== *)
(** * local/engine/real.rs: the data of a run, and what a run asks of its surroundings

    A run is a task of [Trace]: its frames, its statements and what it does with a browser are the events; the browser, the
    gateway, the database and the other runs of the workflow answer as a function of the events so far ([RunHost]). The lane
    without a browser is one event here, with its outcome as the answer: its frames are those of [HttpLadder]. *)

From Stdlib Require Import Ascii String.
From S2P Require Export Trace Errors.
From S2P Require Import Prelude Ints Str Json Registry.
From S2P Require UrlGuard.
Open Scope string_scope.
Open Scope list_scope.
Open Scope Z_scope.
Open Scope trace_scope.

(** The columns of a workflow a run reads. *)
Record Workflow : Type := mkWorkflow {
  wf_id : Z;
  description : option string;
  steps : string;
  form_data : option string;
  credentials_encrypted : option string;
  entry_url : option string;
  timeout_ms : Z;
  fast_mode : Z;
  headless : Z;
  default_persona_id : option Z;
  http_capable : Z;
  auth_config : option string;
  session_persistence : Z;
  session_ttl_seconds : option Z;
  ai_repair_enabled : Z;
}.

Inductive RunSource : Type := Manual | Api | Mcp | Scheduled | Webhook | WorkflowSource | Monitor | CloudAgent.
Inductive RunLane : Type := Interactive | Background.

Record RunRequest : Type := mkRunRequest {
  workflow_id : Z;
  inputs : json;
  source : RunSource;
  lane : RunLane;
  dry_run : bool;
  persona_id : option Z;
  allow_local_secret_refs : bool;
}.

(** A persona as a run uses it; its fingerprint and its proxy go to the browser. *)
Record ResolvedPersona : Type := mkPersona {
  p_id : Z;
  twofa_method : string;
  p_credentials : gmap string string;
  session_state : option json;
  totp_code : option string;
}.

Definition TOTP_CREDENTIAL_KEY : string := "otp".

(** What the run had no value for goes in, the persona's own [otp] before the minted code. *)
Definition merge_into_credentials (p : ResolvedPersona) (credentials : gmap string string) : gmap string string :=
  let c := credentials ∪ p_credentials p in
  match totp_code p with
  | Some code => match c !! TOTP_CREDENTIAL_KEY with Some _ => c | None => <[TOTP_CREDENTIAL_KEY := code]> c end
  | None => c
  end.

Record VaultSecret : Type := mkSecret { secret_id : Z; value_encrypted : string }.

Inductive StepError : Type :=
| ElementNotFound (m : string)
| StepTimeout (m : string)
| NavigationFailed (m : string)
| CaptchaNotSolved (m : string)
| CaptchaBotDetected (m : string)
| SessionExpired
| Execution (m : string).

Definition step_error_text (e : StepError) : string :=
  match e with
  | ElementNotFound m => String.append "Element not found: " m
  | StepTimeout m => String.append "Timeout: " m
  | NavigationFailed m => String.append "Navigation failed: " m
  | CaptchaNotSolved m => String.append "CAPTCHA not solved: " m
  | CaptchaBotDetected m => String.append "CAPTCHA bot detected: " m
  | SessionExpired => "Session expired"
  | Execution m => String.append "Execution error: " m
  end.

Definition classify_step_error (e : StepError) : string :=
  match e with
  | ElementNotFound _ | StepTimeout _ | Execution _ => "creator"
  | NavigationFailed _ => "infra"
  | SessionExpired => "buyer"
  | CaptchaNotSolved _ | CaptchaBotDetected _ => "captcha"
  end.

Definition is_captcha (e : StepError) : bool := match e with CaptchaNotSolved _ | CaptchaBotDetected _ => true | _ => false end.

Inductive RunFailure : Type :=
| FCaptcha (message url : string)
| FTwofa (method message url : string)
| FCancelled
| FTimeout (message : string)
| FStep (message category : string).

Notation outcome := (result (gmap string json) RunFailure).

Inductive RepairOutcome : Type := Repaired (selector : string) | RepairCreditRequired (m : string) | RepairUnavailable.
Inductive RecipeOutcome : Type := Recipe (steps : list json) | RecipeCreditRequired (m : string) | RecipeUnavailable.
Inductive HttpRunOutcome : Type := LaneDone (extracted : gmap string json) | LaneFallback (reason : string) | LaneFailed (f : RunFailure).

Record OutputFile : Type := mkOutputFile {
  o_file_id : string;
  o_filename : string;
  o_size : Z;
  o_content_type : string;
  o_output_key : option string;
}.

Record ResolvedFile : Type := mkFile {
  f_file_id : string;
  f_filename : option string;
  f_content_type : option string;
  f_size : option Z;
  f_slots : list string;
}.

(** The statements of a run. *)
Inductive Stmt : Type :=
| SetStatus (status : string)
| SetRepairOutcome (succeeded : bool)
| Complete (data : string) (ms : Z)
| Fail (status message category : string) (ms : Z)
| RecordOutcome (ok : bool) (error : option string)
| UpdateSteps (steps : string) (entry : option string)
| RecordRepair (old new : string)
| MarkRepaired
| SetHttpCapable (v : Z)
| SecretUsed (id : Z).

Inductive Ev : Type :=
| Polled (cancelled : bool)
| SecretRead (key : string)
| Parsed (steps : nat)
| PersonaRead (id : Z)
| FileRead (file_id : string)
| LaneTried (steps : list json)
| Warmed (headless : bool)
| ContextOpened
| ContextClosed
| Vetted (url : string) (safe : bool)
| Navigated (url : string)
| Emitted (e : RunEvent)
| Ran (index : Z) (step_type : string) (config : json)
| CodeEntered
| Captured
| LockTaken
| LockRefused
| LockWaited
| LockReleased
| RepairAsked
| RecipeAsked (allow_rerecord : bool)
| SessionSaved
| PersonaSaved (id : Z)
| Wrote (s : Stmt) (ok : bool).

Class RunHost : Type := {
  (** serde_json *)
  parse_json : string -> option json;
  json_error : string -> string;
  json_to_string : json -> string;
  (** why a step's configuration does not decode *)
  config_error : json -> option string;
  (** kind and step range of a recipe *)
  recipe_kind : string -> option (string * option (nat * nat));
  parse_url : string -> option UrlGuard.url;
  (** the AI repair is compiled in; the environment variable that turns the lane off *)
  cloud_build : bool;
  kill_switch : option string;

  cancelled : list Ev -> bool;
  stmt_ok : list Ev -> bool;
  secret_row : list Ev -> string -> result (option VaultSecret) LocalError;
  persona_row : list Ev -> Z -> result (option ResolvedPersona) LocalError;
  paths_ok : list Ev -> bool;
  (** the stored file brought to a temporary path, and the row of its name, type and size *)
  materialized : list Ev -> bool;
  file_meta : list Ev -> option (string * string * Z);
  (** a stored session that is not too old *)
  fresh_session : list Ev -> bool;
  lane_answer : list Ev -> HttpRunOutcome;
  browser_error : list Ev -> option string;
  context_error : list Ev -> option string;
  (** what the URL guard meets *)
  dns : list Ev -> string -> Z -> option (list IpAddr.ip_addr);
  guard_clock : list Ev -> Z * Z;
  guard_table : list Ev -> gmap string (UrlGuard.HostVerdict * Z);
  nav_error : list Ev -> option string;
  page_url : list Ev -> string;
  challenge_present : list Ev -> bool;
  selector_present : list Ev -> bool;
  totp_minted : list Ev -> result bool LocalError;
  code_error : list Ev -> option LocalError;
  download : list Ev -> result (OutputFile * option string) string;
  step_answer : list Ev -> result (option (gmap string json)) StepError;
  lock_free : list Ev -> bool;
  repair_answer : list Ev -> RepairOutcome;
  recipe_answer : list Ev -> RecipeOutcome;
  reload : list Ev -> option Workflow;
}.

Section host.
Context `{RunHost}.

Definition poll : W Ev bool := fun l => (cancelled l, Polled (cancelled l) :: l).

(** A statement, and whether it succeeded. *)
Definition write (s : Stmt) : W Ev bool := fun l => (stmt_ok l, Wrote s (stmt_ok l) :: l).

Definition emit_frame (e : RunEvent) : W Ev unit := note (Emitted e).

(** [is_navigation_url_safe_async] *)
Definition nav_safe (u : string) : W Ev bool := fun l =>
  let safe := bool_decide (fst (UrlGuard.refusal_reason_inner parse_url (dns l) (fst (guard_clock l)) (snd (guard_clock l)) (guard_table l) u true) = None) in
  (safe, Vetted u safe :: l).
End host.

(** ** A quiet host, for examples *)

Definition demo_workflow (text : string) : Workflow :=
  mkWorkflow 3 None text None None None 0 0 1 None 0 None 0 None 1.

Definition demo_host (parse : string -> option json) (secret : string -> option VaultSecret)
    (step : list Ev -> result (option (gmap string json)) StepError) (repair : RepairOutcome) (recipe : RecipeOutcome) : RunHost := {|
  parse_json := parse;
  json_error := fun _ => "expected value";
  json_to_string := fun _ => "[]";
  config_error := fun _ => None;
  recipe_kind := fun _ => None;
  parse_url := fun s => if str_eqb s "about:blank" then Some (UrlGuard.mkUrl "about" None) else None;
  cloud_build := true;
  kill_switch := None;
  cancelled := fun _ => false;
  stmt_ok := fun _ => true;
  secret_row := fun _ k => Ok (secret k);
  persona_row := fun _ _ => Ok None;
  paths_ok := fun _ => true;
  materialized := fun _ => true;
  file_meta := fun _ => None;
  fresh_session := fun _ => false;
  lane_answer := fun _ => LaneFallback "unsupported";
  browser_error := fun _ => None;
  context_error := fun _ => None;
  dns := fun _ _ _ => None;
  guard_clock := fun _ => (0, 0);
  guard_table := fun _ => ∅;
  nav_error := fun _ => None;
  page_url := fun _ => "about:blank";
  challenge_present := fun _ => false;
  selector_present := fun _ => false;
  totp_minted := fun _ => Ok false;
  code_error := fun _ => None;
  download := fun _ => Err "no download";
  step_answer := step;
  lock_free := fun _ => true;
  repair_answer := fun _ => repair;
  recipe_answer := fun _ => recipe;
  reload := fun _ => Some (demo_workflow "steps");
|}.
