(* ===== verification/RunRefs.v ===== *)
(** * local/engine/resolve.rs: the references of a run

    What a run may put into the placeholders of its steps: the inputs over the stored form data, and the secrets of the
    workflow's own sealed credentials and of the vault. The three patterns are matched by hand; their classes are disjoint, so
    a match is found without going back. A sealed value is opened with [VaultRoot.open_field] under the root of the vault. *)

From Stdlib Require Import Ascii String.
From S2P Require Import Prelude Ints Str Json Resolve VaultRoot AuthImport RunWorld.
Open Scope string_scope.
Open Scope list_scope.
Open Scope Z_scope.
Open Scope trace_scope.

(** ** The patterns *)

(** A greedy run of white space, and what follows. *)
Definition ws_run (s : string) : string * string :=
  let rest := trim_start s in (str_take (String.length s - String.length rest) s, rest).

(** [A-Za-z0-9_.-] *)
Definition key_byte (c : ascii) : bool := is_alnum c || any (byte_is c) ["_"; "."; "-"]%char.

Fixpoint key_chars (s : string) : string * string :=
  match s with
  | EmptyString => ("", "")
  | String c r => if key_byte c then let '(k, rest) := key_chars r in (String c k, rest) else ("", s)
  end.

(** A reference [{{prefix:KEY}}] at the start of [s], white space allowed inside the braces: the spaces, the key and the length of the match. *)
Definition reference_at (prefix s : string) : option (string * string * string * nat) :=
  match strip_prefix "{{" s with
  | None => None
  | Some r =>
      let '(w1, r) := ws_run r in
      match strip_prefix prefix r with
      | None => None
      | Some r =>
          let '(key, r) := key_chars r in
          if is_empty key then None
          else let '(w2, r) := ws_run r in
               match strip_prefix "}}" r with
               | Some rest => Some (w1, key, w2, (String.length s - String.length rest)%nat)
               | None => None
               end
      end
  end.

(** The keys of the matches, from the left, none inside another. *)
Fixpoint references (prefix : string) (skip : nat) (s : string) : list string :=
  match s with
  | EmptyString => []
  | String c r =>
      match skip with
      | S k => references prefix k r
      | O =>
          match reference_at prefix s with
          | Some (_, key, _, len) => key :: references prefix (len - 1) r
          | None => references prefix 0 r
          end
      end
  end.

Fixpoint rename_references (from to : string) (skip : nat) (s : string) : string :=
  match s with
  | EmptyString => ""
  | String c r =>
      match skip with
      | S k => rename_references from to k r
      | O =>
          match reference_at from s with
          | Some (w1, key, w2, len) =>
              String.append (String.concat "" ["{{"; w1; to; key; w2; "}}"]) (rename_references from to (len - 1) r)
          | None => String c (rename_references from to 0 r)
          end
      end
  end.

Definition normalize_vault_aliases (steps_text : string) : string :=
  if contains steps_text "vault:" then rename_references "vault:" "secret:" 0 steps_text else steps_text.

Definition strip_file_markers (steps_text : string) : string :=
  if contains steps_text "file:" then replace_all "file:" (fun _ => Some "") 0 steps_text else steps_text.

(** A [BTreeSet], in its order. *)
Definition str_le (a b : string) : bool := match String.compare a b with Gt => false | _ => true end.
Definition scan_secret_keys (steps_text : string) : list string :=
  sort_by str_le (remove_dups (references "secret:" 0 steps_text)).

(** ** The maps *)

Record ResolvedRefs : Type := mkRefs {
  r_credentials : gmap string string;
  r_form_data : gmap string string;
  r_steps_text : string;
}.

Definition secret_value_aad (key : string) : string := String.append "vault_secrets|value_encrypted|" key.
Definition credentials_aad (workflow : Z) : string := String.append "workflows|credentials_encrypted|" (Z_to_string workflow).

Section refs.
Context `{RunHost, VaultLibs} (vault : RootKey).

(** A decoded [HashMap<String, String>]: every value is a string. *)
Definition string_map (s : string) : option (gmap string string) :=
  match parse_json s with
  | Some (JObj m) =>
      if all (fun kv => match snd kv with JStr _ => true | _ => false end) m
      then Some (list_to_map (omap (fun kv => (fun v => (fst kv, v)) <$> json_as_str (snd kv)) m)) else None
  | _ => None
  end.

Definition with_input (m : gmap string string) (kv : string * json) : gmap string string :=
  match json_as_str (snd kv) with
  | Some s => <[fst kv := s]> (<[String.append "input." (fst kv) := s]> m)
  | None => m
  end.

Definition build_form_data (wf : Workflow) (inp : json) : gmap string string :=
  let stored := default ∅ (form_data wf ≫= string_map) in
  foldl with_input stored (default [] (json_as_object inp)).

Definition own_credential (kv : string * json) : option (string * string) :=
  if str_eqb (fst kv) "__proxy__" then None else (fun s => (fst kv, s)) <$> json_as_str (snd kv).

Definition decrypt_workflow_credentials (wf : Workflow) : gmap string string :=
  match credentials_encrypted wf with
  | None => ∅
  | Some blob =>
      if is_empty blob then ∅
      else match open_field vault blob (credentials_aad (wf_id wf)) with
           | Err _ => ∅
           | Ok plaintext => match parse_json plaintext with Some (JObj m) => list_to_map (omap own_credential m) | _ => ∅ end
           end
  end.

(** [String::from_utf8]; [skip] counts the bytes left of the current character. *)
Fixpoint utf8_valid (skip : nat) (l : list Z) : bool :=
  match l with
  | [] => true
  | _ :: r =>
      match skip with
      | S k => utf8_valid k r
      | O => let '(whole, n) := utf8_step l in whole && utf8_valid (n - 1) r
      end
  end.
Definition from_utf8 (s : string) : option string := if utf8_valid 0 (string_to_bytes s) then Some s else None.

(** The last dot of a key. *)
Definition rsplit_dot (key : string) : option (string * string) :=
  match split_once "."%char (str_rev key) with Some (f, b) => Some (str_rev b, str_rev f) | None => None end.

(** [vault_secrets::get_by_key] *)
Definition get_by_key (key : string) : W Ev (result (option VaultSecret) LocalError) :=
  fun l => (secret_row l key, SecretRead key :: l).

(** The value of an exact key; a value that does not open, or is not text, leaves the key unresolved. *)
Definition exact_secret (key : string) (row : VaultSecret) (credentials : gmap string string) : W Ev (gmap string string) :=
  match open_field vault (value_encrypted row) (secret_value_aad key) with
  | Ok b =>
      match from_utf8 b with
      | Some v => let^ _ := write (SecretUsed (secret_id row)) in wret (<[key := v]> credentials)
      | None => wret credentials
      end
  | Err _ => wret credentials
  end.

(** One field of a secret that is an object. *)
Definition field_secret (key base field : string) (row : VaultSecret) (credentials : gmap string string) : W Ev (gmap string string) :=
  match open_field vault (value_encrypted row) (secret_value_aad base) with
  | Ok b =>
      match (parse_json b ≫= (fun o => get o field)) ≫= json_as_str with
      | Some v => let^ _ := write (SecretUsed (secret_id row)) in wret (<[key := v]> credentials)
      | None => wret credentials
      end
  | Err _ => wret credentials
  end.

(** One key of the loop. *)
Definition resolve_key (key : string) (credentials : gmap string string) : W Ev (result (gmap string string) LocalError) :=
  match credentials !! key with
  | Some _ => wret (Ok credentials)
  | None =>
      let^ row := get_by_key key in
      match row with
      | Err e => wret (Err e)
      | Ok (Some row) => let^ c := exact_secret key row credentials in wret (Ok c)
      | Ok None =>
          match rsplit_dot key with
          | None => wret (Ok credentials)
          | Some (base, field) =>
              let^ row := get_by_key base in
              match row with
              | Err e => wret (Err e)
              | Ok (Some row) => let^ c := field_secret key base field row credentials in wret (Ok c)
              | Ok None => wret (Ok credentials)
              end
          end
      end
  end.

Fixpoint resolve_keys (keys : list string) (credentials : gmap string string) : W Ev (result (gmap string string) LocalError) :=
  match keys with
  | [] => wret (Ok credentials)
  | key :: keys =>
      let^ r := resolve_key key credentials in
      match r with Ok c => resolve_keys keys c | Err e => wret (Err e) end
  end.

Definition resolve_run_refs (wf : Workflow) (inp : json) (allow_local_refs : bool) : W Ev (result ResolvedRefs LocalError) :=
  let steps_text := normalize_vault_aliases (steps wf) in
  let form := build_form_data wf inp in
  let credentials := decrypt_workflow_credentials wf in
  if negb allow_local_refs then wret (Ok (mkRefs credentials form (strip_file_markers steps_text)))
  else
    let^ r := resolve_keys (scan_secret_keys steps_text) credentials in
    wret (match r with Ok c => Ok (mkRefs c form steps_text) | Err e => Err e end).
End refs.

Example alias_ex : normalize_vault_aliases "a {{ vault:K.x }} {{vault:}} {{vault:A}}" = "a {{ secret:K.x }} {{vault:}} {{secret:A}}".
Proof. reflexivity. Qed.
Example scan_ex : scan_secret_keys "{{secret:b}}{{ secret:a }}{{secret:b}}{{secret: c}}" = ["a"; "b"].
Proof. reflexivity. Qed.

(** ** Properties *)

Section spec.
Context `{RunHost, VaultLibs} (vault : RootKey) (rows : gmap string VaultSecret).

(** What a key is worth in the table: its own secret, whole, or else a field of the secret before its last dot. *)
Definition secret_of (key : string) : option string :=
  match rows !! key with
  | Some row => result_ok (open_field vault (value_encrypted row) (secret_value_aad key)) ≫= from_utf8
  | None =>
      '(base, field) ← rsplit_dot key;
      row ← rows !! base;
      b ← result_ok (open_field vault (value_encrypted row) (secret_value_aad base));
      o ← parse_json b;
      v ← get o field;
      json_as_str v
  end.

Context (static : forall l key, secret_row l key = Ok (rows !! key)).

Lemma resolve_key_spec (key : string) (c : gmap string string) (l : list Ev) :
  fst (resolve_key vault key c l) =
  Ok (match c !! key with Some _ => c | None => match secret_of key with Some v => <[key := v]> c | None => c end end).
Proof.
  unfold resolve_key, secret_of. destruct (c !! key) as [v0|]; [done|].
  unfold wbind, get_by_key. rewrite static. destruct (rows !! key) as [row|]; cbn.
  - unfold exact_secret. destruct (open_field _ _ _) as [b|e]; cbn; [|done]. by destruct (from_utf8 b).
  - destruct (rsplit_dot key) as [[base field]|]; cbn; [|done]. rewrite static. destruct (rows !! base) as [row|]; cbn; [|done].
    unfold field_secret. destruct (open_field _ _ _) as [b|e]; cbn; [|done]. destruct (parse_json b) as [o|]; cbn; [|done].
    destruct (get o field) as [v|]; cbn; [|done]. by destruct (json_as_str v).
Qed.

Lemma resolve_keys_spec (keys : list string) (c : gmap string string) (l : list Ev) : NoDup keys ->
  exists c', fst (resolve_keys vault keys c l) = Ok c' /\
    forall k, c' !! k = match c !! k with Some v => Some v | None => if bool_decide (k ∈ keys) then secret_of k else None end.
Proof.
  revert c l. induction keys as [|key keys IH]; intros c l Hnd; cbn.
  { exists c. split; [done|]. intros k. destruct (c !! k); [done|]. by rewrite bool_decide_eq_false_2 by (apply not_elem_of_nil). }
  apply NoDup_cons in Hnd as [Hkey Hnd]. unfold wbind at 1. assert (Hr := resolve_key_spec key c l).
  destruct (resolve_key vault key c l) as [r l1]. cbn in Hr. subst r. cbn.
  destruct (IH (match c !! key with Some _ => c | None => match secret_of key with Some v => <[key := v]> c | None => c end end) l1 Hnd)
    as (c' & -> & Hc'). exists c'. split; [done|]. intros k. rewrite Hc'. clear Hc' IH.
  destruct (decide (k = key)) as [->|Hk].
  - rewrite (bool_decide_eq_false_2 (key ∈ keys)) by done. rewrite (bool_decide_eq_true_2 (key ∈ key :: keys)) by (by left).
    destruct (c !! key) as [v|] eqn:E; [by rewrite E|]. destruct (secret_of key); [by rewrite lookup_insert_eq|by rewrite E].
  - assert (bool_decide (k ∈ key :: keys) = bool_decide (k ∈ keys)) as ->
      by (apply bool_decide_ext; rewrite elem_of_cons; tauto).
    destruct (c !! key); [done|]. destruct (secret_of key); [|done]. by rewrite lookup_insert_ne.
Qed.
End spec.

(** C32: A run that may use local secrets gets, for each key, the workflow's own credential if it has one, and otherwise the
    vault's value of a key its steps refer to (the secret of that name, or a field of the secret before the last dot), and
    nothing else; the form data holds no secret of either, being the inputs over the stored form data. A run that may not gets
    the workflow's own credentials, and the table of secrets is not read at all. *)
Theorem run_refs_exact `{RunHost, VaultLibs} (vault : RootKey) (rows : gmap string VaultSecret)
    (static : forall l key, secret_row l key = Ok (rows !! key)) (wf : Workflow) (inp : json) (l : list Ev) :
  let own := decrypt_workflow_credentials vault wf in
  let text := normalize_vault_aliases (steps wf) in
  resolve_run_refs vault wf inp false l = (Ok (mkRefs own (build_form_data wf inp) (strip_file_markers text)), l) /\
  exists c, fst (resolve_run_refs vault wf inp true l) = Ok (mkRefs c (build_form_data wf inp) text) /\
    forall k, c !! k = match own !! k with
                       | Some v => Some v
                       | None => if bool_decide (k ∈ references "secret:" 0 text) then secret_of vault rows k else None
                       end.
Proof.
  intros own text. split; [done|]. unfold resolve_run_refs. cbn [negb]. fold text own. unfold wbind.
  destruct (resolve_keys_spec vault rows static (scan_secret_keys text) own l) as (c & Hc & Hk).
  { unfold scan_secret_keys. rewrite sort_by_perm. apply NoDup_remove_dups. }
  destruct (resolve_keys vault (scan_secret_keys text) own l) as [r l1]. cbn in *. subst r. exists c. split; [done|].
  intros k. rewrite Hk. destruct (own !! k); [done|].
  assert (bool_decide (k ∈ scan_secret_keys text) = bool_decide (k ∈ references "secret:" 0 text)) as ->; [|done].
  apply bool_decide_ext. unfold scan_secret_keys. by rewrite sort_by_perm, elem_of_remove_dups.
Qed.

(** The stripping of file markers is one pass, so a marker inside another leaves a marker behind. *)
Lemma stripped_marker_remains : strip_file_markers "{{fi{{file:x}}le:slot}}" = "{{file:slot}}".
Proof. reflexivity. Qed.

(** ** A workflow that refers to a secret and to a field of another *)

Definition demo_root : RootKey := repeat 1 32.
Definition demo_nonce : string := "123456789012345678901234".
Definition demo_sealed (key value : string) : string :=
  default "" (result_ok (seal_field demo_root demo_nonce value (secret_value_aad key))).
Definition demo_rows : gmap string VaultSecret :=
  {[ "API" := mkSecret 1 (demo_sealed "API" "k1"); "pair" := mkSecret 2 (demo_sealed "pair" "pair-object") ]}.
Definition demo_parse (s : string) : option json :=
  if str_eqb s "pair-object" then Some (JObj [("user", JStr "bob"); ("age", JNum (PosInt 4))]) else None.
Definition demo_refs_host : RunHost :=
  demo_host demo_parse (fun k => demo_rows !! k) (fun _ => Ok None) RepairUnavailable RecipeUnavailable.
Definition demo_text : string := "{{vault:API}} {{ secret:pair.user }} {{secret:pair.age}} {{secret:gone}}".

Lemma run_refs_exact_witness :
  exists c, fst (@resolve_run_refs demo_refs_host demo_libs demo_root (demo_workflow demo_text) JNull true []) =
      Ok (mkRefs c ∅ "{{secret:API}} {{ secret:pair.user }} {{secret:pair.age}} {{secret:gone}}") /\
    c !! "API" = Some "k1" /\ c !! "pair.user" = Some "bob" /\ c !! "pair.age" = None /\ c !! "gone" = None.
Proof.
  destruct (@run_refs_exact demo_refs_host demo_libs demo_root demo_rows (fun _ _ => eq_refl) (demo_workflow demo_text) JNull [])
    as (_ & c & Hc & Hk).
  exists c. split_and!; [exact Hc| | | |]; rewrite Hk; vm_compute; reflexivity.
Defined.
