(* ===== verification/RunEngine.v ===== *)
(** * local/engine/real.rs: one run of a workflow in a browser

    [execute]: the references, the persona, the gate of the second factor, the files, the lane without a browser, then the
    steps one by one on a page, with the repair of a broken step, and at most one restart with a repaired recipe. The fuel of
    [execute] is the source's own budget of restarts. The identity and the proxy given to the browser, the waits before a
    session is read and the listeners of a context leave no trace here. *)

From Stdlib Require Import Ascii String.
From S2P Require Import Prelude Ints Str Json Registry VaultRoot HttpSteps RunWorld RunRefs.
Open Scope string_scope.
Open Scope list_scope.
Open Scope Z_scope.
Open Scope trace_scope.

Definition DISPATCHABLE_STEP_TYPES : list string :=
  ["ai_continue"; "ai_fill"; "ai_fill_form"; "ai_navigate"; "api_call"; "assert"; "captcha"; "check"; "click"; "codegen"; "end_point";
   "evaluate"; "extract"; "fill"; "focus"; "hover"; "login_post"; "navigate"; "navigated_to"; "open_tab"; "press"; "return";
   "screenshot"; "scroll"; "scroll_into_view"; "select"; "solve_captcha"; "switch_tab"; "tab_closed"; "type"; "uncheck"; "upload";
   "wait"; "wait_for_change"; "wait_for_download"; "wait_for_tab"].
Definition is_dispatchable (step_type : string) : bool := any (str_eqb step_type) DISPATCHABLE_STEP_TYPES.

(** [BLANK] is the entry of a workflow without one. *)
Definition BLANK : string := "about:blank".
Definition non_empty (s : option string) : option string := match s with Some s => if is_empty s then None else Some s | None => None end.
Definition entry_of (wf : Workflow) : string := default BLANK (non_empty (entry_url wf)).

(** ** Before the browser *)

Definition str_of (v : json) (k : string) : option string := get v k ≫= json_as_str.
Definition type_of (raw : json) : string := default "" (str_of raw "type").

(** [file_id] of an object, when it is a text that is not empty. *)
Definition pick (o : option json) : option string := non_empty (o ≫= fun o => str_of o "file_id").

(** The file an upload step pins: its configuration over its options. *)
Definition pinned_file (raw : json) : option string :=
  if str_eqb (type_of raw) "upload" then
    match pick (get raw "config") with Some f => Some f | None => pick (get raw "options") end
  else None.

Definition push_new (l : list string) (f : string) : list string := if bool_decide (f ∈ l) then l else l ++ [f].
Definition pinned_files (raw_steps : list json) : list string := foldl push_new [] (omap pinned_file raw_steps).

Definition bound_id (kv : string * json) : string := default (fst kv) (str_of (snd kv) "file_id").
Definition bound_slots (v : json) : list string :=
  match get v "slots" ≫= json_as_array with Some a => omap json_as_str a | None => [] end.
Definition bindings (inp : json) : option jobj := get inp "files" ≫= json_as_object.

Definition twofa_message_missing : string :=
  "This workflow enters a 2FA code when signing in, but no persona is attached. Attach a persona with a 2FA method — or import its 2FA secret — so runs can enter codes automatically.".
Definition twofa_message_cloud (method : string) : string :=
  String.concat "" ["This workflow signs in with a 2FA code sent by "; if str_eqb method "sms" then "SMS" else "email";
    ". Reading that code requires running in the cloud."].
Definition twofa_message_none : string :=
  "This sign-in is asking for a 2FA code, but the attached persona has no 2FA method configured. Add a 2FA method to the persona — or import its 2FA secret — so runs can enter codes automatically.".
Definition twofa_message_seed : string :=
  "The attached persona's 2FA method is TOTP, but no secret is configured. Import the persona's 2FA secret (QR / setup key) so runs can enter codes automatically.".

Definition by_mail (method : string) : bool := any (str_eqb method) ["email_otp"; "sms"].

(** The gate before a browser is launched. *)
Definition twofa_gate (raw_steps : list json) (persona : option ResolvedPersona) (entry : string) : option RunFailure :=
  if any (fun s => bool_decide (str_of s "type" = Some "twofa")) raw_steps then
    match persona with
    | None => Some (FTwofa "persona_missing" twofa_message_missing entry)
    | Some p => if by_mail (twofa_method p) then Some (FTwofa (twofa_method p) (twofa_message_cloud (twofa_method p)) entry) else None
    end
  else None.

(** The steps outside the range of the sign-in. *)
Definition hybrid_data_steps (raw_steps : list json) (range : nat * nat) : list json :=
  omap (fun iv => if (fst iv <? fst range)%nat || (snd range <=? fst iv)%nat then Some (snd iv) else None) (enumerate raw_steps).

(** ** The state of the loop over the steps *)

Record Loop : Type := mkLoop {
  extracted : gmap string json;
  step_failure : option RunFailure;
  completed : Z;
  repairs : list (nat * string);
  pending_recipe : option (list json);
  restart_from_concurrent : bool;
  repair_guard : bool;
  output_files : list OutputFile;
}.

Definition loop_init (guard : bool) : Loop := mkLoop ∅ None 0 [] None false guard [].

Definition fail_loop (f : RunFailure) (s : Loop) : Loop :=
  mkLoop (extracted s) (Some f) (completed s) (repairs s) (pending_recipe s) (restart_from_concurrent s) (repair_guard s) (output_files s).
Definition complete_loop (ex : gmap string json) (s : Loop) : Loop :=
  mkLoop ex (step_failure s) (completed s + 1) (repairs s) (pending_recipe s) (restart_from_concurrent s) (repair_guard s) (output_files s).
Definition add_repair (i : nat) (sel : string) (s : Loop) : Loop :=
  mkLoop (extracted s) (step_failure s) (completed s) (repairs s ++ [(i, sel)]) (pending_recipe s) (restart_from_concurrent s) (repair_guard s)
    (output_files s).
Definition set_recipe (r : list json) (s : Loop) : Loop :=
  mkLoop (extracted s) (step_failure s) (completed s) (repairs s) (Some r) (restart_from_concurrent s) (repair_guard s) (output_files s).
Definition set_restart (s : Loop) : Loop :=
  mkLoop (extracted s) (step_failure s) (completed s) (repairs s) (pending_recipe s) true (repair_guard s) (output_files s).
Definition hold_guard (s : Loop) : Loop :=
  mkLoop (extracted s) (step_failure s) (completed s) (repairs s) (pending_recipe s) (restart_from_concurrent s) true (output_files s).
Definition add_output (f : OutputFile) (s : Loop) : Loop :=
  mkLoop (extracted s) (step_failure s) (completed s) (repairs s) (pending_recipe s) (restart_from_concurrent s) (repair_guard s)
    (output_files s ++ [f]).

(** What the steps of a run find: the run, the workflow, its persona, the number of the steps. *)
Record Pass : Type := mkPass {
  run : Z;
  wf : Workflow;
  persona : option ResolvedPersona;
  raw_steps : list json;
  restarts_left : nat;
}.

Definition total (p : Pass) : Z := Z.of_nat (length (raw_steps p)).
Definition method_of (p : Pass) : string := default "none" (twofa_method <$> persona p).

Section engine.
Context `{RunHost, VaultLibs} (vault : RootKey).

(** ** The frames of a step *)

Definition step_frame (p : Pass) (i : nat) (ty : string) (st : StepStatus) : W Ev unit := emit_frame (Step (run p) (Z.of_nat i) ty st).

(** A step that does nothing: the loop goes on. *)
Definition skip_step (p : Pass) (i : nat) (ty : string) (s : Loop) : W Ev (Loop * bool) :=
  step_frame p i ty StepSkipped ;^ wret (s, true).

Definition succeed_step (p : Pass) (i : nat) (ty : string) (ex : gmap string json) (s : Loop) : W Ev (Loop * bool) :=
  let s := complete_loop ex s in
  step_frame p i ty StepSucceeded ;^
  emit_frame (Progress (run p) (completed s) (total p)) ;^
  wret (s, true).

Definition fail_step (p : Pass) (i : nat) (ty : string) (f : RunFailure) (s : Loop) : W Ev (Loop * bool) :=
  step_frame p i ty StepFailed ;^ wret (fail_loop f s, false).

(** ** The steps the engine takes itself *)

Definition download_step (p : Pass) (i : nat) (ty : string) (raw : json) (s : Loop) : W Ev (Loop * bool) :=
  step_frame p i ty StepRunning ;^
  match config_error (default raw (get raw "config")) with
  | Some e => fail_step p i ty (FStep (String.append "bad wait_for_download config: " e) "creator") s
  | None =>
      note Captured ;^
      let^ r := ask download in
      match r with
      | Ok (file, key) =>
          let ex := match key with
                    | Some k => if is_empty (o_file_id file) then extracted s else <[k := JStr (o_file_id file)]> (extracted s)
                    | None => extracted s
                    end in
          succeed_step p i ty ex (add_output file s)
      | Err e => fail_step p i ty (FStep e "creator") s
      end
  end.

Definition totp_step (p : Pass) (i : nat) (ty : string) (s : Loop) : W Ev (Loop * bool) :=
  let^ challenge := ask challenge_present in
  let^ recorded := if challenge then wret true else ask selector_present in
  if negb recorded then succeed_step p i ty (extracted s) s
  else
    let^ code := ask totp_minted in
    match code with
    | Ok true =>
        note CodeEntered ;^
        let^ e := ask code_error in
        match e with
        | None => succeed_step p i ty (extracted s) s
        | Some e => fail_step p i ty (FStep (Errors.to_string e) "creator") s
        end
    | Ok false =>
        let^ u := ask page_url in
        fail_step p i ty (FTwofa "totp_seed_missing" twofa_message_seed u) s
    | Err e => fail_step p i ty (FStep (Errors.to_string e) "creator") s
    end.

Definition twofa_step (p : Pass) (i : nat) (ty : string) (s : Loop) : W Ev (Loop * bool) :=
  step_frame p i ty StepRunning ;^
  let m := method_of p in
  if str_eqb m "none" then
    let^ challenge := ask challenge_present in
    if challenge then
      let^ u := ask page_url in
      fail_step p i ty (FTwofa "persona_no_method" twofa_message_none u) s
    else succeed_step p i ty (extracted s) s
  else if str_eqb m "totp" then totp_step p i ty s
  else if by_mail m then
    let^ u := ask page_url in
    fail_step p i ty (FTwofa m (twofa_message_cloud m) u) s
  else succeed_step p i ty (extracted s) s.

(** ** The repair of a step *)

(** The configuration with the new selector. *)
Definition with_selector (config : json) (sel : string) : json :=
  match config with JObj m => JObj (map_insert "selector" (JStr sel) m) | v => v end.

(** Every tier failed: the step fails as it did. *)
Definition ordinary_failure (p : Pass) (i : nat) (ty : string) (e : StepError) (s : Loop) : W Ev (Loop * bool) :=
  fail_step p i ty (FStep (step_error_text e) (classify_step_error e)) s.

Definition smart_repair (p : Pass) (i : nat) (ty : string) (e : StepError) (s : Loop) : W Ev (Loop * bool) :=
  emit_frame (Repairing (run p) true) ;^
  let^ _ := write (SetStatus "repairing") in
  note (RecipeAsked (0 <? restarts_left p)%nat) ;^
  let^ r := ask recipe_answer in
  match r with
  | Recipe new => wret (set_recipe new s, false)
  | RecipeCreditRequired m => fail_step p i ty (FStep m "infra") s
  | RecipeUnavailable => let^ _ := write (SetRepairOutcome false) in ordinary_failure p i ty e s
  end.

(** The step again, with the selector of the gateway. *)
Definition retry_step (p : Pass) (i : nat) (ty : string) (config : json) (sel : string) (e : StepError) (s : Loop) : W Ev (Loop * bool) :=
  step_frame p i ty StepRunning ;^
  note (Ran (Z.of_nat i) ty (with_selector config sel)) ;^
  let^ r := ask step_answer in
  match r with
  | Ok data =>
      let^ _ := write (SetRepairOutcome true) in
      let^ sc := succeed_step p i ty (default ∅ data ∪ extracted s) (add_repair i sel s) in
      let^ _ := write (SetStatus "running") in
      wret sc
  | Err _ => let^ _ := write (SetRepairOutcome false) in ordinary_failure p i ty e s
  end.

(** With the lock of the workflow held. *)
Definition repair_step (p : Pass) (i : nat) (ty : string) (config : json) (e : StepError) (s : Loop) : W Ev (Loop * bool) :=
  emit_frame (Repairing (run p) false) ;^
  let^ _ := write (SetStatus "repairing") in
  note RepairAsked ;^
  let^ r := ask repair_answer in
  match r with
  | Repaired sel => retry_step p i ty config sel e s
  | RepairCreditRequired m => fail_step p i ty (FStep m "infra") s
  | RepairUnavailable => smart_repair p i ty e s
  end.

(** [try_begin], or the wait for the run that repairs. *)
Definition repair_or_wait (p : Pass) (i : nat) (ty : string) (config : json) (e : StepError) (s : Loop) : W Ev (Loop * bool) :=
  if repair_guard s then repair_step p i ty config e s
  else
    let^ free := ask lock_free in
    if free then note LockTaken ;^ repair_step p i ty config e (hold_guard s)
    else note LockRefused ;^ note LockWaited ;^ wret (set_restart s, false).

Definition broken_step (p : Pass) (i : nat) (ty : string) (config : json) (e : StepError) (s : Loop) : W Ev (Loop * bool) :=
  if cloud_build && (ai_repair_enabled (wf p) =? 1) then repair_or_wait p i ty config e s
  else ordinary_failure p i ty e s.

(** ** The loop over the steps *)

Definition executor_step (p : Pass) (i : nat) (ty : string) (raw : json) (s : Loop) : W Ev (Loop * bool) :=
  let config := default raw (get raw "config") in
  match config_error config with
  | Some _ => skip_step p i ty s
  | None =>
      step_frame p i ty StepRunning ;^
      note (Ran (Z.of_nat i) ty config) ;^
      let^ r := ask step_answer in
      match r with
      | Ok data => succeed_step p i ty (default ∅ data ∪ extracted s) s
      | Err e =>
          if is_captcha e then
            let^ u := ask page_url in
            fail_step p i ty (FCaptcha (step_error_text e) u) s
          else broken_step p i ty config e s
      end
  end.

Definition enabled (raw : json) : bool := default true (get raw "enabled" ≫= json_as_bool).

(** One iteration. *)
Definition one_step (p : Pass) (i : nat) (raw : json) (s : Loop) : W Ev (Loop * bool) :=
  let^ c := poll in
  if c then wret (fail_loop FCancelled s, false)
  else
    let ty := type_of raw in
    if is_empty ty || negb (enabled raw) then skip_step p i ty s
    else if str_eqb ty "wait_for_download" then download_step p i ty raw s
    else if str_eqb ty "twofa" then twofa_step p i ty s
    else if negb (is_dispatchable ty) then skip_step p i ty s
    else executor_step p i ty raw s.

Fixpoint run_steps (p : Pass) (i : nat) (todo : list json) (s : Loop) : W Ev Loop :=
  match todo with
  | [] => wret s
  | raw :: todo =>
      let^ sc := one_step p i raw s in
      if snd sc then run_steps p (S i) todo (fst sc) else wret (fst sc)
  end.

(** ** After the loop *)

(** How a pass over the steps ends. [held] tells whether the lock of the workflow is held. *)
Inductive PassEnd : Type :=
| Return (r : outcome) (held : bool)
| WaitedRestart (held : bool)
| RecipeRestart (held : bool).

(** [persist_repaired_recipe] *)
Definition recipe_entry (new : list json) : option string :=
  head (omap (fun s => if bool_decide (str_of s "type" = Some "navigate")
                       then (match (match get s "config" with Some c => get c "url" | None => None end) with Some u => Some u | None => get s "url" end) ≫= json_as_str
                       else None) new).

Definition persist_repaired_recipe (old new : list json) : W Ev unit :=
  let^ _ := write (RecordRepair (json_to_string (JArr old)) (json_to_string (JArr new))) in
  let^ ok := write (UpdateSteps (json_to_string (JArr new)) (recipe_entry new)) in
  if ok then let^ _ := write MarkRepaired in wret tt else wret tt.

(** A repaired selector goes where the configuration of the step was read. *)
Definition apply_selector (sel : string) (step : json) : json :=
  match step with
  | JObj m =>
      match map_get m "config" with
      | Some (JObj c) => JObj (map_insert "config" (JObj (map_insert "selector" (JStr sel) c)) m)
      | _ => JObj (map_insert "selector" (JStr sel) m)
      end
  | v => v
  end.

Definition repaired_steps (raw : list json) (rs : list (nat * string)) : list json :=
  foldl (fun raw ir => alter (apply_selector (snd ir)) (fst ir) raw) raw rs.

Definition write_back (raw : list json) (rs : list (nat * string)) : W Ev unit :=
  match rs with
  | [] => wret tt
  | _ =>
      let^ ok := write (UpdateSteps (json_to_string (JArr (repaired_steps raw rs))) None) in
      if ok then let^ _ := write MarkRepaired in wret tt else wret tt
  end.

Definition output_json (f : OutputFile) : json :=
  JObj ([("file_id", JStr (o_file_id f)); ("filename", JStr (o_filename f)); ("size", json_of_Z (o_size f));
         ("content_type", JStr (o_content_type f))]
        ++ match o_output_key f with Some k => [("output_key", JStr k)] | None => [] end).

(** What the run hands out: the downloads, and the lane it fell back from. *)
Definition stamp_outputs (fs : list OutputFile) (ex : gmap string json) : gmap string json :=
  match fs with [] => ex | _ => <["output_files" := JArr (output_json <$> fs)]> ex end.
Definition stamp_engine (fallback : option string) (ex : gmap string json) : gmap string json :=
  match fallback with
  | None => ex
  | Some reason =>
      <["_engine_fallback" := JObj [("from", JStr "http"); ("reason", JStr reason)]]> (<["_engine" := JStr "browser"]> ex)
  end.

Definition is_none {A : Type} (o : option A) : bool := match o with None => true | Some _ => false end.

(** The end of a pass whose steps were not cut short by a repair. *)
Definition finish_pass (p : Pass) (hybrid : bool) (fallback : option string) (s : Loop) : W Ev PassEnd :=
  let ok := is_none (step_failure s) in
  let captures := negb (session_persistence (wf p) =? 0) || negb (is_none (persona p)) in
  write_back (raw_steps p) (repairs s) ;^
  (if ok && (hybrid || negb (is_none fallback)) && captures then note SessionSaved else wret tt) ;^
  (if ok && captures then match persona p with Some q => note (PersonaSaved (p_id q)) | None => wret tt end else wret tt) ;^
  note ContextClosed ;^
  let ex := stamp_engine fallback (stamp_outputs (output_files s) (extracted s)) in
  (if ok && negb (is_none fallback) then let^ _ := write (SetHttpCapable 0) in wret tt else wret tt) ;^
  wret (Return (match step_failure s with Some f => Err f | None => Ok ex end) (repair_guard s)).

Definition after_steps (p : Pass) (hybrid : bool) (fallback : option string) (s : Loop) : W Ev PassEnd :=
  if restart_from_concurrent s then note ContextClosed ;^ wret (WaitedRestart (repair_guard s))
  else
    match pending_recipe s with
    | Some new =>
        note ContextClosed ;^
        persist_repaired_recipe (raw_steps p) new ;^
        let^ _ := write (SetRepairOutcome true) in
        wret (RecipeRestart (repair_guard s))
    | None => finish_pass p hybrid fallback s
    end.

(** ** A page for the steps *)

Definition browse (p : Pass) (hybrid : bool) (fallback : option string) (held : bool) : W Ev PassEnd :=
  let fail_early m c := wret (Return (Err (FStep m c)) held) in
  note (Warmed (negb (headless (wf p) =? 0))) ;^
  let^ e := ask browser_error in
  match e with
  | Some e => fail_early (String.append "Browser launch failed: " e) "infra"
  | None =>
      let^ e := ask context_error in
      match e with
      | Some e => fail_early (String.append "Browser context failed: " e) "infra"
      | None =>
          note ContextOpened ;^
          let entry := entry_of (wf p) in
          let^ safe := nav_safe entry in
          if negb safe then note ContextClosed ;^ fail_early (String.append "Refused unsafe entry URL: " entry) "buyer"
          else
            note (Navigated entry) ;^
            let^ e := ask nav_error in
            match e with
            | Some e => note ContextClosed ;^ fail_early (String.append "Navigation failed: " e) "infra"
            | None =>
                let^ s := run_steps p 0 (raw_steps p) (loop_init held) in
                after_steps p hybrid fallback s
            end
      end
  end.
End engine.

Section execute.
Context `{RunHost, VaultLibs} (vault : RootKey).

(** One stored file brought to a temporary path; one that fails is left out. *)
Definition materialize (slots : list string) (file_id : string) : W Ev (option ResolvedFile) :=
  note (FileRead file_id) ;^
  let^ ok := ask materialized in
  if negb ok then wret None
  else
    let^ meta := ask file_meta in
    wret (Some (match meta with
                | Some (n, c, z) => mkFile file_id (Some n) (Some c) (Some z) slots
                | None => mkFile file_id None None None slots
                end)).

Fixpoint materialize_all (todo : list (string * list string)) : W Ev (list ResolvedFile) :=
  match todo with
  | [] => wret []
  | (f, slots) :: todo =>
      let^ r := materialize slots f in
      let^ rest := materialize_all todo in
      wret (option_list r ++ rest)
  end.

(** The files pinned by steps and not bound by the caller, then the caller's. *)
Definition run_files (raw_steps : list json) (inp : json) : W Ev (list ResolvedFile) :=
  let bound := match bindings inp with Some m => bound_id <$> m | None => [] end in
  let pinned := pinned_files raw_steps in
  let^ mine :=
    match pinned with
    | [] => wret []
    | _ => let^ ok := ask paths_ok in
           if ok then materialize_all ((fun f => (f, [])) <$> retain (fun f => negb (bool_decide (f ∈ bound))) pinned) else wret []
    end in
  let^ theirs :=
    match bindings inp with
    | None => wret []
    | Some m => let^ ok := ask paths_ok in
                if ok then materialize_all ((fun kv => (bound_id kv, bound_slots (snd kv))) <$> m) else wret []
    end in
  wret (mine ++ theirs).

(** The steps of the normalised text; a text that is not a list of values is the author's error. *)
Definition parse_steps (text : string) : result (list json) string :=
  let t := trim text in
  if is_empty t || str_eqb t "[]" then Ok []
  else match parse_json text with Some (JArr l) => Ok l | _ => Err (json_error text) end.

Definition step_failed {A : Type} (held : bool) (m c : string) : W Ev (A + PassEnd) := wret (inr (Return (Err (FStep m c)) held)).

(** Everything before the lanes: the steps and the persona, or the end of the run. *)
Definition prepare (wf : Workflow) (req : RunRequest) (held : bool) : W Ev ((list json * option ResolvedPersona) + PassEnd) :=
  let^ c := poll in
  if c then wret (inr (Return (Err FCancelled) held))
  else
    let^ refs := resolve_run_refs vault wf (inputs req) (allow_local_secret_refs req) in
    match refs with
    | Err e => step_failed held (String.append "Run resolution failed: " (Errors.to_string e)) "creator"
    | Ok refs =>
        match parse_steps (r_steps_text refs) with
        | Err e => step_failed held (String.append "Workflow steps are not valid JSON: " e) "creator"
        | Ok raw =>
            note (Parsed (length raw)) ;^
            let^ persona :=
              match (match persona_id req with Some i => Some i | None => default_persona_id wf end) with
              | None => wret (Ok None)
              | Some i => fun l => (persona_row l i, PersonaRead i :: l)
              end in
            match persona with
            | Err e => step_failed held (String.append "Persona resolution failed: " (Errors.to_string e)) "creator"
            | Ok persona =>
                match twofa_gate raw persona (entry_of wf) with
                | Some f => wret (inr (Return (Err f) held))
                | None =>
                    let^ _ := run_files raw (inputs req) in
                    let^ c := poll in
                    if c then wret (inr (Return (Err FCancelled) held)) else wret (inl (raw, persona))
                end
            end
        end
    end.

(** [hybrid_browser_range] *)
Definition hybrid_browser_range (wf : Workflow) : option (nat * nat) :=
  match auth_config wf with
  | None => None
  | Some raw =>
      let raw := trim raw in
      if is_empty raw || str_eqb raw "null" then None
      else match recipe_kind raw with
           | Some (kind, range) => if str_eqb kind "browser" then range else None
           | None => None
           end
  end.

Definition has_fresh_workflow_session (wf : Workflow) : W Ev bool :=
  if session_persistence wf =? 0 then wret false else ask fresh_session.

(** The gate of the lane without a browser: its answer, or the reason to go on. *)
Definition try_lane (wf : Workflow) (raw : list json) (held : bool) : W Ev (option string + PassEnd) :=
  let attempt data :=
    note (LaneTried data) ;^
    let^ r := ask lane_answer in
    match r with
    | LaneDone ex => wret (inr (Return (Ok ex) held))
    | LaneFailed f => wret (inr (Return (Err f) held))
    | LaneFallback reason => wret (inl (Some reason))
    end in
  if http_capable wf =? 0 then wret (inl None)
  else
    match hybrid_browser_range wf with
    | Some range =>
        let data := hybrid_data_steps raw range in
        let^ fresh := if eligible (http_lane_eligible kill_switch data) then has_fresh_workflow_session wf else wret false in
        if fresh then attempt data else wret (inl None)
    | None => if eligible (http_lane_eligible kill_switch raw) then attempt raw else wret (inl None)
    end.

Definition run_pass (run_id : Z) (wf : Workflow) (req : RunRequest) (restarts : nat) (held : bool) : W Ev PassEnd :=
  let^ prep := prepare wf req held in
  match prep with
  | inr e => wret e
  | inl (raw, persona) =>
      let^ lane := try_lane wf raw held in
      match lane with
      | inr e => wret e
      | inl fallback => browse (mkPass run_id wf persona raw restarts) (negb (is_none (hybrid_browser_range wf))) fallback held
      end
  end.

(** The guard of the repair lock is dropped with the run, not with a pass. *)
Definition release (held : bool) : W Ev unit := if held then note LockReleased else wret tt.

Definition waited_message : string :=
  "This workflow is being repaired by another run — retry shortly to use the repaired recipe.".
Definition repaired_message : string :=
  "This workflow was auto-repaired, but couldn't be retried this run — the next run will use the repaired recipe.".

Fixpoint execute (restarts : nat) (run_id : Z) (wf : Workflow) (req : RunRequest) (held : bool) : W Ev outcome :=
  let^ e := run_pass run_id wf req restarts held in
  match e with
  | Return r held => release held ;^ wret r
  | WaitedRestart held =>
      let gave_up := release held ;^ wret (Err (FStep waited_message "infra")) in
      match restarts with
      | O => gave_up
      | S n => let^ fresh := ask reload in
               match fresh with Some wf => execute n run_id wf req held | None => gave_up end
      end
  | RecipeRestart held =>
      let gave_up := release held ;^ wret (Err (FStep repaired_message "infra")) in
      match restarts with
      | O => gave_up
      | S n => let^ fresh := ask reload in
               match fresh with
               | Some wf => let^ _ := write (SetStatus "running") in execute n run_id wf req held
               | None => gave_up
               end
      end
  end.
End execute.
