(* ===== verification/RunAudit.v ===== *)
(** * What every run keeps to

    An automaton reads the events of a run, and every run of [RunEngine.execute] is accepted by it ([engine_run_audited]). *)

From Stdlib Require Import Ascii String.
From S2P Require Import Prelude Ints Str Json Registry VaultRoot HttpSteps RunWorld RunRefs RunEngine.
From S2P Require RunRows.
Open Scope string_scope.
Open Scope list_scope.
Open Scope Z_scope.
Open Scope trace_scope.

(** What the automaton remembers: the number of the steps, whether the lane was tried and a context opened for them, whether
    the context is open, the address the guard passed, the steps settled and succeeded, the step under way, whether one failed,
    whether the step under way was left to a repair, whether the lock is held, whether the run may start a step, whether it saw
    that it is cancelled. *)
Record Watch : Type := mkWatch {
  w_total : Z;
  w_lane : bool;
  w_browsed : bool;
  w_ctx : bool;
  w_safe : option string;
  w_next : Z;
  w_done : Z;
  w_step : option Z;
  w_failed : bool;
  w_handed : bool;
  w_lock : bool;
  w_ready : bool;
  w_stop : bool;
}.

Definition watch_init : Watch := mkWatch 0 false false false None 0 0 None false false false false false.

Definition guard (b : bool) (w : Watch) : option Watch := if b then Some w else None.
Definition idle (w : Watch) : bool := is_none (w_step w).
Definition at_step (i : Z) (w : Watch) : bool := bool_decide (w_step w = Some i).

Definition watch_frame (run : Z) (e : RunEvent) (w : Watch) : option Watch :=
  let '(mkWatch n lane br ctx safe next done step failed handed lock ready stop) := w in
  match e with
  | Step r i ty StepRunning =>
      (** a step starts after the run looked for a cancel, in its turn; a step under way is tried again under the lock *)
      if at_step i w then guard ((r =? run) && ctx && lock) w
      else guard ((r =? run) && ctx && ready && (i =? next) && is_none step && negb stop)
             (mkWatch n lane br ctx safe next done (Some i) failed handed lock false stop)
  | Step r i ty StepSucceeded =>
      guard ((r =? run) && ctx && at_step i w) (mkWatch n lane br ctx safe (i + 1) (done + 1) None failed handed lock ready stop)
  | Step r i ty StepFailed =>
      guard ((r =? run) && ctx && at_step i w) (mkWatch n lane br ctx safe (i + 1) done None true false lock ready stop)
  | Step r i ty StepSkipped =>
      guard ((r =? run) && ctx && ready && (i =? next) && is_none step && negb stop)
        (mkWatch n lane br ctx safe (i + 1) done None failed handed lock false stop)
  | Progress r c t => guard ((r =? run) && is_none step && (c =? done) && (t =? n)) w
  | Repairing r _ => guard ((r =? run) && negb (is_none step) && lock) w
  | _ => None
  end.

(** The statements of a run before its outcome: the row stays in flight. *)
Definition run_stmt (s : Stmt) : bool :=
  match s with
  | SetStatus st => RunRows.in_flight st
  | Complete _ _ | Fail _ _ _ _ | RecordOutcome _ _ => false
  | _ => true
  end.

(** [allow]: the run may use local secrets. *)
Definition watch (allow : bool) (run : Z) (ev : Ev) (w : Watch) : option Watch :=
  let '(mkWatch n lane br ctx safe next done step failed handed lock ready stop) := w in
  match ev with
  | Polled true => guard (negb stop) (mkWatch n lane br ctx safe next done step failed handed lock false true)
  | Polled false => guard (negb stop && is_none step) (mkWatch n lane br ctx safe next done step failed handed lock true stop)
  | Parsed k => guard (negb stop && negb ctx) (mkWatch (Z.of_nat k) false false ctx None 0 0 None false false lock false stop)
  | SecretRead _ => guard (allow && negb stop && negb ctx) w
  | PersonaRead _ | FileRead _ | Warmed _ => guard (negb stop && negb ctx) w
  | LaneTried _ => guard (negb stop && negb ctx) (mkWatch n true br ctx safe next done step failed handed lock ready stop)
  | ContextOpened => guard (negb stop && negb ctx) (mkWatch n lane true true None 0 0 None false false lock false stop)
  | ContextClosed => guard (ctx && (is_none step || handed)) (mkWatch n lane br false None next done None failed handed lock false stop)
  | Vetted u s => guard ctx (mkWatch n lane br ctx (if s then Some u else None) next done step failed handed lock ready stop)
  | Navigated u => guard (ctx && negb stop && bool_decide (safe = Some u)) w
  | Emitted e => watch_frame run e w
  | Ran i _ _ => guard (ctx && negb stop && at_step i w) w
  | CodeEntered | Captured => guard (ctx && negb stop && negb (is_none step)) w
  | LockTaken => guard (negb lock) (mkWatch n lane br ctx safe next done step failed handed true ready stop)
  | LockRefused => guard (negb lock) (mkWatch n lane br ctx safe next done step failed true lock ready stop)
  | LockWaited => guard (negb lock) w
  | LockReleased => guard lock (mkWatch n lane br ctx safe next done step failed handed false ready stop)
  | RepairAsked => guard (lock && negb (is_none step)) w
  | RecipeAsked _ => guard (lock && negb (is_none step)) (mkWatch n lane br ctx safe next done step failed true lock ready stop)
  | SessionSaved | PersonaSaved _ => guard (ctx && negb failed && negb stop && is_none step) w
  | Wrote s _ => guard (run_stmt s) w
  end.

Notation audit allow run := (Trace.audit (watch allow run) watch_init).

(** What a run that ended left behind: no context, no lock; a cancel it saw is its outcome; a success went through the lane, or
    settled every step of the last recipe without a failure. *)
Definition end_ok (r : outcome) (w : Watch) : Prop :=
  w_ctx w = false /\ w_lock w = false /\
  (w_stop w = true -> r = Err FCancelled) /\
  match r with
  | Ok _ => if w_browsed w then w_failed w = false /\ w_next w = w_total w else w_lane w = true
  | Err _ => True
  end.

(** ** The loop *)

Definition idle_at (p : Pass) (s : Loop) (i : Z) (lane : bool) (safe : option string) (handed ready : bool) : Watch :=
  mkWatch (total p) lane true true safe i (completed s) None false handed (repair_guard s) ready false.
Definition open_at (p : Pass) (s : Loop) (i : Z) (lane : bool) (safe : option string) (handed ready : bool) : Watch :=
  mkWatch (total p) lane true true safe i (completed s) (Some i) false handed (repair_guard s) ready false.

(** Nothing yet ends the loop. *)
Definition going (s : Loop) : Prop := step_failure s = None /\ pending_recipe s = None /\ restart_from_concurrent s = false.

(** The loop broke off: the step under way is left to a repair, or the run failed. *)
Definition broke (p : Pass) (s : Loop) (w : Watch) : Prop :=
  w_ctx w = true /\ w_browsed w = true /\ w_lock w = repair_guard s /\
  ((restart_from_concurrent s = true \/ is_Some (pending_recipe s)) /\ w_handed w = true /\ w_stop w = false
   \/ restart_from_concurrent s = false /\ pending_recipe s = None /\ w_step w = None /\
      exists f, step_failure s = Some f /\ (w_stop w = true -> f = FCancelled)).

Definition step_post (p : Pass) (i : nat) (r : Loop * bool) (w : Watch) : Prop :=
  if snd r then going (fst r) /\ exists lane safe handed ready, w = idle_at p (fst r) (Z.of_nat (S i)) lane safe handed ready
  else broke p (fst r) w.

Definition loop_post (p : Pass) (n : nat) (s : Loop) (w : Watch) : Prop :=
  broke p s w \/ going s /\ exists lane safe handed ready, w = idle_at p s (Z.of_nat n) lane safe handed ready.

Section loop.
Context `{RunHost, VaultLibs} (allow : bool).
Local Notation runs run := (Trace.runs (watch allow run) watch_init).

Lemma runs_write {A : Type} (run : Z) (w : Watch) (s : Stmt) (k : bool -> W Ev A) (Q : A -> Watch -> Prop) :
  run_stmt s = true -> (forall b, runs run w (k b) Q) -> runs run w (let^ b := write s in k b) Q.
Proof. intros Hs Hk. apply runs_act. intros b. exists w. split; [|done]. destruct w. unfold watch. by rewrite Hs. Qed.

Ltac accept := cbn; unfold at_step; cbn; repeat first [rewrite Z.eqb_refl | rewrite bool_decide_eq_true_2 by done | progress cbn]; reflexivity.

(** One action. *)
Ltac go :=
  lazymatch goal with
  | |- Trace.runs _ _ _ (wret _) _ => apply runs_ret
  | |- Trace.runs _ _ _ (wbind (note _) _) _ => eapply runs_note; [accept|]
  | |- Trace.runs _ _ _ (wbind (emit_frame _) _) _ => eapply runs_note; [accept|]
  | |- Trace.runs _ _ _ (wbind (step_frame _ _ _ _) _) _ => eapply runs_note; [accept|]
  | |- Trace.runs _ _ _ (wbind (ask _) _) _ => apply runs_ask; intros ?
  | |- Trace.runs _ _ _ (wbind (write _) _) _ => apply runs_write; [done|intros ?]
  | |- Trace.runs _ _ _ (match ?x with _ => _ end) _ => destruct x eqn:?
  end.

Lemma succeed_step_runs (p : Pass) (i : nat) (ty : string) (ex : gmap string json) (s : Loop) lane safe handed ready : going s ->
  runs (run p) (open_at p s (Z.of_nat i) lane safe handed ready) (succeed_step p i ty ex s) (step_post p i).
Proof.
  intros Hs. unfold succeed_step, open_at. go. go. apply runs_ret. split; [done|]. exists lane, safe, handed, ready.
  unfold idle_at. cbn. f_equal. lia.
Qed.

Lemma fail_step_runs (p : Pass) (i : nat) (ty : string) (f : RunFailure) (s : Loop) lane safe handed ready : going s ->
  runs (run p) (open_at p s (Z.of_nat i) lane safe handed ready) (fail_step p i ty f s) (step_post p i).
Proof.
  intros (_ & Hp & Hr). unfold fail_step, open_at. go. apply runs_ret. unfold step_post, broke. cbn. split_and!; [done..|].
  right. split_and!; [done..|]. by exists f.
Qed.

Lemma skip_step_runs (p : Pass) (i : nat) (ty : string) (s : Loop) lane safe handed : going s ->
  runs (run p) (idle_at p s (Z.of_nat i) lane safe handed true) (skip_step p i ty s) (step_post p i).
Proof.
  intros Hs. unfold skip_step, idle_at. go. apply runs_ret. split; [done|]. exists lane, safe, handed, false.
  unfold idle_at. cbn. f_equal. lia.
Qed.

Ltac settled := first [by apply succeed_step_runs | by apply fail_step_runs].

Lemma download_step_runs (p : Pass) (i : nat) (ty : string) (raw : json) (s : Loop) lane safe handed : going s ->
  runs (run p) (idle_at p s (Z.of_nat i) lane safe handed true) (download_step p i ty raw s) (step_post p i).
Proof.
  intros Hs. unfold download_step, idle_at. go. fold (open_at p s (Z.of_nat i) lane safe handed false).
  destruct (config_error _) as [e|]; [settled|]. unfold open_at. go. go.
  destruct a as [[file key]|e]; [|by apply (fail_step_runs p i ty _ s lane safe handed false)].
  by apply (succeed_step_runs p i ty _ (add_output file s) lane safe handed false).
Qed.

Lemma totp_step_runs (p : Pass) (i : nat) (ty : string) (s : Loop) lane safe handed : going s ->
  runs (run p) (open_at p s (Z.of_nat i) lane safe handed false) (totp_step p i ty s) (step_post p i).
Proof.
  intros Hs. unfold totp_step. go.
  apply (runs_bind _ _ _ _ _ (fun _ w => w = open_at p s (Z.of_nat i) lane safe handed false)).
  { destruct a; [by apply runs_ret|]. intros l Hl. by exists (open_at p s (Z.of_nat i) lane safe handed false). }
  intros recorded w ->. destruct recorded; cbn [negb]; [|settled]. go. destruct a0 as [[]|e]; [|go; settled|settled].
  unfold open_at. go. go. destruct a0; by first [apply fail_step_runs|apply succeed_step_runs].
Qed.

Lemma twofa_step_runs (p : Pass) (i : nat) (ty : string) (s : Loop) lane safe handed : going s ->
  runs (run p) (idle_at p s (Z.of_nat i) lane safe handed true) (twofa_step p i ty s) (step_post p i).
Proof.
  intros Hs. unfold twofa_step, idle_at. go. fold (open_at p s (Z.of_nat i) lane safe handed false).
  destruct (str_eqb _ "none"); [go; destruct a; [go|]; settled|].
  destruct (str_eqb _ "totp"); [by apply totp_step_runs|]. destruct (by_mail _); [go|]; settled.
Qed.

(** With the lock held. *)
Definition repairing_at (p : Pass) (s : Loop) (i : Z) (lane : bool) (safe : option string) (handed : bool) : Watch :=
  mkWatch (total p) lane true true safe i (completed s) (Some i) false handed true false false.

Lemma repairing_open (p : Pass) (s : Loop) (i : Z) lane safe handed : repair_guard s = true ->
  repairing_at p s i lane safe handed = open_at p s i lane safe handed false.
Proof. unfold repairing_at, open_at. by intros ->. Qed.

Lemma smart_repair_runs (p : Pass) (i : nat) (ty : string) (e : StepError) (s : Loop) lane safe handed :
  going s -> repair_guard s = true ->
  runs (run p) (repairing_at p s (Z.of_nat i) lane safe handed) (smart_repair p i ty e s) (step_post p i).
Proof.
  intros Hs Hg. unfold smart_repair, repairing_at. go. go. go. fold (repairing_at p s (Z.of_nat i) lane safe true). go.
  destruct a as [new|m|].
  - apply runs_ret. unfold step_post, broke. cbn. rewrite Hg. split_and!; [done..|]. left. split_and!; [by right; eexists|done|done].
  - rewrite repairing_open by done. settled.
  - go. unfold ordinary_failure. rewrite repairing_open by done. settled.
Qed.

Lemma retry_step_runs (p : Pass) (i : nat) (ty : string) (config : json) (sel : string) (e : StepError) (s : Loop) lane safe handed :
  going s -> repair_guard s = true ->
  runs (run p) (repairing_at p s (Z.of_nat i) lane safe handed) (retry_step p i ty config sel e s) (step_post p i).
Proof.
  intros Hs Hg. unfold retry_step, repairing_at. go. go. fold (repairing_at p s (Z.of_nat i) lane safe handed).
  rewrite repairing_open by done. go. destruct a as [data|e'].
  - go. eapply runs_bind; [by apply (succeed_step_runs p i ty (default ∅ data ∪ extracted s) (add_repair i sel s) lane safe handed false)|].
    intros sc w Hw. go. by apply runs_ret.
  - go. unfold ordinary_failure. settled.
Qed.

Lemma repair_step_runs (p : Pass) (i : nat) (ty : string) (config : json) (e : StepError) (s : Loop) lane safe handed :
  going s -> repair_guard s = true ->
  runs (run p) (repairing_at p s (Z.of_nat i) lane safe handed) (repair_step p i ty config e s) (step_post p i).
Proof.
  intros Hs Hg. unfold repair_step, repairing_at. go. go. go. fold (repairing_at p s (Z.of_nat i) lane safe handed). go.
  destruct a as [sel|m|]; [by apply retry_step_runs|rewrite repairing_open by done; settled|by apply smart_repair_runs].
Qed.

Lemma broken_step_runs (p : Pass) (i : nat) (ty : string) (config : json) (e : StepError) (s : Loop) lane safe handed : going s ->
  runs (run p) (open_at p s (Z.of_nat i) lane safe handed false) (broken_step p i ty config e s) (step_post p i).
Proof.
  intros Hs. unfold broken_step. destruct (cloud_build && _); [|unfold ordinary_failure; settled]. unfold repair_or_wait.
  destruct (repair_guard s) eqn:Hg; [rewrite <- repairing_open by done; by apply repair_step_runs|].
  go. unfold open_at. rewrite Hg. destruct a.
  - go. by apply (repair_step_runs p i ty config e (hold_guard s) lane safe handed).
  - go. go. apply runs_ret. unfold step_post, broke. cbn. split_and!; [done..|]. left. by split_and!; [left|..].
Qed.

Lemma executor_step_runs (p : Pass) (i : nat) (ty : string) (raw : json) (s : Loop) lane safe handed : going s ->
  runs (run p) (idle_at p s (Z.of_nat i) lane safe handed true) (executor_step p i ty raw s) (step_post p i).
Proof.
  intros Hs. unfold executor_step. destruct (config_error _); [by apply skip_step_runs|]. unfold idle_at. go. go.
  fold (open_at p s (Z.of_nat i) lane safe handed false). go. destruct a as [data|e]; [settled|].
  destruct (is_captcha e); [go; settled|by apply broken_step_runs].
Qed.

Lemma one_step_runs (p : Pass) (i : nat) (raw : json) (s : Loop) lane safe handed ready : going s ->
  runs (run p) (idle_at p s (Z.of_nat i) lane safe handed ready) (one_step p i raw s) (step_post p i).
Proof.
  intros Hs. unfold one_step. apply runs_act. intros c. unfold idle_at. destruct c.
  - eexists. split; [accept|]. apply runs_ret. destruct Hs as (_ & ? & ?). unfold step_post, broke. cbn. split_and!; [done..|].
    right. split_and!; [done..|]. by exists FCancelled.
  - eexists. split; [accept|]. fold (idle_at p s (Z.of_nat i) lane safe handed true).
    destruct (is_empty _ || _); [by apply skip_step_runs|].
    destruct (str_eqb _ "wait_for_download"); [by apply download_step_runs|].
    destruct (str_eqb _ "twofa"); [by apply twofa_step_runs|].
    destruct (negb (is_dispatchable _)); [by apply skip_step_runs|by apply executor_step_runs].
Qed.

Lemma run_steps_runs (p : Pass) (todo : list json) (i : nat) (s : Loop) lane safe handed ready : going s ->
  runs (run p) (idle_at p s (Z.of_nat i) lane safe handed ready) (run_steps p i todo s) (loop_post p (i + length todo)).
Proof.
  revert i s lane safe handed ready. induction todo as [|raw todo IH]; intros i s lane safe handed ready Hs; cbn [run_steps length].
  - apply runs_ret. right. split; [done|]. rewrite Nat.add_0_r. by exists lane, safe, handed, ready.
  - eapply runs_bind; [by apply one_step_runs|]. intros [s' c] w Hw. cbn [fst snd]. destruct c.
    + destruct Hw as (Hs' & lane' & safe' & handed' & ready' & ->). rewrite <- Nat.add_succ_comm. by apply IH.
    + apply runs_ret. by left.
Qed.

(** ** Before the steps *)

(** Between two passes: no context, no step. *)
Definition at_rest (held : bool) (w : Watch) : Prop :=
  w_ctx w = false /\ w_step w = None /\ w_lock w = held /\ w_stop w = false.

Definition pass_post (e : PassEnd) (w : Watch) : Prop :=
  match e with
  | Return r held =>
      w_ctx w = false /\ w_lock w = held /\ (w_stop w = true -> r = Err FCancelled) /\
      match r with
      | Ok _ => if w_browsed w then w_failed w = false /\ w_next w = w_total w else w_lane w = true
      | Err _ => True
      end
  | WaitedRestart held | RecipeRestart held => at_rest held w
  end.

Lemma rest_read (run : Z) (ev : Ev) (held : bool) (w : Watch) : at_rest held w ->
  match ev with SecretRead _ => allow = true | PersonaRead _ | FileRead _ | Warmed _ => True | _ => False end ->
  watch allow run ev w = Some w.
Proof. destruct w. intros (E1 & _ & _ & E2). cbn in *. subst. destruct ev; try done. by intros ->. Qed.

Context (vault : RootKey).

Definition same {A : Type} (w : Watch) : A -> Watch -> Prop := fun _ w' => w' = w.

Lemma resolve_keys_runs (run : Z) (held : bool) (w : Watch) (keys : list string) (c : gmap string string) :
  allow = true -> at_rest held w -> runs run w (resolve_keys vault keys c) (same w).
Proof.
  intros Hallow Hw. revert c. induction keys as [|key keys IH]; intros c; cbn [resolve_keys]; [by apply runs_ret|].
  apply (runs_bind _ _ _ _ _ (same w)); [|intros r ? ->; destruct r; [apply IH|by apply runs_ret]].
  assert (Hread : forall k (f : _ -> W Ev (result (gmap string string) LocalError)),
    (forall r, runs run w (f r) (same w)) -> runs run w (let^ r := get_by_key k in f r) (same w)).
  { intros k f Hf. apply (runs_act _ _ _ (fun l => secret_row l k) (fun _ => SecretRead k)). intros r. exists w. split; [|apply Hf]. by eapply rest_read. }
  unfold resolve_key. destruct (c !! key); [by apply runs_ret|]. apply Hread. intros [[row|]|e]; [| |by apply runs_ret].
  - apply (runs_bind _ _ _ _ _ (same w)); [|intros ? ? ->; by apply runs_ret]. unfold exact_secret.
    destruct (open_field _ _ _); [|by apply runs_ret]. destruct (from_utf8 _); [|by apply runs_ret]. go. by apply runs_ret.
  - destruct (rsplit_dot key) as [[base field]|]; [|by apply runs_ret]. apply Hread. intros [[row|]|e]; [|by apply runs_ret..].
    apply (runs_bind _ _ _ _ _ (same w)); [|intros ? ? ->; by apply runs_ret]. unfold field_secret.
    destruct (open_field _ _ _); [|by apply runs_ret]. destruct ((parse_json _ ≫= _) ≫= _); [|by apply runs_ret]. go. by apply runs_ret.
Qed.

Lemma resolve_run_refs_runs (run : Z) (held : bool) (w : Watch) (wf : Workflow) (inp : json) : at_rest held w ->
  runs run w (resolve_run_refs vault wf inp allow) (same w).
Proof.
  intros Hw. unfold resolve_run_refs. destruct allow eqn:Hallow; cbn [negb]; [|by apply runs_ret].
  rewrite <- Hallow. eapply runs_bind; [by eapply resolve_keys_runs|]. intros r ? ->. by apply runs_ret.
Qed.

Lemma materialize_all_runs (run : Z) (held : bool) (w : Watch) (todo : list (string * list string)) : at_rest held w ->
  runs run w (materialize_all todo) (same w).
Proof.
  intros Hw. induction todo as [|[f slots] todo IH]; cbn [materialize_all]; [by apply runs_ret|].
  apply (runs_bind _ _ _ _ _ (same w)).
  - unfold materialize. eapply runs_note; [by eapply rest_read|]. go. destruct (negb a); [by apply runs_ret|]. go. by apply runs_ret.
  - intros r ? ->. eapply runs_bind; [exact IH|]. intros rest ? ->. by apply runs_ret.
Qed.

Lemma run_files_runs (run : Z) (held : bool) (w : Watch) (raw : list json) (inp : json) : at_rest held w ->
  runs run w (run_files raw inp) (same w).
Proof.
  intros Hw. unfold run_files. apply (runs_bind _ _ _ _ _ (same w)).
  - destruct (pinned_files raw); [by apply runs_ret|]. go. destruct a; [by eapply materialize_all_runs|by apply runs_ret].
  - intros mine ? ->. apply (runs_bind _ _ _ _ _ (same w)).
    + destruct (bindings inp); [|by apply runs_ret]. go. destruct a; [by eapply materialize_all_runs|by apply runs_ret].
    + intros theirs ? ->. by apply runs_ret.
Qed.

(** The state of a run whose steps are known. *)
Definition prepared (n : nat) (lane held ready : bool) : Watch := mkWatch (Z.of_nat n) lane false false None 0 0 None false false held ready false.

Definition prepare_post (held : bool) (r : (list json * option ResolvedPersona) + PassEnd) (w : Watch) : Prop :=
  match r with
  | inl (raw, _) => w = prepared (length raw) false held true
  | inr e => pass_post e w
  end.

(** A run that ends before its browser. *)
Lemma failed_at_rest (f : RunFailure) (held : bool) (w : Watch) : at_rest held w -> pass_post (Return (Err f) held) w.
Proof. intros (? & _ & ? & Hs). cbn. split_and!; [done|done|congruence|done]. Qed.

Lemma prepared_rest (n : nat) (lane held ready : bool) : at_rest held (prepared n lane held ready).
Proof. done. Qed.
Hint Resolve failed_at_rest prepared_rest : core.

Lemma prepare_runs (run : Z) (wf : Workflow) (req : RunRequest) (held : bool) (w : Watch) : allow_local_secret_refs req = allow -> at_rest held w ->
  runs run w (prepare vault wf req held) (prepare_post held).
Proof.
  intros Hreq Hw. unfold prepare. rewrite Hreq. apply runs_act. intros c. destruct c.
  { destruct w, Hw as (? & ? & ? & ?). cbn in *. subst. eexists. split; [accept|]. apply runs_ret. cbn. by split_and!. }
  set (w1 := mkWatch (w_total w) (w_lane w) (w_browsed w) false (w_safe w) (w_next w) (w_done w) None (w_failed w) (w_handed w) held true false).
  exists w1. split; [destruct w, Hw as (? & ? & ? & ?); cbn in *; by subst|].
  assert (Hw1 : at_rest held w1) by done.
  eapply runs_bind; [by eapply resolve_run_refs_runs|]. intros [refs|e] ? ->; [|apply runs_ret; by apply failed_at_rest].
  destruct (parse_steps _) as [raw|e]; [|apply runs_ret; by apply failed_at_rest]. subst w1. go.
  fold (prepared (length raw) false held false). set (w2 := prepared (length raw) false held false).
  assert (Hw2 : at_rest held w2) by done.
  apply (runs_bind _ _ _ _ _ (same w2)).
  { destruct (match persona_id req with Some i => Some i | None => default_persona_id wf end) as [i|]; [|by apply runs_ret].
    intros l Hl. exists w2. split; [|done]. cbn. by rewrite Hl. }
  intros [persona|e] ? ->; [|apply runs_ret; by apply failed_at_rest].
  destruct (twofa_gate _ _ _) as [f|]; [apply runs_ret; by apply failed_at_rest|].
  eapply runs_bind; [by eapply run_files_runs|]. intros files ? ->. apply runs_act. intros c. subst w2.
  destruct c; (eexists; split; [accept|]); apply runs_ret; [|done]. cbn. by split_and!.
Qed.

Definition lane_post (n : nat) (held : bool) (r : option string + PassEnd) (w : Watch) : Prop :=
  match r with
  | inl _ => exists lane, w = prepared n lane held true
  | inr e => pass_post e w
  end.

Lemma try_lane_runs (run : Z) (wf : Workflow) (raw : list json) (held : bool) :
  runs run (prepared (length raw) false held true) (try_lane wf raw held) (lane_post (length raw) held).
Proof.
  assert (Hgo : forall data, runs run (prepared (length raw) false held true)
    (note (LaneTried data) ;^ let^ r := ask lane_answer in
     match r with
     | LaneDone ex => wret (inr (Return (Ok ex) held))
     | LaneFailed f => wret (inr (Return (Err f) held))
     | LaneFallback reason => wret (inl (Some reason))
     end) (lane_post (length raw) held)).
  { intros data. unfold prepared. go. go. destruct a as [ex|reason|f]; apply runs_ret; cbn; [by split_and!|by exists true|by split_and!]. }
  unfold try_lane. destruct (http_capable wf =? 0); [apply runs_ret; by exists false|].
  destruct (hybrid_browser_range wf) as [range|]; [|destruct (eligible _); [apply Hgo|apply runs_ret; by exists false]].
  apply (runs_bind _ _ _ _ _ (same (prepared (length raw) false held true))).
  - destruct (eligible _); [|by apply runs_ret]. unfold has_fresh_workflow_session. destruct (_ =? 0); [by apply runs_ret|].
    intros l Hl. by eexists.
  - intros fresh ? ->. destruct fresh; [apply Hgo|apply runs_ret; by exists false].
Qed.

(** ** After the steps *)

Lemma write_back_runs (run : Z) (w : Watch) (raw : list json) (rs : list (nat * string)) : runs run w (write_back raw rs) (same w).
Proof. destruct rs; cbn [write_back]; [by apply runs_ret|]. go. destruct b; [go|]; by apply runs_ret. Qed.

Lemma persist_runs (run : Z) (w : Watch) (old new : list json) : runs run w (persist_repaired_recipe old new) (same w).
Proof. unfold persist_repaired_recipe. go. go. destruct b0; [go|]; by apply runs_ret. Qed.

Lemma when_runs (run : Z) (w : Watch) (b : bool) (e : Ev) : (b = true -> watch allow run e w = Some w) ->
  runs run w (if b then note e else wret tt) (same w).
Proof. intros He. destruct b; [|by apply runs_ret]. intros l Hl. exists w. split; [|done]. cbn. rewrite Hl. by apply He. Qed.

(** The end of a pass whose steps all settled or one of which failed. *)
Lemma finish_pass_runs (p : Pass) (hybrid : bool) (fallback : option string) (s : Loop) (w : Watch) :
  w_ctx w = true -> w_browsed w = true -> w_lock w = repair_guard s -> w_step w = None ->
  match step_failure s with
  | Some f => w_stop w = true -> f = FCancelled
  | None => w_stop w = false /\ w_failed w = false /\ w_next w = w_total w
  end ->
  runs (run p) w (finish_pass p hybrid fallback s) pass_post.
Proof.
  intros Hc Hb Hl Hst Hf. unfold finish_pass. eapply runs_bind; [apply write_back_runs|]. intros ? ? ->.
  assert (Hsave : forall e, is_none (step_failure s) = true ->
    match e with SessionSaved | PersonaSaved _ => True | _ => False end -> watch allow (run p) e w = Some w).
  { intros e Hok He. destruct (step_failure s); [done|]. destruct Hf as (E1 & E2 & _). destruct w. cbn in *. subst. by destruct e. }
  eapply runs_bind; [apply when_runs; intros E; apply andb_prop in E as [E _]; apply andb_prop in E as [E _]; by apply Hsave|].
  intros ? ? ->. apply (runs_bind _ _ _ _ _ (same w)).
  { destruct (is_none (step_failure s)) eqn:Eok; cbn [andb]; [|by apply runs_ret]. destruct (_ || _); [|by apply runs_ret].
    destruct (persona p) as [q|]; [|by apply runs_ret]. apply (when_runs _ _ true). intros _. by apply Hsave. }
  intros ? ? ->. destruct w as [n lane br ctx safe next done step failed handed lock ready stop]. cbn in Hc, Hb, Hl, Hst. subst.
  go. set (w' := mkWatch _ _ _ _ _ _ _ _ _ _ _ _ _). apply (runs_bind _ _ _ _ _ (same w')).
  { destruct (_ && _); [go|]; by apply runs_ret. }
  intros ? ? ->. apply runs_ret. subst w'. cbn in *. destruct (step_failure s) as [f|]; split_and!; try done.
  - intros Es. by rewrite Hf.
  - by destruct Hf as (-> & _).
  - by destruct Hf as (_ & -> & _).
  - by destruct Hf as (_ & _ & ?).
Qed.

Lemma after_steps_runs (p : Pass) (hybrid : bool) (fallback : option string) (s : Loop) (w : Watch) :
  loop_post p (length (raw_steps p)) s w -> runs (run p) w (after_steps p hybrid fallback s) pass_post.
Proof.
  intros [(Hc & Hbr & Hl & [(Hh & Hhand & Hstop)|(Hr & Hp & Hst & f & Hf & Hfs)])|((Hf & Hp & Hr) & lane & safe & handed & ready & ->)].
  - destruct w as [n lane br ctx safe next done step failed handed lock ready stop]. cbn in *. subst. unfold after_steps.
    assert (Hclose : forall A (k : unit -> W Ev A) Q,
      runs (run p) (mkWatch n lane true false None next done None failed true (repair_guard s) false false) (k tt) Q ->
      runs (run p) (mkWatch n lane true true safe next done step failed true (repair_guard s) ready false) (wbind (note ContextClosed) k) Q).
    { intros A k Q Hk. eapply runs_note; [|exact Hk]. destruct step; reflexivity. }
    destruct (restart_from_concurrent s); [apply Hclose; by apply runs_ret|].
    destruct Hh as [?|[new ->]]; [done|]. apply Hclose. eapply runs_bind; [apply persist_runs|]. intros ? ? ->. go. by apply runs_ret.
  - unfold after_steps. rewrite Hr, Hp. apply finish_pass_runs; [done..|]. by rewrite Hf.
  - unfold after_steps. rewrite Hr, Hp. apply finish_pass_runs; [done..|]. by rewrite Hf.
Qed.

Lemma browse_runs (p : Pass) (hybrid : bool) (fallback : option string) (held lane : bool) :
  runs (run p) (prepared (length (raw_steps p)) lane held true) (browse p hybrid fallback held) pass_post.
Proof.
  unfold browse, prepared. go. go. destruct a as [e|]; [by apply runs_ret|]. go. destruct a as [e|]; [by apply runs_ret|]. go.
  set (entry := entry_of (wf p)). apply runs_act. intros safe. destruct safe; cbn [negb].
  - eexists. split; [accept|]. go. go. destruct a as [e|]; [go; by apply runs_ret|].
    eapply runs_bind; [by apply (run_steps_runs p (raw_steps p) 0 (loop_init held) lane (Some entry) false false)|].
    intros s w Hw. by apply after_steps_runs.
  - eexists. split; [accept|]. go. by apply runs_ret.
Qed.

Lemma run_pass_runs (run_id : Z) (wf : Workflow) (req : RunRequest) (restarts : nat) (held : bool) (w : Watch) :
  allow_local_secret_refs req = allow -> at_rest held w -> runs run_id w (run_pass vault run_id wf req restarts held) pass_post.
Proof.
  intros Hreq Hw. unfold run_pass. eapply runs_bind; [by apply prepare_runs|]. intros [[raw persona]|e] w1 Hw1; [|by apply runs_ret].
  cbn in Hw1. subst w1. eapply runs_bind; [apply try_lane_runs|]. intros [fallback|e] w2 Hw2; [|by apply runs_ret].
  destruct Hw2 as [lane ->]. apply (browse_runs (mkPass run_id wf persona raw restarts)).
Qed.

Lemma release_runs (run : Z) (held : bool) (w : Watch) (r : outcome) :
  pass_post (Return r held) w -> runs run w (release held ;^ wret r) end_ok.
Proof.
  intros Hw. destruct w as [n lane br ctx safe next done step failed handed lock ready stop]. cbn in Hw. destruct Hw as (-> & -> & Hs & Hr).
  unfold release. destruct held; [go|]; by apply runs_ret.
Qed.

Lemma gave_up_runs (run : Z) (held : bool) (w : Watch) (m : string) :
  at_rest held w -> runs run w (release held ;^ wret (Err (FStep m "infra"))) end_ok.
Proof. intros Hw. apply release_runs. by apply failed_at_rest. Qed.

Lemma execute_runs (restarts : nat) (run_id : Z) (wf : Workflow) (req : RunRequest) (held : bool) (w : Watch) :
  allow_local_secret_refs req = allow -> at_rest held w -> runs run_id w (execute vault restarts run_id wf req held) end_ok.
Proof.
  intros Hreq. revert wf held w. induction restarts as [|n IH]; intros wf held w Hw; cbn [execute];
    (eapply runs_bind; [by apply run_pass_runs|]); intros [r h|h|h] w1 Hw1; try by apply release_runs.
  - by apply gave_up_runs.
  - by apply gave_up_runs.
  - go. destruct a as [fresh|]; [by apply IH|by apply gave_up_runs].
  - go. destruct a as [fresh|]; [go; by apply IH|by apply gave_up_runs].
Qed.
End loop.

(** C9: Whatever the browser, the gateway, the database and the other runs of the workflow do, what a run does is accepted by
    the automaton: the vault's secrets are read only by a run that may use them; secrets, persona and files are read and the
    lane is tried with no context open; one context at a time, and
    it is closed on every way out; the page goes only to an entry the URL guard passed; a step starts in its turn and after a
    look for a cancel, its frames are in order with one end, unless it is left to a repair, and the progress counts the steps
    that succeeded; after a cancel is seen nothing is started; a repair is asked for only under the lock of the workflow, a run
    never waits for the lock it holds, and it gives it back; a session is kept only from a run without a failed step. And a
    cancel that was seen is the outcome, and a success settled every step of the last recipe without a failure. *)
Theorem engine_run_audited `{RunHost, VaultLibs} (vault : RootKey) (restarts : nat) (run_id : Z) (wf : Workflow) (req : RunRequest) :
  let '(r, l) := execute vault restarts run_id wf req false [] in
  exists w, audit (allow_local_secret_refs req) run_id l = Some w /\ end_ok r w.
Proof.
  destruct (execute_runs (allow_local_secret_refs req) vault restarts run_id wf req false watch_init eq_refl ltac:(done) [] eq_refl) as (w & Hw & Hr).
  destruct (execute _ _ _ _ _ _ _) as [r l]. by exists w.
Qed.
