(* ===== verification/RunLife.v ===== *)
(** * local/engine/real.rs: the life of a run, from its row to its last frame

    [run_inner] opens the row and registers the run, [run_body] drives [RunEngine.execute] in a task of its own, writes the
    outcome and takes the run off the table. The task may also panic, or exceed the budget of the run and be aborted: the run
    then has the first events of the task, and a statement that was under way when it was aborted may still reach the database,
    after those of the outcome. The billing of a marketplace run is not modelled. *)

From Stdlib Require Import Ascii String.
From S2P Require Import Prelude Ints Str Json VaultRoot RunWorld RunRefs RunEngine RunAudit Registry.
From S2P Require RunRows.
Open Scope string_scope.
Open Scope list_scope.
Open Scope Z_scope.
Open Scope trace_scope.

(** ** Budget and gauge *)

Definition MIN_RUN_BUDGET : Z := 120 * 1000.
Definition MAX_RUN_BUDGET : Z := 2 * 3600 * 1000.
Definition RUN_BUDGET_OVERHEAD_STEPS : Z := 4.

Definition sat_u64 (z : Z) : Z := Z.min z u64_max.

(** In milliseconds; [steps] is a machine word. *)
Definition overall_run_budget (timeout_ms steps : Z) : Z :=
  let per_step_ms := if 0 <? timeout_ms then timeout_ms else 60000 in
  let units := sat_u64 (steps + RUN_BUDGET_OVERHEAD_STEPS) in
  clamp MIN_RUN_BUDGET MAX_RUN_BUDGET (sat_u64 (per_step_ms * units)).

(** [ActiveRunGuard]: the gauge of active runs, a machine word, before and after. *)
Definition gauge_new (n : Z) : Z := as_u64 (n + 1).
Definition gauge_drop (n : Z) : Z := Z.max 0 (n - 1).

Section life.
Context `{RunHost, VaultLibs} (vault : RootKey).

Definition step_count_hint (wf : Workflow) : Z := match parse_json (steps wf) with Some (JArr l) => Z.of_nat (length l) | _ => 0 end.

Definition trigger_type_for (s : RunSource) : string :=
  match s with
  | Manual => "manual"
  | Api | Mcp => "api"
  | Scheduled => "scheduled"
  | Webhook => "webhook"
  | WorkflowSource => "workflow"
  | Monitor => "on_change"
  | CloudAgent => "cloud"
  end.

(** ** The outcome *)

Record RunResult : Type := mkResult {
  rr_run_id : Z;
  rr_status : RunStatus;
  rr_success : bool;
  rr_error : option string;
  rr_extracted : gmap string json;
  rr_duration_ms : Z;
}.

(** The text of a status in the row. *)
Definition status_text (s : RunStatus) : string :=
  match s with
  | Running => "running"
  | Success => "success"
  | Failed => "failed"
  | Cancelled => "cancelled"
  | Timeout => "timeout"
  | CaptchaRequired => "captcha_required"
  | TwofaRequired => "twofa_required"
  end.

Definition of_map (m : gmap string json) : json := JObj (map_to_list m).

(** [result_data] of a success, and the extracted data without its stamps. *)
Definition result_data (ex : gmap string json) : gmap string json * json :=
  let files := ex !! "output_files" in
  let engine := default "browser" (delete "output_files" ex !! "_engine" ≫= json_as_str) in
  let fallback := ex !! "_engine_fallback" in
  let data := delete "_engine_fallback" (delete "_engine" (delete "output_files" ex)) in
  (data, JObj ([("success", JBool true); ("extracted_data", of_map data); ("engine", JStr engine)]
               ++ match fallback with Some f => [("engine_fallback", f)] | None => [] end
               ++ match files with Some f => [("output_files", f)] | None => [] end)).

Definition persona_gap (method : string) : bool := any (str_eqb method) ["persona_missing"; "persona_no_method"; "totp_seed_missing"].

(** Status, message and category of a failure, and whether the workflow's counters take it as a success. *)
Definition failure_row (f : RunFailure) : RunStatus * string * string * bool :=
  match f with
  | FCaptcha m _ => (CaptchaRequired, m, "captcha", true)
  | FTwofa method m _ => (TwofaRequired, m, if persona_gap method then "twofa_persona" else "twofa", true)
  | FTimeout m => (Timeout, m, "infra", true)
  | FCancelled => (Cancelled, "run cancelled", "cancelled", true)
  | FStep m c => (Failed, m, c, false)
  end.

Definition record_rollup (workflow : option Z) (ok : bool) (error : option string) : W Ev unit :=
  match workflow with
  | Some _ => let^ _ := write (RecordOutcome ok error) in wret tt
  | None => wret tt
  end.

Definition finalize (run_id : Z) (workflow : option Z) (o : outcome) (duration : Z) : W Ev RunResult :=
  match o with
  | Ok ex =>
      let '(data, rd) := result_data ex in
      let^ _ := write (Complete (json_to_string rd) (as_i64 duration)) in
      record_rollup workflow true None ;^
      wret (mkResult run_id Success true None data duration)
  | Err f =>
      let '(st, m, c, ok) := failure_row f in
      let^ _ := write (Fail (status_text st) m c (as_i64 duration)) in
      record_rollup workflow ok (if ok then None else Some m) ;^
      wret (mkResult run_id st false (Some m) ∅ duration)
  end.

(** ** The body of a run *)

(** How the task of a run ends: it returns; it panics after [k] events; it is aborted after [k] events, and the event after
    them, if it is a statement, may still be carried out. *)
Inductive Fate : Type := Joined | Panicked (k : nat) | Aborted (k : nat) (late : bool).

Definition frames (l : list Ev) : list RunEvent := omap (fun e => match e with Emitted e => Some e | _ => None end) (rev l).

(** The first [k] events. *)
Definition first_events (k : nat) (l : list Ev) : list Ev := drop (length l - k) l.

Definition in_flight_stmt (k : nat) (l : list Ev) : list Ev :=
  match rev l !! k with Some (Wrote s true) => [Wrote s true] | _ => [] end.

Definition budget_message (budget : Z) : string :=
  String.concat "" ["Run exceeded its overall time budget of "; Z_to_string (budget / 1000); "s and was stopped."].

Definition panic_failure : RunFailure := FStep "Internal error: a workflow step panicked" "infra".

(** The outcome and the events of the task, and the statement that comes after those of the outcome. *)
Definition task (run_id : Z) (wf : Workflow) (req : RunRequest) (fate : Fate) : outcome * list Ev * list Ev :=
  let '(o, l) := execute vault 1 run_id wf req false [] in
  match fate with
  | Joined => (o, l, [])
  | Panicked k => (Err panic_failure, first_events k l, [])
  | Aborted k late =>
      (Err (FTimeout (budget_message (overall_run_budget (timeout_ms wf) (step_count_hint wf)))), first_events k l,
       if late then in_flight_stmt k l else [])
  end.

(** The registry is the part of the state that other runs share. *)
Definition run_body (g : EmitGuard) (wf : Workflow) (rollup : option Z) (req : RunRequest) (fate : Fate) (duration : Z)
    (r : RunRegistry) : RunResult * list Ev * RunRegistry :=
  let id := Registry.run_id g in
  let r := emit g (Started id (step_count_hint wf)) r in
  let '(o, l, late) := task id wf req fate in
  let r := foldl (fun r e => send (handle g) e r) r (frames l) in
  let r := match fate with Aborted _ _ => snd (token_cancel (handle g) r) | _ => r end in
  let '(res, l) := finalize id rollup o duration l in
  (res, late ++ l, finish g (rr_status res) r).

(** ** The statements of a run on its row and its counters *)

Definition apply_stmt (run_id : Z) (now : string) (e : Ev) (t : gmap Z RunRows.Run) : gmap Z RunRows.Run :=
  match e with
  | Wrote (SetStatus s) true => fst (RunRows.set_status t run_id s)
  | Wrote (SetRepairOutcome b) true => fst (RunRows.set_repair_outcome t run_id b)
  | Wrote (Complete d ms) true => fst (RunRows.complete t run_id now (Some d) (Some ms))
  | Wrote (Fail s m c ms) true => fst (RunRows.fail t run_id now s (Some m) (Some c) (Some ms))
  | _ => t
  end.
Definition rows_after (run_id : Z) (now : string) (l : list Ev) (t : gmap Z RunRows.Run) : gmap Z RunRows.Run :=
  foldr (apply_stmt run_id now) t l.

Definition apply_rollup (now : string) (e : Ev) (w : RunRows.Rollup) : RunRows.Rollup :=
  match e with Wrote (RecordOutcome ok err) true => RunRows.record_run_outcome now ok err w | _ => w end.
Definition rollup_after (now : string) (l : list Ev) (w : RunRows.Rollup) : RunRows.Rollup := foldr (apply_rollup now) w l.
End life.

(** ** Starting a run *)

(** What other runs share of the engine, and the rows. *)
Record Engine : Type := mkEngine {
  registry : RunRegistry;
  rows : gmap Z RunRows.Run;
  active : Z;
}.

(** What a start meets: the reason the governor refuses it, the workflow, whether it is being repaired and what it is after, the
    recipe of a marketplace proxy, the identifier of the new row. *)
Record Boot : Type := mkBoot {
  b_reject : option string;
  b_load : result (option Workflow) LocalError;
  b_repairing : bool;
  b_reload : result (option Workflow) LocalError;
  b_marketplace : option (result (Workflow * RunRequest) LocalError);
  b_insert : option Z;
}.

Section start.
Context `{RunHost, VaultLibs} (vault : RootKey).

Definition load_workflow (row : result (option Workflow) LocalError) (req : RunRequest) : result Workflow LocalError :=
  match row with
  | Ok (Some wf) => Ok wf
  | Ok None => Err (NotFound (String.append "workflow " (Z_to_string (workflow_id req))))
  | Err e => Err e
  end.

Definition lane_text (l : RunLane) : string := match l with Interactive => "interactive" | Background => "background" end.

Definition run_row (req : RunRequest) (workflow : option Z) (context : list (string * json)) : RunRows.NewRun :=
  RunRows.mkNewRun workflow None None None (Some (trigger_type_for (source req))) (Some (json_to_string (JObj context))) None.

Definition request_context (req : RunRequest) : list (string * json) :=
  [("inputs", inputs req); ("lane", JStr (lane_text (lane req))); ("dry_run", JBool (dry_run req))].

(** What runs under the rollup of which workflow. *)
Definition choose (b : Boot) (req : RunRequest) : result (Workflow * RunRequest * Z) LocalError :=
  match b_reject b with
  | Some reason => Err (Internal (String.append "run rejected: " reason))
  | None =>
      match load_workflow (b_load b) req with
      | Err e => Err e
      | Ok wf =>
          match (if b_repairing b then load_workflow (b_reload b) req else Ok wf) with
          | Err e => Err e
          | Ok wf =>
              match b_marketplace b with
              | None => Ok (wf, req, wf_id wf)
              | Some (Ok (exec, req)) => Ok (exec, req, wf_id wf)
              | Some (Err e) => Err e
              end
          end
      end
  end.

(** From the row to the end of the body. *)
Definition drive (new : RunRows.NewRun) (id : Z) (wf : Workflow) (rollup : option Z) (req : RunRequest) (fate : Fate) (duration : Z)
    (now later : string) (d : Engine) : RunResult * Engine :=
  let t := RunRows.insert (rows d) id now new in
  let '(g, r) := register id (registry d) in
  let n := gauge_new (active d) in
  let '(res, l, r) := run_body vault g wf rollup req fate duration r in
  (res, mkEngine r (rows_after id later l t) (gauge_drop n)).

Definition run_inner (b : Boot) (req : RunRequest) (fate : Fate) (duration : Z) (now later : string) (d : Engine)
    : result RunResult LocalError * Engine :=
  match choose b req with
  | Err e => (Err e, d)
  | Ok (wf, ereq, rollup) =>
      match b_insert b with
      | None => (Err (Db EmptyString None), d)
      | Some id =>
          let '(res, d) := drive (run_row ereq (Some rollup) (request_context ereq)) id wf (Some rollup) ereq fate duration now later d in
          (Ok res, d)
      end
  end.

(** The answer comes before the body; the engine is as the body leaves it. *)
Definition run_async (b : Boot) (req : RunRequest) (fate : Fate) (duration : Z) (now later : string) (d : Engine)
    : result (Z * RunStatus) LocalError * Engine :=
  let '(r, d) := run_inner b req fate duration now later d in
  (match r with Ok res => Ok (rr_run_id res, Running) | Err e => Err e end, d).

(** An ephemeral recipe: no workflow in the row, no rollup, and no local secrets when a cloud account sent it. *)
Definition recipe_request (inp : json) (src : RunSource) : RunRequest :=
  mkRunRequest 0 inp src Interactive false None (match src with CloudAgent => false | _ => true end).

Definition run_recipe_inner (reject : option string) (insert : option Z) (recipe : Workflow) (name : string) (inp : json) (src : RunSource)
    (fate : Fate) (duration : Z) (now later : string) (d : Engine) : result RunResult LocalError * Engine :=
  let req := recipe_request inp src in
  let context := [("inputs", inp); ("lane", JStr "interactive"); ("dry_run", JBool false);
                  ("source", JStr (match src with CloudAgent => "cloud_agent" | _ => "marketplace" end)); ("recipe_name", JStr name)] in
  match reject with
  | Some reason => (Err (Internal (String.append "run rejected: " reason)), d)
  | None =>
      match insert with
      | None => (Err (Db EmptyString None), d)
      | Some id => let '(res, d) := drive (run_row req None context) id recipe None req fate duration now later d in (Ok res, d)
      end
  end.
End start.

(** ** Lemmas *)

Lemma budget_bounds (timeout_ms steps : Z) : MIN_RUN_BUDGET <= overall_run_budget timeout_ms steps <= MAX_RUN_BUDGET.
Proof. unfold overall_run_budget, clamp, MIN_RUN_BUDGET, MAX_RUN_BUDGET. lia. Qed.

Lemma guard_true (b : bool) (w : Watch) : is_Some (guard b w) -> b = true.
Proof. destruct b; [done|by intros [? ?]]. Qed.

Lemma accepted_frames (allow : bool) (run : Z) (l : list Ev) : is_Some (audit allow run l) ->
  Forall (fun e => is_terminal e = false /\ event_run_id e = run) (frames l).
Proof.
  intros Ha. apply Forall_forall. intros e (ev & Hev & He)%list_elem_of_omap.
  assert (HF : Forall (fun ev => match ev with Emitted e => is_terminal e = false /\ event_run_id e = run | _ => True end) (rev l)).
  { apply Forall_rev, (audit_Forall (watch allow run) watch_init); [|done]. intros [] w; try done. destruct w. cbn.
    destruct e0 as [| ? ? ? st|? ? ?|? ?| | | |]; cbn; try by intros [? ?]. 1: destruct st; try destruct (at_step _ _).
    all: intros Hg%guard_true; rewrite ?andb_true_iff, ?Z.eqb_eq in Hg; intuition. }
  rewrite Forall_forall in HF. specialize (HF ev Hev). destruct ev; try done. by injection He as <-.
Qed.

Lemma accepted_stmts (allow : bool) (run : Z) (l : list Ev) : is_Some (audit allow run l) ->
  Forall (fun e => match e with Wrote s _ => run_stmt s = true | _ => True end) l.
Proof.
  apply (audit_Forall (watch allow run) watch_init). intros [] w; try done. destruct w. cbn. unfold guard. destruct (run_stmt s); [done|by intros [? ?]].
Qed.

(** A row with no outcome yet. *)
Definition live_row (r : RunRows.Run) : Prop := RunRows.in_flight (RunRows.status r) = true /\ RunRows.success r = None.

Lemma stmts_keep_live (id : Z) (now : string) (l : list Ev) (t : gmap Z RunRows.Run) (r : RunRows.Run) :
  Forall (fun e => match e with Wrote s _ => run_stmt s = true | _ => True end) l ->
  t !! id = Some r -> live_row r -> exists r', rows_after id now l t !! id = Some r' /\ live_row r'.
Proof.
  intros Hl Hr Hlive. induction Hl as [|e l He _ (r' & Hr' & Hlive')]; [by exists r|]. cbn.
  set (t' := foldr _ _ _) in *. change (rows_after id now l t) with t' in Hr'.
  destruct e; try by exists r'. destruct ok; [|destruct s; by exists r']. cbn [apply_stmt].
  destruct s; try done; try by exists r'.
  - unfold RunRows.set_status. rewrite (RunRows.update_row_eq _ _ _ _ Hr'). cbn [fst]. rewrite lookup_insert_eq. eexists. split; [done|]. by split; [|apply Hlive'].
  - unfold RunRows.set_repair_outcome. rewrite (RunRows.update_row_eq _ _ _ _ Hr'). cbn [fst].
    rewrite lookup_insert_eq. by eexists.
Qed.

Lemma send_all (c : nat) (fs : list RunEvent) (r : RunRegistry) (h : RunHandleInner) : handles r !! c = Some h ->
  foldl (fun r e => send c e r) r fs =
  set_handles (<[c := mkHandle (events h ++ fs) (cancel h) (status h)]> (handles r)) r.
Proof.
  revert r h. induction fs as [|e fs IH]; intros r h Hh; cbn.
  - rewrite app_nil_r, list_insert_id by (rewrite Hh; by destruct h). by destruct r.
  - assert (He : send c e r = set_handles (<[c := mkHandle (events h ++ [e]) (cancel h) (status h)]> (handles r)) r).
    { unfold send. f_equal. apply list_eq. intros j. destruct (decide (c = j)) as [<-|].
      - rewrite list_lookup_alter, Hh, list_lookup_insert_eq by (by eapply lookup_lt_Some). by rewrite decide_True by done.
      - by rewrite list_lookup_alter, decide_False, list_lookup_insert_ne by done. }
    rewrite He. rewrite (IH _ (mkHandle (events h ++ [e]) (cancel h) (status h))).
    2: { cbn. apply list_lookup_insert_eq. by eapply lookup_lt_Some. }
    cbn. unfold set_handles. cbn. by rewrite list_insert_insert_eq, <- app_assoc.
Qed.

Section settles.
Context `{RunHost, VaultLibs} (vault : RootKey).

Definition is_outcome (e : Ev) : bool := match e with Wrote (Complete _ _) true | Wrote (Fail _ _ _ _) true => true | _ => false end.
Definition outcome_written (l : list Ev) : bool := any is_outcome l.

Lemma outcome_written_cons (e : Ev) (l : list Ev) : outcome_written (e :: l) = is_outcome e || outcome_written l.
Proof. done. Qed.

(** The events of the task are accepted, whatever its fate. *)
Lemma task_accepted (id : Z) (wf : Workflow) (req : RunRequest) (fate : Fate) :
  let '(_, l, late) := task vault id wf req fate in
  is_Some (audit (allow_local_secret_refs req) id l) /\ (late = [] \/ (exists k, fate = Aborted k true) /\ exists s, late = [Wrote s true] /\ run_stmt s = true).
Proof.
  unfold task. destruct (execute_runs (allow_local_secret_refs req) vault 1 id wf req false watch_init eq_refl ltac:(done) [] eq_refl) as (w & Hw & _).
  destruct (execute _ _ _ _ _ _ _) as [o l]. cbn in Hw. assert (Ha : is_Some (audit (allow_local_secret_refs req) id l)) by (by exists w).
  destruct fate as [|k|k late]; split; try done; try (by apply audit_drop); try by left.
  destruct late; [|by left]. unfold in_flight_stmt. destruct (rev l !! k) as [e|] eqn:Ek; [|by left]. destruct e; try by left.
  destruct ok; [|by left]. right. split; [by exists k|]. exists s. split; [done|].
  assert (HF := Forall_rev (accepted_stmts _ id l Ha)). rewrite Forall_lookup in HF. exact (HF k _ Ek).
Qed.

Lemma no_outcome (l : list Ev) : Forall (fun e => match e with Wrote s _ => run_stmt s = true | _ => True end) l -> outcome_written l = false.
Proof. intros Hl. apply any_false. intros e He. rewrite Forall_forall in Hl. specialize (Hl e He). destruct e; try done. by destruct s. Qed.

(** What [finalize] does to the row, when it has one that is in flight. *)
Lemma finalize_row (id : Z) (rollup : option Z) (o : outcome) (duration : Z) (l : list Ev) (now : string)
    (t : gmap Z RunRows.Run) (row : RunRows.Run) : outcome_written l = false -> rows_after id now l t !! id = Some row -> live_row row ->
  let '(res, l') := finalize id rollup o duration l in
  rr_run_id res = id /\ rr_status res <> Running /\ (rr_success res = true <-> rr_status res = Success) /\
  exists row', rows_after id now l' t !! id = Some row' /\
    if outcome_written l'
    then RunRows.success row' = Some (if rr_success res then 1 else 0) /\ RunRows.status row' = status_text (rr_status res)
    else live_row row'.
Proof.
  intros Hno Hrow Hlive.
  assert (Hw : forall (s : Stmt) (st : RunStatus) ok,
    match s with Complete _ _ => ok = true /\ st = Success | Fail x _ _ _ => ok = false /\ x = status_text st | _ => False end ->
    forall b tail, (tail = [] \/ exists ok' e b', tail = [Wrote (RecordOutcome ok' e) b']) ->
    exists row', rows_after id now (tail ++ Wrote s b :: l) t !! id = Some row' /\
      if outcome_written (tail ++ Wrote s b :: l)
      then RunRows.success row' = Some (if ok then 1 else 0) /\ RunRows.status row' = status_text st
      else live_row row').
  { intros s st ok Hs b tail Ht.
    assert (Hr : exists row', rows_after id now (Wrote s b :: l) t !! id = Some row' /\
      if b then RunRows.success row' = Some (if ok then 1 else 0) /\ RunRows.status row' = status_text st else live_row row').
    { cbn [rows_after foldr]. fold (rows_after id now l t). destruct b; [|by exists row; destruct s].
      destruct s; try done; destruct Hs as [-> ->]; cbn [apply_stmt];
        [unfold RunRows.complete|unfold RunRows.fail]; rewrite (RunRows.update_row_eq _ _ _ _ Hrow); cbn [fst];
        rewrite lookup_insert_eq; eexists; (split; [done|]); by split. }
    assert (Ho : outcome_written (tail ++ Wrote s b :: l) = b).
    { destruct Ht as [->|(ok' & e & b' & ->)]; cbn [app]; rewrite ?outcome_written_cons, Hno; destruct s, b; done. }
    rewrite Ho. destruct Ht as [->|(ok' & e & b' & ->)]; [exact Hr|]. cbn. destruct b'; exact Hr. }
  unfold finalize. destruct o as [ex|f].
  - destruct (result_data ex) as [data rd]. destruct rollup; cbv beta iota zeta delta [wbind write wret record_rollup];
      cbv beta iota zeta delta [rr_run_id rr_status rr_success]; (split_and!; [done..|]).
    + refine (Hw (Complete _ _) Success true (conj eq_refl eq_refl) _ [_] _). right. by repeat eexists.
    + refine (Hw (Complete _ _) Success true (conj eq_refl eq_refl) _ [] _). by left.
  - destruct (failure_row f) as [[[st m] c] ok] eqn:Ef.
    assert (Hst : st <> Running /\ st <> Success) by (by destruct f; injection Ef as <- <- <- <-).
    destruct rollup; cbv beta iota zeta delta [wbind write wret record_rollup];
      cbv beta iota zeta delta [rr_run_id rr_status rr_success];
      (split_and!; [done|apply Hst|split; [done|by intros ->; destruct Hst]|]).
    + refine (Hw (Fail _ _ _ _) st false (conj eq_refl eq_refl) _ [_] _). right. by repeat eexists.
    + refine (Hw (Fail _ _ _ _) st false (conj eq_refl eq_refl) _ [] _). by left.
Qed.

(** The statement that comes late leaves the verdict. *)
Lemma late_row (id : Z) (now : string) (s : Stmt) (l : list Ev) (t : gmap Z RunRows.Run) (row : RunRows.Run) :
  run_stmt s = true -> rows_after id now l t !! id = Some row ->
  exists row', rows_after id now (Wrote s true :: l) t !! id = Some row' /\ RunRows.success row' = RunRows.success row /\
    (RunRows.status row' = RunRows.status row \/ RunRows.in_flight (RunRows.status row') = true).
Proof.
  intros Hs Hrow. cbn [rows_after foldr]. fold (rows_after id now l t). destruct s; try done; try (exists row; by repeat split; [|left]);
    cbn [apply_stmt]; [unfold RunRows.set_status|unfold RunRows.set_repair_outcome]; rewrite (RunRows.update_row_eq _ _ _ _ Hrow);
    cbn [fst]; rewrite lookup_insert_eq; eexists; (split; [done|]); split; [done|by right|done|by left].
Qed.

(** The table of runs through the body of one: what its guard and its task send. *)
Lemma body_registry (g : EmitGuard) (fs : list RunEvent) (s : RunStatus) (n : Z) (cancel_it : bool) (r : RunRegistry) (h : RunHandleInner) :
  handles r !! handle g = Some h ->
  let r1 := foldl (fun r e => send (handle g) e r) (emit g (Started (Registry.run_id g) n) r) fs in
  let r2 := if cancel_it then snd (token_cancel (handle g) r1) else r1 in
  let r3 := finish g s r2 in
  runs r3 = delete (Registry.run_id g) (runs r) /\
  global r3 = global r ++ [Started (Registry.run_id g) n; Finished (Registry.run_id g) s] /\
  exists c, handles r3 !! handle g =
    Some (mkHandle (events h ++ Started (Registry.run_id g) n :: fs ++ [Finished (Registry.run_id g) s]) c (status_to_code s)).
Proof.
  intros Hh. destruct g as [id c f]. cbn in *. unfold emit. cbn [handle].
  rewrite (send_all c fs _ (mkHandle (events h ++ [Started id n]) (cancel h) (status h))).
  2: { cbn. by rewrite list_lookup_alter, Hh, decide_True by done. }
  assert (Hlt : (c < length (handles r))%nat) by (by eapply lookup_lt_Some).
  destruct cancel_it; cbn.
  - unfold token_cancel. cbn. rewrite list_lookup_insert_eq by (by rewrite length_alter). cbn.
    split_and!; [done|by rewrite <- app_assoc|]. eexists. rewrite !list_lookup_alter, list_lookup_insert_eq by (by rewrite length_alter).
    rewrite !decide_True by done. cbn. by rewrite <- !app_assoc.
  - split_and!; [done|by rewrite <- app_assoc|]. eexists. rewrite !list_lookup_alter, list_lookup_insert_eq by (by rewrite length_alter).
    rewrite !decide_True by done. cbn. by rewrite <- !app_assoc.
Qed.

Lemma body_settles (g : EmitGuard) (wf : Workflow) (rollup : option Z) (req : RunRequest) (fate : Fate) (duration : Z)
    (r : RunRegistry) (h : RunHandleInner) (t : gmap Z RunRows.Run) (row : RunRows.Run) (now : string)
    (Hh : handles r !! handle g = Some h) (Hrow : t !! Registry.run_id g = Some row) (Hlive : live_row row) :
  let '(res, l, r') := run_body vault g wf rollup req fate duration r in
  let id := Registry.run_id g in
  rr_run_id res = id /\ rr_status res <> Running /\ (rr_success res = true <-> rr_status res = Success) /\
  runs r' = delete id (runs r) /\
  global r' = global r ++ [Started id (step_count_hint wf); Finished id (rr_status res)] /\
  (exists fs c, handles r' !! handle g =
     Some (mkHandle (events h ++ Started id (step_count_hint wf) :: fs ++ [Finished id (rr_status res)]) c (status_to_code (rr_status res))) /\
     Forall (fun e => is_terminal e = false /\ event_run_id e = id) fs) /\
  exists row', rows_after id now l t !! id = Some row' /\
    if outcome_written l then
      RunRows.success row' = Some (if rr_success res then 1 else 0) /\
      (RunRows.status row' = status_text (rr_status res) \/ (exists k, fate = Aborted k true) /\ RunRows.in_flight (RunRows.status row') = true)
    else RunRows.success row' = None /\ RunRows.in_flight (RunRows.status row') = true.
Proof.
  unfold run_body. assert (Ht := task_accepted (Registry.run_id g) wf req fate).
  destruct (task vault (Registry.run_id g) wf req fate) as [[o l] late]. destruct Ht as [Ha Hlate].
  assert (Hs := accepted_stmts _ _ _ Ha). destruct (stmts_keep_live _ now _ _ _ Hs Hrow Hlive) as (row1 & Hrow1 & Hlive1).
  assert (Hf := finalize_row (Registry.run_id g) rollup o duration l now t row1 (no_outcome l Hs) Hrow1 Hlive1).
  destruct (finalize (Registry.run_id g) rollup o duration l) as [res l2]. destruct Hf as (E1 & E2 & E3 & row2 & Hrow2 & Hv2).
  destruct (body_registry g (frames l) (rr_status res) (step_count_hint wf) (match fate with Aborted _ _ => true | _ => false end) r h Hh)
    as (R1 & R2 & c & R3).
  cbv zeta in R1, R2, R3. destruct fate; cbv iota in R1, R2, R3.
  all: split_and!; [exact E1|exact E2|exact E3|exact R1|exact R2|by exists (frames l), c; split; [exact R3|by eapply accepted_frames]|].
  1,2: destruct Hlate as [->|[(? & ?) _]]; [|done]; exists row2; split; [exact Hrow2|]; cbn [app];
    destruct (outcome_written l2); [by destruct Hv2; split; [|left]|by destruct Hv2].
  destruct Hlate as [->|[[k' E] (s & -> & Hst)]].
  - exists row2. split; [exact Hrow2|]. cbn [app]. destruct (outcome_written l2); [by destruct Hv2; split; [|left]|by destruct Hv2].
  - destruct (late_row _ now s l2 t row2 Hst Hrow2) as (row3 & Hrow3 & Hv3 & Hs3). exists row3. split; [exact Hrow3|].
    cbn [app]. rewrite outcome_written_cons. assert (is_outcome (Wrote s true) = false) as -> by (by destruct s). cbn [orb].
    destruct (outcome_written l2).
    + destruct Hv2 as [Hv2 Hst2]. split; [congruence|]. destruct Hs3 as [->|Hi]; [by left|]. right. split; [by exists k'|done].
    + destruct Hv2 as [Hi Hn]. split; [congruence|]. destruct Hs3 as [->|?]; done.
Qed.

(** C10: A run ends, whatever becomes of its task: it has an outcome that is not [Running]; its entry leaves the table and no other
    does; its channel carries [Started], then frames of its own that end nothing, then one [Finished] with that outcome, while
    the stream of all runs carries only the first and the last; and its row, if the statement of the outcome succeeded, has its
    verdict and its status, except that a statement under way when the task was aborted may put the row in flight again; if that
    statement failed, the row is left in flight. *)
Theorem run_settles (g : EmitGuard) (wf : Workflow) (rollup : option Z) (req : RunRequest) (fate : Fate) (duration : Z)
    (r : RunRegistry) (h : RunHandleInner) (t : gmap Z RunRows.Run) (row : RunRows.Run) (now : string)
    (Hh : handles r !! handle g = Some h) (Hrow : t !! Registry.run_id g = Some row) (Hlive : live_row row) :
  let '(res, l, r') := run_body vault g wf rollup req fate duration r in
  let id := Registry.run_id g in
  rr_run_id res = id /\ rr_status res <> Running /\ (rr_success res = true <-> rr_status res = Success) /\
  runs r' = delete id (runs r) /\
  global r' = global r ++ [Started id (step_count_hint wf); Finished id (rr_status res)] /\
  (exists fs c, handles r' !! handle g =
     Some (mkHandle (events h ++ Started id (step_count_hint wf) :: fs ++ [Finished id (rr_status res)]) c (status_to_code (rr_status res))) /\
     Forall (fun e => is_terminal e = false /\ event_run_id e = id) fs) /\
  exists row', rows_after id now l t !! id = Some row' /\
    if outcome_written l then
      RunRows.success row' = Some (if rr_success res then 1 else 0) /\
      (RunRows.status row' = status_text (rr_status res) \/ (exists k, fate = Aborted k true) /\ RunRows.in_flight (RunRows.status row') = true)
    else RunRows.success row' = None /\ RunRows.in_flight (RunRows.status row') = true.
Proof. exact (body_settles g wf rollup req fate duration r h t row now Hh Hrow Hlive). Qed.

Lemma rows_elsewhere (id j : Z) (now : string) (l : list Ev) (t : gmap Z RunRows.Run) : id <> j -> rows_after id now l t !! j = t !! j.
Proof.
  intros Hj. induction l as [|e l IH]; [done|]. cbn [rows_after foldr]. fold (rows_after id now l t). rewrite <- IH.
  destruct e; try done. destruct ok; [|by destruct s]. destruct s; try done; by apply lookup_alter_ne.
Qed.

Lemma drive_settles (new : RunRows.NewRun) (id : Z) (wf : Workflow) (rollup : option Z) (req : RunRequest) (fate : Fate) (duration : Z)
    (now later : string) (d : Engine) : runs (registry d) !! id = None -> 0 <= active d < u64_max ->
  let '(res, d') := drive vault new id wf rollup req fate duration now later d in
  rr_run_id res = id /\ rr_status res <> Running /\ runs (registry d') = runs (registry d) /\ active d' = active d /\
  (forall j, j <> id -> rows d' !! j = rows d !! j) /\ is_Some (rows d' !! id).
Proof.
  intros Hid Hn. unfold drive. set (c := length (handles (registry d))).
  assert (Hh : handles (snd (register id (registry d))) !! c = Some (mkHandle [] false 0)).
  { cbn. rewrite lookup_app_r by done. subst c. by rewrite Nat.sub_diag. }
  assert (Hb := body_settles (mkGuard id c false) wf rollup req fate duration (snd (register id (registry d))) _
    (RunRows.insert (rows d) id now new) (RunRows.insert_row id now new) later Hh (lookup_insert_eq _ _ _) ltac:(done)).
  cbn [register snd fst] in *. destruct (run_body _ _ _ _ _ _ _ _) as [[res l] r']. cbn [Registry.run_id] in Hb.
  destruct Hb as (E1 & E2 & _ & E3 & _ & _ & (row' & E4 & _)). cbn [registry rows active]. split_and!; [done|done| | | |by exists row'].
  - rewrite E3. cbn [runs]. by apply delete_insert_id.
  - unfold gauge_drop, gauge_new. rewrite as_u64_id by (unfold in_u64; lia). lia.
  - intros j Hj. rewrite rows_elsewhere by done. unfold RunRows.insert. by apply lookup_insert_ne.
Qed.

(** A run that is refused (by the governor, for want of its workflow or of its recipe, or because its row could not be
    written) changes nothing: no row, no entry, no count. One that starts leaves the table of live runs and the gauge as they
    were and touches no other row, whatever becomes of it; its answer is an outcome, or [Running] when it was only started. *)
Theorem run_leaves_engine (b : Boot) (req : RunRequest) (fate : Fate) (duration : Z) (now later : string) (d : Engine)
    (Hfresh : forall id, b_insert b = Some id -> runs (registry d) !! id = None /\ rows d !! id = None)
    (Hgauge : 0 <= active d < u64_max) :
  let '(r, d') := run_inner vault b req fate duration now later d in
  fst (run_async vault b req fate duration now later d) = match r with Ok res => Ok (rr_run_id res, Running) | Err e => Err e end /\
  match r with
  | Err _ => d' = d /\ (is_Some (b_reject b) \/ b_insert b = None \/ (exists e, choose b req = Err e))
  | Ok res =>
      b_reject b = None /\ b_insert b = Some (rr_run_id res) /\ rr_status res <> Running /\
      runs (registry d') = runs (registry d) /\ active d' = active d /\
      (forall j, j <> rr_run_id res -> rows d' !! j = rows d !! j) /\ is_Some (rows d' !! rr_run_id res)
  end.
Proof.
  assert (Hrej : forall x, choose b req = Ok x -> b_reject b = None) by (unfold choose; destruct (b_reject b); [done|done]).
  unfold run_async. destruct (run_inner _ _ _ _ _ _ _ _) as [r d'] eqn:E. split; [done|]. unfold run_inner in E.
  destruct (choose b req) as [[[wf ereq] rollup]|e] eqn:Ec.
  2: { injection E as <- <-. split; [done|]. right. right. by exists e. }
  destruct (b_insert b) as [id|] eqn:Ei; [|injection E as <- <-; split; [done|by right; left]].
  assert (Hd := drive_settles (run_row ereq (Some rollup) (request_context ereq)) id wf (Some rollup) ereq fate duration now later d
    (proj1 (Hfresh id eq_refl)) Hgauge).
  destruct (drive _ _ _ _ _ _ _ _ _ _ _) as [res d2]. injection E as <- <-. destruct Hd as (-> & ? & ? & ? & ? & ?).
  split_and!; try done. by eapply Hrej.
Qed.
End settles.

(** ** Runs, for example *)

Definition demo_steps (s : string) : option json :=
  if str_eqb s "steps" then
    Some (JArr [JObj [("type", JStr "click"); ("config", JObj [("selector", JStr "#a")])];
                JObj [("type", JStr "upload"); ("config", JObj [("file_id", JStr "f1")])]])
  else None.

(** The first click fails, everything after it succeeds. *)
Definition click_fails_once (l : list Ev) : result (option (gmap string json)) StepError :=
  if (length (retain (fun e => match e with Ran _ _ _ => true | _ => false end) l) =? 1)%nat then Err (ElementNotFound "#a") else Ok None.

Definition demo_life (step : list Ev -> result (option (gmap string json)) StepError) (repair : RepairOutcome) (recipe : RecipeOutcome)
  : RunHost := demo_host demo_steps (fun _ => None) step repair recipe.
Definition demo_request (allow : bool) : RunRequest := mkRunRequest 3 JNull Api Interactive false None allow.
Definition demo_guard : EmitGuard := mkGuard 7 0 false.
Definition demo_live : RunRegistry := snd (register 7 registry_new).
Definition demo_rows : gmap Z RunRows.Run := {[ 7 := RunRows.insert_row 7 "t0" (RunRows.mkNewRun None None None None None None None) ]}.

(** The click is repaired by the gateway and tried again. *)
Definition repaired_host : RunHost := demo_life click_fails_once (Repaired "#b") RecipeUnavailable.
Notation demo_body host fate := (@run_body host demo_libs [] demo_guard (demo_workflow "steps") None (demo_request true) fate 5 demo_live).

Lemma repaired_body : let '(res, l, _) := demo_body repaired_host Joined in
  rr_status res = Success /\ (exists i, outcome_written (take i l) = true) /\
  frames l = [Step 7 0 "click" StepRunning; Repairing 7 false; Step 7 0 "click" StepRunning; Step 7 0 "click" StepSucceeded;
              Progress 7 1 2; Step 7 1 "upload" StepRunning; Step 7 1 "upload" StepSucceeded; Progress 7 2 2].
Proof. vm_compute. split_and!; [done|by exists 1%nat|done]. Qed.

Lemma run_settles_witness : exists row h, demo_rows !! 7 = Some row /\ live_row row /\ handles demo_live !! 0%nat = Some h /\
  let '(res, l, r) := demo_body repaired_host Joined in
  rr_status res <> Running /\ is_live 7 r = false /\ is_Some (rows_after 7 "t1" l demo_rows !! 7).
Proof.
  exists (RunRows.insert_row 7 "t0" (RunRows.mkNewRun None None None None None None None)), (mkHandle [] false 0).
  split; [reflexivity|]. split; [split; reflexivity|]. split; [reflexivity|].
  assert (H := @run_settles repaired_host demo_libs [] demo_guard (demo_workflow "steps") None (demo_request true) Joined 5 demo_live
    (mkHandle [] false 0) demo_rows (RunRows.insert_row 7 "t0" (RunRows.mkNewRun None None None None None None None)) "t1"
    eq_refl eq_refl (conj eq_refl eq_refl)).
  destruct (demo_body repaired_host Joined) as [[res l] r]. destruct H as (_ & H1 & _ & H2 & _ & _ & row' & H3 & _).
  split_and!; [exact H1| |by exists row']. unfold is_live. rewrite H2. reflexivity.
Defined.

Definition demo_engine : Engine := mkEngine registry_new ∅ 0.
Definition demo_boot : Boot := mkBoot None (Ok (Some (demo_workflow "steps"))) false (Ok None) None (Some 7).
Notation demo_start := (@run_inner repaired_host demo_libs [] demo_boot (demo_request true) Joined 5 "t0" "t1" demo_engine).

Lemma demo_started : exists res, fst demo_start = Ok res.
Proof. eexists. vm_compute. reflexivity. Qed.

Lemma run_leaves_engine_witness :
  (forall id, b_insert demo_boot = Some id -> runs (registry demo_engine) !! id = None /\ rows demo_engine !! id = None) /\
  0 <= active demo_engine < u64_max /\ active (snd demo_start) = 0 /\ is_Some (rows (snd demo_start) !! 7).
Proof.
  assert (Hf : forall id, b_insert demo_boot = Some id -> runs (registry demo_engine) !! id = None /\ rows demo_engine !! id = None) by done.
  assert (Hg : 0 <= active demo_engine < u64_max) by (split; reflexivity || done).
  assert (H := @run_leaves_engine repaired_host demo_libs [] demo_boot (demo_request true) Joined 5 "t0" "t1" demo_engine Hf Hg).
  assert (Hs := demo_started). destruct demo_start as [r d]. destruct Hs as [res Hs]. cbn [fst] in Hs. subst r.
  destruct H as (_ & _ & Hi & _ & _ & Ha & _ & Hr). cbn [snd].
  split; [exact Hf|]. split; [exact Hg|]. split; [exact Ha|]. cbn in Hi. injection Hi as Hi. rewrite Hi. exact Hr.
Defined.

(** A recipe that may not use local secrets still has the files its steps pin read from the local store. *)
Lemma adhoc_recipe_reads_pinned_file :
  any (fun e => match e with FileRead f => str_eqb f "f1" | _ => false end)
    (snd (@execute (demo_life (fun _ => Ok None) RepairUnavailable RecipeUnavailable) demo_libs [] 1 7 (demo_workflow "steps")
            (demo_request false) false [])) = true.
Proof. vm_compute. reflexivity. Qed.

(** A step that is given over to a new recipe never has a last frame. *)
Lemma restarted_step_has_no_end :
  exists l, snd (@execute (demo_life click_fails_once RepairUnavailable (Recipe [])) demo_libs [] 1 7 (demo_workflow "steps")
      (demo_request true) false []) = l /\
    retain (fun e => match e with Step _ 0 _ _ => true | _ => false end) (frames l) =
      [Step 7 0 "click" StepRunning; Step 7 0 "click" StepRunning; Step 7 0 "click" StepSucceeded].
Proof. eexists. split; [reflexivity|]. vm_compute. reflexivity. Qed.

(** A status that was being written when the task was aborted reopens the row of a run that timed out. *)
Lemma late_status_reopens_row : exists k,
  let '(res, l, _) := demo_body repaired_host (Aborted k true) in
  rr_status res = Timeout /\ RunRows.status <$> rows_after 7 "t1" l demo_rows !! 7 = Some "repairing".
Proof. exists 13%nat. vm_compute. by split. Qed.

(** The counters of a workflow: any failed step counts against the streak, whatever its category; a cancel, a captcha, a second
    factor and a timeout end the streak like a success. *)
Lemma streak_by_failure `{RunHost} (f : RunFailure) (id w duration : Z) (l : list Ev) (now : string) (c : RunRows.Rollup) :
  (forall l, stmt_ok l = true) ->
  RunRows.consecutive_failures (rollup_after now (snd (finalize id (Some w) (Err f) duration l)) c) =
  match f with FStep _ _ => RunRows.consecutive_failures (rollup_after now l c) + 1 | _ => 0 end.
Proof. intros Hok. unfold finalize. destruct f; cbn; rewrite !Hok; reflexivity. Qed.
