(* ===== verification/DataRedact.v ===== *)
(** * local/data_query.rs: what of a run's data is shown

    The keys that are never shown (the engine's metadata, the envelope of a response), the keys of inputs whose values are
    secret, and the passes that drop them from a value. An object is the association list of its members, each key once. *)

From Stdlib Require Import Ascii String.
From S2P Require Import Prelude Ints Str Json.
Open Scope string_scope.
Open Scope list_scope.

(** The members that [p] keeps, their values mapped. *)
Definition keep_map (p : string -> bool) (f : json -> json) : jobj -> jobj :=
  fix go m :=
    match m with
    | [] => []
    | (k, v) :: m => if p k then (k, f v) :: go m else go m
    end.

(** ** Metadata *)

Definition RESERVED_TOPLEVEL : list string :=
  ["extracted_data"; "steps"; "steps_completed"; "screenshots"; "success"; "error"; "auth_session"; "needs_reassignment";
   "ai_session_id"; "workflow_id"].

Definition META_FLAG_KEYS : list string := ["dry_run"; "stopped_before_commit"; "captcha_info"; "error_context"].

Definition INTERNAL_KEYS : list string :=
  ["auth_session"; "session_state"; "session_storage"; "local_storage"; "localstorage"; "cookies"; "screenshot"; "screenshots";
   "fingerprint"; "headers"; "raw_response"; "raw_html"; "response"; "response_body"; "responsebody"; "raw"; "raw_data"; "html";
   "page_html"; "page_source"; "har"; "network_log"; "console_log"; "step_results"; "session_expired"; "needs_reassignment";
   "reassignment_reason"; "auth_failed"; "login_success"; "logged_in"; "is_logged_in"; "stopped_before_commit"].

Definition META_PREFIXES : list string := ["ai_repair"; "captcha"].

Definition WRAPPER_KEYS : list string :=
  ["extracted_data"; "result"; "results"; "data"; "items"; "records"; "rows"; "output"; "outputs"; "extracted"; "values"].

Definition member (l : list string) (k : string) : bool := any (str_eqb k) l.

Definition is_meta_key (k : string) : bool :=
  if starts_with k "_" then true
  else let kl := to_ascii_lowercase k in member META_FLAG_KEYS kl || member INTERNAL_KEYS kl || any (starts_with kl) META_PREFIXES.

Fixpoint strip_meta_value (v : json) : json :=
  match v with
  | JObj m => JObj (keep_map (fun k => negb (is_meta_key k)) strip_meta_value m)
  | JArr l => JArr (map strip_meta_value l)
  | other => other
  end.

Definition strip_meta (m : jobj) : jobj := match strip_meta_value (JObj m) with JObj m => m | _ => [] end.

(** ** Secret inputs *)

Definition INPUT_PREFIX : string := "input.".
Definition INPUT_CTX_KEYS : list string := ["_queued_form_data"; "merged_form_data"; "form_data"; "inputs"].

Definition SECRET_NEEDLES : list string :=
  ["password"; "passwd"; "pwd"; "secret"; "token"; "apikey"; "api_key"; "api-key"; "otp"; "cvv"; "cvc"; "ssn"; "private_key";
   "private-key"; "privatekey"; "credential"; "card_number"; "card-number"; "cardnumber"].

Definition word_char (c : ascii) : bool := is_alnum c || byte_is "_" c.

(** Whether the first byte of [s], if any, is not of a word. *)
Definition at_boundary (s : string) : bool := match s with EmptyString => true | String c _ => negb (word_char c) end.

(** An occurrence of [needle] with no word character on either side; [before] tells that of the byte before [s]. *)
Fixpoint is_word_from (before : bool) (s needle : string) : bool :=
  match strip_prefix needle s with Some rest => before && at_boundary rest | None => false end ||
  match s with EmptyString => false | String c r => is_word_from (negb (word_char c)) r needle end.
Definition is_word (haystack needle : string) : bool := is_word_from true haystack needle.

Definition is_secret_input_key (key : string) : bool :=
  let k := to_ascii_lowercase key in any (contains k) SECRET_NEEDLES || is_word k "pan".

Definition redact_inputs (inputs : jobj) : jobj := keep_map (fun k => negb (is_secret_input_key k)) id inputs.

Fixpoint redact_secret_keys_value (v : json) : json :=
  match v with
  | JObj m => JObj (keep_map (fun k => negb (is_secret_input_key k)) redact_secret_keys_value m)
  | JArr l => JArr (map redact_secret_keys_value l)
  | other => other
  end.

Definition redact_secret_keys (m : jobj) : jobj := match redact_secret_keys_value (JObj m) with JObj m => m | _ => [] end.

Definition task_inputs (trigger_context : json) : jobj :=
  match json_as_object trigger_context with
  | None => []
  | Some ctx =>
      default [] (head (omap (fun k => match map_get ctx k with Some (JObj ((_ :: _) as v)) => Some v | _ => None end) INPUT_CTX_KEYS))
  end.

Example is_word_ex : is_word "pan" "pan" = true /\ is_word "my-pan-1" "pan" = true /\ is_word "company" "pan" = false
  /\ is_word "pan_x" "pan" = false /\ is_word "span pan" "pan" = true.
Proof. by_compute. Qed.
Example meta_ex : is_meta_key "_x" = true /\ is_meta_key "Cookies" = true /\ is_meta_key "captcha_detected" = true /\ is_meta_key "price" = false.
Proof. by_compute. Qed.

(** ** Lemmas *)

(** No key of [v], at any depth, satisfies [bad]. *)
Fixpoint keys_free (bad : string -> bool) (v : json) : bool :=
  match v with
  | JObj m => forallb (fun kv => negb (bad (fst kv)) && keys_free bad (snd kv)) m
  | JArr l => forallb (keys_free bad) l
  | _ => true
  end.

Lemma keep_map_elem (p : string -> bool) (f : json -> json) (m : jobj) (k : string) (w : json) :
  (k, w) ∈ keep_map p f m <-> exists v, (k, v) ∈ m /\ p k = true /\ w = f v.
Proof.
  induction m as [|[k' v'] m IH]; cbn.
  - split; [by intros ?%not_elem_of_nil|by intros (? & ?%not_elem_of_nil & _)].
  - destruct (p k') eqn:E; rewrite ?elem_of_cons, IH; split.
    + intros [[= -> ->]|(v & ? & ? & ?)]; [exists v'|exists v]; rewrite elem_of_cons; tauto.
    + intros (v & [[= -> ->]|?]%elem_of_cons & ? & ->); [by left|right; by exists v].
    + intros (v & ? & ? & ?). exists v. rewrite elem_of_cons. tauto.
    + intros (v & [[= -> ->]|?]%elem_of_cons & ? & ->); [congruence|by exists v].
Qed.

Lemma keep_map_get (p : string -> bool) (f : json -> json) (m : jobj) (k : string) :
  map_get (keep_map p f m) k = if p k then f <$> map_get m k else None.
Proof.
  induction m as [|[k' v] m IH]; cbn; [by destruct (p k)|]. destruct (str_eqb k' k) eqn:E.
  - apply str_eqb_eq in E as ->. destruct (p k) eqn:Ep; [cbn; by rewrite str_eqb_refl|exact IH].
  - destruct (p k'); cbn; [rewrite E|]; exact IH.
Qed.

(** A filter that drops every bad key leaves none, and what it maps stays free of another kind of key. *)
Section passes.
Context (bad : string -> bool) (pass : json -> json).

Lemma keep_map_free (other : string -> bool) (f : json -> json) (m : jobj) :
  (forall k v, (k, v) ∈ m -> bad k = false -> other k = false /\ keys_free other (f v) = true) ->
  keys_free other (JObj (keep_map (fun k => negb (bad k)) f m)) = true.
Proof.
  intros Hf. cbn. apply all_true. intros [k w] Hkw. apply keep_map_elem in Hkw as (v & Hv & Hp & ->). apply negb_true_iff in Hp.
  destruct (Hf k v Hv Hp) as [Hk Hw]. cbn. by rewrite Hk, Hw.
Qed.

Context (pass_obj : forall m, pass (JObj m) = JObj (keep_map (fun k => negb (bad k)) pass m))
        (pass_arr : forall l, pass (JArr l) = JArr (map pass l))
        (pass_other : forall v, is_object v = false -> is_array v = false -> pass v = v).

Lemma pass_free (v : json) : keys_free bad (pass v) = true.
Proof.
  induction v as [|b|n|s|l IH|m IH] using json_rect'; try (rewrite pass_other by done; done).
  - rewrite pass_arr. cbn. apply all_true. intros x Hx. change (x ∈ pass <$> l) in Hx. apply list_elem_of_fmap in Hx as (y & -> & Hy). rewrite Forall_forall in IH. by apply IH.
  - rewrite pass_obj. apply keep_map_free. intros k w Hkw Hk. split; [done|]. rewrite Forall_forall in IH. by apply (IH (k, w)).
Qed.

Lemma pass_keeps_free (other : string -> bool) (v : json) : keys_free other v = true -> keys_free other (pass v) = true.
Proof.
  induction v as [|b|n|s|l IH|m IH] using json_rect'; intros Hv; try (rewrite pass_other by done; done).
  - rewrite pass_arr. cbn in *. rewrite Forall_forall in IH. pose proof (proj1 (all_true _ _) Hv) as Hall. apply all_true. intros x Hx. change (x ∈ pass <$> l) in Hx. apply list_elem_of_fmap in Hx as (y & -> & Hy).
    by apply IH, Hall.
  - rewrite pass_obj. cbn in Hv. pose proof (proj1 (all_true _ _) Hv) as Hall. apply keep_map_free. intros k w Hkw Hk. apply Hall in Hkw as Ho. apply andb_true_iff in Ho as [Ho Hw].
    split; [by apply negb_true_iff|]. rewrite Forall_forall in IH. by apply (IH (k, w)).
Qed.

Lemma pass_id (v : json) : keys_free bad v = true -> pass v = v.
Proof.
  induction v as [|b|n|s|l IH|m IH] using json_rect'; intros Hv; try (by rewrite pass_other).
  - rewrite pass_arr. f_equal. cbn in Hv. induction l as [|x l IHl]; [done|]. cbn in *. apply andb_true_iff in Hv as [Hx Hl].
    apply Forall_cons in IH as [Hx' IH]. by rewrite Hx', IHl.
  - rewrite pass_obj. f_equal. cbn in Hv. induction m as [|[k w] m IHm]; [done|]. cbn in *. apply andb_true_iff in Hv as [Hx Hm].
    apply andb_true_iff in Hx as [Hk Hw]. rewrite Hk. apply Forall_cons in IH as [Hw' IH]. cbn in Hw'. by rewrite Hw', IHm.
Qed.
End passes.

Definition meta_free : json -> bool := keys_free is_meta_key.
Definition secret_free : json -> bool := keys_free is_secret_input_key.

Lemma strip_other (v : json) : is_object v = false -> is_array v = false -> strip_meta_value v = v.
Proof. by destruct v. Qed.
Lemma redact_other (v : json) : is_object v = false -> is_array v = false -> redact_secret_keys_value v = v.
Proof. by destruct v. Qed.

Lemma strip_meta_free (m : jobj) : meta_free (JObj (strip_meta m)) = true.
Proof. apply (pass_free is_meta_key strip_meta_value (fun _ => eq_refl) (fun _ => eq_refl) strip_other (JObj m)). Qed.

Lemma redact_secret_free (m : jobj) : secret_free (JObj (redact_secret_keys m)) = true.
Proof. apply (pass_free is_secret_input_key redact_secret_keys_value (fun _ => eq_refl) (fun _ => eq_refl) redact_other (JObj m)). Qed.

Lemma redact_meta_free (m : jobj) : meta_free (JObj m) = true -> meta_free (JObj (redact_secret_keys m)) = true.
Proof. apply (pass_keeps_free is_secret_input_key redact_secret_keys_value (fun _ => eq_refl) (fun _ => eq_refl) redact_other _ (JObj m)). Qed.

(** The passes leave alone what they have nothing to drop from. *)
Lemma strip_meta_id (m : jobj) : meta_free (JObj m) = true -> strip_meta m = m.
Proof.
  intros Hm. unfold strip_meta. by rewrite (pass_id is_meta_key strip_meta_value (fun _ => eq_refl) (fun _ => eq_refl) strip_other (JObj m) Hm).
Qed.
Lemma redact_secret_id (m : jobj) : secret_free (JObj m) = true -> redact_secret_keys m = m.
Proof.
  intros Hm. unfold redact_secret_keys.
  by rewrite (pass_id is_secret_input_key redact_secret_keys_value (fun _ => eq_refl) (fun _ => eq_refl) redact_other (JObj m) Hm).
Qed.

Lemma free_member (bad : string -> bool) (m : jobj) (k : string) (v : json) :
  keys_free bad (JObj m) = true -> (k, v) ∈ m -> bad k = false /\ keys_free bad v = true.
Proof. cbn. intros Hm Hkv. apply (proj1 (all_true _ _) Hm) in Hkv as Hb. apply andb_true_iff in Hb as [Hk Hv].
  split; [by apply negb_true_iff|exact Hv].
Qed.

Lemma free_of_members (bad : string -> bool) (m : jobj) :
  (forall k v, (k, v) ∈ m -> bad k = false /\ keys_free bad v = true) -> keys_free bad (JObj m) = true.
Proof. intros Hm. cbn. apply all_true. intros [k v] Hkv. destruct (Hm k v Hkv) as [Hk Hv]. cbn. by rewrite Hk, Hv. Qed.

(** A key of a secret's kind at the top of the inputs is dropped; one below the top is not. *)
Lemma redact_inputs_top (inputs : jobj) (k : string) (v : json) : (k, v) ∈ redact_inputs inputs -> is_secret_input_key k = false.
Proof. intros (w & _ & Hk & _)%keep_map_elem. by apply negb_true_iff. Qed.

Lemma nested_input_secret_kept :
  redact_inputs [("login", JObj [("password", JStr "hunter2")])] = [("login", JObj [("password", JStr "hunter2")])].
Proof. vm_compute. reflexivity. Qed.
