(* ===== verification/DataRows.v ===== *)
(** * local/data_query.rs: from the results of runs to rows

    The records of a result (a list, a table with a header, an object of lists, a wrapper, a single object), the cleaning of
    each, the rows of the runs with their columns, and the digest of a run that stands for its rows. *)

From Stdlib Require Import Ascii String Sorted.
From S2P Require Import Prelude Ints Str F64Text Json DataRedact.
Open Scope string_scope.
Open Scope list_scope.

(** ** Tables *)

Definition is_scalar (v : json) : bool := negb (is_object v) && negb (is_array v).
Definition scalar_row (v : json) : bool := match v with JArr cells => all is_scalar cells | _ => false end.

(** A run of digits, and what follows; [None] when there is none. *)
Definition digits (s : string) : option string := let '(_, n, rest) := take_digits 0 0 s in if (n =? 0)%Z then None else Some rest.

(** An optional byte of [l]. *)
Definition skip_byte (l : list ascii) (s : string) : string * bool :=
  match s with String c r => if any (byte_is c) l then (r, true) else (s, false) | EmptyString => (s, false) end.

(** [-?\d+(\.\d+)?([eE][+-]?\d+)?], all of the trimmed string *)
Definition looks_numeric (s : string) : bool :=
  let '(s, _) := skip_byte ["-"%char] (trim s) in
  let fraction s := let '(r, p) := skip_byte ["."%char] s in if p then digits r else Some s in
  let exponent s := let '(r, p) := skip_byte ["e"%char; "E"%char] s in if p then digits (fst (skip_byte ["+"%char; "-"%char] r)) else Some s in
  match (digits s ≫= fraction) ≫= exponent with Some rest => is_empty rest | None => false end.

Fixpoint header_names (header : list json) : option (list string) :=
  match header with
  | [] => Some []
  | JStr s :: header => if is_empty (trim s) then None else cons s <$> header_names header
  | _ => None
  end.

Definition detect_table (items : list json) : option (list string) :=
  match items with
  | JArr header :: _ :: _ =>
      if negb (all scalar_row items) then None
      else match header with
           | [] => None
           | _ =>
               match header_names header with
               | None => None
               | Some names =>
                   let non_numeric := length (retain (fun c => negb (looks_numeric c)) names) in
                   if (non_numeric * 2 <? length names)%nat then None
                   else if negb (length (remove_dups (trim <$> names)) =? length names)%nat then None
                   else
                     let rest := tail items in
                     let same_len := length (retain (fun r => match r with JArr a => (length a =? length names)%nat | _ => false end) rest) in
                     if (same_len * 10 <? length rest * 9)%nat then None else Some names
               end
           end
  | _ => None
  end.

Definition cells_of (v : json) : list json := match v with JArr a => a | _ => [] end.

Definition table_record (header : list string) (cells : list json) : jobj :=
  foldl (fun rec jn => map_insert (snd jn) (default JNull (cells !! fst jn)) rec) [] (enumerate header).

Definition col_record (cells : list json) : jobj :=
  foldl (fun rec jc => map_insert (String.append "col_" (Z_to_string (Z.of_nat (fst jc) + 1))) (snd jc) rec) [] (enumerate cells).

Definition item_record (item : json) : jobj := match item with JObj o => o | other => [("value", other)] end.

(** The records of a list with the slots they are stored at. *)
Definition coerce_list (items : list json) : list (nat * jobj) :=
  match detect_table items with
  | Some header => (fun ir => (S (fst ir), table_record header (cells_of (snd ir)))) <$> enumerate (tail items)
  | None =>
      if negb (bool_decide (items = [])) && all scalar_row items
      then (fun ir => (fst ir, col_record (cells_of (snd ir)))) <$> enumerate items
      else (fun ir => (fst ir, item_record (snd ir))) <$> enumerate items
  end.

(** ** The records of a result *)

Record Records : Type := mkRecords {
  records : list (nat * jobj);
  data_bearing : bool;
  sources : gmap nat string;
}.

Definition no_records (bearing : bool) : Records := mkRecords [] bearing ∅.

Definition str_le (a b : string) : bool := match String.compare a b with Gt => false | _ => true end.

Definition items_at (m : jobj) (k : string) : list json := match map_get m k with Some (JArr l) => l | _ => [] end.

(** The lists of an object under their keys, in the order of the keys; one counter runs across them. *)
Definition expand_lists (stripped : jobj) (keys : list string) : Records :=
  let tagged := k ← keys; (fun r => (k, snd r)) <$> coerce_list (items_at stripped k) in
  mkRecords ((fun ir => (fst ir, snd (snd ir))) <$> enumerate tagged) true
    (list_to_map ((fun ir => (fst ir, fst (snd ir))) <$> enumerate tagged)).

Definition coerce_records (ed : json) : Records :=
  match ed with
  | JArr [] => no_records true
  | JArr items => mkRecords (coerce_list items) true ∅
  | JObj obj =>
      let stripped := strip_meta obj in
      match stripped with
      | [] => no_records false
      | _ =>
          let list_keys := sort_by str_le (map_keys (filter (fun kv => is_array (snd kv) = true) stripped)) in
          match list_keys with
          | _ :: _ =>
              match retain (fun k => match items_at stripped k with [] => false | _ => true end) list_keys with
              | [] => no_records true
              | nonempty => expand_lists stripped nonempty
              end
          | [] =>
              match stripped with
              | [(only_key, JObj inner)] =>
                  if member WRAPPER_KEYS (to_ascii_lowercase only_key) then
                    match strip_meta inner with [] => no_records false | inner => mkRecords [(0%nat, inner)] true ∅ end
                  else mkRecords [(0%nat, stripped)] true ∅
              | _ => mkRecords [(0%nat, stripped)] true ∅
              end
          end
      end
  | _ => no_records false
  end.

Definition push_key (l : list string) (k : string) : list string := if bool_decide (k ∈ l) then l else l ++ [k].
Definition push_keys : list string -> list string -> list string := foldl push_key.

Definition declared_columns (declared : list string) : list string := push_keys [] (retain (fun f => negb (is_empty f)) declared).

(** What a record shows: the declared fields and no others, or all that is not secret. *)
Definition clean_record (allow : list string) (r : jobj) : jobj :=
  let c := strip_meta r in
  match allow with
  | [] => redact_secret_keys c
  | _ => omap (fun k => (fun v => (k, v)) <$> map_get c k) allow
  end.

Definition is_nil {A : Type} (l : list A) : bool := match l with [] => true | _ => false end.

Definition clean_all (allow : list string) (l : list (nat * jobj)) : list (nat * jobj) :=
  omap (fun ir => let c := clean_record allow (snd ir) in if is_nil c then None else Some (fst ir, c)) l.

Definition top_level (obj : jobj) : jobj :=
  filter (fun kv => is_meta_key (fst kv) = false /\ member RESERVED_TOPLEVEL (fst kv) = false) obj.

Definition records_from_result (result_data : json) (declared : list string) : Records :=
  match json_as_object result_data with
  | None => no_records false
  | Some obj =>
      let r := match map_get obj "extracted_data" with Some ed => coerce_records ed | None => no_records false end in
      let r := if is_nil (records r) && negb (data_bearing r) then
                 match top_level obj with [] => r | top => coerce_records (JObj top) end
               else r in
      let cleaned := clean_all (declared_columns declared) (records r) in
      mkRecords cleaned (if is_nil cleaned then data_bearing r && is_nil (records r) else true) (sources r)
  end.

Definition record_count (result_data : json) : nat := length (records (records_from_result result_data [])).

(** ** Rows *)

Record RunInput : Type := mkRunInput {
  i_run_id : Z;
  i_run_at : option string;
  i_status : option string;
  i_success : option bool;
  i_duration_ms : option Z;
  i_result_data : json;
  i_trigger_context : json;
}.

Record Row : Type := mkRow {
  run_id : Z;
  run_at : option string;
  status : option string;
  success : option bool;
  duration_ms : option Z;
  record_index : nat;
  fields : jobj;
  inputs : jobj;
}.

Definition opt_json {A : Type} (f : A -> json) (o : option A) : json := match o with Some x => f x | None => JNull end.

(** [Row::value] *)
Definition value (r : Row) (key : string) : json :=
  if str_eqb key "run_at" then opt_json JStr (run_at r)
  else if str_eqb key "status" then opt_json JStr (status r)
  else if str_eqb key "run_id" then json_of_Z (run_id r)
  else if str_eqb key "success" then opt_json JBool (success r)
  else if str_eqb key "duration_ms" then opt_json json_of_Z (duration_ms r)
  else match strip_prefix INPUT_PREFIX key with
       | Some name => default JNull (map_get (inputs r) name)
       | None => default JNull (map_get (fields r) key)
       end.

Record FlatRun : Type := mkFlatRun {
  f_run_id : Z;
  f_run_at : option string;
  f_status : option string;
  f_success : option bool;
  f_duration_ms : option Z;
  f_records : list (nat * jobj);
  f_data_bearing : bool;
  f_sources : gmap nat string;
}.

Definition flatten_runs (runs : list RunInput) (declared : list string) : list FlatRun :=
  (fun run =>
     let r := records_from_result (i_result_data run) (declared_columns declared) in
     mkFlatRun (i_run_id run) (i_run_at run) (i_status run) (i_success run) (i_duration_ms run) (records r) (data_bearing r) (sources r)) <$> runs.

Record Flat : Type := mkFlat {
  seen_cols : list string;
  seen_input_cols : list string;
  flat_rows : list Row;
}.

Definition make_row (run : RunInput) (inp : jobj) (r : nat * jobj) : Row :=
  mkRow (i_run_id run) (i_run_at run) (i_status run) (i_success run) (i_duration_ms run) (fst r) (snd r) inp.

Definition shown_inputs (include_inputs : bool) (run : RunInput) : jobj :=
  if include_inputs then redact_inputs (task_inputs (i_trigger_context run)) else [].

Definition add_run (declared_cols : list string) (include_inputs : bool) (acc : Flat) (run : RunInput) : Flat :=
  match records (records_from_result (i_result_data run) declared_cols) with
  | [] => acc
  | recs =>
      let inp := shown_inputs include_inputs run in
      mkFlat (foldl (fun cols r => push_keys cols (map_keys (snd r))) (seen_cols acc) recs)
        (push_keys (seen_input_cols acc) (map_keys inp)) (flat_rows acc ++ (make_row run inp <$> recs))
  end.

Definition flatten (runs : list RunInput) (declared : list string) (include_inputs : bool) : list string * list Row :=
  let declared_cols := declared_columns declared in
  let f := foldl (add_run declared_cols include_inputs) (mkFlat [] [] []) runs in
  let columns := match declared_cols with [] => seen_cols f | _ => declared_cols end in
  (if include_inputs then columns ++ (String.append INPUT_PREFIX <$> seen_input_cols f) else columns, flat_rows f).

Record RunDigest : Type := mkDigest {
  n : nat;
  cols : list string;
  nonnull : bool;
  d_data_bearing : bool;
}.

Definition run_digest (run : RunInput) (declared : list string) : RunDigest :=
  let r := records_from_result (i_result_data run) (declared_columns declared) in
  mkDigest (length (records r)) (foldl (fun cols r => push_keys cols (map_keys (snd r))) [] (records r))
    (match get (i_result_data run) "extracted_data" with Some v => negb (is_null v) | None => false end) (data_bearing r).

(** ** Examples *)

Example looks_numeric_ex : looks_numeric " -12.5e+3 " = true /\ looks_numeric "1." = false /\ looks_numeric ".5" = false /\ looks_numeric "1e" = false.
Proof. by_compute. Qed.

Definition texts (l : list string) : json := JArr (JStr <$> l).
Example no_table_ex : detect_table [texts ["name"; "price"]; texts ["tea"; "3"]; texts ["jam"]] = None /\ detect_table [texts ["1"; "2"; "x"]; texts ["a"; "b"; "c"]] = None
  /\ detect_table [texts ["x"; " x"]; texts ["a"; "b"]] = None.
Proof. by_compute. Qed.
Example table_ex : coerce_list [texts ["name"; "price"]; texts ["tea"; "3"]] = [(1%nat, [("name", JStr "tea"); ("price", JStr "3")])].
Proof. vm_compute. reflexivity. Qed.
Example expand_ex : records_from_result (JObj [("extracted_data", JObj [("b", JArr [JObj [("x", JNull)]]); ("cookies", JStr "c"); ("a", JArr [JStr "y"])])]) []
  = mkRecords [(0%nat, [("value", JStr "y")]); (1%nat, [("x", JNull)])] true {[ 0%nat := "a"; 1%nat := "b" ]}.
Proof. vm_compute. reflexivity. Qed.

(** ** Lemmas *)

Lemma push_key_elem (l : list string) (k x : string) : x ∈ push_key l k <-> x ∈ l \/ x = k.
Proof.
  unfold push_key. destruct (bool_decide (k ∈ l)) eqn:E.
  - apply bool_decide_eq_true in E. split; [by left|]. by intros [?| ->].
  - by rewrite elem_of_app, list_elem_of_singleton.
Qed.

Lemma push_keys_elem (ks l : list string) (x : string) : x ∈ push_keys l ks <-> x ∈ l \/ x ∈ ks.
Proof.
  revert l. induction ks as [|k ks IH]; intros l; cbn; [rewrite elem_of_nil; tauto|]. fold (push_keys (push_key l k) ks).
  rewrite IH, push_key_elem, elem_of_cons. tauto.
Qed.

Lemma push_keys_app (l a b : list string) : push_keys l (a ++ b) = push_keys (push_keys l a) b.
Proof. apply foldl_app. Qed.

Lemma push_key_known (l : list string) (k : string) : k ∈ l -> push_key l k = l.
Proof. intros Hk. unfold push_key. by rewrite bool_decide_eq_true_2. Qed.

(** Keys that were collected first are as good as the keys. *)
Lemma push_keys_collected (ks l m : list string) : push_keys l (push_keys m ks) = push_keys (push_keys l m) ks.
Proof.
  revert m. induction ks as [|k ks IH]; intros m; [done|]. cbn. fold (push_keys (push_key m k) ks) (push_keys (push_key (push_keys l m) k) ks).
  rewrite IH. f_equal. unfold push_key at 1. case_bool_decide as E.
  - symmetry. apply push_key_known, push_keys_elem. by right.
  - by rewrite push_keys_app.
Qed.

Lemma declared_elem (declared : list string) (f : string) : f ∈ declared_columns declared <-> f ∈ declared /\ is_empty f = false.
Proof. unfold declared_columns. rewrite push_keys_elem, elem_of_retain, elem_of_nil, negb_true_iff. tauto. Qed.

Lemma push_keys_nodup (ks l : list string) : NoDup l -> NoDup (push_keys l ks).
Proof.
  revert l. induction ks as [|k ks IH]; intros l Hl; [done|]. cbn. apply IH. unfold push_key. case_bool_decide; [done|].
  apply NoDup_app. split_and!; [done| |apply NoDup_singleton]. by intros x Hx ->%list_elem_of_singleton.
Qed.

Lemma push_keys_fresh (ks l : list string) : NoDup (l ++ ks) -> push_keys l ks = l ++ ks.
Proof.
  revert l. induction ks as [|k ks IH]; intros l Hl; [by rewrite app_nil_r|]. cbn. fold (push_keys (push_key l k) ks).
  unfold push_key. case_bool_decide as E.
  - apply NoDup_app in Hl as (_ & Hd & _). exfalso. apply (Hd k E). by left.
  - rewrite IH by (by rewrite <- app_assoc). by rewrite <- app_assoc.
Qed.

(** Declaring what is declared changes nothing. *)
Lemma declared_columns_idem (declared : list string) : declared_columns (declared_columns declared) = declared_columns declared.
Proof.
  unfold declared_columns at 1. rewrite retain_all.
  - rewrite push_keys_fresh; [done|]. cbn. unfold declared_columns. apply push_keys_nodup, NoDup_nil_2.
  - intros x [_ Hx]%declared_elem. by apply negb_true_iff.
Qed.

(** *** The cleaning *)

Lemma map_get_elem_key {A : Type} (m : list (string * A)) (k : string) (v : A) : map_get m k = Some v -> k ∈ map_keys m.
Proof. intros E%map_get_elem. apply list_elem_of_fmap. by exists (k, v). Qed.

Lemma clean_record_ok (allow : list string) (r : jobj) :
  meta_free (JObj (clean_record allow r)) = true /\
  match allow with [] => secret_free (JObj (clean_record allow r)) = true | _ => forall k v, (k, v) ∈ clean_record allow r -> k ∈ allow end.
Proof.
  unfold clean_record. assert (Hm := strip_meta_free r). destruct allow as [|a allow].
  { split; [by apply redact_meta_free|apply redact_secret_free]. }
  assert (Hin : forall k v, (k, v) ∈ omap (fun k => (fun v => (k, v)) <$> map_get (strip_meta r) k) (a :: allow) ->
                  k ∈ a :: allow /\ map_get (strip_meta r) k = Some v).
  { intros k v (k' & Hk' & E)%list_elem_of_omap. apply fmap_Some in E as (w & Ew & [= -> ->]). done. }
  split; [|by intros k v [? _]%Hin].
  apply free_of_members. intros k v [_ E]%Hin. apply map_get_elem in E. by apply (free_member is_meta_key (strip_meta r)).
Qed.

Lemma clean_all_elem (allow : list string) (l : list (nat * jobj)) (i : nat) (c : jobj) :
  (i, c) ∈ clean_all allow l <-> exists r, (i, r) ∈ l /\ c = clean_record allow r /\ c <> [].
Proof.
  unfold clean_all. rewrite list_elem_of_omap. split.
  - intros ([j r] & Hr & E). cbn in E. destruct (clean_record allow r) eqn:Ec; [done|]. cbn in E. injection E as <- <-.
    exists r. split_and!; [done|congruence|congruence].
  - intros (r & Hr & -> & Hc). exists (i, r). split; [done|]. cbn. by destruct (clean_record allow r).
Qed.

Lemma record_elem (v : json) (declared : list string) (i : nat) (c : jobj) :
  (i, c) ∈ records (records_from_result v declared) -> exists r, c = clean_record (declared_columns declared) r /\ c <> [].
Proof.
  unfold records_from_result. destruct (json_as_object v) as [obj|]; cbn; [|by intros ?%not_elem_of_nil].
  intros (r & _ & ? & ?)%clean_all_elem. by exists r.
Qed.

Arguments coerce_records : simpl never.

(** *** The indices *)

Definition indexed (l : list (nat * jobj)) : Prop := StronglySorted lt l.*1.

Lemma seq_sorted (a k : nat) : StronglySorted lt (seq a k).
Proof. revert a. induction k as [|k IH]; intros a; cbn; constructor; [apply IH|]. apply Forall_forall. intros x Hx%elem_of_seq. lia. Qed.

Lemma indexed_enumerate {A : Type} (f : nat * A -> nat * jobj) (d : nat) (l : list A) :
  (forall i a, fst (f (i, a)) = d + i)%nat -> indexed (f <$> enumerate l).
Proof.
  intros Hf. unfold indexed. rewrite <- list_fmap_compose.
  assert (Hm : (fst ∘ f) <$> enumerate l = Nat.add d <$> (enumerate l).*1).
  { rewrite <- list_fmap_compose. apply list_fmap_ext. intros k [i a] _. apply Hf. }
  rewrite Hm, fst_enumerate. generalize 0%nat as a. induction (length l) as [|k IH]; intros a; cbn; constructor; [apply IH|].
  apply Forall_fmap, Forall_forall. intros x Hx%elem_of_seq. cbn. lia.
Qed.

Lemma indexed_one (r : jobj) : indexed [(0%nat, r)].
Proof. repeat constructor. Qed.

Lemma coerce_list_indexed (items : list json) : indexed (coerce_list items).
Proof.
  unfold coerce_list. destruct (detect_table items) as [h|]; [by apply (indexed_enumerate _ 1)|].
  destruct (_ && _); by apply (indexed_enumerate _ 0).
Qed.

Lemma coerce_records_indexed (ed : json) : indexed (records (coerce_records ed)).
Proof.
  destruct ed as [| | | |l|m]; try (constructor; fail).
  - destruct l as [|x l]; [constructor|]. apply coerce_list_indexed.
  - unfold coerce_records. generalize (strip_meta m). intros st. destruct st as [|[k v] rest]; [constructor|].
    destruct (sort_by str_le _) as [|k0 ks].
    + destruct v as [| | | | |inner], rest; try apply indexed_one.
      destruct (member _ _); [|apply indexed_one]. destruct (strip_meta inner); [constructor|apply indexed_one].
    + destruct (retain _ _) as [|k' ks']; [constructor|]. apply (indexed_enumerate _ 0). done.
Qed.

Lemma indices_sublist (l k : list nat) : l `sublist_of` k -> StronglySorted lt k -> StronglySorted lt l.
Proof.
  induction 1 as [|x l k Hl IH|x l k Hl IH]; intros Hk; [done| |].
  - apply StronglySorted_inv in Hk as [Hk Hx]. constructor; [by apply IH|]. by eapply Forall_sublist_of.
  - apply StronglySorted_inv in Hk as [Hk _]. by apply IH.
Qed.

Lemma clean_all_sublist (allow : list string) (l : list (nat * jobj)) : (clean_all allow l).*1 `sublist_of` l.*1.
Proof.
  induction l as [|[i r] l IH]; [constructor|]. cbn. destruct (is_nil (clean_record allow r)); cbn; [by constructor|by apply sublist_skip].
Qed.

Lemma records_indexed (v : json) (declared : list string) : indexed (records (records_from_result v declared)).
Proof.
  unfold records_from_result. destruct (json_as_object v) as [obj|]; [|constructor]. cbn.
  eapply indices_sublist; [apply clean_all_sublist|].
  assert (H0 : indexed (records (match map_get obj "extracted_data" with Some ed => coerce_records ed | None => no_records false end))).
  { destruct (map_get obj "extracted_data"); [apply coerce_records_indexed|constructor]. }
  destruct (_ && _); [|done]. destruct (top_level obj); [done|apply coerce_records_indexed].
Qed.

(** *** The rows *)

Definition run_records (declared : list string) (run : RunInput) : list (nat * jobj) :=
  records (records_from_result (i_result_data run) (declared_columns declared)).

Definition run_rows (declared : list string) (include_inputs : bool) (run : RunInput) : list Row :=
  make_row run (shown_inputs include_inputs run) <$> run_records declared run.

Definition keys_of (recs : list (nat * jobj)) : list string := r ← recs; map_keys (snd r).

Lemma fold_keys (recs : list (nat * jobj)) (l : list string) :
  foldl (fun cols r => push_keys cols (map_keys (snd r))) l recs = push_keys l (keys_of recs).
Proof. revert l. induction recs as [|r recs IH]; intros l; cbn; [done|]. by rewrite IH, push_keys_app. Qed.

(** The inputs that reach the columns are those of the runs with records. *)
Definition input_keys (declared : list string) (include_inputs : bool) (run : RunInput) : list string :=
  match run_records declared run with [] => [] | _ => map_keys (shown_inputs include_inputs run) end.

Lemma add_runs_eq (declared : list string) (inc : bool) (runs : list RunInput) (acc : Flat) :
  foldl (add_run (declared_columns declared) inc) acc runs =
  mkFlat (push_keys (seen_cols acc) (run ← runs; keys_of (run_records declared run)))
    (push_keys (seen_input_cols acc) (run ← runs; input_keys declared inc run)) (flat_rows acc ++ (run ← runs; run_rows declared inc run)).
Proof.
  revert acc. induction runs as [|run runs IH]; intros acc; cbn; [destruct acc; cbn; by rewrite app_nil_r|]. rewrite IH.
  unfold add_run, input_keys at 2, run_rows at 2. fold (run_records declared run). destruct (run_records declared run) as [|r recs] eqn:E; [done|].
  cbn [seen_cols seen_input_cols flat_rows]. rewrite fold_keys, <- !push_keys_app, <- app_assoc. done.
Qed.

Lemma flatten_eq (runs : list RunInput) (declared : list string) (inc : bool) :
  flatten runs declared inc =
  (match declared_columns declared with [] => push_keys [] (run ← runs; keys_of (run_records declared run)) | cols => cols end
     ++ (if inc then String.append INPUT_PREFIX <$> push_keys [] (run ← runs; input_keys declared inc run) else []),
   run ← runs; run_rows declared inc run).
Proof. unfold flatten. rewrite add_runs_eq. cbn [seen_cols seen_input_cols flat_rows]. destruct inc, (declared_columns declared); rewrite ?app_nil_r; reflexivity. Qed.

(** ** Properties *)


(** A digest stands for the rows of its run: the digests of the runs give the number of rows and, without declared fields,
    the columns of the table, and the rows of a run are those between the rows of the runs before it and after it; within a run the
    indices of the rows are distinct and in order. *)
Theorem digests_stand_for_rows (runs : list RunInput) (declared : list string) :
  let '(columns, rows) := flatten runs declared false in
  let digests := (fun run => run_digest run declared) <$> runs in
  length rows = sum_list (n <$> digests) /\
  columns = match declared_columns declared with [] => foldl (fun acc d => push_keys acc (cols d)) [] digests | declared => declared end /\
  (forall before run after, runs = before ++ run :: after ->
     let from := sum_list (n <$> ((fun run => run_digest run declared) <$> before)) in
     exists recs, take (n (run_digest run declared)) (drop from rows) = make_row run [] <$> recs /\ StronglySorted lt recs.*1) /\
  d_data_bearing <$> digests = f_data_bearing <$> flatten_runs runs declared.
Proof.
  rewrite flatten_eq. cbv iota beta zeta.
  assert (Hn : forall run, n (run_digest run declared) = length (run_rows declared false run)) by (intros run; symmetry; apply length_fmap).
  assert (Hlen : forall l, length (run ← l; run_rows declared false run) = sum_list (n <$> ((fun run => run_digest run declared) <$> l))).
  { induction l as [|run l IH]; [done|]. rewrite bind_cons, length_app, IH, !fmap_cons. cbn [sum_list]. by rewrite Hn. }
  assert (Hcols : forall l acc, push_keys acc (run ← l; keys_of (run_records declared run)) =
            foldl (fun acc d => push_keys acc (cols d)) acc ((fun run => run_digest run declared) <$> l)).
  { induction l as [|run l IH]; intros acc; [done|]. rewrite bind_cons, fmap_cons, push_keys_app. cbn [foldl]. rewrite <- IH.
    assert (cols (run_digest run declared) = push_keys [] (keys_of (run_records declared run))) as -> by apply fold_keys.
    by rewrite push_keys_collected. }
  split_and!.
  - apply Hlen.
  - rewrite app_nil_r, Hcols. by destruct (declared_columns declared).
  - intros before run after ->. rewrite bind_app, bind_cons. exists (run_records declared run). split; [|apply records_indexed].
    rewrite <- Hlen, drop_app_length, Hn. apply take_app_length.
  - unfold flatten_runs. rewrite <- !list_fmap_compose. reflexivity.
Qed.
