(* ===== verification/DataQuery.v ===== *)
(** * local/data_query.rs: search, filters, facets, sorting and pages

    The text of a cell, the typed order of cells, the filters, the guess of a column's type with its pick-list, and the table a
    query asks for. The text of a composite value and of a float, and Unicode's case and classes, are the interface [DataLibs]. *)

From Stdlib Require Import Ascii String Sorted.
From S2P Require Import Prelude Ints F64 Str F64Text Json Order DataRedact DataRows.
Open Scope string_scope.
Open Scope list_scope.
Open Scope Z_scope.

Class DataLibs : Type := {
  (** serde_json's text of a value, and of a float *)
  json_text : json -> string;
  float_text : f64 -> string;
  (** [str::to_lowercase] and [char::is_alphanumeric] outside ASCII *)
  unicode_lower : string -> string;
  unicode_alphanumeric : string -> bool;
}.

Definition is_ascii (s : string) : bool := str_all (fun c => byte_val c <? 128) s.

Section query.
Context `{DataLibs}.

Definition to_lowercase (s : string) : string := if is_ascii s then to_ascii_lowercase s else unicode_lower s.
Definition is_alphanumeric (c : string) : bool := match c with String b EmptyString => is_alnum b | _ => unicode_alphanumeric c end.

(** ** Cells *)

Definition cell_text (v : json) : string :=
  match v with
  | JNull => ""
  | JStr s => s
  | JBool b => if b then "true" else "false"
  | JNum (PosInt z) | JNum (NegInt z) => Z_to_string z
  | JNum (Float x) => float_text x
  | other => json_text other
  end.

Definition to_number (v : json) : option f64 :=
  match v with
  | JNum n => Some (num_as_f64 n)
  | JStr s => parse_f64 (trim s)
  | _ => None
  end.

Definition is_empty_val (v : json) : bool :=
  match v with
  | JNull => true
  | JStr s => is_empty (trim s)
  | JArr l => is_nil l
  | JObj m => is_nil m
  | _ => false
  end.

Record SortKey : Type := mkKey { bucket : Z; num : f64; text : string }.

Definition key_cmp (a b : SortKey) : comparison :=
  match Z.compare (bucket a) (bucket b) with
  | Eq => match SFcompare (num a) (num b) with
          | Some Eq | None => String.compare (text a) (text b)
          | Some c => c
          end
  | c => c
  end.

Definition sort_key_for (v : json) : SortKey :=
  match v with
  | JNull => mkKey 3 f64_zero ""
  | JBool b => mkKey 1 (f64_of_Z (if b then 1 else 0)) ""
  | JNum n => mkKey 1 (num_as_f64 n) ""
  | JStr s =>
      let t := trim s in
      if is_empty t then mkKey 3 f64_zero ""
      else match parse_f64 t with
           | Some n => mkKey 1 n ""
           | None => mkKey 2 f64_zero (to_ascii_lowercase t)
           end
  | other => mkKey 2 f64_zero (to_ascii_lowercase (cell_text other))
  end.

Definition has_text (needle : string) (v : json) : bool := contains (to_ascii_lowercase (cell_text v)) needle.

Definition row_matches (r : Row) (needle : string) : bool :=
  any (has_text needle) ((fields r).*2) || any (has_text needle) ((inputs r).*2)
  || contains (to_ascii_lowercase (default "" (status r))) needle || contains (Z_to_string (run_id r)) needle.

(** ** Search *)

Definition SEARCH_MAX_TERMS : nat := 8.
Definition SEARCH_SNIPPET_RADIUS : nat := 80.

(** [split] at every character that is not alphanumeric; [piece] is what the current piece has. *)
Fixpoint pieces (piece : string) (cs : list string) : list string :=
  match cs with
  | [] => [piece]
  | c :: cs => if is_alphanumeric c then pieces (String.append piece c) cs else piece :: pieces "" cs
  end.

Fixpoint collect_terms (out raws : list string) : list string :=
  match raws with
  | [] => out
  | raw :: raws =>
      if is_empty raw then collect_terms out raws
      else
        let out := push_key out (to_lowercase raw) in
        if (SEARCH_MAX_TERMS <=? length out)%nat then out else collect_terms out raws
  end.

Definition parse_search_terms (q : string) : list string := collect_terms [] (pieces "" (chars q)).
Definition fts5_match_query (terms : list string) : string := join " " ((fun t => String.append t "*") <$> terms).
Definition search_matches_all (r : Row) (terms : list string) : bool := all (row_matches r) terms.

(** The horizontal ellipsis. *)
Definition ELLIPSIS : string := of_bytes [chr 226; chr 128; chr 166].

Definition snippet (txt : string) (match_char : nat) : string :=
  let cs := chars txt in
  let centre := Nat.min match_char (length cs) in
  let from := (centre - SEARCH_SNIPPET_RADIUS)%nat in
  let upto := Nat.min (centre + SEARCH_SNIPPET_RADIUS) (length cs) in
  let s := String.concat "" (take (upto - from) (drop from cs)) in
  let s := if (0 <? from)%nat then String.append ELLIPSIS s else s in
  if (upto <? length cs)%nat then String.append s ELLIPSIS else s.

(** The earliest match of a term, in characters of the lower-case text. *)
Definition first_match (low : string) (terms : list string) : option nat :=
  match omap (fun t => (fun pos => length (chars (str_take pos low))) <$> find_str low t) terms with
  | [] => None
  | p :: ps => Some (foldl Nat.min p ps)
  end.

Definition search_highlight (r : Row) (terms : list string) : json :=
  default JNull (head (omap (fun kv =>
    (fun p => JObj [("field", JStr (fst kv)); ("snippet", JStr (snippet (cell_text (snd kv)) p))])
      <$> first_match (to_lowercase (cell_text (snd kv))) terms) (fields r))).

(** ** Filters *)

Record Clause : Type := mkClause {
  col : string;
  op : string;
  c_value : option json;
  c_values : option (list json);
  c_min : option json;
  c_max : option json;
}.

Definition plain (v : json) : string := to_ascii_lowercase (trim (cell_text v)).
Definition target (c : Clause) : string := match c_value c with Some v => plain v | None => "" end.

Definition clause_matches (r : Row) (c : Clause) : bool :=
  if is_empty (col c) || is_empty (op c) then true
  else
    let val := value r (col c) in
    if str_eqb (op c) "empty" then is_empty_val val
    else if str_eqb (op c) "nonempty" then negb (is_empty_val val)
    else if str_eqb (op c) "contains" then contains (to_ascii_lowercase (cell_text val)) (target c)
    else if str_eqb (op c) "eq" then str_eqb (plain val) (target c)
    else if str_eqb (op c) "ne" then negb (str_eqb (plain val) (target c))
    else if str_eqb (op c) "in" then member (plain <$> default [] (c_values c)) (plain val)
    else if str_eqb (op c) "between" then
      match to_number val with
      | None => false
      | Some n =>
          if match c_min c ≫= to_number with Some mn => f64_ltb n mn | None => false end then false
          else negb (match c_max c ≫= to_number with Some mx => f64_ltb mx n | None => false end)
      end
    else true.

(** ** Types and facets *)

Definition FACET_MAX_DISTINCT : nat := 40.
Definition TYPE_SAMPLE : nat := 250.

Definition is_numeric_str (s : string) : bool := bool_decide (is_Some (parse_f64 (trim s))).
Definition is_bool_str (s : string) : bool := member ["true"; "false"; "yes"; "no"] (to_ascii_lowercase (trim s)).
Definition is_url_str (s : string) : bool := let t := trim s in starts_with t "http://" || starts_with t "https://".

Definition digit_at (b : string) (i : nat) : bool := match String.get i b with Some c => is_digit c | None => false end.
Definition byte_at (b : string) (i : nat) (c : ascii) : bool := match String.get i b with Some d => byte_is c d | None => false end.

Definition is_date_str (s : string) : bool :=
  let b := trim s in
  let len := String.length b in
  if (len <? 10)%nat then false
  else if negb (all (digit_at b) [0; 1; 2; 3; 5; 6; 8; 9]%nat && byte_at b 4 "-" && byte_at b 7 "-") then false
  else if (len =? 10)%nat then true
  else if (16 <=? len)%nat && (byte_at b 10 "T" || byte_at b 10 " ") then all (digit_at b) [11; 12; 14; 15]%nat && byte_at b 13 ":"
  else true.

Inductive Kind : Type := KNum | KBool | KUrl | KDate | KObj | KOther.
#[export] Instance Kind_eq_dec : EqDecision Kind. Proof. solve_decision. Defined.

Definition kind_of (v : json) : Kind :=
  match v with
  | JBool _ => KBool
  | JNum _ => KNum
  | JObj _ | JArr _ => KObj
  | JStr s =>
      let t := trim s in
      if is_numeric_str t then KNum else if is_bool_str t then KBool else if is_url_str t then KUrl
      else if is_date_str t then KDate else KOther
  | JNull => KOther
  end.

Definition frac (c n : Z) : f64 := f64_div (f64_of_Z c) (f64_of_Z n).
Definition at_least (c n : Z) (m e : Z) : bool := f64_leb (f64_of_dec m e) (frac c n).

Definition infer_type (values : list json) : string :=
  let ks := kind_of <$> retain (fun v => negb (is_empty_val v)) (take TYPE_SAMPLE values) in
  let n := Z.of_nat (length ks) in
  let count k := Z.of_nat (length (retain (fun k' => bool_decide (k' = k)) ks)) in
  if n =? 0 then "text"
  else if (0 <? count KObj) && at_least (count KObj) n 5 (-1) then "json"
  else if at_least (count KBool) n 8 (-1) then "boolean"
  else if at_least (count KNum) n 8 (-1) then "number"
  else if at_least (count KDate) n 8 (-1) then "date"
  else if at_least (count KUrl) n 8 (-1) then "url"
  else "text".

(** The counts of the distinct texts, and whether there were too many. *)
Fixpoint count_values (counts : gmap string nat) (texts : list string) : gmap string nat * bool :=
  match texts with
  | [] => (counts, false)
  | key :: texts =>
      if is_empty key then count_values counts texts
      else match counts !! key with
           | None => if (FACET_MAX_DISTINCT <? size counts)%nat then (counts, true) else count_values (<[key := 1%nat]> counts) texts
           | Some c => count_values (<[key := S c]> counts) texts
           end
  end.

(** More often first, then by text. *)
Definition pick_le (a b : string * nat) : bool :=
  if (snd b <? snd a)%nat then true else if (snd a <? snd b)%nat then false else str_le (fst a) (fst b).

Definition f64_min (a b : f64) : f64 := if f64_is_nan a then b else if f64_is_nan b then a else if f64_ltb b a then b else a.
Definition f64_max (a b : f64) : f64 := if f64_is_nan a then b else if f64_is_nan b then a else if f64_ltb a b then b else a.
Definition json_of_f64 (x : f64) : json := if f64_is_finite x then JNum (Float x) else JNull.
Definition json_of_nat (n : nat) : json := JNum (PosInt (Z.of_nat n)).

Definition facet (col : string) (rows : list Row) : json :=
  let vals := retain (fun v => negb (is_empty_val v)) ((fun r => value r col) <$> rows) in
  let ftype := if str_eqb col "status" then "text" else infer_type vals in
  let bounds :=
    if str_eqb ftype "number" then
      match omap to_number vals with
      | [] => []
      | nums => [("min", json_of_f64 (foldl f64_min (S754_infinity false) nums)); ("max", json_of_f64 (foldl f64_max (S754_infinity true) nums))]
      end
    else [] in
  let picks :=
    if str_eqb ftype "json" then []
    else
      let '(counts, overflow) := count_values ∅ ((fun v => trim (cell_text v)) <$> vals) in
      ("distinct_count", json_of_nat (if overflow then FACET_MAX_DISTINCT + 1 else size counts)) ::
      (if negb overflow && (size counts <=? FACET_MAX_DISTINCT)%nat
       then [("distinct", JArr ((fun kc => JObj [("value", JStr (fst kc)); ("count", json_of_nat (snd kc))]) <$> sort_by pick_le (map_to_list counts)))]
       else []) in
  JObj ([("type", JStr ftype); ("non_empty", json_of_nat (length vals))] ++ bounds ++ picks).

Definition compute_facets (columns : list string) (rows : list Row) : json :=
  let facet_cols := "status" :: retain (fun c => negb (str_eqb c "status")) columns in
  JObj (foldl (fun m c => map_insert c (facet c rows) m) [] facet_cols).

(** ** The table of a query *)

Record TableQuery : Type := mkQuery {
  q : option string;
  col_filters : list (string * string);
  filters : list Clause;
  sort_by_col : option string;
  sort_dir : string;
  offset : nat;
  limit : option nat;
}.

Record Table : Type := mkTable {
  columns : list string;
  declared : bool;
  rows : list Row;
  total : nat;
}.

Definition lower_trim (s : string) : string := to_ascii_lowercase (trim s).

Definition filter_q (qu : TableQuery) (rows : list Row) : list Row :=
  match q qu with
  | Some q => if is_empty (lower_trim q) then rows else retain (fun r => row_matches r (lower_trim q)) rows
  | None => rows
  end.

Definition filter_col (rows : list Row) (cf : string * string) : list Row :=
  if is_empty (lower_trim (snd cf)) then rows
  else retain (fun r => contains (to_ascii_lowercase (cell_text (value r (fst cf)))) (lower_trim (snd cf))) rows.

Definition filter_clause (rows : list Row) (c : Clause) : list Row :=
  if negb (is_empty (col c)) && negb (is_empty (op c)) then retain (fun r => clause_matches r c) rows else rows.

Definition sort_key (qu : TableQuery) (columns : list string) : string :=
  match sort_by_col qu with
  | Some s => if member (columns ++ ["run_at"; "status"; "duration_ms"; "run_id"]) s then s else "run_at"
  | None => "run_at"
  end.

(** [a] may stand before [b]. *)
Definition row_le (key : string) (a b : Row) : bool :=
  if str_eqb key "run_at" then str_le (default "" (run_at a)) (default "" (run_at b))
  else match key_cmp (sort_key_for (value a key)) (sort_key_for (value b key)) with Gt => false | _ => true end.

Definition descending (qu : TableQuery) : bool := negb (eq_ignore_ascii_case (sort_dir qu) "asc").

Definition build_table (runs : list RunInput) (decl : list string) (qu : TableQuery) (include_inputs : bool) : Table :=
  let '(columns, rows) := flatten runs decl include_inputs in
  let rows := filter_q qu rows in
  let rows := foldl filter_col rows (col_filters qu) in
  let rows := foldl filter_clause rows (filters qu) in
  let total := length rows in
  let rows := Prelude.sort_by (row_le (sort_key qu columns)) rows in
  let rows := if descending qu then reverse rows else rows in
  let page := match limit qu with None => drop (offset qu) rows | Some lim => take lim (drop (offset qu) rows) end in
  mkTable columns (negb (is_nil (declared_columns decl))) page total.

(** ** Rows as JSON *)

Definition meta_members (r : Row) : jobj :=
  [("run_id", json_of_Z (run_id r)); ("run_at", opt_json JStr (run_at r)); ("status", opt_json JStr (status r));
   ("record_index", json_of_nat (record_index r))].

Definition row_to_json (r : Row) (columns : list string) : json :=
  JObj (foldl (fun rec c => map_insert c (value r c) rec) (meta_members r) columns).
Definition rows_to_json (rows : list Row) (columns : list string) : list json := (fun r => row_to_json r columns) <$> rows.

Definition row_to_table_json (r : Row) (columns : list string) : json :=
  JObj (meta_members r ++ [("fields", JObj (foldl (fun rec c => map_insert c (value r c) rec) [] columns))]).
Definition rows_to_table_json (rows : list Row) (columns : list string) : list json := (fun r => row_to_table_json r columns) <$> rows.
End query.

Arguments key_cmp : simpl never.

(** ** Lemmas *)

(** Neither row's key is NaN: only then the comparison of rows is an order. *)
Definition key_ord : SortKey -> SortKey -> comparison :=
  cmp_lex (cmp_on bucket Z.compare) (cmp_lex (cmp_on (f64_rank ∘ num) rank_cmp) (cmp_on text String.compare)).

#[export] Instance key_order : CmpOrder key_ord.
Proof. unfold key_ord. apply _. Qed.

Lemma key_cmp_ord (a b : SortKey) : f64_is_nan (num a) = false -> f64_is_nan (num b) = false -> key_cmp a b = key_ord a b.
Proof.
  intros Ha Hb. unfold key_cmp, key_ord, cmp_lex, cmp_on. destruct (bucket a ?= bucket b); try done. rewrite (SFcompare_rank _ _ Ha Hb). cbn.
  by destruct (rank_cmp _ _).
Qed.

Lemma sorted_reverse {A : Type} (R : A -> A -> Prop) (l : list A) : StronglySorted R l -> StronglySorted (flip R) (reverse l).
Proof.
  induction 1 as [|x l Hl IH Hx]; [constructor|]. rewrite reverse_cons.
  assert (Ha : forall y, y ∈ reverse l -> R x y) by (intros y Hy; rewrite Forall_forall in Hx; by apply Hx, elem_of_reverse).
  clear Hx Hl. induction IH as [|y k Hk IHk Hy]; cbn; [repeat constructor|]. constructor.
  - apply IHk. intros z Hz. apply Ha. by right.
  - apply Forall_app. split; [done|]. repeat constructor. apply Ha. by left.
Qed.

Lemma retain_reverse {A : Type} (p : A -> bool) (l : list A) : retain p (reverse l) = reverse (retain p l).
Proof. apply filter_reverse. Qed.

Section table.
Context `{DataLibs}.

Definition row_ord (key : string) : Row -> Row -> comparison :=
  if str_eqb key "run_at" then cmp_on (fun r => default "" (run_at r)) String.compare
  else cmp_on (fun r => sort_key_for (value r key)) key_ord.

#[local] Instance row_order (key : string) : CmpOrder (row_ord key).
Proof. unfold row_ord. destruct (str_eqb key "run_at"); apply _. Qed.

(** A row that the order can place. *)
Definition comparable (key : string) (r : Row) : Prop := str_eqb key "run_at" = true \/ f64_is_nan (num (sort_key_for (value r key))) = false.

Lemma row_le_ord (key : string) (a b : Row) : comparable key a -> comparable key b -> row_le key a b = cmp_le (row_ord key) a b.
Proof.
  unfold comparable, row_le, row_ord, cmp_le. destruct (str_eqb key "run_at"); [done|].
  intros [?|Ha]; [done|]. intros [?|Hb]; [done|]. by rewrite key_cmp_ord.
Qed.

(** The filters of a query, as one. *)
Definition selected (qu : TableQuery) (r : Row) : bool :=
  match q qu with Some q => is_empty (lower_trim q) || row_matches r (lower_trim q) | None => true end
  && all (fun cf => is_empty (lower_trim (snd cf)) || contains (to_ascii_lowercase (cell_text (value r (fst cf)))) (lower_trim (snd cf))) (col_filters qu)
  && all (clause_matches r) (filters qu).

Lemma fold_retain {A B : Type} (f : B -> A -> bool) (step : list A -> B -> list A) (bs : list B) (l : list A) :
  (forall l b, step l b = retain (f b) l) -> foldl step l bs = retain (fun a => all (fun b => f b a) bs) l.
Proof.
  intros Hs. revert l. induction bs as [|b bs IH]; intros l; [symmetry; by apply retain_all|].
  cbn [foldl]. by rewrite IH, Hs, retain_retain.
Qed.

Lemma filters_eq (qu : TableQuery) (rows : list Row) :
  foldl filter_clause (foldl filter_col (filter_q qu rows) (col_filters qu)) (filters qu) = retain (selected qu) rows.
Proof.
  assert (Hq : filter_q qu rows = retain (fun r => match q qu with Some q => is_empty (lower_trim q) || row_matches r (lower_trim q) | None => true end) rows).
  { unfold filter_q. destruct (q qu) as [t|]; [|symmetry; by apply retain_all]. by destruct (is_empty (lower_trim t)); [symmetry; apply retain_all|]. }
  rewrite Hq.
  rewrite (fold_retain (fun c r => clause_matches r c) filter_clause).
  2: { intros l c. unfold filter_clause. destruct (is_empty (col c)) eqn:E1; [|destruct (is_empty (op c)) eqn:E2; [|done]];
       symmetry; apply retain_all; intros r _; unfold clause_matches; by rewrite E1, ?E2. }
  rewrite (fold_retain (fun cf r => is_empty (lower_trim (snd cf)) || contains (to_ascii_lowercase (cell_text (value r (fst cf)))) (lower_trim (snd cf))) filter_col).
  2: { intros l cf. unfold filter_col. destruct (is_empty (lower_trim (snd cf))); [symmetry; by apply retain_all|done]. }
  rewrite !retain_retain. apply retain_ext. intros r _. unfold selected. destruct (match q qu with Some _ => _ | None => _ end), (all _ (col_filters qu)), (all _ (filters qu)); done.
Qed.

End table.

(** ** Facets *)

Section facets.
Context `{DataLibs}.

(** The counts of all the texts. *)
Definition tally : gmap string nat -> list string -> gmap string nat := foldl (fun m k => <[k := S (default 0%nat (m !! k))]> m).

Lemma tally_lookup (l : list string) (m : gmap string nat) (k : string) :
  tally m l !! k = match m !! k, length (retain (str_eqb k) l) with None, O => None | c, n => Some (default 0 c + n)%nat end.
Proof.
  revert m. induction l as [|x l IH]; intros m.
  - cbn. destruct (m !! k); cbn; [by rewrite Nat.add_0_r|done].
  - change (tally m (x :: l)) with (tally (<[x:=S (default 0%nat (m !! x))]> m) l). rewrite IH, retain_cons. destruct (str_eqb k x) eqn:E.
    + apply str_eqb_eq in E as ->. rewrite lookup_insert_eq. cbn. destruct (m !! x); cbn; f_equal; lia.
    + rewrite lookup_insert_ne; [done|]. intros ->. by rewrite str_eqb_refl in E.
Qed.

Lemma tally_grows (l : list string) (m : gmap string nat) : (size m <= size (tally m l))%nat.
Proof.
  revert m. induction l as [|x l IH]; intros m; cbn; [done|]. etrans; [|apply IH]. rewrite map_size_insert. destruct (m !! x); cbn; lia.
Qed.

Lemma tally_keys (l : list string) (k : string) : is_Some (tally ∅ l !! k) <-> k ∈ l.
Proof.
  rewrite tally_lookup, lookup_empty. cbn. destruct (retain (str_eqb k) l) as [|y r] eqn:E; cbn.
  - split; [by intros [? ?]|]. intros Hk. assert (Hr : k ∈ retain (str_eqb k) l) by (apply elem_of_retain; split; [apply str_eqb_refl|done]).
    rewrite E in Hr. by apply not_elem_of_nil in Hr.
  - split; [|by eexists]. intros _. assert (Hr : y ∈ retain (str_eqb k) l) by (rewrite E; by left).
    apply elem_of_retain in Hr as [->%str_eqb_eq Hy]. done.
Qed.

Lemma tally_size (l : list string) : size (tally ∅ l) = length (remove_dups l).
Proof.
  rewrite <- size_dom. rewrite <- (size_list_to_set (C := gset string) (remove_dups l)) by apply NoDup_remove_dups. f_equal. apply set_eq. intros k.
  by rewrite elem_of_list_to_set, elem_of_remove_dups, elem_of_dom, tally_keys.
Qed.

Lemma count_values_spec (l : list string) (m : gmap string nat) :
  (size m <= S FACET_MAX_DISTINCT)%nat ->
  let all := tally m (retain (fun s => negb (is_empty s)) l) in
  if snd (count_values m l) then (S FACET_MAX_DISTINCT < size all)%nat
  else fst (count_values m l) = all /\ (size all <= S FACET_MAX_DISTINCT)%nat.
Proof.
  revert m. induction l as [|k l IH]; intros m Hm; [done|]. cbv zeta. rewrite retain_cons. cbn [count_values].
  destruct (is_empty k); cbn [negb]; [by apply IH|].
  set (rest := retain (fun s => negb (is_empty s)) l) in *. change (tally m (k :: rest)) with (tally (<[k:=S (default 0%nat (m !! k))]> m) rest).
  destruct (m !! k) as [c|] eqn:E; cbn [default].
  - apply IH. rewrite map_size_insert, E. done.
  - destruct (Nat.ltb_spec FACET_MAX_DISTINCT (size m)); cbn [fst snd].
    + eapply Nat.lt_le_trans; [|apply tally_grows]. rewrite map_size_insert, E. lia.
    + apply IH. rewrite map_size_insert, E. lia.
Qed.

#[local] Instance pick_ord_order : CmpOrder (cmp_lex (cmp_rev (cmp_on snd Nat.compare)) (cmp_on (@fst string nat) String.compare)).
Proof. apply _. Qed.

Lemma pick_le_ord (a b : string * nat) : pick_le a b = cmp_le (cmp_lex (cmp_rev (cmp_on snd Nat.compare)) (cmp_on fst String.compare)) a b.
Proof.
  unfold pick_le, cmp_le, cmp_lex, cmp_rev, cmp_on. destruct (Nat.ltb_spec (snd b) (snd a)), (Nat.ltb_spec (snd a) (snd b)), (Nat.compare_spec (snd b) (snd a)); done || lia.
Qed.

(** The facet of a column: its guessed type, the number of values that are not empty,
    and, unless the type is json, the number of distinct texts up to 41 and, when they are at most 40, each of them once with the
    number of cells that hold it, the most frequent first and equals by text. *)
Theorem facet_exact (col : string) (rows : list Row) :
  let vals := retain (fun v => negb (is_empty_val v)) ((fun r => value r col) <$> rows) in
  let ftype := if str_eqb col "status" then "text" else infer_type vals in
  let texts := retain (fun s => negb (is_empty s)) ((fun v => trim (cell_text v)) <$> vals) in
  let distinct := length (remove_dups texts) in
  get (facet col rows) "type" = Some (JStr ftype) /\ get (facet col rows) "non_empty" = Some (json_of_nat (length vals)) /\
  (str_eqb ftype "json" = false ->
   get (facet col rows) "distinct_count" = Some (json_of_nat (Nat.min distinct 41)) /\
   if (distinct <=? 40)%nat then
     exists picks, get (facet col rows) "distinct" = Some (JArr ((fun kc => JObj [("value", JStr (fst kc)); ("count", json_of_nat (snd kc))]) <$> picks)) /\
       NoDup picks.*1 /\ (forall k, k ∈ picks.*1 <-> k ∈ texts) /\ (forall k c, (k, c) ∈ picks -> c = length (retain (str_eqb k) texts)) /\
       StronglySorted (fun a b => pick_le a b = true) picks
   else get (facet col rows) "distinct" = None).
Proof.
  cbv zeta. unfold facet. set (vals := retain _ _). set (ftype := if str_eqb col "status" then _ else _).
  set (bounds := if str_eqb ftype "number" then _ else _).
  assert (Hb : forall k, k <> "min" -> k <> "max" -> map_get bounds k = None).
  { intros k H1 H2. subst bounds. destruct (str_eqb ftype "number"); [|done]. destruct (omap to_number vals); [done|]. cbn.
    destruct (str_eqb "min" k) eqn:E1; [by apply str_eqb_eq in E1|]. by destruct (str_eqb "max" k) eqn:E2; [apply str_eqb_eq in E2|]. }
  assert (Hg : forall k d, k <> "type" -> k <> "non_empty" -> k <> "min" -> k <> "max" ->
            get (JObj ([("type", JStr ftype); ("non_empty", json_of_nat (length vals))] ++ bounds ++ d)) k = map_get d k).
  { intros k d H1 H2 H3 H4. cbn. destruct (str_eqb "type" k) eqn:E1; [by apply str_eqb_eq in E1; subst|].
    destruct (str_eqb "non_empty" k) eqn:E2; [by apply str_eqb_eq in E2; subst|]. specialize (Hb k H3 H4).
    clear - Hb. induction bounds as [|[a v] b IH]; [done|]. cbn in *. by destruct (str_eqb a k); [|apply IH]. }
  split_and!; [reflexivity|reflexivity|]. intros Hj. rewrite Hj. rewrite !Hg by done.
  pose proof (count_values_spec ((fun v => trim (cell_text v)) <$> vals) ∅) as Hc. rewrite map_size_empty in Hc. specialize (Hc ltac:(lia)). cbv zeta in Hc.
  set (texts := retain (fun s => negb (is_empty s)) _) in *. rewrite (tally_size texts) in Hc.
  destruct (count_values _ _) as [counts over]. cbn [fst snd] in Hc. destruct over; cbn [negb andb].
  - split.
    + cbn [map_get]. rewrite str_eqb_refl. do 2 f_equal. unfold FACET_MAX_DISTINCT in *. lia.
    + destruct (Nat.leb_spec (length (remove_dups texts)) 40); [unfold FACET_MAX_DISTINCT in *; lia|done].
  - destruct Hc as [-> Hs]. rewrite (tally_size texts). split.
    { cbn [map_get]. rewrite str_eqb_refl. do 2 f_equal. unfold FACET_MAX_DISTINCT in *. lia. }
    unfold FACET_MAX_DISTINCT. destruct (Nat.leb_spec (length (remove_dups texts)) 40); [|done].
    exists (Prelude.sort_by pick_le (map_to_list (tally ∅ texts))). split_and!.
    + done.
    + rewrite sort_by_perm. apply NoDup_fst_map_to_list.
    + intros k. rewrite sort_by_perm, <- (tally_keys texts). split.
      * intros ([k' c] & -> & Hk%elem_of_map_to_list)%list_elem_of_fmap. cbn. by eexists.
      * intros [c Hk]. apply list_elem_of_fmap. exists (k, c). split; [done|]. by apply elem_of_map_to_list.
    + intros k c Hk. apply sort_by_elem, elem_of_map_to_list in Hk. rewrite tally_lookup, lookup_empty in Hk. cbn in Hk.
      destruct (length _) in Hk |- *; [done|]. by injection Hk.
    + rewrite (sort_by_ext _ _ _ (fun x y _ _ => pick_le_ord x y)).
      eapply StronglySorted_ind; [constructor|..|apply (cmp_le_sorted (cmp_lex (cmp_rev (cmp_on snd Nat.compare)) (cmp_on fst String.compare)))].
      intros x l _ IH Hx. constructor; [done|]. eapply Forall_impl; [exact Hx|]. intros y Hy. by rewrite pick_le_ord.
Qed.
End facets.

(** ** What the code does and does not say *)

(** A cell with the text NaN is as good as every number, so the comparison is no order. *)
Lemma nan_is_no_order `{DataLibs} :
  let k t := sort_key_for (JStr t) in
  key_cmp (k "2") (k "NaN") = Eq /\ key_cmp (k "NaN") (k "1") = Eq /\ key_cmp (k "2") (k "1") = Gt.
Proof. vm_compute. by split_and!. Qed.

(** It is also between any bounds. *)
Lemma nan_is_between `{DataLibs} : clause_matches (mkRow 1 None None None None 0 [("price", JStr "NaN")] [])
  (mkClause "price" "between" None None (Some (JNum (PosInt 10))) (Some (JNum (PosInt 20)))) = true.
Proof. vm_compute. reflexivity. Qed.

(** A field named like a property of the run is not shown: the column has the run's. *)
Lemma field_behind_run `{DataLibs} :
  row_to_table_json (mkRow 1 None (Some "success") None None 0 [("status", JStr "shipped")] []) ["status"] =
  JObj (meta_members (mkRow 1 None (Some "success") None None 0 [] []) ++ [("fields", JObj [("status", JStr "success")])]).
Proof. vm_compute. reflexivity. Qed.

(** A time that is not one keeps a text from being a date, though its date is one. *)
Lemma date_with_bad_time : is_date_str "2026-06-21Tabcde" = false /\ is_date_str "2026-06-21, noon" = true.
Proof. vm_compute. by split. Qed.

(** The filter of a search folds only ASCII, the terms all of Unicode: a cell with the query itself may be left out. *)
Lemma search_misses_its_own_text : exists libs : DataLibs,
  let q := of_bytes [chr 195; chr 137] in
  parse_search_terms q = [of_bytes [chr 195; chr 169]] /\
  search_matches_all (mkRow 1 None None None None 0 [("title", JStr q)] []) (parse_search_terms q) = false.
Proof.
  exists {| json_text := fun _ => ""; float_text := fun _ => ""; unicode_lower := fun s => if str_eqb s (of_bytes [chr 195; chr 137]) then of_bytes [chr 195; chr 169] else s;
            unicode_alphanumeric := fun _ => true |}.
  vm_compute. by split.
Qed.
