(* ===== verification/DataText.v ===== *)
(** * local/data_query.rs: CSV, Markdown and HTML

    The exports of a table. The Markdown parser and the HTML writer of its events are the interface [Markdown]. The double quote
    is [QUOTE]. *)

From Stdlib Require Import Ascii String.
From S2P Require Import Prelude Ints Str Json DataRedact DataRows DataQuery.
Open Scope string_scope.
Open Scope list_scope.

Definition QUOTE : ascii := "034"%char.
Definition CR : ascii := "013"%char.
Definition LF : ascii := "010"%char.
Definition byte (c : ascii) : string := String c EmptyString.
Definition CRLF : string := String CR (byte LF).
Definition quoted (s : string) : string := String QUOTE (String.append s (byte QUOTE)).
Definition strings : list string -> string := String.concat "".

(** ** CSV *)

Definition csv_special (c : ascii) : bool := any (fun d => byte_is d c) [","%char; QUOTE; LF; CR].

Definition csv_field (s : string) : string :=
  if has_byte csv_special s then quoted (replace_byte (byte_is QUOTE) (String QUOTE (byte QUOTE)) s) else s.

Definition csv_line (line : list string) : string := String.append (join "," (csv_field <$> line)) CRLF.

Definition META_COLUMNS : list string := ["run_id"; "run_at"; "status"].

Section csv.
Context `{DataLibs}.

Definition meta_cells (r : Row) : list string := [Z_to_string (run_id r); default "" (run_at r); default "" (status r)].
Definition data_cells (columns : list string) (r : Row) : list string := (fun c => cell_text (value r c)) <$> columns.

Definition to_csv (columns : list string) (rows : list Row) : string :=
  strings (csv_line (META_COLUMNS ++ columns) :: ((fun r => csv_line (meta_cells r ++ data_cells columns r)) <$> rows)).

Definition LINEAGE_COLUMNS : list string := ["record_uid"; "change"; "changed_fields"; "first_seen"; "last_seen"; "versions"].

(** [lineage[k]] *)
Definition at_key (v : json) (k : string) : json := default JNull (get v k).

Definition lineage_cells (lineage : json) : list string :=
  let changed := bool_decide (json_as_str (at_key lineage "change") = Some "changed") in
  [cell_text (at_key lineage "uid"); cell_text (at_key lineage "change");
   if changed then cell_text (at_key lineage "changed_fields") else "";
   cell_text (at_key lineage "first_seen_at"); cell_text (at_key lineage "last_seen_at"); cell_text (at_key lineage "versions")].

Definition to_csv_with_lineage (columns : list string) (rows : list (Row * json)) : string :=
  strings (csv_line (META_COLUMNS ++ LINEAGE_COLUMNS ++ columns) ::
    ((fun rl => csv_line (meta_cells (fst rl) ++ lineage_cells (snd rl) ++ data_cells columns (fst rl))) <$> rows)).

(** ** Documents *)

Definition CONTENT_FIELDS : list string := ["markdown"; "content"; "text"; "body"].
Definition TITLE_FIELDS : list string := ["title"; "name"; "heading"; "url"].
Definition URL_FIELDS : list string := ["url"; "link"; "source_url"; "source"].
Definition CONTENT_MIN_CHARS : nat := 200.

Definition is_long (v : json) : bool := match v with JStr s => (CONTENT_MIN_CHARS <=? length (chars s))%nat | _ => false end.

Definition content_column (columns : list string) (rows : list Row) : option string :=
  if is_nil rows then None
  else find_first (fun cand => member columns cand && (length rows <=? length (retain (fun r => is_long (value r cand)) rows) * 2)%nat) CONTENT_FIELDS.

Definition blank (c : ascii) : bool := any (byte_is c) [" "%char; "009"%char].
Definition line_end (c : ascii) : bool := any (byte_is c) [CR; LF].

(** What follows the first line that is [---], if any; [line] is what the current line has. *)
Fixpoint after_rule (line s : string) : option string :=
  let closes line := str_eqb (trim_end_by (fun c => line_end c || blank c) line) "---" in
  match s with
  | EmptyString => if closes line then Some "" else None
  | String c r =>
      let line := String.append line (byte c) in
      if byte_is LF c then if closes line then Some r else after_rule "" r else after_rule line r
  end.

Definition strip_front_matter (text : string) : string :=
  let t := default text (strip_prefix (of_bytes [chr 239; chr 187; chr 191]) text) in
  match strip_prefix "---" t with
  | None => text
  | Some rest =>
      let rest := trim_start_by blank rest in
      match (match strip_prefix CRLF rest with Some r => Some r | None => strip_prefix (byte LF) rest end) with
      | None => text
      | Some rest => match after_rule "" rest with Some tail => trim_start_by line_end tail | None => text end
      end
  end.

(** [str::contains] of a substring, and the part before the first of a byte. *)
Definition before_byte (c : ascii) (s : string) : string := default "" (head (split c s)).

Definition SAFE_SCHEMES : list string := ["http://"; "https://"; "mailto:"; "data:image/"].

Definition safe_link (url : string) : option string :=
  let u := trim url in
  if is_empty u then None
  else
    let low := to_ascii_lowercase u in
    if any (starts_with low) ["//"; "/"; "#"] then Some u
    else
      let authority := before_byte "/" low in
      if negb (contains low "://") && negb (contains authority ":") then Some u
      else if any (starts_with low) SAFE_SCHEMES then Some u else None.

Definition md_cell (v : json) : string := replace_byte line_end " " (replace_byte (byte_is "|"%char) "\|" (cell_text v)).

Definition escape_byte (c : ascii) : string :=
  if byte_is "&" c then "&amp;"
  else if byte_is "<" c then "&lt;"
  else if byte_is ">" c then "&gt;"
  else if byte_is QUOTE c then "&quot;"
  else if byte_is "'" c then "&#39;"
  else byte c.

Fixpoint html_escape (s : string) : string := match s with EmptyString => "" | String c r => String.append (escape_byte c) (html_escape r) end.

Definition first_text (ccol : string) (r : Row) (keys : list string) : option string :=
  head (omap (fun k => if str_eqb k ccol then None
                       else match value r k with JStr s => if is_empty (trim s) then None else Some (trim s) | _ => None end) keys).

Definition doc_parts (r : Row) (ccol : string) : string * option string * string :=
  let title := default (String.append "Record " (Z_to_string (Z.of_nat (record_index r)))) (first_text ccol r TITLE_FIELDS) in
  (title, first_text ccol r URL_FIELDS, strip_front_matter (cell_text (value r ccol))).

(** ** Markdown *)

Definition md_doc (ccol : string) (r : Row) : string :=
  let '(t, url, content) := doc_parts r ccol in
  strings ["## "; t; byte LF; byte LF; match url with Some u => strings ["<"; u; ">"; byte LF; byte LF] | None => "" end;
           trim content; byte LF; byte LF; "---"; byte LF; byte LF].

Definition md_line (cells : list string) : string := strings ["| "; join " | " cells; " |"; byte LF].

Definition to_markdown (columns : list string) (rows : list Row) (title : option string) : string :=
  let out := match title with Some t => strings ["# "; t; byte LF; byte LF] | None => "" end in
  match content_column columns rows with
  | Some ccol =>
      let out := String.append out (strings (md_doc ccol <$> rows)) in
      String.append (trim_end_by (fun c => any (byte_is c) [LF; "-"%char; " "%char]) out) (byte LF)
  | None =>
      let header := META_COLUMNS ++ columns in
      strings (out :: md_line header :: md_line ((fun _ => "---") <$> header) ::
               ((fun r => md_line (meta_cells r ++ ((fun c => md_cell (value r c)) <$> columns))) <$> rows))
  end.
End csv.

(** ** HTML *)

Inductive Event : Type :=
| Html (s : string)
| InlineHtml (s : string)
| Text (s : string)
| StartLink (link_type dest_url title id : string)
| StartImage (link_type dest_url title id : string)
| OtherEvent (e : string).

Class Markdown : Type := {
  parse_markdown : string -> list Event;
  push_html : list Event -> string;
}.

Definition safe_event (e : Event) : Event :=
  match e with
  | Html s | InlineHtml s => Text s
  | StartLink l d t i => StartLink l (default "" (safe_link d)) t i
  | StartImage l d t i => StartImage l (default "" (safe_link d)) t i
  | other => other
  end.

Definition HTML_CSS : string := strings
  ["body{font:15px/1.6 -apple-system,BlinkMacSystemFont,'Segoe UI',sans-serif;";
   "max-width:52rem;margin:2rem auto;padding:0 1rem;color:#18181b}";
   "table{border-collapse:collapse;width:100%;font-size:13px}";
   "th,td{border:1px solid #e4e4e7;padding:6px 8px;text-align:left;vertical-align:top}";
   "th{background:#fafafa}";
   "article{margin:0 0 2rem;padding:0 0 2rem;border-bottom:1px solid #e4e4e7}";
   "img{max-width:100%}pre{overflow-x:auto;background:#fafafa;padding:.75rem;border-radius:6px}";
   "@media(prefers-color-scheme:dark){body{background:#09090b;color:#e4e4e7}";
   "th,td,article{border-color:#27272a}th,pre{background:#18181b}}"].

Section html.
Context `{DataLibs, Markdown}.

Definition md_to_html (text : string) : string := push_html (safe_event <$> parse_markdown text).

Definition tag (name : string) : string := strings ["<"; name; ">"].
Definition element (name inner : string) : string := strings [tag name; inner; tag (String "/" name)].

Definition html_head (title : option string) : string :=
  let doc_title := html_escape (default "Dataset" title) in
  strings [tag "!doctype html"; byte LF; tag (strings ["html lang="; quoted "en"]); tag "head"; tag (strings ["meta charset="; quoted "utf-8"]); byte LF;
           tag (strings ["meta name="; quoted "viewport"; " content="; quoted "width=device-width,initial-scale=1"]); byte LF;
           element "title" doc_title; element "style" HTML_CSS; tag "/head"; tag "body"; byte LF;
           match title with Some _ => strings [element "h1" doc_title; byte LF] | None => "" end].

Definition html_doc (ccol : string) (r : Row) : string :=
  let '(t, url, content) := doc_parts r ccol in
  strings [tag "article"; byte LF; element "h2" (html_escape t); byte LF;
           match url with
           | Some u =>
               match safe_link u with
               | Some safe => strings [tag "p"; tag (strings ["a href="; quoted (html_escape safe); " rel="; quoted "noreferrer nofollow"]); html_escape u;
                                       tag "/a"; tag "/p"; byte LF]
               | None => String.append (element "p" (html_escape u)) (byte LF)
               end
           | None => ""
           end;
           md_to_html content; tag "/article"; byte LF].

Definition html_row (columns : list string) (r : Row) : string :=
  String.append (element "tr" (strings ((fun c => element "td" (html_escape c)) <$> meta_cells r ++ data_cells columns r))) (byte LF).

Definition to_html (columns : list string) (rows : list Row) (title : option string) : string :=
  match content_column columns rows with
  | Some ccol => strings [html_head title; strings (html_doc ccol <$> rows); tag "/body"; tag "/html"]
  | None =>
      strings [html_head title; tag "table"; tag "thead"; element "tr" (strings ((fun h => element "th" (html_escape h)) <$> META_COLUMNS ++ columns));
               tag "/thead"; tag "tbody"; byte LF; strings (html_row columns <$> rows); tag "/tbody"; tag "/table"; tag "/body"; tag "/html"]
  end.
End html.

Example csv_ex : csv_field "a,b" = quoted "a,b" /\ csv_field (byte QUOTE) = String QUOTE (String QUOTE (String QUOTE (byte QUOTE))) /\ csv_field "x" = "x".
Proof. by_compute. Qed.
Example front_ex : strip_front_matter (strings ["--- "; byte LF; "a: b"; CRLF; "---"; CRLF; byte LF; "x"]) = "x"
  /\ strip_front_matter (strings ["---"; byte LF; "a: b"]) = strings ["---"; byte LF; "a: b"].
Proof. by_compute. Qed.
Example link_ex : safe_link " JavaScript:alert(1)" = None /\ safe_link "a/b:c" = Some "a/b:c" /\ safe_link "//x" = Some "//x"
  /\ safe_link "http:x" = None /\ safe_link "data:text/html,x" = None.
Proof. by_compute. Qed.

(** ** Reading CSV back *)

Inductive CsvState : Type := Start | Plain | Quoted | AfterQuote | AfterCr.

(** RFC 4180: the records of a text; [cur] and [rec] are what the current field and record have. *)
Fixpoint csv_scan (st : CsvState) (cur : string) (rec : list string) (s : string) : list (list string) :=
  match s with
  | EmptyString => match st, rec with Start, [] => [] | _, _ => [rec ++ [cur]] end
  | String c r =>
      let add := String.append cur (byte c) in
      let bare := if byte_is "," c then csv_scan Start "" (rec ++ [cur]) r
                  else if byte_is CR c then csv_scan AfterCr cur rec r else csv_scan Plain add rec r in
      match st with
      | Start => if byte_is QUOTE c then csv_scan Quoted cur rec r else bare
      | Plain => bare
      | Quoted => if byte_is QUOTE c then csv_scan AfterQuote cur rec r else csv_scan Quoted add rec r
      | AfterQuote => if byte_is QUOTE c then csv_scan Quoted add rec r else bare
      | AfterCr => if byte_is LF c then (rec ++ [cur]) :: csv_scan Start "" [] r
                   else csv_scan Plain (String.append cur (String CR (byte c))) rec r
      end
  end.
Definition csv_records : string -> list (list string) := csv_scan Start "" [].

Lemma append_byte (a : string) (c : ascii) (b : string) : String.append (String.append a (byte c)) b = String.append a (String c b).
Proof. by rewrite append_assoc. Qed.

Lemma csv_quoted (f cur : string) (rec : list string) (rest : string) :
  csv_scan Quoted cur rec (String.append (replace_byte (byte_is QUOTE) (String QUOTE (byte QUOTE)) f) (String QUOTE rest)) =
  csv_scan AfterQuote (String.append cur f) rec rest.
Proof.
  revert cur. induction f as [|c f IH]; intros cur; cbn [replace_byte].
  - cbn. by rewrite append_nil_r.
  - destruct (byte_is QUOTE c) eqn:E.
    + unfold byte_is in E. apply bool_decide_eq_true in E as <-. cbn. rewrite <- (append_byte cur QUOTE f). apply IH.
    + rewrite <- (append_byte cur c f). cbn. rewrite E. apply IH.
Qed.

(** What a separator does after a field. *)
Definition csv_sep (cur : string) (rec : list string) (sep : ascii) (rest : string) : list (list string) :=
  if byte_is "," sep then csv_scan Start "" (rec ++ [cur]) rest else csv_scan AfterCr cur rec rest.

Lemma csv_plain (f cur : string) (rec : list string) (sep : ascii) (rest : string) : sep = ","%char \/ sep = CR ->
  has_byte csv_special f = false -> csv_scan Plain cur rec (String.append f (String sep rest)) = csv_sep (String.append cur f) rec sep rest.
Proof.
  intros Hsep. revert cur. induction f as [|c f IH]; intros cur Hf; cbn [String.append].
  - rewrite append_nil_r. by destruct Hsep as [-> | ->].
  - cbn in Hf. apply orb_false_iff in Hf as [Hc Hf]. unfold csv_special in Hc. cbn in Hc. rewrite !orb_false_iff in Hc. destruct Hc as (Hc1 & Hc2 & Hc3 & Hc4 & _).
    cbn [csv_scan]. rewrite Hc1, Hc4. rewrite <- (append_byte cur c f). by apply IH.
Qed.

Lemma csv_field_scan (f : string) (rec : list string) (sep : ascii) (rest : string) : sep = ","%char \/ sep = CR ->
  csv_scan Start "" rec (String.append (csv_field f) (String sep rest)) = csv_sep f rec sep rest.
Proof.
  intros Hsep. unfold csv_field. destruct (has_byte csv_special f) eqn:E.
  - unfold quoted. cbn [String.append csv_scan]. change (byte_is QUOTE QUOTE) with true. cbv iota. rewrite append_assoc. cbn [String.append byte].
    rewrite csv_quoted. cbn [String.append]. by destruct Hsep as [-> | ->].
  - destruct f as [|c f]; [by destruct Hsep as [-> | ->]|].
    cbn in E. apply orb_false_iff in E as [Hc Hf]. unfold csv_special in Hc. cbn in Hc. rewrite !orb_false_iff in Hc. destruct Hc as (Hc1 & Hc2 & Hc3 & Hc4 & _).
    cbn [String.append csv_scan]. rewrite Hc1, Hc2, Hc4. by rewrite csv_plain.
Qed.

Lemma csv_line_scan (line rec : list string) (rest : string) : line <> [] ->
  csv_scan Start "" rec (String.append (csv_line line) rest) = (rec ++ line) :: csv_scan Start "" [] rest.
Proof.
  unfold csv_line. revert rec. induction line as [|f line IH]; intros rec Hne; [done|]. destruct line as [|g line].
  - cbn [fmap list_fmap join]. rewrite append_assoc. unfold CRLF, byte at 1. cbn [String.append]. rewrite csv_field_scan by (by right). reflexivity.
  - change (join "," (csv_field <$> f :: g :: line)) with (String.append (csv_field f) (String "," (join "," (csv_field <$> g :: line)))).
    rewrite !append_assoc. cbn [String.append]. rewrite csv_field_scan by (by left). unfold csv_sep. change (byte_is "," ",") with true. cbv iota.
    rewrite <- append_assoc, IH by done. by rewrite <- app_assoc.
Qed.

Lemma csv_lines_scan (lines : list (list string)) : Forall (fun l => l <> []) lines -> csv_records (strings (csv_line <$> lines)) = lines.
Proof.
  induction 1 as [|line lines Hl _ IH]; [done|]. unfold csv_records.
  assert (strings (csv_line <$> line :: lines) = String.append (csv_line line) (strings (csv_line <$> lines))) as ->.
  { destruct lines; cbn; [by rewrite append_nil_r|done]. }
  rewrite csv_line_scan by done. cbn [app]. f_equal. exact IH.
Qed.

(** ** Markup *)

(** The tags of a text, and the tag that is open at its end. *)
Fixpoint tags_from (inside : option string) (s : string) : list string * option string :=
  match s with
  | EmptyString => ([], inside)
  | String c r =>
      match inside with
      | None => tags_from (if byte_is "<" c then Some "" else None) r
      | Some t => if byte_is ">" c then let '(ts, e) := tags_from None r in (t :: ts, e) else tags_from (Some (String.append t (byte c))) r
      end
  end.

(** [s] has the tags [ts], from outside a tag to outside a tag. *)
Definition marked (s : string) (ts : list string) : Prop := forall rest, tags_from None (String.append s rest) = (let '(us, e) := tags_from None rest in (ts ++ us, e)).

Lemma marked_empty : marked "" [].
Proof. intros rest. cbn. by destruct (tags_from None rest). Qed.

Lemma marked_append (a b : string) (ts us : list string) : marked a ts -> marked b us -> marked (String.append a b) (ts ++ us).
Proof. intros Ha Hb rest. rewrite append_assoc, Ha, Hb. destruct (tags_from None rest). by rewrite app_assoc. Qed.

Lemma strings_cons (s : string) (l : list string) : strings (s :: l) = String.append s (strings l).
Proof. unfold strings. destruct l; cbn; [by rewrite append_nil_r|done]. Qed.

Lemma marked_strings (l : list string) (ts : list (list string)) : Forall2 marked l ts -> marked (strings l) (concat ts).
Proof. induction 1 as [|s t l ts Hs _ IH]; [apply marked_empty|]. rewrite strings_cons. cbn. by apply marked_append. Qed.

(** Text without a [<] has no tag. *)
Lemma marked_plain (s : string) : has_byte (byte_is "<") s = false -> marked s [].
Proof.
  intros Hs rest. induction s as [|c s IH]; [apply marked_empty|]. cbn in Hs. apply orb_false_iff in Hs as [Hc Hs]. cbn. rewrite Hc. by apply IH.
Qed.

Lemma tag_scan (t name rest : string) : has_byte (byte_is ">") name = false ->
  tags_from (Some t) (String.append name (String ">" rest)) = let '(us, e) := tags_from None rest in (String.append t name :: us, e).
Proof.
  revert t. induction name as [|c name IH]; intros t Hn; cbn [String.append].
  - rewrite append_nil_r. reflexivity.
  - cbn in Hn. apply orb_false_iff in Hn as [Hc Hn]. cbn [tags_from]. rewrite Hc, (IH (String.append t (byte c)) Hn). by rewrite append_byte.
Qed.

Lemma marked_tag (name : string) : has_byte (byte_is ">") name = false -> marked (tag name) [name].
Proof.
  intros Hn rest. unfold tag. rewrite !strings_cons. cbn [strings String.concat]. rewrite append_nil_r, !append_assoc. cbn [String.append tags_from].
  change (byte_is "<" "<") with true. cbv iota. rewrite (tag_scan "" name rest Hn). reflexivity.
Qed.

Lemma escape_no_tag (s : string) : has_byte (byte_is "<") (html_escape s) = false.
Proof.
  induction s as [|c s IH]; [done|]. cbn [html_escape].
  rewrite has_byte_append, IH, orb_false_r. unfold escape_byte. destruct (byte_is "&" c); [done|]. destruct (byte_is "<" c) eqn:E; [done|].
  destruct (byte_is ">" c); [done|]. destruct (byte_is QUOTE c); [done|]. destruct (byte_is "'" c); [done|]. cbn. by rewrite E.
Qed.

Lemma marked_element (name inner : string) (ts : list string) : has_byte (byte_is ">") name = false -> marked inner ts ->
  marked (element name inner) (name :: ts ++ [String "/" name]).
Proof.
  intros Hn Hi. change (name :: ts ++ [String "/" name]) with (concat [[name]; ts; [String "/" name]]). apply marked_strings.
  repeat constructor; [by apply marked_tag|done|by apply marked_tag].
Qed.

Lemma marked_escaped (name s : string) : has_byte (byte_is ">") name = false -> marked (element name (html_escape s)) [name; String "/" name].
Proof. intros Hn. apply (marked_element name _ []); [done|]. apply marked_plain, escape_no_tag. Qed.

Lemma marked_cells (name : string) (cells : list string) : has_byte (byte_is ">") name = false ->
  marked (strings ((fun c => element name (html_escape c)) <$> cells)) (concat (replicate (length cells) [name; String "/" name])).
Proof.
  intros Hn. apply marked_strings. induction cells as [|c cells IH]; cbn; constructor; [by apply marked_escaped|done].
Qed.

Definition head_tags (title : option string) : list string :=
  ["!doctype html"; strings ["html lang="; quoted "en"]; "head"; strings ["meta charset="; quoted "utf-8"];
   strings ["meta name="; quoted "viewport"; " content="; quoted "width=device-width,initial-scale=1"]; "title"; "/title"; "style"; "/style";
   "/head"; "body"] ++ match title with Some _ => ["h1"; "/h1"] | None => [] end.

Definition row_tags (cell : string) (n : nat) : list string := "tr" :: concat (replicate n [cell; String "/" cell]) ++ ["/tr"].

Definition table_tags (title : option string) (cols rows : nat) : list string :=
  head_tags title ++ ["table"; "thead"] ++ row_tags "th" (3 + cols) ++ ["/thead"; "tbody"] ++ concat (replicate rows (row_tags "td" (3 + cols)))
  ++ ["/tbody"; "/table"; "/body"; "/html"].

Lemma marked_head (title : option string) : marked (html_head title) (head_tags title).
Proof.
  assert (Hl : marked (byte LF) []) by by apply marked_plain.
  unfold html_head. set (e := html_escape _).
  assert (He : forall n, has_byte (byte_is ">") n = false -> marked (element n e) [n; String "/" n]) by (intros; by apply marked_escaped).
  assert (head_tags title = concat [["!doctype html"]; []; [strings ["html lang="; quoted "en"]]; ["head"]; [strings ["meta charset="; quoted "utf-8"]]; [];
    [strings ["meta name="; quoted "viewport"; " content="; quoted "width=device-width,initial-scale=1"]]; []; ["title"; "/title"]; ["style"; "/style"];
    ["/head"]; ["body"]; []; match title with Some _ => ["h1"; "/h1"] | None => [] end]) as -> by by destruct title.
  apply marked_strings.
  repeat apply Forall2_cons_2; try exact Hl; try (by apply marked_tag); [by apply He| | |constructor].
  - apply (marked_element "style" HTML_CSS []); [done|]. by apply marked_plain.
  - destruct title; [|apply marked_empty]. apply (marked_strings _ [["h1"; "/h1"]; []]). repeat constructor; [by apply He|exact Hl].
Qed.

Lemma marked_row (cell : string) (cells : list string) : has_byte (byte_is ">") cell = false ->
  marked (element "tr" (strings ((fun c => element cell (html_escape c)) <$> cells))) (row_tags cell (length cells)).
Proof. intros Hc. apply marked_element; [done|]. by apply marked_cells. Qed.

(** ** The exports *)

Section exports.
Context `{DataLibs}.

(** C30: an RFC 4180 reader gets back from the exported CSV the header and, row by row, the texts of the cells, whatever
    separators, quotes and line ends the texts have. So with the lineage columns. *)
Theorem csv_round_trip (columns : list string) (rows : list Row) (with_lineage : list (Row * json)) :
  csv_records (to_csv columns rows) = (META_COLUMNS ++ columns) :: ((fun r => meta_cells r ++ data_cells columns r) <$> rows) /\
  csv_records (to_csv_with_lineage columns with_lineage) =
    (META_COLUMNS ++ LINEAGE_COLUMNS ++ columns) :: ((fun rl => meta_cells (fst rl) ++ lineage_cells (snd rl) ++ data_cells columns (fst rl)) <$> with_lineage).
Proof.
  split; unfold to_csv, to_csv_with_lineage.
  - etransitivity; [|apply (csv_lines_scan (_ :: _))].
    + by rewrite fmap_cons, <- list_fmap_compose.
    + constructor; [done|]. apply Forall_fmap, Forall_true. by intros r.
  - etransitivity; [|apply (csv_lines_scan (_ :: _))].
    + by rewrite fmap_cons, <- list_fmap_compose.
    + constructor; [done|]. apply Forall_fmap, Forall_true. by intros r.
Qed.

Context `{Markdown} (event_tags : list Event -> list string).

(** What the HTML writer may be given: no raw HTML, and only links that pass. *)
Definition inert (e : Event) : Prop :=
  match e with
  | Html _ | InlineHtml _ => False
  | StartLink _ d _ _ | StartImage _ d _ _ => d = "" \/ exists url, safe_link url = Some d
  | _ => True
  end.

Lemma safe_event_inert (e : Event) : inert (safe_event e).
Proof. destruct e as [s|s|s|l d t i|l d t i|e]; cbn; try done; (destruct (safe_link d) eqn:E; cbn; [right; by exists d|by left]). Qed.

Definition url_tags (u : string) : list string :=
  match safe_link u with
  | Some safe => ["p"; strings ["a href="; quoted (html_escape safe); String.append " rel=" (quoted "noreferrer nofollow")]; "/a"; "/p"]
  | None => ["p"; "/p"]
  end.

Definition doc_tags (ccol : string) (r : Row) : list string :=
  let '(_, url, content) := doc_parts r ccol in
  ["article"; "h2"; "/h2"] ++ match url with Some u => url_tags u | None => [] end ++ event_tags (safe_event <$> parse_markdown content) ++ ["/article"].

Lemma escape_no_close (s : string) : has_byte (byte_is ">") (html_escape s) = false.
Proof.
  induction s as [|c s IH]; [done|]. cbn [html_escape]. rewrite has_byte_append, IH, orb_false_r. unfold escape_byte.
  destruct (byte_is "&" c); [done|]. destruct (byte_is "<" c); [done|]. destruct (byte_is ">" c) eqn:E; [done|].
  destruct (byte_is QUOTE c); [done|]. destruct (byte_is "'" c); [done|]. cbn. by rewrite E.
Qed.

Lemma href_closed (d rest : string) :
  has_byte (byte_is ">") (strings ["a href="; quoted (html_escape d); rest]) = has_byte (byte_is ">") rest.
Proof.
  rewrite !strings_cons. unfold quoted. change (strings []) with "". rewrite !has_byte_append. cbn [has_byte]. rewrite has_byte_append, escape_no_close.
  rewrite !orb_false_r. reflexivity.
Qed.

Lemma marked_html_doc (ccol : string) (r : Row) :
  (forall es, Forall inert es -> marked (push_html es) (event_tags es)) -> marked (html_doc ccol r) (doc_tags ccol r).
Proof.
  intros Hmd. unfold html_doc, doc_tags. destruct (doc_parts r ccol) as [[t url] content].
  assert (Hl : marked (byte LF) []) by by apply marked_plain.
  assert (Hc : marked (md_to_html content) (event_tags (safe_event <$> parse_markdown content))).
  { apply Hmd, Forall_fmap, Forall_true. intros e. apply safe_event_inert. }
  match goal with |- marked _ (_ ++ ?us ++ ?es ++ _) =>
    assert (["article"; "h2"; "/h2"] ++ us ++ es ++ ["/article"] = concat [["article"]; []; ["h2"; "/h2"]; []; us; es; ["/article"]; []]) as -> by reflexivity end.
  apply marked_strings. repeat apply Forall2_cons_2; try done; try (by apply marked_tag); [by apply marked_escaped|].
  destruct url as [u|]; [|apply marked_empty]. unfold url_tags. destruct (safe_link u) as [safe|].
  - apply (marked_strings _ [["p"]; [_]; []; ["/a"]; ["/p"]; []]). repeat apply Forall2_cons_2; try done; try (by apply marked_tag).
    + apply marked_tag. by rewrite href_closed.
    + apply marked_plain, escape_no_tag.
  - change ["p"; "/p"] with (["p"; "/p"] ++ []). apply marked_append; [by apply marked_escaped|done].
Qed.

(** the tags of an exported page are the writer's own. As a table it has those of a table of that size, whatever the cells
    and the title hold; as documents, those of one article a record, a link only to an address that passes, and what the
    Markdown writer makes of events with no raw HTML and with no other links. *)
Theorem html_tags (columns : list string) (rows : list Row) (title : option string) :
  (forall es, Forall inert es -> marked (push_html es) (event_tags es)) ->
  tags_from None (to_html columns rows title) =
    (match content_column columns rows with
     | Some ccol => head_tags title ++ concat (doc_tags ccol <$> rows) ++ ["/body"; "/html"]
     | None => table_tags title (length columns) (length rows)
     end, None).
Proof.
  intros Hmd.
  assert (Hall : forall s ts, marked s ts -> tags_from None s = (ts, None)).
  { intros s ts Hs. specialize (Hs ""). rewrite append_nil_r in Hs. cbn in Hs. by rewrite app_nil_r in Hs. }
  apply Hall. unfold to_html. destruct (content_column columns rows) as [ccol|].
  - apply (marked_strings _ [_; _; ["/body"]; ["/html"]]).
    repeat apply Forall2_cons_2; try done; try (by apply marked_tag); [apply marked_head|]. apply marked_strings.
    apply Forall2_fmap, Forall_Forall2_diag, Forall_true. intros r. by apply marked_html_doc.
  - unfold table_tags.
    assert (forall a b, head_tags title ++ ["table"; "thead"] ++ a ++ ["/thead"; "tbody"] ++ b ++ ["/tbody"; "/table"; "/body"; "/html"] =
      concat [head_tags title; ["table"]; ["thead"]; a; ["/thead"]; ["tbody"]; []; b; ["/tbody"]; ["/table"]; ["/body"]; ["/html"]]) as ->.
    { intros a b. reflexivity. }
    apply marked_strings. repeat apply Forall2_cons_2; try done; try (by apply marked_tag); [apply marked_head|..].
    + pose proof (marked_row "th" (META_COLUMNS ++ columns) eq_refl) as Hr. by rewrite length_app in Hr.
    + by apply marked_plain.
    + apply marked_strings. induction rows as [|r rows IH]; cbn; constructor; [|done]. unfold html_row.
      pose proof (marked_row "td" (meta_cells r ++ data_cells columns r) eq_refl) as Hr.
      rewrite length_app in Hr. unfold data_cells in Hr at 2. rewrite length_fmap in Hr.
      change (meta_cells r) with [Z_to_string (run_id r); default "" (run_at r); default "" (status r)] in Hr at 2. cbn [length] in Hr.
      rewrite <- (app_nil_r (row_tags _ _)). exact (marked_append _ (byte LF) _ [] Hr (marked_plain (byte LF) eq_refl)).
Qed.
End exports.

(** A writer of paragraphs and links, for the examples. *)
Definition plain_text (e : Event) : string :=
  match e with
  | Html s | InlineHtml s => s
  | Text s => html_escape s
  | StartLink _ d _ _ => tag (strings ["a href="; quoted (html_escape d); ""])
  | _ => ""
  end.
Definition plain_tags (e : Event) : list string :=
  match e with StartLink _ d _ _ => [strings ["a href="; quoted (html_escape d); ""]] | _ => [] end.
Definition plain_markdown : Markdown := {|
  parse_markdown := fun text => [Html text; StartLink "Inline" "javascript:x" "" ""; Text "link"];
  push_html := fun es => strings (plain_text <$> es);
|}.
Definition plain_libs : DataLibs := {| json_text := fun _ => ""; float_text := fun _ => ""; unicode_lower := fun s => s; unicode_alphanumeric := fun _ => true |}.

Lemma plain_marked (es : list Event) : Forall inert es -> marked (push_html (Markdown := plain_markdown) es) (concat (plain_tags <$> es)).
Proof.
  intros Hes. apply marked_strings. induction Hes as [|e es He _ IH]; cbn; constructor; [|done].
  destruct e as [s|s|s|l d t i|l d t i|e]; cbn in *; try done; try apply marked_empty.
  - apply marked_plain, escape_no_tag.
  - refine (marked_tag (strings ["a href="; quoted (html_escape d); ""]) _). by rewrite href_closed.
Qed.

Definition long_text : string := String.append "<script>alert(1)</script>" (strings (replicate 180 "x")).

Lemma html_tags_witness :
  let page v := to_html (H := plain_libs) (H0 := plain_markdown) ["text"; "url"] [mkRow 1 None None None None 0 [("text", JStr v); ("url", JStr "javascript:x")] []] None in
  tags_from None (page "</td><script>") = (table_tags None 2 1, None) /\
  tags_from None (page long_text) =
    (head_tags None ++ ["article"; "h2"; "/h2"; "p"; "/p"; strings ["a href="; quoted ""; ""]; "/article"; "/body"; "/html"], None).
Proof.
  cbv zeta. split.
  - by rewrite (html_tags (H := plain_libs) (H0 := plain_markdown) (fun es => concat (plain_tags <$> es)) _ _ _ plain_marked).
  - rewrite (html_tags (H := plain_libs) (H0 := plain_markdown) (fun es => concat (plain_tags <$> es)) _ _ _ plain_marked). vm_compute. reflexivity.
Defined.

(** ** Links *)

Lemma before_byte_eq (c : ascii) (s : string) : before_byte c s = match split_once c s with Some (a, _) => a | None => s end.
Proof.
  unfold before_byte, split. induction s as [|d s IH]; [done|]. cbn. destruct (byte_is c d); [done|].
  destruct (split_by (byte_is c) s) eqn:E; [by apply split_by_nonempty in E|]. cbn in IH |- *. subst. by destruct (split_once c s) as [[a b]|].
Qed.

Lemma lower_byte_is (c d : ascii) : c ∈ ["/"%char; ":"%char; "#"%char] -> byte_is c (lower_byte d) = byte_is c d.
Proof. rewrite !elem_of_cons, elem_of_nil. intros [-> | [-> | [-> | []]]]; by destruct d as [[] [] [] [] [] [] [] []]. Qed.

Lemma lower_no_byte (c : ascii) (s : string) : c ∈ ["/"%char; ":"%char; "#"%char] ->
  has_byte (fun d => any (fun x => byte_is x d) ["/"%char; ":"%char; "#"%char]) s = false -> has_byte (byte_is c) (to_ascii_lowercase s) = false.
Proof.
  intros Hc. induction s as [|d s IH]; [done|]. cbn [has_byte to_ascii_lowercase str_map]. rewrite !orb_false_iff. intros [Hd Hs].
  split; [|by apply IH]. rewrite lower_byte_is by done. exact (proj1 (any_false _ _) Hd c Hc).
Qed.

Lemma split_once_first (c : ascii) (a b : string) : has_byte (byte_is c) a = false -> split_once c (String.append a (String c b)) = Some (a, b).
Proof.
  induction a as [|d a IH]; cbn.
  - by rewrite (proj2 (bool_decide_eq_true _) eq_refl : byte_is c c = true).
  - intros [-> Ha]%orb_false_iff. by rewrite (IH Ha).
Qed.

(** A text with a colon is not a relative path, unless a slash comes first. *)
Lemma colon_contained (a b : string) : contains (String.append a (String ":" b)) ":" = true.
Proof.
  unfold contains. induction a as [|d a IH]; [done|]. cbn [String.append find_str]. destruct (starts_with _ _); [done|].
  by destruct (find_str (String.append a (String ":" b)) ":").
Qed.

(** a link of an exported page that names a scheme names http, https, mailto or an image as data; any other is dropped. *)
Theorem safe_link_scheme (url u : string) : safe_link url = Some u ->
  u = trim url /\ u <> "" /\
  forall scheme rest, has_byte (fun c => any (fun x => byte_is x c) ["/"%char; ":"%char; "#"%char]) scheme = false ->
    u = String.append scheme (String ":" rest) ->
    to_ascii_lowercase scheme ∈ ["http"; "https"; "mailto"; "data"] /\
    (to_ascii_lowercase scheme = "data" -> starts_with (to_ascii_lowercase rest) "image/" = true).
Proof.
  unfold safe_link. destruct (is_empty (trim url)) eqn:Ee; [done|]. intros Hu.
  assert (Hu' : u = trim url).
  { repeat match type of Hu with context [if ?b then _ else _] => destruct b end; congruence. }
  rewrite <- Hu' in *. split_and!; [done|by intros ->|]. intros scheme rest Hs ->. clear Hu' Ee.
  assert (Hn : forall c, c ∈ ["/"%char; ":"%char; "#"%char] -> has_byte (byte_is c) (to_ascii_lowercase scheme) = false)
    by (intros; by apply lower_no_byte).
  unfold to_ascii_lowercase at 1 2 3 4 in Hu. rewrite !str_map_append in Hu. fold (to_ascii_lowercase scheme) in Hu.
  cbn [str_map] in Hu. change (lower_byte ":") with ":"%char in Hu. fold (to_ascii_lowercase rest) in Hu.
  set (L := to_ascii_lowercase scheme) in *. set (R := to_ascii_lowercase rest) in *. 
  assert (Hfirst : any (starts_with (String.append L (String ":" R))) ["//"; "/"; "#"] = false).
  { pose proof (Hn "/"%char ltac:(set_solver)) as H1. pose proof (Hn "#"%char ltac:(set_solver)) as H2. destruct L as [|d L]; [done|]. cbn in H1, H2 |- *.
    apply orb_false_iff in H1 as [H1 _], H2 as [H2 _]. unfold byte_is in H1, H2. unfold starts_with. cbn. by rewrite H1, H2. }
  assert (Hauth : contains (before_byte "/" (String.append L (String ":" R))) ":" = true).
  { pose proof (Hn "/"%char ltac:(set_solver)) as H1. rewrite before_byte_eq.
    assert (He : exists R', match split_once "/" (String.append L (String ":" R)) with Some (a, _) => a | None => String.append L (String ":" R) end = String.append L (String ":" R')).
    { clear - H1. induction L as [|d L IH]; cbn in *.
      - destruct (split_once "/" R) as [[a b]|]; by eexists.
      - apply orb_false_iff in H1 as [-> H1]. destruct (IH H1) as [R' E]. destruct (split_once "/" _) as [[a b]|]; cbn; exists R'; by rewrite <- E. }
    destruct He as [R' ->]. apply colon_contained. }
  rewrite Hfirst, Hauth in Hu. rewrite andb_false_r in Hu. destruct (any (starts_with _) SAFE_SCHEMES) eqn:Hany; [|done].
  apply any_true in Hany as (pre & Hpre & [tl Htl]%starts_with_spec).
  pose proof (split_once_first ":" L R (Hn ":"%char ltac:(set_solver))) as HL. rewrite Htl in HL.
  unfold SAFE_SCHEMES in Hpre. rewrite !elem_of_cons, elem_of_nil in Hpre.
  destruct Hpre as [-> | [-> | [-> | [-> | []]]]]; cbn in HL; injection HL as <- <-; (split; [set_solver|done]).
Qed.

Lemma safe_link_scheme_witness :
  "data" ∈ ["http"; "https"; "mailto"; "data"] /\ ("data" = "data" -> starts_with "image/png,x" "image/" = true).
Proof. exact (proj2 (proj2 (safe_link_scheme " DATA:Image/png,x " "DATA:Image/png,x" eq_refl)) "DATA" "Image/png,x" eq_refl eq_refl). Defined.

(** ** What the code does and does not say *)

(** A Markdown table escapes the cells of the rows but not the names of the columns: a name with a bar gives the header a
    column more than the rows have. *)
Lemma markdown_header_unescaped :
  let lines := split LF (to_markdown (H := plain_libs) ["a|b"] [] None) in
  (fun l => List.length (split "|" l)) <$> firstn 2 lines = [7%nat; 6%nat].
Proof. by_compute. Qed.
