(* ===== verification/DataLineage.v ===== *)
(** * local/data_query.rs: record identity and lineage

    The normal form of a value, the digest that identifies a record, the choice of the identifying fields, the difference of
    two versions of a record, and the pass over a chain of snapshots. A pass that would index a missing key is [None]. SHA-256
    and the standard text of a float ([Display]) are the interface [DigestLibs]. *)

From Stdlib Require Import Ascii String Sorted.
From stdpp Require Import sorting.
From S2P Require Import Prelude Ints F64 Str F64Text Json Order DataRedact DataRows DataQuery DataText.
From S2P Require UpdateManifest.
Open Scope string_scope.
Open Scope list_scope.

Class DigestLibs : Type := {
  sha256 : string -> list Z;
  f64_display : f64 -> string;
}.

Definition UNIT_SEP : ascii := "031"%char.
Definition RECORD_SEP : ascii := "030"%char.

(** Strings in byte order, each once: what a [BTreeSet] or the keys of a [BTreeMap] iterate over. *)
Definition ordered (l : list string) : list string := sort_by str_le (remove_dups l).

Section lineage.
Context `{DataLibs, DigestLibs}.

Definition sha256_hex (s : string) : string := UpdateManifest.hex_lower (sha256 s).

(** ** The normal form *)

Definition TWO_53 : f64 := f64_of_Z (2 ^ 53).

Definition clean_exponent (s : string) : string :=
  match find_byte (fun c => byte_is "e" c || byte_is "E" c) s with
  | None => s
  | Some pos =>
      let exp := str_drop (S pos) s in
      let exp := default exp (strip_prefix "+" exp) in
      let '(sign, digits) := match strip_prefix "-" exp with Some d => ("-", d) | None => ("", exp) end in
      let digits := trim_start_by (byte_is "0") digits in
      String.append (str_take pos s) (String.append "e" (String.append sign (if is_empty digits then "0" else digits)))
  end.

Definition norm_number (x : f64) : string :=
  if f64_is_finite x && fract_zero x && f64_ltb (f64_abs x) TWO_53 then Z_to_string (f64_to_i64 x)
  else clean_exponent (f64_display x).

Definition norm_text (s : string) : string :=
  let t := trim s in
  if is_empty t then ""
  else if looks_numeric t then match parse_f64 t with Some f => if f64_is_finite f then norm_number f else t | None => t end
  else t.

(** The normal form of what is neither an array nor an object. *)
Definition norm_scalar (v : json) : string :=
  match v with
  | JNull => ""
  | JBool b => if b then "true" else "false"
  | JNum n => norm_number (num_as_f64 n)
  | JStr s => norm_text s
  | _ => ""
  end.

Definition json_string (s : string) : string := json_text (JStr s).

Fixpoint encode_value (v : json) : string :=
  match v with
  | JObj o =>
      let members := sort_by (fun a b => str_le (fst a) (fst b)) (List.map (fun kv => (fst kv, encode_value (snd kv))) o) in
      String.append "{" (String.append (join "," ((fun kv => String.append (json_string (fst kv)) (String ":" (snd kv))) <$> members)) "}")
  | JArr a => String.append "[" (String.append (join "," (List.map encode_value a)) "]")
  | scalar => json_string (norm_scalar scalar)
  end.
Definition encode_composite : json -> string := encode_value.

Definition norm (v : json) : string :=
  match v with JObj _ | JArr _ => encode_composite v | scalar => norm_scalar scalar end.

(** The normal form of a field that may be missing. *)
Definition norm_field (r : jobj) (f : string) : string := norm (default JNull (map_get r f)).

(** ** Identity *)

Definition record_hash (r : jobj) : string := sha256_hex (encode_composite (JObj r)).

Definition uid_digest_input (identity_fields : list string) (r : jobj) (ordinal : nat) (singleton : bool) : string :=
  let base := if singleton then "__singleton__"
              else join (String RECORD_SEP "") ((fun f => String.append f (String UNIT_SEP (norm_field r f))) <$> identity_fields) in
  if (1 <=? ordinal)%nat then String.append base (String RECORD_SEP (String "#" (Z_to_string (Z.of_nat ordinal)))) else base.

Definition record_uid (identity_fields : list string) (r : jobj) (ordinal : nat) (singleton : bool) : string :=
  str_take 16 (sha256_hex (uid_digest_input identity_fields r ordinal singleton)).

Record Identity : Type := mkIdentity {
  mode : string;
  id_fields : list string;
  requested_key_rejected : option (list string);
  coverage : option f64;
}.

Definition identity_to_json (i : Identity) : json :=
  JObj ([("mode", JStr (mode i)); ("fields", texts (id_fields i))] ++
    match requested_key_rejected i with
    | Some rejected => [("requested_key_rejected", texts rejected); ("coverage", json_of_f64 (default (f64_of_Z 0) (coverage i)))]
    | None => []
    end).

Definition IDENTITY_TIERS : list (option (list string)) :=
  [Some ["id"; "uid"; "uuid"; "key"]; Some ["url"; "link"; "href"; "permalink"]; Some ["sku"; "slug"; "email"; "handle"]; None; Some ["name"; "title"]].

Definition f64_of_nat (n : nat) : f64 := f64_of_Z (Z.of_nat n).
Definition total_records (runs : list (list jobj)) : nat := length (concat runs).

(** The non-empty values of a column in a run. *)
Definition column_values (col : string) (run : list jobj) : list string :=
  retain (fun s => negb (is_empty s)) ((fun r => norm_field r col) <$> run).

Definition uniqueness (vals : list string) : f64 :=
  if (length vals <? 2)%nat then f64_of_Z 1 else f64_div (f64_of_nat (length (remove_dups vals))) (f64_of_nat (length vals)).

Definition qualifies (runs : list (list jobj)) (col : string) : bool :=
  let non_empty := length (retain (fun r => negb (is_empty (norm_field r col))) (concat runs)) in
  if (non_empty * 10 <? total_records runs * 9)%nat then false
  else
    let ratio_sum := foldl f64_add (f64_of_Z 0) ((fun run => uniqueness (column_values col run)) <$> runs) in
    f64_leb (f64_of_dec 95 (-2)) (f64_div ratio_sum (f64_of_nat (length runs))).

Definition tier_columns (columns_order : list string) (tier : option (list string)) : list string :=
  match tier with
  | None => retain (fun c => ends_with c "_id" || ends_with c "_url") columns_order
  | Some set => retain (fun c => member set c) columns_order
  end.

Definition auto_identity (runs : list (list jobj)) (columns_order : list string) : option string :=
  if (total_records runs =? 0)%nat then None
  else find_first (qualifies runs) (concat (tier_columns columns_order <$> IDENTITY_TIERS)).

Definition key_fields (key : string) : list string := retain (fun f => negb (is_empty f)) (trim <$> split "," key).

Definition key_coverage (runs : list (list jobj)) (fs : list string) : f64 :=
  if (total_records runs =? 0)%nat then f64_of_Z 0
  else f64_div (f64_of_nat (length (retain (fun r => any (fun f => negb (is_empty (norm_field r f))) fs) (concat runs)))) (f64_of_nat (total_records runs)).

(** The explicit key, when it covers half of the records; else what of it is echoed. *)
Definition try_key (runs : list (list jobj)) (explicit_key : option string) : Identity + option (list string * f64) :=
  match explicit_key with
  | None => inr None
  | Some key =>
      match key_fields key with
      | [] => inr None
      | fs =>
          let c := key_coverage runs fs in
          if (0 <? total_records runs)%nat && f64_leb (f64_of_dec 5 (-1)) c then inl (mkIdentity "explicit" fs None None) else inr (Some (fs, c))
      end
  end.

Definition is_singleton (runs : list (list jobj)) : bool :=
  let bearing := retain (fun r => negb (is_nil r)) runs in
  negb (is_nil bearing) && (length bearing * 95 <=? length (retain (fun r => (length r =? 1)%nat) bearing) * 100)%nat.

Definition choose_identity (runs : list (list jobj)) (columns_order : list string) (explicit_key : option string) : Identity :=
  match try_key runs explicit_key with
  | inl i => i
  | inr rejected =>
      let '(names, cov) := match rejected with Some (f, c) => (Some f, Some c) | None => (None, None) end in
      if is_singleton runs then mkIdentity "singleton" [] names cov
      else match auto_identity runs columns_order with
           | Some f => mkIdentity "auto" [f] names cov
           | None => mkIdentity "hash" columns_order names cov
           end
  end.

Definition canonical_columns (flat : list FlatRun) (declared : list string) : list string :=
  foldl (fun cols run => foldl (fun cols r => push_keys cols (map_keys (snd r))) cols (f_records run)) (declared_columns declared) flat.

Definition hash_le (a b : string * (nat * jobj)) : bool :=
  match String.compare (fst a) (fst b) with Lt => true | Gt => false | Eq => (fst (snd a) <=? fst (snd b))%nat end.

Record Assigned : Type := mkAssigned { a_uid : string; a_index : nat; a_fields : jobj }.

Definition assign_group (fs : list string) (members : list (nat * jobj)) : list Assigned :=
  let keyed := sort_by hash_le ((fun m => (record_hash (snd m), m)) <$> members) in
  (fun om => mkAssigned (record_uid fs (snd (snd (snd om))) (fst om) false) (fst (snd (snd om))) (snd (snd (snd om)))) <$> enumerate keyed.

Definition assign_uids (recs : list (nat * jobj)) (mode : string) (fs : list string) : list Assigned :=
  if str_eqb mode "singleton" then
    match recs with
    | [] => []
    | (idx, r) :: _ => [mkAssigned (record_uid [] r 0 true) idx r]
    end
  else
    let base m := uid_digest_input fs (snd m) 0 false in
    let groups := (fun b => retain (fun m => str_eqb b (base m)) recs) <$> ordered (base <$> recs) in
    sort_by (fun a b => (a_index a <=? a_index b)%nat) (concat (assign_group fs <$> groups)).

(** ** Differences *)

Definition DIFF_MAX_DEPTH : nat := 3.
Definition DIFF_COLLAPSE_AT : nat := 20.

Definition both_keys (o n : jobj) : list string := ordered (map_keys o ++ map_keys n).
Definition norm_opt (v : option json) : string := match v with Some v => norm v | None => "" end.

(** [room] is [DIFF_MAX_DEPTH - depth]. *)
Fixpoint diff_walk (room : nat) (o n : option json) (path : list string) : list string :=
  let leaf := if str_eqb (norm_opt o) (norm_opt n) then [] else [join "." path] in
  match o, n, room with
  | Some (JObj om), Some (JObj nm), S room => k ← both_keys om nm; diff_walk room (map_get om k) (map_get nm k) (path ++ [k])
  | _, _, _ => leaf
  end.

Definition diff_leaves (old new : jobj) : list string :=
  k ← both_keys old new; diff_walk (DIFF_MAX_DEPTH - 1) (map_get old k) (map_get new k) [k].

Definition top_of (p : string) : string := default "" (head (split "." p)).

Definition collapse (leaves : list string) : list string :=
  top ← ordered (top_of <$> leaves);
  let ps := retain (fun p => str_eqb top (top_of p)) leaves in
  if (DIFF_COLLAPSE_AT <? length ps)%nat then [top] else ps.

Definition diff_fields (old new : jobj) : list string * nat := let leaves := diff_leaves old new in (collapse leaves, length leaves).

(** ** The pass over the snapshots *)

Record RunDelta : Type := mkDelta { new : nat; changed : nat; removed : nat; unchanged : nat }.

Definition delta_to_json (d : RunDelta) : json :=
  JObj [("new", json_of_nat (new d)); ("changed", json_of_nat (changed d)); ("removed", json_of_nat (removed d)); ("unchanged", json_of_nat (unchanged d))].

Record RunDetailRow : Type := mkDetailRow {
  dr_index : nat;
  dr_uid : string;
  dr_change : string;
  dr_changed_fields : list string;
  dr_changed_leaf_count : nat;
  dr_versions : nat;
  dr_fields : jobj;
}.

Record RunDetail : Type := mkDetail {
  rd_run_id : Z;
  rd_prev_run_id : option Z;
  rd_delta : RunDelta;
  rd_rows : list RunDetailRow;
  rd_removed : list (string * jobj);
}.

Record Lineage : Type := mkLineage {
  runs_index : list json;
  latest : list json;
  histories : gmap string (list json);
  first_seen : gmap string string;
  last_seen : gmap string string;
  run_detail : option RunDetail;
}.

(** A version of a record: its fields, the run and its time, and the place in it. *)
Record Version : Type := mkVersion { v_fields : jobj; v_run : Z; v_at : string; v_index : nat }.

(** The change of a record against its last version, the changed fields and leaves. *)
Record Change : Type := mkChange { c_change : string; c_paths : list string; c_leaves : nat }.

(** What the pass knows of the records it has seen. *)
Record Seen : Type := mkSeen {
  last_version : gmap string Version;
  s_first : gmap string string;
  s_last : gmap string string;
  change_points : gmap string (list json);
  latest_status : gmap string Change;
}.

Definition nothing_seen : Seen := mkSeen ∅ ∅ ∅ ∅ ∅.

Definition NEW : Change := mkChange "new" [] 0.
Definition SAME : Change := mkChange "same" [] 0.

Definition point (v : Version) (c : Change) : json :=
  JObj [("run_id", json_of_Z (v_run v)); ("run_at", JStr (v_at v)); ("record_index", json_of_nat (v_index v)); ("fields", JObj (v_fields v));
        ("changed_fields", texts (c_paths c)); ("changed_leaf_count", json_of_nat (c_leaves c))].

(** The change to a version from the one before. *)
Definition change_from (old : Version) (v : Version) : Change :=
  let '(paths, n) := diff_fields (v_fields old) (v_fields v) in if is_nil paths then SAME else mkChange "changed" paths n.

Definition is_same (c : Change) : bool := str_eqb (c_change c) "same".

Definition see (s : Seen) (uid : string) (v : Version) : option (Seen * Change) :=
  c ← match s_first s !! uid with
      | None => Some NEW
      | Some _ => (fun prev => change_from prev v) <$> last_version s !! uid
      end;
  let points := default [] (change_points s !! uid) in
  Some (mkSeen (<[uid := v]> (last_version s))
          (match s_first s !! uid with None => <[uid := v_at v]> (s_first s) | Some _ => s_first s end)
          (<[uid := v_at v]> (s_last s))
          (if is_same c then change_points s else <[uid := points ++ [point v c]]> (change_points s))
          (<[uid := c]> (latest_status s)), c).

Definition count (d : RunDelta) (c : Change) : RunDelta :=
  if str_eqb (c_change c) "new" then mkDelta (S (new d)) (changed d) (removed d) (unchanged d)
  else if str_eqb (c_change c) "changed" then mkDelta (new d) (S (changed d)) (removed d) (unchanged d)
  else mkDelta (new d) (changed d) (removed d) (S (unchanged d)).

(** A run's records: what is seen, the counters and the rows of the detail. *)
Definition Tally : Type := Seen * RunDelta * list RunDetailRow.

Definition version_of (run : FlatRun) (a : Assigned) : Version := mkVersion (a_fields a) (f_run_id run) (default "" (f_run_at run)) (a_index a).

Definition tally_record (want_detail : bool) (run : FlatRun) (t : option Tally) (a : Assigned) : option Tally :=
  '(s, d, rows) ← t;
  '(s, c) ← see s (a_uid a) (version_of run a);
  let row := mkDetailRow (a_index a) (a_uid a) (c_change c) (c_paths c) (c_leaves c) (length (default [] (change_points s !! a_uid a))) (a_fields a) in
  Some (s, count d c, if want_detail then rows ++ [row] else rows).

Record Walk : Type := mkWalk {
  w_seen : Seen;
  w_index : list json;
  prev_uids : option (gset string);
  prev_run_id : option Z;
  w_detail : option RunDetail;
}.

Definition index_entry (run : FlatRun) (delta : option RunDelta) : json :=
  JObj [("run_id", json_of_Z (f_run_id run)); ("run_at", JStr (default "" (f_run_at run))); ("record_count", json_of_nat (length (f_records run)));
        ("explicit_empty", JBool (is_nil (f_records run))); ("delta", match delta with Some d => delta_to_json d | None => JNull end)].

Definition uids_of (l : list Assigned) : gset string := list_to_set (a_uid <$> l).

(** The uids of the run before that this one has not, in their order. *)
Definition removed_uids (prev : option (gset string)) (cur : gset string) : list string :=
  match prev with Some p => ordered (elements (p ∖ cur)) | None => [] end.

Definition walk_run (mode : string) (fs : list string) (detail_run : option Z) (w : option Walk) (run : FlatRun) : option Walk :=
  w ← w;
  let want_detail := bool_decide (detail_run = Some (f_run_id run)) in
  let recs := assign_uids (f_records run) mode fs in
  '(s, d, rows) ← foldl (tally_record want_detail run) (Some (w_seen w, mkDelta 0 0 0 0, [])) recs;
  let cur := uids_of recs in
  let gone := removed_uids (prev_uids w) cur in
  let d := mkDelta (new d) (changed d) (length gone) (unchanged d) in
  detail ← (if want_detail then
              removed ← mapM (fun uid => (fun v => (uid, v_fields v)) <$> last_version s !! uid) gone;
              Some (Some (mkDetail (f_run_id run) (prev_run_id w) d rows removed))
            else Some (w_detail w));
  Some (mkWalk s (w_index w ++ [index_entry run (match prev_uids w with Some _ => Some d | None => None end)]) (Some cur) (Some (f_run_id run)) detail).

Definition chain_of (runs : list FlatRun) : list FlatRun := retain f_data_bearing runs.

Definition MISSING : Change := mkChange "missing" [] 0.

Definition latest_entry (uid : string) (c : Change) (first last : string) (versions : nat) (v : Version) : json :=
  JObj [("uid", JStr uid); ("change", JStr (c_change c)); ("changed_fields", texts (c_paths c)); ("changed_leaf_count", json_of_nat (c_leaves c));
        ("first_seen_at", JStr first); ("last_seen_at", JStr last); ("versions", json_of_nat versions); ("fields", JObj (v_fields v));
        ("run_id", json_of_Z (v_run v)); ("record_index", json_of_nat (v_index v))].

Definition latest_row (s : Seen) (newest : gset string) (uid : string) : option json :=
  v ← last_version s !! uid;
  c ← (if bool_decide (uid ∈ newest) then latest_status s !! uid else Some MISSING);
  first ← s_first s !! uid;
  last ← s_last s !! uid;
  points ← change_points s !! uid;
  Some (latest_entry uid c first last (length points) v).

(** [v[k].as_str().unwrap_or_default()] *)
Definition text_at (k : string) (v : json) : string := default "" (get v k ≫= json_as_str).

Definition change_rank (v : json) : nat :=
  let c := text_at "change" v in if str_eqb c "new" then 0 else if str_eqb c "changed" then 1 else if str_eqb c "same" then 2 else 3.

Definition latest_cmp : json -> json -> comparison :=
  cmp_lex (cmp_on change_rank Nat.compare) (cmp_lex (cmp_rev (cmp_on (text_at "last_seen_at") String.compare)) (cmp_on (text_at "uid") String.compare)).

Definition build_lineage (runs : list FlatRun) (mode : string) (fs : list string) (detail_run : option Z) : option Lineage :=
  w ← foldl (walk_run mode fs detail_run) (Some (mkWalk nothing_seen [] None None None)) (chain_of runs);
  rows ← mapM (latest_row (w_seen w) (default ∅ (prev_uids w))) (ordered (elements (dom (last_version (w_seen w)))));
  Some (mkLineage (rev (w_index w)) (sort_by (cmp_le latest_cmp) rows) (change_points (w_seen w)) (s_first (w_seen w)) (s_last (w_seen w)) (w_detail w)).
End lineage.

(** ** What the pass computes *)

Section histories.
Context `{DataLibs, DigestLibs}.

(** The versions of one record, in the order of the runs, each with its change from the one before. *)
Fixpoint changes (prev : Version) (l : list Version) : list (Version * Change) :=
  match l with [] => [] | v :: r => (v, change_from prev v) :: changes v r end.
Definition versions (l : list Version) : list (Version * Change) := match l with [] => [] | v :: r => (v, NEW) :: changes v r end.

(** Its history: the first version and those that differ from the one before. *)
Definition history (l : list Version) : list json :=
  (fun vc => point (fst vc) (snd vc)) <$> retain (fun vc => negb (is_same (snd vc))) (versions l).

Definition appearances_in (mode : string) (fs : list string) (run : FlatRun) : list (string * Version) :=
  (fun a => (a_uid a, version_of run a)) <$> assign_uids (f_records run) mode fs.
Definition appearances (mode : string) (fs : list string) (chain : list FlatRun) : list (string * Version) :=
  concat (appearances_in mode fs <$> chain).

(** The versions of [uid] among appearances. *)
Definition apps (uid : string) (l : list (string * Version)) : list Version := snd <$> retain (fun uv => str_eqb uid (fst uv)) l.

(** The change an appearance makes after those of [l]. *)
Definition status_after (l : list (string * Version)) (x : string * Version) : Change :=
  match last (apps (fst x) l) with None => NEW | Some p => change_from p (snd x) end.

Fixpoint statuses (l xs : list (string * Version)) : list Change :=
  match xs with [] => [] | x :: xs => status_after l x :: statuses (l ++ [x]) xs end.

Definition tracks (l : list (string * Version)) (s : Seen) : Prop := forall uid,
  let a := apps uid l in
  last_version s !! uid = last a /\
  s_first s !! uid = v_at <$> head a /\
  s_last s !! uid = v_at <$> last a /\
  change_points s !! uid = match a with [] => None | _ => Some (history a) end /\
  latest_status s !! uid = snd <$> last (versions a).

Lemma apps_snoc (uid : string) (l : list (string * Version)) (x : string * Version) :
  apps uid (l ++ [x]) = if str_eqb uid (fst x) then apps uid l ++ [snd x] else apps uid l.
Proof.
  unfold apps. rewrite retain_app, fmap_app, retain_cons. destruct (str_eqb uid (fst x)); cbn; [done|]. by rewrite app_nil_r.
Qed.

Lemma changes_snoc (l : list Version) (p v : Version) : changes p (l ++ [v]) = changes p l ++ [(v, change_from (default p (last l)) v)].
Proof. revert p. induction l as [|w l IH]; intros p; cbn; [done|]. rewrite IH. do 4 f_equal. rewrite last_cons. by destruct (last l). Qed.

Lemma versions_snoc (l : list Version) (v : Version) :
  versions (l ++ [v]) = versions l ++ [(v, match last l with None => NEW | Some p => change_from p v end)].
Proof.
  destruct l as [|w l]; cbn [app versions]; [done|]. rewrite changes_snoc, last_cons. by destruct (last l).
Qed.

Lemma history_snoc (l : list Version) (v : Version) :
  let c := match last l with None => NEW | Some p => change_from p v end in
  history (l ++ [v]) = if is_same c then history l else history l ++ [point v c].
Proof.
  cbv zeta. unfold history. rewrite versions_snoc, retain_app, fmap_app, retain_cons. cbn [fst snd]. destruct (is_same _); cbn; [by rewrite app_nil_r|done].
Qed.

Lemma see_tracks (l : list (string * Version)) (s : Seen) (uid : string) (v : Version) : tracks l s ->
  exists s', see s uid v = Some (s', status_after l (uid, v)) /\ tracks (l ++ [(uid, v)]) s'.
Proof.
  intros Ht. unfold see, status_after. cbn [fst snd]. destruct (Ht uid) as (Hv & Hf & Hl & Hp & Hs).
  set (c := match last (apps uid l) with None => NEW | Some p => change_from p v end).
  assert (Hc : match s_first s !! uid with None => Some NEW | Some _ => (fun prev => change_from prev v) <$> last_version s !! uid end = Some c).
  { rewrite Hf, Hv. unfold c. destruct (apps uid l) as [|w a]; [done|]. rewrite last_cons. by destruct (last a). }
  rewrite Hc. cbn [mbind option_bind]. eexists. split; [reflexivity|]. intros k. rewrite apps_snoc. cbn [fst snd last_version s_first s_last change_points latest_status].
  destruct (str_eqb k uid) eqn:E.
  - apply str_eqb_eq in E as ->. rewrite !lookup_insert_eq, last_snoc, versions_snoc, last_snoc. fold c. cbn [fmap option_fmap option_map snd]. split_and!; try done.
    + rewrite Hf. destruct (apps uid l); cbn; [by rewrite lookup_insert_eq|by rewrite Hf].
    + rewrite (history_snoc (apps uid l) v). fold c. destruct (is_same c) eqn:Ec.
      * rewrite Hp. unfold c in Ec. destruct (apps uid l); [done|]. done.
      * rewrite lookup_insert_eq, Hp. by destruct (apps uid l).
  - assert (Hne : uid <> k) by (intros ->; by rewrite str_eqb_refl in E). rewrite !lookup_insert_ne by done.
    destruct (Ht k) as (Hv' & Hf' & Hl' & Hp' & Hs'). split_and!; try done.
    + destruct (s_first s !! uid); [done|]. by rewrite lookup_insert_ne.
    + destruct (is_same c); [done|]. by rewrite lookup_insert_ne.
Qed.

(** *** The counters *)

(** Decides the comparisons of the strings in the goal. *)
Ltac str_eqs := repeat match goal with |- context [str_eqb ?a ?b] => let r := eval vm_compute in (str_eqb a b) in change (str_eqb a b) with r end; cbv iota.

Definition count_of (k : string) (cs : list Change) : nat := length (retain (fun c => str_eqb (c_change c) k) cs).
Definition is_change (c : Change) : Prop := c_change c ∈ ["new"; "changed"; "same"].

Lemma change_from_cases (p v : Version) : change_from p v = SAME \/ c_change (change_from p v) = "changed".
Proof. unfold change_from. destruct (diff_fields _ _) as [paths n]. destruct (is_nil paths); auto. Qed.

Lemma status_cases (l : list (string * Version)) (x : string * Version) :
  (status_after l x = NEW /\ fst x ∉ l.*1) \/ ((status_after l x = SAME \/ c_change (status_after l x) = "changed") /\ fst x ∈ l.*1).
Proof.
  unfold status_after. assert (Hin : forall y, y ∈ l -> fst y = fst x -> apps (fst x) l <> []).
  { intros y Hy Hf Hn. assert (Ha : snd y ∈ apps (fst x) l).
    { apply list_elem_of_fmap. exists y. split; [done|]. apply elem_of_retain. split; [by apply str_eqb_eq|done]. }
    rewrite Hn in Ha. by apply not_elem_of_nil in Ha. }
  destruct (last (apps (fst x) l)) as [p|] eqn:E.
  - right. split; [apply change_from_cases|]. apply last_Some_elem_of, list_elem_of_fmap in E as (y & -> & Hy).
    apply elem_of_retain in Hy as [->%str_eqb_eq Hy]. by apply list_elem_of_fmap_2.
  - left. split; [done|]. apply last_None in E. intros (y & Hf & Hy)%list_elem_of_fmap. by apply (Hin y).
Qed.

Lemma count_fold (cs : list Change) (d : RunDelta) : Forall is_change cs ->
  foldl count d cs = mkDelta (new d + count_of "new" cs) (changed d + count_of "changed" cs) (removed d) (unchanged d + count_of "same" cs).
Proof.
  intros Hcs. revert d. induction Hcs as [|c cs Hc _ IH]; intros d.
  - destruct d. unfold count_of. cbn. by rewrite !Nat.add_0_r.
  - cbn [foldl]. rewrite IH. unfold count_of. rewrite !retain_cons. unfold is_change in Hc. rewrite !elem_of_cons, elem_of_nil in Hc. unfold count.
    destruct Hc as [-> | [-> | [-> | []]]]; str_eqs; cbn [new changed removed unchanged length]; f_equal; lia.
Qed.

Lemma statuses_change (xs l : list (string * Version)) : Forall is_change (statuses l xs).
Proof.
  revert l. induction xs as [|x xs IH]; intros l; cbn; constructor; [|done]. unfold is_change. 
  destruct (status_cases l x) as [[-> _]|[[-> | ->] _]]; cbn; set_solver.
Qed.

Lemma statuses_length (xs l : list (string * Version)) : length (statuses l xs) = length xs.
Proof. revert l. induction xs as [|x xs IH]; intros l; cbn; [done|]. by rewrite IH. Qed.

Lemma count_total (cs : list Change) : Forall is_change cs -> (count_of "new" cs + count_of "changed" cs + count_of "same" cs = length cs)%nat.
Proof.
  unfold count_of. induction 1 as [|c cs Hc _ IH]; [done|]. rewrite !retain_cons. unfold is_change in Hc. rewrite !elem_of_cons, elem_of_nil in Hc.
  destruct Hc as [-> | [-> | [-> | []]]]; str_eqs; cbn [length]; lia.
Qed.

Definition uid_set (l : list (string * Version)) : gset string := list_to_set l.*1.

Lemma new_count (xs l : list (string * Version)) : count_of "new" (statuses l xs) = size (uid_set xs ∖ uid_set l).
Proof.
  unfold uid_set. revert l. induction xs as [|x xs IH]; intros l.
  - cbn. replace (_ ∖ _) with (∅ : gset string) by set_solver. by rewrite size_empty.
  - unfold count_of in *. cbn [statuses]. rewrite retain_cons. specialize (IH (l ++ [x])). rewrite fmap_app, list_to_set_app in IH. cbn in IH.
    cbn [fmap list_fmap list_to_set]. destruct (status_cases l x) as [[-> Hx]|[Hc Hx]].
    + change (str_eqb (c_change NEW) "new") with true. cbn [length]. rewrite IH.
      replace ((({[fst x]} : gset string) ∪ list_to_set xs.*1) ∖ list_to_set l.*1) with
        (({[fst x]} : gset string) ∪ (list_to_set xs.*1 ∖ (list_to_set l.*1 ∪ ({[fst x]} ∪ ∅)))) by (apply set_eq; intros k; destruct (decide (k = fst x)); set_solver).
      set (rest := list_to_set xs.*1 ∖ _). assert (Hd : ({[fst x]} : gset string) ## rest) by set_solver.
      by rewrite (size_union ({[fst x]} : gset string) rest Hd), size_singleton.
    + assert (str_eqb (c_change (status_after l x)) "new" = false) as -> by by destruct Hc as [-> | ->].
      rewrite IH. f_equal. set_solver.
Qed.

Lemma tally_tracks (want : bool) (run : FlatRun) (recs : list Assigned) (l : list (string * Version)) (s : Seen) (d : RunDelta) (rows : list RunDetailRow) :
  tracks l s -> let xs := (fun a => (a_uid a, version_of run a)) <$> recs in
  exists s' rows', foldl (tally_record want run) (Some (s, d, rows)) recs = Some (s', foldl count d (statuses l xs), rows') /\ tracks (l ++ xs) s'.
Proof.
  cbv zeta. revert l s d rows. induction recs as [|a recs IH]; intros l s d rows Ht; cbn [fmap list_fmap foldl statuses].
  - exists s, rows. by rewrite app_nil_r.
  - destruct (see_tracks l s (a_uid a) (version_of run a) Ht) as (s1 & Hs & Ht1). unfold tally_record at 2. cbn [mbind option_bind]. rewrite Hs. cbn [mbind option_bind].
    destruct (IH _ _ (count d (status_after l (a_uid a, version_of run a))) (if want then rows ++ [mkDetailRow (a_index a) (a_uid a) (c_change (status_after l (a_uid a, version_of run a)))
      (c_paths (status_after l (a_uid a, version_of run a))) (c_leaves (status_after l (a_uid a, version_of run a))) (length (default [] (change_points s1 !! a_uid a))) (a_fields a)] else rows) Ht1)
      as (s' & rows' & Hf & Ht'). exists s', rows'. rewrite Hf. split; [done|]. by rewrite <- app_assoc in Ht'.
Qed.

(** *** The snapshots *)

Variables (md : string) (fs : list string) (detail_run : option Z).

Definition run_uids (run : FlatRun) : gset string := uids_of (assign_uids (f_records run) md fs).
Definition seen_uids (chain : list FlatRun) : gset string := uid_set (appearances md fs chain).

(** What changed in [run] against the runs before it. *)
Definition delta_after (before : list FlatRun) (run : FlatRun) : RunDelta :=
  let cs := statuses (appearances md fs before) (appearances_in md fs run) in
  mkDelta (count_of "new" cs) (count_of "changed" cs)
    (size (match last before with Some p => run_uids p ∖ run_uids run | None => ∅ end)) (count_of "same" cs).

Definition entry_after (before : list FlatRun) (run : FlatRun) : json :=
  index_entry run (match before with [] => None | _ => Some (delta_after before run) end).

Definition walked (before : list FlatRun) (w : Walk) : Prop :=
  tracks (appearances md fs before) (w_seen w) /\
  prev_uids w = run_uids <$> last before /\
  w_index w = imap (fun i run => entry_after (take i before) run) before.

Lemma ordered_elem (l : list string) (x : string) : x ∈ ordered l <-> x ∈ l.
Proof. unfold ordered. by rewrite sort_by_elem, elem_of_remove_dups. Qed.

Lemma ordered_nodup (l : list string) : NoDup (ordered l).
Proof. unfold ordered. rewrite sort_by_perm. apply NoDup_remove_dups. Qed.

Lemma ordered_size (X : gset string) : length (ordered (elements X)) = size X.
Proof.
  rewrite <- (size_list_to_set (C := gset string)) by apply ordered_nodup. f_equal. apply set_eq. intros k.
  by rewrite elem_of_list_to_set, ordered_elem, elem_of_elements.
Qed.

Lemma run_uids_elem (run : FlatRun) (k : string) : k ∈ run_uids run <-> k ∈ (appearances_in md fs run).*1.
Proof. unfold run_uids, uids_of, appearances_in. by rewrite elem_of_list_to_set, <- list_fmap_compose. Qed.

Lemma appearances_snoc (before : list FlatRun) (run : FlatRun) :
  appearances md fs (before ++ [run]) = appearances md fs before ++ appearances_in md fs run.
Proof. unfold appearances. rewrite fmap_app, concat_app. cbn. by rewrite app_nil_r. Qed.

Lemma apps_elem (uid : string) (l : list (string * Version)) : apps uid l <> [] <-> uid ∈ l.*1.
Proof.
  unfold apps. split.
  - intros Hne. destruct (retain _ l) as [|x r] eqn:E; [done|]. assert (Hx : x ∈ retain (fun uv => str_eqb uid (fst uv)) l) by (rewrite E; by left).
    apply elem_of_retain in Hx as [->%str_eqb_eq Hx]. by apply list_elem_of_fmap_2.
  - intros (y & -> & Hy)%list_elem_of_fmap Hn. apply fmap_nil_inv in Hn.
    eapply elem_of_nil_inv; [exact Hn|]. apply elem_of_retain. split; [apply str_eqb_refl|exact Hy].
Qed.

Lemma tracked_version (l : list (string * Version)) (s : Seen) (uid : string) : tracks l s ->
  match last_version s !! uid with Some _ => uid ∈ l.*1 | None => uid ∉ l.*1 end.
Proof.
  intros Ht. destruct (Ht uid) as [-> _]. destruct (last (apps uid l)) eqn:E.
  - apply apps_elem. by intros Hn; rewrite Hn in E.
  - apply last_None in E. intros Hu. by apply apps_elem in Hu.
Qed.

Lemma mapM_total {A B : Type} (f : A -> option B) (l : list A) : (forall x, x ∈ l -> f x <> None) -> exists k, mapM f l = Some k.
Proof.
  intros Hf. apply mapM_is_Some, Forall_forall. intros x Hx. destruct (f x) eqn:E; [by eexists|by apply Hf in Hx].
Qed.

Lemma walk_run_step (before : list FlatRun) (w : Walk) (run : FlatRun) : walked before w ->
  exists w', walk_run md fs detail_run (Some w) run = Some w' /\ walked (before ++ [run]) w'.
Proof.
  intros (Ht & Hp & Hi). unfold walk_run. cbn [mbind option_bind]. set (want := bool_decide _).
  destruct (tally_tracks want run (assign_uids (f_records run) md fs) _ _ (mkDelta 0 0 0 0) [] Ht) as (s' & rows' & -> & Ht').
  fold (appearances_in md fs run) in Ht' |- *. rewrite <- appearances_snoc in Ht'. cbn [mbind option_bind].
  rewrite count_fold by apply statuses_change. cbn [new changed unchanged removed Nat.add]. fold (run_uids run).
  set (gone := removed_uids (prev_uids w) (run_uids run)).
  assert (Hgone : length gone = size (match last before with Some p => run_uids p ∖ run_uids run | None => ∅ end)).
  { unfold gone, removed_uids. rewrite Hp. destruct (last before); cbn; [apply ordered_size|by rewrite size_empty]. }
  assert (Hrem : exists removed, mapM (fun uid => (fun v => (uid, v_fields v)) <$> last_version s' !! uid) gone = Some removed).
  { apply mapM_total. intros uid Hu. unfold gone, removed_uids in Hu. rewrite Hp in Hu. destruct (last before) as [p|] eqn:El; cbn in Hu; [|by apply not_elem_of_nil in Hu].
    rewrite ordered_elem, elem_of_elements, elem_of_difference in Hu. destruct Hu as [Hu _]. pose proof (tracked_version _ _ uid Ht') as Hv.
    destruct (last_version s' !! uid); [done|]. exfalso. apply Hv. rewrite appearances_snoc, fmap_app, elem_of_app. left.
    apply last_Some in El as [pre ->]. rewrite appearances_snoc, fmap_app, elem_of_app. right. by apply run_uids_elem. }
  destruct Hrem as [removed Hrem].
  match goal with |- context [if want then ?a else ?b] => assert (exists detail, (if want then a else b) = Some detail) as [detail ->] end.
  { destruct want; [|by eexists]. rewrite Hrem. by eexists. }
  cbn [mbind option_bind]. eexists. split; [reflexivity|]. split_and!; cbn [w_seen prev_uids w_index].
  - exact Ht'.
  - by rewrite last_snoc.
  - rewrite imap_app. cbn. rewrite Nat.add_0_r, take_app_length. f_equal.
    + rewrite Hi. apply imap_ext. intros i x Hx. rewrite take_app_le by (apply lookup_lt_Some in Hx; lia). done.
    + f_equal. unfold entry_after, delta_after. rewrite Hgone, Hp. destruct before as [|b before]; [done|].
      by destruct (last_is_Some (b :: before)) as [_ [p ->]].
Qed.

Lemma walk_all (chain : list FlatRun) (before : list FlatRun) (w : Walk) : walked before w ->
  exists w', foldl (walk_run md fs detail_run) (Some w) chain = Some w' /\ walked (before ++ chain) w'.
Proof.
  revert before w. induction chain as [|run chain IH]; intros before w Hw.
  - exists w. by rewrite app_nil_r.
  - destruct (walk_run_step before w run Hw) as (w1 & Hs & Hw1). destruct (IH _ _ Hw1) as (w' & Hf & Hw'). exists w'.
    rewrite <- app_assoc in Hw'. split; [|done]. rewrite <- Hf, <- Hs. reflexivity.
Qed.

(** The row of a record in the current data set, from its versions. *)
Definition row_of (newest : gset string) (uid : string) (a : list Version) : option json :=
  match head a, last a with
  | Some first, Some v =>
      Some (latest_entry uid (if bool_decide (uid ∈ newest) then default NEW (snd <$> last (versions a)) else MISSING) (v_at first) (v_at v) (length (history a)) v)
  | _, _ => None
  end.

Lemma latest_row_of (l : list (string * Version)) (s : Seen) (newest : gset string) (uid : string) : tracks l s ->
  latest_row s newest uid = row_of newest uid (apps uid l).
Proof.
  intros Ht. destruct (Ht uid) as (Hv & Hf & Hl & Hp & Hs). unfold latest_row, row_of. rewrite Hv, Hf, Hl, Hp, Hs.
  destruct (apps uid l) as [|v a]; [done|]. destruct (last (v :: a)) as [p|] eqn:E; [|by apply last_None in E]. cbn [head fmap option_fmap option_map mbind option_bind].
  assert (Hlast : exists c, last (versions (v :: a)) = Some c).
  { cbn [versions]. rewrite last_cons. by destruct (last (changes v a)); eexists. }
  destruct Hlast as [c ->]. cbn. by destruct (bool_decide _).
Qed.
End histories.

(** *** Every record has one uid *)

Section assigned.
Context `{DataLibs, DigestLibs}.

Lemma groups_perm {A : Type} (key : A -> string) (ks : list string) (l : list A) : NoDup ks ->
  concat ((fun k => retain (fun x => str_eqb k (key x)) l) <$> ks) ≡ₚ retain (fun x => bool_decide (key x ∈ ks)) l.
Proof.
  induction 1 as [|k ks Hk _ IH]; cbn [fmap list_fmap concat].
  - rewrite retain_none; [done|]. intros x _. apply bool_decide_eq_false, not_elem_of_nil.
  - rewrite IH, retain_or_perm.
    + erewrite (retain_ext _ (fun x => bool_decide (key x ∈ k :: ks))); [done|]. intros x _. apply bool_eq_iff.
      rewrite orb_true_iff, str_eqb_eq, !bool_decide_eq_true, elem_of_cons. naive_solver.
    + intros x ->%str_eqb_eq. by apply bool_decide_eq_false.
Qed.

Definition content (a : Assigned) : nat * jobj := (a_index a, a_fields a).

Lemma group_contents (fs : list string) (members : list (nat * jobj)) : content <$> assign_group fs members ≡ₚ members.
Proof.
  unfold assign_group. rewrite <- list_fmap_compose.
  rewrite (list_fmap_ext _ (snd ∘ snd)) by (by intros ? [? [? [? ?]]] _).
  rewrite list_fmap_compose, snd_enumerate, sort_by_perm, <- list_fmap_compose. rewrite (list_fmap_ext _ id) by done. by rewrite list_fmap_id.
Qed.

Lemma concat_perm {A B : Type} (f : A -> list B) (g : A -> list B) (l : list A) : (forall x, f x ≡ₚ g x) -> concat (f <$> l) ≡ₚ concat (g <$> l).
Proof. intros Hfg. induction l as [|x l IH]; cbn; [done|]. by rewrite IH, Hfg. Qed.

Lemma assign_contents (recs : list (nat * jobj)) (md : string) (fs : list string) : md <> "singleton" -> content <$> assign_uids recs md fs ≡ₚ recs.
Proof.
  intros Hmd. unfold assign_uids. destruct (str_eqb md "singleton") eqn:E; [by apply str_eqb_eq in E|].
  rewrite sort_by_perm, fmap_concat, <- !list_fmap_compose.
  rewrite (concat_perm _ (fun b => retain (fun m => str_eqb b (uid_digest_input fs (snd m) 0 false)) recs)) by (intros b; apply group_contents).
  rewrite (groups_perm (fun m => uid_digest_input fs (snd m) 0 false)) by apply ordered_nodup.
  rewrite retain_all; [done|]. intros m Hm. apply bool_decide_eq_true, ordered_elem. by apply (list_elem_of_fmap_2 (fun m => uid_digest_input fs (snd m) 0 false)).
Qed.

Lemma assign_length (recs : list (nat * jobj)) (md : string) (fs : list string) :
  length (assign_uids recs md fs) = if str_eqb md "singleton" then Nat.min 1 (length recs) else length recs.
Proof.
  destruct (str_eqb md "singleton") eqn:E.
  - unfold assign_uids. rewrite E. by destruct recs as [|[i r] recs].
  - rewrite <- (assign_contents recs md fs) at 2; [by rewrite length_fmap|]. intros ->. by rewrite str_eqb_refl in E.
Qed.

(** C28: the pass over the snapshots never indexes a record it has not seen, and what it keeps of a record is what the record's own
    versions say, in the order of the runs: its history is its first version and the ones that differ from the one before, it
    was first and last seen with its first and last version, and the current data set has its last version, once, with the
    change it made, or as missing when the newest snapshot lacks it. *)
Theorem lineage_histories (runs : list FlatRun) (md : string) (fs : list string) (detail_run : option Z) :
  let chain := chain_of runs in
  let all := appearances md fs chain in
  exists lin, build_lineage runs md fs detail_run = Some lin /\
  (forall uid, let a := apps uid all in
     histories lin !! uid = match a with [] => None | _ => Some (history a) end /\
     first_seen lin !! uid = v_at <$> head a /\
     last_seen lin !! uid = v_at <$> last a) /\
  (exists uids rows, NoDup uids /\ (forall uid, uid ∈ uids <-> uid ∈ all.*1) /\
     mapM (fun uid => row_of (default ∅ (run_uids md fs <$> last chain)) uid (apps uid all)) uids = Some rows /\
     latest lin ≡ₚ rows /\ StronglySorted (fun a b => cmp_le latest_cmp a b = true) (latest lin)).
Proof.
  cbv zeta. unfold build_lineage. set (w0 := mkWalk nothing_seen [] None None None).
  assert (Hw0 : walked md fs [] w0) by by split_and!; [intros uid; split_and!|..].
  destruct (walk_all md fs detail_run (chain_of runs) [] w0 Hw0) as (w & -> & Ht & Hp & Hi). cbn [mbind option_bind app] in *.
  set (all := appearances md fs (chain_of runs)) in *. set (uids := ordered (elements (dom (last_version (w_seen w))))).
  assert (Huids : forall uid, uid ∈ uids <-> uid ∈ all.*1).
  { intros uid. unfold uids. rewrite ordered_elem, elem_of_elements, elem_of_dom. pose proof (tracked_version _ _ uid Ht) as Hv.
    destruct (last_version (w_seen w) !! uid); split; [done|by eexists|by intros [? ?]|done]. }
  assert (Hrow : forall uid, latest_row (w_seen w) (default ∅ (prev_uids w)) uid = row_of (default ∅ (run_uids md fs <$> last (chain_of runs))) uid (apps uid all))
    by (intros uid; rewrite Hp; by apply latest_row_of).
  destruct (mapM_total (fun uid => row_of (default ∅ (run_uids md fs <$> last (chain_of runs))) uid (apps uid all)) uids) as [rows Hrows].
  { intros uid Hu%Huids%apps_elem. unfold row_of. destruct (apps uid all) as [|v a]; [done|]. cbn [head]. rewrite last_cons. by destruct (last a). }
  rewrite (mapM_ext _ _ uids (fun uid => Hrow uid)), Hrows. cbn [mbind option_bind]. eexists. split; [reflexivity|]. cbn [histories first_seen last_seen latest]. split.
  - intros uid. destruct (Ht uid) as (_ & Hf & Hl & Hc & _). by split_and!.
  - exists uids, rows. split_and!; [apply ordered_nodup|done|done|apply sort_by_perm|apply (cmp_le_sorted latest_cmp)].
Qed.

(** the index of the snapshots has them newest first, each but the oldest with its counters: the uids no earlier snapshot had
    are new, those of the snapshot before that are gone are removed, and every record of the snapshot (in singleton mode: its
    first one) is counted as exactly one of new, changed and unchanged. *)
Theorem lineage_deltas (runs : list FlatRun) (md : string) (fs : list string) (detail_run : option Z) :
  let chain := chain_of runs in
  (runs_index <$> build_lineage runs md fs detail_run) = Some (rev (imap (fun i run => entry_after md fs (take i chain) run) chain)) /\
  forall before run, let d := delta_after md fs before run in
    new d = size (run_uids md fs run ∖ seen_uids md fs before) /\
    removed d = size (default ∅ (run_uids md fs <$> last before) ∖ run_uids md fs run) /\
    (new d + changed d + unchanged d)%nat = (if str_eqb md "singleton" then Nat.min 1 (length (f_records run)) else length (f_records run)).
Proof.
  cbv zeta. split.
  - unfold build_lineage. set (w0 := mkWalk nothing_seen [] None None None).
    assert (Hw0 : walked md fs [] w0) by by split_and!; [intros uid; split_and!|..].
    destruct (walk_all md fs detail_run (chain_of runs) [] w0 Hw0) as (w & -> & Ht & Hp & Hi). cbn [mbind option_bind app] in *.
    destruct (mapM_total (latest_row (w_seen w) (default ∅ (prev_uids w))) (ordered (elements (dom (last_version (w_seen w)))))) as [rows ->].
    + intros uid. rewrite ordered_elem, elem_of_elements, elem_of_dom. intros [v Hv]. rewrite (latest_row_of _ _ _ _ Ht). destruct (Ht uid) as [Hl _]. rewrite Hl in Hv.
      unfold row_of. rewrite Hv. by destruct (apps uid _).
    + cbn. by rewrite Hi.
  - intros before run. unfold delta_after. cbn [new changed removed unchanged]. set (cs := statuses _ _).
    assert (Hu : uid_set (appearances_in md fs run) = run_uids md fs run).
    { apply set_eq. intros k. unfold uid_set. by rewrite elem_of_list_to_set, run_uids_elem. }
    split_and!.
    + unfold cs. rewrite new_count. by rewrite Hu.
    + destruct (last before); cbn; [done|]. f_equal. set_solver.
    + rewrite <- assign_length with (fs := fs). rewrite count_total by apply statuses_change. unfold cs. rewrite statuses_length. unfold appearances_in. by rewrite length_fmap.
Qed.
End assigned.

(** *** When two versions differ *)

Section differences.
Context `{DataLibs, DigestLibs}.

(** The same as far as the comparison looks: field by field in the first levels, by their normal forms below. *)
Fixpoint agree (room : nat) (o n : option json) : Prop :=
  match o, n, room with
  | Some (JObj om), Some (JObj nm), S room => forall k, agree room (map_get om k) (map_get nm k)
  | _, _, _ => norm_opt o = norm_opt n
  end.

Definition same_record (old new : jobj) : Prop := forall k, agree (DIFF_MAX_DEPTH - 1) (map_get old k) (map_get new k).

Lemma bind_nil {A B : Type} (f : A -> list B) (l : list A) : (l ≫= f) = [] <-> forall x, x ∈ l -> f x = [].
Proof.
  split.
  - intros Hl x Hx. destruct (f x) as [|y r] eqn:E; [done|]. exfalso. eapply (not_elem_of_nil y). rewrite <- Hl.
    apply list_elem_of_bind. exists x. rewrite E. split; [by left|done].
  - intros Hf. destruct (l ≫= f) as [|y r] eqn:E; [done|]. assert (Hy : y ∈ l ≫= f) by (rewrite E; by left).
    apply list_elem_of_bind in Hy as (x & Hy & Hx). rewrite (Hf x Hx) in Hy. by apply not_elem_of_nil in Hy.
Qed.

Lemma map_get_absent {A : Type} (m : list (string * A)) (k : string) : k ∉ map_keys m -> map_get m k = None.
Proof. intros Hk. destruct (map_get m k) eqn:E; [|done]. by apply map_get_elem_key in E. Qed.

Lemma both_keys_elem (o n : jobj) (k : string) : k ∈ both_keys o n <-> k ∈ map_keys o \/ k ∈ map_keys n.
Proof. unfold both_keys. by rewrite ordered_elem, elem_of_app. Qed.

Lemma agree_absent (room : nat) : agree room None None.
Proof. by destruct room. Qed.

Lemma walk_nil (room : nat) : forall o n path, diff_walk room o n path = [] <-> agree room o n.
Proof.
  induction room as [|room IH]; intros o n path.
  - assert (Hleaf : (if str_eqb (norm_opt o) (norm_opt n) then [] else [join "." path]) = [] <-> norm_opt o = norm_opt n).
    { rewrite <- str_eqb_eq. by destruct (str_eqb _ _). }
    destruct o as [[]|], n as [[]|]; exact Hleaf.
  - assert (Hleaf : (if str_eqb (norm_opt o) (norm_opt n) then [] else [join "." path]) = [] <-> norm_opt o = norm_opt n).
    { rewrite <- str_eqb_eq. by destruct (str_eqb _ _). }
    destruct o as [[| | | | |om]|], n as [[| | | | |nm]|]; try exact Hleaf. cbn [diff_walk agree]. rewrite bind_nil. split.
    + intros Hk k. destruct (decide (k ∈ both_keys om nm)) as [Hin|Hin]; [by apply (IH _ _ (path ++ [k])), Hk|].
      rewrite both_keys_elem in Hin. rewrite !map_get_absent by tauto. apply agree_absent.
    + intros Hk k _. by apply IH.
Qed.

Lemma leaves_nil (old new : jobj) : diff_leaves old new = [] <-> same_record old new.
Proof.
  unfold diff_leaves, same_record. rewrite bind_nil. split.
  - intros Hk k. destruct (decide (k ∈ both_keys old new)) as [Hin|Hin]; [by apply (walk_nil _ _ _ [k]), Hk|].
    rewrite both_keys_elem in Hin. rewrite !map_get_absent by tauto. apply agree_absent.
  - intros Hk k _. by apply walk_nil.
Qed.

Lemma collapse_nil (leaves : list string) : collapse leaves = [] <-> leaves = [].
Proof.
  split; [|by intros ->]. unfold collapse. rewrite bind_nil. intros Hl. destruct leaves as [|p ps]; [done|]. exfalso.
  specialize (Hl (top_of p)). cbv zeta in Hl. rewrite retain_cons, str_eqb_refl in Hl. 
  destruct (_ <? _)%nat in Hl; specialize (Hl ltac:(apply ordered_elem; by left)); done.
Qed.

(** Sorted lists with the same strings, each once, are the same. *)
Lemma ordered_ext (l k : list string) : (forall x, x ∈ l <-> x ∈ k) -> ordered l = ordered k.
Proof.
  intros Hlk. unfold ordered.
  assert (Hle : forall a b, str_le a b = cmp_le String.compare a b) by done.
  rewrite !(sort_by_ext _ _ _ (fun a b _ _ => Hle a b)).
  apply (StronglySorted_unique_strong (fun a b => cmp_le String.compare a b = true)).
  - intros a b _ _ Hab Hba. unfold cmp_le in *. rewrite String.compare_antisym in Hba.
    destruct (String.compare a b) eqn:E; [by apply String.compare_eq_iff|done|done].
  - apply (cmp_le_sorted String.compare).
  - apply (cmp_le_sorted String.compare).
  - rewrite !sort_by_perm. apply NoDup_Permutation; [apply NoDup_remove_dups..|]. intros x. by rewrite !elem_of_remove_dups.
Qed.

Lemma both_keys_sym (o n : jobj) : both_keys o n = both_keys n o.
Proof. apply ordered_ext. intros k. rewrite !elem_of_app. tauto. Qed.

Lemma walk_sym (room : nat) : forall o n path, diff_walk room o n path = diff_walk room n o path.
Proof.
  assert (Hleaf : forall o n path, (if str_eqb (norm_opt o) (norm_opt n) then [] else [join "." path]) = (if str_eqb (norm_opt n) (norm_opt o) then [] else [join "." path])).
  { intros o n path. by rewrite (bool_eq_iff (str_eqb (norm_opt o) (norm_opt n)) (str_eqb (norm_opt n) (norm_opt o))) by (rewrite !str_eqb_eq; done). }
  induction room as [|room IH]; intros o n path.
  - destruct o as [[]|], n as [[]|]; apply Hleaf.
  - destruct o as [[| | | | |om]|], n as [[| | | | |nm]|]; try apply Hleaf. cbn [diff_walk].
    rewrite (both_keys_sym om nm).
    apply list_bind_ext; [|done]. intros k. apply IH.
Qed.

(** two versions of a record differ exactly when some field does, as deep as three levels, by the normal form, in which a
    missing field, null and blank text are the same; it does not matter which version is the older, and the leaves and the
    paths are there together. *)
Theorem diff_exact (old new : jobj) :
  (fst (diff_fields old new) = [] <-> same_record old new) /\
  (snd (diff_fields old new) = 0%nat <-> same_record old new) /\
  diff_fields old new = diff_fields new old /\ diff_fields old old = ([], 0%nat).
Proof.
  assert (Hsym : diff_leaves old new = diff_leaves new old).
  { unfold diff_leaves. rewrite (both_keys_sym old new).
    apply list_bind_ext; [|done]. intros k. apply walk_sym. }
  assert (Hrefl : diff_leaves old old = []).
  { apply leaves_nil. intros k. generalize (DIFF_MAX_DEPTH - 1)%nat as room. intros room. generalize (map_get old k) as o.
    induction room as [|room IH]; intros o; destruct o as [[]|]; cbn; done || (intros; apply IH). }
  unfold diff_fields. cbn [fst snd]. rewrite collapse_nil, length_zero_iff_nil, leaves_nil, Hsym, Hrefl. done.
Qed.

Lemma no_sep_split (c : ascii) (a b x y : string) : has_byte (byte_is c) a = false -> has_byte (byte_is c) b = false ->
  String.append a (String c x) = String.append b (String c y) -> a = b /\ x = y.
Proof. intros Ha Hb He. pose proof (split_once_first c a x Ha) as H1. rewrite He, (split_once_first c b y Hb) in H1. by injection H1. Qed.

Lemma append_inj_l (p a b : string) : String.append p a = String.append p b -> a = b.
Proof. intros He. by apply (append_inj p p a b eq_refl) in He as [_ ->]. Qed.

Definition id_part (r : jobj) (f : string) : string := String.append f (String UNIT_SEP (norm_field r f)).

Lemma parts_inj (fs : list string) (r r' : jobj) (tail tail' : string) :
  (forall f, f ∈ fs -> has_byte (byte_is RECORD_SEP) (norm_field r f) = false /\ has_byte (byte_is RECORD_SEP) (norm_field r' f) = false) ->
  String.append (join (String RECORD_SEP "") (id_part r <$> fs)) (String RECORD_SEP tail) =
  String.append (join (String RECORD_SEP "") (id_part r' <$> fs)) (String RECORD_SEP tail') -> forall f, f ∈ fs -> norm_field r f = norm_field r' f.
Proof.
  induction fs as [|g fs IH]; intros Hfree He f Hf; [by apply not_elem_of_nil in Hf|].
  destruct (Hfree g ltac:(by left)) as [H1 H2].
  destruct fs as [|h fs].
  - cbn [fmap list_fmap join] in He. unfold id_part in He. rewrite !append_assoc in He. apply append_inj_l in He. cbn [String.append] in He. injection He as He.
    apply (no_sep_split RECORD_SEP) in He as [He _]; [|done|done]. by apply list_elem_of_singleton in Hf as ->.
  - assert (Hj : forall q t, String.append (join (String RECORD_SEP "") (id_part q <$> g :: h :: fs)) t =
      String.append g (String UNIT_SEP (String.append (norm_field q g) (String RECORD_SEP (String.append (join (String RECORD_SEP "") (id_part q <$> h :: fs)) t))))).
    { intros q t. change (join (String RECORD_SEP "") (id_part q <$> g :: h :: fs)) with
        (String.append (id_part q g) (String.append (String RECORD_SEP "") (join (String RECORD_SEP "") (id_part q <$> h :: fs)))).
      unfold id_part at 1. by rewrite !append_assoc. }
    rewrite !Hj in He. apply append_inj_l in He. injection He as He. apply (no_sep_split RECORD_SEP) in He as [He Hr]; [|done|done].
    apply elem_of_cons in Hf as [-> | Hf]; [done|]. apply IH; [|exact Hr|exact Hf]. intros k Hk. apply Hfree. by right.
Qed.

(** within a schema, the text that is hashed for a record tells its identity: with no record separator in the normal forms,
    two records have the same text only if they agree on every identifying field. *)
Theorem digest_identity (fs : list string) (r r' : jobj) (ordinal : nat) :
  (forall f, f ∈ fs -> has_byte (byte_is RECORD_SEP) (norm_field r f) = false /\ has_byte (byte_is RECORD_SEP) (norm_field r' f) = false) ->
  uid_digest_input fs r ordinal false = uid_digest_input fs r' ordinal false -> forall f, f ∈ fs -> norm_field r f = norm_field r' f.
Proof.
  intros Hfree He. apply (parts_inj fs r r' "" "" Hfree). unfold uid_digest_input in He.
  change (fun f => String.append f (String UNIT_SEP (norm_field r f))) with (id_part r) in He.
  change (fun f => String.append f (String UNIT_SEP (norm_field r' f))) with (id_part r') in He.
  destruct (1 <=? ordinal)%nat; [|by rewrite He].
  apply append_inj in He as [-> _]; [done|]. apply (f_equal String.length) in He. rewrite !str_length_append in He. lia.
Qed.
End differences.

(** ** Examples *)

Definition sample_digest : DigestLibs := {| sha256 := fun s => repeat (str_len s mod 256)%Z 32; f64_display := fun _ => "0.5" |}.

Lemma digest_identity_witness :
  norm_field (H := plain_libs) (H0 := sample_digest) [("id", JStr " 007 ")] "id" = norm_field (H := plain_libs) (H0 := sample_digest) [("id", JNum (PosInt 7))] "id".
Proof.
  apply (digest_identity (H := plain_libs) (H0 := sample_digest) ["id"] [("id", JStr " 007 ")] [("id", JNum (PosInt 7))] 1); [|reflexivity|by left].
  by intros f ->%list_elem_of_singleton.
Defined.

Definition snapshot (id : Z) (at_ : string) (recs : list (nat * jobj)) : FlatRun := mkFlatRun id (Some at_) None None None recs true ∅.

Definition sample_lineage : option Lineage :=
  let r v := [("id", JStr "k"); ("price", JStr v)] in
  build_lineage (H := plain_libs) (H0 := sample_digest)
    [snapshot 1 "t1" [(0%nat, r "1")]; snapshot 2 "t2" [(0%nat, r "1.0")]; snapshot 3 "t3" [(0%nat, r "2"); (1%nat, [("id", JStr "long")])]] "auto" ["id"] (Some 3%Z).

Example lineage_ex :
  match sample_lineage with
  | Some l =>
      (length ∘ snd <$> map_to_list (histories l)) = [1%nat; 2%nat] /\ (text_at "change" <$> latest l) = ["new"; "changed"] /\
      (text_at "run_at" <$> runs_index l) = ["t3"; "t2"; "t1"] /\ (rd_delta <$> run_detail l) = Some (mkDelta 1 1 0 0)
  | None => False
  end.
Proof. by_compute. Qed.

(** ** What the code does and does not say *)

(** Numbers are floats in the normal form: two long identifiers are one record. *)
Lemma long_ids_collide `{DataLibs, DigestLibs} :
  let digest s := uid_digest_input ["id"] [("id", JStr s)] 0 false in
  digest "9007199254740993" = digest "9007199254740992" /\ norm (JStr "007") = norm (JStr "7").
Proof. split; vm_compute; reflexivity. Qed.

(** The leaves of fields with a dot in their names are filed under a field that is not there. *)
Lemma dotted_names_collapse `{DataLibs, DigestLibs} :
  let fields_of v := (fun i => (String.append "a." (Z_to_string (Z.of_nat i)), JStr v)) <$> seq 0 21 in
  diff_fields (fields_of "x") (fields_of "y") = (["a"], 21%nat).
Proof. vm_compute. reflexivity. Qed.
