(* ===== verification/CredStore.v ===== *)
(** * local/store/oauth.rs, local/store/local_api_keys.rs: the credentials of the local API

    The tables of OAuth clients, codes and tokens and of API keys, with their statements; and the state they are part of: the
    consents in flight, the UI token with its files, and what the surroundings give, which are the readings of the clock, the draws of
    the generator and the faults of statements. A statement that breaks a constraint is its error; a transaction puts the tables
    back when it fails. SHA-256, base64url, the JSON text of values and the validity of a header value are the interface
    [AuthLibs]. [approvals] is ghost: the clients for whom a consent was turned into a code. *)

From Stdlib Require Import Ascii String.
From S2P Require Import Prelude Ints Str Json Store LocalAuth.
From S2P Require UpdateManifest.
Open Scope string_scope.
Open Scope list_scope.
Open Scope Z_scope.

Class AuthLibs : Type := {
  sha256 : string -> list Z;
  b64url : list Z -> string;
  strings_to_json : list string -> string;
  strings_from_json : string -> option (list string);
  json_from_str : string -> option json;
  header_value : string -> bool;
  strftime : Z -> string;
}.

(** ** Rows *)

Record OauthClient : Type := mkClient {
  cl_id : Z;
  cl_client_id : string;
  cl_client_name : option string;
  cl_redirect_uris : string;
  cl_created_at : string;
}.

Record OauthCode : Type := mkCode {
  co_id : Z;
  co_code_hash : string;
  co_client_id : string;
  co_redirect_uri : string;
  co_code_challenge : string;
  co_scope : string;
  co_expires_at : Z;
  co_used : bool;
}.

Record OauthToken : Type := mkToken {
  tk_id : Z;
  tk_access_hash : string;
  tk_refresh_hash : option string;
  tk_client_id : string;
  tk_scope : string;
  tk_access_expires_at : Z;
  tk_refresh_expires_at : option Z;
  tk_revoked : bool;
  tk_created_at : string;
  tk_last_used_at : option string;
}.

(** The tables, and the last id each has given out. *)
Record Tables : Type := mkTables {
  clients : list OauthClient;
  codes : list OauthCode;
  tokens : list OauthToken;
  client_seq : Z;
  code_seq : Z;
  token_seq : Z;
}.

Record PendingAuthz : Type := mkPending {
  pa_client_id : string;
  pa_client_name : string;
  pa_redirect_uri : string;
  pa_code_challenge : string;
  pa_state : option string;
  pa_created_unix : Z;
}.

(** One row of [local_api_keys]. *)
Record LocalApiKey : Type := mkKey {
  k_id : Z;
  k_name : string;
  k_prefix : string;
  k_key_hash : string;
  k_scopes : string;
  k_enabled : bool;
  k_last_used_at : option string;
  k_created_at : string;
  k_revoked_at : option string;
}.

(** What a server has: its tables, the consents in flight, the rotated tokens and the two files that publish the token; and its
    surroundings. *)
Record World : Type := mkWorld {
  tables : Tables;
  api_keys : list LocalApiKey;
  key_seq : Z;
  streaming_configs : gmap Z (option string);
  pending : gmap string PendingAuthz;
  overlay : gmap string string;
  local_token : option string;
  runtime_json : option string;
  w_config : gmap string string;
  clock : list Z;
  entropy : list (list Z);
  w_faults : list bool;
  approvals : list string;
}.

Definition set_tables (t : Tables) (s : World) : World :=
  mkWorld t (api_keys s) (key_seq s) (streaming_configs s) (pending s) (overlay s) (local_token s) (runtime_json s) (w_config s) (clock s) (entropy s) (w_faults s) (approvals s).
Definition set_keys (l : list LocalApiKey) (seq : Z) (s : World) : World :=
  mkWorld (tables s) l seq (streaming_configs s) (pending s) (overlay s) (local_token s) (runtime_json s) (w_config s) (clock s) (entropy s) (w_faults s) (approvals s).
Definition set_pending (p : gmap string PendingAuthz) (s : World) : World :=
  mkWorld (tables s) (api_keys s) (key_seq s) (streaming_configs s) p (overlay s) (local_token s) (runtime_json s) (w_config s) (clock s) (entropy s) (w_faults s) (approvals s).
Definition set_overlay (o : gmap string string) (s : World) : World :=
  mkWorld (tables s) (api_keys s) (key_seq s) (streaming_configs s) (pending s) o (local_token s) (runtime_json s) (w_config s) (clock s) (entropy s) (w_faults s) (approvals s).
Definition set_token_files (f j : option string) (s : World) : World :=
  mkWorld (tables s) (api_keys s) (key_seq s) (streaming_configs s) (pending s) (overlay s) f j (w_config s) (clock s) (entropy s) (w_faults s) (approvals s).
Definition set_env (c : list Z) (e : list (list Z)) (fs : list bool) (s : World) : World :=
  mkWorld (tables s) (api_keys s) (key_seq s) (streaming_configs s) (pending s) (overlay s) (local_token s) (runtime_json s) (w_config s) c e fs (approvals s).
Definition approve (client_id : string) (s : World) : World :=
  mkWorld (tables s) (api_keys s) (key_seq s) (streaming_configs s) (pending s) (overlay s) (local_token s) (runtime_json s) (w_config s) (clock s) (entropy s) (w_faults s)
    (approvals s ++ [client_id]).

#[export] Instance world_faulty : Faulty World := {
  faults := w_faults;
  set_faults fs s := set_env (clock s) (entropy s) fs s;
}.

#[export] Instance world_config : HasConfig World := {
  config := w_config;
  set_config c s := mkWorld (tables s) (api_keys s) (key_seq s) (streaming_configs s) (pending s) (overlay s) (local_token s) (runtime_json s) c (clock s) (entropy s) (w_faults s) (approvals s);
}.

Definition set_codes (l : list OauthCode) (t : Tables) : Tables := mkTables (clients t) l (tokens t) (client_seq t) (code_seq t) (token_seq t).
Definition set_tokens (l : list OauthToken) (t : Tables) : Tables := mkTables (clients t) (codes t) l (client_seq t) (code_seq t) (token_seq t).

(** ** The surroundings *)

(** A reading of the clock; the last one stays. *)
Definition now_unix : M World Z := fun s =>
  match clock s with
  | [] => (Ok 0, s)
  | [t] => (Ok t, s)
  | t :: ts => (Ok t, set_env ts (entropy s) (w_faults s) s)
  end.

(** The clock of the database. *)
Definition db_now (s : World) : Z := default 0 (head (clock s)).

Section statements.
Context `{AuthLibs}.

Definition sha256_hex (s : string) : string := UpdateManifest.hex_lower (sha256 s).

Definition random_token (prefix : string) : M World string := fun s =>
  match entropy s with
  | [] => (Ok prefix, s)
  | b :: bs => (Ok (String.append prefix (b64url b)), set_env (clock s) bs (w_faults s) s)
  end.

(** ** Statements *)

(** A statement on the tables; a broken constraint is its error. *)
Definition on_tables {A : Type} (f : Tables -> string -> result (A * Tables) LocalError) : M World A :=
  let! r := statement (fun s =>
    match f (tables s) (strftime (db_now s)) with
    | Ok (a, t) => (Ok a, set_tables t s)
    | Err e => (Err e, s)
    end) in
  from_result r.

Definition unique : LocalError := Db EmptyString (Some UniqueViolation).

Definition insert_client (client_id : string) (client_name : option string) (redirect_uris_json : string) : M World OauthClient :=
  on_tables (fun t at_ =>
    if any (fun c => str_eqb (cl_client_id c) client_id) (clients t) then Err unique
    else
      let id := client_seq t + 1 in
      let row := mkClient id client_id client_name redirect_uris_json at_ in
      Ok (row, mkTables (clients t ++ [row]) (codes t) (tokens t) id (code_seq t) (token_seq t))).

Definition get_client (client_id : string) : M World (option OauthClient) :=
  on_tables (fun t _ => Ok (find_first (fun c => str_eqb (cl_client_id c) client_id) (clients t), t)).

Definition insert_code (code_hash client_id redirect_uri code_challenge scope : string) (expires_at : Z) : M World unit :=
  on_tables (fun t _ =>
    if any (fun c => str_eqb (co_code_hash c) code_hash) (codes t) then Err unique
    else
      let id := code_seq t + 1 in
      Ok (tt, mkTables (clients t) (codes t ++ [mkCode id code_hash client_id redirect_uri code_challenge scope expires_at false]) (tokens t)
                (client_seq t) id (token_seq t))).

Definition use_code (c : OauthCode) : OauthCode :=
  mkCode (co_id c) (co_code_hash c) (co_client_id c) (co_redirect_uri c) (co_code_challenge c) (co_scope c) (co_expires_at c) true.

(** The rows of an UPDATE changed, and the first of them as RETURNING gives it. *)
Definition update {A : Type} (p : A -> bool) (f : A -> A) (l : list A) : option A * list A :=
  (f <$> find_first p l, (fun x => if p x then f x else x) <$> l).

Definition code_claimable (code_hash : string) (now : Z) (c : OauthCode) : bool :=
  str_eqb (co_code_hash c) code_hash && negb (co_used c) && (now <? co_expires_at c).

Definition take_code_with (code_hash : string) (now : Z) : M World (option OauthCode) :=
  on_tables (fun t _ => let '(row, l) := update (code_claimable code_hash now) use_code (codes t) in Ok (row, set_codes l t)).

Definition insert_token_with (access_hash : string) (refresh_hash : option string) (client_id scope : string) (access_expires_at : Z)
    (refresh_expires_at : option Z) : M World unit :=
  on_tables (fun t at_ =>
    if any (fun k => str_eqb (tk_access_hash k) access_hash) (tokens t)
       || any (fun k => match tk_refresh_hash k, refresh_hash with Some a, Some b => str_eqb a b | _, _ => false end) (tokens t) then Err unique
    else
      let id := token_seq t + 1 in
      Ok (tt, mkTables (clients t) (codes t)
                (tokens t ++ [mkToken id access_hash refresh_hash client_id scope access_expires_at refresh_expires_at false at_ None])
                (client_seq t) (code_seq t) id)).

Definition token_live (access_hash : string) (now : Z) (k : OauthToken) : bool :=
  str_eqb (tk_access_hash k) access_hash && negb (tk_revoked k) && (now <? tk_access_expires_at k).

Definition get_active_by_access_hash (access_hash : string) (now : Z) : M World (option OauthToken) :=
  on_tables (fun t _ => Ok (find_first (token_live access_hash now) (tokens t), t)).

Definition revoke (k : OauthToken) : OauthToken :=
  mkToken (tk_id k) (tk_access_hash k) (tk_refresh_hash k) (tk_client_id k) (tk_scope k) (tk_access_expires_at k) (tk_refresh_expires_at k) true
    (tk_created_at k) (tk_last_used_at k).

Definition refresh_claimable (refresh_hash : string) (now : Z) (k : OauthToken) : bool :=
  match tk_refresh_hash k, tk_refresh_expires_at k with
  | Some h, Some e => str_eqb h refresh_hash && negb (tk_revoked k) && (now <? e)
  | _, _ => false
  end.

Definition take_refresh_with (refresh_hash : string) (now : Z) : M World (option OauthToken) :=
  on_tables (fun t _ => let '(row, l) := update (refresh_claimable refresh_hash now) revoke (tokens t) in Ok (row, set_tokens l t)).

Definition touch_used (id : Z) : M World unit :=
  on_tables (fun t at_ =>
    Ok (tt, set_tokens (snd (update (fun k => tk_id k =? id)
      (fun k => mkToken (tk_id k) (tk_access_hash k) (tk_refresh_hash k) (tk_client_id k) (tk_scope k) (tk_access_expires_at k) (tk_refresh_expires_at k)
                  (tk_revoked k) (tk_created_at k) (Some at_)) (tokens t))) t)).

Definition token_dead (now : Z) (k : OauthToken) : bool :=
  (tk_revoked k || (tk_access_expires_at k <=? now)) && (default 0 (tk_refresh_expires_at k) <=? now) && (tk_access_expires_at k <=? now - 2592000).

Definition purge_expired (now : Z) : M World unit :=
  on_tables (fun t _ => Ok (tt, set_codes (retain (fun c => negb ((co_expires_at c <=? now) || co_used c)) (codes t)) t)) ;!
  on_tables (fun t _ => Ok (tt, set_tokens (retain (fun k => negb (token_dead now k)) (tokens t)) t)).

(** [begin], the statements, and [commit] when the body says so; else the tables are as they were. *)
Definition in_tx {A : Type} (body : M World (A * bool)) : M World A := fun s =>
  match statement (fun s => (tt, s)) s with
  | (Err e, s0) => (Err e, s0)
  | (Ok _, s0) =>
      let rollback s := set_tables (tables s0) s in
      match body s0 with
      | (Err e, s1) => (Err e, rollback s1)
      | (Ok (a, false), s1) => (Ok a, rollback s1)
      | (Ok (a, true), s1) =>
          match statement (fun s => (tt, s)) s1 with
          | (Err e, s2) => (Err e, rollback s2)
          | (Ok _, s2) => (Ok a, s2)
          end
      end
  end.

(** ** [local_api_keys] *)

Definition on_keys {A : Type} (f : list LocalApiKey -> Z -> string -> result (A * list LocalApiKey * Z) LocalError) : M World A :=
  let! r := statement (fun s =>
    match f (api_keys s) (key_seq s) (strftime (db_now s)) with
    | Ok (a, l, seq) => (Ok a, set_keys l seq s)
    | Err e => (Err e, s)
    end) in
  from_result r.

Record NewLocalApiKey : Type := mkNewKey { nk_name : string; nk_prefix : string; nk_key_hash : string; nk_scopes : option string }.

Definition key_insert (k : NewLocalApiKey) : M World LocalApiKey :=
  on_keys (fun l seq at_ =>
    let row := mkKey (seq + 1) (nk_name k) (nk_prefix k) (nk_key_hash k) (default "run" (nk_scopes k)) true None at_ None in
    Ok (row, l ++ [row], seq + 1)).

Definition key_get_by_id (id : Z) : M World (option LocalApiKey) := on_keys (fun l seq _ => Ok (find_first (fun k => k_id k =? id) l, l, seq)).

Definition key_active (key_hash : string) (k : LocalApiKey) : bool :=
  str_eqb (k_key_hash k) key_hash && k_enabled k && match k_revoked_at k with None => true | Some _ => false end.

Definition get_active_by_hash (key_hash : string) : M World (option LocalApiKey) := on_keys (fun l seq _ => Ok (find_first (key_active key_hash) l, l, seq)).

Definition LIST_CAP : Z := 200.

(** Newest first: by the time of creation, then by id. *)
Definition newer (a b : LocalApiKey) : bool :=
  match String.compare (k_created_at a) (k_created_at b) with Gt => true | Lt => false | Eq => k_id b <=? k_id a end.

Definition key_list (limit : option Z) : M World (list LocalApiKey) :=
  on_keys (fun l seq _ => Ok (take (Z.to_nat (Z.min LIST_CAP (Z.max 1 (default LIST_CAP limit)))) (sort_by newer l), l, seq)).

Definition on_key (id : Z) (f : string -> LocalApiKey -> LocalApiKey) : M World (option LocalApiKey) :=
  on_keys (fun l seq at_ => let '(row, l) := update (fun k => k_id k =? id) (f at_) l in Ok (row, l, seq)).

Definition key_update (id : Z) (name scopes : option string) : M World (option LocalApiKey) :=
  on_key id (fun _ k => mkKey (k_id k) (default (k_name k) name) (k_prefix k) (k_key_hash k) (default (k_scopes k) scopes) (k_enabled k)
    (k_last_used_at k) (k_created_at k) (k_revoked_at k)).

Definition touched (o : option LocalApiKey) : bool := match o with Some _ => true | None => false end.

Definition set_enabled (id : Z) (enabled : bool) : M World bool :=
  let! o := on_key id (fun _ k => mkKey (k_id k) (k_name k) (k_prefix k) (k_key_hash k) (k_scopes k) enabled (k_last_used_at k) (k_created_at k) (k_revoked_at k)) in
  ret (touched o).

Definition key_touch_used (id : Z) : M World unit :=
  on_key id (fun at_ k => mkKey (k_id k) (k_name k) (k_prefix k) (k_key_hash k) (k_scopes k) (k_enabled k) (Some at_) (k_created_at k) (k_revoked_at k)) ;!
  ret tt.

Definition key_revoke (id : Z) : M World bool :=
  let! o := on_key id (fun at_ k => mkKey (k_id k) (k_name k) (k_prefix k) (k_key_hash k) (k_scopes k) false (k_last_used_at k) (k_created_at k) (Some at_)) in
  ret (touched o).

Definition key_delete (id : Z) : M World bool :=
  on_keys (fun l seq _ => Ok (any (fun k => k_id k =? id) l, retain (fun k => negb (k_id k =? id)) l, seq)).
End statements.
