(* ===== verification/OAuth.v ===== *)
(** * local/api/v1/oauth.rs: the local OAuth 2.1 authorization server

    Public clients, the authorization code with PKCE, and rotating refresh tokens. The fixed markup of the pages is left out: a
    page is its variable parts. *)

From Stdlib Require Import Ascii String.
From S2P Require Import Prelude Ints Str Json Store LocalAuth.
From S2P Require Export CredStore.
Open Scope string_scope.
Open Scope list_scope.
Open Scope Z_scope.

Definition ACCESS_TTL_SECS : Z := 7 * 86400.
Definition REFRESH_TTL_SECS : Z := 90 * 86400.
Definition CODE_TTL_SECS : Z := 300.
Definition TXN_TTL_SECS : Z := 600.
Definition GRANTED_SCOPE : string := "run".

(** ** Responses *)

Inductive Response : Type :=
| JsonResponse (status : Z) (no_store : bool) (body : json)
| ErrorPage (message : string)
| ConsentPage (name txn : string)
| RedirectTo (location : string)
| Panicked.

Record Config : Type := mkConfig { port : Z; tls_port : Z; network_exposed : bool }.

Section oauth.
Context `{AuthLibs}.

Definition base_url_for_host (host : option string) (cfg : Config) : string :=
  match host with
  | Some h =>
      if is_empty (trim h) then String.append "http://127.0.0.1:" (Z_to_string (port cfg))
      else
        let h := trim h in
        let https := negb (tls_port cfg =? 0) && ends_with h (String ":" (Z_to_string (tls_port cfg))) in
        String.append (if https then "https" else "http") (String.append "://" h)
  | None => String.append "http://127.0.0.1:" (Z_to_string (port cfg))
  end.

Definition texts (l : list string) : json := JArr (JStr <$> l).

Definition protected_resource (host : string) (cfg : Config) : Response :=
  let base := base_url_for_host (Some host) cfg in
  JsonResponse 200 false (JObj [("resource", JStr (String.append base "/mcp")); ("authorization_servers", texts [base]);
    ("bearer_methods_supported", texts ["header"]); ("scopes_supported", texts [GRANTED_SCOPE]); ("resource_name", JStr "Writ (local)")]).

Definition as_metadata (host : string) (cfg : Config) : Response :=
  let base := base_url_for_host (Some host) cfg in
  JsonResponse 200 false (JObj [("issuer", JStr base); ("authorization_endpoint", JStr (String.append base "/oauth/authorize"));
    ("token_endpoint", JStr (String.append base "/oauth/token")); ("registration_endpoint", JStr (String.append base "/oauth/register"));
    ("response_types_supported", texts ["code"]); ("grant_types_supported", texts ["authorization_code"; "refresh_token"]);
    ("code_challenge_methods_supported", texts ["S256"]); ("token_endpoint_auth_methods_supported", texts ["none"]);
    ("scopes_supported", texts [GRANTED_SCOPE])]).

(** [str::replace], one character after the other. *)
Definition html_escape (s : string) : string :=
  replace_byte (byte_is "034"%char) "&quot;" (replace_byte (byte_is ">") "&gt;" (replace_byte (byte_is "<") "&lt;" (replace_byte (byte_is "&") "&amp;" s))).

Definition authz_error_page (msg : string) : Response := ErrorPage (html_escape msg).

Definition unreserved (c : ascii) : bool := is_alnum c || any (fun d => byte_is d c) ["-"; "."; "_"; "~"]%char.
Definition hex_upper (n : Z) : ascii := chr (if n <? 10 then n + 48 else n + 55).

Fixpoint urlencode (s : string) : string :=
  match s with
  | EmptyString => ""
  | String b r =>
      if unreserved b then String b (urlencode r)
      else String "%" (String (hex_upper (byte_val b / 16)) (String (hex_upper (byte_val b mod 16)) (urlencode r)))
  end.

(** [Redirect::to] panics on a location that is no header value. *)
Definition redirect_to (location : string) : Response := if header_value location then RedirectTo location else Panicked.

(** ** Registration *)

Definition redirect_uri_ok (uri : string) : bool :=
  negb (is_empty uri) && (str_len uri <=? 2048) && contains uri "://" && negb (has_white uri) && negb (has_byte (byte_is "#") uri).

Record RegisterBody : Type := mkRegister { redirect_uris : list string; client_name : option string }.

Definition shown_name (name : option string) : option string :=
  match name with
  | Some s => if is_empty (trim s) then None else Some (String.concat "" (take 200 (chars (trim s))))
  | None => None
  end.

Definition opt_str (o : option string) : json := match o with Some s => JStr s | None => JNull end.

Definition error_json (code desc : string) : json := JObj [("error", JStr code); ("error_description", JStr desc)].

Definition register (body : RegisterBody) : M World Response :=
  if bool_decide (redirect_uris body = []) || (10 <? length (redirect_uris body))%nat || negb (all redirect_uri_ok (redirect_uris body)) then
    ret (JsonResponse 400 false (error_json "invalid_redirect_uri" (String.append "1" (String.append (of_bytes [chr 226; chr 128; chr 147]) "10 absolute redirect URIs required"))))
  else
    let name := shown_name (client_name body) in
    let! client_id := random_token "wcl_" in
    let! row := insert_client client_id name (strings_to_json (redirect_uris body)) in
    ret (JsonResponse 201 false (JObj [("client_id", JStr (cl_client_id row)); ("client_name", opt_str (cl_client_name row));
      ("redirect_uris", texts (redirect_uris body)); ("token_endpoint_auth_method", JStr "none");
      ("grant_types", texts ["authorization_code"; "refresh_token"]); ("response_types", texts ["code"])])).

(** ** Consent *)

Definition fresh (now : Z) (p : PendingAuthz) : bool := now - pa_created_unix p <? TXN_TTL_SECS.

Definition with_pending {A : Type} (f : gmap string PendingAuthz -> A * gmap string PendingAuthz) : M World A := fun s =>
  let '(a, p) := f (pending s) in (Ok a, set_pending p s).

Definition pending_insert (txn : string) (p : PendingAuthz) : M World unit :=
  let! now := now_unix in
  with_pending (fun m => (tt, <[txn := p]> (filter (fun kv => fresh now (snd kv) = true) m))).

Definition pending_take (txn : string) : M World (option PendingAuthz) :=
  let! p := with_pending (fun m => (m !! txn, delete txn m)) in
  match p with
  | None => ret None
  | Some p => let! now := now_unix in ret (if fresh now p then Some p else None)
  end.

Record AuthorizeQuery : Type := mkAuthorize {
  aq_response_type : option string;
  aq_client_id : option string;
  aq_redirect_uri : option string;
  aq_code_challenge : option string;
  aq_code_challenge_method : option string;
  aq_state : option string;
}.

Definition non_empty (o : option string) : option string := match o with Some s => if is_empty s then None else Some s | None => None end.

Definition sep (redirect_uri : string) : string := if has_byte (byte_is "?") redirect_uri then "&" else "?".
Definition state_param (state : option string) : string := match state with Some s => String.append "&state=" (urlencode s) | None => "" end.
Definition strings (l : list string) : string := String.concat "" l.

Definition redirect_err (redirect_uri : string) (state : option string) (code desc : string) : Response :=
  redirect_to (strings [redirect_uri; sep redirect_uri; "error="; code; "&error_description="; urlencode desc; state_param state]).

(** The redirect URI of a request, when it is registered for the client. *)
Definition registered_uri (client : OauthClient) (uri : option string) : string + string :=
  let registered := default [] (strings_from_json (cl_redirect_uris client)) in
  match non_empty uri with
  | Some r => if any (fun u => str_eqb u r) registered then inr r else inl "redirect_uri is not registered for this client."
  | None => inl "Missing redirect_uri."
  end.

Definition s256_challenge (q : AuthorizeQuery) : option string :=
  match non_empty (aq_code_challenge q) with
  | Some c => if bool_decide (aq_code_challenge_method q = Some "S256") then Some c else None
  | None => None
  end.

Definition authorize (q : AuthorizeQuery) : M World Response :=
  match non_empty (aq_client_id q) with
  | None => ret (authz_error_page "Missing client_id.")
  | Some client_id =>
      let! client := get_client client_id in
      match client with
      | None => ret (authz_error_page "Unknown client. Register first (POST /oauth/register).")
      | Some client =>
          match registered_uri client (aq_redirect_uri q) with
          | inl msg => ret (authz_error_page msg)
          | inr redirect_uri =>
              if negb (bool_decide (aq_response_type q = Some "code")) then
                ret (redirect_err redirect_uri (aq_state q) "unsupported_response_type" "only response_type=code is supported")
              else
                match s256_challenge q with
                | None => ret (redirect_err redirect_uri (aq_state q) "invalid_request" "PKCE with code_challenge_method=S256 is required")
                | Some code_challenge =>
                    let! txn := random_token "txn_" in
                    let name := default "An MCP client" (cl_client_name client) in
                    let! created := now_unix in
                    pending_insert txn (mkPending client_id name redirect_uri code_challenge (aq_state q) created) ;!
                    ret (ConsentPage (html_escape name) txn)
                end
          end
      end
  end.

Definition ghost_approve (client_id : string) : M World unit := fun s => (Ok tt, approve client_id s).

Definition consent (txn action : string) : M World Response :=
  let! p := pending_take txn in
  match p with
  | None => ret (authz_error_page (String.append "This authorization request expired " (String.append (of_bytes [chr 226; chr 128; chr 148]) " retry from the app.")))
  | Some p =>
      let uri := pa_redirect_uri p in
      if negb (str_eqb action "approve") then ret (redirect_to (strings [uri; sep uri; "error=access_denied"; state_param (pa_state p)]))
      else
        let! code := random_token "wac_" in
        let! now := now_unix in
        insert_code (sha256_hex code) (pa_client_id p) uri (pa_code_challenge p) GRANTED_SCOPE (now + CODE_TTL_SECS) ;!
        ghost_approve (pa_client_id p) ;!
        ret (redirect_to (strings [uri; sep uri; "code="; urlencode code; state_param (pa_state p)]))
  end.

(** ** Tokens *)

Record TokenForm : Type := mkTokenForm {
  grant_type : string;
  tf_code : option string;
  tf_redirect_uri : option string;
  tf_client_id : option string;
  tf_code_verifier : option string;
  tf_refresh_token : option string;
}.

Definition token_err (status : Z) (code desc : string) : Response := JsonResponse status false (error_json code desc).

Definition token_json (access refresh scope : string) : json :=
  JObj [("access_token", JStr access); ("token_type", JStr "Bearer"); ("expires_in", json_of_Z ACCESS_TTL_SECS); ("refresh_token", JStr refresh);
        ("scope", JStr scope)].

Definition mint_pair (client_id scope : string) : M World Response :=
  let! access := random_token "wlo_" in
  let! refresh := random_token "wrt_" in
  let! now := now_unix in
  insert_token_with (sha256_hex access) (Some (sha256_hex refresh)) client_id scope (now + ACCESS_TTL_SECS) (Some (now + REFRESH_TTL_SECS)) ;!
  ret (JsonResponse 200 true (token_json access refresh scope)).

(** The S256 challenge of a verifier. *)
Definition s256 (verifier : string) : string := b64url (sha256 verifier).

(** What a grant answers, whether it minted, and whether its transaction is committed. *)
Definition outcome (resp : Response) (minted commit : bool) : M World (Response * bool * bool) := ret (resp, minted, commit).

Definition redeem_code (f : TokenForm) (code verifier : string) (now : Z) : M World (Response * bool * bool) :=
  let! row := take_code_with (sha256_hex code) now in
  match row with
  | None => outcome (token_err 400 "invalid_grant" "code is invalid, expired, or already used") false false
  | Some row =>
      if negb (bool_decide (tf_client_id f = Some (co_client_id row))) then outcome (token_err 400 "invalid_grant" "client_id mismatch") false true
      else if match tf_redirect_uri f with Some r => negb (str_eqb r (co_redirect_uri row)) | None => false end then
        outcome (token_err 400 "invalid_grant" "redirect_uri mismatch") false true
      else if negb (verify_local_bearer (s256 verifier) (co_code_challenge row)) then
        outcome (token_err 400 "invalid_grant" "PKCE verification failed") false true
      else let! resp := mint_pair (co_client_id row) (co_scope row) in outcome resp true true
  end.

Definition rotate (f : TokenForm) (refresh : string) (now : Z) : M World (Response * bool * bool) :=
  let! row := take_refresh_with (sha256_hex refresh) now in
  match row with
  | None => outcome (token_err 400 "invalid_grant" "refresh token is invalid, expired, or rotated") false false
  | Some row =>
      if match tf_client_id f with Some cid => negb (str_eqb cid (tk_client_id row)) | None => false end then
        outcome (token_err 400 "invalid_grant" "client_id mismatch") false true
      else let! resp := mint_pair (tk_client_id row) (tk_scope row) in outcome resp true true
  end.

(** A grant, and whether it minted. *)
Definition grant (f : TokenForm) (now : Z) : M World (Response * bool) :=
  if str_eqb (grant_type f) "authorization_code" then
    match tf_code f, tf_code_verifier f with
    | Some code, Some verifier => in_tx (redeem_code f code verifier now)
    | _, _ => ret (token_err 400 "invalid_request" "code and code_verifier are required", false)
    end
  else if str_eqb (grant_type f) "refresh_token" then
    match tf_refresh_token f with
    | Some refresh => in_tx (rotate f refresh now)
    | None => ret (token_err 400 "invalid_request" "refresh_token is required", false)
    end
  else ret (token_err 400 "unsupported_grant_type" (strings ["unsupported grant_type '"; grant_type f; "'"]), false).

(** Housekeeping follows a mint; its error is dropped. *)
Definition token (f : TokenForm) : M World Response :=
  let! now := now_unix in
  let! (resp, minted) := grant f now in
  if minted then attempt (purge_expired now) ;! ret resp else ret resp.

(** ** Requests *)

Inductive OAuthRequest : Type :=
| Register (body : RegisterBody)
| Authorize (q : AuthorizeQuery)
| Consent (txn action : string)
| Token (f : TokenForm).

Definition handle (r : OAuthRequest) : M World Response :=
  match r with
  | Register body => register body
  | Authorize q => authorize q
  | Consent txn action => consent txn action
  | Token f => token f
  end.
End oauth.
