(* ===== verification/ServerAuth.v ===== *)
(** * local/server.rs: who may call the local API

    The middleware that every request passes (but the two WebSockets, which are WsTicket's), the runtime token with its
    rotation, and the endpoints of API keys. A header is its text when it is one line of visible ASCII. The address of the
    machine in its network and the account a profile serves are arguments. *)

From Stdlib Require Import Ascii String.
From S2P Require Import Prelude Ints Str Json Store LocalAuth CredStore OAuth.
Open Scope string_scope.
Open Scope list_scope.
Open Scope Z_scope.

Record Request : Type := mkRequest {
  r_method : string;
  r_path : string;
  r_origin : option string;
  r_host : option string;
  r_authorization : option string;
  r_account : option string;
}.

(** The server's own: its configuration, the token it booted with, its address in the network, and the profile it serves when
    it is built with the cloud. *)
Record Server : Type := mkServer {
  cfg : Config;
  seed : string;
  lan_ip : option string;
  active_profile : option string;
}.

Inductive Decision : Type :=
| Pass (c : Caller)
| McpUnauthorized (resource_metadata : string).

Definition MCP_AUTH_DISABLED_KEY : string := "mcp_auth_disabled".

(** ** The runtime token *)

Definition current (seed : string) (s : World) : string := default seed (overlay s !! seed).
Definition verify (presented seed : string) (s : World) : bool := verify_local_bearer presented (current seed s).
Definition set_current (seed new : string) : M World unit := fun s => (Ok tt, set_overlay (<[seed := new]> (overlay s)) s).

Definition TOKEN_PREFIX : string := "wlt_".

(** A write of one of the two files. *)
Definition write_token_file (t : string) : M World unit := faulted Io (fun s => (tt, set_token_files (Some t) (runtime_json s) s)).
Definition write_runtime_json (t : string) : M World unit := faulted Io (fun s => (tt, set_token_files (local_token s) (Some t) s)).

Definition map_err_M {A : Type} (e : LocalError) (c : M World A) : M World A := fun s =>
  match c s with (Ok a, s) => (Ok a, s) | (Err _, s) => (Err e, s) end.

Section auth.
Context `{AuthLibs}.

Definition mint_token : M World string := random_token TOKEN_PREFIX.

Definition rotate_token_file : M World string :=
  let! token := mint_token in
  write_token_file token ;!
  ret token.

Definition rotate_runtime (seed : string) : M World json :=
  let! new_token := map_err_M (Internal "could not persist the rotated token") rotate_token_file in
  map_err_M (Internal "could not republish runtime.json for the rotated token") (write_runtime_json new_token) ;!
  set_current seed new_token ;!
  ret (JObj [("token", JStr new_token)]).

(** ** The middleware *)

Definition lan_hosts (srv : Server) : list string :=
  if network_exposed (cfg srv) then "0.0.0.0" :: match lan_ip srv with Some ip => [ip] | None => [] end else [].

Definition host_ok (srv : Server) (header : option string) : bool :=
  match header with
  | Some v => origin_allowed_for v (port (cfg srv)) (network_exposed (cfg srv)) (lan_hosts srv)
  | None => true
  end.

Definition is_hook (path : string) : bool := starts_with path "/v1/hooks/" || str_eqb path "/v1/hooks".
Definition is_oauth (path : string) : bool := starts_with path "/oauth/" || starts_with path "/.well-known/".

Definition rest_run_workflow_id (method path : string) : option Z :=
  if negb (eq_ignore_ascii_case method "POST") then None
  else
    match strip_prefix "/v1/workflows/" path ≫= strip_suffix "/run" with
    | Some inner => if is_empty inner || has_byte (byte_is "/") inner then None else parse_i64 inner
    | None => None
    end.

Record ConnectSurfaces : Type := mkSurfaces { rest : bool; openai : bool; mcp : bool }.

Definition surface (c : json) (key : string) : bool := default true (get c key ≫= json_as_bool).

Definition connect_surfaces (streaming_config : option string) : ConnectSurfaces :=
  match streaming_config ≫= json_from_str with
  | Some v => match get v "connect" with
              | Some (JObj c) => mkSurfaces (surface (JObj c) "rest") (surface (JObj c) "openai") (surface (JObj c) "mcp")
              | _ => mkSurfaces true true true
              end
  | None => mkSurfaces true true true
  end.

Definition get_workflow (id : Z) : M World (option (option string)) := statement (fun s => (streaming_configs s !! id, s)).

(** Whether the REST surface of the workflow that the request runs, if it runs one, is off. *)
Definition rest_blocked (r : Request) : M World bool :=
  match rest_run_workflow_id (r_method r) (r_path r) with
  | None => ret false
  | Some id =>
      let! wf := get_workflow id in
      ret (match wf with Some config => negb (rest (connect_surfaces config)) | None => false end)
  end.

Definition unauthorized (srv : Server) (r : Request) : M World Decision :=
  if str_eqb (r_path r) "/mcp" then ret (McpUnauthorized (String.append (base_url_for_host (r_host r) (cfg srv)) "/.well-known/oauth-protected-resource"))
  else throw Unauthorized.

(** A caller with a scope, once its credential is found: the scope, the surface, the stamp. *)
Definition scoped (r : Request) (scopes : string) (stamp : M World unit) : M World Decision :=
  if negb (scope_grants scopes (required_scope (r_method r) (r_path r))) then throw Forbidden
  else
    let! blocked := rest_blocked r in
    if blocked then throw Forbidden
    else attempt stamp ;! ret (Pass (Scoped scopes)).

Definition mcp_auth_off (srv : Server) (r : Request) : M World bool :=
  if str_eqb (r_path r) "/mcp" && negb (network_exposed (cfg srv)) then
    let! v := kv_get MCP_AUTH_DISABLED_KEY in ret (bool_decide (v = Some "true"))
  else ret false.

Definition account_mismatch (srv : Server) (r : Request) : option LocalError :=
  match active_profile srv, r_account r with
  | Some serving, Some bound =>
      let bound := trim bound in
      if negb (is_empty bound) && negb (str_eqb bound serving) then
        Some (IsolationViolation (strings ["request bound to account '"; bound; "' but this daemon serves '"; serving; "'"]))
      else None
  | _, _ => None
  end.

Definition bearer (srv : Server) (r : Request) (presented : string) : M World Decision := fun s =>
  if verify presented (seed srv) s then (Ok (Pass FullAccess), s)
  else
    (if starts_with presented "wlo_" then
       let! now := now_unix in
       let! tok := get_active_by_access_hash (sha256_hex presented) now in
       match tok with
       | None => unauthorized srv r
       | Some t => scoped r (tk_scope t) (touch_used (tk_id t))
       end
     else
       let! key := get_active_by_hash (sha256_hex presented) in
       match key with
       | None => unauthorized srv r
       | Some k => scoped r (k_scopes k) (key_touch_used (k_id k))
       end) s.

Definition auth_mw (srv : Server) (r : Request) : M World Decision :=
  if negb (host_ok srv (r_origin r)) then throw Unauthorized
  else if negb (host_ok srv (r_host r)) then throw Unauthorized
  else if is_hook (r_path r) then ret (Pass FullAccess)
  else if is_oauth (r_path r) then ret (Pass FullAccess)
  else
    let! off := mcp_auth_off srv r in
    if off then ret (Pass FullAccess)
    else
      match account_mismatch srv r with
      | Some e => throw e
      | None =>
          match r_authorization r ≫= parse_bearer with
          | Some presented => bearer srv r presented
          | None => unauthorized srv r
          end
      end.

(** ** API keys *)

Definition DEFAULT_LIMIT : Z := 100.
Definition MAX_LIMIT : Z := 200.
Definition KEY_PREFIX : string := "wlk_".

(** The record as it is serialized: without the hash. *)
Definition key_json (k : LocalApiKey) : jobj :=
  [("id", json_of_Z (k_id k)); ("name", JStr (k_name k)); ("prefix", JStr (k_prefix k)); ("scopes", JStr (k_scopes k));
   ("enabled", json_of_Z (if k_enabled k then 1 else 0)); ("last_used_at", opt_str (k_last_used_at k)); ("created_at", JStr (k_created_at k));
   ("revoked_at", opt_str (k_revoked_at k))].

Definition list_keys (limit : option Z) : M World json :=
  let! rows := key_list (Some (Z.min MAX_LIMIT (Z.max 1 (default DEFAULT_LIMIT limit)))) in
  ret (JObj [("data", JArr ((fun k => JObj (key_json k)) <$> rows)); ("count", json_of_Z (Z.of_nat (length rows)))]).

Definition create_key (name : string) (scopes : option string) : M World json :=
  if is_empty (trim name) then throw (BadRequest "name is required")
  else
    let! body_b64 := random_token "" in
    let key := String.append KEY_PREFIX body_b64 in
    let prefix := String.append KEY_PREFIX (str_take (Nat.min (String.length body_b64) 6) body_b64) in
    let! row := key_insert (mkNewKey name prefix (sha256_hex key) scopes) in
    ret (JObj (map_insert "key" (JStr key) (key_json row))).

Definition no_key (id : Z) : LocalError := NotFound (String.append "api key " (Z_to_string id)).

Definition get_key (id : Z) : M World json :=
  let! row := key_get_by_id id in
  match row with Some k => ret (JObj (key_json k)) | None => throw (no_key id) end.

Definition remove_key (id : Z) : M World json :=
  let! removed := key_delete id in
  if removed then ret (JObj [("id", json_of_Z id); ("deleted", JBool true)]) else throw (no_key id).

Definition mcp_auth_set (srv : Server) (required : bool) : M World json :=
  kv_set MCP_AUTH_DISABLED_KEY (if required then "false" else "true") ;!
  ret (JObj [("required", JBool (required || network_exposed (cfg srv))); ("opt_out_persisted", JBool (negb required));
             ("forced_by_lan", JBool (negb required && network_exposed (cfg srv)))]).

Definition mcp_auth_status (srv : Server) : M World json :=
  let! v := kv_get MCP_AUTH_DISABLED_KEY in
  let disabled := bool_decide (v = Some "true") in
  ret (JObj [("required", JBool (negb disabled || network_exposed (cfg srv))); ("opt_out_persisted", JBool disabled);
             ("forced_by_lan", JBool (disabled && network_exposed (cfg srv)))]).
End auth.
