(* ===== verification/OAuthAudit.v ===== *)
(** * What the local OAuth server guarantees

    A statement, a reading of the clock and a draw leave alone what is not theirs ([quiet]); [on s0 t] is a state that differs from
    [s0] in its tables, which are [t]. From these: the contract of a grant, and the accounting of consents over every history of
    requests. *)

From Stdlib Require Import Ascii String.
From S2P Require Import Prelude Ints Str Json Store LocalAuth CredStore OAuth.
Open Scope string_scope.
Open Scope list_scope.
Open Scope Z_scope.

(** ** Frames *)

(** Only the tables and the surroundings differ. *)
Definition quiet (s0 s : World) : Prop := s = set_tables (tables s) (set_env (clock s) (entropy s) (w_faults s) s0).

Definition on (s0 : World) (t : Tables) (s : World) : Prop := quiet s0 s /\ tables s = t.

Lemma quiet_refl (s : World) : quiet s s.
Proof. by destruct s. Qed.

Lemma quiet_trans (s0 s1 s2 : World) : quiet s0 s1 -> quiet s1 s2 -> quiet s0 s2.
Proof. unfold quiet. intros -> ->. done. Qed.

Lemma quiet_env (s0 s : World) (c : list Z) (e : list (list Z)) (fs : list bool) : quiet s0 s -> quiet s0 (set_env c e fs s).
Proof. intros H. eapply quiet_trans; [exact H|done]. Qed.

Lemma quiet_tables (s0 s : World) (t : Tables) : quiet s0 s -> quiet s0 (set_tables t s).
Proof. intros H. eapply quiet_trans; [exact H|done]. Qed.

Lemma quiet_fields (s0 s : World) : quiet s0 s -> pending s = pending s0 /\ approvals s = approvals s0.
Proof. by intros ->. Qed.

Lemma on_refl (s : World) : on s (tables s) s.
Proof. split; [apply quiet_refl|done]. Qed.

#[export] Hint Resolve quiet_refl quiet_env quiet_tables on_refl : quiet.

Section frames.
Context `{AuthLibs}.

Lemma on_tables_hoare {A : Type} (f : Tables -> string -> result (A * Tables) LocalError) (s0 : World) (t : Tables) :
  hoare (on s0 t) (on_tables f) (fun a s => exists t' at_, f t at_ = Ok (a, t') /\ on s0 t' s) (on s0 t).
Proof.
  eapply hoare_bind.
  - apply (hoare_faulted DbError _ (on s0 t) (on s0 t)
      (fun r s => match r with Ok a => exists t' at_, f t at_ = Ok (a, t') /\ on s0 t' s | Err _ => on s0 t s end)).
    + intros s fs [Hq Ht]. split; [by apply quiet_env|done].
    + done.
    + intros s [Hq <-]. destruct (f _ _) as [[a t']|e] eqn:E; simpl; [|by split].
      exists t', (strftime (db_now s)). split; [done|]. split; [by apply quiet_tables|done].
  - intros [a|e]; [apply hoare_ret|apply hoare_throw]; done.
Qed.

Lemma now_unix_hoare (s0 : World) (t : Tables) : hoare (on s0 t) now_unix (fun _ => on s0 t) (on s0 t).
Proof. intros s [Hq Ht]. unfold now_unix. destruct (clock s) as [|a [|b l]]; split; auto with quiet. Qed.

Lemma random_token_hoare (prefix : string) (s0 : World) (t : Tables) : hoare (on s0 t) (random_token prefix) (fun _ => on s0 t) (on s0 t).
Proof. intros s [Hq Ht]. unfold random_token. destruct (entropy s) as [|b bs]; split; auto with quiet. Qed.

(** A transaction: committed, or the tables are as they were. *)
Lemma in_tx_hoare {A : Type} (body : M World (A * bool)) (R : A -> bool -> Tables -> Prop) (s0 : World) (t : Tables) :
  hoare (on s0 t) body (fun o s => exists t', on s0 t' s /\ R (fst o) (snd o) t') (fun s => exists t', on s0 t' s) ->
  hoare (on s0 t) (in_tx body) (fun a s => exists t', R a true t' /\ on s0 t' s \/ R a false t' /\ on s0 t s) (on s0 t).
Proof.
  intros Hb s Hs. unfold in_tx.
  assert (Hst : forall t s, on s0 t s -> exists r s', statement (fun s => (tt, s)) s = (r, s') /\ on s0 t s').
  { intros t1 s1 [Hq Ht]. unfold statement, faulted. destruct (faults s1) as [|[] fs] eqn:E; eexists _, _; (split; [reflexivity|]); split; cbn; auto with quiet. }
  destruct (Hst _ _ Hs) as (r1 & s1 & -> & H1). destruct r1 as [[]|e]; [|done].
  assert (Hr : forall t' s', on s0 t' s' -> on s0 t (set_tables (tables s1) s')).
  { intros t' s' [Hq _]. split; [by apply quiet_tables|apply H1]. }
  specialize (Hb s1 H1). destruct (body s1) as [[[a []]|e] s2].
  - destruct Hb as (t' & H2 & HR). destruct (Hst _ _ H2) as (r3 & s3 & -> & H3). destruct r3 as [[]|e]; [exists t'; by left|by eapply Hr].
  - destruct Hb as (t' & H2 & HR). exists t'. right. split; [done|by eapply Hr].
  - destruct Hb as (t' & H2). by eapply Hr.
Qed.

(** ** The contract of a grant *)

(** What a grant request spends: the code or the refresh token it presents, while that is unused and unexpired. *)
Inductive spends (f : TokenForm) (now : Z) (t : Tables) : string -> string -> bool -> Tables -> Prop :=
| SpendsCode code verifier row :
    grant_type f = "authorization_code" -> tf_code f = Some code -> tf_code_verifier f = Some verifier ->
    find_first (code_claimable (sha256_hex code) now) (codes t) = Some row ->
    spends f now t (co_client_id row) (co_scope row)
      (bool_decide (tf_client_id f = Some (co_client_id row) /\ tf_redirect_uri f ∈ [None; Some (co_redirect_uri row)] /\
                    s256 verifier = co_code_challenge row))
      (set_codes (snd (update (code_claimable (sha256_hex code) now) use_code (codes t))) t)
| SpendsRefresh refresh row :
    grant_type f = "refresh_token" -> tf_refresh_token f = Some refresh ->
    find_first (refresh_claimable (sha256_hex refresh) now) (tokens t) = Some row ->
    spends f now t (tk_client_id row) (tk_scope row) (bool_decide (tf_client_id f ∈ [None; Some (tk_client_id row)]))
      (set_tokens (snd (update (refresh_claimable (sha256_hex refresh) now) revoke (tokens t))) t).

(** The tables with a new pair, and the answer that hands it out. *)
Definition issues (client scope : string) (t : Tables) (resp : Response) (t' : Tables) : Prop :=
  exists access refresh now at_,
    resp = JsonResponse 200 true (token_json access refresh scope) /\
    t' = mkTables (clients t) (codes t)
           (tokens t ++ [mkToken (token_seq t + 1) (sha256_hex access) (Some (sha256_hex refresh)) client scope (now + ACCESS_TTL_SECS)
                           (Some (now + REFRESH_TTL_SECS)) false at_ None])
           (client_seq t) (code_seq t) (token_seq t + 1).

(** The contract: nothing is spent and nothing issued; or the credential is spent for nothing; or it is exchanged for one pair. *)
Definition granted (f : TokenForm) (now : Z) (t : Tables) (resp : Response) (minted : bool) (t' : Tables) : Prop :=
  if minted then exists client scope t1, spends f now t client scope true t1 /\ issues client scope t1 resp t'
  else t' = t \/ exists client scope, spends f now t client scope false t'.

Lemma mint_pair_hoare (client scope : string) (s0 : World) (t : Tables) :
  hoare (on s0 t) (mint_pair client scope) (fun resp s => exists t', on s0 t' s /\ issues client scope t resp t') (fun s => exists t', on s0 t' s).
Proof.
  eapply hoare_bind; [eapply hoare_conseq; [apply random_token_hoare|done|done|eauto]|intros access; simpl].
  eapply hoare_bind; [eapply hoare_conseq; [apply random_token_hoare|done|done|eauto]|intros refresh; simpl].
  eapply hoare_bind; [eapply hoare_conseq; [apply now_unix_hoare|done|done|eauto]|intros now; simpl].
  eapply hoare_bind; [eapply hoare_conseq; [apply on_tables_hoare|done|done|eauto]|intros []; simpl].
  apply hoare_ret. intros s (t' & at_ & E & Hs). exists t'. split; [done|].
  revert E. destruct (any _ _ || any _ _); [done|]. intros [= <-]. by exists access, refresh, now, at_.
Qed.

(** The error state of a body in a transaction. *)
Definition some_on (s0 : World) (s : World) : Prop := exists t', on s0 t' s.

Lemma some_on_intro (s0 : World) (t : Tables) (s : World) : on s0 t s -> some_on s0 s.
Proof. by exists t. Qed.

Lemma take_hoare {A B : Type} (f : Tables -> string -> result (A * Tables) LocalError) (k : A -> M World B) (s0 : World) (t : Tables)
    (Q : B -> World -> Prop) :
  (forall a t' at_, f t at_ = Ok (a, t') -> hoare (on s0 t') (k a) Q (some_on s0)) -> hoare (on s0 t) (bind (on_tables f) k) Q (some_on s0).
Proof.
  intros Hk. eapply hoare_bind; [eapply hoare_conseq; [apply on_tables_hoare|done|done|apply some_on_intro]|].
  intros a s (t' & at_ & E & Hs). by eapply Hk.
Qed.

(** The body of a grant, over the tables [t] it began with. *)
Definition body_of (f : TokenForm) (now : Z) (t : Tables) (o : Response * bool) (commit : bool) (t' : Tables) : Prop :=
  if commit then granted f now t (fst o) (snd o) t' else snd o = false /\ t' = t.

Lemma outcome_hoare (resp : Response) (minted commit : bool) (f : TokenForm) (now : Z) (s0 : World) (t t' : Tables) :
  body_of f now t (resp, minted) commit t' ->
  hoare (on s0 t') (outcome resp minted commit) (fun o s => exists t', on s0 t' s /\ body_of f now t (fst o) (snd o) t') (some_on s0).
Proof. intros Hb. apply hoare_ret. intros s Hs. by exists t'. Qed.

Lemma mint_outcome_hoare (client scope : string) (f : TokenForm) (now : Z) (s0 : World) (t t' : Tables) :
  spends f now t client scope true t' ->
  hoare (on s0 t') (let! resp := mint_pair client scope in outcome resp true true)
    (fun o s => exists t', on s0 t' s /\ body_of f now t (fst o) (snd o) t') (some_on s0).
Proof.
  intros Hsp. eapply hoare_bind; [apply mint_pair_hoare|]. intros resp s (t1 & Hs & Hi).
  eapply (outcome_hoare resp true true f now s0 t t1); [|done]. by exists client, scope, t'.
Qed.

(** A row that could not be claimed leaves the table as it is. *)
Lemma update_none {A : Type} (p : A -> bool) (f : A -> A) (l : list A) : 
  find_first p l = None -> (fun x => if p x then f x else x) <$> l = l.
Proof.
  intros E. rewrite <- (list_fmap_id l) at 2.
  apply list_fmap_ext. intros i x Hx. rewrite find_first_None in E. rewrite (E x); [done|by eapply list_elem_of_lookup_2].
Qed.

Lemma redeem_code_hoare (f : TokenForm) (code verifier : string) (now : Z) (s0 : World) (t : Tables) :
  grant_type f = "authorization_code" -> tf_code f = Some code -> tf_code_verifier f = Some verifier ->
  hoare (on s0 t) (redeem_code f code verifier now) (fun o s => exists t', on s0 t' s /\ body_of f now t (fst o) (snd o) t') (some_on s0).
Proof.
  intros Hg Hc Hv. apply take_hoare. intros [row|] t' at_; unfold update.
  - destruct (find_first _ _) as [row'|] eqn:E; intros [= <- <-].
    pose proof (SpendsCode f now t code verifier row' Hg Hc Hv E) as Hsp. simpl.
    set (b := bool_decide _) in Hsp.
    assert (Hb : b = bool_decide (tf_client_id f = Some (co_client_id row')) &&
      negb match tf_redirect_uri f with Some r => negb (str_eqb r (co_redirect_uri row')) | None => false end &&
      verify_local_bearer (s256 verifier) (co_code_challenge row')).
    { apply bool_eq_iff. unfold b, verify_local_bearer. rewrite bool_decide_eq_true, !andb_true_iff, bool_decide_eq_true, ct_eq_spec.
      split; [intros (? & Hr & ->)|intros [[? Hr] Hs]]; (split_and!; [done| |]).
      - revert Hr. destruct (tf_redirect_uri f) as [r|]; [|done]. rewrite negb_involutive, str_eqb_eq. set_solver.
      - done.
      - revert Hr. destruct (tf_redirect_uri f) as [r|]; [|set_solver]. rewrite negb_involutive, str_eqb_eq. intros ->. set_solver.
      - by apply bytes_inj. }
    rewrite Hb in Hsp. clear Hb b.
    destruct (bool_decide (tf_client_id f = _)); cbn [negb andb] in *; [|apply outcome_hoare; right; by eexists _, _].
    destruct (match tf_redirect_uri f with Some _ => _ | None => _ end); cbn [negb andb] in *; [apply outcome_hoare; right; by eexists _, _|].
    destruct (verify_local_bearer _ _); cbn [negb andb] in *; [by apply mint_outcome_hoare|apply outcome_hoare; right; by eexists _, _].
  - intros [= E <-]. destruct (find_first _ _) eqn:E'; [done|]. apply outcome_hoare. split; [done|].
    unfold set_codes. rewrite (update_none _ _ _ E'). by destruct t.
Qed.

Lemma rotate_hoare (f : TokenForm) (refresh : string) (now : Z) (s0 : World) (t : Tables) :
  grant_type f = "refresh_token" -> tf_refresh_token f = Some refresh ->
  hoare (on s0 t) (rotate f refresh now) (fun o s => exists t', on s0 t' s /\ body_of f now t (fst o) (snd o) t') (some_on s0).
Proof.
  intros Hg Hr. apply take_hoare. intros [row|] t' at_; unfold update.
  - destruct (find_first _ _) as [row'|] eqn:E; intros [= <- <-].
    pose proof (SpendsRefresh f now t refresh row' Hg Hr E) as Hsp. simpl.
    assert (Hb : bool_decide (tf_client_id f ∈ [None; Some (tk_client_id row')]) =
      negb match tf_client_id f with Some cid => negb (str_eqb cid (tk_client_id row')) | None => false end).
    { apply bool_eq_iff. rewrite bool_decide_eq_true. destruct (tf_client_id f) as [cid|]; [|set_solver].
      rewrite negb_involutive, str_eqb_eq. set_solver. }
    rewrite Hb in Hsp. clear Hb.
    destruct (match tf_client_id f with Some _ => _ | None => _ end); cbn [negb] in *;
      [apply outcome_hoare; right; by eexists _, _|by apply mint_outcome_hoare].
  - intros [= E <-]. destruct (find_first _ _) eqn:E'; [done|]. apply outcome_hoare. split; [done|].
    unfold set_tokens. rewrite (update_none _ _ _ E'). by destruct t.
Qed.

Lemma grant_hoare (f : TokenForm) (now : Z) (s0 : World) (t : Tables) :
  hoare (on s0 t) (grant f now) (fun o s => exists t', on s0 t' s /\ granted f now t (fst o) (snd o) t') (on s0 t).
Proof.
  assert (Htx : forall body, hoare (on s0 t) body (fun o s => exists t', on s0 t' s /\ body_of f now t (fst o) (snd o) t') (some_on s0) ->
    hoare (on s0 t) (in_tx body) (fun o s => exists t', on s0 t' s /\ granted f now t (fst o) (snd o) t') (on s0 t)).
  { intros body Hb. eapply hoare_conseq; [by apply (in_tx_hoare _ (body_of f now t))|done| |done].
    intros [resp minted] s (t' & [[Hg Hs]|[[Hg Ht] Hs]]); [by exists t'|]. exists t. split; [done|]. simpl in Hg. subst. by left. }
  assert (Href : forall resp, hoare (on s0 t) (ret (resp, false))
    (fun o s => exists t', on s0 t' s /\ granted f now t (fst o) (snd o) t') (on s0 t)).
  { intros resp. apply hoare_ret. intros s Hs. exists t. split; [done|by left]. }
  unfold grant. destruct (str_eqb (grant_type f) "authorization_code") eqn:E1.
  - apply str_eqb_eq in E1. destruct (tf_code f) as [code|] eqn:Ec, (tf_code_verifier f) as [v|] eqn:Ev; auto. apply Htx. by apply redeem_code_hoare.
  - destruct (str_eqb (grant_type f) "refresh_token") eqn:E2; [|auto].
    apply str_eqb_eq in E2. destruct (tf_refresh_token f) as [r|] eqn:Er; auto. apply Htx. by apply rotate_hoare.
Qed.

(** C16: A grant is atomic. Whatever statement fails, and whatever the request asks, one of these is so. It failed or was refused and
    the tables are as they were. Or the code or refresh token it presented, unused and unexpired until then, is spent for nothing,
    because the client, the redirect URI or the PKCE verifier is not the one the credential was issued for. Or those all match, the
    credential is spent, and one new pair is stored under the hashes of the two tokens that the answer hands out, with the client and
    the scope of the credential. Nothing else of the server's state changes. *)
Theorem grant_exact (f : TokenForm) (now : Z) (s : World) :
  match grant f now s with
  | (Ok (resp, minted), s') => quiet s s' /\ granted f now (tables s) resp minted (tables s')
  | (Err _, s') => quiet s s' /\ tables s' = tables s
  end.
Proof.
  pose proof (grant_hoare f now s (tables s) s (on_refl s)) as Hg. destruct (grant f now s) as [[[resp minted]|e] s']; [|done].
  destruct Hg as (t' & [Hq <-] & Hg). by split.
Qed.

(** ** Accounting *)

Definition open_code (client : string) (c : OauthCode) : bool := negb (co_used c) && str_eqb (co_client_id c) client.
Definition open_token (client : string) (k : OauthToken) : bool := negb (tk_revoked k) && str_eqb (tk_client_id k) client.

(** The codes of a client that can still be exchanged, and its token pairs not revoked. *)
Definition live (client : string) (t : Tables) : nat :=
  (length (retain (open_code client) (codes t)) + length (retain (open_token client) (tokens t)))%nat.

Definition approved (client : string) (l : list string) : nat := length (retain (str_eqb client) l).

Definition registered_in (t : Tables) (client uri : string) : Prop :=
  exists c, c ∈ clients t /\ cl_client_id c = client /\ uri ∈ default [] (strings_from_json (cl_redirect_uris c)).

Record sound_tables (p : gmap string PendingAuthz) (approvals : list string) (t : Tables) : Prop := {
  clients_distinct : NoDup (cl_client_id <$> clients t);
  conserved : forall client, (live client t <= approved client approvals)%nat;
  code_grants : forall c, c ∈ codes t -> co_scope c = GRANTED_SCOPE /\ registered_in t (co_client_id c) (co_redirect_uri c);
  token_grants : forall k, k ∈ tokens t -> tk_scope k = GRANTED_SCOPE;
  pending_registered : forall txn a, p !! txn = Some a -> registered_in t (pa_client_id a) (pa_redirect_uri a);
}.

Definition sound (s : World) : Prop := sound_tables (pending s) (approvals s) (tables s).

Lemma update_count {A : Type} (p q : A -> bool) (f : A -> A) (l : list A) (x : A) :
  (forall y, q (f y) = false) -> find_first p l = Some x ->
  (length (retain q ((fun y => if p y then f y else y) <$> l)) + (if q x then 1 else 0) <= length (retain q l))%nat.
Proof.
  intros Hf. assert (Hle : forall l, (length (retain q ((fun y => if p y then f y else y) <$> l)) <= length (retain q l))%nat).
  { clear l. intros l. induction l as [|a l IH]; [done|]. rewrite fmap_cons, !retain_cons.
    destruct (p a); [rewrite (Hf a)|]; destruct (q a); simpl; lia. }
  induction l as [|a l IH]; [done|]. rewrite fmap_cons, !retain_cons. simpl. destruct (p a) eqn:Ep.
  - intros [= ->]. rewrite (Hf x). specialize (Hle l). destruct (q x); simpl; lia.
  - intros E. specialize (IH E). destruct (q a); simpl; lia.
Qed.

Lemma find_first_claim {A : Type} (p : A -> bool) (l : list A) (x : A) : find_first p l = Some x -> x ∈ l /\ p x = true.
Proof. intros E. by apply find_first_Some in E. Qed.

Lemma spends_live (f : TokenForm) (now : Z) (t t' : Tables) (client scope c : string) (b : bool) :
  spends f now t client scope b t' -> (live c t' + (if str_eqb client c then 1 else 0) <= live c t)%nat.
Proof.
  unfold live. intros [code verifier row _ _ _ E|refresh row _ _ E]; simpl.
  - pose proof (update_count _ (open_code c) use_code _ _ (fun _ => eq_refl) E) as Hu. apply find_first_claim in E as [_ Hc].
    apply andb_true_iff in Hc as [[_ Hc]%andb_true_iff _].
    replace (open_code c row) with (str_eqb (co_client_id row) c) in Hu by (unfold open_code; by rewrite Hc). lia.
  - pose proof (update_count _ (open_token c) revoke _ _ (fun _ => eq_refl) E) as Hu. apply find_first_claim in E as [_ Hc].
    assert (Hc' : negb (tk_revoked row) = true).
    { revert Hc. unfold refresh_claimable. destruct (tk_refresh_hash row), (tk_refresh_expires_at row); try done. by intros [[_ ?]%andb_true_iff _]%andb_true_iff. }
    replace (open_token c row) with (str_eqb (tk_client_id row) c) in Hu by (unfold open_token; by rewrite Hc'). lia.
Qed.

Lemma issues_live (client scope c : string) (t t' : Tables) (resp : Response) :
  issues client scope t resp t' -> live c t' = (live c t + (if str_eqb client c then 1 else 0))%nat.
Proof.
  intros (access & refresh & now & at_ & _ & ->). unfold live. simpl. rewrite retain_app, length_app, retain_cons.
  unfold open_token at 2. simpl. destruct (str_eqb client c); simpl; lia.
Qed.

(** The rows of a table after a statement: each came from a row by a change that keeps its client, its scope and its URI. *)
Lemma spends_rows (f : TokenForm) (now : Z) (t t' : Tables) (client scope : string) (b : bool) :
  spends f now t client scope b t' ->
  clients t' = clients t /\
  (forall c', c' ∈ codes t' -> exists c, c ∈ codes t /\ co_client_id c' = co_client_id c /\ co_redirect_uri c' = co_redirect_uri c /\ co_scope c' = co_scope c) /\
  (forall k', k' ∈ tokens t' -> exists k, k ∈ tokens t /\ tk_scope k' = tk_scope k) /\
  ((exists c, c ∈ codes t /\ scope = co_scope c) \/ (exists k, k ∈ tokens t /\ scope = tk_scope k)).
Proof.
  intros [code verifier row _ _ _ E|refresh row _ _ E]; apply find_first_claim in E as [Hr _]; (split_and!; [done| | |]); simpl; eauto.
  - intros c' (c & -> & Hc)%list_elem_of_fmap. exists c. by destruct (code_claimable _ _ _).
  - intros k' (k & -> & Hk)%list_elem_of_fmap. exists k. by destruct (refresh_claimable _ _ _).
Qed.

Lemma registered_in_mono (t t' : Tables) (client uri : string) :
  (forall c, c ∈ clients t -> c ∈ clients t') -> registered_in t client uri -> registered_in t' client uri.
Proof. intros Hc (c & H1 & H2). exists c. auto. Qed.

Lemma granted_sound (f : TokenForm) (now : Z) (p : gmap string PendingAuthz) (l : list string) (t t' : Tables) (resp : Response) (minted : bool) :
  granted f now t resp minted t' -> sound_tables p l t -> sound_tables p l t'.
Proof.
  assert (Hsp : forall t' client scope b, spends f now t client scope b t' -> sound_tables p l t ->
    sound_tables p l t' /\ scope = GRANTED_SCOPE /\ (forall c, (live c t' + (if str_eqb client c then 1 else 0) <= approved c l)%nat)).
  { intros t1 client scope b Hsp [H1 H2 H3 H4 H5]. pose proof (spends_rows _ _ _ _ _ _ _ Hsp) as (Ec & Hcs & Hts & Hscope).
    assert (Hl : forall c, (live c t1 + (if str_eqb client c then 1 else 0) <= approved c l)%nat).
    { intros c. pose proof (spends_live _ _ _ _ _ _ c _ Hsp). specialize (H2 c). lia. }
    assert (Hreg : forall c u, registered_in t c u -> registered_in t1 c u) by (intros c u; apply registered_in_mono; by rewrite Ec).
    split; [split|split; [|done]].
    - by rewrite Ec.
    - intros c. specialize (Hl c). lia.
    - intros c' (c & Hc & -> & -> & ->)%Hcs. destruct (H3 c Hc). auto.
    - intros k' (k & Hk & ->)%Hts. auto.
    - eauto.
    - destruct Hscope as [(c & Hc & ->)|(k & Hk & ->)]; [by apply H3|auto]. }
  unfold granted. destruct minted.
  - intros (client & scope & t1 & Hs & Hi) Ht. destruct (Hsp _ _ _ _ Hs Ht) as ([H1 H2 H3 H4 H5] & -> & Hl).
    pose proof (fun c => issues_live _ _ c _ _ _ Hi) as Hil. destruct Hi as (a & r & now' & at_ & _ & ->). split; try done.
    + intros c. rewrite Hil. apply Hl.
    + intros k [Hk|Hk%list_elem_of_singleton]%elem_of_app; [by apply H4|by subst k].
  - intros [->|(client & scope & Hs)] Ht; [done|]. by apply (Hsp _ _ _ _ Hs).
Qed.

(** ** Requests *)

Definition env_stable (P : World -> Prop) : Prop := forall c e fs s, P s -> P (set_env c e fs s).

Definition knows (client uri : string) (s : World) : Prop := sound s /\ registered_in (tables s) client uri.

Lemma sound_stable : env_stable sound.
Proof. by intros c e fs s. Qed.

Lemma knows_stable (client uri : string) : env_stable (knows client uri).
Proof. by intros c e fs s. Qed.

Lemma now_unix_stable (P : World -> Prop) : env_stable P -> hoare P now_unix (fun _ => P) P.
Proof. intros HP s Hs. unfold now_unix. destruct (clock s) as [|a [|b l]]; [done|done|by apply HP]. Qed.

Lemma random_token_stable (prefix : string) (P : World -> Prop) : env_stable P -> hoare P (random_token prefix) (fun _ => P) P.
Proof. intros HP s Hs. unfold random_token. destruct (entropy s) as [|b bs]; [done|by apply HP]. Qed.

Lemma sound_on (s0 s : World) (t : Tables) : on s0 t s -> sound_tables (pending s0) (approvals s0) t -> sound s.
Proof. intros [Hq Ht] Hs. unfold sound. destruct (quiet_fields _ _ Hq) as [-> ->]. by rewrite Ht. Qed.

(** A statement from a sound state, by what it does to the tables. *)
Lemma on_tables_sound {A : Type} (f : Tables -> string -> result (A * Tables) LocalError) (P : World -> Prop) (Q : A -> World -> Prop) :
  (forall s, P s -> sound s) ->
  (forall s s' a t' at_, P s -> f (tables s) at_ = Ok (a, t') -> on s t' s' -> Q a s') -> hoare P (on_tables f) Q sound.
Proof.
  intros HP HQ s Hs. pose proof (on_tables_hoare f s (tables s) s (on_refl s)) as Hf. destruct (on_tables f s) as [[a|e] s'].
  - destruct Hf as (t' & at_ & E & Ht). by eapply HQ.
  - apply (sound_on _ _ _ Hf). by apply HP.
Qed.

Lemma on_tables_keeps {A : Type} (f : Tables -> string -> result (A * Tables) LocalError) :
  (forall p l t at_ a t', f t at_ = Ok (a, t') -> sound_tables p l t -> sound_tables p l t') -> keeps sound (on_tables f) (fun _ => True).
Proof. intros Hf. apply on_tables_sound; [done|]. intros s s' a t' at_ Hs E Ho. split; [|done]. apply (sound_on _ _ _ Ho). by eapply Hf. Qed.

Lemma insert_client_sound (client_id json : string) (name : option string) : hoare sound (insert_client client_id name json) (fun _ => sound) sound.
Proof.
  eapply hoare_conseq; [apply on_tables_keeps|done|by intros ?? []|done].
  intros p l t at_ a t'. destruct (any _ _) eqn:Ea; [done|]. intros [= <- <-] [H1 H2 H3 H4 H5].
  assert (Hm : forall c u, registered_in t c u -> registered_in (mkTables (clients t ++ [mkClient (client_seq t + 1) client_id name json at_])
    (codes t) (tokens t) (client_seq t + 1) (code_seq t) (token_seq t)) c u).
  { intros c u. apply registered_in_mono. intros c' Hc'. simpl. apply elem_of_app. by left. }
  split; [|done| |done|by eauto].
  - simpl. rewrite fmap_app. apply NoDup_app. split_and!; [done| |apply NoDup_singleton].
    intros x (c & -> & Hc)%list_elem_of_fmap Hx%list_elem_of_singleton. rewrite any_false in Ea. specialize (Ea c Hc). simpl in Hx.
    rewrite Hx, str_eqb_refl in Ea. done.
  - intros c Hc. destruct (H3 c Hc). auto.
Qed.

Lemma get_client_sound (client_id : string) :
  hoare sound (get_client client_id) (fun o s => sound s /\ forall c, o = Some c -> c ∈ clients (tables s) /\ cl_client_id c = client_id) sound.
Proof.
  apply on_tables_sound; [done|]. intros s s' a t' at_ Hs [= <- <-] Ho. split; [by apply (sound_on _ _ _ Ho)|].
  intros c (Hc & Hid)%find_first_claim. destruct Ho as [_ ->]. split; [done|by apply str_eqb_eq].
Qed.

Lemma pending_insert_sound (txn : string) (p : PendingAuthz) :
  hoare (knows (pa_client_id p) (pa_redirect_uri p)) (pending_insert txn p) (fun _ => sound) sound.
Proof.
  eapply hoare_bind; [eapply hoare_conseq; [apply now_unix_stable, knows_stable|done|done|by intros ? []]|intros now].
  intros s [[H1 H2 H3 H4 H5] Hr]. split; try done. simpl. intros txn' a. rewrite lookup_insert_Some, map_lookup_filter_Some.
  intros [[<- <-]|(_ & Ha & _)]; [done|by eapply H5].
Qed.

Lemma pending_take_sound (txn : string) :
  hoare sound (pending_take txn)
    (fun o s => match o with Some p => knows (pa_client_id p) (pa_redirect_uri p) s | None => sound s end) sound.
Proof.
  eapply (hoare_bind _ _ _ _ (fun o s => match o with Some p => knows (pa_client_id p) (pa_redirect_uri p) s | None => sound s end)).
  - intros s Hs. simpl. assert (Hd : sound (set_pending (delete txn (pending s)) s)).
    { destruct Hs as [H1 H2 H3 H4 H5]. split; try done. intros txn' a. simpl. rewrite lookup_delete_Some. intros [_ Ha]. by eapply H5. }
    destruct (pending s !! txn) eqn:E; [|done]. split; [done|by eapply (pending_registered _ _ _ Hs)].
  - intros [p|]; [|by apply hoare_ret]. eapply hoare_bind; [eapply hoare_conseq; [apply now_unix_stable, knows_stable|done|done|by intros ? []]|].
    intros now. apply hoare_ret. intros s Hs. destruct (fresh now p); [done|apply Hs].
Qed.

Lemma insert_code_sound (hash client uri challenge : string) (expires_at : Z) :
  hoare (knows client uri) (insert_code hash client uri challenge GRANTED_SCOPE expires_at) (fun _ s => sound (approve client s)) sound.
Proof.
  apply on_tables_sound; [by intros s []|]. intros s s' [] t' at_ [[H1 H2 H3 H4 H5] Hr]. destruct (any _ _); [done|]. intros [= <-] [Hq Ht].
  unfold sound, approve. simpl. destruct (quiet_fields _ _ Hq) as [-> ->]. rewrite Ht. split; try done.
  - intros c. specialize (H2 c). unfold live, approved in *. simpl. rewrite !retain_app, !length_app, !retain_cons. unfold open_code at 2. simpl.
    assert (Es : str_eqb c client = str_eqb client c) by (apply bool_eq_iff; rewrite !str_eqb_eq; naive_solver). rewrite Es.
    destruct (str_eqb client c); simpl; lia.
  - intros c [Hc|Hc%list_elem_of_singleton]%elem_of_app; [by apply H3|by subst c].
Qed.

Lemma retain_fewer {A : Type} (p q : A -> bool) (l : list A) : (length (retain q (retain p l)) <= length (retain q l))%nat.
Proof.
  rewrite retain_retain, (retain_ext _ (fun x => q x && p x)) by (intros x _; apply andb_comm).
  rewrite <- retain_retain. apply retain_length.
Qed.

(** Rows may be dropped. *)
Lemma sound_fewer (q : gmap string PendingAuthz) (l : list string) (t : Tables) (p : OauthCode -> bool) (r : OauthToken -> bool) :
  sound_tables q l t -> sound_tables q l (set_tokens (retain r (tokens t)) (set_codes (retain p (codes t)) t)).
Proof.
  intros [H1 H2 H3 H4 H5]. split; try done; simpl.
  - intros c. specialize (H2 c). unfold live in *. simpl. pose proof (retain_fewer p (open_code c) (codes t)).
    pose proof (retain_fewer r (open_token c) (tokens t)). lia.
  - intros c [_ Hc]%elem_of_retain. auto.
  - intros k [_ Hk]%elem_of_retain. auto.
Qed.

Lemma purge_expired_keeps (now : Z) : keeps sound (purge_expired now) (fun _ => True).
Proof.
  eapply keeps_bind; [|intros _ _]; apply on_tables_keeps; intros p l t at_ [] t' [= <-] Hs.
  - pose proof (sound_fewer p l t (fun c => negb ((co_expires_at c <=? now) || co_used c)) (fun _ => true) Hs) as Hf.
    rewrite (retain_all (fun _ => true)) in Hf by done. by destruct t.
  - pose proof (sound_fewer p l t (fun _ => true) (fun k => negb (token_dead now k)) Hs) as Hf.
    rewrite (retain_all (fun _ => true) (codes t)) in Hf by done. by destruct t.
Qed.

Lemma touch_used_keeps (id : Z) : keeps sound (touch_used id) (fun _ => True).
Proof.
  apply on_tables_keeps. intros p l t at_ [] t' [= <-] [H1 H2 H3 H4 H5]. split; try done; simpl.
  - intros c. specialize (H2 c). unfold live in *. simpl. rewrite retain_fmap, length_fmap.
    rewrite (retain_ext _ (open_token c)); [done|]. intros k _. by destruct (tk_id k =? id).
  - intros k' (k & -> & Hk)%list_elem_of_fmap. destruct (tk_id k =? id); apply (H4 k Hk).
Qed.

Lemma keeps_now : keeps sound now_unix (fun _ => True).
Proof. eapply hoare_conseq; [apply now_unix_stable, sound_stable|done|done|done]. Qed.

Lemma keeps_random (prefix : string) : keeps sound (random_token prefix) (fun _ => True).
Proof. eapply hoare_conseq; [apply random_token_stable, sound_stable|done|done|done]. Qed.

(** [hoare] from a handler's last state to its answer. *)
Lemma hoare_answer (resp : Response) : hoare sound (ret resp) (fun _ => sound) sound.
Proof. by apply hoare_ret. Qed.

Lemma register_sound (body : RegisterBody) : hoare sound (register body) (fun _ => sound) sound.
Proof.
  unfold register. destruct (_ || _); [apply hoare_answer|].
  eapply hoare_bind; [apply random_token_stable, sound_stable|intros client_id; simpl].
  eapply hoare_bind; [apply insert_client_sound|intros row; apply hoare_answer].
Qed.

Lemma authorize_sound (q : AuthorizeQuery) : hoare sound (authorize q) (fun _ => sound) sound.
Proof.
  unfold authorize. destruct (non_empty (aq_client_id q)) as [client_id|]; [|apply hoare_answer].
  eapply hoare_bind; [apply get_client_sound|]. intros [client|]; [|apply hoare_ret; by intros s []].
  unfold registered_uri. destruct (non_empty (aq_redirect_uri q)) as [uri|]; [|apply hoare_ret; by intros s []].
  destruct (any _ _) eqn:Ea; [|apply hoare_ret; by intros s []].
  apply any_true in Ea as (u & Hu & ->%str_eqb_eq).
  apply (hoare_conseq _ _ (knows client_id uri) _ sound _ (fun _ => sound)); [|intros s [Hs Hc]; split; [done|]; destruct (Hc _ eq_refl); by exists client|done|done].
  destruct (negb _); [apply hoare_ret; by intros s []|]. destruct (s256_challenge q) as [challenge|]; [|apply hoare_ret; by intros s []].
  eapply hoare_bind; [eapply hoare_conseq; [apply random_token_stable, knows_stable|done|done|by intros s []]|intros txn; simpl].
  eapply hoare_bind; [eapply hoare_conseq; [apply now_unix_stable, knows_stable|done|done|by intros s []]|intros created; simpl].
  eapply hoare_bind; [exact (pending_insert_sound txn (mkPending client_id _ uri challenge _ created))|intros []; apply hoare_answer].
Qed.

Lemma consent_sound (txn action : string) : hoare sound (consent txn action) (fun _ => sound) sound.
Proof.
  eapply hoare_bind; [apply pending_take_sound|]. intros [p|]; [|apply hoare_answer].
  simpl. destruct (negb _); [apply hoare_ret; by intros s []|].
  eapply hoare_bind; [eapply hoare_conseq; [apply random_token_stable, knows_stable|done|done|by intros s []]|intros code; simpl].
  eapply hoare_bind; [eapply hoare_conseq; [apply now_unix_stable, knows_stable|done|done|by intros s []]|intros now; simpl].
  eapply hoare_bind; [apply insert_code_sound|intros []].
  eapply (hoare_bind _ _ _ _ (fun _ => sound)); [by intros s Hs|intros []; apply hoare_answer].
Qed.

Lemma token_sound (f : TokenForm) : hoare sound (token f) (fun _ => sound) sound.
Proof.
  eapply hoare_bind; [apply now_unix_stable, sound_stable|intros now; simpl].
  eapply (hoare_bind _ _ _ _ (fun _ => sound)).
  - intros s Hs. pose proof (grant_hoare f now s (tables s) s (on_refl s)) as Hg. destruct (grant f now s) as [[o|e] s'].
    + destruct Hg as (t' & Ho & Hg). apply (sound_on _ _ _ Ho). by eapply granted_sound.
    + by apply (sound_on _ _ _ Hg).
  - intros [resp []]; [|apply hoare_answer].
    eapply hoare_bind; [eapply (keeps_attempt sound), purge_expired_keeps|intros r]. apply hoare_ret. by intros s [].
Qed.

Lemma handle_sound (r : OAuthRequest) : hoare sound (handle r) (fun _ => sound) sound.
Proof. destruct r; [apply register_sound|apply authorize_sound|apply consent_sound|apply token_sound]. Qed.
End frames.
