(* ===== verification/AuthAudit.v ===== *)
(** * What the local API's authorization guarantees

    Who passes the middleware; and, over every history of OAuth requests, API calls, restarts and faults, the accounting of
    consents and what a consented client can reach. *)

From Stdlib Require Import Ascii String.
From S2P Require Import Prelude Ints Str Json Store LocalAuth CredStore OAuth ServerAuth OAuthAudit.
Open Scope string_scope.
Open Scope list_scope.
Open Scope Z_scope.

Section audit.
Context `{AuthLibs}.

(** ** Who passes *)

(** The workflow the request runs, if it runs one, has its REST surface on. *)
Definition rest_open (r : Request) (s : World) : Prop :=
  forall id config, rest_run_workflow_id (r_method r) (r_path r) = Some id -> streaming_configs s !! id = Some config ->
    rest (connect_surfaces config) = true.

(** A scoped caller that may make the request. *)
Definition may_call (r : Request) (s : World) (scopes : string) : Prop :=
  scope_grants scopes (required_scope (r_method r) (r_path r)) = true /\ rest_open r s.

Definition presents (srv : Server) (r : Request) (tok : string) : Prop :=
  account_mismatch srv r = None /\ r_authorization r ≫= parse_bearer = Some tok.

(** The grounds on which a request passes, and the caller it becomes. *)
Inductive grounds (srv : Server) (r : Request) (s : World) : Caller -> Prop :=
| Exempt : is_hook (r_path r) = true \/ is_oauth (r_path r) = true -> grounds srv r s FullAccess
| McpOff : r_path r = "/mcp" -> network_exposed (cfg srv) = false -> w_config s !! MCP_AUTH_DISABLED_KEY = Some "true" -> grounds srv r s FullAccess
| Runtime tok : presents srv r tok -> tok = current (seed srv) s -> grounds srv r s FullAccess
| Access tok k :
    presents srv r tok -> starts_with tok "wlo_" = true -> k ∈ tokens (tables s) -> tk_access_hash k = sha256_hex tok -> tk_revoked k = false ->
    db_now s < tk_access_expires_at k -> may_call r s (tk_scope k) -> grounds srv r s (Scoped (tk_scope k))
| ApiKey tok k :
    presents srv r tok -> starts_with tok "wlo_" = false -> k ∈ api_keys s -> k_key_hash k = sha256_hex tok -> k_enabled k = true -> k_revoked_at k = None ->
    may_call r s (k_scopes k) -> grounds srv r s (Scoped (k_scopes k)).

(** A state in which only the credentials' stamps, the clock and the faults may differ. *)
Definition like (s0 s : World) : Prop :=
  streaming_configs s = streaming_configs s0 /\ tables s = tables s0 /\ api_keys s = api_keys s0 /\ clock s = clock s0 /\ overlay s = overlay s0 /\
  w_config s = w_config s0.

Lemma statement_like {A : Type} (f : World -> A) (s0 : World) (E : World -> Prop) :
  (forall s, E s) -> hoare (like s0) (statement (fun s => (f s, s))) (fun a s => like s0 s /\ exists s', like s0 s' /\ a = f s') E.
Proof. intros HE. apply hoare_faulted; [done|by intros|]. intros s Hs. split; [done|by exists s]. Qed.

Lemma scoped_grounds (r : Request) (scopes : string) (stamp : M World unit) (s0 : World) :
  hoare (fun s => streaming_configs s = streaming_configs s0) (scoped r scopes stamp)
    (fun d _ => d = Pass (Scoped scopes) /\ may_call r s0 scopes) (fun _ => True).
Proof.
  unfold scoped. destruct (scope_grants _ _) eqn:Eg; [|by apply hoare_throw]. simpl.
  eapply (hoare_bind _ _ _ _ (fun b _ => b = false -> rest_open r s0)).
  - unfold rest_blocked, rest_open. destruct (rest_run_workflow_id _ _) as [id|]; [|by apply hoare_ret].
    eapply (hoare_bind _ _ _ _ (fun wf _ => wf = streaming_configs s0 !! id)); [by apply hoare_faulted; [| |intros s <-]|].
    intros wf. apply hoare_ret. intros _ -> Hb id' config [= <-] E. rewrite E in Hb. by apply negb_false_iff in Hb.
  - intros [|]; [by apply hoare_throw|]. intros s Hr. specialize (Hr eq_refl). unfold attempt, bind. by destruct (stamp s).
Qed.

Lemma unauthorized_grounds (srv : Server) (r : Request) (P : World -> Prop) (Q : Decision -> World -> Prop) :
  (forall u s, r_path r = "/mcp" -> Q (McpUnauthorized u) s) -> hoare P (unauthorized srv r) Q (fun _ => True).
Proof. intros HQ. unfold unauthorized. destruct (str_eqb _ _) eqn:E; [|by apply hoare_throw]. apply str_eqb_eq in E. apply hoare_ret. auto. Qed.

Definition decided (srv : Server) (r : Request) (s0 : World) (d : Decision) : Prop :=
  match d with Pass c => grounds srv r s0 c | McpUnauthorized _ => r_path r = "/mcp" end.

(** The two lookups of a credential, which read the rows as they were. *)
Definition rows_of (s0 s : World) : Prop := tables s = tables s0 /\ api_keys s = api_keys s0 /\ streaming_configs s = streaming_configs s0.

Lemma now_unix_reads (s0 : World) : hoare (like s0) now_unix (fun now s => now = db_now s0 /\ rows_of s0 s) (fun _ => True).
Proof.
  intros s (Hs & Ht & Hk & Hc & _). unfold now_unix, db_now. rewrite <- Hc. destruct (clock s) as [|a [|b l]]; (split; [done|split_and!; done]).
Qed.

Lemma access_lookup (hash : string) (now : Z) (s0 : World) :
  hoare (rows_of s0) (get_active_by_access_hash hash now)
    (fun o s => o = find_first (token_live hash now) (tokens (tables s0)) /\ streaming_configs s = streaming_configs s0) (fun _ => True).
Proof.
  eapply (hoare_bind _ _ _ _ (fun r s => (forall a, r = Ok a -> a = find_first (token_live hash now) (tokens (tables s0))) /\
    streaming_configs s = streaming_configs s0)).
  - apply hoare_faulted; [done|done|]. intros s (Ht & _ & Hs). simpl. split; [by intros a [= <-]; rewrite Ht|done].
  - intros [a|e]; [|by apply hoare_throw]. apply hoare_ret. intros s [Ha Hs]. auto.
Qed.

Lemma key_lookup (hash : string) (s0 : World) :
  hoare (rows_of s0) (get_active_by_hash hash)
    (fun o s => o = find_first (key_active hash) (api_keys s0) /\ streaming_configs s = streaming_configs s0) (fun _ => True).
Proof.
  eapply (hoare_bind _ _ _ _ (fun r s => (forall a, r = Ok a -> a = find_first (key_active hash) (api_keys s0)) /\
    streaming_configs s = streaming_configs s0)).
  - apply hoare_faulted; [done|done|]. intros s (_ & Hk & Hs). simpl. split; [by intros a [= <-]; rewrite Hk|done].
  - intros [a|e]; [|by apply hoare_throw]. apply hoare_ret. intros s [Ha Hs]. auto.
Qed.

Lemma bearer_grounds (srv : Server) (r : Request) (tok : string) (s0 : World) :
  presents srv r tok -> hoare (like s0) (bearer srv r tok) (fun d _ => decided srv r s0 d) (fun _ => True).
Proof.
  intros Hp s Hs. unfold bearer. destruct (verify tok (seed srv) s) eqn:Ev.
  { apply (Runtime _ _ _ tok Hp). unfold verify, verify_local_bearer in Ev. apply ct_eq_spec, bytes_inj in Ev. rewrite Ev.
    unfold current. by destruct Hs as (_ & _ & _ & _ & -> & _). }
  assert (Hu : forall P, hoare P (unauthorized srv r) (fun d _ => decided srv r s0 d) (fun _ => True)) by (intros P; apply unauthorized_grounds; by intros u s' Hm).
  destruct (starts_with tok "wlo_") eqn:Ew.
  - revert s Hs Ev. refine (fun s Hs _ => _ s Hs).
    eapply hoare_bind; [apply now_unix_reads|intros now]. intros s1 [-> H1]. revert s1 H1.
    eapply hoare_bind; [apply access_lookup|]. intros [k|]; [|apply Hu].
    intros s2 [E Hc]. symmetry in E. apply find_first_claim in E as [Hk Hl]. pose proof (scoped_grounds r (tk_scope k) (touch_used (tk_id k)) s0 s2 Hc) as Hd.
    destruct (scoped _ _ _ _) as [[d|err] s3]; [|done]. destruct Hd as [-> Hm].
    apply andb_true_iff in Hl as [[Hh%str_eqb_eq Hr%negb_true_iff]%andb_true_iff Hx%Z.ltb_lt]. by eapply Access.
  - revert s Hs Ev. refine (fun s Hs _ => _ s (conj (proj1 (proj2 Hs)) (conj (proj1 (proj2 (proj2 Hs))) (proj1 Hs)))).
    eapply hoare_bind; [apply key_lookup|]. intros [k|]; [|apply Hu].
    intros s2 [E Hc]. symmetry in E. apply find_first_claim in E as [Hk Hl]. pose proof (scoped_grounds r (k_scopes k) (key_touch_used (k_id k)) s0 s2 Hc) as Hd.
    destruct (scoped _ _ _ _) as [[d|err] s3]; [|done]. destruct Hd as [-> Hm].
    unfold key_active in Hl. apply andb_true_iff in Hl as [[Hh%str_eqb_eq He]%andb_true_iff Hr]. destruct (k_revoked_at k) eqn:Er; [done|]. by eapply ApiKey.
Qed.

Lemma auth_mw_grounds (srv : Server) (r : Request) (s0 : World) :
  hoare (like s0) (auth_mw srv r)
    (fun d _ => host_ok srv (r_origin r) = true /\ host_ok srv (r_host r) = true /\ decided srv r s0 d) (fun _ => True).
Proof.
  unfold auth_mw. destruct (host_ok srv (r_origin r)); [|by apply hoare_throw]. destruct (host_ok srv (r_host r)); [|by apply hoare_throw]. simpl.
  assert (Hsplit : forall P c, hoare P c (fun d (_ : World) => decided srv r s0 d) (fun _ => True) ->
    hoare P c (fun d _ => true = true /\ true = true /\ decided srv r s0 d) (fun _ => True)).
  { intros P c Hc. eapply hoare_conseq; [exact Hc|done|done|done]. }
  apply Hsplit. destruct (is_hook (r_path r)) eqn:Eh; [apply hoare_ret; intros _ _; apply Exempt; by left|].
  destruct (is_oauth (r_path r)) eqn:Eo; [apply hoare_ret; intros _ _; apply Exempt; by right|].
  eapply (hoare_bind _ _ _ _ (fun off s => like s0 s /\ (off = true -> r_path r = "/mcp" /\ network_exposed (cfg srv) = false /\
    w_config s0 !! MCP_AUTH_DISABLED_KEY = Some "true"))).
  - unfold mcp_auth_off. destruct (str_eqb (r_path r) "/mcp") eqn:Ep, (network_exposed (cfg srv)) eqn:Ex; try (apply hoare_ret; by intros s).
    simpl. apply str_eqb_eq in Ep. eapply hoare_bind; [by apply (statement_like (fun s => w_config s !! MCP_AUTH_DISABLED_KEY))|].
    intros v. apply hoare_ret. intros s (Hs & s' & Hs' & ->). split; [done|]. rewrite bool_decide_eq_true.
    destruct Hs' as (_ & _ & _ & _ & _ & ->). auto.
  - intros [|]; [apply hoare_ret; intros s [_ Hoff]; destruct (Hoff eq_refl) as (? & ? & ?); by apply McpOff|].
    destruct (account_mismatch srv r) eqn:Ea; [by apply hoare_throw|].
    destruct (r_authorization r ≫= parse_bearer) as [tok|] eqn:Eb; [|apply unauthorized_grounds; by intros u s Hm].
    eapply hoare_conseq; [by apply (bearer_grounds srv r tok s0)|by intros s []|done|done].
Qed.

(** C15: A request that passes the middleware came under an allowed origin and an allowed host, and on one of these grounds: its path
    is a webhook's or the OAuth server's; it is for the MCP endpoint, the user turned that one's authorization off, and the server is
    not exposed to the network; it presents the runtime token that is current; it presents an access token that is on record, not
    revoked and not expired, or an API key that is on record, enabled and not revoked, and then the credential's scope covers what the
    method and the path require and the workflow the request runs, if it runs one, has its REST surface on. Each of the grounds with
    a credential also requires that the request is not bound to another account. The caller it passes as has the scope of its
    ground, whatever statement fails on the way. *)
Theorem auth_mw_sound (srv : Server) (r : Request) (s : World) :
  match fst (auth_mw srv r s) with
  | Ok (Pass c) => host_ok srv (r_origin r) = true /\ host_ok srv (r_host r) = true /\ grounds srv r s c
  | Ok (McpUnauthorized _) => r_path r = "/mcp"
  | Err _ => True
  end.
Proof.
  pose proof (auth_mw_grounds srv r s s) as Hg. destruct (auth_mw srv r s) as [[[c|u]|e] s']; simpl; [by apply Hg|by apply Hg|done].
Qed.

(** ** Every request keeps the books *)

Lemma keeps_plain {A : Type} (e : LocalError) (f : World -> A * World) :
  (forall s, pending (snd (f s)) = pending s /\ approvals (snd (f s)) = approvals s /\ tables (snd (f s)) = tables s) ->
  keeps sound (faulted e f) (fun _ => True).
Proof.
  intros Hf. apply keeps_faulted; [by intros s fs|]. intros s Hs. split; [|done]. unfold sound. by destruct (Hf s) as (-> & -> & ->).
Qed.

Lemma on_keys_keeps {A : Type} (f : list LocalApiKey -> Z -> string -> result (A * list LocalApiKey * Z) LocalError) :
  keeps sound (on_keys f) (fun _ => True).
Proof.
  eapply keeps_bind; [|intros [a|e] _; [by apply keeps_ret|by apply keeps_throw]].
  apply keeps_plain. intros s. by destruct (f _ _ _) as [[[a l] seq]|e].
Qed.

Lemma on_key_keeps (id : Z) (f : string -> LocalApiKey -> LocalApiKey) : keeps sound (on_key id f) (fun _ => True).
Proof. apply on_keys_keeps. Qed.

Lemma scoped_keeps (r : Request) (scopes : string) (stamp : M World unit) :
  keeps sound stamp (fun _ => True) -> keeps sound (scoped r scopes stamp) (fun _ => True).
Proof.
  intros Hstamp. unfold scoped. destruct (negb _); [apply keeps_throw|]. eapply (keeps_bind _ _ _ (fun _ => True)).
  - unfold rest_blocked. destruct (rest_run_workflow_id _ _); [|by apply keeps_ret].
    eapply (keeps_bind _ _ _ (fun _ => True)); [by apply keeps_plain|intros wf _; by apply keeps_ret].
  - intros [|] _; [apply keeps_throw|]. eapply keeps_bind; [by apply keeps_attempt|intros o _; by apply keeps_ret].
Qed.

Lemma bearer_keeps (srv : Server) (r : Request) (tok : string) : keeps sound (bearer srv r tok) (fun _ => True).
Proof.
  assert (Hu : keeps sound (unauthorized srv r) (fun _ => True)).
  { unfold unauthorized. destruct (str_eqb _ _); [by apply keeps_ret|apply keeps_throw]. }
  intros s. unfold bearer. destruct (verify _ _ _); [done|]. destruct (starts_with _ _); revert s.
  - eapply keeps_bind; [apply keeps_now|intros now _]. eapply (keeps_bind _ _ _ (fun _ => True)).
    + apply on_tables_keeps. by intros p l t at_ a t' [= _ <-].
    + intros [k|] _; [apply scoped_keeps, touch_used_keeps|done].
  - eapply (keeps_bind _ _ _ (fun _ => True)); [apply on_keys_keeps|]. intros [k|] _; [apply scoped_keeps|done].
    eapply keeps_bind; [apply on_key_keeps|intros o _; by apply keeps_ret].
Qed.

Lemma auth_mw_keeps (srv : Server) (r : Request) : keeps sound (auth_mw srv r) (fun _ => True).
Proof.
  unfold auth_mw. destruct (negb _); [apply keeps_throw|]. destruct (negb _); [apply keeps_throw|].
  destruct (is_hook _); [by apply keeps_ret|]. destruct (is_oauth _); [by apply keeps_ret|]. eapply (keeps_bind _ _ _ (fun _ => True)).
  - unfold mcp_auth_off. destruct (_ && _); [|by apply keeps_ret].
    eapply (keeps_bind _ _ _ (fun _ => True)); [by apply keeps_plain|intros v _; by apply keeps_ret].
  - intros [|] _; [by apply keeps_ret|]. destruct (account_mismatch _ _); [apply keeps_throw|].
    destruct (_ ≫= parse_bearer); [apply bearer_keeps|]. unfold unauthorized. destruct (str_eqb _ _); [by apply keeps_ret|apply keeps_throw].
Qed.

Lemma map_err_keeps {A : Type} (e : LocalError) (c : M World A) : keeps sound c (fun _ => True) -> keeps sound (map_err_M e c) (fun _ => True).
Proof. intros Hc s Hs. specialize (Hc s Hs). unfold map_err_M. by destruct (c s) as [[a|e'] s']. Qed.

Lemma rotate_runtime_keeps (sd : string) : keeps sound (rotate_runtime sd) (fun _ => True).
Proof.
  eapply keeps_bind; [apply map_err_keeps|intros new _].
  - eapply keeps_bind; [apply keeps_random|intros tok _]. eapply (keeps_bind _ _ _ (fun _ => True)); [by apply keeps_plain|intros [] _; by apply keeps_ret].
  - eapply (keeps_bind _ _ _ (fun _ => True)); [apply map_err_keeps; by apply keeps_plain|intros [] _].
    eapply (keeps_bind _ _ _ (fun _ => True)); [by intros s Hs|intros [] _; by apply keeps_ret].
Qed.

Lemma create_key_keeps (name : string) (scopes : option string) : keeps sound (create_key name scopes) (fun _ => True).
Proof.
  unfold create_key. destruct (is_empty _); [apply keeps_throw|]. eapply keeps_bind; [apply keeps_random|intros body _].
  eapply (keeps_bind _ _ _ (fun _ => True)); [apply on_keys_keeps|intros row _; by apply keeps_ret].
Qed.

Lemma remove_key_keeps (id : Z) : keeps sound (remove_key id) (fun _ => True).
Proof.
  eapply (keeps_bind _ _ _ (fun _ => True)); [apply on_keys_keeps|intros [] _; [by apply keeps_ret|apply keeps_throw]].
Qed.

Lemma mcp_auth_set_keeps (srv : Server) (required : bool) : keeps sound (mcp_auth_set srv required) (fun _ => True).
Proof. eapply (keeps_bind _ _ _ (fun _ => True)); [by apply keeps_plain|intros [] _; by apply keeps_ret]. Qed.

(** ** Histories *)

(** What can happen to a server: a request, whatever its outcome; a restart, which loses what is only in memory; and a change of the
    surroundings, which are the clock, the draws and the faults to come. *)
Inductive step : World -> World -> Prop :=
| OAuthStep r s : step s (snd (handle r s))
| AuthStep srv r s : step s (snd (auth_mw srv r s))
| CreateKeyStep name scopes s : step s (snd (create_key name scopes s))
| RemoveKeyStep id s : step s (snd (remove_key id s))
| McpStep srv required s : step s (snd (mcp_auth_set srv required s))
| RotateStep sd s : step s (snd (rotate_runtime sd s))
| RestartStep s : step s (set_overlay ∅ (set_pending ∅ s))
| SurroundingsStep c e fs s : step s (set_env c e fs s).

(** A server on which no one has registered yet. *)
Definition fresh_server (s : World) : Prop :=
  clients (tables s) = [] /\ codes (tables s) = [] /\ tokens (tables s) = [] /\ pending s = ∅.

Lemma fresh_sound (s : World) : fresh_server s -> sound s.
Proof.
  intros (E1 & E2 & E3 & E4). split; rewrite ?E1, ?E2, ?E3, ?E4.
  - constructor.
  - intros c. unfold live. rewrite E2, E3. apply Nat.le_0_l.
  - by intros c Hc%elem_of_nil.
  - by intros k Hk%elem_of_nil.
  - intros txn a. by rewrite lookup_empty.
Qed.

Lemma step_sound (s s' : World) : step s s' -> sound s -> sound s'.
Proof.
  assert (Hk : forall {A} (c : M World A) s, keeps sound c (fun _ => True) -> sound s -> sound (snd (c s))) by (intros A c s1; apply keeps_state).
  intros [r s1|srv r s1|name scopes s1|id s1|srv req s1|sd s1|s1|c e fs s1] Hs.
  - pose proof (handle_sound r s1 Hs) as Hh. by destruct (handle r s1) as [[a|e] s2].
  - apply Hk; [apply auth_mw_keeps|done].
  - apply Hk; [apply create_key_keeps|done].
  - apply Hk; [apply remove_key_keeps|done].
  - apply Hk; [apply mcp_auth_set_keeps|done].
  - apply Hk; [apply rotate_runtime_keeps|done].
  - destruct Hs as [H1 H2 H3 H4 H5]. by split.
  - done.
Qed.

Lemma history_sound (s0 s : World) : fresh_server s0 -> rtc step s0 s -> sound s.
Proof. intros Hf%fresh_sound Hr. induction Hr as [|s1 s2 s3 Hs _ IH]; [done|]. apply IH. by eapply step_sound. Qed.

Lemma live_approved (s : World) (k : OauthToken) : sound s -> k ∈ tokens (tables s) -> tk_revoked k = false -> tk_client_id k ∈ approvals s.
Proof.
  intros Hs Hk Hr. pose proof (conserved _ _ _ Hs (tk_client_id k)) as Hc.
  assert (Hl : k ∈ retain (open_token (tk_client_id k)) (tokens (tables s))).
  { apply elem_of_retain. unfold open_token. by rewrite Hr, str_eqb_refl. }
  unfold live, approved in Hc. destruct (retain (open_token _) _) as [|k' l]; [by apply elem_of_nil in Hl|]. simpl in Hc.
  destruct (retain (str_eqb (tk_client_id k)) (approvals s)) as [|c l'] eqn:E; [simpl in Hc; lia|].
  assert (Hin : c ∈ retain (str_eqb (tk_client_id k)) (approvals s)) by (rewrite E; left). apply elem_of_retain in Hin as [->%str_eqb_eq Hin]. done.
Qed.

(** C14: Over every history of a server on which no one had registered, of requests of any kind and outcome, faults and crashes of
    any statement, restarts and time passing, what clients hold is bounded by what was consented to: for each client, the codes it can still
    exchange and its token pairs not revoked are together no more than the consents turned into a code for that client. So every token
    not revoked is of a client that was approved. All tokens and codes have the scope [run] and no other; client ids are distinct; and every code, like
    every consent in flight, is for a redirect URI its client registered. *)
Theorem grants_conserved (s0 s : World) (Hfresh : fresh_server s0) (Hrun : rtc step s0 s) :
  sound s /\
  (forall client, (live client (tables s) <= approved client (approvals s))%nat) /\
  (forall k, k ∈ tokens (tables s) -> tk_scope k = "run" /\ (tk_revoked k = false -> tk_client_id k ∈ approvals s)) /\
  (forall c, c ∈ codes (tables s) -> registered_in (tables s) (co_client_id c) (co_redirect_uri c)).
Proof.
  pose proof (history_sound s0 s Hfresh Hrun) as Hs. split_and!; [done|apply Hs| |].
  - intros k Hk. split; [by apply Hs|]. by apply live_approved.
  - intros c Hc. by apply Hs.
Qed.

Lemma run_reach (needed : Scope) : scope_grants "run" needed = true -> needed = Read \/ needed = Run.
Proof. destruct needed; vm_compute; auto; done. Qed.

Lemma oauth_pass (s0 s : World) (srv : Server) (r : Request) (tok scopes : string) :
  fresh_server s0 -> rtc step s0 s -> r_authorization r ≫= parse_bearer = Some tok -> starts_with tok "wlo_" = true ->
  fst (auth_mw srv r s) = Ok (Pass (Scoped scopes)) ->
  scopes = "run" /\ (required_scope (r_method r) (r_path r) = Read \/ required_scope (r_method r) (r_path r) = Run) /\
  exists k, k ∈ tokens (tables s) /\ tk_access_hash k = sha256_hex tok /\ tk_client_id k ∈ approvals s.
Proof.
  intros Hfresh Hrun Htok Hwlo Hpass.
  pose proof (history_sound s0 s Hfresh Hrun) as Hs. pose proof (auth_mw_grounds srv r s s) as Hg.
  destruct (auth_mw srv r s) as [[d|e] s']; simplify_eq/=. destruct Hg as (_ & _ & Hg); [done|]. inversion Hg; subst.
  - match goal with H : presents _ _ _ |- _ => destruct H as [_ Ht] end. rewrite Htok in Ht. injection Ht as <-.
    assert (Hsc : tk_scope k = "run") by (by apply Hs). match goal with H : may_call _ _ _ |- _ => destruct H as [Hm _] end. rewrite Hsc in Hm.
    split_and!; [done|by apply run_reach|]. exists k. split_and!; [done|done|by apply live_approved].
  - match goal with H : presents _ _ _ |- _ => destruct H as [_ Ht] end. congruence.
Qed.

(** C27: After every such history, a request that passes with an access token of the OAuth server passes as a caller with the scope
    [run], and only to read or to run: never to a route that manages devices or administers the server. The token is on record for a
    client that a consent was given to. *)
Theorem oauth_callers_consented (s0 s : World) (srv : Server) (r : Request) (tok scopes : string) (Hfresh : fresh_server s0)
    (Hrun : rtc step s0 s) (Htok : r_authorization r ≫= parse_bearer = Some tok) (Hwlo : starts_with tok "wlo_" = true)
    (Hpass : fst (auth_mw srv r s) = Ok (Pass (Scoped scopes))) :
  scopes = "run" /\ (required_scope (r_method r) (r_path r) = Read \/ required_scope (r_method r) (r_path r) = Run) /\
  exists k, k ∈ tokens (tables s) /\ tk_access_hash k = sha256_hex tok /\ tk_client_id k ∈ approvals s.
Proof. by apply (oauth_pass s0 s srv r tok). Qed.
End audit.

(** ** Concrete servers *)

(** Simple libraries: a hash that keeps its input, a list of texts joined by commas. *)
#[local] Instance plain_libs : AuthLibs := {
  sha256 s := byte_val <$> bytes s;
  b64url l := of_bytes (chr <$> l);
  strings_to_json := join ",";
  strings_from_json s := Some (split "," s);
  json_from_str _ := None;
  header_value _ := true;
  strftime := Z_to_string;
}.

Definition empty_server : World :=
  mkWorld (mkTables [] [] [] 0 0 0) [] 0 {[1 := None]} ∅ ∅ None None ∅ [1000] ((fun c => [byte_val c]) <$> ["a"; "b"; "c"; "d"; "e"; "f"]%char) [] [].

Definition exposed : Server := mkServer (mkConfig 8787 0 true) "wlt_s" (Some "192.168.1.5") None.

(** A client that no one attends to: it follows its own consent page. Each of its requests is let in without a credential. *)
Definition open_request (m path : string) : Request := mkRequest m path None (Some "192.168.1.5:8787") None None.

Definition let_in (m path : string) (o : OAuthRequest) : M World Response :=
  auth_mw exposed (open_request m path) ;! handle o.

Definition field (key : string) (resp : Response) : string :=
  match resp with JsonResponse _ _ body => default "" (get body key ≫= json_as_str) | _ => "" end.

Definition app_uri : string := "app://cb".

Definition txn_of (resp : Response) : string := match resp with ConsentPage _ txn => txn | _ => "" end.
Definition code_of (resp : Response) : string :=
  match resp with RedirectTo l => default "" (strip_prefix (String.append app_uri "?code=") l) | _ => "" end.

Definition sign_up : M World string :=
  let! reg := let_in "POST" "/oauth/register" (Register (mkRegister [app_uri] None)) in
  ret (field "client_id" reg).

Definition get_code (client : string) : M World string :=
  let! page := let_in "GET" "/oauth/authorize"
    (Authorize (mkAuthorize (Some "code") (Some client) (Some app_uri) (Some (s256 "v")) (Some "S256") None)) in
  let! redirect := let_in "POST" "/oauth/consent" (Consent (txn_of page) "approve") in
  ret (code_of redirect).

Definition redeem (client code : string) : M World string :=
  let! resp := let_in "POST" "/oauth/token" (Token (mkTokenForm "authorization_code" (Some code) (Some app_uri) (Some client) (Some "v") None)) in
  ret (field "access_token" resp).

Definition unattended : M World string :=
  let! client := sign_up in
  let! code := get_code client in
  redeem client code.

Definition run_request (tok : string) : Request :=
  mkRequest "POST" "/v1/workflows/1/run" None (Some "192.168.1.5:8787") (Some (String.append "Bearer " tok)) None.

(** Where a server is exposed to the network, a peer needs no user. Its requests to the OAuth routes pass without a credential, the
    page that asks for the consent carries the transaction's id to whoever fetched it, and the answer to the consent carries the
    code; so four requests of the peer end with a token, and with that one it runs a workflow. *)
Theorem lan_grant_without_consent :
  fst ((let! tok := unattended in auth_mw exposed (run_request tok)) empty_server) = Ok (Pass (Scoped "run")).
Proof. by vm_compute. Qed.

(** The same requests as a history. *)
Definition consented : list OAuthRequest :=
  [Register (mkRegister [app_uri] None);
   Authorize (mkAuthorize (Some "code") (Some "wcl_a") (Some app_uri) (Some (s256 "v")) (Some "S256") None);
   Consent "txn_b" "approve";
   Token (mkTokenForm "authorization_code" (Some "wac_c") (Some app_uri) (Some "wcl_a") (Some "v") None)].

Definition after (l : list OAuthRequest) (s : World) : World := foldl (fun s r => snd (handle r s)) s l.

Lemma after_history (l : list OAuthRequest) (s : World) : rtc step s (after l s).
Proof. revert s. induction l as [|r l IH]; intros s; [done|]. eapply rtc_l; [apply OAuthStep|apply IH]. Qed.

Lemma empty_server_fresh : fresh_server empty_server.
Proof. done. Qed.

Lemma grants_conserved_witness :
  sound (after consented empty_server) /\ live "wcl_a" (tables (after consented empty_server)) = 1%nat /\
  approvals (after consented empty_server) = ["wcl_a"].
Proof.
  split; [|split; vm_compute; reflexivity].
  apply (grants_conserved empty_server (after consented empty_server) empty_server_fresh (after_history consented empty_server)).
Defined.

Lemma oauth_callers_consented_witness :
  required_scope "POST" "/v1/workflows/1/run" = Read \/ required_scope "POST" "/v1/workflows/1/run" = Run.
Proof.
  assert (Hp : fst (auth_mw exposed (run_request "wlo_d") (after consented empty_server)) = Ok (Pass (Scoped "run"))) by (vm_compute; reflexivity).
  refine (proj1 (proj2 (oauth_callers_consented empty_server (after consented empty_server) exposed (run_request "wlo_d") "wlo_d" "run"
    empty_server_fresh (after_history consented empty_server) _ _ Hp))); vm_compute; reflexivity.
Defined.

(** Where the second of the two files that publish a rotated token cannot be written, the first has the new token already and the
    server still takes only the old one. *)
Theorem rotation_half_published :
  let s := set_env [1000] [[97]] [false; true] empty_server in
  let '(r, s') := rotate_runtime "wlt_s" s in
  r = Err (Internal "could not republish runtime.json for the rotated token") /\ local_token s' = Some "wlt_a" /\
  verify "wlt_a" "wlt_s" s' = false /\ verify "wlt_s" "wlt_s" s' = true.
Proof. by vm_compute. Qed.
