(* ===== verification/Hooks.v ===== *)
(** * local/api/v1/hooks.rs, local/store/webhook_triggers.rs: inbound webhooks

    The one route that carries no bearer. The table of triggers beside the tables of automations; the column
    [automations.webhook_trigger_id], which nothing here writes, is the map [bound_to]. A statement can fail; the flow a trigger is bound to runs as in
    FlowRun and the bare workflow on the same engine. HMAC-SHA256 and the decoder of a body are an interface. *)

From Stdlib Require Import Ascii String.
From S2P Require Import Prelude Ints Str Json FlowExpr Store Flow FlowRun Dispatch VaultRoot.
From S2P Require LocalAuth UpdateManifest VaultRotate.
Open Scope string_scope.
Open Scope list_scope.
Open Scope Z_scope.

(** ** Data *)

Record WebhookTrigger : Type := mkWebhook {
  wt_id : Z;
  wt_token : string;
  wt_name : string;
  wt_enabled : Z;
  wt_secret_encrypted : option string;
  wt_workflow_id : option Z;
  wt_target_id : option Z;
  wt_action : string;
  wt_payload_mapping : option string;
  wt_conditions : option string;
  wt_wait_for_result : Z;
  wt_wait_timeout : Z;
  wt_custom_path : option string;
  wt_function_name : option string;
  wt_last_triggered_at : option string;
  wt_trigger_count : option Z;
  wt_created_at : string;
  wt_updated_at : option string;
}.

Record NewWebhookTrigger : Type := mkNewWebhook {
  nw_token : string;
  nw_name : string;
  nw_enabled : option Z;
  nw_secret_encrypted : option string;
  nw_workflow_id : option Z;
  nw_target_id : option Z;
  nw_action : option string;
  nw_payload_mapping : option string;
  nw_conditions : option string;
  nw_wait_for_result : option Z;
  nw_wait_timeout : option Z;
  nw_custom_path : option string;
  nw_function_name : option string;
}.

Record WebhookTriggerPatch : Type := mkWebhookPatch {
  wp_name : option string;
  wp_enabled : option Z;
  wp_secret_encrypted : option string;
  wp_workflow_id : option Z;
  wp_target_id : option Z;
  wp_action : option string;
  wp_payload_mapping : option string;
  wp_conditions : option string;
  wp_wait_for_result : option Z;
  wp_wait_timeout : option Z;
  wp_custom_path : option string;
  wp_function_name : option string;
}.

(** The table, its AUTOINCREMENT counter, the rows its foreign keys refer to, and the rest of the daemon. *)
Record Hooks (W : Type) : Type := mkHooks {
  triggers : gmap Z WebhookTrigger;
  next_trigger : Z;
  known_workflows : gset Z;
  known_targets : gset Z;
  bound_to : gmap Z Z;
  flows : State W;
}.
Arguments mkHooks {W}. Arguments triggers {W}. Arguments next_trigger {W}. Arguments known_workflows {W}.
Arguments known_targets {W}. Arguments bound_to {W}. Arguments flows {W}.

Definition set_triggers {W : Type} (m : gmap Z WebhookTrigger) (next : Z) (s : Hooks W) : Hooks W :=
  mkHooks m next (known_workflows s) (known_targets s) (bound_to s) (flows s).
Definition set_flows {W : Type} (f : State W) (s : Hooks W) : Hooks W :=
  mkHooks (triggers s) (next_trigger s) (known_workflows s) (known_targets s) (bound_to s) f.

#[export] Instance Hooks_Faulty {W : Type} : Faulty (Hooks W) := {|
  faults s := faults (flows s);
  set_faults fs s := set_flows (set_faults fs (flows s)) s;
|}.

(** HMAC-SHA256 of a key and a message, and [serde_json::from_slice] of a body, with its error's text. *)
Class HookLibs : Type := {
  hmac_sha256 : string -> string -> list ascii;
  from_slice : string -> result json string;
}.

(** ** The table *)

Section store.
Context {W : Type} `{RunLibs W}.

Definition now_text (s : Hooks W) : string := strftime (utc_now (world (flows s))).

Definition rows_where (p : WebhookTrigger -> bool) (s : Hooks W) : list WebhookTrigger := retain p (map_to_list (triggers s)).*2.

(** A UNIQUE column holds a value twice in no two rows other than the row [self]. *)
Definition token_free (self : Z) (token : string) (s : Hooks W) : bool :=
  negb (any (fun t => negb (wt_id t =? self) && str_eqb (wt_token t) token) (rows_where (fun _ => true) s)).
Definition path_free (self : Z) (path : option string) (s : Hooks W) : bool :=
  match path with
  | Some _ => negb (any (fun t => negb (wt_id t =? self) && bool_decide (wt_custom_path t = path)) (rows_where (fun _ => true) s))
  | None => true
  end.
Definition refers (known : gset Z) (id : option Z) : bool := match id with Some i => bool_decide (i ∈ known) | None => true end.

(** The constraints of a row about to be written. *)
Definition writable (t : WebhookTrigger) (s : Hooks W) : bool :=
  token_free (wt_id t) (wt_token t) s && path_free (wt_id t) (wt_custom_path t) s &&
  refers (known_workflows s) (wt_workflow_id t) && refers (known_targets s) (wt_target_id t).

Definition get_by_id (id : Z) : M (Hooks W) (option WebhookTrigger) := statement (fun s => (triggers s !! id, s)).

Definition new_row (id : Z) (now : string) (new : NewWebhookTrigger) : WebhookTrigger :=
  mkWebhook id (nw_token new) (nw_name new) (default 1 (nw_enabled new)) (nw_secret_encrypted new) (nw_workflow_id new)
    (nw_target_id new) (default "run_workflow" (nw_action new)) (nw_payload_mapping new) (nw_conditions new)
    (default 0 (nw_wait_for_result new)) (default 120 (nw_wait_timeout new)) (nw_custom_path new) (nw_function_name new)
    None (Some 0) now None.

Definition insert (new : NewWebhookTrigger) : M (Hooks W) WebhookTrigger :=
  let! id := statement (fun s =>
    let row := new_row (next_trigger s) (now_text s) new in
    if writable row s
    then (Some (next_trigger s), set_triggers (<[next_trigger s := row]> (triggers s)) (next_trigger s + 1) s)
    else (None, s)) in
  match id with
  | None => throw DbError
  | Some id =>
      let! row := get_by_id id in
      match row with Some t => ret t | None => throw (NotFound (String.append "webhook_trigger " (Z_to_string id))) end
  end.

Definition get_by_token (token : string) : M (Hooks W) (option WebhookTrigger) :=
  statement (fun s => (head (rows_where (fun t => str_eqb (wt_token t) token) s), s)).

Definition get_by_custom_path (path : string) : M (Hooks W) (option WebhookTrigger) :=
  statement (fun s => (head (rows_where (fun t => bool_decide (wt_custom_path t = Some path)) s), s)).

(** [created_at DESC, id DESC], the text compared by bytes. *)
Definition newest_first (a b : WebhookTrigger) : bool :=
  String.ltb (wt_created_at b) (wt_created_at a) || (str_eqb (wt_created_at a) (wt_created_at b) && (wt_id b <=? wt_id a)).

Definition list_all (limit : Z) : M (Hooks W) (list WebhookTrigger) :=
  statement (fun s => (sql_limit limit (sort_by newest_first (rows_where (fun _ => true) s)), s)).

Definition list_for_workflow (workflow_id limit : Z) : M (Hooks W) (list WebhookTrigger) :=
  statement (fun s => (sql_limit limit (sort_by newest_first
    (rows_where (fun t => bool_decide (wt_workflow_id t = Some workflow_id)) s)), s)).

(** COALESCE of the patch over the row. *)
Definition or_else {A : Type} (o p : option A) : option A := match o with Some _ => o | None => p end.
Definition patched (p : WebhookTriggerPatch) (now : string) (t : WebhookTrigger) : WebhookTrigger :=
  mkWebhook (wt_id t) (wt_token t) (default (wt_name t) (wp_name p)) (default (wt_enabled t) (wp_enabled p))
    (or_else (wp_secret_encrypted p) (wt_secret_encrypted t)) (or_else (wp_workflow_id p) (wt_workflow_id t))
    (or_else (wp_target_id p) (wt_target_id t)) (default (wt_action t) (wp_action p))
    (or_else (wp_payload_mapping p) (wt_payload_mapping t)) (or_else (wp_conditions p) (wt_conditions t))
    (default (wt_wait_for_result t) (wp_wait_for_result p)) (default (wt_wait_timeout t) (wp_wait_timeout p))
    (or_else (wp_custom_path p) (wt_custom_path t)) (or_else (wp_function_name p) (wt_function_name t))
    (wt_last_triggered_at t) (wt_trigger_count t) (wt_created_at t) (Some now).

(** [None] of the inner statement: a constraint refuses the row. *)
Definition update (id : Z) (p : WebhookTriggerPatch) : M (Hooks W) (option WebhookTrigger) :=
  let! affected := statement (fun s =>
    match triggers s !! id with
    | None => (Some false, s)
    | Some t => let t' := patched p (now_text s) t in
                if writable t' s then (Some true, set_triggers (<[id := t']> (triggers s)) (next_trigger s) s) else (None, s)
    end) in
  match affected with
  | None => throw DbError
  | Some false => ret None
  | Some true => get_by_id id
  end.

(** A statement that changes the row of one id, and says whether there is one. *)
Definition change_row (f : string -> WebhookTrigger -> WebhookTrigger) (id : Z) : M (Hooks W) bool :=
  statement (fun s => (bool_decide (is_Some (triggers s !! id)),
                       set_triggers (alter (f (now_text s)) id (triggers s)) (next_trigger s) s)).

Definition with_enabled (b : bool) (now : string) (t : WebhookTrigger) : WebhookTrigger :=
  mkWebhook (wt_id t) (wt_token t) (wt_name t) (Z.b2z b) (wt_secret_encrypted t) (wt_workflow_id t) (wt_target_id t) (wt_action t)
    (wt_payload_mapping t) (wt_conditions t) (wt_wait_for_result t) (wt_wait_timeout t) (wt_custom_path t) (wt_function_name t)
    (wt_last_triggered_at t) (wt_trigger_count t) (wt_created_at t) (Some now).
Definition set_enabled (id : Z) (enabled : bool) : M (Hooks W) bool := change_row (with_enabled enabled) id.

Definition marked (now : string) (t : WebhookTrigger) : WebhookTrigger :=
  mkWebhook (wt_id t) (wt_token t) (wt_name t) (wt_enabled t) (wt_secret_encrypted t) (wt_workflow_id t) (wt_target_id t) (wt_action t)
    (wt_payload_mapping t) (wt_conditions t) (wt_wait_for_result t) (wt_wait_timeout t) (wt_custom_path t) (wt_function_name t)
    (Some now) (Some (default 0 (wt_trigger_count t) + 1)) (wt_created_at t) (wt_updated_at t).
Definition mark_triggered (id : Z) : M (Hooks W) bool := change_row marked id.

Definition delete (id : Z) : M (Hooks W) bool :=
  statement (fun s => (bool_decide (is_Some (triggers s !! id)), set_triggers (base.delete id (triggers s)) (next_trigger s) s)).
End store.

(** ** The ingress *)

Definition secret_aad (id : Z) : string := String.append "webhook_triggers|secret_encrypted|" (Z_to_string id).

(** Bytes, two nibbles each. *)
Fixpoint hex_bytes (l : list ascii) : option (list ascii) :=
  match l with
  | h :: l :: rest =>
      match UpdateManifest.to_digit16 h, UpdateManifest.to_digit16 l with
      | Some hi, Some lo => cons (chr (hi * 16 + lo)) <$> hex_bytes rest
      | _, _ => None
      end
  | _ => Some []
  end.
Definition decode_hex (s : string) : option (list ascii) :=
  if is_empty s || negb (Nat.even (String.length s)) then None else hex_bytes (bytes s).

(** The signature a header's text presents. *)
Definition presented (header : option string) : option string :=
  (fun h => let s := trim h in default s (strip_prefix "sha256=" s)) <$> header.

Fixpoint walk_path (segs : list string) (v : json) : option json :=
  match segs with
  | [] => Some v
  | seg :: segs => (json_as_object v ≫= (fun m => map_get m seg)) ≫= walk_path segs
  end.
Definition lookup_path (v : json) (path : string) : option json := walk_path (split "." path) v.

Section ingress.
Context `{FlowLibs} {W : Type} `{FlowEnv W} `{RunLibs W} `{VaultLibs} `{HookLibs}.

Definition verify_signature (root : RootKey) (t : WebhookTrigger) (header : option string) (body : string) : result unit LocalError :=
  match wt_secret_encrypted t with
  | Some blob =>
      if is_empty blob then Ok tt
      else
        match open_field root blob (secret_aad (wt_id t)) with
        | Err _ => Err Unauthorized
        | Ok secret =>
            match presented header ≫= decode_hex with
            | None => Err Unauthorized
            | Some sig => if LocalAuth.ct_eq sig (hmac_sha256 secret body) then Ok tt else Err Unauthorized
            end
        end
  | None => Ok tt
  end.

Definition map_field (payload : json) (out : jobj) (field : string * json) : jobj :=
  match json_as_str (snd field) ≫= lookup_path payload with
  | Some v => map_insert (fst field) v out
  | None => out
  end.

Definition mapping_of (payload_mapping : option string) : option jobj :=
  (payload_mapping ≫= (fun s => if is_empty (trim s) then None else from_str s)) ≫= json_as_object.

Definition map_payload (payload_mapping : option string) (payload : json) : json :=
  match mapping_of payload_mapping with
  | Some m => JObj (foldl (map_field payload) [] m)
  | None => match payload with JObj _ => payload | other => JObj [("payload", other)] end
  end.

(** [ORDER BY priority DESC, id DESC]: NULL comes last. *)
Definition bound_first (a b : Automation) : bool :=
  match a_priority a, a_priority b with
  | None, Some _ => false
  | Some _, None => true
  | None, None => a_id b <=? a_id a
  | Some p, Some q => (q <? p) || ((p =? q) && (a_id b <=? a_id a))
  end.

Definition find_by_webhook_trigger (id : Z) : M (Hooks W) (option Automation) :=
  statement (fun s => (head (sort_by bound_first (retain (fun a =>
    (a_enabled a =? 1) && str_eqb (a_event_type a) "webhook_received" && bool_decide (bound_to s !! a_id a = Some id))
      (map_to_list (automations (flows s))).*2)), s)).

Definition parse_body (body : string) : result json LocalError :=
  if is_empty body then Ok (JObj [])
  else map_err (fun e => BadRequest (String.append "webhook body is not valid JSON: " e)) (from_slice body).

(** Steps 1 to 4: the trigger and the payload of a call to go ahead. *)
Definition accept (root : RootKey) (token : string) (header : option string) (body : string) : M (Hooks W) (WebhookTrigger * json) :=
  let! found := get_by_token token in
  match found with
  | Some t =>
      if wt_enabled t =? 0 then throw (NotFound "webhook trigger")
      else
        from_result (verify_signature root t header body) ;!
        if str_eqb (wt_action t) "run_workflow"
        then let! payload := from_result (parse_body body) in ret (t, payload)
        else throw (BadRequest (String.append "webhook action '" (String.append (wt_action t) "' is not supported by the local ingress")))
  | None => throw (NotFound "webhook trigger")
  end.

(** Step 5: an error of the lookup counts as no flow. *)
Definition bound_flow (t : WebhookTrigger) : M (Hooks W) (option Automation) :=
  let! found := attempt (find_by_webhook_trigger (wt_id t)) in
  ret (match found with
       | Ok (Some a) => if has_executable_tree (a_blocks a) then Some a else None
       | _ => None
       end).

Definition flow_trigger (payload inputs : json) : FlowTrigger :=
  mkTrigger None inputs (JObj [("event", JStr "webhook_received"); ("payload", payload)]) Webhook Background.

Definition run_request (workflow_id : Z) (inputs : json) : RunRequest := mkRequest workflow_id inputs Webhook Background false None true.

(** The derived encoder of a result. *)
Definition result_value (r : RunResult) : json :=
  JObj ([("run_id", json_of_Z (run_id r)); ("status", JStr (status_str (run_status r))); ("success", JBool (success r))] ++
        (match run_error r with Some e => [("error", JStr e)] | None => [] end) ++
        [("extracted_data", extracted_data r); ("duration_ms", json_of_Z (duration_ms r))]).

Definition flow_response (t : WebhookTrigger) (exec : option AutomationExecution) : json :=
  let id := match exec with Some e => json_of_Z (e_id e) | None => JNull end in
  if wt_wait_for_result t =? 0 then JObj [("execution_id", id); ("accepted", JBool true)]
  else JObj [("execution_id", id); ("status", JStr (match exec with Some e => e_status e | None => "skipped" end));
             ("results", match exec with Some e => default JNull (from_str (e_action_results e)) | None => JNull end);
             ("accepted", JBool true)].

Definition run_response (t : WebhookTrigger) (r : RunResult) : json :=
  if wt_wait_for_result t =? 0 then JObj [("run_id", json_of_Z (run_id r)); ("accepted", JBool true)]
  else JObj [("run_id", json_of_Z (run_id r)); ("status", JStr (status_str (run_status r))); ("success", JBool (success r));
             ("result", result_value r)].

(** [let _ = mark_triggered(..)] *)
Definition record_fire (t : WebhookTrigger) (s : Hooks W) : Hooks W := snd (mark_triggered (wt_id t) s).

Definition flow_dispatch (fuel : nat) (t : WebhookTrigger) (auto : Automation) (payload inputs : json) (s : Hooks W) :
    outcome json * Hooks W :=
  match run_automation fuel auto (flow_trigger payload inputs) (flows s) with
  | (Returned (Ok exec), f) => (Returned (Ok (flow_response t exec)), record_fire t (set_flows f s))
  | (Returned (Err e), f) => (Returned (Err e), set_flows f s)
  | (Panicked, f) => (Panicked, set_flows f s)
  | (OutOfFuel, f) => (OutOfFuel, set_flows f s)
  end.

Definition run_dispatch (t : WebhookTrigger) (inputs : json) (s : Hooks W) : outcome json * Hooks W :=
  match wt_workflow_id t with
  | None => (Returned (Err (BadRequest "webhook trigger has no linked workflow")), s)
  | Some workflow_id =>
      let '(r, w) := engine_run (run_request workflow_id inputs) (world (flows s)) in
      let s := set_flows (set_world w (flows s)) s in
      match r with
      | Ok res => (Returned (Ok (run_response t res)), record_fire t s)
      | Err e => (Returned (Err e), s)
      end
  end.

Definition ingress (fuel : nat) (root : RootKey) (token : string) (header : option string) (body : string) (s : Hooks W) :
    outcome json * Hooks W :=
  match accept root token header body s with
  | (Err e, s) => (Returned (Err e), s)
  | (Ok (t, payload), s) =>
      let inputs := map_payload (wt_payload_mapping t) payload in
      match bound_flow t s with
      | (Ok (Some auto), s) => flow_dispatch fuel t auto payload inputs s
      | (_, s) => run_dispatch t inputs s
      end
  end.
End ingress.

(** ** Signatures *)

Lemma hex_bytes_lower (l : list Z) : Forall (fun b => 0 <= b < 256) l -> hex_bytes (bytes (UpdateManifest.hex_lower l)) = Some (map chr l).
Proof.
  induction 1 as [|c k Hc Hk IH]; [done|]. rewrite VaultRotate.hex_lower_cons.
  destruct (VaultRotate.nibbles c Hc) as (H1 & H2 & H3).
  destruct (VaultRotate.hex_digit_spec _ H1) as (A & _), (VaultRotate.hex_digit_spec _ H2) as (B & _).
  cbn [bytes list_ascii_of_string hex_bytes]. rewrite A, B. unfold bytes in IH. rewrite IH. cbn.
  by replace (Z.shiftr c 4 * 16 + Z.land c 15) with c by lia.
Qed.

(** Every byte string has a signature that presents it. *)
Lemma decode_hex_lower (l : list Z) : l <> [] -> Forall (fun b => 0 <= b < 256) l ->
  decode_hex (UpdateManifest.hex_lower l) = Some (map chr l).
Proof.
  intros Hne Hl. destruct (VaultRotate.hex_lower_spec l Hl) as (_ & _ & Hlen & _).
  unfold decode_hex. rewrite Hlen, Nat.even_mul, hex_bytes_lower by done. by destruct l.
Qed.

Section authentic.
Context `{VaultLibs} `{HookLibs}.

(** A trigger without a secret asks for nothing; one with a secret for the HMAC of the body under it, in hexadecimal. *)
Inductive authentic (root : RootKey) (t : WebhookTrigger) (header : option string) (body : string) : Prop :=
| no_secret : wt_secret_encrypted t = None \/ wt_secret_encrypted t = Some "" -> authentic root t header body
| signed (blob secret h hex : string) : wt_secret_encrypted t = Some blob -> open_field root blob (secret_aad (wt_id t)) = Ok secret ->
    header = Some h -> trim h = hex \/ trim h = String.append "sha256=" hex -> decode_hex hex = Some (hmac_sha256 secret body) ->
    authentic root t header body.

Lemma decode_not_prefixed (s r : string) : strip_prefix "sha256=" s = Some r -> decode_hex s = None.
Proof.
  intros ->%strip_prefix_Some. unfold decode_hex. destruct (_ || _); [done|]. by destruct r.
Qed.

Lemma verify_signature_iff (root : RootKey) (t : WebhookTrigger) (header : option string) (body : string) :
  verify_signature root t header body = Ok tt <-> authentic root t header body.
Proof.
  unfold verify_signature. split.
  - destruct (wt_secret_encrypted t) as [blob|] eqn:Es; [|intros _; apply no_secret; by left].
    destruct (is_empty blob) eqn:Eb; [intros _; apply no_secret; right; by destruct blob|].
    destruct (open_field _ _ _) as [secret|] eqn:Eo; [|done]. destruct (presented header ≫= decode_hex) as [sig|] eqn:Ed; [|done].
    destruct (LocalAuth.ct_eq _ _) eqn:Ec; [|done]. intros _. apply LocalAuth.ct_eq_spec in Ec as ->.
    apply bind_Some in Ed as (hex & Hp & Ed). unfold presented in Hp. apply fmap_Some in Hp as (h & -> & ->).
    eapply signed; [exact Es|exact Eo|done| |exact Ed].
    destruct (strip_prefix "sha256=" (trim h)) as [r|] eqn:Ep; [right; by apply strip_prefix_Some in Ep|by left].
  - intros [[-> | ->]|blob secret h hex -> Eo -> Hh Ed]; [done..|]. destruct (is_empty blob); [done|]. rewrite Eo.
    assert (Hd : decode_hex (default (trim h) (strip_prefix "sha256=" (trim h))) = Some (hmac_sha256 secret body)).
    { destruct Hh as [-> | Hh].
      - destruct (strip_prefix "sha256=" hex) as [r|] eqn:Ep; [|done]. apply decode_not_prefixed in Ep. congruence.
      - apply strip_prefix_Some in Hh. by rewrite Hh. }
    unfold presented. cbn [fmap option_fmap option_map mbind option_bind]. cbv zeta. rewrite Hd. by replace (LocalAuth.ct_eq _ _) with true by (symmetry; by apply LocalAuth.ct_eq_spec).
Qed.

Lemma verify_signature_error (root : RootKey) (t : WebhookTrigger) (header : option string) (body : string) (e : LocalError) :
  verify_signature root t header body = Err e -> e = Unauthorized.
Proof. unfold verify_signature. repeat case_match; congruence. Qed.
End authentic.

(** ** What a call does *)

Section calls.
Context `{FlowLibs} {W : Type} `{FlowEnv W} `{RunLibs W} `{VaultLibs} `{HookLibs}.

(** A call that may go ahead: an enabled trigger on record with the token, its signature, the one action, and a body that parses. *)
Record entitled (root : RootKey) (token : string) (header : option string) (body : string) (s : Hooks W) (t : WebhookTrigger) (payload : json) :
    Prop := {
  en_row : exists id, triggers s !! id = Some t;
  en_token : wt_token t = token;
  en_enabled : wt_enabled t <> 0;
  en_authentic : authentic root t header body;
  en_action : wt_action t = "run_workflow";
  en_payload : parse_body body = Ok payload;
}.

(** A flow of the trigger. *)
Record flow_of (s : Hooks W) (t : WebhookTrigger) (auto : Automation) : Prop := {
  fo_row : exists id, automations (flows s) !! id = Some auto;
  fo_enabled : a_enabled auto = 1;
  fo_event : a_event_type auto = "webhook_received";
  fo_bound : bound_to s !! a_id auto = Some (wt_id t);
  fo_tree : has_executable_tree (a_blocks auto) = true;
}.

(** The rest of the daemon is [f]; the fire is counted, or the statement failed. *)
Definition dispatched (t : WebhookTrigger) (f : State W) (s s' : Hooks W) : Prop :=
  exists fs, s' = set_faults fs (set_flows f s) \/
             s' = set_faults fs (set_triggers (alter (marked (strftime (utc_now (world f)))) (wt_id t) (triggers s)) (next_trigger s) (set_flows f s)).

Definition answered {A : Type} (response : A -> json) (o : outcome A) : outcome json :=
  match o with
  | Returned (Ok a) => Returned (Ok (response a))
  | Returned (Err e) => Returned (Err e)
  | Panicked => Panicked
  | OutOfFuel => OutOfFuel
  end.

Lemma read_cases {A : Type} (g : Hooks W -> A) (s : Hooks W) : (forall fs, g (set_faults fs s) = g s) ->
  exists fs, statement (fun s => (g s, s)) s = (Ok (g s), set_faults fs s) \/ statement (fun s => (g s, s)) s = (Err DbError, set_faults fs s).
Proof.
  intros Hg. unfold statement, faulted. destruct (faults s) as [|[] fs] eqn:Ef.
  - exists []. left. f_equal. destruct s as [? ? ? ? ? []]. cbn in Ef. by subst.
  - exists fs. by right.
  - exists fs. left. by rewrite Hg.
Qed.

Lemma found_row (p : WebhookTrigger -> bool) (s : Hooks W) (t : WebhookTrigger) :
  head (rows_where p s) = Some t -> p t = true /\ exists id, triggers s !! id = Some t.
Proof.
  intros Hh. assert (Hin : t ∈ rows_where p s) by (destruct (rows_where p s); simplify_eq/=; left).
  unfold rows_where in Hin. apply elem_of_retain in Hin as [Hp Hin]. split; [done|].
  apply list_elem_of_fmap in Hin as ([id r] & -> & Hr). apply elem_of_map_to_list in Hr. eauto.
Qed.

Lemma accept_cases (root : RootKey) (token : string) (header : option string) (body : string) (s : Hooks W) :
  exists fs, snd (accept root token header body s) = set_faults fs s /\
    forall t payload, fst (accept root token header body s) = Ok (t, payload) -> entitled root token header body s t payload.
Proof.
  unfold accept, bind, get_by_token.
  destruct (read_cases (fun s => head (rows_where (fun t => str_eqb (wt_token t) token) s)) s) as (fs & [-> | ->]); [done| |by exists fs].
  destruct (head _) as [t|] eqn:Eh; [|by exists fs]. apply found_row in Eh as [Et%str_eqb_eq Hrow].
  destruct (Z.eqb_spec (wt_enabled t) 0) as [_|En]; [by exists fs|].
  destruct (verify_signature root t header body) as [[]|e] eqn:Ev; [|by exists fs]. cbn. apply verify_signature_iff in Ev.
  destruct (str_eqb _ _) eqn:Ea; [|by exists fs]. apply str_eqb_eq in Ea. destruct (parse_body body) as [p|e] eqn:Ep; [|by exists fs].
  exists fs. split; [done|]. by intros ? ? [= <- <-].
Qed.

Lemma bound_flow_cases (t : WebhookTrigger) (s : Hooks W) :
  exists fs r, bound_flow t s = (Ok r, set_faults fs s) /\ forall auto, r = Some auto -> flow_of s t auto.
Proof.
  unfold bound_flow, bind, attempt, find_by_webhook_trigger.
  match goal with |- context [statement ?f s] => destruct (read_cases (fun s => fst (f s)) s) as (fs & Hst); [done|] end.
  cbn beta iota delta [fst] in Hst. exists fs.
  destruct Hst as [Hst|Hst]; rewrite Hst; cbn [ret]; eexists; (split; [reflexivity|]); [|done].
  intros auto. destruct (head _) as [a|] eqn:Eh; [|done]. destruct (has_executable_tree _) eqn:Et; [|done]. intros [= <-].
  match type of Eh with head ?l = _ => assert (Hin : a ∈ l) by (destruct l; simplify_eq/=; left) end.
  rewrite sort_by_elem, elem_of_retain in Hin. destruct Hin as [Hp Hin]. bool_prop.
  apply list_elem_of_fmap in Hin as ([id r] & -> & Hr). apply elem_of_map_to_list in Hr.
  split; [by eexists|lia|by apply str_eqb_eq|done|done].
Qed.

Lemma record_fire_cases (t : WebhookTrigger) (f : State W) (s : Hooks W) : dispatched t f s (record_fire t (set_flows f s)).
Proof.
  unfold record_fire, mark_triggered, change_row, statement, faulted. destruct (faults (set_flows f s)) as [|[] fs] eqn:Ef.
  - exists []. right. cbn. destruct f. cbn in *. by subst.
  - exists fs. by left.
  - exists fs. by right.
Qed.

Lemma flow_of_faults (fs : list bool) (s : Hooks W) (t : WebhookTrigger) (auto : Automation) :
  flow_of (set_faults fs s) t auto -> flow_of s t auto.
Proof. intros []. by split. Qed.

Lemma dispatched_only (t : WebhookTrigger) (f : State W) (s : Hooks W) : dispatched t f s (set_flows f s).
Proof. exists (faults f). left. by destruct f. Qed.
End calls.

(** ** The theorem *)

Section theorems.
Context `{FlowLibs} {W : Type} `{FlowEnv W} `{RunLibs W} `{VaultLibs} `{HookLibs}.

(** C26: whatever statements fail, a webhook call either changes nothing and is answered by an error, or it is entitled to go ahead: there is an
    enabled trigger on record with the token of the path, the body carries the HMAC its secret asks for, its action is the supported one,
    and the body parses. Then exactly one thing has happened to the rest of the daemon: one firing of an enabled webhook automation bound to
    that trigger, or one run of the linked workflow, on the mapped inputs, as a background webhook request; its answer is the call's, and the trigger counts at most one fire. *)
Theorem ingress_authentic (fuel : nat) (root : RootKey) (token : string) (header : option string) (body : string) (s : Hooks W) :
  let '(o, s') := ingress fuel root token header body s in
  (exists fs e, s' = set_faults fs s /\ o = Returned (Err e)) \/
  exists t payload, entitled root token header body s t payload /\
    let inputs := map_payload (wt_payload_mapping t) payload in
    (exists auto fs, flow_of s t auto /\
       let '(r, f) := run_automation fuel auto (flow_trigger payload inputs) (set_faults fs (flows s)) in
       o = answered (flow_response t) r /\ dispatched t f s s') \/
    (exists workflow_id, wt_workflow_id t = Some workflow_id /\
       let '(r, w) := engine_run (run_request workflow_id inputs) (world (flows s)) in
       o = answered (run_response t) (Returned r) /\ dispatched t (set_world w (flows s)) s s').
Proof.
  unfold ingress. destruct (accept_cases root token header body s) as (fs & Hs & Hok).
  destruct (accept root token header body s) as [[[t payload]|e] s1]; cbn [fst snd] in *; subst s1; [|left; by exists fs, e].
  specialize (Hok t payload eq_refl). destruct (bound_flow_cases t (set_faults fs s)) as (fs2 & r & -> & Hr).
  destruct r as [auto|].
  - unfold flow_dispatch. change (flows (set_faults fs2 (set_faults fs s))) with (set_faults fs2 (flows s)).
    destruct (run_automation _ _ _ _) as [[[exec|e]| |] f] eqn:Er; right; exists t, payload; (split; [done|]); left;
      exists auto, fs2; (split; [by apply (flow_of_faults fs), Hr|]); rewrite Er; (split; [done|]).
    + apply (record_fire_cases t f s).
    + apply (dispatched_only t f s).
    + apply (dispatched_only t f s).
    + apply (dispatched_only t f s).
  - unfold run_dispatch. destruct (wt_workflow_id t) as [wid|] eqn:Ew; [|left; by eexists fs2, _].
    change (world (flows (set_faults fs2 (set_faults fs s)))) with (world (flows s)).
    destruct (engine_run _ _) as [[res|e] w] eqn:Er; right; exists t, payload; (split; [done|]); right;
      exists wid; (split; [done|]); rewrite Er; (split; [done|]).
    + destruct (record_fire_cases t (set_world w (set_faults fs2 (flows s))) s) as (fs3 & Hd). exists fs3. exact Hd.
    + exists fs2. by left.
Qed.
End theorems.

(** ** The table over a history *)

Section history.
Context `{FlowLibs} {W : Type} `{FlowEnv W} `{RunLibs W} `{VaultLibs} `{HookLibs}.

(** Whatever changes the table, and the daemon's work around it. *)
Inductive Op : Type :=
| Insert (new : NewWebhookTrigger)
| Update (id : Z) (p : WebhookTriggerPatch)
| SetEnabled (id : Z) (b : bool)
| Delete (id : Z)
| Call (fuel : nat) (root : RootKey) (token : string) (header : option string) (body : string)
| Around (f : State W).

Definition perform (s : Hooks W) (op : Op) : Hooks W :=
  match op with
  | Insert new => snd (insert new s)
  | Update id p => snd (update id p s)
  | SetEnabled id b => snd (set_enabled id b s)
  | Delete id => snd (delete id s)
  | Call fuel root token header body => snd (ingress fuel root token header body s)
  | Around f => set_flows f s
  end.

(** The constraints of the schema. *)
Record table_ok (m : gmap Z WebhookTrigger) (next : Z) : Prop := {
  tab_id : forall id t, m !! id = Some t -> wt_id t = id /\ id < next;
  tab_token : forall i j t u, m !! i = Some t -> m !! j = Some u -> wt_token t = wt_token u -> i = j;
  tab_path : forall i j t u p, m !! i = Some t -> m !! j = Some u -> wt_custom_path t = Some p -> wt_custom_path u = Some p -> i = j;
}.

(** A row of the later table is a row of the earlier one with its token, or new. *)
Definition grows (m : gmap Z WebhookTrigger) (next : Z) (m' : gmap Z WebhookTrigger) (next' : Z) : Prop :=
  next <= next' /\ forall id t', m' !! id = Some t' -> id < next -> exists t, m !! id = Some t /\ wt_token t = wt_token t'.

Definition sound_step (s s' : Hooks W) : Prop :=
  table_ok (triggers s) (next_trigger s) ->
  table_ok (triggers s') (next_trigger s') /\ grows (triggers s) (next_trigger s) (triggers s') (next_trigger s').

Lemma sound_same (s s' : Hooks W) : triggers s' = triggers s -> next_trigger s' = next_trigger s -> sound_step s s'.
Proof. unfold sound_step. intros -> -> Hok. split; [done|]. split; [lia|]. eauto. Qed.

Lemma sound_trans (s s1 s2 : Hooks W) : sound_step s s1 -> sound_step s1 s2 -> sound_step s s2.
Proof.
  intros H1' H2' Hok. destruct (H1' Hok) as [Hok1 [Hn1 Hg1]]. destruct (H2' Hok1) as [Hok2 [Hn2 Hg2]]. split; [done|]. split; [lia|].
  intros id t' Ht' Hid. destruct (Hg2 id t' Ht' ltac:(lia)) as (t & Ht & <-). destruct (Hg1 id t Ht Hid) as (u & Hu & <-). eauto.
Qed.

(** A statement is a sound step when its effect is. *)
Lemma statement_sound {A : Type} (f : Hooks W -> A * Hooks W) (s : Hooks W) :
  (forall fs, sound_step (set_faults fs s) (snd (f (set_faults fs s)))) -> sound_step s (snd (statement f s)).
Proof.
  intros Hf. unfold statement, faulted. destruct (faults s) as [|[] fs] eqn:Ef.
  - specialize (Hf []). replace (set_faults [] s) with s in Hf by (destruct s as [? ? ? ? ? []]; cbn in *; by subst). by destruct (f s).
  - by apply sound_same.
  - specialize (Hf fs). destruct (f _). exact Hf.
Qed.

Lemma read_sound {A : Type} (g : Hooks W -> A) (s : Hooks W) : sound_step s (snd (statement (fun s => (g s, s)) s)).
Proof. apply statement_sound. intros fs. by apply sound_same. Qed.

Lemma bind_sound {A B : Type} (c : M (Hooks W) A) (k : A -> M (Hooks W) B) (s : Hooks W) :
  sound_step s (snd (c s)) -> (forall a s, sound_step s (snd (k a s))) -> sound_step s (snd (bind c k s)).
Proof. intros Hc Hk. unfold bind. destruct (c s) as [[a|e] s']; [|done]. eapply sound_trans; [exact Hc|apply Hk]. Qed.

Lemma writable_free (t : WebhookTrigger) (s : Hooks W) (id : Z) (u : WebhookTrigger) :
  writable t s = true -> triggers s !! id = Some u -> wt_id u <> wt_id t ->
  wt_token u <> wt_token t /\ forall p, wt_custom_path t = Some p -> wt_custom_path u <> Some p.
Proof.
  unfold writable. intros Hw Hu Hne. bool_prop.
  assert (Hin : u ∈ rows_where (fun _ => true) s).
  { apply elem_of_retain. split; [done|]. apply list_elem_of_fmap. exists (id, u). split; [done|]. by apply elem_of_map_to_list. }
  unfold token_free in *. unfold path_free in *. bool_prop. split.
  - rewrite any_false in *. intros Et.
    match goal with Hf : forall x, x ∈ _ -> _ && str_eqb _ _ = false |- _ => specialize (Hf u Hin) end.
    rewrite Et, str_eqb_refl, andb_true_r in *. lia.
  - intros p Hp Hq. rewrite Hp in *. bool_prop.
    match goal with Hf : any (fun t => _ && bool_decide _) _ = false |- _ => rewrite any_false in Hf; specialize (Hf u Hin) end.
    rewrite bool_decide_eq_true_2, andb_true_r in * by done. lia.
Qed.

(** Writing a row the constraints let through, at a fresh id or over the row with its token. *)
Lemma write_ok (s : Hooks W) (t : WebhookTrigger) (next : Z) : next_trigger s <= next -> wt_id t < next -> writable t s = true ->
  table_ok (triggers s) (next_trigger s) -> table_ok (<[wt_id t := t]> (triggers s)) next.
Proof.
  intros Hn Hid Hw [Hk Ht Hp]. split.
  - intros id u. destruct (decide (wt_id t = id)) as [<-|Hne].
    + rewrite lookup_insert_eq. by intros [= <-].
    + rewrite lookup_insert_ne by done. intros Hu. destruct (Hk id u Hu). split; [done|lia].
  - intros i j u v. destruct (decide (wt_id t = i)) as [<-|Hi], (decide (wt_id t = j)) as [<-|Hj];
      rewrite ?lookup_insert_eq, ?lookup_insert_ne by done; intros Hu Hv E; simplify_eq; [done|..].
    + destruct (writable_free u s j v Hw Hv) as [Hf _]; [|done]. by destruct (Hk j v Hv) as [-> _].
    + destruct (writable_free v s i u Hw Hu) as [Hf _]; [|done]. by destruct (Hk i u Hu) as [-> _].
    + eauto.
  - intros i j u v p. destruct (decide (wt_id t = i)) as [<-|Hi], (decide (wt_id t = j)) as [<-|Hj];
      rewrite ?lookup_insert_eq, ?lookup_insert_ne by done; intros Hu Hv E E'; simplify_eq; [done|..].
    + destruct (writable_free u s j v Hw Hv) as [_ Hf]; [by destruct (Hk j v Hv) as [-> _]|]. by destruct (Hf p E).
    + destruct (writable_free v s i u Hw Hu) as [_ Hf]; [by destruct (Hk i u Hu) as [-> _]|]. by destruct (Hf p E').
    + eauto.
Qed.

(** Rewriting a row without its id, token and path. *)
Lemma alter_ok (f : WebhookTrigger -> WebhookTrigger) (id : Z) (m : gmap Z WebhookTrigger) (next : Z) :
  (forall t, wt_id (f t) = wt_id t /\ wt_token (f t) = wt_token t /\ wt_custom_path (f t) = wt_custom_path t) ->
  table_ok m next -> table_ok (alter f id m) next /\ grows m next (alter f id m) next.
Proof.
  intros Hf [Hk Ht Hp].
  assert (Hrow : forall i u, alter f id m !! i = Some u -> exists t, m !! i = Some t /\ wt_id u = wt_id t /\
    wt_token u = wt_token t /\ wt_custom_path u = wt_custom_path t).
  { intros i u. rewrite lookup_alter. case_decide as E; [subst|eauto].
    intros (t & -> & ->)%fmap_Some. destruct (Hf t) as (? & ? & ?). eauto. }
  split; [split|split; [lia|]].
  - intros i u (t & Hu & -> & _)%Hrow. by apply Hk.
  - intros i j u v (t & Hu & _ & -> & _)%Hrow (t' & Hv & _ & -> & _)%Hrow E. by eapply Ht.
  - intros i j u v p (t & Hu & _ & _ & ->)%Hrow (t' & Hv & _ & _ & ->)%Hrow E E'. by eapply Hp.
  - intros i u (t & Hu & _ & E & _)%Hrow _. by exists t.
Qed.

Lemma change_sound (f : string -> WebhookTrigger -> WebhookTrigger) (id : Z) (s : Hooks W) :
  (forall now t, wt_id (f now t) = wt_id t /\ wt_token (f now t) = wt_token t /\ wt_custom_path (f now t) = wt_custom_path t) ->
  sound_step s (snd (change_row f id s)).
Proof. intros Hf. apply statement_sound. intros fs Hok. by apply alter_ok. Qed.

Lemma insert_sound (new : NewWebhookTrigger) (s : Hooks W) : sound_step s (snd (insert new s)).
Proof.
  unfold insert. apply bind_sound.
  - apply statement_sound. intros fs. generalize (set_faults fs s). clear s. intros s. cbn beta. destruct (writable _ s) eqn:Ew; [|by apply sound_same].
    intros Hok. cbn [snd set_triggers triggers next_trigger]. split.
    + apply (write_ok s (new_row (next_trigger s) (now_text s) new) (next_trigger s + 1)); try done; cbn [wt_id new_row]; lia.
    + split; [lia|]. intros id t' Ht Hid. rewrite lookup_insert_ne in Ht by lia. eauto.
  - intros [id|] s'; [|by apply sound_same]. apply bind_sound; [apply read_sound|]. intros [t|] s''; by apply sound_same.
Qed.

Lemma update_sound (id : Z) (p : WebhookTriggerPatch) (s : Hooks W) : sound_step s (snd (update id p s)).
Proof.
  unfold update. apply bind_sound.
  - apply statement_sound. intros fs. generalize (set_faults fs s). clear s. intros s. cbn beta.
    destruct (triggers s !! id) as [t|] eqn:Et; [|by apply sound_same]. cbv zeta. destruct (writable _ s) eqn:Ew; [|by apply sound_same].
    intros Hok. cbn [snd set_triggers triggers next_trigger]. destruct (tab_id _ _ Hok id t Et) as [Hid Hlt]. split.
    + replace id with (wt_id (patched p (now_text s) t)) by done. apply (write_ok s); cbn [wt_id patched]; [lia|lia|done|done].
    + split; [lia|]. intros i u. destruct (decide (id = i)) as [<-|Hne]; rewrite ?lookup_insert_eq, ?lookup_insert_ne by done; [|eauto].
      intros [= <-] _. by exists t.
  - intros [[]|] s'; [apply read_sound|by apply sound_same|by apply sound_same].
Qed.

Lemma delete_sound (id : Z) (s : Hooks W) : sound_step s (snd (delete id s)).
Proof.
  apply statement_sound. intros fs [Hk Ht Hp]. cbn. split; [split|split; [lia|]].
  - intros i t [_ Hi]%lookup_delete_Some. by apply Hk.
  - intros i j t u [_ Hi]%lookup_delete_Some [_ Hj]%lookup_delete_Some E. by eapply Ht.
  - intros i j t u p [_ Hi]%lookup_delete_Some [_ Hj]%lookup_delete_Some E E'. by eapply Hp.
  - intros i t [_ Hi]%lookup_delete_Some _. by exists t.
Qed.

Lemma fire_sound (t : WebhookTrigger) (f : State W) (s : Hooks W) : sound_step s (record_fire t (set_flows f s)).
Proof. apply (sound_trans s (set_flows f s)); [by apply sound_same|]. by apply change_sound. Qed.

Lemma call_sound (fuel : nat) (root : RootKey) (token : string) (header : option string) (body : string) (s : Hooks W) :
  sound_step s (snd (ingress fuel root token header body s)).
Proof.
  unfold ingress. destruct (accept_cases root token header body s) as (fs & Hs & _).
  destruct (accept root token header body s) as [[[t payload]|e] s1]; cbn [snd] in *; subst s1; [|by apply sound_same].
  destruct (bound_flow_cases t (set_faults fs s)) as (fs2 & r & -> & _). apply (sound_trans s (set_faults fs2 s)); [by apply sound_same|].
  change (set_faults fs2 (set_faults fs s)) with (set_faults fs2 s). generalize (set_faults fs2 s). clear. intros s.
  destruct r as [auto|]; [unfold flow_dispatch; destruct (run_automation _ _ _ _) as [[[exec|e]| |] f]|
    unfold run_dispatch; destruct (wt_workflow_id t); [destruct (engine_run _ _) as [[res|e] w]|]];
    first [apply fire_sound | by apply sound_same].
Qed.

Lemma perform_sound (op : Op) (s : Hooks W) : sound_step s (perform s op).
Proof.
  destruct op; cbn [perform].
  - apply insert_sound.
  - apply update_sound.
  - by apply change_sound.
  - apply delete_sound.
  - apply call_sound.
  - by apply sound_same.
Qed.

Lemma hook_history_sound (ops : list Op) : forall s, sound_step s (foldl perform s ops).
Proof.
  induction ops as [|op ops IH]; intros s; [by apply sound_same|]. cbn [foldl]. eapply sound_trans; [apply perform_sound|apply IH].
Qed.

(** over any history of inserts, patches, toggles, deletions, webhook calls and other work of the daemon, with any statements failing, the
    table keeps its constraints: a token resolves to the one row that carries it. A token stays with its row: a row that carries it
    either carried it before the history, or is newer than every row of then. *)
Theorem token_names_one (ops : list Op) (s : Hooks W) : table_ok (triggers s) (next_trigger s) ->
  let s' := foldl perform s ops in
  table_ok (triggers s') (next_trigger s') /\
  forall id t, triggers s' !! id = Some t ->
    (forall fs fs', fst (get_by_token (wt_token t) (set_faults (false :: fs) s')) = Ok (Some t) /\
                    fst (get_by_token (wt_token t) (set_faults (true :: fs') s')) = Err DbError) /\
    ((exists t0, triggers s !! id = Some t0 /\ wt_token t0 = wt_token t) \/ next_trigger s <= id).
Proof.
  intros Hok s'. destruct (hook_history_sound ops s Hok) as [Hok' [Hn Hg]]. fold s' in Hok', Hn, Hg. split; [done|]. intros id t Ht. split.
  - intros fs fs'. split; [|done]. unfold get_by_token, statement, faulted. cbn. f_equal.
    change (rows_where _ _) with (rows_where (fun u => str_eqb (wt_token u) (wt_token t)) s').
    assert (Hin : t ∈ rows_where (fun u => str_eqb (wt_token u) (wt_token t)) s').
    { apply elem_of_retain. rewrite str_eqb_refl. split; [done|]. apply list_elem_of_fmap. exists (id, t). split; [done|]. by apply elem_of_map_to_list. }
    destruct (head _) as [u|] eqn:Eh; [|by destruct (rows_where _ _); [apply not_elem_of_nil in Hin|]].
    apply found_row in Eh as [Eu%str_eqb_eq (j & Hj)]. assert (j = id) as -> by (by eapply (tab_token _ _ Hok')). congruence.
  - destruct (Z.lt_ge_cases id (next_trigger s)) as [Hlt|Hge]; [left|by right]. by apply Hg.
Qed.
End history.

(** ** Examples *)

(** A code that is the key and the message, and every body an order of four. *)
#[local] Instance plain_hooks : HookLibs := {|
  hmac_sha256 k b := bytes (String.append k b);
  from_slice _ := Ok (JObj [("n", json_of_Z 4)]);
|}.

Definition hook (workflow : option Z) : WebhookTrigger :=
  mkWebhook 1 "tok" "order" 1 None workflow None "run_workflow" None None 0 120 None None None (Some 0) "" None.
(** An automation of a priority, bound to the trigger. *)
Definition rule (id : Z) (priority : option Z) (blocks : option string) : Automation :=
  mkAutomation id None "webhook_received" None 1 priority "" blocks None None.
Definition hooked (autos : list Automation) (fs : list bool) : Hooks Z :=
  mkHooks {[1 := hook (Some 6)]} 2 ∅ ∅ (list_to_map (map (fun a => (a_id a, 1)) autos))
    (mkState (list_to_map (map (fun a => (a_id a, a)) autos)) ∅ ∅ 1 0 fs).

Definition called (s : Hooks Z) : outcome json * Hooks Z := ingress 5 [] "tok" None "{}" s.
Definition counted (s : Hooks Z) : option Z := (triggers s !! 1) ≫= wt_trigger_count.

(** The flow of the trigger fires: its walk is recorded, and the fire is counted. *)
Example call_fires_flow : let '(o, s) := called (hooked [rule 3 None (Some "tree")] []) in
  o = Returned (Ok (JObj [("execution_id", json_of_Z 1); ("accepted", JBool true)])) /\ size (executions (flows s)) = 1%nat /\ counted s = Some 1.
Proof. vm_compute. split_and!; reflexivity. Qed.

(** When the statement that looks the flow up fails, the linked workflow runs in its place, without the flow's conditions. *)
Example lost_lookup_runs_workflow : let '(o, s) := called (hooked [rule 3 None (Some "tree")] [false; true]) in
  o = Returned (Ok (JObj [("run_id", json_of_Z 0); ("accepted", JBool true)])) /\ executions (flows s) = ∅ /\ world (flows s) = 1.
Proof. vm_compute. split_and!; reflexivity. Qed.

(** A bound automation without blocks hides the flow of one with a lower priority. *)
Example treeless_hides_flow : let '(o, s) := called (hooked [rule 3 (Some 5) None; rule 4 (Some 1) (Some "tree")] []) in
  o = Returned (Ok (JObj [("run_id", json_of_Z 0); ("accepted", JBool true)])) /\ executions (flows s) = ∅.
Proof. vm_compute. split_and!; reflexivity. Qed.

Lemma hooked_ok (autos : list Automation) (fs : list bool) : table_ok (triggers (hooked autos fs)) (next_trigger (hooked autos fs)).
Proof.
  split; cbn [hooked triggers next_trigger].
  - by intros id t [<- <-]%lookup_singleton_Some.
  - by intros i j t u [<- <-]%lookup_singleton_Some [<- <-]%lookup_singleton_Some.
  - by intros i j t u p [<- <-]%lookup_singleton_Some [<- <-]%lookup_singleton_Some.
Qed.

(** A second row with the token is refused, a call goes through, and the token still names the first. *)
Lemma token_names_one_witness :
  let new := mkNewWebhook "tok" "again" None None None None None None None None None None None in
  let s := foldl perform (hooked [rule 3 None (Some "tree")] []) [Insert new; Call 5 [] "tok" None "{}"; SetEnabled 1 false] in
  table_ok (triggers s) (next_trigger s) /\ next_trigger s = 2 /\ counted s = Some 1 /\ (wt_enabled <$> triggers s !! 1) = Some 0.
Proof.
  intros new s. split_and!.
  - apply (token_names_one [Insert new; Call 5 [] "tok" None "{}"; SetEnabled 1 false]). apply hooked_ok.
  - vm_compute. reflexivity.
  - vm_compute. reflexivity.
  - vm_compute. reflexivity.
Defined.
