(* ===== verification/McpTools.v ===== *)
(** * local/mcp/tools.rs: the catalog of MCP tools

    Every active workflow whose MCP surface is on is a tool, under a name made from its own. The inputs and the file slots of a
    tool are read off the text of its steps. A tool's public schema is left out but for its properties and what it requires. *)

From Stdlib Require Import Ascii String.
From S2P Require Import Prelude Ints Str Json Store CredStore ServerAuth.
Open Scope string_scope.
Open Scope list_scope.
Open Scope Z_scope.

(** What the tools read of a workflow. *)
Record Workflow : Type := mkWorkflow {
  wf_id : Z;
  wf_name : string;
  wf_description : option string;
  wf_steps : string;
  wf_form_data : option string;
  wf_streaming_config : option string;
  wf_marketplace_slug : option string;
  wf_is_active : bool;
  wf_created_at : string;
}.

Record ToolEntry : Type := mkEntry { e_name : string; e_workflow_id : Z; e_description : string; e_input_schema : json }.

Definition NAMES : list string :=
  ["writ_browser_use"; "writ_personas"; "writ_build"; "writ_record_website"; "writ_website_to_api"; "writ_crawl_site"; "writ_crawl_status";
   "writ_saved_crawls"; "writ_run_saved_crawl"; "writ_saved_crawl_data"; "writ_scrape"; "writ_map"; "writ_browser_act";
   "writ_browser_context"; "writ_browser_network"; "writ_browser_save"; "writ_browser_cancel"; "writ_expose_workflow_api";
   "writ_list_workflows"; "writ_run_workflow"; "writ_workflow_data"; "writ_workflow_runs"; "writ_list_datasets"; "writ_dataset";
   "writ_dataset_search"; "writ_set_schedule"; "writ_create_monitor"; "writ_wire_monitor"; "writ_create_automation"; "writ_search_data";
   "writ_search_api"; "writ_install_api"].

Definition FRESHNESS_ARG : string := "max_age".

(** ** Names *)

Definition lower_alnum (c : ascii) : bool := is_digit c || is_lower c.

(** Runs of other characters become one underscore. *)
Fixpoint sanitize_from (last_us : bool) (s : string) : string :=
  match s with
  | EmptyString => EmptyString
  | String ch r =>
      let c := lower_byte ch in
      if lower_alnum c then String c (sanitize_from false r)
      else if last_us then sanitize_from true r
      else String "_" (sanitize_from true r)
  end.

Definition sanitize (name : string) : string := trim_by (byte_is "_") (sanitize_from false (trim name)).

Definition workflow_alias (id : Z) : string := String.append "workflow_" (Z_to_string id).

Definition unique_tool_name (wf : Workflow) (used : gset string) : string * gset string :=
  let name := sanitize (wf_name wf) in
  let name := if is_empty name || bool_decide (name ∈ used) then workflow_alias (wf_id wf) else name in
  let name := if bool_decide (name ∈ used) then workflow_alias (wf_id wf) else name in
  (name, {[name]} ∪ used).

Definition tool_description (wf : Workflow) : string :=
  let generated := String.append "Run the " (String "034" (String.append (wf_name wf) (String "034" " workflow."))) in
  match wf_description wf with
  | Some d => if is_empty (trim d) then generated else trim d
  | None => generated
  end.

(** ** Placeholders *)

Definition name_byte (c : ascii) : bool := is_alnum c || byte_is "_" c || byte_is "." c || byte_is "-" c.
Definition ascii_white (c : ascii) : bool := any (Z.eqb (byte_val c)) [9; 10; 12; 13; 32].

(** The bytes of a class at the head, and the rest. *)
Fixpoint span_bytes (p : ascii -> bool) (s : string) : string * string :=
  match s with
  | EmptyString => (EmptyString, EmptyString)
  | String c r => if p c then let '(a, b) := span_bytes p r in (String c a, b) else (EmptyString, s)
  end.

Definition skip_white (s : string) : string := snd (span_bytes ascii_white s).

Definition push_new (x : string) (l : list string) : list string := if any (str_eqb x) l then l else l ++ [x].

(** The name of an input whose placeholder's text is at the head. *)
Definition input_name (s : string) : option string :=
  match strip_prefix "input." (skip_white s) with
  | Some r =>
      let '(name, r) := span_bytes name_byte r in
      if negb (is_empty name) && starts_with (skip_white r) "}}" then Some name else None
  | None => None
  end.

Fixpoint scan_inputs (skip : nat) (names : list string) (s : string) : list string :=
  match s with
  | EmptyString => names
  | String _ r =>
      match skip with
      | S k => scan_inputs k names r
      | O =>
          match strip_prefix "{{" s with
          | Some rest => scan_inputs 1 (match input_name rest with Some n => push_new n names | None => names end) r
          | None => scan_inputs 0 names r
          end
      end
  end.

Definition scan_input_placeholders : string -> list string := scan_inputs 0 [].

(** A placeholder of an input, qualified or bare. *)
Definition bare_name (raw : string) : bool := negb (is_empty raw) && negb (has_byte (byte_is ":") raw) && str_all name_byte raw.

Fixpoint scan_all (skip : nat) (out : list string) (s : string) : list string :=
  match s with
  | EmptyString => out
  | String _ r =>
      match skip with
      | S k => scan_all k out r
      | O =>
          match strip_prefix "{{" s with
          | Some rest =>
              match find_str rest "}}" with
              | Some n => let raw := trim (str_take n rest) in scan_all (n + 3) (if bare_name raw then push_new raw out else out) r
              | None => out
              end
          | None => scan_all 0 out r
          end
      end
  end.

Definition scan_all_input_placeholders : string -> list string := scan_all 0 [].

(** ** File slots *)

Definition full_text (o : option json) : option string :=
  match o with Some (JStr s) => if is_empty s then None else Some s | _ => None end.

(** The slots under a value, in the order of the walk. *)
Fixpoint file_slots (v : json) : list string :=
  match v with
  | JObj m => option_list (full_text (map_get m "file_slot")) ++ concat (map (fun kv => file_slots (snd kv)) m)
  | JArr l => concat (map file_slots l)
  | _ => []
  end.

Definition dedup (l : list string) : list string := foldl (fun out x => push_new x out) [] l.

Definition collect_file_slots (v : json) : list string := dedup (file_slots v).

Section catalog.
Context `{AuthLibs}.

Definition scan_file_slots (steps_text : string) : list string :=
  match json_from_str steps_text with Some v => collect_file_slots v | None => [] end.

Definition has_slot (o : option json) : bool := match full_text (o ≫= fun v => get v "file_slot") with Some _ => true | None => false end.

(** The key that binds an upload step which declares no slot. *)
Definition step_key (step : json) : option string :=
  if negb (bool_decide (get step "type" ≫= json_as_str = Some "upload")) then None
  else if has_slot (Some step) || has_slot (get step "config") || has_slot (get step "options") then None
  else String.append "step:" <$> full_text (get step "id").

Definition scan_file_inputs (steps_text : string) : list string :=
  let out := scan_file_slots steps_text in
  match json_from_str steps_text with
  | Some (JArr steps) => foldl (fun out step => match step_key step with Some k => push_new k out | None => out end) out steps
  | _ => out
  end.

(** ** The catalog *)

Definition input_property (name : string) : json := JObj [("type", JStr "string"); ("description", JStr (String.append "Input: " name))].
Definition slot_property (slot : string) : json := JObj [("type", JStr "string")].
Definition freshness_property : json := JObj [("type", JStr "integer"); ("minimum", json_of_Z 0)].

Definition insert_absent {A : Type} (k : string) (v : A) (m : list (string * A)) : list (string * A) :=
  match map_get m k with Some _ => m | None => map_insert k v m end.

Definition derive_input_schema (wf : Workflow) : json :=
  let names := scan_input_placeholders (wf_steps wf) in
  let inputs := foldl (fun m n => map_insert n (input_property n) m) [] names in
  let properties := foldl (fun m s => insert_absent s (slot_property s) m) inputs (scan_file_inputs (wf_steps wf)) in
  JObj [("type", JStr "object"); ("properties", JObj (insert_absent FRESHNESS_ARG freshness_property properties)); ("required", JArr (JStr <$> names))].

Definition mcp_on (wf : Workflow) : bool := mcp (connect_surfaces (wf_streaming_config wf)).

Fixpoint entries (rows : list Workflow) (used : gset string) : list ToolEntry :=
  match rows with
  | [] => []
  | wf :: rows =>
      if negb (mcp_on wf) then entries rows used
      else
        let '(name, used) := unique_tool_name wf used in
        mkEntry name (wf_id wf) (tool_description wf) (derive_input_schema wf) :: entries rows used
  end.

(** Newest first. *)
Definition newer_workflow (a b : Workflow) : bool :=
  match String.compare (wf_created_at a) (wf_created_at b) with Gt => true | Lt => false | Eq => wf_id b <=? wf_id a end.

Definition list_workflows (active_only : bool) (limit : Z) (table : list Workflow) : list Workflow :=
  take (Z.to_nat (Z.min 1000 (Z.max 1 limit))) (sort_by newer_workflow (retain (fun wf => negb active_only || wf_is_active wf) table)).

Definition catalog (table : list Workflow) : list ToolEntry := entries (list_workflows true 1000 table) (list_to_set NAMES).

(** Where a call by [name] goes. *)
Definition resolve_name (catalog : list ToolEntry) (name : string) : option Z :=
  match find_first (fun e => str_eqb (e_name e) name) catalog with
  | Some e => Some (e_workflow_id e)
  | None =>
      match strip_prefix "workflow_" name ≫= parse_i64 with
      | Some id => if any (fun e => e_workflow_id e =? id) catalog then Some id else None
      | None => None
      end
  end.
End catalog.
