(* ===== verification/McpGate.v ===== *)
(** * local/mcp/tool_executor.rs, protocol.rs, http.rs: calling a tool

    The scope a tool needs, the call of a tool with the cache of results, and the JSON-RPC dispatch over it. The bodies of the
    static tools (but [writ_run_workflow]) and their public entries, the engine, the derived decoder of a request, the manifests of the marketplace and the table of personas are the interface [McpEnv], over a world [W];
    [begun] is ghost: the tool bodies and the runs that were begun. *)

From Stdlib Require Import Ascii String.
From S2P Require Import Prelude Ints Str Json Store LocalAuth CredStore ServerAuth Flow McpTools.
Open Scope string_scope.
Open Scope list_scope.
Open Scope Z_scope.

Inductive CallError : Type :=
| UnknownTool (name : string)
| BadArgument (msg : string)
| CallForbidden (msg : string)
| CallInternal (e : LocalError).

(** ** The scope of a tool *)

Definition STATIC_TOOL_PREFIX : string := "writ_".

Definition with_scope (s : Scope) (names : list string) : list (string * Scope) := (fun n => (n, s)) <$> names.

Definition TOOL_SCOPES : list (string * Scope) :=
  with_scope Read ["writ_personas"; "writ_list_workflows"; "writ_workflow_data"; "writ_workflow_runs"; "writ_list_datasets"; "writ_dataset";
    "writ_dataset_search"; "writ_search_data"; "writ_crawl_status"; "writ_saved_crawls"; "writ_saved_crawl_data"; "writ_mission_status";
    "writ_search_api"] ++
  with_scope Run ["writ_run_workflow"; "writ_browser_use"; "writ_browser_act"; "writ_browser_context"; "writ_browser_network";
    "writ_browser_cancel"; "writ_scrape"; "writ_map"; "writ_crawl_site"; "writ_run_saved_crawl"; "writ_mission_respond"; "writ_mission_cancel"] ++
  with_scope Admin ["writ_build"; "writ_record_website"; "writ_website_to_api"; "writ_browser_save"; "writ_expose_workflow_api";
    "writ_set_schedule"; "writ_create_monitor"; "writ_wire_monitor"; "writ_create_automation"; "writ_install_api"].

Definition tool_min_scope (name : string) : option Scope := snd <$> find_first (fun p => str_eqb (fst p) name) TOOL_SCOPES.

Definition text_arg (arguments : json) (key : string) : option string := get arguments key ≫= json_as_str.

Definition SAVING : string := "saving a crawl with `save_as` (it creates a reusable, API-callable crawl); omit `save_as` to just run it".
Definition SIGNING_IN : string := "signing a persona in (it runs a real login in a browser)".

Definition arg_escalated_scope (name : string) (arguments : json) : option (Scope * string) :=
  if str_eqb name "writ_crawl_site" && match text_arg arguments "save_as" with Some s => negb (is_empty (trim s)) | None => false end then
    Some (Admin, SAVING)
  else if str_eqb name "writ_personas"
          && match trim <$> text_arg arguments "action" with Some a => any (str_eqb a) ["sign_in"; "record_login"] | None => false end then
    Some (Run, SIGNING_IN)
  else None.

Definition quote (s : string) : string := String.append "'" (String.append s "'").

Definition strings (l : list string) : string := String.concat "" l.

Definition authorize_tool (caller : Caller) (name : string) (arguments : json) : result unit CallError :=
  let escalated :=
    match arg_escalated_scope name arguments with
    | Some (s, operation) =>
        if negb (grants caller s) then
          Some (CallForbidden (strings ["Not authorized: "; operation; " requires the "; quote (scope_as_str s);
            " capability, but this connection was granted "; quote (describe caller); ". Reconnect with an "; quote (scope_as_str s);
            "-scoped API key, or stay within this tool's lower-capability operations."]))
        else None
    | None => None
    end in
  match escalated with
  | Some e => Err e
  | None =>
      let needed := match tool_min_scope name with
                    | Some s => Some s
                    | None => if starts_with name STATIC_TOOL_PREFIX then None else Some Run
                    end in
      match needed with
      | None => Err (CallForbidden (strings ["Tool "; quote name; " is not available: the `writ_` prefix is reserved and this name has no declared capability."]))
      | Some s =>
          if grants caller s then Ok tt
          else Err (CallForbidden (strings ["Not authorized: "; quote name; " requires the "; quote (scope_as_str s);
            " capability, but this connection was granted "; quote (describe caller); ". Ask the user to issue an API key with the "; quote (scope_as_str s);
            " scope in the Writ app (Settings "; of_bytes [chr 226; chr 134; chr 146]; " API keys) and reconnect with it."]))
      end
  end.

(** ** The surroundings *)

(** The tools with a body of their own. *)
Definition STATIC_CALLS : list string :=
  ["writ_personas"; "writ_browser_use"; "writ_build"; "writ_record_website"; "writ_website_to_api"; "writ_crawl_site"; "writ_crawl_status";
   "writ_saved_crawls"; "writ_run_saved_crawl"; "writ_saved_crawl_data"; "writ_scrape"; "writ_map"; "writ_expose_workflow_api";
   "writ_browser_act"; "writ_browser_context"; "writ_browser_network"; "writ_browser_save"; "writ_browser_cancel"; "writ_mission_status";
   "writ_mission_respond"; "writ_mission_cancel"; "writ_list_workflows"; "writ_run_workflow"; "writ_workflow_data"; "writ_workflow_runs";
   "writ_list_datasets"; "writ_dataset"; "writ_dataset_search"; "writ_set_schedule"; "writ_create_monitor"; "writ_wire_monitor";
   "writ_create_automation"; "writ_search_data"].

(** Those of a build with the cloud. *)
Definition CLOUD_CALLS : list string := ["writ_search_api"; "writ_install_api"].

(** A request, or a notification when it has no id. *)
Record JsonRpcRequest : Type := mkRpc { rpc_id : option json; rpc_method : string; rpc_params : json }.

Class McpEnv (W : Type) : Type := {
  static_body : string -> json -> W -> result json CallError * W;
  run_engine : RunRequest -> W -> result RunResult LocalError * W;
  marketplace_needs_input : string -> json -> W -> result (option json * json) CallError * W;
  persona_by_id : Z -> W -> result (option Z) LocalError;
  persona_by_name : string -> W -> result (option Z) LocalError;
  value_text : json -> string;
  pretty_text : json -> string;
  cloud : bool;
  is_linked : W -> result bool LocalError;
  static_entries : list json;
  initialized : json;
  decode_request : json -> option JsonRpcRequest;
}.

Inductive Done : Type :=
| StaticTool (name : string) (arguments : json)
| EngineRun (req : RunRequest).

Record McpState (W : Type) : Type := mkMcp {
  wf_table : list Workflow;
  result_cache : gmap string (Z * json);
  instants : list Z;
  db_faults : list bool;
  begun : list Done;
  mcp_world : W;
}.
Arguments mkMcp {W}. Arguments wf_table {W}. Arguments result_cache {W}. Arguments instants {W}. Arguments db_faults {W}. Arguments begun {W}.
Arguments mcp_world {W}.

Section setters.
Context {W : Type}.
Definition set_cache (c : gmap string (Z * json)) (s : McpState W) : McpState W := mkMcp (wf_table s) c (instants s) (db_faults s) (begun s) (mcp_world s).
Definition set_instants (l : list Z) (s : McpState W) : McpState W := mkMcp (wf_table s) (result_cache s) l (db_faults s) (begun s) (mcp_world s).
Definition set_db_faults (l : list bool) (s : McpState W) : McpState W := mkMcp (wf_table s) (result_cache s) (instants s) l (begun s) (mcp_world s).
Definition log_done (d : Done) (s : McpState W) : McpState W := mkMcp (wf_table s) (result_cache s) (instants s) (db_faults s) (begun s ++ [d]) (mcp_world s).
Definition set_mcp_world (w : W) (s : McpState W) : McpState W := mkMcp (wf_table s) (result_cache s) (instants s) (db_faults s) (begun s) w.
End setters.

(** A step of a call, with its error. *)
Definition C (W A : Type) : Type := McpState W -> result A CallError * McpState W.

Section calls.
Context `{AuthLibs} {W : Type} `{McpEnv W}.

Definition cret {A : Type} (a : A) : C W A := fun s => (Ok a, s).
Definition cthrow {A : Type} (e : CallError) : C W A := fun s => (Err e, s).
Definition cbind {A B : Type} (c : C W A) (k : A -> C W B) : C W B :=
  fun s => match c s with (Ok a, s) => k a s | (Err e, s) => (Err e, s) end.
Local Notation "x <-- c ; k" := (cbind c (fun x => k)) (at level 100, c at level 99, k at level 200, right associativity).

(** A database statement: its error is internal. *)
Definition query {A : Type} (f : McpState W -> A) : C W A := fun s =>
  match db_faults s with
  | true :: fs => (Err (CallInternal DbError), set_db_faults fs s)
  | false :: fs => (Ok (f s), set_db_faults fs s)
  | [] => (Ok (f s), s)
  end.

Definition in_world {A : Type} (f : W -> result A CallError * W) : C W A := fun s =>
  let '(r, w) := f (mcp_world s) in (r, set_mcp_world w s).

Definition internal {A : Type} (r : result A LocalError) : result A CallError := map_err CallInternal r.

(** [Instant::now], in nanoseconds; the last reading stays. *)
Definition instant_now : C W Z := fun s =>
  match instants s with [] => (Ok 0, s) | [t] => (Ok t, s) | t :: ts => (Ok t, set_instants ts s) end.

(** ** The cache of results *)

Definition RESULT_CACHE_MAX : nat := 256.

Definition pair_le (a b : string * json) : bool := match String.compare (fst a) (fst b) with Gt => false | _ => true end.

Definition canonical_inputs (inputs : json) : string :=
  match inputs with
  | JObj m => String.concat "&" ((fun p => strings [fst p; "="; value_text (snd p)]) <$> sort_by pair_le m)
  | _ => ""
  end.

Definition freshness_key (workflow_id : Z) (inputs : json) : string := strings [Z_to_string workflow_id; ":"; canonical_inputs inputs].

(** Whole seconds from one instant to a later one. *)
Definition elapsed_secs (at_ now : Z) : Z := Z.max 0 (now - at_) / 1000000000.

Definition stamp (result : json) (age : Z) : json :=
  match result with
  | JObj m => JObj (map_insert "_cache" (JObj [("hit", JBool true); ("age_seconds", json_of_Z age)]) m)
  | r => r
  end.

Definition cached_run (key : string) (max_age_seconds : Z) : C W (option json) := fun s =>
  match result_cache s !! key with
  | None => (Ok None, s)
  | Some (stored_at, result) =>
      (now <-- instant_now ;
       let age := elapsed_secs stored_at now in
       cret (if (max_age_seconds <=? 0) || (max_age_seconds <? age) then None else Some (stamp result age))) s
  end.

(** Among entries of the same age, the one the code leaves open is the first of [map_to_list]. *)
Definition oldest (c : gmap string (Z * json)) : option string := fst <$> min_by_key (fun e => fst (snd e)) (map_to_list c).

Definition is_error (result : json) : bool := default false (get result "isError" ≫= json_as_bool).

Definition evict (c : gmap string (Z * json)) : gmap string (Z * json) :=
  if (RESULT_CACHE_MAX <=? size c)%nat then match oldest c with Some k => delete k c | None => c end else c.

Definition store_run (key : string) (result : json) : C W unit :=
  if is_error result then cret tt
  else now <-- instant_now ; fun s => (Ok tt, set_cache (<[key := (now, result)]> (evict (result_cache s))) s).

(** ** The inputs of a call *)

Definition filled (v : json) : bool :=
  negb (is_null v) && match json_as_str v with Some t => negb (is_empty (trim t)) | None => true end.

Definition input_of (m : jobj) (key raw : string) : option json :=
  match (match map_get m key with Some v => Some v | None => map_get m raw end) with
  | Some v => if filled v then Some v else None
  | None => None
  end.

Definition looks_sensitive (key : string) : bool :=
  let k := to_ascii_lowercase key in
  any (contains k) ["password"; "passwd"; "secret"; "token"; "api_key"; "apikey"; "credential"].

Definition label (key : string) : string := replace_byte (byte_is "_") " " key.

Definition saved_data (wf : Workflow) : jobj :=
  match wf_form_data wf ≫= json_from_str with Some (JObj m) => m | _ => [] end.

Definition object_of (v : json) : jobj := match v with JObj m => m | _ => [] end.

Definition asked_key (raw : string) : string := default raw (strip_prefix "input." raw).

Definition missing_inputs (wf : Workflow) (inputs : json) : list string :=
  retain (fun raw => match input_of (object_of inputs) (asked_key raw) raw, input_of (saved_data wf) (asked_key raw) raw with
                     | None, None => true | _, _ => false end) (scan_all_input_placeholders (wf_steps wf)).

Definition missing_files (wf : Workflow) (inputs : json) : list string :=
  retain (fun slot => negb match text_arg inputs slot with Some t => negb (is_empty (trim t)) | None => false end) (scan_file_slots (wf_steps wf)).

Definition field (key kind : string) (sensitive : bool) : json :=
  JObj [("key", JStr key); ("label", JStr (label key)); ("kind", JStr kind); ("sensitive", JBool sensitive)].

Definition content (text : string) (error : bool) : json :=
  JObj [("content", JArr [JObj [("type", JStr "text"); ("text", JStr text)]]); ("isError", JBool error)].

Definition NEXT : string := "Ask the user for these values in the connected AI chat, then call this workflow again with them as arguments. Do not open Writ's run modal.".

Definition missing_input_result (wf : Workflow) (inputs : json) : option json :=
  let fields := ((fun raw => field (asked_key raw) "text" (looks_sensitive (asked_key raw))) <$> missing_inputs wf inputs)
                ++ ((fun slot => field slot "file" false) <$> missing_files wf inputs) in
  if bool_decide (length fields = 0%nat) then None
  else Some (content (pretty_text (JObj [("status", JStr "needs_input"); ("workflow_id", json_of_Z (wf_id wf)); ("workflow", JStr (wf_name wf));
                                          ("fields", JArr fields); ("next", JStr NEXT)])) false).

(** [Map::remove] under [preserve_order]: the last entry takes the place of the one removed. *)
Fixpoint map_remove {A : Type} (k : string) (m : list (string * A)) : list (string * A) :=
  match m with
  | [] => []
  | (k', v) :: m =>
      if str_eqb k' k then match last m with Some l => l :: removelast m | None => [] end
      else (k', v) :: map_remove k m
  end.

(** One slot: its handle leaves the plain inputs. *)
Definition lift_slot (st : jobj * list (string * string)) (slot : string) : jobj * list (string * string) :=
  match map_get (fst st) slot with
  | Some (JStr handle) => if is_empty handle then st else (map_remove slot (fst st), snd st ++ [(slot, handle)])
  | _ => st
  end.

Definition bind_file (files : jobj) (sh : string * string) : jobj :=
  map_insert (snd sh) (JObj [("file_id", JStr (snd sh)); ("slots", JArr [JStr (fst sh)])]) files.

Definition lift_file_slots (inputs : json) (steps_text : string) : json :=
  match inputs with
  | JObj m =>
      let '(obj, lifted) := foldl lift_slot (m, []) (scan_file_inputs steps_text) in
      if bool_decide (length lifted = 0%nat) then JObj obj
      else
        let obj := insert_absent "files" (JObj []) obj in
        match map_get obj "files" with
        | Some (JObj files) => JObj (map_insert "files" (JObj (foldl bind_file files lifted)) obj)
        | _ => JObj obj
        end
  | v => v
  end.

(** ** Running a workflow *)

Definition to_mcp_result (result : RunResult) : json :=
  if success result then content (pretty_text (extracted_data result)) false
  else content (String.append "Error: " (default "workflow run failed" (run_error result))) true.

Definition kind_of (v : json) : string :=
  match v with JNull => "null" | JBool _ => "boolean" | JNum _ => "number" | JStr _ => "string" | JArr _ => "array" | JObj _ => "object" end.

Definition SESSION_GONE : string :=
  "Error: the Writ Cloud session on this device is no longer valid (expired login, or a device key from an older link), so this marketplace-installed workflow cannot run. Ask the user to re-link their Writ Cloud account in the Writ app (Settings → Account — linking is free), then call this tool again.".

Definition int_arg (v : json) : option Z :=
  match json_as_i64 v with Some n => Some n | None => json_as_str v ≫= fun t => parse_i64 (trim t) end.

Definition one_query {A : Type} (f : W -> result A LocalError) : C W A := fun s =>
  match query (fun s => internal (f (mcp_world s))) s with (Ok r, s) => (r, s) | (Err e, s) => (Err e, s) end.

Definition resolve_persona (v : json) : C W Z :=
  match int_arg v with
  | Some id =>
      p <-- one_query (persona_by_id id) ;
      match p with Some id => cret id | None => cthrow (BadArgument (String.append "no persona with id " (Z_to_string id))) end
  | None =>
      match trim <$> json_as_str v with
      | Some name =>
          if is_empty name then cthrow (BadArgument "'persona' must be a persona id or name")
          else p <-- one_query (persona_by_name name) ;
               match p with Some id => cret id | None => cthrow (BadArgument (strings ["no persona named "; quote name])) end
      | None => cthrow (BadArgument "'persona' must be a persona id or name")
      end
  end.

Definition get_wf (id : Z) : C W (option Workflow) := query (fun s => find_first (fun wf => wf_id wf =? id) (wf_table s)).

Definition is_proxy (wf : Workflow) : bool := match wf_marketplace_slug wf with Some slug => negb (is_empty slug) | None => false end.

Definition marketplace_gate (wf : Workflow) (inputs : json) : C W (option json * json) :=
  if cloud then in_world (marketplace_needs_input (default "" (wf_marketplace_slug wf)) inputs) else cret (None, inputs).

(** What the workflow asks of the inputs: an answer at once, or the persona and the inputs of the run. *)
Definition prepare (wf : option Workflow) (inputs : json) : C W (json + option Z * json) :=
  match wf with
  | None => cret (inr (None, inputs))
  | Some wf =>
      if is_proxy wf then
        g <-- marketplace_gate wf inputs ;
        match fst g with Some prompt => cret (inl prompt) | None => cret (inr (None, snd g)) end
      else
        let persona := match map_get (object_of inputs) "persona" with Some v => if is_null v then None else Some v | None => None end in
        let inputs := match inputs with JObj m => JObj (map_remove "persona" m) | v => v end in
        p <-- match persona with Some v => id <-- resolve_persona v ; cret (Some id) | None => cret None end ;
        match missing_input_result wf inputs with
        | Some prompt => cret (inl prompt)
        | None => cret (inr (p, lift_file_slots inputs (wf_steps wf)))
        end
  end.

Definition run_request (workflow_id : Z) (inputs : json) (persona : option Z) : RunRequest :=
  mkRequest workflow_id inputs Mcp Interactive false persona true.

(** The engine's run, begun and ended. *)
Definition drive (req : RunRequest) : C W (result RunResult LocalError) := fun s =>
  let '(r, w) := run_engine req (mcp_world s) in (Ok r, set_mcp_world w (log_done (EngineRun req) s)).

Definition run_workflow_tool (workflow_id : Z) (arguments : json) : C W json :=
  match (match arguments with JNull => Some [] | JObj m => Some m | _ => None end) with
  | None => cthrow (BadArgument (String.append "arguments must be a JSON object, got " (kind_of arguments)))
  | Some m =>
      let requested_max_age := Z.max 0 (default 0 (map_get m FRESHNESS_ARG ≫= json_as_i64)) in
      let inputs := JObj (map_remove FRESHNESS_ARG m) in
      let key := freshness_key workflow_id inputs in
      hit <-- (if 0 <? requested_max_age then cached_run key requested_max_age else cret None) ;
      match hit with
      | Some v => cret v
      | None =>
          wf <-- get_wf workflow_id ;
          p <-- prepare wf inputs ;
          match p with
          | inl prompt => cret prompt
          | inr (persona, inputs) =>
              r <-- drive (run_request workflow_id inputs persona) ;
              match r with
              | Ok result => let v := to_mcp_result result in (u <-- store_run key v ; cret v)
              | Err (BadRequest msg) => cret (content (String.append "Error: " msg) true)
              | Err Unauthorized => cret (content SESSION_GONE true)
              | Err e => cthrow (CallInternal e)
              end
          end
      end
  end.

(** ** Static tools *)

Definition is_none {A : Type} (o : option A) : bool := match o with None => true | Some _ => false end.

Definition id_arg (v : json) : option Z :=
  match int_arg v with Some n => Some n | None => json_as_str v ≫= fun t => strip_prefix "workflow_" t ≫= parse_i64 end.

Definition resolve_workflow (v : option json) : C W Workflow :=
  match v with
  | None => cthrow (BadArgument "missing 'workflow' (name or id)")
  | Some v =>
      match id_arg v with
      | Some id =>
          wf <-- get_wf id ;
          match wf with Some wf => cret wf | None => cthrow (BadArgument (String.append "no workflow with id " (Z_to_string id))) end
      | None =>
          match json_as_str v with
          | None => cthrow (BadArgument "'workflow' must be a name or id")
          | Some name =>
              rows <-- query (fun s => list_workflows false 1000 (wf_table s)) ;
              match find_first (fun wf => str_eqb (sanitize (wf_name wf)) (sanitize name)) rows with
              | Some wf => cret wf
              | None => cthrow (BadArgument (strings ["no workflow named "; quote name; " — call writ_list_workflows to see what exists"]))
              end
          end
      end
  end.

Definition described (wf : Workflow) : string := strings ["workflow "; quote (wf_name wf); " (id "; Z_to_string (wf_id wf); ") "].

(** The controls of the call, carried among the inputs. *)
Definition carried (args : json) (m : jobj) : jobj :=
  let m := match get args FRESHNESS_ARG with Some v => map_insert FRESHNESS_ARG v m | None => m end in
  match get args "persona" with Some p => if is_null p then m else map_insert "persona" p m | None => m end.

Definition run_workflow (args : json) : C W json :=
  wf <-- resolve_workflow (get args "workflow") ;
  if negb (wf_is_active wf) then cret (content (String.append (described wf) "is disabled — enable it in Writ first") true)
  else if negb (mcp_on wf) then cret (content (String.append (described wf) "has its MCP surface turned off (Connect tab in Writ)") true)
  else
    match default (JObj []) (get args "inputs") with
    | JObj m => run_workflow_tool (wf_id wf) (JObj (carried args m))
    | _ => cthrow (BadArgument "'inputs' must be a JSON object")
    end.

(** A body of the interface, begun and ended. *)
Definition other_body (name : string) (args : json) : C W json := fun s =>
  let '(r, w) := static_body name args (mcp_world s) in (r, set_mcp_world w (log_done (StaticTool name args) s)).

Definition static_call (name : string) (args : json) : option (C W json) :=
  if str_eqb name "writ_run_workflow" then Some (run_workflow args)
  else if any (str_eqb name) STATIC_CALLS || cloud && any (str_eqb name) CLOUD_CALLS then Some (other_body name args)
  else None.

Definition resolve_workflow_id (name : string) : C W Z :=
  c <-- query (fun s => catalog (wf_table s)) ;
  match resolve_name c name with Some id => cret id | None => cthrow (UnknownTool name) end.

Definition call_tool (caller : Caller) (name : string) (arguments : json) : C W json :=
  match authorize_tool caller name arguments with
  | Err e => cthrow e
  | Ok _ =>
      match static_call name arguments with
      | Some body => body
      | None => id <-- resolve_workflow_id name ; run_workflow_tool id arguments
      end
  end.

(** ** JSON-RPC *)

Definition INVALID_REQUEST : Z := -32600.
Definition METHOD_NOT_FOUND : Z := -32601.
Definition INVALID_PARAMS : Z := -32602.
Definition INTERNAL_ERROR : Z := -32603.
Definition PARSE_ERROR : Z := -32700.

(** A response: its id, and a result or an error. The reference of an internal error is random and left out, and so is the text of [initialize]. *)
Inductive Reply : Type :=
| Replied (result : json)
| Failed (code : Z) (message : string).

Record JsonRpcResponse : Type := mkResponse { resp_id : json; reply : Reply }.

Definition to_public (e : ToolEntry) : json :=
  JObj [("name", JStr (e_name e)); ("description", JStr (e_description e)); ("inputSchema", e_input_schema e)].

(** The static tools come first; those of the marketplace only when the app is linked. *)
Definition list_tools : C W json :=
  linked <-- (if cloud then one_query is_linked else cret true) ;
  rows <-- query (fun s => catalog (wf_table s)) ;
  let shown t := linked || negb match text_arg t "name" with Some n => any (str_eqb n) CLOUD_CALLS | None => false end in
  cret (JArr (retain shown static_entries ++ (to_public <$> rows))).

Definition call_reply (r : result json CallError) : Reply :=
  match r with
  | Ok v => Replied v
  | Err (UnknownTool n) => Failed INVALID_PARAMS (String.append "Unknown tool: " n)
  | Err (BadArgument msg) => Failed INVALID_PARAMS msg
  | Err (CallForbidden msg) => Failed INVALID_REQUEST msg
  | Err (CallInternal _) => Failed INTERNAL_ERROR "Internal error"
  end.

Definition list_reply (r : result json CallError) : Reply :=
  match r with Ok v => Replied (JObj [("tools", v)]) | Err _ => Failed INTERNAL_ERROR "Failed to list tools" end.

Definition rpc_handle (caller : Caller) (req : JsonRpcRequest) (s : McpState W) :
    option JsonRpcResponse * McpState W :=
  let is_notification := is_none (rpc_id req) || starts_with (rpc_method req) "notifications/" in
  let id := default JNull (rpc_id req) in
  let respond r := Some (mkResponse id r) in
  let method := rpc_method req in
  if is_empty method then (if is_notification then None else respond (Failed INVALID_REQUEST "Missing method"), s)
  else if str_eqb method "initialize" then (respond (Replied initialized), s)
  else if starts_with method "notifications/" then (None, s)
  else if str_eqb method "ping" then (respond (Replied (JObj [])), s)
  else if str_eqb method "tools/list" then let '(r, s) := list_tools s in (respond (list_reply r), s)
  else if str_eqb method "tools/call" then
    let name := default "" (text_arg (rpc_params req) "name") in
    if is_empty name then (respond (Failed INVALID_PARAMS "Missing tool name"), s)
    else
      let arguments := default (JObj []) (get (rpc_params req) "arguments") in
      let '(r, s) := call_tool caller name arguments s in (respond (call_reply r), s)
  else (if is_notification then None else respond (Failed METHOD_NOT_FOUND (String.append "Unknown method: " method)), s).

(** A frame, decoded by the derived decoder. *)
Definition handle_value (caller : Caller) (frame : json)
    (s : McpState W) : option JsonRpcResponse * McpState W :=
  match decode_request frame with
  | None => (Some (mkResponse JNull (Failed INVALID_REQUEST "Invalid JSON-RPC request")), s)
  | Some req => rpc_handle caller req s
  end.

Fixpoint handle_batch (caller : Caller) (frames : list json)
    (s : McpState W) : list JsonRpcResponse * McpState W :=
  match frames with
  | [] => ([], s)
  | frame :: frames =>
      let '(r, s) := handle_value caller frame s in
      let '(rs, s) := handle_batch caller frames s in
      (option_list r ++ rs, s)
  end.

(** The body of [POST /mcp]: no body, a response, or a list of them. *)
Inductive HttpReply : Type := Accepted | One (r : JsonRpcResponse) | Many (l : list JsonRpcResponse).

Definition post_mcp (caller : option Caller) (body : json)
    (s : McpState W) : HttpReply * McpState W :=
  let caller := caller_or_deny caller in
  match body with
  | JArr frames =>
      if bool_decide (length frames = 0%nat) then (One (mkResponse JNull (Failed INVALID_REQUEST "Empty batch")), s)
      else let '(rs, s) := handle_batch caller frames s in
           (if bool_decide (length rs = 0%nat) then Accepted else Many rs, s)
  | JObj _ =>
      let '(r, s) := handle_value caller body s in
      (match r with Some r => One r | None => Accepted end, s)
  | _ => (One (mkResponse JNull (Failed PARSE_ERROR "Request body must be a JSON-RPC object or array")), s)
  end.
End calls.
