(* ===== verification/McpAudit.v ===== *)
(** * What the MCP surface guarantees

    The names of the catalog and where they lead; what a caller with a scope can begin through a request; the cache of results. *)

From Stdlib Require Import Ascii String.
From S2P Require Import Prelude Ints Str Json Store LocalAuth CredStore OAuth ServerAuth OAuthAudit AuthAudit Flow McpTools McpGate.
Open Scope string_scope.
Open Scope list_scope.
Open Scope Z_scope.

(** ** The catalog *)

Section catalog.
Context `{AuthLibs}.

(** A workflow whose tools a caller may reach. *)
Definition exposed_wf (table : list Workflow) (id : Z) : Prop :=
  exists wf, wf ∈ table /\ wf_id wf = id /\ wf_is_active wf = true /\ mcp_on wf = true.

Lemma list_workflows_elem (table : list Workflow) (limit : Z) (wf : Workflow) :
  wf ∈ list_workflows true limit table -> wf ∈ table /\ wf_is_active wf = true.
Proof. intros (i & Hi & _)%elem_of_take. apply list_elem_of_lookup_2, sort_by_elem, elem_of_retain in Hi as [Ha Hw]. done. Qed.

(** What a name in the catalog is. *)
Lemma unique_name_spec (wf : Workflow) (used : gset string) :
  (unique_tool_name wf used).1 = workflow_alias (wf_id wf) \/
  (unique_tool_name wf used).1 = sanitize (wf_name wf) /\ (unique_tool_name wf used).1 ∉ used.
Proof.
  unfold unique_tool_name. simpl. destruct (is_empty _ || _) eqn:E; simpl.
  - left. destruct (bool_decide (workflow_alias (wf_id wf) ∈ used)); reflexivity.
  - apply orb_false_iff in E as [_ E]. rewrite E. right. split; [done|]. by apply bool_decide_eq_false in E.
Qed.

Lemma entries_cons (wf : Workflow) (rows : list Workflow) (used : gset string) :
  entries (wf :: rows) used =
    if mcp_on wf then
      mkEntry (unique_tool_name wf used).1 (wf_id wf) (tool_description wf) (derive_input_schema wf)
      :: entries rows ({[(unique_tool_name wf used).1]} ∪ used)
    else entries rows used.
Proof. cbn [entries]. by destruct (mcp_on wf). Qed.

Lemma entries_elem (rows : list Workflow) (used : gset string) (e : ToolEntry) : e ∈ entries rows used ->
  exists wf, wf ∈ rows /\ mcp_on wf = true /\ e_workflow_id e = wf_id wf /\
    (e_name e = workflow_alias (wf_id wf) \/ e_name e = sanitize (wf_name wf) /\ e_name e ∉ used).
Proof.
  revert used. induction rows as [|wf rows IH]; intros used; [by intros He%elem_of_nil|]. rewrite entries_cons.
  destruct (mcp_on wf) eqn:Em; [|intros (wf' & Hw & Hr)%IH; exists wf'; split; [by right|done]].
  pose proof (unique_name_spec wf used) as Hs. revert Hs. generalize (unique_tool_name wf used).1 as name. intros name Hs.
  intros [->|He]%elem_of_cons; [exists wf; split; [left|]; done|].
  destruct (IH _ He) as (wf' & Hw & Hm & Hid & Hn). exists wf'. split; [by right|]. split_and!; [done|done|].
  destruct Hn as [Hn|[Hn Hu]]; [by left|right]. split; [done|]. set_solver.
Qed.

Lemma entries_route (rows : list Workflow) (used : gset string) (e : ToolEntry) : e ∈ entries rows used ->
  find_first (fun e' => str_eqb (e_name e') (e_name e)) (entries rows used) = Some e \/ e_name e = workflow_alias (e_workflow_id e).
Proof.
  revert used. induction rows as [|wf rows IH]; intros used; [by intros He%elem_of_nil|]. rewrite entries_cons.
  destruct (mcp_on wf); [|apply IH]. generalize (unique_tool_name wf used).1 as name. intros name.
  intros [->|He]%elem_of_cons; [left; simpl; by rewrite str_eqb_refl|].
  cbn [find_first e_name]. destruct (str_eqb name (e_name e)) eqn:E; [|by apply IH]. apply str_eqb_eq in E.
  right. destruct (entries_elem _ _ _ He) as (wf' & _ & _ & -> & [Hn|[_ Hu]]); [done|]. rewrite <- E in Hu. set_solver.
Qed.

Lemma catalog_exposed (table : list Workflow) (e : ToolEntry) : e ∈ catalog table -> exposed_wf table (e_workflow_id e).
Proof.
  intros (wf & Hw & Hm & -> & _)%entries_elem. apply list_workflows_elem in Hw as [Hw Ha]. by exists wf.
Qed.

Lemma resolve_exposed (table : list Workflow) (name : string) (id : Z) : resolve_name (catalog table) name = Some id -> exposed_wf table id.
Proof.
  unfold resolve_name. destruct (find_first _ _) as [e|] eqn:E.
  - intros [= <-]. apply find_first_claim in E as [He _]. by apply catalog_exposed.
  - destruct (_ ≫= parse_i64) as [n|]; [|done]. destruct (any _ _) eqn:Ea; [|done]. intros [= <-].
    apply any_true in Ea as (e & He & Hid). apply Z.eqb_eq in Hid as <-. by apply catalog_exposed.
Qed.

Lemma alias_not_reserved (id : Z) : workflow_alias id ∉ NAMES.
Proof. intros Hn. unfold NAMES, workflow_alias in Hn. repeat (apply elem_of_cons in Hn as [Hn|Hn]; [done|]). by apply elem_of_nil in Hn. Qed.

Lemma catalog_name (table : list Workflow) (e : ToolEntry) : e ∈ catalog table -> e_name e ∉ NAMES.
Proof.
  intros (wf & _ & _ & _ & [->|[_ Hu]])%entries_elem; [apply alias_not_reserved|]. by rewrite elem_of_list_to_set in Hu.
Qed.

Lemma resolve_unreserved (table : list Workflow) (name : string) (id : Z) : resolve_name (catalog table) name = Some id -> name ∉ NAMES.
Proof.
  unfold resolve_name. destruct (find_first _ _) as [e|] eqn:E.
  - intros _. apply find_first_claim in E as [He <-%str_eqb_eq]. by apply catalog_name in He.
  - destruct (strip_prefix "workflow_" name) as [r|] eqn:Er; [|done]. intros _. apply strip_prefix_Some in Er as ->.
    intros Hn. unfold NAMES in Hn. repeat (apply elem_of_cons in Hn as [Hn|Hn]; [done|]). by apply elem_of_nil in Hn.
Qed.

Lemma alias_inj (a b : Z) : in_i64 a -> in_i64 b -> workflow_alias a = workflow_alias b -> a = b.
Proof.
  intros Ha Hb E. assert (E' : Z_to_string a = Z_to_string b) by (unfold workflow_alias in E; by simplify_eq/=).
  pose proof (parse_Z_to_string a Ha) as P. rewrite E', (parse_Z_to_string b Hb) in P. by injection P.
Qed.

(** The names a workflow would be given are not those of a fallback. *)
Definition no_alias_names (table : list Workflow) : Prop :=
  forall wf wf', wf ∈ table -> wf' ∈ table -> sanitize (wf_name wf) <> workflow_alias (wf_id wf').

(** A name leads only to a workflow that is active and has its MCP surface on, and never a reserved one. Every tool of the catalog has a name that is not
    reserved, and is what its name leads to, unless the name is the fallback that carries its id; and that one too, where no workflow is
    named like a fallback and ids are 64-bit integers. *)
Theorem catalog_routes (table : list Workflow) :
  (forall name id, resolve_name (catalog table) name = Some id -> exposed_wf table id /\ name ∉ NAMES) /\
  (forall e, e ∈ catalog table -> e_name e ∉ NAMES /\
     (resolve_name (catalog table) (e_name e) = Some (e_workflow_id e) \/ e_name e = workflow_alias (e_workflow_id e))) /\
  ((forall wf, wf ∈ table -> in_i64 (wf_id wf)) -> no_alias_names table ->
   forall e, e ∈ catalog table -> resolve_name (catalog table) (e_name e) = Some (e_workflow_id e)).
Proof.
  assert (H2 : forall e, e ∈ catalog table ->
     resolve_name (catalog table) (e_name e) = Some (e_workflow_id e) \/ e_name e = workflow_alias (e_workflow_id e)).
  { intros e He. destruct (entries_route _ _ _ He) as [E|E]; [left|by right]. unfold resolve_name, catalog. by rewrite E. }
  split; [|split].
  - intros name id Hr. split; [by eapply resolve_exposed|by eapply resolve_unreserved].
  - intros e He. split; [by apply catalog_name in He|by apply H2].
  - intros Hids Hno e He. destruct (H2 e He) as [E|E]; [done|]. unfold resolve_name.
    destruct (find_first _ _) as [e'|] eqn:Ef.
    + apply find_first_claim in Ef as [He' Hn%str_eqb_eq]. f_equal.
      destruct (entries_elem _ _ _ He) as (wf & [Hw _]%list_workflows_elem & _ & Eid & _).
      destruct (entries_elem _ _ _ He') as (wf' & [Hw' _]%list_workflows_elem & _ & Eid' & [Hn'|[Hn' _]]).
      * rewrite Eid', Eid. apply alias_inj; [by apply Hids|by apply Hids|]. congruence.
      * exfalso. apply (Hno wf' wf Hw' Hw). congruence.
    + exfalso. rewrite find_first_None in Ef. specialize (Ef e He). by rewrite str_eqb_refl in Ef.
Qed.
End catalog.

(** ** What a caller begins *)

Section calls.
Context `{AuthLibs} {W : Type} `{McpEnv W}.

(** What may be begun for a caller. *)
Definition allowed (caller : Caller) (table : list Workflow) (d : Done) : Prop :=
  match d with
  | StaticTool name args =>
      (exists s, tool_min_scope name = Some s /\ grants caller s = true) /\
      (forall s operation, arg_escalated_scope name args = Some (s, operation) -> grants caller s = true)
  | EngineRun req => grants caller Run = true /\ r_source req = Mcp /\ exposed_wf table (r_workflow_id req)
  end.

(** The cache has at most [RESULT_CACHE_MAX] results, and no failure. *)
Definition cache_ok (c : gmap string (Z * json)) : Prop :=
  (size c <= RESULT_CACHE_MAX)%nat /\ forall k t v, c !! k = Some (t, v) -> is_error v = false.

(** A step leaves the table as it is, begins only what [P] lets it and keeps the cache in order; its result is in [Q]. *)
Definition begins {A : Type} (table : list Workflow) (P : Done -> Prop) (c : C W A) (Q : A -> Prop) : Prop :=
  forall s, wf_table s = table ->
    (wf_table (c s).2 = table /\ (cache_ok (result_cache s) -> cache_ok (result_cache (c s).2))) /\
    (exists l, begun (c s).2 = begun s ++ l /\ Forall P l) /\ (forall a, (c s).1 = Ok a -> Q a).

Lemma begins_ret {A : Type} (table : list Workflow) (P : Done -> Prop) (a : A) (Q : A -> Prop) : Q a -> begins table P (cret a) Q.
Proof. intros HQ s Hs. split; [done|]. split; [exists []; by rewrite app_nil_r|by intros ? [= <-]]. Qed.

Lemma begins_throw {A : Type} (table : list Workflow) (P : Done -> Prop) (e : CallError) (Q : A -> Prop) : begins table P (cthrow e) Q.
Proof. intros s Hs. split; [done|]. split; [exists []; by rewrite app_nil_r|done]. Qed.

Lemma begins_bind {A B : Type} (table : list Workflow) (P : Done -> Prop) (c : C W A) (k : A -> C W B) (R : A -> Prop) (Q : B -> Prop) :
  begins table P c R -> (forall a, R a -> begins table P (k a) Q) -> begins table P (cbind c k) Q.
Proof.
  intros Hc Hk s Hs. unfold cbind. destruct (Hc s Hs) as ([Ht Hok] & (l & Hl & HP) & HR). destruct (c s) as [[a|e] s']; simpl in *.
  - destruct (Hk a (HR a eq_refl) s' Ht) as ([Ht' Hok'] & (l' & Hl' & HP') & HQ). split; [by auto|]. split; [|done].
    exists (l ++ l'). rewrite Hl', Hl, app_assoc. split; [done|]. by apply Forall_app.
  - split; [done|]. split; [by exists l|done].
Qed.

Lemma begins_quiet {A : Type} (table : list Workflow) (P : Done -> Prop) (c : C W A) (Q : A -> Prop) :
  (forall s, wf_table (c s).2 = wf_table s /\ begun (c s).2 = begun s /\ result_cache (c s).2 = result_cache s) -> (forall s a, wf_table s = table -> (c s).1 = Ok a -> Q a) -> begins table P c Q.
Proof.
  intros Hc HQ s Hs. destruct (Hc s) as (Ht & Hb & Hcc). split; [split; [congruence|by rewrite Hcc]|]. split; [exists []; by rewrite app_nil_r|]. intros a. by apply HQ.
Qed.

Lemma begins_query {A : Type} (table : list Workflow) (P : Done -> Prop) (f : McpState W -> A) (Q : A -> Prop) :
  (forall s, wf_table s = table -> Q (f s)) -> begins table P (query f) Q.
Proof.
  intros HQ. apply begins_quiet.
  - intros s. unfold query. by destruct (db_faults s) as [|[] fs].
  - intros s a Hs. unfold query. destruct (db_faults s) as [|[] fs]; intros [= <-]; by apply HQ.
Qed.

Lemma begins_mono {A : Type} (table : list Workflow) (P P' : Done -> Prop) (c : C W A) (Q Q' : A -> Prop) :
  (forall d, P d -> P' d) -> (forall a, Q a -> Q' a) -> begins table P c Q -> begins table P' c Q'.
Proof.
  intros HP HQ Hc s Hs. destruct (Hc s Hs) as (Ht & (l & Hl & Hall) & HR). split; [done|]. split; [|by auto].
  exists l. split; [done|]. by eapply Forall_impl.
Qed.

Lemma begins_instant (table : list Workflow) (P : Done -> Prop) : begins table P instant_now (fun _ => True).
Proof. apply begins_quiet; [|done]. intros s. unfold instant_now. by destruct (instants s) as [|a [|b l]]. Qed.

Lemma begins_cached (table : list Workflow) (P : Done -> Prop) (key : string) (age : Z) : begins table P (cached_run key age) (fun _ => True).
Proof.
  apply begins_quiet; [|done]. intros s. unfold cached_run. destruct (result_cache s !! key) as [[t v]|]; [|done].
  unfold cbind, instant_now. by destruct (instants s) as [|a [|b l]].
Qed.

(** Evicting makes room for one more. *)
Lemma cache_ok_store (c : gmap string (Z * json)) (k : string) (t : Z) (v : json) :
  is_error v = false -> cache_ok c -> cache_ok (<[k := (t, v)]> (evict c)).
Proof.
  intros Hv [Hsize Herr].
  assert (He : (S (size (evict c)) <= RESULT_CACHE_MAX)%nat /\ evict c ⊆ c).
  { unfold evict. destruct (RESULT_CACHE_MAX <=? size c)%nat eqn:E; [apply Nat.leb_le in E|apply Nat.leb_gt in E; split; [lia|done]].
    unfold oldest. destruct (min_by_key _ (map_to_list c)) as [[k' tv]|] eqn:Em; simpl.
    - apply min_by_key_Some in Em as [Hin _]. apply elem_of_map_to_list in Hin. split; [|apply delete_subseteq].
      rewrite map_size_delete, Hin. unfold RESULT_CACHE_MAX in *. lia.
    - exfalso. destruct (map_to_list c) as [|a l] eqn:El; [|simpl in Em; by destruct (min_by_key _ l); [destruct (_ <=? _)|]].
      apply (f_equal length) in El. rewrite length_map_to_list in El. simpl in El. unfold RESULT_CACHE_MAX in *. lia. }
  destruct He as [He Hsub]. split.
  - rewrite map_size_insert. destruct (evict c !! k); simpl; lia.
  - intros k' t' v'. rewrite lookup_insert_Some. intros [[_ [= _ <-]]|[_ Hl]]; [done|]. eapply Herr, lookup_weaken; eauto.
Qed.

Lemma begins_store (table : list Workflow) (P : Done -> Prop) (key : string) (v : json) : begins table P (store_run key v) (fun _ => True).
Proof.
  unfold store_run. destruct (is_error v) eqn:Ev; [by apply begins_ret|]. eapply begins_bind; [apply begins_instant|]. intros now _.
  intros s Hs. split; [split; [done|]|]; [|split; [exists []; by rewrite app_nil_r|done]]. simpl. by apply cache_ok_store.
Qed.

Lemma begins_one_query {A : Type} (table : list Workflow) (P : Done -> Prop) (f : W -> result A LocalError) : begins table P (one_query f) (fun _ => True).
Proof. apply begins_quiet; [|done]. intros s. unfold one_query, query. by destruct (db_faults s) as [|[] fs]. Qed.

Lemma begins_persona (table : list Workflow) (P : Done -> Prop) (v : json) : begins table P (resolve_persona v) (fun _ => True).
Proof.
  unfold resolve_persona. destruct (int_arg v).
  - eapply begins_bind; [apply begins_one_query|]. intros [p|] _; [by apply begins_ret|apply begins_throw].
  - destruct (trim <$> json_as_str v) as [name|]; [|apply begins_throw]. destruct (is_empty name); [apply begins_throw|].
    eapply begins_bind; [apply begins_one_query|]. intros [p|] _; [by apply begins_ret|apply begins_throw].
Qed.

Lemma begins_prepare (table : list Workflow) (P : Done -> Prop) (wf : option Workflow) (inputs : json) :
  begins table P (prepare wf inputs) (fun _ => True).
Proof.
  unfold prepare. destruct wf as [wf|]; [|by apply begins_ret]. destruct (is_proxy wf).
  - eapply (begins_bind _ _ _ _ (fun _ => True)); [|intros [[prompt|] i] _; by apply begins_ret].
    unfold marketplace_gate. destruct cloud; [|by apply begins_ret]. apply begins_quiet; [|done].
    intros s. unfold in_world. by destruct (marketplace_needs_input _ _ _).
  - eapply (begins_bind _ _ _ _ (fun _ => True)).
    + destruct (match map_get _ _ with Some _ => _ | None => _ end); [|by apply begins_ret].
      eapply begins_bind; [apply begins_persona|]. intros id _. by apply begins_ret.
    + intros p _. destruct (missing_input_result _ _); by apply begins_ret.
Qed.

Lemma begins_run (table : list Workflow) (P : Done -> Prop) (id : Z) (arguments : json) :
  (forall inputs persona, P (EngineRun (run_request id inputs persona))) -> begins table P (run_workflow_tool id arguments) (fun _ => True).
Proof.
  intros HP. unfold run_workflow_tool. destruct (match arguments with JNull => _ | _ => _ end) as [m|]; [|apply begins_throw].
  eapply (begins_bind _ _ _ _ (fun _ => True)); [destruct (0 <? _); [apply begins_cached|by apply begins_ret]|].
  intros [v|] _; [by apply begins_ret|].
  eapply (begins_bind _ _ _ _ (fun _ => True)); [by apply begins_query|]. intros wf _.
  eapply begins_bind; [apply begins_prepare|]. intros [prompt|[persona inputs]] _; [by apply begins_ret|].
  eapply (begins_bind _ _ _ _ (fun _ => True)).
  - intros s Hs. unfold drive. destruct (run_engine _ _) as [r w]. simpl. split; [done|]. split; [|done]. eexists. split; [done|]. by constructor.
  - intros [result|e] _.
    + eapply begins_bind; [apply begins_store|]. intros u _. by apply begins_ret.
    + destruct e; first [by apply begins_ret|apply begins_throw].
Qed.

Lemma begins_resolve (table : list Workflow) (P : Done -> Prop) (v : option json) :
  begins table P (resolve_workflow v) (fun wf => wf ∈ table).
Proof.
  unfold resolve_workflow. destruct v as [v|]; [|apply begins_throw]. destruct (id_arg v) as [id|].
  - eapply (begins_bind _ _ _ _ (fun o => forall wf, o = Some wf -> wf ∈ table)).
    + apply begins_query. intros s <- wf E. by apply find_first_claim in E as [Hw _].
    + intros [wf|] Hw; [apply begins_ret; auto|apply begins_throw].
  - destruct (json_as_str v) as [name|]; [|apply begins_throw].
    eapply (begins_bind _ _ _ _ (fun rows => forall wf, wf ∈ rows -> wf ∈ table)).
    + apply begins_query. intros s <- wf (i & Hi & _)%elem_of_take. apply list_elem_of_lookup_2, sort_by_elem, elem_of_retain in Hi. apply Hi.
    + intros rows Hrows. destruct (find_first _ rows) as [wf|] eqn:E; [|apply begins_throw].
      apply find_first_claim in E as [Hw _]. apply begins_ret. auto.
Qed.

Lemma begins_run_workflow (caller : Caller) (table : list Workflow) (args : json) :
  grants caller Run = true -> begins table (allowed caller table) (run_workflow args) (fun _ => True).
Proof.
  intros Hg. eapply begins_bind; [apply begins_resolve|]. intros wf Hw. simpl.
  destruct (wf_is_active wf) eqn:Ea; [|by apply begins_ret]. destruct (mcp_on wf) eqn:Em; [|by apply begins_ret]. simpl.
  destruct (default _ _); try apply begins_throw. apply begins_run. intros inputs persona. split_and!; [done|done|]. by exists wf.
Qed.

Lemma static_classified (name : string) : any (str_eqb name) (STATIC_CALLS ++ CLOUD_CALLS) = true -> exists s, tool_min_scope name = Some s.
Proof.
  assert (Hall : all (fun n => match tool_min_scope n with Some _ => true | None => false end) (STATIC_CALLS ++ CLOUD_CALLS) = true) by (vm_compute; done).
  intros (n & Hn & ->%str_eqb_eq)%any_true. rewrite all_true in Hall. specialize (Hall n Hn). destruct (tool_min_scope n); [by eexists|done].
Qed.

Lemma authorize_grants (caller : Caller) (name : string) (args : json) : authorize_tool caller name args = Ok tt ->
  (forall s operation, arg_escalated_scope name args = Some (s, operation) -> grants caller s = true) /\
  match tool_min_scope name with
  | Some s => grants caller s = true
  | None => starts_with name STATIC_TOOL_PREFIX = false /\ grants caller Run = true
  end.
Proof.
  unfold authorize_tool. destruct (arg_escalated_scope name args) as [[s op]|].
  - destruct (grants caller s) eqn:E; simpl; [|done]. intros Ha. split; [by intros ? ? [= <- <-]|]. revert Ha.
    destruct (tool_min_scope name) as [s0|]; [destruct (grants caller s0); congruence|]. destruct (starts_with _ _); [done|]. by destruct (grants caller Run).
  - intros Ha. split; [done|]. revert Ha. destruct (tool_min_scope name) as [s0|]; [destruct (grants caller s0); congruence|].
    destruct (starts_with _ _); [done|]. by destruct (grants caller Run).
Qed.

(** A name with a scope of its own that leads to a workflow is not one of the catalog. *)
Lemma derived_unclassified (table : list Workflow) (name : string) (id : Z) :
  any (str_eqb name) STATIC_CALLS = false -> resolve_name (catalog table) name = Some id -> tool_min_scope name = None.
Proof.
  intros Hs Hr. apply resolve_unreserved in Hr.
  assert (Hall : all (fun p => any (str_eqb (fst p)) STATIC_CALLS || any (str_eqb (fst p)) NAMES) TOOL_SCOPES = true) by (vm_compute; done).
  unfold tool_min_scope. destruct (find_first _ TOOL_SCOPES) as [p|] eqn:E; [|done]. exfalso.
  apply find_first_claim in E as [Hp Hn%str_eqb_eq]. rewrite all_true in Hall. specialize (Hall p Hp). rewrite Hn, Hs, orb_false_l in Hall.
  apply any_true in Hall as (n & Hin & ->%str_eqb_eq). done.
Qed.

Lemma begins_call (caller : Caller) (table : list Workflow) (name : string) (args : json) :
  begins table (allowed caller table) (call_tool caller name args) (fun _ => True).
Proof.
  unfold call_tool. destruct (authorize_tool caller name args) as [[]|e] eqn:Ea; [|apply begins_throw].
  apply authorize_grants in Ea as [Hesc Hmin]. unfold static_call. destruct (str_eqb name "writ_run_workflow") eqn:En.
  - apply str_eqb_eq in En as ->. by apply begins_run_workflow.
  - destruct (any (str_eqb name) STATIC_CALLS || _) eqn:Es.
    + assert (Hc : any (str_eqb name) (STATIC_CALLS ++ CLOUD_CALLS) = true).
      { unfold any. rewrite existsb_app. apply orb_true_iff in Es as [Es|[_ Es]%andb_true_iff]; unfold any in Es; rewrite Es; [done|apply orb_true_r]. }
      apply static_classified in Hc as [sc Hsc]. rewrite Hsc in Hmin.
      intros s Hs. unfold other_body. destruct (static_body _ _ _) as [r w]. simpl. split; [done|]. split; [|done].
      eexists. split; [done|]. constructor; [|done]. split; [by exists sc|done].
    + apply orb_false_iff in Es as [Es _].
      eapply (begins_bind _ _ _ _ (fun id => grants caller Run = true /\ exposed_wf table id)).
      * unfold resolve_workflow_id. eapply (begins_bind _ _ _ _ (fun c => c = catalog table)); [by apply begins_query; intros s <-|].
        intros c ->. destruct (resolve_name (catalog table) name) as [id|] eqn:Er; [|apply begins_throw]. apply begins_ret.
        rewrite (derived_unclassified _ _ _ Es Er) in Hmin. split; [apply Hmin|by eapply resolve_exposed].
      * intros id [Hg He]. apply begins_run. by intros inputs persona.
Qed.

Lemma begins_list (table : list Workflow) (P : Done -> Prop) : begins table P list_tools (fun _ => True).
Proof.
  eapply (begins_bind _ _ _ _ (fun _ => True)); [destruct cloud; [apply begins_one_query|by apply begins_ret]|]. intros linked _.
  eapply (begins_bind _ _ _ _ (fun _ => True)); [by apply begins_query|]. intros rows _. by apply begins_ret.
Qed.

(** A request, as a step that answers. *)
Definition begun_by {A : Type} (table : list Workflow) (P : Done -> Prop) (f : McpState W -> A * McpState W) : Prop :=
  forall s, wf_table s = table ->
    (wf_table (f s).2 = table /\ (cache_ok (result_cache s) -> cache_ok (result_cache (f s).2))) /\
    exists l, begun (f s).2 = begun s ++ l /\ Forall P l.

Lemma begun_nothing {A : Type} (table : list Workflow) (P : Done -> Prop) (a : McpState W -> A) : begun_by table P (fun s => (a s, s)).
Proof. intros s Hs. split; [done|]. exists []. by rewrite app_nil_r. Qed.

Lemma begun_handle (caller : Caller) (table : list Workflow)
    (frame : json) :
  begun_by table (allowed caller table) (handle_value caller frame).
Proof.
  intros s Hs. pose proof (begun_nothing table (allowed caller table) (fun _ : McpState W => tt) s Hs) as Hno.
  unfold handle_value. destruct (decode_request frame) as [req|]; [|done]. unfold rpc_handle.
  destruct (is_empty _); [done|]. destruct (str_eqb _ "initialize"); [done|]. destruct (starts_with _ _); [done|].
  destruct (str_eqb _ "ping"); [done|]. destruct (str_eqb _ "tools/list").
  { destruct (begins_list table (allowed caller table) s Hs) as (Ht & Hl & _). by destruct (list_tools s). }
  destruct (str_eqb _ "tools/call"); [|done]. destruct (is_empty _); [done|].
  
  destruct (begins_call caller table (default "" (text_arg (rpc_params req) "name")) (default (JObj []) (get (rpc_params req) "arguments")) s Hs) as (Ht & Hl & _). by destruct (call_tool _ _ _ s).
Qed.

Lemma begun_batch (caller : Caller) (table : list Workflow)
    (frames : list json) :
  begun_by table (allowed caller table) (handle_batch caller frames).
Proof.
  induction frames as [|frame frames IH]; simpl; [apply begun_nothing|].
  intros s Hs. destruct (begun_handle caller table frame s Hs) as ([Ht Hok] & l & Hl & HP).
  destruct (handle_value _ _ s) as [r s1]. destruct (IH s1 Ht) as ([Ht' Hok'] & l' & Hl' & HP'). destruct (handle_batch _ _ s1) as [rs s2].
  simpl in *. split; [by auto|]. exists (l ++ l'). rewrite Hl', Hl, app_assoc. split; [done|by apply Forall_app].
Qed.

Lemma begun_post (caller : option Caller) (body : json)
    (table : list Workflow) :
  begun_by table (allowed (caller_or_deny caller) table) (post_mcp caller body).
Proof.
  intros s Hs. unfold post_mcp. destruct body as [| | | |frames|m]; try (by apply (begun_nothing table _ (fun _ : McpState W => tt))).
  - destruct (bool_decide _); [by apply (begun_nothing table _ (fun _ : McpState W => tt))|].
    pose proof (begun_batch (caller_or_deny caller) table frames s Hs) as Hb.
    by destruct (handle_batch _ frames s).
  - pose proof (begun_handle (caller_or_deny caller) table (JObj m) s Hs) as Hb.
    by destruct (handle_value _ _ s).
Qed.


(** However many requests are served, the cache of results never has more than its 256 entries, and never a failure. *)
Theorem result_cache_bounded (bodies : list (option Caller * json)) (s : McpState W) (Hempty : result_cache s = ∅) :
  cache_ok (result_cache (foldl (fun s b => (post_mcp b.1 b.2 s).2) s bodies)).
Proof.
  assert (Hs : cache_ok (result_cache s)) by (rewrite Hempty; split; [rewrite map_size_empty; lia|intros k t v; by rewrite lookup_empty]).
  clear Hempty. revert s Hs. induction bodies as [|b bodies IH]; intros s Hs; [done|]. simpl. apply IH.
  by apply (begun_post b.1 b.2 (wf_table s) s eq_refl).
Qed.

(** A tool a client with the scope [run] may begin. *)
Definition run_tool (d : Done) : Prop :=
  match d with
  | StaticTool name args =>
      (tool_min_scope name = Some Read \/ tool_min_scope name = Some Run) /\
      (name = "writ_crawl_site" -> forall t, text_arg args "save_as" = Some t -> is_empty (trim t) = true)
  | EngineRun req => r_source req = Mcp
  end.

Lemma run_allowed (table : list Workflow) (d : Done) : allowed (Scoped "run") table d -> run_tool d.
Proof.
  destruct d as [name args|req]; [|by intros (_ & ? & _)]. intros [(sc & Hsc & Hg) Hesc]. split.
  - apply run_reach in Hg as [->| ->]; auto.
  - intros -> t Ht. destruct (is_empty (trim t)) eqn:E; [done|]. exfalso.
    assert (Ha : arg_escalated_scope "writ_crawl_site" args = Some (Admin, SAVING)).
    { unfold arg_escalated_scope. by rewrite Ht, E, str_eqb_refl. }
    apply Hesc in Ha. by vm_compute in Ha.
Qed.

(** C24: From the consent to the tool: after every history of the authorization server, a request to the MCP endpoint that the
    middleware passes with an access token begins only tools that read or run. It cannot create or reconfigure anything: no workflow
    is saved, scheduled, exposed or installed, no monitor or automation is made, no crawl is saved. *)
Theorem oauth_client_tools (w0 w : World) (srv : Server) (r : Request) (tok scopes : string) (body : json) (s : McpState W)
    (Hfresh : fresh_server w0) (Hrun : rtc step w0 w) (Htok : r_authorization r ≫= parse_bearer = Some tok) (Hwlo : starts_with tok "wlo_" = true)
    (Hpass : fst (auth_mw srv r w) = Ok (Pass (Scoped scopes))) :
  exists l, begun (post_mcp (Some (Scoped scopes)) body s).2 = begun s ++ l /\ Forall run_tool l.
Proof.
  destruct (oauth_pass w0 w srv r tok scopes Hfresh Hrun Htok Hwlo Hpass) as (-> & _ & _).
  destruct (begun_post (Some (Scoped "run")) body (wf_table s) s eq_refl) as (_ & l & Hl & Hall). exists l. split; [done|].
  eapply Forall_impl; [exact Hall|]. intros d. apply run_allowed.
Qed.
End calls.

(** ** Concrete surfaces *)

(** A world without cloud or personas, whose workflows answer their own id. *)
#[local] Instance plain_env : McpEnv unit := {
  static_body _ _ w := (Ok JNull, w);
  run_engine req w := (Ok (Flow.mkResult 1 Success true None (json_of_Z (r_workflow_id req)) 0), w);
  marketplace_needs_input _ inputs w := (Ok (None, inputs), w);
  persona_by_id id _ := Ok (Some id);
  persona_by_name _ _ := Ok None;
  value_text v := match v with JStr t => t | JNum (PosInt n) => Z_to_string n | _ => "" end;
  pretty_text v := match v with JNum (PosInt n) => Z_to_string n | _ => "" end;
  cloud := false;
  is_linked _ := Ok false;
  static_entries := [];
  initialized := JNull;
  decode_request v := method ← get v "method" ≫= json_as_str; Some (mkRpc (get v "id") method (default JNull (get v "params")));
}.

#[local] Existing Instance plain_libs.

Definition named (id : Z) (name : string) : Workflow := mkWorkflow id name None "" None None None true (Z_to_string id).

Definition surface_of (table : list Workflow) : McpState unit := mkMcp table ∅ [0] [] [] tt.

Definition call_frame (id : option json) (name : string) (arguments : json) : json :=
  JObj (option_list ((fun v => ("id", v)) <$> id)
        ++ [("method", JStr "tools/call"); ("params", JObj [("name", JStr name); ("arguments", arguments)])]).

(** A workflow that is named like the fallback of another one takes its place: both are advertised under one name, and a call goes to the
    newer of them, whatever the other was to do. *)
Theorem alias_shadowed :
  e_name <$> catalog [named 5 "..."; named 7 "Workflow 5"] = ["workflow_5"; "workflow_5"] /\
  resolve_name (catalog [named 5 "..."; named 7 "Workflow 5"]) "workflow_5" = Some 7.
Proof. by vm_compute. Qed.

(** A workflow whose name begins with the reserved prefix is advertised, and refused to every caller. *)
Theorem prefixed_workflow_refused :
  e_name <$> catalog [named 5 "Writ prices"] = ["writ_prices"] /\
  match authorize_tool FullAccess "writ_prices" (JObj []) with Err (CallForbidden _) => True | _ => False end.
Proof. by vm_compute. Qed.

(** The names of the mission tools are not reserved: a workflow of such a name is advertised under it, and the tool answers. *)
Theorem mission_name_shadows :
  e_name <$> catalog [named 5 "Writ mission status"] = ["writ_mission_status"] /\
  begun (call_tool FullAccess "writ_mission_status" (JObj []) (surface_of [named 5 "Writ mission status"])).2 =
    [StaticTool "writ_mission_status" (JObj [])].
Proof. by vm_compute. Qed.

(** The key of the cache writes the inputs one after the other without marking where a name ends: other inputs get the answer of these. *)
Theorem freshness_keys_collide :
  let a := JObj [("a", json_of_Z 1); ("b", json_of_Z 2)] in
  let b := JObj [("a=1&b", json_of_Z 2)] in
  freshness_key 5 a = freshness_key 5 b.
Proof. by vm_compute. Qed.

(** One file bound to two slots: the binding of the second replaces that of the first, whose argument is gone too. *)
Theorem second_slot_replaces_first :
  let m := [("cv", JStr "file_1"); ("letter", JStr "file_1")] in
  let '(obj, lifted) := foldl lift_slot (m, []) ["cv"; "letter"] in
  obj = [] /\ foldl bind_file [] lifted = [("file_1", JObj [("file_id", JStr "file_1"); ("slots", JArr [JStr "letter"])])].
Proof. by vm_compute. Qed.

(** A call without an id, which is a notification, is answered. *)
Theorem notification_answered :
  (handle_value FullAccess (call_frame None "prices" (JObj [])) (surface_of [named 5 "prices"])).1 =
    Some (mkResponse JNull (Replied (content "5" false))).
Proof. by vm_compute. Qed.

Lemma result_cache_bounded_witness :
  cache_ok (result_cache (foldl (fun s b => (post_mcp b.1 b.2 s).2) (surface_of [named 5 "prices"])
    [(Some FullAccess, call_frame (Some JNull) "prices" (JObj [("max_age", json_of_Z 60)]))])).
Proof. apply (result_cache_bounded _ (surface_of [named 5 "prices"])). reflexivity. Defined.

Lemma oauth_client_tools_witness :
  exists l, begun (post_mcp (Some (Scoped "run")) (call_frame (Some JNull) "writ_scrape" (JObj [])) (surface_of [])).2 = l /\ Forall run_tool l.
Proof.
  assert (Hp : fst (auth_mw exposed (AuthAudit.run_request "wlo_d") (after consented empty_server)) = Ok (Pass (Scoped "run"))) by (vm_compute; reflexivity).
  refine (oauth_client_tools empty_server (after consented empty_server) exposed (AuthAudit.run_request "wlo_d") "wlo_d" "run"
    (call_frame (Some JNull) "writ_scrape" (JObj [])) (surface_of []) empty_server_fresh (after_history consented empty_server) _ _ Hp); vm_compute; reflexivity.
Defined.
