(* ===== verification/Checker.v ===== *)
(** * monitor/checker.rs: one check of one target

    The three tiers of a check: the uptime probe, the HTTP fetch with CSS selectors, and the warm browser. The network, the page and
    the URL guard are an interface over a world [W]; the parser of markup, the regex engine, SHA-256 and base64 are
    functions. Not modelled: the headers and the client's redirect policy, how a page is restored to a session, the
    geometry of a visual zone. *)

From Stdlib Require Import Ascii String.
From S2P Require Import Prelude Ints Str Json.
From S2P Require Grouping IpAddr UrlGuard UpdateManifest Extract.
Open Scope string_scope.
Open Scope list_scope.
Open Scope Z_scope.

(** ** Data *)

(** The fields a check fills in; those of the certificate are always absent. *)
Record ReportItem : Type := mkReportItem {
  ri_target_url : string;
  ri_check_type : string;
  ri_target_id : option Z;
  ri_selector_id : option Z;
  ri_selector_name : option string;
  ri_content_hash : option string;
  ri_diff_snippet : option string;
  ri_content : option string;
  ri_previous_content : option string;
  ri_screenshot : option string;
  ri_headers : option (list (string * string));
  ri_is_up : option bool;
  ri_response_time_ms : option Z;
  ri_dns_time_ms : option Z;
  ri_connect_time_ms : option Z;
  ri_status_code : option Z;
  ri_error_type : option string;
  ri_error_message : option string;
}.

Record CheckOutcome : Type := mkOutcome {
  reports : list ReportItem;
  auth_session : option json;
  changed : bool;
}.

(** An element of a parsed document: its markup and its text nodes. *)
Record Element : Type := mkElement { el_html : string; el_text : list string }.

Class CheckLibs : Type := {
  sha256 : string -> list Z;
  (** [Regex::new] and [replace_all] with nothing; [None] when the pattern does not compile *)
  regex_remove : string -> string -> option string;
  (** the elements of a document a selector matches; [None] when the selector does not parse *)
  select : string -> string -> option (list Element);
  b64 : string -> string;
  (** [{:?}] of an optional name *)
  debug_name : option string -> string;
}.

(** A response: its status, its textual headers, and its body or why it could not be read. *)
Record Fetched : Type := mkFetched { f_status : Z; f_headers : list (string * string); f_body : result string string }.

Class CheckEnv (W : Type) : Type := {
  is_navigation_url_safe : string -> W -> bool * W;
  http_get : string -> W -> result Fetched string * W;
  (** the blocking task of a parse: its failure or timeout *)
  parse_task : W -> option string * W;
  (** [url::Url::parse]: the host and the port or its default *)
  parse_url : string -> result (string * Z) string;
  lookup_host : string -> Z -> W -> result (list IpAddr.ip_addr) string * W;
  (** [None]: the connection timed out *)
  tcp_connect : IpAddr.ip_addr -> Z -> W -> option (result unit string) * W;
  get_status : string -> Z -> W -> result Z string * W;
  instant_ms : W -> Z;
  create_context : Grouping.Target -> W -> result unit string * W;
  close_context : W -> W;
  navigate : Grouping.Target -> W -> result unit string * W;
  run_pre_check_steps : json -> W -> result unit string * W;
  settle : W -> W;
  (** a zone's pixel hash and its image *)
  extract_visual : Grouping.Selector -> W -> option (string * string) * W;
  flatten_frames : W -> W;
  extract_in_page : Grouping.Selector -> W -> option string * W;
  extract_session_state : W -> option json * W;
}.

Definition blank (t : Grouping.Target) (check_type : string) : ReportItem :=
  mkReportItem (Grouping.url t) check_type (Grouping.id t) None None None None None None None None None None None None None None None.

Definition zeros : string := of_bytes (repeat "0"%char 64).

(** ** Text *)

(** Runs of [White_Space] become one space. *)
Fixpoint collapse (skip : nat) (in_ws : bool) (s : string) : string :=
  match s with
  | EmptyString => ""
  | String c r =>
      match skip with
      | S k => collapse k in_ws r
      | O => match ws_len s with
             | O => String c (collapse 0 false r)
             | S k => if in_ws then collapse k true r else String " " (collapse k true r)
             end
      end
  end.
Definition normalize_whitespace (text : string) : string := trim (collapse 0 false text).

Definition truncate (s : string) (max : nat) : string :=
  if (length (chars s) <=? max)%nat then s else join "" (take max (chars s)).

Definition is_char_boundary (s : string) (i : nat) : bool :=
  match String.get i s with
  | Some c => negb ((128 <=? byte_val c) && (byte_val c <? 192))
  | None => (i =? String.length s)%nat
  end.
Fixpoint boundary_below (s : string) (i : nat) : nat :=
  match i with O => O | S j => if is_char_boundary s i then i else boundary_below s j end.
Definition floor_char_boundary (s : string) (idx : nat) : nat :=
  if (String.length s <=? idx)%nat then String.length s else boundary_below s idx.

Definition newline : string := String (chr 10) "".
Definition line_diff (o n : string) : string :=
  if str_eqb o n then ""
  else String.append (if is_empty o then "" else String.append "- " (String.append o newline))
         (if is_empty n then "" else String.append "+ " (String.append n newline)).

(** The loop over [max] of the line counts; a missing line is empty. *)
Fixpoint diff_lines (max_len : nat) (pairs : list (string * string)) (out : string) : string :=
  match pairs with
  | [] => out
  | (o, n) :: pairs =>
      let out := String.append out (line_diff o n) in
      if (max_len <? String.length out)%nat
      then String.append (str_take (floor_char_boundary out max_len) out) (String.append newline "... (truncated)")
      else diff_lines max_len pairs out
  end.
Fixpoint zip_lines (a b : list string) : list (string * string) :=
  match a, b with
  | x :: a, y :: b => (x, y) :: zip_lines a b
  | a, [] => map (fun x => (x, "")) a
  | [], b => map (fun y => ("", y)) b
  end.
Definition generate_diff (old new : string) (max_len : nat) : string :=
  diff_lines max_len (zip_lines (Extract.lines old) (Extract.lines new)) "".

Section checker.
Context `{CheckLibs}.

Definition compute_hash (content : string) : string := UpdateManifest.hex_lower (sha256 content).

Definition finalize_content (raw : string) (sel : Grouping.Selector) : string :=
  let content :=
    match Grouping.ignore_regex sel with
    | Some pat => if is_empty pat then raw else default raw (regex_remove pat raw)
    | None => raw
    end in
  if str_eqb (Grouping.content_type sel) "html" then content else normalize_whitespace content.

(** A baseline that is not empty. *)
Definition baseline (sel : Grouping.Selector) : option string :=
  match Grouping.baseline_hash sel with Some b => if is_empty b then None else Some b | None => None end.
Definition differs (sel : Grouping.Selector) (hash : string) : bool :=
  match baseline sel with Some b => negb (str_eqb hash b) | None => false end.

(** A row of a selector that has an error. *)
Definition failed_row (t : Grouping.Target) (id : option Z) (name : option string) (status : option Z) (error message : string) : ReportItem :=
  mkReportItem (Grouping.url t) "content" (Grouping.id t) id name (Some zeros) None None None None None None None None None
    status (Some error) (Some message).

Definition finalize_selector (t : Grouping.Target) (sel : Grouping.Selector) (extracted : option string) (status : option Z)
    (headers : option (list (string * string))) (flag : bool) : ReportItem * bool :=
  match extracted with
  | None => (failed_row t (Grouping.sel_id sel) (Grouping.sel_name sel) status "selector_missing"
               (String.append "no content for selector: " (Grouping.selector sel)), flag)
  | Some raw =>
      let content := finalize_content raw sel in
      let hash := compute_hash content in
      let changed := differs sel hash in
      let diff := if changed then (fun prev => generate_diff prev content 10000) <$> Grouping.baseline_content sel else None in
      (mkReportItem (Grouping.url t) "content" (Grouping.id t) (Grouping.sel_id sel) (Grouping.sel_name sel) (Some hash) diff
         (Some (truncate content 5000)) ((fun p => truncate p 5000) <$> Grouping.baseline_content sel) None headers None None None None
         status None None, flag || changed)
  end.

Definition finalize_visual (t : Grouping.Target) (sel : Grouping.Selector) (shot : option (string * string)) (flag : bool) : ReportItem * bool :=
  match shot with
  | None => (failed_row t (Grouping.sel_id sel) (Grouping.sel_name sel) None "visual_capture_failed"
               (String.append "could not screenshot region for " (debug_name (Grouping.sel_name sel))), flag)
  | Some (hash, png) =>
      let changed := differs sel hash in
      let screenshot := if bool_decide (baseline sel = None) || changed then Some (b64 png) else None in
      (mkReportItem (Grouping.url t) "content" (Grouping.id t) (Grouping.sel_id sel) (Grouping.sel_name sel) (Some hash) None None None
         screenshot None None None None None None None None, flag || changed)
  end.

Definition content_error (t : Grouping.Target) (msg : string) : CheckOutcome :=
  mkOutcome
    (match Grouping.selectors t with
     | [] => [failed_row t None None None "check_failed" msg]
     | sels => map (fun s => failed_row t (Grouping.sel_id s) (Grouping.sel_name s) None "check_failed" msg) sels
     end) None false.

Definition extract_css (html selector content_type : string) : option string :=
  match select html selector with
  | None => None
  | Some els =>
      match map (fun e => if str_eqb content_type "html" then el_html e else join "" (el_text e)) els with
      | [] => None
      | parts => Some (join newline parts)
      end
  end.

Definition classify_uptime_status (status : Z) (expected : option Z) : result unit (string * string) :=
  match expected with
  | Some exp =>
      if status =? exp then Ok tt
      else Err ("unexpected_status", String.append "expected HTTP " (String.append (Z_to_string exp) (String.append ", got " (Z_to_string status))))
  | None => if 500 <=? status then Err ("server_error", String.append "server error: HTTP " (Z_to_string status)) else Ok tt
  end.

Definition single (item : ReportItem) : CheckOutcome := mkOutcome [item] None false.

(** ** The tiers *)

Context {W : Type} `{CheckEnv W}.

Definition unsafe (t : Grouping.Target) : string := String.append "refused unsafe URL: " (Grouping.url t).

(** The rows of the selectors in their order, and whether one changed. *)
Fixpoint finalize_all (t : Grouping.Target) (status : Z) (headers : list (string * string))
    (rows : list (Grouping.Selector * option string)) (flag : bool) : list ReportItem * bool :=
  match rows with
  | [] => ([], flag)
  | (sel, value) :: rows =>
      let '(row, flag) := finalize_selector t sel value (Some status) (Some headers) flag in
      let '(more, flag) := finalize_all t status headers rows flag in
      (row :: more, flag)
  end.

Definition check_content_http (t : Grouping.Target) (w : W) : CheckOutcome * W :=
  let '(safe, w) := is_navigation_url_safe (Grouping.url t) w in
  if negb safe then (content_error t (unsafe t), w)
  else
    match http_get (Grouping.url t) w with
    | (Err e, w) => (content_error t (String.append "fetch failed: " e), w)
    | (Ok resp, w) =>
        match f_body resp with
        | Err e => (content_error t e, w)
        | Ok body =>
            match parse_task w with
            | (Some e, w) => (content_error t e, w)
            | (None, w) =>
                let values := map (fun s => extract_css body (Grouping.selector s) (Grouping.content_type s)) (Grouping.selectors t) in
                let '(rows, changed) := finalize_all t (f_status resp) (f_headers resp) (zip (Grouping.selectors t) values) false in
                (mkOutcome rows None changed, w)
            end
        end
    end.

Definition uptime_row (t : Grouping.Target) (up : bool) (dns connect response status : option Z) (error message : option string) : ReportItem :=
  mkReportItem (Grouping.url t) "uptime" (Grouping.id t) None None None None None None None None (Some up) response dns connect status error message.

Definition check_uptime (t : Grouping.Target) (w : W) : CheckOutcome * W :=
  let down dns connect message w := (single (uptime_row t false dns connect None None None (Some message)), w) in
  match parse_url (Grouping.url t) with
  | Err e => down None None (String.append "bad url: " e) w
  | Ok (host, port) =>
      let timeout := as_u64 (default 10000 (Grouping.timeout_ms t)) in
      let started := instant_ms w in
      match lookup_host host port w with
      | (Err e, w) => down None None (String.append "DNS resolution failed: " e) w
      | (Ok addrs, w) =>
          let dns := Some (instant_ms w - started) in
          if any UrlGuard.is_blocked_ip addrs then down dns None (unsafe t) w
          else
            match addrs with
            | [] => down dns None "DNS returned no addresses" w
            | addr :: _ =>
                let connecting := instant_ms w in
                match tcp_connect addr timeout w with
                | (None, w) => down dns None "Connection timed out" w
                | (Some (Err e), w) => down dns None (String.append "Connection failed: " e) w
                | (Some (Ok _), w) =>
                    let connect := Some (instant_ms w - connecting) in
                    match get_status (Grouping.url t) timeout w with
                    | (Err e, w) => down dns connect (String.append "HTTP request failed: " e) w
                    | (Ok status, w) =>
                        let response := Some (instant_ms w - started) in
                        (single match classify_uptime_status status (Grouping.expected_status_code t) with
                                | Ok _ => uptime_row t true dns connect response (Some status) None None
                                | Err (error, message) => uptime_row t false dns connect response (Some status) (Some error) (Some message)
                                end, w)
                    end
                end
            end
      end
  end.

Definition is_visual (sel : Grouping.Selector) : bool := str_eqb (Grouping.content_type sel) "visual".

(** The zones, captured before the frames are folded in. *)
Fixpoint capture_zones (sels : list Grouping.Selector) (w : W) : list (option (string * string)) * W :=
  match sels with
  | [] => ([], w)
  | sel :: sels =>
      let '(shot, w) := if is_visual sel then extract_visual sel w else (None, w) in
      let '(shots, w) := capture_zones sels w in
      (shot :: shots, w)
  end.

Fixpoint read_page (t : Grouping.Target) (rows : list (Grouping.Selector * option (string * string))) (flag : bool) (w : W) :
    (list ReportItem * bool) * W :=
  match rows with
  | [] => (([], flag), w)
  | (sel, shot) :: rows =>
      let '((row, flag), w) :=
        if is_visual sel then (finalize_visual t sel shot flag, w)
        else let '(value, w) := extract_in_page sel w in (finalize_selector t sel value None None flag, w) in
      let '((more, flag), w) := read_page t rows flag w in
      ((row :: more, flag), w)
  end.

Definition check_content_browser (t : Grouping.Target) (w : W) : CheckOutcome * W :=
  match create_context t w with
  | (Err e, w) => (content_error t (String.append "browser context failed: " e), w)
  | (Ok _, w) =>
      let fail msg w := (content_error t msg, close_context w) in
      let '(safe, w) := is_navigation_url_safe (Grouping.url t) w in
      if negb safe then fail (unsafe t) w
      else
        match navigate t w with
        | (Err e, w) => fail (String.append "navigation failed: " e) w
        | (Ok _, w) =>
            match match Grouping.pre_check_workflow t with Some wf => run_pre_check_steps wf w | None => (Ok tt, w) end with
            | (Err e, w) => fail (String.append "pre-check failed: " e) w
            | (Ok _, w) =>
                let '(shots, w) := capture_zones (Grouping.selectors t) (settle w) in
                let w := if any (fun s => negb (is_visual s)) (Grouping.selectors t) then flatten_frames w else w in
                let '((rows, changed), w) := read_page t (zip (Grouping.selectors t) shots) false w in
                let '(session, w) := extract_session_state w in
                (mkOutcome rows session changed, close_context w)
            end
        end
  end.

Definition check_target (t : Grouping.Target) (w : W) : CheckOutcome * W :=
  if str_eqb (Grouping.check_type t) "uptime" then check_uptime t w
  else if Grouping.needs_browser t then check_content_browser t w
  else check_content_http t w.
End checker.

(** ** The rows of a check *)

(** What the callers rely on: a row for each selector, in their order; a row without an error has a hash; and the flag says whether a row
    without an error differs from the baseline of its selector. A check that failed has error rows only, at least one. *)
Definition row_of `{CheckLibs} (sel : Grouping.Selector) (r : ReportItem) : Prop :=
  ri_selector_id r = Grouping.sel_id sel /\
  match ri_error_type r with Some _ => True | None => exists h, ri_content_hash r = Some h end.
Definition row_changed (sel : Grouping.Selector) (r : ReportItem) : bool :=
  match ri_error_type r, ri_content_hash r with None, Some h => differs sel h | _, _ => false end.
Definition some_changed (sels : list Grouping.Selector) (rs : list ReportItem) : bool :=
  any (fun p => row_changed (fst p) (snd p)) (zip sels rs).

Record mirrors `{CheckLibs} (t : Grouping.Target) (o : CheckOutcome) : Prop := {
  mi_rows : Grouping.selectors t <> [] -> Forall2 row_of (Grouping.selectors t) (reports o);
  mi_none : Grouping.selectors t = [] -> Forall (fun r => is_Some (ri_error_type r)) (reports o);
  mi_flag : changed o = some_changed (Grouping.selectors t) (reports o);
}.

Section rows.
Context `{CheckLibs} {W : Type} `{CheckEnv W}.

Lemma selector_row (t : Grouping.Target) (sel : Grouping.Selector) (v : option string) (st : option Z) hs (flag : bool) :
  let '(r, f) := finalize_selector t sel v st hs flag in row_of sel r /\ f = flag || row_changed sel r.
Proof.
  unfold finalize_selector, row_of, row_changed. destruct v as [raw|]; cbn; [|by rewrite orb_false_r].
  split; [|done]. split; [done|]. by eexists.
Qed.

Lemma visual_row (t : Grouping.Target) (sel : Grouping.Selector) (shot : option (string * string)) (flag : bool) :
  let '(r, f) := finalize_visual t sel shot flag in row_of sel r /\ f = flag || row_changed sel r.
Proof.
  unfold finalize_visual, row_of, row_changed. destruct shot as [[hash png]|]; cbn; [|by rewrite orb_false_r].
  split; [|done]. split; [done|]. by eexists.
Qed.

Lemma all_rows (t : Grouping.Target) (st : Z) hs (sels : list Grouping.Selector) : forall (vs : list (option string)) (flag : bool),
  length vs = length sels ->
  let '(rs, f) := finalize_all t st hs (zip sels vs) flag in Forall2 row_of sels rs /\ f = flag || some_changed sels rs.
Proof.
  induction sels as [|sel sels IH]; intros [|v vs] flag Hl; try done; [by cbn; rewrite orb_false_r|].
  cbn [zip zip_with finalize_all]. pose proof (selector_row t sel v (Some st) (Some hs) flag) as Hr.
  destruct (finalize_selector _ _ _ _ _ _) as [r f]. destruct Hr as [Hr ->]. cbn in Hl.
  specialize (IH vs (flag || row_changed sel r) ltac:(lia)). change (zip_with pair sels vs) with (zip sels vs).
  destruct (finalize_all _ _ _ _ _) as [rs f]. destruct IH as [Hrs ->]. split; [by constructor|].
  unfold some_changed. cbn. by rewrite orb_assoc.
Qed.

Lemma zones_length (sels : list Grouping.Selector) : forall w, length (fst (capture_zones sels w)) = length sels.
Proof.
  induction sels as [|sel sels IH]; intros w; [done|]. cbn [capture_zones].
  destruct (if is_visual sel then _ else _) as [shot w1]. specialize (IH w1). destruct (capture_zones sels w1). cbn in *. lia.
Qed.

Lemma page_rows (t : Grouping.Target) (sels : list Grouping.Selector) : forall (shots : list (option (string * string))) (flag : bool) (w : W),
  length shots = length sels ->
  let '((rs, f), _) := read_page t (zip sels shots) flag w in Forall2 row_of sels rs /\ f = flag || some_changed sels rs.
Proof.
  induction sels as [|sel sels IH]; intros [|shot shots] flag w Hl; try done; [by cbn; rewrite orb_false_r|].
  cbn [zip zip_with read_page]. change (zip_with pair sels shots) with (zip sels shots).
  assert (Hr : exists r w1, (if is_visual sel then (finalize_visual t sel shot flag, w)
      else let '(value, w) := extract_in_page sel w in (finalize_selector t sel value None None flag, w)) = ((r, flag || row_changed sel r), w1) /\ row_of sel r).
  { destruct (is_visual sel).
    - pose proof (visual_row t sel shot flag) as Hr. destruct (finalize_visual _ _ _ _) as [r f]. destruct Hr as [Hr ->]. by exists r, w.
    - destruct (extract_in_page sel w) as [v w1]. pose proof (selector_row t sel v None None flag) as Hr.
      destruct (finalize_selector _ _ _ _ _ _) as [r f]. destruct Hr as [Hr ->]. by exists r, w1. }
  destruct Hr as (r & w1 & -> & Hr). cbn in Hl. specialize (IH shots (flag || row_changed sel r) w1 ltac:(lia)).
  destruct (read_page _ _ _ _) as [[rs f] w2]. destruct IH as [Hrs ->]. split; [by constructor|].
  unfold some_changed. cbn. by rewrite orb_assoc.
Qed.

Lemma error_mirrors (t : Grouping.Target) (msg : string) : mirrors t (content_error t msg).
Proof.
  assert (Hno : forall sels, some_changed sels (map (fun s => failed_row t (Grouping.sel_id s) (Grouping.sel_name s) None "check_failed" msg) sels) = false).
  { induction sels as [|s sels IH]; [done|]. unfold some_changed in *. cbn. exact IH. }
  unfold content_error. destruct (Grouping.selectors t) as [|s sels] eqn:Es; split; cbn [reports changed]; rewrite Es; try done.
  - intros _. repeat constructor. by eexists.
  - intros _. clear Es Hno. generalize (s :: sels). intros l. induction l as [|x l IH]; cbn; constructor; [|done]. by split.
Qed.

(** Whatever the network and the page do, a content check answers with a row for each of the target's selectors, in their order, each with
    an error or a hash; and its flag is raised exactly when a row without an error differs from its selector's baseline. *)
Lemma content_check_mirrors (t : Grouping.Target) (w : W) : Grouping.check_type t <> "uptime" -> mirrors t (fst (check_target t w)).
Proof.
  intros Hc. unfold check_target. destruct (str_eqb _ _) eqn:E; [by apply str_eqb_eq in E|].
  assert (Hdone : forall (o : CheckOutcome) (sels := Grouping.selectors t), Forall2 row_of sels (reports o) -> changed o = false || some_changed sels (reports o) ->
    mirrors t o).
  { intros o sels Hrs Hf. split; [done| |exact Hf]. intros En. unfold sels in Hrs. rewrite En in Hrs. inversion Hrs. constructor. }
  destruct (Grouping.needs_browser t).
  - unfold check_content_browser. destruct (create_context t w) as [[[]|e] w1]; [|apply error_mirrors].
    destruct (is_navigation_url_safe _ w1) as [[] w2]; [|apply error_mirrors]. cbn [negb].
    destruct (navigate t w2) as [[[]|e] w3]; [|apply error_mirrors].
    destruct (match Grouping.pre_check_workflow t with Some wf => _ | None => _ end) as [[[]|e] w4]; [|apply error_mirrors].
    pose proof (zones_length (Grouping.selectors t) (settle w4)) as Hl. destruct (capture_zones _ _) as [shots w5]. cbn [fst] in Hl.
    pose proof (page_rows t (Grouping.selectors t) shots false (if any (fun s => negb (is_visual s)) (Grouping.selectors t) then flatten_frames w5 else w5) Hl) as Hp.
    destruct (read_page _ _ _ _) as [[rs f] w6]. destruct Hp as [Hrs Hf]. destruct (extract_session_state w6) as [session w7]. by apply Hdone.
  - unfold check_content_http. destruct (is_navigation_url_safe _ w) as [[] w1]; [|apply error_mirrors]. cbn [negb].
    destruct (http_get _ w1) as [[resp|e] w2]; [|apply error_mirrors]. destruct (f_body resp) as [body|e]; [|apply error_mirrors].
    destruct (parse_task w2) as [[e|] w3]; [apply error_mirrors|].
    pose proof (all_rows t (f_status resp) (f_headers resp) (Grouping.selectors t)
      (map (fun s => extract_css body (Grouping.selector s) (Grouping.content_type s)) (Grouping.selectors t)) false (length_map _ _)) as Hp.
    destruct (finalize_all _ _ _ _ _) as [rs f]. destruct Hp as [Hrs Hf]. by apply Hdone.
Qed.
End rows.

(** ** The uptime probe *)

(** Neither up nor reached. *)
Ltac refuted :=
  eexists; split; [done|]; split; [done|];
  intros (? & ? & ? & ? & ? & ? & ? & ? & ? & ? & _ & ? & ? & _); congruence.

Section uptime.
Context {W : Type} `{CheckEnv W}.

(** The probe's single row says up exactly when the host resolves to public addresses only, the first takes a connection, and the
    response has the expected status or, when none is set, is not a server error. *)
Lemma uptime_exact (t : Grouping.Target) (w : W) :
  let timeout := as_u64 (default 10000 (Grouping.timeout_ms t)) in
  exists r, reports (fst (check_uptime t w)) = [r] /\
    (ri_is_up r = Some true <->
     exists host port addr addrs w1 w2 w3 st, parse_url (Grouping.url t) = Ok (host, port) /\
       lookup_host host port w = (Ok (addr :: addrs), w1) /\ Forall (fun a => UrlGuard.is_blocked_ip a = false) (addr :: addrs) /\
       tcp_connect addr timeout w1 = (Some (Ok tt), w2) /\ get_status (Grouping.url t) timeout w2 = (Ok st, w3) /\
       match Grouping.expected_status_code t with Some e => st = e | None => st < 500 end).
Proof.
  unfold check_uptime. cbv zeta. destruct (parse_url (Grouping.url t)) as [[host port]|e] eqn:Ep; [|refuted].
  destruct (lookup_host host port w) as [[addrs|e] w1] eqn:El; [|refuted].
  destruct (any UrlGuard.is_blocked_ip addrs) eqn:Eb.
  { eexists. split; [done|]. split; [done|]. intros (h & p & a & l & w1' & ? & ? & ? & [= <- <-] & El' & Hf & _). rewrite El in El'. simplify_eq.
    apply any_true in Eb as (y & Hy & Hyb). rewrite Forall_forall in Hf. by rewrite (Hf y Hy) in Hyb. }
  destruct addrs as [|addr addrs]; [refuted|].
  destruct (tcp_connect _ _ _) as [[[[]|e]|] w2] eqn:Et; [|refuted..].
  destruct (get_status _ _ w2) as [[st|e] w3] eqn:Eg; [|refuted].
  eexists. split; [done|]. assert (Hu : (exists x, classify_uptime_status st (Grouping.expected_status_code t) = Ok x) <->
    match Grouping.expected_status_code t with Some e => st = e | None => st < 500 end).
  { unfold classify_uptime_status. destruct (Grouping.expected_status_code t) as [e|].
    - destruct (Z.eqb_spec st e); naive_solver.
    - destruct (Z.leb_spec 500 st); split; [by intros [? ?]|lia|done|by eexists]. }
  split.
  - intros Hr. do 8 eexists. split_and!; [done|exact El| |exact Et|exact Eg|].
    + rewrite Forall_forall. by rewrite any_false in Eb.
    + apply Hu. destruct (classify_uptime_status _ _) as [x|[e m]]; [by eexists|done].
  - intros (h & p & a & l & w1' & w2' & w3' & st' & [= <- <-] & El' & _ & Et' & Eg' & Hst). rewrite El in El'. simplify_eq.
    rewrite Et in Et'. simplify_eq. rewrite Eg in Eg'. simplify_eq. apply Hu in Hst as [x ->]. done.
Qed.
End uptime.

(** ** The diff *)

Lemma boundary_below_le (s : string) (i : nat) : (boundary_below s i <= i)%nat.
Proof. induction i as [|i IH]; [done|]. cbn [boundary_below]. destruct (is_char_boundary _ _); lia. Qed.

Lemma diff_lines_bound (max_len : nat) (pairs : list (string * string)) : forall out, (String.length out <= max_len)%nat ->
  (String.length (diff_lines max_len pairs out) <= max_len + 16)%nat.
Proof.
  induction pairs as [|[o n] pairs IH]; intros out Hl; cbn [diff_lines]; [lia|].
  destruct (Nat.ltb_spec max_len (String.length (String.append out (line_diff o n)))) as [Hgt|Hle]; [|by apply IH].
  rewrite !str_length_append. set (k := floor_char_boundary _ _). pose proof (str_take_length k (String.append out (line_diff o n))) as Ht.
  assert (Hk : (k <= max_len)%nat).
  { unfold k, floor_char_boundary. destruct (Nat.leb_spec (String.length (String.append out (line_diff o n))) max_len); [lia|]. apply boundary_below_le. }
  cbn [String.length newline]. lia.
Qed.

(** A diff has at most its budget and the mark of the cut, whatever the page. *)
Lemma generate_diff_bound (old new : string) (max_len : nat) : (String.length (generate_diff old new max_len) <= max_len + 16)%nat.
Proof. apply diff_lines_bound. cbn. lia. Qed.

Lemma generate_diff_same (s : string) (max_len : nat) : generate_diff s s max_len = "".
Proof.
  unfold generate_diff. induction (Extract.lines s) as [|x l IH]; [done|]. cbn [zip_lines diff_lines]. unfold line_diff.
  rewrite str_eqb_refl. cbn [String.append String.length]. by destruct (Nat.ltb_spec max_len 0); [lia|].
Qed.

Definition added (l : list string) : string := foldr String.append "" (map (fun x => String.append "+ " (String.append x newline)) l).

(** A baseline that was cut keeps only the first lines [p]: at the next change the lines after them are all reported as added, though the
    page had them before. *)
Lemma cut_baseline_adds_tail (p tail : list string) (max_len : nat) : Forall (fun x => x <> "") tail ->
  (String.length (added tail) <= max_len)%nat -> diff_lines max_len (zip_lines p (p ++ tail)) "" = added tail.
Proof.
  intros Hne Hl. induction p as [|x p IH]; cbn [zip_lines app diff_lines].
  - assert (Hgen : forall out, (String.length out + String.length (added tail) <= max_len)%nat ->
      diff_lines max_len (zip_lines [] tail) out = String.append out (added tail)); [|by apply (Hgen "")].
    clear Hl. induction Hne as [|y l Hy Hne IH]; intros out Hl; cbn [zip_lines map diff_lines]; [by rewrite append_nil_r|].
    unfold added in *. cbn [map foldr] in *. rewrite str_length_append in Hl. unfold line_diff.
    destruct (str_eqb "" y) eqn:E; [apply str_eqb_eq in E; congruence|]. cbn [is_empty]. destruct (is_empty y) eqn:Ey; [by destruct y|].
    change (String.append "" ?s) with s. destruct (Nat.ltb_spec max_len (String.length (String.append out (String.append "+ " (String.append y newline))))) as [Hb|_].
    { rewrite str_length_append in Hb. lia. }
    replace (map (fun y => ("", y)) l) with (zip_lines [] l) by (by destruct l).
    rewrite IH by (rewrite str_length_append; lia). by rewrite append_assoc.
  - unfold line_diff at 1. rewrite str_eqb_refl. cbn [String.append String.length]. unfold line_diff. rewrite str_eqb_refl. cbn [String.append String.length].
    destruct (Nat.ltb_spec max_len 0); [lia|]. exact IH.
Qed.
