(* ===== verification/LocalMonitor.v ===== *)
(** * local/monitor/runner.rs: the local monitor lane

    The tables of targets, selectors, changes, live state and uptime samples, beside those of automations; the checks of due
    targets and those a user asks for, what they record, and the automations they fire. A statement can fail; a transaction puts
    its tables back. The check itself is an interface, which Checker implements; it can time out, and it and a flow can panic. Not
    modelled: which browser handle a check is given, and the delivery of direct notifications. *)

From Stdlib Require Import Ascii String.
From S2P Require Import Prelude Ints F64 Str Json Clamp FlowExpr Store Flow FlowRun Dispatch.
From S2P Require Grouping Recurrence Checker.
Open Scope string_scope.
Open Scope list_scope.
Open Scope Z_scope.

(** ** Rows *)

(** The columns the lane reads and writes. *)
Record Target : Type := mkTarget {
  tg_id : Z;
  tg_url : string;
  tg_check_type : string;
  tg_selector : option string;
  tg_ignore_regex : option string;
  tg_check_period_ms : option Z;
  tg_expected_status_code : option Z;
  tg_timeout_ms : option Z;
  tg_check_ssl : option Z;
  tg_enabled : Z;
  tg_requires_playwright : Z;
  tg_setup_steps : option string;
  tg_notification_providers : option string;
  tg_notification_title : option string;
  tg_notification_message : option string;
  tg_next_run_at : option string;
  tg_schedule_kind : option string;
  tg_schedule_time : option string;
  tg_schedule_days : option string;
  tg_schedule_tz : option string;
}.

Record TargetSelector : Type := mkSelector {
  sl_id : Z;
  sl_target_id : Z;
  sl_name : string;
  sl_selector : string;
  sl_enabled : Z;
  sl_content_type : option string;
  sl_visual_region : option string;
  sl_ignore_regex : option string;
  sl_priority : option Z;
  sl_baseline_hash : option string;
  sl_baseline_content : option string;
  sl_baseline_screenshot : option string;
  sl_last_content_hash : option string;
  sl_last_checked_at : option string;
  sl_change_count : option Z;
  sl_created_at : string;
}.

Record NewChange : Type := mkNewChange {
  nc_target_id : Z;
  nc_target_selector_id : option Z;
  nc_content_hash : string;
  nc_previous_hash : option string;
  nc_diff_snippet : option string;
  nc_content_before : option string;
  nc_content_after : option string;
  nc_screenshot_before : option string;
  nc_screenshot_after : option string;
}.
Record Change : Type := mkChange { ch_id : Z; ch_new : NewChange; ch_first_detected_at : string; ch_last_detected_at : string }.

Record MonitorState : Type := mkState {
  st_target_id : Z;
  st_checked_at : string;
  st_state : option string;
  st_is_up : option Z;
  st_status_code : option Z;
  st_last_change_at : option string;
  st_updated_at : string;
}.
Record MonitorStateUpsert : Type := mkUpsert {
  up_checked_at : string;
  up_state : option string;
  up_is_up : option Z;
  up_status_code : option Z;
  up_last_change_at : option string;
}.

Record UptimeSample : Type := mkSample {
  us_target_id : Z;
  us_is_up : Z;
  us_checked_at : string;
  us_status_code : option Z;
  us_response_time_ms : option Z;
  us_error_message : option string;
}.

Record Mon (W : Type) : Type := mkMon {
  targets : gmap Z Target;
  selectors : gmap Z TargetSelector;
  next_selector : Z;
  change_rows : gmap Z Change;
  next_change : Z;
  states : gmap Z MonitorState;
  samples : list UptimeSample;
  flows : State W;
}.
Arguments mkMon {W}. Arguments targets {W}. Arguments selectors {W}. Arguments next_selector {W}. Arguments change_rows {W}.
Arguments next_change {W}. Arguments states {W}. Arguments samples {W}. Arguments flows {W}.

Definition set_targets {W : Type} (m : gmap Z Target) (s : Mon W) : Mon W :=
  mkMon m (selectors s) (next_selector s) (change_rows s) (next_change s) (states s) (samples s) (flows s).
Definition set_selectors {W : Type} (m : gmap Z TargetSelector) (next : Z) (s : Mon W) : Mon W :=
  mkMon (targets s) m next (change_rows s) (next_change s) (states s) (samples s) (flows s).
Definition set_states {W : Type} (m : gmap Z MonitorState) (s : Mon W) : Mon W :=
  mkMon (targets s) (selectors s) (next_selector s) (change_rows s) (next_change s) m (samples s) (flows s).
Definition set_samples {W : Type} (l : list UptimeSample) (s : Mon W) : Mon W :=
  mkMon (targets s) (selectors s) (next_selector s) (change_rows s) (next_change s) (states s) l (flows s).
Definition set_flows {W : Type} (f : State W) (s : Mon W) : Mon W :=
  mkMon (targets s) (selectors s) (next_selector s) (change_rows s) (next_change s) (states s) (samples s) f.

(** The flows' tables know the changes by id. *)
Definition set_change_rows {W : Type} (m : gmap Z Change) (next : Z) (s : Mon W) : Mon W :=
  let f := flows s in
  mkMon (targets s) (selectors s) (next_selector s) m next (states s) (samples s)
    (FlowRun.mkState (automations f) (executions f) (dom m) (next_execution f) (world f) (plan f)).

#[export] Instance Mon_Faulty {W : Type} : Faulty (Mon W) := {|
  faults s := faults (flows s);
  set_faults fs s := set_flows (set_faults fs (flows s)) s;
|}.

(** ** Calls that can panic or run out of fuel *)

Definition Act (W A : Type) : Type := Mon W -> outcome A * Mon W.

Section act.
Context {W : Type}.

Definition aret {A : Type} (a : A) : Act W A := fun s => (Returned (Ok a), s).
Definition athrow {A : Type} (e : LocalError) : Act W A := fun s => (Returned (Err e), s).
Definition abind {A B : Type} (c : Act W A) (k : A -> Act W B) : Act W B := fun s =>
  match c s with
  | (Returned (Ok a), s) => k a s
  | (Returned (Err e), s) => (Returned (Err e), s)
  | (Panicked, s) => (Panicked, s)
  | (OutOfFuel, s) => (OutOfFuel, s)
  end.
Definition query {A : Type} (c : M (Mon W) A) : Act W A := fun s => let '(r, s) := c s in (Returned r, s).
(** [.ok()], and [let _ =] *)
Definition maybe {A : Type} (c : M (Mon W) A) : Act W (option A) := fun s => let '(r, s) := c s in (Returned (Ok (result_ok r)), s).
Definition ignore {A : Type} (c : M (Mon W) A) : Act W unit := fun s => let '(_, s) := c s in (Returned (Ok tt), s).
(** A call on the flows' tables. *)
Definition flow {A : Type} (c : State W -> outcome A * State W) : Act W A := fun s => let '(o, f) := c (flows s) in (o, set_flows f s).
Definition in_world {A : Type} (c : W -> A * W) : Act W A := fun s =>
  let '(a, w) := c (world (flows s)) in (Returned (Ok a), set_flows (set_world w (flows s)) s).
End act.

Declare Scope act_scope.
Notation "'do' x ':=' c 'in' k" := (abind c (fun x => k)) (at level 10, x pattern, c at level 100, k at level 200) : act_scope.
Open Scope act_scope.

(** ** The stores *)

Section store.
Context {W : Type} `{RunLibs W}.

Definition now_text (s : Mon W) : string := strftime (utc_now (world (flows s))).

(** A write that a constraint can refuse. *)
Definition guarded {A : Type} (f : Mon W -> option (A * Mon W)) : M (Mon W) A :=
  let! r := statement (fun s => match f s with Some (a, s) => (Some a, s) | None => (None, s) end) in
  match r with Some a => ret a | None => throw DbError end.

Definition has_target (id : Z) (s : Mon W) : bool := bool_decide (is_Some (targets s !! id)).

(** [enabled = 1 AND (next_run_at IS NULL OR next_run_at <= now)], soonest first, NULL before all; SQL leaves ties open, here by id. *)
Definition due_at (now : string) (t : Target) : bool :=
  (tg_enabled t =? 1) && match tg_next_run_at t with Some n => String.leb n now | None => true end.
Definition sooner (a b : Target) : bool :=
  match tg_next_run_at a, tg_next_run_at b with
  | None, Some _ => true
  | Some _, None => false
  | None, None => tg_id a <=? tg_id b
  | Some x, Some y => String.ltb x y || (str_eqb x y && (tg_id a <=? tg_id b))
  end.
Definition list_due (now : string) (limit : Z) : M (Mon W) (list Target) :=
  statement (fun s => (sql_limit limit (sort_by sooner (retain (due_at now) (map_to_list (targets s)).*2)), s)).
Definition get_target (id : Z) : M (Mon W) (option Target) := statement (fun s => (targets s !! id, s)).
Definition get_targets (ids : list Z) : M (Mon W) (list Target) :=
  match ids with [] => ret [] | _ => statement (fun s => (omap (fun id => targets s !! id) ids, s)) end.

Definition with_next_run (v : option string) (t : Target) : Target :=
  mkTarget (tg_id t) (tg_url t) (tg_check_type t) (tg_selector t) (tg_ignore_regex t) (tg_check_period_ms t) (tg_expected_status_code t)
    (tg_timeout_ms t) (tg_check_ssl t) (tg_enabled t) (tg_requires_playwright t) (tg_setup_steps t) (tg_notification_providers t)
    (tg_notification_title t) (tg_notification_message t) v (tg_schedule_kind t) (tg_schedule_time t) (tg_schedule_days t) (tg_schedule_tz t).
Definition set_next_run_at (id : Z) (v : option string) : M (Mon W) unit :=
  statement (fun s => (tt, set_targets (alter (with_next_run v) id (targets s)) s)).

Definition selectors_of (target_id : Z) (s : Mon W) : list TargetSelector :=
  retain (fun r => sl_target_id r =? target_id) (map_to_list (selectors s)).*2.
(** [priority DESC], where NULL is last, then by the other order. *)
Definition by_priority (le : TargetSelector -> TargetSelector -> bool) (a b : TargetSelector) : bool :=
  match sl_priority a, sl_priority b with
  | None, Some _ => false
  | Some _, None => true
  | None, None => le a b
  | Some p, Some q => (q <? p) || ((p =? q) && le a b)
  end.
Definition newest (a b : TargetSelector) : bool :=
  String.ltb (sl_created_at b) (sl_created_at a) || (str_eqb (sl_created_at a) (sl_created_at b) && (sl_id b <=? sl_id a)).
Definition get_selector (id : Z) : M (Mon W) (option TargetSelector) := statement (fun s => (selectors s !! id, s)).
Definition list_by_target (target_id limit : Z) : M (Mon W) (list TargetSelector) :=
  statement (fun s => (sql_limit limit (sort_by (by_priority newest) (selectors_of target_id s)), s)).
Definition list_enabled_by_target (target_id : Z) : M (Mon W) (list TargetSelector) :=
  statement (fun s => (sort_by (by_priority (fun a b => sl_id a <=? sl_id b))
    (retain (fun r => sl_enabled r =? 1) (selectors_of target_id s)), s)).
Definition count_by_target (target_id : Z) : M (Mon W) Z := statement (fun s => (Z.of_nat (length (selectors_of target_id s)), s)).

(** The row [heal_single_selector] inserts; the pair of target and selector is unique. *)
Definition insert_selector (target_id : Z) (name selector : string) (ignore_regex : option string) : M (Mon W) Z :=
  guarded (fun s =>
    if has_target target_id s && negb (any (fun r => str_eqb (sl_selector r) selector) (selectors_of target_id s))
    then let id := next_selector s in
         let row := mkSelector id target_id name selector 1 (Some "text") None ignore_regex (Some 0) None None None None None (Some 0) (now_text s) in
         Some (id, set_selectors (<[id := row]> (selectors s)) (id + 1) s)
    else None).

Definition with_baseline (hash content screenshot : option string) (r : TargetSelector) : TargetSelector :=
  mkSelector (sl_id r) (sl_target_id r) (sl_name r) (sl_selector r) (sl_enabled r) (sl_content_type r) (sl_visual_region r) (sl_ignore_regex r)
    (sl_priority r) hash content screenshot (sl_last_content_hash r) (sl_last_checked_at r) (sl_change_count r) (sl_created_at r).
Definition set_baseline (id : Z) (hash content screenshot : option string) : M (Mon W) unit :=
  statement (fun s => (tt, set_selectors (alter (with_baseline hash content screenshot) id (selectors s)) (next_selector s) s)).

Definition with_check (hash : option string) (bump : bool) (now : string) (r : TargetSelector) : TargetSelector :=
  mkSelector (sl_id r) (sl_target_id r) (sl_name r) (sl_selector r) (sl_enabled r) (sl_content_type r) (sl_visual_region r) (sl_ignore_regex r)
    (sl_priority r) (sl_baseline_hash r) (sl_baseline_content r) (sl_baseline_screenshot r) hash (Some now)
    (Some (default 0 (sl_change_count r) + Z.b2z bump)) (sl_created_at r).
Definition record_check (id : Z) (hash : option string) (bump : bool) : M (Mon W) unit :=
  statement (fun s => (tt, set_selectors (alter (with_check hash bump (now_text s)) id (selectors s)) (next_selector s) s)).

Definition insert_change (c : NewChange) : M (Mon W) Z :=
  guarded (fun s =>
    if has_target (nc_target_id c) s &&
       match nc_target_selector_id c with Some i => bool_decide (is_Some (selectors s !! i)) | None => true end
    then let id := next_change s in
         Some (id, set_change_rows (<[id := mkChange id c (now_text s) (now_text s)]> (change_rows s)) (id + 1) s)
    else None).
Definition get_change (id : Z) : M (Mon W) (option Change) := statement (fun s => (change_rows s !! id, s)).

Definition get_state (target_id : Z) : M (Mon W) (option MonitorState) := statement (fun s => (states s !! target_id, s)).
Definition get_states (ids : list Z) : M (Mon W) (list MonitorState) :=
  match ids with [] => ret [] | _ => statement (fun s => (omap (fun id => states s !! id) ids, s)) end.
Definition upserted (id : Z) (u : MonitorStateUpsert) (now : string) (old : option MonitorState) : MonitorState :=
  mkState id (up_checked_at u) (up_state u) (up_is_up u) (up_status_code u)
    (match up_last_change_at u with Some v => Some v | None => old ≫= st_last_change_at end) now.
Definition upsert (id : Z) (u : MonitorStateUpsert) : M (Mon W) unit :=
  guarded (fun s => if has_target id s then Some (tt, set_states (<[id := upserted id u (now_text s) (states s !! id)]> (states s)) s) else None).
Definition checking (id : Z) (now : string) (old : option MonitorState) : MonitorState :=
  match old with
  | Some st => mkState id (st_checked_at st) (Some "checking") (st_is_up st) (st_status_code st) (st_last_change_at st) now
  | None => mkState id "" (Some "checking") None None None now
  end.
Definition mark_checking (id : Z) : M (Mon W) unit :=
  guarded (fun s => if has_target id s then Some (tt, set_states (<[id := checking id (now_text s) (states s !! id)]> (states s)) s) else None).

Definition insert_sample (u : UptimeSample) : M (Mon W) unit :=
  guarded (fun s => if has_target (us_target_id u) s then Some (tt, set_samples (samples s ++ [u]) s) else None).

(** [begin], the statements, [commit]; after an error the tables the statements touch are as they were. *)
Definition in_tx {A : Type} (body : M (Mon W) A) : M (Mon W) A := fun s =>
  match statement (fun s => (tt, s)) s with
  | (Err e, s0) => (Err e, s0)
  | (Ok _, s0) =>
      let rollback s := set_change_rows (change_rows s0) (next_change s0) (set_selectors (selectors s0) (next_selector s0) s) in
      match body s0 with
      | (Err e, s1) => (Err e, rollback s1)
      | (Ok a, s1) =>
          match statement (fun s => (tt, s)) s1 with
          | (Err e, s2) => (Err e, rollback s2)
          | (Ok _, s2) => (Ok a, s2)
          end
      end
  end.
End store.

(** ** The check *)

Inductive CheckEnd : Type := Finished (o : Checker.CheckOutcome) | TimedOut | Died.

Class MonitorEnv (W : Type) : Type := {
  (** a check under its time limit *)
  run_check : Grouping.Target -> W -> CheckEnd * W;
  (** the text of the last panic *)
  panic_message : W -> string;
  (** [flow::dispatch_direct_notifications] *)
  dispatch_direct_notifications : option string -> option string -> option string -> jobj -> W -> W;
  (** [serde_json::from_str] of weekdays *)
  days_from_str : string -> option (list Z);
}.

Record CheckResult : Type := mkResult {
  cr_target_id : Z;
  cr_status : CheckStatus;
  cr_change_id : option Z;
  cr_dispatch : option DispatchOutcome;
  cr_error : option string;
}.
Definition skipped (id : Z) : CheckResult := mkResult id Skipped None None None.
Definition errored (id : Z) (msg : string) : CheckResult := mkResult id CheckError None None (Some msg).

Record TickReport : Type := mkTick {
  tk_considered : Z;
  tk_checked : Z;
  tk_changed : Z;
  tk_unchanged : Z;
  tk_errored : Z;
  tk_timed_out : Z;
  tk_skipped : Z;
  tk_outcomes : list CheckResult;
}.

#[export] Instance CheckStatus_eq_dec : EqDecision CheckStatus.
Proof. solve_decision. Defined.

Definition bump (a b : CheckStatus) (n : Z) : Z := if bool_decide (a = b) then n + 1 else n.
Definition record (rep : TickReport) (o : CheckResult) : TickReport :=
  let st := cr_status o in
  mkTick (tk_considered rep) (if bool_decide (st = Skipped) then tk_checked rep else tk_checked rep + 1)
    (bump st Changed (tk_changed rep)) (bump st Unchanged (tk_unchanged rep)) (bump st CheckError (tk_errored rep))
    (bump st CheckTimeout (tk_timed_out rep)) (bump st Skipped (tk_skipped rep)) (tk_outcomes rep ++ [o]).

Definition MIN_CHECK_INTERVAL_MS : Z := 60000.
Definition CHECK_TIMEOUT_SECS : Z := 90.
Definition DUE_BATCH_LIMIT : Z := 256.
Definition ns_of_ms (t : Z) : Z := t * 1000000.

(** [num_milliseconds], which truncates, and [timestamp_millis], which rounds down. *)
Definition num_milliseconds (d : Z) : Z := Z.quot d 1000000.
Definition timestamp_millis (t : Z) : Z := t / 1000000.

Section runner.
Context `{FlowLibs} {W : Type} `{FlowEnv W} `{RunLibs W} `{MonitorEnv W} {Tz : Type} `{!Recurrence.Calendar Tz}.
(** The floors of the configuration, and the fuel of a flow. *)
Context (fl : Clamp.floors) (fuel : nat).

Definition rfc3339 (t : Z) : string := strftime t.

(** *** The model of a check *)

Definition effective_interval_ms (t : Target) : Z :=
  clamp_monitor_interval_ms fl (tg_check_period_ms t) (negb (tg_requires_playwright t =? 0)).

Definition next_run_for_target (t : Target) (now wall : Z) : Z :=
  let r := Recurrence.from_columns days_from_str (tg_schedule_kind t) (default 0 (tg_check_period_ms t)) (tg_schedule_time t)
             (tg_schedule_days t) (tg_schedule_tz t) in
  match Recurrence.kind r with
  | Recurrence.Interval => now + ns_of_ms (effective_interval_ms t)
  | _ => Recurrence.next_run wall r now
  end.

Definition to_cloud_selector (r : TargetSelector) : Grouping.Selector :=
  Grouping.mkSelector (Some (sl_id r)) (Some (sl_name r)) (sl_selector r) (default "text" (sl_content_type r)) (sl_ignore_regex r)
    (sl_baseline_hash r) (sl_baseline_content r) (sl_visual_region r ≫= from_str).

Definition setup_of (t : Target) : option json :=
  match tg_setup_steps t with
  | Some s => if is_empty (trim s) || str_eqb (trim s) "null" then None else from_str s
  | None => None
  end.

Definition assemble_cloud_target (t : Target) (sels : list Grouping.Selector) : Grouping.Target :=
  Grouping.mkTarget (Some (tg_id t)) (tg_url t) (tg_check_type t) (tg_check_period_ms t) (negb (tg_requires_playwright t =? 0)) (setup_of t)
    None (tg_timeout_ms t) (tg_expected_status_code t) (match tg_check_ssl t with Some v => negb (v =? 0) | None => true end) sels.

Definition is_uptime (t : Target) : bool := str_eqb (tg_check_type t) "uptime".

Definition heal_single_selector (t : Target) : M (Mon W) unit :=
  let selector := trim (default "" (tg_selector t)) in
  if is_uptime t || is_empty selector then ret tt
  else
    let! n := count_by_target (tg_id t) in
    if 0 <? n then ret tt
    else insert_selector (tg_id t) "Content" selector (tg_ignore_regex t) ;! ret tt.

Definition build_cloud_target (t : Target) : M (Mon W) Grouping.Target :=
  if is_uptime t then ret (assemble_cloud_target t [])
  else let! rows := list_enabled_by_target (tg_id t) in ret (assemble_cloud_target t (map to_cloud_selector rows)).

(** *** What a check leaves *)

Definition persist_error (id now : Z) : M (Mon W) unit :=
  upsert id (mkUpsert (rfc3339 now) (Some "error") (Some 0) None None).

Definition floor_cleared (id now : Z) : M (Mon W) bool :=
  let! st := get_state id in
  ret (match st ≫= (fun st => parse_from_rfc3339 (st_checked_at st)) with
       | Some last => MIN_CHECK_INTERVAL_MS <=? num_milliseconds (now - last)
       | None => true
       end).

Definition commit_change_and_baseline (c : NewChange) (sel_id : Z) (hash : string) (content screenshot : option string) : M (Mon W) Z :=
  in_tx (let! id := insert_change c in set_baseline sel_id (Some hash) content screenshot ;! ret id).

(** One selector's row: the first change of the walk is the one reported. *)
Definition finalize_row (target_id : Z) (sel : Grouping.Selector) (r : Checker.ReportItem) (first : option Z) : Act W (option Z) :=
  match Grouping.sel_id sel with
  | None => aret first
  | Some id =>
      match Checker.ri_error_type r, Checker.ri_content_hash r with
      | Some _, _ => do _ := ignore (record_check id None false) in aret first
      | None, None => aret first
      | None, Some hash =>
          let changed := Checker.differs sel hash in
          do _ := ignore (record_check id (Some hash) changed) in
          if bool_decide (Checker.baseline sel = None)
          then do _ := ignore (set_baseline id (Some hash) (Checker.ri_content r) (Checker.ri_screenshot r)) in aret first
          else if changed
          then
            do before := (if bool_decide (is_Some (Checker.ri_screenshot r)) then maybe (get_selector id) else aret None) in
            do cid := maybe (commit_change_and_baseline
              (mkNewChange target_id (Some id) hash (Grouping.baseline_hash sel) (Checker.ri_diff_snippet r) (Checker.ri_previous_content r)
                 (Checker.ri_content r) (mjoin before ≫= sl_baseline_screenshot) (Checker.ri_screenshot r))
              id hash (Checker.ri_content r) (Checker.ri_screenshot r)) in
            aret (match first with Some _ => first | None => cid end)
          else aret first
      end
  end.

Fixpoint finalize_rows (target_id : Z) (rows : list (Grouping.Selector * Checker.ReportItem)) (first : option Z) : Act W (option Z) :=
  match rows with
  | [] => aret first
  | (sel, r) :: rows => do first := finalize_row target_id sel r first in finalize_rows target_id rows first
  end.

Definition find_status (rs : list Checker.ReportItem) : option Z := head (omap Checker.ri_status_code rs).
Definition is_error (r : Checker.ReportItem) : bool := bool_decide (is_Some (Checker.ri_error_type r)).

(** *** What a change fires *)

Definition insert_some (k : string) (v : option string) (m : jobj) : jobj := match v with Some s => map_insert k (JStr s) m | None => m end.

Definition build_change_context (target_id : Z) (change_id : option Z) : Act W json :=
  let base := [("event", JStr EVENT_CHANGE_DETECTED); ("target_id", json_of_Z target_id);
               ("change_id", match change_id with Some c => json_of_Z c | None => JNull end)] in
  match change_id with
  | None => aret (JObj base)
  | Some cid =>
      do found := maybe (get_change cid) in
      match mjoin found with
      | None => aret (JObj base)
      | Some c =>
          let ctx := insert_some "content" (nc_content_after (ch_new c)) (insert_some "diff_snippet" (nc_diff_snippet (ch_new c)) base) in
          match nc_target_selector_id (ch_new c) with
          | None => aret (JObj ctx)
          | Some sid =>
              do sel := maybe (get_selector sid) in
              aret (JObj (insert_some "selector_name" (sl_name <$> mjoin sel) ctx))
          end
      end
  end.

(** As [Dispatch.dispatch_change_automations], with the context read after the automations. *)
Definition dispatch_change_automations (target_id : Z) (change_id : option Z) : Act W DispatchOutcome :=
  do all := (fun s => let '(r, f) := list_enabled_for_event EVENT_CHANGE_DETECTED 256 (flows s) in (Returned (Ok (result_ok r)), set_flows f s)) in
  match all with
  | None => aret no_dispatch
  | Some all =>
      let chosen := retain (on_target target_id) all in
      do context := build_change_context target_id change_id in
      flow (run_each fuel (mkTrigger change_id (JObj []) context Monitor Background) tally_outcome chosen
              (mkOutcome (Z.of_nat (length chosen)) 0 0))
  end.

Definition dispatch_change_direct_notifications (t : Target) (change_id : option Z) : Act W unit :=
  if is_empty (trim (default "" (tg_notification_providers t))) then aret tt
  else
    let base := [("url", JStr (tg_url t)); ("target_name", JStr (tg_url t)); ("target_id", json_of_Z (tg_id t))] in
    do scope :=
      match change_id with
      | None => aret base
      | Some cid =>
          let base := map_insert "change_id" (json_of_Z cid) base in
          do found := maybe (get_change cid) in
          aret (match mjoin found with
                | Some c => insert_some "content" (nc_content_after (ch_new c)) (insert_some "diff_snippet" (nc_diff_snippet (ch_new c)) base)
                | None => base
                end)
      end in
    in_world (fun w => (tt, dispatch_direct_notifications (tg_notification_providers t) (tg_notification_title t) (tg_notification_message t) scope w)).

(** *** The outcome of a check *)

Definition finalize_content (t : Target) (now : Z) (ct : Grouping.Target) (o : Checker.CheckOutcome) : Act W CheckResult :=
  let rs := Checker.reports o in
  if negb (bool_decide (rs = [])) && all is_error rs then
    do _ := ignore (persist_error (tg_id t) now) in
    aret (errored (tg_id t) (default "content check failed" (head (omap Checker.ri_error_message rs))))
  else
    do change_id := finalize_rows (tg_id t) (zip (Grouping.selectors ct) rs) None in
    let changed := Checker.changed o && bool_decide (is_Some change_id) in
    do _ := ignore (upsert (tg_id t) (mkUpsert (rfc3339 now) (Some (if changed then "changed" else "unchanged")) (Some 1) (find_status rs)
                                        (if changed then Some (rfc3339 now) else None))) in
    if negb changed then aret (mkResult (tg_id t) Unchanged None None None)
    else
      do d := dispatch_change_automations (tg_id t) change_id in
      do _ := dispatch_change_direct_notifications t change_id in
      aret (mkResult (tg_id t) Changed change_id (Some d) None).

Definition finalize_uptime (t : Target) (now : Z) (o : Checker.CheckOutcome) : Act W CheckResult :=
  match Checker.reports o with
  | [] =>
      do _ := ignore (persist_error (tg_id t) now) in aret (errored (tg_id t) "uptime check produced no result")
  | item :: _ =>
      let up := default false (Checker.ri_is_up item) in
      do _ := ignore (insert_sample (mkSample (tg_id t) (Z.b2z up) (rfc3339 now) (Checker.ri_status_code item) (Checker.ri_response_time_ms item)
                                       (Checker.ri_error_message item))) in
      do prior := maybe (get_state (tg_id t)) in
      let transitioned := match mjoin prior ≫= st_is_up with Some v => negb (Bool.eqb (negb (v =? 0)) up) | None => false end in
      let state := if negb up then "down" else if transitioned then "up" else "unchanged" in
      do _ := ignore (upsert (tg_id t) (mkUpsert (rfc3339 now) (Some state) (Some (Z.b2z up)) (Checker.ri_status_code item)
                                          (if transitioned then Some (rfc3339 now) else None))) in
      aret (mkResult (tg_id t) (if up then Unchanged else CheckError) None None (if up then None else Checker.ri_error_message item))
  end.

Definition check_one_inner (t : Target) (now : Z) : Act W CheckResult :=
  do wall := in_world (fun w => (utc_now w, w)) in
  do _ := ignore (set_next_run_at (tg_id t) (Some (rfc3339 (next_run_for_target t now wall)))) in
  do _ := ignore (mark_checking (tg_id t)) in
  do _ := ignore (heal_single_selector t) in
  do built := (fun s => let '(r, s) := build_cloud_target t s in (Returned (Ok r), s)) in
  match built with
  | Err e =>
      do _ := ignore (persist_error (tg_id t) now) in
      aret (errored (tg_id t) (String.append "could not load monitor config: " (to_string e)))
  | Ok ct =>
      do ended := in_world (run_check ct) in
      match ended with
      | TimedOut =>
          do _ := ignore (persist_error (tg_id t) now) in
          aret (mkResult (tg_id t) CheckTimeout None None
                  (Some (String.append "check timed out after " (String.append (Z_to_string CHECK_TIMEOUT_SECS) "s"))))
      | Died => fun s => (Panicked, s)
      | Finished o => if is_uptime t then finalize_uptime t now o else finalize_content t now ct o
      end
  end.

Definition check_one (t : Target) (now : Z) : Act W CheckResult :=
  do prior := maybe (get_state (tg_id t)) in
  do o := check_one_inner t now in
  do _ := flow (maybe_dispatch_health_edge fuel (tg_id t) (tg_url t) (mjoin prior ≫= st_state) (cr_status o)) in
  aret o.

(** [catch_unwind] *)
Definition check_one_isolated (t : Target) (now : Z) : Act W CheckResult := fun s =>
  match check_one t now s with
  | (Panicked, s) =>
      let msg := String.append "check panicked: " (panic_message (world (flows s))) in
      (do _ := ignore (persist_error (tg_id t) now) in aret (errored (tg_id t) msg)) s
  | r => r
  end.

(** *** The lane *)

Definition stale_factor : f64 := f64_of_dec 25 (-1).
Definition overdue (t : Target) (checked now_ms : Z) : bool :=
  let expected := Z.max (effective_interval_ms t) MIN_CHECK_INTERVAL_MS in
  f64_ltb (f64_mul (f64_of_Z expected) stale_factor) (f64_of_Z (now_ms - timestamp_millis checked)).

Definition one_stale (t : Target) (st : MonitorState) (now : Z) : bool :=
  negb (tg_enabled t =? 0) && negb (one_of (default "" (st_state st)) ["stale"; "down"; "error"]) && negb (is_empty (st_checked_at st)) &&
  match parse_from_rfc3339 (st_checked_at st) with Some checked => overdue t checked (timestamp_millis now) | None => false end.

Definition add_outcome (a b : DispatchOutcome) : DispatchOutcome :=
  mkOutcome (matched a + matched b) (succeeded a + succeeded b) (failed a + failed b).

Fixpoint sweep_each (now : Z) (rows : list (Target * MonitorState)) (out : DispatchOutcome) : Act W DispatchOutcome :=
  match rows with
  | [] => aret out
  | (t, st) :: rows =>
      if one_stale t st now then
        do _ := ignore (upsert (tg_id t) (mkUpsert (st_checked_at st) (Some "stale") (st_is_up st) (st_status_code st) (Some (rfc3339 now)))) in
        do d := flow (dispatch_health_automations fuel (tg_id t) (tg_url t) EVENT_MONITOR_STALE) in
        sweep_each now rows (add_outcome out d)
      else sweep_each now rows out
  end.

(** [sort_unstable] and [dedup]. *)
Fixpoint dedup (l : list Z) : list Z :=
  match l with
  | x :: (y :: _) as k => if x =? y then dedup k else x :: dedup k
  | l => l
  end.

Definition sweep_stale_health (now : Z) : Act W DispatchOutcome :=
  do autos := (fun s => let '(r, f) := list_enabled_for_event EVENT_MONITOR_STALE 256 (flows s) in (Returned (Ok (result_ok r)), set_flows f s)) in
  match autos with
  | None | Some [] => aret no_dispatch
  | Some autos =>
      let ids := dedup (sort_by Z.leb (omap a_target_id autos)) in
      do ts := maybe (get_targets ids) in
      match ts with
      | None => aret no_dispatch
      | Some ts =>
          do sts := maybe (get_states ids) in
          match sts with
          | None => aret no_dispatch
          | Some sts =>
              let row id := t ← find_first (fun t => tg_id t =? id) ts; st ← find_first (fun st => st_target_id st =? id) sts; Some (t, st) in
              sweep_each now (omap row ids) no_dispatch
          end
      end
  end.

Fixpoint check_due (now : Z) (due : list Target) (rep : TickReport) : Act W TickReport :=
  match due with
  | [] => aret rep
  | t :: due =>
      if tg_enabled t =? 0 then check_due now due (record rep (skipped (tg_id t)))
      else
        do cleared := query (floor_cleared (tg_id t) now) in
        if negb cleared then check_due now due (record rep (skipped (tg_id t)))
        else do o := check_one_isolated t now in check_due now due (record rep o)
  end.

Definition run_due_checks (now : Z) : Act W TickReport :=
  do due := query (list_due (rfc3339 now) DUE_BATCH_LIMIT) in
  do rep := check_due now due (mkTick (Z.of_nat (length due)) 0 0 0 0 0 0 []) in
  do _ := sweep_stale_health now in
  aret rep.

Definition monitor_missing (id : Z) : LocalError := NotFound (String.append "monitor " (Z_to_string id)).

Definition load_target (id : Z) : M (Mon W) Target :=
  let! t := get_target id in match t with Some t => ret t | None => throw (monitor_missing id) end.

Definition run_check_for_target (id : Z) : Act W CheckResult :=
  do now := in_world (fun w => (utc_now w, w)) in
  do t := query (load_target id) in
  do cleared := query (floor_cleared id now) in
  if negb cleared then aret (skipped id) else check_one_isolated t now.

(** *** Probes and baselines *)

Record SelectorProbe : Type := mkProbe {
  pr_selector_id : Z;
  pr_matched : bool;
  pr_content : option string;
  pr_content_hash : option string;
  pr_screenshot : option string;
  pr_status_code : option Z;
  pr_error : option string;
}.

Definition from_report (id : Z) (r : option Checker.ReportItem) : SelectorProbe :=
  match r with
  | Some r =>
      let ok := negb (is_error r) in
      mkProbe id ok (Checker.ri_content r) (if ok then Checker.ri_content_hash r else None) (Checker.ri_screenshot r)
        (Checker.ri_status_code r) (Checker.ri_error_message r)
  | None => mkProbe id false None None None None (Some "checker produced no report")
  end.

Definition load_owned_selector (target_id id : Z) : M (Mon W) TargetSelector :=
  let! r := get_selector id in
  match r with
  | Some r => if sl_target_id r =? target_id then ret r else throw (NotFound (String.append "selector " (Z_to_string id)))
  | None => throw (NotFound (String.append "selector " (Z_to_string id)))
  end.

Definition check_selectors_now (t : Target) (rows : list TargetSelector) : Act W Checker.CheckOutcome :=
  do ended := in_world (run_check (assemble_cloud_target t (map to_cloud_selector rows))) in
  match ended with
  | Finished o => aret o
  | TimedOut => athrow (Internal (String.append "selector check timed out after " (String.append (Z_to_string CHECK_TIMEOUT_SECS) "s")))
  | Died => fun s => (Panicked, s)
  end.

Definition probe_selector (target_id id : Z) : Act W SelectorProbe :=
  do t := query (load_target target_id) in
  do row := query (load_owned_selector target_id id) in
  do o := check_selectors_now t [row] in
  aret (from_report id (head (Checker.reports o))).

Definition cleared (r : TargetSelector) : TargetSelector := with_baseline None None (sl_baseline_screenshot r) r.

Definition capture_selector_baseline (target_id id : Z) : Act W SelectorProbe :=
  do t := query (load_target target_id) in
  do row := query (load_owned_selector target_id id) in
  do o := check_selectors_now t [cleared row] in
  let probe := from_report id (head (Checker.reports o)) in
  if pr_matched probe
  then do _ := query (set_baseline id (pr_content_hash probe) (pr_content probe) (pr_screenshot probe)) in aret probe
  else aret probe.

Record BaselineSummary : Type := mkSummary { bs_target_id : Z; bs_selectors : Z; bs_captured : Z }.

Fixpoint capture_each (rows : list (TargetSelector * Checker.ReportItem)) (captured : Z) : Act W Z :=
  match rows with
  | [] => aret captured
  | (row, r) :: rows =>
      if is_error r then capture_each rows captured
      else
        match Checker.ri_content_hash r with
        | Some hash =>
            do _ := query (set_baseline (sl_id row) (Some hash) (Checker.ri_content r) (Checker.ri_screenshot r)) in capture_each rows (captured + 1)
        | None => capture_each rows captured
        end
  end.

Definition capture_all_baselines (target_id : Z) : Act W BaselineSummary :=
  do t := query (load_target target_id) in
  do rows := query (list_by_target target_id 1000) in
  if bool_decide (rows = []) then aret (mkSummary target_id 0 0)
  else
    do o := check_selectors_now t (map cleared rows) in
    do captured := capture_each (zip (map cleared rows) (Checker.reports o)) 0 in
    aret (mkSummary target_id (Z.of_nat (length rows)) captured).
End runner.
