(* ===== verification/MonitorAudit.v ===== *)
(** * What the local monitor lane keeps over any history

    The changes recorded for a selector form a chain that ends in its baseline, whatever statements fail and whatever panics; and examples of
    the behaviours the lane does not rule out: overlapping checks that report one difference twice, a panic that loses an edge, a state left at
    [checking], a failed read that ends a tick. *)

From Stdlib Require Import Ascii String.
From S2P Require Import Prelude Ints F64 Str Json Clamp FlowExpr Store Flow FlowRun Dispatch LocalMonitor.
From S2P Require Grouping Recurrence Checker.
Open Scope string_scope.
Open Scope list_scope.
Open Scope Z_scope.

(** ** Frames

    [R] relates the tables before and after a call, however it ends. *)

Section frames.
Context {W : Type} (R : Mon W -> Mon W -> Prop) `{!PreOrder R}.

Definition steps {A : Type} (c : Act W A) : Prop := forall s, R s (snd (c s)).
Definition m_steps {A : Type} (c : M (Mon W) A) : Prop := forall s, R s (snd (c s)).

Lemma steps_ret {A : Type} (a : A) : steps (aret a).
Proof. intros s. reflexivity. Qed.

Lemma steps_throw {A : Type} (e : LocalError) : steps (A := A) (athrow e).
Proof. intros s. reflexivity. Qed.

Lemma steps_panic {A : Type} : steps (A := A) (fun s => (Panicked, s)).
Proof. intros s. reflexivity. Qed.

Lemma steps_bind {A B : Type} (c : Act W A) (k : A -> Act W B) : steps c -> (forall a, steps (k a)) -> steps (abind c k).
Proof.
  intros Hc Hk s. unfold abind. specialize (Hc s). destruct (c s) as [[[a|e]| |] s1]; cbn in *; try done.
  etrans; [exact Hc|apply Hk].
Qed.

Lemma steps_query {A : Type} (c : M (Mon W) A) : m_steps c -> steps (query c).
Proof. intros Hc s. unfold query. specialize (Hc s). by destruct (c s). Qed.
Lemma steps_maybe {A : Type} (c : M (Mon W) A) : m_steps c -> steps (maybe c).
Proof. intros Hc s. unfold maybe. specialize (Hc s). by destruct (c s). Qed.
Lemma steps_ignore {A : Type} (c : M (Mon W) A) : m_steps c -> steps (ignore c).
Proof. intros Hc s. unfold ignore. specialize (Hc s). by destruct (c s). Qed.
Lemma steps_attempt {A : Type} (c : M (Mon W) A) : m_steps c -> steps (fun s => let '(r, s) := c s in (Returned (Ok r), s)).
Proof. intros Hc s. specialize (Hc s). by destruct (c s). Qed.

Lemma m_steps_ret {A : Type} (a : A) : m_steps (ret a).
Proof. intros s. reflexivity. Qed.
Lemma m_steps_throw {A : Type} (e : LocalError) : m_steps (A := A) (throw e).
Proof. intros s. reflexivity. Qed.
Lemma m_steps_bind {A B : Type} (c : M (Mon W) A) (k : A -> M (Mon W) B) : m_steps c -> (forall a, m_steps (k a)) -> m_steps (bind c k).
Proof.
  intros Hc Hk s. unfold bind. specialize (Hc s). destruct (c s) as [[a|e] s1]; cbn in *; [|done].
  etrans; [exact Hc|apply Hk].
Qed.

(** Changes to the flows' tables, the faults among them, are steps. *)
Context (Rflows : forall s f, R s (set_flows f s)).

Lemma m_steps_statement {A : Type} (f : Mon W -> A * Mon W) : (forall s, R s (snd (f s))) -> m_steps (statement f).
Proof.
  intros Hf s. unfold statement, faulted. destruct (faults s) as [|[] fs].
  - specialize (Hf s). by destruct (f s).
  - apply Rflows.
  - specialize (Hf (set_faults fs s)). destruct (f _). cbn in *. etrans; [apply Rflows|exact Hf].
Qed.
Lemma m_steps_read {A : Type} (g : Mon W -> A) : m_steps (statement (fun s => (g s, s))).
Proof. apply m_steps_statement. intros s. cbn. reflexivity. Qed.
Lemma m_steps_guarded {A : Type} (f : Mon W -> option (A * Mon W)) : (forall s a s', f s = Some (a, s') -> R s s') -> m_steps (guarded f).
Proof.
  intros Hf. apply m_steps_bind.
  - apply m_steps_statement. intros s. specialize (Hf s). destruct (f s) as [[a s']|]; cbn; [by eapply Hf|reflexivity].
  - intros [a|]; [apply m_steps_ret|apply m_steps_throw].
Qed.
Lemma steps_flow {A : Type} (c : State W -> outcome A * State W) : steps (flow c).
Proof. intros s. unfold flow. destruct (c (flows s)). apply Rflows. Qed.
Lemma steps_world {A : Type} (c : W -> A * W) : steps (in_world c).
Proof. intros s. unfold in_world. destruct (c _). apply Rflows. Qed.
Lemma steps_listed {A : Type} (c : M (State W) A) :
  steps (fun s => let '(r, f) := c (flows s) in (Returned (Ok (result_ok r)), set_flows f s)).
Proof. intros s. destruct (c (flows s)). apply Rflows. Qed.
End frames.

(** ** The chain of a selector's changes *)

(** A baseline in force: not absent, not empty. *)
Definition norm (b : option string) : option string := match b with Some h => if is_empty h then None else Some h | None => None end.

(** From one baseline to another through the changes recorded: each describes a change from the baseline before it to another content, which is the
    baseline after it. Without a baseline one can be set. *)
Inductive linked : option string -> list NewChange -> option string -> Prop :=
| linked_nil b : linked b [] b
| linked_seed h cs b : linked (norm h) cs b -> linked None cs b
| linked_change p c cs b : nc_previous_hash c = Some p -> nc_content_hash c <> p -> linked (norm (Some (nc_content_hash c))) cs b ->
    linked (Some p) (c :: cs) b.

Lemma linked_app (b : option string) (cs : list NewChange) (b1 : option string) : linked b cs b1 ->
  forall ds b2, linked b1 ds b2 -> linked b (cs ++ ds) b2.
Proof. induction 1; intros ds b2 Hd; [done|eapply linked_seed; eauto|]. cbn. eapply linked_change; eauto. Qed.

Section chain.
Context {W : Type}.

Definition bl (s : Mon W) (k : Z) : option string := norm (selectors s !! k ≫= sl_baseline_hash).

Definition change_of (s : Mon W) (k id : Z) : option NewChange :=
  c ← change_rows s !! id; if bool_decide (nc_target_selector_id (ch_new c) = Some k) then Some (ch_new c) else None.

(** The changes of selector [k] recorded between two states, oldest first. *)
Definition new_changes (s s' : Mon W) (k : Z) : list NewChange :=
  omap (change_of s' k) (seqZ (next_change s) (next_change s' - next_change s)).

Record tables_ok (s : Mon W) : Prop := {
  ok_selector : forall k r, selectors s !! k = Some r -> sl_id r = k /\ k < next_selector s;
  ok_change : forall id c, change_rows s !! id = Some c -> id < next_change s;
}.

Record evolved (s s' : Mon W) : Prop := {
  ev_ok : tables_ok s';
  ev_next : next_change s <= next_change s';
  ev_old : forall id, id < next_change s -> change_rows s' !! id = change_rows s !! id;
  ev_linked : forall k, linked (bl s k) (new_changes s s' k) (bl s' k);
}.
Definition evolves (s s' : Mon W) : Prop := tables_ok s -> evolved s s'.

Lemma omap_ext_in {A B : Type} (f g : A -> option B) (l : list A) : (forall x, x ∈ l -> f x = g x) -> omap f l = omap g l.
Proof.
  induction l as [|x l IH]; intros Hf; [done|]. cbn. rewrite (Hf x) by left. rewrite IH; [done|]. intros y Hy. apply Hf. by right.
Qed.

Lemma evolves_same (s s' : Mon W) : selectors s' = selectors s -> next_selector s' = next_selector s -> change_rows s' = change_rows s ->
  next_change s' = next_change s -> evolves s s'.
Proof.
  intros Es En Ec Ex Hok. split.
  - destruct Hok as [H1 H2]. split; [by rewrite Es, En|by rewrite Ec, Ex].
  - lia.
  - by rewrite Ec.
  - intros k. unfold new_changes, bl. rewrite Es, Ex, Z.sub_diag. apply linked_nil.
Qed.

#[export] Instance evolves_order : PreOrder evolves.
Proof.
  split.
  - intros s. by apply evolves_same.
  - intros s s1 s2 E1 E2 Hok. specialize (E1 Hok). specialize (E2 (ev_ok _ _ E1)). destruct E1 as [Hok1 Hn1 Ho1 Hl1], E2 as [Hok2 Hn2 Ho2 Hl2].
    split; [done|lia| |].
    + intros id Hid. rewrite Ho2 by lia. by apply Ho1.
    + intros k. replace (new_changes s s2 k) with (new_changes s s1 k ++ new_changes s1 s2 k); [by eapply linked_app|].
      unfold new_changes. replace (next_change s2 - next_change s) with ((next_change s1 - next_change s) + (next_change s2 - next_change s1)) by lia.
      rewrite seqZ_app by lia. rewrite omap_app. replace (next_change s + (next_change s1 - next_change s)) with (next_change s1) by lia. f_equal.
      apply omap_ext_in. intros id [_ Hid]%elem_of_seqZ. unfold change_of. rewrite Ho2 by lia. done.
Qed.

Lemma evolves_flows (s : Mon W) (f : State W) : evolves s (set_flows f s).
Proof. by apply evolves_same. Qed.

Lemma no_new (s s' : Mon W) (k : Z) : next_change s' = next_change s -> new_changes s s' k = [].
Proof. intros E. unfold new_changes. by rewrite E, Z.sub_diag. Qed.

(** A row rewritten without its id; its baseline may be set when there was none. *)
Lemma evolves_alter (f : TargetSelector -> TargetSelector) (id : Z) (s : Mon W) :
  (forall r, sl_id (f r) = sl_id r) ->
  (bl s id = None \/ forall r, norm (sl_baseline_hash (f r)) = norm (sl_baseline_hash r)) ->
  evolves s (set_selectors (alter f id (selectors s)) (next_selector s) s).
Proof.
  intros Hid Hb Hok. destruct Hok as [H1 H2]. split; [split|cbn; lia|done|].
  - intros k r. cbn. rewrite lookup_alter. case_decide as E; [subst k|apply H1]. intros (r0 & Hr & ->)%fmap_Some. rewrite Hid. by apply H1.
  - exact H2.
  - intros k. rewrite no_new by done. unfold bl. cbn. rewrite lookup_alter. case_decide as E; [subst k|apply linked_nil].
    destruct (selectors s !! id) as [r|] eqn:Er; cbn; [|apply linked_nil]. destruct Hb as [Hb|Hb]; [|rewrite Hb; apply linked_nil].
    unfold bl in Hb. rewrite Er in Hb. cbn in Hb. rewrite Hb. eapply linked_seed, linked_nil.
Qed.
End chain.

(** ** The stores' statements *)

Section stores.
Context {W : Type} `{RunLibs W}.

Lemma fault_cases {A : Type} (f : Mon W -> A * Mon W) (s : Mon W) : exists fs,
  statement f s = (Err DbError, set_faults fs s) \/
  statement f s = (Ok (fst (f (set_faults fs s))), snd (f (set_faults fs s))).
Proof.
  unfold statement, faulted. destruct (faults s) as [|[] fs] eqn:Ef.
  - exists []. right. replace (set_faults [] s) with s by (destruct s as [? ? ? ? ? ? ? []]; cbn in *; by subst). by destruct (f s).
  - exists fs. by left.
  - exists fs. right. by destruct (f _).
Qed.

Lemma ev_read {A : Type} (g : Mon W -> A) : m_steps (evolves (W := W)) (statement (fun s => (g s, s))).
Proof. apply m_steps_read; [apply _|apply evolves_flows]. Qed.

Lemma ev_statement {A : Type} (f : Mon W -> A * Mon W) : (forall s, evolves s (snd (f s))) -> m_steps (evolves (W := W)) (statement f).
Proof. apply m_steps_statement; [apply _|apply evolves_flows]. Qed.

Lemma ev_guarded {A : Type} (f : Mon W -> option (A * Mon W)) : (forall s a s', f s = Some (a, s') -> evolves s s') -> m_steps (evolves (W := W)) (guarded f).
Proof. apply m_steps_guarded; [apply _|apply evolves_flows]. Qed.

Lemma ev_upsert (id : Z) (u : MonitorStateUpsert) : m_steps (evolves (W := W)) (upsert id u).
Proof. apply ev_guarded. intros s a s'. destruct (has_target id s); [|done]. intros [= _ <-]. by apply evolves_same. Qed.
Lemma ev_mark_checking (id : Z) : m_steps (evolves (W := W)) (mark_checking id).
Proof. apply ev_guarded. intros s a s'. destruct (has_target id s); [|done]. intros [= _ <-]. by apply evolves_same. Qed.
Lemma ev_insert_sample (u : UptimeSample) : m_steps (evolves (W := W)) (insert_sample u).
Proof. apply ev_guarded. intros s a s'. destruct (has_target _ s); [|done]. intros [= _ <-]. by apply evolves_same. Qed.
Lemma ev_set_next_run_at (id : Z) (v : option string) : m_steps (evolves (W := W)) (set_next_run_at id v).
Proof. apply ev_statement. intros s. by apply evolves_same. Qed.
Lemma ev_record_check (id : Z) (h : option string) (b : bool) : m_steps (evolves (W := W)) (record_check id h b).
Proof. apply ev_statement. intros s. apply (evolves_alter (with_check h b (now_text s)) id s); [done|by right]. Qed.

Lemma ev_insert_selector (tid : Z) (name sel : string) (re : option string) : m_steps (evolves (W := W)) (insert_selector tid name sel re).
Proof.
  apply ev_guarded. intros s a s'. destruct (_ && _); [|done]. intros [= _ <-] [H1 H2]. split; [split|cbn; lia|done|].
  - intros k r. cbn. destruct (decide (next_selector s = k)) as [<-|Hne].
    + rewrite lookup_insert_eq. intros [= <-]. split; [done|lia].
    + rewrite lookup_insert_ne by done. intros Hr. destruct (H1 k r Hr). split; [done|lia].
  - exact H2.
  - intros k. rewrite no_new by done. unfold bl. cbn. destruct (decide (next_selector s = k)) as [<-|Hne].
    + rewrite lookup_insert_eq. destruct (selectors s !! next_selector s) as [r|] eqn:Er; [destruct (H1 _ r Er); lia|]. apply linked_nil.
    + rewrite lookup_insert_ne by done. apply linked_nil.
Qed.

(** The transaction writes both rows or neither. *)
Definition committed (c : NewChange) (id : Z) (hash : string) (content shot : option string) (s s' : Mon W) : Prop :=
  next_selector s' = next_selector s /\
  ((selectors s' = selectors s /\ change_rows s' = change_rows s /\ next_change s' = next_change s) \/
   (selectors s' = alter (with_baseline (Some hash) content shot) id (selectors s) /\ next_change s' = next_change s + 1 /\
    change_rows s' = <[next_change s := mkChange (next_change s) c (now_text s) (now_text s)]> (change_rows s))).
Lemma commit_cases (c : NewChange) (id : Z) (hash : string) (content shot : option string) (s : Mon W) :
  committed c id hash content shot s (snd (commit_change_and_baseline c id hash content shot s)).
Proof.
  unfold commit_change_and_baseline, in_tx.
  destruct (fault_cases (fun s => (tt, s)) s) as (fs0 & [-> | ->]); [split; [done|left; split_and!; done]|]. cbn [fst snd].
  set (s0 := set_faults fs0 s). unfold bind at 1. unfold insert_change, guarded, bind at 1.
  match goal with |- context [statement ?f s0] => destruct (fault_cases f s0) as (fs1 & [E1|E1]); rewrite E1 end; [split; [done|left; split_and!; done]|].
  cbn [fst snd]. change (has_target (nc_target_id c) (set_faults fs1 s0)) with (has_target (nc_target_id c) s).
  destruct (has_target _ s && _); [|split; [done|left; split_and!; done]]. cbn [ret].
  unfold bind, set_baseline. cbn beta iota zeta delta [fst snd ret].
  match goal with |- context [statement ?f ?s1] => destruct (fault_cases f s1) as (fs2 & [E2|E2]); rewrite E2 end; [split; [done|left; split_and!; done]|].
  cbn beta iota zeta delta [fst snd ret].
  match goal with |- context [statement ?f ?s2] => destruct (fault_cases f s2) as (fs3 & [E3|E3]); rewrite E3 end; [split; [done|left; split_and!; done]|].
  cbn [fst snd]. split; [done|right; split_and!; done].
Qed.

(** The transaction, from the baseline in force. *)
Lemma ev_commit (c : NewChange) (id : Z) (hash p : string) (content shot : option string) (s : Mon W) :
  bl s id = Some p -> nc_target_selector_id c = Some id -> nc_previous_hash c = Some p -> nc_content_hash c = hash -> hash <> p ->
  evolves s (snd (commit_change_and_baseline c id hash content shot s)).
Proof.
  intros Hb Hsel Hprev Hhash Hne. pose proof (commit_cases c id hash content shot s) as (Hn & [(Hs & Hc' & Hx)|(Hs & Hx & Hc')]); [by apply evolves_same|].
  set (s' := snd _) in *. clearbody s'. intros [H1 H2]. split; [split|lia| |].
  - intros k r. rewrite Hs, Hn, lookup_alter. case_decide as E; [subst k|apply H1]. intros (r0 & Hr & ->)%fmap_Some. exact (H1 id r0 Hr).
  - intros i ch. rewrite Hc', Hx. destruct (decide (next_change s = i)) as [<-|Hi]; [lia|]. rewrite lookup_insert_ne by done.
    intros Hch. specialize (H2 i ch Hch). lia.
  - intros i Hi. rewrite Hc', lookup_insert_ne by lia. done.
  - intros k. unfold new_changes. rewrite Hx. replace (next_change s + 1 - next_change s) with 1 by lia.
    rewrite seqZ_cons by lia. cbn [omap list_omap]. replace (omap _ (seqZ (Z.succ (next_change s)) (Z.pred 1))) with (@nil NewChange) by done.
    unfold change_of. rewrite Hc', lookup_insert_eq. cbn [mbind option_bind ch_new]. unfold bl at 2. rewrite Hs, lookup_alter.
    destruct (decide (id = k)) as [<-|Hk].
    + rewrite bool_decide_eq_true_2 by done. unfold bl in Hb. destruct (selectors s !! id) as [r|] eqn:Er; [|done]. cbn in Hb |- *.
      unfold bl. rewrite Er. cbn. rewrite Hb. eapply linked_change; [done|congruence|]. rewrite Hhash. apply linked_nil.
    + rewrite bool_decide_eq_false_2 by congruence. apply linked_nil.
Qed.
End stores.

(** ** The lane *)

Section lane.
Context `{FlowLibs} {W : Type} `{FlowEnv W} `{RunLibs W} `{MonitorEnv W} {Tz : Type} `{!Recurrence.Calendar Tz}.
Context (fl : Clamp.floors) (fuel : nat).

(** Only the baseline of one selector may move. *)
Definition only (id : Z) (s s' : Mon W) : Prop := forall k, k <> id -> bl s' k = bl s k.
#[local] Instance only_order (id : Z) : PreOrder (only id).
Proof. split; [by intros s k|]. intros s s1 s2 E1 E2 k Hk. by rewrite E2, E1. Qed.

Lemma only_alter (id : Z) (f : TargetSelector -> TargetSelector) (s : Mon W) :
  only id s (set_selectors (alter f id (selectors s)) (next_selector s) s).
Proof. intros k Hk. unfold bl. cbn. by rewrite lookup_alter_ne. Qed.

Lemma only_commit (c : NewChange) (id : Z) (h : string) (content shot : option string) : m_steps (only id) (commit_change_and_baseline c id h content shot).
Proof.
  intros s k Hk. destruct (commit_cases c id h content shot s) as (_ & [(Hs & _)|(Hs & _)]); unfold bl; rewrite Hs; [done|]. by rewrite lookup_alter_ne.
Qed.

Lemma only_flows (id : Z) (s : Mon W) (f : State W) : only id s (set_flows f s).
Proof. by intros k Hk. Qed.

Lemma only_statement {A : Type} (id : Z) (f : Mon W -> A * Mon W) : (forall s, only id s (snd (f s))) -> m_steps (only id) (statement f).
Proof. apply m_steps_statement; [apply _|apply only_flows]. Qed.

Lemma row_only (tid id : Z) (sel : Grouping.Selector) (r : Checker.ReportItem) (first : option Z) :
  Grouping.sel_id sel = Some id -> steps (only id) (finalize_row tid sel r first).
Proof.
  intros Es. unfold finalize_row. rewrite Es.
  assert (Hrec : forall h b, steps (only id) (ignore (record_check id h b))).
  { intros h b. apply steps_ignore, only_statement. intros s. apply only_alter. }
  destruct (Checker.ri_error_type r); [apply steps_bind; [apply _|done|]; intros _; by apply steps_ret; apply _|].
  destruct (Checker.ri_content_hash r) as [h|]; [|by apply steps_ret; apply _].
  apply steps_bind; [apply _|done|]. intros _. destruct (bool_decide _).
  { apply steps_bind; [apply _|apply steps_ignore, only_statement; intros s; apply only_alter|]. intros _. by apply steps_ret; apply _. }
  destruct (Checker.differs sel h); [|by apply steps_ret; apply _].
  apply steps_bind; [apply _| |].
  { destruct (bool_decide _); [apply steps_maybe, only_statement; intros s; by intros k|by apply steps_ret; apply _]. }
  intros before. apply steps_bind; [apply _|apply steps_maybe, only_commit|]. intros cid. by apply steps_ret; apply _.
Qed.

Lemma ev_ret {A : Type} (a : A) : steps evolves (aret (W := W) a).
Proof. apply steps_ret; apply _. Qed.

(** A step whose rest starts from a state of which the first part kept [P]. *)
Lemma then_evolves {A B : Type} (P : Mon W -> Prop) (c : Act W A) (k : A -> Act W B) (s : Mon W) :
  evolves s (snd (c s)) -> P (snd (c s)) -> (forall a s1, P s1 -> evolves s1 (snd (k a s1))) -> evolves s (snd (abind c k s)).
Proof.
  intros Hc HP Hk. unfold abind. destruct (c s) as [[[a|e]| |] s1]; cbn in *; try done. etrans; [exact Hc|by apply Hk].
Qed.

Definition same_bl (s s' : Mon W) : Prop := forall k, bl s' k = bl s k.

Lemma record_same (id : Z) (h : option string) (b : bool) (s : Mon W) : same_bl s (snd (ignore (record_check id h b) s)).
Proof.
  intros k. unfold ignore, record_check. match goal with |- context [statement ?f s] => destruct (fault_cases f s) as (fs & [E|E]); rewrite E end; [done|].
  cbn. unfold bl. cbn. rewrite lookup_alter. case_decide; [subst|done]. by destruct (selectors s !! k).
Qed.

Lemma row_evolves (tid : Z) (sel : Grouping.Selector) (r : Checker.ReportItem) (first : option Z) (s : Mon W) :
  (forall id, Grouping.sel_id sel = Some id -> bl s id = Checker.baseline sel) -> evolves s (snd (finalize_row tid sel r first s)).
Proof.
  intros Hb. unfold finalize_row. destruct (Grouping.sel_id sel) as [id|]; [|apply ev_ret]. specialize (Hb id eq_refl).
  destruct (Checker.ri_error_type r).
  { apply (then_evolves (fun _ => True)); [apply steps_ignore, ev_record_check|done|]. intros _ s1 _. apply ev_ret. }
  destruct (Checker.ri_content_hash r) as [h|]; [|apply ev_ret].
  apply (then_evolves (fun s1 => bl s1 id = Checker.baseline sel)); [apply steps_ignore, ev_record_check|by rewrite record_same|].
  clear s Hb. intros _ s Hb. destruct (bool_decide_reflect (Checker.baseline sel = None)) as [En|En].
  { apply (then_evolves (fun _ => True)); [|done|intros _ s1 _; apply ev_ret]. rewrite En in Hb. unfold ignore, set_baseline.
    match goal with |- context [statement ?f s] => destruct (fault_cases f s) as (fs & [E|E]); rewrite E end; [by apply evolves_same|].
    cbn [snd fst]. etrans; [apply (evolves_flows s (set_faults fs (flows s)))|]. exact (evolves_alter (with_baseline (Some h) (Checker.ri_content r) (Checker.ri_screenshot r)) id (set_faults fs s) (fun _ => eq_refl) (or_introl Hb)). }
  destruct (Checker.differs sel h) eqn:Ed; [|apply ev_ret]. unfold Checker.differs in Ed.
  destruct (Checker.baseline sel) as [p|] eqn:Ep; [|done]. apply negb_true_iff in Ed.
  assert (Hprev : Grouping.baseline_hash sel = Some p).
  { unfold Checker.baseline in Ep. destruct (Grouping.baseline_hash sel) as [q|]; [|done]. destruct (is_empty q); [done|]. congruence. }
  assert (Hne : h <> p) by (intros ->; by rewrite str_eqb_refl in Ed).
  apply (then_evolves (fun s1 => bl s1 id = Some p)).
  { destruct (bool_decide _); [apply steps_maybe, ev_read|apply ev_ret]. }
  { destruct (bool_decide _); [|done]. unfold maybe, get_selector.
    match goal with |- context [statement ?f s] => destruct (fault_cases f s) as (fs & [E|E]); rewrite E end; done. }
  clear s Hb. intros before s Hb. apply (then_evolves (fun _ => True)); [|done|intros cid s1 _; apply ev_ret].
  unfold maybe. match goal with |- context [commit_change_and_baseline ?c ?i ?hh ?ct ?sh s] => pose proof (ev_commit c i hh p ct sh s Hb eq_refl Hprev eq_refl Hne) as Hev end.
  by destruct (commit_change_and_baseline _ _ _ _ _ s).
Qed.

(** Selectors of distinct ids, whose baselines are those in force. *)
Definition fresh (s : Mon W) (sels : list Grouping.Selector) : Prop :=
  NoDup (omap Grouping.sel_id sels) /\ forall sel id, sel ∈ sels -> Grouping.sel_id sel = Some id -> bl s id = Checker.baseline sel.

Lemma rows_evolve (tid : Z) (rows : list (Grouping.Selector * Checker.ReportItem)) : forall (first : option Z) (s : Mon W),
  fresh s rows.*1 -> evolves s (snd (finalize_rows tid rows first s)).
Proof.
  induction rows as [|[sel r] rows IH]; intros first s [Hnd Hb]; [apply ev_ret|]. cbn [finalize_rows].
  apply (then_evolves (fun s1 => fresh s1 rows.*1)); [apply row_evolves; intros id; apply Hb; by left| |by intros first' s1 Hf; apply IH].
  split; [|].
  - cbn in Hnd. destruct (Grouping.sel_id sel); [by apply NoDup_cons in Hnd as [_ ?]|done].
  - intros sel' id' Hin Es'. rewrite <-(Hb sel' id') by (by right || done).
    destruct (Grouping.sel_id sel) as [id|] eqn:Es.
    + apply (row_only tid id sel r first Es s). intros ->. cbn in Hnd. rewrite Es in Hnd. apply NoDup_cons in Hnd as [Hn _]. apply Hn.
      apply list_elem_of_omap. eauto.
    + unfold finalize_row. by rewrite Es.
Qed.

Lemma fresh_prefix (s : Mon W) (sels pre : list Grouping.Selector) : pre `prefix_of` sels -> fresh s sels -> fresh s pre.
Proof.
  intros [post ->] [Hnd Hb]. split.
  - rewrite omap_app in Hnd. by apply NoDup_app in Hnd as (? & _ & _).
  - intros sel id Hin. apply Hb. apply elem_of_app. by left.
Qed.

Lemma zip_prefix {A B : Type} (l : list A) : forall k : list B, (zip l k).*1 `prefix_of` l.
Proof. induction l as [|x l IH]; intros [|y k]; cbn; [done|by exists []|by eexists|]. apply prefix_cons, IH. Qed.

Lemma selector_rows (tid : Z) (s : Mon W) : tables_ok s -> NoDup (map sl_id (selectors_of tid s)) /\
  forall r, r ∈ selectors_of tid s -> selectors s !! sl_id r = Some r.
Proof.
  intros [Hk _]. assert (Hkey : forall r, r ∈ (map_to_list (selectors s)).*2 -> selectors s !! sl_id r = Some r).
  { intros r Hr. apply list_elem_of_fmap in Hr as ([k r'] & -> & Hr). apply elem_of_map_to_list in Hr. cbn. by destruct (Hk k r' Hr) as [-> _]. }
  split.
  - unfold selectors_of. apply (sublist_NoDup _ (map sl_id (map_to_list (selectors s)).*2)).
    + assert (Heq : map sl_id (map_to_list (selectors s)).*2 = (map_to_list (selectors s)).*1); [|rewrite Heq; apply NoDup_fst_map_to_list].
      assert (Hall : forall k r, (k, r) ∈ map_to_list (selectors s) -> sl_id r = k).
      { intros k r Hr. apply elem_of_map_to_list in Hr. by apply Hk. }
      revert Hall. generalize (map_to_list (selectors s)). intros l. induction l as [|[k r] l IH]; intros Hall; [done|]. cbn.
      rewrite IH by (intros k' r' Hin; apply Hall; by right). f_equal. apply Hall. by left.
    + apply (fmap_sublist sl_id), retain_sublist.
  - intros r Hr. apply elem_of_retain in Hr as [_ Hr]. by apply Hkey.
Qed.

Lemma built_fresh (t : Target) (ct : Grouping.Target) (s s1 : Mon W) : tables_ok s -> build_cloud_target t s = (Ok ct, s1) ->
  fresh s1 (Grouping.selectors ct).
Proof.
  intros Hok. unfold build_cloud_target. destruct (is_uptime t).
  { intros [= <- <-]. split; [constructor|]. intros sel id Hin. by apply not_elem_of_nil in Hin. }
  unfold bind, list_enabled_by_target.
  match goal with |- context [statement ?f s] => destruct (fault_cases f s) as (fs & [E|E]); rewrite E end; [done|]. intros [= <- <-]. clear E.
  destruct (selector_rows (tg_id t) s Hok) as [Hnd Hrow]. cbn [Grouping.selectors assemble_cloud_target].
  change (selectors_of (tg_id t) (set_faults fs s)) with (selectors_of (tg_id t) s).
  set (rows := sort_by _ _). assert (Hin : forall r, r ∈ rows -> r ∈ selectors_of (tg_id t) s).
  { intros r Hr. unfold rows in Hr. rewrite sort_by_elem, elem_of_retain in Hr. apply Hr. }
  assert (Hids : omap Grouping.sel_id (map to_cloud_selector rows) = map sl_id rows).
  { clear. induction rows as [|r rows IH]; [done|]. cbn. by rewrite IH. }
  split.
  - rewrite Hids. unfold rows. rewrite sort_by_perm. apply (sublist_NoDup _ (map sl_id (selectors_of (tg_id t) s))); [done|].
    apply (fmap_sublist sl_id), retain_sublist.
  - intros sel id Hsel Es. apply list_elem_of_fmap in Hsel as (r & -> & Hr). cbn in Es. injection Es as <-.
    match goal with |- bl ?x _ = _ => change (bl x (sl_id r)) with (bl s (sl_id r)) end. unfold bl. by rewrite (Hrow r (Hin r Hr)).
Qed.

Ltac ev := first [ apply ev_ret | apply steps_ignore; apply ev_upsert | apply steps_world; apply evolves_flows
                 | apply steps_flow; apply evolves_flows | apply steps_listed; apply evolves_flows ].

Lemma ev_bind {A B : Type} (c : Act W A) (k : A -> Act W B) : steps evolves c -> (forall a, steps evolves (k a)) -> steps evolves (abind c k).
Proof. apply steps_bind; apply _. Qed.

Lemma ev_context (tid : Z) (cid : option Z) : steps evolves (build_change_context (W := W) tid cid).
Proof.
  unfold build_change_context. destruct cid as [c|]; [|ev]. apply ev_bind; [apply steps_maybe, ev_read|]. intros found.
  destruct (mjoin found) as [ch|]; [|ev]. destruct (nc_target_selector_id _); [|ev]. apply ev_bind; [apply steps_maybe, ev_read|]. intros sel. ev.
Qed.

Lemma ev_dispatch (tid : Z) (cid : option Z) : steps evolves (dispatch_change_automations fuel tid cid).
Proof.
  unfold dispatch_change_automations. apply ev_bind; [ev|]. intros [all|]; [|ev]. apply ev_bind; [apply ev_context|]. intros ctx. ev.
Qed.

Lemma ev_direct (t : Target) (cid : option Z) : steps evolves (dispatch_change_direct_notifications t cid).
Proof.
  unfold dispatch_change_direct_notifications. destruct (is_empty _); [ev|]. apply ev_bind.
  - destruct cid as [c|]; [|ev]. apply ev_bind; [apply steps_maybe, ev_read|]. intros found. ev.
  - intros scope. ev.
Qed.

Lemma content_evolves (t : Target) (now : Z) (ct : Grouping.Target) (o : Checker.CheckOutcome) (s : Mon W) :
  fresh s (Grouping.selectors ct) -> evolves s (snd (finalize_content fuel t now ct o s)).
Proof.
  intros Hf. unfold finalize_content. destruct (_ && _).
  { apply ev_bind; [ev|]. intros []. ev. }
  apply (then_evolves (fun _ => True)); [|done|].
  { apply rows_evolve. eapply fresh_prefix; [apply zip_prefix|done]. }
  intros cid s1 _. apply ev_bind; [ev|]. intros _. destruct (negb _); [ev|].
  apply ev_bind; [apply ev_dispatch|]. intros d. apply ev_bind; [apply ev_direct|]. intros _. ev.
Qed.

Lemma uptime_evolves (t : Target) (now : Z) (o : Checker.CheckOutcome) : steps (evolves (W := W)) (finalize_uptime t now o).
Proof.
  unfold finalize_uptime. destruct (Checker.reports o) as [|item rs].
  { apply ev_bind; [ev|]. intros []. ev. }
  apply ev_bind; [apply steps_ignore, ev_insert_sample|]. intros _. apply ev_bind; [apply steps_maybe, ev_read|]. intros prior.
  apply ev_bind; [ev|]. intros _. ev.
Qed.

Lemma ev_build (t : Target) : m_steps (evolves (W := W)) (build_cloud_target t).
Proof.
  unfold build_cloud_target. destruct (is_uptime t); [apply m_steps_ret; apply _|].
  apply m_steps_bind; [apply _|apply ev_read|]. intros rows. apply m_steps_ret; apply _.
Qed.

Lemma ev_heal (t : Target) : m_steps (evolves (W := W)) (heal_single_selector t).
Proof.
  unfold heal_single_selector. destruct (_ || _); [apply m_steps_ret; apply _|].
  apply m_steps_bind; [apply _|apply ev_read|]. intros n. destruct (0 <? n); [apply m_steps_ret; apply _|].
  apply m_steps_bind; [apply _|apply ev_insert_selector|]. intros _. apply m_steps_ret; apply _.
Qed.

Lemma inner_evolves (t : Target) (now : Z) : steps evolves (check_one_inner fl fuel t now).
Proof.
  unfold check_one_inner. apply ev_bind; [ev|]. intros wall. apply ev_bind; [apply steps_ignore, ev_set_next_run_at|]. intros _.
  apply ev_bind; [apply steps_ignore, ev_mark_checking|]. intros _. apply ev_bind; [apply steps_ignore, ev_heal|]. intros _.
  intros s Hok. unfold abind at 1. pose proof (ev_build t s Hok) as Hb. destruct (build_cloud_target t s) as [[ct|e] s1] eqn:Eb; rewrite ?Eb in Hb; cbn [snd] in Hb.
  - pose proof (built_fresh t ct s s1 Hok Eb) as Hf. assert (Hs : evolves s s1) by (intros _; exact Hb).
    refine ((_ : evolves s _) Hok). etrans; [exact Hs|]. clear s Hok Hb Eb Hs.
    apply (then_evolves (fun s => fresh s (Grouping.selectors ct))); [by apply (steps_world evolves evolves_flows)| |].
    { unfold in_world. by destruct (run_check _ _). }
    intros ended s Hfr. destruct ended as [o| |].
    + destruct (is_uptime t); [apply uptime_evolves|by apply content_evolves].
    + apply ev_bind; [ev|]. intros []. ev.
    + apply (steps_panic evolves).
  - refine ((_ : evolves s _) Hok). etrans; [exact (fun _ => Hb)|]. apply ev_bind; [ev|]. intros []. ev.
Qed.

Lemma one_evolves (t : Target) (now : Z) : steps evolves (check_one fl fuel t now).
Proof.
  unfold check_one. apply ev_bind; [apply steps_maybe, ev_read|]. intros prior. apply ev_bind; [apply inner_evolves|]. intros o.
  apply ev_bind; [ev|]. intros _. ev.
Qed.

Lemma isolated_evolves (t : Target) (now : Z) : steps evolves (check_one_isolated fl fuel t now).
Proof.
  intros s. unfold check_one_isolated. pose proof (one_evolves t now s) as He. destruct (check_one fl fuel t now s) as [[r| |] s1]; [done| |done].
  cbn in He. etrans; [exact He|]. apply ev_bind; [ev|]. intros _. ev.
Qed.

Lemma due_evolves (now : Z) (due : list Target) : forall rep, steps evolves (check_due fl fuel now due rep).
Proof.
  induction due as [|t due IH]; intros rep; [apply ev_ret|]. cbn [check_due]. destruct (_ =? 0); [apply IH|].
  apply ev_bind.
  - apply steps_query. apply m_steps_bind; [apply _|apply ev_read|]. intros st. apply m_steps_ret; apply _.
  - intros cleared. destruct (negb cleared); [apply IH|]. apply ev_bind; [apply isolated_evolves|]. intros o. apply IH.
Qed.

Lemma sweep_each_evolves (now : Z) (rows : list (Target * MonitorState)) : forall out, steps evolves (sweep_each fl fuel now rows out).
Proof.
  induction rows as [|[t st] rows IH]; intros out; [apply ev_ret|]. cbn [sweep_each]. destruct (one_stale _ _ _ _); [|apply IH].
  apply ev_bind; [ev|]. intros _. apply ev_bind; [ev|]. intros d. apply IH.
Qed.

Lemma sweep_evolves (now : Z) : steps evolves (sweep_stale_health fl fuel now).
Proof.
  unfold sweep_stale_health. apply ev_bind; [ev|]. intros [[|a autos]|]; [ev| |ev].
  apply ev_bind.
  { apply steps_maybe. unfold get_targets. destruct (dedup _); [apply m_steps_ret; apply _|apply ev_read]. }
  intros [ts|]; [|ev]. apply ev_bind.
  { apply steps_maybe. unfold get_states. destruct (dedup _); [apply m_steps_ret; apply _|apply ev_read]. }
  intros [sts|]; [|ev]. apply sweep_each_evolves.
Qed.

Lemma tick_evolves (now : Z) : steps evolves (run_due_checks fl fuel now).
Proof.
  unfold run_due_checks. apply ev_bind; [apply steps_query, ev_read|]. intros due. apply ev_bind; [apply due_evolves|]. intros rep.
  apply ev_bind; [apply sweep_evolves|]. intros _. ev.
Qed.

Lemma manual_evolves (id : Z) : steps evolves (run_check_for_target fl fuel id).
Proof.
  unfold run_check_for_target. apply ev_bind; [ev|]. intros now. apply ev_bind.
  { apply steps_query. apply m_steps_bind; [apply _|apply ev_read|]. intros [t|]; [apply m_steps_ret; apply _|apply m_steps_throw; apply _]. }
  intros t. apply ev_bind.
  { apply steps_query. apply m_steps_bind; [apply _|apply ev_read|]. intros st. apply m_steps_ret; apply _. }
  intros cleared. destruct (negb cleared); [ev|]. apply isolated_evolves.
Qed.
End lane.

(** ** Histories of the lane *)

Lemma linked_consecutive (b b' : option string) (cs : list NewChange) : linked b cs b' ->
  forall i c d, cs !! i = Some c -> cs !! S i = Some d -> nc_content_hash c <> "" ->
  nc_previous_hash d = Some (nc_content_hash c) /\ nc_content_hash d <> nc_content_hash c.
Proof.
  induction 1 as [b|h cs b Hl IH|p c cs b Hp Hne Hl IH]; intros i x y Hx Hy Hn; [done|by apply (IH i)|].
  destruct i as [|i]; [|by apply (IH i)]. cbn in Hx, Hy. injection Hx as ->.
  assert (Hnorm : norm (Some (nc_content_hash x)) = Some (nc_content_hash x)) by (cbn; by destruct (nc_content_hash x)).
  rewrite Hnorm in Hl. destruct cs as [|d cs]; [done|]. cbn in Hy. injection Hy as ->. by inversion Hl; subst.
Qed.

Lemma linked_last (b b' : option string) (cs : list NewChange) : linked b cs b' ->
  forall c, last cs = Some c -> nc_content_hash c <> "" -> b' = Some (nc_content_hash c).
Proof.
  induction 1 as [b|h cs b Hl IH|p c cs b Hp Hne Hl IH]; intros x Hx Hn; [done|by apply IH|].
  destruct cs as [|d cs]; [|apply IH; [|done]; done]. cbn in Hx. injection Hx as ->.
  assert (Hnorm : norm (Some (nc_content_hash x)) = Some (nc_content_hash x)) by (cbn; by destruct (nc_content_hash x)).
  rewrite Hnorm in Hl. by inversion Hl.
Qed.

Section history.
Context `{FlowLibs} {W : Type} `{FlowEnv W} `{RunLibs W} `{MonitorEnv W} {Tz : Type} `{!Recurrence.Calendar Tz}.
Context (fl : Clamp.floors) (fuel : nat).

(** Ticks and checks asked for, among edits of the targets and any other work on the flows' tables; the captures of baselines
    are left out. *)
Inductive Op : Type :=
| Tick (now : Z)
| RunNow (id : Z)
| Edit (m : gmap Z Target) (f : State W).

Definition perform (s : Mon W) (op : Op) : Mon W :=
  match op with
  | Tick now => snd (run_due_checks fl fuel now s)
  | RunNow id => snd (run_check_for_target fl fuel id s)
  | Edit m f => set_targets m (set_flows f s)
  end.

Lemma history_evolves (ops : list Op) : forall s, evolves s (foldl perform s ops).
Proof.
  induction ops as [|op ops IH]; intros s; [apply evolves_same; done|]. cbn [foldl]. etrans; [|apply IH].
  destruct op; cbn [perform]; [apply tick_evolves|apply manual_evolves|by apply evolves_same].
Qed.

End history.

(** ** Examples *)

#[local] Existing Instance Recurrence.utc_calendar.

Definition demo_report (content : string) : Checker.ReportItem :=
  Checker.mkReportItem "https://shop.example/" "content" (Some 1) (Some 1) None (Some content) (Some "diff") (Some content) None None None None
    None None None (Some 200) None None.

(** A page whose text is the minute, halved; a check takes a minute. From minute 100 on checks panic. *)
#[local] Instance demo_monitor : MonitorEnv Z := {|
  run_check := fun ct n =>
    (if n <? 100 then Finished (Checker.mkOutcome (map (fun _ => demo_report (Z_to_string (n / 2))) (Grouping.selectors ct)) None true) else Died, n + 1);
  panic_message := fun _ => "boom";
  dispatch_direct_notifications := fun _ _ _ _ n => n;
  days_from_str := fun _ => None;
|}.

Definition demo_target (next : option string) : Target :=
  mkTarget 1 "https://shop.example/" "content" None None (Some 60000) None None None 1 0 None None None None next None None None None.
Definition demo_selector (baseline : option string) : TargetSelector :=
  mkSelector 1 1 "Price" ".price" 1 (Some "text") None None (Some 0) baseline None None None None None "0".
Definition demo_rule (event : string) : Automation := mkAutomation 1 (Some 1) event None 1 None "" (Some "tree") None None.
Definition demo_mon (baseline : option string) (minute : Z) (autos : gmap Z Automation) (fs : list bool) : Mon Z :=
  mkMon {[1 := demo_target None]} {[1 := demo_selector baseline]} 2 ∅ 1 ∅ [] (FlowRun.mkState autos ∅ ∅ 1 minute fs).
Definition demo_floors : Clamp.floors := floors_init.

Lemma demo_tables (baseline : option string) (minute : Z) (autos : gmap Z Automation) (fs : list bool) : tables_ok (demo_mon baseline minute autos fs).
Proof.
  split; [intros k r Hr|intros id c Hc; cbn in Hc; by rewrite lookup_empty in Hc].
  cbn in Hr. apply lookup_singleton_Some in Hr as [<- <-]. done.
Qed.


(** Two checks that overlap finish from the same baseline: one difference, two changes, each fired. *)
Example overlapping_checks_report_twice :
  let s := demo_mon (Some "5") 12 {[1 := demo_rule "change_detected"]} [] in
  match build_cloud_target (demo_target None) s with
  | (Ok ct, s) =>
      let o := match run_check ct 12 with (Finished o, _) => o | _ => Checker.mkOutcome [] None false end in
      let s' := snd (finalize_content 5 (demo_target None) 0 ct o (snd (finalize_content 5 (demo_target None) 0 ct o s))) in
      map (fun c => (nc_previous_hash c, nc_content_hash c)) (new_changes s s' 1) = [(Some "5", "6"); (Some "5", "6")] /\
      size (executions (flows s')) = 2%nat
  | _ => False
  end.
Proof. vm_compute. split; reflexivity. Qed.

Definition state_of (s : Mon Z) : option string := states s !! 1 ≫= st_state.

(** A check that panics leaves "error", and does not fire the automation on a monitor that goes down; nor does the next one, for the prior is
    then "error". *)
Example panic_loses_down_edge :
  let s := set_states {[1 := mkState 1 "0" (Some "unchanged") (Some 1) None None "0"]} (demo_mon (Some "5") 100 {[1 := demo_rule "monitor_down"]} []) in
  let s' := foldl (perform (Tz := unit) demo_floors 5) s [RunNow 1; RunNow 1] in
  state_of s' = Some "error" /\ executions (flows s') = ∅.
Proof. vm_compute. split; reflexivity. Qed.

(** The statement that records the outcome of a check can fail; its error is dropped, the state stays "checking", and "checking" is the prior state
    of the next check. Here the statements of a check are all but the last good. *)
Example lost_outcome_leaves_checking :
  let s := set_states {[1 := mkState 1 "0" (Some "unchanged") (Some 1) None None "0"]}
    (demo_mon (Some "5") 10 {[1 := demo_rule "monitor_down"]} (repeat false 7 ++ [true])) in
  state_of (perform (Tz := unit) demo_floors 5 s (RunNow 1)) = Some "checking" /\
  classify_health_edge (Some "checking") CheckError = None.
Proof. vm_compute. split; reflexivity. Qed.

(** One target's state that cannot be read ends the tick before the targets after it. *)
Example failed_read_ends_tick :
  let second := mkTarget 2 "https://b.example/" "content" None None (Some 60000) None None None 1 0 None None None None None None None None None in
  let s := set_targets {[1 := demo_target None; 2 := second]} (demo_mon (Some "5") 10 ∅ [false; true]) in
  match run_due_checks (Tz := unit) demo_floors 5 (10 * minute) s with
  | (Returned (Err _), s') => states s' = ∅
  | _ => False
  end.
Proof. vm_compute. reflexivity. Qed.
