(* ===== verification/Backup.v ===== *)
(** * local/backup.rs: the encrypted archive of the home, its restore, the factory reset

    The container is bytes; the cipher of the archive (age), the digest, the text of the manifest and the database engine are
    interfaces. The disk is the files of the home by path, the two stores of blobs and whether the keyring
    holds the root; each operation on it is atomic and can fail, and a crash is a list of faults set from some point on. *)

From Stdlib Require Import Ascii String.
From S2P Require Import Prelude Ints Str VaultRoot VaultFiles.
From S2P Require Errors UpdateManifest RunRefs.
Open Scope string_scope.
Open Scope list_scope.
Open Scope Z_scope.

(** ** Errors *)

Inductive BackupError : Type :=
| Io (e : string)
| EmptyPassphrase
| Encrypt (e : string)
| Decrypt
| BadMagic
| Corrupt (e : string)
| BadManifest (e : string)
| RestoreValidation (e : string)
| NotFound (e : string).

(** [Display] *)
Definition to_string (e : BackupError) : string :=
  match e with
  | Io e => String.append "io error: " e
  | EmptyPassphrase => "the passphrase is empty"
  | Encrypt e => String.append "encrypt failed: " e
  | Decrypt => "decrypt failed (wrong passphrase or damaged archive)"
  | BadMagic => "not a Writ backup archive (bad magic)"
  | Corrupt e => String.append "backup archive is corrupt: " e
  | BadManifest e => String.append "backup manifest is invalid: " e
  | RestoreValidation e => String.append "the restored database failed validation: " e
  | NotFound e => String.append "backup file not found: " e
  end.

(** [From<BackupError> for LocalError] *)
Definition local_error (e : BackupError) : Errors.LocalError :=
  match e with
  | EmptyPassphrase | BadMagic | BadManifest _ | Decrypt => Errors.BadRequest (to_string e)
  | NotFound _ => Errors.NotFound (to_string e)
  | Io e => Errors.IoError e
  | e => Errors.Internal (to_string e)
  end.

(** ** The container *)

Definition ARCHIVE_MAGIC : string := "WRITBKP1".
Definition AGE_STREAM_MAGIC : string := "age-encryption.org/v1".
Definition DEFAULT_BACKUP_NAME : string := "writ-backup.age".
Definition MAX_ENTRY_BYTES : Z := 8 * 1024 * 1024 * 1024.
Definition APP_SCHEMA_VERSION : Z := 1.

Record ManifestEntry : Type := mkEntry { en_name : string; en_size : Z; en_sha256 : string }.
Record Manifest : Type := mkManifest { app_version : string; schema_version : Z; created_at : string; entries : list ManifestEntry }.

Class BackupLibs : Type := {
  (** [serde_json::to_vec], [from_slice] of a manifest *)
  to_vec : Manifest -> result string string;
  from_slice : string -> result Manifest string;
  sha256 : string -> list Z;
  (** age with a passphrase; the first argument is the randomness *)
  age_encrypt : string -> string -> string -> result string string;
  age_decrypt : string -> string -> option string;
  (** [VACUUM INTO] under a key, of a file and its log *)
  vacuum : string -> string -> option string -> result string string;
  (** [db::open] and [close] under a key: the file and its log afterwards *)
  db_open : string -> string -> option string -> result unit Errors.LocalError * (string * option string);
}.

Definition u64_to_le (z : Z) : string := bytes_to_string (le_bytes 8 z).

Section container.
Context `{BackupLibs}.

Definition sha256_hex (b : string) : string := UpdateManifest.hex_lower (sha256 b).

Definition entry_bytes (f : string * string) : string :=
  String.append (u32_to_le (str_len f.1)) (String.append f.1 (String.append (u64_to_le (str_len f.2)) f.2)).
Definition body_bytes (files : list (string * string)) : string := foldr String.append "" (map entry_bytes files).

Definition write_container (m : Manifest) (files : list (string * string)) : result string BackupError :=
  match to_vec m with
  | Err e => Err (Corrupt (String.append "manifest serialize: " e))
  | Ok json => Ok (String.append ARCHIVE_MAGIC (String.append (u32_to_le (str_len json)) (String.append json (body_bytes files))))
  end.

(** The bytes read, and those left. *)
Definition read_exact_or (n : Z) (r : string) : result (string * string) BackupError :=
  if n <=? str_len r then Ok (str_take (Z.to_nat n) r, str_drop (Z.to_nat n) r) else Err (Corrupt "archive ended early").

Definition read_entry (r : string) : result ((string * string) * string) BackupError :=
  result_bind (read_exact_or 4 r) (fun '(len4, r) =>
  let nlen := from_le len4 in
  if 4096 <? nlen then Err (Corrupt "entry name implausibly long") else
  result_bind (read_exact_or nlen r) (fun '(nbuf, r) =>
  match RunRefs.from_utf8 nbuf with
  | None => Err (Corrupt "entry name not utf-8")
  | Some name =>
      result_bind (read_exact_or 8 r) (fun '(len8, r) =>
      let dlen := from_le len8 in
      if MAX_ENTRY_BYTES <? dlen then Err (Corrupt (String.append "entry " (String.append name " implausibly large"))) else
      result_bind (read_exact_or dlen r) (fun '(data, r) => Ok ((name, data), r)))
  end)).

Fixpoint read_entries (n : nat) (r : string) : result (list (string * string) * string) BackupError :=
  match n with
  | O => Ok ([], r)
  | S n => result_bind (read_entry r) (fun '(f, r) => result_bind (read_entries n r) (fun '(fs, r) => Ok (f :: fs, r)))
  end.

Definition read_container (r : string) : result (Manifest * list (string * string)) BackupError :=
  result_bind (read_exact_or 8 r) (fun '(magic, r) =>
  if negb (str_eqb magic ARCHIVE_MAGIC) then Err BadMagic else
  result_bind (read_exact_or 4 r) (fun '(len4, r) =>
  let mlen := from_le len4 in
  if MAX_ENTRY_BYTES <? mlen then Err (Corrupt "manifest implausibly large") else
  result_bind (read_exact_or mlen r) (fun '(mbuf, r) =>
  match from_slice mbuf with
  | Err e => Err (BadManifest (String.append "parse: " e))
  | Ok m => result_bind (read_entries (length (entries m)) r) (fun '(files, _) => Ok (m, files))
  end))).

Definition file_named (name : string) (files : list (string * string)) : option string := snd <$> find_first (fun f => str_eqb f.1 name) files.

Fixpoint validate_entries (es : list ManifestEntry) (files : list (string * string)) : result unit BackupError :=
  match es with
  | [] => Ok tt
  | e :: es =>
      match file_named (en_name e) files with
      | None => Err (Corrupt (String.append "manifest entry " (String.append (en_name e) " missing from body")))
      | Some data =>
          if negb (str_len data =? en_size e) then Err (Corrupt (String.append "entry " (String.append (en_name e) " size mismatch")))
          else if negb (str_eqb (sha256_hex data) (en_sha256 e)) then
            Err (Corrupt (String.append "entry " (String.append (en_name e) " sha256 mismatch")))
          else validate_entries es files
      end
  end.

Definition validate_against_manifest (m : Manifest) (files : list (string * string)) : result unit BackupError :=
  if APP_SCHEMA_VERSION <? schema_version m then
    Err (BadManifest (String.append "archive is from a newer app version (schema " (String.append (Z_to_string (schema_version m))
      (String.append " > " (String.append (Z_to_string APP_SCHEMA_VERSION) ")")))))
  else
    result_bind (validate_entries (entries m) files) (fun _ =>
    if any (fun e => str_eqb (en_name e) "writ.db") (entries m) then Ok tt else Err (BadManifest "archive has no writ.db entry")).

Definition require_passphrase (p : string) : result string BackupError := if is_empty (trim p) then Err EmptyPassphrase else Ok p.

Definition age_seal (seed plaintext pass : string) : result string BackupError := map_err Encrypt (age_encrypt seed plaintext pass).
Definition age_open (sealed pass : string) : result string BackupError :=
  match age_decrypt sealed pass with Some p => Ok p | None => Err Decrypt end.

(** What [inspect] and [restore] have in common. *)
Definition open_archive (sealed pass : string) : result (Manifest * list (string * string)) BackupError :=
  result_bind (age_open sealed pass) (fun plaintext =>
  result_bind (read_container plaintext) (fun '(m, files) =>
  result_bind (validate_against_manifest m files) (fun _ => Ok (m, files)))).
End container.

(** ** The disk *)

Record Disk : Type := mkDisk {
  files : gmap string string;
  (** the entries of the two stores: whether each is a directory *)
  stores : gmap string (list (string * bool));
  keyring_root : bool;
  disk_faults : list bool;
}.
Definition set_files (m : gmap string string) (d : Disk) : Disk := mkDisk m (stores d) (keyring_root d) (disk_faults d).
Definition set_stores (m : gmap string (list (string * bool))) (d : Disk) : Disk := mkDisk (files d) m (keyring_root d) (disk_faults d).
Definition set_keyring_root (b : bool) (d : Disk) : Disk := mkDisk (files d) (stores d) b (disk_faults d).
Definition set_disk_faults (fs : list bool) (d : Disk) : Disk := mkDisk (files d) (stores d) (keyring_root d) fs.

Definition B (A : Type) : Type := Disk -> result A BackupError * Disk.
Definition bret {A : Type} (a : A) : B A := fun d => (Ok a, d).
Definition fail {A : Type} (e : BackupError) : B A := fun d => (Err e, d).
Definition lift {A : Type} (r : result A BackupError) : B A := fun d => (r, d).
Definition bbind {A C : Type} (c : B A) (k : A -> B C) : B C := fun d =>
  match c d with (Ok a, d) => k a d | (Err e, d) => (Err e, d) end.
(** A call whose error is dropped, or handled. *)
Definition tried {A : Type} (c : B A) : B (result A BackupError) := fun d => let '(r, d) := c d in (Ok r, d).

Declare Scope backup_scope.
Notation "'let+' x ':=' c 'in' k" := (bbind c (fun x => k)) (at level 10, x pattern, c at level 100, k at level 200) : backup_scope.
Open Scope backup_scope.

(** An operation of the file system: it fails at a fault, or when [f] refuses. *)
Definition disk_op {A : Type} (f : Disk -> result (A * Disk) BackupError) : B A := fun d =>
  let run d := match f d with Ok (a, d) => (Ok a, d) | Err e => (Err e, d) end in
  match disk_faults d with
  | true :: fs => (Err (Io ""), set_disk_faults fs d)
  | false :: fs => run (set_disk_faults fs d)
  | [] => run d
  end.

Definition exists_ (p : string) : B bool := fun d => (Ok (bool_decide (is_Some (files d !! p))), d).
Definition read (p : string) : B string := disk_op (fun d => match files d !! p with Some b => Ok (b, d) | None => Err (Io "") end).
Definition write_0600 (p b : string) : B unit := disk_op (fun d => Ok (tt, set_files (<[p := b]> (files d)) d)).
Definition remove_file (p : string) : B unit :=
  disk_op (fun d => match files d !! p with Some _ => Ok (tt, set_files (delete p (files d)) d) | None => Err (Io "NotFound") end).
Definition rename (a b : string) : B unit :=
  disk_op (fun d => match files d !! a with Some v => Ok (tt, set_files (<[b := v]> (delete a (files d))) d) | None => Err (Io "") end).

(** [remove_file], where a missing file is none. *)
Definition remove_if_exists (p : string) : B bool :=
  disk_op (fun d => match files d !! p with Some _ => Ok (true, set_files (delete p (files d)) d) | None => Ok (false, d) end).

Definition with_suffix (p s : string) : string := String.append p s.
Definition sidecar (p ext : string) : string := String.append p ext.

(** [Paths], from the root of the home. *)
Definition path (root name : string) : string := String.append root (String.append "/" name).
Definition db (root : string) : string := path root "writ.db".
Definition config_toml (root : string) : string := path root "config.toml".
Definition vault_key (root : string) : string := path root "vault.key".
Definition files_dir (root : string) : string := path root "files".
Definition artifacts_dir (root : string) : string := path root "artifacts".

Definition drop_sidecars (p : string) : B unit :=
  let+ _ := tried (remove_file (sidecar p "-wal")) in let+ _ := tried (remove_file (sidecar p "-shm")) in bret tt.
Definition cleanup (p : string) : B unit := let+ _ := tried (remove_file p) in drop_sidecars p.

Section disk.
Context `{BackupLibs}.

(** *** Export *)

(** The connection and [VACUUM INTO], which wants no file at its target. *)
Definition vacuum_into (db_path key snap : string) : B unit := fun d =>
  let error e := Corrupt (String.append "VACUUM INTO snapshot failed: " e) in
  match disk_op (fun d =>
    match files d !! db_path, files d !! snap with
    | Some b, None =>
        match vacuum (key_pragma_value key) b (files d !! sidecar db_path "-wal") with
        | Ok v => Ok (tt, set_files (<[snap := v]> (files d)) d)
        | Err e => Err (error e)
        end
    | Some _, Some _ => Err (error "output file already exists")
    | None, _ => Err (Corrupt "could not open DB for snapshot: unable to open database file")
    end) d with
  | (Err (Io e), d) => (Err (error e), d)
  | r => r
  end.

Definition snapshot_db (db_path key pid : string) : B string :=
  let snap := with_suffix db_path (String.append ".backup-snap-" pid) in
  let+ _ := cleanup snap in
  let+ made := tried (vacuum_into db_path key snap) in
  match made with
  | Err e => let+ _ := cleanup snap in fail e
  | Ok _ =>
      let+ bytes := tried (read snap) in
      let+ _ := cleanup snap in
      lift bytes
  end.

Definition entry_of (f : string * string) : ManifestEntry := mkEntry f.1 (str_len f.2) (sha256_hex f.2).
Definition export_manifest (version now : string) (files : list (string * string)) : Manifest :=
  mkManifest version APP_SCHEMA_VERSION now (map entry_of files).

Record ExportReport : Type := mkExport { ex_path : string; ex_bytes : Z; ex_schema_version : Z; ex_created_at : string }.

(** [seed], [pid], [version] and [now] are what the process draws and is. *)
Definition export (root pass key : string) (dest : option string) (seed pid version now : string) : B ExportReport :=
  let+ pass := lift (require_passphrase pass) in
  let+ there := exists_ (db root) in
  if negb there then fail (NotFound (String.append "database at " (db root))) else
  let+ db_bytes := snapshot_db (db root) key pid in
  let+ cfg := exists_ (config_toml root) in
  let+ files :=
    (if cfg : bool then let+ c := read (config_toml root) in bret [("writ.db", db_bytes); ("config.toml", c)]
     else bret [("writ.db", db_bytes)]) in
  let+ plaintext := lift (write_container (export_manifest version now files) files) in
  let+ sealed := lift (age_seal seed plaintext pass) in
  let dest := default (path root DEFAULT_BACKUP_NAME) dest in
  let+ _ := disk_op (fun d => Ok (tt, d)) in
  let+ _ := write_0600 dest sealed in
  bret (mkExport dest (str_len sealed) APP_SCHEMA_VERSION now).

(** *** Inspection and restore *)

Definition inspect (archive pass : string) : B Manifest :=
  let+ pass := lift (require_passphrase pass) in
  let+ there := exists_ archive in
  if negb there then fail (NotFound archive) else
  let+ sealed := read archive in
  let+ (m, _) := lift (open_archive sealed pass) in
  bret m.

(** The reason of a failure; the staged file and its log are as the engine leaves them. *)
Definition open_reason (e : Errors.LocalError) : string :=
  match e with
  | Errors.CipherUnavailable => "SQLCipher unavailable in this build"
  | Errors.Corrupt d => String.append "integrity check failed: " d
  | e => String.append "restored DB is not readable on this device (wrong vault root?): " (Errors.to_string e)
  end.
Definition with_log (p : string) (log : option string) (m : gmap string string) : gmap string string :=
  match log with Some l => <[sidecar p "-wal" := l]> m | None => delete (sidecar p "-wal") m end.
Definition trial_open (p key : string) : B (result unit string) := fun d =>
  match disk_op (fun d =>
    match files d !! p with
    | None => Ok (Err (open_reason (Errors.IoError "")), d)
    | Some b =>
        let '(r, (b', log)) := db_open key b (files d !! sidecar p "-wal") in
        Ok (map_err open_reason r, set_files (with_log p log (<[p := b']> (files d))) d)
    end) d with
  | (Err _, d) => (Ok (Err (open_reason (Errors.IoError ""))), d)
  | r => r
  end.

Record RestoreReport : Type := mkRestore { previous_db_backup : option string; rs_schema_version : Z; needs_restart : bool }.

Definition stage_path (root : string) : string := with_suffix (db root) ".restore-tmp".
Definition previous_path (root ts : string) : string := with_suffix (db root) (String.append ".pre-restore-" ts).

Definition move_aside (ext live prev : string) : B unit :=
  let+ there := exists_ (sidecar live ext) in
  if there : bool then let+ _ := tried (rename (sidecar live ext) (sidecar prev ext)) in bret tt else bret tt.

(** The live file to its rollback copy, with its sidecars. *)
Definition set_aside (root ts : string) : B (option string) :=
  let live := db root in
  let prev := previous_path root ts in
  let+ there := exists_ live in
  if negb there then bret None else
  let+ moved := tried (rename live prev) in
  match moved with
  | Err e => let+ _ := cleanup (stage_path root) in fail e
  | Ok _ => let+ _ := move_aside "-wal" live prev in let+ _ := move_aside "-shm" live prev in bret (Some prev)
  end.

(** The staged file, written and opened. *)
Definition stage (root key db_bytes : string) (wal : option string) : B unit :=
  let stage := stage_path root in
  let+ _ := drop_sidecars stage in
  let+ _ := write_0600 stage db_bytes in
  let+ _ := match wal with Some w => write_0600 (sidecar stage "-wal") w | None => bret tt end in
  let+ opened := trial_open stage key in
  match opened with
  | Err e => let+ _ := cleanup stage in fail (RestoreValidation e)
  | Ok _ => bret tt
  end.

(** The staged file in place, with its log; then the configuration. *)
Definition install (root : string) (staged_wal : bool) (cfg : option string) : B unit :=
  let stage := stage_path root in
  let+ _ := rename stage (db root) in
  let+ log := exists_ (sidecar stage "-wal") in
  let+ _ := (if staged_wal && log then tried (rename (sidecar stage "-wal") (sidecar (db root) "-wal")) else bret (Ok tt)) in
  let+ _ := match cfg with Some c => tried (write_0600 (config_toml root) c) | None => bret (Ok tt) end in
  bret tt.

(** A validated archive has the database ([validated_has_db]): [expect] does not panic. *)
Definition restore (root archive pass key ts : string) : B RestoreReport :=
  let+ pass := lift (require_passphrase pass) in
  let+ there := exists_ archive in
  if negb there then fail (NotFound archive) else
  let+ sealed := read archive in
  let+ (m, files) := lift (open_archive sealed pass) in
  let+ _ := stage root key (default "" (file_named "writ.db" files)) (file_named "writ.db-wal" files) in
  let+ previous := set_aside root ts in
  let+ _ := install root (bool_decide (is_Some (file_named "writ.db-wal" files))) (file_named "config.toml" files) in
  bret (mkRestore previous (schema_version m) true).
End disk.

(** *** The factory reset *)

Record ResetReport : Type := mkReset { db_removed : bool; files_removed : Z; artifacts_removed : Z; vault_rotated : bool }.

(** One entry: its reading, its kind, its removal, whose error is dropped. *)
Fixpoint wipe_each (dir : string) (es : list (string * bool)) (n : Z) : B Z :=
  match es with
  | [] => bret n
  | (name, _) :: es =>
      let+ _ := disk_op (fun d => Ok (tt, d)) in
      let+ _ := disk_op (fun d => Ok (tt, d)) in
      let+ gone := tried (disk_op (fun d => Ok (tt, set_stores (alter (retain (fun e => negb (str_eqb e.1 name))) dir (stores d)) d))) in
      wipe_each dir es (match gone with Ok _ => n + 1 | Err _ => n end)
  end.
Definition wipe_dir_contents (dir : string) : B Z :=
  let+ es := disk_op (fun d => Ok (stores d !! dir, d)) in
  match es with None => bret 0 | Some es => wipe_each dir es 0 end.

Definition keyring_delete : B bool := disk_op (fun d => Ok (keyring_root d, set_keyring_root false d)).

Definition reset (root : string) (rotate_vault : bool) : B ResetReport :=
  let+ gone := remove_if_exists (db root) in
  let+ _ := drop_sidecars (db root) in
  let+ n_files := wipe_dir_contents (files_dir root) in
  let+ n_artifacts := wipe_dir_contents (artifacts_dir root) in
  let+ rotated :=
    (if rotate_vault then
       let+ f := remove_if_exists (vault_key root) in
       let+ k := tried keyring_delete in
       bret (f || match k with Ok b => b | Err _ => false end)
     else bret false) in
  bret (mkReset gone n_files n_artifacts rotated).

(** Whether a file begins like an archive; an unreadable one does not. *)
Definition looks_like_archive (p : string) : B bool :=
  let+ r := tried (read p) in
  bret match r with Ok b => starts_with b AGE_STREAM_MAGIC | Err _ => false end.

(** ** The container is a format *)

Lemma le_of_bytes (l : list Z) : Forall (fun b => 0 <= b < 256) l ->
  le_bytes (length l) (foldr (fun b acc => b + 256 * acc) 0 l) = l.
Proof.
  unfold le_bytes. induction l as [|b l IH]; intros Hl; [done|]. apply Forall_cons in Hl as [Hb Hl].
  change (seq 0 (length (b :: l))) with (O :: seq 1 (length l)). rewrite <-fmap_S_seq. cbn [map foldr]. f_equal.
  - change (8 * Z.of_nat 0) with 0. rewrite Z.pow_0_r, Z.div_1_r, Z.mul_comm, Z_mod_plus_full. by apply Z.mod_small.
  - rewrite <-(IH Hl) at 2. rewrite map_map. apply map_ext. intros i. replace (8 * Z.of_nat (S i)) with (8 + 8 * Z.of_nat i) by lia.
    rewrite Z.pow_add_r, <-Z.div_div by lia. change (2 ^ 8) with 256. rewrite Z.mul_comm, Z.div_add by lia. by rewrite (Z.div_small b) by lia.
Qed.

Lemma string_of_bytes (s : string) : bytes_to_string (string_to_bytes s) = s.
Proof.
  unfold bytes_to_string, string_to_bytes. rewrite map_map. rewrite (map_ext _ id); [|intros c; apply chr_byte_val].
  rewrite map_id. apply of_bytes_bytes.
Qed.

Lemma string_bytes_range (s : string) : Forall (fun b => 0 <= b < 256) (string_to_bytes s).
Proof. unfold string_to_bytes. apply Forall_forall. intros b Hb. apply list_elem_of_In, in_map_iff in Hb as (c & <- & _). apply byte_val_range. Qed.

Lemma string_bytes_length (s : string) : length (string_to_bytes s) = String.length s.
Proof. rewrite <-(bytes_to_string_length (string_to_bytes s)). by rewrite string_of_bytes. Qed.

Lemma le_of_from_le (n : nat) (s : string) : String.length s = n -> bytes_to_string (le_bytes n (from_le s)) = s.
Proof.
  intros <-. unfold from_le. rewrite <-string_bytes_length, le_of_bytes by apply string_bytes_range. apply string_of_bytes.
Qed.

Lemma foldr_le_bound (l : list Z) : Forall (fun b => 0 <= b < 256) l -> 0 <= foldr (fun b acc => b + 256 * acc) 0 l < 2 ^ (8 * Z.of_nat (length l)).
Proof.
  induction 1 as [|b l Hb _ IH]; [done|]. cbn [foldr length]. replace (8 * Z.of_nat (S (length l))) with (8 + 8 * Z.of_nat (length l)) by lia.
  rewrite Z.pow_add_r by lia. change (2 ^ 8) with 256. lia.
Qed.

Lemma from_le_bound (s : string) : 0 <= from_le s < 2 ^ (8 * str_len s).
Proof. unfold from_le, str_len. rewrite <-string_bytes_length. apply foldr_le_bound, string_bytes_range. Qed.

Lemma read_exact_or_Ok (n : Z) (r a b : string) : 0 <= n ->
  read_exact_or n r = Ok (a, b) <-> r = String.append a b /\ str_len a = n.
Proof.
  intros Hn. unfold read_exact_or, str_len. split.
  - destruct (Z.leb_spec n (Z.of_nat (String.length r))); [|done]. intros [= <- <-]. split; [by rewrite str_take_drop|].
    rewrite str_take_length. lia.
  - intros [-> <-]. rewrite str_length_append. destruct (Z.leb_spec (Z.of_nat (String.length a)) (Z.of_nat (String.length a + String.length b))); [|lia].
    rewrite Nat2Z.id, str_take_append, str_drop_append. done.
Qed.

Lemma result_bind_inv {A B E : Type} (r : result A E) (k : A -> result B E) (b : B) :
  result_bind r k = Ok b <-> exists a, r = Ok a /\ k a = Ok b.
Proof. destruct r; cbn; naive_solver. Qed.

Lemma u32_len (z : Z) : str_len (u32_to_le z) = 4.
Proof. unfold u32_to_le, str_len. by rewrite bytes_to_string_length. Qed.
Lemma u64_len (z : Z) : str_len (u64_to_le z) = 8.
Proof. unfold u64_to_le, str_len. by rewrite bytes_to_string_length. Qed.

Lemma u32_read (z : Z) : 0 <= z < 2 ^ 32 -> from_le (u32_to_le z) = z.
Proof. intros Hz. by apply from_le_bytes. Qed.
Lemma u64_read (z : Z) : 0 <= z < 2 ^ 64 -> from_le (u64_to_le z) = z.
Proof. intros Hz. by apply from_le_bytes. Qed.
Lemma u32_written (s : string) : str_len s = 4 -> u32_to_le (from_le s) = s.
Proof. intros Hs. apply le_of_from_le. unfold str_len in Hs. lia. Qed.
Lemma u64_written (s : string) : str_len s = 8 -> u64_to_le (from_le s) = s.
Proof. intros Hs. apply le_of_from_le. unfold str_len in Hs. lia. Qed.

Lemma from_utf8_Some (s t : string) : RunRefs.from_utf8 s = Some t <-> s = t /\ RunRefs.from_utf8 t = Some t.
Proof. unfold RunRefs.from_utf8. destruct (RunRefs.utf8_valid 0 (string_to_bytes s)) eqn:E; split; [intros [= <-]|intros [<- _]|done|intros [<- Ht]]; rewrite ?E in *; done. Qed.

(** A file an archive can hold. *)
Record fits (f : string * string) : Prop := {
  fit_name : str_len f.1 <= 4096;
  fit_utf8 : RunRefs.from_utf8 f.1 = Some f.1;
  fit_data : str_len f.2 <= MAX_ENTRY_BYTES;
}.

Lemma str_len_nonneg (s : string) : 0 <= str_len s.
Proof. unfold str_len. lia. Qed.
#[local] Hint Resolve str_len_nonneg : core.

Lemma read_entry_Ok (r : string) (f : string * string) (rest : string) :
  read_entry r = Ok (f, rest) <-> r = String.append (entry_bytes f) rest /\ fits f.
Proof.
  unfold read_entry, entry_bytes. split.
  - intros Hr. apply result_bind_inv in Hr as ([l4 r1] & H1 & Hr). apply read_exact_or_Ok in H1 as [-> Hl4]; [|lia].
    destruct (Z.ltb_spec 4096 (from_le l4)) as [|Hn]; [done|].
    apply result_bind_inv in Hr as ([nb r2] & H2 & Hr). apply read_exact_or_Ok in H2 as [-> Hnb]; [|apply from_le_bound].
    destruct (RunRefs.from_utf8 nb) as [name|] eqn:Eu; [|done]. apply from_utf8_Some in Eu as [-> Eu].
    apply result_bind_inv in Hr as ([l8 r3] & H3 & Hr). apply read_exact_or_Ok in H3 as [-> Hl8]; [|lia].
    destruct (Z.ltb_spec MAX_ENTRY_BYTES (from_le l8)) as [|Hd]; [done|].
    apply result_bind_inv in Hr as ([data r4] & H4 & Hr). apply read_exact_or_Ok in H4 as [-> Hdata]; [|apply from_le_bound].
    injection Hr as <- <-. cbn [fst snd]. split; [|split; cbn; [lia|done|lia]].
    rewrite Hnb, Hdata, u32_written, u64_written by done. by rewrite !append_assoc.
  - intros [-> [Hn Hu Hd]]. destruct f as [name data]. cbn [fst snd] in *. rewrite !append_assoc.
    apply result_bind_inv. eexists (_, _). split; [apply read_exact_or_Ok; [lia|]; split; [reflexivity|apply u32_len]|].
    rewrite u32_read by (pose proof (str_len_nonneg name); lia). destruct (Z.ltb_spec 4096 (str_len name)); [lia|].
    apply result_bind_inv. eexists (_, _). split; [apply read_exact_or_Ok; [done|]; split; reflexivity|]. rewrite Hu.
    apply result_bind_inv. eexists (_, _). split; [apply read_exact_or_Ok; [lia|]; split; [reflexivity|apply u64_len]|].
    rewrite u64_read by (pose proof (str_len_nonneg data); unfold MAX_ENTRY_BYTES in Hd; lia).
    destruct (Z.ltb_spec MAX_ENTRY_BYTES (str_len data)); [lia|].
    apply result_bind_inv. eexists (_, _). split; [apply read_exact_or_Ok; [done|]; split; reflexivity|]. done.
Qed.

Lemma read_entries_Ok (n : nat) : forall (r : string) (fs : list (string * string)) (rest : string),
  read_entries n r = Ok (fs, rest) <-> r = String.append (body_bytes fs) rest /\ length fs = n /\ Forall fits fs.
Proof.
  induction n as [|n IH]; intros r fs rest; cbn [read_entries].
  - split; [intros [= <- <-]; done|]. intros (-> & Hn & _). by destruct fs.
  - split.
    + intros Hr. apply result_bind_inv in Hr as ([f r1] & H1 & Hr). apply read_entry_Ok in H1 as [-> Hf].
      apply result_bind_inv in Hr as ([fs' r2] & H2 & Hr). injection Hr as <- <-. apply IH in H2 as (-> & Hn & Hfs).
      unfold body_bytes. cbn [map foldr]. rewrite append_assoc. split_and!; [done|by cbn; lia|by constructor].
    + intros (-> & Hn & Hfs). destruct fs as [|f fs]; [done|]. apply Forall_cons in Hfs as [Hf Hfs]. unfold body_bytes. cbn [map foldr].
      rewrite append_assoc. apply result_bind_inv. eexists (_, _). split; [by apply read_entry_Ok|].
      apply result_bind_inv. eexists (_, _). split; [apply IH; split_and!; [reflexivity|by cbn in Hn; lia|done]|]. done.
Qed.

Section format.
Context `{BackupLibs}.

(** What [read_container] accepts is exactly the layout [write_container] writes, around a manifest that parses, with as
    many files as it lists, within the limits, and anything after; and the files are those written. So an archive that is written is read
    back, and the bytes determine the files. *)
Lemma read_container_Ok (r : string) (m : Manifest) (fs : list (string * string)) :
  read_container r = Ok (m, fs) <->
  exists json rest, r = String.append ARCHIVE_MAGIC (String.append (u32_to_le (str_len json)) (String.append json (String.append (body_bytes fs) rest))) /\
    str_len json < 2 ^ 32 /\ from_slice json = Ok m /\ length fs = length (entries m) /\ Forall fits fs.
Proof.
  unfold read_container. split.
  - intros Hr. apply result_bind_inv in Hr as ([mg r1] & H1 & Hr). apply read_exact_or_Ok in H1 as [-> _]; [|lia].
    destruct (negb (str_eqb mg ARCHIVE_MAGIC)) eqn:Em; [done|]. apply negb_false_iff, str_eqb_eq in Em as ->.
    apply result_bind_inv in Hr as ([l4 r2] & H2 & Hr). apply read_exact_or_Ok in H2 as [-> Hl4]; [|lia].
    destruct (Z.ltb_spec MAX_ENTRY_BYTES (from_le l4)); [done|].
    apply result_bind_inv in Hr as ([json r3] & H3 & Hr). pose proof (from_le_bound l4) as Hb. rewrite Hl4 in Hb.
    apply read_exact_or_Ok in H3 as [-> Hj]; [|lia]. destruct (from_slice json) as [m'|] eqn:Es; [|done].
    apply result_bind_inv in Hr as ([fs' r4] & H4 & Hr). injection Hr as -> ->. apply read_entries_Ok in H4 as (-> & Hn & Hfs).
    exists json, r4. rewrite Hj, u32_written by done. split_and!; try done. lia.
  - intros (json & rest & -> & Hj & Hs & Hn & Hfs). pose proof (str_len_nonneg json).
    apply result_bind_inv. eexists (_, _). split; [apply read_exact_or_Ok; [lia|]; by split|]. rewrite str_eqb_refl. cbn [negb].
    apply result_bind_inv. eexists (_, _). split; [apply read_exact_or_Ok; [lia|]; split; [reflexivity|apply u32_len]|].
    rewrite u32_read by lia. destruct (Z.ltb_spec MAX_ENTRY_BYTES (str_len json)) as [Hm|]; [unfold MAX_ENTRY_BYTES in Hm; lia|].
    apply result_bind_inv. eexists (_, _). split; [apply read_exact_or_Ok; [done|]; split; reflexivity|]. rewrite Hs.
    apply result_bind_inv. eexists (_, _). split; [apply read_entries_Ok; by split_and!|]. done.
Qed.

(** What the writer makes of files that fit is read back. *)
Lemma written_read (m : Manifest) (fs : list (string * string)) (json : string) :
  to_vec m = Ok json -> from_slice json = Ok m -> str_len json < 2 ^ 32 -> length fs = length (entries m) -> Forall fits fs ->
  exists b, write_container m fs = Ok b /\ read_container b = Ok (m, fs).
Proof.
  intros Hto Hfrom Hj Hn Hfs. unfold write_container. rewrite Hto. eexists. split; [reflexivity|].
  apply read_container_Ok. exists json, "". rewrite append_nil_r. by split_and!.
Qed.

(** ** What validation accepts *)

Definition intact (fs : list (string * string)) (e : ManifestEntry) : Prop :=
  exists data, file_named (en_name e) fs = Some data /\ str_len data = en_size e /\ sha256_hex data = en_sha256 e.

Lemma validate_entries_Ok (es : list ManifestEntry) (fs : list (string * string)) : validate_entries es fs = Ok tt <-> Forall (intact fs) es.
Proof.
  induction es as [|e es IH]; cbn [validate_entries]; [done|]. rewrite Forall_cons. unfold intact at 1.
  destruct (file_named (en_name e) fs) as [data|]; [|split; [done|intros ((d & ? & _) & _); done]].
  destruct (Z.eqb_spec (str_len data) (en_size e)) as [Es|Es]; cbn [negb]; [|split; [done|intros ((d & [= <-] & ? & _) & _); done]].
  destruct (str_eqb (sha256_hex data) (en_sha256 e)) eqn:Eh; cbn [negb].
  - apply str_eqb_eq in Eh. rewrite IH. naive_solver.
  - split; [done|]. intros ((d & [= <-] & _ & Hd) & _). apply str_eqb_eq in Hd. congruence.
Qed.

Lemma validate_Ok (m : Manifest) (fs : list (string * string)) : validate_against_manifest m fs = Ok tt <->
  schema_version m <= APP_SCHEMA_VERSION /\ Forall (intact fs) (entries m) /\ exists e, e ∈ entries m /\ en_name e = "writ.db".
Proof.
  unfold validate_against_manifest. destruct (Z.ltb_spec APP_SCHEMA_VERSION (schema_version m)); [split; [done|intros []; lia]|].
  assert (Hany : any (fun e => str_eqb (en_name e) "writ.db") (entries m) = true <-> exists e, e ∈ entries m /\ en_name e = "writ.db").
  { rewrite any_true. split; intros (e & He & Hn); exists e; (split; [done|]); by apply str_eqb_eq. }
  destruct (validate_entries (entries m) fs) as [[]|] eqn:Ev; cbn [result_bind].
  - apply validate_entries_Ok in Ev. destruct (any _ _) eqn:Ea; [split; [|done]|split; [done|]].
    + intros _. split_and!; [done|done|by apply Hany].
    + intros (_ & _ & He). apply Hany in He. congruence.
  - split; [done|]. intros (_ & Hall & _). apply validate_entries_Ok in Hall. congruence.
Qed.

Lemma validated_has_db (m : Manifest) (fs : list (string * string)) : validate_against_manifest m fs = Ok tt -> is_Some (file_named "writ.db" fs).
Proof.
  intros (_ & Hall & e & He & Hn)%validate_Ok. rewrite Forall_forall in Hall. destruct (Hall e He) as (data & Hd & _). rewrite Hn in Hd. by exists data.
Qed.
End format.

(** ** The files an operation touches *)

Section touches.
Definition touches {A : Type} (X : list string) (c : B A) : Prop :=
  forall d k, k ∉ X -> files (snd (c d)) !! k = files d !! k.

Lemma touches_ret {A : Type} (X : list string) (a : A) : touches X (bret a).
Proof. done. Qed.
Lemma touches_fail {A : Type} (X : list string) (e : BackupError) : touches (A := A) X (fail e).
Proof. done. Qed.
Lemma touches_lift {A : Type} (X : list string) (r : result A BackupError) : touches X (lift r).
Proof. done. Qed.
Lemma touches_exists (X : list string) (p : string) : touches X (exists_ p).
Proof. done. Qed.
Lemma touches_bind {A C : Type} (X : list string) (c : B A) (k : A -> B C) : touches X c -> (forall a, touches X (k a)) -> touches X (bbind c k).
Proof.
  intros Hc Hk d p Hp. unfold bbind. specialize (Hc d p Hp). destruct (c d) as [[a|e] d1]; cbn in *; [|done]. rewrite <-Hc. by apply Hk.
Qed.
Lemma touches_tried {A : Type} (X : list string) (c : B A) : touches X c -> touches X (tried c).
Proof. intros Hc d p Hp. unfold tried. specialize (Hc d p Hp). by destruct (c d). Qed.
Lemma touches_op {A : Type} (X : list string) (f : Disk -> result (A * Disk) BackupError) :
  (forall d a d' k, f d = Ok (a, d') -> k ∉ X -> files d' !! k = files d !! k) -> touches X (disk_op f).
Proof.
  intros Hf d k Hk. unfold disk_op. destruct (disk_faults d) as [|[] fs]; [| done|].
  - destruct (f d) as [[a d']|e] eqn:E; [|done]. by apply (Hf d a).
  - destruct (f (set_disk_faults fs d)) as [[a d']|e] eqn:E; [|done]. by apply (Hf (set_disk_faults fs d) a).
Qed.

Lemma touches_read (X : list string) (p : string) : touches X (read p).
Proof. apply touches_op. intros d a d' k. by destruct (files d !! p); [intros [= _ <-]|]. Qed.
Lemma touches_write (X : list string) (p b : string) : p ∈ X -> touches X (write_0600 p b).
Proof. intros Hp. apply touches_op. intros d a d' k [= _ <-] Hk. cbn. apply lookup_insert_ne. set_solver. Qed.
Lemma touches_remove (X : list string) (p : string) : p ∈ X -> touches X (remove_file p).
Proof.
  intros Hp. apply touches_op. intros d a d' k. destruct (files d !! p); [|done]. intros [= _ <-] Hk. cbn. apply lookup_delete_ne. set_solver.
Qed.
Lemma touches_rename (X : list string) (a b : string) : a ∈ X -> b ∈ X -> touches X (rename a b).
Proof.
  intros Ha Hb. apply touches_op. intros d u d' k. destruct (files d !! a); [|done]. intros [= _ <-] Hk. cbn.
  rewrite lookup_insert_ne by set_solver. apply lookup_delete_ne. set_solver.
Qed.
Lemma touches_weaken {A : Type} (X Y : list string) (c : B A) : X ⊆ Y -> touches X c -> touches Y c.
Proof. intros HXY Hc d k Hk. apply Hc. set_solver. Qed.
End touches.

#[export] Hint Resolve touches_ret touches_fail touches_lift touches_exists touches_read : writ.

(** ** The steps of a restore *)

Lemma set_faults_id (d : Disk) : set_disk_faults (disk_faults d) d = d.
Proof. by destruct d. Qed.

Lemma op_Ok {A : Type} (f : Disk -> result (A * Disk) BackupError) (d d' : Disk) (a : A) :
  disk_op f d = (Ok a, d') -> exists fs, f (set_disk_faults fs d) = Ok (a, d').
Proof.
  unfold disk_op. destruct (disk_faults d) as [|[] fs] eqn:Ef; [|done|].
  - intros Hd. exists []. rewrite <-Ef, set_faults_id. destruct (f d) as [[]|]; by simplify_eq.
  - intros Hd. exists fs. destruct (f _) as [[]|]; by simplify_eq.
Qed.

Lemma op_Err {A : Type} (f : Disk -> result (A * Disk) BackupError) (d d' : Disk) (e : BackupError) :
  disk_op f d = (Err e, d') -> exists fs, d' = set_disk_faults fs d /\ (e = Io "" \/ f d' = Err e).
Proof.
  unfold disk_op. destruct (disk_faults d) as [|[] fs] eqn:Ef.
  - intros Hd. exists []. rewrite <-Ef, set_faults_id. destruct (f d) as [[]|] eqn:E; simplify_eq. auto.
  - intros [= <- <-]. exists fs. auto.
  - intros Hd. exists fs. destruct (f (set_disk_faults fs d)) as [[]|] eqn:E; simplify_eq. auto.
Qed.

Lemma bbind_cases {A C : Type} (c : B A) (k : A -> B C) (d d' : Disk) (r : result C BackupError) :
  bbind c k d = (r, d') -> (exists a d1, c d = (Ok a, d1) /\ k a d1 = (r, d')) \/ (exists e, c d = (Err e, d') /\ r = Err e).
Proof. unfold bbind. destruct (c d) as [[a|e] d1]; [eauto|]. intros [= <- <-]. eauto. Qed.

Lemma read_op_cases (p : string) (d d' : Disk) (r : result string BackupError) : read p d = (r, d') ->
  files d' = files d /\ match r with Ok b => files d !! p = Some b | Err e => exists x, e = Io x end.
Proof.
  unfold read. destruct r as [b|e]; intros Hr.
  - apply op_Ok in Hr as (fs & Hr). cbn in Hr. destruct (files d !! p); by simplify_eq/=.
  - apply op_Err in Hr as (fs & -> & [->|Hr]); [by eauto|]. cbn in *. destruct (files d !! p); simplify_eq. by eauto.
Qed.

Lemma write_cases (p b : string) (d d' : Disk) (r : result unit BackupError) : write_0600 p b d = (r, d') ->
  match r with Ok _ => files d' = <[p := b]> (files d) | Err e => files d' = files d /\ exists x, e = Io x end.
Proof.
  unfold write_0600. destruct r as [u|e]; intros Hr.
  - apply op_Ok in Hr as (fs & [= _ <-]). done.
  - apply op_Err in Hr as (fs & -> & [->|Hr]); [by eauto|done].
Qed.

Lemma rename_cases (a b : string) (d d' : Disk) (r : result unit BackupError) : rename a b d = (r, d') ->
  match r with
  | Ok _ => exists v, files d !! a = Some v /\ files d' = <[b := v]> (delete a (files d))
  | Err e => files d' = files d /\ exists x, e = Io x
  end.
Proof.
  unfold rename. destruct r as [u|e]; intros Hr.
  - apply op_Ok in Hr as (fs & Hr). cbn in Hr. destruct (files d !! a) as [v|]; simplify_eq. exists v. done.
  - apply op_Err in Hr as (fs & -> & [->|Hr]); [by eauto|]. cbn in *. destruct (files d !! a); simplify_eq. by eauto.
Qed.

Section paths.
Context (root : string).

Lemma append_cancel (s t u : string) : String.append s t = String.append s u -> t = u.
Proof. intros E. by apply (append_inj s s) in E as [_ ?]. Qed.

Lemma suffix_neq (s t : string) : s <> t -> String.append (db root) s <> String.append (db root) t.
Proof. intros Hne E. by apply append_cancel in E. Qed.
Lemma live_neq (s : string) : s <> "" -> db root <> String.append (db root) s.
Proof. intros Hne E. rewrite <-(append_nil_r (db root)) in E at 1. apply append_cancel in E. congruence. Qed.
Lemma config_neq (s : string) : String.append (db root) s <> config_toml root.
Proof. unfold db, config_toml, path. rewrite append_assoc. intros E. by apply append_cancel in E. Qed.

Definition stage_files : list string := [stage_path root; sidecar (stage_path root) "-wal"; sidecar (stage_path root) "-shm"].

Lemma stage_suffix (k : string) : k ∈ stage_files -> exists t, k = String.append (db root) (String.append ".restore-tmp" t).
Proof.
  unfold stage_files, stage_path, sidecar, with_suffix. rewrite !elem_of_cons, elem_of_nil. intros [-> | [-> | [-> | []]]].
  - exists "". by rewrite append_nil_r.
  - exists "-wal". by rewrite !append_assoc.
  - exists "-shm". by rewrite !append_assoc.
Qed.

(** A file whose name goes on otherwise is not staged. *)
Lemma unstaged (s : string) : starts_with s ".restore-tmp" = false -> String.append (db root) s ∉ stage_files.
Proof.
  intros Hs (t & E)%stage_suffix. apply append_cancel in E as ->.
  assert (Ht : starts_with (String.append ".restore-tmp" t) ".restore-tmp" = true) by (apply starts_with_spec; by exists t). congruence.
Qed.
Lemma live_unstaged : db root ∉ stage_files.
Proof. rewrite <-(append_nil_r (db root)). by apply unstaged. Qed.
Lemma config_unstaged : config_toml root ∉ stage_files.
Proof. intros (t & E)%stage_suffix. symmetry in E. by apply config_neq in E. Qed.

Lemma touches_cleanup : touches stage_files (cleanup (stage_path root)).
Proof.
  unfold cleanup, drop_sidecars, stage_files. repeat (apply touches_bind; [|intros _]); auto with writ; apply touches_tried, touches_remove; set_solver.
Qed.
Lemma touches_drop : touches stage_files (drop_sidecars (stage_path root)).
Proof.
  unfold drop_sidecars, stage_files. repeat (apply touches_bind; [|intros _]); auto with writ; apply touches_tried, touches_remove; set_solver.
Qed.
End paths.

Section restore.
Context `{BackupLibs}.

Lemma touches_trial (root key : string) : touches (stage_files root) (trial_open (stage_path root) key).
Proof.
  intros d k Hk. unfold trial_open.
  match goal with |- context [disk_op ?f d] => assert (Ht : touches (stage_files root) (disk_op f)) end.
  { apply touches_op. intros d1 a d2 p. destruct (files d1 !! _); [|by intros [= _ <-]]. destruct (db_open _ _ _) as [r [b' log]].
    intros [= _ <-] Hp. unfold stage_files in Hp. cbn. destruct log; cbn;
      [rewrite lookup_insert_ne by set_solver|rewrite lookup_delete_ne by set_solver]; rewrite lookup_insert_ne by set_solver; done. }
  specialize (Ht d k Hk). destruct (disk_op _ d) as [[a|e] d1]; done.
Qed.

Lemma touches_stage (root key b : string) (wal : option string) : touches (stage_files root) (stage root key b wal).
Proof.
  unfold stage. apply touches_bind; [apply touches_drop|]. intros _. apply touches_bind; [apply touches_write; unfold stage_files; set_solver|].
  intros _. apply touches_bind; [destruct wal; [apply touches_write; unfold stage_files; set_solver|auto with writ]|].
  intros _. apply touches_bind; [apply touches_trial|]. intros [[]|e]; [auto with writ|]. apply touches_bind; [apply touches_cleanup|auto with writ].
Qed.

Lemma sidecar_neq (p ext : string) : ext <> "" -> p <> sidecar p ext.
Proof. unfold sidecar. intros Hne E. rewrite <-(append_nil_r p) in E at 1. apply append_cancel in E. congruence. Qed.

Lemma with_log_lookup (p b : string) (log : option string) (m : gmap string string) : with_log p log (<[p := b]> m) !! p = Some b.
Proof.
  assert (Hne : sidecar p "-wal" <> p) by (intros E; symmetry in E; by apply sidecar_neq in E). unfold with_log.
  destruct log; [rewrite lookup_insert_ne by done|rewrite lookup_delete_ne by done]; apply lookup_insert_eq.
Qed.

(** A staged file that opened: what the engine made of the archive's, with a log. *)
Lemma stage_Ok (root key b : string) (wal : option string) (d d' : Disk) : stage root key b wal d = (Ok tt, d') ->
  exists w b' log, db_open key b w = (Ok tt, (b', log)) /\ files d' !! stage_path root = Some b' /\ (forall v, wal = Some v -> w = Some v).
Proof.
  unfold stage. intros Hs. apply bbind_cases in Hs as [(u & d1 & _ & Hs)|(e & _ & [=])].
  apply bbind_cases in Hs as [(u2 & d2 & Hw & Hs)|(e & _ & [=])]. apply write_cases in Hw.
  apply bbind_cases in Hs as [(u3 & d3 & Hl & Hs)|(e & _ & [=])].
  assert (H3 : files d3 !! stage_path root = Some b /\ forall v, wal = Some v -> files d3 !! sidecar (stage_path root) "-wal" = Some v).
  { destruct wal as [w|].
    - apply write_cases in Hl. rewrite Hl, Hw. split; [|intros v [= <-]; apply lookup_insert_eq].
      rewrite lookup_insert_ne; [apply lookup_insert_eq|]. intros E. symmetry in E. by apply sidecar_neq in E.
    - injection Hl as <- <-. rewrite Hw. split; [apply lookup_insert_eq|done]. }
  clear Hl Hw. destruct H3 as [H3 Hlog].
  apply bbind_cases in Hs as [(o & d4 & Ht & Hs)|(e & _ & [=])].
  assert (Hd4 : d4 = d' /\ o = Ok tt).
  { destruct o as [[]|e]; [by injection Hs as <-|]. apply bbind_cases in Hs as [(u4 & d5 & _ & [=])|(e' & _ & [=])]. }
  destruct Hd4 as [-> ->]. clear Hs. unfold trial_open in Ht.
  destruct (disk_op _ d3) as [[a|e] d4] eqn:Eo; simplify_eq. apply op_Ok in Eo as (fs & Eo). cbn in Eo. rewrite H3 in Eo.
  destruct (db_open key b _) as [r [b' log]] eqn:Ed. injection Eo as Er <-. destruct r as [[]|]; [|done].
  eexists _, b', log. split; [exact Ed|]. split; [|exact Hlog]. apply with_log_lookup.
Qed.

(** Moving a sidecar never fails, and touches no other file. *)
Lemma move_aside_ok (ext live prev : string) (d : Disk) :
  exists d', move_aside ext live prev d = (Ok tt, d') /\
    forall k, k <> sidecar live ext -> k <> sidecar prev ext -> files d' !! k = files d !! k.
Proof.
  unfold move_aside, bbind, exists_, tried. destruct (bool_decide _); [|by exists d].
  destruct (rename (sidecar live ext) (sidecar prev ext) d) as [r d'] eqn:Er. exists d'. split; [done|]. intros k H1 H2.
  apply rename_cases in Er. destruct r; [|by destruct Er as [-> _]]. destruct Er as (v & _ & ->).
  by rewrite lookup_insert_ne, lookup_delete_ne.
Qed.

Lemma cleanup_ok (p : string) (d : Disk) : exists d', cleanup p d = (Ok tt, d').
Proof.
  unfold cleanup, drop_sidecars, bbind, tried.
  destruct (remove_file p d) as [? ?]. destruct (remove_file _ _) as [? ?]. destruct (remove_file _ _) as [? ?]. by eexists.
Qed.

Lemma sidecars_apart (root ts ext : string) : ext = "-wal" \/ ext = "-shm" ->
  (previous_path root ts <> sidecar (db root) ext /\ previous_path root ts <> sidecar (previous_path root ts) ext) /\
  (db root <> sidecar (db root) ext /\ db root <> sidecar (previous_path root ts) ext) /\
  (stage_path root <> sidecar (db root) ext /\ stage_path root <> sidecar (previous_path root ts) ext).
Proof.
  unfold previous_path, stage_path, with_suffix, sidecar. intros Hext. rewrite !append_assoc. split_and!.
  - apply suffix_neq. destruct Hext; by subst.
  - apply suffix_neq. intros E. apply append_cancel in E. rewrite <-(append_nil_r ts) in E at 1. apply append_cancel in E. destruct Hext; by subst.
  - apply live_neq. destruct Hext; by subst.
  - by apply live_neq.
  - apply suffix_neq. destruct Hext; by subst.
  - by apply suffix_neq.
Qed.

(** Only the renames of the live file change it and its rollback copy. *)
Lemma set_aside_cases (root ts : string) (d d' : Disk) (r : result (option string) BackupError) : set_aside root ts d = (r, d') ->
  match r with
  | Ok previous =>
      previous = (const (previous_path root ts) <$> files d !! db root) /\ files d' !! db root = None /\
      files d' !! stage_path root = files d !! stage_path root /\
      (forall old, files d !! db root = Some old -> files d' !! previous_path root ts = Some old)
  | Err e => (exists x, e = Io x) /\ forall k, k ∉ stage_files root -> files d' !! k = files d !! k
  end.
Proof.
  unfold set_aside, bbind at 1, exists_ at 1. destruct (files d !! db root) as [old|] eqn:El.
  2:{ intros [= <- <-]. by split_and!. }
  rewrite bool_decide_eq_true_2 by done. cbn [negb]. unfold bbind at 1, tried.
  destruct (rename (db root) (previous_path root ts) d) as [[[]|e] d1] eqn:Er; apply rename_cases in Er.
  - destruct Er as (v & Hv & Hf). rewrite El in Hv. injection Hv as <-. unfold bbind.
    destruct (move_aside_ok "-wal" (db root) (previous_path root ts) d1) as (d2 & -> & H2).
    destruct (move_aside_ok "-shm" (db root) (previous_path root ts) d2) as (d3 & -> & H3). intros [= <- <-].
    destruct (sidecars_apart root ts "-wal") as ((W1 & W2) & (W3 & W4) & W5 & W6); [by left|].
    destruct (sidecars_apart root ts "-shm") as ((S1 & S2) & (S3 & S4) & S5 & S6); [by right|].
    assert (Hlp : db root <> previous_path root ts) by (apply live_neq; done).
    assert (Hls : db root <> stage_path root) by (apply live_neq; done).
    assert (Hps : previous_path root ts <> stage_path root) by (unfold previous_path, stage_path, with_suffix; by apply suffix_neq).
    split_and!; [done| | |intros old' [= <-]]; rewrite H3, H2, Hf by done.
    + rewrite lookup_insert_ne by done. apply lookup_delete_eq.
    + by rewrite lookup_insert_ne, lookup_delete_ne.
    + apply lookup_insert_eq.
  - destruct Er as [Hf Hx]. unfold bbind. destruct (cleanup_ok (stage_path root) d1) as (d2 & Hc). rewrite Hc. intros [= <- <-]. split; [done|].
    intros k Hk. pose proof (touches_cleanup root d1 k Hk) as T. rewrite Hc in T. cbn in T. by rewrite T, Hf.
Qed.

(** The live file is the staged one, or nothing happened; the rollback copy is untouched. *)
Lemma install_cases (root : string) (sw : bool) (cfg : option string) (d d' : Disk) (r : result unit BackupError) :
  install root sw cfg d = (r, d') ->
  match r with
  | Ok _ =>
      files d' !! db root = files d !! stage_path root /\
      (forall ts, files d' !! previous_path root ts = files d !! previous_path root ts)
  | Err e => files d' = files d /\ exists x, e = Io x
  end.
Proof.
  unfold install. intros Hi. apply bbind_cases in Hi as [(u & d1 & H1 & Hi)|(e & H1 & ->)].
  2:{ by apply rename_cases in H1. }
  apply rename_cases in H1 as (v & Hv & Hf). unfold bbind at 1, exists_ in Hi.
  set (X := [sidecar (stage_path root) "-wal"; sidecar (db root) "-wal"; config_toml root]).
  match type of Hi with bbind ?c ?k d1 = _ => assert (Ht : touches X (bbind c k)) end.
  { apply touches_bind.
    - destruct (_ && _); [apply touches_tried, touches_rename; unfold X; set_solver|auto with writ].
    - intros _. apply touches_bind; [|auto with writ]. destruct cfg; [apply touches_tried, touches_write; unfold X; set_solver|auto with writ]. }
  assert (Hok : exists x, r = Ok x).
  { destruct (bbind_cases _ _ _ _ _ Hi) as [(u1 & d2 & _ & H2)|(e & H2 & _)].
    - destruct (bbind_cases _ _ _ _ _ H2) as [(u2 & d3 & _ & [= <- _])|(e & H3 & _)]; [by eexists|].
      destruct cfg; [unfold tried in H3; by destruct (write_0600 _ _ _)|done].
    - destruct (_ && _); [unfold tried in H2; by destruct (rename _ _ _)|done]. }
  destruct Hok as (x & ->).
  assert (Hk : forall k, k ∉ X -> files d' !! k = files d1 !! k) by (intros k Hk; specialize (Ht d1 k Hk); by rewrite Hi in Ht).
  assert (Hlive : db root ∉ X /\ forall ts, previous_path root ts ∉ X).
  { unfold X, stage_path, previous_path, with_suffix, sidecar. split; [|intros ts]; rewrite !elem_of_cons, elem_of_nil, !append_assoc;
      intros [E|[E|[E|[]]]].
    - by apply live_neq in E.
    - by apply live_neq in E.
    - by rewrite <-(append_nil_r (db root)) in E; apply config_neq in E.
    - by apply append_cancel in E.
    - by apply append_cancel in E.
    - by apply config_neq in E. }
  destruct Hlive as [HL HP]. split; [|intros ts]; rewrite Hk by auto; rewrite Hf.
  - by rewrite lookup_insert_eq, Hv.
  - rewrite lookup_insert_ne, lookup_delete_ne; [done| |].
    + unfold stage_path, previous_path, with_suffix. by apply suffix_neq.
    + unfold previous_path, with_suffix. by apply live_neq.
Qed.

(** What a restore puts in place: the database of a validated archive, as it is once the engine has opened it under the live key. *)
Definition restored (root archive pass key : string) (d : Disk) (live : option string) : Prop :=
  exists sealed m fs b w b' log, files d !! archive = Some sealed /\ open_archive sealed pass = Ok (m, fs) /\ file_named "writ.db" fs = Some b /\
    (forall v, file_named "writ.db-wal" fs = Some v -> w = Some v) /\ db_open key b w = (Ok tt, (b', log)) /\ live = Some b'.

(** C18: a restore, whatever operation of the file system fails and wherever it is cut short, loses no database: the one that was live is live or is
    the rollback copy. The live one is as before, or gone between the two renames, or that of an archive which opens under the passphrase, whose
    entries have their sizes and digests, and whose database the engine opens under the key of this device. A report of
    success means the last, with the previous database kept; an error that is not one of the file system means that nothing but the staging files was
    touched. *)
Theorem restore_safe (root archive pass key ts : string) (d : Disk) :
  let '(r, d') := restore root archive pass key ts d in
  let live := db root in
  let previous := previous_path root ts in
  (forall old, files d !! live = Some old -> files d' !! live = Some old \/ files d' !! previous = Some old) /\
  (files d' !! live = files d !! live \/
   (files d' !! live = None /\ (exists x, r = Err (Io x)) /\ forall old, files d !! live = Some old -> files d' !! previous = Some old) \/
   restored root archive pass key d (files d' !! live)) /\
  match r with
  | Ok rep =>
      restored root archive pass key d (files d' !! live) /\ needs_restart rep = true /\
      previous_db_backup rep = (const previous <$> files d !! live) /\ (forall old, files d !! live = Some old -> files d' !! previous = Some old)
  | Err e => (exists x, e = Io x) \/ forall k, k ∉ stage_files root -> files d' !! k = files d !! k
  end.
Proof.
  destruct (restore root archive pass key ts d) as [r d'] eqn:Er. unfold restore in Er. cbv zeta.
  apply bbind_cases in Er as [(p & d0 & Hp & Er)|(e & [= He <-] & ->)]; [|by eauto 6]. unfold lift in Hp. injection Hp as Hp <-.
  unfold bbind at 1, exists_ in Er. destruct (bool_decide _); cbn [negb] in Er; [|injection Er as <- <-; by eauto 6].
  apply bbind_cases in Er as [(sealed & d1 & Hr & Er)|(e & Hr & ->)]; apply read_op_cases in Hr as [Hf Hr]; [|rewrite Hf; by eauto 6].
  apply bbind_cases in Er as [([m fs] & d2 & Ho & Er)|(e & [= He <-] & ->)]; [|rewrite Hf; by eauto 6]. unfold lift in Ho. injection Ho as Ho <-.
  assert (Hpp : p = pass) by (unfold require_passphrase in Hp; destruct (is_empty _); by simplify_eq). subst p. rewrite <-Hf in *.
  apply bbind_cases in Er as [([] & d3 & Hs & Er)|(e & Hs & ->)].
  2:{ pose proof (touches_stage root key (default "" (file_named "writ.db" fs)) (file_named "writ.db-wal" fs) d1) as T. rewrite Hs in T. cbn in T.
      rewrite (T (db root)) by apply live_unstaged. split_and!; [by auto|by auto|by auto]. }
  pose proof (touches_stage root key (default "" (file_named "writ.db" fs)) (file_named "writ.db-wal" fs) d1) as T. rewrite Hs in T. cbn in T.
  apply stage_Ok in Hs as (w & b' & log & Hopen & Hstaged & Hw).
  assert (HT : files d3 !! db root = files d1 !! db root) by (apply T, live_unstaged). rewrite <-HT.
  assert (Hrest : forall x, x = Some b' -> restored root archive pass key d x).
  { intros x ->. assert (Hdb : exists b, file_named "writ.db" fs = Some b).
    { unfold open_archive in Ho. apply result_bind_inv in Ho as (pt & _ & Ho). apply result_bind_inv in Ho as ([m' fs'] & _ & Ho).
      apply result_bind_inv in Ho as ([] & Hv & [= <- <-]). apply (validated_has_db m'), Hv. }
    destruct Hdb as (b & Hb). exists sealed, m, fs, b, w, b', log. rewrite Hb in Hopen. rewrite <-Hf. by split_and!. }
  apply bbind_cases in Er as [(prev & d4 & Ha & Er)|(e & Ha & ->)]; apply set_aside_cases in Ha.
  2:{ destruct Ha as [Hx Ha]. rewrite (Ha (db root)) by apply live_unstaged. by eauto 6. }
  destruct Ha as (-> & Hnone & Hst & Hold).
  apply bbind_cases in Er as [([] & d5 & Hi & Er)|(e & Hi & ->)]; apply install_cases in Hi.
  - destruct Hi as [Hlive Hprev]. injection Er as <- <-. rewrite Hst, Hstaged in Hlive. specialize (Hrest _ Hlive).
    split_and!; [|by auto|done|done|done|]; intros old Ho'; [right|]; rewrite Hprev; by apply Hold.
  - destruct Hi as [Hfiles Hx]. rewrite Hfiles. split_and!; [by auto| |by auto]. right; left. destruct Hx as (x & ->). by eauto.
Qed.

(** *** Without faults *)

Definition quiet (d : Disk) : Prop := disk_faults d = [].

Lemma op_quiet {A : Type} (f : Disk -> result (A * Disk) BackupError) (d d' : Disk) (a : A) :
  quiet d -> f d = Ok (a, d') -> disk_op f d = (Ok a, d').
Proof. intros Hq Hf. unfold disk_op. by rewrite Hq, Hf. Qed.

Lemma read_quiet (p b : string) (d : Disk) : quiet d -> files d !! p = Some b -> read p d = (Ok b, d).
Proof. intros Hq Hb. apply op_quiet; [done|]. by rewrite Hb. Qed.
Lemma write_quiet (p b : string) (d : Disk) : quiet d -> write_0600 p b d = (Ok tt, set_files (<[p := b]> (files d)) d).
Proof. intros Hq. by apply op_quiet. Qed.
Lemma rename_quiet (a b v : string) (d : Disk) : quiet d -> files d !! a = Some v ->
  rename a b d = (Ok tt, set_files (<[b := v]> (delete a (files d))) d).
Proof. intros Hq Hv. apply op_quiet; [done|]. by rewrite Hv. Qed.

Lemma tried_remove_quiet (p : string) (d : Disk) : quiet d ->
  exists r, tried (remove_file p) d = (Ok r, set_files (delete p (files d)) d).
Proof.
  intros Hq. unfold tried, remove_file, disk_op. rewrite Hq. destruct (files d !! p) eqn:E; [by eexists|].
  eexists. rewrite delete_id by done. by destruct d.
Qed.

Lemma drop_quiet (p : string) (d : Disk) : quiet d ->
  drop_sidecars p d = (Ok tt, set_files (delete (sidecar p "-shm") (delete (sidecar p "-wal") (files d))) d).
Proof.
  intros Hq. unfold drop_sidecars, bbind. destruct (tried_remove_quiet (sidecar p "-wal") d Hq) as (r & ->).
  destruct (tried_remove_quiet (sidecar p "-shm") (set_files (delete (sidecar p "-wal") (files d)) d) Hq) as (r' & ->). done.
Qed.

Lemma aside_quiet (ext live prev : string) (d : Disk) : quiet d -> quiet (snd (move_aside ext live prev d)).
Proof.
  intros Hq. unfold move_aside, bbind, exists_, tried. destruct (files d !! sidecar live ext) as [v|] eqn:E; [|done].
  rewrite bool_decide_eq_true_2 by done. by rewrite (rename_quiet _ _ v).
Qed.

Lemma stage_quiet (root key b b' : string) (log : option string) (d : Disk) : quiet d -> db_open key b None = (Ok tt, (b', log)) ->
  exists d', stage root key b None d = (Ok tt, d') /\ quiet d' /\ files d' !! stage_path root = Some b'.
Proof.
  intros Hq Hopen. unfold stage, bbind. rewrite drop_quiet by done. rewrite write_quiet by done. cbn [bret]. unfold trial_open.
  match goal with |- context [disk_op ?f ?d0] => erewrite (op_quiet f d0) end; [|done|].
  2:{ cbn. rewrite lookup_insert_eq.
      assert (Hn : stage_path root <> sidecar (stage_path root) "-wal") by by apply sidecar_neq.
      assert (Hs : sidecar (stage_path root) "-shm" <> sidecar (stage_path root) "-wal").
      { unfold sidecar. intros E. by apply append_cancel in E. }
      rewrite lookup_insert_ne, lookup_delete_ne, lookup_delete_eq by done. rewrite Hopen. reflexivity. }
  eexists. split_and!; [reflexivity|done|apply with_log_lookup].
Qed.

Lemma set_aside_quiet (root ts : string) (d : Disk) : quiet d -> exists p d', set_aside root ts d = (Ok p, d') /\ quiet d'.
Proof.
  intros Hq. unfold set_aside, bbind at 1, exists_. destruct (files d !! db root) as [old|] eqn:El.
  2:{ by eexists _, _. }
  rewrite bool_decide_eq_true_2 by done. cbn [negb]. unfold bbind at 1, tried. rewrite (rename_quiet _ _ old) by done. unfold bbind.
  match goal with |- context [move_aside "-wal" ?l ?p ?d1] => pose proof (aside_quiet "-wal" l p d1 Hq) as Hq1;
    destruct (move_aside_ok "-wal" l p d1) as (d2 & E2 & _); rewrite E2 in *; cbn [snd] in Hq1;
    pose proof (aside_quiet "-shm" l p d2 Hq1) as Hq2; destruct (move_aside_ok "-shm" l p d2) as (d3 & E3 & _); rewrite E3 in *; cbn [snd] in Hq2 end.
  by eexists _, _.
Qed.

Lemma install_quiet (root b : string) (cfg : option string) (d : Disk) : quiet d -> files d !! stage_path root = Some b ->
  exists d', install root false cfg d = (Ok tt, d') /\ forall c, cfg = Some c -> files d' !! config_toml root = Some c.
Proof.
  intros Hq Hs. unfold install, bbind. rewrite (rename_quiet _ _ b) by done. cbn [exists_ bret andb].
  destruct cfg as [c|]; [|by eexists]. unfold tried. rewrite write_quiet by done. eexists. split; [done|]. intros ? [= <-]. apply lookup_insert_eq.
Qed.

Lemma restore_quiet (root archive pass key ts sealed b b' : string) (m : Manifest) (fs : list (string * string)) (log : option string) (d : Disk) :
  quiet d -> is_empty (trim pass) = false -> files d !! archive = Some sealed -> open_archive sealed pass = Ok (m, fs) ->
  file_named "writ.db" fs = Some b -> file_named "writ.db-wal" fs = None -> db_open key b None = (Ok tt, (b', log)) ->
  exists rep d', restore root archive pass key ts d = (Ok rep, d') /\ files d' !! db root = Some b' /\
    forall c, file_named "config.toml" fs = Some c -> files d' !! config_toml root = Some c.
Proof.
  intros Hq Hp Ha Ho Hb Hw Hopen. unfold restore, bbind, lift, require_passphrase. rewrite Hp. unfold exists_. rewrite Ha.
  rewrite bool_decide_eq_true_2 by done. cbn [negb]. rewrite (read_quiet _ sealed) by done. rewrite Ho, Hw, Hb. cbn [from_option id].
  destruct (stage_quiet root key b b' log d Hq Hopen) as (d1 & -> & Hq1 & Hst).
  destruct (set_aside_quiet root ts d1 Hq1) as (p & d2 & Ea & Hq2). rewrite Ea. apply set_aside_cases in Ea as (_ & _ & Hst2 & _).
  rewrite <-Hst2 in Hst. destruct (install_quiet root b' (file_named "config.toml" fs) d2 Hq2 Hst) as (d3 & Ei & Hc).
  rewrite bool_decide_eq_false_2 by (by intros [? ?]). rewrite Ei. apply install_cases in Ei as [Hl _]. eexists _, d3. split; [done|].
  split; [by rewrite Hl|done].
Qed.

(** *** The round trip *)

(** The files of an archive of [d], from the snapshot [v]. *)
Definition archived (root v : string) (d : Disk) : list (string * string) :=
  ("writ.db", v) :: match files d !! config_toml root with Some c => [("config.toml", c)] | None => [] end.

Definition snapshot_path (root pid : string) : string := with_suffix (db root) (String.append ".backup-snap-" pid).

(** A snapshot is the engine's copy of the live database, which it leaves as it is, with the configuration. *)
Lemma snapshot_Ok (root key pid v : string) (d d' : Disk) : snapshot_db (db root) key pid d = (Ok v, d') ->
  (exists b wal, files d !! db root = Some b /\ vacuum (key_pragma_value key) b wal = Ok v) /\
  files d' !! config_toml root = files d !! config_toml root.
Proof.
  unfold snapshot_db. fold (snapshot_path root pid). set (snap := snapshot_path root pid). set (X := [snap; sidecar snap "-wal"; sidecar snap "-shm"]).
  assert (Hlive : db root ∉ X /\ config_toml root ∉ X).
  { unfold X, snap, snapshot_path, with_suffix, sidecar. rewrite !elem_of_cons, !elem_of_nil, !append_assoc.
    split; intros [E|[E|[E|[]]]]; [by apply live_neq in E|by apply live_neq in E|by apply live_neq in E|..]; symmetry in E; by apply config_neq in E. }
  assert (Hc : touches X (cleanup snap)).
  { unfold cleanup, drop_sidecars, X. repeat (apply touches_bind; [|intros _]); auto with writ; apply touches_tried, touches_remove; set_solver. }
  intros Hs. unfold bbind at 1 in Hs. destruct (cleanup_ok snap d) as (d1 & E1). rewrite E1 in Hs.
  assert (H1 : forall k, k ∉ X -> files d1 !! k = files d !! k) by (intros k Hk; specialize (Hc d k Hk); by rewrite E1 in Hc).
  unfold bbind at 1, tried at 1 in Hs. destruct (vacuum_into (db root) key snap d1) as [[u|e] d2] eqn:Ev.
  2:{ unfold bbind in Hs. destruct (cleanup_ok snap d2) as (d3 & E3). by rewrite E3 in Hs. }
  unfold bbind at 1, tried in Hs. destruct (read snap d2) as [r d3] eqn:Er. apply read_op_cases in Er as [Hf3 Hr]. unfold bbind in Hs.
  destruct (cleanup_ok snap d3) as (d4 & E4). rewrite E4 in Hs. unfold lift in Hs. injection Hs as -> <-.
  assert (H4 : forall k, k ∉ X -> files d4 !! k = files d3 !! k) by (intros k Hk; specialize (Hc d3 k Hk); by rewrite E4 in Hc).
  unfold vacuum_into in Ev. destruct (disk_op _ d1) as [[a|e] d5] eqn:Eo; [|by destruct e]. injection Ev as <- <-.
  apply op_Ok in Eo as (fs & Eo). cbn in Eo. rewrite H1 in Eo by apply Hlive. destruct (files d !! db root) as [b|] eqn:Eb; [|by destruct (files d1 !! snap)].
  destruct (files d1 !! snap); [done|]. destruct (vacuum _ _ _) as [v'|] eqn:Evac; [|done]. injection Eo as <- <-. cbn in Hr, Hf3.
  rewrite lookup_insert_eq in Hr. injection Hr as ->. split; [by eauto|].
  rewrite H4, Hf3, lookup_insert_ne, H1; [done|apply Hlive| |apply Hlive]. intros E. destruct Hlive as [_ Hlive]. apply Hlive. rewrite <-E. by left.
Qed.

(** What an export that succeeds has written, whatever failed on the way. *)
Lemma export_Ok (root pass key : string) (dest : option string) (seed pid version now : string) (d d' : Disk) (rep : ExportReport) :
  export root pass key dest seed pid version now d = (Ok rep, d') ->
  exists b wal v pt sealed,
    files d !! db root = Some b /\ vacuum (key_pragma_value key) b wal = Ok v /\
    write_container (export_manifest version now (archived root v d)) (archived root v d) = Ok pt /\ age_encrypt seed pt pass = Ok sealed /\ is_empty (trim pass) = false /\
    files d' !! ex_path rep = Some sealed /\ ex_bytes rep = str_len sealed.
Proof.
  unfold export. intros He. apply bbind_cases in He as [(p & d0 & Hp & He)|(e & _ & [=])]. unfold lift, require_passphrase in Hp.
  destruct (is_empty (trim pass)) eqn:Hpass; [done|]. injection Hp as <- <-. unfold bbind at 1, exists_ at 1 in He.
  destruct (files d !! db root) as [b|] eqn:Eb; [|done]. rewrite bool_decide_eq_true_2 in He by done. cbn [negb] in He.
  apply bbind_cases in He as [(v & d1 & Hs & He)|(e & _ & [=])]. apply snapshot_Ok in Hs as [(b' & wal & Hb' & Hv) Hcfg].
  rewrite Eb in Hb'. injection Hb' as <-. unfold bbind at 1, exists_ at 1 in He. rewrite Hcfg in He.
  apply bbind_cases in He as [(fs & d2 & Hfs & He)|(e & _ & [=])].
  assert (Hfiles : fs = archived root v d).
  { unfold archived. destruct (files d !! config_toml root) as [c|] eqn:Ec; [|by injection Hfs as <- _]. rewrite bool_decide_eq_true_2 in Hfs by done.
    apply bbind_cases in Hfs as [(c' & d3 & Hr & Hfs)|(e & _ & [=])]. apply read_op_cases in Hr as [_ Hr]. rewrite Hcfg in Hr. injection Hr as <-.
    by injection Hfs as <- _. }
  apply bbind_cases in He as [(pt & d3 & Hpt & He)|(e & _ & [=])]. injection Hpt as Hpt _.
  apply bbind_cases in He as [(sealed & d4 & Hse & He)|(e & _ & [=])]. injection Hse as Hse _. unfold age_seal in Hse.
  destruct (age_encrypt seed pt pass) as [sealed'|] eqn:Ea; [|done]. injection Hse as <-.
  apply bbind_cases in He as [(u & d5 & _ & He)|(e & _ & [=])]. apply bbind_cases in He as [(u2 & d6 & Hw & He)|(e & _ & [=])].
  injection He as <- <-. apply write_cases in Hw. exists b, wal, v, pt, sealed'. rewrite Hw, <-Hfiles. split_and!; try done. apply lookup_insert_eq.
Qed.

Lemma exported_intact (version now : string) (fs : list (string * string)) : NoDup fs.*1 -> Forall (intact fs) (entries (export_manifest version now fs)).
Proof.
  intros Hnd. cbn. rewrite Forall_forall. intros e He. apply list_elem_of_fmap in He as ([n b] & -> & Hf). exists b. split; [|done]. cbn.
  revert Hnd Hf. unfold file_named. induction fs as [|[n' b'] fs IH]; intros Hnd Hf; [by apply not_elem_of_nil in Hf|]. cbn.
  apply NoDup_cons in Hnd as [Hn Hnd]. apply elem_of_cons in Hf as [[= <- <-]|Hf]; [by rewrite str_eqb_refl|].
  destruct (str_eqb n' n) eqn:E; [|by apply IH]. apply str_eqb_eq in E as ->. exfalso. apply Hn. apply list_elem_of_fmap. by exists (n, b).
Qed.

(** C19: an archive an export reports, whatever failed on the way, is restored: when it is at hand, and nothing fails, and the device's key opens the
    snapshot, the restore under the same passphrase succeeds, the live database is the snapshot as the engine leaves it and the configuration is
    the one exported. The hypotheses are the laws of age and of the JSON of the manifest, and the limits of an entry. *)
Theorem export_restores (root pass key : string) (dest : option string) (seed pid version now : string) (d d1 : Disk) (rep : ExportReport) :
  (forall x y, age_encrypt seed x pass = Ok y -> age_decrypt y pass = Some x) ->
  (forall m json, to_vec m = Ok json -> from_slice json = Ok m) ->
  export root pass key dest seed pid version now d = (Ok rep, d1) ->
  (forall c, files d !! config_toml root = Some c -> str_len c <= MAX_ENTRY_BYTES) ->
  exists b wal v, files d !! db root = Some b /\ vacuum (key_pragma_value key) b wal = Ok v /\
    ((forall json, to_vec (export_manifest version now (archived root v d)) = Ok json -> str_len json < 2 ^ 32) ->
     forall root2 key2 ts v' log d2,
      quiet d2 -> files d2 !! ex_path rep = files d1 !! ex_path rep -> str_len v <= MAX_ENTRY_BYTES -> db_open key2 v None = (Ok tt, (v', log)) ->
      exists rep2 d3, restore root2 (ex_path rep) pass key2 ts d2 = (Ok rep2, d3) /\ files d3 !! db root2 = Some v' /\
        (forall c, files d !! config_toml root = Some c -> files d3 !! config_toml root2 = Some c)).
Proof.
  intros Hage Hjson He Hcfg. apply export_Ok in He as (b & wal & v & pt & sealed & Hb & Hv & Hpt & Hse & Hpass & Hdest & _).
  exists b, wal, v. split; [done|]. split; [done|]. intros Hlen root2 key2 ts v' log d2 Hq Hat Hsize Hopen.
  set (fs := archived root v d) in *. assert (Hdb : file_named "writ.db" fs = Some v /\ file_named "writ.db-wal" fs = None /\ file_named "config.toml" fs = files d !! config_toml root /\
      NoDup fs.*1 /\ Forall fits fs).
  { unfold fs, archived. destruct (files d !! config_toml root) as [c|] eqn:Ec; cbn; split_and!; try done.
    - apply NoDup_cons. split; [|apply NoDup_singleton]. intros E%list_elem_of_singleton. done.
    - repeat constructor; cbn; try done. by apply Hcfg.
    - apply NoDup_singleton.
    - by repeat constructor. }
  destruct Hdb as (Hdb & Hnowal & Hconf & Hnd & Hfit).
  destruct (to_vec (export_manifest version now fs)) as [json|e] eqn:Hto; [|unfold write_container in Hpt; by rewrite Hto in Hpt].
  destruct (written_read (export_manifest version now fs) fs json Hto (Hjson _ _ Hto) (Hlen _ eq_refl)) as (pt' & Hw & Hread); [cbn; by rewrite length_map|done|].
  rewrite Hpt in Hw. injection Hw as <-.
  assert (Ho : open_archive sealed pass = Ok (export_manifest version now fs, fs)).
  { unfold open_archive, age_open. rewrite (Hage pt sealed Hse). cbn [result_bind]. rewrite Hread. cbn [result_bind].
    assert (Hval : validate_against_manifest (export_manifest version now fs) fs = Ok tt); [|by rewrite Hval].
    apply validate_Ok. split; [done|]. split; [by apply exported_intact|]. eexists. split; [by left|done]. }
  rewrite Hdest in Hat. destruct (restore_quiet root2 (ex_path rep) pass key2 ts sealed v v' _ fs log d2 Hq Hpass Hat Ho Hdb Hnowal Hopen)
    as (rep2 & d3 & Hr & Hlive & Hc). exists rep2, d3. split_and!; [done|done|]. intros c Hcc. apply Hc. by rewrite Hconf.
Qed.

(** *** The reset *)

Lemma wipe_each_files (dir : string) (es : list (string * bool)) : forall n, touches [] (wipe_each dir es n).
Proof.
  assert (Hn : forall A (g : Disk -> A * Disk), (forall d, files (snd (g d)) = files d) -> touches [] (disk_op (fun d => Ok (g d)))).
  { intros A g Hg. apply touches_op. intros d a d' k [= E] _. specialize (Hg d). rewrite E in Hg. cbn in Hg. by rewrite Hg. }
  induction es as [|[name b] es IH]; intros n; [apply touches_ret|]. cbn [wipe_each].
  apply touches_bind; [by apply (Hn unit (fun d => (tt, d)))|]. intros _. apply touches_bind; [by apply (Hn unit (fun d => (tt, d)))|]. intros _.
  apply touches_bind; [|intros gone; apply IH].
  by apply touches_tried, (Hn unit (fun d => (tt, set_stores (alter (retain (fun e => negb (str_eqb e.1 name))) dir (stores d)) d))).
Qed.

Lemma wipe_files (dir : string) : touches [] (wipe_dir_contents dir).
Proof.
  unfold wipe_dir_contents. apply touches_bind; [|intros [es|]; [apply wipe_each_files|auto with writ]].
  apply touches_op. by intros d a d' k [= _ <-].
Qed.

Lemma remove_if_exists_Ok (p : string) (d d' : Disk) (b : bool) : remove_if_exists p d = (Ok b, d') -> files d' !! p = None /\ (forall k, files d !! k = None -> files d' !! k = None).
Proof.
  intros (fs & Hr)%op_Ok. cbn in Hr. destruct (files d !! p) eqn:E; injection Hr as <- <-; cbn; [|done].
  split; [apply lookup_delete_eq|]. intros k Hk. destruct (decide (p = k)) as [<-|]; [apply lookup_delete_eq|by rewrite lookup_delete_ne].
Qed.

(** A reset that succeeds has removed the database, and the key file when asked to. *)
Lemma reset_removes (root : string) (rotate : bool) (d d' : Disk) (rep : ResetReport) : reset root rotate d = (Ok rep, d') ->
  files d' !! db root = None /\ (rotate = true -> files d' !! vault_key root = None).
Proof.
  unfold reset. intros Hr. apply bbind_cases in Hr as [(b & d1 & H1 & Hr)|(e & _ & [=])]. apply remove_if_exists_Ok in H1 as [H1 _].
  apply bbind_cases in Hr as [(u & d2 & H2 & Hr)|(e & _ & [=])].
  assert (H2n : files d2 !! db root = None).
  { assert (Ht : touches [sidecar (db root) "-wal"; sidecar (db root) "-shm"] (drop_sidecars (db root))).
    { unfold drop_sidecars. repeat (apply touches_bind; [|intros _]); auto with writ; apply touches_tried, touches_remove; set_solver. }
    specialize (Ht d1 (db root)). rewrite H2 in Ht. cbn in Ht. rewrite Ht; [done|].
    rewrite !elem_of_cons, !elem_of_nil. intros [E|[E|[]]]; by apply sidecar_neq in E. }
  apply bbind_cases in Hr as [(n & d3 & H3 & Hr)|(e & _ & [=])]. pose proof (wipe_files (files_dir root) d2 (db root)) as T3. rewrite H3 in T3.
  apply bbind_cases in Hr as [(k & d4 & H4 & Hr)|(e & _ & [=])]. pose proof (wipe_files (artifacts_dir root) d3 (db root)) as T4. rewrite H4 in T4.
  cbn in T3, T4. assert (Hd4 : files d4 !! db root = None) by (rewrite T4, T3; [done|set_solver|set_solver]). clear H1 H2 H2n H3 H4 T3 T4.
  apply bbind_cases in Hr as [(v & d5 & H5 & Hr)|(e & _ & [=])]. injection Hr as _ <-. destruct rotate; [|by injection H5 as _ <-].
  apply bbind_cases in H5 as [(f & d6 & H6 & H5)|(e & _ & [=])]. apply remove_if_exists_Ok in H6 as [Hk Hmono].
  apply bbind_cases in H5 as [(g & d7 & H7 & H5)|(e & _ & [=])]. injection H5 as _ <-.
  assert (Ht : touches [] (tried keyring_delete)) by (apply touches_tried, touches_op; by intros d0 a d0' p [= _ <-]).
  assert (Hd7 : forall p, files d7 !! p = files d6 !! p) by (intros p; specialize (Ht d6 p); rewrite H7 in Ht; apply Ht; set_solver).
  rewrite !Hd7. auto.
Qed.
End restore.

(** ** Examples *)

#[export] Instance ManifestEntry_eq_dec : EqDecision ManifestEntry.
Proof. solve_decision. Defined.
#[export] Instance Manifest_eq_dec : EqDecision Manifest.
Proof. solve_decision. Defined.

Definition demo_version : string := "1.4.0".
Definition demo_now : string := "2026-01-02T03:04:05.000Z".
Definition demo_manifest : Manifest :=
  mkManifest demo_version 1 demo_now [mkEntry "writ.db" 7 (UpdateManifest.hex_lower (string_to_bytes "k1:rows")); mkEntry "config.toml" 3 (UpdateManifest.hex_lower (string_to_bytes "[x]"))].

(** One manifest has a text; a sealed text begins with the passphrase and a database with its key. *)
#[local] Instance demo_backup : BackupLibs := {|
  to_vec := fun m => if decide (m = demo_manifest) then Ok "M" else Err "unsupported";
  from_slice := fun s => if str_eqb s "M" then Ok demo_manifest else Err "expected value";
  sha256 := string_to_bytes;
  age_encrypt := fun _ p pass => Ok (String.append AGE_STREAM_MAGIC (String.append pass (String.append "|" p)));
  age_decrypt := fun s pass => strip_prefix (String.append AGE_STREAM_MAGIC (String.append pass "|")) s;
  vacuum := fun _ b _ => Ok b;
  db_open := fun key b w => if starts_with b (String.append key ":") then (Ok tt, (b, None)) else (Err (Errors.IoError "code 26"), (b, w));
|}.

Definition demo_home : Disk := mkDisk {["/w/writ.db" := "k1:rows"; "/w/config.toml" := "[x]"; "/w/vault.key" := "root"]} ∅ true [].
Definition demo_export : result ExportReport BackupError * Disk := export "/w" "pass" "k1" None "" "7" demo_version demo_now demo_home.
(** Another home, with other rows and the archive, and some faults. *)
Definition demo_later (faults : list bool) (log : bool) : Disk :=
  mkDisk (<["/w/writ.db" := "k1:later"]> (<["/w/writ-backup.age" := default "" (files (snd demo_export) !! "/w/writ-backup.age")]>
    (if log then {["/w/writ.db-wal" := "log of later"]} else ∅))) ∅ true faults.
Definition demo_restore (faults : list bool) (log : bool) : result RestoreReport BackupError * Disk :=
  restore "/w" "/w/writ-backup.age" "pass" "k1" "20260203T000000Z" (demo_later faults log).

Lemma export_restores_witness : exists rep d1, demo_export = (Ok rep, d1) /\
  exists rep2 d3, demo_restore [] false = (Ok rep2, d3) /\ files d3 !! "/w/writ.db" = Some "k1:rows" /\ files d3 !! "/w/config.toml" = Some "[x]".
Proof.
  destruct demo_export as [[rep|e] d1] eqn:He; [|vm_compute in He; discriminate He]. exists rep, d1. split; [done|].
  assert (Hdest : ex_path rep = "/w/writ-backup.age" /\ files (snd demo_export) = files d1) by (rewrite He; split; [by vm_compute in He; injection He as <- _|done]).
  destruct Hdest as [Hdest Hd1].
  destruct (export_restores "/w" "pass" "k1" None "" "7" demo_version demo_now demo_home d1 rep) as (b & wal & v & Hb & Hv & Hr).
  - intros x y [= <-]. apply strip_prefix_Some. by rewrite !append_assoc.
  - intros m json. cbn. destruct (decide (m = demo_manifest)) as [->|]; [|done]. by intros [= <-].
  - exact He.
  - intros c [= <-]. vm_compute. discriminate.
  - vm_compute in Hb. injection Hb as <-. injection Hv as <-.
    destruct (Hr) with (root2 := "/w") (key2 := "k1") (ts := "20260203T000000Z") (v' := "k1:rows") (log := @None string) (d2 := demo_later [] false)
      as (rep2 & d3 & H1 & H2 & H3).
    + intros json Hj. vm_compute in Hj. injection Hj as <-. done.
    + done.
    + rewrite Hdest. unfold demo_later. cbn [files]. rewrite lookup_insert_ne, lookup_insert_eq by done. rewrite Hd1.
      vm_compute in He. injection He as <- <-. reflexivity.
    + vm_compute. discriminate.
    + reflexivity.
    + exists rep2, d3. rewrite Hdest in H1. split_and!; [exact H1|exact H2|]. apply H3. reflexivity.
Defined.

(** The second rename fails, or the process ends before it: there is no live database. *)
Example interrupted_restore_leaves_none :
  let '(r, d) := demo_restore (repeat false 6 ++ [true]) false in
  r = Err (Io "") /\ files d !! "/w/writ.db" = None /\ files d !! "/w/writ.db.pre-restore-20260203T000000Z" = Some "k1:later".
Proof. vm_compute. split_and!; reflexivity. Qed.

(** The log of the old database could not be moved: it stays beside the restored one, and the restore succeeds. *)
Example old_log_left_beside_restored :
  let '(r, d) := demo_restore (repeat false 6 ++ [true]) true in
  (if r then True else False) /\ files d !! "/w/writ.db" = Some "k1:rows" /\ files d !! "/w/writ.db-wal" = Some "log of later".
Proof. vm_compute. split_and!; [exact I|reflexivity|reflexivity]. Qed.

(** A keyring that refuses keeps the root, and the reset reports that the root was rotated; the copies of earlier restores stay. *)
Example reset_reports_rotated :
  let d := mkDisk {["/w/writ.db" := "k1:rows"; "/w/vault.key" := "root"; "/w/writ.db.pre-restore-20260203T000000Z" := "k1:later"]} ∅ true (repeat false 6 ++ [true]) in
  match reset "/w" true d with
  | (Ok rep, d) => vault_rotated rep = true /\ keyring_root d = true /\ files d !! "/w/writ.db.pre-restore-20260203T000000Z" = Some "k1:later"
  | _ => False
  end.
Proof. vm_compute. split_and!; reflexivity. Qed.
