(* ===== verification/BackupApi.v ===== *)
(** * local/api/v1/backup.rs: the routes of backups

    Which files may leave through a download, and what a caller learns of files that are no archives. Symbolic links and
    working directory are the interface [FsEnv]: where a path leads, given the directories made. The random part of a download's
    id and the clock are arguments. *)

From Stdlib Require Import Ascii String.
From S2P Require Import Prelude Ints Str Json Backup.
From S2P Require Errors.
Open Scope string_scope.
Open Scope list_scope.
Open Scope Z_scope.

Definition one_of (s : string) (l : list string) : bool := any (str_eqb s) l.

(** ** Paths *)

(** [Path::components]: the root, and the names; a dot counts only in front. *)
Definition components (p : string) : list string :=
  let names := split "/"%char p in
  let rest := retain (fun n => negb (is_empty n) && negb (str_eqb n ".")) names in
  if starts_with p "/" then "/" :: rest
  else match names with "." :: _ => "." :: rest | _ => rest end.
Definition is_absolute (p : string) : bool := starts_with p "/".
Definition file_name (p : string) : option string :=
  match last (components p) with
  | Some n => if one_of n ["/"; "."; ".."] then None else Some n
  | None => None
  end.
(** [Path::starts_with] *)
Definition under (p base : string) : bool := bool_decide (components base `prefix_of` components p).
Definition join (base p : string) : string :=
  if is_absolute p then p
  else if is_empty base || ends_with base "/" then String.append base p else String.append base (String.append "/" p).
(** [Path::parent], as the path of the components before the last. *)
Definition parent (p : string) : option string :=
  match rev (components p) with
  | [] => None
  | ["/"] => None
  | _ :: front => Some (match rev front with "/" :: l => String.append "/" (Str.join "/" l) | l => Str.join "/" l end)
  end.

(** The first argument is the directories that [create_dir_all] has made since the start. *)
Class FsEnv : Type := {
  (** the file or directory a path leads to, when every directory on the way is one *)
  leads_to : list string -> string -> option string;
  directory : list string -> string -> bool;
  creatable : list string -> string -> bool;
}.

(** ** Grants *)

Definition DOWNLOAD_TTL_SECS : Z := 600.
Definition DOWNLOAD_MAX_USES : Z := 3.

Record DownloadGrant : Type := mkGrant { gr_path : string; gr_created_unix : Z; gr_uses_left : Z }.

Record Daemon : Type := mkDaemon { disk : Disk; made_dirs : list string; downloads : gmap string DownloadGrant }.
Definition set_disk (d : Disk) (s : Daemon) : Daemon := mkDaemon d (made_dirs s) (downloads s).
Definition set_made_dirs (l : list string) (s : Daemon) : Daemon := mkDaemon (disk s) l (downloads s).
Definition set_downloads (m : gmap string DownloadGrant) (s : Daemon) : Daemon := mkDaemon (disk s) (made_dirs s) m.

(** A grant within its lifetime. *)
Definition live_grant (now : Z) (g : DownloadGrant) : bool := now - gr_created_unix g <? DOWNLOAD_TTL_SECS.

Definition mint_download_grant (path random : string) (now : Z) (m : gmap string DownloadGrant) : string * gmap string DownloadGrant :=
  let id := String.append "bkd_" random in
  (id, <[id := mkGrant path now DOWNLOAD_MAX_USES]> (filter (fun '(_, g) => live_grant now g = true) m)).

Definition redeem_download_grant (id : string) (now : Z) (m : gmap string DownloadGrant) : option string * gmap string DownloadGrant :=
  match m !! id with
  | None => (None, m)
  | Some g =>
      if negb (live_grant now g) then (None, delete id m)
      else
        let left := Z.max 0 (gr_uses_left g - 1) in
        (Some (gr_path g), if left =? 0 then delete id m else <[id := mkGrant (gr_path g) (gr_created_unix g) left]> m)
  end.

(** ** The handlers *)

Definition NEVER_DOWNLOAD : list string :=
  ["vault.key"; "runtime.json"; "local_token"; "writ.db"; "writ.db-wal"; "writ.db-shm"; "ca.key"; "leaf.key"].
Definition sensitive (p : string) : bool := one_of (default "" (file_name p)) NEVER_DOWNLOAD.

Definition archive_rejected : Errors.LocalError :=
  Errors.BadRequest "not a readable Writ backup archive (wrong file, wrong passphrase, or damaged archive)".

Definition map_archive_error (e : BackupError) : Errors.LocalError :=
  match e with
  | Decrypt | BadMagic | BadManifest _ | NotFound _ | Io _ => archive_rejected
  | e => local_error e
  end.

(** A call on the disk. *)
Definition on_disk {A : Type} (c : B A) (s : Daemon) : result A BackupError * Daemon := let '(r, d) := c (disk s) in (r, set_disk d s).

Definition hex_upper (b : Z) : string :=
  let digit d := String (chr (if d <? 10 then 48 + d else 55 + d)) "" in String.append (digit (b / 16)) (digit (b mod 16)).
Definition unreserved (c : ascii) : bool := is_alnum c || one_of (String c "") ["-"; "_"; "."; "~"; "/"].
Definition urlencode (s : string) : string :=
  foldr String.append "" (map (fun c => if unreserved c then String c "" else String.append "%" (hex_upper (byte_val c))) (bytes s)).

Section api.
Context `{FsEnv} `{BackupLibs}.
(** The home. *)
Context (root : string).

(** A query's value, trimmed; an empty one is absent. *)
Definition given (v : option string) : option string := v ≫= fun s => let t := trim s in if is_empty t then None else Some t.

(** [canonicalize] *)
Definition canonicalize (s : Daemon) (p : string) : option string :=
  q ← leads_to (made_dirs s) p; if directory (made_dirs s) q || bool_decide (is_Some (files (disk s) !! q)) then Some q else None.

(** [fs::read] and the writes of a path that may not be canonical. *)
Definition target (s : Daemon) (p : string) : string := default p (leads_to (made_dirs s) p).

(** [create_dir_all]: a fault of the disk, or a directory that cannot be. *)
Definition create_dir_all (p : string) (s : Daemon) : result unit BackupError * Daemon :=
  match on_disk (disk_op (fun d => if creatable (made_dirs s) p then Ok (tt, d) else Err (Io ""))) s with
  | (Ok _, s) => (Ok tt, set_made_dirs (made_dirs s ++ [p]) s)
  | r => r
  end.

Definition resolve_dest_under_home (dest : string) (s : Daemon) : result string Errors.LocalError * Daemon :=
  let candidate := if is_absolute dest then dest else join root dest in
  match parent candidate with
  | None => (Err (Errors.BadRequest "dest has no parent directory"), s)
  | Some parent =>
      match create_dir_all parent s with
      | (Err e, s) => (Err (local_error e), s)
      | (Ok _, s) =>
          (match canonicalize s parent with
           | None => Err (Errors.BadRequest "dest parent not resolvable: ")
           | Some canon_parent =>
               match canonicalize s root with
               | None => Err (Errors.Internal "home not resolvable: ")
               | Some canon_home =>
                   if negb (under canon_parent canon_home) then Err (Errors.BadRequest "backup dest must be under the Writ home")
                   else match file_name candidate with
                        | None => Err (Errors.BadRequest "dest has no filename")
                        | Some name => Ok (join canon_parent name)
                        end
               end
           end, s)
      end
  end.

Definition resolve_existing_under_home (p : string) (s : Daemon) : result string Errors.LocalError :=
  match canonicalize s (trim p) with
  | None => Err Errors.Forbidden
  | Some canon =>
      match canonicalize s root with
      | None => Err (Errors.Internal "home not resolvable: ")
      | Some canon_home => if under canon canon_home then Ok canon else Err Errors.Forbidden
      end
  end.

(** The gates on a candidate. *)
Definition gate (candidate : string) (s : Daemon) : result string Errors.LocalError * Daemon :=
  match resolve_existing_under_home candidate s with
  | Err e => (Err e, s)
  | Ok canon =>
      if sensitive canon then (Err Errors.Forbidden, s)
      else
        match on_disk (looks_like_archive canon) s with
        | (Ok true, s) => (Ok canon, s)
        | (_, s) => (Err Errors.Forbidden, s)
        end
  end.

Definition resolve_download (id path : option string) (now : Z) (s : Daemon) : result string Errors.LocalError * Daemon :=
  match given id with
  | Some id =>
      match redeem_download_grant id now (downloads s) with
      | (Some p, m) => gate p (set_downloads m s)
      | (None, m) => (Err Errors.Forbidden, set_downloads m s)
      end
  | None =>
      match given path with
      | Some p => gate p s
      | None => (Err (Errors.BadRequest "backup download needs an `id` (from POST /v1/backup/export) or a `path`"), s)
      end
  end.

Record DownloadResponse : Type := mkDownload { dl_filename : string; dl_bytes : string }.

Definition download (id path : option string) (now : Z) (s : Daemon) : result DownloadResponse Errors.LocalError * Daemon :=
  match resolve_download id path now s with
  | (Err e, s) => (Err e, s)
  | (Ok p, s) =>
      match on_disk (read p) s with
      | (Ok b, s) => (Ok (mkDownload (default DEFAULT_BACKUP_NAME (file_name p)) b), s)
      | (Err e, s) => (Err (local_error e), s)
      end
  end.

Record ExportResponse : Type := mkExported { xr_report : ExportReport; xr_download_url : string; xr_download_id : string }.

Definition export_handler (pass : string) (dest : option string) (key seed pid version now_text random : string) (now : Z) (s : Daemon) :
    result ExportResponse Errors.LocalError * Daemon :=
  match (match given dest with
         | Some d => let '(r, s) := resolve_dest_under_home d s in (result_bind r (fun p => Ok (Some p)), s)
         | None => (Ok None, s)
         end) with
  | (Err e, s) => (Err e, s)
  | (Ok dest, s) =>
      match on_disk (Backup.export root pass key dest seed pid version now_text) s with
      | (Err e, s) => (Err (local_error e), s)
      | (Ok rep, s) =>
          let '(id, m) := mint_download_grant (ex_path rep) random now (downloads s) in
          (Ok (mkExported rep (String.append "/v1/backup/download?id=" (urlencode id)) id), set_downloads m s)
      end
  end.

(** The path of an archive to open, and where it leads. *)
Definition validate_archive_path (p : string) (s : Daemon) : result string Errors.LocalError * Daemon :=
  let path := target s (trim p) in
  if sensitive (trim p) then (Err archive_rejected, s)
  else
    match on_disk (looks_like_archive path) s with
    | (Ok true, s) => (Ok path, s)
    | (_, s) => (Err archive_rejected, s)
    end.

Definition inspect_handler (p pass : string) (s : Daemon) : result Manifest Errors.LocalError * Daemon :=
  match validate_archive_path p s with
  | (Err e, s) => (Err e, s)
  | (Ok path, s) => let '(r, s) := on_disk (Backup.inspect path pass) s in (map_err map_archive_error r, s)
  end.

Definition restore_handler (p pass key ts : string) (s : Daemon) : result RestoreReport Errors.LocalError * Daemon :=
  match validate_archive_path p s with
  | (Err e, s) => (Err e, s)
  | (Ok path, s) => let '(r, s) := on_disk (Backup.restore root path pass key ts) s in (map_err map_archive_error r, s)
  end.
End api.

(** ** What leaves *)

Section theorems.
Context `{FsEnv} `{BackupLibs}.
Context (root : string).

Lemma starts_archive (p : string) (d : Disk) : match looks_like_archive p d with
  | (Ok true, d') => files d' = files d /\ exists b, files d !! p = Some b /\ starts_with b AGE_STREAM_MAGIC = true
  | (_, d') => files d' = files d
  end.
Proof.
  unfold looks_like_archive, bbind, tried. destruct (read p d) as [r d'] eqn:Er. apply read_op_cases in Er as [Hf Hr]. cbn.
  destruct r as [b|e]; [|done]. destruct (starts_with b AGE_STREAM_MAGIC) eqn:Es; [|done]. eauto.
Qed.

(** A file that may leave: under the home, where its links lead, no sensitive name, and an archive by its first bytes. *)
Definition may_leave (s : Daemon) (p b : string) : Prop :=
  (exists home, canonicalize s root = Some home /\ under p home = true) /\ (exists q, canonicalize s q = Some p) /\
  (forall n, file_name p = Some n -> n ∉ NEVER_DOWNLOAD) /\ files (disk s) !! p = Some b /\ exists rest, b = String.append AGE_STREAM_MAGIC rest.

Lemma gate_Ok (c p : string) (s s' : Daemon) : gate root c s = (Ok p, s') ->
  files (disk s') = files (disk s) /\ downloads s' = downloads s /\ exists b, may_leave s p b.
Proof.
  unfold gate, resolve_existing_under_home. destruct (canonicalize s (trim c)) as [canon|] eqn:Ec; [|done].
  destruct (canonicalize s root) as [home|] eqn:Eh; [|done]. destruct (under canon home) eqn:Eu; [|done].
  destruct (sensitive canon) eqn:Es; [done|]. unfold on_disk. pose proof (starts_archive canon (disk s)) as Ha.
  destruct (looks_like_archive canon (disk s)) as [[[]|] d]; intros [= <- <-]. destruct Ha as [Hf (b & Hb & Hm)].
  split; [done|]. split; [done|]. exists b. split_and!; [by exists home|by exists (trim c)| |done|by apply starts_with_spec].
  intros n Hn Hin. unfold sensitive in Es. rewrite Hn in Es. cbn [from_option id] in Es. unfold one_of in Es.
  assert (Ht : any (str_eqb n) NEVER_DOWNLOAD = true); [|congruence]. apply any_true. exists n. split; [done|apply str_eqb_refl].
Qed.

(** C20: whatever the state and the request, a download serves only the bytes of a file that lies under the home once every link is followed, whose name is
    none of those of the vault root, the tokens, the database and the keys, and which begins as an archive does. With an id, the id was
    granted, less than ten minutes ago, and had uses left. *)
Theorem download_serves_archives (id path : option string) (now : Z) (s s' : Daemon) (resp : DownloadResponse) :
  download root id path now s = (Ok resp, s') ->
  (exists p, may_leave s p (dl_bytes resp)) /\
  (forall i, given id = Some i -> exists g, downloads s !! i = Some g /\ now - gr_created_unix g < DOWNLOAD_TTL_SECS /\
     (gr_uses_left g - 1 <= 0 -> downloads s' !! i = None) /\
     (0 < gr_uses_left g - 1 -> downloads s' !! i = Some (mkGrant (gr_path g) (gr_created_unix g) (gr_uses_left g - 1)))).
Proof.
  unfold download. destruct (resolve_download root id path now s) as [[p|e] s1] eqn:Er; [|done]. unfold on_disk.
  destruct (read p (disk s1)) as [[b|e] d] eqn:Eread; [|done]. intros [= <- <-]. apply read_op_cases in Eread as [_ Hb]. cbn [dl_bytes].
  unfold resolve_download in Er. destruct (given id) as [i|] eqn:Ei.
  - unfold redeem_download_grant in Er. destruct (downloads s !! i) as [g|] eqn:Eg; [|done].
    destruct (live_grant now g) eqn:El; cbn [negb] in Er; [|done]. apply gate_Ok in Er as (Hf & Hd & b' & Hm). cbn [disk set_downloads] in Hf, Hm.
    assert (b' = b) as -> by (destruct Hm as (_ & _ & _ & Hb' & _); cbn [disk set_downloads] in Hb'; rewrite <-Hf in Hb'; congruence). split; [by exists p|].
    intros i' [= <-]. exists g. split; [done|]. split; [by apply Z.ltb_lt in El|]. cbn [downloads set_disk]. rewrite Hd. cbn [downloads set_downloads].
    destruct (Z.eqb_spec (Z.max 0 (gr_uses_left g - 1)) 0); split; intros Hu; try lia; [apply lookup_delete_eq|].
    rewrite lookup_insert_eq. do 2 f_equal. lia.
  - destruct (given path) as [q|]; [|done]. apply gate_Ok in Er as (Hf & _ & b' & Hm).
    assert (b' = b) as -> by (destruct Hm as (_ & _ & _ & Hb' & _); rewrite <-Hf in Hb'; congruence). split; [by exists p|done].
Qed.

(** *** What a rejection tells *)

(** Without faults, a path that leads to no archive, for whatever reason, and one that the passphrase does not open get the same answer, if the
    passphrase is not blank. *)
Lemma rejections_alike (p pass : string) (s : Daemon) : quiet (disk s) -> is_empty (trim pass) = false ->
  (forall b pt, files (disk s) !! target s (trim p) = Some b -> age_decrypt b pass <> Some pt) ->
  fst (inspect_handler p pass s) = Err archive_rejected.
Proof.
  intros Hq Hp Hno. unfold inspect_handler, validate_archive_path. destruct (sensitive (trim p)); [done|]. unfold on_disk.
  unfold looks_like_archive, bbind, tried. destruct (files (disk s) !! target s (trim p)) as [b|] eqn:Eb.
  - rewrite (read_quiet _ b) by done. cbn. destruct (starts_with b AGE_STREAM_MAGIC); [|done].
    unfold Backup.inspect, bbind, lift, require_passphrase. rewrite Hp. unfold exists_. cbn [disk set_disk]. rewrite Eb, bool_decide_eq_true_2 by done.
    cbn [negb]. rewrite (read_quiet _ b) by done. unfold open_archive, age_open. destruct (age_decrypt b pass) as [pt|] eqn:Ea; [|done].
    by destruct (Hno b pt).
  - unfold read, disk_op. rewrite Hq, Eb. done.
Qed.
End theorems.

(** ** Examples *)

(** No links; the home is the one directory. *)
#[local] Instance demo_fs : FsEnv := {| leads_to := fun _ => Some; directory := fun made p => one_of p ("/w" :: made); creatable := fun _ _ => true |}.
#[local] Existing Instance demo_backup.

Definition demo_daemon : Daemon := mkDaemon demo_home [] ∅.

Lemma download_serves_archives_witness :
  let '(r, s) := export_handler "/w" "pass" (Some "b.age") "k1" "" "7" demo_version demo_now "x" 0 demo_daemon in
  match r with
  | Ok e => xr_download_url e = "/v1/backup/download?id=bkd_x" /\
      match download "/w" (Some "bkd_x") None 599 s with
      | (Ok resp, _) => dl_filename resp = "b.age" /\ exists p, may_leave "/w" s p (dl_bytes resp)
      | _ => False
      end
  | Err _ => False
  end.
Proof.
  destruct (export_handler "/w" "pass" (Some "b.age") "k1" "" "7" demo_version demo_now "x" 0 demo_daemon) as [[e|e] s] eqn:Ee; [|vm_compute in Ee; discriminate Ee].
  split; [vm_compute in Ee; injection Ee as <- _; reflexivity|].
  destruct (download "/w" (Some "bkd_x") None 599 s) as [[resp|e'] s'] eqn:Ed.
  - split; [vm_compute in Ee; injection Ee as _ <-; vm_compute in Ed; injection Ed as <- _; reflexivity|].
    exact (proj1 (download_serves_archives "/w" (Some "bkd_x") None 599 s s' resp Ed)).
  - vm_compute in Ee. injection Ee as _ <-. vm_compute in Ed. discriminate Ed.
Defined.

(** The destination of an export is any file of the home: the vault root is overwritten by the archive. *)
Example export_overwrites_root :
  let '(r, s) := export_handler "/w" "pass" (Some "vault.key") "k1" "" "7" demo_version demo_now "x" 0 demo_daemon in
  (if r then True else False) /\ files (disk demo_daemon) !! "/w/vault.key" = Some "root" /\
  exists rest, files (disk s) !! "/w/vault.key" = Some (String.append AGE_STREAM_MAGIC rest).
Proof. vm_compute. split_and!; [exact I|reflexivity|eexists; reflexivity]. Qed.

(** A blank passphrase tells an archive from any other file, and so that it is there. *)
Example blank_passphrase_tells :
  let s := mkDaemon (mkDisk {["/etc/a.age" := AGE_STREAM_MAGIC; "/etc/b" := "text"]} ∅ true []) [] ∅ in
  let answer p := fst (inspect_handler (H := demo_fs) p " " s) in
  answer "/etc/a.age" = Err (Errors.BadRequest "the passphrase is empty") /\ answer "/etc/b" = Err archive_rejected /\
  answer "/etc/none" = Err archive_rejected.
Proof. vm_compute. split_and!; reflexivity. Qed.

(** A destination outside of the home is refused once its directories are made. *)
Example refused_dest_made_directories :
  let '(r, s) := export_handler "/w" "pass" (Some "/etc/cron.d/x/b.age") "k1" "" "7" demo_version demo_now "x" 0 demo_daemon in
  r = Err (Errors.BadRequest "backup dest must be under the Writ home") /\ made_dirs s = ["/etc/cron.d/x"].
Proof. vm_compute. split; reflexivity. Qed.
