(* ===== verification/Files.v ===== *)
(** * local/storage/files.rs, local/store/stored_files.rs, local/api/v1/files.rs: the file store

    Rows of metadata and sealed blobs on disk. [Home] is the tables and the files that this store and its retention touch; every
    statement and file operation can fail, without effect. The envelope is that of [VaultFiles]; the digest, the directories'
    canonical paths and the random parts of names are arguments. *)

From Stdlib Require Import Ascii String.
From S2P Require Import Prelude Ints Str Store VaultRoot VaultFiles.
From S2P Require UpdateManifest RunRows LocalMonitor Backup BackupApi.
Open Scope string_scope.
Open Scope list_scope.
Open Scope Z_scope.
Open Scope store_scope.

(** ** Rows *)

Record StoredFile : Type := mkFile {
  f_id : string;
  storage_key : string;
  filename : string;
  content_type : string;
  size_bytes : Z;
  f_sha256 : option string;
  source : string;
  source_run_id : option Z;
  purpose : option string;
  f_status : string;
  expires_at : option string;
  deleted_at : option string;
  f_created_at : string;
  meta : option string;
}.

Record NewStoredFile : Type := mkNewFile {
  nf_id : string;
  nf_storage_key : string;
  nf_filename : string;
  nf_content_type : option string;
  nf_size_bytes : option Z;
  nf_sha256 : option string;
  nf_source : option string;
  nf_source_run_id : option Z;
  nf_purpose : option string;
  nf_status : option string;
  nf_expires_at : option string;
  nf_meta : option string;
}.

(** [run_artifacts], as far as its keys go: its run and its file. *)
Record RunArtifact : Type := mkArtifact { ra_run_id : Z; ra_file_id : option string }.

(** A row of [ai_preview_steps]. *)
Record PreviewStep : Type := mkPreview {
  pv_kind : string;
  pv_ref_id : Z;
  pv_step_num : Z;
  pv_thought : option string;
  pv_action : option string;
  pv_url : option string;
  pv_status : option string;
  pv_screenshot : option string;
  pv_created_at : string;
}.

(** An entry of the logs' directory; no modification time where the file system has none. *)
Record LogEntry : Type := mkLog { lg_name : string; lg_is_file : bool; lg_modified : option Z; lg_bytes : string }.

Record Home : Type := mkHome {
  (** in the order of insertion *)
  stored : list StoredFile;
  run_rows : RunRows.table;
  run_artifacts : list RunArtifact;
  change_rows : gmap Z LocalMonitor.Change;
  uptime_rows : list LocalMonitor.UptimeSample;
  preview_steps : list PreviewStep;
  disk : gmap string string;
  (** [None] where the logs' directory cannot be read *)
  logs : option (list LogEntry);
  home_faults : list bool;
}.
Definition set_stored (l : list StoredFile) (s : Home) : Home :=
  mkHome l (run_rows s) (run_artifacts s) (change_rows s) (uptime_rows s) (preview_steps s) (disk s) (logs s) (home_faults s).
Definition set_run_rows (t : RunRows.table) (s : Home) : Home :=
  mkHome (stored s) t (run_artifacts s) (change_rows s) (uptime_rows s) (preview_steps s) (disk s) (logs s) (home_faults s).
Definition set_run_artifacts (l : list RunArtifact) (s : Home) : Home :=
  mkHome (stored s) (run_rows s) l (change_rows s) (uptime_rows s) (preview_steps s) (disk s) (logs s) (home_faults s).
Definition set_change_rows (m : gmap Z LocalMonitor.Change) (s : Home) : Home :=
  mkHome (stored s) (run_rows s) (run_artifacts s) m (uptime_rows s) (preview_steps s) (disk s) (logs s) (home_faults s).
Definition set_uptime_rows (l : list LocalMonitor.UptimeSample) (s : Home) : Home :=
  mkHome (stored s) (run_rows s) (run_artifacts s) (change_rows s) l (preview_steps s) (disk s) (logs s) (home_faults s).
Definition set_preview_steps (l : list PreviewStep) (s : Home) : Home :=
  mkHome (stored s) (run_rows s) (run_artifacts s) (change_rows s) (uptime_rows s) l (disk s) (logs s) (home_faults s).
Definition set_disk (m : gmap string string) (s : Home) : Home :=
  mkHome (stored s) (run_rows s) (run_artifacts s) (change_rows s) (uptime_rows s) (preview_steps s) m (logs s) (home_faults s).
Definition set_logs (l : option (list LogEntry)) (s : Home) : Home :=
  mkHome (stored s) (run_rows s) (run_artifacts s) (change_rows s) (uptime_rows s) (preview_steps s) (disk s) l (home_faults s).
Definition set_home_faults (fs : list bool) (s : Home) : Home :=
  mkHome (stored s) (run_rows s) (run_artifacts s) (change_rows s) (uptime_rows s) (preview_steps s) (disk s) (logs s) fs.

#[export] Instance home_faulty : Faulty Home := {| faults := home_faults; set_faults := set_home_faults |}.

(** [let _ =], and an error that is logged. *)
Definition dropped {A : Type} (c : M Home A) : M Home unit := let! _ := attempt c in ret tt.

(** *** The statements of stored_files.rs; [now] is the clock of the database *)

Definition row_of (now : string) (n : NewStoredFile) : StoredFile :=
  mkFile (nf_id n) (nf_storage_key n) (nf_filename n) (default "application/octet-stream" (nf_content_type n)) (default 0 (nf_size_bytes n))
    (nf_sha256 n) (default "upload" (nf_source n)) (nf_source_run_id n) (nf_purpose n) (default "ready" (nf_status n)) (nf_expires_at n)
    None now (nf_meta n).

Definition has_id (i : string) (f : StoredFile) : bool := str_eqb (f_id f) i.
Definition live (f : StoredFile) : bool := bool_decide (deleted_at f = None).

(** An identifier that is taken, or a run that is not there, is refused. *)
Definition insert_file (now : string) (n : NewStoredFile) : M Home StoredFile :=
  let! ok := statement (fun s =>
    if any (has_id (nf_id n)) (stored s) || match nf_source_run_id n with Some r => bool_decide (run_rows s !! r = None) | None => false end
    then (false, s) else (true, set_stored (stored s ++ [row_of now n]) s)) in
  if ok : bool then ret (row_of now n) else throw DbError.

Definition get_file (i : string) : M Home (option StoredFile) := statement (fun s => (find_first (has_id i) (stored s), s)).
Definition get_active (i : string) : M Home (option StoredFile) := statement (fun s => (find_first (fun f => has_id i f && live f) (stored s), s)).

(** [ORDER BY created_at DESC, id DESC] *)
Definition newer (a b : StoredFile) : bool :=
  match String.compare (f_created_at a) (f_created_at b) with
  | Gt => true
  | Lt => false
  | Eq => match String.compare (f_id a) (f_id b) with Lt => false | _ => true end
  end.
Definition LIST_CAP : Z := 500.
Definition list_files (limit : option Z) : M Home (list StoredFile) :=
  statement (fun s => (take (Z.to_nat (clamp 1 LIST_CAP (default LIST_CAP limit))) (sort_by newer (retain live (stored s))), s)).
Definition list_by_source (src : string) (limit : option Z) : M Home (list StoredFile) :=
  statement (fun s =>
    (take (Z.to_nat (clamp 1 LIST_CAP (default LIST_CAP limit)))
       (sort_by newer (retain (fun f => str_eqb (source f) src && live f) (stored s))), s)).

(** The most recent; of rows of one instant, the first. *)
Definition no_older (a b : StoredFile) : bool := match String.compare (f_created_at a) (f_created_at b) with Lt => false | _ => true end.
Definition get_by_sha256 (h : string) : M Home (option StoredFile) :=
  statement (fun s => (head (sort_by no_older (retain (fun f => bool_decide (f_sha256 f = Some h) && live f) (stored s))), s)).

Definition retired (now : string) (f : StoredFile) : StoredFile :=
  mkFile (f_id f) (storage_key f) (filename f) (content_type f) (size_bytes f) (f_sha256 f) (source f) (source_run_id f) (purpose f) "deleted"
    (expires_at f) (Some now) (f_created_at f) (meta f).
Definition soft_delete (now i : string) : M Home bool :=
  statement (fun s =>
    (any (fun f => has_id i f && live f) (stored s),
     set_stored (map (fun f => if has_id i f && live f then retired now f else f) (stored s)) s)).

(** [update], [set_status]: a column is left where there is no value for it. *)
Definition patched (status purpose_ : option string) (size : option Z) (sha expires meta_ : option string) (f : StoredFile) : StoredFile :=
  let or (a b : option string) := match a with Some _ => a | None => b end in
  mkFile (f_id f) (storage_key f) (filename f) (content_type f) (default (size_bytes f) size) (or sha (f_sha256 f)) (source f) (source_run_id f)
    (or purpose_ (purpose f)) (default (f_status f) status) (or expires (expires_at f)) (deleted_at f) (f_created_at f) (or meta_ (meta f)).
Definition update_file (i : string) (status purpose_ : option string) (size : option Z) (sha expires meta_ : option string) : M Home (option StoredFile) :=
  statement (fun s =>
    let rows := map (fun f => if has_id i f then patched status purpose_ size sha expires meta_ f else f) (stored s) in
    (find_first (has_id i) rows, set_stored rows s)).
Definition set_status (i status : string) : M Home bool :=
  statement (fun s =>
    (any (has_id i) (stored s),
     set_stored (map (fun f => if has_id i f then patched (Some status) None None None None None f else f) (stored s)) s)).

(** The artifacts that name the file forget it. *)
Definition delete_file (i : string) : M Home bool :=
  statement (fun s =>
    (any (has_id i) (stored s),
     set_run_artifacts (map (fun a => if bool_decide (ra_file_id a = Some i) then mkArtifact (ra_run_id a) None else a) (run_artifacts s))
       (set_stored (retain (fun f => negb (has_id i f)) (stored s)) s))).

(** [ORDER BY created_at ASC, id ASC] *)
Definition older (a b : StoredFile) : bool := newer b a.
Definition list_gc_candidates (now : string) (limit : option Z) : M Home (list StoredFile) :=
  let expired f := match expires_at f with Some e => match String.compare e now with Gt => false | _ => true end | None => false end in
  statement (fun s =>
    (take (Z.to_nat (clamp 1 LIST_CAP (default LIST_CAP limit))) (sort_by older (retain (fun f => negb (live f) || expired f) (stored s))), s)).

(** ** Files *)

Definition create_dir_all (p : string) : M Home unit := faulted Io (fun s => (tt, s)).
Definition flush (p : string) : M Home unit := faulted Io (fun s => (tt, s)).
Definition set_permissions (p : string) : M Home unit := faulted Io (fun s => (tt, s)).
Definition write_file (p b : string) : M Home unit := faulted Io (fun s => (tt, set_disk (<[p := b]> (disk s)) s)).
(** [None]: there is no such file. *)
Definition read_file (p : string) : M Home (option string) := faulted Io (fun s => (disk s !! p, s)).
Definition remove_file (p : string) : M Home bool := faulted Io (fun s => (bool_decide (is_Some (disk s !! p)), set_disk (delete p (disk s)) s)).

Class FileLibs : Type := {
  digest : string -> list Z;
  (** [canonicalize] of a directory that is there *)
  canonical : string -> option string;
}.

Definition sha256_hex `{FileLibs} (b : string) : string := UpdateManifest.hex_lower (digest b).

(** The 16 random bytes of an identifier and of a key, in hex. *)
Definition new_file_id (hex : string) : string := String.append "file_" hex.
Definition new_storage_key (hex : string) : string := String.append "blob_" (String.append hex ".wfb").

Definition validate_storage_key (key : string) : result unit LocalError :=
  if is_empty key || contains key "/" || contains key "\" || contains key ".." || contains key (String (chr 0) "")
  then Err (BadRequest (String.append "unsafe storage key: " key)) else Ok tt.

Definition DEFAULT_CONTENT_TYPE : string := "application/octet-stream".

Record TempGuard : Type := mkTemp { tg_path : string; tg_len : Z }.

(** The random parts of a new file: of its identifier, of its key, and the nonce of its envelope. *)
Record Draw : Type := mkDraw { id_hex : string; key_hex : string; nonce : string }.

Section files.
Context `{VaultLibs} `{FileLibs}.
(** The home and the vault's root. *)
Context (root : string) (vault : RootKey).

Definition safe_blob_path (base_dir key : string) : M Home string :=
  let! _ := from_result (validate_storage_key key) in
  let! _ := create_dir_all base_dir in
  match canonical base_dir with
  | None => throw (Internal "storage base not resolvable: ")
  | Some canon_base =>
      let candidate := BackupApi.join canon_base key in
      if negb (BackupApi.under candidate canon_base) then throw (BadRequest "storage path escapes store dir") else ret candidate
  end.

Definition store_dir_for_source (src : string) : string :=
  if str_eqb src "workflow_output" then BackupApi.join (Backup.artifacts_dir root) "workflow_output" else Backup.files_dir root.

Definition storage_path_for_key (src key : string) : M Home string := safe_blob_path (store_dir_for_source src) key.

Definition write_blob_0600 (p b : string) : M Home unit :=
  let! _ := match BackupApi.parent p with Some d => create_dir_all d | None => ret tt end in
  let! _ := write_file p b in
  set_permissions p.

Definition new_row (d : Draw) (bytes name : string) (ct : option string) (src : string) (run : option Z) : NewStoredFile :=
  mkNewFile (new_file_id (id_hex d)) (new_storage_key (key_hex d)) name
    (Some (match ct with Some c => if is_empty c then DEFAULT_CONTENT_TYPE else c | None => DEFAULT_CONTENT_TYPE end))
    (Some (str_len bytes)) (Some (sha256_hex bytes)) (Some src) run None (Some "ready") None None.

(** A new blob and its row. *)
Definition store_new (now : string) (d : Draw) (bytes name : string) (ct : option string) (src : string) (run : option Z) : M Home StoredFile :=
  let n := new_row d bytes name ct src run in
  let! blob := from_result (encrypt_file vault (nonce d) bytes) in
  let! path := storage_path_for_key src (nf_storage_key n) in
  let! _ := write_blob_0600 path blob in
  let! made := attempt (insert_file now n) in
  match made with
  | Ok row => ret row
  | Err e => let! _ := dropped (remove_file path) in throw e
  end.

Definition create_file_inner (now : string) (d : Draw) (bytes name : string) (ct : option string) (src : string) (run : option Z) : M Home StoredFile :=
  let! found := get_by_sha256 (sha256_hex bytes) in
  match found with
  | Some f => if str_eqb (source f) src && live f then ret f else store_new now d bytes name ct src run
  | None => store_new now d bytes name ct src run
  end.

Definition create_file (now : string) (d : Draw) (bytes name : string) (ct : option string) (src : string) : M Home StoredFile :=
  create_file_inner now d bytes name ct src None.

(** The bytes of a row that is live. *)
Definition read_row (i : string) (f : StoredFile) : M Home string :=
  let! path := storage_path_for_key (source f) (storage_key f) in
  let! blob := read_file path in
  match blob with
  | None => throw (NotFound (String.append "file " (String.append i " bytes missing on disk")))
  | Some b => from_result (open_file vault b)
  end.

Definition active (i : string) : M Home StoredFile :=
  let! f := get_active i in
  match f with Some f => ret f | None => throw (NotFound (String.append "file " i)) end.

Definition read_file_bytes (i : string) : M Home string := let! f := active i in read_row i f.

(** A bare name. *)
Definition bare (ok : string -> bool) (d name : string) : string :=
  match BackupApi.file_name name with Some n => if ok n then n else d | None => d end.

Definition local_path_for_run (run : Z) (suggested : string) : M Home string :=
  let dir := BackupApi.join (BackupApi.join (Backup.artifacts_dir root) "workflow_output") (String.append "run_" (Z_to_string run)) in
  let! _ := create_dir_all dir in
  ret (BackupApi.join dir (bare (fun n => negb (is_empty n) && negb (contains n "..")) "output.bin" suggested)).

Definition capture_output (now : string) (d : Draw) (temp name : string) (ct : option string) (run : Z) : M Home StoredFile :=
  let! bytes := read_file temp in
  match bytes with
  | None => throw Io
  | Some bytes =>
      let! row := create_file_inner now d bytes name ct "workflow_output" (Some run) in
      let! _ := dropped (remove_file temp) in
      ret row
  end.

(** *** Plaintext for a run *)

(** The sizes of the writes of a wipe: 64 KiB, and the rest. *)
Definition wipe_sizes (len : Z) : list Z :=
  let n := 64 * 1024 in repeat n (Z.to_nat (len / n)) ++ (if len mod n =? 0 then [] else [len mod n]).
Definition zeros (n : Z) : string := of_bytes (repeat (chr 0) (Z.to_nat n)).

(** The writes from an offset on; the first that fails ends them. *)
Fixpoint wipe (p : string) (at_ : Z) (sizes : list Z) : M Home unit :=
  match sizes with
  | [] => ret tt
  | n :: sizes =>
      let! _ := faulted Io (fun s =>
        (tt, match disk s !! p with
             | Some b => set_disk (<[p := String.append (str_take (Z.to_nat at_) b) (String.append (zeros n) (str_drop (Z.to_nat (at_ + n)) b))]> (disk s)) s
             | None => s
             end)) in
      wipe p (at_ + n) sizes
  end.

(** [Drop for TempGuard] *)
Definition drop_guard (g : TempGuard) : M Home unit :=
  let! _ :=
    (if 0 <? tg_len g then
       let! opened := attempt (read_file (tg_path g)) in
       match opened with
       | Ok (Some _) => let! _ := dropped (wipe (tg_path g) 0 (wipe_sizes (tg_len g))) in dropped (flush (tg_path g))
       | _ => ret tt
       end
     else ret tt) in
  dropped (remove_file (tg_path g)).

Definition mat_dir (suffix : string) : string :=
  BackupApi.join (BackupApi.join (Backup.artifacts_dir root) "input_tmp") (String.append "mat_" suffix).

Definition materialize_for_run (suffix i : string) : M Home (string * TempGuard) :=
  let! row := active i in
  let! bytes := read_file_bytes i in
  let dir := mat_dir suffix in
  let! _ := create_dir_all dir in
  let! _ := set_permissions dir in
  let ok n := negb (is_empty n) && negb (contains n "..") && negb (contains n "/") && negb (contains n "\") in
  let path := BackupApi.join dir (bare ok "input.bin" (filename row)) in
  let! _ := write_blob_0600 path bytes in
  ret (path, mkTemp path (str_len bytes)).

(** ** local/api/v1/files.rs *)

Definition DEFAULT_LIMIT : Z := 100.
Definition MAX_LIMIT : Z := 500.
Definition MAX_UPLOAD_BYTES : Z := 50 * 1024 * 1024.

Definition limit (q : option Z) : Z := clamp 1 MAX_LIMIT (default DEFAULT_LIMIT q).

Definition get_one (i : string) : M Home StoredFile := active i.

(** The rows that the listing sends. *)
Definition list_handler (src : option string) (q : option Z) : M Home (list StoredFile) :=
  match src with
  | Some src => list_by_source src (Some (limit q))
  | None => list_files (Some (limit q))
  end.

(** A part of a multipart body: its name and file name, its type and its chunks, the last of which may be an error. *)
Record Part : Type := mkPart { pt_name : option string; pt_filename : option string; pt_content_type : option string; pt_chunks : list (result string string) }.

(** The chunks of a file part, under the ceiling. *)
Fixpoint take_chunks (data : string) (cs : list (result string string)) : result string LocalError :=
  match cs with
  | [] => Ok data
  | Err e :: _ => Err (BadRequest (String.append "reading file part failed: " e))
  | Ok c :: cs =>
      if MAX_UPLOAD_BYTES <? str_len data + str_len c then
        Err (BadRequest (String.append "upload exceeds " (String.append (Z_to_string MAX_UPLOAD_BYTES) " bytes")))
      else take_chunks (String.append data c) cs
  end.
(** [text] *)
Fixpoint part_text (data : string) (cs : list (result string string)) : result string LocalError :=
  match cs with
  | [] => Ok data
  | Err e :: _ => Err (BadRequest (String.append "reading source part failed: " e))
  | Ok c :: cs => part_text (String.append data c) cs
  end.

Record Uploaded : Type := mkUploaded { up_bytes : option string; up_filename : string; up_content_type : option string; up_source : string }.

Definition take_part (p : Part) (u : Uploaded) : result Uploaded LocalError :=
  let name := default "" (pt_name p) in
  if bool_decide (is_Some (pt_filename p)) || str_eqb name "file" then
    result_bind (take_chunks "" (pt_chunks p)) (fun data =>
    Ok (mkUploaded (Some data) (default (up_filename u) (pt_filename p)) (pt_content_type p) (up_source u)))
  else if str_eqb name "source" then
    result_bind (part_text "" (pt_chunks p)) (fun txt =>
    let txt := trim txt in
    Ok (if BackupApi.one_of txt ["upload"; "api"; "workflow_output"]
        then mkUploaded (up_bytes u) (up_filename u) (up_content_type u) txt else u))
  else Ok u.

Fixpoint take_parts (ps : list (result Part string)) (u : Uploaded) : result Uploaded LocalError :=
  match ps with
  | [] => Ok u
  | Err e :: _ => Err (BadRequest (String.append "multipart read failed: " e))
  | Ok p :: ps => result_bind (take_part p u) (take_parts ps)
  end.

Definition upload (now : string) (d : Draw) (ps : list (result Part string)) : M Home StoredFile :=
  let! u := from_result (take_parts ps (mkUploaded None "" None "upload")) in
  match up_bytes u with
  | None => throw (BadRequest "no file part in multipart body")
  | Some bytes =>
      let name := if is_empty (up_filename u) then "upload.bin" else up_filename u in
      create_file now d bytes (bare (fun n => negb (is_empty n)) "upload.bin" name) (up_content_type u) (up_source u)
  end.

(** [char::is_control], of an encoded character. *)
Definition is_control (c : string) : bool :=
  match bytes c with
  | [b] => (byte_val b <? 32) || (byte_val b =? 127)
  | [a; b] => (byte_val a =? 194) && (byte_val b <? 160)
  | _ => false
  end.
Definition QUOTE : string := String (chr 34) "".
Definition safe_name (n : string) : string :=
  foldr String.append "" (retain (fun c => negb (is_control c) && negb (str_eqb c QUOTE) && negb (str_eqb c "\")) (chars n)).
(** [HeaderValue] of a text. *)
Definition header_ok (v : string) : bool := all (fun c => (byte_val c =? 9) || ((32 <=? byte_val c) && negb (byte_val c =? 127))) (bytes v).

Record FileResponse : Type := mkResponse { rp_content_type : string; rp_disposition : string; rp_body : string }.

Definition download (i : string) : M Home FileResponse :=
  let! row := active i in
  let! bytes := read_file_bytes i in
  let disposition := String.append "attachment; filename=" (String.append QUOTE (String.append (safe_name (filename row)) QUOTE)) in
  if header_ok (content_type row) && header_ok disposition then ret (mkResponse (content_type row) disposition bytes)
  else throw (Internal "building file response: failed to parse header value").

Definition remove (now i : string) : M Home string :=
  let! removed := soft_delete now i in
  if removed : bool then ret i else throw (NotFound (String.append "file " i)).
End files.

(** ** Where the bytes of a row are *)

Section paths.
Context `{FileLibs}.
Context (root : string).

Definition path_for (src key : string) : option string :=
  match validate_storage_key key with
  | Err _ => None
  | Ok _ =>
      cb ← canonical (store_dir_for_source root src);
      if BackupApi.under (BackupApi.join cb key) cb then Some (BackupApi.join cb key) else None
  end.
Definition path_of (f : StoredFile) : option string := path_for (source f) (storage_key f).

Lemma slash_free_app (a b k l : list ascii) (c : ascii) : c ∉ k -> c ∉ l ->
  (a = [] \/ exists a', a = a' ++ [c]) -> (b = [] \/ exists b', b = b' ++ [c]) -> a ++ k = b ++ l -> k = l.
Proof.
  assert (Hgo : forall a k l x : list ascii, c ∉ l -> (a = [] \/ exists a', a = a' ++ [c]) -> forall b, a = b ++ x -> l = x ++ k -> k = l).
  { intros a0 k0 l0 x Hl Ha b0 Hab ->. destruct x as [|y x _] using rev_ind; [done|]. destruct Ha as [->|[a' ->]].
    - by destruct b0; [destruct x|].
    - rewrite app_assoc in Hab. apply app_inj_tail in Hab as [_ ->]. set_solver. }
  intros Hk Hl Ha Hb He. apply app_eq_inv in He as [(x & Hx & ->)|(x & Hx & ->)].
  - by eapply (Hgo a k (x ++ k) x).
  - symmetry. by eapply (Hgo b l (x ++ l) x).
Qed.

Lemma valid_key_free (key : string) : validate_storage_key key = Ok tt -> "/"%char ∉ bytes key.
Proof.
  unfold validate_storage_key. destruct (_ || _) eqn:E; [done|]. intros _ Hin. repeat apply orb_false_elim in E as [E ?].
  assert (Hc : contains key "/" = true); [|congruence]. clear -Hin. induction key as [|c key IH]; [by apply not_elem_of_nil in Hin|].
  unfold contains in *. cbn [bytes list_ascii_of_string] in Hin. cbn [find_str].
  destruct (starts_with (String c key) "/") eqn:Es; [done|]. apply elem_of_cons in Hin as [<-|Hin].
  - exfalso. unfold starts_with in Es. cbn in Es. done.
  - specialize (IH Hin). by destruct (find_str key "/").
Qed.

(** A joined path: what is before the key is empty or ends in a slash. *)
Lemma joined_split (d key : string) : validate_storage_key key = Ok tt ->
  exists a, bytes (BackupApi.join d key) = a ++ bytes key /\ (a = [] \/ exists a', a = a' ++ ["/"%char]).
Proof.
  intros Hk. pose proof (valid_key_free key Hk) as Hf. unfold BackupApi.join, BackupApi.is_absolute.
  destruct (starts_with key "/") eqn:Es.
  { apply starts_with_spec in Es as [r ->]. exfalso. apply Hf. left. }
  destruct (is_empty d) eqn:Ed; cbn [orb].
  { apply is_empty_spec in Ed as ->. exists []. by split; [|left]. }
  destruct (ends_with d "/") eqn:Ew.
  - exists (bytes d). split; [apply bytes_append|right]. apply ends_with_spec in Ew as [a ->]. exists (bytes a). by rewrite bytes_append.
  - exists (bytes d ++ ["/"%char]). split; [|by right; exists (bytes d)]. rewrite bytes_append. cbn [String.append]. unfold bytes at 2.
    cbn [list_ascii_of_string]. by rewrite <-app_assoc.
Qed.

Lemma path_for_key (src src' key key' p : string) : path_for src key = Some p -> path_for src' key' = Some p -> key = key'.
Proof.
  unfold path_for. destruct (validate_storage_key key) as [[]|] eqn:Ek; [|done]. destruct (validate_storage_key key') as [[]|] eqn:Ek'; [|done].
  destruct (canonical (store_dir_for_source root src)) as [d|]; [|done]. destruct (canonical (store_dir_for_source root src')) as [d'|]; [|done].
  cbn. destruct (BackupApi.under _ d); [|done]. destruct (BackupApi.under _ d'); [|done]. intros [= <-] [= He]. destruct (joined_split d key Ek) as (a & Ha & Hs). destruct (joined_split d' key' Ek') as (a' & Ha' & Hs').
  assert (Hb : bytes key = bytes key').
  { eapply (slash_free_app a a'); [by apply valid_key_free|by apply valid_key_free|exact Hs|exact Hs'|]. by rewrite <-Ha, <-Ha', He. }
  apply (f_equal string_of_list_ascii) in Hb. unfold bytes in Hb. by rewrite !string_of_list_ascii_of_string in Hb.
Qed.
End paths.

(** ** What operations keep *)

Definition fault_blind (I : Home -> Prop) : Prop := forall s fs, I s -> I (set_home_faults fs s).
Definition keeps_any {A : Type} (I : Home -> Prop) (c : M Home A) : Prop := keeps I c (fun _ => True).

Section keeping.
Context (I : Home -> Prop) (Hb : fault_blind I).

Lemma keeps_op {A : Type} (e : LocalError) (f : Home -> A * Home) (Q : A -> Prop) :
  (forall s, I s -> I (snd (f s)) /\ Q (fst (f s))) -> keeps I (faulted e f) Q.
Proof. intros Hf. apply keeps_faulted; [exact Hb|exact Hf]. Qed.

Lemma keeps_op_any {A : Type} (e : LocalError) (f : Home -> A * Home) : (forall s, I s -> I (snd (f s))) -> keeps_any I (faulted e f).
Proof. intros Hf. apply keeps_op. auto. Qed.

Lemma keeps_look {A : Type} (e : LocalError) (f : Home -> A) : keeps_any I (faulted e (fun s => (f s, s))).
Proof. by apply keeps_op_any. Qed.

Lemma keeps_ret_any {A : Type} (a : A) : keeps_any I (ret a).
Proof. by apply keeps_ret. Qed.

Lemma keeps_throw_any {A : Type} (e : LocalError) : keeps_any I (throw (A := A) e).
Proof. apply keeps_throw. Qed.

Lemma keeps_bind_any {A B : Type} (c : M Home A) (k : A -> M Home B) : keeps_any I c -> (forall a, keeps_any I (k a)) -> keeps_any I (bind c k).
Proof. intros Hc Hk. eapply keeps_bind; [exact Hc|]. intros a _. apply Hk. Qed.

Lemma keeps_attempt_any {A : Type} (c : M Home A) : keeps_any I c -> keeps_any I (attempt c).
Proof. intros Hc. eapply keeps_weaken; [|by apply keeps_attempt]. done. Qed.

Lemma keeps_dropped {A : Type} (c : M Home A) : keeps_any I c -> keeps_any I (dropped c).
Proof. intros Hc. apply keeps_bind_any; [by apply keeps_attempt_any|]. intros a. apply keeps_ret_any. Qed.

Lemma keeps_from_result {A : Type} (r : result A LocalError) : keeps I (from_result r) (fun a => r = Ok a).
Proof. destruct r; [by apply keeps_ret|apply keeps_throw]. Qed.

Lemma keeps_path `{FileLibs} (root src key : string) : keeps I (storage_path_for_key root src key) (fun p => path_for root src key = Some p).
Proof.
  unfold storage_path_for_key, safe_blob_path, path_for. eapply keeps_bind; [apply keeps_from_result|]. intros [] ->.
  eapply keeps_bind; [apply keeps_look|]. intros [] _. destruct (canonical _); [|apply keeps_throw]. cbn.
  destruct (BackupApi.under _ _); [by apply keeps_ret|apply keeps_throw].
Qed.

Lemma keeps_write_blob (p b : string) : (forall s, I s -> I (set_disk (<[p := b]> (disk s)) s)) -> keeps_any I (write_blob_0600 p b).
Proof.
  intros Hw. apply keeps_bind_any; [destruct (BackupApi.parent p); [apply keeps_look|apply keeps_ret_any]|]. intros _.
  apply keeps_bind_any; [by apply keeps_op_any|]. intros _. apply keeps_look.
Qed.
End keeping.

(** ** The rows and the bytes

    Identifiers and keys are distinct, and what opens at the place of a row has the digest of that row; [i] and [h] are a handle and the
    digest of what it was given for. *)

Definition core (f : StoredFile) : string * string * string * option string := (f_id f, storage_key f, source f, f_sha256 f).

Section holds.
Context `{FileLaws} `{FileLibs}.
Context (root : string) (vault : RootKey) (i h : string).

Record files_ok (s : Home) : Prop := {
  ids_distinct : NoDup (map f_id (stored s));
  keys_distinct : NoDup (map storage_key (stored s));
  blobs_match : forall f p b x, f ∈ stored s -> path_of root f = Some p -> disk s !! p = Some b -> open_file vault b = Ok x ->
    f_sha256 f = Some (sha256_hex x);
  handle_kept : forall f, f ∈ stored s -> f_id f = i -> f_sha256 f = Some h;
}.

Lemma core_sublist (l k : list StoredFile) : map core l `sublist_of` map core k ->
  map f_id l `sublist_of` map f_id k /\ map storage_key l `sublist_of` map storage_key k /\
  forall f, f ∈ l -> exists g, g ∈ k /\ core g = core f.
Proof.
  intros Hl. split; [|split].
  - pose proof (map_map core (fun c => fst (fst (fst c)))) as Hc. cbn in Hc. change (map f_id) with (map (fun x => f_id x)). rewrite <-!Hc.
    by apply fmap_sublist.
  - pose proof (map_map core (fun c => snd (fst (fst c)))) as Hc. cbn in Hc. change (map storage_key) with (map (fun x => storage_key x)). rewrite <-!Hc.
    by apply fmap_sublist.
  - intros f Hf. assert (Hc : core f ∈ map core k) by (eapply elem_of_sublist; [by apply (list_elem_of_fmap_2 core)|exact Hl]).
    apply list_elem_of_fmap in Hc as (g & Hg & Hin). by exists g.
Qed.

Lemma files_ok_shrink (s s' : Home) : files_ok s -> map core (stored s') `sublist_of` map core (stored s) ->
  (forall f p b, f ∈ stored s' -> path_of root f = Some p -> disk s' !! p = Some b -> disk s !! p = Some b) -> files_ok s'.
Proof.
  intros [Hi Hk Hm Hh] Hs Hd. apply core_sublist in Hs as (Hi2 & Hk2 & Hf2). split.
  - eapply sublist_NoDup; [exact Hi|done].
  - eapply sublist_NoDup; [exact Hk|done].
  - intros f p b x Hf Hp Hb Ho. destruct (Hf2 f Hf) as (g & Hg & [= _ Hkey Hsrc Hsha]). rewrite <-Hsha. eapply (Hm g p b x); [done| |by eapply Hd|done].
    unfold path_of. by rewrite Hkey, Hsrc.
  - intros f Hf Hfi. destruct (Hf2 f Hf) as (g & Hg & [= Hgi _ _ Hsha]). rewrite <-Hsha. apply Hh; [done|congruence].
Qed.

Lemma files_ok_blind : fault_blind files_ok.
Proof. intros s fs Hs. by eapply files_ok_shrink. Qed.

(** An operation that leaves the rows, and changes no bytes of theirs but by removing them. *)
Lemma keeps_disk {A : Type} (e : LocalError) (f : Home -> A * Home) :
  (forall s, stored (snd (f s)) = stored s) ->
  (forall s g p b, g ∈ stored s -> path_of root g = Some p -> disk (snd (f s)) !! p = Some b -> disk s !! p = Some b) ->
  keeps_any files_ok (faulted e f).
Proof.
  intros Hr Hd. apply keeps_op_any; [apply files_ok_blind|]. intros s Hs. eapply files_ok_shrink; [exact Hs|by rewrite Hr|].
  rewrite Hr. apply Hd.
Qed.

Lemma keeps_remove_file (p : string) : keeps_any files_ok (remove_file p).
Proof. apply keeps_disk; [done|]. intros s g q b _ _. cbn. rewrite lookup_delete_Some. by intros [_ ?]. Qed.

Lemma map_core (f : StoredFile -> StoredFile) (l : list StoredFile) : (forall x, core (f x) = core x) -> map core (map f l) = map core l.
Proof. intros Hf. rewrite map_map. by apply map_ext. Qed.

Lemma keeps_rows {A : Type} (e : LocalError) (f : Home -> A * Home) :
  (forall s, map core (stored (snd (f s))) `sublist_of` map core (stored s)) -> (forall s, disk (snd (f s)) = disk s) ->
  keeps_any files_ok (faulted e f).
Proof.
  intros Hr Hd. apply keeps_op_any; [apply files_ok_blind|]. intros s Hs. eapply files_ok_shrink; [exact Hs|apply Hr|]. intros g p b _ _. by rewrite Hd.
Qed.

Lemma keeps_soft_delete (now j : string) : keeps_any files_ok (soft_delete now j).
Proof. apply keeps_rows; [|done]. intros s. cbn. rewrite map_core; [done|]. intros x. by destruct (_ && _). Qed.

Lemma keeps_delete_file (j : string) : keeps_any files_ok (delete_file j).
Proof. apply keeps_rows; [|done]. intros s. cbn. apply (fmap_sublist core), retain_sublist. Qed.

(** *** A new file *)

Definition drawn_new (d : Draw) (s : Home) : Prop :=
  new_file_id (id_hex d) ∉ map f_id (stored s) /\ new_storage_key (key_hex d) ∉ map storage_key (stored s) /\
  new_file_id (id_hex d) <> i /\ String.length (nonce d) = 24%nat.
Definition ready (d : Draw) (s : Home) : Prop := files_ok s /\ drawn_new d s.

Lemma ready_blind (d : Draw) : fault_blind (ready d).
Proof. intros s fs [Hs Hf]. split; [by apply files_ok_blind|exact Hf]. Qed.

(** The blob is written, at a place of its own. *)
Definition written (d : Draw) (p b : string) (s : Home) : Prop := ready d s /\ disk s !! p = Some b.

Lemma hoare_write_blob (d : Draw) (src p b : string) : path_for root src (new_storage_key (key_hex d)) = Some p ->
  hoare (ready d) (write_blob_0600 p b) (fun _ => written d p b) (ready d).
Proof.
  intros Hp. unfold write_blob_0600. eapply hoare_bind with (R := fun _ => ready d).
  { apply (hoare_conseq _ (ready d) (ready d) (ready d) (ready d) (fun _ => ready d) (fun _ s => ready d s /\ True)); [|done|naive_solver|done].
    destruct (BackupApi.parent p); [apply keeps_look, ready_blind|apply keeps_ret_any]. }
  intros []. eapply hoare_bind with (R := fun _ => written d p b).
  - apply hoare_faulted; [intros s fs Hr; by apply ready_blind|done|]. intros s [Hs Hf]. cbn. split; [split; [|exact Hf]|cbn; apply lookup_insert_eq].
    eapply files_ok_shrink; [exact Hs|done|]. intros f q x Hin Hq. cbn. rewrite lookup_insert_Some. intros [[<- <-]|[_ ?]]; [|done].
    exfalso. destruct Hf as (_ & Hk & _). apply Hk. pose proof (path_for_key _ _ _ _ _ _ Hq Hp) as <-. by apply (list_elem_of_fmap_2 storage_key).
  - intros []. apply hoare_faulted; [|by intros s [? _]|done]. intros s fs [Hr Hd]. split; [by apply ready_blind|exact Hd].
Qed.

Lemma hoare_insert (d : Draw) (now bytes name : string) (ct : option string) (src : string) (run : option Z) (p b : string) :
  encrypt_file vault (nonce d) bytes = Ok b -> path_for root src (new_storage_key (key_hex d)) = Some p ->
  hoare (written d p b) (insert_file now (new_row d bytes name ct src run))
    (fun f s => files_ok s /\ f ∈ stored s /\ f_sha256 f = Some (sha256_hex bytes)) (ready d).
Proof.
  intros He Hp. unfold insert_file. set (n := new_row d bytes name ct src run).
  eapply hoare_bind with (R := fun (ok : bool) s =>
    if ok then files_ok s /\ row_of now n ∈ stored s /\ f_sha256 (row_of now n) = Some (sha256_hex bytes) else ready d s).
  - apply hoare_faulted; [intros s fs [Hr Hd]; split; [by apply ready_blind|exact Hd]|by intros s [? _]|]. intros s [[Hs Hf] Hd].
    destruct (_ || _); cbn [fst snd]; [by split|]. destruct Hf as (Hi & Hk & Hne & Hn). split; [|split; [cbn; set_solver|done]]. destruct Hs as [Hii Hkk Hmm Hhh].
    pose proof (open_sealed _ _ _ _ Hn He) as Ho. split; cbn [stored set_stored disk].
    + rewrite map_app. cbn [map]. apply NoDup_app. split; [done|]. split; [|apply NoDup_singleton]. intros x Hx ->%list_elem_of_singleton. by apply Hi.
    + rewrite map_app. cbn [map]. apply NoDup_app. split; [done|]. split; [|apply NoDup_singleton]. intros x Hx ->%list_elem_of_singleton. by apply Hk.
    + intros f q x y [Hin| ->%list_elem_of_singleton]%elem_of_app Hq Hx Hy; [by eapply Hmm|]. change (path_for root src (new_storage_key (key_hex d)) = Some q) in Hq. rewrite Hp in Hq. injection Hq as <-.
      rewrite Hd in Hx. injection Hx as <-. rewrite Ho in Hy. injection Hy as <-. done.
    + intros f [Hin| ->%list_elem_of_singleton]%elem_of_app Hfi; [by apply Hhh|]. by destruct Hne.
  - intros []; [by apply hoare_ret|by apply hoare_throw].
Qed.

(** A digest that is found is of a row that is there. *)
Lemma hoare_by_sha256 (P : Home -> Prop) (Hb : fault_blind P) (x : string) :
  hoare P (get_by_sha256 x) (fun found s => P s /\ forall f, found = Some f -> f ∈ stored s /\ f_sha256 f = Some x) P.
Proof.
  apply hoare_faulted; [exact Hb|done|]. intros s Hs. cbn [fst snd]. split; [done|]. intros f Hf. apply head_Some_elem_of in Hf.
  apply sort_by_elem, elem_of_retain in Hf as [Hf Hin]. apply andb_prop in Hf as [Hf _]. by apply bool_decide_eq_true in Hf.
Qed.

(** What the creation of a file leaves: the row, of the digest of the bytes. *)
Definition given_for (bytes : string) (f : StoredFile) (s : Home) : Prop :=
  files_ok s /\ f ∈ stored s /\ f_sha256 f = Some (sha256_hex bytes).

Lemma hoare_store_new (d : Draw) (now bytes name : string) (ct : option string) (src : string) (run : option Z) :
  hoare (ready d) (store_new root vault now d bytes name ct src run) (given_for bytes) files_ok.
Proof.
  unfold store_new. destruct (encrypt_file vault (nonce d) bytes) as [blob|e] eqn:He; [|intros s [Hs _]; exact Hs].
  eapply hoare_bind with (R := fun b s => b = blob /\ ready d s); [by apply hoare_ret|]. intros b.
  eapply hoare_bind with (R := fun p s => ready d s /\ b = blob /\ path_for root src (new_storage_key (key_hex d)) = Some p).
  { intros s [-> Hs]. pose proof (keeps_path (ready d) (ready_blind d) root src (new_storage_key (key_hex d)) s Hs) as Hp. unfold nf_storage_key, new_row.
    destruct (storage_path_for_key _ _ _ s) as [[p|e] s']; [naive_solver|apply Hp]. }
  intros p. eapply hoare_bind with (R := fun _ s => b = blob /\ path_for root src (new_storage_key (key_hex d)) = Some p /\ written d p blob s).
  { intros s (Hs & -> & Hp). pose proof (hoare_write_blob d src p blob Hp s Hs) as Hw. destruct (write_blob_0600 p blob s) as [[[]|e] s']; [done|apply Hw]. }
  intros []. eapply hoare_bind with (R := fun r s => match r with Ok f => given_for bytes f s | Err _ => files_ok s end).
  { intros s (-> & Hp & Hs). pose proof (hoare_insert d now bytes name ct src run p blob He Hp s Hs) as Hi. unfold attempt.
    destruct (insert_file _ _ s) as [[f|e] s']; [done|apply Hi]. }
  intros [f|e]; [by apply hoare_ret|]. eapply hoare_bind with (R := fun _ => files_ok); [|intros a; by apply hoare_throw].
  eapply hoare_conseq; [apply keeps_dropped, keeps_remove_file|done|naive_solver|done].
Qed.

Lemma hoare_create (d : Draw) (now bytes name : string) (ct : option string) (src : string) (run : option Z) :
  hoare (ready d) (create_file_inner root vault now d bytes name ct src run) (given_for bytes) files_ok.
Proof.
  unfold create_file_inner.
  eapply hoare_bind with (R := fun found s => ready d s /\ forall f, found = Some f -> f ∈ stored s /\ f_sha256 f = Some (sha256_hex bytes)).
  { eapply hoare_conseq; [apply (hoare_by_sha256 (ready d)), ready_blind|done|done|by intros s [? _]]. }
  intros [f|]; [destruct (_ && _); [apply hoare_ret; intros t [[Ht _] Hf]; by split; [|apply Hf]|]|];
    (eapply hoare_conseq; [apply hoare_store_new|by intros t [? _]|done|done]).
Qed.

(** *** The other operations *)

Lemma keeps_hoare {A : Type} (c : M Home A) (P : Home -> Prop) (Q : A -> Home -> Prop) :
  hoare P c Q files_ok -> (forall a s, Q a s -> files_ok s) -> forall s, P s -> files_ok (snd (c s)).
Proof. intros Hc HQ s Hs. specialize (Hc s Hs). destruct (c s) as [[a|e] s']; [by eapply HQ|done]. Qed.

Lemma hoare_capture (d : Draw) (now temp name : string) (ct : option string) (run : Z) :
  hoare (ready d) (capture_output root vault now d temp name ct run) (fun _ => files_ok) files_ok.
Proof.
  unfold capture_output. eapply hoare_bind with (R := fun _ => ready d).
  { eapply hoare_conseq; [apply (keeps_look (ready d)), ready_blind|done|naive_solver|by intros s [? _]]. }
  intros [bytes|]; [|intros s [Hs _]; exact Hs]. eapply hoare_bind; [apply hoare_create|]. intros f.
  eapply hoare_bind with (R := fun _ => files_ok); [|intros a; by apply hoare_ret].
  eapply hoare_conseq; [apply keeps_dropped, keeps_remove_file|by intros s [? _]|naive_solver|done].
Qed.

Lemma hoare_upload (d : Draw) (now : string) (ps : list (result Part string)) :
  hoare (ready d) (upload root vault now d ps) (fun _ => files_ok) files_ok.
Proof.
  unfold upload. destruct (take_parts _ _) as [u|e]; [|intros s [Hs _]; exact Hs]. eapply hoare_bind with (R := fun _ => ready d); [by apply hoare_ret|].
  intros v. destruct (up_bytes v) as [bs|]; [|intros s [Hs _]; exact Hs]. eapply hoare_conseq; [apply hoare_create|done|by intros a s [? _]|done].
Qed.

(** A place that is no row's. *)
Definition aside (p : string) (s : Home) : Prop := forall f, f ∈ stored s -> path_of root f <> Some p.
Definition clear_of (ps : string -> Prop) (s : Home) : Prop := files_ok s /\ forall p, ps p -> aside p s.

Lemma clear_blind (ps : string -> Prop) : fault_blind (clear_of ps).
Proof. intros s fs [Hs Hp]. split; [by apply files_ok_blind|exact Hp]. Qed.

Lemma clear_write (ps : string -> Prop) (p b : string) (s : Home) : ps p -> clear_of ps s -> clear_of ps (set_disk (<[p := b]> (disk s)) s).
Proof.
  intros Hp [Hs Ha]. split; [|exact Ha]. eapply files_ok_shrink; [exact Hs|done|]. intros f q x Hf Hq. cbn. rewrite lookup_insert_Some.
  intros [[<- <-]|[_ ?]]; [|done]. by destruct (Ha p Hp f Hf).
Qed.

Lemma keeps_active (I : Home -> Prop) (Hb : fault_blind I) (j : string) : keeps_any I (active j).
Proof. apply keeps_bind_any; [by apply keeps_look|]. intros [f|]; [by apply keeps_ret_any|apply keeps_throw_any]. Qed.

Lemma keeps_read_bytes (I : Home -> Prop) (Hb : fault_blind I) (j : string) : keeps_any I (read_file_bytes root vault j).
Proof.
  apply keeps_bind_any; [by apply keeps_active|]. intros f. apply keeps_bind_any; [eapply keeps_weaken; [|by apply keeps_path]; done|]. intros p.
  apply keeps_bind_any; [by apply keeps_look|]. intros [b|]; [|apply keeps_throw_any]. eapply keeps_weaken; [|apply keeps_from_result]. done.
Qed.

Lemma keeps_materialize (suffix j : string) :
  keeps_any (clear_of (fun p => exists n, contains n "/" = false /\ p = BackupApi.join (mat_dir root suffix) n)) (materialize_for_run root vault suffix j).
Proof.
  unfold materialize_for_run. pose proof (clear_blind (fun p => exists n, contains n "/" = false /\ p = BackupApi.join (mat_dir root suffix) n)) as Hb.
  apply keeps_bind_any; [by apply keeps_active|]. intros row. apply keeps_bind_any; [by apply keeps_read_bytes|]. intros bytes. cbv zeta.
  apply keeps_bind_any; [by apply keeps_look|]. intros _. apply keeps_bind_any; [by apply keeps_look|]. intros _.
  apply keeps_bind_any; [|intros _; apply keeps_ret_any]. apply keeps_write_blob; [done|]. intros s. apply clear_write.
  eexists. split; [|reflexivity]. unfold bare. destruct (BackupApi.file_name _) as [n|]; [|done]. destruct (_ && _) eqn:E; [|done].
  apply andb_prop in E as [E _]. apply andb_prop in E as [_ E]. by apply negb_true_iff in E.
Qed.

Lemma keeps_wipe (p : string) (sizes : list Z) : forall at_, keeps_any (clear_of (eq p)) (wipe p at_ sizes).
Proof.
  induction sizes as [|n sizes IH]; intros at_; [apply keeps_ret_any|]. apply keeps_bind_any; [|intros _; apply IH].
  apply keeps_op_any; [apply clear_blind|]. intros s Hs. cbn [snd]. destruct (disk s !! p); [by apply clear_write|done].
Qed.

Lemma keeps_drop (g : TempGuard) : keeps_any (clear_of (eq (tg_path g))) (drop_guard g).
Proof.
  pose proof (clear_blind (eq (tg_path g))) as Hb. unfold drop_guard. apply keeps_bind_any.
  - destruct (0 <? tg_len g); [|apply keeps_ret_any]. apply keeps_bind_any; [by apply keeps_attempt_any, keeps_look|].
    intros [[b|]|]; try apply keeps_ret_any. apply keeps_bind_any; [apply keeps_dropped, keeps_wipe|]. intros _. by apply keeps_dropped, keeps_look.
  - intros _. apply keeps_dropped. apply keeps_op_any; [done|]. intros s [Hs Ha]. split; [|exact Ha]. eapply files_ok_shrink; [exact Hs|done|].
    intros f q b _ _. cbn. rewrite lookup_delete_Some. by intros [_ ?].
Qed.

(** A read of the handle gives bytes of its digest. *)
Lemma read_of_handle (s s' : Home) (b : string) : files_ok s -> read_file_bytes root vault i s = (Ok b, s') -> sha256_hex b = h.
Proof.
  intros Hs Hr. enough (Hh : hoare files_ok (read_file_bytes root vault i) (fun b _ => sha256_hex b = h) (fun _ => True)).
  { specialize (Hh s Hs). by rewrite Hr in Hh. }
  unfold read_file_bytes. eapply hoare_bind with (R := fun f s => files_ok s /\ f ∈ stored s /\ f_id f = i).
  { unfold active. eapply hoare_bind with (R := fun o s => files_ok s /\ forall f, o = Some f -> f ∈ stored s /\ f_id f = i).
    - apply hoare_faulted; [intros t fs; apply files_ok_blind|done|]. intros t Ht. cbn. split; [done|]. intros f Hf.
      apply find_first_Some in Hf as [Hin Hf]. apply andb_prop in Hf as [Hf _]. unfold has_id, str_eqb in Hf. by apply bool_decide_eq_true in Hf.
    - intros [f|]; [apply hoare_ret; naive_solver|by apply hoare_throw]. }
  intros f. unfold read_row. eapply hoare_bind with (R := fun p s => (files_ok s /\ f ∈ stored s /\ f_id f = i) /\ path_of root f = Some p).
  { eapply hoare_conseq; [apply (keeps_path (fun s => files_ok s /\ f ∈ stored s /\ f_id f = i))|done|done|done].
    intros t fs (Ht & Hf). split; [by apply files_ok_blind|exact Hf]. }
  intros p. eapply hoare_bind with (R := fun o s => (files_ok s /\ f ∈ stored s /\ f_id f = i) /\ path_of root f = Some p /\ o = disk s !! p).
  { apply hoare_faulted; [intros t fs [[Ht Hf] Hp]; split; [split; [by apply files_ok_blind|exact Hf]|done]|done|]. naive_solver. }
  intros [x|]; [|by apply hoare_throw]. intros t ((Ht & Hf & Hi) & Hp & Hx). destruct (open_file vault x) as [y|e] eqn:Ho; [|done]. cbn.
  pose proof (blobs_match _ Ht f p x y Hf Hp (eq_sym Hx) Ho) as Hm. rewrite (handle_kept _ Ht f Hf Hi) in Hm. congruence.
Qed.
End holds.

(** ** Where nothing fails *)

Section quiet.
Context `{FileLibs}.

Lemma bind_at {A B : Type} (c : M Home A) (k : A -> M Home B) (s : Home) (r : result A LocalError) (s' : Home) :
  c s = (r, s') -> bind c k s = match r with Ok a => k a s' | Err e => (Err e, s') end.
Proof. intros Hc. unfold bind. rewrite Hc. by destruct r. Qed.

Lemma quiet_op {A : Type} (e : LocalError) (f : Home -> A * Home) (s : Home) : home_faults s = [] -> faulted e f s = (Ok (fst (f s)), snd (f s)).
Proof. intros Hs. by apply faulted_clean. Qed.

Lemma quiet_path (root src key : string) (s : Home) : home_faults s = [] ->
  exists e, storage_path_for_key root src key s = (ok_or (path_for root src key) e, s).
Proof.
  intros Hs. unfold storage_path_for_key, safe_blob_path, path_for. destruct (validate_storage_key key) as [[]|e] eqn:Ev.
  - erewrite bind_at by reflexivity. cbn [from_result]. erewrite bind_at by (by apply quiet_op). cbn [fst snd].
    destruct (canonical _) as [cb|]; [|by eexists]. cbn. destruct (BackupApi.under _ _); [by exists Io|by eexists].
  - exists e. erewrite bind_at by reflexivity. done.
Qed.
End quiet.
