(* ===== verification/Retention.v ===== *)
(** * local/retention.rs, and the purge of local/api/v1/data_admin.rs: what ages out

    [purge_older_than] over the tables and files of [Home]: every statement and every file operation can fail. The
    calendar is an interface. Then the maintenance loop of a fleet worker, over the instants at which it wakes. *)

From Stdlib Require Import Ascii String.
From S2P Require Import Prelude Ints Str Store VaultRoot VaultFiles Files.
From S2P Require RunRows LocalMonitor Backup BackupApi.
Open Scope string_scope.
Open Scope list_scope.
Open Scope Z_scope.
Open Scope store_scope.

Definition LOG_FILE_SIZE_CAP_BYTES : Z := 32 * 1024 * 1024.
Definition LOG_FILE_TAIL_KEEP_BYTES : Z := 4 * 1024 * 1024.
Definition LF : ascii := chr 10.
Definition LOG_TRUNCATION_NOTICE : string :=
  String.append "[writ retention] earlier lines were truncated to reclaim disk space" (String LF "").

Record PurgeReport : Type := mkPurged {
  cutoff : option string;
  runs_deleted : Z;
  changes_deleted : Z;
  uptime_checks_deleted : Z;
  preview_steps_deleted : Z;
  output_files_deleted : Z;
  log_files_deleted : Z;
  log_bytes_reclaimed : Z;
}.
Definition no_purge : PurgeReport := mkPurged None 0 0 0 0 0 0 0.

Class RetentionLibs : Type := {
  (** [now - Duration::days(d)] as text; [None] where chrono panics *)
  days_before : Z -> Z -> option string;
  parse_from_rfc3339 : string -> option Z;
}.

(** A text column below the cutoff. *)
Definition before (c t : string) : bool := match String.compare t c with Lt => true | _ => false end.

(** A logged failure counts nothing. *)
Definition or_zero (c : M Home Z) : M Home Z := let! r := attempt c in ret (match r with Ok n => n | Err _ => 0 end).

(** [DELETE ... WHERE], and its number of rows. *)
Definition sweep {A : Type} (get : Home -> list A) (set : list A -> Home -> Home) (old : A -> bool) : M Home Z :=
  statement (fun s => (Z.of_nat (length (retain old (get s))), set (retain (fun a => negb (old a)) (get s)) s)).

(** ** The tables *)

Definition old_run (c : string) (r : RunRows.Run) : bool := before c (RunRows.created_at r).

Definition forget_run (f : StoredFile) : StoredFile :=
  mkFile (f_id f) (storage_key f) (filename f) (content_type f) (size_bytes f) (f_sha256 f) (source f) None (purpose f) (f_status f)
    (expires_at f) (deleted_at f) (f_created_at f) (meta f).

(** With the keys: the artifacts go with their run, its files forget it. *)
Definition purge_old_runs (c : string) : M Home Z :=
  statement (fun s =>
    let gone r := match run_rows s !! r with Some x => old_run c x | None => false end in
    (Z.of_nat (size (filter (fun ir => old_run c (snd ir) = true) (run_rows s))),
     set_stored (map (fun f => match source_run_id f with Some r => if gone r then forget_run f else f | None => f end) (stored s))
       (set_run_artifacts (retain (fun a => negb (gone (ra_run_id a))) (run_artifacts s))
          (set_run_rows (filter (fun ir => old_run c (snd ir) = false) (run_rows s)) s)))).

Definition forget_change (r : RunRows.Run) : RunRows.Run :=
  RunRows.mkRun (RunRows.id r) (RunRows.workflow_id r) (RunRows.target_id r) None (RunRows.automation_id r) (RunRows.status r)
    (RunRows.trigger_type r) (RunRows.success r) (RunRows.started_at r) (RunRows.completed_at r) (RunRows.duration_ms r)
    (RunRows.trigger_context r) (RunRows.result_data r) (RunRows.error_message r) (RunRows.failure_category r)
    (RunRows.ai_repair_succeeded r) (RunRows.attempt_count r) (RunRows.max_attempts r) (RunRows.created_at r).
Definition old_change (c : string) (h : LocalMonitor.Change) : bool := before c (LocalMonitor.ch_last_detected_at h).

(** With the keys: the runs of a change forget it. *)
Definition prune_changes (c : string) : M Home Z :=
  statement (fun s =>
    let gone h := match change_rows s !! h with Some x => old_change c x | None => false end in
    (Z.of_nat (size (filter (fun ih => old_change c (snd ih) = true) (change_rows s))),
     set_run_rows ((fun r => match RunRows.change_id r with Some h => if gone h then forget_change r else r | None => r end) <$> run_rows s)
        (set_change_rows (filter (fun ih => old_change c (snd ih) = false) (change_rows s)) s))).

Definition prune_uptime (c : string) : M Home Z := sweep uptime_rows set_uptime_rows (fun u => before c (LocalMonitor.us_checked_at u)).
Definition prune_previews (c : string) : M Home Z := sweep preview_steps set_preview_steps (fun p => before c (pv_created_at p)).

Section retention.
Context `{FileLibs} `{RetentionLibs}.
Context (root : string).

(** The row of an output whose run is older than the cutoff. *)
Definition expired (c : string) (s : Home) (f : StoredFile) : bool :=
  match source_run_id f with
  | Some r => match run_rows s !! r with
              | Some x => str_eqb (source f) "workflow_output" && live f && old_run c x
              | None => false
              end
  | None => false
  end.

(** One file: its blob, whatever comes of it, then its row. *)
Definition reclaim (f : StoredFile) : M Home bool :=
  let! path := attempt (storage_path_for_key root (source f) (storage_key f)) in
  let! _ := match path with Ok p => dropped (remove_file p) | Err _ => ret tt end in
  let! gone := attempt (delete_file (f_id f)) in
  ret (match gone with Ok b => b | Err _ => false end).

Fixpoint reclaim_all (fs : list StoredFile) (n : Z) : M Home Z :=
  match fs with
  | [] => ret n
  | f :: fs => let! gone := reclaim f in reclaim_all fs (if gone : bool then n + 1 else n)
  end.

Definition purge_expired_output_files (c : string) : M Home Z :=
  let! rows := statement (fun s => (retain (expired c s) (stored s), s)) in
  reclaim_all rows 0.

(** ** The logs *)

Definition is_capturable_log (name : string) : bool := ends_with name ".log" || ends_with name ".err" || ends_with name ".out".
Definition is_prunable_log (name : string) : bool :=
  if starts_with name "crash-" && ends_with name ".json" then true else is_capturable_log name || contains name ".log.".

(** A file operation on the logs. *)
Definition log_op {A : Type} (f : Home -> A * Home) : M Home A := faulted Io f.
Definition read_dir : M Home (option (list LogEntry)) := log_op (fun s => (logs s, s)).
Definition touch : M Home unit := log_op (fun s => (tt, s)).
Definition named (n : string) (e : LogEntry) : bool := str_eqb (lg_name e) n.
Definition remove_log (n : string) : M Home bool :=
  log_op (fun s => (match logs s with Some l => any (named n) l | None => false end, set_logs (retain (fun e => negb (named n e)) <$> logs s) s)).
Definition log_bytes (n : string) (s : Home) : string :=
  match logs s ≫= find_first (named n) with Some e => lg_bytes e | None => "" end.
Definition put_log (n : string) (f : string -> string) : M Home unit :=
  log_op (fun s => (tt, set_logs (map (fun e => if named n e then mkLog (lg_name e) (lg_is_file e) (lg_modified e) (f (lg_bytes e)) else e) <$> logs s) s)).

(** An entry that is listed and whose metadata is read; its length is read with it. *)
Definition log_metadata (e : LogEntry) : M Home (option Z) :=
  let! r := attempt (log_op (fun s => (str_len (log_bytes (lg_name e) s), s))) in ret (result_ok r).

Definition prune_log (c : Z) (e : LogEntry) (acc : Z * Z) : M Home (Z * Z) :=
  let! entry := attempt touch in
  match entry with
  | Err _ => ret acc
  | Ok _ =>
      if negb (is_prunable_log (lg_name e)) then ret acc
      else
        let! len := log_metadata e in
        match len with
        | None => ret acc
        | Some len =>
            if negb (lg_is_file e) then ret acc
            else match lg_modified e with
                 | None => ret acc
                 | Some m =>
                     if c <=? m then ret acc
                     else
                       let! gone := attempt (remove_log (lg_name e)) in
                       ret (match gone with Ok true => (fst acc + 1, snd acc + len) | _ => acc end)
                 end
        end
  end.

(** A loop over the entries of the directory. *)
Fixpoint over_logs (f : LogEntry -> Z * Z -> M Home (Z * Z)) (es : list LogEntry) (acc : Z * Z) : M Home (Z * Z) :=
  match es with
  | [] => ret acc
  | e :: es => let! acc := f e acc in over_logs f es acc
  end.
Definition each_log (f : LogEntry -> Z * Z -> M Home (Z * Z)) : M Home (Z * Z) :=
  let! es := attempt read_dir in
  match es with
  | Ok (Some es) => over_logs f es (0, 0)
  | _ => ret (0, 0)
  end.

Definition prune_expired_logs (c : Z) : M Home (Z * Z) := each_log (prune_log c).

(** The bytes from the first line that is whole. *)
Definition from_line_start (t : string) : string :=
  match find_byte (fun c => byte_is c LF) t with Some i => str_drop (S i) t | None => t end.

Definition truncate_keeping_tail (n : string) (len keep : Z) : M Home Z :=
  let keep := Z.min keep len in
  let! _ := touch in
  let! _ := touch in
  let! tail := log_op (fun s => (str_drop (Z.to_nat (len - keep)) (log_bytes n s), s)) in
  let tail := from_line_start tail in
  let! _ := touch in
  let! _ := put_log n (fun _ => "") in
  let! _ := put_log n (fun b => String.append b LOG_TRUNCATION_NOTICE) in
  let! _ := put_log n (fun b => String.append b tail) in
  let! _ := touch in
  ret (Z.max 0 (len - (str_len tail + str_len LOG_TRUNCATION_NOTICE))).

Definition cap_log (e : LogEntry) (acc : Z * Z) : M Home (Z * Z) :=
  let! entry := attempt touch in
  match entry with
  | Err _ => ret acc
  | Ok _ =>
      if negb (is_capturable_log (lg_name e)) then ret acc
      else
        let! len := log_metadata e in
        match len with
        | None => ret acc
        | Some len =>
            if negb (lg_is_file e) || (len <=? LOG_FILE_SIZE_CAP_BYTES) then ret acc
            else
              let! r := attempt (truncate_keeping_tail (lg_name e) len LOG_FILE_TAIL_KEEP_BYTES) in
              ret (match r with Ok reclaimed => (fst acc + 1, snd acc + reclaimed) | Err _ => acc end)
        end
  end.
Definition cap_oversized_logs : M Home (Z * Z) := each_log cap_log.

(** ** The purge *)

Definition purge_older_than (c : string) : M Home PurgeReport :=
  let! outputs := or_zero (purge_expired_output_files c) in
  let! runs := or_zero (purge_old_runs c) in
  let! changes := or_zero (prune_changes c) in
  let! uptime := or_zero (prune_uptime c) in
  let! previews := or_zero (prune_previews c) in
  let! (n, b) := match parse_from_rfc3339 c with Some t => prune_expired_logs t | None => ret (0, 0) end in
  let! (_, capped) := cap_oversized_logs in
  ret (mkPurged (Some c) runs changes uptime previews outputs n (b + capped)).

(** [None]: the subtraction of the days panics. *)
Definition purge_with_config (now days : Z) : option (M Home PurgeReport) :=
  if days =? 0 then Some (ret no_purge) else purge_older_than <$> days_before now days.

(** [POST /v1/data/purge]: [saved] is the setting on disk. *)
Definition purge_handler (now saved : Z) (body : option (option Z)) : option (M Home PurgeReport) :=
  purge_with_config now (default saved (body ≫= id)).

(** [PRAGMA wal_checkpoint(TRUNCATE)] *)
Definition wal_checkpoint_truncate : M Home unit := statement (fun s => (tt, s)).

(** ** The maintenance loop; durations and instants are milliseconds *)

Record MaintenanceConfig : Type := mkMaint { mc_tick : Z; mc_purge_every : Z; mc_retention_days : Z }.
Definition DEFAULT_TICK : Z := 60 * 60 * 1000.
Definition DEFAULT_PURGE_EVERY : Z := 24 * 60 * 60 * 1000.
Definition maintenance (days : Z) : MaintenanceConfig := mkMaint DEFAULT_TICK DEFAULT_PURGE_EVERY days.
Definition sanitized (m : MaintenanceConfig) : MaintenanceConfig :=
  let t := Z.max (mc_tick m) 50 in mkMaint t (Z.max (mc_purge_every m) t) (mc_retention_days m).

Definition purge_due (since_last : option Z) (every : Z) : bool := match since_last with None => true | Some e => every <=? e end.

(** A wake: the instants at which the last purge's age is read and at which the purge is marked, and the calendar's time. *)
Record Wake : Type := mkWake { wk_read : Z; wk_mark : Z; wk_now : Z }.

(** A pass, and the mark of the last purge; [None] ends the task. *)
Definition maintenance_pass (m : MaintenanceConfig) (w : Wake) (last : option Z) (s : Home) : option (option Z * Home) :=
  let s := snd (cap_oversized_logs s) in
  let done last s := (last, snd (wal_checkpoint_truncate s)) in
  if purge_due ((fun t => wk_read w - t) <$> last) (mc_purge_every m) then
    (fun c => done (Some (wk_mark w)) (snd (c s))) <$> purge_with_config (wk_now w) (mc_retention_days m)
  else Some (done last s).

(** The wakes before the loop is cancelled; whether the task is still there. *)
Fixpoint maintenance_loop (m : MaintenanceConfig) (ws : list Wake) (last : option Z) (s : Home) : bool * Home :=
  match ws with
  | [] => (true, s)
  | w :: ws =>
      match maintenance_pass m w last s with
      | Some (last, s) => maintenance_loop m ws last s
      | None => (false, snd (cap_oversized_logs s))
      end
  end.
Definition spawn_maintenance (m : MaintenanceConfig) (ws : list Wake) (s : Home) : bool * Home := maintenance_loop (sanitized m) ws None s.
End retention.

(** ** Stored bytes

    Over any history of creations, reads, deletions, copies for runs and purges, with any failures. *)

Section history.
Context `{FileLaws} `{FileLibs} `{RetentionLibs}.
Context (root : string) (vault : RootKey).

Inductive FileOp : Type :=
| Create (now : string) (d : Draw) (bytes name : string) (ct : option string) (src : string)
| Upload (now : string) (d : Draw) (ps : list (result Part string))
| Capture (now : string) (d : Draw) (temp name : string) (ct : option string) (run : Z)
| Read (j : string)
| Remove (now j : string)
| Materialize (suffix j : string)
| DropTemp (g : TempGuard)
| Purge (c : string).

Definition perform (s : Home) (op : FileOp) : Home :=
  match op with
  | Create now d b n ct src => snd (create_file root vault now d b n ct src s)
  | Upload now d ps => snd (upload root vault now d ps s)
  | Capture now d t n ct run => snd (capture_output root vault now d t n ct run s)
  | Read j => snd (read_file_bytes root vault j s)
  | Remove now j => snd (remove now j s)
  | Materialize suffix j => snd (materialize_for_run root vault suffix j s)
  | DropTemp g => snd (drop_guard g s)
  | Purge c => snd (purge_older_than root c s)
  end.

(** What is drawn at random is new, and a plaintext copy lies at no row's place. *)
Definition drawn_well (i : string) (s : Home) (op : FileOp) : Prop :=
  match op with
  | Create _ d _ _ _ _ | Upload _ d _ | Capture _ d _ _ _ _ => drawn_new i d s
  | Materialize suffix _ => forall n, contains n "/" = false -> aside root (BackupApi.join (mat_dir root suffix) n) s
  | DropTemp g => aside root (tg_path g) s
  | _ => True
  end.
Fixpoint all_drawn_well (i : string) (s : Home) (ops : list FileOp) : Prop :=
  match ops with
  | [] => True
  | op :: ops => drawn_well i s op /\ all_drawn_well i (perform s op) ops
  end.

Section kept.
Context (i h : string).
Notation I := (files_ok root vault i h).

Lemma keeps_or_zero (J : Home -> Prop) (c : M Home Z) : keeps_any J c -> keeps_any J (or_zero c).
Proof. intros Hc. apply keeps_bind_any; [by apply keeps_attempt_any|]. intros r. apply keeps_ret_any. Qed.

Lemma keeps_reclaim_all (fs : list StoredFile) : forall n, keeps_any I (reclaim_all root fs n).
Proof.
  induction fs as [|f fs IH]; intros n; [apply keeps_ret_any|]. apply keeps_bind_any; [|intros b; apply IH].
  apply keeps_bind_any; [apply keeps_attempt_any; eapply keeps_weaken; [|apply keeps_path, files_ok_blind]; done|]. intros [p|e].
  - apply keeps_bind_any; [apply keeps_dropped, keeps_remove_file|]. intros _. apply keeps_bind_any; [apply keeps_attempt_any, keeps_delete_file|].
    intros r. apply keeps_ret_any.
  - apply keeps_bind_any; [apply keeps_ret_any|]. intros _. apply keeps_bind_any; [apply keeps_attempt_any, keeps_delete_file|]. intros r. apply keeps_ret_any.
Qed.

(** What only the logs change with. *)
Lemma keeps_over_logs (J : Home -> Prop) (f : LogEntry -> Z * Z -> M Home (Z * Z)) : (forall e acc, keeps_any J (f e acc)) ->
  forall es acc, keeps_any J (over_logs f es acc).
Proof.
  intros Hf. induction es as [|e es IH]; intros acc; [apply keeps_ret_any|]. apply keeps_bind_any; [apply Hf|]. intros acc'. apply IH.
Qed.

Lemma keeps_prune_log (J : Home -> Prop) (Hb : fault_blind J) (Hl : forall s p, J s -> J (set_logs (retain p <$> logs s) s)) (c : Z) (e : LogEntry) (acc : Z * Z) :
  keeps_any J (prune_log c e acc).
Proof.
  unfold prune_log. apply keeps_bind_any; [by apply keeps_attempt_any, keeps_look|]. intros [[]|]; [|apply keeps_ret_any].
  destruct (negb _); [apply keeps_ret_any|]. apply keeps_bind_any.
  { apply keeps_bind_any; [by apply keeps_attempt_any, keeps_look|]. intros r. apply keeps_ret_any. }
  intros [len|]; [|apply keeps_ret_any]. destruct (negb _); [apply keeps_ret_any|]. destruct (lg_modified e); [|apply keeps_ret_any].
  destruct (_ <=? _); [apply keeps_ret_any|]. apply keeps_bind_any; [|intros r; apply keeps_ret_any]. apply keeps_attempt_any, keeps_op_any; [done|].
  intros s Hs. by apply Hl.
Qed.

Lemma keeps_cap_log (J : Home -> Prop) (Hb : fault_blind J)
    (Hl : forall s f, J s -> (forall e, lg_name (f e) = lg_name e) -> J (set_logs (map f <$> logs s) s)) (e : LogEntry) (acc : Z * Z) :
  keeps_any J (cap_log e acc).
Proof.
  unfold cap_log. apply keeps_bind_any; [by apply keeps_attempt_any, keeps_look|]. intros [[]|]; [|apply keeps_ret_any].
  destruct (negb _); [apply keeps_ret_any|]. apply keeps_bind_any.
  { apply keeps_bind_any; [by apply keeps_attempt_any, keeps_look|]. intros r. apply keeps_ret_any. }
  intros [len|]; [|apply keeps_ret_any]. destruct (_ || _); [apply keeps_ret_any|]. apply keeps_bind_any; [|intros r; apply keeps_ret_any].
  apply keeps_attempt_any. unfold truncate_keeping_tail. cbv zeta. repeat (apply keeps_bind_any; [|intros ?]); try apply keeps_ret_any;
    apply keeps_op_any; try done; intros s Hs; cbn; apply Hl; try done; intros x; by destruct (named _ x).
Qed.

Lemma keeps_each_log (J : Home -> Prop) (Hb : fault_blind J) (f : LogEntry -> Z * Z -> M Home (Z * Z)) :
  (forall e acc, keeps_any J (f e acc)) -> keeps_any J (each_log f).
Proof.
  intros Hf. apply keeps_bind_any; [by apply keeps_attempt_any, keeps_look|]. intros [[es|]|]; try apply keeps_ret_any. by apply keeps_over_logs.
Qed.

Lemma core_forgets (g : Z -> bool) (f : StoredFile) :
  core match source_run_id f with Some r => if g r then forget_run f else f | None => f end = core f.
Proof. destruct (source_run_id f); [|done]. by destruct (g _). Qed.

Lemma keeps_purge (c : string) : keeps_any I (purge_older_than root c).
Proof.
  pose proof (files_ok_blind root vault i h) as Hb.
  assert (Hl : forall s l, I s -> I (set_logs l s)) by (intros s l Hs; by eapply files_ok_shrink).
  assert (Hrow : forall f : Home -> Z * Home, (forall s, map core (stored (snd (f s))) = map core (stored s)) ->
    (forall s, disk (snd (f s)) = disk s) -> keeps_any I (or_zero (statement f))).
  { intros f Hr Hd. apply keeps_or_zero, keeps_rows; [|done]. intros s. by rewrite Hr. }
  unfold purge_older_than. apply keeps_bind_any.
  { apply keeps_or_zero, keeps_bind_any; [by apply keeps_look|]. intros rows. apply keeps_reclaim_all. }
  intros ?. apply keeps_bind_any; [apply Hrow; [|done]; intros s; apply map_core; intros f; apply core_forgets|].
  intros ?. apply keeps_bind_any; [by apply Hrow|]. intros ?. apply keeps_bind_any; [by apply Hrow|]. intros ?. apply keeps_bind_any; [by apply Hrow|].
  intros ?. apply keeps_bind_any.
  { destruct (parse_from_rfc3339 c); [|apply keeps_ret_any]. apply keeps_each_log; [done|]. intros e acc. apply keeps_prune_log; [done|]. intros s p. apply Hl. }
  intros [n b]. apply keeps_bind_any; [|intros [? ?]; apply keeps_ret_any]. apply keeps_each_log; [done|]. intros e acc. apply keeps_cap_log; [done|]. intros s f Hs _. by apply Hl.
Qed.

Lemma perform_keeps (op : FileOp) (s : Home) : I s -> drawn_well i s op -> I (perform s op).
Proof.
  intros Hs Hd. destruct op as [now d b n ct src|now d ps|now d t n ct run|j|now j|sfx j|g|c]; cbn [perform]; cbn in Hd.
  - eapply (keeps_hoare root vault i h _ _ _ (hoare_create root vault i h _ _ _ _ _ _ _)); [by intros a t [? _]|by split].
  - eapply (keeps_hoare root vault i h _ _ _ (hoare_upload root vault i h _ _ _)); [done|by split].
  - eapply (keeps_hoare root vault i h _ _ _ (hoare_capture root vault i h _ _ _ _ _ _)); [done|by split].
  - eapply (keeps_state I); [apply keeps_read_bytes, files_ok_blind|done].
  - eapply (keeps_state I); [|done]. apply keeps_bind_any; [apply keeps_soft_delete|]. intros []; [apply keeps_ret_any|apply keeps_throw_any].
  - eapply (keeps_state _ _ _ s (keeps_materialize root vault i h sfx j)). split; [done|]. intros p (n & Hn & ->). by apply Hd.
  - eapply (keeps_state _ _ _ s (keeps_drop root vault i h g)). split; [done|]. by intros p <-.
  - eapply (keeps_state I); [apply keeps_purge|done].
Qed.

Lemma history_keeps (ops : list FileOp) : forall s, I s -> all_drawn_well i s ops -> I (foldl perform s ops).
Proof.
  induction ops as [|op ops IH]; intros s Hs Hd; [done|]. cbn. destruct Hd as [Hd Hds]. apply IH; [by apply perform_keeps|done].
Qed.
End kept.

(** The tables and the blobs as they are to be found. *)
Record store_ok (s : Home) : Prop := {
  store_ids : NoDup (map f_id (stored s));
  store_keys : NoDup (map storage_key (stored s));
  store_blobs : forall f p b x, f ∈ stored s -> path_of root f = Some p -> disk s !! p = Some b -> open_file vault b = Ok x ->
    f_sha256 f = Some (sha256_hex x);
}.

Lemma same_id_same_row (l : list StoredFile) (f g : StoredFile) : NoDup (map f_id l) -> f ∈ l -> g ∈ l -> f_id f = f_id g -> f = g.
Proof.
  intros Hn Hf Hg He. apply list_elem_of_lookup in Hf as [a Ha]. apply list_elem_of_lookup in Hg as [b Hb].
  assert (a = b) as ->; [|congruence]. eapply (NoDup_lookup (map f_id l)); [exact Hn| |]; change (map f_id l) with (f_id <$> l);
    rewrite list_lookup_fmap; [by rewrite Ha|]. by rewrite Hb, He.
Qed.

Lemma created_ok (now : string) (d : Draw) (bytes name : string) (ct : option string) (src : string) (s s1 : Home) (f : StoredFile) :
  store_ok s -> drawn_new "" d s -> create_file root vault now d bytes name ct src s = (Ok f, s1) ->
  files_ok root vault (f_id f) (sha256_hex bytes) s1.
Proof.
  intros [Hi Hk Hm] (Hd1 & Hd2 & Hd3 & Hd4) Hc.
  destruct (exist_fresh (list_to_set (new_file_id (id_hex d) :: map f_id (stored s)) : gset string)) as [i0 Hi0].
  rewrite elem_of_list_to_set, not_elem_of_cons in Hi0. destruct Hi0 as [Hne Hni].
  assert (Hr : ready root vault i0 (sha256_hex bytes) d s).
  { split; [|by repeat split]. split; [done|done|done|]. intros g Hg Hgi. exfalso. apply Hni. rewrite <-Hgi. by apply (list_elem_of_fmap_2 f_id). }
  pose proof (hoare_create root vault i0 (sha256_hex bytes) d now bytes name ct src None s Hr) as Hh. unfold create_file in Hc. rewrite Hc in Hh.
  destruct Hh as (Hok & Hf & Hsha). destruct Hok as [Ii Ik Im _]. split; [done|done|done|]. intros g Hg Hgi.
  by rewrite (same_id_same_row _ g f Ii Hg Hf Hgi).
Qed.

(** C22: the handle that a creation of a file returns, a new one or that of a file of the same digest, stays with the bytes: over any history of other
    creations, uploads, captures, reads, deletions, plaintext copies and purges, whatever statements and file operations fail, a
    read of the handle gives bytes of the digest of what was stored, or an error, and never those of another file. *)
Theorem stored_bytes_kept (now : string) (d : Draw) (bytes name : string) (ct : option string) (src : string) (s s1 s2 : Home)
    (f : StoredFile) (ops : list FileOp) (b : string) :
  store_ok s -> drawn_new "" d s -> create_file root vault now d bytes name ct src s = (Ok f, s1) ->
  all_drawn_well (f_id f) s1 ops -> read_file_bytes root vault (f_id f) (foldl perform s1 ops) = (Ok b, s2) -> sha256_hex b = sha256_hex bytes.
Proof.
  intros Hs Hd Hc Hops Hr. pose proof (created_ok _ _ _ _ _ _ _ _ _ Hs Hd Hc) as Hok.
  eapply (read_of_handle root vault (f_id f)); [|exact Hr]. by apply history_keeps.
Qed.
End history.

(** ** What a purge leaves alone *)

Section spares.
Context `{FileLibs} `{RetentionLibs}.
Context (root c : string) (s0 : Home).

(** Where the name of a log and its age let it go. *)
Definition log_expired (e : LogEntry) : Prop :=
  is_prunable_log (lg_name e) = true /\ lg_is_file e = true /\
  exists t m, parse_from_rfc3339 c = Some t /\ lg_modified e = Some m /\ m < t.
(** What the cap leaves of an oversized log: the notice and the last lines, or what of them was written. *)
Definition log_tail (b : string) : string :=
  from_line_start (str_drop (Z.to_nat (str_len b - Z.min LOG_FILE_TAIL_KEEP_BYTES (str_len b))) b).
Definition log_capped (e : LogEntry) (b : string) : Prop :=
  is_capturable_log (lg_name e) = true /\ lg_is_file e = true /\ LOG_FILE_SIZE_CAP_BYTES < str_len (lg_bytes e) /\
  exists n, b = str_take n (String.append LOG_TRUNCATION_NOTICE (log_tail (lg_bytes e))).
Definition log_kept (e : LogEntry) (l : list LogEntry) : Prop :=
  exists b, mkLog (lg_name e) (lg_is_file e) (lg_modified e) b ∈ l /\ (b = lg_bytes e \/ log_capped e b).

Record spared (s : Home) : Prop := {
  sp_rows : forall f, f ∈ stored s0 -> expired c s0 f = false -> f ∈ stored s \/ forget_run f ∈ stored s;
  sp_disk : forall p, (forall g, g ∈ stored s0 -> expired c s0 g = true -> path_of root g <> Some p) -> disk s !! p = disk s0 !! p;
  sp_runs : forall i r, run_rows s0 !! i = Some r -> old_run c r = false ->
    exists r', run_rows s !! i = Some r' /\ (r' = r \/ r' = forget_change r);
  sp_changes : forall i h, change_rows s0 !! i = Some h -> old_change c h = false -> change_rows s !! i = Some h;
  sp_uptime : forall u, u ∈ uptime_rows s0 -> before c (LocalMonitor.us_checked_at u) = false -> u ∈ uptime_rows s;
  sp_previews : forall p, p ∈ preview_steps s0 -> before c (pv_created_at p) = false -> p ∈ preview_steps s;
  sp_logs : forall l0, logs s0 = Some l0 -> exists l, logs s = Some l /\ NoDup (map lg_name l) /\ forall e, e ∈ l0 -> log_kept e l \/ log_expired e;
  sp_no_logs : logs s0 = None -> logs s = None;
}.

Context (Hids : NoDup (map f_id (stored s0))) (Hnames : forall l, logs s0 = Some l -> NoDup (map lg_name l)).

Lemma spared_start : spared s0.
Proof.
  split; try done.
  - by left.
  - intros i r Hr _. exists r. auto.
  - intros l Hl. exists l. split; [done|]. split; [by apply Hnames|]. intros e He. left. exists (lg_bytes e). split; [by destruct e|by left].
Qed.

Lemma spared_blind : fault_blind spared.
Proof. intros s fs [? ? ? ? ? ? ? ?]. by split. Qed.

(** *** The files *)

Lemma forget_run_id (f : StoredFile) : f_id (forget_run f) = f_id f.
Proof. done. Qed.

Lemma keeps_reclaim (g : StoredFile) : g ∈ stored s0 -> expired c s0 g = true -> keeps_any spared (reclaim root g).
Proof.
  intros Hg He. pose proof spared_blind as Hb. unfold reclaim.
  eapply keeps_bind; [apply keeps_attempt, keeps_path, Hb|]. intros path Hp. apply keeps_bind_any.
  { destruct path as [p|]; [|apply keeps_ret_any]. apply keeps_dropped, keeps_op_any; [done|]. intros s [Hr Hd ? ? ? ? ? ?]. split; try done. cbn.
    intros q Hq. rewrite lookup_delete_ne; [by apply Hd|]. intros ->. by apply (Hq g Hg He), Hp. }
  intros []. apply keeps_bind_any; [|intros r; apply keeps_ret_any]. apply keeps_attempt_any, keeps_op_any; [done|].
  intros s [Hr Hd ? ? ? ? ? ?]. split; try done. cbn. intros f Hf Hx.
  assert (Hne : f_id f <> f_id g). { intros He'. rewrite (same_id_same_row _ f g Hids Hf Hg He') in Hx. congruence. }
  assert (Hid : negb (str_eqb (f_id f) (f_id g)) = true) by (unfold str_eqb; by rewrite bool_decide_eq_false_2).
  destruct (Hr f Hf Hx) as [Hin|Hin]; [left|right]; apply elem_of_retain; by split.
Qed.

(** The tables at the start, whatever the faults ahead. *)
Definition at_start (s : Home) : Prop := exists fs, s = set_home_faults fs s0.

Lemma hoare_outputs : hoare at_start (or_zero (purge_expired_output_files root c)) (fun _ => spared) spared.
Proof.
  pose proof spared_blind as Hb.
  assert (Hall : forall fs, Forall (fun g => g ∈ stored s0 /\ expired c s0 g = true) fs -> forall n, keeps_any spared (reclaim_all root fs n)).
  { induction 1 as [|g fs [Hg He] _ IH]; intros n; [apply keeps_ret_any|]. apply keeps_bind_any; [by apply keeps_reclaim|]. intros b. apply IH. }
  assert (Hspared : forall s, at_start s -> spared s) by (intros s [fs ->]; apply Hb, spared_start).
  assert (Hh : hoare at_start (purge_expired_output_files root c) (fun _ => spared) spared).
  { unfold purge_expired_output_files.
    eapply hoare_bind with (R := fun rows s => spared s /\ Forall (fun g => g ∈ stored s0 /\ expired c s0 g = true) rows).
    - apply hoare_faulted; [intros s fs [fs' ->]; by exists fs|done|]. intros s Hs. cbn [fst snd]. split; [by apply Hspared|]. destruct Hs as [fs ->].
      apply Forall_forall. intros g Hg. by apply elem_of_retain in Hg as [He Hg].
    - intros rows. intros s [Hs Hr]. pose proof (Hall rows Hr 0 s Hs) as Hk. destruct (reclaim_all root rows 0 s) as [[n|e] s']; [apply Hk|done]. }
  intros s Hs. specialize (Hh s Hs). unfold or_zero, bind, attempt. by destruct (purge_expired_output_files root c s) as [[n|e] s'].
Qed.

(** *** The tables *)

Lemma keeps_runs : keeps_any spared (purge_old_runs c).
Proof.
  apply keeps_op_any; [apply spared_blind|]. intros s [Hr ? Hru ? ? ? ? ?]. split; try done; cbn.
  - intros f Hf Hx.
    assert (Hm : forall g, g ∈ stored s -> forall b : Z -> bool, g ∈ map (fun x => match source_run_id x with Some r => if b r then forget_run x else x | None => x end) (stored s) \/
      forget_run g ∈ map (fun x => match source_run_id x with Some r => if b r then forget_run x else x | None => x end) (stored s)).
    { intros g Hg b. apply (list_elem_of_fmap_2 (fun x => match source_run_id x with Some r => if b r then forget_run x else x | None => x end)) in Hg.
      destruct (source_run_id g); [destruct (b _)|]; [by right|by left|by left]. }
    destruct (Hr f Hf Hx) as [Hin|Hin]; edestruct (Hm _ Hin) as [Hy|Hy]; [left; exact Hy|right; exact Hy|right; exact Hy|right; exact Hy].
  - intros i r Hi Ho. destruct (Hru i r Hi Ho) as (r' & Hr' & Heq). exists r'. split; [|done]. apply map_lookup_filter_Some. split; [done|]. cbn.
    destruct Heq as [->| ->]; exact Ho.
Qed.

Lemma keeps_changes : keeps_any spared (prune_changes c).
Proof.
  apply keeps_op_any; [apply spared_blind|]. intros s [? ? Hru Hch ? ? ? ?]. split; try done; cbn.
  - intros i r Hi Ho. destruct (Hru i r Hi Ho) as (r' & Hr' & Heq). rewrite lookup_fmap, Hr'. cbn. eexists. split; [reflexivity|].
    destruct (RunRows.change_id r'); [destruct (match change_rows s !! _ with Some x => _ | None => _ end)|]; [|done|done].
    destruct Heq as [->| ->]; by right.
  - intros i h Hi Ho. apply map_lookup_filter_Some. split; [by apply Hch|done].
Qed.

Lemma keeps_uptime : keeps_any spared (prune_uptime c).
Proof.
  apply keeps_op_any; [apply spared_blind|]. intros s [? ? ? ? Hu ? ? ?]. split; try done; cbn. intros u Hin Ho. apply elem_of_retain. split; [by rewrite Ho|by apply Hu].
Qed.

Lemma keeps_previews : keeps_any spared (prune_previews c).
Proof.
  apply keeps_op_any; [apply spared_blind|]. intros s [? ? ? ? ? Hp ? ?]. split; try done; cbn. intros p Hin Ho. apply elem_of_retain. split; [by rewrite Ho|by apply Hp].
Qed.

(** *** The logs *)

(** An entry that is, but for its bytes, what it was at the start. *)
Definition of_start (e : LogEntry) : Prop := forall l0 e0, logs s0 = Some l0 -> e0 ∈ l0 -> lg_name e0 = lg_name e ->
  log_expired e0 \/ (lg_is_file e0 = lg_is_file e /\ lg_modified e0 = lg_modified e).

Lemma same_name_same_log (l : list LogEntry) (a b : LogEntry) : NoDup (map lg_name l) -> a ∈ l -> b ∈ l -> lg_name a = lg_name b -> a = b.
Proof.
  intros Hn Ha Hb He. apply list_elem_of_lookup in Ha as [i Hi]. apply list_elem_of_lookup in Hb as [j Hj].
  assert (i = j) as ->; [|congruence]. eapply (NoDup_lookup (map lg_name l)); [exact Hn| |]; change (map lg_name l) with (lg_name <$> l);
    rewrite list_lookup_fmap; [by rewrite Hi|]. by rewrite Hj, He.
Qed.

Lemma keeps_dir : keeps spared read_dir (fun es => forall l e, es = Some l -> e ∈ l -> of_start e).
Proof.
  apply keeps_op; [apply spared_blind|]. intros s Hs. split; [done|]. cbn. intros l e Hl He l0 e0 Hl0 He0 Hn.
  destruct (sp_logs _ Hs l0 Hl0) as (l' & Hl' & Hnd & Hall). assert (l' = l) as -> by congruence.
  destruct (Hall e0 He0) as [(b & Hb & _)|Hx]; [right|by left]. assert (He' : mkLog (lg_name e0) (lg_is_file e0) (lg_modified e0) b = e).
  { by apply (same_name_same_log l). }
  by rewrite <-He'.
Qed.

Lemma keeps_each (f : LogEntry -> Z * Z -> M Home (Z * Z)) : (forall e acc, of_start e -> keeps_any spared (f e acc)) -> keeps_any spared (each_log f).
Proof.
  intros Hf. unfold each_log. eapply keeps_bind; [apply keeps_attempt, keeps_dir|]. intros [[es|]|]; intros He; try apply keeps_ret_any.
  assert (Hes : Forall of_start es). { apply Forall_forall. intros e Hin. eapply He; [reflexivity|reflexivity|done]. } clear He.
  assert (Hgo : forall acc, keeps_any spared (over_logs f es acc)); [|apply Hgo].
  induction Hes as [|e es He _ IH]; intros acc; [apply keeps_ret_any|]. apply keeps_bind_any; [by apply Hf|]. intros a. apply IH.
Qed.

Lemma keeps_remove_log (e : LogEntry) (t m : Z) : of_start e -> is_prunable_log (lg_name e) = true -> lg_is_file e = true ->
  parse_from_rfc3339 c = Some t -> lg_modified e = Some m -> m < t -> keeps_any spared (remove_log (lg_name e)).
Proof.
  intros Hs Hp Hf Ht Hm Hlt. apply keeps_op_any; [apply spared_blind|]. intros s [? ? ? ? ? ? Hl Hno]. split; try done; cbn; [|by intros Hn; rewrite (Hno Hn)]. intros l0 Hl0.
  destruct (Hl l0 Hl0) as (l & Hls & Hn & Hall). rewrite Hls. cbn. eexists. split; [reflexivity|]. split.
  { eapply sublist_NoDup; [exact Hn|]. apply (fmap_sublist lg_name), retain_sublist. }
  intros e0 He0. destruct (decide (lg_name e0 = lg_name e)) as [Heq|Hne].
  - right. destruct (Hs l0 e0 Hl0 He0 Heq) as [Hx|[Hf0 Hm0]]; [done|]. split; [by rewrite Heq|]. split; [congruence|]. exists t, m. split; [done|]. split; [congruence|done].
  - destruct (Hall e0 He0) as [(b & Hb & Hk)|Hx]; [left|by right]. exists b. split; [|done]. apply elem_of_retain. split; [|done].
    unfold named, str_eqb. by rewrite bool_decide_eq_false_2.
Qed.

Lemma spared_meta (e : LogEntry) : hoare spared (log_metadata e) (fun r s => spared s /\ forall n, r = Some n -> n = str_len (log_bytes (lg_name e) s)) spared.
Proof.
  pose proof spared_blind as Hb. unfold log_metadata.
  eapply hoare_bind with (R := fun r s => spared s /\ forall n, r = Ok n -> n = str_len (log_bytes (lg_name e) s)).
  - assert (Hh : hoare spared (log_op (fun s => (str_len (log_bytes (lg_name e) s), s)))
      (fun n s => spared s /\ n = str_len (log_bytes (lg_name e) s)) spared) by (by apply hoare_faulted).
    intros s Hs. specialize (Hh s Hs). unfold attempt. destruct (log_op _ s) as [[n|x] s']; [destruct Hh as [? ->]; split; [done|by intros n [= <-]]|by split].
  - intros [n|x]; apply hoare_ret; intros s [Hs Hn]; split; try done. intros m [= <-]. by apply Hn.
Qed.

Lemma keeps_prune (t : Z) (e : LogEntry) (acc : Z * Z) : parse_from_rfc3339 c = Some t -> of_start e -> keeps_any spared (prune_log t e acc).
Proof.
  intros Ht He. pose proof spared_blind as Hb. unfold prune_log. apply keeps_bind_any; [by apply keeps_attempt_any, keeps_look|]. intros [[]|]; [|apply keeps_ret_any].
  destruct (is_prunable_log (lg_name e)) eqn:Hp; cbn [negb]; [|apply keeps_ret_any]. apply keeps_bind_any.
  { apply keeps_bind_any; [by apply keeps_attempt_any, keeps_look|]. intros r. apply keeps_ret_any. }
  intros [len|]; [|apply keeps_ret_any]. destruct (lg_is_file e) eqn:Hf; cbn [negb]; [|apply keeps_ret_any].
  destruct (lg_modified e) as [m|] eqn:Hm; [|apply keeps_ret_any]. destruct (Z.leb_spec t m); [apply keeps_ret_any|].
  apply keeps_bind_any; [|intros r; apply keeps_ret_any]. apply keeps_attempt_any. by eapply keeps_remove_log.
Qed.

(** The entries of a name that have bytes [x]. *)
Definition bytes_are (n x : string) (s : Home) : Prop := spared s /\ forall l e, logs s = Some l -> e ∈ l -> lg_name e = n -> lg_bytes e = x.

Lemma bytes_are_blind (n x : string) : fault_blind (bytes_are n x).
Proof. intros s fs [Hs Hx]. split; [by apply spared_blind|exact Hx]. Qed.

Lemma find_named (l : list LogEntry) (e : LogEntry) : NoDup (map lg_name l) -> e ∈ l -> find_first (named (lg_name e)) l = Some e.
Proof.
  intros Hn He. destruct (find_first (named (lg_name e)) l) as [e'|] eqn:Hf.
  - apply find_first_Some in Hf as [Hin Hnm]. unfold named, str_eqb in Hnm. apply bool_decide_eq_true in Hnm. f_equal. by apply (same_name_same_log l).
  - exfalso. rewrite find_first_None in Hf. specialize (Hf e He). unfold named in Hf. by rewrite str_eqb_refl in Hf.
Qed.

(** A write that leaves an entry of the name with what the cap may leave. *)
Lemma hoare_put (n x y : string) (f : string -> string) : f x = y ->
  (forall l0 e0, logs s0 = Some l0 -> e0 ∈ l0 -> lg_name e0 = n -> log_expired e0 \/ log_capped e0 y) ->
  hoare (bytes_are n x) (put_log n f) (fun _ => bytes_are n y) spared.
Proof.
  intros Hy Hok. apply hoare_faulted; [apply bytes_are_blind|by intros s [? _]|]. intros s [[? ? ? ? ? ? Hl Hno] Hx]. cbn. split.
  - split; try done; cbn; [|by intros Hn; rewrite (Hno Hn)]. intros l0 Hl0. destruct (Hl l0 Hl0) as (l & Hls & Hn & Hall). rewrite Hls. cbn. eexists. split; [reflexivity|]. split.
    { rewrite map_map. erewrite map_ext; [exact Hn|]. intros e. by destruct (named n e). }
    intros e0 He0. destruct (Hall e0 He0) as [(b & Hb & Hk)|?]; [|by right].
    assert (Hin := Hb). apply (list_elem_of_fmap_2 (fun e => if named n e then mkLog (lg_name e) (lg_is_file e) (lg_modified e) (f (lg_bytes e)) else e)) in Hin.
    cbn [lg_name lg_is_file lg_modified lg_bytes] in Hin. destruct (decide (lg_name e0 = n)) as [Heq|Hne].
    + destruct (Hok l0 e0 Hl0 He0 Heq) as [?|Hc]; [by right|left]. exists y. split; [|by right].
      unfold named in Hin at 1. cbn [lg_name] in Hin. rewrite Heq, str_eqb_refl in Hin. rewrite <-Heq in Hin at 1.
      pose proof (Hx l _ Hls Hb Heq) as Hbx. cbn in Hbx. subst b. by rewrite Hy in Hin.
    + left. exists b. split; [|done]. unfold named in Hin at 1. cbn [lg_name] in Hin. unfold str_eqb in Hin at 1. by rewrite bool_decide_eq_false_2 in Hin.
  - intros l e Hls He Hn. cbn in Hls. destruct (logs s) as [l'|] eqn:Hl'; [|done]. cbn in Hls. injection Hls as <-.
    apply list_elem_of_fmap in He as (e' & -> & He'). destruct (named n e') eqn:Hnm.
    + cbn. unfold named, str_eqb in Hnm. apply bool_decide_eq_true in Hnm. by rewrite (Hx l' e' eq_refl He' Hnm).
    + unfold named in Hnm. rewrite Hn, str_eqb_refl in Hnm. done.
Qed.

Lemma find_byte_drop (t : string) : str_len (from_line_start t) <= str_len t.
Proof. unfold from_line_start, str_len. destruct (find_byte _ t); [rewrite str_drop_length|]; lia. Qed.

Lemma log_tail_length (b : string) : str_len (log_tail b) <= LOG_FILE_TAIL_KEEP_BYTES.
Proof.
  unfold log_tail. etrans; [apply find_byte_drop|]. unfold str_len. rewrite str_drop_length. unfold LOG_FILE_TAIL_KEEP_BYTES. lia.
Qed.

Lemma notice_length : str_len LOG_TRUNCATION_NOTICE = 68.
Proof. by vm_compute. Qed.

(** A log that is oversized is whole. *)
Lemma oversized_whole (n : string) (s : Home) : spared s -> LOG_FILE_SIZE_CAP_BYTES < str_len (log_bytes n s) ->
  bytes_are n (log_bytes n s) s /\ forall l0 e0, logs s0 = Some l0 -> e0 ∈ l0 -> lg_name e0 = n -> log_expired e0 \/ lg_bytes e0 = log_bytes n s.
Proof.
  intros Hs Hlen. split; [split; [done|]|].
  - intros l e Hl He <-. destruct (logs s0) as [l0|] eqn:Hl0.
    + destruct (sp_logs _ Hs l0 Hl0) as (l' & Hl' & Hn & _). assert (l' = l) as -> by congruence. unfold log_bytes. rewrite Hl. cbn. by rewrite (find_named l e Hn He).
    + by rewrite (sp_no_logs _ Hs Hl0) in Hl.
  - intros l0 e0 Hl0 He0 Hn. destruct (sp_logs _ Hs l0 Hl0) as (l & Hl & Hnd & Hall). destruct (Hall e0 He0) as [(b & Hb & Hk)|?]; [right|by left].
    assert (Hbs : log_bytes n s = b). { unfold log_bytes. rewrite Hl. cbn. pose proof (find_named l _ Hnd Hb) as Hf. cbn [lg_name] in Hf. by rewrite <-Hn, Hf. }
    rewrite Hbs. destruct Hk as [->|(_ & _ & _ & k & Hk)]; [done|]. exfalso. rewrite Hbs in Hlen. subst b. pose proof (log_tail_length (lg_bytes e0)) as Ht.
    pose proof notice_length as Hnl. unfold str_len in *. rewrite str_take_length, str_length_append in Hlen.
    unfold LOG_FILE_SIZE_CAP_BYTES, LOG_FILE_TAIL_KEEP_BYTES in *. lia.
Qed.

Lemma own_faults (s : Home) : s = set_home_faults (home_faults s) s.
Proof. by destruct s. Qed.

Lemma hoare_touch (P : Home -> Prop) : fault_blind P -> (forall s, P s -> spared s) -> hoare P touch (fun _ => P) spared.
Proof. intros Hb Hs. by apply hoare_faulted. Qed.

(** The truncation of a log of the start that has the bytes [x]. *)
Lemma hoare_truncate (n x : string) : is_capturable_log n = true -> LOG_FILE_SIZE_CAP_BYTES < str_len x ->
  (forall l0 e0, logs s0 = Some l0 -> e0 ∈ l0 -> lg_name e0 = n -> log_expired e0 \/ (lg_bytes e0 = x /\ lg_is_file e0 = true)) ->
  hoare (fun s => bytes_are n x s /\ log_bytes n s = x) (truncate_keeping_tail n (str_len x) LOG_FILE_TAIL_KEEP_BYTES) (fun _ => spared) spared.
Proof.
  intros Hcap Hlen Hst. pose proof (bytes_are_blind n) as Hbl.
  assert (Hok : forall k l0 e0, logs s0 = Some l0 -> e0 ∈ l0 -> lg_name e0 = n ->
    log_expired e0 \/ log_capped e0 (str_take k (String.append LOG_TRUNCATION_NOTICE (log_tail x)))).
  { intros k l0 e0 Hl0 He0 Hn. destruct (Hst l0 e0 Hl0 He0 Hn) as [?|[Hx Hf]]; [by left|right]. split; [by rewrite Hn|]. split; [done|]. rewrite Hx.
    split; [done|]. by exists k. }
  assert (HA : fault_blind (fun s => bytes_are n x s /\ log_bytes n s = x)) by (intros s fs [Hs Hx]; split; [by apply Hbl|exact Hx]).
  assert (HS : forall (y : string) s, bytes_are n y s -> spared s) by (by intros y s [? _]).
  unfold truncate_keeping_tail. cbv zeta.
  eapply hoare_bind; [apply hoare_touch; [exact HA|by intros s [[? _] _]]|]. intros [].
  eapply hoare_bind; [apply hoare_touch; [exact HA|by intros s [[? _] _]]|]. intros [].
  eapply hoare_bind with (R := fun t s => t = str_drop (Z.to_nat (str_len x - Z.min LOG_FILE_TAIL_KEEP_BYTES (str_len x))) x /\ bytes_are n x s).
  { apply hoare_faulted; [exact HA|by intros s [[? _] _]|]. intros s [Hs Hx]. cbn [fst snd]. by rewrite Hx. }
  intros t. eapply hoare_bind with (R := fun _ s => from_line_start t = log_tail x /\ bytes_are n x s).
  { apply hoare_faulted; [intros s fs [Ht Hs]; split; [exact Ht|by apply Hbl]|by intros s [_ [? _]]|]. intros s [-> Hs]. cbn [fst snd]. by split. }
  intros [] s [Ht Hs]. revert s Hs. rewrite Ht. change (hoare (bytes_are n x)
    (let! _ := put_log n (fun _ => "") in let! _ := put_log n (fun b => String.append b LOG_TRUNCATION_NOTICE) in
     let! _ := put_log n (fun b => String.append b (log_tail x)) in let! _ := touch in
     ret (Z.max 0 (str_len x - (str_len (log_tail x) + str_len LOG_TRUNCATION_NOTICE)))) (fun _ => spared) spared).
  eapply hoare_bind; [apply (hoare_put n x ""); [done|exact (Hok 0%nat)]|]. intros [].
  eapply hoare_bind; [apply (hoare_put n "" LOG_TRUNCATION_NOTICE); [done|]|].
  { intros l0 e0 Hl0 He0 Hn. pose proof (Hok (String.length LOG_TRUNCATION_NOTICE) l0 e0 Hl0 He0 Hn) as Hk. by rewrite str_take_append in Hk. }
  intros []. eapply hoare_bind; [apply (hoare_put n LOG_TRUNCATION_NOTICE (String.append LOG_TRUNCATION_NOTICE (log_tail x))); [done|]|].
  { intros l0 e0 Hl0 He0 Hn. pose proof (Hok (String.length (String.append LOG_TRUNCATION_NOTICE (log_tail x))) l0 e0 Hl0 He0 Hn) as Hk.
    by rewrite str_take_all in Hk. }
  intros []. eapply hoare_bind; [apply hoare_touch; [apply Hbl|apply HS]|]. intros []. apply hoare_ret. intros s. apply HS.
Qed.

Lemma keeps_cap (e : LogEntry) (acc : Z * Z) : of_start e -> keeps_any spared (cap_log e acc).
Proof.
  intros He. pose proof spared_blind as Hb. unfold cap_log. apply keeps_bind_any; [by apply keeps_attempt_any, keeps_look|]. intros [[]|]; [|apply keeps_ret_any].
  destruct (is_capturable_log (lg_name e)) eqn:Hc; cbn [negb]; [|apply keeps_ret_any].
  eapply hoare_bind; [apply spared_meta|]. intros [len|]; [|by apply hoare_ret; intros s [? _]].
  destruct (lg_is_file e) eqn:Hf; cbn [negb orb]; [|by apply hoare_ret; intros s [? _]].
  destruct (Z.leb_spec len LOG_FILE_SIZE_CAP_BYTES) as [|Hlt]; [by apply hoare_ret; intros s [? _]|].
  intros s [Hs Hn]. specialize (Hn len eq_refl). rewrite Hn in Hlt.
  destruct (oversized_whole (lg_name e) s Hs Hlt) as [Hby Horig].
  assert (Ht : hoare (fun s' => bytes_are (lg_name e) (log_bytes (lg_name e) s) s' /\ log_bytes (lg_name e) s' = log_bytes (lg_name e) s)
    (truncate_keeping_tail (lg_name e) (str_len (log_bytes (lg_name e) s)) LOG_FILE_TAIL_KEEP_BYTES) (fun _ => spared) spared).
  { apply hoare_truncate; [done|done|]. intros l0 e0 Hl0 He0 Hnm. destruct (He l0 e0 Hl0 He0 Hnm) as [?|[Hf0 _]]; [by left|].
    destruct (Horig l0 e0 Hl0 He0 Hnm) as [?|Hx]; [by left|right]. split; [done|congruence]. }
  specialize (Ht s (conj Hby eq_refl)). rewrite Hn. unfold bind, attempt, ret.
  by destruct (truncate_keeping_tail _ _ _ s) as [[r|x] s'].
Qed.

Lemma keeps_or_zero_spared (ch : M Home Z) : keeps_any spared ch -> hoare spared (or_zero ch) (fun _ => spared) spared.
Proof. intros Hc. eapply hoare_conseq; [apply keeps_or_zero, Hc|done|by intros r0 t0 [? _]|done]. Qed.

End spares.

(** ** What a purge that nothing stops removes *)

Section complete.
Context `{FileLibs} `{RetentionLibs}.
Context (root c : string).

(** The tables but those of the files, and the logs. *)
Definition same_rest (s s' : Home) : Prop :=
  home_faults s' = [] /\ run_rows s' = run_rows s /\ change_rows s' = change_rows s /\ uptime_rows s' = uptime_rows s /\
  preview_steps s' = preview_steps s /\ logs s' = logs s.

Definition blob_gone (f : StoredFile) (s : Home) : Prop := forall p, path_of root f = Some p -> disk s !! p = None.
Definition row_gone (f : StoredFile) (s : Home) : Prop := forall g, g ∈ stored s -> f_id g <> f_id f.

Lemma delete_quiet (i : string) (s : Home) : home_faults s = [] ->
  delete_file i s = (Ok (any (has_id i) (stored s)),
    set_run_artifacts (map (fun a => if bool_decide (ra_file_id a = Some i) then mkArtifact (ra_run_id a) None else a) (run_artifacts s))
       (set_stored (retain (fun f => negb (has_id i f)) (stored s)) s)).
Proof. intros Hs. unfold delete_file. by apply quiet_op. Qed.

Lemma reclaim_quiet (f : StoredFile) (s : Home) : home_faults s = [] ->
  exists s', reclaim root f s = (Ok (any (has_id (f_id f)) (stored s)), s') /\ same_rest s s' /\
    stored s' = retain (fun g => negb (has_id (f_id f) g)) (stored s) /\ blob_gone f s' /\
    (forall p, disk s !! p = None -> disk s' !! p = None).
Proof.
  intros Hs. destruct (quiet_path root (source f) (storage_key f) s Hs) as [e Hp]. fold (path_of root f) in Hp. unfold reclaim.
  erewrite bind_at by (unfold attempt; rewrite Hp; reflexivity). destruct (path_of root f) as [p|] eqn:Ep; cbn [ok_or].
  - erewrite bind_at by (unfold dropped; erewrite bind_at by (unfold attempt, remove_file; rewrite quiet_op by done; reflexivity); reflexivity).
    cbn [fst snd ret]. erewrite bind_at by (unfold attempt; rewrite delete_quiet by done; reflexivity). cbn [ret].
    eexists. split; [reflexivity|]. split; [by repeat split|]. split; [done|]. split.
    + intros q Hq. rewrite Ep in Hq. injection Hq as <-. cbn. apply lookup_delete_eq.
    + intros q Hq. cbn. rewrite lookup_delete. by destruct (decide _).
  - erewrite bind_at by reflexivity. erewrite bind_at by (unfold attempt; rewrite delete_quiet by done; reflexivity). cbn [ret].
    eexists. split; [reflexivity|]. split; [by repeat split|]. split; [done|]. split; [|done]. intros q Hq. by rewrite Ep in Hq.
Qed.

Lemma reclaim_all_quiet (fs : list StoredFile) : forall (n : Z) (s : Home), home_faults s = [] -> NoDup (map f_id fs) -> (forall f, f ∈ fs -> f ∈ stored s) ->
  exists s', reclaim_all root fs n s = (Ok (n + Z.of_nat (length fs)), s') /\ same_rest s s' /\ (forall g, g ∈ stored s' -> g ∈ stored s) /\
    (forall p, disk s !! p = None -> disk s' !! p = None) /\ forall f, f ∈ fs -> row_gone f s' /\ blob_gone f s'.
Proof.
  induction fs as [|f fs IH]; intros n s Hs Hnd Hin.
  { exists s. cbn. split; [by rewrite Z.add_0_r|]. split; [by repeat split|]. split; [done|]. split; [done|]. by intros f Hf%elem_of_nil. }
  cbn [map] in Hnd. apply NoDup_cons in Hnd as [Hni Hnd]. destruct (reclaim_quiet f s Hs) as (s1 & Hr & Hsame & Hst & Hg & Hd).
  assert (Hany : any (has_id (f_id f)) (stored s) = true). { apply any_true. exists f. split; [apply Hin; left|]. unfold has_id. apply str_eqb_refl. }
  rewrite Hany in Hr. assert (Hrow : row_gone f s1).
  { intros g Hg' He. rewrite Hst in Hg'. apply elem_of_retain in Hg' as [Hx _]. unfold has_id in Hx. rewrite He, str_eqb_refl in Hx. done. }
  destruct Hsame as (Hf1 & Hrest). destruct (IH (n + 1) s1) as (s2 & Hr2 & Hsame2 & Hsub & Hd2 & Hall); [done|done| |].
  { intros x Hx. rewrite Hst. apply elem_of_retain. split; [|apply Hin; by right]. unfold has_id, str_eqb. rewrite bool_decide_eq_false_2; [done|].
    intros He. apply Hni. rewrite <-He. by apply (list_elem_of_fmap_2 f_id). }
  exists s2. cbn [reclaim_all]. erewrite bind_at by exact Hr. cbn. rewrite Hr2. split; [f_equal; f_equal; cbn [length]; lia|].
  split; [destruct Hsame2 as (? & ? & ? & ? & ? & ?); destruct Hrest as (? & ? & ? & ? & ?); split; [done|]; repeat split; congruence|].
  split; [intros g Hg2; specialize (Hsub g Hg2); rewrite Hst in Hsub; by apply elem_of_retain in Hsub as [_ ?]|].
  split; [intros p Hp; by apply Hd2, Hd|]. intros x [->|Hx]%elem_of_cons; [|by apply Hall]. split; [|intros p Hp; by apply Hd2, Hg].
  intros g Hg2. by apply Hrow, Hsub.
Qed.

(** *** The logs *)

Definition nameless (n : string) (s : Home) : Prop := forall l, logs s = Some l -> n ∉ map lg_name l.

Lemma nameless_blind (n : string) : fault_blind (nameless n).
Proof. intros s fs Hs. exact Hs. Qed.

Lemma nameless_shrinks (n : string) (s : Home) (p : LogEntry -> bool) : nameless n s -> nameless n (set_logs (retain p <$> logs s) s).
Proof.
  intros Hs l. cbn. destruct (logs s) as [l'|] eqn:El; [|done]. cbn. intros [= <-] Hin. apply (Hs l' El).
  eapply elem_of_sublist; [exact Hin|]. apply (fmap_sublist lg_name), retain_sublist.
Qed.

Lemma nameless_maps (n : string) (s : Home) (f : LogEntry -> LogEntry) : nameless n s -> (forall e, lg_name (f e) = lg_name e) ->
  nameless n (set_logs (map f <$> logs s) s).
Proof.
  intros Hs Hf l. cbn. destruct (logs s) as [l'|] eqn:El; [|done]. cbn. intros [= <-]. rewrite map_map. erewrite map_ext; [by apply Hs|done].
Qed.

(** Quiet states stay quiet. *)
Lemma keeps_quiet_op {A : Type} (e : LocalError) (f : Home -> A * Home) : (forall s, home_faults (snd (f s)) = home_faults s) ->
  hoare (fun s => home_faults s = []) (faulted e f) (fun _ s => home_faults s = []) (fun _ => False).
Proof. intros Hf s Hs. rewrite quiet_op by done. by rewrite Hf. Qed.

Lemma prune_log_quiet (t : Z) (e : LogEntry) (acc : Z * Z) (s : Home) : home_faults s = [] -> exists acc' s',
  prune_log t e acc s = (Ok acc', s') /\ home_faults s' = [] /\ (parse_from_rfc3339 c = Some t -> log_expired c e -> nameless (lg_name e) s').
Proof.
  intros Hs. unfold prune_log. erewrite bind_at by (unfold attempt, touch, log_op; rewrite quiet_op by done; reflexivity). cbn [fst snd].
  assert (Hno : forall acc' : Z * Z, ~ log_expired c e \/ (exists m, lg_modified e = Some m /\ t <= m) -> exists acc0 s',
    ret (S := Home) acc' s = (Ok acc0, s') /\ home_faults s' = [] /\ (parse_from_rfc3339 c = Some t -> log_expired c e -> nameless (lg_name e) s')).
  { intros acc' Hn. exists acc', s. split; [done|]. split; [done|]. intros Ht Hx. exfalso. destruct Hn as [Hn|(m & Hm & Hle)]; [done|].
    destruct Hx as (_ & _ & t' & m' & Ht' & Hm' & Hlt). simplify_eq. lia. }
  destruct (is_prunable_log (lg_name e)) eqn:Hp; cbn [negb]; [|apply Hno; left; intros [? _]; congruence].
  erewrite bind_at by (unfold log_metadata; erewrite bind_at by (unfold attempt, log_op; rewrite quiet_op by done; reflexivity); reflexivity).
  cbn [fst snd ret result_ok]. destruct (lg_is_file e) eqn:Hf; cbn [negb]; [|apply Hno; left; intros (_ & ? & _); congruence].
  destruct (lg_modified e) as [m|] eqn:Hm; [|apply Hno; left; intros (_ & _ & t' & m & _ & ? & _); congruence].
  destruct (Z.leb_spec t m); [apply Hno; right; by exists m|].
  erewrite bind_at by (unfold attempt, remove_log, log_op; rewrite quiet_op by done; reflexivity). cbn [fst snd ret].
  eexists _, _. split; [reflexivity|]. split; [done|]. intros _ _ l Hl Hin. cbn in Hl. destruct (logs s) as [l'|]; [|done]. cbn in Hl. injection Hl as <-.
  apply list_elem_of_fmap in Hin as (x & Hn & Hx). apply elem_of_retain in Hx as [Hx _]. unfold named in Hx. by rewrite <-Hn, str_eqb_refl in Hx.
Qed.

Lemma over_logs_quiet (t : Z) (es : list LogEntry) : forall (acc : Z * Z) (s : Home), home_faults s = [] -> exists acc' s',
  over_logs (prune_log t) es acc s = (Ok acc', s') /\ home_faults s' = [] /\
  (parse_from_rfc3339 c = Some t -> forall e, e ∈ es -> log_expired c e -> nameless (lg_name e) s').
Proof.
  induction es as [|e es IH]; intros acc s Hs; [exists acc, s; split; [done|]; split; [done|]; by intros _ e He%elem_of_nil|].
  destruct (prune_log_quiet t e acc s Hs) as (acc1 & s1 & H1 & Hf1 & Hx1). destruct (IH acc1 s1 Hf1) as (acc2 & s2 & H2 & Hf2 & Hx2).
  exists acc2, s2. cbn [over_logs]. erewrite bind_at by exact H1. split; [done|]. split; [done|]. intros Ht x [->|Hx]%elem_of_cons He; [|by apply Hx2].
  pose proof (keeps_over_logs (nameless (lg_name e)) (prune_log t)) as Hk.
  assert (Hp : forall e0 acc0, keeps_any (nameless (lg_name e)) (prune_log t e0 acc0)).
  { intros e0 acc0. apply keeps_prune_log; [apply nameless_blind|]. intros s' p. apply nameless_shrinks. }
  specialize (Hk Hp es acc1). pose proof (keeps_state _ _ _ s1 Hk (Hx1 Ht He)) as Hk'. by rewrite H2 in Hk'.
Qed.

(** *** The whole *)

Definition total {A : Type} (m : M Home A) : Prop := forall s, exists a s', m s = (Ok a, s').

Lemma total_ret {A : Type} (a : A) : total (ret a).
Proof. intros s. by exists a, s. Qed.

Lemma total_attempt {A : Type} (m : M Home A) : total (attempt m).
Proof. intros s. unfold attempt. destruct (m s) as [r s']. by exists r, s'. Qed.

Lemma total_bind {A B : Type} (m : M Home A) (k : A -> M Home B) : total m -> (forall a, total (k a)) -> total (bind m k).
Proof. intros Hm Hk s. destruct (Hm s) as (a & s' & E). unfold bind. rewrite E. apply Hk. Qed.

Lemma total_each_log (f : LogEntry -> Z * Z -> M Home (Z * Z)) : (forall e acc, total (f e acc)) -> total (each_log f).
Proof.
  intros Hf. apply total_bind; [apply total_attempt|]. intros [[es|]|]; try apply total_ret.
  assert (Hgo : forall acc, total (over_logs f es acc)); [|apply Hgo]. induction es as [|e es IH]; intros acc; [apply total_ret|]. apply total_bind; [apply Hf|]. intros a. apply IH.
Qed.

Lemma total_metadata (e : LogEntry) : total (log_metadata e).
Proof. apply total_bind; [apply total_attempt|]. intros r. apply total_ret. Qed.

Lemma total_cap (e : LogEntry) (acc : Z * Z) : total (cap_log e acc).
Proof.
  apply total_bind; [apply total_attempt|]. intros [[]|]; [|apply total_ret]. destruct (negb _); [apply total_ret|].
  apply total_bind; [apply total_metadata|]. intros [len|]; [|apply total_ret]. destruct (_ || _); [apply total_ret|].
  apply total_bind; [apply total_attempt|]. intros r. apply total_ret.
Qed.

(** The tables and the disk, whatever the logs. *)
Definition same_tables (s s' : Home) : Prop :=
  stored s' = stored s /\ run_rows s' = run_rows s /\ change_rows s' = change_rows s /\ uptime_rows s' = uptime_rows s /\
  preview_steps s' = preview_steps s /\ disk s' = disk s.

Lemma keeps_tables_prune (s : Home) (t : Z) : keeps_any (same_tables s) (prune_expired_logs t).
Proof.
  apply keeps_each_log; [by intros s' fs|]. intros e acc. apply keeps_prune_log; [by intros s' fs|by intros s' p].
Qed.

Lemma keeps_tables_cap (s : Home) : keeps_any (same_tables s) cap_oversized_logs.
Proof. apply keeps_each_log; [by intros s' fs|]. intros e acc. apply keeps_cap_log; [by intros s' fs|by intros s' f]. Qed.

(** The pass over the logs. *)
Lemma logs_quiet (s : Home) : home_faults s = [] ->
  exists n b s', (match parse_from_rfc3339 c with Some t => prune_expired_logs t | None => ret (0, 0) end) s = (Ok (n, b), s') /\ same_tables s s' /\
    forall l e, logs s = Some l -> e ∈ l -> log_expired c e -> nameless (lg_name e) s'.
Proof.
  intros Hs. destruct (parse_from_rfc3339 c) as [t|] eqn:Ht.
  - pose proof (keeps_state _ _ _ s (keeps_tables_prune s t) ltac:(by repeat split)) as Hk. unfold prune_expired_logs, each_log in *.
    erewrite bind_at in * by (unfold attempt, read_dir, log_op; rewrite quiet_op by done; reflexivity). cbn [fst snd] in *.
    destruct (logs s) as [es|] eqn:El.
    + destruct (over_logs_quiet t es (0, 0) s Hs) as ([n b] & s' & Ho & _ & Hx). rewrite Ho in Hk. exists n, b, s'. split; [done|]. split; [exact Hk|].
      intros l e [= <-] He Hexp. by apply Hx.
    + exists 0, 0, s. split; [done|]. split; [by repeat split|]. done.
  - exists 0, 0, s. split; [done|]. split; [by repeat split|]. intros l e _ _ (_ & _ & t & _ & Hx & _). congruence.
Qed.

Lemma cap_quiet (s : Home) : exists n b s', cap_oversized_logs s = (Ok (n, b), s') /\ same_tables s s' /\ forall n, nameless n s -> nameless n s'.
Proof.
  pose proof (keeps_state _ _ _ s (keeps_tables_cap s) ltac:(by repeat split)) as Hk.
  destruct (total_each_log cap_log total_cap s) as ([n b] & s' & E). fold cap_oversized_logs in E. rewrite E in Hk. exists n, b, s'. split; [done|]. split; [exact Hk|].
  intros m Hm. assert (Hn : keeps_any (nameless m) cap_oversized_logs).
  { apply keeps_each_log; [apply nameless_blind|]. intros e acc. apply keeps_cap_log; [apply nameless_blind|]. intros s1 f. apply nameless_maps. }
  pose proof (keeps_state _ _ _ s Hn Hm) as H1. by rewrite E in H1.
Qed.

(** The four deletions, where nothing fails. *)
Lemma zero_quiet {A : Type} (f : Home -> Z * Home) (k : Z -> M Home A) (s : Home) : home_faults s = [] ->
  bind (or_zero (statement f)) k s = k (fst (f s)) (snd (f s)).
Proof. intros Hs. unfold or_zero, bind, attempt, statement. rewrite quiet_op by done. done. Qed.

(** The four, together. *)
Lemma tables_quiet {A : Type} (k : Z -> Z -> Z -> Z -> M Home A) (s : Home) : home_faults s = [] -> exists u p s',
  (let! r := or_zero (purge_old_runs c) in let! h := or_zero (prune_changes c) in let! u := or_zero (prune_uptime c) in
   let! p := or_zero (prune_previews c) in k r h u p) s =
    k (Z.of_nat (size (filter (fun ir => old_run c (snd ir) = true) (run_rows s))))
      (Z.of_nat (size (filter (fun ih => old_change c (snd ih) = true) (change_rows s)))) u p s' /\
  home_faults s' = [] /\ disk s' = disk s /\ logs s' = logs s /\
  (forall g, g ∈ stored s' -> exists f, f ∈ stored s /\ f_id g = f_id f) /\
  (forall i r, run_rows s' !! i = Some r -> old_run c r = false) /\ (forall i h, change_rows s' !! i = Some h -> old_change c h = false) /\
  (forall u, u ∈ uptime_rows s' -> before c (LocalMonitor.us_checked_at u) = false) /\
  (forall p, p ∈ preview_steps s' -> before c (pv_created_at p) = false).
Proof.
  intros Hs. unfold purge_old_runs, prune_changes, prune_uptime, prune_previews, sweep. rewrite !zero_quiet by done. eexists _, _, _.
  split; [reflexivity|]. cbn [fst snd]. split; [done|]. split; [done|]. split; [done|]. cbn [stored run_rows change_rows uptime_rows preview_steps
    set_stored set_run_rows set_run_artifacts set_change_rows set_uptime_rows set_preview_steps]. split; [|split; [|split; [|split]]].
  - intros g Hg. apply list_elem_of_fmap in Hg as (f & -> & Hf). exists f. split; [done|]. by destruct (source_run_id f); [destruct (match _ with Some x => _ | None => _ end)|].
  - intros i r. rewrite lookup_fmap. intros Hi. apply fmap_Some in Hi as (x & Hi & ->). apply map_lookup_filter_Some in Hi as [_ Hi]. cbn in Hi.
    destruct (RunRows.change_id x); [destruct (match _ with Some y => _ | None => _ end)|]; exact Hi.
  - intros i h Hi. by apply map_lookup_filter_Some in Hi as [_ ?].
  - intros u Hu. apply elem_of_retain in Hu as [Hu _]. by apply negb_true_iff in Hu.
  - intros p Hp. apply elem_of_retain in Hp as [Hp _]. by apply negb_true_iff in Hp.
Qed.

End complete.

(** ** The maintenance loop *)

Section maintenance.
Context `{FileLibs} `{RetentionLibs}.
Context (root : string).

(** A pass marks the purge it makes; two purges are a purge's interval apart, and the first pass purges. *)
Lemma pass_marks (m : MaintenanceConfig) (w : Wake) (last last' : option Z) (s s' : Home) :
  maintenance_pass root m w last s = Some (last', s') ->
  last' = (if purge_due ((fun t => wk_read w - t) <$> last) (mc_purge_every m) then Some (wk_mark w) else last) /\
  (forall t, last = Some t -> last' <> last -> t + mc_purge_every m <= wk_read w).
Proof.
  unfold maintenance_pass. destruct last as [t|]; cbn [fmap option_fmap option_map].
  - destruct (purge_due _ _) eqn:Hd.
    + destruct (purge_with_config _ _ _); [|done]. cbn. intros [= <- <-]. split; [done|]. intros ? [= <-] _. cbn in Hd. apply Z.leb_le in Hd. lia.
    + intros [= <- <-]. by split.
  - cbn. destruct (purge_with_config _ _ _); [|done]. cbn. intros [= <- <-]. by split.
Qed.
End maintenance.

(** ** Examples *)

#[local] Existing Instances file_libs file_laws file_sizes.
#[local] Instance demo_files : FileLibs := {| digest := string_to_bytes; canonical := Some |}.
(** The first months of 2026, a day per hundred; a subtraction of more than 96 million days is out of chrono's range. *)
#[local] Instance demo_calendar : RetentionLibs :=
  {| days_before := fun now d => if 96000000 <? d then None else Some (Z_to_string (now - 100 * d)); parse_from_rfc3339 := parse_i64 |}.

Definition demo_run (i : Z) (at_ : string) : RunRows.Run := RunRows.insert_row i at_ (RunRows.mkNewRun None None None None None None None).
Definition demo_draw (n : string) : Draw := mkDraw n n demo_base.
Definition demo_state (log : list LogEntry) (fs : list bool) : Home :=
  mkHome [] {[1 := demo_run 1 "10000"; 2 := demo_run 2 "20000"]} [] ∅ [] [] {["/tmp/a" := "abc"; "/tmp/b" := "abc"]} (Some log) fs.
Definition with_faults (fs : list bool) (s : Home) : Home := set_home_faults fs s.
Definition demo_blob (s : Home) : list string := filter (fun p => starts_with p "/w/" = true) (map fst (map_to_list (disk s))).

Lemma demo_state_ok (log : list LogEntry) : store_ok "/w" demo_entropy (demo_state log []).
Proof. split; try apply NoDup_nil_2. intros f p b x Hf. by apply not_elem_of_nil in Hf. Qed.

Lemma stored_bytes_kept_witness :
  let s := demo_state [] [] in
  let '(r, s1) := create_file "/w" demo_entropy "30000" (demo_draw "0a") "abc" "a.txt" None "upload" s in
  match r with
  | Ok f =>
      match read_file_bytes "/w" demo_entropy (f_id f)
              (foldl (perform "/w" demo_entropy) s1 [Create "30001" (demo_draw "0b") "xyz" "b.txt" None "workflow_output"; Purge "15000"]) with
      | (Ok b, _) => b = "abc" /\ sha256_hex b = sha256_hex "abc"
      | _ => False
      end
  | Err _ => False
  end.
Proof.
  cbv zeta. destruct (create_file _ _ _ _ _ _ _ _ _) as [[f|e] s1] eqn:Ec; [|vm_compute in Ec; discriminate Ec].
  destruct (read_file_bytes _ _ _ _) as [[b|e] s2] eqn:Er; [|vm_compute in Ec; injection Ec as <- <-; vm_compute in Er; discriminate Er].
  split; [vm_compute in Ec; injection Ec as <- <-; vm_compute in Er; injection Er as <- _; reflexivity|].
  refine (stored_bytes_kept "/w" demo_entropy "30000" (demo_draw "0a") "abc" "a.txt" None "upload" (demo_state [] []) s1 s2 f _ b (demo_state_ok []) _ Ec _ Er).
  - repeat split; try (by apply not_elem_of_nil); done.
  - vm_compute in Ec. injection Ec as <- <-. split; [|exact (conj I I)]. split; [|split; [|split]]; [..|discriminate|reflexivity].
    + intros Hin. apply list_elem_of_singleton in Hin. discriminate Hin.
    + intros Hin. apply list_elem_of_singleton in Hin. discriminate Hin.
Defined.

(** A state with an output of an old run and one of a new run, an upload, and logs. *)
Definition demo_log (n : string) (m : Z) : LogEntry := mkLog n true (Some m) "line".
Definition demo_home : Home :=
  let s := demo_state [demo_log "agentd.log" 12000; demo_log "crash-1.json" 16000; demo_log "notes.txt" 100] [] in
  let s := snd (capture_output "/w" demo_entropy "10001" (demo_draw "0a") "/tmp/a" "a.txt" None 1 s) in
  let s := snd (create_file "/w" demo_entropy "10002" (demo_draw "0b") "upl" "u.txt" None "upload" s) in
  snd (create_file "/w" demo_entropy "10003" (demo_draw "0c") "got" "d.bin" None "workflow_output" s).
Definition ids (s : Home) : list string := map f_id (stored s).

Lemma demo_home_ids : NoDup (map f_id (stored demo_home)).
Proof. apply (bool_decide_unpack _). vm_compute. exact I. Qed.

Lemma demo_home_logs (l : list LogEntry) : logs demo_home = Some l -> NoDup (map lg_name l).
Proof. intros Hl. vm_compute in Hl. injection Hl as <-. apply (bool_decide_unpack _). vm_compute. exact I. Qed.



(** A file that a run downloads is stored without its run ([create_file]), and never ages out: not even a century on. *)
Example download_never_ages :
  let s := snd (purge_older_than "/w" "99999" demo_home) in ids s = ["file_0b"; "file_0c"] /\ length (demo_blob s) = 2%nat.
Proof. vm_compute. by split. Qed.

(** The same bytes from two runs are one file, of the first: it goes with the first run, from under the second. *)
Example shared_output_reclaimed :
  let s := snd (capture_output "/w" demo_entropy "10001" (demo_draw "0a") "/tmp/a" "a" None 1 (demo_state [] [])) in
  let '(r, s) := capture_output "/w" demo_entropy "20001" (demo_draw "0b") "/tmp/b" "b" None 2 s in
  let s := snd (purge_older_than "/w" "15000" s) in
  (f_id <$> result_ok r) = Some "file_0a" /\ is_Some (run_rows s !! 2) /\ fst (read_file_bytes "/w" demo_entropy "file_0a" s) = Err (NotFound "file file_0a").
Proof. vm_compute. split; [done|]. split; [by eexists|done]. Qed.

(** A pass over the outputs that fails does not stop that over the runs: without its run the output is never found again, and stays. *)
Example failed_pass_orphans_output :
  let s := snd (purge_older_than "/w" "15000" (with_faults [true] demo_home)) in
  let s := snd (purge_older_than "/w" "99999" s) in
  ids s = ["file_0a"; "file_0b"; "file_0c"] /\ length (demo_blob s) = 3%nat /\ run_rows s = ∅.
Proof. vm_compute. split; [done|]. split; done. Qed.

(** A blob that cannot be removed loses its row, and stays. *)
Example unremoved_blob_forgotten :
  let s := snd (purge_older_than "/w" "15000" (with_faults [false; false; true] demo_home)) in
  ids s = ["file_0b"; "file_0c"] /\ length (demo_blob s) = 3%nat.
Proof. vm_compute. by split. Qed.

(** A file that is deleted keeps its bytes, and no purge takes them: its row is no longer live. *)
Example removed_file_keeps_bytes :
  let '(r, s) := remove "10005" "file_0a" demo_home in
  let s := snd (purge_older_than "/w" "99999" s) in
  r = Ok "file_0a" /\ ids s = ["file_0a"; "file_0b"; "file_0c"] /\ length (demo_blob s) = 3%nat.
Proof. vm_compute. by split_and!. Qed.

(** Any name with [.log.] inside is a log's, an operator's notes too. *)
Example notes_taken_for_log :
  logs (snd (purge_older_than "/w" "15000" (demo_state [demo_log "incident.log.notes.md" 100; demo_log "notes.txt" 100] []))) =
    Some [demo_log "notes.txt" 100].
Proof. vm_compute. reflexivity. Qed.

(** A plaintext copy whose mode cannot be set stays: no guard was made for it. *)
Example unguarded_plaintext_left :
  let '(r, s) := materialize_for_run "/w" demo_entropy "7" "file_0a"
                   (with_faults [false; false; false; false; false; false; false; false; true] demo_home) in
  r = Err Io /\ disk s !! "/w/artifacts/input_tmp/mat_7/a.txt" = Some "abc".
Proof. vm_compute. by split. Qed.

(** A window that leads out of the calendar panics, and the maintenance of a worker ends with it. *)
Example endless_window_ends_maintenance :
  fst (spawn_maintenance "/w" (maintenance 4000000000) [mkWake 0 0 20000] demo_home) = false /\
  fst (spawn_maintenance "/w" (maintenance 30) [mkWake 0 0 20000] demo_home) = true.
Proof. vm_compute. by split. Qed.
